(* ===== verification/_CoqProject ===== *)
-Q . S2P
Prelude.v
RustString.v
Confidence.v
Kahn.v
Dag.v
DagCycle.v
Mention.v
DagOps.v
Schedule.v
DagInv.v
DagGrow.v
DagSafety.v
DagClaims.v
Sim.v
Plan.v
PlanClaims.v
Bridge.v
BridgeClaims.v
Swarm.v
SwarmClaims.v
Interrupt.v
Float32.v
TopK.v
Memory.v
MemoryGraph.v
MemoryInv.v
MemoryClaims.v
RustText.v
ToolFs.v
FileTools.v
UnifiedPatch.v
FileToolsClaims.v
ApplyPatch.v
ApplyPatchClaims.v
PatchRoundtrip.v
CommGraph.v
CommGraphClaims.v
Message.v
MessageClaims.v
Compaction.v
CompactionClaims.v
Manager.v
ManagerClaims.v
ModelId.v
Routes.v
Failover.v
RoutesClaims.v
FailoverClaims.v
OpenAiRequest.v
OpenAiRequestClaims.v
Schema.v
SchemaClaims.v
SwarmServer.v
SwarmServerClaims.v
Mutation.v
MutationClaims.v
Control.v
ControlClaims.v
PlanComm.v
PlanCommClaims.v
Await.v
AwaitClaims.v
Storage.v
StorageClaims.v
Persist.v
PersistFacts.v
PersistCodec.v
PersistClaims.v
Session.v
SessionStore.v
SessionFacts.v
SessionCodec.v
SessionClaims.v
OpenAiStream.v
OpenAiStreamClaims.v
Agent.v
AgentTurn.v
AgentFacts.v
AgentClaims.v
AgentShown.v
