(* ===== verification/Prelude.v ===== *)
(** * Verification of the jcode planning, conversation and routing core

    jcode is a headless coding agent.  A session talks to a model provider,
    edits files with tools, keeps its conversation within the context window by
    compaction, and can coordinate a swarm of worker agents that share one plan:
    a graph of tasks, handed to workers, decomposed or completed by them, and in
    deep mode audited level by level by gates.  Agents also share a memory graph
    of what they learned.  This development models that core, function by
    function, and proves what makes it correct.

    ** Parts of the program and their files

    Planning and the swarm:
    - crates/jcode-plan/src/dag/mod.rs, the task graph.  Dag.v: nodes, specs,
      artifacts, errors with their messages, [TaskGraph] and its queries.
      Confidence.v: [ConfidenceLevel::parse] on binary64.  Kahn.v and
      DagCycle.v: [cycle_nodes].
    - crates/jcode-plan/src/dag/ops.rs, the validated mutations.  DagOps.v:
      [seed], [expand_node], [complete_node], [fail_node], [inject_from_gate],
      [requeue_failed], the root gate, gate validation; each is a computation of
      the state-and-error monad below.  Mention.v: [mentions_node_id].
    - crates/jcode-plan/src/dag/schedule.rs and sim.rs.  Schedule.v: the ready
      set, [dispatch], [assemble_input].  Sim.v: the simulator, for an arbitrary
      stateful worker.
    - crates/jcode-plan/src/lib.rs, the stored plan.  Plan.v: [VersionedPlan],
      the summary, automatic and explicit assignment, reclaim, task control.
    - crates/jcode-plan/src/bridge.rs.  Bridge.v: lifting the stored plan into
      the engine and lowering it back; the JSON codec is a parameter.
    - crates/jcode-app-core/src/server/comm_graph.rs, with session_effort.rs and
      the efforts of jcode-base/src/prompt.rs.  CommGraph.v: the four request
      handlers, whose critical sections under the plan lock are single steps,
      and the election of the coordinator.
    - crates/jcode-app-core/src/server/swarm.rs and state.rs.  SwarmServer.v:
      members, plans and coordinators of all swarms ([SwarmState]); the tree of
      spawned sessions, salvage of dead workers' tasks, heartbeats and the
      staleness sweep, removal of a session, status updates and whom they are
      reported to, fan-out to connections, debounced broadcasts as interleaved
      steps.  What a handler sends, saves or starts is a list of [Effect]s.
    - server/swarm_mutation_state.rs and durable_state.rs.  Mutation.v: the
      deduplication of requests, its sections under the lock as steps of a
      [World] of threads, clock and files.
    - server/comm_control.rs.  Control.v: choice and claims of workers, the
      prompts they get, the progress records of a run from start to end, and the
      handlers that assign roles and tasks and control them.
    - server/comm_plan.rs.  PlanComm.v: proposals, direct updates, approvals and
      rejections.
    - server/comm_await.rs and await_members_state.rs.  Await.v: waiting for
      members to reach a status, stored waits, watchers and waiters.
    - crates/jcode-storage/src/lib.rs.  Storage.v: files replaced by a rename,
      with a backup, over a directory whose calls succeed, fail or crash.
      server/swarm_persistence.rs, with its entry points in server.rs.
      Persist.v: snapshots of swarms, their removal, and loading after a
      restart (PersistCodec.v: an encoding of snapshots, for the examples).
    - crates/jcode-swarm-core/src/lib.rs.  Swarm.v: the channel index, names,
      summaries, labels, directives and reports.
    - crates/jcode-agent-runtime/src/lib.rs.  Interrupt.v: [InterruptSignal] as
      interleavings of its atomic accesses.

    Memory:
    - crates/jcode-memory-types/src/lib.rs and graph.rs.  TopK.v: the bounded
      heap selection (binary32 scores in Float32.v).  Memory.v: entries, search
      text, the flat store, prompt formatting.  MemoryGraph.v: the memory graph
      with its reverse index, tags, cascade retrieval and migration.

    Tools that change files:
    - crates/jcode-tool-core, jcode-tool-types and the shared parts of
      jcode-app-core/src/tool.  ToolFs.v: paths, outputs, previews and diffs over
      an abstract file system with a log of events.
    - tool/edit.rs, multiedit.rs, write.rs, read.rs: FileTools.v.
      tool/patch.rs: UnifiedPatch.v.  tool/apply_patch.rs: ApplyPatch.v.

    Conversations:
    - crates/jcode-message-types/src/lib.rs.  Message.v: messages, blocks, tool
      calls, hashes, timestamps, dynamic context.
    - crates/jcode-compaction-core/src/lib.rs.  Compaction.v: the safe cutoff,
      transcripts and prompts, estimates, emergency truncation.
    - crates/jcode-base/src/compaction.rs.  Manager.v: [CompactionManager], its
      triggers, background task, application of results, hard and emergency
      compaction, persistence (Float32.v: the arithmetic it uses).
    - crates/jcode-base/src/session.rs with session/model.rs and the types of
      jcode-session-types and jcode-protocol it stores.  Session.v: the session,
      the methods that change its transcript, titles, status and recorded
      events, the marks of what is unsaved, and the cache of messages for the
      provider.  session/persistence.rs, journal.rs, storage_paths.rs and
      [append_json_line_fast] of jcode-storage.  SessionStore.v: saving by a
      snapshot or by an entry appended to a journal, replay and salvage of a
      journal, and the three ways of loading, over the directory of Storage.v
      (SessionCodec.v: an encoding that fulfils the laws, for the examples).
    - crates/jcode-app-core/src/agent.rs and agent/messages.rs, interrupts.rs,
      response_recovery.rs, compaction.rs, tools.rs, prompting.rs.  Agent.v: the
      state of an agent and its methods, as computations of a monad with the
      agent, the world it shares (class [AgentEnv]) and the events sent to the
      client.  agent/turn_loops.rs, turn_streaming_mpsc.rs and the entry points
      of turn_execution.rs.  AgentTurn.v: the two loops of a turn.

    Providers, crates/jcode-provider-core/src:
    - model_id.rs, models.rs, anthropic.rs, reasoning.rs: ModelId.v.
    - auth_mode.rs, selection.rs, fallback_pick.rs, catalog_refresh.rs and the
      route types of lib.rs: Routes.v.
    - failover.rs, transport.rs, retry_after.rs, attempt_tracker.rs: Failover.v.
    - openai_schema.rs, with [build_tools] of jcode-provider-openai: Schema.v.
    - crates/jcode-provider-openai/src/request.rs.  OpenAiRequest.v: the passes
      that turn a conversation into the input items of a request.
    - crates/jcode-provider-openai/src/stream.rs.  OpenAiStream.v: the stream of
      chunks, the events of the API, tool calls that arrive in pieces or wrapped
      in text, output items, images, usage and errors.

    RustString.v and RustText.v hold the string and character operations all of
    these use, on UTF-8 bytes.

    The handlers of CommGraph.v lift the plan (Bridge.v), call one engine
    operation (DagOps.v), lower the result, and work is dispatched from the plan
    (Plan.v) by the handlers of Control.v, each at most once per request
    (Mutation.v); tasks of workers that die or leave return to the plan
    (SwarmServer.v), plans also grow by approved proposals (PlanComm.v), and a
    coordinator waits for its workers (Await.v).  A worker's prompt is built from the artifacts of its dependencies
    and ends with the directives of Swarm.v; a running worker is stopped through
    Interrupt.v; what it learned goes through Memory.v into MemoryGraph.v.  The
    manager of Manager.v calls the functions of Compaction.v on the messages of
    Message.v; the result is sent with the items of OpenAiRequest.v and the
    tools of Schema.v, the answer comes back through OpenAiStream.v, and the
    conversation is kept by Session.v and SessionStore.v; a turn of the agent
    (AgentTurn.v) does all of this, request after request, until an answer calls
    no more tools.  A failed request is classified and retried by Failover.v and
    switched to another route by Routes.v.

    ** What the theorems show

    - DagInv.v, DagGrow.v, DagSafety.v, DagClaims.v: an engine step
      relation with one constructor per mutation; a structural and an execution
      invariant of every reachable graph; from them, that a passed root gate
      means all work is done, that a closed composite has a closed subtree, that
      a quiet graph always has ready work, that running work keeps its owner,
      exactly when a gate passes, and that replaying a seed is harmless at any
      later time.  Failed calls leave the graph unchanged.
    - DagCycle.v, PlanClaims.v: the two cycle checks are exact, agree, and do not
      depend on hash-map order.
    - Sim.v: the simulator ends and reports truthfully; cooperative light plans
      finish.
    - PlanClaims.v: classification and order of ready items, agreement of
      explicit and automatic assignment, the bound on reclaims, renames.
    - BridgeClaims.v: lower-then-lift is the identity, and the live scheduler
      and prompts refine the engine's.
    - CommGraphClaims.v: every sequence of requests keeps the stored plan the
      image of an engine run; what a rejected request leaves behind; concurrent
      seeders agree on one live coordinator.
    - SwarmServerClaims.v: ownership is reachability in the
      spawn tree, whatever cycles it has; a removed session leaves no reference
      and a determined successor, the sweep takes tasks only from the dead (where
      they speak of every task, the ids of the plan are distinct); ends
      of workers are reported to the right session; debounced broadcasts never
      lose the last change.
    - MutationClaims.v: in every interleaving a mutation has one executor and
      each request one answer; when a stored answer is replayed.
    - ControlClaims.v: the worker picked is the best free candidate, whatever the
      order of the member table, and concurrent picks are disjoint; what an
      assignment changes, and that a refused control request changes nothing;
      what the end of a turn does to a node of a deep plan.
    - PlanCommClaims.v: no sequence of requests, runs, sweeps and departures
      closes a cycle in a stored plan, if a commit finds the dependencies that its
      check has read; an approved proposal is applied once.
    - AwaitClaims.v: a wait ends exactly when its members say so; however its
      requests and watchers interleave, no waiter is answered twice or lost.
    - StorageClaims.v, PersistFacts.v, PersistClaims.v: a crash logic of triples
      with a crash condition; at every crash point a file is the old or the new
      one, and so is a swarm's snapshot; the plan in a swarm's own file never
      goes back to an older version; a restart restores a swarm up to expiry;
      recovered members are not live and their retention does not start again.
    - SwarmClaims.v: the channel index refines a set of triples; bounds and idempotence of texts, names round trip.
    - Interrupt.v: in every interleaving no fire is erased and no wakeup lost.
    - TopK.v, MemoryInv.v, MemoryClaims.v: selection keeps the
      best items; edges, reverse index, tag counters and tag lists agree on
      every graph the callers reach; removal leaves nothing dangling; lookup by
      tag and migration are exact; cascade retrieval ends and is sound.
    - FileToolsClaims.v: the edit tool on every branch, multiedit as a sequence
      of edits, pages that tile a file, the outcome of a unified hunk.
      ApplyPatchClaims.v, PatchRoundtrip.v: an update is the
      replacement of the located chunks, the tool touches only the files its
      patch names, and a rendered patch parses back.
    - MessageClaims.v: sanitised identifiers, insertion of dynamic context,
      fresh turns.  CompactionClaims.v: the cutoff is the
      largest safe one, images go oldest first, bounds of the texts.
      ManagerClaims.v: under any calls the skipped prefix has a summary and no
      result is stale, and the count of live characters is exact unless a stale
      one was trusted; hard compaction on every branch, persistence round trip, when
      the trigger panics, transparency of the embedding cache.
    - SessionFacts.v, SessionClaims.v: after any history of edits, saves and
      restarts a session loads back as it was saved; an interrupted save leaves
      files that load, with the old or the new session, or the new one with the
      journal applied twice; the provider cache is transparent; what a journal
      does not store, and what a cut character does to it.
    - AgentFacts.v, AgentClaims.v, AgentShown.v: a small program logic for the
      agent's computations; whatever happened before, when a request is prepared
      every tool call of the transcript has its result, and the incremental
      repair that sees to it is a full one; the tools of a response get one
      result each, in order, on every branch; a turn without tools ends within
      30 requests; the client sees a response up to a tool call hidden in its
      text.
    - RoutesClaims.v: the bucketed deduplication is the reference one and keeps
      one representative; the fallback is the best eligible route; credentials
      mean the same in every vocabulary; refresh summaries add up.
      FailoverClaims.v: server delays are exact and capped, failover prompts
      round trip, the attempt tracker is exact in every interleaving and its
      guard resolves.
    - OpenAiRequestClaims.v: in every request each tool call is directly followed
      by its one output, and that output is the first result the conversation
      records.  OpenAiStreamClaims.v: the events do not depend on how the network
      cuts the text (between characters; inside one, both chunks are lost), tool
      calls come out whole, and a call that arrives in pieces is reported exactly
      once.  SchemaClaims.v: the schemas sent have no [oneOf] or [allOf] at any
      depth and strict ones are closed and require all they list.

    ** Fuel and parameters

    Loops that are not structural carry fuel, and the fuel the code's model uses
    is proved enough: the cycle loop runs once per distinct id, the search for a
    gate id tries at most one candidate more than there are nodes, the simulator
    needs [max_steps + 1] rounds, cascade retrieval takes one iteration per
    seed and per tag or edge neighbour of a memory, the patch parsers one round
    per line, the walk up the spawn tree one step per member and one more, and
    the search for a hard cutoff halves the turns it keeps; the loops over the
    text of a journal line or of the response buffer take a character or more
    each round and get the length of the text.  The loops of a turn need not
    end, as long as the provider asks for tools: they take fuel, one unit for a
    request, and a turn that runs out of it is the outcome [Spins], which is
    never taken for a result; 30 is enough where no tools are asked for.

    Parameters stand for what the sources only call: the JSON codec of artifacts
    (hypothesis: an encoded artifact decodes to itself) and of failover prompts
    (an encoded prompt is an object on one line and decodes to itself),
    [serde_json::Value] (class [Json]), [chrono] (class [Chrono]), the file
    system and the text diff of the tools, the Unicode tables (classes
    [Lowercase] and [Unicode]), the embedder and the provider of the manager,
    HTTP dates, clocks and jitter, the simulator's worker, [f32::powi] (left
    imprecise by Rust), the iteration order of hash maps (class [MapIter] for the
    member table, with laws), closed connections, sessions with a live agent, the
    digest of request keys, the JSON codec of snapshots (what is encoded decodes
    to itself and is UTF-8) and of sessions and journal entries (class
    [CodecLaws]: besides, an entry is one line that no shorter text parses as),
    the parser of the response stream, base64, the outcomes of file system calls, the order of
    directories, and the spawning of a worker session.  What an agent shares or
    calls is the class [AgentEnv]: clock, identifiers, saving, the compaction
    manager behind its lock, queues and signals, the provider's replies, tools;
    its one law, that saving keeps the messages, is proved of SessionStore.v.
    Counters keep their
    width and wrap or saturate as in the release profile; a panic is [None].

    ** Not modelled

    Serde attributes and derives, logging, the mermaid rendering of a plan, the
    decaying scores of memories (exp, ln, sqrt), the image, PDF and binary
    branches of the read tool, the variants of the compaction manager over
    stored messages, what an agent prints, measures or shows beside its answers
    (traces, hooks, cache accounting, inline tails, side-pane images), restoring
    and exporting of its sessions, and the crates around the core: the async
    server loop, its client sessions and other tools (jcode-app-core; handlers
    start turns without a model of them), configuration and authentication flows
    (jcode-base), provider back ends, the protocol's wire types and the rest of
    the storage crate, which are I/O or third-party glue around the modelled
    parts.  Pure parts that could be added in the same way are the price tables
    of jcode-provider-core, the connection health of jcode-provider-openai, the
    plan rendering, and the spawning of workers (comm_session.rs).

    ** This file

    The result type of fallible Rust code, the state-and-error monad in which
    the graph mutations are written, a stable insertion sort standing for
    [slice::sort_by], total orders as a class, the list lemmas the components
    share, and the automation: [break], [bool_hyps], [membership] and the hint
    database [jcode]. *)

From stdpp Require Import base list sorting gmap strings.

(** ** Results *)

(** Rust's [Result<T, E>]. *)
Inductive result (T E : Type) : Type :=
| Ok (x : T)
| Err (e : E).
Arguments Ok {T E} _.
Arguments Err {T E} _.

Declare Scope rust_scope.
Delimit Scope rust_scope with rust.

Definition result_bind {A B E} (m : result A E) (k : A → result B E) : result B E :=
  match m with
  | Ok x => k x
  | Err e => Err e
  end.

Definition is_ok {T E} (r : result T E) : bool :=
  match r with Ok _ => true | Err _ => false end.

(** [opt.ok_or_else(|| e)]. *)
Definition ok_or {T E} (o : option T) (e : E) : result T E :=
  match o with Some x => Ok x | None => Err e end.

(** The [?] operator. *)
Notation "'let?' x := m 'in' k" := (result_bind m (λ x, k))
  (at level 10, x pattern, m at level 200, k at level 200) : rust_scope.

(** ** State and errors

    A [&mut S] operation returning [Result<A, E>]: the state survives an
    early return, so "an error leaves the state unchanged" is a theorem about
    an operation and not a consequence of its type. *)
Definition stateE (S E A : Type) : Type := S → result A E * S.

Section StateE.
Context {S E : Type}.

Definition st_ret {A} (x : A) : stateE S E A := λ s, (Ok x, s).
Definition st_err {A} (e : E) : stateE S E A := λ s, (Err e, s).
Definition st_get : stateE S E S := λ s, (Ok s, s).
Definition st_put (s' : S) : stateE S E unit := λ _, (Ok tt, s').
Definition st_modify (f : S → S) : stateE S E unit := λ s, (Ok tt, f s).
Definition st_lift {A} (r : result A E) : stateE S E A := λ s, (r, s).
Definition st_bind {A B} (m : stateE S E A) (k : A → stateE S E B) : stateE S E B :=
  λ s, match m s with
       | (Ok x, s') => k x s'
       | (Err e, s') => (Err e, s')
       end.
(** [if cond { return Err(e) }]. *)
Definition st_guard (fails : bool) (e : E) : stateE S E unit :=
  if fails then st_err e else st_ret tt.
End StateE.

Notation "'do!' x <- m ; k" := (st_bind m (λ x, k))
  (at level 10, x pattern, m at level 100, k at level 200) : rust_scope.
Notation "'run!' m ; k" := (st_bind m (λ _, k))
  (at level 10, m at level 100, k at level 200) : rust_scope.

Open Scope rust_scope.

(** ** Stable sorting

    [slice::sort_by] is stable, [sort_unstable] is used only on distinct
    strings: both are the insertion sort below, for a boolean "less or equal". *)
Section SortBy.
Context {A : Type} (leb : A → A → bool).

Fixpoint insert_sorted (x : A) (l : list A) : list A :=
  match l with
  | [] => [x]
  | y :: l' => if leb x y then x :: l else y :: insert_sorted x l'
  end.

Fixpoint sort_by (l : list A) : list A :=
  match l with
  | [] => []
  | x :: l' => insert_sorted x (sort_by l')
  end.
End SortBy.

(** [String]'s [Ord]: bytewise lexicographic. *)
Definition sort_strings : list string → list string := sort_by String.leb.

(** ** List idioms of the source *)

(** [iter().find(p)]. *)
Definition find_first {A} (p : A → bool) (l : list A) : option A := List.find p l.

(** [if let Some(x) = iter_mut().find(p) { f(x) }]. *)
Fixpoint update_first {A} (p : A → bool) (f : A → A) (l : list A) : list A :=
  match l with
  | [] => []
  | x :: l' => if p x then f x :: l' else x :: update_first p f l'
  end.

(** [iter().filter(|x| seen.insert(x))]: keep the first occurrence of each. *)
Fixpoint dedup_first_from (seen : list string) (l : list string) : list string :=
  match l with
  | [] => []
  | x :: l' => if bool_decide (x ∈ seen) then dedup_first_from seen l'
               else x :: dedup_first_from (x :: seen) l'
  end.
Definition dedup_first : list string → list string := dedup_first_from [].

(** [for d in extra { if !v.contains(d) { v.push(d) } }]. *)
Fixpoint push_missing (v extra : list string) : list string :=
  match extra with
  | [] => v
  | d :: extra' => push_missing (if bool_decide (d ∈ v) then v else v ++ [d]) extra'
  end.

(** [x + 1] on [u32] and [u64] in the release profile, which wraps. *)
Definition u32_succ (n : N) : N := ((n + 1) mod 2 ^ 32)%N.
Definition u64_succ (n : N) : N := ((n + 1) mod 2 ^ 64)%N.

(** [*map.entry(key).or_default() += n]. *)
Definition bump (key : string) (n : nat) (m : gmap string nat) : gmap string nat :=
  <[key := default 0 (m !! key) + n]> m.

(** The elements of a [BTreeSet<String>], in order. *)
Definition btree_set (l : list string) : list string := sort_strings (dedup_first l).

(** ** Total orders *)

(** Rust's [Ord]: [cmp] is a total order whose [Equal] is equality. *)
Class TotalOrder {K : Type} (cmp : K → K → comparison) : Prop := {
  cmp_eq : ∀ x y, cmp x y = Eq ↔ x = y;
  cmp_opp : ∀ x y, cmp y x = CompOpp (cmp x y);
  cmp_lt_trans : ∀ x y z, cmp x y = Lt → cmp y z = Lt → cmp x z = Lt }.

(** [a.cmp(b).then_with(|| c)]. *)
Definition then_with (c d : comparison) : comparison := match c with Eq => d | _ => c end.

Definition not_greater (c : comparison) : bool := match c with Gt => false | _ => true end.

(** ** Automation *)

Create HintDb jcode.
Create HintDb contain.

(** Case split on the innermost [match] of the goal, keeping the equation. *)
Ltac break_goal :=
  match goal with
  | |- context [match ?x with _ => _ end] =>
      lazymatch x with context [match _ with _ => _ end] => fail | _ => destruct x eqn:? end
  end.
Ltac break_hyp :=
  match goal with
  | H : context [match ?x with _ => _ end] |- _ =>
      lazymatch x with context [match _ with _ => _ end] => fail | _ => destruct x eqn:? end
  end.
Ltac break := repeat (first [break_hyp | break_goal]; simplify_eq/=).

(** Turn every [bool_decide] equation in the context into its proposition. *)
Ltac bool_hyps :=
  repeat match goal with
  | H : bool_decide _ = true |- _ => apply bool_decide_eq_true in H
  | H : bool_decide _ = false |- _ => apply bool_decide_eq_false in H
  | H : negb _ = true |- _ => apply negb_true_iff in H
  | H : negb _ = false |- _ => apply negb_false_iff in H
  | H : _ && _ = true |- _ => apply andb_true_iff in H as [? ?]
  | H : _ || _ = false |- _ => apply orb_false_iff in H as [? ?]
  end.

(** ** Facts about sorting *)

Section SortFacts.
Context {A : Type} (leb : A → A → bool).

Lemma insert_sorted_perm x l : insert_sorted leb x l ≡ₚ x :: l.
Proof.
  induction l as [|y l IH]; simpl; [done|].
  destruct (leb x y); [done|]. rewrite IH. apply Permutation_swap.
Qed.

Lemma sort_by_perm l : sort_by leb l ≡ₚ l.
Proof. induction l as [|x l IH]; simpl; [done|]. by rewrite insert_sorted_perm, IH. Qed.

Lemma elem_of_sort_by x l : x ∈ sort_by leb l ↔ x ∈ l.
Proof. by rewrite sort_by_perm. Qed.

Lemma length_sort_by l : length (sort_by leb l) = length l.
Proof. apply Permutation_length, sort_by_perm. Qed.

Lemma sort_by_nil_iff l : sort_by leb l = [] ↔ l = [].
Proof.
  split; [|by intros ->]. intros H.
  apply Permutation_nil_r. by rewrite <- H, sort_by_perm.
Qed.

Context (leb_total : ∀ x y, leb x y = true ∨ leb y x = true).
Context (leb_trans : ∀ x y z, leb x y = true → leb y z = true → leb x z = true).

Lemma insert_sorted_sorted x l :
  StronglySorted (λ a b, leb a b = true) l →
  StronglySorted (λ a b, leb a b = true) (insert_sorted leb x l).
Proof.
  induction 1 as [|y l Hs IH Hf]; simpl; [repeat constructor|].
  destruct (leb x y) eqn:E.
  - repeat (constructor; try done). eapply Forall_impl; [exact Hf|]. simpl; eauto.
  - constructor; [done|]. rewrite insert_sorted_perm. constructor; [|done].
    destruct (leb_total x y); congruence.
Qed.

Lemma sort_by_sorted l : StronglySorted (λ a b, leb a b = true) (sort_by leb l).
Proof. induction l; simpl; [constructor|by apply insert_sorted_sorted]. Qed.

Lemma sort_by_perm_eq l1 l2 :
  (∀ x y, x ∈ l1 → y ∈ l1 → leb x y = true → leb y x = true → x = y) →
  l1 ≡ₚ l2 → sort_by leb l1 = sort_by leb l2.
Proof.
  intros Hanti Hp.
  apply (StronglySorted_unique_strong (λ a b, leb a b = true)); try apply sort_by_sorted.
  - intros x y. rewrite !elem_of_sort_by, <- Hp. apply Hanti.
  - by rewrite !sort_by_perm.
Qed.
End SortFacts.

(** ** Facts about string order *)

Lemma ascii_compare_N a b : Ascii.compare a b = N.compare (Ascii.N_of_ascii a) (Ascii.N_of_ascii b).
Proof. done. Qed.

Lemma string_leb_cons a b s t :
  String.leb (String a s) (String b t) =
  match Ascii.compare a b with Eq => String.leb s t | Lt => true | Gt => false end.
Proof. unfold String.leb. simpl. by destruct (Ascii.compare a b). Qed.

Lemma string_leb_trans x y z :
  String.leb x y = true → String.leb y z = true → String.leb x z = true.
Proof.
  revert y z. induction x as [|a x IH]; intros [|b y] [|c z]; try done.
  rewrite !string_leb_cons, !ascii_compare_N.
  destruct (N.compare_spec (Ascii.N_of_ascii a) (Ascii.N_of_ascii b)) as [->| |]; try done.
  - destruct (N.compare _ _); [|done..]. apply IH.
  - destruct (N.compare_spec (Ascii.N_of_ascii b) (Ascii.N_of_ascii c)); [|..|done];
      intros _ _; destruct (N.compare_spec (Ascii.N_of_ascii a) (Ascii.N_of_ascii c)); lia || done.
Qed.

Lemma sort_strings_sorted l : StronglySorted (λ a b, String.leb a b = true) (sort_strings l).
Proof. apply sort_by_sorted; [apply String.leb_total|apply string_leb_trans]. Qed.

Lemma sort_strings_perm_eq l1 l2 : l1 ≡ₚ l2 → sort_strings l1 = sort_strings l2.
Proof.
  apply sort_by_perm_eq; [apply String.leb_total|apply string_leb_trans|].
  intros ?? _ _. apply String.leb_antisym.
Qed.

Lemma elem_of_sort_strings x l : x ∈ sort_strings l ↔ x ∈ l.
Proof. apply elem_of_sort_by. Qed.

(** ** Facts about the list idioms *)

Lemma elem_of_dedup_first_from x seen l :
  x ∈ dedup_first_from seen l ↔ x ∈ l ∧ x ∉ seen.
Proof.
  revert seen. induction l as [|y l IH]; intros seen; simpl; [set_solver|].
  destruct (decide (x = y)) as [->|];
    case_bool_decide; rewrite ?elem_of_cons, ?IH, ?elem_of_cons; naive_solver.
Qed.

Lemma elem_of_dedup_first x l : x ∈ dedup_first l ↔ x ∈ l.
Proof. unfold dedup_first. rewrite elem_of_dedup_first_from. set_solver. Qed.

Lemma NoDup_dedup_first_from seen l : NoDup (dedup_first_from seen l).
Proof.
  revert seen. induction l as [|y l IH]; intros seen; simpl; [constructor|].
  case_bool_decide; [done|]. constructor; [|done].
  rewrite elem_of_dedup_first_from. set_solver.
Qed.

Lemma NoDup_dedup_first l : NoDup (dedup_first l).
Proof. apply NoDup_dedup_first_from. Qed.

Lemma elem_of_btree_set x l : x ∈ btree_set l ↔ x ∈ l.
Proof. unfold btree_set. by rewrite elem_of_sort_strings, elem_of_dedup_first. Qed.

Lemma NoDup_btree_set l : NoDup (btree_set l).
Proof. unfold btree_set, sort_strings. rewrite sort_by_perm. apply NoDup_dedup_first. Qed.

Lemma elem_of_push_missing x v extra : x ∈ push_missing v extra ↔ x ∈ v ∨ x ∈ extra.
Proof.
  revert v. induction extra as [|d extra IH]; intros v; simpl; [set_solver|].
  rewrite IH. case_bool_decide; set_solver.
Qed.

Lemma NoDup_push_missing v extra : NoDup v → NoDup (push_missing v extra).
Proof.
  revert v. induction extra as [|d extra IH]; intros v Hv; simpl; [done|].
  apply IH. case_bool_decide; [done|]. apply NoDup_app. split_and!; [done|set_solver|].
  apply NoDup_singleton.
Qed.

Section FindUpdate.
Context {A : Type} (p : A → bool).

Lemma find_first_Some l x : find_first p l = Some x → x ∈ l ∧ p x = true.
Proof. intros [? ?]%List.find_some. by rewrite list_elem_of_In. Qed.

Lemma find_first_None l x : find_first p l = None → x ∈ l → p x = false.
Proof. intros Hn ?%list_elem_of_In. by eapply List.find_none in Hn. Qed.

Lemma find_first_is_Some l x : x ∈ l → p x = true → is_Some (find_first p l).
Proof.
  intros Hx Hp. destruct (find_first p l) eqn:E; [eauto|].
  by rewrite (find_first_None l x E Hx) in Hp.
Qed.

Lemma elem_of_update_first f l y :
  y ∈ update_first p f l →
  y ∈ l ∨ ∃ x, find_first p l = Some x ∧ y = f x.
Proof.
  unfold find_first. induction l as [|x l IH]; simpl; [set_solver|].
  destruct (p x) eqn:E; rewrite elem_of_cons.
  - intros [->|?]; [right; eauto|left; by right].
  - intros [->|?%IH]; [left; by left|]. destruct H; [left; by right|by right].
Qed.

Lemma fmap_update_first {B} (g : A → B) f l :
  (∀ x, p x = true → g (f x) = g x) → g <$> update_first p f l = g <$> l.
Proof.
  intros Hg. induction l as [|x l IH]; simpl; [done|].
  destruct (p x) eqn:E; rewrite !fmap_cons; [by rewrite Hg|by rewrite IH].
Qed.

Lemma find_first_update f l :
  (∀ x, p x = true → p (f x) = true) →
  find_first p (update_first p f l) = f <$> find_first p l.
Proof.
  intros Hf. unfold find_first. induction l as [|x l IH]; simpl; [done|].
  destruct (p x) eqn:E; simpl; [by rewrite Hf|by rewrite E].
Qed.

Lemma find_first_update_ne (q : A → bool) f l :
  (∀ x, p x = true → q x = false ∧ q (f x) = false) →
  find_first q (update_first p f l) = find_first q l.
Proof.
  intros Hq. unfold find_first. induction l as [|x l IH]; simpl; [done|].
  destruct (p x) eqn:E; simpl; [|by rewrite IH].
  destruct (Hq x E) as [-> ->]. done.
Qed.

Lemma find_first_app l1 l2 :
  find_first p (l1 ++ l2) =
  match find_first p l1 with Some x => Some x | None => find_first p l2 end.
Proof.
  unfold find_first. induction l1 as [|x l1 IH]; simpl; [done|]. by destruct (p x).
Qed.
End FindUpdate.

(** ** Facts about [List.filter] and [forallb] *)

Lemma forallb_false {A} (p : A → bool) l : forallb p l = false → ∃ x, x ∈ l ∧ p x = false.
Proof.
  induction l as [|x l IH]; simpl; [done|]. destruct (p x) eqn:E; simpl; [|by exists x; split; [left|]].
  intros (y & ? & ?)%IH. exists y. split; [by right|done].
Qed.

Lemma elem_of_List_filter {A} (p : A → bool) l x : x ∈ List.filter p l ↔ x ∈ l ∧ p x = true.
Proof. rewrite list_elem_of_In, List.filter_In, <- list_elem_of_In. done. Qed.

Lemma filter_negb_nil {A} (p : A → bool) l :
  List.filter (λ x, negb (p x)) l = [] ↔ ∀ x, x ∈ l → p x = true.
Proof.
  induction l as [|x l IH]; simpl; [split; [by intros _ ? ?%elem_of_nil|done]|].
  destruct (p x) eqn:E; simpl.
  - rewrite IH. split; [intros H y [->|?]%elem_of_cons; auto|]. intros H y Hy. apply H. by right.
  - split; [done|]. intros H. rewrite H in E by left. done.
Qed.

Lemma List_filter_all {A} (p : A → bool) l : (∀ x, x ∈ l → p x = true) → List.filter p l = l.
Proof.
  induction l as [|x l IH]; simpl; intros Hall; [done|]. rewrite Hall by left. f_equal. apply IH.
  intros y Hy. apply Hall. by right.
Qed.

Lemma List_filter_none {A} (p : A → bool) l : (∀ x, x ∈ l → p x = false) → List.filter p l = [].
Proof.
  induction l as [|x l IH]; simpl; intros Hall; [done|]. rewrite Hall by left. apply IH.
  intros y Hy. apply Hall. by right.
Qed.

Lemma List_filter_perm {A} (p : A → bool) l1 l2 : l1 ≡ₚ l2 → List.filter p l1 ≡ₚ List.filter p l2.
Proof.
  induction 1 as [|x l1 l2 _ IH|x y l|l1 l2 l3 _ IH1 _ IH2]; simpl; [done|..].
  - destruct (p x); by rewrite IH.
  - destruct (p x), (p y); try done. apply Permutation_swap.
  - by rewrite IH1.
Qed.

Lemma NoDup_List_filter {A} (p : A → bool) (l : list A) : NoDup l → NoDup (List.filter p l).
Proof. rewrite !NoDup_ListNoDup. apply List.NoDup_filter. Qed.

Lemma StronglySorted_weaken {A} (R1 R2 : relation A) l :
  (∀ x y, R1 x y → R2 x y) → StronglySorted R1 l → StronglySorted R2 l.
Proof. induction 2; constructor; [done|]. eapply Forall_impl; [done|]. auto. Qed.

Lemma find_first_none {A} (p : A → bool) l : (∀ x, x ∈ l → p x = false) → find_first p l = None.
Proof.
  intros Hall. destruct (find_first p l) eqn:E; [|done]. apply find_first_Some in E as [Hin Hp].
  by rewrite Hall in Hp.
Qed.

(** ** Facts about total orders *)

Section OrderFacts.
Context {K : Type} (cmp : K → K → comparison) `{!TotalOrder cmp}.

Lemma cmp_refl x : cmp x x = Eq.
Proof. by apply cmp_eq. Qed.

Lemma not_greater_total x y : not_greater (cmp x y) = true ∨ not_greater (cmp y x) = true.
Proof. rewrite (cmp_opp (cmp:=cmp) x y). destruct (cmp x y); auto. Qed.

Lemma not_greater_iff x y : not_greater (cmp x y) = true ↔ cmp x y ≠ Gt.
Proof. by destruct (cmp x y). Qed.

Lemma not_greater_gt x y : cmp x y = Gt → not_greater (cmp y x) = true.
Proof. rewrite (cmp_opp (cmp:=cmp) x y). by destruct (cmp x y). Qed.

Lemma not_greater_trans x y z :
  not_greater (cmp x y) = true → not_greater (cmp y z) = true → not_greater (cmp x z) = true.
Proof.
  destruct (cmp x y) eqn:H1, (cmp y z) eqn:H2; try done; intros _ _;
    repeat match goal with H : cmp _ _ = Eq |- _ => apply cmp_eq in H as -> end.
  - by rewrite cmp_refl.
  - by rewrite H2.
  - by rewrite H1.
  - by rewrite (cmp_lt_trans (cmp:=cmp) x y z).
Qed.

End OrderFacts.

#[export] Instance nat_total_order : TotalOrder Nat.compare.
Proof.
  split.
  - intros x y. apply Nat.compare_eq_iff.
  - intros x y. apply Nat.compare_antisym.
  - intros x y z. rewrite !Nat.compare_lt_iff. lia.
Qed.

#[export] Instance Z_total_order : TotalOrder Z.compare.
Proof.
  split.
  - intros x y. apply Z.compare_eq_iff.
  - intros x y. apply Z.compare_antisym.
  - intros x y z. rewrite !Z.compare_lt_iff. lia.
Qed.

#[export] Instance string_total_order : TotalOrder String.compare.
Proof.
  assert (∀ x y, String.compare x y = Lt → String.leb x y = true) as Hleb by (intros x y H; unfold String.leb; by rewrite H).
  assert (∀ x y, String.compare x y = Eq ↔ x = y) as Heq.
  { intros x y. split; [apply String.compare_eq_iff|]. intros ->. pose proof (String.compare_antisym y y) as H.
    by destruct (String.compare y y). }
  split; [done | intros x y; apply String.compare_antisym|].
  intros x y z H1 H2. pose proof (string_leb_trans x y z (Hleb _ _ H1) (Hleb _ _ H2)) as H.
  unfold String.leb in H. destruct (String.compare x z) eqn:E; [|done..].
  apply Heq in E as ->. by rewrite String.compare_antisym, H2 in H1.
Qed.

(** [b.cmp(a)]: the reversed order. *)
Lemma flip_total_order {K} (c : K → K → comparison) : TotalOrder c → TotalOrder (flip c).
Proof.
  intros H. split; unfold flip.
  - intros x y. rewrite cmp_eq. naive_solver.
  - intros x y. apply cmp_opp.
  - intros x y z H1 H2. by eapply (cmp_lt_trans z y x).
Qed.

(** Lexicographic order on pairs. *)
Definition pair_cmp {K L} (c : K → K → comparison) (d : L → L → comparison) (x y : K * L) : comparison :=
  then_with (c x.1 y.1) (d x.2 y.2).

#[export] Instance pair_total_order {K L} (c : K → K → comparison) (d : L → L → comparison)
  `{!TotalOrder c, !TotalOrder d} : TotalOrder (pair_cmp c d).
Proof.
  split.
  - intros [x1 x2] [y1 y2]. unfold pair_cmp, then_with. simpl. destruct (c x1 y1) eqn:E.
    + apply cmp_eq in E as ->. rewrite cmp_eq. naive_solver.
    + split; [done|]. intros [= -> ->]. by rewrite (cmp_refl c) in E.
    + split; [done|]. intros [= -> ->]. by rewrite (cmp_refl c) in E.
  - intros [x1 x2] [y1 y2]. unfold pair_cmp, then_with. simpl.
    rewrite (cmp_opp (cmp:=c) x1 y1), (cmp_opp (cmp:=d) x2 y2). by destruct (c x1 y1).
  - intros [x1 x2] [y1 y2] [z1 z2]. unfold pair_cmp, then_with. simpl.
    destruct (c x1 y1) eqn:E1, (c y1 z1) eqn:E2; intros; try done;
      repeat match goal with H : c _ _ = Eq |- _ => apply cmp_eq in H as -> end.
    + rewrite (cmp_refl c). by eapply cmp_lt_trans.
    + by rewrite E2.
    + by rewrite E1.
    + by rewrite (cmp_lt_trans (cmp:=c) x1 y1 z1).
Qed.

(** ** Membership automation

    [membership] pushes [∈] through the list operations of this file. *)
#[export] Hint Rewrite @elem_of_sort_by @elem_of_List_filter elem_of_sort_strings elem_of_dedup_first
  elem_of_push_missing : jcode.
#[export] Hint Resolve sort_strings_sorted NoDup_dedup_first NoDup_push_missing NoDup_List_filter : jcode.
Ltac membership := autorewrite with jcode.
