(* ===== verification/RustString.v ===== *)
(** * Rust strings

    [String] and [&str] as byte strings: a value is the UTF-8 encoding of the
    text, so lengths, offsets, comparisons and searches are the ones of the
    source.  The [char]-level operations go through [chars], which cuts a
    string before every byte that is not a UTF-8 continuation byte; [trim],
    [split_whitespace] and [lines] are defined on that list. *)

From stdpp Require Import base list strings pretty.
From S2P Require Import Prelude.

Open Scope string_scope.
Open Scope nat_scope.
Open Scope list_scope.

(** ** Bytes *)

Definition byte_val (c : Ascii.ascii) : N := Ascii.N_of_ascii c.

Definition in_range (lo hi n : N) : bool := (lo <=? n)%N && (n <=? hi)%N.

Definition is_ascii_digit (c : Ascii.ascii) : bool := in_range 48 57 (byte_val c).
Definition is_ascii_upper (c : Ascii.ascii) : bool := in_range 65 90 (byte_val c).
Definition is_ascii_lower (c : Ascii.ascii) : bool := in_range 97 122 (byte_val c).
Definition is_ascii_alphanumeric (c : Ascii.ascii) : bool :=
  is_ascii_digit c || is_ascii_upper c || is_ascii_lower c.

(** Continuation bytes [0b10xxxxxx]. *)
Definition is_cont (c : Ascii.ascii) : bool := in_range 128 191 (byte_val c).

(** [char::len_utf8] of the character a lead byte starts. *)
Definition char_len (c : Ascii.ascii) : nat :=
  if (byte_val c <? 128)%N then 1
  else if (byte_val c <? 224)%N then 2
  else if (byte_val c <? 240)%N then 3
  else 4.

Definition lower_byte (c : Ascii.ascii) : Ascii.ascii :=
  if is_ascii_upper c then Ascii.ascii_of_N (byte_val c + 32) else c.

Fixpoint to_ascii_lowercase (s : string) : string :=
  match s with
  | "" => ""
  | String c s' => String (lower_byte c) (to_ascii_lowercase s')
  end.

Definition newline : string := String (Ascii.ascii_of_nat 10) "".
Definition dquote : string := String (Ascii.ascii_of_nat 34) "".
Definition str_bytes (l : list nat) : string :=
  foldr (λ n s, String (Ascii.ascii_of_nat n) s) "" l.

(** Structural validity of UTF-8: every lead byte is followed by as many
    continuation bytes as it announces.  Every Rust string satisfies it. *)
Fixpoint utf8_from (pending : nat) (s : string) : bool :=
  match s with
  | "" => Nat.eqb pending 0
  | String c s' =>
      match pending with
      | O => negb (is_cont c) && utf8_from (char_len c - 1) s'
      | S k => is_cont c && utf8_from k s'
      end
  end.
Definition utf8 (s : string) : bool := utf8_from 0 s.

(** ** Searching *)

Fixpoint starts_with (pre s : string) : bool :=
  match pre, s with
  | "", _ => true
  | String a pre', String b s' => bool_decide (a = b) && starts_with pre' s'
  | String _ _, "" => false
  end.

Fixpoint str_drop (n : nat) (s : string) : string :=
  match n, s with
  | O, _ => s
  | S n', String _ s' => str_drop n' s'
  | S _, "" => ""
  end.

Fixpoint str_take (n : nat) (s : string) : string :=
  match n, s with
  | S n', String c s' => String c (str_take n' s')
  | _, _ => ""
  end.

Definition strip_prefix (pre s : string) : option string :=
  if starts_with pre s then Some (str_drop (String.length pre) s) else None.

(** [s.find(pat)]: the byte offset of the first occurrence. *)
Fixpoint str_find (pat s : string) : option nat :=
  if starts_with pat s then Some 0
  else match s with
       | "" => None
       | String _ s' => S <$> str_find pat s'
       end.

Definition str_contains (pat s : string) : bool := bool_decide (is_Some (str_find pat s)).

Fixpoint any_byte (p : Ascii.ascii → bool) (s : string) : bool :=
  match s with
  | "" => false
  | String c s' => p c || any_byte p s'
  end.

Fixpoint last_byte (s : string) : option Ascii.ascii :=
  match s with
  | "" => None
  | String c "" => Some c
  | String _ s' => last_byte s'
  end.

Definition first_byte (s : string) : option Ascii.ascii :=
  match s with "" => None | String c _ => Some c end.

(** ** Characters *)

Fixpoint chars (s : string) : list string :=
  match s with
  | "" => []
  | String c s' =>
      match s' with
      | String d _ =>
          if is_cont d
          then match chars s' with
               | h :: t => String c h :: t
               | [] => [String c ""]
               end
          else String c "" :: chars s'
      | "" => [String c ""]
      end
  end.

Definition str_concat (l : list string) : string := foldr String.append "" l.

Definition char_count (s : string) : nat := length (chars s).
Definition take_chars (n : nat) (s : string) : string := str_concat (take n (chars s)).

(** The characters with the Unicode [White_Space] property. *)
Definition whitespace_chars : list string :=
  [str_bytes [9]; str_bytes [10]; str_bytes [11]; str_bytes [12]; str_bytes [13];
   str_bytes [32]; str_bytes [194; 133]; str_bytes [194; 160]; str_bytes [225; 154; 128];
   str_bytes [226; 128; 128]; str_bytes [226; 128; 129]; str_bytes [226; 128; 130];
   str_bytes [226; 128; 131]; str_bytes [226; 128; 132]; str_bytes [226; 128; 133];
   str_bytes [226; 128; 134]; str_bytes [226; 128; 135]; str_bytes [226; 128; 136];
   str_bytes [226; 128; 137]; str_bytes [226; 128; 138]; str_bytes [226; 128; 168];
   str_bytes [226; 128; 169]; str_bytes [226; 128; 175]; str_bytes [226; 129; 159];
   str_bytes [227; 128; 128]].

Definition is_whitespace (c : string) : bool := bool_decide (c ∈ whitespace_chars).

Fixpoint drop_while {A} (p : A → bool) (l : list A) : list A :=
  match l with
  | [] => []
  | x :: l' => if p x then drop_while p l' else l
  end.

Definition drop_while_end {A} (p : A → bool) (l : list A) : list A :=
  rev (drop_while p (rev l)).

Definition trim_start_matches (p : string → bool) (s : string) : string :=
  str_concat (drop_while p (chars s)).
Definition trim_end_matches (p : string → bool) (s : string) : string :=
  str_concat (drop_while_end p (chars s)).

Definition trim_start : string → string := trim_start_matches is_whitespace.
Definition trim_end : string → string := trim_end_matches is_whitespace.
Definition trim (s : string) : string :=
  str_concat (drop_while_end is_whitespace (drop_while is_whitespace (chars s))).

(** Words of a character list: maximal runs of non-whitespace characters. *)
Fixpoint words_of (cur : string) (cs : list string) : list string :=
  match cs with
  | [] => if bool_decide (cur = "") then [] else [cur]
  | c :: cs' =>
      if is_whitespace c
      then if bool_decide (cur = "") then words_of "" cs' else cur :: words_of "" cs'
      else words_of (cur +:+ c) cs'
  end.
Definition split_whitespace (s : string) : list string := words_of "" (chars s).

(** [s.split_whitespace().collect::<Vec<_>>().join(" ")]. *)
Definition collapse_whitespace (s : string) : string := String.concat " " (split_whitespace s).

Definition str_is_empty (s : string) : bool := bool_decide (s = "").

(** ** Lines *)

Definition strip_cr (s : string) : string :=
  match last_byte s with
  | Some c => if (byte_val c =? 13)%N then str_take (String.length s - 1) s else s
  | None => s
  end.

Fixpoint lines_from (cur s : string) : list string :=
  match s with
  | "" => if bool_decide (cur = "") then [] else [cur]
  | String c s' =>
      if (byte_val c =? 10)%N then strip_cr cur :: lines_from "" s'
      else lines_from (cur +:+ String c "") s'
  end.
(** [str::lines]: a trailing carriage return is dropped only before a newline. *)
Definition lines (s : string) : list string := lines_from "" s.

(** ** Facts *)

#[local] Arguments String.append : simpl nomatch.

Lemma append_assoc_s (a b c : string) : (a +:+ b) +:+ c = a +:+ (b +:+ c).
Proof. induction a; simpl; congruence. Qed.

Lemma append_nil_r_s (a : string) : a +:+ "" = a.
Proof. induction a; simpl; congruence. Qed.

Lemma append_inj_l_s (a b c : string) : a +:+ b = a +:+ c → b = c.
Proof. induction a; simpl; [done|]. intros [=]; auto. Qed.

Lemma length_append_s (a b : string) : String.length (a +:+ b) = String.length a + String.length b.
Proof. induction a; simpl; lia. Qed.

Lemma any_byte_append p a b : any_byte p (a +:+ b) = any_byte p a || any_byte p b.
Proof.
  induction a as [|c a IH]; [done|]. change (String c a +:+ b) with (String c (a +:+ b)).
  cbn [any_byte]. rewrite IH. by destruct (p c).
Qed.

Lemma starts_with_spec pre s : starts_with pre s = true ↔ ∃ post, s = pre +:+ post.
Proof.
  revert s. induction pre as [|a pre IH]; intros [|b s]; simpl.
  - split; eauto.
  - split; eauto.
  - split; [done|]. intros [? ?]; done.
  - rewrite andb_true_iff, bool_decide_eq_true, IH. split.
    + intros [-> [post ->]]. eauto.
    + intros [post [= -> ->]]. eauto.
Qed.

Lemma str_drop_append pre post : str_drop (String.length pre) (pre +:+ post) = post.
Proof. induction pre; done. Qed.

Lemma strip_prefix_Some pre s post : strip_prefix pre s = Some post ↔ s = pre +:+ post.
Proof.
  unfold strip_prefix. destruct (starts_with pre s) eqn:E.
  - apply starts_with_spec in E as [post' ->]. rewrite str_drop_append. split.
    + by intros [= ->].
    + by intros ->%append_inj_l_s.
  - split; [done|]. intros ->. assert (starts_with pre (pre +:+ post) = true); [|congruence].
    apply starts_with_spec; eauto.
Qed.

Lemma str_find_Some pat s n :
  str_find pat s = Some n →
  ∃ post, s = str_take n s +:+ pat +:+ post ∧ n ≤ String.length s.
Proof.
  revert n. induction s as [|c s IH]; intros n; simpl.
  - destruct (starts_with pat "") eqn:E; [|done]. intros [= <-].
    apply starts_with_spec in E as [post Hp]. exists post. simpl. split; [done|lia].
  - destruct (starts_with pat (String c s)) eqn:E.
    + intros [= <-]. apply starts_with_spec in E as [post Hp]. exists post. simpl. split; [done|lia].
    + destruct (str_find pat s) as [m|] eqn:Hf; [|done]. intros [= <-].
      destruct (IH m eq_refl) as (post & Hp & Hle). exists post. simpl. split; [congruence|lia].
Qed.

(** Nothing matches before the offset [str_find] returns. *)
Lemma str_find_first (pat pre post : string) :
  ∃ n, str_find pat (pre +:+ pat +:+ post) = Some n ∧ n ≤ String.length pre.
Proof.
  induction pre as [|c pre IH].
  - exists 0. simpl. destruct (pat +:+ post) eqn:E; simpl;
      destruct (starts_with pat _) eqn:E'; try (split; [done|lia]);
      assert (starts_with pat (pat +:+ post) = true) by (apply starts_with_spec; eauto);
      congruence.
  - destruct IH as (n & Hn & Hle).
    change (String c pre +:+ pat +:+ post) with (String c (pre +:+ pat +:+ post)). simpl.
    destruct (starts_with pat (String c (pre +:+ pat +:+ post))); [exists 0; split; [done|lia]|].
    rewrite Hn. exists (S n). split; [done|simpl; lia].
Qed.

Lemma str_contains_spec pat s : str_contains pat s = true ↔ ∃ pre post, s = pre +:+ pat +:+ post.
Proof.
  unfold str_contains. rewrite bool_decide_eq_true. split.
  - intros [n Hn]. apply str_find_Some in Hn as (post & Hs & _). eauto.
  - intros (pre & post & ->). destruct (str_find_first pat pre post) as (n & -> & _). eauto.
Qed.

Lemma str_concat_chars s : str_concat (chars s) = s.
Proof.
  induction s as [|c s IH]; [done|].
  destruct s as [|d s]; [done|]. cbn [chars].
  change (match s with
          | "" => [String d ""]
          | String e _ => if is_cont e then match chars s with
              | h :: t => String d h :: t | [] => [String d ""] end
              else String d "" :: chars s end) with (chars (String d s)).
  destruct (is_cont d).
  - destruct (chars (String d s)) as [|h t] eqn:E; [done|].
    unfold str_concat in *; simpl in *; congruence.
  - unfold str_concat in *; simpl in *; congruence.
Qed.

Lemma str_concat_app l1 l2 : str_concat (l1 ++ l2) = str_concat l1 +:+ str_concat l2.
Proof.
  induction l1 as [|x l1 IH]; [done|].
  change (str_concat ((x :: l1) ++ l2)) with (x +:+ str_concat (l1 ++ l2)).
  change (str_concat (x :: l1)) with (x +:+ str_concat l1).
  by rewrite IH, append_assoc_s.
Qed.
