(* ===== verification/Confidence.v ===== *)
(** * Confidence rungs

    [ConfidenceLevel] of crates/jcode-plan/src/dag/mod.rs: the one lenient
    interpretation of an artifact's free-text [confidence] field.  The numeric
    branch works on [f64]; it is modelled on the standard library's binary64
    specification floats ([prec = 53], [emax = 1024]), with decimal tokens
    rounded to nearest-even as [str::parse::<f64>] does. *)

From stdpp Require Import base list strings pretty.
From Stdlib Require Import ZArith SpecFloat.
From S2P Require Import Prelude RustString.

Open Scope string_scope.
Open Scope nat_scope.
Open Scope list_scope.

Inductive ConfidenceLevel : Set := Low | Medium | High.

#[export] Instance ConfidenceLevel_eq_dec : EqDecision ConfidenceLevel.
Proof. solve_decision. Defined.

Definition confidence_as_str (c : ConfidenceLevel) : string :=
  match c with
  | Low => "low"
  | Medium => "medium"
  | High => "high"
  end.

(** ** binary64 *)

Module F64.
Definition prec : Z := 53.
Definition emax : Z := 1024.
Definition div : spec_float → spec_float → spec_float := SFdiv prec emax.
Definition mul : spec_float → spec_float → spec_float := SFmul prec emax.
Definition ltb : spec_float → spec_float → bool := SFltb.
Definition leb : spec_float → spec_float → bool := SFleb.

(** The value nearest to [m / 10^k]. *)
Definition of_decimal (m : N) (k : nat) : spec_float :=
match m with
| N0 => S754_zero false
| Npos p => div (S754_finite false p 0) (S754_finite false (Pos.pow 10 (Pos.of_nat k)) 0)
end.

Definition of_N (m : N) : spec_float :=
match m with
| N0 => S754_zero false
| Npos p => div (S754_finite false p 0) (S754_finite false 1 0)
end.
End F64.

Definition digit_val (c : Ascii.ascii) : N := (byte_val c - 48)%N.

(** Digits of a token: accumulated mantissa, digits seen, digits after the
    point; [None] on a second point. *)
Fixpoint scan_decimal (s : string) (m : N) (seen frac : nat) (point : bool)
  : option (N * nat * nat) :=
  match s with
  | "" => Some (m, seen, frac)
  | String c s' =>
      if (byte_val c =? 46)%N
      then if point then None else scan_decimal s' m seen frac true
      else scan_decimal s' (m * 10 + digit_val c)%N (S seen)
             (if point then S frac else frac) point
  end.

(** [token.parse::<f64>().ok()] on a token of digits and points: at most one
    point and at least one digit. *)
Definition parse_f64 (token : string) : option spec_float :=
  match scan_decimal token 0%N 0 0 false with
  | Some (m, S _, O) => Some (F64.of_N m)
  | Some (m, S _, frac) => Some (F64.of_decimal m frac)
  | _ => None
  end.

Definition is_number_byte (c : Ascii.ascii) : bool :=
  is_ascii_digit c || (byte_val c =? 46)%N.

Fixpoint skip_to_number (s : string) : option string :=
  match s with
  | "" => None
  | String c s' => if is_number_byte c then Some s else skip_to_number s'
  end.

Fixpoint split_number (s : string) : string * string :=
  match s with
  | "" => ("", "")
  | String c s' =>
      if is_number_byte c then let '(t, r) := split_number s' in (String c t, r) else ("", s)
  end.

(** The first number in [s]: its value, raw token, and what follows. *)
Definition extract_leading_number (s : string) : option (spec_float * string * string) :=
  match skip_to_number s with
  | None => None
  | Some rest =>
      let '(token, after) := split_number rest in
      match parse_f64 token with
      | Some value => Some (value, token, after)
      | None => None
      end
  end.

Definition NEGATIONS : list string :=
  ["not high"; "not confident"; "not certain"; "not sure"; "no confidence"; "unsure"; "uncertain"].

(** The rung of a percentage. *)
Definition rung_of_percent (percent : spec_float) : ConfidenceLevel :=
  if F64.ltb percent (F64.of_N 50) then Low
  else if F64.ltb percent (F64.of_N 80) then Medium
  else High.

Definition or_else {A} (a b : option A) : option A :=
  match a with Some x => Some x | None => b end.

(** An explicit denominator ("/10", "out of 10", "of 5"). *)
Definition parse_denominator (after : string) : option spec_float :=
  match or_else (strip_prefix "/" after)
          (or_else (strip_prefix "out of " after) (strip_prefix "of " after)) with
  | None => None
  | Some rest =>
      match extract_leading_number (trim_start rest) with
      | Some (d, _, _) => if F64.ltb (S754_zero false) d then Some d else None
      | None => None
      end
  end.

Definition parse_numeric (normalized : string) : option ConfidenceLevel :=
  match extract_leading_number normalized with
  | None => None
  | Some (value, raw_token, after) =>
      let percent :=
        match parse_denominator (trim_start after) with
        | Some denominator => F64.mul (F64.div value denominator) (F64.of_N 100)
        | None =>
            if str_contains "%" normalized || F64.ltb (F64.of_N 10) value then value
            else if F64.leb value (F64.of_N 1) && str_contains "." raw_token
                 then F64.mul value (F64.of_N 100)
                 else F64.mul value (F64.of_N 10)
        end in
      Some (rung_of_percent percent)
  end.

(** [ConfidenceLevel::parse]. *)
Definition confidence_parse (raw : string) : option ConfidenceLevel :=
  let normalized := to_ascii_lowercase (trim raw) in
  if str_is_empty normalized then None
  else if existsb (λ neg, str_contains neg normalized) NEGATIONS then Some Low
  else if str_contains "low" normalized then Some Low
  else if str_contains "med" normalized || str_contains "moderate" normalized then Some Medium
  else if str_contains "high" normalized || str_contains "certain" normalized
          || str_contains "confident" normalized then Some High
  else parse_numeric normalized.

(** ** Theorems *)

(** The exact rational thresholds the percentage stands for. *)
Definition exact_rung (a b : N) : ConfidenceLevel :=
  if (100 * a <? 50 * b)%N then Low
  else if (100 * a <? 80 * b)%N then Medium
  else High.

Definition fraction_text (a b : N) : string := pretty a +:+ "/" +:+ pretty b.

Example parse_examples :
  map confidence_parse ["very LOW"; "medium-high"; "High."; "not confident"; "0.8"; "1"; "10";
                        "85%"; "1/10"; "7 out of 10"; "3 of 5"; "."; "1.2.3"; ""; "n/a"; " 0.50 "]
  = [Some Low; Some Medium; Some High; Some Low; Some High; Some Low; Some High;
     Some High; Some Low; Some Medium; Some Medium; None; None; None; None; Some Medium].
Proof. vm_compute. reflexivity. Qed.

Definition N_upto (n : nat) : list N := N.of_nat <$> seq 0 (S n).

Lemma elem_of_N_upto (a : N) (n : nat) : (a <= N.of_nat n)%N → a ∈ N_upto n.
Proof.
  intros Ha. unfold N_upto. apply list_elem_of_fmap. exists (N.to_nat a).
  split; [by rewrite N2Nat.id|]. apply elem_of_seq. lia.
Qed.

Lemma forall_N_upto (P : N → bool) (n : nat) :
  forallb P (N_upto n) = true → ∀ a, (a <= N.of_nat n)%N → P a = true.
Proof.
  intros HP a Ha. rewrite List.forallb_forall in HP. apply HP.
  by apply list_elem_of_In, elem_of_N_upto.
Qed.

Definition fractions_ok (b a : N) : bool :=
  bool_decide (b = 0%N) ||
  bool_decide (confidence_parse (fraction_text a b) = Some (exact_rung a b)).

Lemma fractions_ok_upto : forallb (λ b, forallb (fractions_ok b) (N_upto 60)) (N_upto 60) = true.
Proof. vm_compute. reflexivity. Qed.

(** A fraction [a/b] with terms up to 60 gets exactly the rung of the
    rational number [a/b]: below one half is low, below four fifths is medium,
    the rest is high.  Rounding in the [f64] division and multiplication never
    moves a score across a threshold. *)
Theorem confidence_fraction_exact (a b : N) :
  (a <= 60)%N → (1 <= b)%N → (b <= 60)%N →
  confidence_parse (fraction_text a b) = Some (exact_rung a b).
Proof.
  intros Ha Hb0 Hb.
  pose proof (forall_N_upto _ 60 fractions_ok_upto b Hb) as Hrow.
  pose proof (forall_N_upto _ 60 Hrow a Ha) as Hcell. unfold fractions_ok in Hcell.
  apply orb_true_iff in Hcell as [Hz|He]; bool_hyps; [lia|done].
Qed.

Lemma confidence_fraction_exact_witness :
  confidence_parse "4/5" = Some High ∧ exact_rung 4 5 = High.
Proof.
  split; [|reflexivity]. exact (confidence_fraction_exact 4 5 ltac:(lia) ltac:(lia) ltac:(lia)).
Defined.

(** Confidence is read pessimistically: a text with a negated phrase or
    with the word "low" anywhere is low, whatever else it says. *)
Theorem confidence_pessimistic (raw w : string) :
  w ∈ "low" :: NEGATIONS →
  str_contains w (to_ascii_lowercase (trim raw)) = true →
  confidence_parse raw = Some Low.
Proof.
  intros Hw Hc. unfold confidence_parse.
  destruct (str_is_empty (to_ascii_lowercase (trim raw))) eqn:He.
  { unfold str_is_empty in He. bool_hyps. rewrite He in Hc.
    repeat (apply elem_of_cons in Hw as [->|Hw]; [vm_compute in Hc; discriminate|]).
    by apply elem_of_nil in Hw. }
  apply elem_of_cons in Hw as [->|Hw].
  - rewrite Hc. by destruct (existsb _ _).
  - assert (existsb (λ neg, str_contains neg (to_ascii_lowercase (trim raw))) NEGATIONS = true)
      as ->; [|done].
    apply List.existsb_exists. exists w. by rewrite <- list_elem_of_In.
Qed.

Lemma confidence_pessimistic_witness :
  confidence_parse "  NOT confident, though high coverage" = Some Low.
Proof.
  apply (confidence_pessimistic _ "not confident").
  - apply (bool_decide_unpack _). vm_compute. exact I.
  - vm_compute. reflexivity.
Defined.

(** The canonical labels parse back to their rung. *)
Lemma confidence_as_str_roundtrip c : confidence_parse (confidence_as_str c) = Some c.
Proof. destruct c; vm_compute; reflexivity. Qed.
