(* ===== verification/Kahn.v ===== *)
(** * Kahn's algorithm

    The cycle checks of crates/jcode-plan (dag/mod.rs [TaskGraph::cycle_nodes]
    and lib.rs [cycle_item_ids]) share one loop: pop an id, skip it when it
    was visited, otherwise decrement the indegree of every dependent and push
    those that reach zero.  This file holds that loop over an arbitrary
    dependents function and its correctness: it terminates within one
    iteration per id, and it visits exactly the ids from which every
    dependency chain is finite. *)

From stdpp Require Import base list strings gmap sets fin_sets relations well_founded.
From S2P Require Import Prelude.

Open Scope nat_scope.
Open Scope list_scope.

(** ** The loop *)

(** [*deg = deg.saturating_sub(1); if *deg == 0 { queue.push(child) }]; the
    head of the list is the top of the [Vec] used as a stack. *)
Definition relax_child (st : list string * gmap string nat) (child : string)
  : list string * gmap string nat :=
  let '(queue, indegree) := st in
  match indegree !! child with
  | Some deg =>
      (if Nat.eqb (deg - 1) 0 then child :: queue else queue, <[child := deg - 1]> indegree)
  | None => (queue, indegree)
  end.

(** [while let Some(id) = queue.pop() { .. }]; [None] when the fuel runs out. *)
Fixpoint kahn_loop (fuel : nat) (dependents : string → list string)
    (queue : list string) (indegree : gmap string nat) (visited : gset string)
  : option (gmap string nat * gset string) :=
  match queue with
  | [] => Some (indegree, visited)
  | id :: rest =>
      match fuel with
      | O => None
      | S fuel' =>
          if decide (id ∈ visited) then kahn_loop fuel' dependents rest indegree visited
          else let '(queue', indegree') := foldl relax_child (rest, indegree) (dependents id) in
               kahn_loop fuel' dependents queue' indegree' ({[id]} ∪ visited)
      end
  end.

(** ** Counting *)

Definition occ (v : string) (l : list string) : nat := length (filter (v =.) l).

Definition sum_over (f : string → nat) (S : gset string) : nat :=
  sum_list_with f (elements S).

Lemma occ_cons v w l : occ v (w :: l) = (if decide (v = w) then 1 else 0) + occ v l.
Proof. unfold occ. rewrite filter_cons. by destruct (decide (v = w)). Qed.

Lemma occ_app v l1 l2 : occ v (l1 ++ l2) = occ v l1 + occ v l2.
Proof. unfold occ. by rewrite filter_app, length_app. Qed.

Lemma occ_pos v l : 0 < occ v l ↔ v ∈ l.
Proof.
  induction l as [|w l IH]; [split; [unfold occ; simpl; lia|set_solver]|].
  rewrite occ_cons, elem_of_cons. destruct (decide (v = w)); [|rewrite <- IH; naive_solver lia].
  split; [by left|lia].
Qed.

Lemma sum_list_with_perm (f : string → nat) l1 l2 :
  l1 ≡ₚ l2 → sum_list_with f l1 = sum_list_with f l2.
Proof. induction 1; simpl; lia. Qed.

Lemma sum_over_remove f (S : gset string) x :
  x ∈ S → sum_over f S = f x + sum_over f (S ∖ {[x]}).
Proof.
  intros Hx. unfold sum_over.
  rewrite (sum_list_with_perm f (elements S) (x :: elements (S ∖ {[x]}))); [done|].
  rewrite (union_difference_L {[x]} S) at 1 by set_solver.
  rewrite elements_disj_union by set_solver. by rewrite elements_singleton.
Qed.

Lemma sum_over_pos f (S : gset string) : 0 < sum_over f S → ∃ x, x ∈ S ∧ 0 < f x.
Proof.
  unfold sum_over. intros H.
  assert (∃ x, x ∈ elements S ∧ 0 < f x) as (x & ?%elem_of_elements & ?); [|eauto].
  induction (elements S) as [|y l IH]; simpl in *; [lia|].
  destruct (decide (0 < f y)); [exists y; split; [left|done]|].
  destruct IH as (x & ? & ?); [lia|]. exists x. split; [by right|done].
Qed.

Lemma sum_over_zero f (S : gset string) x : sum_over f S = 0 → x ∈ S → f x = 0.
Proof. intros H Hx. rewrite (sum_over_remove f S x Hx) in H. lia. Qed.

(** ** Correctness *)

Section Kahn.
Context (dependents : string → list string) (known : gset string).
Context (dependents_known : ∀ u v, v ∈ dependents u → v ∈ known).

(** [u] is a dependency of [v]. *)
Definition dep_edge (u v : string) : Prop := u ∈ known ∧ v ∈ dependents u.

(** Edge occurrences into [v] from the ids of [S]. *)
Definition indeg_from (S : gset string) (v : string) : nat :=
  sum_over (λ u, occ v (dependents u)) S.

(** The state while the dependents of a visited id are relaxed: [pending]
    are the occurrences still to process. *)
Record relax_inv (visited : gset string) (pending queue : list string)
    (indegree : gmap string nat) : Prop := {
  ri_deg : ∀ v, v ∈ known → indegree !! v = Some (indeg_from (known ∖ visited) v + occ v pending);
  ri_dom : dom indegree = known;
  ri_zero : ∀ v, indegree !! v = Some 0 ↔ v ∈ visited ∨ v ∈ queue;
  ri_nodup : NoDup queue;
  ri_disj : ∀ v, v ∈ queue → v ∉ visited;
  ri_pending : ∀ v, v ∈ pending → v ∈ known }.

Lemma relax_child_inv visited c pending queue indegree :
  relax_inv visited (c :: pending) queue indegree →
  let '(queue', indegree') := relax_child (queue, indegree) c in
  relax_inv visited pending queue' indegree'.
Proof.
  intros [Hdeg Hdom Hz Hnd Hdj Hp]. assert (c ∈ known) as Hc by (apply Hp; left).
  unfold relax_child. pose proof (Hdeg c Hc) as Hdc. rewrite Hdc.
  rewrite occ_cons, decide_True in Hdc |- * by done.
  set (d := indeg_from (known ∖ visited) c + (1 + occ c pending)) in *.
  assert (c ∉ queue ∧ c ∉ visited) as [Hcq Hcv].
  { split; intros Hin; [assert (indegree !! c = Some 0) as H0 by (apply Hz; by right)
                       |assert (indegree !! c = Some 0) as H0 by (apply Hz; by left)];
      rewrite H0 in Hdc; unfold d in Hdc; naive_solver lia. }
  constructor.
  - intros v Hv. rewrite lookup_insert. case_decide as E; [subst v; f_equal; unfold d; lia|].
    rewrite Hdeg by done. by rewrite occ_cons, decide_False by done.
  - rewrite dom_insert_L. set_solver.
  - intros v. rewrite lookup_insert. case_decide as E; [subst v|].
    + destruct (Nat.eqb_spec (d - 1) 0) as [->|Hne]; [split; [right; left|done]|].
      split; [intros [= ?]; lia|intros [?|?]; done].
    + rewrite Hz. destruct (Nat.eqb _ _); [rewrite elem_of_cons|]; naive_solver.
  - destruct (Nat.eqb _ _); [by constructor|done].
  - destruct (Nat.eqb _ _); [intros v [->|?]%elem_of_cons|intros v ?]; auto.
  - intros v ?. apply Hp. by right.
Qed.

Lemma relax_all_inv visited pending queue indegree :
  relax_inv visited pending queue indegree →
  let '(queue', indegree') := foldl relax_child (queue, indegree) pending in
  relax_inv visited [] queue' indegree'.
Proof.
  revert queue indegree. induction pending as [|c pending IH]; intros queue indegree H; [done|].
  cbn [foldl]. apply relax_child_inv in H.
  destruct (relax_child (queue, indegree) c) as [q' d']. by apply IH.
Qed.

(** Starting to relax an unvisited id. *)
Lemma visit_inv visited id rest indegree :
  relax_inv visited [] (id :: rest) indegree →
  relax_inv ({[id]} ∪ visited) (dependents id) rest indegree.
Proof.
  intros [Hdeg Hdom Hz Hnd Hdj _]. apply NoDup_cons in Hnd as [Hnr Hnd].
  assert (id ∉ visited) as Hnv by (apply Hdj; left).
  assert (id ∈ known) as Hk.
  { rewrite <- Hdom. apply elem_of_dom. exists 0. apply Hz. right; left. }
  constructor; try done.
  - intros v Hv. rewrite Hdeg by done. f_equal. unfold indeg_from.
    rewrite (sum_over_remove _ (known ∖ visited) id) by set_solver.
    replace (known ∖ visited ∖ {[id]}) with (known ∖ ({[id]} ∪ visited)) by set_solver.
    change (occ v []) with 0. cbn beta. lia.
  - intros v. rewrite Hz. set_solver.
  - intros v Hv. assert (v ≠ id) by (intros ->; done). specialize (Hdj v). set_solver.
  - intros v. apply dependents_known.
Qed.

(** Every visited id has only finite dependency chains. *)
Definition visited_acc (visited : gset string) : Prop := ∀ v, v ∈ visited → Acc dep_edge v.

Lemma queue_preds_visited visited queue indegree u v :
  relax_inv visited [] queue indegree → indegree !! v = Some 0 → dep_edge u v → u ∈ visited.
Proof.
  intros Hinv H0 [Hu Huv]. assert (v ∈ known) as Hv by eauto.
  destruct (decide (u ∈ visited)) as [|Hn]; [done|exfalso].
  pose proof (ri_deg _ _ _ _ Hinv v Hv) as Hd. rewrite H0 in Hd. injection Hd as Hd.
  assert (occ v (dependents u) = 0) as Hz.
  { eapply (sum_over_zero (λ u, occ v (dependents u))); [|apply elem_of_difference; eauto].
    unfold indeg_from in Hd. lia. }
  apply occ_pos in Huv. lia.
Qed.

Lemma visit_acc visited id rest indegree :
  relax_inv visited [] (id :: rest) indegree → visited_acc visited →
  visited_acc ({[id]} ∪ visited).
Proof.
  intros Hinv Hacc v [->%elem_of_singleton|Hv]%elem_of_union; [|by apply Hacc].
  constructor. intros u Hu. apply Hacc. eapply queue_preds_visited; [done| |done].
  apply (ri_zero _ _ _ _ Hinv). right; left.
Qed.

(** Ids still to be popped: queued ones and those of positive indegree. *)
Lemma loop_spec fuel visited queue indegree :
  relax_inv visited [] queue indegree → visited_acc visited → visited ⊆ known →
  size (known ∖ visited) ≤ fuel →
  ∃ indegree' visited', kahn_loop fuel dependents queue indegree visited = Some (indegree', visited')
    ∧ relax_inv visited' [] [] indegree' ∧ visited_acc visited' ∧ visited' ⊆ known.
Proof.
  revert visited queue indegree. induction fuel as [|fuel IH];
    intros visited [|id rest] indegree Hinv Hacc Hsub Hf; simpl; eauto 10.
  - exfalso. assert (id ∈ known ∖ visited) as Hin.
    { apply elem_of_difference. split; [|apply (ri_disj _ _ _ _ Hinv); left].
      rewrite <- (ri_dom _ _ _ _ Hinv). apply elem_of_dom. exists 0.
      apply (ri_zero _ _ _ _ Hinv). right; left. }
    assert (size (known ∖ visited) = 0) as Hs%size_empty_inv by lia. set_solver.
  - rewrite decide_False by (apply (ri_disj _ _ _ _ Hinv); left).
    assert (id ∈ known) as Hk.
    { rewrite <- (ri_dom _ _ _ _ Hinv). apply elem_of_dom. exists 0.
      apply (ri_zero _ _ _ _ Hinv). right; left. }
    pose proof (relax_all_inv _ _ _ _ (visit_inv _ _ _ _ Hinv)) as Hinv'.
    destruct (foldl relax_child (rest, indegree) (dependents id)) as [q' d'].
    apply IH; [done|by eapply visit_acc|set_solver|].
    assert (id ∉ visited) as Hnv by (apply (ri_disj _ _ _ _ Hinv); left).
    replace (known ∖ ({[id]} ∪ visited)) with ((known ∖ visited) ∖ {[id]}) by set_solver.
    rewrite size_difference by set_solver. rewrite size_singleton. lia.
Qed.

(** At the end exactly the ids with finite dependency chains are visited. *)
Lemma final_visited visited indegree :
  relax_inv visited [] [] indegree → visited_acc visited → visited ⊆ known →
  ∀ v, v ∈ known → (v ∈ visited ↔ Acc dep_edge v).
Proof.
  intros Hinv Hacc Hsub v Hv. split; [apply Hacc|].
  intros HA. induction HA as [v _ IH]. destruct (decide (v ∈ visited)) as [|Hn]; [done|exfalso].
  pose proof (ri_deg _ _ _ _ Hinv v Hv) as Hd. simpl in Hd. rewrite Nat.add_0_r in Hd.
  destruct (decide (indeg_from (known ∖ visited) v = 0)) as [H0|Hpos].
  - rewrite H0 in Hd. apply (ri_zero _ _ _ _ Hinv) in Hd as [?|?%elem_of_nil]; done.
  - destruct (sum_over_pos (λ u, occ v (dependents u)) (known ∖ visited)) as (u & Hu & Ho).
    { unfold indeg_from in Hpos. lia. }
    apply elem_of_difference in Hu as [Huk Hun]. apply occ_pos in Ho.
    apply Hun, IH; [by split|done].
Qed.

(** The loop from the initial indegrees, whatever order the zero-indegree
    ids are queued in. *)
Theorem kahn_correct (queue : list string) (indegree : gmap string nat) :
  dom indegree = known →
  (∀ v, v ∈ known → indegree !! v = Some (indeg_from known v)) →
  NoDup queue → (∀ v, v ∈ queue ↔ indegree !! v = Some 0) →
  ∃ indegree' visited,
    kahn_loop (size known) dependents queue indegree ∅ = Some (indegree', visited)
    ∧ dom indegree' = known ∧ visited ⊆ known
    ∧ (∀ v, v ∈ known → (v ∈ visited ↔ Acc dep_edge v))
    ∧ (∀ v, indegree' !! v = Some 0 ↔ v ∈ visited).
Proof.
  intros Hdom Hdeg Hnd Hq.
  destruct (loop_spec (size known) ∅ queue indegree) as (d' & vis & Hrun & Hinv & Hacc & Hsub).
  - constructor; try done.
    + intros v Hv. rewrite Hdeg by done. rewrite difference_empty_L. simpl. by rewrite Nat.add_0_r.
    + intros v. rewrite Hq. set_solver.
    + set_solver.
  - by intros v ?%not_elem_of_empty.
  - set_solver.
  - by rewrite difference_empty_L.
  - exists d', vis. split; [done|]. split; [apply Hinv|]. split; [done|].
    split; [by eapply final_visited|]. intros v. rewrite (ri_zero _ _ _ _ Hinv).
    rewrite elem_of_nil. tauto.
Qed.
End Kahn.

(** ** Finite chains and cycles *)

Lemma tc_last {A} (R : relation A) x y : tc R x y → ∃ z, rtc R x z ∧ R z y.
Proof.
  induction 1 as [x y Hxy|x y w Hxy _ (z & Hyz & Hzw)]; [by exists x|].
  exists z. split; [by eapply rtc_l|done].
Qed.

Lemma acc_no_cycle {A} (R : relation A) v : Acc R v → ¬ tc R v v.
Proof.
  induction 1 as [v _ IH]. intros (z & Hvz & Hzv)%tc_last.
  apply (IH z Hzv). eapply tc_rtc_r; [by apply tc_once|done].
Qed.

Lemma acc_rtc {A} (R : relation A) w v : Acc R v → rtc R w v → Acc R w.
Proof.
  intros HA Hr. induction Hr as [|x y z Hxy _ IH]; [done|].
  exact (Acc_inv (IH HA) Hxy).
Qed.

(** In a finite set where everyone has a predecessor, everyone is downstream
    of a cycle. *)
Lemma finite_descent_cycle (R : relation string) (U : gset string) :
  (∀ v, v ∈ U → ∃ u, u ∈ U ∧ R u v) →
  ∀ v, v ∈ U → ∃ w, tc R w w ∧ rtc R w v.
Proof.
  intros HU.
  assert (∀ n (S : gset string) v, v ∈ U → (∀ s, s ∈ S → tc R v s) → size (U ∖ S) ≤ n →
            ∃ w, tc R w w ∧ rtc R w v) as Haux.
  { induction n as [|n IH]; intros S v Hv HS Hn.
    - assert (v ∈ S) as Hin.
      { assert (size (U ∖ S) = 0) as ?%size_empty_inv by lia.
        destruct (decide (v ∈ S)); [done|set_solver]. }
      exists v. split; [by apply HS|done].
    - destruct (decide (v ∈ S)) as [Hin|Hin]; [exists v; split; [by apply HS|done]|].
      destruct (HU v Hv) as (u & Hu & Huv).
      destruct (IH ({[v]} ∪ S) u Hu) as (w & Hw & Hwu).
      + intros s [->%elem_of_singleton|Hs]%elem_of_union; [by apply tc_once|].
        eapply tc_l; [done|by apply HS].
      + replace (U ∖ ({[v]} ∪ S)) with (U ∖ S ∖ {[v]}) by set_solver.
        rewrite size_difference, size_singleton by set_solver. lia.
      + exists w. split; [done|]. eapply rtc_r; done. }
  intros v Hv. eapply (Haux (size U) ∅ v); [done|set_solver|]. by rewrite difference_empty_L.
Qed.
