(* ===== verification/Dag.v ===== *)
(** * The task graph

    Data model of crates/jcode-plan/src/dag/mod.rs: nodes, specs, artifacts,
    errors, and the queries of [TaskGraph].  The mutations are in DagOps.v,
    the cycle check in Kahn.v. *)

From stdpp Require Import base list strings gmap.
From S2P Require Import Prelude RustString Confidence.

Open Scope string_scope.
Open Scope nat_scope.
Open Scope list_scope.

(** [pub type NodeId = String]. *)
Notation NodeId := string (only parsing).

Inductive Mode : Set := Deep | Light.

Definition requires_gates (m : Mode) : bool :=
  match m with Deep => true | Light => false end.

Inductive NodeOrigin : Set := OSeed | OExpand | OGap | OGate.

Inductive NodeKind : Set := Explore | Implement | Verify | Fix | Synthesize | Critique.

Definition is_gate_kind (k : NodeKind) : bool :=
  match k with Critique | Verify => true | _ => false end.

(** The gate kind guarding a composite of the given kind. *)
Definition gate_kind (k : NodeKind) : NodeKind :=
  match k with
  | Implement | Fix => Verify
  | _ => Critique
  end.

Inductive NodeStatus : Set := Queued | Running | Done | Failed.

#[export] Instance Mode_eq_dec : EqDecision Mode.
Proof. solve_decision. Defined.
#[export] Instance NodeOrigin_eq_dec : EqDecision NodeOrigin.
Proof. solve_decision. Defined.
#[export] Instance NodeKind_eq_dec : EqDecision NodeKind.
Proof. solve_decision. Defined.
#[export] Instance NodeStatus_eq_dec : EqDecision NodeStatus.
Proof. solve_decision. Defined.

(** The typed handoff artifact attached to a node on completion. *)
Record HandoffArtifact := mkArtifact {
  findings : string;
  evidence : list string;
  edge_cases_considered : list string;
  validation : option string;
  open_questions : list string;
  confidence : option string;
  what_i_did_not_check : list string }.

#[export] Instance HandoffArtifact_eq_dec : EqDecision HandoffArtifact.
Proof. solve_decision. Defined.

Definition artifact_default : HandoffArtifact := mkArtifact "" [] [] None [] None [].

Definition brief (f : string) : HandoffArtifact := mkArtifact f [] [] None [] None [].

Definition confidence_level (a : HandoffArtifact) : option ConfidenceLevel :=
  match confidence a with
  | Some c => confidence_parse c
  | None => None
  end.

(** [if !items.is_empty() { body.push_str("label: a; b\n") }]. *)
Definition render_list (label : string) (items : list string) : string :=
  match items with
  | [] => ""
  | _ => label +:+ String.concat "; " items +:+ newline
  end.

Definition render_opt (label : string) (o : option string) : string :=
  match o with
  | Some v => label +:+ v +:+ newline
  | None => ""
  end.

Definition render_section (a : HandoffArtifact) (id kind : string) : string :=
  "## " +:+ id +:+ " (" +:+ kind +:+ ")" +:+ newline
  +:+ (if str_is_empty (trim (findings a)) then "" else findings a +:+ newline)
  +:+ render_list "Evidence: " (evidence a)
  +:+ render_list "Edge cases considered: " (edge_cases_considered a)
  +:+ render_opt "Validation: " (validation a)
  +:+ render_list "Open questions: " (open_questions a)
  +:+ render_opt "Confidence: " (confidence a)
  +:+ render_list "What was not checked: " (what_i_did_not_check a).

Record TaskNode := mkNode {
  tn_id : NodeId;
  tn_content : string;
  tn_kind : NodeKind;
  tn_status : NodeStatus;
  tn_owner : option string;
  tn_parent : option NodeId;
  tn_depends_on : list NodeId;
  tn_expanded : bool;
  tn_is_gate : bool;
  tn_planner : option string;
  tn_priority : Z;   (* u8 *)
  tn_output : option HandoffArtifact;
  tn_origin : option NodeOrigin }.

#[export] Instance TaskNode_eq_dec : EqDecision TaskNode.
Proof. solve_decision. Defined.

Definition is_composite (n : TaskNode) : bool := tn_expanded n.
Definition is_done (n : TaskNode) : bool := bool_decide (tn_status n = Done).
Definition is_terminal (n : TaskNode) : bool :=
  match tn_status n with Done | Failed => true | _ => false end.

(** Field assignments through a [&mut TaskNode]. *)
Definition set_status (st : NodeStatus) (n : TaskNode) : TaskNode :=
  mkNode (tn_id n) (tn_content n) (tn_kind n) st (tn_owner n) (tn_parent n)
    (tn_depends_on n) (tn_expanded n) (tn_is_gate n) (tn_planner n) (tn_priority n)
    (tn_output n) (tn_origin n).
Definition set_owner (o : option string) (n : TaskNode) : TaskNode :=
  mkNode (tn_id n) (tn_content n) (tn_kind n) (tn_status n) o (tn_parent n)
    (tn_depends_on n) (tn_expanded n) (tn_is_gate n) (tn_planner n) (tn_priority n)
    (tn_output n) (tn_origin n).
Definition set_depends_on (d : list NodeId) (n : TaskNode) : TaskNode :=
  mkNode (tn_id n) (tn_content n) (tn_kind n) (tn_status n) (tn_owner n) (tn_parent n)
    d (tn_expanded n) (tn_is_gate n) (tn_planner n) (tn_priority n)
    (tn_output n) (tn_origin n).
Definition set_expanded (b : bool) (n : TaskNode) : TaskNode :=
  mkNode (tn_id n) (tn_content n) (tn_kind n) (tn_status n) (tn_owner n) (tn_parent n)
    (tn_depends_on n) b (tn_is_gate n) (tn_planner n) (tn_priority n)
    (tn_output n) (tn_origin n).
Definition set_planner (p : option string) (n : TaskNode) : TaskNode :=
  mkNode (tn_id n) (tn_content n) (tn_kind n) (tn_status n) (tn_owner n) (tn_parent n)
    (tn_depends_on n) (tn_expanded n) (tn_is_gate n) p (tn_priority n)
    (tn_output n) (tn_origin n).
Definition set_output (o : option HandoffArtifact) (n : TaskNode) : TaskNode :=
  mkNode (tn_id n) (tn_content n) (tn_kind n) (tn_status n) (tn_owner n) (tn_parent n)
    (tn_depends_on n) (tn_expanded n) (tn_is_gate n) (tn_planner n) (tn_priority n)
    o (tn_origin n).

Record NodeSpec := mkSpec {
  ns_id : option NodeId;
  ns_content : string;
  ns_kind : NodeKind;
  ns_depends_on : list NodeId;
  ns_priority : Z }.   (* u8 *)

#[export] Instance NodeSpec_eq_dec : EqDecision NodeSpec.
Proof. solve_decision. Defined.

(** [NodeSpec::new(id, content, kind)] and its builder methods. *)
Definition spec_new (id content : string) (kind : NodeKind) : NodeSpec :=
  mkSpec (Some id) content kind [] 0.
Definition spec_depends_on (s : NodeSpec) (deps : list string) : NodeSpec :=
  mkSpec (ns_id s) (ns_content s) (ns_kind s) deps (ns_priority s).
Definition spec_priority (s : NodeSpec) (p : Z) : NodeSpec :=
  mkSpec (ns_id s) (ns_content s) (ns_kind s) (ns_depends_on s) p.

Inductive DagError : Type :=
| UnknownNode (id : NodeId)
| DuplicateNode (id : NodeId)
| UnknownDependency (node dependency : NodeId)
| WouldCreateCycle (ids : list NodeId)
| NotOwner (node : NodeId) (actor : string)
| InvalidState (node : NodeId) (status : NodeStatus)
| ThinArtifact (node : NodeId) (reason : string)
| UnaddressedLowConfidence (gate : NodeId) (low_nodes : list NodeId)
| UncoveredSiblings (gate : NodeId) (uncovered : list NodeId)
| StaleGateScope (gate : NodeId) (pending : list NodeId)
| GateMisuse (msg : string).

#[export] Instance DagError_eq_dec : EqDecision DagError.
Proof. solve_decision. Defined.

(** [{status:?}]. *)
Definition status_debug (s : NodeStatus) : string :=
  match s with
  | Queued => "Queued"
  | Running => "Running"
  | Done => "Done"
  | Failed => "Failed"
  end.

(** [impl Display for DagError]. *)
Definition error_display (e : DagError) : string :=
  match e with
  | UnknownNode id => "unknown node '" +:+ id +:+ "'"
  | DuplicateNode id => "duplicate node id '" +:+ id +:+ "'"
  | UnknownDependency node dependency =>
      "node '" +:+ node +:+ "' depends on unknown node '" +:+ dependency +:+ "'"
  | WouldCreateCycle ids =>
      "operation would create a cycle among: " +:+ String.concat ", " ids
  | NotOwner node actor => "actor '" +:+ actor +:+ "' does not own node '" +:+ node +:+ "'"
  | InvalidState node status =>
      "node '" +:+ node +:+ "' is in invalid state " +:+ status_debug status
      +:+ " for this operation"
  | ThinArtifact node reason => "node '" +:+ node +:+ "' artifact rejected: " +:+ reason
  | UnaddressedLowConfidence gate nodes =>
      "gate '" +:+ gate +:+ "' cannot pass: sibling node(s) [" +:+ String.concat ", " nodes
      +:+ "] completed with LOW confidence and the gate artifact does not address them. Either "
      +:+ "inject_gap with follow-up nodes that shore up that work, or name each "
      +:+ "id in your findings with why its low confidence is acceptable"
  | UncoveredSiblings gate nodes =>
      "gate '" +:+ gate +:+ "' cannot pass: completed node(s) [" +:+ String.concat ", " nodes
      +:+ "] in its audit scope are not addressed in the gate artifact. A passing deep gate must "
      +:+ "account for every node it audits: name each id in findings/open_questions with what "
      +:+ "you checked, or inject_gap with follow-up nodes for anything shaky"
  | StaleGateScope gate pending =>
      "gate '" +:+ gate +:+ "' cannot pass: node(s) [" +:+ String.concat ", " pending
      +:+ "] entered its audit scope after it was dispatched and are not finished. The gate's "
      +:+ "view is stale; it re-runs after they drain"
  | GateMisuse msg => "gate misuse: " +:+ msg
  end.

(** The graph: insertion order is kept, lookups are by id. *)
Record TaskGraph := mkGraph { g_mode : Mode; g_nodes : list TaskNode }.

#[export] Instance TaskGraph_eq_dec : EqDecision TaskGraph.
Proof. solve_decision. Defined.

Definition graph_new (m : Mode) : TaskGraph := mkGraph m [].
Definition has_id (id : NodeId) (n : TaskNode) : bool := bool_decide (tn_id n = id).
Definition graph_len (g : TaskGraph) : nat := length (g_nodes g).
Definition graph_is_empty (g : TaskGraph) : bool := bool_decide (g_nodes g = []).
Definition get (g : TaskGraph) (id : NodeId) : option TaskNode := find_first (has_id id) (g_nodes g).
(** [if let Some(node) = self.get_mut(id) { f(node) }]. *)
Definition update_node (id : NodeId) (f : TaskNode → TaskNode) (g : TaskGraph) : TaskGraph :=
  mkGraph (g_mode g) (update_first (has_id id) f (g_nodes g)).
Definition contains (g : TaskGraph) (id : NodeId) : bool := existsb (has_id id) (g_nodes g).
Definition push (g : TaskGraph) (n : TaskNode) : TaskGraph := mkGraph (g_mode g) (g_nodes g ++ [n]).

Definition children_of (g : TaskGraph) (id : NodeId) : list TaskNode :=
  List.filter (λ n, bool_decide (tn_parent n = Some id) && negb (tn_is_gate n)) (g_nodes g).
Definition gate_of (g : TaskGraph) (id : NodeId) : option TaskNode :=
  find_first (λ n, bool_decide (tn_parent n = Some id) && tn_is_gate n) (g_nodes g).

Definition output_level (n : TaskNode) : option ConfidenceLevel :=
  match tn_output n with
  | Some a => confidence_level a
  | None => None
  end.

Definition low_confidence_done_ids (g : TaskGraph) : list NodeId :=
  map tn_id
    (List.filter (λ n, bool_decide (output_level n = Some Low))
       (List.filter (λ n, is_done n && negb (tn_is_gate n)) (g_nodes g))).

Definition all_terminal (g : TaskGraph) : bool := forallb is_terminal (g_nodes g).

(** The ids of the graph, in insertion order. *)
Definition ids (g : TaskGraph) : list NodeId := map tn_id (g_nodes g).
