(* ===== verification/DagCycle.v ===== *)
(** * Cycle detection on the task graph

    [TaskGraph::cycle_nodes] (crates/jcode-plan/src/dag/mod.rs) on top of the
    loop of Kahn.v.  The result lists, in sorted order, the ids on a cycle of
    in-graph dependencies or downstream of one; it is empty exactly when the
    dependency relation has no cycle.  Nothing is assumed of the graph: ids
    may repeat and dependencies may dangle or repeat. *)

From stdpp Require Import base list strings gmap sets fin_sets relations.
From S2P Require Import Prelude RustString Confidence Dag Kahn.

Open Scope nat_scope.
Open Scope list_scope.

(** ** The code *)

Definition known_ids (g : TaskGraph) : gset string := list_to_set (ids g).

(** Unique in-graph dependencies of a node. *)
Definition unique_deps (known : gset string) (n : TaskNode) : gset string :=
  list_to_set (filter (.∈ known) (tn_depends_on n)).

(** [indegree.entry(id).or_insert(0)] for every node. *)
Definition indegree_init (nodes : list TaskNode) : gmap string nat :=
  foldl (λ m n, match m !! tn_id n with Some _ => m | None => <[tn_id n := 0]> m end) ∅ nodes.

(** [*indegree.entry(id).or_insert(0) += unique_deps.len()] for every node. *)
Definition indegree_count (known : gset string) (nodes : list TaskNode) (m : gmap string nat)
  : gmap string nat :=
  foldl (λ m n, <[tn_id n := default 0 (m !! tn_id n) + size (unique_deps known n)]> m) m nodes.

(** Ids of the nodes that list [id] as a dependency, in node order. *)
Definition dependents_of (g : TaskGraph) (id : NodeId) : list NodeId :=
  map tn_id (filter (λ n, id ∈ tn_depends_on n) (g_nodes g)).

(** Keys of value zero. *)
Definition zero_keys (m : gmap string nat) : list string :=
  map fst (filter (λ kv, kv.2 = 0) (map_to_list m)).

Definition cycle_visited (g : TaskGraph) : option (gset string) :=
  let known := known_ids g in
  let indegree := indegree_count known (g_nodes g) (indegree_init (g_nodes g)) in
  (* the sorted [Vec] is popped from its end *)
  let queue := rev (sort_strings (zero_keys indegree)) in
  snd <$> kahn_loop (size indegree) (dependents_of g) queue indegree ∅.

Definition cycle_nodes (g : TaskGraph) : list NodeId :=
  match cycle_visited g with
  | Some visited => sort_strings (filter (.∉ visited) (ids g))
  | None => []
  end.

(** ** The relation it decides *)

(** [u] is an in-graph dependency of a node with id [v]. *)
Definition depends (g : TaskGraph) (u v : NodeId) : Prop :=
  u ∈ ids g ∧ ∃ n, n ∈ g_nodes g ∧ tn_id n = v ∧ u ∈ tn_depends_on n.

Definition acyclic (g : TaskGraph) : Prop := ∀ w, ¬ tc (depends g) w w.

(** ** Proofs *)

Lemma elem_of_ids g v : v ∈ ids g ↔ ∃ n, n ∈ g_nodes g ∧ tn_id n = v.
Proof. unfold ids. rewrite list_elem_of_fmap. naive_solver. Qed.

Lemma elem_of_known_ids g v : v ∈ known_ids g ↔ v ∈ ids g.
Proof. unfold known_ids. apply elem_of_list_to_set. Qed.

Lemma elem_of_dependents_of g u v :
  v ∈ dependents_of g u ↔ ∃ n, n ∈ g_nodes g ∧ tn_id n = v ∧ u ∈ tn_depends_on n.
Proof.
  unfold dependents_of. rewrite list_elem_of_fmap. setoid_rewrite list_elem_of_filter. naive_solver.
Qed.

Lemma dependents_of_known g u v : v ∈ dependents_of g u → v ∈ known_ids g.
Proof. rewrite elem_of_dependents_of, elem_of_known_ids, elem_of_ids. naive_solver. Qed.

Lemma dep_edge_depends g u v : dep_edge (dependents_of g) (known_ids g) u v ↔ depends g u v.
Proof. unfold dep_edge, depends. by rewrite elem_of_known_ids, elem_of_dependents_of. Qed.

Lemma Acc_iff {A} (R1 R2 : relation A) v : (∀ x y, R1 x y ↔ R2 x y) → Acc R1 v ↔ Acc R2 v.
Proof.
  intros HR. split; intros HA; induction HA as [v _ IH]; constructor; intros u Hu; apply IH, HR, Hu.
Qed.

(** *** Initial indegrees *)

Lemma sum_over_plus f h (S : gset string) :
  sum_over (λ u, f u + h u) S = sum_over f S + sum_over h S.
Proof. unfold sum_over. induction (elements S); simpl; lia. Qed.

Lemma sum_over_ext f h (S : gset string) : (∀ u, f u = h u) → sum_over f S = sum_over h S.
Proof. intros Hfh. unfold sum_over. induction (elements S); simpl; [done|]. by rewrite Hfh, IHl. Qed.

Lemma sum_over_const0 (S : gset string) : sum_over (λ _, 0) S = 0.
Proof. unfold sum_over. by induction (elements S). Qed.

Lemma sum_over_indicator (deps : list string) (S : gset string) :
  sum_over (λ u, if decide (u ∈ deps) then 1 else 0) S
  = size (list_to_set (filter (.∈ S) deps) : gset string).
Proof.
  replace (list_to_set (filter (.∈ S) deps) : gset string)
    with (filter (.∈ deps) S)
    by (apply set_eq; intros u; rewrite elem_of_filter, elem_of_list_to_set, list_elem_of_filter; tauto).
  induction S as [|x S Hx IH] using set_ind_L.
  { unfold sum_over. rewrite elements_empty. simpl.
    symmetry. apply size_empty_iff. intros u. rewrite elem_of_filter. set_solver. }
  rewrite (sum_over_remove _ _ x) by set_solver.
  replace (({[x]} ∪ S) ∖ {[x]}) with S by set_solver. rewrite IH, filter_union_L by apply _.
  rewrite filter_singleton_L by apply _. destruct (decide (x ∈ deps)).
  - rewrite size_union, size_singleton; [done|].
    intros u ->%elem_of_singleton [_ ?]%elem_of_filter. done.
  - by rewrite union_empty_l_L.
Qed.

(** Double counting: occurrences of [v] among the dependents of known ids are
    the unique known dependencies of the nodes with id [v]. *)
Lemma indegree_count_spec known nodes (m : gmap string nat) v :
  v ∈ dom m ∨ v ∈ map tn_id nodes →
  indegree_count known nodes m !! v =
  Some (default 0 (m !! v) +
        sum_over (λ u, occ v (map tn_id (filter (λ n, u ∈ tn_depends_on n) nodes))) known).
Proof.
  unfold indegree_count. revert m. induction nodes as [|n nodes IH]; intros m Hv; simpl.
  { unfold occ; simpl. rewrite sum_over_const0, Nat.add_0_r.
    destruct Hv as [[x Hx]%elem_of_dom|?%elem_of_nil]; [by rewrite Hx|done]. }
  rewrite IH by (rewrite dom_insert; set_solver). f_equal.
  rewrite (sum_over_ext
    (λ u, occ v (map tn_id (filter (λ n0, u ∈ tn_depends_on n0) (n :: nodes))))
    (λ u, (if decide (v = tn_id n) then (if decide (u ∈ tn_depends_on n) then 1 else 0) else 0)
          + occ v (map tn_id (filter (λ n0, u ∈ tn_depends_on n0) nodes)))).
  2: { intros u. rewrite filter_cons. destruct (decide (u ∈ tn_depends_on n)); simpl.
       - rewrite occ_cons. done.
       - destruct (decide (v = tn_id n)); done. }
  rewrite sum_over_plus, lookup_insert.
  destruct (decide (v = tn_id n)) as [->|Hne].
  - rewrite decide_True by done. simpl. unfold unique_deps. rewrite <- sum_over_indicator. lia.
  - rewrite decide_False by congruence. rewrite sum_over_const0. lia.
Qed.

Lemma indegree_init_spec nodes v :
  indegree_init nodes !! v = if decide (v ∈ map tn_id nodes) then Some 0 else None.
Proof.
  unfold indegree_init.
  assert (∀ m : gmap string nat, (∀ x d, m !! x = Some d → d = 0) →
    foldl (λ m n, match m !! tn_id n with Some _ => m | None => <[tn_id n := 0]> m end) m nodes !! v
    = if decide (v ∈ map tn_id nodes) then Some 0 else m !! v) as H.
  { induction nodes as [|n nodes IH]; intros m Hm; simpl; [done|].
    destruct (m !! tn_id n) as [d|] eqn:E.
    - rewrite IH by done. repeat case_decide; set_solver.
    - rewrite IH.
      + rewrite lookup_insert. repeat case_decide; simplify_eq; try done;
          rewrite elem_of_cons in *; naive_solver.
      + intros x d. rewrite lookup_insert. destruct (decide (tn_id n = x)); [congruence|apply Hm]. }
  rewrite H; [by rewrite lookup_empty|]. intros x d. by rewrite lookup_empty.
Qed.

Definition initial_indegree (g : TaskGraph) : gmap string nat :=
  indegree_count (known_ids g) (g_nodes g) (indegree_init (g_nodes g)).

Lemma dom_initial_indegree g : dom (initial_indegree g) = known_ids g.
Proof.
  apply set_eq. intros v. unfold initial_indegree, indegree_count.
  rewrite elem_of_known_ids. unfold ids.
  assert (∀ m : gmap string nat,
    v ∈ dom (foldl (λ m n, <[tn_id n := default 0 (m !! tn_id n)
              + size (unique_deps (known_ids g) n)]> m) m (g_nodes g))
    ↔ v ∈ dom m ∨ v ∈ map tn_id (g_nodes g)) as ->.
  { induction (g_nodes g) as [|n l IH]; intros m; simpl; [set_solver|].
    rewrite IH, dom_insert. set_solver. }
  rewrite elem_of_dom, indegree_init_spec. case_decide; [naive_solver|].
  split; [intros [[? ?]|?]; done|done].
Qed.

Lemma initial_indegree_spec g v :
  v ∈ known_ids g →
  initial_indegree g !! v = Some (indeg_from (dependents_of g) (known_ids g) v).
Proof.
  rewrite elem_of_known_ids. intros Hv. unfold initial_indegree.
  rewrite indegree_count_spec by (right; exact Hv).
  rewrite indegree_init_spec, decide_True by exact Hv. done.
Qed.

Lemma elem_of_zero_keys m v : v ∈ zero_keys m ↔ m !! v = Some 0.
Proof.
  unfold zero_keys. rewrite list_elem_of_fmap. setoid_rewrite list_elem_of_filter.
  split.
  - intros ([k d] & -> & ? & ?%elem_of_map_to_list). naive_solver.
  - intros ?. exists (v, 0). by rewrite elem_of_map_to_list.
Qed.

Lemma NoDup_zero_keys m : NoDup (zero_keys m).
Proof.
  unfold zero_keys.
  pose proof (NoDup_fst_map_to_list m) as Hnd. revert Hnd.
  induction (map_to_list m) as [|[k d] l IH]; simpl; [done|].
  intros [Hk Hl]%NoDup_cons. rewrite filter_cons. case_decide; simpl; [|by apply IH].
  apply NoDup_cons. split; [|by apply IH]. intros (kv & Hkv & [_ ?]%list_elem_of_filter)%list_elem_of_fmap.
  apply Hk, list_elem_of_fmap. eauto.
Qed.

(** The loop never runs out of fuel and visits the ids whose dependency
    chains are all finite. *)
Lemma cycle_visited_spec g :
  ∃ visited, cycle_visited g = Some visited ∧ visited ⊆ known_ids g ∧
    ∀ v, v ∈ ids g → (v ∈ visited ↔ Acc (depends g) v).
Proof.
  destruct (kahn_correct (dependents_of g) (known_ids g) (dependents_of_known g)
    (rev (sort_strings (zero_keys (initial_indegree g)))) (initial_indegree g))
    as (d & visited & Hrun & _ & Hsub & Hacc & _).
  - apply dom_initial_indegree.
  - apply initial_indegree_spec.
  - apply NoDup_ListNoDup, List.NoDup_rev, NoDup_ListNoDup.
    unfold sort_strings. rewrite sort_by_perm. apply NoDup_zero_keys.
  - intros v. rewrite list_elem_of_In, <- List.in_rev, <- list_elem_of_In.
    by rewrite elem_of_sort_strings, elem_of_zero_keys.
  - exists visited. split; [|split; [done|]].
    + unfold cycle_visited. fold (initial_indegree g).
      replace (size (initial_indegree g)) with (size (known_ids g))
        by (by rewrite <- dom_initial_indegree, size_dom).
      by rewrite Hrun.
    + intros v Hv. rewrite Hacc by (by apply elem_of_known_ids).
      apply Acc_iff, dep_edge_depends.
Qed.

Lemma elem_of_cycle_nodes g v : v ∈ cycle_nodes g ↔ v ∈ ids g ∧ ¬ Acc (depends g) v.
Proof.
  unfold cycle_nodes. destruct (cycle_visited_spec g) as (visited & -> & _ & Hacc).
  rewrite elem_of_sort_strings, list_elem_of_filter.
  split; intros [H1 H2]; split; try done; [by rewrite <- Hacc|by rewrite Hacc].
Qed.

(** Outside the well-founded part, every id has an in-graph dependency outside it. *)
Lemma not_acc_reaches_cycle g v :
  v ∈ ids g → ¬ Acc (depends g) v → ∃ w, tc (depends g) w w ∧ rtc (depends g) w v.
Proof.
  intros Hv Hn. destruct (cycle_visited_spec g) as (visited & _ & _ & Hacc).
  apply (finite_descent_cycle (depends g) (known_ids g ∖ visited)).
  2: { apply elem_of_difference. rewrite elem_of_known_ids. by rewrite Hacc. }
  clear v Hv Hn. intros v [Hv Hn]%elem_of_difference. apply elem_of_known_ids in Hv.
  (* one of the finitely many dependencies of [v] is unvisited, else [v] is visited *)
  set (P := λ u : string, depends g u v).
  destruct (decide (Exists (λ u, u ∉ visited ∧ Exists (λ n, tn_id n = v ∧ u ∈ tn_depends_on n) (g_nodes g))
              (ids g))) as [HE|HE].
  - apply Exists_exists in HE as (u & Hu & Huv & (n & ? & ? & ?)%Exists_exists).
    exists u. split; [apply elem_of_difference; by rewrite elem_of_known_ids|].
    split; [done|eauto].
  - exfalso. apply Hn, Hacc; [done|]. constructor. intros u Huv.
    destruct (decide (u ∈ visited)) as [|Hnu]; [apply Hacc; [apply Huv|done]|].
    exfalso. apply HE, Exists_exists. destruct Huv as [Hu (n & Hn' & He & Hd)].
    exists u. split; [done|]. split; [done|]. apply Exists_exists. eauto.
Qed.

Lemma cycle_nodes_nil g : cycle_nodes g = [] ↔ ∀ v, v ∈ ids g → Acc (depends g) v.
Proof.
  destruct (cycle_visited_spec g) as (visited & Hrun & _ & Hacc). split.
  - intros Hnil v Hv. apply Hacc; [done|]. destruct (decide (v ∈ visited)) as [|Hn]; [done|].
    assert (v ∈ cycle_nodes g) as Hin; [|rewrite Hnil in Hin; by apply elem_of_nil in Hin].
    apply elem_of_cycle_nodes. split; [done|]. by rewrite <- Hacc.
  - intros HA. apply elem_of_nil_inv. intros v [Hv Hn]%elem_of_cycle_nodes. by apply Hn, HA.
Qed.

Lemma depends_in_ids g u v : depends g u v → v ∈ ids g.
Proof. intros [_ (n & ? & ? & ?)]. apply elem_of_ids. eauto. Qed.

Lemma cycle_nodes_nil_acyclic g : cycle_nodes g = [] ↔ acyclic g.
Proof.
  rewrite cycle_nodes_nil. split.
  - intros HA w Hw. destruct (tc_last _ _ _ Hw) as (z & _ & Hz).
    eapply acc_no_cycle; [apply HA; by eapply depends_in_ids|done].
  - intros Hac v Hv. destruct (decide (v ∈ cycle_nodes g)) as [Hin|Hin].
    + apply elem_of_cycle_nodes in Hin as [_ Hn].
      destruct (not_acc_reaches_cycle g v Hv Hn) as (w & Hw & _). by destruct (Hac w).
    + destruct (cycle_visited_spec g) as (visited & Hrun & _ & Hacc). apply Hacc; [done|].
      destruct (decide (v ∈ visited)) as [|Hnv]; [done|]. exfalso. apply Hin.
      unfold cycle_nodes. rewrite Hrun, elem_of_sort_strings. by apply list_elem_of_filter.
Qed.

(** C36: the cycle check is exact: an id is reported exactly when it is an id
    of the graph that lies on a cycle of in-graph dependencies or downstream
    of one.  Duplicate ids, repeated and dangling dependencies are allowed. *)
Theorem cycle_nodes_exact (g : TaskGraph) (v : NodeId) :
  v ∈ cycle_nodes g ↔
  v ∈ ids g ∧ ∃ w, tc (depends g) w w ∧ rtc (depends g) w v.
Proof.
  rewrite elem_of_cycle_nodes. split; intros [Hv H]; split; try done.
  - by apply not_acc_reaches_cycle.
  - destruct H as (w & Hw & Hwv). intros HA. eapply acc_no_cycle; [|exact Hw].
    by eapply acc_rtc.
Qed.

(** The loop of the check runs at most once per distinct id: with that
    much fuel it always finishes, and it never accepts a cyclic graph nor
    rejects an acyclic one. *)
Theorem cycle_nodes_terminates_decides (g : TaskGraph) :
  cycle_visited g ≠ None ∧ (cycle_nodes g = [] ↔ acyclic g).
Proof.
  split; [|apply cycle_nodes_nil_acyclic].
  destruct (cycle_visited_spec g) as (visited & -> & _). done.
Qed.

(** *** Monotonicity *)

(** Topological order: every in-graph dependency has a smaller rank. *)
Lemma acyclic_by_rank (g : TaskGraph) (rank : NodeId → nat) :
  (∀ u v, depends g u v → rank u < rank v) → acyclic g.
Proof.
  intros Hr w Hw. assert (∀ x y, tc (depends g) x y → rank x < rank y) as H.
  { induction 1 as [x y ?|x y z ? _ ?]; [auto|]. etrans; eauto. }
  specialize (H w w Hw). lia.
Qed.

Lemma acyclic_mono g g' : (∀ u v, depends g' u v → depends g u v) → acyclic g → acyclic g'.
Proof.
  intros Hsub Hac w Hw. apply (Hac w).
  assert (∀ x y, tc (depends g') x y → tc (depends g) x y) as H; [|by apply H].
  induction 1; eauto using tc.
Qed.
