(* ===== verification/Mention.v ===== *)
(** * Mentions of a node id in free text

    [mentions_node_id] of crates/jcode-plan/src/dag/ops.rs, on which the gate
    rules turn: a passing gate must name the ids it audited, as standalone
    tokens and not as parts of longer words. *)

From stdpp Require Import base list strings.
From S2P Require Import Prelude RustString.

Open Scope string_scope.
Open Scope nat_scope.
Open Scope list_scope.

Definition is_id_char (c : Ascii.ascii) : bool :=
  is_ascii_alphanumeric c
  || existsb (N.eqb (byte_val c)) [45; 95; 46; 58]%N.   (* - _ . : *)

Definition opt_id_char (o : option Ascii.ascii) : bool :=
  match o with Some c => is_id_char c | None => false end.

(** The text before the match does not end in an id character. *)
Definition before_ok (pre : string) : bool := negb (opt_id_char (last_byte pre)).

(** The text after the match does not continue the id; a point or colon
    continues it only when an id character follows. *)
Definition after_ok (post : string) : bool :=
  match post with
  | "" => true
  | String c rest =>
      if (byte_val c =? 46)%N || (byte_val c =? 58)%N
      then negb (opt_id_char (first_byte rest))
      else negb (is_id_char c)
  end.

(** [while let Some(pos) = text[start..].find(id) { .. }]; [None] when the
    fuel runs out. *)
Fixpoint mention_loop (fuel : nat) (text id : string) (start : nat) : option bool :=
  match fuel with
  | O => None
  | S fuel' =>
      match str_find id (str_drop start text) with
      | None => Some false
      | Some pos =>
          let begin_ := start + pos in
          let end_ := begin_ + String.length id in
          if before_ok (str_take begin_ text) && after_ok (str_drop end_ text) then Some true
          else
            let step := match first_byte (str_drop begin_ text) with
                        | Some c => char_len c
                        | None => 1
                        end in
            if String.length text <=? begin_ + step then Some false
            else mention_loop fuel' text id (begin_ + step)
      end
  end.

Definition mentions_node_id (text id : string) : bool :=
  if str_is_empty id then false
  else default false (mention_loop (S (String.length text)) text id 0).

(** A standalone occurrence. *)
Definition standalone (text id : string) : Prop :=
  ∃ pre post, text = pre +:+ id +:+ post ∧ before_ok pre = true ∧ after_ok post = true.

(** ** Proofs *)

#[local] Arguments String.append : simpl nomatch.

Lemma str_take_drop_s n s : str_take n s +:+ str_drop n s = s.
Proof. revert s. induction n; intros [|c s]; simpl; try done. by rewrite IHn. Qed.

Lemma str_drop_app_le n (a b : string) :
  n ≤ String.length a → str_drop n (a +:+ b) = str_drop n a +:+ b.
Proof. revert a. induction n; intros [|c a]; simpl; intros; try done; [lia|]. apply IHn. lia. Qed.

Lemma str_take_app_s (a b : string) : str_take (String.length a) (a +:+ b) = a.
Proof. induction a; simpl; [by destruct b|congruence]. Qed.

Lemma str_drop_add m n s : str_drop (m + n) s = str_drop n (str_drop m s).
Proof. revert s. induction m; intros [|c s]; simpl; try done. by destruct n. Qed.

Lemma length_str_drop n s : String.length (str_drop n s) = String.length s - n.
Proof. revert s. induction n; intros [|c s]; simpl; try done. Qed.

Lemma length_str_take n s : n ≤ String.length s → String.length (str_take n s) = n.
Proof. revert s. induction n; intros [|c s]; simpl; intros; try lia. rewrite IHn; lia. Qed.

Lemma char_len_pos c : 1 ≤ char_len c.
Proof. unfold char_len. repeat destruct (_ <? _)%N; lia. Qed.

(** At a lead byte no continuation is pending. *)
Lemma utf8_from_split k (a : string) c r :
  utf8_from k (a +:+ String c r) = true → is_cont c = false →
  utf8_from (char_len c - 1) r = true.
Proof.
  revert k. induction a as [|d a IH]; intros k; simpl.
  - destruct k; intros H Hc; [by apply andb_true_iff in H as [_ ?]|].
    rewrite Hc in H. done.
  - destruct k; intros [_ ?]%andb_true_iff ?; eauto.
Qed.

Lemma utf8_from_pending k (b : string) d r :
  utf8_from k (b +:+ String d r) = true → is_cont d = false → k ≤ String.length b.
Proof.
  revert k. induction b as [|c b IH]; intros [|k]; simpl; intros H Hd; try lia.
  - rewrite Hd in H. done.
  - apply andb_true_iff in H as [_ H]. apply IH in H; [lia|done].
Qed.

(** A later match starts at or after the next character. *)
Lemma char_step_le (pre id post post' : string) b :
  utf8 (pre +:+ id +:+ post) = true → utf8 id = true → id ≠ "" →
  b < String.length pre → str_drop b (pre +:+ id +:+ post) = id +:+ post' →
  ∃ c, first_byte (str_drop b (pre +:+ id +:+ post)) = Some c ∧ b + char_len c ≤ String.length pre.
Proof.
  intros Hu Hid Hne Hb Hdrop. destruct id as [|d id]; [done|].
  assert (is_cont d = false) as Hd.
  { apply andb_true_iff in Hid as [?%negb_true_iff _]. done. }
  rewrite Hdrop. exists d. split; [done|].
  rewrite str_drop_app_le in Hdrop by lia.
  destruct (str_drop b pre) as [|e r] eqn:Er.
  { pose proof (length_str_drop b pre) as Hl. rewrite Er in Hl. simpl in Hl. lia. }
  simpl in Hdrop. injection Hdrop as He Hr. subst e.
  rewrite <- (str_take_drop_s b pre), Er, append_assoc_s in Hu. simpl in Hu.
  unfold utf8 in Hu. apply utf8_from_split in Hu; [|done].
  apply utf8_from_pending in Hu; [|done].
  pose proof (length_str_drop b pre) as Hl. rewrite Er in Hl. simpl in Hl.
  pose proof (char_len_pos d). lia.
Qed.

Lemma str_find_drop pat s n :
  str_find pat s = Some n → ∃ post, str_drop n s = pat +:+ post.
Proof.
  intros (post & Hs & Hle)%str_find_Some. exists post. rewrite Hs.
  rewrite <- (length_str_take n s Hle) at 1. apply str_drop_append.
Qed.

Lemma mention_loop_sound fuel text id start :
  mention_loop fuel text id start = Some true → standalone text id.
Proof.
  revert start. induction fuel as [|fuel IH]; intros start; simpl; [done|].
  destruct (str_find id (str_drop start text)) as [pos|] eqn:Hf; [|done].
  destruct (before_ok (str_take (start + pos) text)
            && after_ok (str_drop (start + pos + String.length id) text)) eqn:Hok.
  - intros _. apply andb_true_iff in Hok as [Hb Ha].
    apply str_find_drop in Hf as (post & Hs). rewrite <- str_drop_add in Hs.
    exists (str_take (start + pos) text), (str_drop (start + pos + String.length id) text).
    split; [|done]. rewrite <- (str_take_drop_s (start + pos) text) at 1. f_equal.
    by rewrite (str_drop_add (start + pos)), Hs, str_drop_append.
  - destruct (String.length text <=? _); [done|apply IH].
Qed.

Lemma mention_loop_complete fuel (pre id post : string) start :
  utf8 (pre +:+ id +:+ post) = true → utf8 id = true → id ≠ "" →
  before_ok pre = true → after_ok post = true →
  start ≤ String.length pre → String.length (pre +:+ id +:+ post) < fuel + start →
  mention_loop fuel (pre +:+ id +:+ post) id start = Some true.
Proof.
  intros Hu Hid Hne Hb Ha. revert start. induction fuel as [|fuel IH]; intros start Hle Hf.
  { rewrite length_append_s in Hf. lia. }
  cbn [mention_loop]. set (text := pre +:+ id +:+ post) in *.
  assert (str_drop start text = str_drop start pre +:+ id +:+ post) as Hds
    by (by apply str_drop_app_le).
  destruct (str_find_first id (str_drop start pre) post) as (pos & Hpos & Hpl).
  rewrite Hds, Hpos. rewrite length_str_drop in Hpl.
  destruct (before_ok (str_take (start + pos) text) && after_ok _) eqn:Hok; [done|].
  apply str_find_drop in Hpos as (post' & Hp). rewrite <- Hds, <- str_drop_add in Hp.
  assert (start + pos < String.length pre) as Hlt.
  { destruct (decide (start + pos = String.length pre)) as [He|]; [exfalso|lia].
    rewrite (str_drop_add (start + pos)), He in Hok. unfold text in Hok.
    rewrite str_take_app_s, !str_drop_append, Hb, Ha in Hok. done. }
  destruct (char_step_le pre id post post' (start + pos)) as (c & Hc & Hstep); [done..|].
  fold text in Hc. rewrite Hc. pose proof (char_len_pos c).
  assert (0 < String.length id) by (destruct id; [done|simpl; lia]).
  assert (String.length text = String.length pre + (String.length id + String.length post)) as Hl
    by (unfold text; rewrite !length_append_s; done).
  destruct (Nat.leb_spec (String.length text) (start + pos + char_len c)) as [?|?]; [lia|].
  apply IH; lia.
Qed.

(** A text mentions an id exactly when it contains it as a standalone
    token: not preceded by an id character, and not continued by one (a point
    or colon counts as a continuation only before another id character).  The
    scan of the code, which restarts one character after a rejected match,
    misses no occurrence. *)
Theorem mentions_node_id_spec (text id : string) :
  utf8 text = true → utf8 id = true →
  (mentions_node_id text id = true ↔ id ≠ "" ∧ standalone text id).
Proof.
  intros Ht Hid. unfold mentions_node_id, str_is_empty.
  case_bool_decide as He; [naive_solver|]. split.
  - destruct (mention_loop _ text id 0) as [[]|] eqn:Hl; simpl; try done.
    intros _. split; [done|]. by eapply mention_loop_sound.
  - intros (_ & pre & post & -> & Hb & Ha).
    rewrite mention_loop_complete; try done; lia.
Qed.

Lemma mentions_node_id_spec_witness :
  mentions_node_id "checked explore.hot.udev." "explore.hot.udev" = true
  ∧ standalone "checked explore.hot.udev." "explore.hot.udev"
  ∧ mentions_node_id "checked explore.hot" "hot" = false.
Proof.
  pose proof (mentions_node_id_spec "checked explore.hot.udev." "explore.hot.udev"
    ltac:(vm_compute; reflexivity) ltac:(vm_compute; reflexivity)) as [Hm _].
  split; [vm_compute; reflexivity|]. split; [|vm_compute; reflexivity].
  apply Hm. vm_compute. reflexivity.
Defined.
