(* ===== verification/DagOps.v ===== *)
(** * Validated graph mutations

    crates/jcode-plan/src/dag/ops.rs: [seed], [expand_node], [complete_node],
    [fail_node], [inject_from_gate] and [requeue_failed], with their helpers.
    Each mutation is a computation of [dagM]: it reads and writes the graph
    and may return early with a [DagError]. *)

From stdpp Require Import base list strings gmap pretty.
From S2P Require Import Prelude RustString Confidence Dag Kahn DagCycle Mention.

Open Scope string_scope.
Open Scope nat_scope.
Open Scope list_scope.

Definition dagM (A : Type) : Type := stateE TaskGraph DagError A.

(** ** Helpers *)

(** A spec must carry an explicit, non-blank id. *)
Definition validated_spec_id (s : NodeSpec) (op : string) : result NodeId DagError :=
  match ns_id s with
  | None => Err (GateMisuse (op +:+ " specs must carry explicit ids"))
  | Some id =>
      if str_is_empty (trim id)
      then Err (GateMisuse (op +:+ " specs must carry non-empty ids"))
      else Ok id
  end.

Definition spec_to_node (s : NodeSpec) (parent : option NodeId) (origin : NodeOrigin) : TaskNode :=
  mkNode (default "" (ns_id s)) (ns_content s) (ns_kind s) Queued None parent
    (dedup_first (ns_depends_on s)) false false None (ns_priority s) None (Some origin).

(** Sets of dependencies are compared, not lists. *)
Definition dependency_sets_equal (l r : list NodeId) : bool :=
  bool_decide ((list_to_set l : gset string) = list_to_set r).

Definition seed_specs_equivalent (l r : NodeSpec) : bool :=
  bool_decide (ns_id l = ns_id r) && bool_decide (ns_content l = ns_content r)
  && bool_decide (ns_kind l = ns_kind r) && bool_decide (ns_priority l = ns_priority r)
  && dependency_sets_equal (ns_depends_on l) (ns_depends_on r).

Definition origin_seedlike (o : option NodeOrigin) : bool :=
  match o with None | Some OSeed => true | _ => false end.

(** Whether an existing node is the one a replayed seed spec declares; the
    join edges that expansion appended are filtered out first. *)
Definition seed_spec_matches_existing (g : TaskGraph) (n : TaskNode) (s : NodeSpec) : bool :=
  if bool_decide (is_Some (tn_parent n)) || tn_is_gate n || negb (origin_seedlike (tn_origin n))
     || bool_decide (tn_content n ≠ ns_content s) || bool_decide (tn_kind n ≠ ns_kind s)
     || bool_decide (tn_priority n ≠ ns_priority s)
  then false
  else
    let declared := List.filter
      (λ dep, match get g dep with
              | None => true
              | Some candidate => bool_decide (tn_parent candidate ≠ Some (tn_id n))
              end) (tn_depends_on n) in
    dependency_sets_equal declared (ns_depends_on s).

(** [loop { candidate = base{n}; if !contains { return } n += 1 }]; [None]
    when the fuel runs out. *)
Fixpoint gate_id_loop (fuel : nat) (g : TaskGraph) (base : string) (n : N) : option NodeId :=
  match fuel with
  | O => None
  | S fuel' =>
      let candidate := base +:+ pretty n in
      if contains g candidate then gate_id_loop fuel' g base (N.succ n) else Some candidate
  end.

Definition unique_gate_id (g : TaskGraph) (node_id : NodeId) : NodeId :=
  let base := node_id +:+ "::gate" in
  if contains g base
  then default base (gate_id_loop (S (length (g_nodes g))) g base 2)
  else base.

Definition gate_content (k : NodeKind) (parent : NodeId) : string :=
  match k with
  | Verify =>
      "Verify the work of '" +:+ parent +:+ "': run the declared acceptance checks (build, tests, lint). "
      +:+ "If anything fails, emit fix nodes back into the graph; do not pass until they drain."
  | _ =>
      "Critique the work of '" +:+ parent
      +:+ "' adversarially. Read every child's 'what_i_did_not_check' "
      +:+ "and find unexplored gaps given this task's stated scope. For each gap, emit a new child node; "
      +:+ "do not pass until no gaps remain."
  end.

Definition root_gate_content (k : NodeKind) : string :=
  match k with
  | Verify =>
      "Final plan-wide verify: run the acceptance checks for the whole "
      +:+ "plan's declared scope (build, tests, lint) across everything the plan changed. If "
      +:+ "anything fails, inject fix nodes; the plan cannot finish until they drain."
  | _ =>
      "Final plan-wide critique: audit the ENTIRE plan adversarially before it may "
      +:+ "finish. Read every completed node's artifact, especially each "
      +:+ "'what_i_did_not_check' and every open question, and hunt for whole facets the "
      +:+ "plan never covered. For each gap, inject a new node; the plan cannot finish "
      +:+ "until they drain."
  end.

(** A freshly inserted gate. *)
Definition new_gate (id : NodeId) (content : string) (k : NodeKind) (parent : option NodeId)
    (deps : list NodeId) : TaskNode :=
  mkNode id content k Queued None parent deps false true None 0 None (Some OGate).

Definition is_root_work (n : TaskNode) : bool :=
  bool_decide (tn_parent n = None) && negb (tn_is_gate n).

Definition is_root_gate (n : TaskNode) : bool :=
  tn_is_gate n && bool_decide (tn_parent n = None).

Definition root_ids (g : TaskGraph) : list NodeId :=
  map tn_id (List.filter is_root_work (g_nodes g)).

(** Widen a root gate to the root set; a widened terminal gate is re-queued. *)
Definition refresh_gate (roots : list NodeId) (gate : TaskNode) : TaskNode :=
  let deps := push_missing (tn_depends_on gate) roots in
  let gate' := set_depends_on deps gate in
  let widened := negb (forallb (λ d, bool_decide (d ∈ tn_depends_on gate)) roots) in
  if widened && is_terminal gate then set_owner None (set_status Queued gate') else gate'.

Definition ensure_root_gate (g : TaskGraph) : TaskGraph :=
  match root_ids g with
  | [] => g
  | roots =>
      match find_first is_root_gate (g_nodes g) with
      | Some gate => update_node (tn_id gate) (refresh_gate roots) g
      | None =>
          let all_code := forallb (λ n, match tn_kind n with Implement | Fix => true | _ => false end)
                            (List.filter is_root_work (g_nodes g)) in
          let k := if all_code then Verify else Critique in
          push g (new_gate (unique_gate_id g "plan") (root_gate_content k) k None roots)
      end
  end.

(** [for spec in specs]: validate the id, collapse exact replays, reject a
    reused id.  [unique] is [unique_specs]; its ids are the keys of [indexes]. *)
Fixpoint collapse_specs (unique specs : list NodeSpec) : result (list NodeSpec) DagError :=
  match specs with
  | [] => Ok unique
  | s :: specs' =>
      let? id := validated_spec_id s "seed" in
      match find_first (λ t, bool_decide (ns_id t = Some id)) unique with
      | Some existing =>
          if seed_specs_equivalent existing s then collapse_specs unique specs'
          else Err (DuplicateNode id)
      | None => collapse_specs (unique ++ [s]) specs'
      end
  end.

(** The first dependency that resolves neither among [known] nor in the graph. *)
Fixpoint check_deps (known : list NodeId) (g : TaskGraph) (pairs : list (NodeId * list NodeId))
  : result unit DagError :=
  match pairs with
  | [] => Ok tt
  | (node, deps) :: pairs' =>
      match find_first (λ d, negb (bool_decide (d ∈ known)) && negb (contains g d)) deps with
      | Some dep => Err (UnknownDependency node dep)
      | None => check_deps known g pairs'
      end
  end.

(** Push the specs that are new; an id of the graph must be a replay. *)
Fixpoint stage_seed (g staged : TaskGraph) (unique : list NodeSpec) : result TaskGraph DagError :=
  match unique with
  | [] => Ok staged
  | s :: unique' =>
      let id := default "" (ns_id s) in
      match get g id with
      | Some existing =>
          if seed_spec_matches_existing g existing s then stage_seed g staged unique'
          else Err (DuplicateNode id)
      | None => stage_seed g (push staged (spec_to_node s None OSeed)) unique'
      end
  end.

(** [if !cycle.is_empty() { return Err(..) }; *graph = staged]. *)
Definition commit_acyclic (staged : TaskGraph) : dagM unit :=
  let cycle := cycle_nodes staged in
  run! st_guard (bool_decide (cycle ≠ [])) (WouldCreateCycle cycle);
  st_put staged.

(** ** Operations *)

Definition seed (specs : list NodeSpec) : dagM unit :=
  do! unique <- st_lift (collapse_specs [] specs);
  do! g <- st_get;
  let known := map (λ s, default "" (ns_id s)) unique in
  run! st_lift (check_deps known g (map (λ s, (default "" (ns_id s), ns_depends_on s)) unique));
  do! staged <- st_lift (stage_seed g g unique);
  let staged := if requires_gates (g_mode staged) then ensure_root_gate staged else staged in
  commit_acyclic staged.

Record ExpandOutcome := mkOutcome { child_ids : list NodeId; gate_id : option NodeId }.

(** Validate the ids of new nodes: explicit, non-blank, fresh and distinct. *)
Fixpoint validate_new_ids (op : string) (g : TaskGraph) (seen : list NodeId) (specs : list NodeSpec)
  : result (list NodeId) DagError :=
  match specs with
  | [] => Ok []
  | s :: specs' =>
      let? id := validated_spec_id s op in
      if contains g id || bool_decide (id ∈ seen) then Err (DuplicateNode id)
      else
        let? rest := validate_new_ids op g (id :: seen) specs' in
        Ok (id :: rest)
  end.

Definition spec_pairs (specs : list NodeSpec) (new_ids : list NodeId) : list (NodeId * list NodeId) :=
  zip_with (λ s id, (id, ns_depends_on s)) specs new_ids.

Definition push_specs (parent : option NodeId) (origin : NodeOrigin) (specs : list NodeSpec)
    (g : TaskGraph) : TaskGraph :=
  foldl (λ acc s, push acc (spec_to_node s parent origin)) g specs.

(** The parent becomes a join: re-queued, unowned, waiting for [synth_deps]. *)
Definition flip_to_composite (synth_deps : list NodeId) (n : TaskNode) : TaskNode :=
  let n := set_status Queued (set_expanded true n) in
  let n := match tn_planner n with None => set_planner (tn_owner n) n | Some _ => n end in
  let n := set_owner None n in
  set_depends_on (push_missing (tn_depends_on n) synth_deps) n.

Definition expand_node (node_id actor : string) (children : list NodeSpec) : dagM ExpandOutcome :=
  do! g <- st_get;
  do! node <- st_lift (ok_or (get g node_id) (UnknownNode node_id));
  run! st_guard (bool_decide (tn_owner node ≠ Some actor)) (NotOwner node_id actor);
  run! st_guard (tn_is_gate node) (GateMisuse ("gate node '" +:+ node_id +:+ "' cannot be decomposed"));
  run! st_guard (tn_expanded node || bool_decide (tn_status node ≠ Running))
         (InvalidState node_id (tn_status node));
  run! st_guard (bool_decide (children = [])) (GateMisuse "expand requires at least one child");
  do! kids <- st_lift (validate_new_ids "expand" g [] children);
  run! st_lift (check_deps kids g (spec_pairs children kids));
  let staged := push_specs (Some node_id) OExpand children g in
  let '(staged, synth_deps, gate) :=
    if requires_gates (g_mode staged) then
      let parent_kind := match get staged node_id with Some n => tn_kind n | None => Explore end in
      let k := gate_kind parent_kind in
      let gid := unique_gate_id staged node_id in
      (push staged (new_gate gid (gate_content k node_id) k (Some node_id) kids), kids ++ [gid], Some gid)
    else (staged, kids, None) in
  let staged := update_node node_id (flip_to_composite synth_deps) staged in
  run! commit_acyclic staged;
  st_ret (mkOutcome kids gate).

(** *** Completion *)

Definition validate_artifact (mode : Mode) (node_id : NodeId) (is_gate : bool) (a : HandoffArtifact)
  : result unit DagError :=
  if negb (requires_gates mode) then Ok tt
  else if is_gate then Ok tt
  else if str_is_empty (trim (findings a))
  then Err (ThinArtifact node_id "deep-mode artifact requires non-empty findings")
  else if bool_decide (what_i_did_not_check a = [])
  then Err (ThinArtifact node_id
         ("deep-mode artifact must list 'what_i_did_not_check' (use an explicit "
          +:+ "'nothing, fully covered' entry only when truly exhaustive)"))
  else if bool_decide (confidence_level a = None)
  then Err (ThinArtifact node_id
         ("deep-mode artifact must state a confidence of low, medium, or high "
          +:+ "(honest 'low' is welcome: it routes follow-up work instead of penalizing you)"))
  else Ok tt.

Definition GATE_COVERAGE_ENUMERATION_CAP : nat := 20.

(** The non-gate nodes a gate waits for. *)
Definition gate_audit_scope (g : TaskGraph) (gate : TaskNode) : list TaskNode :=
  List.filter (λ n, negb (tn_is_gate n)) (omap (get g) (tn_depends_on gate)).

Definition addressed (a : HandoffArtifact) (id : NodeId) : bool :=
  mentions_node_id (findings a) id || existsb (λ q, mentions_node_id q id) (open_questions a).

Definition validate_gate_pass (g : TaskGraph) (gid : NodeId) (a : HandoffArtifact)
  : result unit DagError :=
  match get g gid with
  | None => Ok tt
  | Some gate =>
      let scope := gate_audit_scope g gate in
      if bool_decide (scope = []) then Ok tt else
      let pending := map tn_id (List.filter (λ n, negb (is_done n)) scope) in
      if bool_decide (pending ≠ []) then Err (StaleGateScope gid pending) else
      let debts := map tn_id (List.filter (λ n, negb (addressed a (tn_id n)))
                     (List.filter (λ n, bool_decide (output_level n = Some Low)) scope)) in
      if bool_decide (debts ≠ []) then Err (UnaddressedLowConfidence gid debts) else
      if length scope <=? GATE_COVERAGE_ENUMERATION_CAP then
        let uncovered := map tn_id (List.filter (λ n, negb (addressed a (tn_id n))) scope) in
        if bool_decide (uncovered ≠ []) then Err (UncoveredSiblings gid uncovered) else Ok tt
      else
        let uncovered := map tn_id (List.filter (λ n, negb (addressed a (tn_id n)))
                           (List.filter (λ n, bool_decide (output_level n ≠ Some High)) scope)) in
        if bool_decide (uncovered ≠ []) then Err (UncoveredSiblings gid uncovered) else Ok tt
  end.

Definition complete_node (node_id actor : string) (a : HandoffArtifact) : dagM unit :=
  do! g <- st_get;
  do! node <- st_lift (ok_or (get g node_id) (UnknownNode node_id));
  run! st_guard (bool_decide (tn_owner node ≠ Some actor)) (NotOwner node_id actor);
  run! st_guard (bool_decide (tn_status node ≠ Running)) (InvalidState node_id (tn_status node));
  run! st_lift (validate_artifact (g_mode g) node_id (tn_is_gate node) a);
  run! st_lift (if tn_is_gate node && requires_gates (g_mode g)
                then validate_gate_pass g node_id a else Ok tt);
  st_modify (update_node node_id (λ n, set_output (Some a) (set_status Done n))).

Definition fail_node (node_id actor : string) : dagM unit :=
  do! g <- st_get;
  do! node <- st_lift (ok_or (get g node_id) (UnknownNode node_id));
  run! st_guard (bool_decide (tn_owner node ≠ Some actor)) (NotOwner node_id actor);
  run! st_guard (bool_decide (tn_status node ≠ Running)) (InvalidState node_id (tn_status node));
  st_modify (update_node node_id (set_status Failed)).

(** The gate after an injection: re-queued, waiting for the new nodes too. *)
Definition requeue_gate (new_ids : list NodeId) (n : TaskNode) : TaskNode :=
  let n := set_owner None (set_status Queued n) in
  set_depends_on (push_missing (tn_depends_on n) new_ids) n.

Definition inject_from_gate (gid actor : string) (new_nodes : list NodeSpec) : dagM (list NodeId) :=
  do! g <- st_get;
  do! gate <- st_lift (ok_or (get g gid) (UnknownNode gid));
  run! st_guard (bool_decide (tn_owner gate ≠ Some actor)) (NotOwner gid actor);
  run! st_guard (negb (tn_is_gate gate))
         (GateMisuse ("node '" +:+ gid +:+ "' is not a gate; use expand_node to decompose work"));
  run! st_guard (bool_decide (tn_status gate ≠ Running)) (InvalidState gid (tn_status gate));
  run! st_guard (bool_decide (new_nodes = []))
         (GateMisuse "inject_from_gate requires at least one new node");
  do! new_ids <- st_lift (validate_new_ids "inject_from_gate" g [] new_nodes);
  run! st_lift (check_deps new_ids g (spec_pairs new_nodes new_ids));
  let staged := push_specs (tn_parent gate) OGap new_nodes g in
  let staged := update_node gid (requeue_gate new_ids) staged in
  let staged :=
    match tn_parent gate with
    | Some parent_id =>
        update_node parent_id
          (λ p, set_depends_on (push_missing (tn_depends_on p) new_ids) p) staged
    | None => staged
    end in
  run! commit_acyclic staged;
  st_ret new_ids.

Definition requeue_failed (node_id : string) : dagM unit :=
  do! g <- st_get;
  do! node <- st_lift (ok_or (get g node_id) (UnknownNode node_id));
  run! st_guard (bool_decide (tn_status node ≠ Failed)) (InvalidState node_id (tn_status node));
  st_modify (update_node node_id (λ n, set_owner None (set_status Queued n))).
