(* ===== verification/Schedule.v ===== *)
(** * The scheduler

    crates/jcode-plan/src/dag/schedule.rs: the ready set, dispatch, and the
    hydration of a worker's input from the artifacts of its dependencies. *)

From stdpp Require Import base list strings gmap sorting.
From S2P Require Import Prelude RustString Confidence Dag.

Open Scope string_scope.
Open Scope nat_scope.
Open Scope list_scope.

Definition LIGHT_MODE_SUGGESTED_WORKERS : nat := 16.

(** A dependency that does not exist is unsatisfiable. *)
Definition deps_satisfied (g : TaskGraph) (n : TaskNode) : bool :=
  forallb (λ d, match get g d with Some m => is_done m | None => false end) (tn_depends_on n).

Definition is_ready (g : TaskGraph) (n : TaskNode) : bool :=
  bool_decide (tn_status n = Queued) && deps_satisfied g n.

(** [a.priority.cmp(&b.priority).then_with(|| a.id.cmp(&b.id))] is not [Greater]. *)
Definition sched_leb (a b : TaskNode) : bool :=
  match Z.compare (tn_priority a) (tn_priority b) with
  | Lt => true
  | Gt => false
  | Eq => String.leb (tn_id a) (tn_id b)
  end.

Definition ready_nodes (g : TaskGraph) : list TaskNode :=
  sort_by sched_leb (List.filter (is_ready g) (g_nodes g)).

(** Assign ownership and flip to [Running]; false when not dispatchable. *)
Definition dispatch (node_id worker : string) (g : TaskGraph) : bool * TaskGraph :=
  match get g node_id with
  | Some n =>
      if is_ready g n
      then (true, update_node node_id (λ m, set_status Running (set_owner (Some worker) m)) g)
      else (false, g)
  | None => (false, g)
  end.

Definition kind_label (k : NodeKind) : string :=
  match k with
  | Explore => "explore"
  | Implement => "implement"
  | Verify => "verify"
  | Fix => "fix"
  | Synthesize => "synthesize"
  | Critique => "critique"
  end.

Definition dep_section (dep : TaskNode) : string :=
  newline +:+
  match tn_output dep with
  | Some a => render_section a (tn_id dep) (kind_label (tn_kind dep))
  | None => "## " +:+ tn_id dep +:+ " (" +:+ kind_label (tn_kind dep) +:+ ")" +:+ newline
  end.

(** Completed upstream nodes, in dependency order. *)
Definition upstream (g : TaskGraph) (n : TaskNode) : list TaskNode :=
  List.filter is_done (omap (get g) (tn_depends_on n)).

Definition assemble_input (g : TaskGraph) (node_id : NodeId) : string :=
  match get g node_id with
  | None => ""
  | Some n =>
      match upstream g n with
      | [] => tn_content n
      | deps =>
          tn_content n +:+ newline +:+ newline +:+ "# Inputs from completed dependencies" +:+ newline
          +:+ str_concat (map dep_section deps)
      end
  end.
