(* ===== verification/DagInv.v ===== *)
(** * Structural invariant of the task graph

    The step relation of the engine (one constructor per mutation), the
    structural invariant [struct_inv] every step preserves, and a growth lemma
    shared by the three operations that add nodes. *)

From stdpp Require Import base list strings gmap relations pretty.
From S2P Require Import Prelude RustString Confidence Kahn Dag DagCycle Mention DagOps Schedule.

Open Scope string_scope.
Open Scope nat_scope.
Open Scope list_scope.

(** ** Graph lemmas

    Facts about lookup, update and append on task graphs, and one inversion
    lemma per mutation: what a successful call checked, and the graph it left.
    The invariants of DagInv.v are proved from these. *)

(** ** Lookup *)

Lemma has_id_true id n : has_id id n = true ↔ tn_id n = id.
Proof. unfold has_id. apply bool_decide_eq_true. Qed.

Lemma contains_true g id : contains g id = true ↔ id ∈ ids g.
Proof.
  unfold contains. rewrite List.existsb_exists, elem_of_ids.
  setoid_rewrite has_id_true. setoid_rewrite list_elem_of_In. done.
Qed.

Lemma contains_false g id : contains g id = false ↔ id ∉ ids g.
Proof. rewrite <- contains_true. by destruct (contains g id). Qed.

Lemma get_Some g id n : get g id = Some n → n ∈ g_nodes g ∧ tn_id n = id.
Proof. intros [? ?%has_id_true]%find_first_Some. done. Qed.

Lemma get_None g id : get g id = None ↔ id ∉ ids g.
Proof.
  unfold get. split.
  - intros Hn (n & Hin & He)%elem_of_ids. apply (find_first_None _ _ n) in Hn; [|done].
    by apply has_id_true in He; congruence.
  - intros Hn. destruct (find_first _ _) as [n|] eqn:E; [|done].
    apply find_first_Some in E as [? ?%has_id_true]. exfalso. apply Hn, elem_of_ids. eauto.
Qed.

Lemma get_is_Some g id : is_Some (get g id) ↔ id ∈ ids g.
Proof.
  destruct (get g id) as [n|] eqn:E.
  - apply get_Some in E as [? ?]. split; [|eauto]. intros _. apply elem_of_ids. eauto.
  - apply get_None in E. split; [intros [? ?]; done|done].
Qed.

Lemma ids_node_unique g n m :
  NoDup (ids g) → n ∈ g_nodes g → m ∈ g_nodes g → tn_id n = tn_id m → n = m.
Proof.
  unfold ids. intros Hnd. induction (g_nodes g) as [|x l IH]; [by intros ?%elem_of_nil|].
  apply NoDup_cons in Hnd as [Hx Hl].
  assert (∀ y, y ∈ l → tn_id y ≠ tn_id x) as Hne.
  { intros y Hy He. apply Hx. rewrite <- He. by apply (list_elem_of_fmap_2 tn_id). }
  intros [->|Hn]%elem_of_cons [->|Hm]%elem_of_cons He; try done.
  - by destruct (Hne m Hm).
  - by destruct (Hne n Hn).
  - by apply IH.
Qed.

Lemma get_of_elem g n : NoDup (ids g) → n ∈ g_nodes g → get g (tn_id n) = Some n.
Proof.
  intros Hnd Hn. destruct (get g (tn_id n)) as [m|] eqn:E.
  - apply get_Some in E as [Hm He]. f_equal. by apply (ids_node_unique g).
  - apply get_None in E. exfalso. apply E, elem_of_ids. eauto.
Qed.

(** ** Update and append *)

(** Setters keep the identity of a node. *)
Definition keeps_id (f : TaskNode → TaskNode) : Prop := ∀ n, tn_id (f n) = tn_id n.

Lemma ids_update_node id f g : keeps_id f → ids (update_node id f g) = ids g.
Proof. intros Hf. unfold ids, update_node; simpl. apply (fmap_update_first _ tn_id). auto. Qed.

Lemma get_update_node id f g v :
  keeps_id f → get (update_node id f g) v = if decide (v = id) then f <$> get g v else get g v.
Proof.
  intros Hf. unfold get, update_node; simpl. case_decide as Hv; [subst v|].
  - apply find_first_update. intros n Hn%has_id_true. apply has_id_true. by rewrite Hf.
  - apply find_first_update_ne. intros n Hn%has_id_true.
    unfold has_id. rewrite Hf, Hn. split; apply bool_decide_eq_false; congruence.
Qed.

Lemma elem_of_update_node id f g n :
  NoDup (ids g) → keeps_id f →
  n ∈ g_nodes (update_node id f g) ↔
  (n ∈ g_nodes g ∧ tn_id n ≠ id) ∨ ∃ m, m ∈ g_nodes g ∧ tn_id m = id ∧ n = f m.
Proof.
  intros Hnd Hf.
  assert (∀ x, x ∈ g_nodes (update_node id f g) ↔ get (update_node id f g) (tn_id x) = Some x) as Hel.
  { intros x. split; [|intros H; by apply get_Some in H as [? _]].
    apply get_of_elem. by rewrite ids_update_node. }
  rewrite Hel, get_update_node by done. case_decide as Hid.
  - split.
    + destruct (get g (tn_id n)) as [m|] eqn:E; [|done]. intros [= <-]. right.
      apply get_Some in E as [? ?]. exists m. split_and!; [done| |done]. by rewrite Hf in Hid.
    + intros [[_ ?]|(m & Hm & He & ->)]; [done|]. rewrite Hf, get_of_elem by done. done.
  - split.
    + intros E. apply get_Some in E as [? _]. by left.
    + intros [[? _]|(m & Hm & He & ->)]; [by apply get_of_elem|]. by rewrite Hf in Hid.
Qed.

Lemma ids_push g n : ids (push g n) = ids g ++ [tn_id n].
Proof. unfold ids, push; simpl. by rewrite map_app. Qed.

Lemma elem_of_push g n m : m ∈ g_nodes (push g n) ↔ m ∈ g_nodes g ∨ m = n.
Proof. unfold push; simpl. rewrite elem_of_app, list_elem_of_singleton. done. Qed.

Lemma push_specs_nodes parent origin specs g :
  g_nodes (push_specs parent origin specs g)
  = g_nodes g ++ map (λ s, spec_to_node s parent origin) specs.
Proof.
  unfold push_specs. revert g. induction specs as [|s specs IH]; intros g; simpl.
  - by rewrite app_nil_r.
  - rewrite IH. simpl. by rewrite <- app_assoc.
Qed.

Lemma push_specs_mode parent origin specs g : g_mode (push_specs parent origin specs g) = g_mode g.
Proof. unfold push_specs. revert g. induction specs as [|s specs IH]; intros g; simpl; [done|]. by rewrite IH. Qed.

(** ** Fresh gate ids *)

Lemma gate_id_loop_fresh fuel g base n id :
  gate_id_loop fuel g base n = Some id → id ∉ ids g.
Proof.
  revert n. induction fuel as [|fuel IH]; intros n; simpl; [done|].
  destruct (contains g _) eqn:E; [apply IH|]. intros [= <-]. by apply contains_false.
Qed.

(** The first [k] candidates. *)
Definition candidates (base : string) (n : N) (k : nat) : list string :=
  (λ i, base +:+ pretty (n + N.of_nat i)%N) <$> seq 0 k.

Lemma gate_id_loop_None fuel g base n :
  gate_id_loop fuel g base n = None → ∀ i, i < fuel → base +:+ pretty (n + N.of_nat i)%N ∈ ids g.
Proof.
  revert n. induction fuel as [|fuel IH]; intros n; simpl; [lia|].
  destruct (contains g _) eqn:E; [|done]. intros Hn [|i] Hi.
  - rewrite N.add_0_r. by apply contains_true.
  - replace (n + N.of_nat (S i))%N with (N.succ n + N.of_nat i)%N by lia. apply IH; [done|lia].
Qed.

Lemma NoDup_candidates base n k : NoDup (candidates base n k).
Proof.
  apply NoDup_fmap_2_strong; [|apply NoDup_seq]. intros i j _ _ He.
  apply append_inj_l_s in He. apply (inj pretty) in He. lia.
Qed.

(** Pigeonhole: one candidate more than there are nodes cannot all be taken. *)
Lemma gate_id_loop_total g base n :
  is_Some (gate_id_loop (S (length (g_nodes g))) g base n).
Proof.
  destruct (gate_id_loop _ _ _ _) as [id|] eqn:E; [eauto|exfalso].
  pose proof (gate_id_loop_None _ _ _ _ E) as Hall.
  assert (candidates base n (S (length (g_nodes g))) ⊆+ ids g) as Hsub.
  { apply NoDup_submseteq; [apply NoDup_candidates|].
    intros x (i & -> & Hi%elem_of_seq)%list_elem_of_fmap. apply Hall. lia. }
  apply submseteq_length in Hsub. unfold candidates, ids in Hsub.
  rewrite length_fmap, length_seq, length_map in Hsub. lia.
Qed.

Lemma unique_gate_id_not_in g node_id : unique_gate_id g node_id ∉ ids g.
Proof.
  unfold unique_gate_id. destruct (contains g _) eqn:E; [|by apply contains_false].
  destruct (gate_id_loop_total g (node_id +:+ "::gate") 2) as [id Hid]. rewrite Hid.
  by eapply gate_id_loop_fresh.
Qed.

(** ** What a successful call checked *)

Ltac run_op :=
  unfold st_bind, st_get, st_lift, st_ret, st_err, st_put, st_modify, st_guard, ok_or, commit_acyclic in *.

Lemma commit_acyclic_ok staged g g' r :
  commit_acyclic staged g = (r, g') →
  (r = Ok tt ∧ g' = staged ∧ acyclic staged)
  ∨ (r = Err (WouldCreateCycle (cycle_nodes staged)) ∧ g' = g ∧ ¬ acyclic staged).
Proof.
  run_op. destruct (bool_decide (cycle_nodes staged ≠ [])) eqn:E; bool_hyps; intros [= <- <-].
  - right. by rewrite <- cycle_nodes_nil_acyclic.
  - left. split_and!; [done..|]. apply cycle_nodes_nil_acyclic.
    destruct (cycle_nodes staged); [done|]. by destruct E.
Qed.

Lemma validated_spec_id_ok s op id : validated_spec_id s op = Ok id → ns_id s = Some id.
Proof. unfold validated_spec_id. break; congruence. Qed.

Lemma validate_new_ids_ok op g seen specs new_ids :
  validate_new_ids op g seen specs = Ok new_ids →
  NoDup new_ids ∧ (∀ i, i ∈ new_ids → i ∉ ids g ∧ i ∉ seen)
  ∧ map (λ s, default "" (ns_id s)) specs = new_ids.
Proof.
  revert seen new_ids. induction specs as [|s specs IH]; intros seen new_ids; simpl.
  { intros [= <-]. split_and!; [constructor|set_solver|done]. }
  unfold result_bind. destruct (validated_spec_id s op) as [id|] eqn:Hid; [|done].
  destruct (contains g id || bool_decide (id ∈ seen)) eqn:Hc; [done|].
  destruct (validate_new_ids op g (id :: seen) specs) as [rest|] eqn:Hr; [|done].
  intros [= <-]. apply orb_false_iff in Hc as [Hg%contains_false Hs]. bool_hyps.
  apply IH in Hr as (Hnd & Hfresh & Hmap). apply validated_spec_id_ok in Hid.
  split_and!.
  - constructor; [|done]. intros Hin. apply Hfresh in Hin. set_solver.
  - intros i [->|Hi]%elem_of_cons; [done|]. apply Hfresh in Hi. set_solver.
  - rewrite Hid, Hmap. done.
Qed.

Lemma check_deps_ok known g pairs :
  check_deps known g pairs = Ok tt →
  ∀ node deps d, (node, deps) ∈ pairs → d ∈ deps → d ∈ known ∨ d ∈ ids g.
Proof.
  induction pairs as [|[node deps] pairs IH]; simpl; [set_solver|].
  destruct (find_first _ deps) as [x|] eqn:E; [done|]. intros Hok n ds d [[= -> ->]|Hin]%elem_of_cons Hd.
  - apply (find_first_None _ _ d) in E; [|done].
    apply andb_false_iff in E as [E|E]; bool_hyps; [by left|]. right. by apply contains_true.
  - by eapply IH.
Qed.

Lemma spec_pairs_elem specs new_ids s :
  length specs = length new_ids → s ∈ specs →
  ∃ id, (id, ns_depends_on s) ∈ spec_pairs specs new_ids.
Proof.
  unfold spec_pairs. revert new_ids. induction specs as [|t specs IH]; intros [|i new_ids]; simpl;
    try done; [by intros _ ?%elem_of_nil|]. intros [= Hl] [->|Hs]%elem_of_cons; [exists i; left|].
  destruct (IH new_ids Hl Hs) as [id Hid]. exists id. by right.
Qed.

(** The children or gap nodes of a validated batch: dependencies resolve in
    the batch or the graph. *)
Lemma batch_deps_ok op g specs new_ids s d :
  validate_new_ids op g [] specs = Ok new_ids →
  check_deps new_ids g (spec_pairs specs new_ids) = Ok tt →
  s ∈ specs → d ∈ ns_depends_on s → d ∈ new_ids ∨ d ∈ ids g.
Proof.
  intros (_ & _ & Hmap)%validate_new_ids_ok Hc Hs Hd.
  destruct (spec_pairs_elem specs new_ids s) as [id Hid].
  { rewrite <- Hmap. by rewrite length_map. }
  { done. }
  by eapply check_deps_ok.
Qed.

Lemma complete_node_ok id actor a g g' :
  complete_node id actor a g = (Ok tt, g') →
  ∃ n, get g id = Some n ∧ tn_owner n = Some actor ∧ tn_status n = Running
    ∧ validate_artifact (g_mode g) id (tn_is_gate n) a = Ok tt
    ∧ (tn_is_gate n = true → g_mode g = Deep → validate_gate_pass g id a = Ok tt)
    ∧ g' = update_node id (λ n, set_output (Some a) (set_status Done n)) g.
Proof.
  unfold complete_node. run_op. destruct (get g id) as [n|] eqn:Hg; [|done].
  destruct (bool_decide (tn_owner n ≠ Some actor)) eqn:Ho; [done|].
  destruct (bool_decide (tn_status n ≠ Running)) eqn:Hs; [done|].
  destruct (validate_artifact _ _ _ _) as [[]|] eqn:Hv; [|done].
  destruct (tn_is_gate n && requires_gates (g_mode g)) eqn:Hgate.
  - destruct (validate_gate_pass g id a) as [[]|] eqn:Hp; [|done]. intros [= <-].
    bool_hyps. exists n. split_and!; try done; by apply dec_stable.
  - intros [= <-]. bool_hyps. exists n. split_and!; try done; try by apply dec_stable.
    intros Hg1 Hm. rewrite Hg1, Hm in Hgate. done.
Qed.

Lemma fail_node_ok id actor g g' :
  fail_node id actor g = (Ok tt, g') →
  ∃ n, get g id = Some n ∧ tn_owner n = Some actor ∧ tn_status n = Running
    ∧ g' = update_node id (set_status Failed) g.
Proof.
  unfold fail_node. run_op. destruct (get g id) as [n|] eqn:Hg; [|done].
  destruct (bool_decide (tn_owner n ≠ Some actor)) eqn:Ho; [done|].
  destruct (bool_decide (tn_status n ≠ Running)) eqn:Hs; [done|]. intros [= <-].
  bool_hyps. exists n. split_and!; try done; by apply dec_stable.
Qed.

Lemma requeue_failed_ok id g g' :
  requeue_failed id g = (Ok tt, g') →
  ∃ n, get g id = Some n ∧ tn_status n = Failed
    ∧ g' = update_node id (λ n, set_owner None (set_status Queued n)) g.
Proof.
  unfold requeue_failed. run_op. destruct (get g id) as [n|] eqn:Hg; [|done].
  destruct (bool_decide (tn_status n ≠ Failed)) eqn:Hs; [done|]. intros [= <-].
  bool_hyps. exists n. split_and!; try done; by apply dec_stable.
Qed.

Lemma dispatch_ok id worker g g' :
  dispatch id worker g = (true, g') →
  ∃ n, get g id = Some n ∧ tn_status n = Queued ∧ deps_satisfied g n = true
    ∧ g' = update_node id (λ m, set_status Running (set_owner (Some worker) m)) g.
Proof.
  unfold dispatch. destruct (get g id) as [n|] eqn:Hg; [|done].
  destruct (is_ready g n) eqn:Hr; [|done]. intros [= <-].
  unfold is_ready in Hr. bool_hyps. eauto.
Qed.

(** The graph with a batch of nodes appended. *)
Definition append_nodes (g : TaskGraph) (news : list TaskNode) : TaskGraph :=
  mkGraph (g_mode g) (g_nodes g ++ news).

Definition spec_nodes (specs : list NodeSpec) (parent : option NodeId) (origin : NodeOrigin)
  : list TaskNode := map (λ s, spec_to_node s parent origin) specs.

Lemma push_specs_append parent origin specs g :
  push_specs parent origin specs g = append_nodes g (spec_nodes specs parent origin).
Proof.
  unfold append_nodes, spec_nodes. rewrite <- push_specs_nodes, <- (push_specs_mode parent origin specs g).
  by destruct (push_specs parent origin specs g).
Qed.

Lemma push_append g news n : push (append_nodes g news) n = append_nodes g (news ++ [n]).
Proof. unfold push, append_nodes; simpl. by rewrite app_assoc. Qed.

Lemma ids_append g news : ids (append_nodes g news) = ids g ++ map tn_id news.
Proof. unfold ids, append_nodes; simpl. by rewrite map_app. Qed.

Lemma spec_nodes_ids specs parent origin :
  map tn_id (spec_nodes specs parent origin) = map (λ s, default "" (ns_id s)) specs.
Proof. unfold spec_nodes. rewrite map_map. done. Qed.

Lemma expand_node_ok id actor children g out g' :
  expand_node id actor children g = (Ok out, g') →
  ∃ n kids gates,
    get g id = Some n ∧ tn_owner n = Some actor ∧ tn_is_gate n = false
    ∧ tn_expanded n = false ∧ tn_status n = Running ∧ children ≠ []
    ∧ validate_new_ids "expand" g [] children = Ok kids
    ∧ check_deps kids g (spec_pairs children kids) = Ok tt
    ∧ (g_mode g = Light ∧ gates = []
       ∨ g_mode g = Deep ∧ ∃ gid content,
           gid ∉ ids g ++ kids
           ∧ gates = [new_gate gid content (gate_kind (tn_kind n)) (Some id) kids])
    ∧ g' = update_node id (flip_to_composite (kids ++ map tn_id gates))
             (append_nodes g (spec_nodes children (Some id) OExpand ++ gates))
    ∧ acyclic g'
    ∧ out = mkOutcome kids (head (map tn_id gates)).
Proof.
  unfold expand_node, st_guard, st_bind, st_get, st_lift, st_ret, st_err, ok_or.
  destruct (get g id) as [n|] eqn:Hg; [|done].
  destruct (bool_decide (tn_owner n ≠ Some actor)) eqn:Ho; [done|].
  destruct (tn_is_gate n) eqn:Hgate; [done|].
  destruct (tn_expanded n || bool_decide (tn_status n ≠ Running)) eqn:Hst; [done|].
  destruct (bool_decide (children = [])) eqn:Hne; [done|].
  destruct (validate_new_ids "expand" g [] children) as [kids|] eqn:Hv; [|done].
  destruct (check_deps kids g _) as [[]|] eqn:Hc; [|done].
  pose proof (validate_new_ids_ok _ _ _ _ _ Hv) as (_ & _ & Hmap).
  apply orb_false_iff in Hst as [Hexp Hrun]. bool_hyps.
  assert (tn_owner n = Some actor) by (by apply dec_stable).
  assert (tn_status n = Running) by (by apply dec_stable).
  rewrite push_specs_append. cbn [append_nodes g_mode].
  destruct (g_mode g) eqn:Hm; cbn [requires_gates].
  - set (base := append_nodes g (spec_nodes children (Some id) OExpand)).
    assert (get base id = Some n) as ->.
    { unfold base, get, append_nodes; simpl. rewrite find_first_app.
      unfold get in Hg. by rewrite Hg. }
    cbn beta iota zeta. unfold base. rewrite push_append.
    match goal with |- context [commit_acyclic ?st g] => destruct (commit_acyclic st g) as [r gx] eqn:Hcommit end.
    apply commit_acyclic_ok in Hcommit as [(-> & -> & Hac)|(-> & _)]; [|done].
    intros [= <- <-].
    exists n, kids, [new_gate (unique_gate_id base id) (gate_content (gate_kind (tn_kind n)) id)
                       (gate_kind (tn_kind n)) (Some id) kids].
    split_and!; try done.
    right. split; [done|]. do 2 eexists. split; [|done]. unfold base.
    rewrite <- Hmap, <- (spec_nodes_ids children (Some id) OExpand), <- ids_append.
    apply unique_gate_id_not_in.
  - cbn beta iota zeta.
    match goal with |- context [commit_acyclic ?st g] => destruct (commit_acyclic st g) as [r gx] eqn:Hcommit end.
    apply commit_acyclic_ok in Hcommit as [(-> & -> & Hac)|(-> & _)]; [|done].
    intros [= <- <-]. exists n, kids, []. rewrite !app_nil_r. split_and!; try done. by left.
Qed.

(** The parent, when there is one, waits for the injected nodes too. *)
Definition widen_parent (parent : option NodeId) (new_ids : list NodeId) (g : TaskGraph) : TaskGraph :=
  match parent with
  | Some p => update_node p (λ m, set_depends_on (push_missing (tn_depends_on m) new_ids) m) g
  | None => g
  end.

Lemma inject_from_gate_ok gid actor new_nodes g new_ids g' :
  inject_from_gate gid actor new_nodes g = (Ok new_ids, g') →
  ∃ gate,
    get g gid = Some gate ∧ tn_owner gate = Some actor ∧ tn_is_gate gate = true
    ∧ tn_status gate = Running ∧ new_nodes ≠ []
    ∧ validate_new_ids "inject_from_gate" g [] new_nodes = Ok new_ids
    ∧ check_deps new_ids g (spec_pairs new_nodes new_ids) = Ok tt
    ∧ g' = widen_parent (tn_parent gate) new_ids
             (update_node gid (requeue_gate new_ids)
               (append_nodes g (spec_nodes new_nodes (tn_parent gate) OGap)))
    ∧ acyclic g'.
Proof.
  unfold inject_from_gate, st_guard, st_bind, st_get, st_lift, st_ret, st_err, ok_or.
  destruct (get g gid) as [gate|] eqn:Hg; [|done].
  destruct (bool_decide (tn_owner gate ≠ Some actor)) eqn:Ho; [done|].
  destruct (tn_is_gate gate) eqn:Hgate; [|done]. cbn [negb].
  destruct (bool_decide (tn_status gate ≠ Running)) eqn:Hst; [done|].
  destruct (bool_decide (new_nodes = [])) eqn:Hne; [done|].
  destruct (validate_new_ids _ g [] new_nodes) as [nids|] eqn:Hv; [|done].
  destruct (check_deps nids g _) as [[]|] eqn:Hc; [|done]. bool_hyps.
  rewrite push_specs_append. fold (widen_parent (tn_parent gate) nids
    (update_node gid (requeue_gate nids) (append_nodes g (spec_nodes new_nodes (tn_parent gate) OGap)))).
  destruct (commit_acyclic _ g) as [r gx] eqn:Hcommit.
  apply commit_acyclic_ok in Hcommit as [(-> & -> & Hac)|(-> & _)]; [|done].
  intros [= <- <-]. exists gate. split_and!; try done; by apply dec_stable.
Qed.

(** *** Seeding *)

Definition spec_ids (specs : list NodeSpec) : list NodeId := map (λ s, default "" (ns_id s)) specs.

(** Specs of the batch that are not replays of existing nodes. *)
Definition fresh_specs (g : TaskGraph) (unique : list NodeSpec) : list NodeSpec :=
  List.filter (λ s, negb (contains g (default "" (ns_id s)))) unique.

Lemma collapse_specs_ok unique specs unique' :
  collapse_specs unique specs = Ok unique' →
  NoDup (spec_ids unique) → (∀ s, s ∈ unique → is_Some (ns_id s)) →
  NoDup (spec_ids unique') ∧ (∀ s, s ∈ unique' → is_Some (ns_id s))
  ∧ (∀ s, s ∈ unique → s ∈ unique')
  ∧ (∀ s, s ∈ unique' → s ∈ unique ∨ s ∈ specs)
  ∧ (∀ s, s ∈ specs → ∃ t, t ∈ unique' ∧ seed_specs_equivalent t s = true).
Proof.
  revert unique. induction specs as [|s specs IH]; intros unique; simpl.
  { intros [= ->] Hnd Hid. split_and!; try done; [by left|by intros ? ?%elem_of_nil]. }
  unfold result_bind. destruct (validated_spec_id s "seed") as [id|] eqn:Hv; [|done].
  apply validated_spec_id_ok in Hv.
  destruct (find_first _ unique) as [t|] eqn:Hf.
  - destruct (seed_specs_equivalent t s) eqn:He; [|done]. intros Hc Hnd Hid.
    destruct (IH unique Hc Hnd Hid) as (H1 & H2 & H3 & H4 & H5). split_and!; try done.
    + intros x Hx. apply H4 in Hx as [?|?]; [by left|right; by right].
    + intros x [->|Hx]%elem_of_cons; [|by apply H5].
      apply find_first_Some in Hf as [Ht _]. exists t. split; [by apply H3|done].
  - intros Hc Hnd Hid. apply IH in Hc as (H1 & H2 & H3 & H4 & H5).
    + split_and!; try done.
      * intros x Hx. apply H3, elem_of_app. by left.
      * intros x Hx. apply H4 in Hx as [[?| ->%list_elem_of_singleton]%elem_of_app|?];
          [by left|right; by left|right; by right].
      * intros x [->|Hx]%elem_of_cons; [|by apply H5]. exists s.
        split; [apply H3, elem_of_app; right; by left|].
        unfold seed_specs_equivalent, dependency_sets_equal. rewrite !bool_decide_true; done.
    + unfold spec_ids in *. rewrite map_app. apply NoDup_app. split_and!; [done| |apply NoDup_singleton].
      intros x (t & -> & Ht)%list_elem_of_fmap Hx%list_elem_of_singleton.
      apply (find_first_None _ _ t) in Hf; [|done]. cbn beta in Hf. bool_hyps. apply Hf.
      destruct (Hid t Ht) as [tid Htid]. rewrite Htid, Hv in Hx. simpl in Hx. congruence.
    + intros x [?| ->%list_elem_of_singleton]%elem_of_app; [by apply Hid|]. rewrite Hv. eauto.
Qed.

Lemma stage_seed_ok g staged unique g' :
  stage_seed g staged unique = Ok g' →
  g' = append_nodes staged (spec_nodes (fresh_specs g unique) None OSeed)
  ∧ ∀ s n, s ∈ unique → get g (default "" (ns_id s)) = Some n →
      seed_spec_matches_existing g n s = true.
Proof.
  revert staged. induction unique as [|s unique IH]; intros staged; simpl.
  { intros [= <-]. unfold append_nodes. simpl. rewrite app_nil_r.
    split; [by destruct staged|by intros ? ? ?%elem_of_nil]. }
  destruct (get g (default "" (ns_id s))) as [n|] eqn:Hg.
  - assert (contains g (default "" (ns_id s)) = true) as ->.
    { apply contains_true, get_is_Some. eauto. }
    cbn [negb]. destruct (seed_spec_matches_existing g n s) eqn:Hm; [|done].
    intros [-> H]%IH. split; [done|]. intros t m [->|?]%elem_of_cons; [|by apply H]. congruence.
  - apply get_None in Hg. rewrite (proj2 (contains_false g _) Hg). cbn [negb].
    intros [-> H]%IH. split.
    + unfold append_nodes, push; simpl. by rewrite <- app_assoc.
    + intros t m [->|?]%elem_of_cons; [|by apply H]. intros Hm. apply get_None in Hg. congruence.
Qed.

Definition seed_result (g : TaskGraph) (news : list TaskNode) : TaskGraph :=
  if requires_gates (g_mode g) then ensure_root_gate (append_nodes g news) else append_nodes g news.

Lemma seed_ok specs g g' :
  seed specs g = (Ok tt, g') →
  ∃ unique,
    collapse_specs [] specs = Ok unique
    ∧ check_deps (spec_ids unique) g (map (λ s, (default "" (ns_id s), ns_depends_on s)) unique) = Ok tt
    ∧ (∀ s n, s ∈ unique → get g (default "" (ns_id s)) = Some n →
         seed_spec_matches_existing g n s = true)
    ∧ g' = seed_result g (spec_nodes (fresh_specs g unique) None OSeed)
    ∧ acyclic g'.
Proof.
  unfold seed, st_bind, st_get, st_lift. destruct (collapse_specs [] specs) as [unique|]; [|done].
  fold (spec_ids unique). destruct (check_deps _ _ _) as [[]|] eqn:Hc; [|done].
  destruct (stage_seed g g unique) as [staged|] eqn:Hst; [|done].
  apply stage_seed_ok in Hst as [-> Hm]. cbn [append_nodes g_mode].
  intros Hcommit. apply commit_acyclic_ok in Hcommit as [(_ & -> & Hac)|(? & _)]; [|done].
  exists unique. split_and!; try done.
Qed.

(** ** Steps *)

Inductive dag_step : TaskGraph → TaskGraph → Prop :=
| step_seed specs g g' : seed specs g = (Ok tt, g') → dag_step g g'
| step_dispatch id worker g g' : dispatch id worker g = (true, g') → dag_step g g'
| step_expand id actor children out g g' :
    expand_node id actor children g = (Ok out, g') → dag_step g g'
| step_complete id actor a g g' : complete_node id actor a g = (Ok tt, g') → dag_step g g'
| step_fail id actor g g' : fail_node id actor g = (Ok tt, g') → dag_step g g'
| step_inject id actor specs new_ids g g' :
    inject_from_gate id actor specs g = (Ok new_ids, g') → dag_step g g'
| step_requeue id g g' : requeue_failed id g = (Ok tt, g') → dag_step g g'.

Definition reachable (m : Mode) (g : TaskGraph) : Prop := rtc dag_step (graph_new m) g.

(** ** The invariant *)

Record struct_inv (g : TaskGraph) : Prop := {
  si_nodup : NoDup (ids g);
  si_closed : ∀ n d, n ∈ g_nodes g → d ∈ tn_depends_on n → d ∈ ids g;
  si_acyclic : acyclic g;
  si_deps_nodup : ∀ n, n ∈ g_nodes g → NoDup (tn_depends_on n);
  (* parents exist, are composite, and form a forest *)
  si_rank : ∃ rank : NodeId → nat, ∀ n p, n ∈ g_nodes g → tn_parent n = Some p →
    rank p < rank (tn_id n) ∧ ∃ pn, pn ∈ g_nodes g ∧ tn_id pn = p ∧ tn_expanded pn = true;
  (* a composite waits for its children and its gate *)
  si_join : ∀ c p, c ∈ g_nodes g → p ∈ g_nodes g → tn_parent c = Some (tn_id p) →
    tn_id c ∈ tn_depends_on p;
  (* a gate waits for every work node of its level, and for nothing else *)
  si_cover : ∀ gt c, gt ∈ g_nodes g → c ∈ g_nodes g → tn_is_gate gt = true →
    tn_is_gate c = false → tn_parent gt = tn_parent c → tn_id c ∈ tn_depends_on gt;
  si_gate_deps : ∀ gt c, gt ∈ g_nodes g → c ∈ g_nodes g → tn_is_gate gt = true →
    tn_id c ∈ tn_depends_on gt → tn_is_gate c = false ∧ tn_parent c = tn_parent gt;
  si_gate_unique : ∀ g1 g2, g1 ∈ g_nodes g → g2 ∈ g_nodes g → tn_is_gate g1 = true →
    tn_is_gate g2 = true → tn_parent g1 = tn_parent g2 → tn_id g1 = tn_id g2;
  si_gate_leaf : ∀ n, n ∈ g_nodes g → tn_is_gate n = true → tn_expanded n = false;
  (* deep mode gates every level, light mode none *)
  si_deep : g_mode g = Deep → ∀ n, n ∈ g_nodes g →
    ∃ gt, gt ∈ g_nodes g ∧ tn_is_gate gt = true ∧ tn_parent gt = tn_parent n;
  si_light : g_mode g = Light → ∀ n, n ∈ g_nodes g → tn_is_gate n = false;
  si_children : ∀ n, n ∈ g_nodes g → tn_expanded n = true →
    ∃ c, c ∈ g_nodes g ∧ tn_is_gate c = false ∧ tn_parent c = Some (tn_id n) }.

Arguments si_nodup {g}.
Arguments si_closed {g}.
Arguments si_acyclic {g}.
Arguments si_deps_nodup {g}.
Arguments si_rank {g}.
Arguments si_join {g}.
Arguments si_cover {g}.
Arguments si_gate_deps {g}.
Arguments si_gate_unique {g}.
Arguments si_gate_leaf {g}.
Arguments si_deep {g}.
Arguments si_light {g}.
Arguments si_children {g}.

Lemma struct_inv_new m : struct_inv (graph_new m).
Proof.
  constructor; simpl; try (intros; by match goal with H : _ ∈ [] |- _ => apply elem_of_nil in H end).
  - constructor.
  - intros w Hw. apply tc_last in Hw as (z & _ & [Hz _]). by apply elem_of_nil in Hz.
  - exists (λ _, 0). by intros n p Hn%elem_of_nil.
Qed.

(** ** Updates that keep the shape *)

Definition shape (n : TaskNode) :=
  (tn_id n, tn_parent n, tn_depends_on n, tn_expanded n, tn_is_gate n,
   (tn_content n, tn_kind n, tn_priority n, tn_origin n)).

(** Two graphs with the same nodes up to status, owner, planner and output. *)
Definition same_shapes (g g' : TaskGraph) : Prop :=
  g_mode g' = g_mode g ∧ map shape (g_nodes g') = map shape (g_nodes g).

Lemma same_shapes_update id f g :
  (∀ n, shape (f n) = shape n) → same_shapes g (update_node id f g).
Proof. intros Hf. split; [done|]. simpl. apply (fmap_update_first _ shape). auto. Qed.

Lemma same_shapes_sym g g' : same_shapes g g' → same_shapes g' g.
Proof. by intros [? ?]. Qed.

Lemma same_shapes_elem g g' n :
  same_shapes g g' → n ∈ g_nodes g → ∃ m, m ∈ g_nodes g' ∧ shape m = shape n.
Proof.
  intros [_ Hm] Hn. assert (shape n ∈ map shape (g_nodes g')) as Hs.
  { rewrite Hm. by apply (list_elem_of_fmap_2 shape). }
  apply list_elem_of_fmap in Hs as (m & ? & ?). eauto.
Qed.

Lemma same_shapes_ids g g' : same_shapes g g' → ids g' = ids g.
Proof.
  intros [_ Hm]. unfold ids.
  assert (∀ l, map tn_id l = map (λ t, t.1.1.1.1.1) (map shape l)) as H
    by (intros l; rewrite map_map; done).
  by rewrite (H (g_nodes g')), Hm, <- H.
Qed.

Lemma same_shapes_depends g g' u v : same_shapes g g' → depends g' u v → depends g u v.
Proof.
  intros Hs [Hu (n & Hn & Hid & Hd)]. split; [by rewrite <- (same_shapes_ids _ _ Hs)|].
  destruct (same_shapes_elem _ _ n (same_shapes_sym _ _ Hs) Hn) as (m & Hm & [= ?]).
  exists m. split_and!; congruence.
Qed.

Ltac move_shape Hs n :=
  match goal with Hn : n ∈ g_nodes _ |- _ =>
    let m := fresh n "0" in let Hm := fresh "H" m in let E := fresh "E" m in
    destruct (same_shapes_elem _ _ n (same_shapes_sym _ _ Hs) Hn) as (m & Hm & E);
    unfold shape in E; injection E as ? ? ? ? ? ? ? ? ?
  end.

Ltac back_shape Hs n :=
  let m := fresh n "1" in let Hm := fresh "H" m in let E := fresh "E" m in
  match goal with Hn : n ∈ g_nodes _ |- _ =>
    destruct (same_shapes_elem _ _ n Hs Hn) as (m & Hm & E);
    unfold shape in E; injection E as ? ? ? ? ? ? ? ? ?
  end.

Lemma struct_inv_same_shapes g g' : same_shapes g g' → struct_inv g → struct_inv g'.
Proof.
  intros Hs [Hnd Hcl Hac Hdn Hrk Hjo Hco Hgd Hgu Hgl Hde Hli Hch].
  pose proof (same_shapes_ids _ _ Hs) as Hids. pose proof (proj1 Hs) as Hmode. constructor.
  - by rewrite Hids.
  - intros n d Hn Hd. rewrite Hids. move_shape Hs n. eapply Hcl; [done|congruence].
  - eapply acyclic_mono; [|exact Hac]. intros u v. by apply same_shapes_depends.
  - intros n Hn. move_shape Hs n. replace (tn_depends_on n) with (tn_depends_on n0) by done. by apply Hdn.
  - destruct Hrk as [rank Hr]. exists rank. intros n p Hn Hp. move_shape Hs n.
    destruct (Hr n0 p) as (Hlt & pn & Hpn & ? & ?); [done|congruence|].
    split; [congruence|]. back_shape Hs pn. exists pn1. split_and!; congruence.
  - intros c p Hc Hp Hcp. move_shape Hs c. move_shape Hs p.
    replace (tn_id c) with (tn_id c0) by done. replace (tn_depends_on p) with (tn_depends_on p0) by done.
    apply Hjo; congruence.
  - intros gt c Hgt Hc H1 H2 H3. move_shape Hs gt. move_shape Hs c.
    replace (tn_id c) with (tn_id c0) by done. replace (tn_depends_on gt) with (tn_depends_on gt0) by done.
    apply Hco; congruence.
  - intros gt c Hgt Hc H1 H2. move_shape Hs gt. move_shape Hs c.
    destruct (Hgd gt0 c0); [congruence..|]. split; congruence.
  - intros g1 g2 H1 H2 H3 H4 H5. move_shape Hs g1. move_shape Hs g2.
    replace (tn_id g1) with (tn_id g10) by done. replace (tn_id g2) with (tn_id g20) by done.
    apply Hgu; congruence.
  - intros n Hn H1. move_shape Hs n. replace (tn_expanded n) with (tn_expanded n0) by done.
    apply Hgl; congruence.
  - intros Hm n Hn. move_shape Hs n. destruct (Hde ltac:(congruence) n0) as (gt & Hgt & ? & ?); [done|].
    back_shape Hs gt. exists gt1. split_and!; congruence.
  - intros Hm n Hn. move_shape Hs n. replace (tn_is_gate n) with (tn_is_gate n0) by done.
    apply Hli; congruence.
  - intros n Hn H1. move_shape Hs n. destruct (Hch n0) as (c & Hc & ? & ?); [congruence..|].
    back_shape Hs c. exists c1. split_and!; congruence.
Qed.

(** ** Growth

    [seed], [expand_node] and [inject_from_gate] all append work nodes under
    one parent (possibly none), at most one gate for that level, and update
    existing nodes without touching their identity. *)

Definition grown (g : TaskGraph) (upd : TaskNode → TaskNode) (work gates : list TaskNode) : TaskGraph :=
  mkGraph (g_mode g) (map upd (g_nodes g) ++ work ++ gates).

Record growth (g : TaskGraph) (par : option NodeId) (upd : TaskNode → TaskNode)
    (work gates : list TaskNode) : Prop := {
  gr_nodup : NoDup (ids g ++ map tn_id (work ++ gates));
  gr_closed : ∀ n d, n ∈ g_nodes (grown g upd work gates) → d ∈ tn_depends_on n →
    d ∈ ids g ++ map tn_id (work ++ gates);
  gr_acyclic : acyclic (grown g upd work gates);
  gr_deps_nodup : ∀ n, n ∈ g_nodes (grown g upd work gates) → NoDup (tn_depends_on n);
  gr_id : ∀ n, tn_id (upd n) = tn_id n;
  gr_parent : ∀ n, tn_parent (upd n) = tn_parent n;
  gr_is_gate : ∀ n, tn_is_gate (upd n) = tn_is_gate n;
  gr_deps : ∀ n d, d ∈ tn_depends_on n → d ∈ tn_depends_on (upd n);
  gr_expanded : ∀ n, n ∈ g_nodes g → tn_expanded n = true → tn_expanded (upd n) = true;
  gr_expanded_new : ∀ n, n ∈ g_nodes g → tn_expanded (upd n) = true →
    tn_expanded n = true ∨ (par = Some (tn_id n) ∧ work ≠ [] ∧ tn_is_gate n = false);
  gr_work : ∀ n, n ∈ work → tn_parent n = par ∧ tn_is_gate n = false ∧ tn_expanded n = false;
  gr_gates : ∀ n, n ∈ gates → tn_parent n = par ∧ tn_is_gate n = true ∧ tn_expanded n = false;
  gr_gates_one : length gates ≤ 1;
  gr_gates_fresh : gates ≠ [] → ∀ n, n ∈ g_nodes g → tn_is_gate n = true → tn_parent n ≠ par;
  (* the parent is in the graph, composite, and waits for everything new *)
  gr_par : ∀ p, par = Some p → ∃ pn, pn ∈ g_nodes g ∧ tn_id pn = p ∧ tn_expanded (upd pn) = true
    ∧ ∀ n, n ∈ work ++ gates → tn_id n ∈ tn_depends_on (upd pn);
  (* gates wait exactly for the work of their level *)
  gr_gate_cover : ∀ gt c, gt ∈ gates → c ∈ g_nodes g ∨ c ∈ work → tn_is_gate c = false →
    tn_parent c = par → tn_id c ∈ tn_depends_on gt;
  gr_gate_only : ∀ gt d, gt ∈ gates → d ∈ tn_depends_on gt →
    ∃ c, (c ∈ g_nodes g ∨ c ∈ work) ∧ tn_id c = d ∧ tn_is_gate c = false ∧ tn_parent c = par;
  gr_old_gate_cover : ∀ gt c, gt ∈ g_nodes g → tn_is_gate gt = true → tn_parent gt = par →
    c ∈ work → tn_id c ∈ tn_depends_on (upd gt);
  gr_old_gate_only : ∀ gt d, gt ∈ g_nodes g → tn_is_gate gt = true →
    d ∈ tn_depends_on (upd gt) →
    d ∈ tn_depends_on gt ∨ (tn_parent gt = par ∧ ∃ c, c ∈ work ∧ tn_id c = d);
  gr_deep : g_mode g = Deep → work ≠ [] →
    gates ≠ [] ∨ ∃ gt, gt ∈ g_nodes g ∧ tn_is_gate gt = true ∧ tn_parent gt = par;
  gr_light : g_mode g = Light → gates = [] }.

Arguments gr_nodup {g par upd work gates}.
Arguments gr_closed {g par upd work gates}.
Arguments gr_acyclic {g par upd work gates}.
Arguments gr_deps_nodup {g par upd work gates}.
Arguments gr_id {g par upd work gates}.
Arguments gr_parent {g par upd work gates}.
Arguments gr_is_gate {g par upd work gates}.
Arguments gr_deps {g par upd work gates}.
Arguments gr_expanded {g par upd work gates}.
Arguments gr_expanded_new {g par upd work gates}.
Arguments gr_work {g par upd work gates}.
Arguments gr_gates {g par upd work gates}.
Arguments gr_gates_one {g par upd work gates}.
Arguments gr_gates_fresh {g par upd work gates}.
Arguments gr_par {g par upd work gates}.
Arguments gr_gate_cover {g par upd work gates}.
Arguments gr_gate_only {g par upd work gates}.
Arguments gr_old_gate_cover {g par upd work gates}.
Arguments gr_old_gate_only {g par upd work gates}.
Arguments gr_deep {g par upd work gates}.
Arguments gr_light {g par upd work gates}.

Lemma elem_of_grown g upd work gates m :
  m ∈ g_nodes (grown g upd work gates) ↔
  (∃ n, n ∈ g_nodes g ∧ m = upd n) ∨ m ∈ work ∨ m ∈ gates.
Proof. unfold grown; simpl. rewrite !elem_of_app, list_elem_of_fmap. naive_solver. Qed.

Section Growth.
Context (g : TaskGraph) (par : option NodeId) (upd : TaskNode → TaskNode).
Context (work gates : list TaskNode).
Context (Hg : struct_inv g) (Hgr : growth g par upd work gates).

#[local] Notation g' := (grown g upd work gates).

Lemma grown_ids : ids g' = ids g ++ map tn_id (work ++ gates).
Proof.
  unfold ids, grown; simpl. rewrite map_app, map_map. f_equal.
  apply map_ext. apply (gr_id Hgr).
Qed.

Lemma grown_old_ne n m : n ∈ g_nodes g → m ∈ work ∨ m ∈ gates → tn_id n ≠ tn_id m.
Proof.
  intros Hn Hm He. pose proof (gr_nodup Hgr) as Hnd.
  apply NoDup_app in Hnd as (_ & Hd & _). apply (Hd (tn_id n)).
  - apply elem_of_ids. eauto.
  - rewrite He. apply (list_elem_of_fmap_2 tn_id). by apply elem_of_app.
Qed.

(** No existing node has a new node as its parent. *)
Lemma grown_old_parent n m :
  n ∈ g_nodes g → m ∈ work ∨ m ∈ gates → tn_parent n ≠ Some (tn_id m).
Proof.
  intros Hn Hm Hp. destruct (si_rank Hg) as [rank Hr].
  destruct (Hr n _ Hn Hp) as (_ & pn & Hpn & He & _). by eapply grown_old_ne.
Qed.

Lemma grown_new_parent n m :
  n ∈ work ∨ n ∈ gates → m ∈ work ∨ m ∈ gates → tn_parent n ≠ Some (tn_id m).
Proof.
  intros Hn Hm Hp. assert (par = Some (tn_id m)) as Hpar.
  { rewrite <- Hp. destruct Hn as [Hn|Hn]; symmetry; [by apply (gr_work Hgr)|by apply (gr_gates Hgr)]. }
  destruct (gr_par Hgr _ Hpar) as (pn & Hpn & He & _). by eapply grown_old_ne.
Qed.

Lemma grown_parent_of n : n ∈ work ∨ n ∈ gates → tn_parent n = par.
Proof. intros [Hn|Hn]; [by apply (gr_work Hgr)|by apply (gr_gates Hgr)]. Qed.

Lemma grown_old_unique n m : n ∈ g_nodes g → m ∈ g_nodes g → tn_id n = tn_id m → n = m.
Proof. apply ids_node_unique, Hg. Qed.

Lemma grown_rank : ∃ rank : NodeId → nat, ∀ n p, n ∈ g_nodes g' → tn_parent n = Some p →
  rank p < rank (tn_id n) ∧ ∃ pn, pn ∈ g_nodes g' ∧ tn_id pn = p ∧ tn_expanded pn = true.
Proof.
  destruct (si_rank Hg) as [rank Hr].
  exists (λ v, if decide (v ∈ ids g) then rank v
               else S (match par with Some p => rank p | None => 0 end)).
  intros n p Hn Hp. apply elem_of_grown in Hn as [(m & Hm & ->)|Hn].
  - rewrite (gr_parent Hgr) in Hp. rewrite (gr_id Hgr).
    destruct (Hr m p Hm Hp) as (Hlt & pn & Hpn & <- & Hex).
    rewrite !decide_True by (apply elem_of_ids; eauto). split; [done|].
    exists (upd pn). split_and!; [apply elem_of_grown; eauto|apply (gr_id Hgr)|by apply (gr_expanded Hgr)].
  - rewrite (grown_parent_of n Hn) in Hp.
    destruct (gr_par Hgr p Hp) as (pn & Hpn & <- & Hex & _). split.
    + rewrite decide_True by (apply elem_of_ids; eauto).
      rewrite decide_False.
      * rewrite Hp. lia.
      * intros (m & Hm & He)%elem_of_ids. by eapply grown_old_ne.
    + exists (upd pn). split_and!; [apply elem_of_grown; eauto|apply (gr_id Hgr)|done].
Qed.

Lemma grown_join c p : c ∈ g_nodes g' → p ∈ g_nodes g' → tn_parent c = Some (tn_id p) →
  tn_id c ∈ tn_depends_on p.
Proof.
  intros Hc Hp Hcp. apply elem_of_grown in Hc as [(c0 & Hc & ->)|Hc];
    apply elem_of_grown in Hp as [(p0 & Hp & ->)|Hp].
  - rewrite (gr_parent Hgr), (gr_id Hgr p0) in Hcp.
    rewrite (gr_id Hgr). apply (gr_deps Hgr). by apply (si_join Hg).
  - rewrite (gr_parent Hgr) in Hcp. by destruct (grown_old_parent c0 p Hc Hp).
  - rewrite (gr_id Hgr p0), (grown_parent_of c Hc) in Hcp.
    destruct (gr_par Hgr _ Hcp) as (pn & Hpn & He & _ & Hall).
    rewrite (grown_old_unique p0 pn) by done. apply Hall. by apply elem_of_app.
  - by destruct (grown_new_parent c p Hc Hp).
Qed.

Lemma grown_cover gt c : gt ∈ g_nodes g' → c ∈ g_nodes g' → tn_is_gate gt = true →
  tn_is_gate c = false → tn_parent gt = tn_parent c → tn_id c ∈ tn_depends_on gt.
Proof.
  intros Ht Hc Hg1 Hg2 Hp.
  assert (∀ x, x ∈ work ∨ x ∈ gates → tn_is_gate x = false → x ∈ work) as Hw.
  { intros x [?|Hx] ?; [done|]. apply (gr_gates Hgr) in Hx as (_ & ? & _). congruence. }
  assert (∀ x, x ∈ work ∨ x ∈ gates → tn_is_gate x = true → x ∈ gates) as Hgt.
  { intros x [Hx|?] ?; [|done]. apply (gr_work Hgr) in Hx as (_ & ? & _). congruence. }
  apply elem_of_grown in Ht as [(t0 & Ht & ->)|Ht];
    apply elem_of_grown in Hc as [(c0 & Hc & ->)|Hc];
    rewrite ?(gr_parent Hgr), ?(gr_is_gate Hgr), ?(gr_id Hgr) in *.
  - apply (gr_deps Hgr). by apply (si_cover Hg).
  - apply (gr_old_gate_cover Hgr); [done..| |by apply Hw].
    rewrite Hp. by apply grown_parent_of.
  - apply (gr_gate_cover Hgr); [by apply Hgt|by left|done|].
    rewrite <- Hp. by apply grown_parent_of.
  - apply (gr_gate_cover Hgr); [by apply Hgt|right; by apply Hw|done|].
    by apply grown_parent_of.
Qed.

(** Nodes of the grown graph are determined by their id. *)
Lemma grown_nodup : NoDup (ids g').
Proof. rewrite grown_ids. apply (gr_nodup Hgr). Qed.

Lemma grown_gate_deps gt c : gt ∈ g_nodes g' → c ∈ g_nodes g' → tn_is_gate gt = true →
  tn_id c ∈ tn_depends_on gt → tn_is_gate c = false ∧ tn_parent c = tn_parent gt.
Proof.
  intros Ht Hc Hgate Hd.
  assert (∀ x, (x ∈ g_nodes g ∨ x ∈ work) → tn_id x = tn_id c → tn_is_gate x = false →
            tn_is_gate c = false ∧ tn_parent c = tn_parent x) as Huniq.
  { intros x [Hx|Hx] He Hx2.
    - rewrite (ids_node_unique g' c (upd x)); [|apply grown_nodup|done| |].
      + by rewrite (gr_parent Hgr), (gr_is_gate Hgr).
      + apply elem_of_grown. eauto.
      + by rewrite (gr_id Hgr).
    - rewrite (ids_node_unique g' c x); [done|apply grown_nodup|done| |done].
      apply elem_of_grown. eauto. }
  apply elem_of_grown in Ht as [(t0 & Ht & ->)|Ht].
  - rewrite (gr_parent Hgr), (gr_is_gate Hgr) in *.
    apply (gr_old_gate_only Hgr) in Hd as [Hd|(Hp & x & Hx & He)]; [| |done..].
    + pose proof (si_closed Hg t0 _ Ht Hd) as (x & Hx & He)%elem_of_ids.
      rewrite <- He in Hd. destruct (si_gate_deps Hg t0 x Ht Hx Hgate Hd) as [H1 H2].
      rewrite <- H2. apply Huniq; eauto.
    + rewrite Hp. pose proof (gr_work Hgr x Hx) as (<- & ? & _). apply Huniq; eauto.
  - assert (gt ∈ gates) as Htg.
    { destruct Ht as [Ht|]; [|done]. apply (gr_work Hgr) in Ht as (_ & ? & _). congruence. }
    destruct (gr_gate_only Hgr gt _ Htg Hd) as (x & Hx & He & Hx2 & Hxp).
    rewrite (grown_parent_of gt) by (by right). rewrite <- Hxp. by apply Huniq.
Qed.

Lemma grown_gate_unique g1 g2 : g1 ∈ g_nodes g' → g2 ∈ g_nodes g' → tn_is_gate g1 = true →
  tn_is_gate g2 = true → tn_parent g1 = tn_parent g2 → tn_id g1 = tn_id g2.
Proof.
  assert (∀ x, x ∈ work ∨ x ∈ gates → tn_is_gate x = true → x ∈ gates) as Hgt.
  { intros x [Hx|?] ?; [|done]. apply (gr_work Hgr) in Hx as (_ & ? & _). congruence. }
  assert (∀ x y, x ∈ g_nodes g → tn_is_gate x = true → y ∈ gates → tn_parent x ≠ tn_parent y) as Hno.
  { intros x y Hx Hxg Hy. rewrite (grown_parent_of y) by (by right).
    apply (gr_gates_fresh Hgr); [|done..]. by intros ->; apply elem_of_nil in Hy. }
  intros H1 H2 Hb1 Hb2 Hp. apply elem_of_grown in H1 as [(x1 & H1 & ->)|H1];
    apply elem_of_grown in H2 as [(x2 & H2 & ->)|H2];
    rewrite ?(gr_parent Hgr), ?(gr_is_gate Hgr), ?(gr_id Hgr) in *.
  - by apply (si_gate_unique Hg).
  - by destruct (Hno x1 g2 H1 Hb1 (Hgt _ H2 Hb2)).
  - by destruct (Hno x2 g1 H2 Hb2 (Hgt _ H1 Hb1)).
  - apply Hgt in H1, H2; [|done..]. pose proof (gr_gates_one Hgr) as Hl.
    destruct gates as [|a [|b l]]; simpl in Hl; [by apply elem_of_nil in H1| |lia].
    apply list_elem_of_singleton in H1, H2. congruence.
Qed.

Lemma grown_deep : g_mode g' = Deep → ∀ n, n ∈ g_nodes g' →
  ∃ gt, gt ∈ g_nodes g' ∧ tn_is_gate gt = true ∧ tn_parent gt = tn_parent n.
Proof.
  simpl. intros Hm n Hn. apply elem_of_grown in Hn as [(n0 & Hn & ->)|Hn].
  - destruct (si_deep Hg Hm n0 Hn) as (gt & Hgt & ? & ?). exists (upd gt).
    rewrite !(gr_parent Hgr), (gr_is_gate Hgr).
    split_and!; [apply elem_of_grown; eauto|done..].
  - destruct (decide (n ∈ gates)) as [Hng|Hng].
    { exists n. split_and!; [apply elem_of_grown; eauto|by apply (gr_gates Hgr)|done]. }
    assert (n ∈ work) as Hw by (by destruct Hn). rewrite (grown_parent_of n Hn).
    destruct (gr_deep Hgr Hm) as [Hne|(gt & Hgt & ? & ?)].
    + by intros Hnil; rewrite Hnil in Hw; apply elem_of_nil in Hw.
    + destruct gates as [|gt gates'] eqn:Eg; [done|]. exists gt. rewrite <- Eg in *.
      assert (gt ∈ gates) as Hgt by (rewrite Eg; left).
      split_and!; [apply elem_of_grown; eauto|by apply (gr_gates Hgr)|by apply (gr_gates Hgr)].
    + exists (upd gt). rewrite (gr_parent Hgr), (gr_is_gate Hgr).
      split_and!; [apply elem_of_grown; eauto|done..].
Qed.

Lemma struct_inv_grown : struct_inv g'.
Proof.
  constructor.
  - apply grown_nodup.
  - intros n d Hn Hd. rewrite grown_ids. by eapply (gr_closed Hgr).
  - apply (gr_acyclic Hgr).
  - apply (gr_deps_nodup Hgr).
  - apply grown_rank.
  - apply grown_join.
  - apply grown_cover.
  - apply grown_gate_deps.
  - apply grown_gate_unique.
  - intros n [(n0 & Hn & ->)|[Hn|Hn]]%elem_of_grown Hgate; [|by apply (gr_work Hgr) in Hn as (_ & _ & ?)|by apply (gr_gates Hgr)].
    rewrite (gr_is_gate Hgr) in Hgate.
    destruct (tn_expanded (upd n0)) eqn:E; [|done].
    apply (gr_expanded_new Hgr) in E as [E|(_ & _ & E)]; [|congruence|done].
    by rewrite (si_gate_leaf Hg n0 Hn Hgate) in E.
  - apply grown_deep.
  - simpl. intros Hm n [(n0 & Hn & ->)|[Hn|Hn]]%elem_of_grown.
    + rewrite (gr_is_gate Hgr). by apply (si_light Hg).
    + by apply (gr_work Hgr).
    + rewrite (gr_light Hgr Hm) in Hn. by apply elem_of_nil in Hn.
  - intros n [(n0 & Hn & ->)|[Hn|Hn]]%elem_of_grown Hex.
    2: apply (gr_work Hgr) in Hn as (_ & _ & ?); congruence.
    2: apply (gr_gates Hgr) in Hn as (_ & _ & ?); congruence.
    rewrite (gr_id Hgr).
    apply (gr_expanded_new Hgr) in Hex as [Hex|(Hp & Hw & _)]; [| |done].
    + destruct (si_children Hg n0 Hn Hex) as (c & Hc & ? & ?). exists (upd c).
      rewrite (gr_parent Hgr), (gr_is_gate Hgr).
      split_and!; [apply elem_of_grown; eauto|done..].
    + destruct work as [|c work'] eqn:Ew; [done|]. exists c. rewrite <- Ew in *.
      assert (c ∈ work) as Hc by (rewrite Ew; left).
      pose proof (gr_work Hgr c Hc) as (? & ? & _).
      split_and!; [apply elem_of_grown; eauto|done|congruence].
Qed.
End Growth.
