(* ===== verification/DagGrow.v ===== *)
(** * The growing operations preserve the structural invariant

    [expand_node], [inject_from_gate] and [seed] are instances of the growth
    lemma of DagInv.v; the other mutations keep every node's shape. *)

From stdpp Require Import base list strings gmap relations.
From S2P Require Import Prelude RustString Confidence Dag Kahn DagCycle Mention DagOps Schedule DagInv.

Open Scope string_scope.
Open Scope nat_scope.
Open Scope list_scope.

(** Update in place of the node with the given id. *)
Definition upd_at (id : NodeId) (f : TaskNode → TaskNode) (n : TaskNode) : TaskNode :=
  if has_id id n then f n else n.

Lemma update_first_map id f l :
  NoDup (map tn_id l) → update_first (has_id id) f l = map (upd_at id f) l.
Proof.
  unfold upd_at. induction l as [|x l IH]; simpl; [done|]. intros [Hx Hl]%NoDup_cons.
  destruct (has_id id x) eqn:E; [|by rewrite IH]. f_equal.
  apply has_id_true in E. clear IH Hl. induction l as [|y l IH]; simpl; [done|].
  simpl in Hx. apply not_elem_of_cons in Hx as [Hne Hx].
  assert (has_id id y = false) as -> by (apply bool_decide_eq_false; congruence).
  by rewrite <- IH.
Qed.

Lemma upd_at_ne id f n : tn_id n ≠ id → upd_at id f n = n.
Proof. intros Hn. unfold upd_at, has_id. by rewrite bool_decide_false. Qed.

Lemma upd_at_eq id f n : tn_id n = id → upd_at id f n = f n.
Proof. intros Hn. unfold upd_at, has_id. by rewrite bool_decide_true. Qed.

Lemma map_upd_at_fresh id f l : id ∉ map tn_id l → map (upd_at id f) l = l.
Proof.
  induction l as [|x l IH]; simpl; [done|]. intros [Hne Hx]%not_elem_of_cons.
  rewrite upd_at_ne by congruence. by rewrite IH.
Qed.

Lemma update_append id f g news :
  NoDup (ids g ++ map tn_id news) → id ∈ ids g →
  update_node id f (append_nodes g news) = grown g (upd_at id f) news [].
Proof.
  intros Hnd Hid. unfold update_node, append_nodes, grown; simpl. f_equal.
  rewrite update_first_map by (by rewrite map_app).
  rewrite map_app, app_nil_r. f_equal. apply map_upd_at_fresh.
  apply NoDup_app in Hnd as (_ & Hd & _). by apply Hd.
Qed.

Lemma grown_move_gates g upd work gates : grown g upd (work ++ gates) [] = grown g upd work gates.
Proof. unfold grown. by rewrite app_nil_r. Qed.

Lemma elem_of_spec_nodes n specs parent origin :
  n ∈ spec_nodes specs parent origin → ∃ s, s ∈ specs ∧ n = spec_to_node s parent origin.
Proof. unfold spec_nodes. intros (s & -> & Hs)%list_elem_of_fmap. eauto. Qed.

Lemma spec_nodes_nil specs parent origin : spec_nodes specs parent origin = [] → specs = [].
Proof. by destruct specs. Qed.

(** ** Expansion *)

Lemma flip_fields deps n :
  tn_id (flip_to_composite deps n) = tn_id n
  ∧ tn_parent (flip_to_composite deps n) = tn_parent n
  ∧ tn_is_gate (flip_to_composite deps n) = tn_is_gate n
  ∧ tn_depends_on (flip_to_composite deps n) = push_missing (tn_depends_on n) deps
  ∧ tn_expanded (flip_to_composite deps n) = true
  ∧ tn_status (flip_to_composite deps n) = Queued
  ∧ tn_owner (flip_to_composite deps n) = None.
Proof. unfold flip_to_composite. simpl. by destruct (tn_planner n). Qed.

(** Field-preserving updates lift to [upd_at]. *)
Lemma upd_at_field {A} (π : TaskNode → A) id f n :
  (∀ m, π (f m) = π m) → π (upd_at id f n) = π n.
Proof. intros Hf. unfold upd_at. by destruct (has_id id n). Qed.

(** A node that is not composite has no children yet. *)
Lemma no_children_yet g n m :
  struct_inv g → n ∈ g_nodes g → tn_expanded n = false → m ∈ g_nodes g →
  tn_parent m ≠ Some (tn_id n).
Proof.
  intros Hg Hn Hex Hm Hp. destruct (si_rank Hg) as [rank Hr].
  destruct (Hr m _ Hm Hp) as (_ & pn & Hpn & He & Hpe).
  by rewrite (ids_node_unique g pn n (si_nodup Hg)) in Hpe; [congruence|..].
Qed.

Section Expand.
Context (id : NodeId) (children : list NodeSpec) (g : TaskGraph) (n : TaskNode).
Context (kids : list NodeId) (gates : list TaskNode).
Context (Hg : struct_inv g) (Hn : n ∈ g_nodes g) (Hid : tn_id n = id).
Context (Hgate : tn_is_gate n = false) (Hex : tn_expanded n = false) (Hne : children ≠ []).
Context (Hv : validate_new_ids "expand" g [] children = Ok kids).
Context (Hc : check_deps kids g (spec_pairs children kids) = Ok tt).
Context (Hgs : g_mode g = Light ∧ gates = []
               ∨ g_mode g = Deep ∧ ∃ gid content, gid ∉ ids g ++ kids
                   ∧ gates = [new_gate gid content (gate_kind (tn_kind n)) (Some id) kids]).

#[local] Notation work := (spec_nodes children (Some id) OExpand).
#[local] Notation synth := (kids ++ map tn_id gates).
#[local] Notation upd := (upd_at id (flip_to_composite synth)).

Lemma ex_work_ids : map tn_id work = kids.
Proof. rewrite spec_nodes_ids. by apply validate_new_ids_ok in Hv as (_ & _ & ?). Qed.

Lemma ex_gate_fields gt : gt ∈ gates →
  tn_parent gt = Some id ∧ tn_is_gate gt = true ∧ tn_expanded gt = false ∧ tn_depends_on gt = kids.
Proof.
  intros Hgt. destruct Hgs as [[_ E]|(_ & gid & content & _ & E)]; rewrite E in Hgt.
  - by apply elem_of_nil in Hgt.
  - by apply list_elem_of_singleton in Hgt as ->.
Qed.

Lemma ex_no_children m : m ∈ g_nodes g → tn_parent m ≠ Some id.
Proof. rewrite <- Hid. by apply no_children_yet. Qed.

Lemma ex_nodup : NoDup (ids g ++ map tn_id (work ++ gates)).
Proof.
  pose proof (validate_new_ids_ok _ _ _ _ _ Hv) as (Hnd & Hfresh & _).
  rewrite map_app, ex_work_ids, app_assoc. apply NoDup_app. split_and!.
  - apply NoDup_app. split_and!; [apply (si_nodup Hg)| |done].
    intros x Hx Hk. by apply Hfresh in Hk as [? _].
  - intros x Hx Hxg. destruct Hgs as [[_ E]|(_ & gid & content & Hgid & E)]; rewrite E in Hxg.
    + by apply elem_of_nil in Hxg.
    + by apply list_elem_of_singleton in Hxg as ->.
  - destruct Hgs as [[_ ->]|(_ & gid & content & _ & ->)]; [constructor|apply NoDup_singleton].
Qed.

Lemma ex_node m : m ∈ g_nodes g → tn_id m = id → m = n.
Proof. intros Hm He. apply (ids_node_unique g); [apply (si_nodup Hg)|done..|congruence]. Qed.

Lemma ex_deps m d : m ∈ g_nodes g → d ∈ tn_depends_on (upd m) →
  d ∈ tn_depends_on m ∨ (m = n ∧ d ∈ synth).
Proof.
  intros Hm Hd. destruct (decide (tn_id m = id)) as [Hmid|Hmid].
  - rewrite upd_at_eq in Hd by done. destruct (flip_fields synth m) as (_ & _ & _ & Hf & _).
    rewrite Hf, elem_of_push_missing in Hd. destruct Hd as [?|?]; [by left|right].
    split; [by apply ex_node|done].
  - rewrite upd_at_ne in Hd by done. by left.
Qed.

Lemma ex_closed m d : m ∈ g_nodes (grown g upd work gates) → d ∈ tn_depends_on m →
  d ∈ ids g ++ map tn_id (work ++ gates).
Proof.
  intros Hm Hd. rewrite elem_of_app, map_app, ex_work_ids.
  apply elem_of_grown in Hm as [(m0 & Hm & ->)|[Hm|Hm]].
  - apply ex_deps in Hd as [Hd|[_ Hd]]; [left; by eapply (si_closed Hg)|by right|done].
  - apply elem_of_spec_nodes in Hm as (s & Hs & ->). simpl in Hd.
    rewrite elem_of_dedup_first in Hd.
    destruct (batch_deps_ok _ _ _ _ _ _ Hv Hc Hs Hd); [right; apply elem_of_app; by left|by left].
  - destruct (ex_gate_fields m Hm) as (_ & _ & _ & Hk). rewrite Hk in Hd.
    right. apply elem_of_app. by left.
Qed.

Lemma ex_deps_nodup m : m ∈ g_nodes (grown g upd work gates) → NoDup (tn_depends_on m).
Proof.
  intros Hm. apply elem_of_grown in Hm as [(m0 & Hm & ->)|[Hm|Hm]].
  - unfold upd_at. destruct (has_id id m0); [|by apply (si_deps_nodup Hg)].
    destruct (flip_fields synth m0) as (_ & _ & _ & -> & _).
    apply NoDup_push_missing. by apply (si_deps_nodup Hg).
  - apply elem_of_spec_nodes in Hm as (s & Hs & ->). apply NoDup_dedup_first.
  - destruct (ex_gate_fields m Hm) as (_ & _ & _ & ->).
    by apply validate_new_ids_ok in Hv as (? & _).
Qed.

(** The flipped parent waits for everything new. *)
Lemma ex_parent_waits m : m ∈ work ++ gates → tn_id m ∈ tn_depends_on (upd n).
Proof.
  intros Hm. rewrite upd_at_eq by done. destruct (flip_fields synth n) as (_ & _ & _ & -> & _).
  apply elem_of_push_missing. right. rewrite <- ex_work_ids, <- map_app.
  by apply (list_elem_of_fmap_2 tn_id).
Qed.

Lemma ex_work_elem c : c ∈ work → tn_parent c = Some id ∧ tn_is_gate c = false ∧ tn_expanded c = false.
Proof. by intros (s & Hs & ->)%elem_of_spec_nodes. Qed.

Lemma expand_growth : acyclic (grown g upd work gates) → growth g (Some id) upd work gates.
Proof.
  intros Hac. constructor; try done.
  - apply ex_nodup.
  - apply ex_closed.
  - apply ex_deps_nodup.
  - intros m. apply (upd_at_field tn_id). apply flip_fields.
  - intros m. apply (upd_at_field tn_parent). apply flip_fields.
  - intros m. apply (upd_at_field tn_is_gate). apply flip_fields.
  - intros m d Hd. unfold upd_at. destruct (has_id id m); [|done].
    destruct (flip_fields synth m) as (_ & _ & _ & -> & _). apply elem_of_push_missing. by left.
  - intros m Hm He. unfold upd_at. destruct (has_id id m); [apply flip_fields|done].
  - intros m Hm He. destruct (decide (tn_id m = id)) as [Hmid|Hmid].
    + right. rewrite (ex_node m Hm Hmid). split_and!; [congruence| |done]. by intros ?%spec_nodes_nil.
    + rewrite upd_at_ne in He by done. by left.
  - apply ex_work_elem.
  - intros m Hm. by destruct (ex_gate_fields m Hm) as (? & ? & ? & _).
  - destruct Hgs as [[_ ->]|(_ & ? & ? & _ & ->)]; simpl; lia.
  - intros _ m Hm _. by apply ex_no_children.
  - intros p [= <-]. exists n. split_and!; [done..| |apply ex_parent_waits].
    rewrite upd_at_eq by done. apply flip_fields.
  - intros gt c Hgt [Hcg|Hcw] Hcg2 Hcp; [by destruct (ex_no_children c Hcg)|].
    destruct (ex_gate_fields gt Hgt) as (_ & _ & _ & ->). rewrite <- ex_work_ids.
    by apply (list_elem_of_fmap_2 tn_id).
  - intros gt d Hgt Hd. destruct (ex_gate_fields gt Hgt) as (_ & _ & _ & Hk).
    rewrite Hk, <- ex_work_ids in Hd. apply list_elem_of_fmap in Hd as (c & -> & Hcw).
    exists c. destruct (ex_work_elem c Hcw) as (? & ? & _). eauto 10.
  - intros gt c Hgt _ Hp. by destruct (ex_no_children gt Hgt).
  - intros gt d Hgt Hgg Hd. apply ex_deps in Hd as [?|[-> ?]]; [by left|congruence|done].
  - intros Hm _. left. destruct Hgs as [[? _]|(_ & ? & ? & _ & ->)]; [congruence|done].
  - intros Hm. destruct Hgs as [[_ ->]|(? & _)]; [done|congruence].
Qed.
End Expand.

(** What a successful expansion does to the graph. *)
Lemma expand_grown id actor children g out g' :
  struct_inv g → expand_node id actor children g = (Ok out, g') →
  ∃ n kids gates,
    let upd := upd_at id (flip_to_composite (kids ++ map tn_id gates)) in
    let work := spec_nodes children (Some id) OExpand in
    n ∈ g_nodes g ∧ tn_id n = id ∧ tn_status n = Running ∧ tn_owner n = Some actor
    ∧ tn_is_gate n = false ∧ (∀ gt, gt ∈ gates → tn_status gt = Queued ∧ tn_owner gt = None)
    ∧ map tn_id work = kids ∧ g' = grown g upd work gates ∧ growth g (Some id) upd work gates.
Proof.
  intros Hg Hop.
  destruct (expand_node_ok _ _ _ _ _ _ Hop) as
    (n & kids & gates & Hget & Ho & Hgate & Hex & Hrun & Hne & Hv & Hc & Hgs & Heq & Hac & _).
  pose proof (get_Some _ _ _ Hget) as [Hn Hid].
  assert (NoDup (ids g ++ map tn_id (spec_nodes children (Some id) OExpand ++ gates))) as Hnd
    by (by eapply ex_nodup).
  rewrite update_append, grown_move_gates in Heq; [|done|apply elem_of_ids; eauto].
  exists n, kids, gates. split_and!; try done.
  - intros gt Hgt. destruct Hgs as [[_ ->]|(_ & ? & ? & _ & ->)]; [by apply elem_of_nil in Hgt|].
    by apply list_elem_of_singleton in Hgt as ->.
  - by eapply ex_work_ids.
  - apply (expand_growth id children g n kids gates); try done. by rewrite <- Heq.
Qed.

(** ** Injection *)

Definition add_deps (new_ids : list NodeId) (m : TaskNode) : TaskNode :=
  set_depends_on (push_missing (tn_depends_on m) new_ids) m.

Definition inject_upd (gid : NodeId) (parent : option NodeId) (new_ids : list NodeId)
    (m : TaskNode) : TaskNode :=
  let m' := upd_at gid (requeue_gate new_ids) m in
  match parent with Some p => upd_at p (add_deps new_ids) m' | None => m' end.

Lemma update_grown id f g upd work :
  (∀ m, tn_id (upd m) = tn_id m) → NoDup (ids g ++ map tn_id work) → id ∈ ids g →
  update_node id f (grown g upd work []) = grown g (λ m, upd_at id f (upd m)) work [].
Proof.
  intros Hu Hnd Hid. unfold update_node, grown; simpl. rewrite !app_nil_r. f_equal.
  rewrite update_first_map.
  - rewrite map_app, map_map. f_equal. apply map_upd_at_fresh.
    apply NoDup_app in Hnd as (_ & Hd & _). by apply Hd.
  - rewrite map_app, map_map.
    replace (map (λ x, tn_id (upd x)) (g_nodes g)) with (ids g); [done|].
    apply map_ext. intros; by rewrite Hu.
Qed.

Section Inject.
Context (gid : NodeId) (specs : list NodeSpec) (g : TaskGraph) (gate : TaskNode).
Context (new_ids : list NodeId).
Context (Hg : struct_inv g) (Hgt : gate ∈ g_nodes g) (Hid : tn_id gate = gid).
Context (Hgate : tn_is_gate gate = true) (Hne : specs ≠ []).
Context (Hv : validate_new_ids "inject_from_gate" g [] specs = Ok new_ids).
Context (Hc : check_deps new_ids g (spec_pairs specs new_ids) = Ok tt).

#[local] Notation par := (tn_parent gate).
#[local] Notation work := (spec_nodes specs par OGap).
#[local] Notation upd := (inject_upd gid par new_ids).

Lemma inj_work_ids : map tn_id work = new_ids.
Proof. rewrite spec_nodes_ids. by apply validate_new_ids_ok in Hv as (_ & _ & ?). Qed.

Lemma inj_nodup : NoDup (ids g ++ map tn_id work).
Proof.
  pose proof (validate_new_ids_ok _ _ _ _ _ Hv) as (Hnd & Hfresh & _).
  rewrite inj_work_ids. apply NoDup_app. split_and!; [apply (si_nodup Hg)| |done].
  intros x Hx Hk. by apply Hfresh in Hk as [? _].
Qed.

Lemma inj_field {A} (π : TaskNode → A) m :
  (∀ l x, π (requeue_gate l x) = π x) → (∀ l x, π (add_deps l x) = π x) → π (upd m) = π m.
Proof.
  intros H1 H2. unfold inject_upd.
  destruct par as [p|]; [rewrite (upd_at_field π) by done|]; by apply (upd_at_field π).
Qed.

(** Which dependencies the update adds, and to whom. *)
Lemma inj_deps m d : d ∈ tn_depends_on (upd m) ↔
  d ∈ tn_depends_on m ∨ (d ∈ new_ids ∧ (tn_id m = gid ∨ par = Some (tn_id m))).
Proof.
  assert (∀ x, d ∈ tn_depends_on (upd_at gid (requeue_gate new_ids) x) ↔
            d ∈ tn_depends_on x ∨ (d ∈ new_ids ∧ tn_id x = gid)) as H1.
  { intros x. destruct (decide (tn_id x = gid)).
    - rewrite upd_at_eq by done. simpl. rewrite elem_of_push_missing. naive_solver.
    - rewrite upd_at_ne by done. naive_solver. }
  assert (tn_id (upd_at gid (requeue_gate new_ids) m) = tn_id m) as Hi by (by apply (upd_at_field tn_id)).
  unfold inject_upd. destruct par as [p|]; [|rewrite H1; naive_solver].
  destruct (decide (tn_id m = p)).
  - rewrite upd_at_eq by congruence. simpl. rewrite elem_of_push_missing, H1. naive_solver.
  - rewrite upd_at_ne by congruence. rewrite H1. naive_solver.
Qed.

Lemma inj_deps_nodup m : m ∈ g_nodes (grown g upd work []) → NoDup (tn_depends_on m).
Proof.
  intros [(m0 & Hm & ->)|[Hm|Hm%elem_of_nil]]%elem_of_grown; [| |done].
  - assert (∀ x, NoDup (tn_depends_on x) → NoDup (tn_depends_on (upd_at gid (requeue_gate new_ids) x)))
      as H1.
    { intros x Hx. unfold upd_at. destruct (has_id gid x); [|done]. by apply NoDup_push_missing. }
    pose proof (si_deps_nodup Hg m0 Hm). unfold inject_upd. destruct par as [p|]; [|by apply H1].
    unfold upd_at at 1. destruct (has_id p _); [|by apply H1].
    apply NoDup_push_missing. by apply H1.
  - apply elem_of_spec_nodes in Hm as (s & Hs & ->). apply NoDup_dedup_first.
Qed.

Lemma inj_closed m d : m ∈ g_nodes (grown g upd work []) → d ∈ tn_depends_on m →
  d ∈ ids g ++ map tn_id (work ++ []).
Proof.
  rewrite app_nil_r, elem_of_app, inj_work_ids.
  intros [(m0 & Hm & ->)|[Hm|Hm%elem_of_nil]]%elem_of_grown Hd; [| |done].
  - apply inj_deps in Hd as [Hd|[Hd _]]; [left; by eapply (si_closed Hg)|by right].
  - apply elem_of_spec_nodes in Hm as (s & Hs & ->). simpl in Hd.
    rewrite elem_of_dedup_first in Hd.
    destruct (batch_deps_ok _ _ _ _ _ _ Hv Hc Hs Hd); [by right|by left].
Qed.

Lemma inj_parent_node p : par = Some p →
  ∃ pn, pn ∈ g_nodes g ∧ tn_id pn = p ∧ tn_expanded pn = true.
Proof.
  intros Hp. destruct (si_rank Hg) as [rank Hr].
  by destruct (Hr gate p Hgt Hp) as (_ & ?).
Qed.

Lemma inj_work_elem c : c ∈ work → tn_parent c = par ∧ tn_is_gate c = false ∧ tn_expanded c = false.
Proof. by intros (s & Hs & ->)%elem_of_spec_nodes. Qed.

Lemma inject_growth : acyclic (grown g upd work []) → growth g par upd work [].
Proof.
  intros Hac.
  assert (∀ m, tn_expanded (upd m) = tn_expanded m) as Hexp by (intros; by apply inj_field).
  constructor; try done; try (by intros ? ?%elem_of_nil); try (by intros ? ? ?%elem_of_nil).
  - rewrite app_nil_r. apply inj_nodup.
  - apply inj_closed.
  - apply inj_deps_nodup.
  - intros m. by apply inj_field.
  - intros m. by apply inj_field.
  - intros m. by apply inj_field.
  - intros m d Hd. apply inj_deps. by left.
  - intros m Hm. by rewrite Hexp.
  - intros m Hm. rewrite Hexp. by left.
  - apply inj_work_elem.
  - simpl; lia.
  - intros p Hp. destruct (inj_parent_node p Hp) as (pn & Hpn & He & Hx).
    exists pn. rewrite Hexp. split_and!; [done..|]. intros m Hm. rewrite app_nil_r in Hm.
    apply inj_deps. right. split; [|right; congruence].
    rewrite <- inj_work_ids. by apply (list_elem_of_fmap_2 tn_id).
  - intros gt c H1 H2 H3 H4. apply inj_deps. right. split.
    + rewrite <- inj_work_ids. by apply (list_elem_of_fmap_2 tn_id).
    + left. rewrite <- Hid. by apply (si_gate_unique Hg).
  - intros gt d H1 H2 [?|[Hd Hor]]%inj_deps; [by left|right].
    rewrite <- inj_work_ids in Hd. apply list_elem_of_fmap in Hd as (c & -> & Hcw).
    split; [|eauto]. destruct Hor as [He|Hp].
    + f_equal. apply (ids_node_unique g); [apply (si_nodup Hg)|done..|congruence].
    + destruct (inj_parent_node _ Hp) as (pn & Hpn & He & Hx).
      rewrite (ids_node_unique g pn gt) in Hx by (done || apply (si_nodup Hg)).
      by rewrite (si_gate_leaf Hg gt) in Hx.
  - intros _ _. right. exists gate. done.
Qed.
End Inject.

Lemma inject_grown gid actor specs g new_ids g' :
  struct_inv g → inject_from_gate gid actor specs g = (Ok new_ids, g') →
  ∃ gate,
    let upd := inject_upd gid (tn_parent gate) new_ids in
    let work := spec_nodes specs (tn_parent gate) OGap in
    gate ∈ g_nodes g ∧ tn_id gate = gid ∧ tn_status gate = Running ∧ tn_owner gate = Some actor
    ∧ tn_is_gate gate = true ∧ map tn_id work = new_ids ∧ work ≠ []
    ∧ g' = grown g upd work [] ∧ growth g (tn_parent gate) upd work [].
Proof.
  intros Hg Hop.
  destruct (inject_from_gate_ok _ _ _ _ _ _ Hop) as
    (gate & Hget & Ho & Hgate & Hrun & Hne & Hv & Hc & Heq & Hac).
  pose proof (get_Some _ _ _ Hget) as [Hn Hid].
  assert (g' = grown g (inject_upd gid (tn_parent gate) new_ids)
                 (spec_nodes specs (tn_parent gate) OGap) []) as E.
  { rewrite Heq. pose proof (inj_nodup specs g gate new_ids Hg Hv) as Hnd.
    rewrite update_append; [|by apply Hnd|apply elem_of_ids; eauto].
    unfold widen_parent, inject_upd. destruct (tn_parent gate) as [p|] eqn:Hp; [|done].
    apply (update_grown p (add_deps new_ids)); [intros m; by apply (upd_at_field tn_id)|apply Hnd|].
    destruct (inj_parent_node g gate Hg Hn p Hp) as (pn & ? & ? & _). apply elem_of_ids. eauto. }
  exists gate. split_and!; try done.
  - by eapply inj_work_ids.
  - by intros ?%spec_nodes_nil.
  - eapply inject_growth; try done. by rewrite <- E.
Qed.

(** ** Seeding *)

Lemma refresh_fields roots n :
  tn_id (refresh_gate roots n) = tn_id n
  ∧ tn_parent (refresh_gate roots n) = tn_parent n
  ∧ tn_is_gate (refresh_gate roots n) = tn_is_gate n
  ∧ tn_expanded (refresh_gate roots n) = tn_expanded n
  ∧ tn_depends_on (refresh_gate roots n) = push_missing (tn_depends_on n) roots.
Proof. unfold refresh_gate. by destruct (_ && is_terminal n). Qed.

Lemma root_ids_append g work :
  (∀ n, n ∈ work → is_root_work n = true) →
  root_ids (append_nodes g work) = root_ids g ++ map tn_id work.
Proof.
  intros Hw. unfold root_ids, append_nodes; simpl. rewrite List.filter_app, map_app. f_equal.
  induction work as [|n work IH]; simpl; [done|]. rewrite Hw by left. simpl. f_equal.
  apply IH. intros; apply Hw; by right.
Qed.

Lemma elem_of_root_ids g d :
  d ∈ root_ids g ↔ ∃ c, c ∈ g_nodes g ∧ tn_id c = d ∧ tn_is_gate c = false ∧ tn_parent c = None.
Proof.
  unfold root_ids. rewrite list_elem_of_fmap. unfold is_root_work.
  setoid_rewrite list_elem_of_In at 1. setoid_rewrite List.filter_In.
  setoid_rewrite andb_true_iff. setoid_rewrite bool_decide_eq_true. setoid_rewrite negb_true_iff.
  setoid_rewrite <- list_elem_of_In. naive_solver.
Qed.

(** The effect of [ensure_root_gate] on a graph with new root work. *)
Definition root_upd (g : TaskGraph) (roots : list NodeId) : TaskNode → TaskNode :=
  match find_first is_root_gate (g_nodes g) with
  | Some gate => upd_at (tn_id gate) (refresh_gate roots)
  | None => λ n, n
  end.

Definition is_root_gate_of (g : TaskGraph) (gt : TaskNode) : Prop :=
  gt ∈ g_nodes g ∧ tn_is_gate gt = true ∧ tn_parent gt = None.

Lemma find_root_gate g gt : find_first is_root_gate (g_nodes g) = Some gt → is_root_gate_of g gt.
Proof. intros [? Hr]%find_first_Some. unfold is_root_gate in Hr. bool_hyps. done. Qed.

Lemma find_root_gate_None g n :
  find_first is_root_gate (g_nodes g) = None → n ∈ g_nodes g → tn_is_gate n = true → tn_parent n ≠ None.
Proof.
  intros Hf Hn Hgate Hp. apply (find_first_None _ _ n) in Hf; [|done].
  unfold is_root_gate in Hf. rewrite Hgate, bool_decide_true in Hf; done.
Qed.

Section Seed.
Context (g : TaskGraph) (specs unique : list NodeSpec).
Context (Hg : struct_inv g).
Context (Hcol : collapse_specs [] specs = Ok unique).
Context (Hdeps : check_deps (spec_ids unique) g
                   (map (λ s, (default "" (ns_id s), ns_depends_on s)) unique) = Ok tt).

#[local] Notation work := (spec_nodes (fresh_specs g unique) None OSeed).
#[local] Notation roots := (root_ids g ++ map tn_id work).
#[local] Notation upd := (root_upd g roots).

Lemma seed_work_elem n : n ∈ work → tn_parent n = None ∧ tn_is_gate n = false ∧ tn_expanded n = false.
Proof. by intros (s & Hs & ->)%elem_of_spec_nodes. Qed.

Lemma seed_nodup : NoDup (ids g ++ map tn_id work).
Proof.
  destruct (collapse_specs_ok _ _ _ Hcol) as (Hnd & _); [constructor|by intros ? ?%elem_of_nil|].
  rewrite spec_nodes_ids. apply NoDup_app. split_and!; [apply (si_nodup Hg)| |].
  - intros x Hx (s & -> & Hs)%list_elem_of_fmap. unfold fresh_specs in Hs.
    apply list_elem_of_In, List.filter_In in Hs as [_ Hs]. apply negb_true_iff, contains_false in Hs. done.
  - unfold fresh_specs. clear Hcol Hdeps. unfold spec_ids in Hnd.
    induction unique as [|s l IH]; simpl; [constructor|]. apply NoDup_cons in Hnd as [Hs Hl].
    destruct (negb _); simpl; [|by apply IH]. apply NoDup_cons. split; [|by apply IH].
    intros (t & He & Ht)%list_elem_of_fmap. apply Hs, list_elem_of_fmap. exists t.
    split; [done|]. by apply list_elem_of_In, List.filter_In in Ht as [?%list_elem_of_In _].
Qed.

Lemma seed_spec_dep s d : s ∈ unique → d ∈ ns_depends_on s → d ∈ ids g ++ map tn_id work.
Proof.
  intros Hs Hd. apply elem_of_app.
  destruct (check_deps_ok _ _ _ Hdeps (default "" (ns_id s)) (ns_depends_on s) d) as [Hk|?].
  - apply (list_elem_of_fmap_2 (λ s, (default "" (ns_id s), ns_depends_on s))). done.
  - done.
  - unfold spec_ids in Hk. apply list_elem_of_fmap in Hk as (t & -> & Ht).
    destruct (contains g (default "" (ns_id t))) eqn:E; [left; by apply contains_true|right].
    rewrite spec_nodes_ids. apply (list_elem_of_fmap_2 (λ s, default "" (ns_id s))).
    unfold fresh_specs. apply list_elem_of_In, List.filter_In. rewrite E.
    split; [by apply list_elem_of_In|done].
  - by left.
Qed.

Lemma seed_upd_field {A} (π : TaskNode → A) n :
  (∀ l x, π (refresh_gate l x) = π x) → π (upd n) = π n.
Proof.
  intros H. unfold root_upd. destruct (find_first _ _); [by apply (upd_at_field π)|done].
Qed.

(** Only the root gate gains dependencies, and only root work. *)
Lemma seed_upd_deps n d : n ∈ g_nodes g → d ∈ tn_depends_on (upd n) →
  d ∈ tn_depends_on n ∨ (is_root_gate_of g n ∧ d ∈ roots).
Proof.
  intros Hn. unfold root_upd. destruct (find_first _ _) as [gt|] eqn:Hf; [|by left].
  apply find_root_gate in Hf as (Hgt & Hgate & Hp).
  destruct (decide (tn_id n = tn_id gt)) as [He|]; [|rewrite upd_at_ne by done; by left].
  rewrite upd_at_eq by done. destruct (refresh_fields roots n) as (_ & _ & _ & _ & ->).
  rewrite elem_of_push_missing. intros [?|?]; [by left|right].
  rewrite (ids_node_unique g n gt (si_nodup Hg) Hn Hgt He). done.
Qed.

Lemma seed_upd_covers gt d : is_root_gate_of g gt → d ∈ roots → d ∈ tn_depends_on (upd gt).
Proof.
  intros (Hgt & Hgate & Hp) Hd. unfold root_upd. destruct (find_first _ _) as [gt'|] eqn:Hf.
  - apply find_root_gate in Hf as (Hgt' & Hgate' & Hp').
    rewrite upd_at_eq by (apply (si_gate_unique Hg); [done..|congruence]).
    destruct (refresh_fields roots gt) as (_ & _ & _ & _ & ->).
    apply elem_of_push_missing. by right.
  - by destruct (find_root_gate_None _ _ Hf Hgt Hgate).
Qed.

Lemma elem_of_roots d : d ∈ roots ↔
  ∃ c, (c ∈ g_nodes g ∨ c ∈ work) ∧ tn_id c = d ∧ tn_is_gate c = false ∧ tn_parent c = None.
Proof.
  rewrite elem_of_app, elem_of_root_ids, list_elem_of_fmap. split.
  - intros [(c & ? & ? & ? & ?)|(c & -> & Hc)]; [eauto 10|].
    destruct (seed_work_elem c Hc) as (? & ? & _). eauto 10.
  - intros (c & [Hc|Hc] & <- & ? & ?); eauto 10.
Qed.
Lemma seed_roots_nodup : NoDup roots.
Proof.
  pose proof seed_nodup as Hnd. apply NoDup_app in Hnd as (Hi & Hd & Hw).
  apply NoDup_app. split_and!; [|intros x Hx; apply Hd|done].
  - unfold root_ids. clear Hd. unfold ids in Hi. induction (g_nodes g) as [|n l IH]; simpl; [constructor|].
    apply NoDup_cons in Hi as [Hn Hl]. destruct (is_root_work n); simpl; [|by apply IH].
    apply NoDup_cons. split; [|by apply IH]. intros (m & He & Hm)%list_elem_of_fmap.
    apply Hn, list_elem_of_fmap. exists m. split; [done|].
    by apply list_elem_of_In, List.filter_In in Hm as [?%list_elem_of_In _].
  - apply elem_of_root_ids in Hx as (c & Hc & <- & _). apply elem_of_ids. eauto.
Qed.

(** At most one new root gate, only when the graph has none. *)
Definition root_gates_ok (gates : list TaskNode) : Prop :=
  gates = [] ∨
  ∃ gt, gates = [gt] ∧ tn_is_gate gt = true ∧ tn_parent gt = None ∧ tn_expanded gt = false
    ∧ tn_depends_on gt = roots ∧ tn_id gt ∉ ids g ++ map tn_id work
    ∧ find_first is_root_gate (g_nodes g) = None.

Section Gates.
Context (gates : list TaskNode) (Hgs : root_gates_ok gates).

Lemma seed_gate_elem gt : gt ∈ gates →
  tn_parent gt = None ∧ tn_is_gate gt = true ∧ tn_expanded gt = false ∧ tn_depends_on gt = roots.
Proof.
  intros Hgt. destruct Hgs as [E|(x & E & ? & ? & ? & ? & _)]; rewrite E in Hgt;
    [by apply elem_of_nil in Hgt|]. by apply list_elem_of_singleton in Hgt as ->.
Qed.

Lemma seed_all_nodup : NoDup (ids g ++ map tn_id (work ++ gates)).
Proof.
  rewrite map_app, app_assoc. apply NoDup_app. split_and!; [apply seed_nodup|..].
  - intros x Hx Hin. destruct Hgs as [E|(gt & E & _ & _ & _ & _ & Hni & _)]; rewrite E in Hin;
      [by apply elem_of_nil in Hin|]. by apply list_elem_of_singleton in Hin as ->.
  - destruct Hgs as [->|(gt & -> & _)]; [constructor|apply NoDup_singleton].
Qed.

Lemma seed_closed m d : m ∈ g_nodes (grown g upd work gates) → d ∈ tn_depends_on m →
  d ∈ ids g ++ map tn_id (work ++ gates).
Proof.
  assert (∀ x, x ∈ roots → x ∈ ids g ++ map tn_id work) as Hr.
  { intros x [(c & ? & <- & _)%elem_of_root_ids|?]%elem_of_app; apply elem_of_app; [left|by right].
    apply elem_of_ids. eauto. }
  intros Hm Hd. rewrite map_app, app_assoc, elem_of_app. left.
  apply elem_of_grown in Hm as [(m0 & Hm & ->)|[Hm|Hm]].
  - apply seed_upd_deps in Hd as [Hd|[_ Hd]]; [|by apply Hr|done].
    apply elem_of_app. left. by eapply (si_closed Hg).
  - apply elem_of_spec_nodes in Hm as (s & Hs & ->). simpl in Hd. rewrite elem_of_dedup_first in Hd.
    eapply seed_spec_dep; [|done].
    by apply list_elem_of_In, List.filter_In in Hs as [?%list_elem_of_In _].
  - destruct (seed_gate_elem m Hm) as (_ & _ & _ & E). rewrite E in Hd. by apply Hr.
Qed.

Lemma seed_deps_nodup m : m ∈ g_nodes (grown g upd work gates) → NoDup (tn_depends_on m).
Proof.
  intros [(m0 & Hm & ->)|[Hm|Hm]]%elem_of_grown.
  - pose proof (si_deps_nodup Hg m0 Hm) as Hnd. unfold root_upd.
    destruct (find_first _ _) as [gt|]; [|done]. unfold upd_at.
    destruct (has_id _ _); [|done].
    destruct (refresh_fields roots m0) as (_ & _ & _ & _ & ->). by apply NoDup_push_missing.
  - apply elem_of_spec_nodes in Hm as (s & Hs & ->). apply NoDup_dedup_first.
  - destruct (seed_gate_elem m Hm) as (_ & _ & _ & ->). apply seed_roots_nodup.
Qed.

Lemma seed_growth :
  acyclic (grown g upd work gates) →
  (g_mode g = Deep → work ≠ [] → gates ≠ [] ∨ ∃ gt, is_root_gate_of g gt) →
  (g_mode g = Light → gates = []) →
  growth g None upd work gates.
Proof.
  intros Hac Hdeep Hlight.
  assert (∀ m, tn_expanded (upd m) = tn_expanded m) as Hexp
    by (intros; apply seed_upd_field; intros; apply refresh_fields).
  constructor; try done.
  - apply seed_all_nodup.
  - apply seed_closed.
  - apply seed_deps_nodup.
  - intros m. apply seed_upd_field. intros; apply refresh_fields.
  - intros m. apply seed_upd_field. intros; apply refresh_fields.
  - intros m. apply seed_upd_field. intros; apply refresh_fields.
  - intros m d Hd. unfold root_upd. destruct (find_first _ _); [|done]. unfold upd_at.
    destruct (has_id _ _); [|done]. destruct (refresh_fields roots m) as (_ & _ & _ & _ & ->).
    apply elem_of_push_missing. by left.
  - intros m Hm. by rewrite Hexp.
  - intros m Hm. rewrite Hexp. by left.
  - apply seed_work_elem.
  - intros m Hm. by destruct (seed_gate_elem m Hm) as (? & ? & ? & _).
  - destruct Hgs as [->|(? & -> & _)]; simpl; lia.
  - intros Hne m Hm Hgate. destruct Hgs as [?|(_ & _ & _ & _ & _ & _ & _ & Hf)]; [done|].
    by eapply find_root_gate_None.
  - intros gt c Hgt Hc Hcg Hcp. destruct (seed_gate_elem gt Hgt) as (_ & _ & _ & ->).
    apply elem_of_roots. eauto 10.
  - intros gt d Hgt Hd. destruct (seed_gate_elem gt Hgt) as (_ & _ & _ & E). rewrite E in Hd.
    by apply elem_of_roots.
  - intros gt c Hgt Hgate Hp Hc. apply seed_upd_covers; [done|].
    apply elem_of_app. right. by apply (list_elem_of_fmap_2 tn_id).
  - intros gt d Hgt Hgate [?|[Hrg Hd]]%seed_upd_deps; [by left| |done].
    apply elem_of_app in Hd as [(c & Hc & <- & Hcg & Hcp)%elem_of_root_ids|Hd].
    + left. apply (si_cover Hg); [done..|]. destruct Hrg as (_ & _ & ->). done.
    + right. split; [apply Hrg|]. apply list_elem_of_fmap in Hd as (c & -> & ?). eauto.
Qed.
End Gates.
End Seed.

Lemma refresh_gate_nil n : refresh_gate [] n = n.
Proof. unfold refresh_gate. simpl. by destruct n. Qed.

Lemma root_upd_id g n : root_upd g [] n = n.
Proof.
  unfold root_upd. destruct (find_first _ _); [|done]. unfold upd_at.
  destruct (has_id _ _); [apply refresh_gate_nil|done].
Qed.

Lemma grown_id g upd work gates :
  (∀ n, upd n = n) → grown g upd work gates = append_nodes g (work ++ gates).
Proof. intros Hu. unfold grown, append_nodes. f_equal. rewrite (map_ext _ _ Hu), map_id. done. Qed.

Lemma seed_work_root g unique n :
  n ∈ spec_nodes (fresh_specs g unique) None OSeed → is_root_work n = true.
Proof.
  intros Hn. apply seed_work_elem in Hn as (Hp & Hgt & _). unfold is_root_work. by rewrite Hp, Hgt.
Qed.

Lemma seed_work_no_gate g unique :
  find_first is_root_gate (spec_nodes (fresh_specs g unique) None OSeed) = None.
Proof.
  destruct (find_first _ _) eqn:Ew; [|done].
  apply find_first_Some in Ew as [Hin Hb]. apply seed_work_elem in Hin as (_ & Hgf & _).
  unfold is_root_gate in Hb. by rewrite Hgf in Hb.
Qed.

(** [ensure_root_gate] after staging, as a growth: the root gate is refreshed,
    created, or there is no root work at all. *)
Lemma ensure_root_gate_grown g specs unique :
  struct_inv g → collapse_specs [] specs = Ok unique →
  let work := spec_nodes (fresh_specs g unique) None OSeed in
  let upd := root_upd g (root_ids g ++ map tn_id work) in
  ∃ gates, root_gates_ok g unique gates
    ∧ ensure_root_gate (append_nodes g work) = grown g upd work gates
    ∧ (∀ gt, gt ∈ gates → tn_status gt = Queued ∧ tn_owner gt = None)
    ∧ (work ≠ [] → gates ≠ [] ∨ ∃ gt, is_root_gate_of g gt).
Proof.
  intros Hg Hcol work upd. unfold ensure_root_gate.
  rewrite root_ids_append by apply seed_work_root. fold work.
  destruct (root_ids g ++ map tn_id work) as [|r rs] eqn:Hroots.
  { exists []. split_and!; [by left| |by intros ? ?%elem_of_nil|].
    - unfold upd. rewrite grown_id, app_nil_r; [done|]. apply root_upd_id.
    - intros Hw. exfalso. apply Hw. apply app_eq_nil in Hroots as [_ Hr]. by destruct work. }
  unfold upd. rewrite <- Hroots. simpl. rewrite find_first_app.
  unfold work at 1. rewrite seed_work_no_gate. unfold root_upd.
  destruct (find_first is_root_gate (g_nodes g)) as [gt|] eqn:Hf.
  - pose proof (find_root_gate _ _ Hf) as Hrg.
    exists []. split_and!; [by left| |by intros ? ?%elem_of_nil|intros; right; eauto].
    apply update_append; [by eapply seed_nodup|]. apply elem_of_ids. exists gt. split; [apply Hrg|done].
  - rewrite push_append. match goal with |- context [work ++ [?n]] => exists [n] end. split_and!.
    + right. eexists. split; [done|]. split_and!; try done. simpl.
      rewrite <- ids_append. apply unique_gate_id_not_in.
    + by rewrite grown_id.
    + by intros gt ->%list_elem_of_singleton.
    + by left.
Qed.

(** What a successful seed does to the graph. *)
Lemma seed_grown specs g g' :
  struct_inv g → seed specs g = (Ok tt, g') →
  ∃ unique gates,
    let work := spec_nodes (fresh_specs g unique) None OSeed in
    let upd := root_upd g (root_ids g ++ map tn_id work) in
    collapse_specs [] specs = Ok unique
    ∧ (∀ s n, s ∈ unique → get g (default "" (ns_id s)) = Some n → seed_spec_matches_existing g n s = true)
    ∧ (∀ gt, gt ∈ gates → tn_status gt = Queued ∧ tn_owner gt = None)
    ∧ g' = grown g upd work gates ∧ growth g None upd work gates.
Proof.
  intros Hg Hop. destruct (seed_ok _ _ _ Hop) as (unique & Hcol & Hdeps & Hm & Heq & Hac).
  unfold seed_result in Heq. destruct (g_mode g) eqn:Hmode; cbn [requires_gates] in Heq.
  - destruct (ensure_root_gate_grown g specs unique Hg Hcol) as (gates & Hgs & E & Hq & Hd).
    rewrite E in Heq. exists unique, gates. split_and!; try done. subst g'.
    eapply seed_growth; try done. congruence.
  - assert (∀ n, root_upd g (root_ids g ++ map tn_id (spec_nodes (fresh_specs g unique) None OSeed)) n = n)
      as Hu.
    { intros n. unfold root_upd. destruct (find_first _ _) as [gt|] eqn:Hf; [|done].
      apply find_root_gate in Hf as (Hgt & Hgate & _). by rewrite (si_light Hg Hmode gt Hgt) in Hgate. }
    exists unique, []. split_and!; try done; [by intros ? ?%elem_of_nil|by rewrite grown_id, app_nil_r|].
    eapply seed_growth; try done; [by left| |congruence]. by rewrite grown_id, app_nil_r, <- Heq.
Qed.

(** ** Every step preserves the structural invariant *)

Lemma shape_complete a n : shape (set_output (Some a) (set_status Done n)) = shape n.
Proof. done. Qed.

Lemma step_shapes g g' :
  dag_step g g' → same_shapes g g' ∨ (∃ specs, seed specs g = (Ok tt, g'))
  ∨ (∃ id actor cs out, expand_node id actor cs g = (Ok out, g'))
  ∨ (∃ id actor specs l, inject_from_gate id actor specs g = (Ok l, g')).
Proof.
  destruct 1 as [specs|id w g g' H|id actor cs out|id actor a g g' H|id actor g g' H
                |id actor specs l|id g g' H]; eauto 10; left.
  - apply dispatch_ok in H as (n & _ & _ & _ & ->). by apply same_shapes_update.
  - apply complete_node_ok in H as (n & _ & _ & _ & _ & _ & ->). by apply same_shapes_update.
  - apply fail_node_ok in H as (n & _ & _ & _ & ->). by apply same_shapes_update.
  - apply requeue_failed_ok in H as (n & _ & _ & ->). by apply same_shapes_update.
Qed.

Lemma struct_inv_step g g' : struct_inv g → dag_step g g' → struct_inv g'.
Proof.
  intros Hg [Hs|[(specs & H)|[(id & actor & cs & out & H)|(id & actor & specs & l & H)]]]%step_shapes.
  - by eapply struct_inv_same_shapes.
  - destruct (seed_grown _ _ _ Hg H) as (u & gates & _ & _ & _ & -> & Hgr). by eapply struct_inv_grown.
  - destruct (expand_grown _ _ _ _ _ _ Hg H) as (n & k & gates & _ & _ & _ & _ & _ & _ & _ & -> & Hgr).
    by eapply struct_inv_grown.
  - destruct (inject_grown _ _ _ _ _ _ Hg H) as (gt & _ & _ & _ & _ & _ & _ & _ & -> & Hgr).
    by eapply struct_inv_grown.
Qed.

Lemma struct_inv_rtc g g' : struct_inv g → rtc dag_step g g' → struct_inv g'.
Proof. intros Hg Hr. induction Hr; eauto using struct_inv_step. Qed.

Lemma struct_inv_reachable m g : reachable m g → struct_inv g.
Proof. apply struct_inv_rtc, struct_inv_new. Qed.
