(* ===== verification/DagSafety.v ===== *)
(** * Execution invariant of the task graph

    On top of the structural invariant of DagInv.v: which statuses, owners and
    outputs a reachable graph can show.  The central clause says that a node
    that has left the queue was only allowed to do so once everything it
    depends on was [Done], and that no operation takes that back; the root
    gate, which later seeds may widen while it runs, is held to it at
    completion. *)

From stdpp Require Import base list strings gmap relations.
From S2P Require Import Prelude RustString Confidence Kahn Dag DagCycle Mention DagOps Schedule DagInv DagGrow.

Open Scope string_scope.
Open Scope nat_scope.
Open Scope list_scope.

(** ** The invariant *)

(** The status, owner and output of a node fit together. *)
Record node_ok (n : TaskNode) : Prop := {
  no_queued : tn_status n = Queued → tn_owner n = None;
  no_running : tn_status n = Running → is_Some (tn_owner n);
  no_done : tn_status n = Done → is_Some (tn_output n) }.

(** Nodes that committed to their dependencies: what is [Done], and what is
    running or failed unless it is the plan-wide gate.  A seed widens that gate
    also while it runs, by work that is not done; it then runs, or has failed,
    with unfinished dependencies, but cannot complete before them. *)
Definition active (n : TaskNode) : Prop :=
  tn_status n = Done ∨ (tn_status n ≠ Queued ∧ is_root_gate n = false).

Record dyn_inv (g : TaskGraph) : Prop := {
  di_node : ∀ n, n ∈ g_nodes g → node_ok n;
  di_deps : ∀ n d, n ∈ g_nodes g → d ∈ g_nodes g → tn_id d ∈ tn_depends_on n → active n →
    tn_status d = Done }.

Arguments di_node {g}.
Arguments di_deps {g}.

Lemma dyn_inv_new m : dyn_inv (graph_new m).
Proof. constructor; simpl; by intros ? ?%elem_of_nil || (intros ? ? ?%elem_of_nil). Qed.

(** ** Everything leads to the root gate *)

Lemma is_root_gate_true n : is_root_gate n = true ↔ tn_is_gate n = true ∧ tn_parent n = None.
Proof. unfold is_root_gate. rewrite andb_true_iff, bool_decide_eq_true. done. Qed.

Lemma depends_of g n d :
  n ∈ g_nodes g → d ∈ g_nodes g → tn_id d ∈ tn_depends_on n → depends g (tn_id d) (tn_id n).
Proof. intros Hn Hd Hin. split; [apply elem_of_ids; eauto|]. eauto. Qed.

Lemma not_self_dependent g n : acyclic g → n ∈ g_nodes g → tn_id n ∉ tn_depends_on n.
Proof. intros Hac Hn Hd. apply (Hac (tn_id n)), tc_once, depends_of; done. Qed.

Section Root.
Context (g : TaskGraph) (Hg : struct_inv g).

(** Every node other than the root gate is upstream of it. *)
Lemma upstream_of_root gt n :
  is_root_gate_of g gt → n ∈ g_nodes g → n ≠ gt → tc (depends g) (tn_id n) (tn_id gt).
Proof.
  intros (Hgt & Hgate & Hpar). destruct (si_rank Hg) as [rank Hr].
  remember (rank (tn_id n)) as k eqn:Hk. revert n Hk.
  induction k as [k IH] using lt_wf_ind. intros n -> Hn Hne. destruct (tn_parent n) as [p|] eqn:Hp.
  - destruct (Hr n p Hn Hp) as (Hlt & pn & Hpn & <- & Hex).
    assert (depends g (tn_id n) (tn_id pn)) as Hd by (apply depends_of; [done..|by apply (si_join Hg)]).
    eapply tc_l; [exact Hd|]. eapply IH; [exact Hlt|done..|]. intros ->.
    by rewrite (si_gate_leaf Hg gt) in Hex.
  - apply tc_once, depends_of; [done..|]. destruct (tn_is_gate n) eqn:Hng.
    + exfalso. apply Hne, (ids_node_unique g); [apply Hg|done..|].
      apply (si_gate_unique Hg); congruence.
    + apply (si_cover Hg); congruence.
Qed.

Lemma nobody_waits_for_root gt n : is_root_gate_of g gt → n ∈ g_nodes g → tn_id gt ∉ tn_depends_on n.
Proof.
  intros Hgt Hn Hd. destruct (decide (n = gt)) as [->|Hne].
  - by apply (not_self_dependent g gt) in Hd; [|apply Hg|].
  - apply (si_acyclic Hg (tn_id gt)). eapply tc_l; [|by apply upstream_of_root].
    apply depends_of; [done|apply Hgt|done].
Qed.
End Root.

(** ** Preservation *)

(** In-place updates of a node that is not [Done]. *)
Lemma dyn_inv_update id f g n :
  struct_inv g → dyn_inv g → get g id = Some n → tn_status n ≠ Done →
  (∀ m, shape (f m) = shape m) → node_ok (f n) →
  (active (f n) → ∀ d, d ∈ g_nodes g → tn_id d ∈ tn_depends_on n → tn_status d = Done) →
  dyn_inv (update_node id f g).
Proof.
  intros Hg Hd Hget Hns Hshape Hok Hact. apply get_Some in Hget as [Hn Hid].
  assert (keeps_id f) as Hk by (intros m; by injection (Hshape m)).
  assert (∀ m, m ∈ g_nodes g → tn_id m = id → m = n) as Huniq.
  { intros m Hm He. apply (ids_node_unique g); [apply Hg|done..|congruence]. }
  assert (tn_depends_on (f n) = tn_depends_on n) as Hdeps by (by injection (Hshape n)).
  constructor.
  - intros m. rewrite elem_of_update_node by (done || apply Hg).
    intros [[Hm _]|(m0 & Hm & He & ->)]; [by apply Hd|]. by rewrite (Huniq m0).
  - intros m d. rewrite !elem_of_update_node by (done || apply Hg).
    intros [[Hm Hmid]|(m0 & Hm & He & ->)] [[Hd' Hdid]|(d0 & Hd' & He' & ->)] Hin Ha.
    + by apply (di_deps Hd m d).
    + rewrite Hk in Hin. rewrite (Huniq d0) in Hin by done.
      destruct Hns. by apply (di_deps Hd m n).
    + rewrite (Huniq m0) in * by done. apply Hact; [done..|]. by rewrite <- Hdeps.
    + rewrite (Huniq m0), (Huniq d0) in * by done. rewrite Hk, Hdeps in Hin.
      by apply (not_self_dependent g n) in Hin; [|apply Hg|].
Qed.

Lemma dyn_inv_grown g par upd work gates :
  struct_inv g → dyn_inv g → growth g par upd work gates →
  (∀ x, x ∈ work ∨ x ∈ gates → tn_status x = Queued ∧ tn_owner x = None) →
  (∀ m, m ∈ g_nodes g → node_ok (upd m)) →
  (∀ m, m ∈ g_nodes g → active (upd m) →
     active m ∧ ∀ d, d ∈ tn_depends_on (upd m) → d ∈ tn_depends_on m) →
  (∀ m, m ∈ g_nodes g → tn_status m = Done →
     tn_status (upd m) = Done ∨ ∀ n, n ∈ g_nodes g → tn_id m ∉ tn_depends_on n) →
  dyn_inv (grown g upd work gates).
Proof.
  intros Hg Hd Hgr Hnew Hok Hact Hdone. constructor.
  - intros n [(m & Hm & ->)|Hx]%elem_of_grown; [by apply Hok|].
    destruct (Hnew n Hx) as [Hs Ho]. constructor; rewrite Hs, ?Ho; done.
  - intros n d Hn Hd' Hin Ha. apply elem_of_grown in Hn as [(m & Hm & ->)|Hx].
    2: { destruct (Hnew n Hx) as [Hs _]. unfold active in Ha. rewrite Hs in Ha. by destruct Ha as [?|[? _]]. }
    destruct (Hact m Hm Ha) as [Ham Hsub]. apply Hsub in Hin.
    apply elem_of_grown in Hd' as [(d0 & Hd' & ->)|Hx].
    + rewrite (gr_id Hgr) in Hin. assert (tn_status d0 = Done) as Hdd by (by apply (di_deps Hd m d0)).
      destruct (Hdone d0 Hd' Hdd) as [?|Hno]; [done|]. by destruct (Hno m Hm).
    + pose proof (si_closed Hg m _ Hm Hin) as (y & Hy & He)%elem_of_ids.
      by destruct (grown_old_ne g par upd work gates Hgr y d Hy Hx).
Qed.

Lemma node_ok_queued n : tn_status n = Queued → tn_owner n = None → node_ok n.
Proof. intros Hs Ho. constructor; rewrite Hs, ?Ho; done. Qed.

Lemma not_active_queued n : tn_status n = Queued → ¬ active n.
Proof. intros Hs [H|[H _]]; congruence. Qed.

Lemma spec_nodes_queued x specs parent origin :
  x ∈ spec_nodes specs parent origin → tn_status x = Queued ∧ tn_owner x = None.
Proof. intros (s & _ & ->)%elem_of_spec_nodes. done. Qed.

Lemma dyn_inv_expand id actor cs g out g' :
  struct_inv g → dyn_inv g → expand_node id actor cs g = (Ok out, g') → dyn_inv g'.
Proof.
  intros Hg Hd H. destruct (expand_grown _ _ _ _ _ _ Hg H) as
    (n & kids & gates & Hn & Hid & Hrun & _ & _ & Hq & _ & -> & Hgr).
  assert (∀ m, m ∈ g_nodes g → tn_id m = id → m = n) as Huniq.
  { intros m Hm He. apply (ids_node_unique g); [apply Hg|done..|congruence]. }
  eapply dyn_inv_grown; [done..| | | |].
  - intros x [?%spec_nodes_queued|?]; auto.
  - intros m Hm. unfold upd_at. destruct (has_id id m); [|by apply Hd].
    destruct (flip_fields (kids ++ map tn_id gates) m) as (_ & _ & _ & _ & _ & ? & ?).
    by apply node_ok_queued.
  - intros m Hm. unfold upd_at. destruct (has_id id m); [|done].
    destruct (flip_fields (kids ++ map tn_id gates) m) as (_ & _ & _ & _ & _ & Hs & _).
    by intros []%not_active_queued.
  - intros m Hm Hdone. left. rewrite upd_at_ne; [done|]. intros He.
    rewrite (Huniq m Hm He) in Hdone. congruence.
Qed.

Lemma inject_parent_queued g gate p :
  struct_inv g → dyn_inv g → gate ∈ g_nodes g → tn_status gate ≠ Done → p ∈ g_nodes g →
  tn_parent gate = Some (tn_id p) → tn_status p = Queued.
Proof.
  intros Hg Hd Hgt Hs Hp Hpar. apply dec_stable. intros Hq. apply Hs.
  apply (di_deps Hd p gate); [done..|by apply (si_join Hg)|]. right. split; [done|].
  destruct (is_root_gate p) eqn:Hr; [|done]. apply is_root_gate_true in Hr as [Hpg _].
  destruct (si_rank Hg) as [rank Hrk]. destruct (Hrk gate _ Hgt Hpar) as (_ & pn & Hpn & He & Hex).
  rewrite (ids_node_unique g pn p) in Hex by (done || apply Hg).
  by rewrite (si_gate_leaf Hg p Hp Hpg) in Hex.
Qed.

Lemma dyn_inv_inject gid actor specs g new_ids g' :
  struct_inv g → dyn_inv g → inject_from_gate gid actor specs g = (Ok new_ids, g') → dyn_inv g'.
Proof.
  intros Hg Hd H. destruct (inject_grown _ _ _ _ _ _ Hg H) as
    (gate & Hgt & Hid & Hrun & _ & Hgate & _ & _ & -> & Hgr).
  assert (∀ m, m ∈ g_nodes g → tn_id m = gid → m = gate) as Huniq.
  { intros m Hm He. apply (ids_node_unique g); [apply Hg|done..|congruence]. }
  (* an updated node is queued, or untouched *)
  assert (∀ m, m ∈ g_nodes g → let m' := inject_upd gid (tn_parent gate) new_ids m in
    m' = m ∨ (tn_status m' = Queued ∧ tn_owner m' = None ∧ tn_status m ≠ Done)) as Hupd.
  { intros m Hm m'. subst m'. unfold inject_upd. destruct (decide (tn_id m = gid)) as [He|He].
    - right. rewrite (Huniq m Hm He), Hrun, upd_at_eq by done.
      destruct (tn_parent gate) as [p|]; [|done]. unfold upd_at. by destruct (has_id p _).
    - rewrite (upd_at_ne gid) by done. destruct (tn_parent gate) as [p|] eqn:Hp; [|by left].
      destruct (decide (tn_id m = p)) as [<-|Hmp]; [|left; by rewrite upd_at_ne].
      right. rewrite upd_at_eq by done.
      assert (tn_status m = Queued) as Hq by (apply (inject_parent_queued g gate); congruence).
      split_and!; [done|by apply (no_queued _ (di_node Hd m Hm))|congruence]. }
  eapply dyn_inv_grown; [done..| | | |].
  - intros x [?%spec_nodes_queued|?%elem_of_nil]; done.
  - intros m Hm. destruct (Hupd m Hm) as [->|(? & ? & _)]; [by apply Hd|by apply node_ok_queued].
  - intros m Hm Ha. destruct (Hupd m Hm) as [E|(? & ? & _)]; [by rewrite E in *|by apply not_active_queued in Ha].
  - intros m Hm Hdone. left. destruct (Hupd m Hm) as [->|(_ & _ & ?)]; done.
Qed.

(** Refreshing the root gate: a widened terminal gate is queued again; one
    that still covers the roots is unchanged. *)
Lemma refresh_cases roots gt :
  let gt' := refresh_gate roots gt in
  (∀ d, d ∈ roots → d ∈ tn_depends_on gt) ∧ gt' = set_depends_on (push_missing (tn_depends_on gt) roots) gt
  ∨ (tn_status gt' = Queued ∧ tn_owner gt' = None)
  ∨ (is_terminal gt = false ∧ gt' = set_depends_on (push_missing (tn_depends_on gt) roots) gt).
Proof.
  simpl. unfold refresh_gate.
  destruct (forallb _ _) eqn:Hf; [left|right; destruct (is_terminal gt); [by left|by right]].
  split; [|done]. intros d Hd%list_elem_of_In. rewrite List.forallb_forall in Hf.
  apply Hf in Hd. by bool_hyps.
Qed.

Lemma refresh_root_ok roots gt :
  is_root_gate gt = true → node_ok gt →
  let gt' := refresh_gate roots gt in
  node_ok gt' ∧ (active gt' → active gt ∧ ∀ d, d ∈ tn_depends_on gt' → d ∈ tn_depends_on gt).
Proof.
  intros Hr Hok gt'. destruct (refresh_cases roots gt) as [[Hsub E]|[[Hs Ho]|[Ht E]]].
  - subst gt'. rewrite E. split; [by destruct Hok|]. intros Ha. split; [done|].
    intros d [?|?]%elem_of_push_missing; auto.
  - split; [by apply node_ok_queued|by intros []%not_active_queued].
  - subst gt'. rewrite E. split; [by destruct Hok|]. intros [Ha|[_ Ha]].
    + unfold is_terminal in Ht. simpl in Ha. by rewrite Ha in Ht.
    + unfold is_root_gate in *. simpl in Ha. congruence.
Qed.

Lemma dyn_inv_seed specs g g' :
  struct_inv g → dyn_inv g → seed specs g = (Ok tt, g') → dyn_inv g'.
Proof.
  intros Hg Hd H. destruct (seed_grown _ _ _ Hg H) as (u & gates & _ & _ & Hq & -> & Hgr).
  set (roots := root_ids g ++ _) in *.
  (* only the root gate is touched *)
  assert (∀ m, m ∈ g_nodes g → root_upd g roots m = m ∨
            (is_root_gate m = true ∧ root_upd g roots m = refresh_gate roots m)) as Hupd.
  { intros m Hm. unfold root_upd. destruct (find_first _ _) as [gt|] eqn:Hf; [|by left].
    destruct (decide (tn_id m = tn_id gt)) as [He|He]; [right|left; by rewrite upd_at_ne].
    rewrite upd_at_eq by done. split; [|done].
    apply find_first_Some in Hf as [Hgt Hr]. by rewrite (ids_node_unique g m gt) by (done || apply Hg). }
  eapply dyn_inv_grown; [done..| | | |].
  - intros x [?%spec_nodes_queued|?]; auto.
  - intros m Hm. destruct (Hupd m Hm) as [->|[Hr ->]]; [by apply Hd|].
    by apply refresh_root_ok, Hd.
  - intros m Hm. destruct (Hupd m Hm) as [->|[Hr ->]]; [done|]. by apply refresh_root_ok, Hd.
  - intros m Hm Hdone. destruct (Hupd m Hm) as [->|[Hr _]]; [by left|]. right. intros n Hn.
    apply is_root_gate_true in Hr as [? ?]. by apply (nobody_waits_for_root g).
Qed.

(** A passing gate in deep mode has its whole scope [Done]. *)
Lemma gate_pass_scope_done g id a gt d :
  struct_inv g → get g id = Some gt → tn_is_gate gt = true → validate_gate_pass g id a = Ok tt →
  d ∈ g_nodes g → tn_id d ∈ tn_depends_on gt → tn_status d = Done.
Proof.
  intros Hg Hget Hgate Hv Hd Hin. pose proof (get_Some _ _ _ Hget) as [Hgt _].
  destruct (si_gate_deps Hg gt d Hgt Hd Hgate Hin) as [Hdg _].
  assert (d ∈ gate_audit_scope g gt) as Hsc.
  { unfold gate_audit_scope. apply list_elem_of_In, List.filter_In. split; [|by rewrite Hdg].
    apply list_elem_of_In, list_elem_of_omap. exists (tn_id d). split; [done|].
    apply get_of_elem; [apply Hg|done]. }
  unfold validate_gate_pass in Hv. rewrite Hget in Hv.
  rewrite bool_decide_false in Hv by (by intros E; rewrite E in Hsc; apply elem_of_nil in Hsc).
  destruct (bool_decide (map tn_id _ ≠ [])) eqn:Hp; [done|]. bool_hyps. apply dec_stable in Hp.
  apply dec_stable. intros Hnd.
  assert (tn_id d ∈ map tn_id (List.filter (λ n, negb (is_done n)) (gate_audit_scope g gt))) as Hx.
  { apply (list_elem_of_fmap_2 tn_id), list_elem_of_In, List.filter_In. split; [by apply list_elem_of_In|].
    unfold is_done. by rewrite bool_decide_false. }
  rewrite Hp in Hx. by apply elem_of_nil in Hx.
Qed.

Lemma deps_satisfied_done g n d :
  struct_inv g → deps_satisfied g n = true → d ∈ g_nodes g → tn_id d ∈ tn_depends_on n →
  tn_status d = Done.
Proof.
  intros Hg Hs Hd Hin. unfold deps_satisfied in Hs. rewrite List.forallb_forall in Hs.
  apply list_elem_of_In in Hin. apply Hs in Hin.
  rewrite (get_of_elem g d) in Hin by (done || apply Hg). unfold is_done in Hin. by bool_hyps.
Qed.

Lemma dyn_inv_step g g' : struct_inv g → dyn_inv g → dag_step g g' → dyn_inv g'.
Proof.
  intros Hg Hd Hstep. revert Hg Hd.
  destruct Hstep as [specs g g' H|id w g g' H|id actor cs out g g' H|id actor a g g' H
                    |id actor g g' H|id actor specs l g g' H|id g g' H]; intros Hg Hd.
  - by eapply dyn_inv_seed.
  - apply dispatch_ok in H as (n & Hget & Hs & Hsat & ->).
    eapply dyn_inv_update; [done..|congruence|done| |].
    + constructor; simpl; [done|eauto|done].
    + intros _ d Hd' Hin. by eapply deps_satisfied_done.
  - by eapply dyn_inv_expand.
  - apply complete_node_ok in H as (n & Hget & Ho & Hs & Hv & Hp & ->).
    eapply dyn_inv_update; [done..|congruence|done| |].
    + constructor; simpl; [done|done|eauto].
    + intros _ d Hd' Hin. pose proof (get_Some _ _ _ Hget) as [Hn _].
      destruct (is_root_gate n) eqn:Hr.
      * apply is_root_gate_true in Hr as [Hgate _]. eapply gate_pass_scope_done; try done.
        apply Hp; [done|]. destruct (g_mode g) eqn:Hm; [done|].
        by rewrite (si_light Hg Hm n Hn) in Hgate.
      * eapply (di_deps Hd n d); try done. right. split; [congruence|done].
  - apply fail_node_ok in H as (n & Hget & Ho & Hs & ->).
    eapply dyn_inv_update; [done..|congruence|done|by constructor|].
    intros [Ha|[_ Ha]] d Hd' Hin; [done|]. pose proof (get_Some _ _ _ Hget) as [Hn _].
    eapply (di_deps Hd n d); try done. right. split; [congruence|done].
  - by eapply dyn_inv_inject.
  - apply requeue_failed_ok in H as (n & Hget & Hs & ->).
    eapply dyn_inv_update; [done..|congruence|done|by apply node_ok_queued|].
    by intros []%not_active_queued.
Qed.

Lemma dag_inv_reachable m g : reachable m g → struct_inv g ∧ dyn_inv g.
Proof.
  unfold reachable. intros Hr. assert (struct_inv (graph_new m) ∧ dyn_inv (graph_new m)) as H0
    by (split; [apply struct_inv_new|apply dyn_inv_new]).
  revert H0. induction Hr as [|x y z Hxy _ IH]; [done|]. intros [Hg Hd]. apply IH.
  split; [by eapply struct_inv_step|by eapply dyn_inv_step].
Qed.

Lemma step_mode g g' : struct_inv g → dag_step g g' → g_mode g' = g_mode g.
Proof.
  intros Hg [[H _]|[(specs & H)|[(id & actor & cs & out & H)|(id & actor & specs & l & H)]]]%step_shapes.
  - done.
  - by destruct (seed_grown _ _ _ Hg H) as (u & gates & _ & _ & _ & -> & _).
  - by destruct (expand_grown _ _ _ _ _ _ Hg H) as (n & k & gates & _ & _ & _ & _ & _ & _ & _ & -> & _).
  - by destruct (inject_grown _ _ _ _ _ _ Hg H) as (gt & _ & _ & _ & _ & _ & _ & _ & -> & _).
Qed.

Lemma reachable_mode m g : reachable m g → g_mode g = m.
Proof.
  unfold reachable. intros Hr. assert (struct_inv (graph_new m)) as H0 by apply struct_inv_new.
  change (g_mode g = g_mode (graph_new m)). revert H0.
  induction Hr as [|x y z Hxy _ IH]; [done|]. intros Hg.
  rewrite IH by (by eapply struct_inv_step). by apply step_mode.
Qed.

(** Done nodes have a closed upstream. *)
Lemma done_upstream g n v :
  struct_inv g → dyn_inv g → n ∈ g_nodes g → tn_status n = Done →
  tc (depends g) v (tn_id n) → ∃ d, d ∈ g_nodes g ∧ tn_id d = v ∧ tn_status d = Done.
Proof.
  intros Hg Hd Hn Hs Hr. remember (tn_id n) as w eqn:Hw. revert n Hn Hs Hw.
  assert (∀ x n, n ∈ g_nodes g → tn_status n = Done → depends g x (tn_id n) →
            ∃ d, d ∈ g_nodes g ∧ tn_id d = x ∧ tn_status d = Done) as Hone.
  { intros x n Hn Hs [Hx (m & Hm & He & Hin)]. rewrite (ids_node_unique g m n) in Hin by (done || apply Hg).
    apply elem_of_ids in Hx as (d & Hd' & <-). exists d. split_and!; [done..|].
    eapply (di_deps Hd n d); [done..|by left]. }
  induction Hr as [x y Hxy|x y z Hxy _ IH]; intros n Hn Hs ->; [by eapply Hone|].
  destruct (IH n Hn Hs eq_refl) as (d & Hd' & He & Hds). rewrite <- He in Hxy. by eapply Hone.
Qed.

(** ** Replaying a seed

    A coordinator that lost its acknowledgement sends the same specs again.
    This file shows why that is harmless at any later time: an accepted spec
    stays recognisable as the node it created, whatever the engine does to the
    graph in between. *)

(** [s] is accepted by [g]: the node of its id is the one it declares. *)
Definition accepted (g : TaskGraph) (s : NodeSpec) : Prop :=
  ∃ n, n ∈ g_nodes g ∧ tn_id n = default "" (ns_id s)
    ∧ tn_parent n = None ∧ tn_is_gate n = false ∧ origin_seedlike (tn_origin n) = true
    ∧ tn_content n = ns_content s ∧ tn_kind n = ns_kind s ∧ tn_priority n = ns_priority s
    ∧ (∀ d, d ∈ ns_depends_on s ↔
         d ∈ tn_depends_on n ∧ ∀ c, c ∈ g_nodes g → tn_id c = d → tn_parent c ≠ Some (tn_id n)).

Lemma dependency_sets_equal_true l r : dependency_sets_equal l r = true ↔ ∀ d, d ∈ l ↔ d ∈ r.
Proof.
  unfold dependency_sets_equal. rewrite bool_decide_eq_true, set_eq.
  by setoid_rewrite elem_of_list_to_set.
Qed.

(** The declared dependencies of a node: those that are not its children. *)
Lemma elem_of_declared g n d :
  NoDup (ids g) →
  d ∈ List.filter (λ dep, match get g dep with
                          | None => true
                          | Some candidate => bool_decide (tn_parent candidate ≠ Some (tn_id n))
                          end) (tn_depends_on n) ↔
  d ∈ tn_depends_on n ∧ ∀ c, c ∈ g_nodes g → tn_id c = d → tn_parent c ≠ Some (tn_id n).
Proof.
  intros Hnd. rewrite list_elem_of_In, List.filter_In, <- list_elem_of_In.
  apply and_iff_compat_l. destruct (get g d) as [c|] eqn:Hc.
  - apply get_Some in Hc as [Hc <-]. rewrite bool_decide_eq_true. split; [|by eauto].
    intros H c' Hc' He. by rewrite (ids_node_unique g c' c).
  - apply get_None in Hc. split; [|done]. intros _ c Hin He.
    exfalso. apply Hc, elem_of_ids. eauto.
Qed.

Lemma accepted_matches g s :
  NoDup (ids g) →
  accepted g s ↔ ∃ n, get g (default "" (ns_id s)) = Some n ∧ seed_spec_matches_existing g n s = true.
Proof.
  intros Hnd. split.
  - intros (n & Hn & Hid & Hp & Hgt & Ho & Hc & Hk & Hpr & Hdeps). exists n.
    split; [rewrite <- Hid; by apply get_of_elem|]. unfold seed_spec_matches_existing.
    rewrite Hp, Hgt, Ho, Hc, Hk, Hpr. rewrite !bool_decide_false by (naive_solver || (intros [? ?]; done)).
    simpl. apply dependency_sets_equal_true. intros d. by rewrite elem_of_declared.
  - intros (n & [Hn Hid]%get_Some & Hm). unfold seed_spec_matches_existing in Hm.
    destruct (_ || _) eqn:E in Hm; [done|]. bool_hyps.
    rewrite dependency_sets_equal_true in Hm. setoid_rewrite elem_of_declared in Hm; [|done].
    exists n. split_and!; try done; try by apply dec_stable.
    by apply eq_None_not_Some.
Qed.

(** ** Accepted specs stay accepted *)

Lemma accepted_same_shapes g g' s : same_shapes g g' → accepted g s → accepted g' s.
Proof.
  intros Hs (n & Hn & Hid & Hp & Hgt & Ho & Hc & Hk & Hpr & Hdeps). back_shape Hs n.
  exists n1. split_and!; try congruence. intros d. rewrite Hdeps.
  replace (tn_depends_on n1) with (tn_depends_on n) by congruence.
  apply and_iff_compat_l. split; intros Hno c Hcin Hcid Hcp.
  - move_shape Hs c. apply (Hno c0); congruence.
  - back_shape Hs c. apply (Hno c1); congruence.
Qed.

(** Growth keeps a spec accepted when an ungated node only gains its own
    children as dependencies. *)
Lemma accepted_grown g par upd work gates s :
  struct_inv g → growth g par upd work gates →
  (∀ n, tn_origin (upd n) = tn_origin n ∧ tn_content (upd n) = tn_content n
        ∧ tn_kind (upd n) = tn_kind n ∧ tn_priority (upd n) = tn_priority n) →
  (∀ n d, n ∈ g_nodes g → tn_is_gate n = false → d ∈ tn_depends_on (upd n) →
     d ∈ tn_depends_on n ∨ (par = Some (tn_id n) ∧ ∃ c, (c ∈ work ∨ c ∈ gates) ∧ tn_id c = d)) →
  accepted g s → accepted (grown g upd work gates) s.
Proof.
  intros Hg Hgr Hkeep Hnew (n & Hn & Hid & Hp & Hgt & Ho & Hc & Hk & Hpr & Hdeps).
  destruct (Hkeep n) as (Eo & Ec & Ek & Ep). exists (upd n).
  rewrite (gr_id Hgr), (gr_parent Hgr), (gr_is_gate Hgr), Eo, Ec, Ek, Ep.
  split_and!; try done; [apply elem_of_grown; eauto|]. intros d. rewrite Hdeps. split.
  - intros [Hd Hno]. split; [by apply (gr_deps Hgr)|]. intros c Hcin Hcid.
    apply elem_of_grown in Hcin as [(c0 & Hc0 & ->)|Hx].
    + rewrite (gr_parent Hgr). rewrite (gr_id Hgr) in Hcid. by apply Hno.
    + pose proof (si_closed Hg n d Hn Hd) as (y & Hy & He)%elem_of_ids.
      destruct (grown_old_ne g par upd work gates Hgr y c Hy Hx). congruence.
  - intros [Hd Hno]. apply Hnew in Hd as [Hd|(Hpar & c & Hx & Hcid)]; [|exfalso|done..].
    + split; [done|]. intros c Hcin Hcid. rewrite <- (gr_parent Hgr c). apply Hno.
      * apply elem_of_grown. eauto.
      * by rewrite (gr_id Hgr).
    + apply (Hno c); [apply elem_of_grown; eauto|done|].
      rewrite (grown_parent_of g par upd work gates Hgr c Hx). done.
Qed.

Lemma refresh_keeps roots n :
  tn_origin (refresh_gate roots n) = tn_origin n ∧ tn_content (refresh_gate roots n) = tn_content n
  ∧ tn_kind (refresh_gate roots n) = tn_kind n ∧ tn_priority (refresh_gate roots n) = tn_priority n.
Proof. unfold refresh_gate. by destruct (_ && _). Qed.

Lemma root_upd_ungated g roots n :
  struct_inv g → n ∈ g_nodes g → tn_is_gate n = false → root_upd g roots n = n.
Proof.
  intros Hg Hn Hgt. unfold root_upd. destruct (find_first _ _) as [gt|] eqn:Hf; [|done].
  apply find_root_gate in Hf as (Hin & Hgate & _). rewrite upd_at_ne; [done|]. intros He.
  rewrite (ids_node_unique g n gt) in Hgt by (done || apply Hg). congruence.
Qed.

Lemma accepted_seed specs g g' s :
  struct_inv g → seed specs g = (Ok tt, g') → accepted g s → accepted g' s.
Proof.
  intros Hg H. destruct (seed_grown _ _ _ Hg H) as (u & gates & _ & _ & _ & -> & Hgr).
  eapply accepted_grown; [done..| |].
  - intros n. unfold root_upd. destruct (find_first _ _); [|done]. unfold upd_at.
    destruct (has_id _ _); [apply refresh_keeps|done].
  - intros n d Hn Hgt. rewrite root_upd_ungated by done. by left.
Qed.

Lemma accepted_expand id actor cs g out g' s :
  struct_inv g → expand_node id actor cs g = (Ok out, g') → accepted g s → accepted g' s.
Proof.
  intros Hg H. destruct (expand_grown _ _ _ _ _ _ Hg H) as
    (n & kids & gates & Hn & Hid & _ & _ & _ & _ & Hw & -> & Hgr).
  eapply accepted_grown; [done..| |].
  - intros m. unfold upd_at. destruct (has_id _ _); [|done]. unfold flip_to_composite. simpl.
    by destruct (tn_planner m).
  - intros m d Hm Hgt. unfold upd_at. destruct (has_id id m) eqn:Hi; [|by left].
    apply has_id_true in Hi. destruct (flip_fields (kids ++ map tn_id gates) m) as (_ & _ & _ & -> & _).
    intros [?|Hd]%elem_of_push_missing; [by left|right]. split; [by rewrite Hi|].
    rewrite <- Hw, <- map_app in Hd. apply list_elem_of_fmap in Hd as (c & -> & Hc%elem_of_app). eauto.
Qed.

Lemma accepted_inject gid actor specs g new_ids g' s :
  struct_inv g → inject_from_gate gid actor specs g = (Ok new_ids, g') → accepted g s → accepted g' s.
Proof.
  intros Hg H. destruct (inject_grown _ _ _ _ _ _ Hg H) as
    (gate & Hgt & Hid & _ & _ & Hgate & Hw & _ & -> & Hgr).
  eapply accepted_grown; [done..| |].
  - intros m. unfold inject_upd. destruct (tn_parent gate); unfold upd_at, requeue_gate, add_deps;
      by repeat destruct (has_id _ _).
  - intros m d Hm Hmg. unfold inject_upd. rewrite (upd_at_ne gid).
    2: { intros He. rewrite (ids_node_unique g m gate) in Hmg by (congruence || apply Hg). congruence. }
    destruct (tn_parent gate) as [p|]; [|by left]. unfold upd_at.
    destruct (has_id p m) eqn:Hi; [|by left]. apply has_id_true in Hi. simpl.
    intros [?|Hd]%elem_of_push_missing; [by left|right]. split; [by rewrite Hi|].
    rewrite <- Hw in Hd. apply list_elem_of_fmap in Hd as (c & -> & Hc). eauto.
Qed.

Lemma accepted_step g g' s : struct_inv g → dag_step g g' → accepted g s → accepted g' s.
Proof.
  intros Hg [Hs|[(specs & H)|[(id & actor & cs & out & H)|(id & actor & specs & l & H)]]]%step_shapes;
    eauto using accepted_same_shapes, accepted_seed, accepted_expand, accepted_inject.
Qed.

Lemma accepted_rtc g g' s : struct_inv g → rtc dag_step g g' → accepted g s → accepted g' s.
Proof. intros Hg Hr. revert Hg. induction Hr; eauto using accepted_step, struct_inv_step. Qed.

(** ** A successful seed accepts its specs *)

Lemma seed_accepts specs g g' :
  struct_inv g → seed specs g = (Ok tt, g') →
  ∃ unique, collapse_specs [] specs = Ok unique ∧ ∀ s, s ∈ unique → accepted g' s.
Proof.
  intros Hg H. pose proof (seed_ok _ _ _ H) as (u & Hcol & _ & Hm & _).
  destruct (seed_grown _ _ _ Hg H) as (u' & gates & Hcol' & _ & _ & Heq & Hgr).
  rewrite Hcol in Hcol'. injection Hcol' as <-. exists u. split; [done|]. intros s Hs.
  destruct (get g (default "" (ns_id s))) as [n|] eqn:Hget.
  { eapply accepted_seed; [done..|]. apply accepted_matches; [apply Hg|]. eauto. }
  assert (spec_to_node s None OSeed ∈ spec_nodes (fresh_specs g u) None OSeed) as Hin.
  { apply (list_elem_of_fmap_2 (λ s, spec_to_node s None OSeed)), list_elem_of_In, List.filter_In.
    split; [by apply list_elem_of_In|]. apply get_None, contains_false in Hget. by rewrite Hget. }
  exists (spec_to_node s None OSeed). split_and!; try done.
  { rewrite Heq. apply elem_of_grown. eauto. }
  intros d. simpl. rewrite elem_of_dedup_first. split; [|by intros [? _]]. intros Hd. split; [done|].
  intros c Hc _ Hp. rewrite Heq in Hc. apply elem_of_grown in Hc as [(c0 & Hc0 & ->)|Hx].
  - rewrite (gr_parent Hgr) in Hp. 
    by apply (grown_old_parent g None _ _ _ Hg Hgr c0 (spec_to_node s None OSeed)) in Hp; [|done|left].
  - rewrite (grown_parent_of _ _ _ _ _ Hgr c Hx) in Hp. done.
Qed.

(** ** Seeding accepted specs changes nothing *)

Lemma fresh_specs_nil g u : (∀ s, s ∈ u → default "" (ns_id s) ∈ ids g) → fresh_specs g u = [].
Proof.
  unfold fresh_specs. induction u as [|s u IH]; simpl; intros Hall; [done|].
  rewrite (proj2 (contains_true g _)) by (apply Hall; left). simpl. apply IH. intros t Ht.
  apply Hall. by right.
Qed.

Lemma stage_seed_replay g staged u :
  (∀ s, s ∈ u → ∃ n, get g (default "" (ns_id s)) = Some n ∧ seed_spec_matches_existing g n s = true) →
  stage_seed g staged u = Ok staged.
Proof.
  revert staged. induction u as [|s u IH]; intros staged Hall; simpl; [done|].
  destruct (Hall s) as (n & -> & ->); [left|]. apply IH. intros t Ht. apply Hall. by right.
Qed.

Lemma check_deps_known known g pairs :
  (∀ node deps d, (node, deps) ∈ pairs → d ∈ deps → d ∈ ids g) → check_deps known g pairs = Ok tt.
Proof.
  induction pairs as [|[node deps] pairs IH]; simpl; intros Hall; [done|].
  destruct (find_first _ deps) as [d|] eqn:Hf.
  - apply find_first_Some in Hf as [Hd Hb]. bool_hyps.
    by rewrite (proj2 (contains_true g d)) in *; [|eapply Hall; [left|]].
  - apply IH. intros n ds d Hin. apply (Hall n ds d). by right.
Qed.

Lemma push_missing_nop v extra : (∀ d, d ∈ extra → d ∈ v) → push_missing v extra = v.
Proof.
  revert v. induction extra as [|d extra IH]; intros v Hall; simpl; [done|].
  rewrite bool_decide_true by (apply Hall; left). apply IH. intros x Hx. apply Hall. by right.
Qed.

(** The root gate already covers the roots: nothing to refresh. *)
Lemma refresh_covered roots n : (∀ d, d ∈ roots → d ∈ tn_depends_on n) → refresh_gate roots n = n.
Proof.
  intros Hall. unfold refresh_gate. rewrite push_missing_nop by done.
  replace (forallb _ roots) with true; [by destruct n|]. symmetry. apply List.forallb_forall.
  intros d Hd%list_elem_of_In. apply bool_decide_eq_true. auto.
Qed.

Lemma update_node_nop id f g :
  (∀ n, n ∈ g_nodes g → tn_id n = id → f n = n) → update_node id f g = g.
Proof.
  intros Hf. unfold update_node. destruct g as [m l]; simpl in *. f_equal.
  induction l as [|x l IH]; simpl; [done|]. destruct (has_id id x) eqn:E.
  - rewrite Hf; [done|left|by apply has_id_true].
  - rewrite IH; [done|]. intros n Hn. apply Hf. by right.
Qed.

Lemma ensure_root_gate_nop g : struct_inv g → g_mode g = Deep → ensure_root_gate g = g.
Proof.
  intros Hg Hm. unfold ensure_root_gate. destruct (root_ids g) as [|r rs] eqn:Hr; [done|].
  assert (r ∈ root_ids g) as (c & Hc & _ & Hcg & Hcp)%elem_of_root_ids by (rewrite Hr; left).
  destruct (si_deep Hg Hm c Hc) as (gt & Hgt & Hgate & Hp).
  destruct (find_first_is_Some is_root_gate (g_nodes g) gt) as [gt' Hf]; [done| |].
  { apply is_root_gate_true. by rewrite Hp. }
  rewrite Hf. rewrite <- Hr. apply find_root_gate in Hf as (Hgt' & Hgate' & Hp').
  apply update_node_nop. intros n Hn He. apply refresh_covered.
  rewrite (ids_node_unique g n gt') by (done || apply Hg).
  intros d (x & Hx & <- & Hxg & Hxp)%elem_of_root_ids. apply (si_cover Hg); congruence.
Qed.

Lemma acyclic_commit g s : acyclic g → commit_acyclic g s = (Ok tt, g).
Proof.
  intros Hac. unfold commit_acyclic, st_guard, st_bind, st_ret, st_put.
  apply cycle_nodes_nil_acyclic in Hac. by rewrite Hac.
Qed.

Lemma seed_replay specs unique g :
  struct_inv g → collapse_specs [] specs = Ok unique → (∀ s, s ∈ unique → accepted g s) →
  seed specs g = (Ok tt, g).
Proof.
  intros Hg Hcol Hacc. unfold seed, st_bind, st_get, st_lift. rewrite Hcol.
  rewrite check_deps_known.
  2: { intros node deps d (s & [= -> ->] & Hs)%list_elem_of_fmap Hd.
       destruct (Hacc s Hs) as (n & Hn & _ & _ & _ & _ & _ & _ & _ & Hdeps).
       pose proof (proj1 (Hdeps d) Hd) as [Hd' _]. by eapply (si_closed Hg). }
  rewrite stage_seed_replay by (intros s Hs; apply accepted_matches; [apply Hg|auto]).
  assert ((if requires_gates (g_mode g) then ensure_root_gate g else g) = g) as ->.
  { destruct (g_mode g) eqn:Hm; [by apply ensure_root_gate_nop|done]. }
  apply acyclic_commit, Hg.
Qed.
