(* ===== verification/DagClaims.v ===== *)
(** * What the task-graph engine guarantees

    Traces of engine calls, and the theorems about every graph such a trace
    can reach: well-formedness, gating, progress, ownership, completion
    checks, replayed seeds, expansion, and the hydration of worker inputs. *)

From stdpp Require Import base list strings gmap relations sorting.
From S2P Require Import Prelude RustString Confidence Dag Kahn DagCycle Mention DagOps Schedule.
From S2P Require Import DagInv DagGrow DagSafety.

Open Scope string_scope.
Open Scope nat_scope.
Open Scope list_scope.

(** ** Traces *)

(** One call of the engine's interface. *)
Inductive Call : Type :=
| CSeed (specs : list NodeSpec)
| CDispatch (node_id worker : string)
| CExpand (node_id actor : string) (children : list NodeSpec)
| CComplete (node_id actor : string) (a : HandoffArtifact)
| CFail (node_id actor : string)
| CInject (gate_id actor : string) (specs : list NodeSpec)
| CRequeue (node_id : string).

Definition drop_value {A} (r : result A DagError * TaskGraph) : result unit (option DagError) * TaskGraph :=
  match r with
  | (Ok _, g) => (Ok tt, g)
  | (Err e, g) => (Err (Some e), g)
  end.

(** The call's outcome and the graph it leaves; a refused dispatch, which
    returns [false], is [Err None]. *)
Definition exec_call (c : Call) (g : TaskGraph) : result unit (option DagError) * TaskGraph :=
  match c with
  | CSeed specs => drop_value (seed specs g)
  | CDispatch id w =>
      match dispatch id w g with (true, g') => (Ok tt, g') | (false, g') => (Err None, g') end
  | CExpand id actor cs => drop_value (expand_node id actor cs g)
  | CComplete id actor a => drop_value (complete_node id actor a g)
  | CFail id actor => drop_value (fail_node id actor g)
  | CInject id actor specs => drop_value (inject_from_gate id actor specs g)
  | CRequeue id => drop_value (requeue_failed id g)
  end.

Definition run_calls (cs : list Call) (g : TaskGraph) : TaskGraph :=
  foldl (λ g c, (exec_call c g).2) g cs.

(** The node a call addresses and the actor it speaks for. *)
Definition call_actor (c : Call) : option (string * string) :=
  match c with
  | CExpand id actor _ | CComplete id actor _ | CFail id actor | CInject id actor _ => Some (id, actor)
  | _ => None
  end.

(** [u] is a node whose parent is [v]. *)
Definition child_of (g : TaskGraph) (u v : NodeId) : Prop :=
  ∃ c, c ∈ g_nodes g ∧ tn_id c = u ∧ tn_parent c = Some v.

(** ** Calls as steps *)

Lemma drop_value_ok {A} (r : result A DagError * TaskGraph) g' :
  drop_value r = (Ok tt, g') → ∃ x, r = (Ok x, g').
Proof. destruct r as [[x|e] g]; simpl; [|done]. intros [= ->]. eauto. Qed.

Lemma drop_value_err {A} (r : result A DagError * TaskGraph) e g' :
  drop_value r = (Err e, g') → ∃ e', r = (Err e', g') ∧ e = Some e'.
Proof. destruct r as [[x|e'] g]; simpl; [done|]. intros [= <- ->]. eauto. Qed.

Lemma exec_call_step c g g' : exec_call c g = (Ok tt, g') → dag_step g g'.
Proof.
  destruct c; simpl; try (intros [x H]%drop_value_ok).
  - destruct x. by eapply step_seed.
  - destruct (dispatch node_id worker g) as [[] g0] eqn:H; [|done]. intros [= <-]. by eapply step_dispatch.
  - by eapply step_expand.
  - destruct x. by eapply step_complete.
  - destruct x. by eapply step_fail.
  - by eapply step_inject.
  - destruct x. by eapply step_requeue.
Qed.

Lemma commit_acyclic_err staged g e g' : commit_acyclic staged g = (Err e, g') → g' = g.
Proof. intros H. by apply commit_acyclic_ok in H as [(? & _)|(_ & ? & _)]. Qed.

Ltac leave_early :=
  repeat match goal with
  | |- (Err _, _) = (Err _, _) → _ => by intros [= _ <-]
  | |- (Ok _, _) = (Err _, _) → _ => done
  | |- context [match ?x with _ => _ end] =>
      lazymatch x with
      | context [match _ with _ => _ end] => fail
      | commit_acyclic ?s ?g => destruct (commit_acyclic s g) as [[] ?] eqn:?
      | _ => destruct x
      end
  end.

Lemma exec_call_err c g e g' : exec_call c g = (Err e, g') → g' = g.
Proof.
  destruct c; simpl; try (intros (e' & H & _)%drop_value_err; revert H).
  - unfold seed, st_bind, st_get, st_lift. leave_early; by apply commit_acyclic_err.
  - unfold dispatch. leave_early.
  - unfold expand_node, st_guard, st_bind, st_get, st_lift, st_ret, st_err, ok_or.
    leave_early; by intros [= _ <-]; apply commit_acyclic_err in Heqp.
  - unfold complete_node, st_modify, st_guard, st_bind, st_get, st_lift, st_ret, st_err, ok_or. leave_early.
  - unfold fail_node, st_modify, st_guard, st_bind, st_get, st_lift, st_ret, st_err, ok_or. leave_early.
  - unfold inject_from_gate, st_guard, st_bind, st_get, st_lift, st_ret, st_err, ok_or.
    leave_early; by intros [= _ <-]; apply commit_acyclic_err in Heqp.
  - unfold requeue_failed, st_modify, st_guard, st_bind, st_get, st_lift, st_ret, st_err, ok_or. leave_early.
Qed.

Lemma exec_call_reachable m c g : reachable m g → reachable m (exec_call c g).2.
Proof.
  intros Hr. destruct (exec_call c g) as [[[]|e] g'] eqn:E; simpl.
  - eapply rtc_r; [exact Hr|]. by eapply exec_call_step.
  - by rewrite (exec_call_err _ _ _ _ E).
Qed.

Lemma run_calls_reachable m cs : reachable m (run_calls cs (graph_new m)).
Proof.
  unfold run_calls. assert (reachable m (graph_new m)) as H by constructor. revert H.
  generalize (graph_new m). induction cs as [|c cs IH]; intros g Hr; simpl; [done|].
  apply IH. by apply exec_call_reachable.
Qed.

(** A deep plan driven to the middle of its work: [a] was expanded into [a1]
    and [a2]; [a1] is done, [a2] is running, [b] waits for [a]. *)
Definition demo_artifact (f : string) : HandoffArtifact :=
  mkArtifact f [] [] None [] (Some "high") ["nothing material"].

Definition demo_specs : list NodeSpec :=
  [spec_new "a" "explore a" Explore; spec_depends_on (spec_new "b" "fix b" Fix) ["a"]].

Definition demo_calls : list Call :=
  [CSeed demo_specs;
   CDispatch "a" "w0";
   CExpand "a" "w0" [spec_new "a1" "left" Explore; spec_new "a2" "right" Explore];
   CDispatch "a1" "w1";
   CComplete "a1" "w1" (demo_artifact "left done");
   CDispatch "a2" "w2"].

Definition demo_graph : TaskGraph := Eval vm_compute in run_calls demo_calls (graph_new Deep).

(** [a2] finishes, the gate of [a] passes, [a] synthesizes. *)
Definition demo_gate_calls : list Call :=
  [CComplete "a2" "w2" (demo_artifact "right done"); CDispatch "a::gate" "w3"].
Definition demo_gate_graph : TaskGraph := Eval vm_compute in run_calls demo_gate_calls demo_graph.

Definition demo_finish_calls : list Call :=
  [CComplete "a::gate" "w3" (brief "checked a1 and a2");
   CDispatch "a" "w0"; CComplete "a" "w0" (demo_artifact "a done");
   CDispatch "b" "w1"; CComplete "b" "w1" (demo_artifact "b done");
   CDispatch "plan::gate" "w2"; CComplete "plan::gate" "w2" (brief "a and b hold")].
Definition demo_done_graph : TaskGraph := Eval vm_compute in run_calls demo_finish_calls demo_gate_graph.

Lemma demo_reachable : reachable Deep demo_graph.
Proof. exact (run_calls_reachable Deep demo_calls). Qed.

Lemma demo_gate_reachable : reachable Deep demo_gate_graph.
Proof. exact (run_calls_reachable Deep (demo_calls ++ demo_gate_calls)). Qed.

Lemma demo_done_reachable : reachable Deep demo_done_graph.
Proof. exact (run_calls_reachable Deep (demo_calls ++ demo_gate_calls ++ demo_finish_calls)). Qed.

(** ** Well-formedness *)

(** C1: every graph the engine reaches, by any sequence of successful calls,
    satisfies the structural invariant (distinct ids, resolved and acyclic
    dependencies, a forest of composite parents, one gate per level in deep
    mode that waits for exactly the work of its level, none in light mode) and
    the execution invariant (owners and outputs fit statuses), and keeps its
    mode.  A node that is [Done] has all its dependencies [Done]; so has a node
    that is running or has failed, unless it is the plan-wide gate.  (A later seed
    may widen that gate while it is running: lemma [running_gate_is_widened].) *)
Theorem reachable_well_formed (m : Mode) (g : TaskGraph) :
  reachable m g → struct_inv g ∧ dyn_inv g ∧ g_mode g = m
  ∧ ∀ n d, n ∈ g_nodes g → d ∈ g_nodes g → tn_id d ∈ tn_depends_on n →
      (tn_status n = Done → tn_status d = Done)
      ∧ (tn_status n ≠ Queued → is_root_gate n = false → tn_status d = Done).
Proof.
  intros Hr. destruct (dag_inv_reachable _ _ Hr) as [Hs Hd].
  split_and!; [done..|by apply reachable_mode|]. intros n d Hn Hdn Hdep. split.
  - intros Hdone. apply (di_deps Hd n d); [done..|by left].
  - intros Hq Hg. apply (di_deps Hd n d); [done..|by right].
Qed.

Lemma reachable_well_formed_witness : struct_inv demo_graph ∧ dyn_inv demo_graph ∧ g_mode demo_graph = Deep.
Proof. destruct (reachable_well_formed Deep demo_graph demo_reachable) as (H1 & H2 & H3 & _). done. Defined.

(** The exception is needed: seeded while the plan-wide gate is running, [c] is
    queued and the gate, still running, waits for it. *)
Lemma running_gate_is_widened :
  let g := run_calls (removelast demo_finish_calls ++ [CSeed [spec_new "c" "more" Explore]]) demo_gate_graph in
  (tn_status <$> get g "plan::gate", tn_status <$> get g "c") = (Some Running, Some Queued)
  ∧ "c" ∈ default [] (tn_depends_on <$> get g "plan::gate").
Proof.
  vm_compute run_calls. split; [reflexivity|]. vm_compute. apply list_elem_of_In. simpl. tauto.
Qed.

(** C2: in deep mode the plan-wide gate is the last word: when it is [Done],
    every node of the graph is [Done]; later seeds and gaps put it back in the
    queue, so this never stops being true. *)
Theorem root_gate_done_all_done (g : TaskGraph) (gt n : TaskNode) :
  reachable Deep g → gt ∈ g_nodes g → is_root_gate gt = true → tn_status gt = Done →
  n ∈ g_nodes g → tn_status n = Done.
Proof.
  intros [Hg Hd]%dag_inv_reachable Hgt [Hgate Hp]%is_root_gate_true Hs Hn.
  destruct (decide (n = gt)) as [->|Hne]; [done|].
  destruct (done_upstream g gt (tn_id n) Hg Hd Hgt Hs) as (d & Hd' & He & Hds).
  { by apply upstream_of_root. }
  by rewrite <- (ids_node_unique g d n) by (done || apply Hg).
Qed.

Lemma root_gate_done_all_done_witness : Forall (λ n, tn_status n = Done) (g_nodes demo_done_graph).
Proof.
  apply Forall_forall. intros n Hn. destruct (get demo_done_graph "plan::gate") as [gt|] eqn:E; [|by vm_compute in E].
  apply (root_gate_done_all_done demo_done_graph gt n demo_done_reachable); [|..|exact Hn].
  - by apply get_Some in E as [? _].
  - vm_compute in E. by injection E as <-.
  - vm_compute in E. by injection E as <-.
Defined.

(** A composite that is [Done] has its whole subtree [Done], gates and
    gap nodes included, at every depth. *)
Theorem composite_done_subtree_done (m : Mode) (g : TaskGraph) (p c : TaskNode) :
  reachable m g → p ∈ g_nodes g → c ∈ g_nodes g → tn_status p = Done →
  tc (child_of g) (tn_id c) (tn_id p) → tn_status c = Done.
Proof.
  intros [Hg Hd]%dag_inv_reachable Hp Hc Hs Ht.
  assert (∀ u v, child_of g u v → depends g u v) as Hsub.
  { intros u v (x & Hx & <- & Hpar). destruct (si_rank Hg) as [rank Hr].
    destruct (Hr x v Hx Hpar) as (_ & pn & Hpn & <- & _).
    apply depends_of; [done..|]. by apply (si_join Hg). }
  destruct (done_upstream g p (tn_id c) Hg Hd Hp Hs) as (d & Hd' & He & Hds).
  { by apply (tc_congruence id (depends g)) in Ht. }
  by rewrite <- (ids_node_unique g d c) by (done || apply Hg).
Qed.

Lemma composite_done_subtree_done_witness :
  ∃ c, get demo_done_graph "a::gate" = Some c ∧ tn_status c = Done.
Proof.
  destruct (get demo_done_graph "a::gate") as [c|] eqn:Ec; [|by vm_compute in Ec].
  destruct (get demo_done_graph "a") as [p|] eqn:Ep; [|by vm_compute in Ep].
  exists c. split; [done|].
  apply (composite_done_subtree_done Deep demo_done_graph p c demo_done_reachable).
  - by apply get_Some in Ep as [? _].
  - by apply get_Some in Ec as [? _].
  - vm_compute in Ep. by injection Ep as <-.
  - apply tc_once. pose proof (get_Some _ _ _ Ec) as [Hc _]. exists c. split_and!; [done..|].
    vm_compute in Ec, Ep. injection Ec as <-. by injection Ep as <-.
Defined.

(** ** Errors *)

(** C24: a call that fails leaves the graph exactly as it was, whichever of
    the engine's operations and whichever of its checks refused it. *)
Theorem failed_call_keeps_graph (c : Call) (g : TaskGraph) (e : option DagError) (g' : TaskGraph) :
  exec_call c g = (Err e, g') → g' = g.
Proof. apply exec_call_err. Qed.

Lemma failed_call_keeps_graph_witness :
  (exec_call (CExpand "a2" "w2" [spec_depends_on (spec_new "x" "loop" Explore) ["plan::gate"]])
     demo_graph).2 = demo_graph.
Proof.
  eapply failed_call_keeps_graph. rewrite (surjective_pairing (exec_call _ demo_graph)) at 1.
  f_equal. vm_compute. reflexivity.
Defined.

(** ** Progress *)

Lemma is_ready_true g n :
  is_ready g n = true ↔
  tn_status n = Queued ∧ ∀ d, d ∈ tn_depends_on n → ∃ m, get g d = Some m ∧ tn_status m = Done.
Proof.
  unfold is_ready, deps_satisfied. rewrite andb_true_iff, bool_decide_eq_true, List.forallb_forall.
  apply and_iff_compat_l. setoid_rewrite <- list_elem_of_In. apply forall_proper. intros d.
  apply imp_iff_compat_l. destruct (get g d) as [m|].
  - unfold is_done. rewrite bool_decide_eq_true. naive_solver.
  - naive_solver.
Qed.

Lemma elem_of_ready_nodes g n : n ∈ ready_nodes g ↔ n ∈ g_nodes g ∧ is_ready g n = true.
Proof.
  unfold ready_nodes. rewrite elem_of_sort_by, list_elem_of_In, List.filter_In, <- list_elem_of_In. done.
Qed.

(** Below a queued node there is a ready one, or a dependency that is not
    queued and not done either. *)
Lemma queued_progress g n :
  struct_inv g → n ∈ g_nodes g → tn_status n = Queued →
  (∃ r, r ∈ ready_nodes g) ∨ ∃ d, d ∈ g_nodes g ∧ tn_status d ≠ Queued ∧ tn_status d ≠ Done.
Proof.
  intros Hg Hn Hs.
  assert (Acc (depends g) (tn_id n)) as HA.
  { apply cycle_nodes_nil; [apply cycle_nodes_nil_acyclic, Hg|]. apply elem_of_ids. eauto. }
  remember (tn_id n) as v eqn:Hv. revert n Hn Hs Hv. induction HA as [v _ IH]. intros n Hn Hs ->.
  destruct (is_ready g n) eqn:Hr; [left; exists n; by apply elem_of_ready_nodes|].
  assert (∃ d, d ∈ g_nodes g ∧ tn_id d ∈ tn_depends_on n ∧ tn_status d ≠ Done) as (d & Hd & Hin & Hds).
  { destruct (deps_satisfied g n) eqn:E; unfold is_ready in Hr.
    { by rewrite E, Hs in Hr. }
    apply forallb_false in E as (d & Hd & E). pose proof (si_closed Hg n d Hn Hd) as (m & Hm & <-)%elem_of_ids.
    exists m. rewrite (get_of_elem g m) in E by (done || apply Hg). unfold is_done in E. by bool_hyps. }
  destruct (decide (tn_status d = Queued)) as [Hq|Hq]; [|right; eauto].
  eapply (IH (tn_id d)); [by apply depends_of|done..].
Qed.

(** The plan never deadlocks by itself: when nothing is running, nothing
    has failed and some node is not finished, the scheduler has a node to
    dispatch. *)
Theorem scheduler_progress (m : Mode) (g : TaskGraph) :
  reachable m g →
  (∀ n, n ∈ g_nodes g → tn_status n ≠ Running ∧ tn_status n ≠ Failed) →
  all_terminal g = false → ready_nodes g ≠ [].
Proof.
  intros [Hg Hd]%dag_inv_reachable Hns (n & Hn & Hterm)%forallb_false Hnil.
  assert (tn_status n = Queued) as Hs.
  { destruct (Hns n Hn). unfold is_terminal in Hterm. by destruct (tn_status n). }
  destruct (queued_progress g n Hg Hn Hs) as [(r & Hr)|(d & Hd' & H1 & H2)].
  - rewrite Hnil in Hr. by apply elem_of_nil in Hr.
  - destruct (Hns d Hd'). by destruct (tn_status d).
Qed.

(** The demo plan right after its expansion. *)
Definition demo_idle_graph : TaskGraph := Eval vm_compute in run_calls (take 3 demo_calls) (graph_new Deep).

Lemma scheduler_progress_witness : ready_nodes demo_idle_graph ≠ [].
Proof.
  apply (scheduler_progress Deep demo_idle_graph).
  - exact (run_calls_reachable Deep (take 3 demo_calls)).
  - apply Forall_forall. unfold demo_idle_graph; simpl. repeat constructor; done.
  - reflexivity.
Defined.

(** ** Ownership *)

Lemma update_node_other id f g n :
  struct_inv g → keeps_id f → n ∈ g_nodes g → tn_id n ≠ id → n ∈ g_nodes (update_node id f g).
Proof. intros Hg Hf Hn Hne. apply elem_of_update_node; [apply Hg|done|by left]. Qed.

Lemma get_is_elem g id x n :
  struct_inv g → get g id = Some x → n ∈ g_nodes g → tn_id n = id → x = n.
Proof. intros Hg [Hx Hid]%get_Some Hn He. apply (ids_node_unique g); [apply Hg|done..|congruence]. Qed.

(** A node still running for [w]. *)
Definition still_running (g : TaskGraph) (id w : string) : Prop :=
  ∃ n, n ∈ g_nodes g ∧ tn_id n = id ∧ tn_status n = Running ∧ tn_owner n = Some w.

Lemma still_running_update id f g n w :
  struct_inv g → keeps_id f → n ∈ g_nodes g → tn_status n = Running → tn_owner n = Some w →
  tn_id n ≠ id → still_running (update_node id f g) (tn_id n) w.
Proof. intros Hg Hf Hn Hs Ho Hne. exists n. split_and!; [by apply update_node_other|done..]. Qed.

Lemma still_running_grown g par upd work gates n w :
  growth g par upd work gates → n ∈ g_nodes g → tn_status (upd n) = Running →
  tn_owner (upd n) = Some w → still_running (grown g upd work gates) (tn_id n) w.
Proof.
  intros Hgr Hn Hs Ho. exists (upd n). rewrite (gr_id Hgr). split_and!; try done.
  apply elem_of_grown. eauto.
Qed.

Lemma root_upd_running g roots n :
  tn_status n = Running → tn_status (root_upd g roots n) = Running ∧ tn_owner (root_upd g roots n) = tn_owner n.
Proof.
  intros Hs. unfold root_upd. destruct (find_first _ _); [|done]. unfold upd_at.
  destruct (has_id _ n); [|done]. unfold refresh_gate, is_terminal. rewrite Hs, andb_false_r. done.
Qed.

(** A running node belongs to its owner: whatever call succeeds, the node
    keeps running for that owner, unless the call was made by that owner on
    that node. *)
Theorem running_node_keeps_owner (m : Mode) (c : Call) (g g' : TaskGraph) (n : TaskNode) (w : string) :
  reachable m g → exec_call c g = (Ok tt, g') → n ∈ g_nodes g →
  tn_status n = Running → tn_owner n = Some w →
  still_running g' (tn_id n) w ∨ call_actor c = Some (tn_id n, w).
Proof.
  intros [Hg Hd]%dag_inv_reachable H Hn Hs Ho. destruct c as [specs|id wk|id actor cs|id actor a|id actor|id actor specs|id];
    simpl in *; try (apply drop_value_ok in H as [x H]).
  - destruct x. destruct (seed_grown _ _ _ Hg H) as (u & gates & _ & _ & _ & -> & Hgr). left.
    destruct (root_upd_running g (root_ids g ++ map tn_id (spec_nodes (fresh_specs g u) None OSeed)) n Hs).
    eapply still_running_grown; [done..|congruence].
  - destruct (dispatch id wk g) as [[] g0] eqn:E; [|done]. injection H as <-.
    apply dispatch_ok in E as (y & Hget & Hq & _ & ->). left. apply still_running_update; try done.
    intros He. rewrite (get_is_elem g id y n) in Hq by done. congruence.
  - destruct (expand_grown _ _ _ _ _ _ Hg H) as (y & k & gates & Hy & Hid & _ & Hyo & _ & _ & _ & -> & Hgr).
    destruct (decide (tn_id n = id)) as [He|He].
    + right. rewrite (ids_node_unique g y n) in Hyo by (congruence || apply Hg). congruence.
    + left. eapply still_running_grown; [done..| |]; by rewrite upd_at_ne.
  - destruct x. apply complete_node_ok in H as (y & Hget & Hyo & _ & _ & _ & ->).
    destruct (decide (tn_id n = id)) as [He|He]; [right|left; by apply still_running_update].
    rewrite (get_is_elem g id y n) in Hyo by done. congruence.
  - destruct x. apply fail_node_ok in H as (y & Hget & Hyo & _ & ->).
    destruct (decide (tn_id n = id)) as [He|He]; [right|left; by apply still_running_update].
    rewrite (get_is_elem g id y n) in Hyo by done. congruence.
  - destruct (inject_grown _ _ _ _ _ _ Hg H) as (y & Hy & Hid & _ & Hyo & _ & _ & _ & -> & Hgr).
    destruct (decide (tn_id n = id)) as [He|He].
    + right. rewrite (ids_node_unique g y n) in Hyo by (congruence || apply Hg). congruence.
    + left. eapply still_running_grown; [done..| |]; unfold inject_upd; rewrite (upd_at_ne id) by done;
        destruct (tn_parent y); try done; unfold upd_at; by destruct (has_id _ n).
  - destruct x. apply requeue_failed_ok in H as (y & Hget & Hf & ->). left.
    apply still_running_update; try done.
    intros He. rewrite (get_is_elem g id y n) in Hf by done. congruence.
Qed.

Lemma running_node_keeps_owner_witness :
  still_running (exec_call (CSeed [spec_new "late" "one more" Fix]) demo_graph).2 "a2" "w2".
Proof.
  destruct (get demo_graph "a2") as [n|] eqn:E; [|by vm_compute in E].
  pose proof (get_Some _ _ _ E) as [Hn Hid].
  destruct (running_node_keeps_owner Deep (CSeed [spec_new "late" "one more" Fix]) demo_graph
    (exec_call (CSeed [spec_new "late" "one more" Fix]) demo_graph).2 n "w2") as [H|H].
  - exact demo_reachable.
  - vm_compute. reflexivity.
  - exact Hn.
  - vm_compute in E. by injection E as <-.
  - vm_compute in E. by injection E as <-.
  - by rewrite Hid in H.
  - done.
Defined.

(** ** Completion *)

(** The ids a check reports are none exactly when every node passes it. *)
Lemma report_empty (p : TaskNode → bool) l :
  bool_decide (map tn_id (List.filter (λ n, negb (p n)) l) ≠ []) = false ↔ ∀ x, x ∈ l → p x = true.
Proof.
  rewrite <- filter_negb_nil, bool_decide_eq_false.
  destruct (List.filter _ l); simpl; split; [done|..]; naive_solver.
Qed.

Lemma report_empty_filter (p q : TaskNode → bool) l :
  bool_decide (map tn_id (List.filter (λ n, negb (p n)) (List.filter q l)) ≠ []) = false
  ↔ ∀ x, x ∈ l → q x = true → p x = true.
Proof. rewrite report_empty. setoid_rewrite elem_of_List_filter. naive_solver. Qed.

(** The audit scope of a gate is what it waits for. *)
Lemma gate_scope_deps g gt :
  struct_inv g → gt ∈ g_nodes g → tn_is_gate gt = true →
  gate_audit_scope g gt = omap (get g) (tn_depends_on gt)
  ∧ length (gate_audit_scope g gt) = length (tn_depends_on gt)
  ∧ ∀ d, d ∈ gate_audit_scope g gt ↔ d ∈ g_nodes g ∧ tn_id d ∈ tn_depends_on gt.
Proof.
  intros Hg Hgt Hgate.
  assert (∀ d, d ∈ omap (get g) (tn_depends_on gt) ↔ d ∈ g_nodes g ∧ tn_id d ∈ tn_depends_on gt) as Hel.
  { intros d. rewrite list_elem_of_omap. split.
    - intros (x & Hx & [Hd <-]%get_Some). done.
    - intros [Hd Hx]. exists (tn_id d). split; [done|]. apply get_of_elem; [apply Hg|done]. }
  assert (gate_audit_scope g gt = omap (get g) (tn_depends_on gt)) as E.
  { unfold gate_audit_scope. apply List_filter_all. intros d [Hd Hin]%Hel.
    destruct (si_gate_deps Hg gt d Hgt Hd Hgate Hin) as [-> _]. done. }
  rewrite E. split_and!; [done| |done].
  assert (∀ l, (∀ x, x ∈ l → x ∈ ids g) → length (omap (get g) l) = length l) as Hlen.
  { induction l as [|x l IH]; intros Hall; [done|]. simpl.
    destruct (proj2 (get_is_Some g x)) as [y ->]; [apply Hall; left|]. simpl. f_equal. apply IH.
    intros z Hz. apply Hall. by right. }
  apply Hlen. intros x Hx. by eapply (si_closed Hg).
Qed.

Lemma validate_gate_pass_iff g gt a :
  struct_inv g → gt ∈ g_nodes g → tn_is_gate gt = true →
  validate_gate_pass g (tn_id gt) a = Ok tt ↔
  ∀ d, d ∈ g_nodes g → tn_id d ∈ tn_depends_on gt →
    tn_status d = Done ∧
    (addressed a (tn_id d) = true
     ∨ GATE_COVERAGE_ENUMERATION_CAP < length (tn_depends_on gt) ∧ output_level d = Some High).
Proof.
  intros Hg Hgt Hgate. destruct (gate_scope_deps g gt Hg Hgt Hgate) as (_ & Hlen & Hel).
  assert (∀ P : TaskNode → Prop, (∀ d, d ∈ g_nodes g → tn_id d ∈ tn_depends_on gt → P d) ↔
    ∀ d, d ∈ gate_audit_scope g gt → P d) as Hq.
  { intros P. split; [intros H d [? ?]%Hel; auto|]. intros H d Hd Hin. apply H, Hel. done. }
  rewrite Hq, <- Hlen. unfold validate_gate_pass. rewrite get_of_elem by (done || apply Hg).
  destruct (bool_decide (gate_audit_scope g gt = [])) eqn:E; bool_hyps.
  { rewrite E. split; [by intros _ ? ?%elem_of_nil|done]. }
  destruct (bool_decide (map _ _ ≠ [])) eqn:Hp.
  { split; [done|]. intros H. apply not_true_iff_false in Hp; [done|]. apply report_empty.
    intros x Hx. apply bool_decide_eq_true. by apply H. }
  rewrite report_empty in Hp.
  destruct (bool_decide (map _ _ ≠ [])) eqn:Hl.
  { split; [done|]. intros H. apply not_true_iff_false in Hl; [done|]. apply report_empty_filter.
    intros x Hx Hlow. bool_hyps. destruct (H x Hx) as [_ [?|[_ ?]]]; [done|congruence]. }
  rewrite report_empty_filter in Hl.
  assert (∀ x, x ∈ gate_audit_scope g gt → tn_status x = Done) as Hdone
    by (intros x Hx; apply Hp in Hx; unfold is_done in Hx; by bool_hyps).
  destruct (Nat.leb_spec (length (gate_audit_scope g gt)) GATE_COVERAGE_ENUMERATION_CAP) as [Hc|Hc].
  - destruct (bool_decide (map _ _ ≠ [])) eqn:Hu.
    + split; [done|]. intros H. apply not_true_iff_false in Hu; [done|]. apply report_empty.
      intros x Hx. destruct (H x Hx) as [_ [?|[? _]]]; [done|lia].
    + rewrite report_empty in Hu. split; [|done]. intros _ d Hd. auto.
  - destruct (bool_decide (map _ _ ≠ [])) eqn:Hu.
    + split; [done|]. intros H. apply not_true_iff_false in Hu; [done|]. apply report_empty_filter.
      intros x Hx Hh. bool_hyps. destruct (H x Hx) as [_ [?|[_ ?]]]; done.
    + rewrite report_empty_filter in Hu. split; [|done]. intros _ d Hd. split; [auto|].
      destruct (decide (output_level d = Some High)) as [?|Hh]; [by right|left].
      apply Hu; [done|]. by apply bool_decide_eq_true.
Qed.

(** A running gate passes exactly when everything it audits is [Done] and
    accounted for: each audited id is addressed by the gate's artifact, or the
    scope is larger than the enumeration cap and the node reported high
    confidence. *)
Theorem gate_passes_iff_accounted (g : TaskGraph) (gt : TaskNode) (actor : string) (a : HandoffArtifact) :
  reachable Deep g → gt ∈ g_nodes g → tn_is_gate gt = true →
  tn_status gt = Running → tn_owner gt = Some actor →
  (complete_node (tn_id gt) actor a g).1 = Ok tt ↔
  ∀ d, d ∈ g_nodes g → tn_id d ∈ tn_depends_on gt →
    tn_status d = Done ∧
    (addressed a (tn_id d) = true
     ∨ GATE_COVERAGE_ENUMERATION_CAP < length (tn_depends_on gt) ∧ output_level d = Some High).
Proof.
  intros Hr Hgt Hgate Hs Ho. destruct (dag_inv_reachable _ _ Hr) as [Hg _].
  rewrite <- validate_gate_pass_iff by done.
  unfold complete_node, st_modify, st_guard, st_bind, st_get, st_lift, st_ret, st_err, ok_or.
  rewrite get_of_elem by (done || apply Hg). rewrite Ho, Hs, !bool_decide_false by auto.
  rewrite (reachable_mode _ _ Hr), Hgate. simpl. by destruct (validate_gate_pass _ _ _) as [[]|].
Qed.

Lemma gate_passes_iff_accounted_witness :
  (complete_node "a::gate" "w3" (brief "checked a1 and a2") demo_gate_graph).1 = Ok tt.
Proof.
  destruct (get demo_gate_graph "a::gate") as [gt|] eqn:E; [|by vm_compute in E].
  pose proof (get_Some _ _ _ E) as [Hgt Hid]. rewrite <- Hid.
  apply (gate_passes_iff_accounted demo_gate_graph gt "w3" (brief "checked a1 and a2") demo_gate_reachable Hgt).
  1-3: vm_compute in E; by injection E as <-.
  intros d Hd Hin. vm_compute in E. injection E as <-. cbn in Hin.
  unfold demo_gate_graph in Hd; cbn [g_nodes] in Hd.
  repeat (apply elem_of_cons in Hd as [->|Hd]; [try (split; [reflexivity|left; vm_compute; reflexivity])|]).
  all: cbn in Hin; exfalso; clear -Hin Hd || clear -Hin; set_solver.
Defined.

(** Completing a node records its artifact and releases exactly what was
    waiting for it: afterwards the ready nodes are the queued nodes whose
    every dependency was [Done] before or is the completed node; no other node
    changes. *)
Theorem completion_releases_dependents (m : Mode) (g g' : TaskGraph) (id actor : string)
    (a : HandoffArtifact) :
  reachable m g → complete_node id actor a g = (Ok tt, g') →
  (∃ n, get g id = Some n ∧ get g' id = Some (set_output (Some a) (set_status Done n)))
  ∧ (∀ v, v ≠ id → get g' v = get g v)
  ∧ ∀ n, n ∈ ready_nodes g' ↔
      n ∈ g_nodes g ∧ tn_status n = Queued
      ∧ ∀ d, d ∈ tn_depends_on n → d = id ∨ ∃ x, get g d = Some x ∧ tn_status x = Done.
Proof.
  intros [Hg Hd]%dag_inv_reachable H. apply complete_node_ok in H as (n & Hget & Ho & Hs & _ & _ & ->).
  set (f := λ n, set_output (Some a) (set_status Done n)).
  assert (keeps_id f) as Hf by done.
  assert (∀ v, get (update_node id f g) v = if decide (v = id) then f <$> get g v else get g v) as Hgu
    by (intros; by apply get_update_node).
  split_and!.
  - exists n. rewrite Hgu, decide_True, Hget by done. done.
  - intros v Hv. by rewrite Hgu, decide_False.
  - intros x. rewrite elem_of_ready_nodes, is_ready_true, elem_of_update_node by (done || apply Hg).
    assert (∀ d, (∃ m, get (update_node id f g) d = Some m ∧ tn_status m = Done) ↔
              d = id ∨ ∃ x, get g d = Some x ∧ tn_status x = Done) as Hdone.
    { intros d. rewrite Hgu. case_decide as He; [|naive_solver]. subst d. rewrite Hget. simpl.
      split; [by left|]. intros _. eauto. }
    setoid_rewrite Hdone. split; [intros ([[? ?]|(y & Hy & He & ->)] & Hq & ?); done|].
    intros (Hx & Hq & Hall). split; [left|done]. split; [done|]. intros He.
    rewrite (get_is_elem g id n x) in Hs by done. congruence.
Qed.

Lemma completion_releases_dependents_witness :
  map tn_id (ready_nodes demo_graph) = [] ∧
  ∃ n, n ∈ ready_nodes (complete_node "a2" "w2" (demo_artifact "right done") demo_graph).2
    ∧ tn_id n = "a::gate".
Proof.
  split; [vm_compute; reflexivity|].
  destruct (get demo_graph "a::gate") as [gt|] eqn:E; [|by vm_compute in E].
  pose proof (get_Some _ _ _ E) as [Hgt Hid]. exists gt. split; [|exact Hid].
  apply (completion_releases_dependents Deep demo_graph _ "a2" "w2" (demo_artifact "right done")).
  - exact demo_reachable.
  - vm_compute. reflexivity.
  - split; [exact Hgt|]. vm_compute in E. injection E as <-. split; [reflexivity|].
    cbn. intros d [->|[->|Hd%elem_of_nil]%elem_of_cons]%elem_of_cons; [|by left|done].
    right. eexists. split; [vm_compute; reflexivity|reflexivity].
Defined.

(** ** Seeding *)

(** Seeding is idempotent in time: once a batch was accepted, sending the
    same batch again succeeds and changes nothing, whatever was dispatched,
    expanded, completed, failed, injected, re-queued or seeded in between. *)
Theorem seed_replay_is_noop (m : Mode) (specs : list NodeSpec) (g g1 g2 : TaskGraph) :
  reachable m g → seed specs g = (Ok tt, g1) → rtc dag_step g1 g2 → seed specs g2 = (Ok tt, g2).
Proof.
  intros [Hg _]%dag_inv_reachable H Hr. assert (struct_inv g1) as Hg1.
  { eapply struct_inv_step; [done|by eapply step_seed]. }
  destruct (seed_accepts _ _ _ Hg H) as (u & Hcol & Hacc).
  apply (seed_replay specs u); [by eapply struct_inv_rtc|done|].
  intros s Hs. eapply accepted_rtc; [done..|by apply Hacc].
Qed.

Lemma run_calls_rtc cs g : rtc dag_step g (run_calls cs g).
Proof.
  unfold run_calls. revert g. induction cs as [|c cs IH]; intros g; simpl; [constructor|].
  destruct (exec_call c g) as [[[]|e] g'] eqn:E; simpl.
  - eapply rtc_l; [by eapply exec_call_step|apply IH].
  - rewrite (exec_call_err _ _ _ _ E). apply IH.
Qed.

Lemma seed_replay_is_noop_witness : seed demo_specs demo_graph = (Ok tt, demo_graph).
Proof.
  apply (seed_replay_is_noop Deep demo_specs (graph_new Deep)
    (run_calls [CSeed demo_specs] (graph_new Deep)) demo_graph).
  - exact (run_calls_reachable Deep []).
  - vm_compute. reflexivity.
  - exact (run_calls_rtc (drop 1 demo_calls) (run_calls [CSeed demo_specs] (graph_new Deep))).
Defined.

(** ** Expansion *)

(** The nodes after an expansion: the old ones with the expanded node
    flipped, the children, the gate. *)
Lemma expand_nodes id actor specs g out g' :
  struct_inv g → expand_node id actor specs g = (Ok out, g') →
  ∃ n gates,
    let kids := spec_ids specs in
    let synth := kids ++ map tn_id gates in
    get g id = Some n ∧ tn_owner n = Some actor ∧ tn_expanded n = false
    ∧ (g_mode g = Light ∧ gates = []
       ∨ g_mode g = Deep ∧ ∃ gid content, gates = [new_gate gid content (gate_kind (tn_kind n)) (Some id) kids])
    ∧ g_nodes g' = map (upd_at id (flip_to_composite synth)) (g_nodes g)
                     ++ spec_nodes specs (Some id) OExpand ++ gates
    ∧ get g' id = Some (flip_to_composite synth n)
    ∧ out = mkOutcome kids (head (map tn_id gates)).
Proof.
  intros Hg H. destruct (expand_node_ok _ _ _ _ _ _ H) as
    (n & kids & gates & Hget & Ho & Hgate & Hex & Hrun & Hne & Hv & Hc & Hgs & Heq & Hac & ->).
  pose proof (validate_new_ids_ok _ _ _ _ _ Hv) as (_ & _ & Hkids).
  fold (spec_ids specs) in Hkids. subst kids. pose proof (get_Some _ _ _ Hget) as [Hn Hid].
  assert (NoDup (ids g ++ map tn_id (spec_nodes specs (Some id) OExpand ++ gates))) as Hnd
    by (by eapply ex_nodup).
  exists n, gates. split_and!; try done.
  - destruct Hgs as [?|(? & gid & content & _ & ?)]; [by left|right; eauto].
  - rewrite Heq, update_append, grown_move_gates; [done..|]. apply elem_of_ids. eauto.
  - rewrite Heq, get_update_node, decide_True.
    + unfold get, append_nodes; simpl. rewrite find_first_app. unfold get in Hget. by rewrite Hget.
    + done.
    + intros x. by destruct (flip_fields (spec_ids specs ++ map tn_id gates) x) as (? & _).
Qed.

(** Decomposing a node turns it into a join: one queued child per spec, in
    order, under it; in deep mode one queued gate that waits for exactly the
    children; the node itself is composite, back in the queue without owner,
    remembers its planner, and waits for its old dependencies, the children
    and the gate. *)
Theorem expand_makes_join (m : Mode) (id actor : string) (specs : list NodeSpec) (g g' : TaskGraph)
    (out : ExpandOutcome) :
  reachable m g → expand_node id actor specs g = (Ok out, g') →
  child_ids out = spec_ids specs
  ∧ children_of g' id = spec_nodes specs (Some id) OExpand
  ∧ (∃ n n', get g id = Some n ∧ get g' id = Some n'
       ∧ tn_status n' = Queued ∧ tn_owner n' = None ∧ tn_expanded n' = true
       ∧ tn_planner n' = (match tn_planner n with None => Some actor | Some p => Some p end)
       ∧ ∀ d, d ∈ tn_depends_on n' ↔
           d ∈ tn_depends_on n ∨ d ∈ child_ids out ∨ gate_id out = Some d)
  ∧ match gate_of g' id with
    | Some gt => m = Deep ∧ gate_id out = Some (tn_id gt) ∧ tn_depends_on gt = child_ids out
                 ∧ tn_status gt = Queued ∧ tn_owner gt = None
    | None => m = Light ∧ gate_id out = None
    end.
Proof.
  intros Hr H. destruct (dag_inv_reachable _ _ Hr) as [Hg _]. rewrite <- (reachable_mode _ _ Hr).
  destruct (expand_nodes _ _ _ _ _ _ Hg H) as (n & gates & Hget & Ho & Hex & Hgs & Hnodes & Hget' & ->).
  pose proof (get_Some _ _ _ Hget) as [Hn Hid]. cbn [child_ids gate_id].
  set (synth := spec_ids specs ++ map tn_id gates) in *.
  assert (∀ x, x ∈ map (upd_at id (flip_to_composite synth)) (g_nodes g) → tn_parent x ≠ Some id) as Hold.
  { intros x (y & -> & Hy)%list_elem_of_fmap. rewrite upd_at_field by (intros; apply flip_fields).
    rewrite <- Hid. by apply (no_children_yet g). }
  destruct (flip_fields synth n) as (_ & _ & _ & Hdeps & Hfx & Hfs & Hfo). split_and!.
  - done.
  - unfold children_of. rewrite Hnodes, !List.filter_app, List_filter_none, List_filter_all, List_filter_none.
    + by rewrite app_nil_r.
    + intros x Hx. destruct Hgs as [[_ ->]|(_ & ? & ? & ->)]; [by apply elem_of_nil in Hx|].
      apply list_elem_of_singleton in Hx as ->. apply andb_false_r.
    + intros x (s & _ & ->)%elem_of_spec_nodes. simpl. by rewrite bool_decide_true.
    + intros x Hx%Hold. by rewrite bool_decide_false.
  - exists n, (flip_to_composite synth n). split_and!; try done.
    + unfold flip_to_composite. simpl. by destruct (tn_planner n) eqn:?.
    + intros d. rewrite Hdeps, elem_of_push_missing. unfold synth. rewrite elem_of_app.
      destruct Hgs as [[_ ->]|(_ & ? & ? & ->)]; simpl; rewrite ?elem_of_nil, ?list_elem_of_singleton; naive_solver.
  - unfold gate_of. rewrite Hnodes, !find_first_app.
    rewrite (find_first_none _ (map _ _)), (find_first_none _ (spec_nodes _ _ _)).
    + destruct Hgs as [[-> ->]|(-> & ? & ? & ->)]; [done|]. unfold find_first. cbn [List.find].
      by rewrite bool_decide_true.
    + intros x (s & _ & ->)%elem_of_spec_nodes. apply andb_false_r.
    + intros x Hx%Hold. by rewrite bool_decide_false.
Qed.

Lemma expand_makes_join_witness :
  map tn_id (children_of (exec_call (CExpand "a2" "w2" [spec_new "a2x" "deeper" Explore]) demo_graph).2 "a2")
  = ["a2x"].
Proof.
  destruct (expand_node "a2" "w2" [spec_new "a2x" "deeper" Explore] demo_graph) as [[out|e] g'] eqn:E;
    [|by vm_compute in E].
  destruct (expand_makes_join Deep "a2" "w2" [spec_new "a2x" "deeper" Explore] demo_graph g' out
    demo_reachable E) as (_ & H & _).
  unfold exec_call. rewrite E. simpl. rewrite H. reflexivity.
Defined.

(** ** Scheduling *)

Lemma sched_leb_total a b : sched_leb a b = true ∨ sched_leb b a = true.
Proof.
  unfold sched_leb. rewrite (Z.compare_antisym (tn_priority a) (tn_priority b)).
  destruct (Z.compare (tn_priority a) (tn_priority b)); simpl; auto. apply String.leb_total.
Qed.

Lemma sched_leb_true a b :
  sched_leb a b = true ↔
  (tn_priority a < tn_priority b)%Z
  ∨ tn_priority a = tn_priority b ∧ String.leb (tn_id a) (tn_id b) = true.
Proof. unfold sched_leb. destruct (Z.compare_spec (tn_priority a) (tn_priority b)); naive_solver lia. Qed.

Lemma sched_leb_trans a b c : sched_leb a b = true → sched_leb b c = true → sched_leb a c = true.
Proof.
  rewrite !sched_leb_true. intros [?|[? ?]] [?|[? ?]]; [left; lia..|right].
  split; [lia|by eapply string_leb_trans].
Qed.

Lemma get_perm g1 g2 v :
  NoDup (ids g1) → g_nodes g1 ≡ₚ g_nodes g2 → get g1 v = get g2 v.
Proof.
  intros Hnd Hp. assert (NoDup (ids g2)) as Hnd2 by (unfold ids; by rewrite <- Hp).
  destruct (get g1 v) as [n|] eqn:E1; symmetry.
  - apply get_Some in E1 as [Hn <-]. apply get_of_elem; [done|]. by rewrite <- Hp.
  - rewrite get_None in *. unfold ids. by rewrite <- Hp.
Qed.

(** The ready set is exactly the queued nodes all of whose dependencies
    exist and are [Done], listed by priority and then by id; the listing
    depends on the nodes only, not on the order they were inserted in. *)
Theorem ready_nodes_exact_and_ordered (g : TaskGraph) :
  NoDup (ids g) →
  (∀ n, n ∈ ready_nodes g ↔
     n ∈ g_nodes g ∧ tn_status n = Queued
     ∧ ∀ d, d ∈ tn_depends_on n → ∃ x, x ∈ g_nodes g ∧ tn_id x = d ∧ tn_status x = Done)
  ∧ NoDup (ready_nodes g)
  ∧ StronglySorted (λ a b, (tn_priority a < tn_priority b)%Z
       ∨ tn_priority a = tn_priority b ∧ String.leb (tn_id a) (tn_id b) = true) (ready_nodes g)
  ∧ ∀ g2, g_nodes g ≡ₚ g_nodes g2 → ready_nodes g = ready_nodes g2.
Proof.
  intros Hnd. assert (NoDup (g_nodes g)) as Hn2 by (by eapply NoDup_fmap_1). split_and!.
  - intros n. rewrite elem_of_ready_nodes, is_ready_true. do 2 apply and_iff_compat_l.
    apply forall_proper; intros d. apply imp_iff_compat_l. split.
    + intros (x & [Hx Hid]%get_Some & Hs). eauto.
    + intros (x & Hx & <- & Hs). exists x. by rewrite get_of_elem.
  - unfold ready_nodes. rewrite sort_by_perm. by apply NoDup_List_filter.
  - eapply StronglySorted_weaken; [|apply sort_by_sorted; [apply sched_leb_total|apply sched_leb_trans]].
    intros a b. by rewrite sched_leb_true.
  - intros g2 Hp. apply sort_by_perm_eq; [apply sched_leb_total|apply sched_leb_trans|..].
    + intros x y [Hx _]%elem_of_List_filter [Hy _]%elem_of_List_filter.
      rewrite !sched_leb_true. intros [?|[? H1]] [?|[? H2]]; try lia.
      apply (ids_node_unique g); [done..|]. by apply String.leb_antisym.
    + rewrite (List_filter_perm _ _ _ Hp), (List.filter_ext (is_ready g) (is_ready g2)); [done|].
      intros n. unfold is_ready, deps_satisfied. f_equal.
      induction (tn_depends_on n) as [|d l IH]; simpl; [done|]. by rewrite IH, (get_perm g g2).
Qed.

Lemma ready_nodes_exact_and_ordered_witness : NoDup (ready_nodes demo_idle_graph).
Proof.
  apply (ready_nodes_exact_and_ordered demo_idle_graph).
  apply (bool_decide_unpack (NoDup (ids demo_idle_graph))). vm_compute. exact I.
Defined.

(** ** Worker input *)

Lemma upstream_all_done g n :
  struct_inv g → n ∈ g_nodes g →
  (∀ d, d ∈ g_nodes g → tn_id d ∈ tn_depends_on n → tn_status d = Done) →
  map tn_id (upstream g n) = tn_depends_on n ∧ ∀ d, d ∈ upstream g n → d ∈ g_nodes g ∧ tn_status d = Done.
Proof.
  intros Hg Hn Hdone. unfold upstream.
  assert (∀ l, (∀ x, x ∈ l → x ∈ tn_depends_on n) →
    let u := omap (get g) l in map tn_id u = l ∧ ∀ d, d ∈ u → d ∈ g_nodes g ∧ tn_status d = Done) as Hl.
  { induction l as [|x l IH]; intros Hall u; [split; [done|by intros ? ?%elem_of_nil]|].
    destruct IH as [IH1 IH2]; [intros y Hy; apply Hall; by right|].
    pose proof (Hall x (list_elem_of_here _ _)) as Hx.
    destruct (proj2 (get_is_Some g x)) as [y Hy]; [by eapply (si_closed Hg)|].
    assert (u = y :: omap (get g) l) as -> by (unfold u; simpl; by rewrite Hy).
    apply get_Some in Hy as [Hy <-]. simpl. rewrite IH1. split; [done|].
    intros d [->|?]%elem_of_cons; auto. }
  destruct (Hl (tn_depends_on n)) as [H1 H2]; [done|]. rewrite List_filter_all; [done|].
  intros d Hd. unfold is_done. apply bool_decide_eq_true. by apply H2.
Qed.

(** The input a running work node or composite gate is handed carries the
    full handoff of its whole upstream: its own content, then one section per
    dependency, in dependency order and none missing, rendered from that
    dependency's recorded artifact. *)
Theorem running_input_is_complete (m : Mode) (g : TaskGraph) (n : TaskNode) :
  reachable m g → n ∈ g_nodes g → tn_status n = Running → is_root_gate n = false →
  tn_depends_on n ≠ [] →
  ∃ inputs : list (TaskNode * HandoffArtifact),
    map (λ i, tn_id i.1) inputs = tn_depends_on n
    ∧ (∀ d a, (d, a) ∈ inputs → d ∈ g_nodes g ∧ tn_status d = Done ∧ tn_output d = Some a)
    ∧ assemble_input g (tn_id n) =
        tn_content n +:+ newline +:+ newline +:+ "# Inputs from completed dependencies" +:+ newline
        +:+ str_concat (map (λ i, newline +:+ render_section i.2 (tn_id i.1) (kind_label (tn_kind i.1))) inputs).
Proof.
  intros [Hg Hd]%dag_inv_reachable Hn Hs Hroot Hne.
  destruct (upstream_all_done g n Hg Hn) as [Hids Hall].
  { intros d Hd' Hin. apply (di_deps Hd n d); try done. right. split; [congruence|done]. }
  exists (map (λ d, (d, default artifact_default (tn_output d))) (upstream g n)).
  assert (∀ d, d ∈ upstream g n → tn_output d = Some (default artifact_default (tn_output d))) as Hout.
  { intros d [Hin Hds]%Hall. by destruct (no_done _ (di_node Hd d Hin) Hds) as [a ->]. }
  split_and!.
  - by rewrite map_map.
  - intros d a (x & [= -> ->] & Hx)%list_elem_of_fmap. destruct (Hall x Hx). auto.
  - unfold assemble_input. rewrite get_of_elem by (done || apply Hg).
    destruct (upstream g n) as [|d ds] eqn:Hu; [by rewrite <- Hids in Hne|].
    rewrite <- Hu in *. do 5 f_equal. rewrite map_map. f_equal. apply map_ext_in.
    intros x Hx%list_elem_of_In. unfold dep_section. by rewrite (Hout x Hx).
Qed.

Lemma running_input_is_complete_witness :
  ∃ inputs : list (TaskNode * HandoffArtifact), map (λ i, tn_id i.1) inputs = ["a1"; "a2"].
Proof.
  destruct (get demo_gate_graph "a::gate") as [n|] eqn:E; [|by vm_compute in E].
  pose proof (get_Some _ _ _ E) as [Hn Hid].
  destruct (running_input_is_complete Deep demo_gate_graph n demo_gate_reachable Hn) as (i & Hi & _).
  1-3: vm_compute in E; by injection E as <-.
  exists i. vm_compute in E. by injection E as <-.
Defined.

(** ** Gate ids *)

(** The search for a gate id ends after at most one candidate more than
    there are nodes, and its result is an id no node has. *)
Theorem unique_gate_id_fresh (g : TaskGraph) (node_id : NodeId) :
  is_Some (gate_id_loop (S (graph_len g)) g (node_id +:+ "::gate") 2)
  ∧ contains g (unique_gate_id g node_id) = false.
Proof.
  split; [apply gate_id_loop_total|]. apply contains_false, unique_gate_id_not_in.
Qed.
