(* ===== verification/Sim.v ===== *)
(** * The deterministic simulator

    crates/jcode-plan/src/dag/sim.rs: drive the engine with scripted workers
    until the graph is terminal, stalls, or the step budget is spent.  The
    loop is written with fuel; [S max_steps] iterations are shown to be
    enough for every worker. *)

From stdpp Require Import base list strings gmap relations pretty.
From S2P Require Import Prelude RustString Confidence Dag Kahn DagCycle Mention DagOps Schedule.
From S2P Require Import DagInv DagGrow DagSafety DagClaims.

Open Scope string_scope.
Open Scope nat_scope.
Open Scope list_scope.

Inductive WorkerAction : Type :=
| AComplete (a : HandoffArtifact)
| AExpand (children : list NodeSpec)
| AInjectGap (new_nodes : list NodeSpec)
| AFail.

Record SimReport := mkReport { steps : nat; completed : nat; failed : nat; stalled : bool }.

Definition report (g : TaskGraph) (n : nat) (st : bool) : SimReport :=
  mkReport n (length (List.filter is_done (g_nodes g)))
    (length (List.filter (λ n, bool_decide (tn_status n = Failed)) (g_nodes g))) st.

(** The mutation a worker's decision asks for. *)
Definition apply_action (node_id worker_name : string) (act : WorkerAction) : dagM unit :=
  match act with
  | AComplete a => complete_node node_id worker_name a
  | AExpand children => run! expand_node node_id worker_name children; st_ret tt
  | AInjectGap new_nodes => run! inject_from_gate node_id worker_name new_nodes; st_ret tt
  | AFail => fail_node node_id worker_name
  end.

Section Run.
(** The worker closure: [FnMut], so it threads a state of its own. *)
Context {W : Type} (worker : W → string → NodeKind → string → WorkerAction * W).
Context (max_workers max_steps : nat).

(** [for (idx, (node_id, kind)) in ready.into_iter().enumerate()]. *)
Fixpoint run_batch (idx : nat) (ready : list (string * NodeKind)) (n : nat) (w : W) (g : TaskGraph)
  : result (nat * W) DagError * TaskGraph :=
  match ready with
  | [] => (Ok (n, w), g)
  | (node_id, kind) :: ready' =>
      let worker_name := "w" +:+ pretty (idx `mod` max_workers) in
      match dispatch node_id worker_name g with
      | (false, g1) => run_batch (S idx) ready' n w g1
      | (true, g1) =>
          let '(act, w1) := worker w node_id kind (assemble_input g1 node_id) in
          match apply_action node_id worker_name act g1 with
          | (Err e, g2) => (Err e, g2)
          | (Ok _, g2) => run_batch (S idx) ready' (S n) w1 g2
          end
      end
  end.

Definition ready_batch (g : TaskGraph) : list (string * NodeKind) :=
  map (λ n, (tn_id n, tn_kind n)) (take max_workers (ready_nodes g)).

Fixpoint run (fuel : nat) (n : nat) (w : W) (g : TaskGraph)
  : option (result SimReport DagError * TaskGraph) :=
  match fuel with
  | O => None
  | S fuel' =>
      if all_terminal g then Some (Ok (report g n false), g)
      else if max_steps <=? n then Some (Ok (report g n true), g)
      else
        match ready_batch g with
        | [] => Some (Ok (report g n true), g)
        | batch =>
            match run_batch 0 batch n w g with
            | (Err e, g') => Some (Err e, g')
            | (Ok (n', w'), g') => run fuel' n' w' g'
            end
        end
  end.
End Run.

(** [sim::deep_artifact]. *)
Definition deep_artifact (f : string) : HandoffArtifact :=
  mkArtifact f [] [] None [] (Some "high") ["nothing material; covered the stated scope"].

(** [rest.split(" (").next()]. *)
Definition before_paren (rest : string) : string :=
  match str_find " (" rest with Some i => str_take i rest | None => rest end.

(** [sim::gate_pass_artifact]: name every audited node of the gate's input. *)
Definition gate_pass_artifact (input : string) : HandoffArtifact :=
  let audited := map before_paren (omap (strip_prefix "## ") (lines input)) in
  brief (match audited with
         | [] => "gate passed: no audited nodes in scope"
         | _ => "gate passed; audited each node: " +:+ String.concat ", " audited +:+ ". No gaps remain."
         end).

(** ** One batch *)

Definition quiet (g : TaskGraph) : Prop := ∀ n, n ∈ g_nodes g → tn_status n ≠ Running.

Lemma apply_action_step id name act g g' :
  apply_action id name act g = (Ok tt, g') → dag_step g g'.
Proof.
  destruct act; simpl; unfold st_bind, st_ret.
  - apply step_complete.
  - destruct (expand_node _ _ _ g) as [[out|] g1] eqn:E; [|done]. intros [= <-]. by eapply step_expand.
  - destruct (inject_from_gate _ _ _ g) as [[out|] g1] eqn:E; [|done]. intros [= <-]. by eapply step_inject.
  - apply step_fail.
Qed.

Lemma apply_action_err id name act g e g' : apply_action id name act g = (Err e, g') → g' = g.
Proof.
  destruct act as [a|cs|specs|]; simpl; unfold st_bind, st_ret.
  - intros H. apply (exec_call_err (CComplete id name a) g (Some e)). simpl. by rewrite H.
  - destruct (expand_node _ _ _ _) as [[|e'] g3] eqn:E; [done|]. intros [= -> ->].
    apply (exec_call_err (CExpand id name cs) g (Some e)). simpl. by rewrite E.
  - destruct (inject_from_gate _ _ _ _) as [[|e'] g3] eqn:E; [done|]. intros [= -> ->].
    apply (exec_call_err (CInject id name specs) g (Some e)). simpl. by rewrite E.
  - intros H. apply (exec_call_err (CFail id name) g (Some e)). simpl. by rewrite H.
Qed.

Lemma inject_upd_status gid par new_ids n :
  tn_status (inject_upd gid par new_ids n) = if decide (tn_id n = gid) then Queued else tn_status n.
Proof.
  unfold inject_upd. assert (tn_status (upd_at gid (requeue_gate new_ids) n)
    = if decide (tn_id n = gid) then Queued else tn_status n) as Hu.
  { case_decide; [by rewrite upd_at_eq|by rewrite upd_at_ne]. }
  destruct par as [p|]; [|done]. by rewrite (upd_at_field tn_status).
Qed.

(** After its worker acted, a node is not running, and no other node started. *)
Lemma apply_action_running id name act g g' n' :
  struct_inv g → apply_action id name act g = (Ok tt, g') → n' ∈ g_nodes g' → tn_status n' = Running →
  ∃ n, n ∈ g_nodes g ∧ tn_id n ≠ id ∧ tn_status n = Running.
Proof.
  intros Hg H Hn Hs. destruct act as [a|cs|specs|]; simpl in H; unfold st_bind, st_ret in H.
  - apply complete_node_ok in H as (x & _ & _ & _ & _ & _ & ->).
    apply elem_of_update_node in Hn as [[? ?]|(y & _ & _ & ->)]; [eauto|done|apply Hg|done].
  - destruct (expand_node _ _ _ g) as [[out|] g1] eqn:E; [|done]. injection H as <-.
    destruct (expand_grown _ _ _ _ _ _ Hg E) as (x & k & gates & _ & _ & _ & _ & _ & Hq & _ & -> & _).
    apply elem_of_grown in Hn as [(y & Hy & ->)|[Hn|Hn]].
    + unfold upd_at in Hs. destruct (has_id id y) eqn:Hi.
      * destruct (flip_fields (k ++ map tn_id gates) y) as (_ & _ & _ & _ & _ & ? & _). congruence.
      * exists y. split_and!; [done| |done]. intros ?%has_id_true. congruence.
    + apply spec_nodes_queued in Hn as [? _]. congruence.
    + destruct (Hq _ Hn). congruence.
  - destruct (inject_from_gate _ _ _ g) as [[out|] g1] eqn:E; [|done]. injection H as <-.
    destruct (inject_grown _ _ _ _ _ _ Hg E) as (x & _ & _ & _ & _ & _ & _ & _ & -> & _).
    apply elem_of_grown in Hn as [(y & Hy & ->)|[Hn|Hn%elem_of_nil]]; [..|done].
    + rewrite inject_upd_status in Hs. exists y. case_decide; done.
    + apply spec_nodes_queued in Hn as [? _]. congruence.
  - apply fail_node_ok in H as (x & _ & _ & _ & ->).
    apply elem_of_update_node in Hn as [[? ?]|(y & _ & _ & ->)]; [eauto|done|apply Hg|done].
Qed.

(** One worker turn: dispatch, decide, apply. *)
Lemma turn_spec m id name act g g1 g2 :
  reachable m g → quiet g → dispatch id name g = (true, g1) → apply_action id name act g1 = (Ok tt, g2) →
  reachable m g2 ∧ quiet g2.
Proof.
  intros Hr Hq Hd Ha.
  assert (reachable m g1) as Hr1 by (eapply rtc_r; [exact Hr|by eapply step_dispatch]).
  split; [eapply rtc_r; [exact Hr1|by eapply apply_action_step]|].
  destruct (dag_inv_reachable _ _ Hr) as [Hg _]. destruct (dag_inv_reachable _ _ Hr1) as [Hg1 _].
  intros n Hn Hs. destruct (apply_action_running _ _ _ _ _ _ Hg1 Ha Hn Hs) as (x & Hx & Hne & Hxs).
  apply dispatch_ok in Hd as (y & _ & _ & _ & ->).
  apply elem_of_update_node in Hx as [[Hx _]|(z & _ & Hz & ->)]; [by eapply Hq|done|apply Hg|done].
Qed.

Section RunFacts.
Context {W : Type} (worker : W → string → NodeKind → string → WorkerAction * W).
Context (max_workers max_steps : nat) (m : Mode).

Lemma batch_reachable idx ready n w g r g' :
  reachable m g → quiet g → run_batch worker max_workers idx ready n w g = (r, g') →
  reachable m g' ∧
  ∀ n' w', r = Ok (n', w') → quiet g' ∧ n ≤ n' ≤ n + length ready.
Proof.
  revert idx n w g. induction ready as [|[id kind] ready IH]; intros idx n w g Hr Hq; simpl.
  { intros [= <- <-]. split; [done|]. intros n' w' [= <- _]. split; [done|lia]. }
  destruct (dispatch id _ g) as [[] g1] eqn:Hd.
  - destruct (worker w id kind _) as [act w1].
    destruct (apply_action id _ act g1) as [[[]|e] g2] eqn:Ha.
    + destruct (turn_spec _ _ _ _ _ _ _ Hr Hq Hd Ha) as [Hr2 Hq2]. intros H.
      destruct (IH _ _ _ _ Hr2 Hq2 H) as [? Hb]. split; [done|]. intros n' w' E.
      destruct (Hb _ _ E). split; [done|lia].
    + intros [= <- <-]. split; [|done].
      assert (reachable m g1) as Hr1 by (eapply rtc_r; [exact Hr|by eapply step_dispatch]).
      by rewrite (apply_action_err _ _ _ _ _ _ Ha).
  - assert (g1 = g) as ->.
    { unfold dispatch in Hd. destruct (get g id) as [x|]; [destruct (is_ready g x)|]; congruence. }
    intros H. destruct (IH _ _ _ _ Hr Hq H) as [? Hb]. split; [done|]. intros n' w' E.
    destruct (Hb _ _ E). split; [done|lia].
Qed.

(** The first node of a non-empty batch is dispatched: a batch takes a step. *)
Lemma batch_advances n w g r g' n' w' :
  reachable m g → quiet g → ready_batch max_workers g ≠ [] →
  run_batch worker max_workers 0 (ready_batch max_workers g) n w g = (r, g') →
  r = Ok (n', w') → n < n'.
Proof.
  intros Hr Hq Hne. destruct (ready_batch max_workers g) as [|[id kind] batch] eqn:Eb; [done|].
  assert ((id, kind) ∈ ready_batch max_workers g) as Hin by (rewrite Eb; left).
  apply list_elem_of_fmap in Hin as (x & [= -> ->] & Hx).
  assert (x ∈ ready_nodes g) as [Hxg Hready]%elem_of_ready_nodes.
  { rewrite <- (take_drop max_workers (ready_nodes g)). apply elem_of_app. by left. }
  destruct (dag_inv_reachable _ _ Hr) as [Hg _].
  simpl. destruct (dispatch (tn_id x) _ g) as [b g1] eqn:Hd.
  unfold dispatch in Hd. rewrite (get_of_elem g x (si_nodup Hg) Hxg), Hready in Hd.
  pose proof Hd as Hd'. injection Hd' as <- <-.
  destruct (worker w (tn_id x) (tn_kind x) _) as [act w1].
  destruct (apply_action _ _ act _) as [[[]|e] g2] eqn:Ha; [|by intros [= <- <-]].
  intros H E. eassert (dispatch (tn_id x) _ g = (true, _)) as Hdisp.
  { unfold dispatch. rewrite (get_of_elem g x (si_nodup Hg) Hxg), Hready. reflexivity. }
  destruct (turn_spec m _ _ _ g _ _ Hr Hq Hdisp Ha) as [Hr2 Hq2].
  destruct (batch_reachable _ _ _ _ _ _ _ Hr2 Hq2 H) as [_ Hb].
  destruct (Hb _ _ E) as [_ ?]. lia.
Qed.
End RunFacts.

(** ** Whole runs *)

(** What a report says of the graph it was taken from. *)
Definition outcome_ok (max_workers max_steps : nat) (rep : SimReport) (g : TaskGraph) : Prop :=
  rep = report g (steps rep) (stalled rep)
  ∧ if stalled rep
    then all_terminal g = false
         ∧ (max_steps ≤ steps rep ∨ max_workers = 0 ∨ ∃ n, n ∈ g_nodes g ∧ tn_status n = Failed)
    else all_terminal g = true.

(** A quiet graph without ready nodes is finished or has a failed node. *)
Lemma stall_has_failure m g :
  reachable m g → quiet g → all_terminal g = false → ready_nodes g = [] →
  ∃ n, n ∈ g_nodes g ∧ tn_status n = Failed.
Proof.
  intros [Hg _]%dag_inv_reachable Hq (n & Hn & Ht)%forallb_false Hnil. pose proof (Hq n Hn) as Hr.
  unfold is_terminal in Ht. destruct (tn_status n) eqn:Hs; try done.
  destruct (queued_progress g n Hg Hn Hs) as [(r & Hin)|(d & Hd & H1 & H2)].
  - rewrite Hnil in Hin. by apply elem_of_nil in Hin.
  - exists d. pose proof (Hq d Hd). split; [done|]. by destruct (tn_status d).
Qed.

Lemma ready_batch_nil max_workers g :
  ready_batch max_workers g = [] → max_workers = 0 ∨ ready_nodes g = [].
Proof.
  unfold ready_batch. destruct max_workers; [by left|]. destruct (ready_nodes g); [by right|done].
Qed.

Lemma length_ready_batch max_workers g : length (ready_batch max_workers g) ≤ max_workers.
Proof. unfold ready_batch. rewrite length_map, length_take. lia. Qed.

Section Runs.
Context {W : Type} (worker : W → string → NodeKind → string → WorkerAction * W).
Context (max_workers max_steps : nat) (m : Mode).

Lemma run_spec fuel n w g :
  reachable m g → quiet g → max_steps - n < fuel → n ≤ max_steps + max_workers →
  ∃ r g', run worker max_workers max_steps fuel n w g = Some (r, g') ∧ reachable m g' ∧
    ∀ rep, r = Ok rep → outcome_ok max_workers max_steps rep g' ∧ steps rep ≤ max_steps + max_workers.
Proof.
  revert n w g. induction fuel as [|fuel IH]; intros n w g Hr Hq Hf Hn; [lia|]. cbn [run].
  destruct (all_terminal g) eqn:Ht.
  { do 2 eexists. split_and!; [done..|]. by intros rep [= <-]. }
  destruct (Nat.leb_spec max_steps n) as [Hs|Hs].
  { do 2 eexists. split_and!; [done..|]. intros rep [= <-]. split; [|done]. split; [done|]. simpl. auto. }
  destruct (ready_batch max_workers g) as [|p batch] eqn:Eb.
  { do 2 eexists. split_and!; [done..|]. intros rep [= <-]. split; [|done]. split; [done|].
    simpl. split; [done|]. right. apply ready_batch_nil in Eb as [?|?]; [by left|right].
    by eapply stall_has_failure. }
  destruct (run_batch worker max_workers 0 _ n w g) as [r g'] eqn:Hb.
  destruct (batch_reachable worker max_workers m _ _ _ _ _ _ _ Hr Hq Hb) as [Hr' Hok].
  destruct r as [[n' w']|e]; [|do 2 eexists; by split_and!].
  destruct (Hok n' w' eq_refl) as [Hq' Hbound].
  pose proof (length_ready_batch max_workers g) as Hlen. rewrite Eb in Hlen.
  assert (n < n').
  { eapply (batch_advances worker max_workers m); [exact Hr|exact Hq|by rewrite Eb|by rewrite Eb|done]. }
  apply IH; [done..|lia|lia].
Qed.
End Runs.

(** ** A plan of cooperative workers *)

Definition pending (g : TaskGraph) : nat := length (List.filter (λ n, negb (is_done n)) (g_nodes g)).

Definition no_failed (g : TaskGraph) : Prop := ∀ n, n ∈ g_nodes g → tn_status n ≠ Failed.

Lemma pending_update id f g n :
  NoDup (ids g) → get g id = Some n → is_done n = false → is_done (f n) = true →
  S (pending (update_node id f g)) = pending g.
Proof.
  unfold pending, get, update_node, ids. simpl.
  induction (g_nodes g) as [|x l IH]; simpl; intros Hnd Hget Hn Hf; [done|].
  apply NoDup_cons in Hnd as [_ Hnd]. destruct (has_id id x) eqn:E; simpl.
  - injection Hget as ->. by rewrite Hn, Hf.
  - specialize (IH Hnd Hget Hn Hf). destruct (negb (is_done x)); simpl; by rewrite IH.
Qed.

Lemma pending_update_same id f g :
  (∀ n, n ∈ g_nodes g → tn_id n = id → is_done (f n) = is_done n) →
  pending (update_node id f g) = pending g.
Proof.
  unfold pending, update_node. simpl. induction (g_nodes g) as [|x l IH]; simpl; intros Hf; [done|].
  destruct (has_id id x) eqn:E; simpl.
  - rewrite Hf; [by destruct (negb (is_done x))|left|by apply has_id_true].
  - assert (length (List.filter (λ n, negb (is_done n)) (update_first (has_id id) f l))
      = length (List.filter (λ n, negb (is_done n)) l)) as Hl by (apply IH; intros; apply Hf; [by right|done]).
    destruct (negb (is_done x)); simpl; by rewrite Hl.
Qed.

Lemma pending_0_done g : pending g = 0 ↔ ∀ n, n ∈ g_nodes g → tn_status n = Done.
Proof.
  unfold pending. rewrite length_zero_iff_nil, filter_negb_nil.
  apply forall_proper; intros n. apply imp_iff_compat_l. unfold is_done. apply bool_decide_eq_true.
Qed.

Section Cooperative.
Context {W : Type} (f : W → string → NodeKind → string → HandoffArtifact * W).
Context (max_workers : nat).

(** A worker that completes whatever it is handed. *)
Definition completing (w : W) (id : string) (k : NodeKind) (input : string) : WorkerAction * W :=
  let '(a, w') := f w id k input in (AComplete a, w').

(** A turn in light mode cannot fail and finishes one node. *)
Lemma light_turn id name a g g1 :
  reachable Light g → no_failed g → dispatch id name g = (true, g1) →
  ∃ g2, complete_node id name a g1 = (Ok tt, g2) ∧ no_failed g2 ∧ S (pending g2) = pending g.
Proof.
  intros Hr Hnf Hd.
  assert (reachable Light g1) as Hr1 by (eapply rtc_r; [exact Hr|by eapply step_dispatch]).
  destruct (dag_inv_reachable _ _ Hr) as [Hg _]. destruct (dag_inv_reachable _ _ Hr1) as [Hg1 _].
  pose proof (reachable_mode _ _ Hr1) as Hmode.
  apply dispatch_ok in Hd as (x & Hget & Hq & _ & E).
  set (fd := λ m, set_status Running (set_owner (Some name) m)) in E.
  assert (get g1 id = Some (fd x)) as Hget1.
  { subst g1. rewrite get_update_node, decide_True, Hget; done. }
  eexists. split; [|split].
  - unfold complete_node, st_modify, st_guard, st_bind, st_get, st_lift, st_ret, st_err, ok_or.
    rewrite Hget1, !bool_decide_false by auto. unfold validate_artifact. rewrite Hmode. simpl.
    rewrite andb_false_r. reflexivity.
  - intros n Hn. apply elem_of_update_node in Hn as [[Hn _]|(y & _ & _ & ->)]; [|done|apply Hg1|done].
    rewrite E in Hn. apply elem_of_update_node in Hn as [[Hn _]|(y & _ & _ & ->)]; [by apply Hnf|done|apply Hg|done].
  - rewrite (pending_update id _ g1 (fd x)); [|apply Hg1|done..]. rewrite E. apply pending_update_same.
    intros n Hn He. apply get_Some in Hget as [Hx Hid].
    rewrite (ids_node_unique g n x) by (congruence || apply Hg). unfold is_done. by rewrite Hq.
Qed.

Lemma light_batch idx ready n w g :
  reachable Light g → quiet g → no_failed g →
  ∃ n' w' g', run_batch completing max_workers idx ready n w g = (Ok (n', w'), g')
    ∧ no_failed g' ∧ n' + pending g' = n + pending g.
Proof.
  revert idx n w g. induction ready as [|[id kind] ready IH]; intros idx n w g Hr Hq Hnf; simpl; [by eauto 10|].
  destruct (dispatch id _ g) as [[] g1] eqn:Hd.
  - unfold completing at 1. destruct (f w id kind _) as [a w1].
    destruct (light_turn _ _ a _ _ Hr Hnf Hd) as (g2 & Ha & Hnf2 & Hp).
    destruct (turn_spec Light _ _ (AComplete a) _ _ _ Hr Hq Hd Ha) as [Hr2 Hq2].
    cbn [apply_action]. rewrite Ha.
    destruct (IH (S idx) (S n) w1 g2 Hr2 Hq2 Hnf2) as (n' & w' & g' & ? & ? & ?).
    exists n', w', g'. split_and!; [done..|lia].
  - assert (g1 = g) as ->; [|by apply IH].
    unfold dispatch in Hd. destruct (get g id) as [x|]; [destruct (is_ready g x)|]; congruence.
Qed.

Lemma light_run max_steps fuel n w g :
  max_workers ≠ 0 → reachable Light g → quiet g → no_failed g →
  n + pending g ≤ max_steps → pending g < fuel →
  ∃ g', run completing max_workers max_steps fuel n w g
          = Some (Ok (report g' (n + pending g) false), g')
    ∧ (∀ x, x ∈ g_nodes g' → tn_status x = Done).
Proof.
  intros Hw. revert n w g. induction fuel as [|fuel IH]; intros n w g Hr Hq Hnf Hms Hfu; [lia|]. cbn [run].
  destruct (all_terminal g) eqn:Ht.
  { assert (∀ x, x ∈ g_nodes g → tn_status x = Done) as Hall.
    { intros x Hx. unfold all_terminal in Ht. rewrite List.forallb_forall in Ht.
      pose proof (Hnf x Hx). apply list_elem_of_In, Ht in Hx. unfold is_terminal in Hx.
      by destruct (tn_status x). }
    exists g. split; [|done]. apply pending_0_done in Hall. by rewrite Hall, Nat.add_0_r. }
  assert (pending g ≠ 0) as Hpos.
  { intros Hall. rewrite pending_0_done in Hall. apply forallb_false in Ht as (x & Hx & Hterm).
    unfold is_terminal in Hterm. by rewrite Hall in Hterm. }
  destruct (Nat.leb_spec max_steps n) as [Hs|Hs]; [lia|].
  destruct (ready_batch max_workers g) as [|p batch] eqn:Eb.
  { apply ready_batch_nil in Eb as [?|Hnil]; [done|].
    destruct (stall_has_failure _ _ Hr Hq Ht Hnil) as (x & Hx & Hf). by apply Hnf in Hf. }
  destruct (light_batch 0 (p :: batch) n w g Hr Hq Hnf) as (n' & w' & g' & Hb & Hnf' & Hp).
  rewrite Hb. destruct (batch_reachable completing max_workers Light _ _ _ _ _ _ _ Hr Hq Hb) as [Hr' Hok].
  destruct (Hok n' w' eq_refl) as [Hq' _].
  assert (n < n') as Hlt by (eapply (batch_advances completing max_workers Light); [exact Hr|exact Hq|by rewrite Eb|by rewrite Eb|done]).
  rewrite <- Hp. apply IH; [done..|lia|lia].
Qed.
End Cooperative.

(** ** Theorems *)

(** C38: for every worker, a simulation of a quiet reachable graph ends within
    [max_steps + 1] rounds, leaves a graph the engine could reach, never takes
    more than [max_steps + max_workers] steps, and its report is right: a run
    that is not stalled left only terminal nodes, and one that stalled ran out
    of steps, had no workers, or is blocked by a failed node. *)
Theorem simulation_terminates_soundly {W : Type} (worker : W → string → NodeKind → string → WorkerAction * W)
    (max_workers max_steps : nat) (m : Mode) (w : W) (g : TaskGraph) :
  reachable m g → quiet g →
  ∃ r g', run worker max_workers max_steps (S max_steps) 0 w g = Some (r, g') ∧ reachable m g' ∧
    ∀ rep, r = Ok rep → outcome_ok max_workers max_steps rep g' ∧ steps rep ≤ max_steps + max_workers.
Proof. intros Hr Hq. apply run_spec; [done..|lia|lia]. Qed.

(** A worker that fails [b] and completes everything else. *)
Definition fails_b (w : unit) (id : string) (k : NodeKind) (input : string) : WorkerAction * unit :=
  (if bool_decide (id = "b") then AFail else AComplete (deep_artifact "ok"), tt).

Definition light_calls : list Call :=
  [CSeed [spec_new "a" "first" Explore; spec_depends_on (spec_new "b" "second" Fix) ["a"];
          spec_depends_on (spec_new "c" "third" Fix) ["b"]]].
Definition light_graph : TaskGraph := Eval vm_compute in run_calls light_calls (graph_new Light).

Lemma light_graph_reachable : reachable Light light_graph.
Proof. exact (run_calls_reachable Light light_calls). Qed.

Lemma light_graph_quiet : quiet light_graph ∧ no_failed light_graph.
Proof.
  split; intros n Hn; unfold light_graph in Hn; cbn [g_nodes] in Hn;
    repeat (apply elem_of_cons in Hn as [->|Hn]; [done|]); by apply elem_of_nil in Hn.
Qed.

Lemma simulation_terminates_soundly_witness :
  ∃ r g', run fails_b 2 10 11 0 tt light_graph = Some (r, g') ∧ reachable Light g'.
Proof.
  destruct (simulation_terminates_soundly fails_b 2 10 Light tt light_graph light_graph_reachable
    (proj1 light_graph_quiet)) as (r & g' & E & Hr & _).
  exists r, g'. split; [exact E|exact Hr].
Defined.

(** A light plan with workers that complete what they are handed finishes:
    with at least one worker and one step per unfinished node, the run is not
    stalled, takes exactly that many steps, and every node ends [Done]. *)
Theorem light_plan_finishes {W : Type} (f : W → string → NodeKind → string → HandoffArtifact * W)
    (max_workers max_steps : nat) (w : W) (g : TaskGraph) :
  reachable Light g → quiet g → no_failed g → max_workers ≠ 0 → pending g ≤ max_steps →
  ∃ g', run (completing f) max_workers max_steps (S max_steps) 0 w g
          = Some (Ok (report g' (pending g) false), g')
    ∧ (∀ n, n ∈ g_nodes g' → tn_status n = Done).
Proof. intros Hr Hq Hf Hw Hs. apply (light_run f max_workers max_steps (S max_steps) 0); [done..|lia]. Qed.

Lemma light_plan_finishes_witness :
  ∃ g', run (completing (λ (u : unit) _ _ _, (brief "ok", u))) 1 3 4 0 tt light_graph
          = Some (Ok (report g' 3 false), g')
    ∧ (∀ n, n ∈ g_nodes g' → tn_status n = Done).
Proof.
  apply (light_plan_finishes (λ (u : unit) _ _ _, (brief "ok", u)) 1 3 tt light_graph
    light_graph_reachable (proj1 light_graph_quiet) (proj2 light_graph_quiet)).
  - done.
  - vm_compute. lia.
Defined.
