(* ===== verification/Plan.v ===== *)
(** * The versioned swarm plan

    crates/jcode-plan/src/lib.rs: plan items with string statuses, their
    per-task progress and DAG metadata, the scheduler's summary of the plan,
    automatic assignment with reclaim of stranded tasks, and the task-control
    actions.  Hash maps are [gmap]s; where the code iterates a hash map in an
    unspecified order, the order is an argument and the result is shown not to
    depend on it. *)

From stdpp Require Import base list strings gmap sorting relations.
From S2P Require Import Prelude RustString Confidence Kahn Dag DagCycle.

Open Scope string_scope.
Open Scope nat_scope.
Open Scope list_scope.

Definition MAX_PLAN_ITEMS : nat := 1024.

(** ** Data *)

Record PlanItem := mkItem {
  pi_content : string;
  pi_status : string;
  pi_priority : string;
  pi_id : string;
  pi_subsystem : option string;
  pi_file_scope : list string;
  pi_blocked_by : list string;
  pi_assigned_to : option string }.

#[export] Instance PlanItem_eq_dec : EqDecision PlanItem.
Proof. solve_decision. Defined.

Record SwarmTaskProgress := mkProgress {
  tp_assigned_session_id : option string;
  tp_assignment_summary : option string;
  tp_assigned_at_unix_ms : option N;
  tp_started_at_unix_ms : option N;
  tp_last_heartbeat_unix_ms : option N;
  tp_last_detail : option string;
  tp_last_checkpoint_unix_ms : option N;
  tp_checkpoint_summary : option string;
  tp_completed_at_unix_ms : option N;
  tp_stale_since_unix_ms : option N;
  tp_heartbeat_count : option N;
  tp_checkpoint_count : option N;
  tp_no_artifact_requeues : option N;
  tp_dead_assignee_reclaims : option N }.

Definition progress_default : SwarmTaskProgress :=
  mkProgress None None None None None None None None None None None None None None.

Definition set_assigned_session_id (o : option string) (p : SwarmTaskProgress) : SwarmTaskProgress :=
  mkProgress o (tp_assignment_summary p) (tp_assigned_at_unix_ms p) (tp_started_at_unix_ms p)
    (tp_last_heartbeat_unix_ms p) (tp_last_detail p) (tp_last_checkpoint_unix_ms p)
    (tp_checkpoint_summary p) (tp_completed_at_unix_ms p) (tp_stale_since_unix_ms p)
    (tp_heartbeat_count p) (tp_checkpoint_count p) (tp_no_artifact_requeues p)
    (tp_dead_assignee_reclaims p).

(** The three assignments of [reclaim_stranded_assignment] to the progress. *)
Definition reclaim_progress (summary : string) (p : SwarmTaskProgress) : SwarmTaskProgress :=
  mkProgress None (tp_assignment_summary p) (tp_assigned_at_unix_ms p) (tp_started_at_unix_ms p)
    (tp_last_heartbeat_unix_ms p) (tp_last_detail p) (tp_last_checkpoint_unix_ms p)
    (Some summary) (tp_completed_at_unix_ms p) (tp_stale_since_unix_ms p)
    (tp_heartbeat_count p) (tp_checkpoint_count p) (tp_no_artifact_requeues p)
    (Some (u32_succ (default 0%N (tp_dead_assignee_reclaims p)))).

Record NodeMeta := mkMeta {
  nm_kind : option string;
  nm_parent : option string;
  nm_expanded : bool;
  nm_is_gate : bool;
  nm_planner : option string;
  nm_artifact_json : option string;
  nm_origin : option string }.

Definition meta_default : NodeMeta := mkMeta None None false false None None None.

Definition set_meta_planner (o : option string) (m : NodeMeta) : NodeMeta :=
  mkMeta (nm_kind m) (nm_parent m) (nm_expanded m) (nm_is_gate m) o (nm_artifact_json m) (nm_origin m).

Record VersionedPlan := mkPlan {
  vp_items : list PlanItem;
  vp_version : N;
  vp_participants : gset string;
  vp_task_progress : gmap string SwarmTaskProgress;
  vp_mode : string;
  vp_node_meta : gmap string NodeMeta }.

Definition plan_new : VersionedPlan := mkPlan [] 0 ∅ ∅ "light" ∅.

Record SwarmPlanItemSpec := mkItemSpec {
  is_id : string; is_content : string; is_priority : string;
  is_subsystem : option string; is_file_scope : list string; is_blocked_by : list string }.

Record SwarmPlanDefinition := mkDefinition {
  pd_version : N; pd_participants : list string; pd_items : list SwarmPlanItemSpec }.

Record SwarmExecutionItemState := mkExecItem {
  es_task_id : string; es_status : string; es_assigned_to : option string;
  es_progress : option SwarmTaskProgress }.

(** ** Plan maintenance *)

Definition item_ids (items : list PlanItem) : gset string := list_to_set (map pi_id items).

Definition prune_side_maps (p : VersionedPlan) : VersionedPlan :=
  let live := item_ids (vp_items p) in
  mkPlan (vp_items p) (vp_version p) (vp_participants p)
    (filter (λ kv, kv.1 ∈ live) (vp_task_progress p)) (vp_mode p)
    (filter (λ kv, kv.1 ∈ live) (vp_node_meta p)).

Definition replace_items (items : list PlanItem) (p : VersionedPlan) : VersionedPlan :=
  prune_side_maps (mkPlan items (vp_version p) (vp_participants p) (vp_task_progress p) (vp_mode p)
                     (vp_node_meta p)).

Definition rename_opt (old new : string) (o : option string) : option string :=
  if bool_decide (o = Some old) then Some new else o.

Definition rename_item (old new : string) (i : PlanItem) : PlanItem :=
  mkItem (pi_content i) (pi_status i) (pi_priority i) (pi_id i) (pi_subsystem i) (pi_file_scope i)
    (pi_blocked_by i) (rename_opt old new (pi_assigned_to i)).

Definition rename_session (old new : string) (p : VersionedPlan) : VersionedPlan :=
  mkPlan (map (rename_item old new) (vp_items p)) (vp_version p)
    (if decide (old ∈ vp_participants p) then {[new]} ∪ (vp_participants p ∖ {[old]})
     else vp_participants p)
    ((λ t, set_assigned_session_id (rename_opt old new (tp_assigned_session_id t)) t)
       <$> vp_task_progress p)
    (vp_mode p)
    ((λ m, set_meta_planner (rename_opt old new (nm_planner m)) m) <$> vp_node_meta p).

(** The iteration order of the participant set does not matter: it is sorted. *)
Definition plan_definition (p : VersionedPlan) : SwarmPlanDefinition :=
  mkDefinition (vp_version p) (sort_strings (elements (vp_participants p)))
    (map (λ i, mkItemSpec (pi_id i) (pi_content i) (pi_priority i) (pi_subsystem i)
                 (pi_file_scope i) (pi_blocked_by i)) (vp_items p)).

Definition execution_state (p : VersionedPlan) : list SwarmExecutionItemState :=
  map (λ i, mkExecItem (pi_id i) (pi_status i) (pi_assigned_to i) (vp_task_progress p !! pi_id i))
    (vp_items p).

(** ** Status predicates *)

Definition is_one_of (l : list string) (s : string) : bool := bool_decide (s ∈ l).

Definition is_completed_status : string → bool := is_one_of ["completed"; "done"].
Definition is_terminal_status : string → bool :=
  is_one_of ["completed"; "done"; "failed"; "stopped"; "crashed"].
Definition is_active_status : string → bool := is_one_of ["running"; "running_stale"].
Definition is_failed_status (s : string) : bool := is_terminal_status s && negb (is_completed_status s).
Definition is_runnable_status : string → bool := is_one_of ["queued"; "ready"; "pending"; "todo"].

(** ** Task control *)

Inductive TaskControlAction : Set := Start | Wake | Resume | Retry | Reassign | Replace | Salvage.

Definition action_parse (s : string) : option TaskControlAction :=
  if bool_decide (s = "start") then Some Start
  else if bool_decide (s = "wake") then Some Wake
  else if bool_decide (s = "resume") then Some Resume
  else if bool_decide (s = "retry") then Some Retry
  else if bool_decide (s = "reassign") then Some Reassign
  else if bool_decide (s = "replace") then Some Replace
  else if bool_decide (s = "salvage") then Some Salvage
  else None.

Definition action_as_str (a : TaskControlAction) : string :=
  match a with
  | Start => "start" | Wake => "wake" | Resume => "resume" | Retry => "retry"
  | Reassign => "reassign" | Replace => "replace" | Salvage => "salvage"
  end.

Definition coordinator_note (extra : string) : string :=
  "Additional coordinator instructions:" +:+ newline +:+ extra.

Definition combine_assignment_text (content : string) (message : option string) : string :=
  match message with
  | Some extra => content +:+ newline +:+ newline +:+ coordinator_note extra
  | None => content
  end.

Definition restart_instruction_prefix (a : TaskControlAction) : option string :=
  match a with
  | Resume => Some "Resume your assigned task from the current session context and continue the work."
  | Retry => Some "Retry your assigned task. Fix any earlier issues and continue toward completion."
  | _ => None
  end.

Definition build_control_assignment_text (a : TaskControlAction) (content : string)
    (message : option string) : string :=
  String.concat (newline +:+ newline)
    (option_list (restart_instruction_prefix a) ++ [content]
     ++ option_list (coordinator_note <$> message)).

Definition task_control_action_allows_status (a : TaskControlAction) (status : string) : bool :=
  match a with
  | Start | Wake => bool_decide (status = "queued")
  | Resume => is_one_of ["queued"; "running"; "running_stale"] status
  | Retry => is_one_of ["failed"; "running_stale"] status
  | Reassign | Replace | Salvage => negb (is_completed_status status)
  end.

Definition task_control_status_error (a : TaskControlAction) (status task_id : string) : string :=
  let is_status := "Task '" +:+ task_id +:+ "' is '" +:+ status in
  let is_complete := "Task '" +:+ task_id +:+ "' is already complete. " in
  match a with
  | Start => is_status +:+ "' and cannot be started. Use start only for queued assignments."
  | Wake => is_status +:+ "' and cannot be woken. Use wake only for queued assignments."
  | Resume => is_status +:+ "' and cannot be resumed safely."
  | Retry => is_status +:+ "' and cannot be retried. Retry is only for failed or stale work."
  | Reassign => is_complete +:+ "Reassign unfinished work instead."
  | Replace => is_complete +:+ "Replace is only for unfinished work."
  | Salvage => is_complete +:+ "Salvage is only for unfinished or failed work."
  end.

Definition priority_rank (p : string) : Z :=
  if is_one_of ["high"; "urgent"; "p0"] p then 0
  else if is_one_of ["medium"; "normal"; "p1"] p then 1
  else if is_one_of ["low"; "p2"] p then 2
  else 1.

(** ** Dependencies *)

Definition completed_item_ids (items : list PlanItem) : gset string :=
  list_to_set (map pi_id (List.filter (λ i, is_completed_status (pi_status i)) items)).

Definition unresolved_dependencies (i : PlanItem) (known completed : gset string) : list string :=
  List.filter (λ d, bool_decide (d ∈ known) && negb (bool_decide (d ∈ completed))) (pi_blocked_by i).

Definition missing_dependencies (i : PlanItem) (known : gset string) : list string :=
  List.filter (λ d, negb (bool_decide (d ∈ known))) (pi_blocked_by i).

Definition is_unblocked (i : PlanItem) (known completed : gset string) : bool :=
  bool_decide (missing_dependencies i known = [])
  && bool_decide (unresolved_dependencies i known completed = []).

(** ** Cycles *)

Definition item_indegree_init (items : list PlanItem) : gmap string nat :=
  foldl (λ m i, match m !! pi_id i with Some _ => m | None => <[pi_id i := 0]> m end) ∅ items.

(** [for item in items { for dependency in .. { indegree[item] += 1 } }]. *)
Definition item_indegree (items : list PlanItem) : gmap string nat :=
  foldl (λ m i, foldl (λ m _, bump (pi_id i) 1 m) m
                  (filter (.∈ item_ids items) (pi_blocked_by i)))
    (item_indegree_init items) items.

(** [dependents.get(id)]: one entry per occurrence of the dependency. *)
Definition item_dependents (items : list PlanItem) (id : string) : list string :=
  concat (map (λ i, map (λ _, pi_id i) (filter (id =.) (pi_blocked_by i))) items).

(** The check from a given initial queue; [None] when the fuel runs out. *)
Definition cycle_item_ids_from (queue : list string) (items : list PlanItem) : option (list string) :=
  match kahn_loop (size (item_indegree items)) (item_dependents items) queue (item_indegree items) ∅ with
  | Some (indegree, visited) =>
      Some (sort_strings (map fst (filter (λ kv, 0 < kv.2 ∧ kv.1 ∉ visited) (map_to_list indegree))))
  | None => None
  end.

(** The queue is collected from a hash map in whatever order it iterates. *)
Definition cycle_item_ids (items : list PlanItem) : list string :=
  default [] (cycle_item_ids_from (zero_keys (item_indegree items)) items).

(** ** Summary and scheduling *)

Record PlanGraphSummary := mkSummary {
  ready_ids : list string;
  blocked_ids : list string;
  active_ids : list string;
  completed_ids : list string;
  failed_ids : list string;
  terminal_ids : list string;
  unresolved_dependency_ids : list string;
  cycle_ids : list string }.

Section Summary.
Context (items : list PlanItem).

Definition has_dependency_blocker (i : PlanItem) : bool :=
  negb (bool_decide (unresolved_dependencies i (item_ids items) (completed_item_ids items) = []))
  || bool_decide (pi_id i ∈ cycle_item_ids items).

Definition nothing_missing (i : PlanItem) : bool :=
  bool_decide (missing_dependencies i (item_ids items) = []).

Definition item_is_ready (i : PlanItem) : bool :=
  is_runnable_status (pi_status i) && nothing_missing i && negb (has_dependency_blocker i).

Definition item_is_blocked (i : PlanItem) : bool :=
  negb (item_is_ready i) && negb (is_terminal_status (pi_status i))
  && negb (is_active_status (pi_status i))
  && (negb (nothing_missing i) || has_dependency_blocker i || bool_decide (pi_status i = "blocked")).

Definition ids_where (p : PlanItem → bool) : list string := map pi_id (List.filter p items).

Definition summarize_plan_graph : PlanGraphSummary :=
  mkSummary
    (sort_strings (ids_where item_is_ready))
    (sort_strings (ids_where item_is_blocked))
    (sort_strings (ids_where (λ i, is_active_status (pi_status i))))
    (btree_set (ids_where (λ i, is_completed_status (pi_status i))))
    (btree_set (ids_where (λ i, is_failed_status (pi_status i))))
    (btree_set (ids_where (λ i, is_terminal_status (pi_status i))))
    (btree_set (concat (map (λ i, missing_dependencies i (item_ids items)) items)))
    (cycle_item_ids items).
End Summary.

(** [priority_rank(l).cmp(&priority_rank(r)).then_with(|| l.id.cmp(&r.id))] is not [Greater]. *)
Definition item_leb (a b : PlanItem) : bool :=
  match Z.compare (priority_rank (pi_priority a)) (priority_rank (pi_priority b)) with
  | Lt => true
  | Gt => false
  | Eq => String.leb (pi_id a) (pi_id b)
  end.

Definition next_runnable_item_ids (items : list PlanItem) (limit : option nat) : list string :=
  let ready := ready_ids (summarize_plan_graph items) in
  let l := map pi_id (sort_by item_leb (List.filter (λ i, bool_decide (pi_id i ∈ ready)) items)) in
  match limit with
  | Some n => take n l
  | None => l
  end.

Definition assignment_loads (p : VersionedPlan) : gmap string nat :=
  foldl (λ loads i,
    if is_terminal_status (pi_status i) then loads
    else match pi_assigned_to i with Some s => bump s 1 loads | None => loads end) ∅ (vp_items p).

Definition find_item (p : VersionedPlan) (id : string) : option PlanItem :=
  find_first (λ i, bool_decide (pi_id i = id)) (vp_items p).

Definition next_unassigned_runnable_item_id (p : VersionedPlan) : option string :=
  find_first (λ id, match find_item p id with
                    | Some i => bool_decide (pi_assigned_to i = None)
                    | None => false
                    end)
    (next_runnable_item_ids (vp_items p) None).

Definition MAX_DEAD_ASSIGNEE_RECLAIMS : N := 3.

Definition reclaims (p : VersionedPlan) (id : string) : N :=
  default 0%N (vp_task_progress p !! id ≫= tp_dead_assignee_reclaims).

Definition next_stranded_runnable_item_id (p : VersionedPlan) (assignee_is_dead : string → bool)
  : option string :=
  find_first (λ id, match find_item p id with
                    | None => false
                    | Some i =>
                        match pi_assigned_to i with
                        | None => false
                        | Some s => assignee_is_dead s && (reclaims p id <? MAX_DEAD_ASSIGNEE_RECLAIMS)%N
                        end
                    end)
    (next_runnable_item_ids (vp_items p) None).

Definition clear_assignee (i : PlanItem) : PlanItem :=
  mkItem (pi_content i) (pi_status i) (pi_priority i) (pi_id i) (pi_subsystem i) (pi_file_scope i)
    (pi_blocked_by i) None.

Definition reclaim_stranded_assignment (task_id : string) (p : VersionedPlan) : bool * VersionedPlan :=
  match find_item p task_id with
  | None => (false, p)
  | Some i =>
      match pi_assigned_to i with
      | None => (false, p)
      | Some prev =>
          let progress := default progress_default (vp_task_progress p !! task_id) in
          let summary := "assignment reclaimed: previous assignee " +:+ prev +:+ " is dead" in
          (true, mkPlan (update_first (λ i, bool_decide (pi_id i = task_id)) clear_assignee (vp_items p))
                   (u64_succ (vp_version p)) (vp_participants p)
                   (<[task_id := reclaim_progress summary progress]> (vp_task_progress p))
                   (vp_mode p) (vp_node_meta p))
      end
  end.

(** [sort_by_key] of the control candidates. *)
Definition control_rank (status : string) : nat :=
  if is_active_status status then 0
  else if is_runnable_status status then 1
  else if is_one_of ["failed"; "stopped"; "crashed"] status then 2
  else if is_completed_status status then 3
  else 4.

Definition control_candidates (items : list PlanItem) (target : string) (a : TaskControlAction)
  : list PlanItem :=
  sort_by (λ l r, control_rank (pi_status l) <=? control_rank (pi_status r))
    (List.filter (λ i, task_control_action_allows_status a (pi_status i))
       (List.filter (λ i, bool_decide (pi_assigned_to i = Some target)) items)).

Definition task_control_target_item_id (items : list PlanItem) (target : string) (a : TaskControlAction)
  : result string string :=
  let candidates := control_candidates items target a in
  let ambiguous :=
    Err ("Multiple tasks assigned to '" +:+ target +:+ "' can be " +:+ action_as_str a +:+ ": "
         +:+ String.concat ", " (map pi_id candidates) +:+ ". Provide task_id explicitly.") in
  match candidates with
  | [] => Err ("No task assigned to '" +:+ target +:+ "' can be " +:+ action_as_str a
               +:+ ". Provide task_id explicitly, or assign a task first.")
  | [i] => Ok (pi_id i)
  | first :: second :: _ =>
      if bool_decide (pi_status first ≠ pi_status second) then Ok (pi_id first) else ambiguous
  end.

Definition explicit_task_blocked_reason (p : VersionedPlan) (task_id : string) : option string :=
  let known := item_ids (vp_items p) in
  let completed := completed_item_ids (vp_items p) in
  match find_item p task_id with
  | None => None
  | Some i =>
      match missing_dependencies i known with
      | _ :: _ as missing =>
          Some ("Task '" +:+ pi_id i +:+ "' has missing dependencies: " +:+ String.concat ", " missing)
      | [] =>
          match unresolved_dependencies i known completed with
          | _ :: _ as unresolved =>
              Some ("Task '" +:+ pi_id i +:+ "' is still blocked by: " +:+ String.concat ", " unresolved)
          | [] =>
              if bool_decide (pi_id i ∈ cycle_item_ids (vp_items p))
              then Some ("Task '" +:+ pi_id i +:+ "' is part of a dependency cycle and is not runnable")
              else None
          end
      end
  end.

(** ** Affinities *)

Record AssignmentAffinities := mkAffinities {
  loads : gmap string nat;
  dependency_carryover : gmap string nat;
  metadata_carryover : gmap string nat }.

Definition bump_owner (o : option string) (n : nat) (m : gmap string nat) : gmap string nat :=
  match o with Some s => bump s n m | None => m end.

Definition dependency_credit (p : VersionedPlan) (m : gmap string nat) (dep : string) : gmap string nat :=
  let m := bump_owner (find_item p dep ≫= pi_assigned_to) 1 m in
  bump_owner (vp_task_progress p !! dep ≫= tp_assigned_session_id) 1 m.

Definition same_subsystem (a b : option string) : bool :=
  match a, b with Some l, Some r => bool_decide (l = r) | _, _ => false end.

Definition scope_overlap (task i : PlanItem) : nat :=
  length (List.filter (λ f, bool_decide (f ∈ pi_file_scope i)) (pi_file_scope task)).

Definition metadata_credit (task : PlanItem) (m : gmap string nat) (i : PlanItem) : gmap string nat :=
  match pi_assigned_to i with
  | None => m
  | Some owner =>
      if bool_decide (pi_id i = pi_id task) then m
      else
        let m := if same_subsystem (pi_subsystem task) (pi_subsystem i) then bump owner 2 m else m in
        if bool_decide (pi_file_scope task ≠ []) && bool_decide (pi_file_scope i ≠ [])
           && (0 <? scope_overlap task i)
        then bump owner (scope_overlap task i) m else m
  end.

Definition assignment_affinities_for_task (p : VersionedPlan) (task_id : string)
  : result AssignmentAffinities string :=
  match find_item p task_id with
  | None => Err ("Task '" +:+ task_id +:+ "' not found in swarm plan")
  | Some task =>
      Ok (mkAffinities (assignment_loads p)
            (foldl (dependency_credit p) ∅ (pi_blocked_by task))
            (foldl (metadata_credit task) ∅ (vp_items p)))
  end.

Definition newly_ready_item_ids (before after : list PlanItem) : list string :=
  let before_ready := ready_ids (summarize_plan_graph before) in
  List.filter (λ id, negb (bool_decide (id ∈ before_ready))) (ready_ids (summarize_plan_graph after)).
