(* ===== verification/PlanClaims.v ===== *)
(** * What the versioned plan guarantees

    The scheduler's classification of items, automatic dispatch order,
    agreement of explicit and automatic assignment, the bound on automatic
    reclaims, session renames, pruning, and task-control target selection. *)

From stdpp Require Import base list strings gmap fin_sets sorting relations.
From S2P Require Import Prelude RustString Confidence Kahn Dag DagCycle Plan.

Open Scope string_scope.
Open Scope nat_scope.
Open Scope list_scope.

(** ** The plan's cycle check

    [cycle_item_ids] of crates/jcode-plan/src/lib.rs starts from a queue
    collected out of a hash map, in an order the language leaves open.  Its
    result is shown independent of that order, and equal to what the engine's
    own check reports on the same dependencies. *)

(** The items as nodes of the engine: ids and dependencies. *)
Definition item_node (i : PlanItem) : TaskNode :=
  mkNode (pi_id i) (pi_content i) Explore Queued None None (pi_blocked_by i) false false None 0 None None.

Definition items_graph (items : list PlanItem) : TaskGraph := mkGraph Light (map item_node items).

Lemma ids_items_graph items : ids (items_graph items) = map pi_id items.
Proof. unfold ids, items_graph; simpl. by rewrite map_map. Qed.

Lemma elem_of_item_ids items v : v ∈ item_ids items ↔ ∃ i, i ∈ items ∧ pi_id i = v.
Proof. unfold item_ids. rewrite elem_of_list_to_set, list_elem_of_fmap. naive_solver. Qed.

Lemma item_ids_cons i items : item_ids (i :: items) = {[pi_id i]} ∪ item_ids items.
Proof. unfold item_ids. simpl. done. Qed.

Lemma elem_of_item_dependents items u v :
  v ∈ item_dependents items u ↔ ∃ i, i ∈ items ∧ pi_id i = v ∧ u ∈ pi_blocked_by i.
Proof.
  unfold item_dependents. rewrite list_elem_of_In, List.in_concat. setoid_rewrite <- list_elem_of_In.
  setoid_rewrite list_elem_of_fmap. split.
  - intros (l & (i & -> & Hi) & Hv). apply list_elem_of_fmap in Hv as (d & -> & [-> Hd]%list_elem_of_filter). eauto.
  - intros (i & Hi & <- & Hu). exists (map (λ _, pi_id i) (filter (u =.) (pi_blocked_by i))).
    split; [eauto|]. apply list_elem_of_fmap. exists u. split; [done|]. by apply list_elem_of_filter.
Qed.

Lemma item_edge_depends items u v :
  dep_edge (item_dependents items) (item_ids items) u v ↔ depends (items_graph items) u v.
Proof.
  unfold dep_edge, depends. rewrite ids_items_graph, elem_of_item_dependents, elem_of_item_ids.
  rewrite list_elem_of_fmap. simpl. setoid_rewrite list_elem_of_fmap. split.
  - intros [(i & Hi & <-) (j & Hj & <- & Hd)]. split; [eauto|]. exists (item_node j). eauto.
  - intros [(i & -> & Hi) (n & (j & -> & Hj) & <- & Hd)]. split; eauto.
Qed.

(** ** Indegrees *)

Lemma bump_lookup k n m v d :
  m !! v = Some d → bump k n m !! v = Some (d + if decide (v = k) then n else 0).
Proof.
  intros Hd. unfold bump. destruct (decide (v = k)) as [->|Hne].
  - rewrite lookup_insert_eq, Hd. done.
  - rewrite lookup_insert_ne by done. by rewrite Hd, Nat.add_0_r.
Qed.

Lemma bump_each_lookup (k : string) (l : list string) m v d :
  m !! v = Some d →
  foldl (λ m _, bump k 1 m) m l !! v = Some (d + if decide (v = k) then length l else 0).
Proof.
  revert m d. induction l as [|x l IH]; intros m d Hd; simpl.
  { destruct (decide _); by rewrite Nat.add_0_r. }
  rewrite (IH _ (d + if decide (v = k) then 1 else 0)) by (by apply bump_lookup).
  f_equal. destruct (decide (v = k)); lia.
Qed.

(** In-graph dependency occurrences of the items with id [v]. *)
Fixpoint in_edges (known : gset string) (items : list PlanItem) (v : string) : nat :=
  match items with
  | [] => 0
  | i :: items' =>
      (if decide (v = pi_id i) then length (filter (.∈ known) (pi_blocked_by i)) else 0)
      + in_edges known items' v
  end.

Lemma item_indegree_fold known items m v d :
  m !! v = Some d →
  foldl (λ m i, foldl (λ m _, bump (pi_id i) 1 m) m (filter (.∈ known) (pi_blocked_by i))) m items !! v
  = Some (d + in_edges known items v).
Proof.
  revert m d. induction items as [|i items IH]; intros m d Hd; simpl; [by rewrite Nat.add_0_r|].
  erewrite IH; [|by apply bump_each_lookup]. f_equal. lia.
Qed.

Lemma dom_bump_each (k : string) (l : list string) (m : gmap string nat) :
  k ∈ dom m → dom (foldl (λ m _, bump k 1 m) m l) = dom m.
Proof.
  revert m. induction l as [|x l IH]; intros m Hk; simpl; [done|].
  rewrite IH; unfold bump; rewrite dom_insert_L; set_solver.
Qed.

Lemma item_indegree_init_spec items v :
  item_indegree_init items !! v = if decide (v ∈ map pi_id items) then Some 0 else None.
Proof.
  pose proof (indegree_init_spec (map item_node items) v) as H. rewrite map_map in H.
  etrans; [|exact H]. clear H. unfold item_indegree_init, indegree_init. generalize (∅ : gmap string nat).
  induction items as [|i items IH]; intros m; simpl; [done|]. by rewrite IH.
Qed.

Lemma dom_item_indegree items : dom (item_indegree items) = item_ids items.
Proof.
  unfold item_indegree.
  assert (∀ l (m : gmap string nat), (∀ i, i ∈ l → pi_id i ∈ dom m) →
    dom (foldl (λ m i, foldl (λ m _, bump (pi_id i) 1 m) m (filter (.∈ item_ids items) (pi_blocked_by i))) m l)
    = dom m) as Hd.
  { induction l as [|i l IH]; intros m Hall; simpl; [done|].
    assert (pi_id i ∈ dom m) as Hi by (apply Hall; left).
    rewrite IH; [by apply dom_bump_each|]. intros j Hj. rewrite dom_bump_each by done. apply Hall. by right. }
  assert (dom (item_indegree_init items) = item_ids items) as Hinit.
  { apply set_eq. intros v. rewrite elem_of_dom, item_indegree_init_spec, elem_of_item_ids.
    case_decide as Hv; rewrite list_elem_of_fmap in Hv.
    - destruct Hv as (i & -> & Hi). split; eauto.
    - split; [by intros [? ?]|]. intros (i & Hi & <-). destruct Hv. eauto. }
  rewrite Hd; [done|]. intros i Hi. rewrite Hinit, elem_of_item_ids. eauto.
Qed.

Lemma length_filter_cons_known (x : string) (l : list string) (S : gset string) :
  length (filter (.∈ S) (x :: l)) = (if decide (x ∈ S) then 1 else 0) + length (filter (.∈ S) l).
Proof. rewrite filter_cons. by destruct (decide (x ∈ S)). Qed.

Lemma sum_over_one (x : string) (S : gset string) :
  sum_over (λ u, if decide (u = x) then 1 else 0) S = if decide (x ∈ S) then 1 else 0.
Proof.
  rewrite (sum_over_ext _ (λ u, if decide (u ∈ [x]) then 1 else 0)).
  - rewrite sum_over_indicator. rewrite filter_cons, filter_nil. destruct (decide (x ∈ S)).
    + rewrite list_to_set_cons, list_to_set_nil, union_empty_r_L. apply size_singleton.
    + rewrite list_to_set_nil. apply size_empty.
  - intros u. destruct (decide (u = x)), (decide (u ∈ [x])); set_solver.
Qed.

(** Summed over the known ids, the occurrences of a dependency are counted. *)
Lemma sum_over_occurrences (l : list string) (S : gset string) :
  sum_over (λ u, length (filter (u =.) l)) S = length (filter (.∈ S) l).
Proof.
  induction l as [|x l IH]; [simpl; apply sum_over_const0|].
  rewrite length_filter_cons_known, <- IH, <- sum_over_one, <- sum_over_plus.
  apply sum_over_ext. intros u. rewrite filter_cons. destruct (decide (u = x)); done.
Qed.

Lemma occ_replicate v k (l : list string) :
  occ v (map (λ _, k) l) = if decide (v = k) then length l else 0.
Proof.
  induction l as [|x l IH]; [by destruct (decide _)|]. simpl map. rewrite occ_cons, IH.
  by destruct (decide (v = k)).
Qed.

Lemma in_edges_spec known items v :
  in_edges known items v = sum_over (λ u, occ v (item_dependents items u)) known.
Proof.
  unfold item_dependents. induction items as [|i items IH]; simpl.
  { symmetry. apply sum_over_const0. }
  rewrite IH. rewrite (sum_over_ext (λ u, occ v (_ ++ _)) (λ u, occ v (map (λ _, pi_id i) (filter (u =.) (pi_blocked_by i)))
      + occ v (concat (map (λ i, map (λ _, pi_id i) (filter (u =.) (pi_blocked_by i))) items))))
    by (intros u; apply occ_app).
  rewrite sum_over_plus. f_equal. destruct (decide (v = pi_id i)) as [->|Hne].
  - rewrite <- sum_over_occurrences. apply sum_over_ext. intros u. rewrite occ_replicate.
    by rewrite decide_True.
  - rewrite <- (sum_over_const0 known). apply sum_over_ext. intros u. rewrite occ_replicate.
    by rewrite decide_False.
Qed.

Lemma item_indegree_spec items v :
  v ∈ item_ids items →
  item_indegree items !! v = Some (indeg_from (item_dependents items) (item_ids items) v).
Proof.
  intros Hv. unfold item_indegree. rewrite (item_indegree_fold _ _ _ _ 0).
  - by rewrite in_edges_spec.
  - rewrite item_indegree_init_spec, decide_True; [done|].
    apply elem_of_item_ids in Hv as (i & Hi & <-). by apply (list_elem_of_fmap_2 pi_id).
Qed.

(** ** The result *)

(** From any order of the initial queue: the loop finishes, and reports the
    ids whose dependency chains are not all finite, sorted, each once. *)
Lemma cycle_item_ids_from_spec items queue :
  NoDup queue → (∀ v, v ∈ queue ↔ item_indegree items !! v = Some 0) →
  ∃ l, cycle_item_ids_from queue items = Some l
    ∧ NoDup l ∧ StronglySorted (λ a b, String.leb a b = true) l
    ∧ ∀ v, v ∈ l ↔ v ∈ item_ids items ∧ ¬ Acc (depends (items_graph items)) v.
Proof.
  intros Hnd Hq.
  destruct (kahn_correct (item_dependents items) (item_ids items)) with (queue := queue)
    (indegree := item_indegree items) as (d & visited & Hrun & Hdom & Hsub & Hacc & Hzero).
  - intros u v (i & Hi & <- & _)%elem_of_item_dependents. apply elem_of_item_ids. eauto.
  - apply dom_item_indegree.
  - apply item_indegree_spec.
  - done.
  - done.
  - unfold cycle_item_ids_from. rewrite <- size_dom, dom_item_indegree, Hrun.
    eexists. split; [done|]. split_and!.
    + unfold sort_strings. rewrite sort_by_perm.
      apply (sublist_NoDup _ (map fst (map_to_list d))); [apply NoDup_fst_map_to_list|].
      apply (fmap_sublist fst), sublist_filter.
    + apply sort_strings_sorted.
    + intros v. rewrite elem_of_sort_strings, list_elem_of_fmap. setoid_rewrite list_elem_of_filter.
      rewrite <- (Acc_iff (dep_edge (item_dependents items) (item_ids items))) by apply item_edge_depends.
      split.
      * intros ([k n] & -> & [Hpos Hnv] & Hin%elem_of_map_to_list). simpl in *.
        assert (k ∈ item_ids items) as Hk by (rewrite <- Hdom; apply elem_of_dom; eauto).
        split; [done|]. by rewrite <- Hacc.
      * intros [Hk HA]. rewrite <- Hacc in HA by done.
        assert (k_in : v ∈ dom d) by (by rewrite Hdom). apply elem_of_dom in k_in as [n Hn].
        exists (v, n). rewrite elem_of_map_to_list. split_and!; [done|simpl|done|done].
        destruct n; [|lia]. by apply Hzero in Hn.
Qed.

Lemma sorted_nodup_eq (l1 l2 : list string) :
  StronglySorted (λ a b, String.leb a b = true) l1 → StronglySorted (λ a b, String.leb a b = true) l2 →
  NoDup l1 → NoDup l2 → (∀ v, v ∈ l1 ↔ v ∈ l2) → l1 = l2.
Proof.
  intros H1 H2 Hn1 Hn2 Hel. apply (StronglySorted_unique_strong (λ a b, String.leb a b = true)); try done.
  - intros x y _ _. apply String.leb_antisym.
  - by apply NoDup_Permutation.
Qed.

Lemma cycle_item_ids_spec items :
  NoDup (cycle_item_ids items) ∧ StronglySorted (λ a b, String.leb a b = true) (cycle_item_ids items)
  ∧ ∀ v, v ∈ cycle_item_ids items ↔ v ∈ item_ids items ∧ ¬ Acc (depends (items_graph items)) v.
Proof.
  destruct (cycle_item_ids_from_spec items (zero_keys (item_indegree items))) as (l & E & Hl).
  - apply NoDup_zero_keys.
  - intros v. apply elem_of_zero_keys.
  - unfold cycle_item_ids. rewrite E. exact Hl.
Qed.

Lemma elem_of_cycle_item_ids items v :
  v ∈ cycle_item_ids items ↔ v ∈ cycle_nodes (items_graph items).
Proof.
  rewrite elem_of_cycle_nodes. destruct (cycle_item_ids_spec items) as (_ & _ & ->).
  by rewrite ids_items_graph, elem_of_item_ids, list_elem_of_fmap; naive_solver.
Qed.

(** The plan's cycle check does not depend on hash-map iteration order:
    from every ordering of the zero-indegree ids it terminates with the same
    sorted, duplicate-free list. *)
Theorem cycle_item_ids_order_independent (items : list PlanItem) (queue : list string) :
  queue ≡ₚ zero_keys (item_indegree items) →
  cycle_item_ids_from queue items = Some (cycle_item_ids items)
  ∧ NoDup (cycle_item_ids items)
  ∧ StronglySorted (λ a b, String.leb a b = true) (cycle_item_ids items).
Proof.
  intros Hp. destruct (cycle_item_ids_spec items) as (Hnd & Hs & Hel).
  destruct (cycle_item_ids_from_spec items queue) as (l & E & Hnd' & Hs' & Hel').
  - rewrite Hp. apply NoDup_zero_keys.
  - intros v. rewrite Hp. apply elem_of_zero_keys.
  - split_and!; [|done|done]. rewrite E. f_equal. apply sorted_nodup_eq; try done.
    intros v. by rewrite Hel, Hel'.
Qed.

Definition demo_item (id status : string) (deps : list string) : PlanItem :=
  mkItem ("do " +:+ id) status "medium" id None [] deps None.

Definition demo_items : list PlanItem :=
  [demo_item "a" "completed" []; demo_item "b" "queued" ["a"]; demo_item "x" "queued" ["y"];
   demo_item "y" "queued" ["x"]; demo_item "z" "queued" ["y"; "y"]; demo_item "c" "queued" []].

Lemma cycle_item_ids_order_independent_witness :
  cycle_item_ids_from ["c"; "a"] demo_items = Some ["x"; "y"; "z"].
Proof.
  assert (cycle_item_ids demo_items = ["x"; "y"; "z"]) as <- by (vm_compute; reflexivity).
  apply (cycle_item_ids_order_independent demo_items ["c"; "a"]).
  vm_compute. first [reflexivity | apply Permutation_swap].
Defined.

(** The plan and the engine agree on cycles: on the same ids and
    dependencies the two checks report the same ids, and the same list when no
    id is repeated. *)
Theorem plan_and_engine_cycle_checks_agree (items : list PlanItem) :
  (∀ v, v ∈ cycle_item_ids items ↔ v ∈ cycle_nodes (items_graph items))
  ∧ (NoDup (map pi_id items) → cycle_item_ids items = cycle_nodes (items_graph items)).
Proof.
  split; [apply elem_of_cycle_item_ids|]. intros Hnd.
  destruct (cycle_item_ids_spec items) as (Hnd1 & Hs & _).
  apply sorted_nodup_eq; [done| |done| |apply elem_of_cycle_item_ids];
    unfold cycle_nodes; destruct (cycle_visited_spec (items_graph items)) as (vis & -> & _).
  - apply sort_strings_sorted.
  - unfold sort_strings. rewrite sort_by_perm. apply NoDup_filter. by rewrite ids_items_graph.
Qed.

(** ** Status predicates *)

Lemma is_one_of_true l s : is_one_of l s = true ↔ s ∈ l.
Proof. apply bool_decide_eq_true. Qed.

(** A status is at most one of runnable, active, completed and failed, and
    terminal is completed or failed. *)
Lemma status_classes s :
  is_terminal_status s = is_completed_status s || is_failed_status s
  ∧ is_completed_status s && is_failed_status s = false
  ∧ is_runnable_status s && is_terminal_status s = false
  ∧ is_active_status s && is_terminal_status s = false
  ∧ is_runnable_status s && is_active_status s = false.
Proof.
  unfold is_failed_status.
  assert (∀ l1 l2, (∀ x, x ∈ l1 → x ∉ l2) → is_one_of l1 s && is_one_of l2 s = false) as Hdisj.
  { intros l1 l2 H. destruct (is_one_of l1 s) eqn:E1; [|done]. apply is_one_of_true in E1.
    simpl. apply bool_decide_eq_false. auto. }
  assert (is_completed_status s = true → is_terminal_status s = true) as Hc.
  { intros H%is_one_of_true. apply is_one_of_true. set_solver. }
  split_and!; [| |apply Hdisj; set_solver..].
  - destruct (is_completed_status s), (is_terminal_status s); simpl in *; auto.
  - destruct (is_completed_status s), (is_terminal_status s); done.
Qed.

(** ** Membership *)

Lemma elem_of_ids_where items p v : v ∈ ids_where items p ↔ ∃ i, i ∈ items ∧ pi_id i = v ∧ p i = true.
Proof.
  unfold ids_where. rewrite list_elem_of_fmap. setoid_rewrite elem_of_List_filter. naive_solver.
Qed.


Lemma item_unique items i j :
  NoDup (map pi_id items) → i ∈ items → j ∈ items → pi_id i = pi_id j → i = j.
Proof.
  induction items as [|x l IH]; [by intros _ ?%elem_of_nil|]. simpl. intros [Hx Hl]%NoDup_cons.
  assert (∀ y, y ∈ l → pi_id y ≠ pi_id x) as Hne.
  { intros y Hy He. apply Hx. rewrite <- He. by apply (list_elem_of_fmap_2 pi_id). }
  intros [->|Hi]%elem_of_cons [->|Hj]%elem_of_cons He; try done.
  - by destruct (Hne j Hj).
  - by destruct (Hne i Hi).
  - by apply IH.
Qed.

Lemma ids_where_unique items p i :
  NoDup (map pi_id items) → i ∈ items → (pi_id i ∈ ids_where items p ↔ p i = true).
Proof.
  intros Hnd Hi. rewrite elem_of_ids_where. split; [|eauto].
  intros (j & Hj & He & Hp). by rewrite (item_unique items i j) by done.
Qed.

Lemma find_item_of p i :
  NoDup (map pi_id (vp_items p)) → i ∈ vp_items p → find_item p (pi_id i) = Some i.
Proof.
  intros Hnd Hi. unfold find_item.
  destruct (find_first_is_Some (λ j, bool_decide (pi_id j = pi_id i)) (vp_items p) i) as [j Hj];
    [done|by apply bool_decide_eq_true|].
  rewrite Hj. f_equal. apply find_first_Some in Hj as [Hj E]. bool_hyps.
  by apply (item_unique (vp_items p)).
Qed.

Lemma find_item_Some p id i : find_item p id = Some i → i ∈ vp_items p ∧ pi_id i = id.
Proof. intros [? ?]%find_first_Some. by bool_hyps. Qed.

Lemma missing_nil items i :
  missing_dependencies i (item_ids items) = [] ↔ ∀ d, d ∈ pi_blocked_by i → d ∈ item_ids items.
Proof.
  unfold missing_dependencies. rewrite filter_negb_nil. setoid_rewrite bool_decide_eq_true. done.
Qed.

Lemma unresolved_nil items i :
  unresolved_dependencies i (item_ids items) (completed_item_ids items) = [] ↔
  ∀ d, d ∈ pi_blocked_by i → d ∈ item_ids items → d ∈ completed_item_ids items.
Proof.
  unfold unresolved_dependencies.
  rewrite (List.filter_ext _ (λ d, negb (negb (bool_decide (d ∈ item_ids items))
                                      || bool_decide (d ∈ completed_item_ids items)))).
  2: { intros d. by rewrite negb_orb, negb_involutive. }
  rewrite filter_negb_nil. apply forall_proper; intros d. apply imp_iff_compat_l.
  rewrite orb_true_iff, negb_true_iff, bool_decide_eq_false, bool_decide_eq_true.
  destruct (decide (d ∈ item_ids items)); naive_solver.
Qed.

Lemma elem_of_completed items v :
  v ∈ completed_item_ids items ↔ ∃ j, j ∈ items ∧ pi_id j = v ∧ is_completed_status (pi_status j) = true.
Proof.
  unfold completed_item_ids. rewrite elem_of_list_to_set, list_elem_of_fmap.
  setoid_rewrite elem_of_List_filter. naive_solver.
Qed.

Lemma item_is_ready_true items i :
  item_is_ready items i = true ↔
  is_runnable_status (pi_status i) = true
  ∧ (∀ d, d ∈ pi_blocked_by i → ∃ j, j ∈ items ∧ pi_id j = d ∧ is_completed_status (pi_status j) = true)
  ∧ pi_id i ∉ cycle_item_ids items.
Proof.
  unfold item_is_ready, nothing_missing, has_dependency_blocker.
  rewrite !andb_true_iff, negb_true_iff, orb_false_iff, negb_false_iff, !bool_decide_eq_true, bool_decide_eq_false.
  rewrite missing_nil, unresolved_nil. setoid_rewrite <- elem_of_completed. split.
  - intros [[? Hm] [Hu ?]]. split_and!; auto.
  - intros (? & Hc & ?). split_and!; auto. intros d Hd.
    apply Hc, elem_of_completed in Hd as (j & Hj & <- & _). apply elem_of_item_ids. eauto.
Qed.

(** ** Theorems *)

(** The summary sorts the plan into what the scheduler may act on: with
    distinct ids, a runnable item is exactly one of ready and blocked, and
    ready exactly when every dependency names a completed item and it is
    neither on nor behind a cycle; active and terminal items are neither ready
    nor blocked; terminal is completed or failed, never both. *)
Theorem summary_classifies_items (items : list PlanItem) (i : PlanItem) :
  NoDup (map pi_id items) → i ∈ items →
  let s := summarize_plan_graph items in
  (is_runnable_status (pi_status i) = true →
     (pi_id i ∈ ready_ids s ↔ pi_id i ∉ blocked_ids s)
     ∧ (pi_id i ∈ ready_ids s ↔
          (∀ d, d ∈ pi_blocked_by i →
             ∃ j, j ∈ items ∧ pi_id j = d ∧ is_completed_status (pi_status j) = true)
          ∧ pi_id i ∉ cycle_ids s))
  ∧ (pi_id i ∈ active_ids s ∨ pi_id i ∈ terminal_ids s →
       pi_id i ∉ ready_ids s ∧ pi_id i ∉ blocked_ids s)
  ∧ (pi_id i ∈ terminal_ids s ↔ pi_id i ∈ completed_ids s ∨ pi_id i ∈ failed_ids s)
  ∧ ¬ (pi_id i ∈ completed_ids s ∧ pi_id i ∈ failed_ids s).
Proof.
  intros Hnd Hi s. subst s. simpl.
  rewrite !elem_of_btree_set, !elem_of_sort_strings, !ids_where_unique by done.
  destruct (status_classes (pi_status i)) as (Ht & Hcf & Hrt & Hat & Hra).
  unfold item_is_blocked. split_and!.
  - intros Hr. rewrite Hr in *. simpl in *. rewrite Hrt, Hra. split.
    + unfold item_is_ready. rewrite Hr. simpl.
      destruct (nothing_missing items i), (has_dependency_blocker items i); simpl; naive_solver.
    + rewrite item_is_ready_true. naive_solver.
  - unfold item_is_ready. intros [E|E]; rewrite E in *; simpl in *;
      rewrite ?andb_true_r, ?andb_false_r in *; simpl; rewrite ?Hra, ?Hrt; done.
  - rewrite Ht. apply orb_true_iff.
  - rewrite <- andb_true_iff, Hcf. done.
Qed.

Lemma summary_classifies_items_witness :
  "b" ∈ ready_ids (summarize_plan_graph demo_items) ∧ "z" ∉ ready_ids (summarize_plan_graph demo_items).
Proof.
  assert (NoDup (map pi_id demo_items)) as Hnd by (apply (bool_decide_unpack _); vm_compute; exact I).
  split.
  - destruct (summary_classifies_items demo_items (demo_item "b" "queued" ["a"]) Hnd) as [H _].
    + right; left.
    + destruct (H eq_refl) as [_ [_ H2]]. apply H2. split.
      * cbn. intros d ->%list_elem_of_singleton. exists (demo_item "a" "completed" []).
        split; [left|done].
      * apply (bool_decide_unpack _). vm_compute. exact I.
  - apply (bool_decide_unpack _). vm_compute. exact I.
Defined.

Lemma item_leb_true a b :
  item_leb a b = true ↔
  (priority_rank (pi_priority a) < priority_rank (pi_priority b))%Z
  ∨ priority_rank (pi_priority a) = priority_rank (pi_priority b) ∧ String.leb (pi_id a) (pi_id b) = true.
Proof.
  unfold item_leb.
  destruct (Z.compare_spec (priority_rank (pi_priority a)) (priority_rank (pi_priority b))); naive_solver lia.
Qed.

Lemma item_leb_total a b : item_leb a b = true ∨ item_leb b a = true.
Proof.
  rewrite !item_leb_true.
  destruct (Z.lt_trichotomy (priority_rank (pi_priority a)) (priority_rank (pi_priority b))) as [?|[E|?]].
  - left. by left.
  - rewrite E. destruct (String.leb_total (pi_id a) (pi_id b)); [left|right]; by right.
  - right. by left.
Qed.

Lemma item_leb_trans a b c : item_leb a b = true → item_leb b c = true → item_leb a c = true.
Proof.
  rewrite !item_leb_true. intros [?|[? ?]] [?|[? ?]]; [left; lia..|right].
  split; [lia|by eapply string_leb_trans].
Qed.

Lemma ready_ids_sub items v :
  v ∈ ready_ids (summarize_plan_graph items) → ∃ i, i ∈ items ∧ pi_id i = v.
Proof. simpl. rewrite elem_of_sort_strings, elem_of_ids_where. naive_solver. Qed.

Lemma elem_of_next_runnable items v :
  v ∈ next_runnable_item_ids items None ↔ v ∈ ready_ids (summarize_plan_graph items).
Proof.
  unfold next_runnable_item_ids. generalize (ready_ids_sub items v).
  generalize (ready_ids (summarize_plan_graph items)). intros r Hr.
  rewrite list_elem_of_fmap. setoid_rewrite elem_of_sort_by.
  setoid_rewrite elem_of_List_filter. setoid_rewrite bool_decide_eq_true.
  split; [by intros (i & -> & _ & ?)|]. intros Hv. destruct (Hr Hv) as (i & Hi & <-). eauto.
Qed.

(** Automatic dispatch takes the ready items by priority and then by id:
    the full listing is the ready set, without repetition and in that order,
    and a limited listing is its prefix. *)
Theorem next_runnable_is_ready_in_order (items : list PlanItem) :
  NoDup (map pi_id items) →
  NoDup (next_runnable_item_ids items None)
  ∧ (∀ v, v ∈ next_runnable_item_ids items None ↔ v ∈ ready_ids (summarize_plan_graph items))
  ∧ (∃ l, next_runnable_item_ids items None = map pi_id l ∧ (∀ i, i ∈ l → i ∈ items)
      ∧ StronglySorted (λ a b,
          (priority_rank (pi_priority a) < priority_rank (pi_priority b))%Z
          ∨ priority_rank (pi_priority a) = priority_rank (pi_priority b)
            ∧ String.leb (pi_id a) (pi_id b) = true) l)
  ∧ ∀ n, next_runnable_item_ids items (Some n) = take n (next_runnable_item_ids items None).
Proof.
  intros Hnd. split_and!.
  - unfold next_runnable_item_ids. rewrite sort_by_perm.
    apply (NoDup_fmap_2_strong pi_id).
    + intros i j [Hi _]%elem_of_List_filter [Hj _]%elem_of_List_filter. by apply (item_unique items).
    + apply NoDup_List_filter. by eapply NoDup_fmap_1.
  - apply elem_of_next_runnable.
  - eexists. split; [done|]. split.
    + intros i Hi. apply elem_of_sort_by, elem_of_List_filter in Hi. apply Hi.
    + eapply StronglySorted_weaken; [|apply sort_by_sorted; [apply item_leb_total|apply item_leb_trans]].
      intros a b. by rewrite item_leb_true.
  - done.
Qed.

Lemma next_runnable_is_ready_in_order_witness : NoDup (next_runnable_item_ids demo_items None).
Proof.
  apply (next_runnable_is_ready_in_order demo_items).
  apply (bool_decide_unpack (NoDup (map pi_id demo_items))). vm_compute. exact I.
Defined.

(** Explicit and automatic assignment apply the same rule: an item with a
    runnable status is refused by an explicit assignment exactly when it is
    not in the ready set. *)
Theorem explicit_assignment_agrees (p : VersionedPlan) (i : PlanItem) :
  NoDup (map pi_id (vp_items p)) → i ∈ vp_items p → is_runnable_status (pi_status i) = true →
  explicit_task_blocked_reason p (pi_id i) = None ↔
  pi_id i ∈ ready_ids (summarize_plan_graph (vp_items p)).
Proof.
  intros Hnd Hi Hr. simpl. rewrite elem_of_sort_strings, ids_where_unique by done.
  unfold explicit_task_blocked_reason. rewrite find_item_of by done.
  unfold item_is_ready, nothing_missing, has_dependency_blocker. rewrite Hr. simpl.
  destruct (missing_dependencies i _) as [|m ms]; [|done]. simpl.
  destruct (unresolved_dependencies i _ _) as [|u us]; simpl; [|done].
  destruct (bool_decide (pi_id i ∈ cycle_item_ids (vp_items p))); done.
Qed.

Definition demo_plan : VersionedPlan :=
  mkPlan (demo_items ++ [mkItem "stranded" "queued" "high" "s" None [] ["a"] (Some "dead")])
    7 {["dead"; "alive"]} ∅ "light" ∅.

Lemma explicit_assignment_agrees_witness :
  "b" ∈ ready_ids (summarize_plan_graph (vp_items demo_plan)).
Proof.
  apply (explicit_assignment_agrees demo_plan (demo_item "b" "queued" ["a"])).
  - apply (bool_decide_unpack (NoDup (map pi_id (vp_items demo_plan)))). vm_compute. exact I.
  - right; left.
  - reflexivity.
  - vm_compute. reflexivity.
Defined.

(** ** What scheduling reads *)

(** Two items the scheduler cannot tell apart. *)
Definition same_sched (i j : PlanItem) : Prop :=
  pi_id i = pi_id j ∧ pi_status i = pi_status j ∧ pi_blocked_by i = pi_blocked_by j.

Lemma same_sched_elem l l' i : Forall2 same_sched l l' → i ∈ l → ∃ j, j ∈ l' ∧ same_sched i j.
Proof.
  induction 1 as [|x y l l' Hxy _ IH]; [by intros ?%elem_of_nil|].
  intros [->|Hi]%elem_of_cons; [exists y; split; [left|done]|].
  destruct (IH Hi) as (j & Hj & ?). exists j. split; [by right|done].
Qed.

Lemma same_sched_sym i j : same_sched i j → same_sched j i.
Proof. by intros (? & ? & ?). Qed.

Lemma same_sched_ids l l' : Forall2 same_sched l l' → map pi_id l = map pi_id l'.
Proof. induction 1 as [|x y l l' (? & _) _ IH]; simpl; congruence. Qed.

Lemma same_sched_where l l' p q :
  Forall2 same_sched l l' → (∀ i j, same_sched i j → p i = q j) → ids_where l p = ids_where l' q.
Proof.
  intros Hf Hpq. unfold ids_where. induction Hf as [|x y l l' Hxy _ IH]; simpl; [done|].
  rewrite (Hpq _ _ Hxy). destruct (q y); simpl; rewrite IH; [|done]. by destruct Hxy as (-> & _).
Qed.

Lemma same_sched_cycles l l' : Forall2 same_sched l l' → cycle_item_ids l = cycle_item_ids l'.
Proof.
  assert (∀ l l' u v, Forall2 same_sched l l' →
            depends (items_graph l) u v → depends (items_graph l') u v) as Hdep.
  { clear. intros l l' u v Hf. unfold depends. rewrite !ids_items_graph, (same_sched_ids l l' Hf).
    intros [Hu (n & Hn & <- & Hd)]. split; [done|].
    apply list_elem_of_fmap in Hn as (i & -> & Hi).
    destruct (same_sched_elem l l' i Hf Hi) as (j & Hj & Hid & _ & Hb).
    exists (item_node j). split_and!; [by apply (list_elem_of_fmap_2 item_node)|done|]. simpl. by rewrite <- Hb. }
  intros Hf. assert (Forall2 same_sched l' l) as Hf'.
  { apply Forall2_flip. eapply Forall2_impl; [exact Hf|]. apply same_sched_sym. }
  destruct (cycle_item_ids_spec l) as (? & ? & Hel). destruct (cycle_item_ids_spec l') as (? & ? & Hel').
  apply sorted_nodup_eq; try done. intros v. rewrite Hel, Hel'. unfold item_ids.
  rewrite (same_sched_ids l l' Hf), (Acc_iff _ (depends (items_graph l'))); [done|].
  intros x y. split; by apply Hdep.
Qed.

Lemma same_sched_ready l l' :
  Forall2 same_sched l l' → ready_ids (summarize_plan_graph l) = ready_ids (summarize_plan_graph l').
Proof.
  intros Hf. simpl. f_equal. apply same_sched_where; [done|]. intros i j (Hid & Hs & Hb).
  assert (item_ids l = item_ids l') as Hids by (unfold item_ids; by rewrite (same_sched_ids l l' Hf)).
  assert (completed_item_ids l = completed_item_ids l') as Hc.
  { unfold completed_item_ids. f_equal. apply (same_sched_where l l'); [done|]. by intros x y (_ & -> & _). }
  unfold item_is_ready, nothing_missing, has_dependency_blocker, missing_dependencies, unresolved_dependencies.
  by rewrite Hid, Hs, Hb, Hids, Hc, (same_sched_cycles l l').
Qed.

(** ** Stranded tasks *)

(** One change of the plan that the reclaim cap has to survive. *)
Inductive plan_step (dead : string → bool) : VersionedPlan → bool * string → VersionedPlan → Prop :=
| ps_reclaim p id p' :
    next_stranded_runnable_item_id p dead = Some id → reclaim_stranded_assignment id p = (true, p') →
    plan_step dead p (true, id) p'
| ps_other p p' :
    (* status changes, new tasks: anything that keeps the counters *)
    (∀ id, reclaims p' id = reclaims p id) → plan_step dead p (false, "") p'.

Inductive plan_run (dead : string → bool) : VersionedPlan → list (bool * string) → VersionedPlan → Prop :=
| pr_nil p : plan_run dead p [] p
| pr_cons p e p' es p'' : plan_step dead p e p' → plan_run dead p' es p'' → plan_run dead p (e :: es) p''.

Definition reclaims_of (id : string) (es : list (bool * string)) : nat :=
  length (filter (λ e, e = (true, id)) es).

Lemma next_stranded_spec p dead id :
  next_stranded_runnable_item_id p dead = Some id →
  id ∈ ready_ids (summarize_plan_graph (vp_items p)) ∧ (reclaims p id < MAX_DEAD_ASSIGNEE_RECLAIMS)%N
  ∧ ∃ i s, find_item p id = Some i ∧ pi_assigned_to i = Some s ∧ dead s = true.
Proof.
  intros [Hin Hb]%find_first_Some. apply elem_of_next_runnable in Hin.
  destruct (find_item p id) as [i|]; [|done]. destruct (pi_assigned_to i) as [s|] eqn:Es; [|done].
  apply andb_true_iff in Hb as [Hd Hr]. split_and!; [done|by apply N.ltb_lt|by exists i, s].
Qed.

Lemma reclaim_reclaims id p p' v :
  reclaim_stranded_assignment id p = (true, p') →
  reclaims p' v = if decide (v = id) then u32_succ (reclaims p v) else reclaims p v.
Proof.
  unfold reclaim_stranded_assignment. destruct (find_item p id) as [i|]; [|done].
  destruct (pi_assigned_to i) as [s|]; [|done]. intros [= <-]. unfold reclaims. simpl.
  destruct (decide (v = id)) as [->|Hne].
  - rewrite lookup_insert_eq. simpl. by destruct (vp_task_progress p !! id).
  - by rewrite lookup_insert_ne.
Qed.

(** While its reclaim counter is kept, a task whose workers keep dying is
    reclaimed automatically at most [MAX_DEAD_ASSIGNEE_RECLAIMS] times in all,
    whatever status changes and reclaims of other tasks happen in between.  The
    assignment handler resets the counter (see Control.v). *)
Theorem automatic_reclaims_bounded (dead : string → bool) (p p' : VersionedPlan)
    (es : list (bool * string)) (id : string) :
  plan_run dead p es p' →
  reclaims_of id es = 0 ∨ (reclaims p id + N.of_nat (reclaims_of id es) <= MAX_DEAD_ASSIGNEE_RECLAIMS)%N.
Proof.
  unfold reclaims_of, MAX_DEAD_ASSIGNEE_RECLAIMS.
  induction 1 as [p|p e p1 es p2 Hs _ IH]; [by left|]. rewrite filter_cons.
  destruct Hs as [p v p1 Hn Hr|p p1 Hk].
  - apply next_stranded_spec in Hn as (_ & Hlt & _). pose proof (reclaim_reclaims v p p1 id Hr) as Hc.
    unfold MAX_DEAD_ASSIGNEE_RECLAIMS in Hlt. destruct (decide (id = v)) as [->|Hne].
    + rewrite decide_True by done. simpl. right. unfold u32_succ in Hc.
      rewrite N.mod_small in Hc by lia. destruct IH as [E|IH]; [rewrite E; lia|lia].
    + rewrite decide_False by congruence. by rewrite Hc in IH.
  - rewrite decide_False by congruence. by rewrite Hk in IH.
Qed.

Lemma automatic_reclaims_bounded_witness :
  ∃ p', plan_run (λ s, bool_decide (s = "dead")) demo_plan [(true, "s")] p' ∧ (1 <= MAX_DEAD_ASSIGNEE_RECLAIMS)%N.
Proof.
  assert (plan_run (λ s, bool_decide (s = "dead")) demo_plan [(true, "s")]
    (reclaim_stranded_assignment "s" demo_plan).2) as Hrun.
  { eapply pr_cons; [apply ps_reclaim; vm_compute; reflexivity|constructor]. }
  eexists. split; [exact Hrun|].
  destruct (automatic_reclaims_bounded _ _ _ _ "s" Hrun) as [H|H].
  - by vm_compute in H.
  - vm_compute in H. vm_compute. exact H.
Defined.

(** Reclaiming a stranded task hands it back to automatic dispatch: the
    item keeps everything but its assignee, stays ready, is the task's only
    changed item, and the version moves on; nothing else of the plan changes. *)
Theorem reclaim_releases_task (p p' : VersionedPlan) (dead : string → bool) (id : string) :
  NoDup (map pi_id (vp_items p)) →
  next_stranded_runnable_item_id p dead = Some id → reclaim_stranded_assignment id p = (true, p') →
  (∃ i, find_item p id = Some i ∧ find_item p' id = Some (clear_assignee i))
  ∧ (∀ v, v ≠ id → find_item p' v = find_item p v)
  ∧ map pi_id (vp_items p') = map pi_id (vp_items p)
  ∧ ready_ids (summarize_plan_graph (vp_items p')) = ready_ids (summarize_plan_graph (vp_items p))
  ∧ is_Some (next_unassigned_runnable_item_id p')
  ∧ vp_version p' = u64_succ (vp_version p)
  ∧ delete id (vp_task_progress p') = delete id (vp_task_progress p)
  ∧ vp_participants p' = vp_participants p ∧ vp_node_meta p' = vp_node_meta p.
Proof.
  intros Hnd Hn Hr. apply next_stranded_spec in Hn as (Hready & _ & i & s & Hi & Hs & _).
  unfold reclaim_stranded_assignment in Hr. rewrite Hi, Hs in Hr. injection Hr as <-.
  set (items' := update_first (λ i, bool_decide (pi_id i = id)) clear_assignee (vp_items p)).
  assert (Forall2 same_sched (vp_items p) items') as Hf.
  { unfold items'. generalize (vp_items p). induction l as [|x l IH]; simpl; [constructor|].
    destruct (bool_decide _); constructor; try done.
    clear. induction l; constructor; done. }
  assert (find_first (λ i, bool_decide (pi_id i = id)) items' = Some (clear_assignee i)) as Hfind.
  { unfold items', find_item in *. by rewrite find_first_update, Hi. }
  split_and!; try done.
  - exists i. split; [done|exact Hfind].
  - intros v Hv. unfold find_item; simpl. apply find_first_update_ne. intros x Hx. bool_hyps.
    simpl. split; apply bool_decide_eq_false; congruence.
  - symmetry. by apply same_sched_ids.
  - simpl vp_items. symmetry. by apply same_sched_ready.
  - unfold next_unassigned_runnable_item_id. simpl vp_items.
    apply (find_first_is_Some _ _ id).
    + apply elem_of_next_runnable. by rewrite <- (same_sched_ready _ _ Hf).
    + unfold find_item. simpl vp_items. fold items'. rewrite Hfind. done.
  - simpl. by rewrite delete_insert_eq.
Qed.

Lemma reclaim_releases_task_witness :
  is_Some (next_unassigned_runnable_item_id (reclaim_stranded_assignment "s" demo_plan).2).
Proof.
  apply (reclaim_releases_task demo_plan _ (λ s, bool_decide (s = "dead")) "s").
  - apply (bool_decide_unpack (NoDup (map pi_id (vp_items demo_plan)))). vm_compute. exact I.
  - vm_compute. reflexivity.
  - reflexivity.
Defined.

(** ** Sessions *)

(** A durable reference to a session. *)
Definition refers (p : VersionedPlan) (s : string) : Prop :=
  s ∈ vp_participants p
  ∨ (∃ i, i ∈ vp_items p ∧ pi_assigned_to i = Some s)
  ∨ (∃ k t, vp_task_progress p !! k = Some t ∧ tp_assigned_session_id t = Some s)
  ∨ (∃ k m, vp_node_meta p !! k = Some m ∧ nm_planner m = Some s).

Lemma rename_opt_refers old new o s :
  old ≠ new → rename_opt old new o = Some s ↔ (o = Some s ∧ s ≠ old) ∨ (o = Some old ∧ s = new).
Proof.
  intros Hne. unfold rename_opt. destruct (decide (o = Some old)) as [->|Ho].
  - rewrite bool_decide_true by done. naive_solver.
  - rewrite bool_decide_false by done. naive_solver.
Qed.

Lemma rename_opt_back old new o : o ≠ Some new → rename_opt new old (rename_opt old new o) = o.
Proof.
  intros Hn. unfold rename_opt. destruct (decide (o = Some old)) as [->|Ho].
  - rewrite (bool_decide_true (Some old = Some old)) by done. by rewrite bool_decide_true.
  - rewrite (bool_decide_false (o = Some old)) by done. by rewrite bool_decide_false.
Qed.

Lemma refers_rename p old new s :
  old ≠ new → refers (rename_session old new p) s ↔ (refers p s ∧ s ≠ old) ∨ (refers p old ∧ s = new).
Proof.
  intros Hne. unfold refers at 1, rename_session; simpl.
  setoid_rewrite list_elem_of_fmap. setoid_rewrite lookup_fmap_Some.
  assert (s ∈ (if decide (old ∈ vp_participants p) then {[new]} ∪ vp_participants p ∖ {[old]}
               else vp_participants p) ↔
          (s ∈ vp_participants p ∧ s ≠ old) ∨ (old ∈ vp_participants p ∧ s = new)) as ->.
  { case_decide; set_solver. }
  assert ((∃ i, (∃ y, i = rename_item old new y ∧ y ∈ vp_items p) ∧ pi_assigned_to i = Some s) ↔
    (∃ i, i ∈ vp_items p ∧ pi_assigned_to i = Some s ∧ s ≠ old)
    ∨ ((∃ i, i ∈ vp_items p ∧ pi_assigned_to i = Some old) ∧ s = new)) as ->.
  { split.
    - intros (i & (y & -> & Hy) & Ha). simpl in Ha. apply rename_opt_refers in Ha; [|done]. naive_solver.
    - intros [(i & Hi & Ha & Hs)|[(i & Hi & Ha) ->]]; exists (rename_item old new i); (split; [eauto|]);
        simpl; apply rename_opt_refers; naive_solver. }
  unfold refers. split.
  - intros [?|[?|[(k & t & (t0 & <- & Ht) & Ha)|(k & t & (t0 & <- & Ht) & Ha)]]];
      [naive_solver..| |]; simpl in Ha; apply rename_opt_refers in Ha; [|done| |done]; naive_solver.
  - intros [[[?|[?|[(k & t & Ht & Ha)|(k & t & Ht & Ha)]]] Hs]|[[?|[?|[(k & t & Ht & Ha)|(k & t & Ht & Ha)]]] ->]];
      try naive_solver.
    all: first [ right; right; left; exists k; eexists; split; [by eexists|]; simpl; apply rename_opt_refers; naive_solver
               | right; right; right; exists k; eexists; split; [by eexists|]; simpl; apply rename_opt_refers; naive_solver ].
Qed.

Lemma fmap_back {A} (f g : A → A) (m : gmap string A) :
  (∀ k x, m !! k = Some x → g (f x) = x) → g <$> (f <$> m) = m.
Proof.
  intros H. apply map_eq. intros k. rewrite !lookup_fmap. destruct (m !! k) as [x|] eqn:E; simpl; [|done].
  by rewrite (H k x).
Qed.

(** Renaming a session moves every durable reference to it, in the
    participants, the items, the progress records and the planner affinities,
    and touches no other session; when the new id was unused, renaming back
    restores the plan exactly. *)
Theorem rename_session_moves_all_references (p : VersionedPlan) (old new : string) :
  old ≠ new →
  (∀ s, refers (rename_session old new p) s ↔ (refers p s ∧ s ≠ old) ∨ (refers p old ∧ s = new))
  ∧ (¬ refers p new → rename_session new old (rename_session old new p) = p).
Proof.
  intros Hne. split; [intros s; by apply refers_rename|]. intros Hfresh. unfold refers in Hfresh.
  unfold rename_session; simpl. destruct p as [items v parts prog mode meta]; simpl in *. f_equal.
  - rewrite map_map. apply list_eq_Forall2, Forall2_fmap_l, Forall_Forall2_diag, Forall_forall.
    intros [c st pr id sub fs bl a] Hi. unfold rename_item; simpl. f_equal. apply rename_opt_back.
    intros ->. apply Hfresh. right; left. eauto.
  - assert (new ∉ parts) as Hp by (intros ?; apply Hfresh; by left). clear Hfresh.
    apply set_eq. intros s. destruct (decide (s = old)), (decide (s = new)); repeat case_decide; set_solver.
  - apply fmap_back. intros k [] Hk. unfold set_assigned_session_id; simpl.
    f_equal. apply rename_opt_back. intros ->. apply Hfresh. right; right; left. eauto.
  - apply fmap_back. intros k [] Hk. unfold set_meta_planner; simpl.
    f_equal. apply rename_opt_back. intros ->. apply Hfresh. right; right; right. eauto.
Qed.

Lemma rename_session_moves_all_references_witness :
  ¬ refers (rename_session "dead" "fresh" demo_plan) "dead".
Proof.
  destruct (rename_session_moves_all_references demo_plan "dead" "fresh") as [H _]; [done|].
  rewrite H. naive_solver.
Defined.

(** Replacing the items prunes the side maps to them: progress and DAG
    metadata survive, unchanged, exactly for the ids of the new items, and
    pruning again changes nothing. *)
Theorem replace_items_prunes_side_maps (items : list PlanItem) (p : VersionedPlan) (k : string) :
  let p' := replace_items items p in
  vp_items p' = items
  ∧ vp_task_progress p' !! k = (if decide (k ∈ map pi_id items) then vp_task_progress p !! k else None)
  ∧ vp_node_meta p' !! k = (if decide (k ∈ map pi_id items) then vp_node_meta p !! k else None)
  ∧ prune_side_maps p' = p'.
Proof.
  assert (∀ {A} (m : gmap string A),
    filter (λ kv, kv.1 ∈ item_ids items) m !! k = if decide (k ∈ map pi_id items) then m !! k else None) as Hf.
  { intros A m. destruct (decide (k ∈ map pi_id items)) as [Hk|Hk].
    - destruct (m !! k) as [x|] eqn:E.
      + apply map_lookup_filter_Some. split; [done|]. by apply elem_of_list_to_set.
      + apply map_lookup_filter_None. by left.
    - apply map_lookup_filter_None. right. intros x _ Hin. by apply elem_of_list_to_set in Hin. }
  simpl. split_and!; [done|apply Hf|apply Hf|].
  assert (∀ {A} (m : gmap string A),
    filter (λ kv, kv.1 ∈ item_ids items) (filter (λ kv, kv.1 ∈ item_ids items) m)
    = filter (λ kv, kv.1 ∈ item_ids items) m) as Hidem.
  { intros A m. apply map_filter_id. by intros i x [_ ?]%map_lookup_filter_Some. }
  unfold replace_items, prune_side_maps; cbn [vp_items vp_version vp_participants vp_task_progress vp_mode vp_node_meta].
  by rewrite !Hidem.
Qed.

(** ** Task control *)

(** Task-control names parse back: every action is the parse of its own
    name, and no other text parses to it. *)
Theorem action_parse_roundtrip (a : TaskControlAction) (s : string) :
  action_parse s = Some a ↔ s = action_as_str a.
Proof.
  split; [|intros ->; by destruct a]. unfold action_parse.
  repeat (case_bool_decide; [intros [= <-]; done|]). done.
Qed.

Lemma control_leb_total (a b : PlanItem) :
  (control_rank (pi_status a) <=? control_rank (pi_status b)) = true
  ∨ (control_rank (pi_status b) <=? control_rank (pi_status a)) = true.
Proof. rewrite !Nat.leb_le. lia. Qed.

Lemma control_leb_trans (a b c : PlanItem) :
  (control_rank (pi_status a) <=? control_rank (pi_status b)) = true →
  (control_rank (pi_status b) <=? control_rank (pi_status c)) = true →
  (control_rank (pi_status a) <=? control_rank (pi_status c)) = true.
Proof. rewrite !Nat.leb_le. lia. Qed.

(** No control action may target a completed task. *)
Lemma control_never_completed a s :
  task_control_action_allows_status a s = true → is_completed_status s = false.
Proof.
  unfold is_completed_status. destruct a; simpl; intros H;
    try (apply negb_true_iff in H; exact H); apply bool_decide_eq_false.
  1-2: bool_hyps; subst; set_solver.
  all: apply is_one_of_true in H; set_solver.
Qed.

Definition is_candidate (items : list PlanItem) (target : string) (a : TaskControlAction) (i : PlanItem) : Prop :=
  i ∈ items ∧ pi_assigned_to i = Some target ∧ task_control_action_allows_status a (pi_status i) = true.

Lemma elem_of_candidates items target a i :
  i ∈ control_candidates items target a ↔ is_candidate items target a i.
Proof.
  unfold control_candidates, is_candidate.
  rewrite elem_of_sort_by, !elem_of_List_filter, bool_decide_eq_true. tauto.
Qed.

(** A control action without a task id is resolved safely: the chosen
    task is assigned to the target session, in a status the action allows, not
    completed, and at least as urgent as every other candidate; when it is not
    the only candidate, another candidate's status differs from its own.  The
    action is refused exactly when there is no candidate or the two most
    urgent ones have the same status. *)
Theorem control_target_is_a_best_candidate (items : list PlanItem) (target : string) (a : TaskControlAction) :
  match task_control_target_item_id items target a with
  | Ok id => ∃ i, pi_id i = id ∧ is_candidate items target a i
      ∧ is_completed_status (pi_status i) = false
      ∧ (∀ j, is_candidate items target a j → control_rank (pi_status i) ≤ control_rank (pi_status j))
      ∧ ((∀ j, is_candidate items target a j → j = i)
         ∨ ∃ j, is_candidate items target a j ∧ pi_status j ≠ pi_status i)
  | Err _ => (∀ j, ¬ is_candidate items target a j)
      ∨ ∃ i j rest, control_candidates items target a = i :: j :: rest ∧ pi_status i = pi_status j
  end.
Proof.
  unfold task_control_target_item_id.
  assert (StronglySorted (λ l r, (control_rank (pi_status l) <=? control_rank (pi_status r)) = true)
            (control_candidates items target a)) as Hs
    by (apply sort_by_sorted; [apply control_leb_total|apply control_leb_trans]).
  pose proof (elem_of_candidates items target a) as Hel.
  destruct (control_candidates items target a) as [|i [|j rest]] eqn:E.
  - left. intros j Hj%Hel. by apply elem_of_nil in Hj.
  - exists i. assert (is_candidate items target a i) as Hi by (apply Hel; left).
    assert (∀ j, is_candidate items target a j → j = i) as Hu by (by intros j ->%Hel%list_elem_of_singleton).
    split_and!; [done|done|by eapply control_never_completed, Hi| |by left]. intros j ->%Hu. done.
  - case_bool_decide as Hst.
    + exists i. assert (is_candidate items target a i) as Hi by (apply Hel; left).
      split_and!; [done|done|by eapply control_never_completed, Hi| |].
      * intros x [->|Hx]%Hel%elem_of_cons; [done|]. apply StronglySorted_inv in Hs as [_ Hf].
        rewrite Forall_forall in Hf. by apply Nat.leb_le, Hf.
      * right. exists j. split; [apply Hel; right; left|done].
    + right. exists i, j, rest. split; [done|].
      destruct (decide (pi_status i = pi_status j)) as [|Hne]; [done|by destruct Hst].
Qed.

(** ** Loads *)

Lemma bump_default k n m v : default 0 (bump k n m !! v) = default 0 (m !! v) + if decide (v = k) then n else 0.
Proof.
  unfold bump. destruct (decide (v = k)) as [->|Hne].
  - by rewrite lookup_insert_eq.
  - rewrite lookup_insert_ne by done. by rewrite Nat.add_0_r.
Qed.

(** The load of a session is the number of unfinished items assigned to
    it, and a session without any has no entry. *)
Theorem assignment_loads_count (p : VersionedPlan) (s : string) :
  let n := length (List.filter (λ i, negb (is_terminal_status (pi_status i))
                                  && bool_decide (pi_assigned_to i = Some s)) (vp_items p)) in
  assignment_loads p !! s = if decide (n = 0) then None else Some n.
Proof.
  unfold assignment_loads. set (f := λ (loads : gmap string nat) i, _).
  assert (∀ l m, foldl f m l !! s =
    let n := length (List.filter (λ i, negb (is_terminal_status (pi_status i))
                                    && bool_decide (pi_assigned_to i = Some s)) l) in
    if decide (n = 0) then m !! s else Some (default 0 (m !! s) + n)) as H.
  { induction l as [|i l IH]; intros m; simpl; [done|]. rewrite IH. unfold f at 1 2.
    destruct (is_terminal_status (pi_status i)); simpl; [done|].
    destruct (pi_assigned_to i) as [t|]; [|by rewrite bool_decide_false].
    rewrite bump_default. destruct (decide (t = s)) as [->|Hne].
    - rewrite (bool_decide_true (Some s = Some s)), (decide_True (P := s = s)) by done. simpl.
      case_decide as Hn; [rewrite Hn|f_equal; lia]. unfold bump. by rewrite lookup_insert_eq.
    - rewrite (bool_decide_false (Some t = Some s)), (decide_False (P := s = t)) by congruence.
      unfold bump. rewrite lookup_insert_ne by done. by rewrite Nat.add_0_r. }
  rewrite H. cbn zeta. rewrite lookup_empty. done.
Qed.
