(* ===== verification/Bridge.v ===== *)
(** * The bridge between engine and plan

    crates/jcode-plan/src/bridge.rs: server handlers lift the stored plan into
    a [TaskGraph], apply an engine operation, and lower the result back.
    Artifacts cross as JSON text; the JSON codec (serde_json) is a parameter,
    and what the bridge relies on, that an encoded artifact decodes to itself,
    is a hypothesis of the theorems that need it. *)

From stdpp Require Import base list strings gmap sorting relations pretty.
From S2P Require Import Prelude RustString Confidence Kahn Dag DagCycle Mention DagOps Schedule.
From S2P Require Import DagInv DagGrow DagSafety DagClaims Plan PlanClaims.

Open Scope string_scope.
Open Scope nat_scope.
Open Scope list_scope.

(** ** Names *)

Definition parse_mode (mode : string) : Mode :=
  if bool_decide (to_ascii_lowercase (trim mode) = "deep") then Deep else Light.

Definition mode_str (m : Mode) : string :=
  match m with Deep => "deep" | Light => "light" end.

Definition parse_kind (kind : option string) : NodeKind :=
  match (λ k, to_ascii_lowercase (trim k)) <$> kind with
  | Some k =>
      if bool_decide (k = "implement") then Implement
      else if bool_decide (k = "verify") then Verify
      else if bool_decide (k = "fix") then Fix
      else if bool_decide (k = "synthesize") then Synthesize
      else if bool_decide (k = "critique") then Critique
      else Explore
  | None => Explore
  end.

Definition kind_str (k : NodeKind) : string :=
  match k with
  | Explore => "explore" | Implement => "implement" | Verify => "verify" | Fix => "fix"
  | Synthesize => "synthesize" | Critique => "critique"
  end.

Definition parse_origin (origin : option string) : option NodeOrigin :=
  match (λ o, to_ascii_lowercase (trim o)) <$> origin with
  | Some o =>
      if bool_decide (o = "seed") then Some OSeed
      else if bool_decide (o = "expand") then Some OExpand
      else if bool_decide (o = "gap") then Some OGap
      else if bool_decide (o = "gate") then Some OGate
      else None
  | None => None
  end.

Definition origin_str (o : NodeOrigin) : string :=
  match o with OSeed => "seed" | OExpand => "expand" | OGap => "gap" | OGate => "gate" end.

Definition status_from_plan (s : string) : NodeStatus :=
  if is_one_of ["running"; "running_stale"] s then Running
  else if is_one_of ["completed"; "done"] s then Done
  else if is_one_of ["failed"; "stopped"; "crashed"] s then Failed
  else Queued.

Definition status_to_plan (s : NodeStatus) : string :=
  match s with Queued => "queued" | Running => "running" | Done => "completed" | Failed => "failed" end.

Definition priority_string (rank : Z) : string :=
  if bool_decide (rank = 0%Z) then "high" else if bool_decide (rank = 2%Z) then "low" else "medium".

(** The items by id; a later item with the same id wins. *)
Definition prior_items (items : list PlanItem) : gmap string PlanItem :=
  foldl (λ m i, <[pi_id i := i]> m) ∅ items.

Record GrowthStats := mkStats { seeded : nat; from_expansion : nat; from_gaps : nat; gates : nat }.

Definition stats_total (s : GrowthStats) : nat := seeded s + from_expansion s + from_gaps s + gates s.
Definition stats_grown (s : GrowthStats) : nat := from_expansion s + from_gaps s + gates s.
Definition summary_line (s : GrowthStats) : string :=
  pretty (seeded s) +:+ " seeded -> " +:+ pretty (stats_total s) +:+ " nodes (+"
  +:+ pretty (from_expansion s) +:+ " expansion, +" +:+ pretty (from_gaps s) +:+ " gap, +"
  +:+ pretty (gates s) +:+ " gates)".

Definition item_origin (p : VersionedPlan) (i : PlanItem) : option NodeOrigin :=
  vp_node_meta p !! pi_id i ≫= λ m, parse_origin (nm_origin m).

Definition count_origin (s : GrowthStats) (o : option NodeOrigin) : GrowthStats :=
  match o with
  | Some OExpand => mkStats (seeded s) (S (from_expansion s)) (from_gaps s) (gates s)
  | Some OGap => mkStats (seeded s) (from_expansion s) (S (from_gaps s)) (gates s)
  | Some OGate => mkStats (seeded s) (from_expansion s) (from_gaps s) (S (gates s))
  | Some OSeed | None => mkStats (S (seeded s)) (from_expansion s) (from_gaps s) (gates s)
  end.

Definition growth_stats (p : VersionedPlan) : GrowthStats :=
  foldl (λ s i, count_origin s (item_origin p i)) (mkStats 0 0 0 0) (vp_items p).

Section Bridge.
(** [serde_json::to_string] and [serde_json::from_str] at [HandoffArtifact]. *)
Context (to_json : HandoffArtifact → option string) (from_json : string → option HandoffArtifact).

Definition lift_item (p : VersionedPlan) (i : PlanItem) : TaskNode :=
  let meta := default meta_default (vp_node_meta p !! pi_id i) in
  mkNode (pi_id i) (pi_content i) (parse_kind (nm_kind meta)) (status_from_plan (pi_status i))
    (pi_assigned_to i) (nm_parent meta) (pi_blocked_by i) (nm_expanded meta) (nm_is_gate meta)
    (nm_planner meta) (priority_rank (pi_priority i)) (nm_artifact_json meta ≫= from_json)
    (parse_origin (nm_origin meta)).

Definition to_task_graph (p : VersionedPlan) : TaskGraph :=
  foldl (λ g i, push g (lift_item p i)) (graph_new (parse_mode (vp_mode p))) (vp_items p).

Definition lower_item (prior : gmap string PlanItem) (n : TaskNode) : PlanItem :=
  let prev := prior !! tn_id n in
  mkItem (tn_content n) (status_to_plan (tn_status n))
    (match prev with Some p => pi_priority p | None => priority_string (tn_priority n) end)
    (tn_id n) (prev ≫= pi_subsystem)
    (match prev with Some p => pi_file_scope p | None => [] end)
    (tn_depends_on n) (tn_owner n).

Definition lower_meta (n : TaskNode) : NodeMeta :=
  mkMeta (Some (kind_str (tn_kind n))) (tn_parent n) (tn_expanded n) (tn_is_gate n) (tn_planner n)
    (tn_output n ≫= to_json) (origin_str <$> tn_origin n).

Definition lower_metas (nodes : list TaskNode) : gmap string NodeMeta :=
  foldl (λ m n, <[tn_id n := lower_meta n]> m) ∅ nodes.

Definition apply_task_graph (p : VersionedPlan) (g : TaskGraph) : VersionedPlan :=
  let prior := prior_items (vp_items p) in
  let p := mkPlan (vp_items p) (vp_version p) (vp_participants p) (vp_task_progress p)
             (mode_str (g_mode g)) (vp_node_meta p) in
  let p := replace_items (map (lower_item prior) (g_nodes g)) p in
  mkPlan (vp_items p) (vp_version p) (vp_participants p) (vp_task_progress p) (vp_mode p)
    (lower_metas (g_nodes g)).

(** The section of one dependency, when it is completed with a readable
    artifact. *)
Definition context_section (p : VersionedPlan) (dep_id : string) : option string :=
  match find_item p dep_id with
  | None => None
  | Some dep =>
      if negb (is_completed_status (pi_status dep)) then None
      else
        match vp_node_meta p !! dep_id with
        | None => None
        | Some meta =>
            match nm_artifact_json meta ≫= from_json with
            | None => None
            | Some artifact => Some (render_section artifact dep_id (default "task" (nm_kind meta)))
            end
        end
  end.

Definition upstream_context (p : VersionedPlan) (task_id : string) : option string :=
  match find_item p task_id with
  | None => None
  | Some item =>
      match pi_blocked_by item with
      | [] => None
      | deps =>
          match omap (context_section p) deps with
          | [] => None
          | sections => Some ("# Inputs from completed dependencies" +:+ newline +:+ newline
                              +:+ String.concat newline sections)
          end
      end
  end.

Definition hydrate_assignment (p : VersionedPlan) (task_id content : string) : string :=
  match upstream_context p task_id with
  | Some context => content +:+ newline +:+ newline +:+ context
  | None => content
  end.

Definition low_confidence_completed_ids (p : VersionedPlan) : list string :=
  map pi_id
    (List.filter (λ i,
       match vp_node_meta p !! pi_id i with
       | None => false
       | Some meta =>
           if nm_is_gate meta then false
           else bool_decide ((nm_artifact_json meta ≫= from_json) ≫= confidence_level = Some Low)
       end)
      (List.filter (λ i, is_completed_status (pi_status i)) (vp_items p))).
End Bridge.

(** ** Lookup *)

Lemma lift_nodes from_json p :
  to_task_graph from_json p
  = mkGraph (parse_mode (vp_mode p)) (map (lift_item from_json p) (vp_items p)).
Proof.
  unfold to_task_graph. set (m := parse_mode _).
  assert (∀ l acc, foldl (λ g i, push g (lift_item from_json p i)) (mkGraph m acc) l
    = mkGraph m (acc ++ map (lift_item from_json p) l)) as H.
  { induction l as [|i l IH]; intros acc; simpl; [by rewrite app_nil_r|].
    unfold push; simpl. rewrite IH. by rewrite <- app_assoc. }
  apply (H (vp_items p) []).
Qed.

Lemma lower_metas_lookup to_json g n :
  NoDup (ids g) → n ∈ g_nodes g → lower_metas to_json (g_nodes g) !! tn_id n = Some (lower_meta to_json n).
Proof.
  unfold lower_metas, ids.
  assert (∀ l (m : gmap string NodeMeta), NoDup (map tn_id l) → n ∈ l →
    foldl (λ m n, <[tn_id n := lower_meta to_json n]> m) m l !! tn_id n = Some (lower_meta to_json n)) as H.
  { assert (∀ l (m : gmap string NodeMeta) k, k ∉ map tn_id l →
      foldl (λ m n, <[tn_id n := lower_meta to_json n]> m) m l !! k = m !! k) as Hskip.
    { induction l as [|x l IH]; intros m k Hk; simpl in *; [done|]. apply not_elem_of_cons in Hk as [? ?].
      rewrite IH by done. by rewrite lookup_insert_ne. }
    induction l as [|x l IH]; intros m Hnd Hn; [by apply elem_of_nil in Hn|].
    simpl in *. apply NoDup_cons in Hnd as [Hx Hnd]. apply elem_of_cons in Hn as [->|Hn]; [|by apply IH].
    rewrite Hskip by done. by rewrite lookup_insert_eq. }
  intros Hnd Hn. by apply H.
Qed.

Lemma apply_items to_json p g :
  vp_items (apply_task_graph to_json p g) = map (lower_item (prior_items (vp_items p))) (g_nodes g).
Proof. done. Qed.

Lemma apply_item_ids to_json p g : map pi_id (vp_items (apply_task_graph to_json p g)) = ids g.
Proof. rewrite apply_items, map_map. done. Qed.

Lemma apply_find to_json p g n :
  NoDup (ids g) → n ∈ g_nodes g →
  find_item (apply_task_graph to_json p g) (tn_id n) = Some (lower_item (prior_items (vp_items p)) n).
Proof.
  intros Hnd Hn. apply (find_item_of _ (lower_item _ n)).
  - by rewrite apply_item_ids.
  - rewrite apply_items. by apply (list_elem_of_fmap_2 (lower_item _)).
Qed.

Lemma apply_find_None to_json p g v :
  v ∉ ids g → find_item (apply_task_graph to_json p g) v = None.
Proof.
  intros Hv. destruct (find_item _ v) as [i|] eqn:E; [|done]. apply find_item_Some in E as [Hi <-].
  destruct Hv. rewrite <- (apply_item_ids to_json p g). by apply (list_elem_of_fmap_2 pi_id).
Qed.

(** ** Names parse back *)

Lemma status_from_plan_to s : status_from_plan (status_to_plan s) = s.
Proof. by destruct s. Qed.

Lemma parse_kind_str k : parse_kind (Some (kind_str k)) = k.
Proof. by destruct k. Qed.

Lemma parse_origin_str o : parse_origin (origin_str <$> o) = o.
Proof. by destruct o as [[]|]. Qed.

Lemma parse_mode_str m : parse_mode (mode_str m) = m.
Proof. by destruct m. Qed.

Lemma status_agrees s :
  is_completed_status s = bool_decide (status_from_plan s = Done)
  ∧ is_active_status s = bool_decide (status_from_plan s = Running)
  ∧ is_failed_status s = bool_decide (status_from_plan s = Failed).
Proof.
  destruct (status_classes s) as (Ht & Hcf & _ & Hat & _).
  unfold is_failed_status, is_terminal_status, is_completed_status, is_active_status in *.
  unfold status_from_plan.
  assert (is_one_of ["failed"; "stopped"; "crashed"] s
    = is_one_of ["completed"; "done"; "failed"; "stopped"; "crashed"] s && negb (is_one_of ["completed"; "done"] s)) as ->.
  { unfold is_one_of. apply eq_bool_prop_intro. rewrite andb_True, negb_True, !bool_decide_spec. set_solver. }
  destruct (is_one_of ["running"; "running_stale"] s) eqn:E1, (is_one_of ["completed"; "done"] s) eqn:E2,
    (is_one_of ["completed"; "done"; "failed"; "stopped"; "crashed"] s) eqn:E3; simpl in *; done.
Qed.
