(* ===== verification/BridgeClaims.v ===== *)
(** * What the bridge guarantees

    Lifting and lowering are inverse up to the priority names, the live
    scheduler dispatches what the engine would, worker prompts carry what the
    engine's do, and the status surfaces agree. *)

From stdpp Require Import base list strings gmap sorting relations pretty.
From S2P Require Import Prelude RustString Confidence Kahn Dag DagCycle Mention DagOps Schedule.
From S2P Require Import DagInv DagGrow DagSafety DagClaims Plan PlanClaims Bridge.

Open Scope string_scope.
Open Scope nat_scope.
Open Scope list_scope.

(** The priority a node has after it went through the plan. *)
Definition stored_priority (p : VersionedPlan) (n : TaskNode) : Z :=
  priority_rank (pi_priority (lower_item (prior_items (vp_items p)) n)).

Definition priorities_kept (p : VersionedPlan) (g : TaskGraph) : Prop :=
  ∀ n, n ∈ g_nodes g → stored_priority p n = tn_priority n.

(** ** The live ready set *)

Section Live.
Context (to_json : HandoffArtifact → option string) (p : VersionedPlan) (g : TaskGraph).
Context (Hg : struct_inv g).

#[local] Notation prior := (prior_items (vp_items p)).
#[local] Notation items := (map (lower_item prior) (g_nodes g)).

Lemma lowered_acyclic : cycle_item_ids items = [].
Proof.
  apply elem_of_nil_inv. intros v Hv. destruct (cycle_item_ids_spec items) as (_ & _ & Hel).
  apply Hel in Hv as [Hv HA]. apply HA.
  apply (Acc_iff (depends g)).
  - intros u w. unfold depends. rewrite ids_items_graph, map_map. apply and_iff_compat_l. simpl.
    rewrite map_map. setoid_rewrite list_elem_of_fmap. naive_solver.
  - apply cycle_nodes_nil; [apply cycle_nodes_nil_acyclic, Hg|].
    apply elem_of_item_ids in Hv as (i & (n & -> & Hn)%list_elem_of_fmap & <-).
    apply elem_of_ids. eauto.
Qed.

Lemma runnable_queued st : is_runnable_status (status_to_plan st) = bool_decide (st = Queued).
Proof. by destruct st. Qed.

Lemma completed_done st : is_completed_status (status_to_plan st) = bool_decide (st = Done).
Proof. by destruct st. Qed.

Lemma lowered_ready n : n ∈ g_nodes g → item_is_ready items (lower_item prior n) = is_ready g n.
Proof.
  intros Hn. apply eq_true_iff_eq. rewrite item_is_ready_true, is_ready_true, lowered_acyclic. simpl.
  rewrite runnable_queued, bool_decide_eq_true. split.
  - intros (Hq & Hd & _). split; [done|]. intros d (j & Hj & Hid & Hc)%Hd.
    apply list_elem_of_fmap in Hj as (m & -> & Hm). simpl in *.
    rewrite completed_done, bool_decide_eq_true in Hc. subst d.
    exists m. split; [|done]. apply get_of_elem; [apply Hg|done].
  - intros [Hq Hd]. split_and!; [done| |by intros ?%elem_of_nil].
    intros d (m & [Hm Hid]%get_Some & Hs)%Hd. exists (lower_item prior m).
    split_and!; [by apply (list_elem_of_fmap_2 (lower_item prior))|done|].
    simpl. by rewrite completed_done, bool_decide_true.
Qed.

Lemma lowered_ready_ids n :
  n ∈ g_nodes g → (tn_id n ∈ ready_ids (summarize_plan_graph items) ↔ is_ready g n = true).
Proof.
  intros Hn. rewrite <- lowered_ready by done. simpl. membership.
  apply (ids_where_unique items (item_is_ready items) (lower_item prior n)).
  - rewrite map_map. apply (si_nodup Hg).
  - by apply (list_elem_of_fmap_2 (lower_item prior)).
Qed.
End Live.

Lemma sort_by_map {A B} (f : A → B) (leb1 : A → A → bool) (leb2 : B → B → bool) l :
  (∀ x y, x ∈ l → y ∈ l → leb2 (f x) (f y) = leb1 x y) →
  sort_by leb2 (map f l) = map f (sort_by leb1 l).
Proof.
  assert (∀ x m, (∀ y, y ∈ m → leb2 (f x) (f y) = leb1 x y) →
    insert_sorted leb2 (f x) (map f m) = map f (insert_sorted leb1 x m)) as Hins.
  { intros x m. induction m as [|y m IH]; intros Hm; simpl; [done|].
    rewrite (Hm y) by left. destruct (leb1 x y); simpl; [done|]. f_equal. apply IH.
    intros z Hz. apply Hm. by right. }
  induction l as [|x l IH]; intros Hl; simpl; [done|].
  rewrite IH by (intros y z Hy Hz; apply Hl; by right). apply Hins. intros y Hy.
  apply Hl; [left|right]. by apply elem_of_sort_by in Hy.
Qed.

Lemma filter_map_lower {A B} (f : A → B) (q : B → bool) l :
  List.filter q (map f l) = map f (List.filter (λ x, q (f x)) l).
Proof. induction l as [|x l IH]; simpl; [done|]. destruct (q (f x)); simpl; by rewrite IH. Qed.

(** C6: the live scheduler implements the engine's: on a plan lowered from
    any graph the engine reaches, with priorities the plan can name, automatic
    dispatch offers exactly the engine's ready nodes in the engine's order. *)
Theorem live_scheduler_refines_engine (to_json : HandoffArtifact → option string) (m : Mode)
    (p : VersionedPlan) (g : TaskGraph) :
  reachable m g → priorities_kept p g →
  next_runnable_item_ids (vp_items (apply_task_graph to_json p g)) None = map tn_id (ready_nodes g).
Proof.
  intros [Hg _]%dag_inv_reachable Hpr. rewrite apply_items. unfold next_runnable_item_ids, ready_nodes.
  rewrite filter_map_lower.
  assert (List.filter (λ n, bool_decide (pi_id (lower_item (prior_items (vp_items p)) n)
      ∈ ready_ids (summarize_plan_graph (map (lower_item (prior_items (vp_items p))) (g_nodes g))))) (g_nodes g)
    = List.filter (is_ready g) (g_nodes g)) as ->.
  { apply List.filter_ext_in. intros n Hn%list_elem_of_In. apply eq_true_iff_eq.
    rewrite bool_decide_eq_true. by apply lowered_ready_ids. }
  rewrite (sort_by_map _ sched_leb).
  - rewrite map_map. done.
  - intros x y [Hx _]%elem_of_List_filter [Hy _]%elem_of_List_filter.
    unfold item_leb, sched_leb. fold (stored_priority p x) (stored_priority p y).
    rewrite (Hpr x Hx), (Hpr y Hy). done.
Qed.

Lemma live_scheduler_refines_engine_witness :
  next_runnable_item_ids (vp_items (apply_task_graph (λ _, None) plan_new demo_idle_graph)) None
  = ["a1"; "a2"].
Proof.
  etrans; [apply (live_scheduler_refines_engine (λ _, None) Deep plan_new demo_idle_graph)|].
  - exact (run_calls_reachable Deep (take 3 demo_calls)).
  - intros n Hn. unfold demo_idle_graph in Hn; cbn [g_nodes] in Hn.
    repeat (apply elem_of_cons in Hn as [->|Hn]; [vm_compute; reflexivity|]). by apply elem_of_nil in Hn.
  - vm_compute. reflexivity.
Defined.

(** ** Round trip *)

(** What the bridge relies on: an artifact is encoded, and decodes to itself. *)
Definition codec_ok (to_json : HandoffArtifact → option string) (from_json : string → option HandoffArtifact)
  : Prop := ∀ a, ∃ j, to_json a = Some j ∧ from_json j = Some a.

Lemma codec_bind to_json from_json o :
  codec_ok to_json from_json → (o ≫= to_json) ≫= from_json = o.
Proof. intros Hc. destruct o as [a|]; [|done]. destruct (Hc a) as (j & E & D). simpl. by rewrite E. Qed.

Lemma lift_lower to_json from_json p g n :
  codec_ok to_json from_json → NoDup (ids g) → n ∈ g_nodes g → stored_priority p n = tn_priority n →
  lift_item from_json (apply_task_graph to_json p g) (lower_item (prior_items (vp_items p)) n) = n.
Proof.
  intros Hc Hnd Hn Hp. unfold lift_item.
  assert (vp_node_meta (apply_task_graph to_json p g) !! tn_id n = Some (lower_meta to_json n)) as Hm
    by (by apply lower_metas_lookup).
  cbn [lower_item pi_id]. rewrite Hm. unfold stored_priority in Hp. simpl in Hp |- *.
  rewrite parse_kind_str, status_from_plan_to, parse_origin_str, codec_bind, Hp by done. by destruct n.
Qed.

(** Lifting what was lowered. *)
Lemma lift_of_lowered to_json from_json p g :
  codec_ok to_json from_json → NoDup (ids g) → priorities_kept p g →
  to_task_graph from_json (apply_task_graph to_json p g) = g.
Proof.
  intros Hc Hnd Hp. rewrite lift_nodes, apply_items, map_map.
  assert (parse_mode (vp_mode (apply_task_graph to_json p g)) = g_mode g) as -> by apply parse_mode_str.
  destruct g as [m nodes] eqn:Eg. simpl in *. f_equal. rewrite <- Eg in *.
  rewrite <- (map_id nodes) at 2. apply map_ext_in. intros n Hn%list_elem_of_In.
  assert (n ∈ g_nodes g) by (by rewrite Eg). apply lift_lower; [done..|]. apply Hp. by rewrite Eg.
Qed.

(** Lowering a graph into the plan and lifting it again gives the graph
    back, node for node, whenever ids are distinct and every priority is one
    the plan can name; statuses, owners, parents, gates, planners, artifacts
    and origins all survive. *)
Theorem lower_then_lift_is_identity (to_json : HandoffArtifact → option string)
    (from_json : string → option HandoffArtifact) (p : VersionedPlan) (g : TaskGraph) :
  codec_ok to_json from_json → NoDup (ids g) → priorities_kept p g →
  to_task_graph from_json (apply_task_graph to_json p g) = g.
Proof. apply lift_of_lowered. Qed.

(** A concrete codec: artifacts are countable, codes are written in binary. *)
#[export] Instance HandoffArtifact_countable : Countable HandoffArtifact.
Proof.
  apply (inj_countable'
    (λ a, (findings a, evidence a, edge_cases_considered a, validation a, open_questions a, confidence a,
           what_i_did_not_check a))
    (λ t, let '(f, e, ec, v, o, c, w) := t in mkArtifact f e ec v o c w)).
  by intros [].
Defined.

Fixpoint pos_to_string (n : positive) : string :=
  match n with
  | xH => ""
  | xO n' => String (Ascii.ascii_of_nat 48) (pos_to_string n')
  | xI n' => String (Ascii.ascii_of_nat 49) (pos_to_string n')
  end.

Fixpoint pos_of_string (s : string) : positive :=
  match s with
  | "" => xH
  | String c s' => if Ascii.eqb c (Ascii.ascii_of_nat 49) then xI (pos_of_string s') else xO (pos_of_string s')
  end.

Definition demo_to_json (a : HandoffArtifact) : option string := Some (pos_to_string (encode a)).
Definition demo_from_json (s : string) : option HandoffArtifact := decode (pos_of_string s).

Lemma demo_codec_ok : codec_ok demo_to_json demo_from_json.
Proof.
  intros a. exists (pos_to_string (encode a)). split; [done|]. unfold demo_from_json.
  assert (∀ n, pos_of_string (pos_to_string n) = n) as ->; [|apply decode_encode].
  induction n as [n IH|n IH|]; simpl; congruence.
Qed.

Lemma demo_priorities_kept : priorities_kept plan_new demo_gate_graph.
Proof.
  intros n Hn. unfold demo_gate_graph in Hn; cbn [g_nodes] in Hn.
  repeat (apply elem_of_cons in Hn as [->|Hn]; [vm_compute; reflexivity|]). by apply elem_of_nil in Hn.
Qed.

Lemma lower_then_lift_is_identity_witness :
  to_task_graph demo_from_json (apply_task_graph demo_to_json plan_new demo_gate_graph) = demo_gate_graph.
Proof.
  apply (lower_then_lift_is_identity demo_to_json demo_from_json plan_new demo_gate_graph demo_codec_ok).
  - apply (bool_decide_unpack (NoDup (ids demo_gate_graph))). vm_compute. exact I.
  - exact demo_priorities_kept.
Defined.

(** ** Prompts *)

Lemma concat_newline (l : list string) :
  l ≠ [] → newline +:+ String.concat newline l = str_concat (map (λ s, newline +:+ s) l).
Proof.
  intros Hne. induction l as [|s [|t l] IH]; [done| |].
  - simpl. by rewrite append_nil_r_s.
  - change (String.concat newline (s :: t :: l)) with (s +:+ newline +:+ String.concat newline (t :: l)).
    rewrite IH by done. change (map (λ s, newline +:+ s) (s :: t :: l))
      with ((newline +:+ s) :: map (λ s, newline +:+ s) (t :: l)). simpl str_concat at 2.
    by rewrite !append_assoc_s.
Qed.

Section Prompt.
Context (to_json : HandoffArtifact → option string) (from_json : string → option HandoffArtifact).
Context (Hc : codec_ok to_json from_json) (p : VersionedPlan) (m : Mode) (g : TaskGraph).
Context (Hr : reachable m g).

Lemma kind_str_label k : kind_str k = kind_label k.
Proof. by destruct k. Qed.

Lemma context_section_of v :
  context_section from_json (apply_task_graph to_json p g) v
  = match get g v with
    | Some d => if is_done d then
                  (λ a, render_section a (tn_id d) (kind_label (tn_kind d))) <$> tn_output d
                else None
    | None => None
    end.
Proof.
  destruct (dag_inv_reachable _ _ Hr) as [Hg _]. unfold context_section.
  destruct (get g v) as [d|] eqn:Hget.
  - apply get_Some in Hget as [Hd <-]. rewrite apply_find by (apply Hg || done). cbn [lower_item pi_status].
    rewrite completed_done. unfold is_done. destruct (bool_decide (tn_status d = Done)); [|done]. cbn [negb].
    assert (vp_node_meta (apply_task_graph to_json p g) !! tn_id d = Some (lower_meta to_json d)) as ->
      by (apply lower_metas_lookup; [apply Hg|done]).
    cbn [lower_meta nm_artifact_json nm_kind]. rewrite codec_bind by done.
    destruct (tn_output d); simpl; [|done]. by rewrite kind_str_label.
  - apply get_None in Hget. by rewrite apply_find_None.
Qed.

Lemma sections_of_upstream deps :
  omap (context_section from_json (apply_task_graph to_json p g)) deps
  = map (λ d, render_section (default artifact_default (tn_output d)) (tn_id d) (kind_label (tn_kind d)))
      (List.filter is_done (omap (get g) deps)).
Proof.
  destruct (dag_inv_reachable _ _ Hr) as [_ Hd].
  induction deps as [|v deps IH]; [done|]. simpl. rewrite context_section_of.
  destruct (get g v) as [d|] eqn:Hget; [|exact IH]. simpl.
  destruct (is_done d) eqn:Hdone; [|exact IH].
  apply get_Some in Hget as [Hin _]. unfold is_done in Hdone. bool_hyps.
  destruct (no_done _ (di_node Hd d Hin) Hdone) as [a Ha]. simpl. rewrite Ha. simpl. f_equal. exact IH.
Qed.
End Prompt.

(** A worker assigned through the live plan is told what the engine's
    reference input says: on a plan lowered from any reachable graph, the
    hydrated assignment of a node is the engine's assembled input, byte for
    byte. *)
Theorem live_prompt_equals_engine_input (to_json : HandoffArtifact → option string)
    (from_json : string → option HandoffArtifact) (m : Mode) (p : VersionedPlan) (g : TaskGraph) (n : TaskNode) :
  codec_ok to_json from_json → reachable m g → n ∈ g_nodes g →
  hydrate_assignment from_json (apply_task_graph to_json p g) (tn_id n) (tn_content n)
  = assemble_input g (tn_id n).
Proof.
  intros Hc Hr Hn. destruct (dag_inv_reachable _ _ Hr) as [Hg Hd].
  unfold hydrate_assignment, upstream_context, assemble_input.
  rewrite apply_find, get_of_elem by (apply Hg || done). cbn [lower_item pi_blocked_by].
  unfold upstream. destruct (tn_depends_on n) as [|v vs] eqn:Ed; [done|].
  rewrite (sections_of_upstream to_json from_json Hc p m g Hr).
  destruct (List.filter is_done (omap (get g) (v :: vs))) as [|d ds] eqn:Eu; [done|].
  assert (∀ x, x ∈ d :: ds → is_Some (tn_output x)) as Hout.
  { intros x Hx. rewrite <- Eu in Hx. apply elem_of_List_filter in Hx as [Hx Hs].
    apply list_elem_of_omap in Hx as (w & _ & [Hx _]%get_Some). unfold is_done in Hs. bool_hyps.
    by apply (no_done _ (di_node Hd x Hx)). }
  remember (map _ (d :: ds)) as l eqn:El. destruct l as [|s l]; [done|].
  rewrite (concat_newline (s :: l)) by done. rewrite El. do 5 f_equal. rewrite map_map. f_equal. apply map_ext_in. intros x Hx%list_elem_of_In.
  unfold dep_section. by destruct (Hout x Hx) as [a ->].
Qed.

Lemma live_prompt_equals_engine_input_witness :
  ∃ n, hydrate_assignment demo_from_json (apply_task_graph demo_to_json plan_new demo_gate_graph) "a::gate"
         (tn_content n)
       = assemble_input demo_gate_graph "a::gate".
Proof.
  destruct (get demo_gate_graph "a::gate") as [n|] eqn:E; [|by vm_compute in E].
  pose proof (get_Some _ _ _ E) as [Hn Hid]. exists n. rewrite <- Hid.
  exact (live_prompt_equals_engine_input demo_to_json demo_from_json Deep plan_new demo_gate_graph n
    demo_codec_ok demo_gate_reachable Hn).
Defined.

(** ** Status surfaces *)

(** The two readings of a status never disagree: names written by the
    engine parse back to what was written, and the plan's predicates on a
    status, canonical or not, match the engine status it is lifted to. *)
Theorem bridge_names_agree (md : Mode) (k : NodeKind) (o : option NodeOrigin) (st : NodeStatus) (s : string) :
  parse_mode (mode_str md) = md ∧ parse_kind (Some (kind_str k)) = k
  ∧ parse_origin (origin_str <$> o) = o ∧ status_from_plan (status_to_plan st) = st
  ∧ (is_completed_status s = true ↔ status_from_plan s = Done)
  ∧ (is_active_status s = true ↔ status_from_plan s = Running)
  ∧ (is_failed_status s = true ↔ status_from_plan s = Failed)
  ∧ (is_runnable_status s = true → status_from_plan s = Queued).
Proof.
  destruct (status_agrees s) as (-> & -> & ->). rewrite !bool_decide_eq_true.
  split_and!; [apply parse_mode_str|apply parse_kind_str|apply parse_origin_str|apply status_from_plan_to|done..|].
  intros H%is_one_of_true. unfold status_from_plan, is_one_of.
  repeat (rewrite bool_decide_false by set_solver). done.
Qed.

(** The low-confidence listing of the live plan is the engine's on the
    lifted graph, in the same order, whatever the codec does. *)
Theorem live_low_confidence_agrees (from_json : string → option HandoffArtifact) (p : VersionedPlan) :
  low_confidence_completed_ids from_json p = low_confidence_done_ids (to_task_graph from_json p).
Proof.
  unfold low_confidence_completed_ids, low_confidence_done_ids. rewrite lift_nodes. simpl.
  induction (vp_items p) as [|i l IH]; [done|]. cbn [map List.filter].
  assert (is_done (lift_item from_json p i) = is_completed_status (pi_status i)) as ->
    by (unfold is_done; simpl; by destruct (status_agrees (pi_status i)) as (-> & _)).
  assert (tn_is_gate (lift_item from_json p i)
    = match vp_node_meta p !! pi_id i with Some meta => nm_is_gate meta | None => false end) as ->
    by (simpl; by destruct (vp_node_meta p !! pi_id i)).
  destruct (is_completed_status (pi_status i)); cbn [andb List.filter]; [|exact IH].
  assert (output_level (lift_item from_json p i)
    = match vp_node_meta p !! pi_id i with
      | Some meta => (nm_artifact_json meta ≫= from_json) ≫= confidence_level | None => None end) as Hout
    by (unfold output_level; simpl; destruct (vp_node_meta p !! pi_id i) as [meta|]; [|done];
        simpl; by destruct (nm_artifact_json meta ≫= from_json)).
  destruct (vp_node_meta p !! pi_id i) as [meta|]; cbn [negb List.filter].
  - destruct (nm_is_gate meta); cbn [negb List.filter]; [exact IH|]. rewrite Hout.
    destruct (bool_decide _); simpl; [f_equal|]; exact IH.
  - rewrite Hout. rewrite bool_decide_false by done. exact IH.
Qed.

(** Growth accounting is complete: the four counters are the numbers of
    items of each origin, items without a recorded origin counting as seeded,
    and they sum to the plan's size. *)
Theorem growth_stats_partition (p : VersionedPlan) :
  let count o := length (List.filter (λ i, bool_decide (item_origin p i = o)) (vp_items p)) in
  growth_stats p = mkStats (count None + count (Some OSeed)) (count (Some OExpand)) (count (Some OGap))
                     (count (Some OGate))
  ∧ stats_total (growth_stats p) = length (vp_items p)
  ∧ stats_grown (growth_stats p) + seeded (growth_stats p) = length (vp_items p).
Proof.
  set (count := λ l o, length (List.filter (λ i, bool_decide (item_origin p i = o)) l)).
  assert (∀ l s, foldl (λ s i, count_origin s (item_origin p i)) s l =
    mkStats (seeded s + (count l None + count l (Some OSeed))) (from_expansion s + count l (Some OExpand))
      (from_gaps s + count l (Some OGap)) (gates s + count l (Some OGate))) as Hf.
  { induction l as [|i l IH]; intros s; simpl; [by destruct s; rewrite !Nat.add_0_r|].
    rewrite IH. unfold count; cbn [List.filter].
    destruct (item_origin p i) as [[]|]; repeat case_bool_decide; try congruence; simpl; f_equal; lia. }
  assert (∀ l, count l None + count l (Some OSeed) + count l (Some OExpand) + count l (Some OGap)
    + count l (Some OGate) = length l) as Ht.
  { unfold count. induction l as [|i l IH]; [done|]. cbn [List.filter].
    destruct (item_origin p i) as [[]|]; repeat case_bool_decide; try congruence; simpl; lia. }
  intros c. unfold growth_stats. rewrite Hf. unfold stats_total, stats_grown; simpl.
  specialize (Ht (vp_items p)). split_and!; [done|lia|lia].
Qed.

(** ** A priority the plan cannot name *)

(** A node of priority above 2 that is new to the plan comes back at the rank
    of "medium", ahead of "low" work. *)
Lemma unnamed_priority_promoted p n :
  prior_items (vp_items p) !! tn_id n = None → (2 < tn_priority n)%Z → stored_priority p n = 1%Z.
Proof.
  intros Hp Hn. unfold stored_priority, lower_item, priority_string. cbn [pi_priority]. rewrite Hp.
  by rewrite !bool_decide_false by lia.
Qed.

(** So a seed the engine accepted is no longer recognised after one trip
    through the plan: its replay, a no-op for the engine, is refused. *)
Lemma seed_replay_lost_through_plan :
  let spec := spec_priority (spec_new "a" "explore" Explore) 5 in
  let g := (seed [spec] (graph_new Light)).2 in
  let g' := to_task_graph demo_from_json (apply_task_graph demo_to_json plan_new g) in
  (seed [spec] g).1 = Ok tt ∧ (seed [spec] g').1 = Err (DuplicateNode "a").
Proof. split; vm_compute; reflexivity. Qed.
