(* ===== verification/Swarm.v ===== *)
(** * Swarm coordination vocabulary

    crates/jcode-swarm-core/src/lib.rs: message summaries and task labels,
    roles and lifecycle statuses with their wire names, the bidirectional
    channel index, the instruction texts appended to assignments, completion
    reports, and the truncation helpers. *)

From stdpp Require Import base list strings gmap pretty.
From S2P Require Import Prelude RustString Confidence Kahn Dag DagCycle Plan.

Open Scope string_scope.
Open Scope nat_scope.
Open Scope list_scope.

Definition MAX_SWARM_COMPLETION_REPORT_CHARS : nat := 4000.
Definition SWARM_COMPLETION_REPORT_MARKER : string := "SWARM COMPLETION REPORT REQUIRED".
Definition SWARM_TLDR_REQUIRED_OVER_CHARS : nat := 240.
Definition MAX_SWARM_TLDR_CHARS : nat := 200.
Definition MAX_SWARM_MEMBERS : nat := 1000.
Definition MAX_SWARM_TASK_LABEL_CHARS : nat := 48.
Definition SWARM_DEEP_NODE_MARKER : string := "DEEP TASK GRAPH NODE".

(** ** Summaries and labels *)

(** [opt.filter(|t| !t.is_empty())]. *)
Definition non_empty (o : option string) : option string :=
  match o with Some t => if str_is_empty t then None else Some t | None => None end.

Definition validate_swarm_tldr (tldr : option string) (body context : string)
  : result (option string) string :=
  match non_empty (collapse_whitespace <$> tldr) with
  | Some t =>
      if MAX_SWARM_TLDR_CHARS <? char_count t
      then Err ("'tldr' for " +:+ context +:+ " is too long (" +:+ pretty (char_count t)
                +:+ " chars, max " +:+ pretty MAX_SWARM_TLDR_CHARS
                +:+ "). Provide a single short line summarizing the message.")
      else Ok (Some t)
  | None =>
      if SWARM_TLDR_REQUIRED_OVER_CHARS <? char_count body
      then Err ("'tldr' is required for " +:+ context +:+ " because the body is "
                +:+ pretty (char_count body) +:+ " chars (over "
                +:+ pretty SWARM_TLDR_REQUIRED_OVER_CHARS +:+ "). Add a one-line 'tldr' (under "
                +:+ pretty MAX_SWARM_TLDR_CHARS +:+ " chars) summarizing it; recipients see the tldr "
                +:+ "collapsed with an expand control.")
      else Ok None
  end.

Definition ellipsis : string := str_bytes [226; 128; 166].

Definition is_label_prefix (c : string) : bool := bool_decide (c ∈ ["#"; "-"; "*"; ">"; " "]).

Definition derive_swarm_task_label (text : string) : option string :=
  match find_first (λ l, negb (str_is_empty l)) (map trim (lines text)) with
  | None => None
  | Some line =>
      let line := trim (trim_end_matches (λ c, bool_decide (c = ":"))
                          (trim_start_matches is_label_prefix line)) in
      let collapsed := collapse_whitespace line in
      if str_is_empty collapsed then None
      else if char_count collapsed <=? MAX_SWARM_TASK_LABEL_CHARS then Some collapsed
      else Some (trim_end (take_chars (MAX_SWARM_TASK_LABEL_CHARS - 1) collapsed) +:+ ellipsis)
  end.

(** ** Roles and statuses *)

Inductive SwarmRole : Type := RAgent | RCoordinator | ROther (value : string).

Definition role_as_str (r : SwarmRole) : string :=
  match r with RAgent => "agent" | RCoordinator => "coordinator" | ROther v => v end.

Definition role_from (v : string) : SwarmRole :=
  if bool_decide (v = "agent") then RAgent
  else if bool_decide (v = "coordinator") then RCoordinator
  else ROther v.

Inductive SwarmLifecycleStatus : Type :=
| LSpawned | LReady | LRunning | LRunningStale | LCompleted | LDone | LFailed | LStopped | LCrashed
| LQueued | LBlocked | LPending | LTodo | LOther (value : string).

Definition lifecycle_as_str (s : SwarmLifecycleStatus) : string :=
  match s with
  | LSpawned => "spawned" | LReady => "ready" | LRunning => "running" | LRunningStale => "running_stale"
  | LCompleted => "completed" | LDone => "done" | LFailed => "failed" | LStopped => "stopped"
  | LCrashed => "crashed" | LQueued => "queued" | LBlocked => "blocked" | LPending => "pending"
  | LTodo => "todo" | LOther v => v
  end.

Definition lifecycle_from (v : string) : SwarmLifecycleStatus :=
  if bool_decide (v = "spawned") then LSpawned
  else if bool_decide (v = "ready") then LReady
  else if bool_decide (v = "running") then LRunning
  else if bool_decide (v = "running_stale") then LRunningStale
  else if bool_decide (v = "completed") then LCompleted
  else if bool_decide (v = "done") then LDone
  else if bool_decide (v = "failed") then LFailed
  else if bool_decide (v = "stopped") then LStopped
  else if bool_decide (v = "crashed") then LCrashed
  else if bool_decide (v = "queued") then LQueued
  else if bool_decide (v = "blocked") then LBlocked
  else if bool_decide (v = "pending") then LPending
  else if bool_decide (v = "todo") then LTodo
  else LOther v.

(** ** Channels *)

Notation nested := (gmap string (gmap string (gset string))).

Record ChannelIndex := mkIndex { by_swarm_channel : nested; by_session : nested }.

Definition index_default : ChannelIndex := mkIndex ∅ ∅.

(** [m.entry(a).or_default().entry(b).or_default().insert(c)]. *)
Definition nested_insert (a b c : string) (m : nested) : nested :=
  let inner := default ∅ (m !! a) in
  <[a := <[b := {[c]} ∪ default ∅ (inner !! b)]> inner]> m.

Definition subscribe (session_id swarm_id channel : string) (ix : ChannelIndex) : ChannelIndex :=
  mkIndex (nested_insert swarm_id channel session_id (by_swarm_channel ix))
    (nested_insert session_id swarm_id channel (by_session ix)).

(** Remove [c] from the set at [b] of the inner map, dropping an emptied set. *)
Definition inner_remove (b c : string) (inner : gmap string (gset string)) : gmap string (gset string) :=
  match inner !! b with
  | Some members =>
      let members := members ∖ {[c]} in
      if decide (members = ∅) then delete b inner else <[b := members]> inner
  | None => inner
  end.

(** The same in the outer map, dropping an emptied inner map. *)
Definition nested_remove (a b c : string) (m : nested) : nested :=
  match m !! a with
  | Some inner =>
      let inner := inner_remove b c inner in
      if decide (inner = ∅) then delete a m else <[a := inner]> m
  | None => m
  end.

Definition unsubscribe (session_id swarm_id channel : string) (ix : ChannelIndex) : ChannelIndex :=
  mkIndex (nested_remove swarm_id channel session_id (by_swarm_channel ix))
    (nested_remove session_id swarm_id channel (by_session ix)).

(** [for channel_name in channels { .. }] and the removal of an emptied swarm. *)
Definition remove_from_channels (session_id swarm_id : string) (channels : list string) (m : nested)
  : nested :=
  match m !! swarm_id with
  | Some inner =>
      let inner := foldl (λ i ch, inner_remove ch session_id i) inner channels in
      if decide (inner = ∅) then delete swarm_id m else <[swarm_id := inner]> m
  | None => m
  end.

Definition remove_session (session_id : string) (ix : ChannelIndex) : ChannelIndex :=
  match by_session ix !! session_id with
  | Some subs =>
      mkIndex
        (foldl (λ m kv, remove_from_channels session_id kv.1 (elements kv.2) m)
           (by_swarm_channel ix) (map_to_list subs))
        (delete session_id (by_session ix))
  | None =>
      (* scan every channel of every swarm *)
      mkIndex
        (foldl (λ m swarm_id,
           remove_from_channels session_id swarm_id
             (match m !! swarm_id with Some inner => map fst (map_to_list inner) | None => [] end) m)
           (by_swarm_channel ix) (map fst (map_to_list (by_swarm_channel ix))))
        (by_session ix)
  end.

Definition members (ix : ChannelIndex) (swarm_id channel : string) : list string :=
  sort_strings (elements (default ∅ (by_swarm_channel ix !! swarm_id ≫= (.!! channel)))).

Definition channels_for_session (ix : ChannelIndex) (session_id swarm_id : string) : list string :=
  sort_strings (elements (default ∅ (by_session ix !! session_id ≫= (.!! swarm_id)))).

(** ** Instruction texts *)

(** The message, a blank line when it has content, and the reminder block. *)
Definition open_reminder (message marker : string) : string :=
  let out := trim_end message in
  out +:+ (if str_is_empty out then "" else newline +:+ newline)
  +:+ "<system-reminder>" +:+ newline +:+ marker.

Definition quoted (s : string) : string := dquote +:+ s +:+ dquote.

Definition append_swarm_completion_report_instructions (message : string) : string :=
  if str_contains SWARM_COMPLETION_REPORT_MARKER message then message
  else
    open_reminder message SWARM_COMPLETION_REPORT_MARKER
    +:+ newline +:+ "Before finishing, call the swarm tool with action=" +:+ quoted "report"
    +:+ " to submit your completion report. "
    +:+ "Include a concise message, validation/tests performed, and blockers or follow-ups. "
    +:+ "After the report tool succeeds, also write a brief final assistant response. "
    +:+ "Do not finish with only tool output, a lifecycle status change, or no final response. "
    +:+ "Do not send a separate DM for the final report unless you need interactive coordination before finishing."
    +:+ newline +:+ "</system-reminder>".

Definition non_expandable_text (node_id : string) : string :=
  newline +:+ "You are executing node '" +:+ node_id +:+ "' of a deep task graph. The planner explicitly marked this node as bounded and non-expandable. Do NOT call expand_node, even if the node contains multiple concerns. Execute the assigned scope atomically, then call the swarm tool with action="
  +:+ quoted "complete_node" +:+ ", node_id=" +:+ quoted node_id
  +:+ ", and a typed artifact containing findings, evidence (file:line refs), validation, open_questions, a REQUIRED confidence (low, medium, or high), and an honest what_i_did_not_check list. A turn that ends without complete_node gets re-queued and may fail."
  +:+ newline.

Definition expandable_text (node_id : string) : string :=
  newline +:+ "You are executing node '" +:+ node_id
  +:+ "' of a deep task graph with a configurable parallel agent "
  +:+ "budget (32 live workers by default, with a hard maximum of " +:+ pretty MAX_SWARM_MEMBERS
  +:+ "; use available parallelism deliberately, but do not spawn redundant agents). "
  +:+ "Choose one of exactly two finishes for this node:" +:+ newline
  +:+ "1. Decompose for parallelism: if this node contains more than one independently checkable "
  +:+ "concern, do NOT work through it serially. Call the swarm tool with action=" +:+ quoted "expand_node"
  +:+ ", node_id=" +:+ quoted node_id
  +:+ ", and MANY independent children (add depends_on edges only for real data "
  +:+ "dependencies, so the ready set stays wide). Then finish your turn; the children fan out to "
  +:+ "parallel agents and you will be re-woken to synthesize their results." +:+ newline
  +:+ "2. Execute atomically: do the work, then call the swarm tool with action=" +:+ quoted "complete_node"
  +:+ ", node_id=" +:+ quoted node_id
  +:+ ", and a typed artifact: findings, evidence (file:line refs), validation, "
  +:+ "open_questions, a REQUIRED confidence (low, medium, or high; report low honestly, it routes "
  +:+ "follow-up work to shore up your scope instead of counting against you), and an honest "
  +:+ "what_i_did_not_check (the critique gate turns those into new nodes, so listing them is how "
  +:+ "coverage grows)." +:+ newline
  +:+ "These are the ONLY two ways this node can close: a turn that ends without expand_node or "
  +:+ "complete_node gets the node re-queued to a fresh agent, and a repeat fails it." +:+ newline.

Definition append_deep_node_instructions (message node_id : string) : string :=
  if str_contains SWARM_DEEP_NODE_MARKER message then message
  else
    let explicitly_non_expandable :=
      str_contains "do not expand this node" (to_ascii_lowercase message) in
    open_reminder message SWARM_DEEP_NODE_MARKER
    +:+ (if explicitly_non_expandable then non_expandable_text node_id else expandable_text node_id)
    +:+ "</system-reminder>".

Definition gate_text (gate_id : string) : string :=
  newline +:+ "You are executing critique/verify gate '" +:+ gate_id
  +:+ "' of a deep task graph. Your job is to find gaps, not to pass work through. Read every audited artifact, especially each "
  +:+ "what_i_did_not_check list, and probe them. Finish in one of exactly two ways:" +:+ newline
  +:+ "1. Gaps or failures found: call the swarm tool with action=" +:+ quoted "inject_gap"
  +:+ ", gate_id=" +:+ quoted gate_id
  +:+ ", and one new node per gap (they run in parallel and you re-run "
  +:+ "afterwards). The parent cannot close until they drain, so be thorough now. Injecting nodes "
  +:+ "is SUCCESS for a gate, not failure: a growing graph is the system working." +:+ newline
  +:+ "2. Genuinely clean: call the swarm tool with action=" +:+ quoted "complete_node"
  +:+ ", node_id=" +:+ quoted gate_id
  +:+ ", and an artifact whose findings account for EVERY node you audited BY ID with what you "
  +:+ "checked and why no gaps remain. The server rejects a pass whose findings/open_questions "
  +:+ "do not name each audited node id." +:+ newline.

Definition scope_text (audited_ids : list string) : string :=
  if bool_decide (audited_ids = []) then ""
  else "AUDIT SCOPE: you are auditing node(s) [" +:+ String.concat ", " audited_ids
       +:+ "]. A passing artifact must address each of these ids explicitly." +:+ newline.

Definition low_confidence_text (ids : list string) : string :=
  if bool_decide (ids = []) then ""
  else "PRIORITY: sibling node(s) [" +:+ String.concat ", " ids
       +:+ "] completed with LOW confidence. The server will "
       +:+ "REJECT your pass unless you either inject follow-up nodes that shore up that work, or name "
       +:+ "each of those ids in your artifact findings with why the low confidence is acceptable. "
       +:+ "Injecting follow-ups adds breadth but does not erase the record: when you re-run after they "
       +:+ "drain, your passing artifact must STILL name each low-confidence id (e.g. 'X was shored up "
       +:+ "by Y')." +:+ newline.

Definition append_deep_gate_instructions (message gate_id : string)
    (audited_ids low_confidence_siblings : list string) : string :=
  if str_contains SWARM_DEEP_NODE_MARKER message then message
  else
    open_reminder message SWARM_DEEP_NODE_MARKER
    +:+ gate_text gate_id +:+ scope_text audited_ids +:+ low_confidence_text low_confidence_siblings
    +:+ "Do not pass the gate without doing one of these." +:+ newline
    +:+ "</system-reminder>".

(** ** Completion reports *)

Definition report_section (title : string) (value : option string) (report : string) : string :=
  match non_empty (trim <$> value) with
  | Some v => report +:+ (if str_is_empty report then "" else newline +:+ newline)
              +:+ title +:+ newline +:+ v
  | None => report
  end.

Definition format_structured_completion_report (message : string) (validation follow_up : option string)
  : string :=
  report_section "Follow-ups/blockers:" follow_up
    (report_section "Validation:" validation (trim message)).

Definition truncation_suffix : string :=
  newline +:+ newline +:+ "[Report truncated by jcode before delivery.]".

Definition normalize_completion_report (report : option string) : option string :=
  match report with
  | None => None
  | Some r =>
      let r := trim r in
      if str_is_empty r then None
      else if char_count r <=? MAX_SWARM_COMPLETION_REPORT_CHARS then Some r
      else Some (take_chars (MAX_SWARM_COMPLETION_REPORT_CHARS - char_count truncation_suffix) r
                 +:+ truncation_suffix)
  end.

Definition completion_status_intro (name status : string) : string :=
  if bool_decide (status = "ready") then "Agent " +:+ name +:+ " finished their work and is ready for more."
  else if bool_decide (status = "failed") then "Agent " +:+ name +:+ " finished with status failed."
  else if bool_decide (status = "stopped") then "Agent " +:+ name +:+ " stopped."
  else if bool_decide (status = "crashed") then "Agent " +:+ name +:+ " crashed while working."
  else "Agent " +:+ name +:+ " completed their work.".

Definition completion_followup (status : string) (has_report : bool) : string :=
  if bool_decide (status = "ready") then
    if has_report
    then "Use assign_task to give them more work, stop to remove them, or summary/read_context for full context."
    else "Use summary/read_context to inspect results, assign_task for more work, or stop to remove them."
  else if bool_decide (status = "failed") then
    if has_report
    then "Use summary/read_context for full context, retry with guidance, or stop to remove them."
    else "Use summary/read_context to inspect results, assign_task to retry with guidance, or stop to remove them."
  else if bool_decide (status = "stopped") then
    "Use summary/read_context to inspect results or stop to remove them."
  else if bool_decide (status = "crashed") then
    "Any swarm task assignments they held are requeued automatically where possible. "
    +:+ "Check plan_status, and spawn a replacement or use retry/assign_task if work remains."
  else if has_report then
    "Use assign_task to give them new work, stop to remove them, or summary/read_context for full context."
  else "Use assign_task to give them new work, or stop to remove them.".

Definition completion_notification_message (name status : string) (report : option string) : string :=
  let intro := completion_status_intro name status in
  let followup := completion_followup status (bool_decide (is_Some report)) in
  match report with
  | Some r => intro +:+ newline +:+ newline +:+ "Report:" +:+ newline +:+ r +:+ newline +:+ newline +:+ followup
  | None => intro +:+ newline +:+ newline +:+ "No final textual report was produced. " +:+ followup
  end.

(** ** Truncation *)

Definition truncate_detail (text : string) (max_len : nat) : string :=
  let trimmed := trim (collapse_whitespace text) in
  let max_len := max max_len 1 in
  if char_count trimmed <=? max_len then trimmed
  else if max_len <=? 3 then take_chars max_len trimmed
  else take_chars (max_len - 3) trimmed +:+ "...".

Definition summarize_plan_items (items : list PlanItem) (max_items : nat) : string :=
  match items with
  | [] => "no items"
  | _ =>
      let cap := max max_items 1 in
      String.concat "; " (map pi_content (take cap items))
      +:+ (if cap <? length items then " (+" +:+ pretty (length items - cap) +:+ " more)" else "")
  end.
