(* ===== verification/SwarmClaims.v ===== *)
(** * Swarm texts and names

    Wire names round trip, sender summaries are normalized and bounded, derived
    labels, details and reports never exceed their limits, and the instruction
    texts are appended at most once. *)

From stdpp Require Import base list strings gmap sorting pretty.
From S2P Require Import Prelude RustString Confidence Kahn Dag DagCycle Plan Swarm.

Open Scope string_scope.
Open Scope nat_scope.
Open Scope list_scope.

(** ** The channel index

    [ChannelIndex] (crates/jcode-swarm-core/src/lib.rs) keeps subscriptions in
    two nested hash maps, by swarm and channel and by session.  Its abstract
    specification is a set of (session, swarm, channel) triples; the two maps
    are shown to represent the same set after every sequence of operations,
    and never to keep an empty set or map. *)

(** ** Abstract specification *)

Inductive ChannelOp : Type :=
| Subscribe (session swarm channel : string)
| Unsubscribe (session swarm channel : string)
| RemoveSession (session : string).

Definition op_concrete (o : ChannelOp) : ChannelIndex → ChannelIndex :=
  match o with
  | Subscribe se sw ch => subscribe se sw ch
  | Unsubscribe se sw ch => unsubscribe se sw ch
  | RemoveSession se => remove_session se
  end.

Definition op_abstract (o : ChannelOp) (A : gset (string * string * string))
  : gset (string * string * string) :=
  match o with
  | Subscribe se sw ch => {[(se, sw, ch)]} ∪ A
  | Unsubscribe se sw ch => A ∖ {[(se, sw, ch)]}
  | RemoveSession se => filter (λ t, t.1.1 ≠ se) A
  end.

(** ** Nested maps *)

Definition inner_get (b : string) (inner : gmap string (gset string)) : gset string :=
  default ∅ (inner !! b).
Definition outer_get (a : string) (m : nested) : gmap string (gset string) := default ∅ (m !! a).
Definition nested_get (a b : string) (m : nested) : gset string := inner_get b (outer_get a m).

Definition inner_tidy (inner : gmap string (gset string)) : Prop := ∀ b s, inner !! b = Some s → s ≠ ∅.
Definition tidy (m : nested) : Prop := ∀ a inner, m !! a = Some inner → inner ≠ ∅ ∧ inner_tidy inner.

Record index_inv (ix : ChannelIndex) : Prop := {
  ii_swarm : tidy (by_swarm_channel ix);
  ii_session : tidy (by_session ix);
  ii_agree : ∀ se sw ch,
    se ∈ nested_get sw ch (by_swarm_channel ix) ↔ ch ∈ nested_get se sw (by_session ix) }.

Lemma nested_get_insert a b c a' b' m :
  nested_get a' b' (nested_insert a b c m) =
  if decide (a' = a ∧ b' = b) then {[c]} ∪ nested_get a b m else nested_get a' b' m.
Proof.
  unfold nested_get, outer_get, inner_get, nested_insert.
  destruct (decide (a' = a)) as [->|Ha].
  - rewrite lookup_insert_eq. simpl. destruct (decide (b' = b)) as [->|Hb].
    + by rewrite lookup_insert_eq, decide_True.
    + rewrite lookup_insert_ne by done. rewrite decide_False by naive_solver. done.
  - rewrite lookup_insert_ne by done. rewrite decide_False by naive_solver. done.
Qed.

Lemma tidy_insert a b c m : tidy m → tidy (nested_insert a b c m).
Proof.
  intros Hm a' inner. unfold nested_insert. destruct (decide (a' = a)) as [->|Ha].
  - rewrite lookup_insert_eq. intros [= <-]. split.
    + apply insert_non_empty.
    + intros b' s. destruct (decide (b' = b)) as [->|Hb].
      * rewrite lookup_insert_eq. intros [= <-]. set_solver.
      * rewrite lookup_insert_ne by done. destruct (m !! a) as [i|] eqn:E; simpl.
        -- apply (Hm a i E).
        -- by rewrite lookup_empty.
  - rewrite lookup_insert_ne by done. apply Hm.
Qed.

Lemma inner_get_remove b c b' inner :
  inner_get b' (inner_remove b c inner)
  = if decide (b' = b) then inner_get b inner ∖ {[c]} else inner_get b' inner.
Proof.
  unfold inner_get, inner_remove. destruct (inner !! b) as [s|] eqn:E.
  - destruct (decide (s ∖ {[c]} = ∅)) as [He|He]; destruct (decide (b' = b)) as [->|Hb].
    + rewrite lookup_delete_eq. simpl. by rewrite He.
    + by rewrite lookup_delete_ne.
    + by rewrite lookup_insert_eq.
    + by rewrite lookup_insert_ne.
  - destruct (decide (b' = b)) as [->|Hb]; [rewrite E; simpl; set_solver|done].
Qed.

Lemma inner_tidy_remove b c inner : inner_tidy inner → inner_tidy (inner_remove b c inner).
Proof.
  intros Hi b' s. unfold inner_remove. destruct (inner !! b) as [t|] eqn:E; [|apply Hi].
  destruct (decide (t ∖ {[c]} = ∅)) as [He|He]; destruct (decide (b' = b)) as [->|Hb].
  - by rewrite lookup_delete_eq.
  - rewrite lookup_delete_ne by done. apply Hi.
  - rewrite lookup_insert_eq. by intros [= <-].
  - rewrite lookup_insert_ne by done. apply Hi.
Qed.

(** Replacing an inner map, or dropping it when it is empty. *)
Definition put_inner (a : string) (inner : gmap string (gset string)) (m : nested) : nested :=
  if decide (inner = ∅) then delete a m else <[a := inner]> m.

Lemma outer_get_put a inner a' m :
  outer_get a' (put_inner a inner m) = if decide (a' = a) then inner else outer_get a' m.
Proof.
  unfold outer_get, put_inner. destruct (decide (inner = ∅)) as [->|]; destruct (decide (a' = a)) as [->|].
  - by rewrite lookup_delete_eq.
  - by rewrite lookup_delete_ne.
  - by rewrite lookup_insert_eq.
  - by rewrite lookup_insert_ne.
Qed.

Lemma tidy_put a inner m : tidy m → inner_tidy inner → tidy (put_inner a inner m).
Proof.
  intros Hm Hi a' i. unfold put_inner. destruct (decide (inner = ∅)); destruct (decide (a' = a)) as [->|].
  - by rewrite lookup_delete_eq.
  - rewrite lookup_delete_ne by done. apply Hm.
  - rewrite lookup_insert_eq. by intros [= <-].
  - rewrite lookup_insert_ne by done. apply Hm.
Qed.

Lemma outer_tidy a m : tidy m → inner_tidy (outer_get a m).
Proof.
  intros Hm b s. unfold outer_get. destruct (m !! a) as [i|] eqn:E; simpl; [apply (Hm a i E)|].
  by rewrite lookup_empty.
Qed.

Lemma nested_get_remove a b c a' b' m :
  nested_get a' b' (nested_remove a b c m)
  = if decide (a' = a ∧ b' = b) then nested_get a b m ∖ {[c]} else nested_get a' b' m.
Proof.
  unfold nested_remove, nested_get. destruct (m !! a) as [inner|] eqn:E.
  - cbv zeta. fold (put_inner a (inner_remove b c inner) m).
    assert (outer_get a m = inner) as Ho by (unfold outer_get; by rewrite E).
    rewrite outer_get_put. destruct (decide (a' = a)) as [->|Ha].
    + rewrite inner_get_remove, Ho. destruct (decide (b' = b)) as [->|Hb].
      * by rewrite decide_True.
      * rewrite decide_False by naive_solver. done.
    + rewrite decide_False by naive_solver. done.
  - case_decide as Hab; [|done]. destruct Hab as [-> ->].
    unfold outer_get. rewrite E. unfold inner_get. simpl. rewrite lookup_empty. simpl. set_solver.
Qed.

Lemma tidy_remove a b c m : tidy m → tidy (nested_remove a b c m).
Proof.
  intros Hm. unfold nested_remove. destruct (m !! a) as [inner|] eqn:E; [|done].
  apply tidy_put; [done|]. apply inner_tidy_remove. apply (Hm a inner E).
Qed.

(** ** Removing a session *)

Lemma inner_fold_get se channels inner b :
  inner_get b (foldl (λ i ch, inner_remove ch se i) inner channels)
  = if decide (b ∈ channels) then inner_get b inner ∖ {[se]} else inner_get b inner.
Proof.
  revert inner. induction channels as [|ch l IH]; intros inner; simpl; [done|].
  rewrite IH, inner_get_remove. destruct (decide (b = ch)) as [->|Hne].
  - rewrite (decide_True (P := ch ∈ ch :: l)) by left. destruct (decide (ch ∈ l)); set_solver.
  - destruct (decide (b ∈ l)).
    + by rewrite decide_True by (by right).
    + by rewrite decide_False by set_solver.
Qed.

Lemma inner_fold_tidy se channels inner :
  inner_tidy inner → inner_tidy (foldl (λ i ch, inner_remove ch se i) inner channels).
Proof. revert inner. induction channels; intros inner Hi; simpl; [done|]. auto using inner_tidy_remove. Qed.

Lemma nested_get_channels se sw channels a b m :
  nested_get a b (remove_from_channels se sw channels m)
  = if decide (a = sw ∧ b ∈ channels) then nested_get a b m ∖ {[se]} else nested_get a b m.
Proof.
  unfold remove_from_channels, nested_get. destruct (m !! sw) as [inner|] eqn:E.
  - cbv zeta. fold (put_inner sw (foldl (λ i ch, inner_remove ch se i) inner channels) m).
    assert (outer_get sw m = inner) as Ho by (unfold outer_get; by rewrite E).
    rewrite outer_get_put. destruct (decide (a = sw)) as [->|Ha].
    + rewrite inner_fold_get, Ho. destruct (decide (b ∈ channels)).
      * by rewrite decide_True.
      * rewrite decide_False by naive_solver. done.
    + rewrite decide_False by naive_solver. done.
  - case_decide as Hab; [|done]. destruct Hab as [-> _].
    unfold outer_get. rewrite E. unfold inner_get. simpl. rewrite lookup_empty. simpl. set_solver.
Qed.

Lemma tidy_channels se sw channels m : tidy m → tidy (remove_from_channels se sw channels m).
Proof.
  intros Hm. unfold remove_from_channels. destruct (m !! sw) as [inner|] eqn:E; [|done].
  apply tidy_put; [done|]. apply inner_fold_tidy. apply (Hm sw inner E).
Qed.

(** Removal along a list of (swarm, channels) pairs. *)
Lemma nested_get_pairs se (l : list (string * gset string)) a b m :
  nested_get a b (foldl (λ m kv, remove_from_channels se kv.1 (elements kv.2) m) m l)
  = if decide (Exists (λ kv, kv.1 = a ∧ b ∈ kv.2) l) then nested_get a b m ∖ {[se]} else nested_get a b m.
Proof.
  revert m. induction l as [|[sw chs] l IH]; intros m; cbn [foldl].
  { destruct (decide _) as [He|]; [by apply Exists_nil in He|done]. }
  rewrite IH, nested_get_channels. cbn [fst snd].
  destruct (decide (a = sw ∧ b ∈ elements chs)) as [[-> Hb]|Hn].
  - rewrite (decide_True (P := Exists _ ((sw, chs) :: l))).
    + case_decide; set_solver.
    + apply Exists_cons. left. simpl. by apply elem_of_elements in Hb.
  - destruct (decide (Exists _ l)) as [He|He].
    + rewrite decide_True; [done|]. apply Exists_cons. by right.
    + rewrite decide_False; [done|]. rewrite Exists_cons. intros [[Ha Hb]|?]; [|done]. simpl in *.
      apply Hn. split; [done|]. by apply elem_of_elements.
Qed.

Lemma tidy_pairs se (l : list (string * gset string)) m :
  tidy m → tidy (foldl (λ m kv, remove_from_channels se kv.1 (elements kv.2) m) m l).
Proof. revert m. induction l; intros m Hm; simpl; [done|]. auto using tidy_channels. Qed.

(** When the session has no entry there is nothing to remove: the scan finds
    no member. *)
Lemma scan_nop se (l : list string) (f : nested → string → list string) m :
  (∀ a b, se ∉ nested_get a b m) → tidy m →
  let m' := foldl (λ m sw, remove_from_channels se sw (f m sw) m) m l in
  (∀ a b, nested_get a b m' = nested_get a b m) ∧ tidy m'.
Proof.
  revert m. induction l as [|sw l IH]; intros m Hno Hm; simpl; [done|].
  assert (∀ a b, nested_get a b (remove_from_channels se sw (f m sw) m) = nested_get a b m) as Hg.
  { intros a b. rewrite nested_get_channels. case_decide; [|done]. specialize (Hno a b). set_solver. }
  destruct (IH (remove_from_channels se sw (f m sw) m)) as [H1 H2].
  - intros a b. by rewrite Hg.
  - by apply tidy_channels.
  - split; [|done]. intros a b. by rewrite H1.
Qed.

Lemma nested_get_delete a a' b m :
  nested_get a' b (delete a m) = if decide (a' = a) then ∅ else nested_get a' b m.
Proof.
  unfold nested_get, outer_get, inner_get. destruct (decide (a' = a)) as [->|].
  - by rewrite lookup_delete_eq.
  - by rewrite lookup_delete_ne.
Qed.

(** What each operation does to an index that satisfies the invariant. *)
Lemma remove_session_spec se ix :
  index_inv ix → index_inv (remove_session se ix) ∧
  ∀ a b, nested_get a b (by_swarm_channel (remove_session se ix))
         = nested_get a b (by_swarm_channel ix) ∖ {[se]}.
Proof.
  intros [Hs Hse Hag]. unfold remove_session. destruct (by_session ix !! se) as [subs|] eqn:E.
  - assert (∀ a b, nested_get a b
      (foldl (λ m kv, remove_from_channels se kv.1 (elements kv.2) m) (by_swarm_channel ix) (map_to_list subs))
      = nested_get a b (by_swarm_channel ix) ∖ {[se]}) as Hg.
    { intros a b. rewrite nested_get_pairs. case_decide as He; [done|].
      assert (se ∉ nested_get a b (by_swarm_channel ix)) as Hn; [|set_solver].
      rewrite Hag. unfold nested_get, outer_get, inner_get. rewrite E. simpl. intros Hb. apply He.
      apply Exists_exists. destruct (subs !! a) as [chs|] eqn:Ea; [|set_solver].
      exists (a, chs). split; [by apply elem_of_map_to_list|done]. }
    split; [|exact Hg]. constructor; simpl.
    + by apply tidy_pairs.
    + intros a inner. destruct (decide (a = se)) as [->|Ha].
      * by rewrite lookup_delete_eq.
      * rewrite lookup_delete_ne by done. apply Hse.
    + intros x sw ch. rewrite Hg, nested_get_delete. case_decide as Hx; [set_solver|].
      rewrite <- Hag. set_solver.
  - assert (∀ a b, se ∉ nested_get a b (by_swarm_channel ix)) as Hno.
    { intros a b. rewrite Hag. unfold nested_get, outer_get, inner_get. rewrite E. simpl. set_solver. }
    destruct (scan_nop se (map fst (map_to_list (by_swarm_channel ix)))
      (λ m sw, match m !! sw with Some inner => map fst (map_to_list inner) | None => [] end)
      (by_swarm_channel ix) Hno Hs) as [H1 H2].
    split.
    + constructor; simpl; [done|done|]. intros x sw ch. by rewrite H1.
    + intros a b. simpl. rewrite H1. specialize (Hno a b). set_solver.
Qed.

Lemma subscribe_spec se sw ch ix :
  index_inv ix → index_inv (subscribe se sw ch ix) ∧
  ∀ a b, nested_get a b (by_swarm_channel (subscribe se sw ch ix))
         = if decide (a = sw ∧ b = ch) then {[se]} ∪ nested_get sw ch (by_swarm_channel ix)
           else nested_get a b (by_swarm_channel ix).
Proof.
  intros [Hs Hse Hag]. split; [|intros a b; apply nested_get_insert].
  constructor; simpl; [by apply tidy_insert..|]. intros x a b. rewrite !nested_get_insert.
  destruct (decide (a = sw)) as [->|Ha]; destruct (decide (b = ch)) as [->|Hb];
    destruct (decide (x = se)) as [->|Hx]; repeat case_decide; try naive_solver;
    rewrite ?elem_of_union, ?elem_of_singleton, Hag; naive_solver.
Qed.

Lemma unsubscribe_spec se sw ch ix :
  index_inv ix → index_inv (unsubscribe se sw ch ix) ∧
  ∀ a b, nested_get a b (by_swarm_channel (unsubscribe se sw ch ix))
         = if decide (a = sw ∧ b = ch) then nested_get sw ch (by_swarm_channel ix) ∖ {[se]}
           else nested_get a b (by_swarm_channel ix).
Proof.
  intros [Hs Hse Hag]. split; [|intros a b; apply nested_get_remove].
  constructor; simpl; [by apply tidy_remove..|]. intros x a b. rewrite !nested_get_remove.
  destruct (decide (a = sw)) as [->|Ha]; destruct (decide (b = ch)) as [->|Hb];
    destruct (decide (x = se)) as [->|Hx]; repeat case_decide; try naive_solver;
    rewrite ?elem_of_difference, ?elem_of_singleton, Hag; naive_solver.
Qed.

(** ** Refinement *)

(** The triples an index represents. *)
Definition represents (ix : ChannelIndex) (A : gset (string * string * string)) : Prop :=
  index_inv ix ∧ ∀ se sw ch, (se, sw, ch) ∈ A ↔ se ∈ nested_get sw ch (by_swarm_channel ix).

Lemma represents_default : represents index_default ∅.
Proof. split; [|set_solver]. constructor; simpl; [intros a i; by rewrite lookup_empty..|set_solver]. Qed.

Lemma represents_op o ix A : represents ix A → represents (op_concrete o ix) (op_abstract o A).
Proof.
  intros [Hi HA]. destruct o as [s w c|s w c|s]; simpl.
  - destruct (subscribe_spec s w c ix Hi) as [Hi' Hg]. split; [done|]. intros se sw ch. rewrite Hg.
    rewrite elem_of_union, elem_of_singleton, HA.
    case_decide as Hd; [destruct Hd as [-> ->]; rewrite elem_of_union, elem_of_singleton; naive_solver|naive_solver].
  - destruct (unsubscribe_spec s w c ix Hi) as [Hi' Hg]. split; [done|]. intros se sw ch. rewrite Hg.
    rewrite elem_of_difference, elem_of_singleton, HA.
    case_decide as Hd; [destruct Hd as [-> ->]; rewrite elem_of_difference, elem_of_singleton; naive_solver|naive_solver].
  - destruct (remove_session_spec s ix Hi) as [Hi' Hg]. split; [done|]. intros se sw ch. rewrite Hg.
    rewrite elem_of_filter, elem_of_difference, elem_of_singleton, HA. simpl. naive_solver.
Qed.

(** The channel index implements a set of subscriptions: after any
    sequence of subscriptions, unsubscriptions and session removals, both of
    its maps hold exactly the triples of the abstract set, no empty entry is
    left behind, and a channel's member list is sorted, without repetition,
    and lists exactly its subscribers. *)
Theorem channel_index_refines_triples (ops : list ChannelOp) :
  let ix := foldl (λ ix o, op_concrete o ix) index_default ops in
  let A := foldl (λ A o, op_abstract o A) ∅ ops in
  tidy (by_swarm_channel ix) ∧ tidy (by_session ix)
  ∧ (∀ se sw ch, (se, sw, ch) ∈ A ↔ se ∈ members ix sw ch)
  ∧ (∀ se sw ch, (se, sw, ch) ∈ A ↔ ch ∈ channels_for_session ix se sw)
  ∧ ∀ sw ch, NoDup (members ix sw ch)
      ∧ StronglySorted (λ a b, String.leb a b = true) (members ix sw ch).
Proof.
  set (ix := foldl _ _ _). set (A := foldl _ _ _).
  assert (represents ix A) as [[Hs Hse Hag] HA].
  { subst ix A. generalize represents_default. generalize index_default (∅ : gset (string * string * string)).
    induction ops as [|o ops IH]; intros ix A H; simpl; [done|]. by apply IH, represents_op. }
  assert (∀ (m : nested) a b, default ∅ (m !! a ≫= (.!! b)) = nested_get a b m) as Hd.
  { intros m a b. unfold nested_get, outer_get, inner_get. destruct (m !! a) as [i|]; [done|].
    simpl. by rewrite lookup_empty. }
  unfold members, channels_for_session. split_and!; try done.
  - intros se sw ch. by rewrite elem_of_sort_strings, elem_of_elements, Hd, HA.
  - intros se sw ch. by rewrite elem_of_sort_strings, elem_of_elements, Hd, HA, Hag.
  - intros sw ch. split; [|apply sort_strings_sorted]. unfold sort_strings. rewrite sort_by_perm.
    apply NoDup_elements.
Qed.

(** ** Counting characters *)

(** Bytes that start a character. *)
Fixpoint leads (s : string) : nat :=
  match s with
  | "" => 0
  | String c s' => (if is_cont c then 0 else 1) + leads s'
  end.

Lemma chars_cons_non_nil c s : chars (String c s) ≠ [].
Proof.
  destruct s as [|d s]; [done|]. cbn [chars]. destruct (is_cont d); [|done].
  by destruct (match s with "" => _ | String _ _ => _ end).
Qed.

Lemma char_count_cons c s : char_count (String c s) = S (leads s).
Proof.
  unfold char_count. revert c. induction s as [|d s IH]; intros c; [done|].
  change (chars (String c (String d s))) with
    (if is_cont d then match chars (String d s) with h :: t => String c h :: t | [] => [String c ""] end
     else String c "" :: chars (String d s)).
  cbn [leads]. destruct (is_cont d).
  - specialize (IH d). destruct (chars (String d s)); [by destruct s|exact IH].
  - simpl. f_equal. apply IH.
Qed.

Lemma leads_le_count s : leads s ≤ char_count s.
Proof. destruct s as [|c s]; [done|]. rewrite char_count_cons. simpl. destruct (is_cont c); lia. Qed.

Lemma leads_append a b : leads (a +:+ b) = leads a + leads b.
Proof.
  induction a as [|c a IH]; [done|]. change (String c a +:+ b) with (String c (a +:+ b)).
  cbn [leads]. rewrite IH. lia.
Qed.

Lemma char_count_append_le a b : char_count (a +:+ b) ≤ char_count a + char_count b.
Proof.
  destruct a as [|c a]; [done|]. change (String c a +:+ b) with (String c (a +:+ b)).
  rewrite !char_count_cons, leads_append. pose proof (leads_le_count b). lia.
Qed.

Lemma chars_single s c : c ∈ chars s → char_count c = 1.
Proof.
  revert c. induction s as [|d s IH]; intros c; [by intros ?%elem_of_nil|].
  destruct s as [|e s]; [by intros ->%list_elem_of_singleton|].
  change (chars (String d (String e s))) with
    (if is_cont e then match chars (String e s) with h :: t => String d h :: t | [] => [String d ""] end
     else String d "" :: chars (String e s)).
  destruct (is_cont e) eqn:Ee.
  - destruct (chars (String e s)) as [|h t] eqn:E; [by intros ->%list_elem_of_singleton|].
    intros [->|Hc]%elem_of_cons; [|apply IH; by right].
    pose proof (IH h (list_elem_of_here _ _)) as Hh.
    assert (∃ h', h = String e h') as [h' ->].
    { pose proof (str_concat_chars (String e s)) as Hcat. rewrite E in Hcat.
      change (str_concat (h :: t)) with (h +:+ str_concat t) in Hcat.
      destruct h as [|x h']; [done|]. injection Hcat as -> _. eauto. }
    rewrite char_count_cons in Hh. rewrite char_count_cons. simpl. rewrite Ee. lia.
  - intros [->|Hc]%elem_of_cons; [done|by apply IH].
Qed.

(** A text put together from characters has at most that many. *)
Lemma char_count_concat_le s l : (∀ c, c ∈ l → c ∈ chars s) → char_count (str_concat l) ≤ length l.
Proof.
  induction l as [|c l IH]; intros Hl; [done|].
  change (str_concat (c :: l)) with (c +:+ str_concat l). simpl.
  pose proof (char_count_append_le c (str_concat l)) as H.
  rewrite (chars_single s c) in H by (apply Hl; left).
  assert (char_count (str_concat l) ≤ length l) by (apply IH; intros x Hx; apply Hl; by right). lia.
Qed.

Lemma char_count_take n s : char_count (take_chars n s) ≤ n.
Proof.
  etrans; [apply (char_count_concat_le s)|rewrite length_take; lia].
  intros c Hc. by apply (sublist_subseteq _ _ (sublist_take _ _)) in Hc.
Qed.

Lemma sublist_drop_while {A} (p : A → bool) l : drop_while p l `sublist_of` l.
Proof.
  induction l as [|x l IH]; simpl; [done|]. destruct (p x); [by apply sublist_cons|done].
Qed.

Lemma drop_while_end_sub {A} (p : A → bool) l :
  (∀ x, x ∈ drop_while_end p l → x ∈ l) ∧ length (drop_while_end p l) ≤ length l.
Proof.
  pose proof (sublist_drop_while p (rev l)) as Hs. unfold drop_while_end. split.
  - intros x. rewrite !list_elem_of_In, <- List.in_rev, <- list_elem_of_In. intros Hx.
    apply (sublist_subseteq _ _ Hs) in Hx. by apply list_elem_of_In, List.in_rev in Hx.
  - apply sublist_length in Hs. by rewrite !length_rev in *.
Qed.

Lemma char_count_trim_end s : char_count (trim_end s) ≤ char_count s.
Proof.
  unfold trim_end, trim_end_matches. destruct (drop_while_end_sub is_whitespace (chars s)) as [Hin Hlen].
  etrans; [by apply (char_count_concat_le s)|done].
Qed.

(** ** One line *)

Definition is_newline (c : Ascii.ascii) : bool := (byte_val c =? 10)%N.

Lemma cont_not_newline c : is_cont c = true → is_newline c = false.
Proof. unfold is_cont, in_range, is_newline. intros H. bool_hyps. apply N.eqb_neq. apply N.leb_le in H. lia. Qed.

Lemma newline_char_len c : is_newline c = true → char_len c = 1.
Proof. unfold is_newline, char_len. intros ->%N.eqb_eq. done. Qed.

Lemma newline_byte c : is_newline c = true → String c "" = newline.
Proof.
  unfold is_newline, byte_val. intros H%N.eqb_eq. unfold newline. f_equal.
  rewrite <- (Ascii.ascii_N_embedding c), H. done.
Qed.

(** In valid UTF-8 a newline byte is a character of its own. *)
Lemma chars_newline_from k s c :
  utf8_from k s = true →
  ∃ h t, chars (String c s) = String c h :: t ∧ any_byte is_newline h = false ∧ (k = 0 → h = "")
    ∧ ∀ x, x ∈ t → any_byte is_newline x = true → x = newline.
Proof.
  revert k c. induction s as [|d s IH]; intros k c Hu.
  { exists "", []. split_and!; try done. by intros x ?%elem_of_nil. }
  change (chars (String c (String d s))) with
    (if is_cont d then match chars (String d s) with h :: t => String c h :: t | [] => [String c ""] end
     else String c "" :: chars (String d s)).
  destruct k as [|k]; cbn [utf8_from] in Hu; apply andb_true_iff in Hu as [Hc Hu].
  - apply negb_true_iff in Hc. rewrite Hc.
    destruct (IH _ d Hu) as (h & t & E & Hh & H0 & Ht). rewrite E. exists "", (String d h :: t).
    split_and!; try done. intros x [->|Hx]%elem_of_cons; [|by apply Ht]. simpl. rewrite Hh.
    destruct (is_newline d) eqn:Hd; [|done]. intros _.
    rewrite H0 by (by rewrite (newline_char_len d Hd)). by apply newline_byte.
  - rewrite Hc. destruct (IH k d Hu) as (h & t & E & Hh & H0 & Ht). rewrite E.
    exists (String d h), t. split_and!; try done. simpl. by rewrite (cont_not_newline d Hc), Hh.
Qed.

Lemma chars_newline s c :
  utf8 s = true → c ∈ chars s → any_byte is_newline c = true → c = newline.
Proof.
  destruct s as [|d s]; [by intros _ ?%elem_of_nil|]. unfold utf8. cbn [utf8_from].
  intros [_ Hu]%andb_true_iff. destruct (chars_newline_from _ s d Hu) as (h & t & -> & Hh & H0 & Ht).
  intros [->|Hx]%elem_of_cons; [|by apply Ht]. simpl. rewrite Hh.
  destruct (is_newline d) eqn:Hd; [|done]. intros _.
  rewrite H0 by (by rewrite (newline_char_len d Hd)). by apply newline_byte.
Qed.

Lemma words_one_line cur cs :
  any_byte is_newline cur = false → (∀ c, c ∈ cs → any_byte is_newline c = true → c = newline) →
  ∀ w, w ∈ words_of cur cs → any_byte is_newline w = false.
Proof.
  revert cur. induction cs as [|c cs IH]; intros cur Hcur Hcs w; simpl.
  { case_bool_decide; [by intros ?%elem_of_nil|by intros ->%list_elem_of_singleton]. }
  assert (∀ x, x ∈ cs → any_byte is_newline x = true → x = newline) as Hcs' by (intros x ?; apply Hcs; by right).
  destruct (is_whitespace c) eqn:Hw.
  - case_bool_decide; [by apply IH|]. intros [->|?]%elem_of_cons; [done|]. by apply (IH "").
  - apply IH; [|done]. rewrite any_byte_append, Hcur. simpl.
    destruct (any_byte is_newline c) eqn:E; [|done]. apply Hcs in E; [|left]. subst c. by vm_compute in Hw.
Qed.

Lemma concat_one_line sep l :
  any_byte is_newline sep = false → (∀ w, w ∈ l → any_byte is_newline w = false) →
  any_byte is_newline (String.concat sep l) = false.
Proof.
  intros Hsep Hl. induction l as [|w [|v l] IH]; [done|apply Hl; left|].
  change (String.concat sep (w :: v :: l)) with (w +:+ sep +:+ String.concat sep (v :: l)).
  rewrite !any_byte_append, Hsep, (Hl w) by left. apply IH. intros x Hx. apply Hl. by right.
Qed.

Lemma collapse_one_line s : utf8 s = true → any_byte is_newline (collapse_whitespace s) = false.
Proof.
  intros Hu. apply concat_one_line; [done|]. intros w Hw. apply (words_one_line "" (chars s)); [done| |exact Hw].
  intros c. by apply chars_newline.
Qed.

(** ** Theorems *)

(** An accepted summary is one short line: it is the sender's text with
    whitespace collapsed, not empty, within the limit, and without line break;
    a message accepted without a summary has none in the text and a body
    within its limit; a valid short summary is always accepted. *)
Theorem tldr_is_one_short_line (tldr : option string) (body context : string) :
  (∀ raw, tldr = Some raw → utf8 raw = true) →
  match validate_swarm_tldr tldr body context with
  | Ok (Some t) => (∃ raw, tldr = Some raw ∧ t = collapse_whitespace raw)
      ∧ t ≠ "" ∧ char_count t ≤ MAX_SWARM_TLDR_CHARS ∧ any_byte is_newline t = false
  | Ok None => (∀ raw, tldr = Some raw → collapse_whitespace raw = "")
      ∧ char_count body ≤ SWARM_TLDR_REQUIRED_OVER_CHARS
  | Err _ => (∃ raw, tldr = Some raw ∧ MAX_SWARM_TLDR_CHARS < char_count (collapse_whitespace raw))
      ∨ (SWARM_TLDR_REQUIRED_OVER_CHARS < char_count body
         ∧ ∀ raw, tldr = Some raw → collapse_whitespace raw = "")
  end.
Proof.
  intros Hu. unfold validate_swarm_tldr. destruct tldr as [raw|]; simpl.
  - unfold str_is_empty. case_bool_decide as He.
    + destruct (Nat.ltb_spec SWARM_TLDR_REQUIRED_OVER_CHARS (char_count body)).
      * right. split; [done|]. by intros ? [= <-].
      * split; [by intros ? [= <-]|done].
    + destruct (Nat.ltb_spec MAX_SWARM_TLDR_CHARS (char_count (collapse_whitespace raw))).
      * left. eauto.
      * split_and!; [eauto|done|done|]. by apply collapse_one_line, Hu.
  - destruct (Nat.ltb_spec SWARM_TLDR_REQUIRED_OVER_CHARS (char_count body)); [by right|done].
Qed.

Lemma tldr_is_one_short_line_witness :
  any_byte is_newline (collapse_whitespace ("two" +:+ newline +:+ " lines")) = false.
Proof.
  pose proof (tldr_is_one_short_line (Some ("two" +:+ newline +:+ " lines")) "body" "dm") as H.
  vm_compute in H. vm_compute. apply H. by intros raw [= <-].
Defined.

Lemma str_empty_append a b : a +:+ b = "" → a = "" ∧ b = "".
Proof. destruct a; [done|]. done. Qed.

(** Derived texts respect their limits: a task label is not empty and
    fits its chip, a truncated detail fits the requested length (at least
    one), and a delivered completion report is not empty and within the
    delivery limit, with short reports delivered unchanged. *)
Theorem derived_texts_bounded (text : string) (max_len : nat) (report : option string) :
  (∀ l, derive_swarm_task_label text = Some l → l ≠ "" ∧ char_count l ≤ MAX_SWARM_TASK_LABEL_CHARS)
  ∧ char_count (truncate_detail text max_len) ≤ max max_len 1
  ∧ (∀ r, normalize_completion_report report = Some r →
       r ≠ "" ∧ char_count r ≤ MAX_SWARM_COMPLETION_REPORT_CHARS)
  ∧ (∀ r, report = Some r → trim r ≠ "" → char_count (trim r) ≤ MAX_SWARM_COMPLETION_REPORT_CHARS →
       normalize_completion_report report = Some (trim r)).
Proof.
  split_and!.
  - unfold derive_swarm_task_label. intros l. destruct (find_first _ _) as [line|]; [|done]. cbv zeta.
    unfold str_is_empty. case_bool_decide as He; [done|]. revert He. generalize (collapse_whitespace (trim
      (trim_end_matches (λ c, bool_decide (c = ":")) (trim_start_matches is_label_prefix line)))).
    intros col He. destruct (Nat.leb_spec (char_count col) MAX_SWARM_TASK_LABEL_CHARS);
      intros [= <-]; [done|]. split; [by intros [_ ?]%str_empty_append|].
    etrans; [apply char_count_append_le|]. change (char_count ellipsis) with 1.
    etrans; [apply Nat.add_le_mono_r, char_count_trim_end|].
    pose proof (char_count_take (MAX_SWARM_TASK_LABEL_CHARS - 1) col) as Ht.
    change (MAX_SWARM_TASK_LABEL_CHARS - 1) with 47 in *. change MAX_SWARM_TASK_LABEL_CHARS with 48. lia.
  - unfold truncate_detail. cbv zeta. set (t := trim _). set (n := max max_len 1).
    destruct (Nat.leb_spec (char_count t) n); [done|]. destruct (Nat.leb_spec n 3).
    + apply char_count_take.
    + etrans; [apply char_count_append_le|]. change (char_count "...") with 3.
      pose proof (char_count_take (n - 3) t). lia.
  - unfold normalize_completion_report. intros r. destruct report as [r0|]; [|done]. cbv zeta.
    unfold str_is_empty. case_bool_decide as He; [done|].
    destruct (Nat.leb_spec (char_count (trim r0)) MAX_SWARM_COMPLETION_REPORT_CHARS);
      intros Hr; apply (inj Some) in Hr as <-; [done|].
    split; [by intros [_ ?]%str_empty_append|].
    etrans; [apply char_count_append_le|].
    pose proof (char_count_take (MAX_SWARM_COMPLETION_REPORT_CHARS - char_count truncation_suffix) (trim r0)).
    assert (char_count truncation_suffix ≤ MAX_SWARM_COMPLETION_REPORT_CHARS) as Hs
      by (apply Nat.leb_le; vm_compute; reflexivity).
    lia.
  - intros r -> Hne Hle. unfold normalize_completion_report, str_is_empty.
    rewrite bool_decide_false by done. by rewrite (proj2 (Nat.leb_le _ _) Hle).
Qed.

Lemma drop_while_suffix {A} (p : A → bool) l : ∃ d, l = d ++ drop_while p l.
Proof.
  induction l as [|x l [d IH]]; simpl; [by exists []|]. destruct (p x); [|by exists []].
  exists (x :: d). simpl. by rewrite <- IH.
Qed.

Lemma trim_end_prefix s : ∃ rest, s = trim_end s +:+ rest.
Proof.
  unfold trim_end, trim_end_matches, drop_while_end.
  destruct (drop_while_suffix is_whitespace (rev (chars s))) as [d Hd].
  exists (str_concat (rev d)). rewrite <- str_concat_app, <- rev_app_distr, <- Hd, rev_involutive.
  by rewrite str_concat_chars.
Qed.

Lemma open_reminder_contains message marker rest :
  str_contains marker (open_reminder message marker +:+ rest) = true.
Proof.
  apply str_contains_spec. unfold open_reminder. exists (trim_end message
    +:+ (if str_is_empty (trim_end message) then "" else newline +:+ newline)
    +:+ "<system-reminder>" +:+ newline), rest. by rewrite !append_assoc_s.
Qed.

(** The swarm directives are appended once: the result keeps the message
    as its beginning and carries the directive's marker, so appending the same
    directive again, or the other deep directive, changes nothing. *)
Theorem directives_appended_once (message node : string) (audited low : list string) :
  let report := append_swarm_completion_report_instructions in
  let deep := λ m, append_deep_node_instructions m node in
  let gate := λ m, append_deep_gate_instructions m node audited low in
  report (report message) = report message
  ∧ deep (deep message) = deep message ∧ gate (gate message) = gate message
  ∧ gate (deep message) = deep message ∧ deep (gate message) = gate message
  ∧ (∃ rest, report message = trim_end message +:+ rest)
  ∧ (∃ rest, deep message = trim_end message +:+ rest)
  ∧ (∃ rest, gate message = trim_end message +:+ rest).
Proof.
  assert (∀ marker m rest, open_reminder m marker +:+ rest
    = trim_end m +:+ ((if str_is_empty (trim_end m) then "" else newline +:+ newline)
                      +:+ "<system-reminder>" +:+ newline +:+ marker) +:+ rest) as Hpre
    by (intros; unfold open_reminder; by rewrite !append_assoc_s).
  unfold append_swarm_completion_report_instructions, append_deep_node_instructions, append_deep_gate_instructions.
  destruct (str_contains SWARM_COMPLETION_REPORT_MARKER message) eqn:Er;
    destruct (str_contains SWARM_DEEP_NODE_MARKER message) eqn:Ed; cbv zeta;
    rewrite ?Er, ?Ed, ?open_reminder_contains; split_and!; try done;
    first [apply trim_end_prefix | rewrite Hpre; by eexists].
Qed.

(** Wire names round trip: writing a parsed name gives the name back, and
    parsing a written role or status gives it back unless it is an "other"
    that spells a known name. *)
Theorem wire_names_roundtrip (s : string) (r : SwarmRole) (st : SwarmLifecycleStatus) :
  role_as_str (role_from s) = s ∧ lifecycle_as_str (lifecycle_from s) = s
  ∧ (role_from (role_as_str r) = r ↔ ∀ v, r = ROther v → v ∉ ["agent"; "coordinator"])
  ∧ (lifecycle_from (lifecycle_as_str st) = st ↔
       ∀ v, st = LOther v → v ∉ ["spawned"; "ready"; "running"; "running_stale"; "completed"; "done";
         "failed"; "stopped"; "crashed"; "queued"; "blocked"; "pending"; "todo"]).
Proof.
  split_and!.
  - unfold role_from. repeat (case_bool_decide; [by subst|]). done.
  - unfold lifecycle_from. repeat (case_bool_decide; [by subst|]). done.
  - destruct r as [| |v]; [done..|]. cbn [role_as_str]. unfold role_from.
    split; [|intros H; specialize (H v eq_refl); repeat (rewrite bool_decide_false by set_solver); done].
    intros H v' [= <-] Hin. repeat (apply elem_of_cons in Hin as [->|Hin]; [done|]). by apply elem_of_nil in Hin.
  - destruct st as [| | | | | | | | | | | | |v]; [done..|]. cbn [lifecycle_as_str]. unfold lifecycle_from.
    split; [|intros H; specialize (H v eq_refl); repeat (rewrite bool_decide_false by set_solver); done].
    intros H v' [= <-] Hin. repeat (apply elem_of_cons in Hin as [->|Hin]; [done|]). by apply elem_of_nil in Hin.
Qed.
