(* ===== verification/Interrupt.v ===== *)
(** * The interrupt signal

    [InterruptSignal] of crates/jcode-agent-runtime/src/lib.rs: an atomic flag
    with a fire counter and a [tokio::sync::Notify].  Its methods are sequences
    of atomic accesses; each access is one step, and any number of calls run
    interleaved in any order.  All accesses are [SeqCst], so an execution is an
    interleaving: a schedule is the list of the threads that take the next
    step. *)

From stdpp Require Import base list strings gmap.
From S2P Require Import Prelude.

Open Scope nat_scope.
Open Scope list_scope.

(** The shared state: [flag] and [epoch] (a [u64] that wraps). *)
Record Signal := mkSignal { sg_flag : bool; sg_epoch : N }.

Definition signal_new : Signal := mkSignal false 0.

(** A call in progress, by the access it performs next. *)
Inductive Thread : Type :=
(* fire(): add to the epoch, store the flag, notify *)
| FireStart | FireAdded | FireStored | FireEnd
(* reset(): store the flag *)
| ClearStart | ClearEnd
(* reset_if_epoch(e): load, store false, load, and on a race store true, notify *)
| ResetStart (e : N) | ResetChecked (e : N) | ResetCleared (e : N) | ResetRaced (e : N)
| ResetRestored (e : N) | ResetEnd (e : N) (applied : bool)
(* notified(): register, check the flag, wait *)
| WaitStart | WaitEnabled (woken : bool) | WaitParked | WaitEnd.

#[export] Instance Thread_eq_dec : EqDecision Thread.
Proof. solve_decision. Defined.

(** One access: the new shared state, the thread's next point, and whether
    [notify_waiters] is called; [None] when the call has nothing to do. *)
Definition thread_step (s : Signal) (t : Thread) : option (Signal * Thread * bool) :=
  match t with
  | FireStart => Some (mkSignal (sg_flag s) (u64_succ (sg_epoch s)), FireAdded, false)
  | FireAdded => Some (mkSignal true (sg_epoch s), FireStored, false)
  | FireStored => Some (s, FireEnd, true)
  | ClearStart => Some (mkSignal false (sg_epoch s), ClearEnd, false)
  | ResetStart e =>
      if bool_decide (sg_epoch s = e) then Some (s, ResetChecked e, false)
      else Some (s, ResetEnd e false, false)
  | ResetChecked e => Some (mkSignal false (sg_epoch s), ResetCleared e, false)
  | ResetCleared e =>
      if bool_decide (sg_epoch s = e) then Some (s, ResetEnd e true, false)
      else Some (s, ResetRaced e, false)
  | ResetRaced e => Some (mkSignal true (sg_epoch s), ResetRestored e, false)
  | ResetRestored e => Some (s, ResetEnd e false, true)
  | WaitStart => Some (s, WaitEnabled false, false)
  | WaitEnabled woken => Some (s, if sg_flag s || woken then WaitEnd else WaitParked, false)
  | FireEnd | ClearEnd | ResetEnd _ _ | WaitParked | WaitEnd => None
  end.

(** [notify_waiters]: every registered waiter is woken. *)
Definition wake (t : Thread) : Thread :=
  match t with
  | WaitEnabled _ => WaitEnabled true
  | WaitParked => WaitEnd
  | _ => t
  end.

Record System := mkSystem { sy_signal : Signal; sy_threads : list Thread }.

(** The thread at position [i] takes a step; nothing happens when it cannot. *)
Definition step_at (sy : System) (i : nat) : System :=
  match sy_threads sy !! i with
  | Some t =>
      match thread_step (sy_signal sy) t with
      | Some (s', t', notify) =>
          let ts := <[i := t']> (sy_threads sy) in
          mkSystem s' (if notify then map wake ts else ts)
      | None => sy
      end
  | None => sy
  end.

Definition run_schedule (sy : System) (schedule : list nat) : System := foldl step_at sy schedule.

(** Between two of its accesses, or not started: not a waiter, not finished. *)
Definition in_flight (t : Thread) : bool :=
  match t with
  | FireEnd | ClearEnd | ResetEnd _ _ | WaitStart | WaitEnabled _ | WaitParked | WaitEnd => false
  | _ => true
  end.

(** ** Invariants *)

(** Why the flag may be down although something fired. *)
Definition accounts_for (s : Signal) (t : Thread) : bool :=
  match t with
  | FireAdded | ResetCleared _ | ResetRaced _ | ClearEnd => true
  | ResetEnd e true => bool_decide (e = sg_epoch s)
  | _ => false
  end.

Definition fire_inv (sy : System) : Prop :=
  sg_flag (sy_signal sy) = true ∨ sg_epoch (sy_signal sy) = 0%N
  ∨ ∃ t, t ∈ sy_threads sy ∧ accounts_for (sy_signal sy) t = true.

(** A call that will notify. *)
Definition will_notify (t : Thread) : bool :=
  match t with FireStored | ResetRestored _ => true | _ => false end.

Definition wake_inv (sy : System) : Prop :=
  sg_flag (sy_signal sy) = true → WaitParked ∈ sy_threads sy →
  ∃ t, t ∈ sy_threads sy ∧ will_notify t = true.

Lemma wake_accounts s t : accounts_for s (wake t) = accounts_for s t.
Proof. by destruct t. Qed.

Lemma accounts_moved s t t' b s' (ts : list Thread) (i : nat) x :
  thread_step s t = Some (s', t', b) → ts !! i = Some t → sg_flag s' = false → sg_epoch s' = sg_epoch s →
  x ∈ ts → accounts_for s x = true → ∃ y, y ∈ <[i := t']> ts ∧ accounts_for s' y = true.
Proof.
  intros Hstep Hi Hf He Hx Ha. pose proof (lookup_lt_Some _ _ _ Hi) as Hlt.
  assert (accounts_for s' x = true) as Hax 
    by (destruct x as [| | | | | | | | | | |e [] | | | |]; try done; simpl in *; by rewrite He).
  apply list_elem_of_lookup in Hx as [j Hj]. destruct (decide (i = j)) as [<-|Hij].
  - assert (x = t) as -> by congruence. exists t'.
    split; [apply list_elem_of_insert; done|].
    destruct t; simpl in *; try done; [by injection Hstep as <- _ _| |by injection Hstep as <- _ _].
    case_bool_decide; injection Hstep as <- <- _; [|done]. simpl. by apply bool_decide_eq_true.
  - exists x. split; [|done]. apply list_elem_of_lookup. exists j. by rewrite list_lookup_insert_ne.
Qed.

Lemma fire_inv_step sy i : fire_inv sy → fire_inv (step_at sy i).
Proof.
  destruct sy as [s ts]. unfold step_at; simpl. intros Hinv.
  destruct (ts !! i) as [t|] eqn:Hi; [|done].
  destruct (thread_step s t) as [[[s' t'] b]|] eqn:Hstep; [|done].
  assert (fire_inv (mkSystem s' (<[i:=t']> ts))) as Hnew.
  { unfold fire_inv in *; simpl in *. pose proof (lookup_lt_Some _ _ _ Hi) as Hlt.
    assert (t' ∈ <[i:=t']> ts) as Ht' by (by apply list_elem_of_insert).
    destruct (sg_flag s') eqn:Hf'; [by left|]. right.
    destruct (decide (sg_epoch s' = sg_epoch s)) as [He|He].
    - destruct (decide (accounts_for s' t' = true)) as [Ha|Ha]; [right; eauto|].
      destruct Hinv as [Hf|[H0|(x & Hx & Hax)]]; [|left; congruence|right; by eapply accounts_moved].
      destruct t; simpl in Hstep; try case_bool_decide; simplify_eq/=; first [done|congruence].
    - right. exists t'. split; [done|].
      destruct t; simpl in Hstep; try case_bool_decide; simplify_eq/=; first [done|congruence]. }
  destruct b; [|done]. destruct Hnew as [?|[?|(x & Hx & Hax)]]; [by left|right; by left|].
  right; right. exists (wake x). simpl in *. split; [by apply (list_elem_of_fmap_2 wake)|]. by rewrite wake_accounts.
Qed.

Lemma parked_after_notify ts : WaitParked ∉ map wake ts.
Proof. intros (t & He & _)%list_elem_of_fmap. by destruct t. Qed.

Lemma wake_inv_step sy i : wake_inv sy → wake_inv (step_at sy i).
Proof.
  destruct sy as [s ts]. unfold step_at; simpl. intros Hinv.
  destruct (ts !! i) as [t|] eqn:Hi; [|done].
  destruct (thread_step s t) as [[[s' t'] b]|] eqn:Hstep; [|done].
  unfold wake_inv in *; simpl in *. destruct b; [intros _ []%parked_after_notify|].
  pose proof (lookup_lt_Some _ _ _ Hi) as Hlt. intros Hf Hp.
  assert (t' ∈ <[i:=t']> ts) as Ht' by (by apply list_elem_of_insert).
  destruct (will_notify t') eqn:Hw; [by eauto|].
  assert (sg_flag s = true ∧ t' ≠ WaitParked ∧ will_notify t = false) as (Hfs & Hnp & Hwt).
  { destruct t; simpl in Hstep; try case_bool_decide; simplify_eq/=; try done.
    rewrite Hf. done. }
  assert (WaitParked ∈ ts) as Hpt.
  { apply list_elem_of_lookup in Hp as [j Hj]. destruct (decide (i = j)) as [<-|Hij].
    - rewrite list_lookup_insert_eq in Hj by done. congruence.
    - rewrite list_lookup_insert_ne in Hj by done. apply list_elem_of_lookup. eauto. }
  destruct (Hinv Hfs Hpt) as (x & Hx & Hwx). exists x. split; [|done].
  apply list_elem_of_lookup in Hx as [j Hj]. apply list_elem_of_lookup. exists j.
  rewrite list_lookup_insert_ne; [done|]. intros ->. congruence.
Qed.

Lemma run_schedule_inv (P : System → Prop) sy schedule :
  (∀ sy i, P sy → P (step_at sy i)) → P sy → P (run_schedule sy schedule).
Proof.
  intros Hs. unfold run_schedule. revert sy. induction schedule as [|i l IH]; intros sy HP; simpl; auto.
Qed.

(** ** Which calls there are *)

Definition is_clear (t : Thread) : bool := match t with ClearStart | ClearEnd => true | _ => false end.

Lemma no_clear_step sy i :
  Forall (λ t, is_clear t = false) (sy_threads sy) → Forall (λ t, is_clear t = false) (sy_threads (step_at sy i)).
Proof.
  destruct sy as [s ts]. unfold step_at; simpl. intros Hno.
  destruct (ts !! i) as [t|] eqn:Hi; [|done].
  destruct (thread_step s t) as [[[s' t'] b]|] eqn:Hstep; [|done]. simpl.
  assert (is_clear t' = false) as Ht'.
  { pose proof (Forall_lookup_1 _ _ _ _ Hno Hi) as Ht.
    destruct t; simpl in Hstep; try case_bool_decide; simplify_eq/=; try done.
    simpl. by destruct (_ || _). }
  assert (Forall (λ t, is_clear t = false) (<[i:=t']> ts)) as Hins by (by apply Forall_insert).
  destruct b; [|done]. apply Forall_fmap. eapply Forall_impl; [exact Hins|]. by intros [].
Qed.

(** ** Theorems *)

(** C35: no cancel is silently erased: let any number of [fire],
    [reset_if_epoch] and [notified] calls run in any interleaving, with resets
    for arbitrary captured epochs; once none of them is in the middle of its
    accesses, either nothing fired, or the flag is set, or a reset captured at
    the latest fire was applied.  A stale reset never eats a newer fire. *)
Theorem no_fire_erased (calls : list Thread) (schedule : list nat) :
  Forall (λ t, is_clear t = false) calls →
  let sy := run_schedule (mkSystem signal_new calls) schedule in
  Forall (λ t, in_flight t = false) (sy_threads sy) →
  sg_flag (sy_signal sy) = true ∨ sg_epoch (sy_signal sy) = 0%N
  ∨ ResetEnd (sg_epoch (sy_signal sy)) true ∈ sy_threads sy.
Proof.
  intros Hclear sy Hend.
  assert (fire_inv sy) as Hinv by (apply run_schedule_inv; [apply fire_inv_step|right; by left]).
  assert (Forall (λ t, is_clear t = false) (sy_threads sy)) as Hno.
  { apply (run_schedule_inv (λ sy, Forall (λ t, is_clear t = false) (sy_threads sy))); [apply no_clear_step|done]. }
  destruct Hinv as [?|[?|(t & Ht & Ha)]]; [by left|right; by left|right; right].
  rewrite Forall_forall in Hend, Hno. pose proof (Hend t Ht). pose proof (Hno t Ht).
  destruct t as [| | | | | | | | | | |e [] | | | |]; try done. simpl in Ha. bool_hyps. by subst e.
Qed.

Definition demo_calls_428 : list Thread := [FireStart; ResetStart 1; FireStart].
Definition demo_schedule_428 : list nat := [0; 0; 0; 1; 2; 1; 2; 1; 1; 2; 1].

(** The race of issue #428: a fire lands inside a reset of the previous one. *)
Lemma no_fire_erased_witness :
  sg_flag (sy_signal (run_schedule (mkSystem signal_new demo_calls_428) demo_schedule_428)) = true.
Proof.
  destruct (no_fire_erased demo_calls_428 demo_schedule_428) as [H|[H|H]].
  - repeat constructor.
  - vm_compute. repeat constructor.
  - exact H.
  - by vm_compute in H.
  - vm_compute in H. exfalso. by repeat (apply elem_of_cons in H as [?|H]; [done|]); apply elem_of_nil in H.
Defined.

(** No wakeup is lost: in any interleaving of any calls, a waiter is
    parked while the flag is set only as long as some call is about to notify;
    once every firing and resetting call has finished, a set flag leaves no
    waiter parked. *)
Theorem no_wakeup_lost (calls : list Thread) (schedule : list nat) :
  let sy := run_schedule (mkSystem signal_new calls) schedule in
  sg_flag (sy_signal sy) = true → WaitParked ∈ sy_threads sy →
  ∃ t, t ∈ sy_threads sy ∧ will_notify t = true ∧ in_flight t = true.
Proof.
  intros sy Hf Hp. assert (wake_inv sy) as Hinv by (apply run_schedule_inv; [apply wake_inv_step|done]).
  destruct (Hinv Hf Hp) as (t & Ht & Hw). exists t. split_and!; [done|done|by destruct t].
Qed.

Lemma no_wakeup_lost_witness :
  ∃ t, t ∈ sy_threads (run_schedule (mkSystem signal_new [WaitStart; FireStart]) [0; 0; 1; 1])
    ∧ will_notify t = true ∧ in_flight t = true.
Proof.
  apply (no_wakeup_lost [WaitStart; FireStart] [0; 0; 1; 1]).
  - vm_compute. reflexivity.
  - vm_compute. left.
Defined.

(** ** A stale reset can raise a consumed cancel again

    The restore step of a stale reset may run after another reset consumed the
    newer fire: the second reset reports that it was applied, nothing fires
    afterwards, and the flag ends up set. *)
Lemma stale_reset_reraises_consumed_fire :
  let sy := run_schedule (mkSystem signal_new [FireStart; ResetStart 1; FireStart; ResetStart 2])
              [0; 0; 0; 1; 2; 2; 2; 1; 1; 3; 3; 3; 1; 1] in
  sy_threads sy = [FireEnd; ResetEnd 1 false; FireEnd; ResetEnd 2 true]
  ∧ sg_epoch (sy_signal sy) = 2%N ∧ sg_flag (sy_signal sy) = true.
Proof. vm_compute. done. Qed.
