(* ===== verification/Float32.v ===== *)
(** * binary32

    The [f32] operations of crates/jcode-memory-types, on the standard
    library's specification floats ([prec = 24], [emax = 128]): product,
    comparison, and [f32::total_cmp].  There is one NaN, which [total_cmp]
    places above everything (the sign and payload of a NaN are not kept). *)

From Stdlib Require Import Floats.SpecFloat.
From stdpp Require Import base list strings pretty.
From S2P Require Import Prelude.

Open Scope string_scope.

Notation f32 := spec_float (only parsing).

Module F32.
Definition prec : Z := 24.
Definition emax : Z := 128.
Definition mul : f32 → f32 → f32 := SFmul prec emax.
Definition add : f32 → f32 → f32 := SFadd prec emax.
Definition sub : f32 → f32 → f32 := SFsub prec emax.

(** [a > b]: false when either is NaN. *)
Definition gtb (a b : f32) : bool := SFltb b a.

(** The literal [m / 10^k]: the nearest value. *)
Definition of_decimal (m : positive) (k : nat) : f32 :=
  SFdiv prec emax (S754_finite false m 0) (S754_finite false (Pos.of_nat (10 ^ k)) 0).

Definition zero : f32 := S754_zero false.
Definition one : f32 := of_decimal 1 0.

(** [a.min(b)] and [a.max(b)]: the other argument when one is NaN. *)
Definition min (a b : f32) : f32 :=
  match a, b with
  | S754_nan, _ => b
  | _, S754_nan => a
  | _, _ => if SFltb b a then b else a
  end.
Definition max (a b : f32) : f32 :=
  match a, b with
  | S754_nan, _ => b
  | _, S754_nan => a
  | _, _ => if SFltb a b then b else a
  end.

(** [total_cmp] orders the sign-magnitude encodings: sign, exponent, mantissa. *)
Definition total_key (f : f32) : Z * (Z * Z) :=
  match f with
  | S754_infinity true => (-3, (0, 0))
  | S754_finite true m e => (-2, (- e, Z.neg m))
  | S754_zero true => (-1, (0, 0))
  | S754_zero false => (1, (0, 0))
  | S754_finite false m e => (2, (e, Z.pos m))
  | S754_infinity false => (3, (0, 0))
  | S754_nan => (4, (0, 0))
  end%Z.

Definition total_cmp (a b : f32) : comparison :=
  pair_cmp Z.compare (pair_cmp Z.compare Z.compare) (total_key a) (total_key b).

(** Floats on which [>] and [total_cmp] agree: no NaN and no negative zero. *)
Definition ordered (f : f32) : bool :=
  match f with S754_nan | S754_zero true => false | _ => true end.
End F32.

Lemma total_key_inj : Inj (=) (=) F32.total_key.
Proof.
  intros a b. destruct a as [[]|[]| |[] m e], b as [[]|[]| |[] m' e']; simpl; try done;
    intros [= ? ?]; f_equal; lia.
Qed.

#[export] Instance total_cmp_order : TotalOrder F32.total_cmp.
Proof.
  split; unfold F32.total_cmp.
  - intros x y. rewrite cmp_eq. split; [apply total_key_inj|by intros ->].
  - intros x y. apply cmp_opp.
  - intros x y z. apply cmp_lt_trans.
Qed.

Lemma gtb_total_cmp (a b : f32) :
  F32.ordered a = true → F32.ordered b = true → F32.gtb a b = true ↔ F32.total_cmp a b = Gt.
Proof.
  unfold F32.gtb, F32.total_cmp, SFltb.
  destruct a as [[]|[]| |[] m e], b as [[]|[]| |[] m' e']; simpl; try done; intros _ _;
    unfold pair_cmp, then_with; simpl.
  - change (PosDef.Pos.compare_cont Eq m' m) with (m' ?= m)%positive.
    rewrite Z.compare_opp, (Pos.compare_antisym m' m).
    destruct (e' ?= e)%Z, (m' ?= m)%positive; naive_solver.
  - change (PosDef.Pos.compare_cont Eq m' m) with (m' ?= m)%positive.
    rewrite (Z.compare_antisym e' e), (Pos.compare_antisym m' m).
    destruct (e' ?= e)%Z, (m' ?= m)%positive; naive_solver.
Qed.

(** ** Conversions, binary64 and decimal rendering

    The floating-point operations of the conversation code beyond Float32.v:
    [as f32] and [as f64], division and square root, [f64] arithmetic, and
    [format!("{:.k}", x)], which rounds the exact value to the nearest decimal,
    ties to even. *)

Notation f64 := spec_float (only parsing).

(** [n as f32] of an unsigned integer, [a / b], [a.sqrt()]. *)
Definition f32_of_N (n : N) : f32 := binary_normalize 24 128 (Z.of_N n) 0 false.
Definition f32_div : f32 → f32 → f32 := SFdiv 24 128.
Definition f32_sqrt : f32 → f32 := SFsqrt 24 128.
Definition f32_sum (l : list f32) : f32 := fold_left F32.add l F32.zero.

(** [a >= b] and [a < b]: false when either is NaN. *)
Definition geb (a b : spec_float) : bool := SFleb b a.
Definition ltb (a b : spec_float) : bool := SFltb a b.

Definition f64_of_N (n : N) : f64 := binary_normalize 53 1024 (Z.of_N n) 0 false.
Definition f64_add : f64 → f64 → f64 := SFadd 53 1024.
Definition f64_sub : f64 → f64 → f64 := SFsub 53 1024.
Definition f64_mul : f64 → f64 → f64 := SFmul 53 1024.
Definition f64_div : f64 → f64 → f64 := SFdiv 53 1024.
Definition f64_zero : f64 := S754_zero false.
Definition f64_one : f64 := f64_of_N 1.

(** [x as f64] of an [f32]: exact. *)
Definition f64_of_f32 (x : f32) : f64 :=
  match x with
  | S754_finite s m e => binary_normalize 53 1024 (if s then Z.neg m else Z.pos m) e s
  | _ => x
  end.

(** [x.max(y)]. *)
Definition f64_max : f64 → f64 → f64 := F32.max.

(** [num / den] rounded to the nearest integer, ties to even. *)
Definition round_div (num den : N) : N :=
  let q := (num / den)%N in
  match (2 * (num mod den) ?= den)%N with
  | Lt => q
  | Gt => (q + 1)%N
  | Eq => if N.even q then q else (q + 1)%N
  end.

(** The decimal digits of [n] with [k] of them after the point. *)
Definition with_point (k : nat) (n : N) : string :=
  match k with
  | O => pretty n
  | _ =>
      let scale := (10 ^ N.of_nat k)%N in
      let frac := pretty (n mod scale)%N in
      pretty (n / scale)%N +:+ "." +:+ String.concat "" (replicate (k - String.length frac) "0") +:+ frac
  end.

(** [format!("{:.k}", x)]. *)
Definition fixed (k : nat) (x : spec_float) : string :=
  match x with
  | S754_nan => "NaN"
  | S754_infinity s => if s then "-inf" else "inf"
  | S754_zero s => (if s then "-" else "") +:+ with_point k 0
  | S754_finite s m e =>
      let scaled := (N.pos m * 10 ^ N.of_nat k)%N in
      (if s then "-" else "") +:+
      with_point k (if (0 <=? e)%Z then (scaled * 2 ^ Z.to_N e)%N else round_div scaled (2 ^ Z.to_N (- e)))
  end.
