(* ===== verification/TopK.v ===== *)
(** * Bounded selection of the best items

    The three copies of the same heap loop in crates/jcode-memory-types:
    [top_k_scored] (graph.rs), [ranking::top_k_by_score] and
    [ranking::top_k_by_ord] (lib.rs).  The loop is written once over the
    comparison of its keys.  [BinaryHeap<Reverse<_>>] is the list of its
    elements in ascending order, so that [peek] is the head. *)

From Stdlib Require Import Floats.SpecFloat.
From stdpp Require Import base list sorting strings.
From S2P Require Import Prelude Float32.

Open Scope string_scope.
Open Scope nat_scope.
Open Scope list_scope.

Record TopKItem (T K : Type) := mkTop { tk_key : K; tk_ordinal : nat; tk_value : T }.
Arguments mkTop {T K} _ _ _.
Arguments tk_key {T K} _.
Arguments tk_ordinal {T K} _.
Arguments tk_value {T K} _.

Section TopK.
(** [cmp] orders the heap and the result, [gt] decides a replacement. *)
Context {T K : Type} (cmp : K → K → comparison) (gt : K → K → bool).

Definition item_cmp (a b : TopKItem T K) : comparison :=
  then_with (cmp (tk_key a) (tk_key b)) (Nat.compare (tk_ordinal a) (tk_ordinal b)).

Definition heap_push (x : TopKItem T K) (heap : list (TopKItem T K)) : list (TopKItem T K) :=
  insert_sorted (λ a b, not_greater (item_cmp a b)) x heap.

(** [for (ordinal, (value, key)) in items.into_iter().enumerate() { .. }]. *)
Fixpoint top_k_loop (limit ordinal : nat) (heap : list (TopKItem T K)) (items : list (T * K))
  : list (TopKItem T K) :=
  match items with
  | [] => heap
  | (value, key) :: items' =>
      let candidate := mkTop key ordinal value in
      if length heap <? limit then top_k_loop limit (S ordinal) (heap_push candidate heap) items'
      else
        let replace := match heap with smallest :: _ => gt key (tk_key smallest) | [] => false end in
        top_k_loop limit (S ordinal) (if replace then heap_push candidate (tail heap) else heap) items'
  end.

(** [sort_by(|a, b| b.key.cmp(&a.key).then_with(|| a.ordinal.cmp(&b.ordinal)))]. *)
Definition result_leb (a b : TopKItem T K) : bool :=
  not_greater (then_with (cmp (tk_key b) (tk_key a)) (Nat.compare (tk_ordinal a) (tk_ordinal b))).

Definition top_k (items : list (T * K)) (limit : nat) : list (T * K) :=
  if limit =? 0 then []
  else map (λ i, (tk_value i, tk_key i)) (sort_by result_leb (top_k_loop limit 0 [] items)).
End TopK.

Definition top_k_scored {T} : list (T * f32) → nat → list (T * f32) := top_k F32.total_cmp F32.gtb.

Definition top_k_by_score {T} : list (T * f32) → nat → list (T * f32) := top_k F32.total_cmp F32.gtb.

Definition top_k_by_ord {T K} (cmp : K → K → comparison) : list (T * K) → nat → list (T * K) :=
  top_k cmp (λ a b, match cmp a b with Gt => true | _ => false end).

(** ** Correctness *)

Section Spec.
Context {T K : Type} (cmp : K → K → comparison) `{!TotalOrder cmp} (gt : K → K → bool).
(** The keys on which [gt] is the order's own "greater". *)
Context (good : K → Prop).
Context (gt_spec : ∀ a b, good a → good b → gt a b = true ↔ cmp a b = Gt).

#[local] Notation item := (TopKItem T K).
#[local] Notation leb := (λ a b : item, not_greater (item_cmp cmp a b)).
#[local] Notation plain := (λ i : item, (tk_value i, tk_key i)).

Lemma heap_leb_total a b : leb a b = true ∨ leb b a = true.
Proof. apply (not_greater_total (pair_cmp cmp Nat.compare) (tk_key a, tk_ordinal a) (tk_key b, tk_ordinal b)). Qed.

Lemma heap_leb_trans a b c : leb a b = true → leb b c = true → leb a c = true.
Proof.
  apply (not_greater_trans (pair_cmp cmp Nat.compare) (tk_key a, tk_ordinal a) (tk_key b, tk_ordinal b)
           (tk_key c, tk_ordinal c)).
Qed.

Lemma heap_leb_key a b : leb a b = true → not_greater (cmp (tk_key a) (tk_key b)) = true.
Proof. unfold item_cmp, then_with. by destruct (cmp _ _). Qed.

(** The loop keeps [limit] items none of which is below a dropped one. *)
Record kept (limit : nat) (seen : list (T * K)) (heap : list item) (dropped : list (T * K)) : Prop := {
  kp_perm : seen ≡ₚ map plain heap ++ dropped;
  kp_sorted : StronglySorted (λ a b, leb a b = true) heap;
  kp_full : length heap = min limit (length seen);
  kp_best : ∀ h d, h ∈ heap → d ∈ dropped → not_greater (cmp d.2 (tk_key h)) = true }.

Lemma heap_push_perm (x : item) heap : heap_push cmp x heap ≡ₚ x :: heap.
Proof. apply insert_sorted_perm. Qed.

Lemma heap_push_sorted (x : item) heap :
  StronglySorted (λ a b, leb a b = true) heap → StronglySorted (λ a b, leb a b = true) (heap_push cmp x heap).
Proof. intros. apply insert_sorted_sorted; eauto using heap_leb_total, heap_leb_trans. Qed.

Lemma kept_push limit seen heap dropped (x : item) :
  kept limit seen heap dropped → length heap < limit →
  kept limit (seen ++ [plain x]) (heap_push cmp x heap) dropped.
Proof.
  intros [Hp Hs Hf Hb] Hl.
  assert (dropped = []) as ->.
  { apply Permutation_length in Hp. rewrite length_app, length_map in Hp.
    apply nil_length_inv. lia. }
  split.
  - rewrite Hp, heap_push_perm, !app_nil_r. simpl. solve_Permutation.
  - by apply heap_push_sorted.
  - rewrite (heap_push_perm x heap), length_app. simpl. lia.
  - by intros h d _ ?%elem_of_nil.
Qed.

Lemma kept_replace limit seen s rest dropped (x : item) :
  kept limit seen (s :: rest) dropped → cmp (tk_key x) (tk_key s) = Gt → length (s :: rest) = limit →
  kept limit (seen ++ [plain x]) (heap_push cmp x rest) (plain s :: dropped).
Proof.
  intros [Hp Hs Hf Hb] Hg Hl. apply StronglySorted_inv in Hs as [Hs Hall].
  assert (Hx : ∀ d, not_greater (cmp d (tk_key s)) = true → not_greater (cmp d (tk_key x)) = true).
  { intros d Hd. eapply (not_greater_trans cmp); [exact Hd|by apply not_greater_gt]. }
  split.
  - rewrite Hp, heap_push_perm. simpl. solve_Permutation.
  - by apply heap_push_sorted.
  - rewrite (heap_push_perm x rest), length_app. simpl in *. lia.
  - intros h d. rewrite heap_push_perm, !elem_of_cons. intros [->|Hh] [->|Hd]; simpl.
    + apply Hx. apply not_greater_iff. by rewrite cmp_refl.
    + apply Hx. apply Hb; [left|done].
    + rewrite Forall_forall in Hall. by apply heap_leb_key, Hall.
    + apply Hb; [by right|done].
Qed.

Lemma kept_skip limit seen s rest dropped (x : item) :
  kept limit seen (s :: rest) dropped → cmp (tk_key x) (tk_key s) ≠ Gt → length (s :: rest) = limit →
  kept limit (seen ++ [plain x]) (s :: rest) (plain x :: dropped).
Proof.
  intros [Hp Hs Hf Hb] Hg Hl. split; [| done | |].
  - rewrite Hp. simpl. solve_Permutation.
  - rewrite length_app. simpl in *. lia.
  - apply StronglySorted_inv in Hs as [_ Hall]. rewrite Forall_forall in Hall.
    intros h d Hh. rewrite elem_of_cons. intros [->|Hd]; [|by apply Hb]. simpl.
    apply not_greater_iff in Hg. apply elem_of_cons in Hh as [->|Hh]; [done|].
    eapply (not_greater_trans cmp); [exact Hg|]. by apply heap_leb_key, Hall.
Qed.

Lemma top_k_loop_kept limit items : ∀ ordinal seen heap dropped,
  limit ≠ 0 → Forall good (map snd seen) → Forall good (map snd items) →
  kept limit seen heap dropped →
  ∃ dropped', kept limit (seen ++ items) (top_k_loop cmp gt limit ordinal heap items) dropped'.
Proof.
  induction items as [|[v k] items IH]; intros ordinal seen heap dropped Hl Hg Hi Hk; simpl.
  { rewrite app_nil_r. by exists dropped. }
  apply Forall_cons in Hi as [Hgk Hi]. simpl in Hgk.
  assert (Hg' : Forall good (map snd (seen ++ [(v, k)]))) by (rewrite map_app, Forall_app; by repeat constructor).
  set (x := mkTop k ordinal v).
  change ((v, k) :: items) with ([(v, k)] ++ items). rewrite app_assoc.
  destruct (length heap <? limit) eqn:El.
  - apply Nat.ltb_lt in El. eapply IH; [done..|]. by apply (kept_push _ _ _ _ x).
  - apply Nat.ltb_ge in El. pose proof (kp_full _ _ _ _ Hk) as Hlen.
    destruct heap as [|s rest]; [simpl in *; lia|].
    assert (Hgs : good (tk_key s)).
    { rewrite Forall_forall in Hg. apply Hg. apply list_elem_of_fmap.
      exists (plain s). split; [done|]. rewrite (kp_perm _ _ _ _ Hk). by left. }
    assert (length (s :: rest) = limit) by lia. simpl tail.
    destruct (gt k (tk_key s)) eqn:Eg; (eapply IH; [done..|]).
    + eapply (kept_replace _ _ _ _ _ x); [done| |done]. by apply gt_spec.
    + eapply (kept_skip _ _ _ _ _ x); [done| |done]. intros Hc.
      apply (gt_spec k (tk_key s) Hgk Hgs) in Hc. congruence.
Qed.

(** The result of the selection: a split of the items into kept and dropped. *)
Definition best_of (limit : nat) (items result : list (T * K)) : Prop :=
  length result = min limit (length items)
  ∧ StronglySorted (λ a b, cmp a.2 b.2 ≠ Lt) result
  ∧ ∃ dropped, items ≡ₚ result ++ dropped ∧ ∀ r d, r ∈ result → d ∈ dropped → cmp d.2 r.2 ≠ Gt.

Lemma result_leb_total (a b : item) : result_leb cmp a b = true ∨ result_leb cmp b a = true.
Proof.
  unfold result_leb, then_with. rewrite (cmp_opp (cmp:=cmp) (tk_key a) (tk_key b)).
  rewrite (Nat.compare_antisym (tk_ordinal a) (tk_ordinal b)).
  destruct (cmp (tk_key a) (tk_key b)), (Nat.compare (tk_ordinal a) (tk_ordinal b)); auto.
Qed.

Lemma result_leb_trans (a b c : item) :
  result_leb cmp a b = true → result_leb cmp b c = true → result_leb cmp a c = true.
Proof.
  unfold result_leb. intros H1 H2.
  pose proof (flip_total_order cmp).
  exact (not_greater_trans (pair_cmp (flip cmp) Nat.compare) (tk_key a, tk_ordinal a)
           (tk_key b, tk_ordinal b) (tk_key c, tk_ordinal c) H1 H2).
Qed.

Lemma result_leb_key (a b : item) : result_leb cmp a b = true → cmp (tk_key a) (tk_key b) ≠ Lt.
Proof.
  unfold result_leb, then_with. rewrite (cmp_opp (cmp:=cmp) (tk_key a) (tk_key b)).
  by destruct (cmp (tk_key a) (tk_key b)).
Qed.

Lemma sorted_map {A B} (R : relation A) (S : relation B) (f : A → B) l :
  (∀ a b, R a b → S (f a) (f b)) → StronglySorted R l → StronglySorted S (map f l).
Proof.
  intros Hf. induction 1 as [|a l Hs IH Hall]; simpl; constructor; [done|].
  apply Forall_fmap. eapply Forall_impl; [exact Hall|]. simpl. auto.
Qed.

(** Whatever the comparisons are: the loop keeps [limit] of the items. *)
Lemma top_k_loop_split limit items : ∀ ordinal seen heap dropped,
  limit ≠ 0 → seen ≡ₚ map plain heap ++ dropped → length heap = min limit (length seen) →
  let heap' := top_k_loop cmp gt limit ordinal heap items in
  ∃ dropped', seen ++ items ≡ₚ map plain heap' ++ dropped' ∧ length heap' = min limit (length (seen ++ items)).
Proof.
  induction items as [|[v k] items IH]; intros ordinal seen heap dropped Hl Hp Hf; simpl.
  { rewrite app_nil_r. eauto. }
  set (x := mkTop k ordinal v). change ((v, k) :: items) with ([plain x] ++ items). rewrite app_assoc.
  assert (Hlen : length seen = length heap + length dropped)
    by (apply Permutation_length in Hp; by rewrite length_app, length_map in Hp).
  destruct (length heap <? limit) eqn:El.
  - apply Nat.ltb_lt in El. apply (IH _ _ _ dropped Hl).
    + rewrite Hp, heap_push_perm. simpl. solve_Permutation.
    + rewrite (heap_push_perm x heap), length_app. simpl. lia.
  - apply Nat.ltb_ge in El. destruct heap as [|s rest]; [simpl in *; lia|]. simpl tail.
    destruct (gt k (tk_key s)).
    + apply (IH _ _ _ (plain s :: dropped) Hl).
      * rewrite Hp, heap_push_perm. simpl. solve_Permutation.
      * rewrite (heap_push_perm x rest), length_app. simpl in *. lia.
    + apply (IH _ _ _ (plain x :: dropped) Hl).
      * rewrite Hp. simpl. solve_Permutation.
      * rewrite length_app. simpl in *. lia.
Qed.

Lemma top_k_split (items : list (T * K)) limit :
  ∃ dropped, items ≡ₚ top_k cmp gt items limit ++ dropped
    ∧ length (top_k cmp gt items limit) = min limit (length items).
Proof.
  unfold top_k. destruct (limit =? 0) eqn:E0.
  { apply Nat.eqb_eq in E0 as ->. by exists items. }
  apply Nat.eqb_neq in E0.
  destruct (top_k_loop_split limit items 0 [] [] [] E0) as (dropped & Hp & Hl);
    [done|by rewrite Nat.min_0_r|].
  exists dropped. by rewrite length_map, length_sort_by, sort_by_perm.
Qed.

Lemma top_k_best items limit :
  Forall good (map snd items) → best_of limit items (top_k cmp gt items limit).
Proof.
  intros Hg. unfold best_of, top_k. destruct (limit =? 0) eqn:E0.
  { apply Nat.eqb_eq in E0 as ->. split; [done|]. split; [constructor|]. exists items.
    split; [done|]. by intros r d ?%elem_of_nil. }
  apply Nat.eqb_neq in E0.
  destruct (top_k_loop_kept limit items 0 [] [] [] E0) as (dropped & [Hp Hs Hf Hb]);
    [constructor|done|split; try done; [constructor|by rewrite Nat.min_0_r|by intros h d ?%elem_of_nil]|].
  simpl in *. set (heap := top_k_loop cmp gt limit 0 [] items) in *.
  pose proof (sort_by_perm (result_leb cmp) heap) as Hsp. split_and!.
  - by rewrite length_map, length_sort_by.
  - eapply sorted_map; [|apply sort_by_sorted; [apply result_leb_total|apply result_leb_trans]].
    intros a b. apply result_leb_key.
  - exists dropped. rewrite Hsp. split; [done|]. intros r d Hr Hd.
    apply list_elem_of_fmap in Hr as (h & -> & Hh). rewrite Hsp in Hh.
    by apply not_greater_iff, Hb.
Qed.
End Spec.

(** Bounded selection keeps the best: for any number of items and any
    limit, the result has as many items as the limit allows, is in descending
    order, consists of the input's items, and no item left out has a greater
    key than one that was kept.  On [f32] scores this holds when no score is
    NaN or negative zero. *)
Theorem top_k_selects_the_best {T K} (cmp : K → K → comparison) `{!TotalOrder cmp}
    (items : list (T * K)) (scored : list (T * f32)) (limit : nat) :
  Forall (λ s, F32.ordered s = true) (map snd scored) →
  best_of cmp limit items (top_k_by_ord cmp items limit)
  ∧ best_of F32.total_cmp limit scored (top_k_by_score scored limit)
  ∧ top_k_scored scored limit = top_k_by_score scored limit.
Proof.
  intros Hs. split_and!; [| |done].
  - apply (top_k_best cmp _ (λ _, True)); [|by apply Forall_forall].
    intros a b _ _. by destruct (cmp a b).
  - apply (top_k_best F32.total_cmp _ (λ s, F32.ordered s = true)); [|done].
    intros a b. apply gtb_total_cmp.
Qed.

Lemma top_k_selects_the_best_witness :
  best_of Z.compare 2 [("a", 1%Z); ("b", 3%Z); ("c", 2%Z)]
    (top_k_by_ord Z.compare [("a", 1%Z); ("b", 3%Z); ("c", 2%Z)] 2)
  ∧ top_k_by_ord Z.compare [("a", 1%Z); ("b", 3%Z); ("c", 2%Z)] 2 = [("b", 3%Z); ("c", 2%Z)].
Proof.
  split; [|reflexivity].
  apply (top_k_selects_the_best Z.compare [("a", 1%Z); ("b", 3%Z); ("c", 2%Z)]
           [("a", F32.of_decimal 8 1); ("b", F32.zero)] 2).
  repeat constructor.
Defined.

(** Ties are not broken by position: the first of two equal items is the one
    that a later, better item evicts, although the result lists equal items in
    input order. *)
Lemma tie_evicts_the_earlier_item :
  top_k_by_ord Z.compare [("a", 1%Z); ("b", 1%Z)] 1 = [("a", 1%Z)]
  ∧ top_k_by_ord Z.compare [("a", 1%Z); ("b", 1%Z); ("c", 2%Z)] 2 = [("c", 2%Z); ("b", 1%Z)].
Proof. done. Qed.
