(* ===== verification/Memory.v ===== *)
(** * Memory entries and their texts

    crates/jcode-memory-types/src/lib.rs: the persistent memory record with
    its mutators, search-text normalization, the flat store, and the formatting
    of entries for a prompt.  Times are integers (an instant's timestamp); an
    operation that reads the clock takes the instant as an argument. *)

From Stdlib Require Import Floats.SpecFloat.
From stdpp Require Import base list strings gmap sorting pretty.
From S2P Require Import Prelude RustString Float32.

Open Scope string_scope.
Open Scope nat_scope.
Open Scope list_scope.

(** [str::to_lowercase]: the full Unicode mapping is left to the instance. *)
Class Lowercase := to_lowercase : string → string.

(** ** Data *)

Inductive TrustLevel := TrustHigh | TrustMedium | TrustLow.

#[export] Instance TrustLevel_eq_dec : EqDecision TrustLevel.
Proof. solve_decision. Defined.

Inductive MemoryCategory := Fact | Preference | Entity | Correction | Custom (name : string).

#[export] Instance MemoryCategory_eq_dec : EqDecision MemoryCategory.
Proof. solve_decision. Defined.

Record Reinforcement := mkReinforcement {
  rf_session_id : string;
  rf_message_index : nat;
  rf_timestamp : Z }.

Record MemoryEntry := mkEntry {
  me_id : string;
  me_category : MemoryCategory;
  me_content : string;
  me_tags : list string;
  me_search_text : string;
  me_created_at : Z;
  me_updated_at : Z;
  me_access_count : N;
  me_source : option string;
  me_trust : TrustLevel;
  me_strength : N;
  me_active : bool;
  me_superseded_by : option string;
  me_reinforcements : list Reinforcement;
  me_embedding : option (list f32);
  me_embedding_model : option string;
  me_confidence : f32 }.

(** ** Field updates *)

Definition set_id (x : string) (e : MemoryEntry) : MemoryEntry :=
  mkEntry x (me_category e) (me_content e) (me_tags e) (me_search_text e) (me_created_at e)
    (me_updated_at e) (me_access_count e) (me_source e) (me_trust e) (me_strength e) (me_active e)
    (me_superseded_by e) (me_reinforcements e) (me_embedding e) (me_embedding_model e)
    (me_confidence e).

Definition set_category (x : MemoryCategory) (e : MemoryEntry) : MemoryEntry :=
  mkEntry (me_id e) x (me_content e) (me_tags e) (me_search_text e) (me_created_at e)
    (me_updated_at e) (me_access_count e) (me_source e) (me_trust e) (me_strength e) (me_active e)
    (me_superseded_by e) (me_reinforcements e) (me_embedding e) (me_embedding_model e)
    (me_confidence e).

Definition set_tags (x : list string) (e : MemoryEntry) : MemoryEntry :=
  mkEntry (me_id e) (me_category e) (me_content e) x (me_search_text e) (me_created_at e)
    (me_updated_at e) (me_access_count e) (me_source e) (me_trust e) (me_strength e) (me_active e)
    (me_superseded_by e) (me_reinforcements e) (me_embedding e) (me_embedding_model e)
    (me_confidence e).

Definition set_search_text (x : string) (e : MemoryEntry) : MemoryEntry :=
  mkEntry (me_id e) (me_category e) (me_content e) (me_tags e) x (me_created_at e)
    (me_updated_at e) (me_access_count e) (me_source e) (me_trust e) (me_strength e) (me_active e)
    (me_superseded_by e) (me_reinforcements e) (me_embedding e) (me_embedding_model e)
    (me_confidence e).

Definition set_created_at (x : Z) (e : MemoryEntry) : MemoryEntry :=
  mkEntry (me_id e) (me_category e) (me_content e) (me_tags e) (me_search_text e) x
    (me_updated_at e) (me_access_count e) (me_source e) (me_trust e) (me_strength e) (me_active e)
    (me_superseded_by e) (me_reinforcements e) (me_embedding e) (me_embedding_model e)
    (me_confidence e).

Definition set_updated_at (x : Z) (e : MemoryEntry) : MemoryEntry :=
  mkEntry (me_id e) (me_category e) (me_content e) (me_tags e) (me_search_text e)
    (me_created_at e) x (me_access_count e) (me_source e) (me_trust e) (me_strength e)
    (me_active e) (me_superseded_by e) (me_reinforcements e) (me_embedding e)
    (me_embedding_model e) (me_confidence e).

Definition set_access_count (x : N) (e : MemoryEntry) : MemoryEntry :=
  mkEntry (me_id e) (me_category e) (me_content e) (me_tags e) (me_search_text e)
    (me_created_at e) (me_updated_at e) x (me_source e) (me_trust e) (me_strength e) (me_active e)
    (me_superseded_by e) (me_reinforcements e) (me_embedding e) (me_embedding_model e)
    (me_confidence e).

Definition set_source (x : option string) (e : MemoryEntry) : MemoryEntry :=
  mkEntry (me_id e) (me_category e) (me_content e) (me_tags e) (me_search_text e)
    (me_created_at e) (me_updated_at e) (me_access_count e) x (me_trust e) (me_strength e)
    (me_active e) (me_superseded_by e) (me_reinforcements e) (me_embedding e)
    (me_embedding_model e) (me_confidence e).

Definition set_trust (x : TrustLevel) (e : MemoryEntry) : MemoryEntry :=
  mkEntry (me_id e) (me_category e) (me_content e) (me_tags e) (me_search_text e)
    (me_created_at e) (me_updated_at e) (me_access_count e) (me_source e) x (me_strength e)
    (me_active e) (me_superseded_by e) (me_reinforcements e) (me_embedding e)
    (me_embedding_model e) (me_confidence e).

Definition set_strength (x : N) (e : MemoryEntry) : MemoryEntry :=
  mkEntry (me_id e) (me_category e) (me_content e) (me_tags e) (me_search_text e)
    (me_created_at e) (me_updated_at e) (me_access_count e) (me_source e) (me_trust e) x
    (me_active e) (me_superseded_by e) (me_reinforcements e) (me_embedding e)
    (me_embedding_model e) (me_confidence e).

Definition set_active (x : bool) (e : MemoryEntry) : MemoryEntry :=
  mkEntry (me_id e) (me_category e) (me_content e) (me_tags e) (me_search_text e)
    (me_created_at e) (me_updated_at e) (me_access_count e) (me_source e) (me_trust e)
    (me_strength e) x (me_superseded_by e) (me_reinforcements e) (me_embedding e)
    (me_embedding_model e) (me_confidence e).

Definition set_superseded_by (x : option string) (e : MemoryEntry) : MemoryEntry :=
  mkEntry (me_id e) (me_category e) (me_content e) (me_tags e) (me_search_text e)
    (me_created_at e) (me_updated_at e) (me_access_count e) (me_source e) (me_trust e)
    (me_strength e) (me_active e) x (me_reinforcements e) (me_embedding e) (me_embedding_model e)
    (me_confidence e).

Definition set_reinforcements (x : list Reinforcement) (e : MemoryEntry) : MemoryEntry :=
  mkEntry (me_id e) (me_category e) (me_content e) (me_tags e) (me_search_text e)
    (me_created_at e) (me_updated_at e) (me_access_count e) (me_source e) (me_trust e)
    (me_strength e) (me_active e) (me_superseded_by e) x (me_embedding e) (me_embedding_model e)
    (me_confidence e).

Definition set_embedding (x : option (list f32)) (e : MemoryEntry) : MemoryEntry :=
  mkEntry (me_id e) (me_category e) (me_content e) (me_tags e) (me_search_text e)
    (me_created_at e) (me_updated_at e) (me_access_count e) (me_source e) (me_trust e)
    (me_strength e) (me_active e) (me_superseded_by e) (me_reinforcements e) x
    (me_embedding_model e) (me_confidence e).

Definition set_embedding_model (x : option string) (e : MemoryEntry) : MemoryEntry :=
  mkEntry (me_id e) (me_category e) (me_content e) (me_tags e) (me_search_text e)
    (me_created_at e) (me_updated_at e) (me_access_count e) (me_source e) (me_trust e)
    (me_strength e) (me_active e) (me_superseded_by e) (me_reinforcements e) (me_embedding e) x
    (me_confidence e).

Definition set_confidence (x : f32) (e : MemoryEntry) : MemoryEntry :=
  mkEntry (me_id e) (me_category e) (me_content e) (me_tags e) (me_search_text e)
    (me_created_at e) (me_updated_at e) (me_access_count e) (me_source e) (me_trust e)
    (me_strength e) (me_active e) (me_superseded_by e) (me_reinforcements e) (me_embedding e)
    (me_embedding_model e) x.

(** ** Categories *)

Definition category_display (c : MemoryCategory) : string :=
  match c with
  | Fact => "fact"
  | Preference => "preference"
  | Entity => "entity"
  | Correction => "correction"
  | Custom s => s
  end.

Definition category_from_str `{Lowercase} (s : string) : MemoryCategory :=
  let l := to_lowercase s in
  if bool_decide (l = "fact") then Fact
  else if bool_decide (l = "preference") then Preference
  else if bool_decide (l = "entity") then Entity
  else if bool_decide (l = "correction") then Correction
  else Custom l.

(** The category named in extraction output; unknown names are facts. *)
Definition from_extracted `{Lowercase} (s : string) : MemoryCategory :=
  let l := to_lowercase s in
  if bool_decide (l ∈ ["fact"; "facts"]) then Fact
  else if bool_decide (l ∈ ["preference"; "preferences"; "pref"]) then Preference
  else if bool_decide (l ∈ ["correction"; "corrections"; "fix"; "bug"]) then Correction
  else if bool_decide (l ∈ ["entity"; "entities"]) then Entity
  else Fact.

Inductive MemoryScope := Project | Global | All.

Definition includes_project (s : MemoryScope) : bool := match s with Project | All => true | Global => false end.
Definition includes_global (s : MemoryScope) : bool := match s with Global | All => true | Project => false end.

(** ** Search text *)

Definition is_separator (c : string) : bool :=
  is_whitespace c || bool_decide (c ∈ ["-"; "_"; "/"; "\"; "."; ":"]).

(** [for ch in lowered.chars() { .. }], with [last_was_space]. *)
Fixpoint normalize_loop (last_was_space : bool) (cs : list string) : list string :=
  match cs with
  | [] => []
  | c :: cs' =>
      if is_separator c
      then if last_was_space then normalize_loop true cs' else " " :: normalize_loop true cs'
      else c :: normalize_loop false cs'
  end.

Definition normalize_search_text `{Lowercase} (text : string) : string :=
  trim_end (str_concat (normalize_loop true (chars (to_lowercase (trim text))))).

Definition normalize_memory_search_text `{Lowercase} (content : string) (tags : list string) : string :=
  let normalized_content := normalize_search_text content in
  let normalized_tags := List.filter (λ t, negb (str_is_empty t)) (map normalize_search_text tags) in
  if bool_decide (normalized_tags = []) then normalized_content
  else if str_is_empty normalized_content then String.concat " " normalized_tags
  else normalized_content +:+ " " +:+ String.concat " " normalized_tags.

(** ** Entry operations *)

Definition LEGACY_EMBEDDING_MODEL : string := "minilm-l6-v2".

Definition effective_embedding_model (e : MemoryEntry) : string :=
  default LEGACY_EMBEDDING_MODEL (me_embedding_model e).

Definition embedding_matches_model (model : string) (e : MemoryEntry) : bool :=
  bool_decide (is_Some (me_embedding e)) && bool_decide (effective_embedding_model e = model).

(** [MemoryEntry::new]; [id] is the generated identifier, [now] the clock. *)
Definition entry_new `{Lowercase} (id : string) (now : Z) (c : MemoryCategory) (content : string) : MemoryEntry :=
  mkEntry id c content [] (normalize_memory_search_text content []) now now 0%N None TrustMedium 1%N true
    None [] None None F32.one.

Definition refresh_search_text `{Lowercase} (e : MemoryEntry) : MemoryEntry :=
  set_search_text (normalize_memory_search_text (me_content e) (me_tags e)) e.

Definition searchable_text `{Lowercase} (e : MemoryEntry) : string :=
  if str_is_empty (me_search_text e) then normalize_memory_search_text (me_content e) (me_tags e)
  else me_search_text e.

Definition boost_confidence (now : Z) (amount : f32) (e : MemoryEntry) : MemoryEntry :=
  set_updated_at now
    (set_access_count (u32_succ (me_access_count e))
       (set_confidence (F32.min (F32.add (me_confidence e) amount) F32.one) e)).

Definition decay_confidence (amount : f32) (e : MemoryEntry) : MemoryEntry :=
  set_confidence (F32.max (F32.sub (me_confidence e) amount) F32.zero) e.

Definition with_tags `{Lowercase} (tags : list string) (e : MemoryEntry) : MemoryEntry :=
  refresh_search_text (set_tags tags e).
Definition with_source (s : string) (e : MemoryEntry) : MemoryEntry := set_source (Some s) e.
Definition with_trust (t : TrustLevel) (e : MemoryEntry) : MemoryEntry := set_trust t e.
Definition with_id (id : string) (e : MemoryEntry) : MemoryEntry := set_id id e.
Definition with_timestamps (created updated : Z) (e : MemoryEntry) : MemoryEntry :=
  set_updated_at updated (set_created_at created e).

Definition touch (now : Z) (e : MemoryEntry) : MemoryEntry :=
  set_access_count (u32_succ (me_access_count e)) (set_updated_at now e).

(** The clock is read twice. *)
Definition reinforce (now now' : Z) (session_id : string) (message_index : nat) (e : MemoryEntry) : MemoryEntry :=
  set_reinforcements (me_reinforcements e ++ [mkReinforcement session_id message_index now'])
    (set_updated_at now (set_strength (u32_succ (me_strength e)) e)).

Definition entry_supersede (new_id : string) (e : MemoryEntry) : MemoryEntry :=
  set_superseded_by (Some new_id) (set_active false e).

Definition with_embedding (v : list f32) (e : MemoryEntry) : MemoryEntry := set_embedding (Some v) e.
Definition with_embedding_for_model (v : list f32) (model : string) (e : MemoryEntry) : MemoryEntry :=
  set_embedding_model (Some model) (set_embedding (Some v) e).
Definition entry_set_embedding (v : option (list f32)) (model : option string) (e : MemoryEntry) : MemoryEntry :=
  set_embedding_model model (set_embedding v e).
Definition has_embedding (e : MemoryEntry) : bool := bool_decide (is_Some (me_embedding e)).

Definition memory_matches_search `{Lowercase} (e : MemoryEntry) (normalized_query : string) : bool :=
  str_contains normalized_query (searchable_text e).

(** ** The flat store *)

Record MemoryStore := mkStore { ms_entries : list MemoryEntry; ms_metadata : gmap string string }.

Definition store_new : MemoryStore := mkStore [] ∅.

Definition store_add (e : MemoryEntry) (st : MemoryStore) : string * MemoryStore :=
  (me_id e, mkStore (ms_entries st ++ [e]) (ms_metadata st)).

Definition by_category (c : MemoryCategory) (st : MemoryStore) : list MemoryEntry :=
  List.filter (λ e, bool_decide (me_category e = c)) (ms_entries st).

Definition store_search `{Lowercase} (query : string) (st : MemoryStore) : list MemoryEntry :=
  let query_lower := normalize_search_text query in
  if str_is_empty query_lower then []
  else List.filter (λ e, memory_matches_search e query_lower) (ms_entries st).

Definition store_get (id : string) (st : MemoryStore) : option MemoryEntry :=
  find_first (λ e, bool_decide (me_id e = id)) (ms_entries st).

(** [Vec::remove] at the first position with the id. *)
Fixpoint remove_first {A} (p : A → bool) (l : list A) : option (A * list A) :=
  match l with
  | [] => None
  | x :: l' =>
      if p x then Some (x, l')
      else match remove_first p l' with Some (y, r) => Some (y, x :: r) | None => None end
  end.

Definition store_remove (id : string) (st : MemoryStore) : option MemoryEntry * MemoryStore :=
  match remove_first (λ e, bool_decide (me_id e = id)) (ms_entries st) with
  | Some (e, rest) => (Some e, mkStore rest (ms_metadata st))
  | None => (None, st)
  end.

(** ** Prompt formatting *)

Definition dedupe_key `{Lowercase} (e : MemoryEntry) : string :=
  to_lowercase (collapse_whitespace (me_content e)).

(** [for entry in entries.iter().filter(|e| e.active) { .. }]: [room] is what
    is left of the limit, [seen] is [seen_content]. *)
Fixpoint select_loop `{Lowercase} (room : nat) (seen : list string) (entries : list MemoryEntry)
  : list MemoryEntry :=
  match entries with
  | [] => []
  | e :: entries' =>
      match room with
      | O => []
      | S room' =>
          let key := dedupe_key e in
          if str_is_empty key || bool_decide (key ∈ seen) then select_loop room seen entries'
          else e :: select_loop room' (key :: seen) entries'
      end
  end.

Definition selected_entries_for_prompt `{Lowercase} (entries : list MemoryEntry) (limit : nat) : list MemoryEntry :=
  select_loop limit [] (List.filter me_active entries).

Section Prompt.
(** [DateTime::to_rfc3339] (chrono). *)
Context (to_rfc3339 : Z → string).

Fixpoint numbered_items (with_comments : bool) (idx : N) (items : list MemoryEntry) : string :=
  match items with
  | [] => ""
  | e :: items' =>
      pretty idx +:+ ". " +:+ trim (me_content e) +:+ newline
      +:+ (if with_comments then "<!-- updated_at: " +:+ to_rfc3339 (me_updated_at e) +:+ " -->" +:+ newline
           else "")
      +:+ numbered_items with_comments (idx + 1)%N items'
  end.

(** The closure [write_section]. *)
Definition write_section (with_comments : bool) (output title : string) (items : list MemoryEntry) : string :=
  (if str_is_empty output then output else output +:+ newline)
  +:+ "## " +:+ title +:+ newline +:+ numbered_items with_comments 1 items.

Definition standard_sections : list (MemoryCategory * string) :=
  [(Correction, "Corrections"); (Fact, "Facts"); (Preference, "Preferences"); (Entity, "Entities")].

Definition custom_names (entries : list MemoryEntry) : list string :=
  btree_set (omap (λ e, match me_category e with Custom n => Some n | _ => None end) entries).

Definition in_category (c : MemoryCategory) (entries : list MemoryEntry) : list MemoryEntry :=
  List.filter (λ e, bool_decide (me_category e = c)) entries.

Definition add_section (with_comments : bool) (entries : list MemoryEntry) (output : string)
    (s : MemoryCategory * string) : string :=
  match in_category s.1 entries with
  | [] => output
  | items => write_section with_comments output s.2 items
  end.

Definition format_entries_for_prompt_with_header `{Lowercase} (entries : list MemoryEntry) (limit : nat)
    (include_header include_updated_at_comments : bool) : option string :=
  match selected_entries_for_prompt entries limit with
  | [] => None
  | selected =>
      let sections := standard_sections ++ map (λ n, (Custom n, n)) (custom_names selected) in
      let output := foldl (add_section include_updated_at_comments selected) "" sections in
      if str_is_empty output then None
      else if include_header then Some ("# Memory" +:+ newline +:+ newline +:+ trim output)
      else Some (trim output)
  end.

Definition format_entries_for_prompt `{Lowercase} (entries : list MemoryEntry) (limit : nat) : option string :=
  format_entries_for_prompt_with_header entries limit false false.

Definition format_relevant_prompt `{Lowercase} (entries : list MemoryEntry) (limit : nat) : option string :=
  (λ f, "# Memory" +:+ newline +:+ newline +:+ f) <$> format_entries_for_prompt entries limit.

Definition format_relevant_display_prompt `{Lowercase} (entries : list MemoryEntry) (limit : nat) : option string :=
  format_entries_for_prompt_with_header entries limit true true.
End Prompt.

(** ** Skill memories *)

Definition is_skill_memory (e : MemoryEntry) : bool :=
  starts_with "skill:" (me_id e) || bool_decide (me_source e = Some "skill_registry")
  || match me_category e with
     | Custom name => bool_decide (to_ascii_lowercase name = "skills")
     | _ => false
     end.

Definition STOPWORDS : list string :=
  ["about"; "after"; "before"; "could"; "from"; "have"; "just"; "make"; "ready"; "should";
   "start"; "that"; "their"; "there"; "they"; "this"; "what"; "when"; "where"; "which";
   "while"; "will"; "with"; "work"; "would"; "your"].

Definition collect_skill_query_terms `{Lowercase} (query_text : string) : gset string :=
  list_to_set (List.filter (λ t, negb (bool_decide (t ∈ STOPWORDS)))
    (List.filter (λ t, 4 <=? String.length t) (split_whitespace (normalize_search_text query_text)))).

Definition skill_retrieval_bonus `{Lowercase} (e : MemoryEntry) (query_terms : gset string) : f32 :=
  if negb (is_skill_memory e) || bool_decide (query_terms = ∅) then F32.zero
  else
    match size (filter (λ t, str_contains t (searchable_text e) = true) query_terms) with
    | 0 | 1 => F32.zero
    | 2 => F32.of_decimal 8 2
    | 3 => F32.of_decimal 14 2
    | _ => F32.of_decimal 20 2
    end.
