(* ===== verification/MemoryGraph.v ===== *)
(** * The memory graph

    crates/jcode-memory-types/src/graph.rs: memories, tags and clusters joined
    by typed edges, with a reverse index, tag counters, cascade retrieval and
    the migration from the flat store.  Hash maps are [gmap]s; the clock and
    the iteration order of a hash map are arguments where the code reads them. *)

From Stdlib Require Import Floats.SpecFloat.
From stdpp Require Import base list strings gmap sorting.
From S2P Require Import Prelude RustString Float32 TopK Memory.

Open Scope string_scope.
Open Scope nat_scope.
Open Scope list_scope.

Definition GRAPH_VERSION : N := 2.

(** ** Data *)

Inductive EdgeKind :=
| HasTag
| InCluster
| RelatesTo (weight : f32)
| Supersedes
| Contradicts
| DerivedFrom.

(** The derived [PartialEq]: weights compare as [f32]. *)
Definition edge_kind_eqb (a b : EdgeKind) : bool :=
  match a, b with
  | HasTag, HasTag | InCluster, InCluster | Supersedes, Supersedes
  | Contradicts, Contradicts | DerivedFrom, DerivedFrom => true
  | RelatesTo v, RelatesTo w => SFeqb v w
  | _, _ => false
  end.

Definition is_has_tag (k : EdgeKind) : bool := match k with HasTag => true | _ => false end.

Definition traversal_weight (k : EdgeKind) : f32 :=
  match k with
  | HasTag => F32.of_decimal 8 1
  | InCluster => F32.of_decimal 6 1
  | RelatesTo weight => weight
  | Supersedes => F32.of_decimal 9 1
  | Contradicts => F32.of_decimal 3 1
  | DerivedFrom => F32.of_decimal 7 1
  end.

Record Edge := mkEdge { ed_target : string; ed_kind : EdgeKind }.

Record TagEntry := mkTag {
  tg_id : string;
  tg_name : string;
  tg_description : option string;
  tg_count : N;
  tg_created_at : Z }.

Definition tag_id (name : string) : string := "tag:" +:+ name.

Definition tag_new (now : Z) (name : string) : TagEntry := mkTag (tag_id name) name None 0 now.

Definition with_description (desc : string) (t : TagEntry) : TagEntry :=
  mkTag (tg_id t) (tg_name t) (Some desc) (tg_count t) (tg_created_at t).

Definition set_count (n : N) (t : TagEntry) : TagEntry :=
  mkTag (tg_id t) (tg_name t) (tg_description t) n (tg_created_at t).

Record ClusterEntry := mkCluster {
  cl_id : string;
  cl_name : option string;
  cl_centroid : list f32;
  cl_member_count : N;
  cl_created_at : Z;
  cl_updated_at : Z }.

Definition cluster_new (now : Z) (id : string) : ClusterEntry :=
  mkCluster ("cluster:" +:+ id) None [] 0 now now.

Record GraphMetadata := mkMetadata {
  gm_last_cluster_update : option Z;
  gm_retrieval_count : N;
  gm_link_discovery_count : N }.

Record MemoryGraph := mkGraph {
  mg_version : N;
  mg_memories : gmap string MemoryEntry;
  mg_tags : gmap string TagEntry;
  mg_clusters : gmap string ClusterEntry;
  mg_edges : gmap string (list Edge);
  mg_reverse : gmap string (list string);
  mg_metadata : GraphMetadata }.

Definition mem_graph_new : MemoryGraph := mkGraph GRAPH_VERSION ∅ ∅ ∅ ∅ ∅ (mkMetadata None 0 0).

(** Field updates. *)
Definition set_memories (m : gmap string MemoryEntry) (g : MemoryGraph) : MemoryGraph :=
  mkGraph (mg_version g) m (mg_tags g) (mg_clusters g) (mg_edges g) (mg_reverse g) (mg_metadata g).
Definition set_graph_tags (t : gmap string TagEntry) (g : MemoryGraph) : MemoryGraph :=
  mkGraph (mg_version g) (mg_memories g) t (mg_clusters g) (mg_edges g) (mg_reverse g) (mg_metadata g).
Definition set_edges (e : gmap string (list Edge)) (r : gmap string (list string)) (g : MemoryGraph) : MemoryGraph :=
  mkGraph (mg_version g) (mg_memories g) (mg_tags g) (mg_clusters g) e r (mg_metadata g).
Definition set_metadata (m : GraphMetadata) (g : MemoryGraph) : MemoryGraph :=
  mkGraph (mg_version g) (mg_memories g) (mg_tags g) (mg_clusters g) (mg_edges g) (mg_reverse g) m.

(** ** Queries *)

Definition memory_count (g : MemoryGraph) : nat := size (mg_memories g).
Definition get_memory (id : string) (g : MemoryGraph) : option MemoryEntry := mg_memories g !! id.
Definition get_edges (id : string) (g : MemoryGraph) : list Edge := default [] (mg_edges g !! id).
Definition get_incoming (id : string) (g : MemoryGraph) : list string := default [] (mg_reverse g !! id).

Definition get_memories_by_tag (name : string) (g : MemoryGraph) : list MemoryEntry :=
  omap (λ id, mg_memories g !! id) (get_incoming (tag_id name) g).

Definition node_count (g : MemoryGraph) : nat :=
  size (mg_memories g) + size (mg_tags g) + size (mg_clusters g).
Definition edge_count (g : MemoryGraph) : nat := map_fold (λ _ es n, length es + n) 0 (mg_edges g).
Definition is_migrated (g : MemoryGraph) : bool := (mg_version g =? GRAPH_VERSION)%N.

(** ** Edges *)

Definition add_edge_internal (from to : string) (kind : EdgeKind) (g : MemoryGraph) : MemoryGraph :=
  set_edges (<[from := get_edges from g ++ [mkEdge to kind]]> (mg_edges g))
    (<[to := get_incoming to g ++ [from]]> (mg_reverse g)) g.

Definition add_edge (from to : string) (kind : EdgeKind) (g : MemoryGraph) : MemoryGraph :=
  if existsb (λ e, bool_decide (ed_target e = to) && edge_kind_eqb (ed_kind e) kind) (get_edges from g)
  then g else add_edge_internal from to kind g.

(** [if let Some(v) = map.get_mut(key) { v.retain(p) }]. *)
Definition retain_at {A} (p : A → bool) (key : string) (m : gmap string (list A)) : gmap string (list A) :=
  alter (List.filter p) key m.

Definition remove_edge (from to : string) (kind : EdgeKind) (g : MemoryGraph) : MemoryGraph :=
  set_edges
    (retain_at (λ e, negb (bool_decide (ed_target e = to) && edge_kind_eqb (ed_kind e) kind)) from (mg_edges g))
    (retain_at (λ s, negb (bool_decide (s = from))) to (mg_reverse g)) g.

Definition link_memories (from to : string) (weight : f32) (g : MemoryGraph) : MemoryGraph :=
  let g := add_edge from to (RelatesTo weight) g in
  let m := mg_metadata g in
  set_metadata (mkMetadata (gm_last_cluster_update m) (gm_retrieval_count m)
                  (u64_succ (gm_link_discovery_count m))) g.

Definition supersede (newer_id older_id : string) (g : MemoryGraph) : MemoryGraph :=
  let g := add_edge newer_id older_id Supersedes g in
  set_memories (alter (λ m, set_superseded_by (Some newer_id) (set_active false m)) older_id (mg_memories g)) g.

Definition mark_contradiction (id_a id_b : string) (g : MemoryGraph) : MemoryGraph :=
  add_edge id_b id_a Contradicts (add_edge id_a id_b Contradicts g).

(** ** Tags *)

Definition ensure_tag (now : Z) (name : string) (g : MemoryGraph) : MemoryGraph :=
  match mg_tags g !! tag_id name with
  | Some _ => g
  | None => set_graph_tags (<[tag_id name := tag_new now name]> (mg_tags g)) g
  end.

(** [if let Some(tag) = self.tags.get_mut(id) { tag.count += 1 }]. *)
Definition count_up (id : string) (g : MemoryGraph) : MemoryGraph :=
  set_graph_tags (alter (λ t, set_count (u32_succ (tg_count t)) t) id (mg_tags g)) g.

(** [tag.count = tag.count.saturating_sub(1)]. *)
Definition count_down (id : string) (g : MemoryGraph) : MemoryGraph :=
  set_graph_tags (alter (λ t, set_count (tg_count t - 1)%N t) id (mg_tags g)) g.

Definition tag_memory `{Lowercase} (now : Z) (memory_id tag_name : string) (g : MemoryGraph) : MemoryGraph :=
  let g := ensure_tag now tag_name g in
  let tid := tag_id tag_name in
  if existsb (λ e, bool_decide (ed_target e = tid) && is_has_tag (ed_kind e)) (get_edges memory_id g) then g
  else
    let g := count_up tid (add_edge_internal memory_id tid HasTag g) in
    set_memories
      (alter (λ m, if bool_decide (tag_name ∈ me_tags m) then m
                   else refresh_search_text (set_tags (me_tags m ++ [tag_name]) m)) memory_id (mg_memories g)) g.

Definition untag_memory `{Lowercase} (memory_id tag_name : string) (g : MemoryGraph) : MemoryGraph :=
  let tid := tag_id tag_name in
  let g := set_edges
    (retain_at (λ e, negb (bool_decide (ed_target e = tid) && is_has_tag (ed_kind e))) memory_id (mg_edges g))
    (retain_at (λ s, negb (bool_decide (s = memory_id))) tid (mg_reverse g)) g in
  let g := count_down tid g in
  set_memories
    (alter (λ m, refresh_search_text
                   (set_tags (List.filter (λ t, negb (bool_decide (t = tag_name))) (me_tags m)) m))
       memory_id (mg_memories g)) g.

(** ** Memories *)

(** One iteration of the tag loop of [add_memory] and of the migration. *)
Definition attach_tag (now : Z) (id : string) (g : MemoryGraph) (tag_name : string) : MemoryGraph :=
  count_up (tag_id tag_name) (add_edge_internal id (tag_id tag_name) HasTag (ensure_tag now tag_name g)).

Definition add_memory `{Lowercase} (now : Z) (entry : MemoryEntry) (g : MemoryGraph) : string * MemoryGraph :=
  let entry := refresh_search_text entry in
  let id := me_id entry in
  let g := foldl (attach_tag now id) g (me_tags entry) in
  let g := match me_superseded_by entry with
           | Some newer => add_edge_internal newer id Supersedes g
           | None => g
           end in
  (id, set_memories (<[id := entry]> (mg_memories g)) g).

(** One outgoing edge of a removed memory: the reverse entry and the counter. *)
Definition detach_edge (id : string) (g : MemoryGraph) (e : Edge) : MemoryGraph :=
  let g := set_edges (mg_edges g) (retain_at (λ s, negb (bool_decide (s = id))) (ed_target e) (mg_reverse g)) g in
  if is_has_tag (ed_kind e) then count_down (ed_target e) g else g.

(** One source of the reverse entry of a removed memory. *)
Definition detach_source (id : string) (g : MemoryGraph) (source : string) : MemoryGraph :=
  set_edges (retain_at (λ e, negb (bool_decide (ed_target e = id))) source (mg_edges g)) (mg_reverse g) g.

Definition remove_memory (id : string) (g : MemoryGraph) : option MemoryEntry * MemoryGraph :=
  let g := match mg_edges g !! id with
           | Some es => foldl (detach_edge id) (set_edges (delete id (mg_edges g)) (mg_reverse g) g) es
           | None => g
           end in
  let g := match mg_reverse g !! id with
           | Some sources =>
               foldl (detach_source id) (set_edges (mg_edges g) (delete id (mg_reverse g)) g) sources
           | None => g
           end in
  (mg_memories g !! id, set_memories (delete id (mg_memories g)) g).

(** One entry of a legacy store; its search text is taken as stored. *)
Definition legacy_step (now : Z) (g : MemoryGraph) (entry : MemoryEntry) : MemoryGraph :=
  let g := set_memories (<[me_id entry := entry]> (mg_memories g)) g in
  let g := foldl (attach_tag now (me_id entry)) g (me_tags entry) in
  match me_superseded_by entry with
  | Some newer => add_edge_internal newer (me_id entry) Supersedes g
  | None => g
  end.

Definition from_legacy_store (now : Z) (store : MemoryStore) : MemoryGraph :=
  foldl (legacy_step now) mem_graph_new (ms_entries store).

(** ** Cascade retrieval *)

Section Cascade.
(** [0.7_f32.powi(depth as i32 + 1)], whose precision is left open by the
    standard library, and the iteration order of a [HashMap<String, f32>]. *)
Context (decay : nat → f32) (iter : gmap string f32 → list (string * f32)).

Record Frontier := mkFrontier {
  fr_results : gmap string f32;
  fr_queue : list (string * f32 * nat) }.

(** [results.get(id).unwrap_or(0.0)], and the update when the score improves. *)
Definition offer (id : string) (new_score : f32) (depth : nat) (f : Frontier) : Frontier :=
  let existing := default F32.zero (fr_results f !! id) in
  if F32.gtb new_score existing
  then mkFrontier (<[id := new_score]> (fr_results f)) (fr_queue f ++ [(id, new_score, S depth)])
  else f.

Definition is_memory (g : MemoryGraph) (id : string) : bool := bool_decide (is_Some (mg_memories g !! id)).

(** One edge of the node being expanded. *)
Definition follow_edge (g : MemoryGraph) (visited : gset string) (score : f32) (depth : nat)
    (f : Frontier) (e : Edge) : Frontier :=
  let target := ed_target e in
  if bool_decide (target ∈ visited) then f
  else
    let new_score := F32.mul (F32.mul score (traversal_weight (ed_kind e))) (decay depth) in
    if starts_with "tag:" target then
      foldl (λ f source_id,
               if negb (bool_decide (source_id ∈ visited)) && is_memory g source_id
               then offer source_id new_score depth f else f) f (get_incoming target g)
    else if is_memory g target then offer target new_score depth f
    else f.

(** [while let Some((node_id, score, depth)) = queue.pop_front() { .. }]. *)
Fixpoint cascade_loop (fuel : nat) (g : MemoryGraph) (max_depth : nat) (visited : gset string) (f : Frontier)
  : option (gmap string f32) :=
  match fr_queue f with
  | [] => Some (fr_results f)
  | (node_id, score, depth) :: rest =>
      match fuel with
      | O => None
      | S fuel' =>
          let f := mkFrontier (fr_results f) rest in
          if bool_decide (node_id ∈ visited) then cascade_loop fuel' g max_depth visited f
          else
            let visited := {[node_id]} ∪ visited in
            if max_depth <=? depth then cascade_loop fuel' g max_depth visited f
            else cascade_loop fuel' g max_depth visited
                   (foldl (follow_edge g visited score depth) f (get_edges node_id g))
      end
  end.

Definition seed_frontier (g : MemoryGraph) (seeds : list (string * f32)) : Frontier :=
  foldl (λ f s, if is_memory g s.1
                then mkFrontier (<[s.1 := s.2]> (fr_results f)) (fr_queue f ++ [(s.1, s.2, 0)])
                else f) (mkFrontier ∅ []) seeds.

(** The queue entries a node can cause: one per memory of each tag it has, one
    per other edge. *)
Definition fan_out (g : MemoryGraph) (id : string) : nat :=
  sum_list_with (λ e, if starts_with "tag:" (ed_target e) then length (get_incoming (ed_target e) g) else 1)
    (get_edges id g).

Definition cascade_fuel (g : MemoryGraph) (seeds : list (string * f32)) : nat :=
  length seeds + sum_list_with (fan_out g) (elements (dom (mg_memories g))).

Definition count_retrieval (g : MemoryGraph) : MemoryGraph :=
  let m := mg_metadata g in
  set_metadata (mkMetadata (gm_last_cluster_update m) (u64_succ (gm_retrieval_count m))
                  (gm_link_discovery_count m)) g.

(** [None] when the fuel runs out, which [cascade_retrieval] excludes. *)
Definition cascade_retrieve (seed_ids : list string) (seed_scores : list f32) (max_depth max_results : nat)
    (g : MemoryGraph) : option (list (string * f32)) * MemoryGraph :=
  let g := count_retrieval g in
  let seeds := zip seed_ids seed_scores in
  ((λ results, top_k_scored (iter results) max_results)
     <$> cascade_loop (cascade_fuel g seeds) g max_depth ∅ (seed_frontier g seeds), g).
End Cascade.
