(* ===== verification/MemoryInv.v ===== *)
(** * Index invariant of the memory graph

    The reverse index, the tag counters and the tag lists of the memories all
    describe the same set of edges.  [indexed] states that for a given
    assignment of tags to memories; each operation of MemoryGraph.v is shown to
    keep it while changing that assignment the way its caller means. *)

From Stdlib Require Import Floats.SpecFloat.
From stdpp Require Import base list strings gmap fin_maps.
From S2P Require Import Prelude RustString Float32 TopK Memory MemoryGraph.

Open Scope string_scope.
Open Scope nat_scope.
Open Scope list_scope.

(** ** Counting *)

(** Occurrences of a source in a reverse entry, edges to a target in a list. *)
Definition times (s : string) (l : list string) : nat := length (List.filter (λ x, bool_decide (x = s)) l).
Definition links (t : string) (es : list Edge) : nat :=
  length (List.filter (λ e, bool_decide (ed_target e = t)) es).

Lemma times_app s l1 l2 : times s (l1 ++ l2) = times s l1 + times s l2.
Proof. unfold times. by rewrite List.filter_app, length_app. Qed.

Lemma links_app t l1 l2 : links t (l1 ++ l2) = links t l1 + links t l2.
Proof. unfold links. by rewrite List.filter_app, length_app. Qed.

Lemma times_cons s x l : times s (x :: l) = (if decide (x = s) then 1 else 0) + times s l.
Proof. unfold times. simpl. case_bool_decide; case_decide; done. Qed.

Lemma links_cons t e l : links t (e :: l) = (if decide (ed_target e = t) then 1 else 0) + links t l.
Proof. unfold links. simpl. case_bool_decide; case_decide; done. Qed.

Lemma times_pos s l : s ∈ l ↔ times s l ≠ 0.
Proof.
  induction l as [|x l IH]; [split; [by intros ?%elem_of_nil|by intros []]|].
  rewrite elem_of_cons, times_cons, IH. case_decide; subst; simpl; [|naive_solver].
  split; [done|by left].
Qed.

Lemma links_pos t es : (∃ e, e ∈ es ∧ ed_target e = t) ↔ links t es ≠ 0.
Proof.
  induction es as [|x l IH]; [split; [by intros (? & ?%elem_of_nil & _)|by intros []]|].
  rewrite links_cons. setoid_rewrite elem_of_cons. case_decide as Hx.
  - split; [done|]. intros _. exists x. auto.
  - simpl. rewrite <- IH. naive_solver.
Qed.

Lemma times_NoDup s l : NoDup l → times s l = if decide (s ∈ l) then 1 else 0.
Proof.
  induction 1 as [|x l Hx _ IH]; [by rewrite decide_False by apply not_elem_of_nil|].
  rewrite times_cons, IH. destruct (decide (x = s)) as [->|Hne].
  - by rewrite (decide_False (P := s ∈ l)), (decide_True (P := s ∈ s :: l)) by set_solver.
  - apply decide_ext. set_solver.
Qed.

Lemma times_without s x l :
  times s (List.filter (λ y, negb (bool_decide (y = x))) l) = if decide (s = x) then 0 else times s l.
Proof.
  induction l as [|y l IH]; simpl; [by case_decide|].
  case_bool_decide; simpl; rewrite ?times_cons, IH; repeat case_decide; simplify_eq; done.
Qed.

(** Dropping the edges to [t'], possibly told apart by a further test that
    every edge to [t'] passes. *)
Lemma links_without t t' (p : Edge → bool) es :
  (∀ e, e ∈ es → ed_target e = t' → p e = true) →
  links t (List.filter (λ e, negb (bool_decide (ed_target e = t') && p e)) es)
  = if decide (t = t') then 0 else links t es.
Proof.
  induction es as [|e es IH]; intros Hp; simpl; [by case_decide|].
  assert (IH' := IH ltac:(intros e' He'; apply Hp; by right)). clear IH.
  case_bool_decide as He; simpl.
  - rewrite (Hp e ltac:(left) He). simpl. rewrite IH', links_cons. repeat case_decide; simplify_eq; done.
  - rewrite !links_cons, IH'. repeat case_decide; simplify_eq; done.
Qed.

(** ** Reading an updated graph *)

Lemma get_edges_add f t k g s :
  get_edges s (add_edge_internal f t k g)
  = if decide (s = f) then get_edges s g ++ [mkEdge t k] else get_edges s g.
Proof.
  unfold get_edges, add_edge_internal, set_edges. simpl. case_decide.
  - subst. by rewrite lookup_insert_eq.
  - by rewrite lookup_insert_ne.
Qed.

Lemma get_incoming_add f t k g x :
  get_incoming x (add_edge_internal f t k g)
  = if decide (x = t) then get_incoming x g ++ [f] else get_incoming x g.
Proof.
  unfold get_incoming, add_edge_internal, set_edges. simpl. case_decide.
  - subst. by rewrite lookup_insert_eq.
  - by rewrite lookup_insert_ne.
Qed.

Lemma retain_at_get {A} (p : A → bool) key (m : gmap string (list A)) x :
  default [] (retain_at p key m !! x)
  = if decide (x = key) then List.filter p (default [] (m !! x)) else default [] (m !! x).
Proof.
  unfold retain_at. case_decide.
  - subst. rewrite lookup_alter_eq. by destruct (m !! key).
  - by rewrite lookup_alter_ne.
Qed.

Lemma tag_id_inj : Inj (=) (=) tag_id.
Proof. intros a b. unfold tag_id. apply append_inj_l_s. Qed.

Lemma tag_id_prefix name : starts_with "tag:" (tag_id name) = true.
Proof. apply starts_with_spec. by exists name. Qed.

Lemma not_tag_id x name : starts_with "tag:" x = false → x ≠ tag_id name.
Proof. intros H ->. by rewrite tag_id_prefix in H. Qed.

(** ** The invariant *)

Record indexed (T : gmap string (list string)) (g : MemoryGraph) : Prop := {
  ix_reverse : ∀ s t, times s (get_incoming t g) = links t (get_edges s g);
  ix_kind : ∀ s e, e ∈ get_edges s g → is_has_tag (ed_kind e) = starts_with "tag:" (ed_target e);
  ix_count : ∀ name,
    match mg_tags g !! tag_id name with
    | Some t => tg_count t = N.of_nat (length (get_incoming (tag_id name) g))
    | None => get_incoming (tag_id name) g = []
    end;
  ix_nodup : ∀ name, NoDup (get_incoming (tag_id name) g);
  ix_tags : ∀ id name, id ∈ get_incoming (tag_id name) g ↔ ∃ ts, T !! id = Some ts ∧ name ∈ ts;
  ix_size : (N.of_nat (size T) < 2 ^ 32)%N }.

(** What the caller of the graph sees: tags as recorded in the memories. *)
Definition tags_of (g : MemoryGraph) : gmap string (list string) := me_tags <$> mg_memories g.

Lemma ix_source_edge T g s t : indexed T g → s ∈ get_incoming t g ↔ ∃ e, e ∈ get_edges s g ∧ ed_target e = t.
Proof. intros H. by rewrite times_pos, (ix_reverse _ _ H), links_pos. Qed.

(** Distinct keys are at most as many as the map has. *)
Lemma keys_size {A} (T : gmap string A) l : NoDup l → (∀ x, x ∈ l → is_Some (T !! x)) → length l ≤ size T.
Proof.
  intros Hl Hd. rewrite <- (size_dom T), <- (size_list_to_set (C := gset string) l) by done.
  apply subseteq_size. intros x. rewrite elem_of_list_to_set, elem_of_dom. apply Hd.
Qed.

(** A memory without a tag leaves room for it in the tag's counter. *)
Lemma ix_count_room T g id name :
  indexed T g → is_Some (T !! id) → id ∉ get_incoming (tag_id name) g →
  (N.of_nat (S (length (get_incoming (tag_id name) g))) < 2 ^ 32)%N.
Proof.
  intros H Hid Hn. pose proof (ix_size _ _ H).
  assert (length (id :: get_incoming (tag_id name) g) ≤ size T); [|simpl in *; lia].
  apply keys_size; [by constructor; [|apply (ix_nodup _ _ H)]|]. intros x [->|Hx]%elem_of_cons; [done|].
  apply (ix_tags _ _ H) in Hx as (ts & Hx & _). by eexists.
Qed.

(** Only the edges and tags of a graph matter. *)
Lemma indexed_ext T g g' :
  mg_edges g' = mg_edges g → mg_reverse g' = mg_reverse g → mg_tags g' = mg_tags g →
  indexed T g → indexed T g'.
Proof.
  intros He Hr Ht [H1 H2 H3 H4 H5 H6]. unfold get_edges, get_incoming in *.
  split; unfold get_edges, get_incoming; rewrite ?He, ?Hr, ?Ht; auto.
Qed.

Lemma indexed_new : indexed ∅ mem_graph_new.
Proof.
  split; try reflexivity; unfold get_edges, get_incoming; simpl; intros.
  - match goal with H : _ ∈ default [] _ |- _ => by apply elem_of_nil in H end.
  - constructor.
  - split; [by intros ?%elem_of_nil|by intros (? & ? & _)].
Qed.

(** ** Adding edges *)

Lemma reverse_add g f t k :
  (∀ s x, times s (get_incoming x g) = links x (get_edges s g)) →
  ∀ s x, times s (get_incoming x (add_edge_internal f t k g)) = links x (get_edges s (add_edge_internal f t k g)).
Proof.
  intros H s x. rewrite get_incoming_add, get_edges_add.
  repeat case_decide; subst; rewrite ?times_app, ?links_app, ?times_cons, ?links_cons, ?H; simpl;
    repeat case_decide; simplify_eq; rewrite ?H; simpl; try lia; done.
Qed.

Lemma kind_add g f t k :
  (∀ s e, e ∈ get_edges s g → is_has_tag (ed_kind e) = starts_with "tag:" (ed_target e)) →
  is_has_tag k = starts_with "tag:" t →
  ∀ s e, e ∈ get_edges s (add_edge_internal f t k g) →
    is_has_tag (ed_kind e) = starts_with "tag:" (ed_target e).
Proof.
  intros H Hk s e. rewrite get_edges_add. case_decide; [|apply H].
  rewrite elem_of_app, list_elem_of_singleton. intros [He| ->]; [by eapply H|done].
Qed.

Lemma indexed_edge T g f t k :
  indexed T g → starts_with "tag:" t = false → is_has_tag k = false →
  indexed T (add_edge_internal f t k g).
Proof.
  intros [H1 H2 H3 H4 H5 H6] Ht Hk.
  assert (Hsame : ∀ name, get_incoming (tag_id name) (add_edge_internal f t k g) = get_incoming (tag_id name) g).
  { intros name. rewrite get_incoming_add, decide_False; [done|]. intros E.
    by apply (not_tag_id t name). }
  split; try done.
  - by apply reverse_add.
  - apply kind_add; [done|]. by rewrite Ht.
  - intros name. rewrite Hsame. apply H3.
  - intros name. rewrite Hsame. apply H4.
  - intros id name. rewrite Hsame. apply H5.
Qed.

Lemma indexed_add_edge T g f t k :
  indexed T g → starts_with "tag:" t = false → is_has_tag k = false → indexed T (add_edge f t k g).
Proof. intros. unfold add_edge. case_match; [done|by apply indexed_edge]. Qed.

(** ** Tagging *)

Lemma ensure_tag_edges now name g :
  mg_edges (ensure_tag now name g) = mg_edges g ∧ mg_reverse (ensure_tag now name g) = mg_reverse g
  ∧ mg_memories (ensure_tag now name g) = mg_memories g.
Proof. unfold ensure_tag. by case_match. Qed.

Lemma ensure_tag_lookup now name g x :
  mg_tags (ensure_tag now name g) !! x
  = match mg_tags g !! x with
    | Some t => Some t
    | None => if decide (x = tag_id name) then Some (tag_new now name) else None
    end.
Proof.
  unfold ensure_tag. destruct (mg_tags g !! tag_id name) eqn:E; simpl.
  - case_decide; subst; [by rewrite E|by destruct (mg_tags g !! x)].
  - case_decide; subst; [by rewrite lookup_insert_eq, E|].
    rewrite lookup_insert_ne by done. by destruct (mg_tags g !! x).
Qed.

Lemma indexed_ensure T g now name : indexed T g → indexed T (ensure_tag now name g).
Proof.
  intros [H1 H2 H3 H4 H5 H6]. destruct (ensure_tag_edges now name g) as (He & Hr & _).
  unfold get_edges, get_incoming in *.
  split; unfold get_edges, get_incoming; rewrite ?He, ?Hr; auto.
  intros name'. rewrite ensure_tag_lookup. specialize (H3 name').
  destruct (mg_tags g !! tag_id name') as [t|]; [done|]. case_decide; [|done].
  by rewrite H3.
Qed.

Lemma indexed_attach T g now id ts name :
  indexed T g → T !! id = Some ts → name ∉ ts → indexed (<[id := ts ++ [name]]> T) (attach_tag now id g name).
Proof.
  intros H0 HT Hn. pose proof (indexed_ensure _ _ now name H0) as H.
  assert (Htag : is_Some (mg_tags (ensure_tag now name g) !! tag_id name)).
  { rewrite ensure_tag_lookup. destruct (mg_tags g !! tag_id name); [done|]. by rewrite decide_True. }
  unfold attach_tag. set (g1 := ensure_tag now name g) in *. clearbody g1.
  assert (Hin : id ∉ get_incoming (tag_id name) g1).
  { rewrite (ix_tags _ _ H). rewrite HT. naive_solver. }
  pose proof (ix_count_room _ _ id name H ltac:(by eexists) Hin) as Hroom.
  destruct H as [H1 H2 H3 H4 H5 H6].
  assert (Hinc : ∀ x, get_incoming x (count_up (tag_id name) (add_edge_internal id (tag_id name) HasTag g1))
                      = if decide (x = tag_id name) then get_incoming x g1 ++ [id] else get_incoming x g1).
  { intros x. apply get_incoming_add. }
  split.
  - by apply (reverse_add g1).
  - apply (kind_add g1); [done|]. exact (eq_sym (tag_id_prefix name)).
  - intros name'. specialize (H3 name'). rewrite Hinc. simpl.
    destruct (decide (tag_id name' = tag_id name)) as [E|E].
    + apply tag_id_inj in E as ->. rewrite lookup_alter_eq. destruct (mg_tags g1 !! tag_id name) as [t|]; simpl.
      * rewrite H3, length_app. unfold u32_succ. simpl length in *.
        rewrite N.mod_small by lia. lia.
      * by destruct Htag.
    + rewrite lookup_alter_ne by done. exact H3.
  - intros name'. rewrite Hinc. case_decide as E; [|apply H4]. apply NoDup_app. split; [apply H4|].
    split; [|apply NoDup_singleton]. intros x Hx ->%list_elem_of_singleton. apply tag_id_inj in E as ->. done.
  - intros id' name'. rewrite Hinc. destruct (decide (tag_id name' = tag_id name)) as [E|E].
    + apply tag_id_inj in E as ->. rewrite elem_of_app, list_elem_of_singleton, H5.
      destruct (decide (id' = id)) as [->|Hne].
      * rewrite lookup_insert_eq. split; [|by right]. intros _. eexists. split; [done|]. set_solver.
      * rewrite lookup_insert_ne by done. naive_solver.
    + assert (name' ≠ name) by congruence. rewrite H5. destruct (decide (id' = id)) as [->|Hne].
      * rewrite lookup_insert_eq, HT.
        split; intros (ts' & [= <-] & Hi); (eexists; split; [done|]); set_solver.
      * by rewrite lookup_insert_ne.
  - by rewrite map_size_insert_Some by eauto.
Qed.

(** ** Untagging *)

(** The edge and counter part of [untag_memory]. *)
Definition detach_tag (id name : string) (g : MemoryGraph) : MemoryGraph :=
  count_down (tag_id name)
    (set_edges
       (retain_at (λ e, negb (bool_decide (ed_target e = tag_id name) && is_has_tag (ed_kind e))) id (mg_edges g))
       (retain_at (λ s, negb (bool_decide (s = id))) (tag_id name) (mg_reverse g)) g).

Lemma detach_tag_edges id name g s :
  get_edges s (detach_tag id name g)
  = if decide (s = id)
    then List.filter (λ e, negb (bool_decide (ed_target e = tag_id name) && is_has_tag (ed_kind e))) (get_edges s g)
    else get_edges s g.
Proof. apply retain_at_get. Qed.

Lemma detach_tag_incoming id name g t :
  get_incoming t (detach_tag id name g)
  = if decide (t = tag_id name) then List.filter (λ s, negb (bool_decide (s = id))) (get_incoming t g)
    else get_incoming t g.
Proof. apply retain_at_get. Qed.

Lemma length_without (x : string) l :
  NoDup l → x ∈ l → S (length (List.filter (λ y, negb (bool_decide (y = x))) l)) = length l.
Proof.
  intros Hl Hx. apply list_elem_of_split in Hx as (l1 & l2 & ->).
  apply NoDup_app in Hl as (_ & Hd & [Hx2 _]%NoDup_cons).
  rewrite List.filter_app. simpl. rewrite bool_decide_true by done. simpl.
  rewrite !List_filter_all, !length_app; [simpl; lia|..]; intros y Hy; apply negb_true_iff, bool_decide_eq_false;
    intros ->; [done|]. eapply Hd; [done|by left].
Qed.

Lemma elem_of_without (x y : string) l : y ∈ List.filter (λ z, negb (bool_decide (z = x))) l ↔ y ∈ l ∧ y ≠ x.
Proof. by rewrite elem_of_List_filter, negb_true_iff, bool_decide_eq_false. Qed.

Lemma indexed_detach T g id ts name :
  indexed T g → T !! id = Some ts → name ∈ ts →
  indexed (<[id := List.filter (λ t, negb (bool_decide (t = name))) ts]> T) (detach_tag id name g).
Proof.
  intros H HT Hn. assert (Hin : id ∈ get_incoming (tag_id name) g) by (apply (ix_tags _ _ H); eauto).
  destruct H as [H1 H2 H3 H4 H5 H6]. split.
  - intros s t. rewrite detach_tag_incoming, detach_tag_edges. destruct (decide (s = id)) as [->|Hs].
    + rewrite links_without.
      2: { intros e He Ht. by rewrite (H2 _ _ He), Ht, tag_id_prefix. }
      case_decide; [|apply H1]. subst. by rewrite times_without, decide_True.
    + case_decide; [|apply H1]. by rewrite times_without, decide_False.
  - intros s e. rewrite detach_tag_edges. case_decide; [|apply H2]. membership.
    intros [He _]. by eapply H2.
  - intros name'. specialize (H3 name'). rewrite detach_tag_incoming. unfold detach_tag, count_down. simpl.
    destruct (decide (tag_id name' = tag_id name)) as [E|E].
    + apply tag_id_inj in E as ->. rewrite lookup_alter_eq.
      pose proof (length_without id _ (H4 name) Hin) as Hlen.
      destruct (mg_tags g !! tag_id name) as [t|]; simpl; [rewrite H3; lia|].
      rewrite H3 in Hin. by apply elem_of_nil in Hin.
    + by rewrite lookup_alter_ne.
  - intros name'. rewrite detach_tag_incoming. case_decide; [|apply H4]. apply NoDup_List_filter, H4.
  - intros id' name'. rewrite detach_tag_incoming. destruct (decide (id' = id)) as [->|Hne].
    + rewrite lookup_insert_eq. destruct (decide (tag_id name' = tag_id name)) as [E|E].
      * apply tag_id_inj in E as ->. rewrite elem_of_without. split; [naive_solver|].
        intros (ts' & [= <-] & Hi). by apply elem_of_without in Hi as [_ ?].
      * assert (name' ≠ name) by congruence. rewrite H5, HT.
        split; intros (ts' & [= <-] & Hi); (eexists; split; [done|]); [by apply elem_of_without|].
        by apply elem_of_without in Hi as [? _].
    + rewrite lookup_insert_ne by done. case_decide as E; [|apply H5]. rewrite elem_of_without, H5. naive_solver.
  - by rewrite map_size_insert_Some by eauto.
Qed.

(** ** Removal *)

#[local] Notation no_source id := (λ s : string, negb (bool_decide (s = id))).
#[local] Notation no_target id := (λ e : Edge, negb (bool_decide (ed_target e = id))).

(** Tag edges to [t] in a list: what removing the list takes off its counter. *)
Definition tag_links (t : string) (es : list Edge) : nat :=
  length (List.filter (λ e, bool_decide (ed_target e = t) && is_has_tag (ed_kind e)) es).

Lemma filter_idem {A} (p : A → bool) l : List.filter p (List.filter p l) = List.filter p l.
Proof. apply List_filter_all. intros x. by rewrite elem_of_List_filter; intros [_ ?]. Qed.

Lemma detach_edge_incoming id g e t :
  get_incoming t (detach_edge id g e)
  = if decide (t = ed_target e) then List.filter (no_source id) (get_incoming t g) else get_incoming t g.
Proof. unfold detach_edge. case_match; apply retain_at_get. Qed.

Lemma detach_edge_tags id g e t :
  mg_tags (detach_edge id g e) !! t = (λ x, set_count (tg_count x - N.of_nat (tag_links t [e])) x) <$> mg_tags g !! t.
Proof.
  unfold detach_edge, tag_links. simpl. destruct (is_has_tag (ed_kind e)); simpl.
  - case_bool_decide as E; simpl.
    + rewrite E, lookup_alter_eq. by destruct (mg_tags g !! t).
    + rewrite lookup_alter_ne by done. destruct (mg_tags g !! t) as [[]|]; [|done]. simpl. unfold set_count. simpl.
      by rewrite N.sub_0_r.
  - rewrite andb_false_r. simpl. destruct (mg_tags g !! t) as [[]|]; [|done]. simpl. unfold set_count. simpl.
    by rewrite N.sub_0_r.
Qed.

Lemma detach_edges_spec id es : ∀ g,
  let g' := foldl (detach_edge id) g es in
  mg_edges g' = mg_edges g ∧ mg_memories g' = mg_memories g
  ∧ (∀ t, get_incoming t g'
          = if decide (t ∈ map ed_target es) then List.filter (no_source id) (get_incoming t g) else get_incoming t g)
  ∧ ∀ t, mg_tags g' !! t = (λ x, set_count (tg_count x - N.of_nat (tag_links t es)) x) <$> mg_tags g !! t.
Proof.
  induction es as [|e es IH]; intros g; cbn [foldl map].
  { split_and!; try done.
    intros t. destruct (mg_tags g !! t) as [[]|]; [|done]. simpl. unfold set_count. simpl. by rewrite N.sub_0_r. }
  destruct (IH (detach_edge id g e)) as (He & Hm & Hr & Ht). split_and!.
  - rewrite He. unfold detach_edge. by case_match.
  - rewrite Hm. unfold detach_edge. by case_match.
  - intros t. rewrite Hr, detach_edge_incoming. destruct (decide (t = ed_target e)) as [->|Hne].
    + rewrite (decide_True (P := ed_target e ∈ ed_target e :: _)) by by left. case_decide; [apply filter_idem|done].
    + apply decide_ext. set_solver.
  - intros t. rewrite Ht, detach_edge_tags. destruct (mg_tags g !! t) as [x|]; [|done]. simpl. f_equal.
    unfold set_count. simpl. f_equal. unfold tag_links. simpl. case_match; simpl; lia.
Qed.

Lemma detach_sources_spec id sources : ∀ g,
  let g' := foldl (detach_source id) g sources in
  mg_reverse g' = mg_reverse g ∧ mg_memories g' = mg_memories g ∧ mg_tags g' = mg_tags g
  ∧ ∀ s, get_edges s g'
         = if decide (s ∈ sources) then List.filter (no_target id) (get_edges s g) else get_edges s g.
Proof.
  induction sources as [|x l IH]; intros g; cbn [foldl].
  { by split_and!. }
  destruct (IH (detach_source id g x)) as (Hr & Hm & Ht & He). split_and!; try done.
  intros s. rewrite He.
  assert (Hx : get_edges s (detach_source id g x)
               = if decide (s = x) then List.filter (no_target id) (get_edges s g) else get_edges s g)
    by apply retain_at_get.
  rewrite Hx. destruct (decide (s = x)) as [->|Hne].
  - rewrite (decide_True (P := x ∈ x :: l)) by by left. case_decide; [apply filter_idem|done].
  - apply decide_ext. set_solver.
Qed.

(** Set the counter of every tag to its value less the given number. *)
Definition less_counts (n : string → nat) (g g' : MemoryGraph) : Prop :=
  ∀ t, mg_tags g' !! t = (λ x, set_count (tg_count x - N.of_nat (n t)) x) <$> mg_tags g !! t.

Lemma no_source_nop T g id t :
  indexed T g → t ∉ map ed_target (get_edges id g) → List.filter (no_source id) (get_incoming t g) = get_incoming t g.
Proof.
  intros H Ht. apply List_filter_all. intros x Hx. apply negb_true_iff, bool_decide_eq_false. intros ->.
  apply Ht. apply (ix_source_edge _ _ _ _ H) in Hx as (e & He & <-). by apply list_elem_of_fmap_2.
Qed.

Definition drop_outgoing (id : string) (g : MemoryGraph) : MemoryGraph :=
  match mg_edges g !! id with
  | Some es => foldl (detach_edge id) (set_edges (delete id (mg_edges g)) (mg_reverse g) g) es
  | None => g
  end.

Lemma drop_outgoing_spec T g id :
  indexed T g →
  let g' := drop_outgoing id g in
  (∀ s, get_edges s g' = if decide (s = id) then [] else get_edges s g)
  ∧ (∀ t, get_incoming t g' = List.filter (no_source id) (get_incoming t g))
  ∧ less_counts (λ t, tag_links t (get_edges id g)) g g'
  ∧ mg_memories g' = mg_memories g.
Proof.
  intros H. pose proof (no_source_nop T g id) as Hnop. unfold drop_outgoing.
  destruct (mg_edges g !! id) as [es|] eqn:Ees.
  - assert (Hes : get_edges id g = es) by (unfold get_edges; by rewrite Ees). rewrite Hes in *.
    destruct (detach_edges_spec id es (set_edges (delete id (mg_edges g)) (mg_reverse g) g)) as (He & Hm & Hr & Ht).
    cbv zeta. split_and!; [| |done|done].
    + intros s. unfold get_edges. rewrite He. simpl. case_decide; subst; [by rewrite lookup_delete_eq|].
      by rewrite lookup_delete_ne.
    + intros t. rewrite Hr. case_decide as Hd; [done|]. symmetry. by apply Hnop.
  - assert (Hes : get_edges id g = []) by (unfold get_edges; by rewrite Ees). rewrite Hes in *.
    cbv zeta. split_and!; [| | |done].
    + intros s. case_decide; subst; done.
    + intros t. symmetry. apply Hnop; [done|apply not_elem_of_nil].
    + intros t. destruct (mg_tags g !! t) as [[]|]; [|done]. simpl. unfold set_count. simpl. by rewrite N.sub_0_r.
Qed.

Definition drop_incoming (id : string) (g : MemoryGraph) : MemoryGraph :=
  match mg_reverse g !! id with
  | Some sources => foldl (detach_source id) (set_edges (mg_edges g) (delete id (mg_reverse g)) g) sources
  | None => g
  end.

Lemma drop_incoming_spec g id :
  (∀ s e, e ∈ get_edges s g → ed_target e = id → s ∈ get_incoming id g) →
  let g' := drop_incoming id g in
  (∀ s, get_edges s g' = List.filter (no_target id) (get_edges s g))
  ∧ (∀ t, get_incoming t g' = if decide (t = id) then [] else get_incoming t g)
  ∧ mg_tags g' = mg_tags g ∧ mg_memories g' = mg_memories g.
Proof.
  intros Hsrc.
  assert (Hnop : ∀ s, s ∉ get_incoming id g → List.filter (no_target id) (get_edges s g) = get_edges s g).
  { intros s Hs. apply List_filter_all. intros e He. apply negb_true_iff, bool_decide_eq_false. eauto. }
  unfold drop_incoming. destruct (mg_reverse g !! id) as [sources|] eqn:Es.
  - assert (Hin : get_incoming id g = sources) by (unfold get_incoming; by rewrite Es). rewrite Hin in *.
    destruct (detach_sources_spec id sources (set_edges (mg_edges g) (delete id (mg_reverse g)) g))
      as (Hr & Hm & Ht & He). cbv zeta. split_and!; [| |done|done].
    + intros s. rewrite He. case_decide; [done|]. symmetry. by apply Hnop.
    + intros t. unfold get_incoming. rewrite Hr. simpl. case_decide; subst; [by rewrite lookup_delete_eq|].
      by rewrite lookup_delete_ne.
  - assert (Hin : get_incoming id g = []) by (unfold get_incoming; by rewrite Es). rewrite Hin in *.
    cbv zeta. split_and!; [| |done|done].
    + intros s. symmetry. apply Hnop, not_elem_of_nil.
    + intros t. case_decide; by subst.
Qed.

(** Everything [remove_memory] leaves, for an indexed graph: no edge from or to
    the memory, in either direction, and counters without its tags. *)
Lemma remove_memory_view T g id :
  indexed T g →
  let g' := (remove_memory id g).2 in
  (∀ s, get_edges s g' = if decide (s = id) then [] else List.filter (no_target id) (get_edges s g))
  ∧ (∀ t, get_incoming t g' = if decide (t = id) then [] else List.filter (no_source id) (get_incoming t g))
  ∧ less_counts (λ t, tag_links t (get_edges id g)) g g'
  ∧ mg_memories g' = delete id (mg_memories g) ∧ (remove_memory id g).1 = mg_memories g !! id.
Proof.
  intros H. destruct (drop_outgoing_spec T g id H) as (E1 & R1 & T1 & M1).
  destruct (drop_incoming_spec (drop_outgoing id g) id) as (E2 & R2 & T2 & M2).
  { intros s e. rewrite E1, R1. case_decide; [by intros ?%elem_of_nil|].
    intros He Ht. apply elem_of_without. split; [|done]. apply (ix_source_edge _ _ _ _ H). eauto. }
  cbv zeta. split_and!.
  - intros s. change (get_edges s (drop_incoming id (drop_outgoing id g))
                      = if decide (s = id) then [] else List.filter (no_target id) (get_edges s g)).
    rewrite E2, E1. by case_decide.
  - intros t. change (get_incoming t (drop_incoming id (drop_outgoing id g))
                      = if decide (t = id) then [] else List.filter (no_source id) (get_incoming t g)).
    by rewrite R2, R1.
  - intros t. change (mg_tags (drop_incoming id (drop_outgoing id g)) !! t
      = (λ x, set_count (tg_count x - N.of_nat (tag_links t (get_edges id g))) x) <$> mg_tags g !! t).
    by rewrite T2, T1.
  - change (delete id (mg_memories (drop_incoming id (drop_outgoing id g))) = delete id (mg_memories g)).
    by rewrite M2, M1.
  - change (mg_memories (drop_incoming id (drop_outgoing id g)) !! id = mg_memories g !! id).
    by rewrite M2, M1.
Qed.

Lemma links_no_target t id es : links t (List.filter (no_target id) es) = if decide (t = id) then 0 else links t es.
Proof.
  rewrite <- (links_without t id (λ _, true) es) by done. f_equal. apply filter_ext. intros e.
  by rewrite andb_true_r.
Qed.

Lemma length_no_source id l : length (List.filter (no_source id) l) + times id l = length l.
Proof. induction l as [|x l IH]; [done|]. rewrite times_cons. simpl. case_bool_decide; case_decide; simpl in *; done || lia. Qed.

Lemma tag_links_all t es :
  (∀ e, e ∈ es → is_has_tag (ed_kind e) = starts_with "tag:" (ed_target e)) → starts_with "tag:" t = true →
  tag_links t es = links t es.
Proof.
  intros H Ht. unfold tag_links, links. induction es as [|e es IH]; [done|].
  assert (IH' := IH ltac:(intros e' He'; apply H; by right)). cbn [List.filter]. rewrite (H e) by by left.
  case_bool_decide as E; cbn [andb]; [|done]. rewrite E, Ht. simpl. by f_equal.
Qed.

Lemma indexed_remove T g id :
  indexed T g → starts_with "tag:" id = false → indexed (delete id T) (remove_memory id g).2.
Proof.
  intros H Hid. destruct (remove_memory_view T g id H) as (HE & HR & HT & _).
  set (g' := (remove_memory id g).2) in *. clearbody g'.
  assert (HR' : ∀ name, get_incoming (tag_id name) g' = List.filter (no_source id) (get_incoming (tag_id name) g)).
  { intros name. rewrite HR, decide_False; [done|]. intros E. by apply (not_tag_id id name). }
  pose proof (ix_source_edge T g id) as Hse.
  destruct H as [H1 H2 H3 H4 H5 H6]. split.
  - intros s t. rewrite HE, HR. destruct (decide (t = id)) as [->|Ht].
    + case_decide; [done|]. by rewrite links_no_target, decide_True.
    + rewrite times_without, H1. case_decide; [done|]. by rewrite links_no_target, decide_False.
  - intros s e. rewrite HE. case_decide; [by intros ?%elem_of_nil|]. membership.
    intros [He _]. by eapply H2.
  - intros name. rewrite HR', HT. specialize (H3 name). destruct (mg_tags g !! tag_id name) as [t|]; simpl.
    + rewrite H3, tag_links_all; [|apply H2|apply tag_id_prefix]. rewrite <- H1.
      pose proof (length_no_source id (get_incoming (tag_id name) g)). lia.
    + by rewrite H3.
  - intros name. rewrite HR'. apply NoDup_List_filter, H4.
  - intros id' name. rewrite HR', elem_of_without, H5. destruct (decide (id' = id)) as [->|Hne].
    + rewrite lookup_delete_eq. naive_solver.
    + rewrite lookup_delete_ne by done. naive_solver.
  - destruct (T !! id) eqn:E; [rewrite map_size_delete_Some by eauto|rewrite map_size_delete_None by done]; lia.
Qed.
