(* ===== verification/MemoryClaims.v ===== *)
(** * What the memory graph guarantees

    Traces of the operations the memory manager performs, the consistency of
    edges, reverse index, tag counters and tag lists on every graph they reach,
    removal without dangling references, lookup by tag, and the termination and
    soundness of cascade retrieval. *)

From Stdlib Require Import Floats.SpecFloat.
From stdpp Require Import base list strings gmap fin_maps relations sorting.
From S2P Require Import Prelude RustString Kahn Float32 TopK Memory MemoryGraph MemoryInv.

Open Scope string_scope.
Open Scope nat_scope.
Open Scope list_scope.

Notation is_tag_id := (starts_with "tag:").

(** ** Operation traces

    One constructor per operation, with what its callers ensure: memories are
    added under fresh ids that are not tag ids and with distinct tags, tags are
    put on existing memories and taken from memories that have them, and the
    other relations do not point at tags. *)
Inductive mem_step `{Lowercase} (g : MemoryGraph) : MemoryGraph → Prop :=
| step_add now e :
    mg_memories g !! me_id e = None → NoDup (me_tags e) → is_tag_id (me_id e) = false →
    (N.of_nat (S (memory_count g)) < 2 ^ 32)%N → mem_step g (add_memory now e g).2
| step_tag now id name : is_Some (mg_memories g !! id) → mem_step g (tag_memory now id name g)
| step_untag id name m : mg_memories g !! id = Some m → name ∈ me_tags m → mem_step g (untag_memory id name g)
| step_remove id : is_tag_id id = false → mem_step g (remove_memory id g).2
| step_edge from to kind : is_tag_id to = false → is_has_tag kind = false → mem_step g (add_edge from to kind g)
| step_unlink from to kind :
    is_tag_id to = false →
    (∀ e, e ∈ get_edges from g → ed_target e = to → edge_kind_eqb (ed_kind e) kind = true) →
    mem_step g (remove_edge from to kind g)
| step_link from to weight : is_tag_id to = false → mem_step g (link_memories from to weight g)
| step_supersede newer older : is_tag_id older = false → mem_step g (supersede newer older g)
| step_contradict a b : is_tag_id a = false → is_tag_id b = false → mem_step g (mark_contradiction a b g)
| step_retrieve decay iter ids scores depth results :
    mem_step g (cascade_retrieve decay iter ids scores depth results g).2.

(** The records agree with the index and their search text is current. *)
Record memory_ok `{Lowercase} (id : string) (m : MemoryEntry) : Prop := {
  mo_id : me_id m = id;
  mo_not_tag : is_tag_id id = false;
  mo_tags : NoDup (me_tags m);
  mo_search : me_search_text m = normalize_memory_search_text (me_content m) (me_tags m) }.

Definition graph_ok `{Lowercase} (g : MemoryGraph) : Prop :=
  indexed (tags_of g) g ∧ map_Forall memory_ok (mg_memories g).

Lemma graph_ok_new `{Lowercase} : graph_ok mem_graph_new.
Proof. split; [|apply map_Forall_empty]. unfold tags_of. simpl. rewrite fmap_empty. apply indexed_new. Qed.

Lemma graph_ok_ext `{Lowercase} g g' :
  mg_edges g' = mg_edges g → mg_reverse g' = mg_reverse g → mg_tags g' = mg_tags g →
  mg_memories g' = mg_memories g → graph_ok g → graph_ok g'.
Proof.
  intros He Hr Ht Hm [Hi Hok]. split; [|by rewrite Hm]. unfold tags_of. rewrite Hm.
  by eapply indexed_ext.
Qed.

Lemma graph_ok_edge `{Lowercase} g f t k :
  graph_ok g → is_tag_id t = false → is_has_tag k = false → graph_ok (add_edge f t k g).
Proof.
  intros [Hi Hok] Ht Hk.
  assert (Hm : mg_memories (add_edge f t k g) = mg_memories g) by (unfold add_edge; by case_match).
  split; [|by rewrite Hm]. unfold tags_of. rewrite Hm. by apply indexed_add_edge.
Qed.

(** A memory whose tags do not change. *)
Lemma graph_ok_alter `{Lowercase} g id (f : MemoryEntry → MemoryEntry) :
  (∀ m, me_tags (f m) = me_tags m) → (∀ m, memory_ok id m → memory_ok id (f m)) →
  graph_ok g → graph_ok (set_memories (alter f id (mg_memories g)) g).
Proof.
  intros Hf Hm [Hi Hok].
  assert (Ht : tags_of (set_memories (alter f id (mg_memories g)) g) = tags_of g).
  { unfold tags_of. simpl. apply map_eq. intros i. rewrite !lookup_fmap, lookup_alter.
    destruct (decide (id = i)) as [<-|]; [|done]. destruct (mg_memories g !! id) as [m|]; [|done]. exact (f_equal Some (Hf m)). }
  split; [rewrite Ht; by eapply indexed_ext; [..|exact Hi]|].
  simpl. intros i m. rewrite lookup_alter. destruct (decide (id = i)) as [<-|]; [|apply Hok].
  intros (m' & Hl & ->)%fmap_Some. by apply Hm, Hok.
Qed.

(** ** Every operation keeps the graph consistent *)

Lemma indexed_room T g id :
  indexed T g → T !! id = None → (N.of_nat (S (size T)) < 2 ^ 32)%N → indexed (<[id := []]> T) g.
Proof.
  intros [H1 H2 H3 H4 H5 H6] Hid Hs. split; try done.
  - intros id' name. rewrite H5. destruct (decide (id' = id)) as [->|Hne].
    + rewrite lookup_insert_eq, Hid. split; [naive_solver|]. intros (ts & [= <-] & Hn). by apply elem_of_nil in Hn.
    + by rewrite lookup_insert_ne.
  - by rewrite map_size_insert_None.
Qed.

Lemma indexed_attach_all now id names : ∀ T g ts,
  indexed T g → T !! id = Some ts → NoDup (ts ++ names) →
  indexed (<[id := ts ++ names]> T) (foldl (attach_tag now id) g names).
Proof.
  induction names as [|name names IH]; intros T g ts H HT Hn; simpl.
  { rewrite app_nil_r, insert_id; done. }
  change (name :: names) with ([name] ++ names) in *. rewrite app_assoc in *.
  assert (name ∉ ts).
  { apply NoDup_app in Hn as [Hn _]. apply NoDup_app in Hn as (_ & Hn & _). intros Hi. apply (Hn _ Hi). by left. }
  pose proof (indexed_attach _ _ now _ _ _ H HT ltac:(eassumption)) as H'.
  pose proof (IH _ _ (ts ++ [name]) H' ltac:(by rewrite lookup_insert_eq) Hn) as H''.
  by rewrite insert_insert_eq in H''.
Qed.

Lemma attach_all_memories now id names : ∀ g, mg_memories (foldl (attach_tag now id) g names) = mg_memories g.
Proof.
  induction names as [|name names IH]; intros g; simpl; [done|]. rewrite IH. unfold attach_tag. simpl.
  by destruct (ensure_tag_edges now name g) as (_ & _ & ->).
Qed.

Lemma graph_ok_add `{Lowercase} now e g :
  mg_memories g !! me_id e = None → NoDup (me_tags e) → is_tag_id (me_id e) = false →
  (N.of_nat (S (memory_count g)) < 2 ^ 32)%N → graph_ok g → graph_ok (add_memory now e g).2.
Proof.
  intros Hid Hn Htag Hs [Hi Hok]. unfold add_memory. simpl.
  set (g1 := foldl (attach_tag now (me_id e)) g (me_tags e)).
  assert (H1 : indexed (<[me_id e := me_tags e]> (tags_of g)) g1).
  { rewrite <- (insert_insert_eq (tags_of g) (me_id e) (me_tags e) []).
    apply (indexed_attach_all _ _ _ _ _ []); [|by rewrite lookup_insert_eq|done].
    apply indexed_room; [done|unfold tags_of; by rewrite lookup_fmap, Hid|].
    unfold tags_of. by rewrite map_size_fmap. }
  assert (Hm : mg_memories g1 = mg_memories g) by apply attach_all_memories. clearbody g1.
  set (g2 := match me_superseded_by e with Some newer => _ | None => g1 end).
  assert (indexed (<[me_id e := me_tags e]> (tags_of g)) g2 ∧ mg_memories g2 = mg_memories g) as [H2 Hm2].
  { unfold g2. destruct (me_superseded_by e); [|done]. split; [by apply indexed_edge|done]. }
  clearbody g2. split.
  - unfold tags_of. simpl. rewrite Hm2, fmap_insert. by eapply indexed_ext; [..|exact H2].
  - simpl. rewrite Hm2. apply map_Forall_insert_2; [|done]. split; done.
Qed.

Lemma has_tag_edge T g id name :
  indexed T g →
  existsb (λ e, bool_decide (ed_target e = tag_id name) && is_has_tag (ed_kind e)) (get_edges id g) = true
  ↔ id ∈ get_incoming (tag_id name) g.
Proof.
  intros H. rewrite (ix_source_edge _ _ _ _ H), existsb_exists. setoid_rewrite <- list_elem_of_In.
  setoid_rewrite andb_true_iff. setoid_rewrite bool_decide_eq_true. split.
  - intros (e & ? & ? & _). eauto.
  - intros (e & He & Ht). exists e. split_and!; [done..|]. by rewrite (ix_kind _ _ H _ _ He), Ht, tag_id_prefix.
Qed.

Lemma graph_ok_tag `{Lowercase} now id name g :
  is_Some (mg_memories g !! id) → graph_ok g → graph_ok (tag_memory now id name g).
Proof.
  intros [m Hm] [Hi Hok]. destruct (ensure_tag_edges now name g) as (He & Hr & Hmem).
  assert (HT : tags_of g !! id = Some (me_tags m)) by (unfold tags_of; by rewrite lookup_fmap, Hm).
  pose proof (indexed_ensure _ _ now name Hi) as Hi'.
  unfold tag_memory. destruct (existsb _ _) eqn:Eb.
  { split; [unfold tags_of; by rewrite Hmem|by rewrite Hmem]. }
  assert (Hn : name ∉ me_tags m).
  { intros Hn. apply not_true_iff_false in Eb. apply Eb. apply (has_tag_edge _ _ _ _ Hi').
    apply (ix_tags _ _ Hi'). eauto. }
  pose proof (indexed_attach _ _ now _ _ _ Hi HT Hn) as H2. unfold attach_tag in H2.
  split.
  - replace (tags_of _) with (<[id := me_tags m ++ [name]]> (tags_of g)); [by eapply indexed_ext; [..|exact H2]|].
    unfold tags_of. simpl. rewrite Hmem. apply map_eq. intros i. rewrite lookup_fmap, lookup_alter, lookup_insert.
    case_decide; [|by rewrite lookup_fmap]. rewrite Hm. simpl. by rewrite bool_decide_false.
  - simpl. rewrite Hmem. intros i m'. rewrite lookup_alter. destruct (decide (id = i)) as [<-|]; [|apply Hok].
    rewrite Hm. simpl. rewrite bool_decide_false by done. intros [= <-]. destruct (Hok _ _ Hm) as [? ? ? ?].
    split; try done. simpl. apply NoDup_app. split_and!; [done| |apply NoDup_singleton].
    by intros x Hx ->%list_elem_of_singleton.
Qed.

Lemma graph_ok_untag `{Lowercase} id name m g :
  mg_memories g !! id = Some m → name ∈ me_tags m → graph_ok g → graph_ok (untag_memory id name g).
Proof.
  intros Hm Hn [Hi Hok].
  assert (HT : tags_of g !! id = Some (me_tags m)) by (unfold tags_of; by rewrite lookup_fmap, Hm).
  pose proof (indexed_detach _ _ _ _ _ Hi HT Hn) as H2. unfold detach_tag in H2.
  unfold untag_memory. split.
  - replace (tags_of _) with (<[id := List.filter (λ t, negb (bool_decide (t = name))) (me_tags m)]> (tags_of g));
      [by eapply indexed_ext; [..|exact H2]|].
    unfold tags_of. simpl. apply map_eq. intros i. rewrite lookup_fmap, lookup_alter, lookup_insert.
    case_decide; [|by rewrite lookup_fmap]. by rewrite Hm.
  - simpl. intros i m'. rewrite lookup_alter. destruct (decide (id = i)) as [<-|]; [|apply Hok].
    rewrite Hm. intros [= <-]. destruct (Hok _ _ Hm) as [? ? ? ?]. split; try done.
    by apply NoDup_List_filter.
Qed.

Lemma graph_ok_remove `{Lowercase} id g :
  is_tag_id id = false → graph_ok g → graph_ok (remove_memory id g).2.
Proof.
  intros Ht [Hi Hok]. destruct (remove_memory_view _ _ id Hi) as (_ & _ & _ & Hm & _).
  split; [|rewrite Hm; by apply map_Forall_delete].
  unfold tags_of. rewrite Hm, fmap_delete. by apply indexed_remove.
Qed.

Lemma graph_ok_unlink `{Lowercase} from to kind g :
  is_tag_id to = false →
  (∀ e, e ∈ get_edges from g → ed_target e = to → edge_kind_eqb (ed_kind e) kind = true) →
  graph_ok g → graph_ok (remove_edge from to kind g).
Proof.
  intros Ht Hk [[H1 H2 H3 H4 H5 H6] Hok]. split; [|done].
  assert (HE : ∀ s, get_edges s (remove_edge from to kind g)
    = if decide (s = from)
      then List.filter (λ e, negb (bool_decide (ed_target e = to) && edge_kind_eqb (ed_kind e) kind)) (get_edges s g)
      else get_edges s g) by (intros; apply retain_at_get).
  assert (HR : ∀ t, get_incoming t (remove_edge from to kind g)
    = if decide (t = to) then List.filter (λ s, negb (bool_decide (s = from))) (get_incoming t g)
      else get_incoming t g) by (intros; apply retain_at_get).
  assert (HR' : ∀ name, get_incoming (tag_id name) (remove_edge from to kind g) = get_incoming (tag_id name) g).
  { intros name. rewrite HR, decide_False; [done|]. intros E. by apply (not_tag_id to name). }
  split; [| | | | |done].
  - intros s t. rewrite HE, HR. destruct (decide (s = from)) as [->|Hs].
    + rewrite links_without by done. case_decide; [|done]. by rewrite times_without, decide_True.
    + case_decide; [|done]. by rewrite times_without, decide_False.
  - intros s e. rewrite HE. case_decide; [|apply H2]. membership. intros [He _]. by eapply H2.
  - intros name. rewrite HR'. apply H3.
  - intros name. rewrite HR'. apply H4.
  - intros id name. rewrite HR'. apply H5.
Qed.

Lemma graph_ok_step `{Lowercase} g g' : mem_step g g' → graph_ok g → graph_ok g'.
Proof.
  intros [now e H1 H2 H3 H4|now id name Hm|id name m Hm Hn|id Ht|f t k Ht Hk|f t k Ht Hk|f t w Ht|newer older Ht
         |a b Ha Hb|decay iter ids scores depth results] Hg.
  - by apply graph_ok_add.
  - by apply graph_ok_tag.
  - by eapply graph_ok_untag.
  - by apply graph_ok_remove.
  - by apply graph_ok_edge.
  - by apply graph_ok_unlink.
  - by eapply graph_ok_ext; [..|apply (graph_ok_edge g f t (RelatesTo w))].
  - unfold supersede. apply graph_ok_alter; [done| |by apply graph_ok_edge].
    intros m [? ? ? ?]. by split.
  - unfold mark_contradiction. by repeat apply graph_ok_edge.
  - by eapply graph_ok_ext; [..|exact Hg].
Qed.

Lemma graph_ok_reachable `{Lowercase} g : rtc mem_step mem_graph_new g → graph_ok g.
Proof.
  intros Hr. assert (Hi : ∀ g0, graph_ok g0 → rtc mem_step g0 g → graph_ok g).
  { clear Hr. intros g0 H0. induction 1 as [|? ? ? Hs _ IH]; [done|]. apply IH. by eapply graph_ok_step. }
  eapply Hi; [apply graph_ok_new|done].
Qed.

Lemma is_tag_id_spec x : is_tag_id x = true ↔ ∃ name, x = tag_id name.
Proof. apply starts_with_spec. Qed.

(** ** Claims *)

(** The memory graph never disagrees with itself: on every graph the
    operations reach, the reverse index lists a source exactly as often as it
    has edges to the target, an edge is a tag edge exactly when it points at a
    tag, a memory's tag list is exactly the tags it has edges to, and every
    memory's search text is the one of its current content and tags. *)
Theorem memory_graph_consistent `{Lowercase} (g : MemoryGraph) :
  rtc mem_step mem_graph_new g →
  (∀ s t, times s (get_incoming t g) = links t (get_edges s g))
  ∧ (∀ s e, e ∈ get_edges s g → (ed_kind e = HasTag ↔ ∃ name, ed_target e = tag_id name))
  ∧ ∀ id m, mg_memories g !! id = Some m →
      me_id m = id ∧ NoDup (me_tags m)
      ∧ (∀ name, name ∈ me_tags m ↔ ∃ e, e ∈ get_edges id g ∧ ed_target e = tag_id name)
      ∧ me_search_text m = normalize_memory_search_text (me_content m) (me_tags m).
Proof.
  intros [Hi Hok]%graph_ok_reachable. split_and!; [apply (ix_reverse _ _ Hi)| |].
  - intros s e He. pose proof (ix_kind _ _ Hi s e He) as Hk. rewrite <- is_tag_id_spec, <- Hk.
    by destruct (ed_kind e).
  - intros id m Hm. destruct (Hok _ _ Hm) as [? ? ? ?]. split_and!; [done..| |done].
    intros name. rewrite <- (ix_source_edge _ _ _ _ Hi), (ix_tags _ _ Hi). unfold tags_of.
    rewrite lookup_fmap, Hm. naive_solver.
Qed.

Lemma tagged_ids `{Lowercase} g name : graph_ok g → map me_id (get_memories_by_tag name g) = get_incoming (tag_id name) g.
Proof.
  intros [Hi Hok]. unfold get_memories_by_tag.
  assert (Hall : ∀ id, id ∈ get_incoming (tag_id name) g → is_Some (mg_memories g !! id)).
  { intros id Hid. apply (ix_tags _ _ Hi) in Hid as (ts & Ht & _). unfold tags_of in Ht.
    rewrite lookup_fmap in Ht. apply fmap_Some in Ht as (m & -> & _). by eexists. }
  induction (get_incoming (tag_id name) g) as [|id l IH]; [done|]. simpl.
  destruct (Hall id ltac:(left)) as [m Hm]. rewrite Hm. simpl. rewrite (mo_id _ _ (Hok _ _ Hm)). f_equal.
  apply IH. intros x Hx. apply Hall. by right.
Qed.

(** Lookup by tag is exact: it returns every memory that carries the tag,
    once, and nothing else, and the tag's counter is their number. *)
Theorem tag_lookup_exact `{Lowercase} (g : MemoryGraph) (name : string) :
  rtc mem_step mem_graph_new g →
  (∀ m, m ∈ get_memories_by_tag name g ↔ mg_memories g !! me_id m = Some m ∧ name ∈ me_tags m)
  ∧ NoDup (get_memories_by_tag name g)
  ∧ match mg_tags g !! tag_id name with
    | Some t => tg_count t = N.of_nat (length (get_memories_by_tag name g))
    | None => get_memories_by_tag name g = []
    end.
Proof.
  intros Hg%graph_ok_reachable. pose proof (tagged_ids g name Hg) as Hids. destruct Hg as [Hi Hok].
  split_and!.
  - intros m. unfold get_memories_by_tag. rewrite list_elem_of_omap. setoid_rewrite (ix_tags _ _ Hi).
    unfold tags_of. setoid_rewrite lookup_fmap. split.
    + intros (id & (ts & Ht & Hn) & Hm). rewrite Hm in Ht. simplify_eq/=.
      by rewrite (mo_id _ _ (Hok _ _ Hm)).
    + intros [Hm Hn]. exists (me_id m). rewrite Hm. eauto.
  - apply (NoDup_fmap_1 me_id). change (NoDup (map me_id (get_memories_by_tag name g))). rewrite Hids.
    apply (ix_nodup _ _ Hi).
  - pose proof (ix_count _ _ Hi name) as Hc. rewrite <- Hids in Hc. rewrite length_map in Hc.
    destruct (mg_tags g !! tag_id name); [done|]. by apply fmap_nil_inv in Hc.
Qed.

(** A removed memory is forgotten entirely: the memory is returned and gone,
    no edge starts or ends at it, no reverse entry mentions it, and everything
    between other nodes is as it was. *)
Theorem remove_memory_leaves_no_reference `{Lowercase} (g : MemoryGraph) (id : string) :
  rtc mem_step mem_graph_new g →
  let g' := (remove_memory id g).2 in
  (remove_memory id g).1 = mg_memories g !! id
  ∧ mg_memories g' = delete id (mg_memories g)
  ∧ (∀ s e, e ∈ get_edges s g' ↔ e ∈ get_edges s g ∧ s ≠ id ∧ ed_target e ≠ id)
  ∧ (∀ s t, s ∈ get_incoming t g' ↔ s ∈ get_incoming t g ∧ s ≠ id ∧ t ≠ id).
Proof.
  intros [Hi _]%graph_ok_reachable. destruct (remove_memory_view _ _ id Hi) as (HE & HR & _ & Hm & H1).
  cbv zeta. split_and!; [done..| |].
  - intros s e. rewrite HE. case_decide as Hs.
    + rewrite elem_of_nil. naive_solver.
    + rewrite elem_of_List_filter, negb_true_iff, bool_decide_eq_false. naive_solver.
  - intros s t. rewrite HR. case_decide as Hs.
    + rewrite elem_of_nil. naive_solver.
    + rewrite elem_of_without. naive_solver.
Qed.

(** ** Migration *)

Lemma legacy_step_ok now g e :
  indexed (tags_of g) g → mg_memories g !! me_id e = None → NoDup (me_tags e) → is_tag_id (me_id e) = false →
  (N.of_nat (S (memory_count g)) < 2 ^ 32)%N →
  indexed (tags_of (legacy_step now g e)) (legacy_step now g e)
  ∧ mg_memories (legacy_step now g e) = <[me_id e := e]> (mg_memories g).
Proof.
  intros Hi Hid Hn Ht Hs. unfold legacy_step.
  set (g0 := set_memories _ g). set (g1 := foldl _ g0 _).
  assert (Hm1 : mg_memories g1 = <[me_id e := e]> (mg_memories g)) by apply attach_all_memories.
  assert (H1 : indexed (<[me_id e := me_tags e]> (tags_of g)) g1).
  { rewrite <- (insert_insert_eq (tags_of g) (me_id e) (me_tags e) []).
    apply (indexed_attach_all _ _ _ _ _ []); [|by rewrite lookup_insert_eq|done].
    apply indexed_room; [by eapply indexed_ext; [..|exact Hi]|unfold tags_of; by rewrite lookup_fmap, Hid|].
    unfold tags_of. by rewrite map_size_fmap. }
  clearbody g1. destruct (me_superseded_by e); (split; [|done]).
  - unfold tags_of. simpl. rewrite Hm1, fmap_insert. by apply indexed_edge.
  - unfold tags_of. by rewrite Hm1, fmap_insert.
Qed.

Definition keyed (l : list MemoryEntry) : gmap string MemoryEntry := list_to_map (map (λ e, (me_id e, e)) (rev l)).

Lemma keyed_lookup l id m : NoDup (map me_id l) → keyed l !! id = Some m ↔ m ∈ l ∧ me_id m = id.
Proof.
  intros Hn. unfold keyed. rewrite <- elem_of_list_to_map, list_elem_of_fmap.
  - split; [|intros [Hm <-]; exists m; split; [done|by rewrite list_elem_of_In, <- in_rev, <- list_elem_of_In]].
    intros (e & [= -> ->] & He). by rewrite list_elem_of_In, <- in_rev, <- list_elem_of_In in He.
  - rewrite <- list_fmap_compose. change (NoDup (map me_id (rev l))). rewrite map_rev.
    by rewrite <- Permutation_rev.
Qed.

Lemma keyed_size l : size (keyed l) ≤ length l.
Proof.
  unfold keyed. rewrite <- (length_rev l). induction (rev l) as [|e r IH]; simpl; [by rewrite map_size_empty|].
  pose proof (map_size_insert (me_id e) e (list_to_map (map (λ e, (me_id e, e)) r))) as Hs. rewrite Hs.
  destruct (list_to_map _ !! me_id e); simpl in *; lia.
Qed.

Lemma keyed_snoc l e : keyed (l ++ [e]) = <[me_id e := e]> (keyed l).
Proof. unfold keyed. by rewrite rev_unit. Qed.

Lemma migration_loop now todo : ∀ done g,
  NoDup (map me_id (done ++ todo)) →
  Forall (λ e, NoDup (me_tags e) ∧ is_tag_id (me_id e) = false) todo →
  (N.of_nat (length (done ++ todo)) < 2 ^ 32)%N →
  mg_version g = GRAPH_VERSION → indexed (tags_of g) g → mg_memories g = keyed done →
  let g' := foldl (legacy_step now) g todo in
  mg_version g' = GRAPH_VERSION ∧ indexed (tags_of g') g' ∧ mg_memories g' = keyed (done ++ todo).
Proof.
  induction todo as [|e todo IH]; intros done' g Hn Hall Hl Hv Hi Hm; cbn [foldl].
  { by rewrite app_nil_r. }
  apply Forall_cons in Hall as [[Ht Hid] Hall].
  change (e :: todo) with ([e] ++ todo) in *. rewrite app_assoc in *.
  assert (Hfresh : mg_memories g !! me_id e = None).
  { rewrite map_app in Hn. apply NoDup_app in Hn as [Hn _]. rewrite Hm. apply eq_None_not_Some.
    intros [m Hx]. rewrite map_app in Hn. apply NoDup_app in Hn as (Hn & Hd & _).
    apply keyed_lookup in Hx as [Hx E]; [|done]. apply (Hd (me_id e)); [|by left].
    rewrite <- E. by apply list_elem_of_fmap_2. }
  destruct (legacy_step_ok now g e Hi Hfresh Ht Hid) as [Hi' Hm'].
  { unfold memory_count. rewrite Hm. pose proof (keyed_size done'). rewrite !length_app in Hl. simpl in Hl. lia. }
  apply IH; [done..| |done|by rewrite Hm', Hm, keyed_snoc].
  rewrite <- Hv. clear. unfold legacy_step.
  assert (Ha : ∀ l g0, mg_version (foldl (attach_tag now (me_id e)) g0 l) = mg_version g0).
  { induction l as [|x l IHl]; intros g0; [done|]. simpl. rewrite IHl. unfold attach_tag, ensure_tag. simpl. by case_match. }
  destruct (me_superseded_by e); simpl; by rewrite Ha.
Qed.

(** Migration loses nothing: a legacy store whose entries have distinct ids,
    none of them a tag id, and no repeated tags becomes a graph of the current
    version that holds exactly its entries, with index, counters and tag lists
    in agreement. *)
Theorem migration_is_faithful (now : Z) (store : MemoryStore) :
  NoDup (map me_id (ms_entries store)) →
  Forall (λ e, NoDup (me_tags e) ∧ is_tag_id (me_id e) = false) (ms_entries store) →
  (N.of_nat (length (ms_entries store)) < 2 ^ 32)%N →
  let g := from_legacy_store now store in
  is_migrated g = true
  ∧ (∀ id m, mg_memories g !! id = Some m ↔ m ∈ ms_entries store ∧ me_id m = id)
  ∧ indexed (tags_of g) g.
Proof.
  intros Hn Hall Hlen.
  destruct (migration_loop now (ms_entries store) [] mem_graph_new) as (Hv & Hi & Hm); [done..| |done|].
  { unfold tags_of. simpl. rewrite fmap_empty. apply indexed_new. }
  cbv zeta. unfold from_legacy_store, is_migrated. rewrite Hv. split_and!; [done| |exact Hi].
  intros id m. rewrite Hm. by apply keyed_lookup.
Qed.

(** ** A concrete trace *)

#[export] Instance ascii_lowercase : Lowercase := to_ascii_lowercase.

Definition demo_first : MemoryEntry := with_tags ["rust"; "build"] (entry_new "m1" 0 Fact "Cargo builds").
Definition demo_second : MemoryEntry := with_tags ["rust"] (entry_new "m2" 1 Correction "Use nightly").
Definition demo_memory_graph : MemoryGraph :=
  supersede "m2" "m1" (tag_memory 2 "m2" "tools"
    (add_memory 1 demo_second (add_memory 0 demo_first mem_graph_new).2).2).

Lemma demo_memory_reachable : rtc mem_step mem_graph_new demo_memory_graph.
Proof.
  eapply rtc_l; [apply (step_add _ 0 demo_first); [done|by vm_compute; repeat constructor; set_solver|done|done]|].
  eapply rtc_l; [apply (step_add _ 1 demo_second); [done|by vm_compute; repeat constructor; set_solver|done|done]|].
  eapply rtc_l; [apply (step_tag _ 2 "m2" "tools"); by vm_compute; eexists|].
  apply rtc_once. by apply (step_supersede _ "m2" "m1").
Qed.

Lemma memory_graph_consistent_witness :
  times "m2" (get_incoming "m1" demo_memory_graph) = links "m1" (get_edges "m2" demo_memory_graph)
  ∧ links "m1" (get_edges "m2" demo_memory_graph) = 1.
Proof.
  split; [|vm_compute; reflexivity].
  exact (proj1 (memory_graph_consistent demo_memory_graph demo_memory_reachable) "m2" "m1").
Defined.

Lemma tag_lookup_exact_witness :
  NoDup (get_memories_by_tag "rust" demo_memory_graph)
  ∧ map me_id (get_memories_by_tag "rust" demo_memory_graph) = ["m1"; "m2"].
Proof.
  split; [|vm_compute; reflexivity].
  exact (proj1 (proj2 (tag_lookup_exact demo_memory_graph "rust" demo_memory_reachable))).
Defined.

Lemma remove_memory_leaves_no_reference_witness :
  mg_memories (remove_memory "m1" demo_memory_graph).2 = delete "m1" (mg_memories demo_memory_graph)
  ∧ get_edges "m2" (remove_memory "m1" demo_memory_graph).2
    = [mkEdge "tag:rust" HasTag; mkEdge "tag:tools" HasTag].
Proof.
  split; [|vm_compute; reflexivity].
  exact (proj1 (proj2 (remove_memory_leaves_no_reference demo_memory_graph "m1" demo_memory_reachable))).
Defined.

Lemma migration_is_faithful_witness :
  is_migrated (from_legacy_store 0 (mkStore [demo_first; demo_second] ∅)) = true
  ∧ memory_count (from_legacy_store 0 (mkStore [demo_first; demo_second] ∅)) = 2.
Proof.
  split; [|vm_compute; reflexivity].
  refine (proj1 (migration_is_faithful 0 (mkStore [demo_first; demo_second] ∅) _ _ _)); vm_compute.
  - repeat constructor; set_solver.
  - repeat constructor; set_solver.
  - reflexivity.
Defined.

(** ** Outside the discipline of the callers

    A memory stored with a repeated tag gets two edges and counts twice; taking
    the tag off drops both edges but one count, so the counter stays at one
    with no memory left. *)
Lemma repeated_tag_breaks_the_counter :
  let e := with_tags ["rust"; "rust"] (entry_new "m1" 0 Fact "Cargo builds") in
  let g := untag_memory "m1" "rust" (add_memory 0 e mem_graph_new).2 in
  get_memories_by_tag "rust" g = [] ∧ tg_count <$> mg_tags g !! tag_id "rust" = Some 1%N.
Proof. by vm_compute. Qed.

(** Removing one of two relations between the same memories drops the reverse
    entry of both; removing the target then leaves an edge to a memory that no
    longer exists. *)
Lemma parallel_edges_leave_a_dangling_edge :
  let g := mark_contradiction "m1" "m2"
             (add_memory 1 demo_second (add_memory 0 demo_first mem_graph_new).2).2 in
  let g := remove_edge "m1" "m2" Contradicts (add_edge "m1" "m2" DerivedFrom g) in
  let g := (remove_memory "m2" g).2 in
  mg_memories g !! "m2" = None ∧ mkEdge "m2" DerivedFrom ∈ get_edges "m1" g.
Proof. split; [done|]. vm_compute. set_solver. Qed.

(** ** Prompt selection *)

Lemma select_loop_spec `{Lowercase} entries : ∀ room seen,
  let sel := select_loop room seen entries in
  length sel ≤ room ∧ NoDup (map dedupe_key sel) ∧ (∀ e, e ∈ sel → dedupe_key e ∉ seen)
  ∧ sublist sel entries
  ∧ ∀ e, e ∈ entries → dedupe_key e ≠ "" → dedupe_key e ∈ seen ∨ dedupe_key e ∈ map dedupe_key sel ∨ length sel = room.
Proof.
  induction entries as [|e entries IH]; intros room seen; simpl.
  { split_and!; [lia|constructor|by intros ? ?%elem_of_nil|constructor|by intros ? ?%elem_of_nil]. }
  destruct room as [|room].
  { split_and!; [done|constructor|by intros ? ?%elem_of_nil|apply sublist_nil_l|]. intros. by right; right. }
  destruct (str_is_empty (dedupe_key e) || bool_decide (dedupe_key e ∈ seen)) eqn:Ek.
  - destruct (IH (S room) seen) as (? & ? & ? & ? & Hc). split_and!; [done..|by apply sublist_cons|].
    intros e' [->|He']%elem_of_cons Hk; [|auto]. left. unfold str_is_empty in Ek.
    by apply orb_true_iff in Ek as [Ek|Ek]; bool_hyps.
  - apply orb_false_iff in Ek as [_ Hn%bool_decide_eq_false].
    destruct (IH room (dedupe_key e :: seen)) as (Hl & Hd & Hs & Hsub & Hc). split_and!.
    + simpl. lia.
    + constructor; [|done]. intros (x & Hx & Hin)%list_elem_of_fmap. apply (Hs x Hin). rewrite <- Hx. by left.
    + intros x [->|Hx]%elem_of_cons; [done|]. intros Hin. apply (Hs x Hx). by right.
    + by apply sublist_skip.
    + intros e' [->|He']%elem_of_cons Hk; [right; left; by left|].
      destruct (Hc e' He' Hk) as [[->|?]%elem_of_cons|[?|?]]; [right; left; by left|by left| |].
      * right; left. by right.
      * right; right. simpl. lia.
Qed.

(** The memories put in a prompt are the first distinct ones: at most
    [limit] active entries, in order, no two with the same text up to case and
    spacing, and an active entry with text is left out only when its text is
    already there or the limit is used up. *)
Theorem prompt_selection_is_distinct `{Lowercase} (entries : list MemoryEntry) (limit : nat) :
  let sel := selected_entries_for_prompt entries limit in
  length sel ≤ limit ∧ NoDup (map dedupe_key sel) ∧ sublist sel (List.filter me_active entries)
  ∧ ∀ e, e ∈ entries → me_active e = true → dedupe_key e ≠ "" →
      dedupe_key e ∈ map dedupe_key sel ∨ length sel = limit.
Proof.
  destruct (select_loop_spec (List.filter me_active entries) limit []) as (H1 & H2 & _ & H3 & H4).
  cbv zeta. split_and!; [done..|]. intros e He Ha Hk.
  destruct (H4 e) as [Hn|?]; [by apply elem_of_List_filter|done|by apply elem_of_nil in Hn|done].
Qed.

(** ** Cascade retrieval

    [MemoryGraph::cascade_retrieve] walks the graph breadth-first from the hits
    of an embedding search.  The walk is shown to end for every graph, scores
    and decay, to return only memories that lie within the depth limit of a
    seed, and to lose a seed only to the result limit. *)

(** ** Reachability *)

(** One step of the walk: along an edge, or through a shared tag. *)
Definition hop (g : MemoryGraph) (u v : string) : Prop :=
  ∃ e, e ∈ get_edges u g
    ∧ if starts_with "tag:" (ed_target e) then v ∈ get_incoming (ed_target e) g else v = ed_target e.

(** A memory [n] steps from one of the seeds. *)
Definition reached (g : MemoryGraph) (seeds : list string) (n : nat) (v : string) : Prop :=
  is_memory g v = true ∧ ∃ seed, seed ∈ seeds ∧ nsteps (hop g) n seed v.

(** ** Growth of the frontier *)

Section Frontier.
Context (decay : nat → f32) (g : MemoryGraph).

(** [f'] has at most [n] more queue entries than [f], all for the next depth
    and for ids satisfying [P]; results are only added for such ids. *)
Record extends (P : string → Prop) (depth n : nat) (f f' : Frontier) : Prop := {
  ex_queue : ∃ new, fr_queue f' = fr_queue f ++ new ∧ length new ≤ n
               ∧ ∀ id s d, (id, s, d) ∈ new → P id ∧ d = S depth;
  ex_results : ∀ id, is_Some (fr_results f' !! id) → is_Some (fr_results f !! id) ∨ P id;
  ex_keeps : ∀ id, is_Some (fr_results f !! id) → is_Some (fr_results f' !! id) }.

Lemma extends_refl P depth n f : extends P depth n f f.
Proof.
  split; [|by left|done]. exists []. rewrite app_nil_r. split_and!; [done|simpl; lia|].
  by intros ? ? ? ?%elem_of_nil.
Qed.

Lemma extends_trans P depth n1 n2 f1 f2 f3 :
  extends P depth n1 f1 f2 → extends P depth n2 f2 f3 → extends P depth (n1 + n2) f1 f3.
Proof.
  intros [(new1 & Q1 & L1 & N1) R1 K1] [(new2 & Q2 & L2 & N2) R2 K2]. split; [|naive_solver|auto].
  exists (new1 ++ new2). rewrite Q2, Q1, app_assoc. split_and!; [done|rewrite length_app; lia|].
  intros id s d [?|?]%elem_of_app; eauto.
Qed.

Lemma extends_weaken P Q depth n f f' :
  (∀ id, P id → Q id) → extends P depth n f f' → extends Q depth n f f'.
Proof. intros HPQ [(new & ? & ? & HN) HR HK]. split; [|naive_solver|done]. exists new. split_and!; naive_solver. Qed.

Lemma offer_extends (P : string → Prop) id score depth f : P id → extends P depth 1 f (offer id score depth f).
Proof.
  intros HP. unfold offer. case_match; [|apply extends_refl]. split; simpl.
  - eexists. split_and!; [done|simpl; lia|]. by intros ? ? ? [= -> -> ->]%list_elem_of_singleton.
  - intros id'. rewrite lookup_insert. case_decide; [subst; by right|by left].
  - intros id'. rewrite lookup_insert. by case_decide.
Qed.

(** The queue entries one edge can cause. *)
Definition edge_fan (e : Edge) : nat :=
  if starts_with "tag:" (ed_target e) then length (get_incoming (ed_target e) g) else 1.

Lemma follow_edge_extends u visited score depth f e :
  e ∈ get_edges u g →
  extends (λ v, hop g u v ∧ is_memory g v = true) depth (edge_fan e) f
    (follow_edge decay g visited score depth f e).
Proof.
  intros He. unfold follow_edge, edge_fan. destruct (bool_decide (ed_target e ∈ visited)); [apply extends_refl|].
  destruct (starts_with "tag:" (ed_target e)) eqn:Et.
  - set (score' := F32.mul _ _). clearbody score'.
    assert (Hall : ∀ v, v ∈ get_incoming (ed_target e) g → hop g u v)
      by (intros v Hv; exists e; by rewrite Et).
    revert f. induction (get_incoming (ed_target e) g) as [|v l IH]; intros f; simpl; [apply extends_refl|].
    apply (extends_trans _ _ 1 (length l) _ (if negb (bool_decide (v ∈ visited)) && is_memory g v
                                             then offer v score' depth f else f)).
    + destruct (negb _ && _) eqn:Ev; [|apply extends_refl]. apply andb_true_iff in Ev as [_ Ev].
      apply offer_extends. split; [|done]. apply Hall. by left.
    + apply IH. intros w Hw. apply Hall. by right.
  - destruct (is_memory g (ed_target e)) eqn:Em; [|apply extends_refl].
    apply offer_extends. split; [|done]. exists e. by rewrite Et.
Qed.

Lemma follow_edges_extends u visited score depth es : ∀ f,
  (∀ e, e ∈ es → e ∈ get_edges u g) →
  extends (λ v, hop g u v ∧ is_memory g v = true) depth (sum_list_with edge_fan es) f
    (foldl (follow_edge decay g visited score depth) f es).
Proof.
  induction es as [|e es IH]; intros f Hes; simpl; [apply extends_refl|].
  eapply extends_trans; [apply follow_edge_extends, Hes; left|]. apply IH. intros e' He'. apply Hes. by right.
Qed.
End Frontier.

(** ** The walk *)

Section Walk.
Context (decay : nat → f32) (g : MemoryGraph) (max_depth : nat) (seeds : list string).

Definition in_reach (id : string) : Prop := ∃ n, n ≤ max_depth ∧ reached g seeds n id.

Record frontier_ok (f : Frontier) : Prop := {
  fo_queue : ∀ id s d, (id, s, d) ∈ fr_queue f → d ≤ max_depth ∧ reached g seeds d id;
  fo_results : ∀ id, is_Some (fr_results f !! id) → in_reach id }.

(** What is left to do: queued entries, and the fan-out of the memories that
    were not expanded yet. *)
Definition work (visited : gset string) (f : Frontier) : nat :=
  length (fr_queue f) + sum_over (fan_out g) (dom (mg_memories g) ∖ visited).

Lemma frontier_ok_pop r x rest : frontier_ok (mkFrontier r (x :: rest)) → frontier_ok (mkFrontier r rest).
Proof. intros [Hq Hr]. split; [|done]. intros id s d Hin. apply (Hq id s d). by right. Qed.

Lemma frontier_ok_expand f f' u n depth :
  frontier_ok f → reached g seeds depth u → S depth ≤ max_depth →
  extends (λ v, hop g u v ∧ is_memory g v = true) depth n f f' → frontier_ok f'.
Proof.
  intros [Hq Hr] [Hu (seed & Hs & Hn)] Hd [(new & Q & _ & N) R _].
  assert (Hnext : ∀ v, hop g u v ∧ is_memory g v = true → reached g seeds (S depth) v).
  { intros v [Hv Hm]. split; [done|]. exists seed. split; [done|]. by eapply nsteps_r. }
  split.
  - intros id s d. rewrite Q, elem_of_app. intros [Hin|Hin]; [by eapply Hq|].
    apply N in Hin as [Hv ->]. auto.
  - intros id [Hid|Hid]%R; [by apply Hr|]. exists (S depth). auto.
Qed.

Lemma work_expand visited u :
  is_memory g u = true → u ∉ visited →
  sum_over (fan_out g) (dom (mg_memories g) ∖ visited)
  = fan_out g u + sum_over (fan_out g) (dom (mg_memories g) ∖ ({[u]} ∪ visited)).
Proof.
  intros Hu Hv. apply bool_decide_eq_true, elem_of_dom in Hu.
  rewrite (sum_over_remove _ (dom (mg_memories g) ∖ visited) u) by set_solver.
  do 2 f_equal. set_solver.
Qed.

Lemma cascade_loop_spec fuel : ∀ visited f,
  frontier_ok f → work visited f ≤ fuel →
  ∃ r, cascade_loop decay fuel g max_depth visited f = Some r
    ∧ (∀ id, is_Some (r !! id) → in_reach id)
    ∧ ∀ id, is_Some (fr_results f !! id) → is_Some (r !! id).
Proof.
  induction fuel as [|fuel IH]; intros visited [results [|[[u score] depth] rest]] Hok Hw;
    try (by exists results; split_and!; [|apply (fo_results _ Hok)|]).
  { unfold work in Hw. simpl in Hw. lia. }
  destruct (fo_queue _ Hok u score depth ltac:(left)) as [Hd Hu].
  pose proof (frontier_ok_pop _ _ _ Hok) as Hpop. unfold work in Hw. simpl in Hw |- *.
  case_bool_decide as Hv.
  { apply IH; [done|]. unfold work. simpl. lia. }
  rewrite (work_expand visited u) in Hw by (apply Hu || done).
  destruct (max_depth <=? depth) eqn:Em.
  { apply IH; [done|]. unfold work. simpl. lia. }
  apply Nat.leb_gt in Em.
  pose proof (follow_edges_extends decay g u ({[u]} ∪ visited) score depth (get_edges u g)
                (mkFrontier results rest) ltac:(done)) as Hex.
  set (f' := foldl _ _ _) in *. clearbody f'.
  destruct (IH ({[u]} ∪ visited) f') as (r & Hr & Hreach & Hkeep).
  - eapply frontier_ok_expand; [exact Hpop|exact Hu|lia|exact Hex].
  - destruct Hex as [(new & Q & L & _) _ _]. change (sum_list_with _ _) with (fan_out g u) in L.
    unfold work. rewrite Q, length_app. simpl. lia.
  - exists r. split_and!; [done..|]. intros id Hid. apply Hkeep. by apply (ex_keeps _ _ _ _ _ Hex).
Qed.
End Walk.

Lemma seed_frontier_spec g max_depth ids seeds : ∀ f,
  (∀ s, s ∈ seeds → s.1 ∈ ids) → frontier_ok g max_depth ids f →
  let f' := foldl (λ f s, if is_memory g s.1
                          then mkFrontier (<[s.1 := s.2]> (fr_results f)) (fr_queue f ++ [(s.1, s.2, 0)])
                          else f) f seeds in
  frontier_ok g max_depth ids f' ∧ length (fr_queue f') ≤ length (fr_queue f) + length seeds
  ∧ (∀ id, is_Some (fr_results f !! id) → is_Some (fr_results f' !! id))
  ∧ ∀ s, s ∈ seeds → is_memory g s.1 = true → is_Some (fr_results f' !! s.1).
Proof.
  induction seeds as [|s seeds IH]; intros f Hids Hok; cbn [foldl].
  { split_and!; [done|simpl; lia|done|]. by intros s ?%elem_of_nil. }
  set (f1 := if is_memory g s.1 then _ else f).
  assert (frontier_ok g max_depth ids f1 ∧ length (fr_queue f1) ≤ S (length (fr_queue f))
    ∧ (∀ id, is_Some (fr_results f !! id) → is_Some (fr_results f1 !! id))
    ∧ (is_memory g s.1 = true → is_Some (fr_results f1 !! s.1))) as (Hok1 & Hl1 & Hk1 & Hs1).
  { unfold f1. destruct (is_memory g s.1) eqn:Em; [|split_and!; [done|lia|done|done]].
    assert (Hr : reached g ids 0 s.1).
    { split; [done|]. exists s.1. split; [apply Hids; left|constructor]. }
    split_and!; simpl.
    - destruct Hok as [Hq Hres]. split; simpl.
      + intros id sc d. rewrite elem_of_app, list_elem_of_singleton.
        intros [Hin|[= -> -> ->]]; [by eapply Hq|]. split; [lia|done].
      + intros id. rewrite lookup_insert. case_decide; [|apply Hres]. subst. intros _. exists 0. split; [lia|done].
    - rewrite length_app. simpl. lia.
    - intros id. rewrite lookup_insert. by case_decide.
    - intros _. by rewrite lookup_insert_eq. }
  clearbody f1. destruct (IH f1) as (HokI & HlI & HkI & HsI); [|done|].
  { intros x Hx. apply Hids. by right. }
  split_and!; [done|simpl; lia|auto|].
  intros x [->|Hx]%elem_of_cons Hm; auto.
Qed.

(** Cascade retrieval always answers, and answers soundly: for every graph,
    scores, decay, limits and hash-map order it ends with a result; the result
    has at most [max_results] entries, for distinct memories of the graph, each
    within [max_depth] steps (an edge, or a shared tag) of a seed; a seed that
    is a memory is missing only when the limit is used up; and only the
    retrieval counter of the graph changes. *)
Theorem cascade_retrieval (decay : nat → f32) (iter : gmap string f32 → list (string * f32))
    (seed_ids : list string) (seed_scores : list f32) (max_depth max_results : nat) (g : MemoryGraph) :
  (∀ m, iter m ≡ₚ map_to_list m) →
  ∃ out, cascade_retrieve decay iter seed_ids seed_scores max_depth max_results g
         = (Some out, count_retrieval g)
    ∧ length out ≤ max_results ∧ NoDup (map fst out)
    ∧ (∀ id, id ∈ map fst out → in_reach g max_depth seed_ids id)
    ∧ (∀ s, s ∈ zip seed_ids seed_scores → is_memory g s.1 = true →
         s.1 ∈ map fst out ∨ length out = max_results).
Proof.
  intros Hiter. unfold cascade_retrieve. set (g' := count_retrieval g). set (seeds := zip seed_ids seed_scores).
  destruct (seed_frontier_spec g' max_depth seed_ids seeds (mkFrontier ∅ [])) as (Hok & Hl & _ & Hs).
  { intros s Hin. destruct s. by apply elem_of_zip_l in Hin. }
  { split; simpl; [by intros ? ? ? ?%elem_of_nil|]. intros id. rewrite lookup_empty. by intros [].  }
  destruct (cascade_loop_spec decay g' max_depth seed_ids (cascade_fuel g' seeds) ∅ (seed_frontier g' seeds))
    as (r & Hr & Hreach & Hkeep); [exact Hok| |].
  { unfold work, cascade_fuel, sum_over, seed_frontier. rewrite difference_empty_L. simpl in Hl |- *. lia. }
  rewrite Hr. simpl. eexists. split; [done|].
  destruct (top_k_split F32.total_cmp F32.gtb (iter r) max_results) as (dropped & Hp & Hlen).
  fold (top_k_scored (T := string)) in Hp, Hlen. set (out := top_k_scored (iter r) max_results) in *.
  assert (Hfst : map fst (map_to_list r) ≡ₚ map fst out ++ map fst dropped).
  { rewrite <- map_app, <- Hp. by rewrite Hiter. }
  assert (Hdom : ∀ id, id ∈ map fst out ∨ id ∈ map fst dropped ↔ is_Some (r !! id)).
  { intros id. rewrite <- elem_of_app, <- Hfst, list_elem_of_fmap. split.
    - intros ([? x] & -> & Hx%elem_of_map_to_list). by eexists.
    - intros [x Hx]. exists (id, x). by rewrite elem_of_map_to_list. }
  split_and!.
  - lia.
  - assert (Hn : NoDup (map fst (map_to_list r))) by apply NoDup_fst_map_to_list.
    rewrite Hfst in Hn. by apply NoDup_app in Hn as [? _].
  - intros id Hid. apply Hreach. apply Hdom. by left.
  - intros s Hin Hm. assert (Hsr : is_Some (r !! s.1)) by (by apply Hkeep, Hs).
    apply Hdom in Hsr as [?|Hd]; [by left|right].
    assert (length dropped ≠ 0) by (destruct dropped; [by apply elem_of_nil in Hd|done]).
    apply Permutation_length in Hp. rewrite length_app in Hp. lia.
Qed.

(** Two memories that share a tag, one of them the only hit. *)
Definition demo_cascade_graph : MemoryGraph :=
  foldl (attach_tag 0 "m2") (foldl (attach_tag 0 "m1")
    (set_memories (<["m1" := mkEntry "m1" Fact "a" ["t"] "a t" 0 0 0%N None TrustMedium 1%N true None [] None None F32.one]>
                     {["m2" := mkEntry "m2" Fact "b" ["t"] "b t" 0 0 0%N None TrustMedium 1%N true None [] None None F32.one]})
       mem_graph_new) ["t"]) ["t"].

Lemma cascade_retrieval_witness :
  (∃ out, cascade_retrieve (λ _, F32.of_decimal 7 1) map_to_list ["m1"] [F32.one] 2 5 demo_cascade_graph
          = (Some out, count_retrieval demo_cascade_graph) ∧ length out ≤ 5)
  ∧ option_map (map fst)
      (cascade_retrieve (λ _, F32.of_decimal 7 1) map_to_list ["m1"] [F32.one] 2 5 demo_cascade_graph).1
    = Some ["m1"; "m2"].
Proof.
  split; [|vm_compute; reflexivity].
  destruct (cascade_retrieval (λ _, F32.of_decimal 7 1) map_to_list ["m1"] [F32.one] 2 5 demo_cascade_graph)
    as (out & Ho & Hl & _); [intros m; reflexivity|]. exists out. split; [exact Ho|exact Hl].
Defined.
