(* ===== verification/RustText.v ===== *)
(** * Slicing, splitting and replacing text

    The [str] operations of the file tools and of the conversation code:
    character boundaries and truncation at one (jcode-core's [truncate_str]),
    [split], [matches], [replace] and [replacen], [rfind]-style prefixes, and
    the small formatting helpers of crates/jcode-core/src/util.rs. *)

From stdpp Require Import base list strings pretty.
From S2P Require Import Prelude RustString Mention.

Open Scope string_scope.
Open Scope nat_scope.
Open Scope list_scope.

(** ** Character boundaries *)

(** [s.is_char_boundary(i)]. *)
Definition is_char_boundary (s : string) (i : nat) : bool :=
  if i =? 0 then true
  else match str_drop i s with
       | "" => i =? String.length s
       | String c _ => negb (is_cont c)
       end.

(** [while end > 0 && !s.is_char_boundary(end) { end -= 1 }]. *)
Fixpoint floor_boundary (s : string) (e : nat) : nat :=
  match e with
  | O => O
  | S e' => if is_char_boundary s e then e else floor_boundary s e'
  end.

(** [while start < s.len() && !s.is_char_boundary(start) { start += 1 }], for
    [fuel] at least [s.len() - start]. *)
Fixpoint ceil_boundary (fuel : nat) (s : string) (start : nat) : nat :=
  match fuel with
  | O => start
  | S fuel' =>
      if (start <? String.length s) && negb (is_char_boundary s start)
      then ceil_boundary fuel' s (S start)
      else start
  end.

(** [truncate_str]. *)
Definition truncate_str (s : string) (max_bytes : nat) : string :=
  if String.length s <=? max_bytes then s
  else str_take (floor_boundary s max_bytes) s.

(** ** Token and number formatting *)

Definition APPROX_CHARS_PER_TOKEN : nat := 4.

Inductive ApproxTokenSeverity := SevNormal | SevWarning | SevDanger.

Definition estimate_tokens (s : string) : nat := String.length s / APPROX_CHARS_PER_TOKEN.

(** The digits of [format_number], [idx] of them already written out of [len]. *)
Fixpoint group_digits (len idx : nat) (digits : string) : string :=
  match digits with
  | "" => ""
  | String d rest =>
      (if (0 <? idx) && ((len - idx) mod 3 =? 0) then "," else "")
      +:+ String d (group_digits len (S idx) rest)
  end.
Definition format_number (n : nat) : string :=
  let digits := pretty n in group_digits (String.length digits) 0 digits.

Definition format_approx_token_count (tokens : N) : string :=
  (if (tokens <=? 999)%N then pretty tokens +:+ " tok"
   else if (tokens <=? 9999)%N then
     let whole := (tokens / 1000)%N in
     let tenth := ((tokens mod 1000) / 100)%N in
     if (tenth =? 0)%N then pretty whole +:+ "k tok"
     else pretty whole +:+ "." +:+ pretty tenth +:+ "k tok"
   else pretty (tokens / 1000)%N +:+ "k tok").

Definition approx_tool_output_token_severity (tokens : N) : ApproxTokenSeverity :=
  if (12000 <=? tokens)%N then SevDanger
  else if (4000 <=? tokens)%N then SevWarning
  else SevNormal.

Definition sse_data_line (line : string) : option string :=
  (λ rest, default rest (strip_prefix " " rest)) <$> strip_prefix "data:" line.

(** ** Splitting and replacing *)

(** The pieces between the successive non-overlapping matches of a non-empty
    pattern; [skip] bytes of the current match are still to be passed. *)
Fixpoint split_from (pat : string) (skip : nat) (cur s : string) : list string :=
  match s with
  | "" => [cur]
  | String c s' =>
      match skip with
      | S k => split_from pat k cur s'
      | O => if starts_with pat s then cur :: split_from pat (String.length pat - 1) "" s'
             else split_from pat 0 (cur +:+ String c "") s'
      end
  end.

(** [s.split(pat)]; the empty pattern matches at every character boundary. *)
Definition str_split (pat s : string) : list string :=
  if str_is_empty pat then "" :: chars s ++ [""] else split_from pat 0 "" s.

(** [s.matches(pat).count()], [s.replace(pat, new)] and [s.replacen(pat, new, 1)]. *)
Definition match_count (pat s : string) : nat := length (str_split pat s) - 1.
Definition str_replace (pat new s : string) : string := String.concat new (str_split pat s).
Definition replacen_1 (pat new s : string) : string :=
  match str_find pat s with
  | Some n => str_take n s +:+ new +:+ str_drop (n + String.length pat) s
  | None => s
  end.

(** [s.split(sep).next().unwrap_or("")]. *)
Definition before_first (sep s : string) : string :=
  match str_find sep s with Some n => str_take n s | None => s end.

(** [n.to_string()] right-aligned in [w] columns. *)
Definition pad_left (w : nat) (s : string) : string :=
  String.concat "" (replicate (w - char_count s) " ") +:+ s.

(** ** Facts: appending and taking *)

#[local] Arguments String.append : simpl nomatch.

Lemma append_cons (c : Ascii.ascii) (s : string) : String c s = String c "" +:+ s.
Proof. done. Qed.

Lemma str_take_all n s : String.length s ≤ n → str_take n s = s.
Proof. revert n. induction s; intros [|n] ?; simpl in *; try done; try lia. f_equal. apply IHs. lia. Qed.

Lemma length_str_take_le n s : String.length (str_take n s) ≤ n.
Proof. revert n. induction s; intros [|n]; simpl; try lia. specialize (IHs n). lia. Qed.

Lemma str_drop_all n s : String.length s ≤ n → str_drop n s = "".
Proof. revert n. induction s; intros [|n] ?; simpl in *; try done; try lia. apply IHs. lia. Qed.

(** ** Facts: boundaries and truncation *)

Lemma floor_boundary_spec s e :
  floor_boundary s e ≤ e ∧ is_char_boundary s (floor_boundary s e) = true
  ∧ ∀ i, floor_boundary s e < i ≤ e → is_char_boundary s i = false.
Proof.
  induction e as [|e (IH1 & IH2 & IH3)].
  - simpl. split_and!; [lia|done|]. intros i ?. lia.
  - cbn [floor_boundary]. destruct (is_char_boundary s (S e)) eqn:E.
    + split_and!; [lia|done|]. intros i ?. lia.
    + split_and!; [lia|done|]. intros i Hi. destruct (decide (i = S e)) as [->|]; [done|].
      apply IH3. lia.
Qed.

(** Cutting a valid string at a boundary leaves two valid strings. *)
Lemma utf8_from_cut k n s :
  utf8_from k s = true → n ≤ String.length s → 
  (n < String.length s → ∃ c r, str_drop n s = String c r ∧ is_cont c = false) →
  (n = 0 → k = 0) →
  utf8_from k (str_take n s) = true ∧ utf8 (str_drop n s) = true.
Proof.
  revert k n. induction s as [|c s IH]; intros k [|n] Hu Hle Hb Hk; simpl in Hle; try lia.
  - rewrite (Hk eq_refl) in *. done.
  - rewrite (Hk eq_refl) in *. done.
  - cbn [str_take str_drop]. destruct k as [|k]; cbn [utf8_from] in *.
    + apply andb_true_iff in Hu as [Hc Hu]. rewrite Hc. simpl.
      apply (IH (char_len c - 1) n Hu); [lia|intros; apply Hb; simpl; lia|].
      intros ->. destruct s as [|d s]; simpl in *.
      * by apply Nat.eqb_eq in Hu.
      * destruct (Hb ltac:(lia)) as (c' & r & [= -> ->] & Hd).
        destruct (char_len c - 1) as [|m] eqn:Em; [done|]. rewrite Hd in Hu. done.
    + apply andb_true_iff in Hu as [Hc Hu]. rewrite Hc. simpl.
      apply (IH k n Hu); [lia|intros; apply Hb; simpl; lia|].
      intros ->. destruct s as [|d s]; simpl in *.
      * by apply Nat.eqb_eq in Hu.
      * destruct (Hb ltac:(lia)) as (c' & r & [= -> ->] & Hd).
        destruct k; [done|]. rewrite Hd in Hu. done.
Qed.

Lemma boundary_cut s n :
  utf8 s = true → is_char_boundary s n = true →
  utf8 (str_take n s) = true ∧ utf8 (str_drop n s) = true.
Proof.
  intros Hu Hb. unfold is_char_boundary in Hb. destruct (n =? 0) eqn:E0.
  - apply Nat.eqb_eq in E0 as ->. by destruct s.
  - destruct (str_drop n s) as [|c r] eqn:Ed.
    + apply Nat.eqb_eq in Hb. subst. rewrite str_take_all by done. by rewrite Hu.
    + apply negb_true_iff in Hb. rewrite <- Ed. apply (utf8_from_cut 0); [done|..].
      * apply (f_equal String.length) in Ed. rewrite length_str_drop in Ed. simpl in Ed. lia.
      * intros _. eauto.
      * done.
Qed.

Lemma truncate_str_spec s n :
  String.length (truncate_str s n) ≤ n
  ∧ (∃ rest, s = truncate_str s n +:+ rest)
  ∧ (utf8 s = true → utf8 (truncate_str s n) = true).
Proof.
  unfold truncate_str. destruct (String.length s <=? n) eqn:E.
  - apply Nat.leb_le in E. split_and!; [done| |done]. exists "". by rewrite append_nil_r_s.
  - destruct (floor_boundary_spec s n) as (H1 & H2 & _). split_and!.
    + pose proof (length_str_take_le (floor_boundary s n) s). lia.
    + exists (str_drop (floor_boundary s n) s). by rewrite str_take_drop_s.
    + intros Hu. by apply boundary_cut.
Qed.

(** ** Facts: splitting *)

Lemma split_from_skip pat k cur s :
  split_from pat k cur s = split_from pat 0 cur (str_drop k s).
Proof. revert k. induction s as [|c s IH]; intros [|k]; simpl; done. Qed.

(** One match at a time: the text before the first match, then the rest. *)
Lemma split_from_find pat cur s :
  pat ≠ "" →
  split_from pat 0 cur s =
  match str_find pat s with
  | None => [cur +:+ s]
  | Some n => (cur +:+ str_take n s) :: split_from pat 0 "" (str_drop (n + String.length pat) s)
  end.
Proof.
  intros Hp. revert cur. induction s as [|c s IH]; intros cur.
  - destruct pat; [done|]. simpl. by rewrite append_nil_r_s.
  - cbn [split_from str_find]. destruct (starts_with pat (String c s)) eqn:E.
    + simpl. rewrite append_nil_r_s. f_equal. destruct pat as [|p pat]; [done|].
      rewrite split_from_skip. simpl. by rewrite Nat.sub_0_r.
    + rewrite IH. destruct (str_find pat s) as [n|]; simpl; [|by rewrite append_assoc_s].
      by rewrite append_assoc_s.
Qed.

Lemma split_from_non_nil pat k cur s : split_from pat k cur s ≠ [].
Proof.
  revert k cur. induction s as [|c s IH]; intros [|k] cur; cbn [split_from]; try done.
  destruct (starts_with pat (String c s)); [done|]. apply IH.
Qed.

Lemma str_find_cut pat s n :
  str_find pat s = Some n → s = str_take n s +:+ pat +:+ str_drop (n + String.length pat) s.
Proof.
  intros H. destruct (str_find_Some _ _ _ H) as (post & Hs & Hn).
  assert (str_drop (n + String.length pat) s = post) as ->; [|done].
  assert (Hl : n + String.length pat = String.length (str_take n s +:+ pat))
    by (rewrite length_append_s, length_str_take; done).
  rewrite Hl. rewrite Hs at 2. by rewrite <- append_assoc_s, str_drop_append.
Qed.

Lemma concat_cons sep x l : l ≠ [] → String.concat sep (x :: l) = x +:+ sep +:+ String.concat sep l.
Proof. by destruct l. Qed.

Lemma concat_empty l : String.concat "" l = str_concat l.
Proof.
  induction l as [|x l IH]; [done|]. destruct l as [|y l]; [simpl; by rewrite append_nil_r_s|].
  rewrite concat_cons by done. rewrite IH. done.
Qed.

(** Joining the pieces with the pattern gives the text back. *)
Lemma concat_split_from pat cur s : pat ≠ "" → String.concat pat (split_from pat 0 cur s) = cur +:+ s.
Proof.
  intros Hp. remember (String.length s) as n eqn:Hn. revert cur s Hn.
  induction (lt_wf n) as [n _ IH]. intros cur s ->. rewrite split_from_find by done.
  destruct (str_find pat s) as [k|] eqn:E; [|done].
  rewrite concat_cons by apply split_from_non_nil.
  assert (Hlen : String.length (str_drop (k + String.length pat) s) < String.length s).
  { rewrite length_str_drop. destruct (str_find_Some _ _ _ E) as (post & Hs & Hk).
    apply (f_equal String.length) in Hs. rewrite !length_append_s in Hs.
    destruct pat; [done|]. simpl in *. rewrite length_str_take in Hs by done. lia. }
  rewrite (IH _ Hlen "" _ eq_refl), append_assoc_s.
  rewrite (str_find_cut _ _ _ E) at 3. done.
Qed.

Lemma concat_split pat s : String.concat pat (str_split pat s) = s.
Proof.
  unfold str_split, str_is_empty. case_bool_decide as E.
  - subst. rewrite concat_empty. change (str_concat ("" :: chars s ++ [""])) with (str_concat (chars s ++ [""])).
    rewrite str_concat_app, str_concat_chars. unfold str_concat. simpl. by rewrite append_nil_r_s.
  - by rewrite concat_split_from.
Qed.

Lemma str_find_empty s : str_find "" s = Some 0.
Proof. by destruct s. Qed.

Lemma match_count_zero pat s : match_count pat s = 0 ↔ str_find pat s = None.
Proof.
  unfold match_count, str_split, str_is_empty. case_bool_decide as E.
  - subst. rewrite str_find_empty. simpl. rewrite length_app. simpl. split; [lia|done].
  - rewrite split_from_find by done. destruct (str_find pat s) as [n|]; simpl; [|done].
    split; [|done]. intros H. destruct (split_from pat 0 "" (str_drop (n + String.length pat) s)) eqn:E2;
      [by apply split_from_non_nil in E2|]. simpl in H. lia.
Qed.

(** With one match, both forms of replacement are the substitution. *)
Lemma match_count_one pat new s :
  match_count pat s = 1 →
  ∃ a b, s = a +:+ pat +:+ b ∧ str_split pat s = [a; b]
       ∧ str_replace pat new s = a +:+ new +:+ b ∧ replacen_1 pat new s = a +:+ new +:+ b.
Proof.
  intros Hc. pose proof (concat_split pat s) as Hcat. unfold match_count in Hc.
  assert (Hf : replacen_1 pat new s = String.concat new (take 1 (str_split pat s) ++ [String.concat pat (drop 1 (str_split pat s))])).
  { unfold replacen_1. unfold str_split, str_is_empty in *. case_bool_decide as E.
    - subst. rewrite str_find_empty. simpl. rewrite drop_0.
      rewrite concat_empty, str_concat_app, str_concat_chars. unfold str_concat. simpl. rewrite append_nil_r_s. by destruct s.
    - rewrite split_from_find in * by done. destruct (str_find pat s) as [n|] eqn:Ef.
      + simpl. rewrite drop_0, concat_split_from by done. done.
      + simpl in Hc. lia. }
  unfold str_replace. destruct (str_split pat s) as [|a [|b [|]]]; simpl in Hc; try lia.
  exists a, b. rewrite Hf. simpl in *. by rewrite <- Hcat.
Qed.

(** ** Facts: trimming and lines *)

Definition starts_char (s : string) : bool :=
  match s with "" => true | String c _ => negb (is_cont c) end.

Lemma utf8_starts_char s : utf8 s = true → starts_char s = true.
Proof. destruct s as [|c s]; [done|]. unfold utf8. simpl. by intros [? _]%andb_true_iff. Qed.

Lemma chars_cons_start c s : starts_char s = true → chars (String c s) = String c "" :: chars s.
Proof. intros H. destruct s as [|d s]; [done|]. cbn [chars]. simpl in H. apply negb_true_iff in H. by rewrite H. Qed.

Lemma chars_app a b : starts_char b = true → chars (a +:+ b) = chars a ++ chars b.
Proof.
  intros Hb. induction a as [|c a IH]; [done|]. change (String c a +:+ b) with (String c (a +:+ b)).
  destruct a as [|d a].
  - simpl (_ +:+ b). rewrite chars_cons_start by done. done.
  - change (String d a +:+ b) with (String d (a +:+ b)) in *. cbn [chars] in *.
    change (match a +:+ b with
      | "" => [String d ""]
      | String e _ => if is_cont e then match chars (a +:+ b) with h :: t => String d h :: t | [] => [String d ""] end
                      else String d "" :: chars (a +:+ b) end) with (chars (String d (a +:+ b))) in *.
    change (match a with
      | "" => [String d ""]
      | String e _ => if is_cont e then match chars a with h :: t => String d h :: t | [] => [String d ""] end
                      else String d "" :: chars a end) with (chars (String d a)) in *.
    rewrite IH. destruct (is_cont d); [|done].
    destruct (chars (String d a)) as [|h t] eqn:E; [|done].
    pose proof (str_concat_chars (String d a)) as Hc. by rewrite E in Hc.
Qed.

Lemma chars_nonempty s c : c ∈ chars s → c ≠ "".
Proof.
  induction s as [|d s IH]; [by intros ?%elem_of_nil|]. destruct s as [|e s].
  - simpl. intros ->%list_elem_of_singleton. done.
  - cbn [chars]. change (match s with
      | "" => [String e ""]
      | String f _ => if is_cont f then match chars s with h :: t => String e h :: t | [] => [String e ""] end
                      else String e "" :: chars s end) with (chars (String e s)).
    destruct (is_cont e).
    + destruct (chars (String e s)) as [|h t]; [by intros ->%list_elem_of_singleton|].
      intros [->|Hc]%elem_of_cons; [done|]. apply IH. by right.
    + intros [->|Hc]%elem_of_cons; [done|]. by apply IH.
Qed.

Lemma str_concat_nil l : (∀ c, c ∈ l → c ≠ "") → str_concat l = "" → l = [].
Proof.
  destruct l as [|x l]; [done|]. intros Hne H. exfalso. apply (Hne x); [left|].
  change (str_concat (x :: l)) with (x +:+ str_concat l) in H. by destruct x.
Qed.

Lemma drop_while_split {A} (p : A → bool) l : ∃ d, l = d ++ drop_while p l ∧ forallb p d = true.
Proof.
  induction l as [|x l (d & IH & Hd)]; simpl; [by exists []|]. destruct (p x) eqn:E; [|by exists []].
  exists (x :: d). simpl. rewrite E, Hd. split; [by f_equal|done].
Qed.

Lemma drop_while_end_prefix {A} (p : A → bool) l : ∃ d, l = drop_while_end p l ++ d ∧ forallb p d = true.
Proof.
  unfold drop_while_end. destruct (drop_while_split p (rev l)) as (d & H & Hd).
  exists (rev d). split; [by rewrite <- rev_app_distr, <- H, rev_involutive|].
  apply forallb_forall. intros x Hx. rewrite forallb_forall in Hd. apply Hd. by apply in_rev.
Qed.

Lemma drop_while_app {A} (p : A → bool) l1 l2 :
  drop_while p l1 ≠ [] → drop_while p (l1 ++ l2) = drop_while p l1 ++ l2.
Proof. induction l1 as [|x l1 IH]; simpl; [done|]. destruct (p x); auto. Qed.

Lemma drop_while_end_app {A} (p : A → bool) l1 l2 :
  drop_while_end p l2 ≠ [] → drop_while_end p (l1 ++ l2) = l1 ++ drop_while_end p l2.
Proof.
  unfold drop_while_end. intros H. rewrite rev_app_distr, drop_while_app.
  - by rewrite rev_app_distr, rev_involutive.
  - intros E. by rewrite E in H.
Qed.

(** A non-empty text that is its own [trim_end] ends in a character that is no
    whitespace: nothing put before it is trimmed. *)
Lemma trim_end_id_chars s : trim_end s = s → drop_while_end is_whitespace (chars s) = chars s.
Proof.
  unfold trim_end, trim_end_matches. intros H.
  destruct (drop_while_end_prefix is_whitespace (chars s)) as (d & Hd & _).
  enough (d = []) as -> by (rewrite app_nil_r in Hd; by symmetry).
  apply str_concat_nil.
  - intros c Hc. apply (chars_nonempty s). rewrite Hd. apply elem_of_app; by right.
  - apply (f_equal str_concat) in Hd. rewrite str_concat_app, H, str_concat_chars in Hd.
    rewrite <- (append_nil_r_s s) in Hd at 1. by apply append_inj_l_s in Hd.
Qed.

Lemma chars_nil s : chars s = [] → s = "".
Proof. intros H. rewrite <- (str_concat_chars s), H. done. Qed.

Lemma trim_end_append a b :
  b ≠ "" → starts_char b = true → trim_end b = b → trim_end (a +:+ b) = a +:+ b.
Proof.
  intros Hne Hs Hb. pose proof (trim_end_id_chars b Hb) as Hc. unfold trim_end, trim_end_matches in *.
  rewrite chars_app by done. rewrite drop_while_end_app by (rewrite Hc; intros ?%chars_nil; done).
  by rewrite Hc, str_concat_app, !str_concat_chars.
Qed.

(** [trim] of a text that starts with a character that is no whitespace. *)
Lemma trim_start_solid c s :
  starts_char s = true → is_whitespace (String c "") = false → trim (String c s) = trim_end (String c s).
Proof.
  intros Hs Hc. unfold trim, trim_end, trim_end_matches. rewrite chars_cons_start by done. simpl.
  by rewrite Hc.
Qed.

(** A text in braces is trimmed as a whole. *)
Lemma trim_braced x : starts_char x = true → trim ("{" +:+ x +:+ "}") = "{" +:+ x +:+ "}".
Proof.
  intros Hx. change ("{" +:+ x +:+ "}") with (String (Ascii.ascii_of_nat 123) (x +:+ "}")).
  rewrite trim_start_solid; [|by destruct x|done].
  change (String (Ascii.ascii_of_nat 123) (x +:+ "}")) with (String (Ascii.ascii_of_nat 123) x +:+ "}"). by apply trim_end_append.
Qed.

Definition is_lf (c : Ascii.ascii) : bool := (byte_val c =? 10)%N.

(** A text that [lines] returns unchanged: no line feed, no final carriage return. *)
Definition line_ok (s : string) : bool := negb (any_byte is_lf s) && bool_decide (strip_cr s = s).

Lemma lines_from_line cur s rest :
  any_byte is_lf s = false → lines_from cur (s +:+ newline +:+ rest) = strip_cr (cur +:+ s) :: lines_from "" rest.
Proof.
  revert cur. induction s as [|c s IH]; intros cur Hs.
  - change ("" +:+ newline +:+ rest) with (String (Ascii.ascii_of_nat 10) rest). by rewrite append_nil_r_s.
  - simpl in Hs. apply orb_false_iff in Hs as [Hc Hs].
    change (String c s +:+ newline +:+ rest) with (String c (s +:+ newline +:+ rest)). cbn [lines_from].
    unfold is_lf in Hc. rewrite Hc, IH by done. by rewrite append_assoc_s.
Qed.

(** [lines] is the inverse of ending every line with a line feed. *)
Lemma lines_of_text ls :
  forallb line_ok ls = true → lines (str_concat (map (λ l, l +:+ newline) ls)) = ls.
Proof.
  unfold lines. induction ls as [|l ls IH]; simpl; [done|].
  intros [Hl Hls]%andb_true_iff. unfold line_ok in Hl. apply andb_true_iff in Hl as [Hn Hc].
  apply negb_true_iff in Hn. apply bool_decide_eq_true in Hc.
  change (str_concat ((l +:+ newline) :: map (λ l, l +:+ newline) ls))
    with ((l +:+ newline) +:+ str_concat (map (λ l, l +:+ newline) ls)).
  rewrite append_assoc_s, lines_from_line by done. simpl. by rewrite Hc, IH.
Qed.
