(* ===== verification/ToolFs.v ===== *)
(** * Tools and the file system

    What every file tool of crates/jcode-app-core/src/tool shares: the tool
    context with its path resolution (crates/jcode-tool-core), the output and
    the tool-name aliases (crates/jcode-tool-types), the file-touch events it
    publishes, the preview of a diff, and the diff renderers.

    The file system (tokio::fs) and the line diff (the [similar] crate) are not
    part of the repository: they are the classes [FileSystem] and [TextDiff],
    and [FileSystemLaws] states what reading and writing promise when distinct
    resolved paths name distinct files.  An operation changes the state even
    when it fails, so the tools thread it through the state-and-error monad. *)

From stdpp Require Import base list gmap strings pretty.
From S2P Require Import Prelude RustString RustText.

Open Scope string_scope.
Open Scope nat_scope.
Open Scope list_scope.

(** ** The file system *)

Class FileSystem (FS : Type) := {
  fs_read : string → FS → result string string;
  fs_exists : string → FS → bool;
  fs_write : string → string → FS → result unit string * FS;
  fs_remove : string → FS → result unit string * FS;
  fs_create_parent : string → FS → result unit string * FS }.

(** [read_to_string] after [write], [remove_file] and [create_dir_all]. *)
Class FileSystemLaws (FS : Type) `{FileSystem FS} : Prop := {
  read_written p c (fs fs' : FS) : fs_write p c fs = (Ok tt, fs') → fs_read p fs' = Ok c;
  write_elsewhere p q c (fs : FS) : p ≠ q → fs_read q (fs_write p c fs).2 = fs_read q fs;
  read_removed p (fs fs' : FS) : fs_remove p fs = (Ok tt, fs') → is_ok (fs_read p fs') = false;
  remove_failed p (fs fs' : FS) e : fs_remove p fs = (Err e, fs') → fs_read p fs' = fs_read p fs;
  remove_elsewhere p q (fs : FS) : p ≠ q → fs_read q (fs_remove p fs).2 = fs_read q fs;
  create_keeps p q (fs : FS) : fs_read q (fs_create_parent p fs).2 = fs_read q fs }.

(** A file system in memory, in which every operation on a file succeeds. *)
#[export] Instance memory_fs : FileSystem (gmap string string) := {
  fs_read p fs := match fs !! p with Some c => Ok c | None => Err "No such file or directory (os error 2)" end;
  fs_exists p fs := bool_decide (is_Some (fs !! p));
  fs_write p c fs := (Ok tt, <[p := c]> fs);
  fs_remove p fs := match fs !! p with
                    | Some _ => (Ok tt, delete p fs)
                    | None => (Err "No such file or directory (os error 2)", fs) end;
  fs_create_parent p fs := (Ok tt, fs) }.

#[export] Instance memory_fs_laws : FileSystemLaws (gmap string string).
Proof.
  split; simpl.
  - intros p c fs fs' [= <-]. by rewrite lookup_insert_eq.
  - intros p q c fs Hpq. by rewrite lookup_insert_ne.
  - intros p fs fs'. destruct (fs !! p); intros [= <-]. by rewrite lookup_delete_eq.
  - intros p fs fs' e. destruct (fs !! p) eqn:E; intros [=]. subst. by rewrite E.
  - intros p q fs Hpq. destruct (fs !! p); simpl; [by rewrite lookup_delete_ne|done].
  - done.
Qed.

(** ** Context, output, events *)

Record ToolContext := { ctx_session_id : string; ctx_working_dir : option string }.

(** [Path::is_absolute] and [Path::join] of a relative path on Unix. *)
Definition is_absolute (p : string) : bool := starts_with "/" p.
Definition path_join (base p : string) : string :=
  if str_is_empty base || bool_decide (last_byte base = first_byte "/") then base +:+ p
  else base +:+ "/" +:+ p.

Definition resolve_path (ctx : ToolContext) (path : string) : string :=
  if is_absolute path then path
  else match ctx_working_dir ctx with
       | Some base => path_join base path
       | None => path
       end.

Record ToolImage := { img_media_type : string; img_data : string; img_label : option string }.
Record ToolOutput := {
  to_output : string;
  to_title : option string;
  to_metadata : option string;
  to_images : list ToolImage }.

Definition output_new (s : string) : ToolOutput :=
  {| to_output := s; to_title := None; to_metadata := None; to_images := [] |}.
Definition with_title (t : string) (o : ToolOutput) : ToolOutput :=
  {| to_output := to_output o; to_title := Some t; to_metadata := to_metadata o; to_images := to_images o |}.
Definition with_metadata (m : string) (o : ToolOutput) : ToolOutput :=
  {| to_output := to_output o; to_title := to_title o; to_metadata := Some m; to_images := to_images o |}.
Definition with_image (media data : string) (o : ToolOutput) : ToolOutput :=
  {| to_output := to_output o; to_title := to_title o; to_metadata := to_metadata o;
     to_images := to_images o ++ [{| img_media_type := media; img_data := data; img_label := None |}] |}.
Definition with_labeled_image (media data label : string) (o : ToolOutput) : ToolOutput :=
  {| to_output := to_output o; to_title := to_title o; to_metadata := to_metadata o;
     to_images := to_images o ++ [{| img_media_type := media; img_data := data; img_label := Some label |}] |}.

(** The alias table of [resolve_tool_name], in the order of its arms. *)
Definition tool_aliases : list (string * string) :=
  [("communicate", "swarm"); ("task", "subagent"); ("task_runner", "subagent"); ("launch", "open");
   ("shell", "bash"); ("shell_exec", "bash"); ("read_file", "read"); ("file_read", "read");
   ("write_file", "write"); ("file_write", "write"); ("edit_file", "edit"); ("file_edit", "edit");
   ("grep", "agentgrep"); ("file_grep", "agentgrep"); ("skill", "skill_manage"); ("Skill", "skill_manage");
   ("todoread", "todo"); ("todowrite", "todo"); ("todo_read", "todo"); ("todo_write", "todo"); ("todos", "todo");
   ("Bash", "bash"); ("Read", "read"); ("Write", "write"); ("Edit", "edit"); ("Grep", "agentgrep");
   ("Agent", "subagent"); ("ScheduleWakeup", "schedule")].
Definition resolve_tool_name (name : string) : string :=
  let name := default name (strip_prefix "functions." name) in
  match find_first (λ p, bool_decide (p.1 = name)) tool_aliases with
  | Some (_, canonical) => canonical
  | None => name
  end.

Inductive FileOp := OpRead | OpWrite | OpEdit.
Record FileTouch := {
  ft_session_id : string;
  ft_path : string;
  ft_op : FileOp;
  ft_intent : option string;
  ft_summary : option string;
  ft_detail : option string }.

(** ** The monad of the tools

    The world is the file system and the events published so far.  A tool
    call returns an output, fails with a message, or panics. *)
Record World (FS : Type) := mk_world { w_fs : FS; w_events : list FileTouch }.
Arguments mk_world {FS} _ _.
Arguments w_fs {FS} _.
Arguments w_events {FS} _.

Inductive tool_error := Failed (msg : string) | Panicked.
#[export] Instance tool_error_eq_dec : EqDecision tool_error.
Proof. solve_decision. Defined.

Section ToolMonad.
Context {FS : Type} `{FileSystem FS}.

Definition lift_io (op : FS → result unit string * FS) : stateE (World FS) tool_error unit :=
  λ w, let '(r, fs) := op (w_fs w) in
       (match r with Ok x => Ok x | Err e => Err (Failed e) end, mk_world fs (w_events w)).
Definition read_to_string (p : string) : stateE (World FS) tool_error string :=
  λ w, (match fs_read p (w_fs w) with Ok c => Ok c | Err e => Err (Failed e) end, w).
Definition exists_file (p : string) : stateE (World FS) tool_error bool :=
  λ w, (Ok (fs_exists p (w_fs w)), w).
Definition publish (t : FileTouch) : stateE (World FS) tool_error unit :=
  λ w, (Ok tt, mk_world (w_fs w) (w_events w ++ [t])).
(** [let _ = op().await] and [op().await.is_ok()]. *)
Definition try_io (op : FS → result unit string * FS) : stateE (World FS) tool_error bool :=
  λ w, let '(r, fs) := op (w_fs w) in (Ok (is_ok r), mk_world fs (w_events w)).
(** [read_to_string(p).await.unwrap_or_default()]. *)
Definition read_or_default (p : string) : stateE (World FS) tool_error string :=
  λ w, (Ok (match fs_read p (w_fs w) with Ok c => c | Err _ => "" end), w).
End ToolMonad.

(** The step that indexes a slice: [None] is a panic. *)
Definition st_index {S A} (o : option A) : stateE S tool_error A :=
  λ s, (ok_or o Panicked, s).

(** ** Previews and diffs *)

Definition FILE_TOUCH_PREVIEW_MAX_LINES : nat := 6.
Definition FILE_TOUCH_PREVIEW_MAX_BYTES : nat := 240.

Definition build_file_touch_preview (diff : string) : option string :=
  let trimmed := trim diff in
  if str_is_empty trimmed then None
  else
    let ls := lines trimmed in
    let preview := String.concat newline (take FILE_TOUCH_PREVIEW_MAX_LINES ls) in
    let more := bool_decide (drop FILE_TOUCH_PREVIEW_MAX_LINES ls ≠ []) in
    let too_long := FILE_TOUCH_PREVIEW_MAX_BYTES <? String.length preview in
    let preview := if too_long then trim_end (truncate_str preview FILE_TOUCH_PREVIEW_MAX_BYTES) else preview in
    Some (if more || too_long then preview +:+ newline +:+ "…" else preview).

Inductive ChangeTag := ChDelete | ChInsert | ChEqual.

(** [TextDiff::from_lines(old, new).iter_all_changes()]: each change with the
    line it stands for. *)
Class TextDiff := { from_lines : string → string → list (ChangeTag * string) }.

Definition is_newline_char (c : string) : bool := bool_decide (c = newline).
Definition diff_line (num : nat) (sign content : string) : string :=
  pretty num +:+ sign +:+ " " +:+ content +:+ newline.

(** The loop of [generate_diff_summary] (apply_patch.rs) and [generate_diff]
    (patch.rs): at most [max] lines, blank changes not shown. *)
Fixpoint diff_loop (max count old_line new_line : nat) (changes : list (ChangeTag * string)) : string :=
  match changes with
  | [] => ""
  | (tag, value) :: rest =>
      if max <=? count then "... (diff truncated)" +:+ newline
      else
        let content := trim_end_matches is_newline_char value in
        match tag with
        | ChDelete =>
            if str_is_empty (trim content) then diff_loop max count (S old_line) new_line rest
            else diff_line old_line "-" content +:+ diff_loop max (S count) (S old_line) new_line rest
        | ChInsert =>
            if str_is_empty (trim content) then diff_loop max count old_line (S new_line) rest
            else diff_line new_line "+" content +:+ diff_loop max (S count) old_line (S new_line) rest
        | ChEqual => diff_loop max count (S old_line) (S new_line) rest
        end
  end.

(** The loop of [generate_diff_summary] in multiedit.rs and write.rs, which
    trims the text and reports the cut only at a line it would have shown;
    edit.rs has the same loop without a limit. *)
Fixpoint trimmed_diff_loop (max : option nat) (shown old_line new_line : nat)
  (changes : list (ChangeTag * string)) : string :=
  match changes with
  | [] => ""
  | (tag, value) :: rest =>
      let full := match max with Some m => m <=? shown | None => false end in
      let content := trim value in
      match tag with
      | ChEqual => trimmed_diff_loop max shown (S old_line) (S new_line) rest
      | ChDelete =>
          if str_is_empty content then trimmed_diff_loop max shown (S old_line) new_line rest
          else if full then "..." +:+ newline
          else diff_line old_line "-" content +:+ trimmed_diff_loop max (S shown) (S old_line) new_line rest
      | ChInsert =>
          if str_is_empty content then trimmed_diff_loop max shown old_line (S new_line) rest
          else if full then "..." +:+ newline
          else diff_line new_line "+" content +:+ trimmed_diff_loop max (S shown) old_line (S new_line) rest
      end
  end.

(** ** Facts about the monad *)

Section MonadFacts.
Context {FS : Type} `{FileSystem FS}.

(** What a file-reading step or a publication does to the files: nothing. *)
Definition keeps_files {A} (m : stateE (World FS) tool_error A) : Prop := ∀ w, w_fs (m w).2 = w_fs w.

Lemma keeps_ret {A} (x : A) : keeps_files (st_ret x). Proof. done. Qed.
Lemma keeps_err {A} e : keeps_files (A:=A) (st_err e). Proof. done. Qed.
Lemma keeps_lift {A} r : keeps_files (A:=A) (st_lift r). Proof. done. Qed.
Lemma keeps_index {A} (o : option A) : keeps_files (st_index o). Proof. done. Qed.
Lemma keeps_guard b e : keeps_files (st_guard b e). Proof. by destruct b. Qed.
Lemma keeps_read p : keeps_files (read_to_string p). Proof. done. Qed.
Lemma keeps_read_or p : keeps_files (read_or_default p). Proof. done. Qed.
Lemma keeps_exists p : keeps_files (exists_file p). Proof. done. Qed.
Lemma keeps_publish t : keeps_files (publish t). Proof. done. Qed.
Lemma keeps_bind {A B} (m : stateE (World FS) tool_error A) (k : A → stateE (World FS) tool_error B) :
  keeps_files m → (∀ x, keeps_files (k x)) → keeps_files (st_bind m k).
Proof.
  intros Hm Hk w. unfold st_bind. specialize (Hm w). destruct (m w) as [[x|e] w']; simpl in *; [|done].
  rewrite <- Hm. apply Hk.
Qed.
End MonadFacts.
#[export] Hint Resolve keeps_ret keeps_err keeps_lift keeps_index keeps_guard keeps_read keeps_read_or
  keeps_exists keeps_publish keeps_bind : jcode.

(** ** Contained computations

    [contained q m]: running [m] does not panic and leaves the file [q] as it
    was.  The hints close it for every step that names other files. *)
Section Contained.
Context {FS : Type} `{FileSystemLaws FS}.

Definition contained (q : string) {A} (m : stateE (World FS) tool_error A) : Prop :=
  ∀ w, (m w).1 ≠ Err Panicked ∧ fs_read q (w_fs (m w).2) = fs_read q (w_fs w).

Lemma contained_ret q {A} (x : A) : contained q (st_ret x). Proof. done. Qed.
Lemma contained_failed q {A} e : contained q (A:=A) (st_err (Failed e)). Proof. done. Qed.
Lemma contained_guard q b e : contained q (st_guard b (Failed e)).
Proof. destruct b; [apply contained_failed|apply (contained_ret q tt)]. Qed.
Lemma contained_read q p : contained q (read_to_string p).
Proof. intros w. unfold read_to_string. by destruct (fs_read p (w_fs w)). Qed.
Lemma contained_read_or q p : contained q (read_or_default p). Proof. done. Qed.
Lemma contained_exists q p : contained q (exists_file p). Proof. done. Qed.
Lemma contained_publish q t : contained q (publish t). Proof. done. Qed.
Lemma contained_index q {A} (o : option A) : is_Some o → contained q (st_index o).
Proof. intros [x ->]. done. Qed.
Lemma contained_write q p c : p ≠ q → contained q (lift_io (fs_write p c)).
Proof.
  intros Hp w. unfold lift_io. pose proof (write_elsewhere p q c (w_fs w) Hp) as Hw.
  destruct (fs_write p c (w_fs w)) as [[] fs]; done.
Qed.
Lemma contained_create q p : contained q (lift_io (fs_create_parent p)).
Proof.
  intros w. unfold lift_io. pose proof (create_keeps p q (w_fs w)) as Hw.
  destruct (fs_create_parent p (w_fs w)) as [[] fs]; done.
Qed.
Lemma contained_remove q p : p ≠ q → contained q (lift_io (fs_remove p)).
Proof.
  intros Hp w. unfold lift_io. pose proof (remove_elsewhere p q (w_fs w) Hp) as Hw.
  destruct (fs_remove p (w_fs w)) as [[] fs]; done.
Qed.
Lemma contained_try_remove q p : p ≠ q → contained q (try_io (fs_remove p)).
Proof.
  intros Hp w. unfold try_io. pose proof (remove_elsewhere p q (w_fs w) Hp) as Hw.
  destruct (fs_remove p (w_fs w)) as [[] fs]; done.
Qed.
Lemma contained_bind q {A B} (m : stateE (World FS) tool_error A) (k : A → stateE (World FS) tool_error B) :
  contained q m → (∀ x, contained q (k x)) → contained q (st_bind m k).
Proof.
  intros Hm Hk w. unfold st_bind. destruct (Hm w) as [H1 H2]. destruct (m w) as [[x|e] w']; simpl in *; [|split; [intros [= ->]; by apply H1|done]].
  rewrite <- H2. apply Hk.
Qed.
Lemma contained_lift_bind q {A B} (x : A) (k : A → stateE (World FS) tool_error B) :
  contained q (k x) → contained q (st_bind (st_lift (Ok x)) k).
Proof. done. Qed.
End Contained.
#[export] Hint Resolve contained_ret contained_failed contained_guard contained_read contained_read_or
  contained_exists contained_publish contained_write contained_create contained_remove contained_try_remove : contain.

(** Follow the binds of a tool, closing each step with the hints. *)
Ltac contain :=
  repeat first
    [ apply contained_bind; [solve [eauto with contain]|intros ?]
    | solve [eauto with contain] ].
