(* ===== verification/FileTools.v ===== *)
(** * The edit, multiedit, write and read tools

    crates/jcode-app-core/src/tool/edit.rs, multiedit.rs, write.rs and the text
    branch of read.rs.  Each [execute] is a computation over the world of
    ToolFs.v, branch by branch; slices that could be out of range are
    explicit, so that "the tool does not panic" is a theorem. *)

From stdpp Require Import base list gmap strings pretty.
From S2P Require Import Prelude RustString RustText ToolFs.

Open Scope string_scope.
Open Scope nat_scope.
Open Scope list_scope.

(** [opt.filter(|v| !v.trim().is_empty())]. *)
Definition non_blank (intent : option string) : option string :=
  match intent with
  | Some v => if str_is_empty (trim v) then None else Some v
  | None => None
  end.

Section Tools.
Context {FS : Type} `{FileSystem FS} `{TextDiff} (ctx : ToolContext).

(** ** edit *)

Record EditInput := {
  ed_intent : option string;
  ed_file_path : string;
  ed_old_string : string;
  ed_new_string : string;
  ed_replace_all : bool }.

Definition find_line_number (content substring : string) : nat :=
  match str_find substring content with
  | Some pos => length (lines (str_take pos content)) + 1
  | None => 1
  end.

Definition generate_diff (old new : string) (start_line : nat) : string :=
  trim_end (trimmed_diff_loop None 0 start_line start_line (from_lines old new)).

(** The numbered lines of a slice whose first line is line [start + 1]. *)
Fixpoint numbered_lines (start : nat) (ls : list string) : list string :=
  match ls with
  | [] => []
  | line :: rest => (pad_left 4 (pretty (start + 1)) +:+ "│ " +:+ line) :: numbered_lines (S start) rest
  end.

(** [None] when [lines[start..end]] is out of range. *)
Definition extract_context (content : string) (edit_start edit_end padding : nat) : option (nat * nat * string) :=
  let ls := lines content in
  let start := edit_start - (padding + 1) in
  let stop := min (edit_end + padding) (length ls) in
  if start <=? stop then
    Some (start + 1, stop, String.concat newline (numbered_lines start (take (stop - start) (drop start ls))))
  else None.

(** [windows(n).position(..)] on the remaining lines, [i] windows passed. *)
Fixpoint flexible_window (old_lines : list string) (i : nat) (content_lines : list string) : option nat :=
  if length old_lines <=? length content_lines then
    if forallb (λ p, bool_decide (trim p.1 = trim p.2)) (zip content_lines old_lines) then Some i
    else match content_lines with
         | [] => None
         | _ :: rest => flexible_window old_lines (S i) rest
         end
  else None.

Definition not_found_trimmed : string :=
  "old_string not found exactly, but found after trimming whitespace." +:+ newline
  +:+ "Try using the exact string from the file, including leading/trailing whitespace.".
Definition not_found_indented (line : nat) : string :=
  "old_string not found exactly, but found with different indentation around line " +:+ pretty line +:+ "."
  +:+ newline +:+ "Make sure to preserve the exact whitespace from the file.".
Definition not_found_text (file_path : string) : string :=
  "old_string not found in " +:+ file_path +:+ "." +:+ newline
  +:+ "Use the read tool to see the current file contents.".

(** Always an error; [windows(0)] would panic. *)
Definition try_flexible_match (content old_string file_path : string) : tool_error :=
  let trimmed := trim old_string in
  if str_contains trimmed content && negb (bool_decide (trimmed = old_string)) then Failed not_found_trimmed
  else
    let old_lines := lines old_string in
    if length old_lines =? 0 then Panicked
    else match flexible_window old_lines 0 (lines content) with
         | Some i => Failed (not_found_indented (i + 1))
         | None => Failed (not_found_text file_path)
         end.

Definition too_many (occurrences : nat) : string :=
  "old_string found " +:+ pretty occurrences +:+ " times in the file. Either:" +:+ newline
  +:+ "1. Provide more context to make it unique, or" +:+ newline
  +:+ "2. Set replace_all: true to replace all occurrences".

Definition plural (n : nat) : string := if n =? 1 then "" else "s".

Definition edit_execute (p : EditInput) : stateE (World FS) tool_error ToolOutput :=
  run! st_guard (bool_decide (ed_old_string p = ed_new_string p))
         (Failed "old_string and new_string must be different");
  let path := resolve_path ctx (ed_file_path p) in
  do! present <- exists_file path;
  run! st_guard (negb present) (Failed ("File not found: " +:+ ed_file_path p));
  do! content <- read_to_string path;
  let occurrences := match_count (ed_old_string p) content in
  if occurrences =? 0 then st_err (try_flexible_match content (ed_old_string p) (ed_file_path p))
  else
    run! st_guard ((1 <? occurrences) && negb (ed_replace_all p)) (Failed (too_many occurrences));
    let new_content :=
      if ed_replace_all p then str_replace (ed_old_string p) (ed_new_string p) content
      else replacen_1 (ed_old_string p) (ed_new_string p) content in
    let start_line := find_line_number content (ed_old_string p) in
    run! lift_io (fs_write path new_content);
    let diff := generate_diff (ed_old_string p) (ed_new_string p) start_line in
    let end_line := start_line + (length (lines (ed_new_string p)) - 1) in
    run! publish {| ft_session_id := ctx_session_id ctx;
                    ft_path := path;
                    ft_op := OpEdit;
                    ft_intent := non_blank (ed_intent p);
                    ft_summary := Some ("edited lines " +:+ pretty start_line +:+ "-" +:+ pretty end_line
                                        +:+ " (" +:+ pretty occurrences +:+ " occurrence" +:+ plural occurrences +:+ ")");
                    ft_detail := build_file_touch_preview diff |};
    do! shown <- st_index (extract_context new_content start_line end_line 3);
    let '(from_line, to_line, text) := shown in
    st_ret (with_title (ed_file_path p) (output_new
      ("Edited " +:+ ed_file_path p +:+ ": replaced " +:+ pretty occurrences +:+ " occurrence(s)" +:+ newline
       +:+ diff +:+ newline +:+ newline
       +:+ "Context after edit (lines " +:+ pretty from_line +:+ "-" +:+ pretty to_line +:+ "):" +:+ newline
       +:+ text))).

(** ** multiedit *)

Record EditOperation := { eo_old : string; eo_new : string; eo_replace_all : bool }.
Record MultiEditInput := { mi_file_path : string; mi_edits : list EditOperation }.

(** One round of the loop: the new content with the message, or the reason
    the edit was skipped. *)
Definition multi_step (i : nat) (content : string) (e : EditOperation) : result (string * string) string :=
  let label := "Edit " +:+ pretty (i + 1) +:+ ": " in
  if bool_decide (eo_old e = eo_new e) then Err (label +:+ "old_string equals new_string")
  else
    let occurrences := match_count (eo_old e) content in
    if occurrences =? 0 then Err (label +:+ "old_string not found")
    else if (1 <? occurrences) && negb (eo_replace_all e) then
      Err (label +:+ "found " +:+ pretty occurrences +:+ " occurrences, use replace_all or be more specific")
    else if eo_replace_all e then
      Ok (str_replace (eo_old e) (eo_new e) content, label +:+ "replaced " +:+ pretty occurrences +:+ " occurrences")
    else Ok (replacen_1 (eo_old e) (eo_new e) content, label +:+ "replaced 1 occurrence").

(** The loop: final content, applied and failed messages. *)
Fixpoint multi_loop (i : nat) (content : string) (edits : list EditOperation) : string * list string * list string :=
  match edits with
  | [] => (content, [], [])
  | e :: rest =>
      match multi_step i content e with
      | Ok (content', msg) =>
          let '(c, ok, bad) := multi_loop (S i) content' rest in (c, msg :: ok, bad)
      | Err msg =>
          let '(c, ok, bad) := multi_loop (S i) content rest in (c, ok, msg :: bad)
      end
  end.

Definition MULTIEDIT_MAX_LINES : nat := 30.
Definition multi_diff_summary (old new : string) : string :=
  trimmed_diff_loop (Some MULTIEDIT_MAX_LINES) 0 1 1 (from_lines old new).

Definition bullet_list (mark : string) (msgs : list string) : string :=
  str_concat (map (λ m, "  " +:+ mark +:+ " " +:+ m +:+ newline) msgs).

Definition multiedit_output (file_path original content : string) (applied failed : list string) : string :=
  "Edited " +:+ file_path +:+ newline +:+ newline
  +:+ (if bool_decide (applied = []) then "" else "Applied:" +:+ newline +:+ bullet_list "✓" applied)
  +:+ (if bool_decide (failed = []) then "" else newline +:+ "Failed:" +:+ newline +:+ bullet_list "✗" failed)
  +:+ newline +:+ "Total: " +:+ pretty (length applied) +:+ " applied, " +:+ pretty (length failed) +:+ " failed" +:+ newline
  +:+ (if bool_decide (applied = []) then ""
       else newline +:+ "Diff:" +:+ newline +:+ multi_diff_summary original content).

Definition multiedit_execute (p : MultiEditInput) : stateE (World FS) tool_error ToolOutput :=
  let path := resolve_path ctx (mi_file_path p) in
  do! present <- exists_file path;
  run! st_guard (negb present) (Failed ("File not found: " +:+ mi_file_path p));
  do! original <- read_to_string path;
  let '(content, applied, failed) := multi_loop 0 original (mi_edits p) in
  run! lift_io (fs_write path content);
  st_ret (with_title (mi_file_path p)
            (output_new (multiedit_output (mi_file_path p) original content applied failed))).

(** ** write *)

Record WriteInput := { wr_intent : option string; wr_file_path : string; wr_content : string }.

Definition WRITE_MAX_LINES : nat := 20.
Definition write_diff_summary (old new : string) : string :=
  trim_end (trimmed_diff_loop (Some WRITE_MAX_LINES) 0 1 1 (from_lines old new)).

Definition write_execute (p : WriteInput) : stateE (World FS) tool_error ToolOutput :=
  let path := resolve_path ctx (wr_file_path p) in
  run! lift_io (fs_create_parent path);
  do! existed <- exists_file path;
  do! old <- read_or_default path;
  run! lift_io (fs_write path (wr_content p));
  let line_count := length (lines (wr_content p)) in
  let diff := write_diff_summary (if existed then old else "") (wr_content p) in
  run! publish {| ft_session_id := ctx_session_id ctx;
                  ft_path := path;
                  ft_op := OpWrite;
                  ft_intent := non_blank (wr_intent p);
                  ft_summary := Some ((if existed then "overwrote file (" else "created new file (")
                                      +:+ pretty line_count +:+ " lines)");
                  ft_detail := build_file_touch_preview diff |};
  st_ret (with_title (wr_file_path p) (output_new
    (if existed
     then "Updated " +:+ wr_file_path p +:+ " (" +:+ pretty line_count +:+ " lines)"
          +:+ (if str_is_empty diff then "" else ":") +:+ newline +:+ diff
     else "Created " +:+ wr_file_path p +:+ " (" +:+ pretty line_count +:+ " lines):" +:+ newline
          +:+ write_diff_summary "" (wr_content p)))).
End Tools.

(** ** read *)

Definition DEFAULT_LIMIT : N := 5000.
Definition MAX_LINE_LEN : nat := 2000.

Record ReadInput := {
  rd_start_line : option N;
  rd_end_line : option N;
  rd_offset : option N;
  rd_limit : option N }.

Inductive ReadRangeStyle := OffsetLimit | StartEnd.
Record NormalizedReadRange := { rr_offset : N; rr_limit : N; rr_style : ReadRangeStyle }.

(** Sums of [usize] wrap in the release profile. *)
Definition usize_add (a b : N) : N := ((a + b) mod 2 ^ 64)%N.
Definition usize_checked_add (a b : N) : option N := if (a + b <? 2 ^ 64)%N then Some (a + b)%N else None.

Definition next_offset (r : NormalizedReadRange) : N := usize_add (rr_offset r) (rr_limit r).
Definition next_start_line (r : NormalizedReadRange) : N := usize_add (next_offset r) 1.

Definition has_mixed_offset (p : ReadInput) : bool :=
  match rd_start_line p, rd_end_line p, rd_offset p with
  | Some start_line, _, Some offset =>
      if (start_line =? 0)%N then true
      else negb (bool_decide (usize_checked_add offset 1 = Some start_line))
  | None, Some _, Some offset => negb (offset =? 0)%N
  | _, _, o => bool_decide (is_Some o)
  end.

Definition normalize_read_range (p : ReadInput) : result NormalizedReadRange string :=
  let has_start_end := bool_decide (is_Some (rd_start_line p)) || bool_decide (is_Some (rd_end_line p)) in
  if has_start_end && has_mixed_offset p then
    Err "Use either start_line/end_line (1-based) or offset (0-based), not both. `limit` may be used with either style."
  else if has_start_end then
    let start_line := default 1%N (rd_start_line p) in
    if (start_line =? 0)%N then Err "start_line must be 1 or greater (it is 1-based)."
    else
      let? limit :=
        match rd_end_line p with
        | Some end_line =>
            if (end_line =? 0)%N then Err "end_line must be 1 or greater (it is 1-based)."
            else if (end_line <? start_line)%N then
              Err ("end_line (" +:+ pretty end_line +:+ ") must be greater than or equal to start_line ("
                   +:+ pretty start_line +:+ ").")
            else Ok (end_line - start_line + 1)%N
        | None => Ok (default DEFAULT_LIMIT (rd_limit p))
        end in
      Ok {| rr_offset := start_line - 1; rr_limit := limit; rr_style := StartEnd |}
  else Ok {| rr_offset := default 0%N (rd_offset p); rr_limit := default DEFAULT_LIMIT (rd_limit p);
             rr_style := OffsetLimit |}.

(** One shown line, cut at [MAX_LINE_LEN] bytes. *)
Definition read_line (i : N) (line : string) : string :=
  pad_left 5 (pretty (i + 1)%N) +:+ str_bytes [9]
  +:+ (if MAX_LINE_LEN <? String.length line then truncate_str line MAX_LINE_LEN +:+ "..." else line) +:+ newline.

(** The single pass over the lines from line [i] on. *)
Fixpoint read_loop (r : NormalizedReadRange) (i : N) (ls : list string) : string :=
  match ls with
  | [] => ""
  | line :: rest =>
      (if (i <? rr_offset r)%N || (next_offset r <=? i)%N then "" else read_line i line)
      +:+ read_loop r (i + 1) rest
  end.

Definition continuation_hint (r : NormalizedReadRange) : string :=
  match rr_style r with
  | OffsetLimit => "offset=" +:+ pretty (next_offset r)
  | StartEnd => "start_line=" +:+ pretty (next_start_line r)
  end.

(** The text of [execute] once the file has been read. *)
Definition read_text (r : NormalizedReadRange) (content : string) : string :=
  let ls := lines content in
  let total_lines := N.of_nat (length ls) in
  let stop := N.min (next_offset r) total_lines in
  let output := read_loop r 0 ls
    +:+ (if (stop <? total_lines)%N
         then newline +:+ "... " +:+ pretty (total_lines - stop)%N +:+ " more lines (use "
              +:+ continuation_hint r +:+ " to continue)" +:+ newline
         else "") in
  if str_is_empty output then "(empty file)" else output.
