(* ===== verification/UnifiedPatch.v ===== *)
(** * The patch tool

    crates/jcode-app-core/src/tool/patch.rs: the parser of unified diffs and
    their application.  The index loops of the parser walk the list of the
    remaining lines; a round that may not be structural carries fuel, and the
    number of lines is enough ([parse_lines_fuel]). *)

From stdpp Require Import base list gmap strings pretty.
From S2P Require Import Prelude RustString RustText ToolFs FileTools.

Open Scope string_scope.
Open Scope nat_scope.
Open Scope list_scope.

Record Hunk := { hk_old_start : N; hk_old_lines : list string; hk_new_lines : list string }.
Record FilePatch := { fp_path : string; fp_hunks : list Hunk; fp_is_new : bool; fp_is_delete : bool }.

(** ** Parsing *)

(** [str::parse::<usize>()]: an optional plus sign and decimal digits. *)
Fixpoint digits_value (acc : N) (s : string) : option N :=
  match s with
  | "" => Some acc
  | String c s' =>
      if is_ascii_digit c then
        let v := (acc * 10 + (byte_val c - 48))%N in
        if (v <? 2 ^ 64)%N then digits_value v s' else None
      else None
  end.
Definition parse_usize (s : string) : option N :=
  let s := default s (strip_prefix "+" s) in
  if str_is_empty s then None else digits_value 0 s.

Definition hunk_old_start (old_part : string) : N :=
  let old_range := default old_part (strip_prefix "-" old_part) in
  default 1%N (parse_usize (before_first "," old_range)).

(** The body of a hunk: old lines, new lines, and the lines not consumed. *)
Fixpoint hunk_body (ls : list string) : list string * list string * list string :=
  match ls with
  | [] => ([], [], [])
  | line :: rest =>
      if starts_with "@@" line || starts_with "---" line then ([], [], ls)
      else
        let '(olds, news, tail) := hunk_body rest in
        match strip_prefix "-" line with
        | Some content => (content :: olds, news, tail)
        | None =>
            match strip_prefix "+" line with
            | Some content => (olds, content :: news, tail)
            | None =>
                match strip_prefix " " line with
                | Some content => (content :: olds, content :: news, tail)
                | None => (olds, news, tail)
                end
            end
        end
  end.

Definition parse_hunk (header : string) (rest : list string) : option Hunk * list string :=
  match split_whitespace header with
  | _ :: old_part :: _ :: _ =>
      let '(olds, news, tail) := hunk_body rest in
      (Some {| hk_old_start := hunk_old_start old_part; hk_old_lines := olds; hk_new_lines := news |}, tail)
  | _ => (None, rest)
  end.

(** [while i < lines.len() && !lines[i].starts_with("---")]. *)
Fixpoint hunks_of_file (fuel : nat) (ls : list string) : list Hunk * list string :=
  match fuel, ls with
  | S fuel', line :: rest =>
      if starts_with "---" line then ([], ls)
      else if starts_with "@@" line then
        let '(h, tail) := parse_hunk line rest in
        let '(hs, out) := hunks_of_file fuel' tail in
        (match h with Some h => h :: hs | None => hs end, out)
      else hunks_of_file fuel' rest
  | _, _ => ([], ls)
  end.

(** [lines[i].strip_prefix(mark).unwrap_or("").split('\t').next()]. *)
Definition header_file (mark line : string) : string :=
  before_first (str_bytes [9]) (default "" (strip_prefix mark line)).

Definition patch_path (old_file new_file : string) : string :=
  if bool_decide (new_file = "/dev/null") then default old_file (strip_prefix "a/" old_file)
  else default new_file (strip_prefix "b/" new_file).

Fixpoint parse_lines (fuel : nat) (ls : list string) : list FilePatch :=
  match fuel, ls with
  | S fuel', line :: rest =>
      if starts_with "---" line then
        match rest with
        | next :: body =>
            if starts_with "+++" next then
              let old_file := header_file "--- " line in
              let new_file := header_file "+++ " next in
              let is_new := bool_decide (old_file = "/dev/null") in
              let is_delete := bool_decide (new_file = "/dev/null") in
              let '(hunks, tail) := hunks_of_file (length body) body in
              let later := parse_lines fuel' tail in
              if negb (bool_decide (length hunks = 0)) || is_new || is_delete then
                {| fp_path := patch_path old_file new_file; fp_hunks := hunks;
                   fp_is_new := is_new; fp_is_delete := is_delete |} :: later
              else later
            else parse_lines fuel' rest
        | [] => []
        end
      else parse_lines fuel' rest
  | _, _ => []
  end.

Definition parse_patch (text : string) : list FilePatch :=
  let ls := lines text in parse_lines (length ls) ls.

(** ** Applying *)

(** [lines.splice(start..end, new)]; [None] is the panic of an invalid range. *)
Definition splice (start stop : N) (new ls : list string) : option (list string) :=
  if (start <=? stop)%N && (stop <=? N.of_nat (length ls))%N
  then Some (take (N.to_nat start) ls ++ new ++ drop (N.to_nat stop) ls)
  else None.

Definition apply_hunk (h : Hunk) (ls : list string) : option (list string) :=
  let start := (hk_old_start h - 1)%N in
  let stop := N.min (usize_add start (N.of_nat (length (hk_old_lines h)))) (N.of_nat (length ls)) in
  splice start stop (hk_new_lines h) ls.

(** [for hunk in patch.hunks.iter().rev()]. *)
Definition apply_hunks (hs : list Hunk) (ls : list string) : option (list string) :=
  foldr (λ h acc, acc ≫= apply_hunk h) (Some ls) hs.

(** [iter().map(|h| h.old_start).min().unwrap_or(1)]. *)
Definition first_line (hs : list Hunk) : N :=
  match map hk_old_start hs with
  | [] => 1
  | s :: rest => foldl N.min s rest
  end.

Section PatchTool.
Context {FS : Type} `{FileSystem FS} `{TextDiff} (ctx : ToolContext).

Definition PATCH_MAX_LINES : nat := 30.
Definition patch_diff (old new : string) (start_line : N) : string :=
  trim_end (diff_loop PATCH_MAX_LINES 0 (N.to_nat start_line) (N.to_nat start_line) (from_lines old new)).

Definition apply_patch_with_diff (p : FilePatch) (path : string)
  : stateE (World FS) tool_error (string * string) :=
  if fp_is_delete p then
    do! present <- exists_file path;
    if negb present then st_err (Failed "file does not exist")
    else
      do! old_content <- read_or_default path;
      run! lift_io (fs_remove path);
      st_ret ("deleted", patch_diff old_content "" 1)
  else if fp_is_new p then
    do! present <- exists_file path;
    if present then st_err (Failed "file already exists")
    else
      run! lift_io (fs_create_parent path);
      let content := str_concat (map (λ l, l +:+ newline) (mjoin (map hk_new_lines (fp_hunks p)))) in
      run! lift_io (fs_write path content);
      st_ret ("created", patch_diff "" content 1)
  else
    do! present <- exists_file path;
    run! st_guard (negb present) (Failed "file does not exist");
    do! old_content <- read_to_string path;
    do! ls <- st_index (apply_hunks (fp_hunks p) (lines old_content));
    let new_content := String.concat newline ls +:+ newline in
    run! lift_io (fs_write path new_content);
    st_ret ("modified (" +:+ pretty (length (fp_hunks p)) +:+ " hunks)",
            patch_diff old_content new_content (first_line (fp_hunks p))).

(** The loop of [execute] over the file patches: an error is reported and the
    next file is handled, a panic ends the call. *)
Fixpoint patch_all (ps : list FilePatch) : stateE (World FS) tool_error (list string) :=
  match ps with
  | [] => st_ret []
  | p :: rest => λ w,
      let '(r, w') := apply_patch_with_diff p (resolve_path ctx (fp_path p)) w in
      match r with
      | Err Panicked => (Err Panicked, w')
      | Err (Failed e) =>
          (do! later <- patch_all rest; st_ret (("✗ " +:+ fp_path p +:+ ": " +:+ e) :: later)) w'
      | Ok (msg, diff) =>
          (do! later <- patch_all rest;
           st_ret ((if str_is_empty diff then "✓ " +:+ fp_path p +:+ ": " +:+ msg
                    else "✓ " +:+ fp_path p +:+ ": " +:+ msg +:+ newline +:+ diff) :: later)) w'
      end
  end.

Definition patch_execute (patch_text : string) : stateE (World FS) tool_error ToolOutput :=
  let patches := parse_patch patch_text in
  run! st_guard (bool_decide (length patches = 0)) (Failed "No valid patches found in input");
  do! results <- patch_all patches;
  st_ret (output_new (String.concat (newline +:+ newline) results)).
End PatchTool.

(** ** Facts *)

#[local] Arguments starts_with : simpl never.
#[local] Arguments strip_prefix : simpl never.

Lemma length_hunk_body ls : length (hunk_body ls).2 ≤ length ls.
Proof.
  induction ls as [|line rest IH]; [done|]. cbn [hunk_body].
  destruct (starts_with "@@" line || starts_with "---" line); [done|].
  destruct (hunk_body rest) as [[olds news] tail]. simpl in *.
  destruct (strip_prefix "-" line); [simpl; lia|]. destruct (strip_prefix "+" line); [simpl; lia|].
  destruct (strip_prefix " " line); simpl; lia.
Qed.

Lemma length_parse_hunk header rest : length (parse_hunk header rest).2 ≤ length rest.
Proof.
  unfold parse_hunk. pose proof (length_hunk_body rest).
  destruct (split_whitespace header) as [|? [|? [|? ?]]]; simpl; try lia.
  destruct (hunk_body rest) as [[? ?] ?]. done.
Qed.

Lemma length_parse_hunks fuel ls : length (hunks_of_file fuel ls).2 ≤ length ls.
Proof.
  revert ls. induction fuel as [|fuel IH]; intros [|line rest]; simpl; try done.
  destruct (starts_with "---" line); [simpl; lia|]. destruct (starts_with "@@" line).
  - pose proof (length_parse_hunk line rest). destruct (parse_hunk line rest) as [h tail]. simpl in *.
    specialize (IH tail). destruct (hunks_of_file fuel tail) as [hs out]. simpl in *. lia.
  - specialize (IH rest). lia.
Qed.

Lemma hunks_of_file_fuel n m ls : length ls ≤ n → length ls ≤ m → hunks_of_file n ls = hunks_of_file m ls.
Proof.
  revert m ls. induction n as [|n IH]; intros [|m] [|line rest] Hn Hm; simpl in *; try done; try lia.
  destruct (starts_with "---" line); [done|]. destruct (starts_with "@@" line).
  - pose proof (length_parse_hunk line rest). destruct (parse_hunk line rest) as [h tail]. simpl in *.
    by rewrite (IH m tail) by lia.
  - apply IH; lia.
Qed.

(** Any fuel that is at least the number of lines gives the same patches, and
    the loop stops with its input consumed. *)
Lemma parse_lines_fuel n m ls : length ls ≤ n → length ls ≤ m → parse_lines n ls = parse_lines m ls.
Proof.
  revert m ls. induction n as [|n IH]; intros [|m] [|line rest] Hn Hm; simpl in *; try done; try lia.
  destruct (starts_with "---" line); [|apply IH; lia].
  destruct rest as [|next body]; [done|]. simpl in *.
  destruct (starts_with "+++" next); [|apply IH; simpl; lia].
  pose proof (length_parse_hunks (length body) body) as Hl.
  destruct (hunks_of_file (length body) body) as [hs tail]. simpl in *.
  by rewrite (IH m tail) by lia.
Qed.
