(* ===== verification/FileToolsClaims.v ===== *)
(** * What the file tools guarantee

    - [edit_contract]: every outcome of the edit tool, and that it never panics.
    - [multiedit_runs_the_edits]: multiedit leaves the file that running its
      edits one by one leaves.
    - [line_number_inside_a_line]: where the reported line number is right.
    - [read_pages_tile]: following the continuation hints of read shows every
      line once.
    - [unified_hunk_outcome]: when a hunk of the patch tool panics, and what it
      does otherwise. *)

From stdpp Require Import base list gmap strings pretty.
From S2P Require Import Prelude RustString RustText Mention ToolFs FileTools UnifiedPatch.

Open Scope string_scope.
Open Scope nat_scope.
Open Scope list_scope.

#[local] Arguments String.append : simpl nomatch.

(** ** Counting lines *)

Fixpoint count_lf (s : string) : nat :=
  match s with "" => 0 | String c s' => Nat.b2n (is_lf c) + count_lf s' end.

(** The text ends inside a line. *)
Fixpoint ends_open (b : bool) (s : string) : bool :=
  match s with "" => b | String c s' => ends_open (negb (is_lf c)) s' end.

Lemma append_not_empty cur c : cur +:+ String c "" ≠ "".
Proof. by destruct cur. Qed.

Lemma length_lines_from cur s :
  length (lines_from cur s) = count_lf s + Nat.b2n (ends_open (negb (bool_decide (cur = ""))) s).
Proof.
  revert cur. induction s as [|c s IH]; intros cur; simpl.
  - by case_bool_decide.
  - unfold is_lf. destruct (byte_val c =? 10)%N; simpl; rewrite IH; simpl; [done|].
    rewrite bool_decide_eq_false_2; [done|]. apply append_not_empty.
Qed.

Lemma count_lf_append a b : count_lf (a +:+ b) = count_lf a + count_lf b.
Proof. induction a; simpl; lia. Qed.

Lemma ends_open_append f a b : ends_open f (a +:+ b) = ends_open (ends_open f a) b.
Proof. revert f. induction a; intros f; simpl; auto. Qed.

Lemma lines_open_le b s : Nat.b2n b ≤ count_lf s + Nat.b2n (ends_open b s).
Proof.
  revert b. induction s as [|c s IH]; intros b; simpl; [lia|].
  destruct (is_lf c); simpl; [destruct b; simpl; lia|].
  specialize (IH true). simpl in *. destruct b; simpl; lia.
Qed.

Lemma length_lines_prefix a b : length (lines a) ≤ length (lines (a +:+ b)).
Proof.
  unfold lines. rewrite !length_lines_from, count_lf_append, ends_open_append. simpl.
  pose proof (lines_open_le (ends_open false a) b). lia.
Qed.

Lemma lines_nonempty s : s ≠ "" → length (lines s) ≠ 0.
Proof.
  destruct s as [|c s]; [done|]. intros _. unfold lines. rewrite length_lines_from. simpl.
  destruct (is_lf c); simpl; [lia|]. pose proof (lines_open_le true s). simpl in *. lia.
Qed.

(** ** The line number of an edit *)

(** [find_line_number] counts from 1 the line on which the first match
    starts, but only when the match starts at the beginning of a line: when
    text precedes it on its line the number is one too high (the part of the
    line before the match is counted as a line of its own). *)
Theorem line_number_inside_a_line (content substring : string) (pos : nat) :
  str_find substring content = Some pos →
  find_line_number content substring
  = S (count_lf (str_take pos content))
    + Nat.b2n (match last_byte (str_take pos content) with Some c => negb (is_lf c) | None => false end).
Proof.
  intros Hf. unfold find_line_number. rewrite Hf. unfold lines. rewrite length_lines_from. simpl.
  assert (Hl : ∀ s b, ends_open b s = match last_byte s with Some c => negb (is_lf c) | None => b end).
  { induction s as [|c s IH]; intros b; [done|]. cbn [ends_open]. rewrite IH. destruct s as [|d s]; [done|].
    change (last_byte (String c (String d s))) with (last_byte (String d s)).
    destruct (last_byte (String d s)) eqn:E; [done|]. exfalso. revert E. clear.
    revert d. induction s as [|e s IHs]; intros d; [done|]. apply IHs. }
  rewrite Hl. lia.
Qed.

Lemma line_number_inside_a_line_witness :
  find_line_number ("let x = 1;" +:+ newline +:+ "let y = x;") "y = x" = 3
  ∧ count_lf (str_take 15 ("let x = 1;" +:+ newline +:+ "let y = x;")) = 1.
Proof.
  split; [|reflexivity].
  exact (line_number_inside_a_line ("let x = 1;" +:+ newline +:+ "let y = x;") "y = x" 15 eq_refl).
Defined.

(** ** edit *)

Lemma extract_context_some pre rest start_line extra :
  start_line = length (lines pre) + 1 →
  is_Some (extract_context (pre +:+ rest) start_line (start_line + extra) 3).
Proof.
  intros ->. unfold extract_context. pose proof (length_lines_prefix pre rest).
  rewrite (proj2 (Nat.leb_le _ _)) by lia. eauto.
Qed.

(** The new content starts with everything before the first match. *)
Lemma replaced_prefix (replace_all : bool) old new content pos :
  str_find old content = Some pos →
  ∃ rest, (if replace_all then str_replace old new content else replacen_1 old new content)
          = str_take pos content +:+ rest.
Proof.
  intros Hf. destruct replace_all.
  - unfold str_replace, str_split, str_is_empty. case_bool_decide as E.
    + subst. rewrite str_find_empty in Hf. injection Hf as <-. destruct content; simpl; eauto.
    + rewrite split_from_find, Hf by done. rewrite concat_cons by apply split_from_non_nil. eauto.
  - unfold replacen_1. rewrite Hf. eauto.
Qed.

Lemma find_of_count old content : match_count old content ≠ 0 → ∃ pos, str_find old content = Some pos.
Proof. intros H. destruct (str_find old content) eqn:E; [eauto|]. by apply match_count_zero in E. Qed.

Section Edit.
Context {FS : Type} `{FileSystemLaws FS} `{TextDiff} (ctx : ToolContext) (p : EditInput).

(** The tool as one case analysis on what the file holds. *)
Definition edit_new_content (content : string) : string :=
  if ed_replace_all p then str_replace (ed_old_string p) (ed_new_string p) content
  else replacen_1 (ed_old_string p) (ed_new_string p) content.

(** An edit goes through to the write on this content. *)
Definition edit_applies (content : string) : bool :=
  negb (bool_decide (ed_old_string p = ed_new_string p))
  && negb (match_count (ed_old_string p) content =? 0)
  && negb ((1 <? match_count (ed_old_string p) content) && negb (ed_replace_all p)).

Lemma edit_rejected (w : World FS) :
  (∀ content, fs_exists (resolve_path ctx (ed_file_path p)) (w_fs w) = true →
     fs_read (resolve_path ctx (ed_file_path p)) (w_fs w) = Ok content → edit_applies content = false) →
  ∃ msg, edit_execute ctx p w = (Err (Failed msg), w).
Proof.
  intros Hrej.
  cbv [edit_execute st_bind st_guard exists_file read_to_string lift_io publish st_index st_ret st_err].
  case_bool_decide as Eon; [eexists; reflexivity|].
  destruct (fs_exists _ (w_fs w)) eqn:Ee; [|eexists; reflexivity]. cbn [negb].
  destruct (fs_read _ (w_fs w)) as [content|e]; [|eexists; reflexivity].
  specialize (Hrej content eq_refl eq_refl). unfold edit_applies in Hrej. rewrite bool_decide_eq_false_2 in Hrej by done.
  simpl in Hrej. destruct (match_count (ed_old_string p) content =? 0) eqn:E0.
  - clear Hrej. unfold st_err, try_flexible_match. cbv zeta. destruct (str_contains _ _ && _); [eexists; reflexivity|].
    destruct (length (lines (ed_old_string p)) =? 0) eqn:El.
    + apply Nat.eqb_eq in El. exfalso. apply Nat.eqb_eq, match_count_zero in E0.
      apply (lines_nonempty (ed_old_string p)); [|done]. intros Eo. by rewrite Eo, str_find_empty in E0.
    + destruct (flexible_window _ _ _); eexists; reflexivity.
  - simpl in Hrej. apply negb_false_iff in Hrej. rewrite Hrej. eexists; reflexivity.
Qed.

Lemma edit_accepted (w : World FS) content :
  fs_exists (resolve_path ctx (ed_file_path p)) (w_fs w) = true →
  fs_read (resolve_path ctx (ed_file_path p)) (w_fs w) = Ok content → edit_applies content = true →
  match fs_write (resolve_path ctx (ed_file_path p)) (edit_new_content content) (w_fs w) with
  | (Err e, fs') => edit_execute ctx p w = (Err (Failed e), mk_world fs' (w_events w))
  | (Ok _, fs') => ∃ out touch, edit_execute ctx p w = (Ok out, mk_world fs' (w_events w ++ [touch]))
  end.
Proof.
  intros Ee Er Ha. unfold edit_applies in Ha. apply andb_true_iff in Ha as [[Hon%negb_true_iff Hz%negb_true_iff]%andb_true_iff Hmany%negb_true_iff].
  cbv [edit_execute st_bind st_guard exists_file read_to_string lift_io publish st_index st_ret st_err].
  rewrite Hon, Ee. cbn [negb]. rewrite Er, Hz, Hmany. fold (edit_new_content content).
  destruct (fs_write _ (edit_new_content content) (w_fs w)) as [[u|e] fs']; [|done].
  cbn [w_fs w_events].
  apply Nat.eqb_neq in Hz. destruct (find_of_count _ _ Hz) as [pos Hpos].
  destruct (replaced_prefix (ed_replace_all p) _ (ed_new_string p) _ _ Hpos) as [rest Hrest].
  fold (edit_new_content content) in Hrest.
  set (sl := find_line_number content (ed_old_string p)).
  assert (Hsl : sl = length (lines (str_take pos content)) + 1) by (unfold sl, find_line_number; by rewrite Hpos).
  destruct (extract_context_some _ rest sl (length (lines (ed_new_string p)) - 1) Hsl) as [[[a b] t] Hx].
  rewrite Hrest, Hx. simpl. eexists _, _. reflexivity.
Qed.
End Edit.

(** The edit tool, on every branch.  It never panics, and other files keep
    their contents.  If it returns an output, the file existed, the strings
    differ, exactly one event is published, and the file now holds the
    substitution: without [replace_all] the old string was matched once and only
    that stretch changed; with it, the text between the matches is kept and
    every match became the new string.  If it fails, either the write itself
    failed or the world is unchanged. *)
Theorem edit_contract {FS : Type} `{FileSystemLaws FS} `{TextDiff} (ctx : ToolContext) (p : EditInput) (w : World FS) :
  (edit_execute ctx p w).1 ≠ Err Panicked
  ∧ (∀ q, q ≠ resolve_path ctx (ed_file_path p) →
       fs_read q (w_fs (edit_execute ctx p w).2) = fs_read q (w_fs w))
  ∧ match edit_execute ctx p w with
    | (Ok _, w') =>
        ed_old_string p ≠ ed_new_string p ∧ length (w_events w') = S (length (w_events w))
        ∧ ∃ content, fs_read (resolve_path ctx (ed_file_path p)) (w_fs w) = Ok content
          ∧ if ed_replace_all p then
              ∃ pieces, 2 ≤ length pieces ∧ content = String.concat (ed_old_string p) pieces
                ∧ fs_read (resolve_path ctx (ed_file_path p)) (w_fs w') = Ok (String.concat (ed_new_string p) pieces)
            else
              ∃ a b, str_split (ed_old_string p) content = [a; b] ∧ content = a +:+ ed_old_string p +:+ b
                ∧ fs_read (resolve_path ctx (ed_file_path p)) (w_fs w') = Ok (a +:+ ed_new_string p +:+ b)
    | (Err _, w') => w' = w ∨ ∃ text e, fs_write (resolve_path ctx (ed_file_path p)) text (w_fs w) = (Err e, w_fs w')
    end.
Proof.
  set (path := resolve_path ctx (ed_file_path p)).
  destruct (fs_exists path (w_fs w)) eqn:Ee.
  2: { destruct (edit_rejected ctx p w) as [msg ->]; [|split_and!; auto]. fold path. by rewrite Ee. }
  destruct (fs_read path (w_fs w)) as [content|e] eqn:Er.
  2: { destruct (edit_rejected ctx p w) as [msg ->]; [|split_and!; auto]. fold path. by rewrite Er. }
  destruct (edit_applies p content) eqn:Ea.
  2: { destruct (edit_rejected ctx p w) as [msg ->]; [|split_and!; auto]. fold path. rewrite Er. by intros ? _ [= <-]. }
  pose proof (edit_accepted ctx p w content Ee Er Ea) as Hacc. fold path in Hacc.
  destruct (fs_write path (edit_new_content p content) (w_fs w)) as [[[]|e] fs'] eqn:Ew.
  2: { rewrite Hacc. split_and!; [done| |right; eauto]. intros q Hq. simpl.
       rewrite <- (write_elsewhere path q (edit_new_content p content) (w_fs w)) by done. by rewrite Ew. }
  destruct Hacc as (out & touch & ->). cbn [fst snd w_fs w_events].
  pose proof (read_written _ _ _ _ Ew) as Hnew.
  assert (Hother : ∀ q, q ≠ path → fs_read q fs' = fs_read q (w_fs w)).
  { intros q Hq. rewrite <- (write_elsewhere path q (edit_new_content p content) (w_fs w)) by done. by rewrite Ew. }
  unfold edit_applies in Ea. rewrite !andb_true_iff, !negb_true_iff, bool_decide_eq_false, Nat.eqb_neq in Ea.
  destruct Ea as [[Hne H0'] Hmany]. split_and!; [done|done|done|rewrite length_app; simpl; lia|].
  exists content. split; [done|]. unfold edit_new_content in Hnew. destruct (ed_replace_all p).
  - exists (str_split (ed_old_string p) content). split_and!; [|by rewrite concat_split|done].
    unfold match_count in H0'. lia.
  - rewrite andb_true_r in Hmany. apply Nat.ltb_ge in Hmany.
    destruct (match_count_one (ed_old_string p) (ed_new_string p) content) as (a & b & Hc & Hs & _ & Hr); [lia|].
    exists a, b. rewrite Hr in Hnew. done.
Qed.

Definition edit_demo_fs : gmap string string := {["/w/a.txt" := "one two three"; "/w/b.txt" := "b"]}.
#[local] Instance no_diff : TextDiff := { from_lines _ _ := [] }.
Definition edit_demo_ctx : ToolContext := {| ctx_session_id := "s"; ctx_working_dir := Some "/w" |}.
Definition edit_demo_input : EditInput :=
  {| ed_intent := None; ed_file_path := "a.txt"; ed_old_string := "two"; ed_new_string := "2"; ed_replace_all := false |}.

Lemma edit_contract_witness :
  (edit_execute edit_demo_ctx edit_demo_input (mk_world edit_demo_fs [])).1 ≠ Err Panicked
  ∧ fs_read "/w/a.txt" (w_fs (edit_execute edit_demo_ctx edit_demo_input (mk_world edit_demo_fs [])).2) = Ok "one 2 three".
Proof.
  split; [exact (proj1 (edit_contract edit_demo_ctx edit_demo_input (mk_world edit_demo_fs [])))|].
  vm_compute. reflexivity.
Defined.

(** ** multiedit *)

Section MultiEdit.
Context `{TextDiff} (ctx : ToolContext) (file_path : string).

Definition as_edit (e : EditOperation) : EditInput :=
  {| ed_intent := None; ed_file_path := file_path; ed_old_string := eo_old e; ed_new_string := eo_new e;
     ed_replace_all := eo_replace_all e |}.

(** One edit after the other, each a call of the edit tool; failures are passed over. *)
Definition run_edits (w : World (gmap string string)) (edits : list EditOperation) : World (gmap string string) :=
  foldl (λ w e, (edit_execute ctx (as_edit e) w).2) w edits.

Lemma edit_applies_step i content e :
  multi_step i content e = if edit_applies (as_edit e) content
    then Ok (edit_new_content (as_edit e) content, 
             match multi_step i content e with Ok (_, m) => m | Err _ => "" end)
    else Err (match multi_step i content e with Ok _ => "" | Err m => m end).
Proof.
  unfold multi_step, edit_applies, edit_new_content. cbv zeta. simpl.
  case_bool_decide; [done|]. destruct (match_count (eo_old e) content =? 0); [done|].
  by destruct (1 <? match_count (eo_old e) content), (eo_replace_all e).
Qed.

Lemma run_edits_spec edits : ∀ i content (w : World (gmap string string)),
  w_fs w !! resolve_path ctx file_path = Some content →
  w_fs (run_edits w edits) = <[resolve_path ctx file_path := (multi_loop i content edits).1.1]> (w_fs w).
Proof.
  induction edits as [|e edits IH]; intros i content w Hw; cbn [run_edits foldl multi_loop].
  { simpl. by rewrite insert_id. }
  assert (Hex : fs_exists (resolve_path ctx file_path) (w_fs w) = true) by (simpl; rewrite Hw; by apply bool_decide_eq_true).
  assert (Hrd : fs_read (resolve_path ctx file_path) (w_fs w) = Ok content) by (simpl; by rewrite Hw).
  rewrite edit_applies_step. destruct (edit_applies (as_edit e) content) eqn:Ea.
  - pose proof (edit_accepted ctx (as_edit e) w content Hex Hrd Ea) as Hacc. simpl in Hacc.
    destruct Hacc as (out & touch & ->). cbn [snd].
    fold (run_edits (mk_world (<[resolve_path ctx file_path := edit_new_content (as_edit e) content]> (w_fs w))
                              (w_events w ++ [touch])) edits).
    rewrite (IH (S i) (edit_new_content (as_edit e) content)) by (simpl; by rewrite lookup_insert_eq).
    destruct (multi_loop (S i) (edit_new_content (as_edit e) content) edits) as [[c ok] bad]. simpl.
    by rewrite insert_insert_eq.
  - destruct (edit_rejected ctx (as_edit e) w) as [msg ->].
    { intros c _ Hc. cbn [ed_file_path as_edit] in Hc. rewrite Hrd in Hc. by injection Hc as <-. }
    cbn [snd]. fold (run_edits w edits). rewrite (IH (S i) content w Hw).
    by destruct (multi_loop (S i) content edits) as [[c ok] bad].
Qed.
End MultiEdit.

(** Multiedit is the sequence of its edits: on a file that exists, it
    leaves exactly the files that calling the edit tool once per edit, in
    order and ignoring the calls that fail, would leave. *)
Theorem multiedit_runs_the_edits `{TextDiff} (ctx : ToolContext) (file_path : string) (edits : list EditOperation)
  (w : World (gmap string string)) (content : string) :
  w_fs w !! resolve_path ctx file_path = Some content →
  w_fs (multiedit_execute ctx {| mi_file_path := file_path; mi_edits := edits |} w).2
  = w_fs (run_edits ctx file_path w edits).
Proof.
  intros Hw. rewrite (run_edits_spec ctx file_path edits 0 content w Hw).
  cbv [multiedit_execute st_bind exists_file st_guard read_to_string st_ret st_err lift_io]. simpl. rewrite Hw.
  rewrite bool_decide_eq_true_2 by done. simpl. rewrite Hw.
  by destruct (multi_loop 0 content edits) as [[c ok] bad].
Qed.

Lemma multiedit_runs_the_edits_witness :
  let edits := [{| eo_old := "one"; eo_new := "1"; eo_replace_all := false |};
                {| eo_old := "zz"; eo_new := "y"; eo_replace_all := true |};
                {| eo_old := "t"; eo_new := "T"; eo_replace_all := true |}] in
  w_fs (multiedit_execute edit_demo_ctx {| mi_file_path := "a.txt"; mi_edits := edits |} (mk_world edit_demo_fs [])).2
    = w_fs (run_edits edit_demo_ctx "a.txt" (mk_world edit_demo_fs []) edits)
  ∧ w_fs (run_edits edit_demo_ctx "a.txt" (mk_world edit_demo_fs []) edits) !! "/w/a.txt" = Some "1 Two Three".
Proof.
  split; [|vm_compute; reflexivity].
  exact (multiedit_runs_the_edits edit_demo_ctx "a.txt" _ (mk_world edit_demo_fs []) "one two three" eq_refl).
Defined.

(** ** read *)

(** The request the continuation hint asks for. *)
Definition follow_hint (r : NormalizedReadRange) : ReadInput :=
  match rr_style r with
  | OffsetLimit => {| rd_start_line := None; rd_end_line := None; rd_offset := Some (next_offset r); rd_limit := Some (rr_limit r) |}
  | StartEnd => {| rd_start_line := Some (next_start_line r); rd_end_line := None; rd_offset := None; rd_limit := Some (rr_limit r) |}
  end.

(** Read, and follow the hints while there are more lines. *)
Fixpoint read_pages (fuel : nat) (r : NormalizedReadRange) (ls : list string) : option string :=
  if (next_offset r <? N.of_nat (length ls))%N then
    match fuel with
    | O => None
    | S fuel' =>
        match normalize_read_range (follow_hint r) with
        | Ok r' => String.append (read_loop r 0 ls) <$> read_pages fuel' r' ls
        | Err _ => None
        end
    end
  else Some (read_loop r 0 ls).

(** Every line, numbered from line [i + 1]. *)
Fixpoint all_lines (i : N) (ls : list string) : string :=
  match ls with [] => "" | line :: rest => read_line i line +:+ all_lines (i + 1) rest end.

(** The lines with index in [lo, hi). *)
Fixpoint window (lo hi i : N) (ls : list string) : string :=
  match ls with
  | [] => ""
  | line :: rest => (if (i <? lo)%N || (hi <=? i)%N then "" else read_line i line) +:+ window lo hi (i + 1) rest
  end.

Lemma read_loop_window r i ls : read_loop r i ls = window (rr_offset r) (next_offset r) i ls.
Proof. revert i. induction ls as [|l ls IH]; intros i; [done|]. simpl. by rewrite IH. Qed.

Lemma window_past lo hi i ls : (hi ≤ i)%N → window lo hi i ls = "".
Proof.
  revert i. induction ls as [|l ls IH]; intros i Hi; [done|]. cbn [window].
  rewrite (proj2 (N.leb_le hi i)) by done. rewrite orb_true_r, IH by lia. done.
Qed.

Lemma window_split lo mid hi i ls :
  (lo ≤ mid)%N → (mid ≤ hi)%N → window lo mid i ls +:+ window mid hi i ls = window lo hi i ls.
Proof.
  intros H1 H2. revert i. induction ls as [|l ls IH]; intros i; [done|]. cbn [window].
  destruct (N.ltb_spec i mid) as [Hlt|Hge].
  - rewrite (proj2 (N.leb_gt mid i)), (proj2 (N.leb_gt hi i)) by lia.
    rewrite orb_true_l, append_assoc_s. simpl. by rewrite IH.
  - rewrite (proj2 (N.leb_le mid i)) by done. rewrite orb_true_r, (window_past lo mid) by lia. simpl.
    rewrite (proj2 (N.ltb_ge i lo)) by lia. f_equal. rewrite <- (IH (i + 1)%N), (window_past lo mid (i + 1)%N) by lia. done.
Qed.

Lemma window_all hi ls : ∀ i, (i + N.of_nat (length ls) ≤ hi)%N → window 0 hi i ls = all_lines i ls.
Proof.
  induction ls as [|l ls IH]; intros i Hi; [done|]. cbn [window all_lines]. simpl in Hi.
  rewrite (proj2 (N.ltb_ge i 0)), (proj2 (N.leb_gt hi i)) by lia. simpl. f_equal. apply IH. lia.
Qed.

Lemma window_short lo hi hi' ls : ∀ i,
  (i + N.of_nat (length ls) ≤ hi)%N → (i + N.of_nat (length ls) ≤ hi')%N → window lo hi i ls = window lo hi' i ls.
Proof.
  induction ls as [|l ls IH]; intros i H1 H2; [done|]. cbn [window]. simpl in H1, H2.
  rewrite (proj2 (N.leb_gt hi i)), (proj2 (N.leb_gt hi' i)) by lia. f_equal. apply IH; lia.
Qed.

Lemma next_offset_no_wrap r : (rr_offset r + rr_limit r < 2 ^ 64)%N → next_offset r = (rr_offset r + rr_limit r)%N.
Proof. intros H. unfold next_offset, usize_add. by apply N.mod_small. Qed.

(** The hint asks for the page that starts where this one stops. *)
Lemma follow_hint_spec r :
  (rr_offset r + rr_limit r + 1 < 2 ^ 64)%N →
  normalize_read_range (follow_hint r)
  = Ok {| rr_offset := rr_offset r + rr_limit r; rr_limit := rr_limit r; rr_style := rr_style r |}.
Proof.
  intros Hb. unfold follow_hint. assert (Hno : next_offset r = (rr_offset r + rr_limit r)%N) by (apply next_offset_no_wrap; lia).
  destruct (rr_style r) eqn:Es; unfold normalize_read_range; simpl.
  - by rewrite Hno.
  - assert (Hns : next_start_line r = (rr_offset r + rr_limit r + 1)%N).
    { unfold next_start_line, usize_add. rewrite Hno. by apply N.mod_small. }
    rewrite Hns. rewrite (proj2 (N.eqb_neq _ 0)) by lia. simpl. do 2 f_equal. lia.
Qed.

Lemma read_pages_window ls : ∀ fuel r,
  (0 < rr_limit r)%N → (N.of_nat (length ls) + rr_limit r < 2 ^ 64)%N → (rr_offset r ≤ N.of_nat (length ls))%N →
  length ls ≤ fuel + N.to_nat (rr_offset r) →
  read_pages fuel r ls = Some (window (rr_offset r) (2 ^ 64) 0 ls).
Proof.
  induction fuel as [|fuel IH]; intros r Hpos Hb Ho Hf; cbn [read_pages];
    rewrite next_offset_no_wrap by lia; destruct (N.ltb_spec (rr_offset r + rr_limit r) (N.of_nat (length ls))) as [Hlt|Hge].
  - lia.
  - rewrite read_loop_window, next_offset_no_wrap by lia. f_equal. apply window_short; lia.
  - rewrite follow_hint_spec by lia. rewrite IH by (simpl; lia). cbn [fmap option_fmap option_map rr_offset].
    f_equal. rewrite read_loop_window, next_offset_no_wrap by lia. apply window_split; lia.
  - rewrite read_loop_window, next_offset_no_wrap by lia. f_equal. apply window_short; lia.
Qed.

(** Reading in pages shows the whole file.  Start at the first line with
    any positive limit, in either style, and follow the continuation hints: as
    long as no sum overflows 64 bits, the hints are accepted, the process ends
    after at most one page per line, and the pages together are every line of
    the file exactly once, in order and numbered, however the limit was chosen. *)
Theorem read_pages_tile (r : NormalizedReadRange) (content : string) (fuel : nat) :
  rr_offset r = 0%N → (0 < rr_limit r)%N → (N.of_nat (length (lines content)) + rr_limit r < 2 ^ 64)%N →
  length (lines content) ≤ fuel →
  read_pages fuel r (lines content) = Some (all_lines 0 (lines content)).
Proof.
  intros H0 Hpos Hb Hf. rewrite read_pages_window by (rewrite ?H0; lia). f_equal. rewrite H0.
  apply window_all. lia.
Qed.

Lemma read_pages_tile_witness :
  let text := str_concat (map (λ l, l +:+ newline) ["a"; "b"; "c"; "d"; "e"]) in
  read_pages 5 {| rr_offset := 0; rr_limit := 2; rr_style := StartEnd |} (lines text) = Some (all_lines 0 (lines text))
  ∧ length (lines text) = 5.
Proof.
  split; [|vm_compute; reflexivity].
  apply (read_pages_tile {| rr_offset := 0; rr_limit := 2; rr_style := StartEnd |});
    [reflexivity|reflexivity|vm_compute; reflexivity|vm_compute; lia].
Defined.

(** ** patch *)

(** A hunk of a unified diff.  [apply_hunk] panics exactly when the hunk's
    start line is more than one past the end of the file; otherwise it replaces as many lines as
    the hunk expects, fewer at the end of the file, whatever these lines are:
    the text of the old lines is never compared with the file. *)
Theorem unified_hunk_outcome (h : Hunk) (ls : list string) :
  (hk_old_start h + N.of_nat (length (hk_old_lines h)) < 2 ^ 64)%N →
  (apply_hunk h ls = None ↔ (N.of_nat (length ls) < hk_old_start h - 1)%N)
  ∧ (∀ out, apply_hunk h ls = Some out →
       out = take (N.to_nat (hk_old_start h - 1)) ls ++ hk_new_lines h
             ++ drop (N.to_nat (hk_old_start h - 1) + length (hk_old_lines h)) ls)
  ∧ (∀ olds, length olds = length (hk_old_lines h) →
       apply_hunk {| hk_old_start := hk_old_start h; hk_old_lines := olds; hk_new_lines := hk_new_lines h |} ls
       = apply_hunk h ls).
Proof.
  intros Hb. unfold apply_hunk. cbv zeta. simpl.
  assert (Hadd : usize_add (hk_old_start h - 1) (N.of_nat (length (hk_old_lines h)))
                 = (hk_old_start h - 1 + N.of_nat (length (hk_old_lines h)))%N) by (apply N.mod_small; lia).
  rewrite Hadd. set (s := (hk_old_start h - 1)%N) in *. set (n := length (hk_old_lines h)) in *.
  assert (Hsp : splice s (N.min (s + N.of_nat n) (N.of_nat (length ls))) (hk_new_lines h) ls
    = if (s <=? N.of_nat (length ls))%N then Some (take (N.to_nat s) ls ++ hk_new_lines h ++ drop (N.to_nat s + n) ls) else None).
  { unfold splice. rewrite (proj2 (N.leb_le (N.min _ _) _)) by lia. rewrite andb_true_r.
    destruct (N.leb_spec s (N.of_nat (length ls))) as [Hle|Hgt].
    - rewrite (proj2 (N.leb_le s _)) by lia. do 3 f_equal.
      destruct (decide (s + N.of_nat n ≤ N.of_nat (length ls))%N) as [Hl|Hl].
      + rewrite N.min_l by done. f_equal. lia.
      + rewrite N.min_r by lia. rewrite !drop_ge by lia. done.
    - rewrite (proj2 (N.leb_gt s _)) by lia. done. }
  rewrite Hsp. split_and!.
  - destruct (N.leb_spec s (N.of_nat (length ls))); split; intros; try done; try lia.
  - intros out. destruct (N.leb_spec s (N.of_nat (length ls))); [|done]. by intros [= <-].
  - intros olds Ho. rewrite <- Hsp, Ho. fold n. by rewrite Hadd.
Qed.

Lemma unified_hunk_outcome_witness :
  apply_hunk {| hk_old_start := 9; hk_old_lines := ["x"]; hk_new_lines := ["y"] |} ["a"; "b"] = None
  ∧ apply_hunk {| hk_old_start := 2; hk_old_lines := ["x"]; hk_new_lines := ["y"] |} ["a"; "b"] = Some ["a"; "y"].
Proof.
  split; [|vm_compute; reflexivity].
  apply (proj1 (unified_hunk_outcome {| hk_old_start := 9; hk_old_lines := ["x"]; hk_new_lines := ["y"] |}
                  ["a"; "b"] ltac:(vm_compute; reflexivity))). vm_compute. reflexivity.
Defined.
