(* ===== verification/ApplyPatch.v ===== *)
(** * The apply_patch tool

    crates/jcode-app-core/src/tool/apply_patch.rs: the parser of the
    "*** Begin Patch" format, the search for the lines a chunk expects, the
    replacements it computes and their application, and the tool's [execute].
    The parser's index loops walk the list of the remaining lines; the two that
    are not structural carry fuel (enough by [update_chunks_fuel] and
    [parse_hunks_fuel]). *)

From stdpp Require Import base list gmap strings pretty.
From S2P Require Import Prelude RustString RustText ToolFs FileTools.

Open Scope string_scope.
Open Scope nat_scope.
Open Scope list_scope.

Record UpdateFileChunk := {
  ck_context : option string;
  ck_old : list string;
  ck_new : list string;
  ck_eof : bool }.

Inductive PatchHunk :=
| AddFile (path contents : string)
| DeleteFile (path : string)
| UpdateFile (path : string) (move_to : option string) (chunks : list UpdateFileChunk).

(** ** Parsing *)

(** The lines added by an "Add File" hunk, and the lines after it. *)
Fixpoint add_contents (ls : list string) : string * list string :=
  match ls with
  | [] => ("", [])
  | current :: rest =>
      if starts_with "*** " current then ("", ls)
      else
        let '(contents, tail) := add_contents rest in
        match strip_prefix "+" current with
        | Some added => (added +:+ newline +:+ contents, tail)
        | None => (contents, tail)
        end
  end.

(** The body of a chunk.  [had] is [had_diff_lines]: text that is no diff line
    is skipped before the first diff line and ends the chunk after it. *)
Record ChunkBody := {
  cb_old : list string;
  cb_new : list string;
  cb_eof : bool;
  cb_had : bool;
  cb_tail : list string }.

Definition body_push (old new : option string) (b : ChunkBody) : ChunkBody :=
  {| cb_old := match old with Some l => l :: cb_old b | None => cb_old b end;
     cb_new := match new with Some l => l :: cb_new b | None => cb_new b end;
     cb_eof := cb_eof b; cb_had := cb_had b; cb_tail := cb_tail b |}.
Definition body_end (eof had : bool) (tail : list string) : ChunkBody :=
  {| cb_old := []; cb_new := []; cb_eof := eof; cb_had := had; cb_tail := tail |}.

Fixpoint chunk_body (had : bool) (ls : list string) : ChunkBody :=
  match ls with
  | [] => body_end false had []
  | cl :: rest =>
      if bool_decide (cl = "*** End of File") then body_end true had rest
      else if starts_with "*** " cl || starts_with "@@" cl then body_end false had ls
      else match strip_prefix " " cl with
      | Some content => body_push (Some content) (Some content) (chunk_body true rest)
      | None =>
      match strip_prefix "+" cl with
      | Some content => body_push None (Some content) (chunk_body true rest)
      | None =>
      match strip_prefix "-" cl with
      | Some content => body_push (Some content) None (chunk_body true rest)
      | None =>
          if str_is_empty cl then body_push (Some "") (Some "") (chunk_body true rest)
          else if had then body_end false had ls
          else chunk_body had rest
      end end end
  end.

(** The header of a chunk: its context and whether the line is consumed;
    [None] leaves the loop. *)
Definition chunk_header (is_first : bool) (current : string) : option (option string * bool) :=
  if bool_decide (current = "@@") then Some (None, true)
  else match strip_prefix "@@ " current with
       | Some ctx => Some (Some ctx, true)
       | None => if is_first then Some (None, false) else None
       end.

Fixpoint update_chunks (fuel : nat) (is_first : bool) (ls : list string) : list UpdateFileChunk * list string :=
  match fuel, ls with
  | S fuel', raw :: rest =>
      let current := trim_end raw in
      if starts_with "*** " current && negb (bool_decide (current = "*** End of File")) then ([], ls)
      else if str_is_empty (trim current) && negb (starts_with " " current)
              && negb (starts_with "+" current) && negb (starts_with "-" current)
      then update_chunks fuel' is_first rest
      else match chunk_header is_first current with
           | None => ([], ls)
           | Some (ctx, consumed) =>
               let b := chunk_body false (if consumed then rest else ls) in
               let '(later, tail) := update_chunks fuel' false (cb_tail b) in
               (if cb_had b || bool_decide (is_Some ctx)
                then {| ck_context := ctx; ck_old := cb_old b; ck_new := cb_new b; ck_eof := cb_eof b |} :: later
                else later, tail)
           end
  | _, _ => ([], ls)
  end.

(** The optional "Move to" line after an "Update File" header. *)
Definition move_target (ls : list string) : option string * list string :=
  match ls with
  | line :: rest =>
      match strip_prefix "*** Move to: " (trim_end line) with
      | Some target => (Some (trim target), rest)
      | None => (None, ls)
      end
  | [] => (None, [])
  end.

Definition no_changes (path : string) : string := "Update file hunk for '" +:+ path +:+ "' has no changes".

Fixpoint parse_hunks (fuel : nat) (ls : list string) : result (list PatchHunk) string :=
  match fuel, ls with
  | S fuel', raw :: rest =>
      let line := trim_end raw in
      if bool_decide (trim line = "*** End Patch") then Ok []
      else match strip_prefix "*** Add File: " line with
      | Some path =>
          let '(contents, tail) := add_contents rest in
          let? later := parse_hunks fuel' tail in Ok (AddFile (trim path) contents :: later)
      | None =>
      match strip_prefix "*** Delete File: " line with
      | Some path => let? later := parse_hunks fuel' rest in Ok (DeleteFile (trim path) :: later)
      | None =>
      match strip_prefix "*** Update File: " line with
      | Some path =>
          let '(move_to, body) := move_target rest in
          let '(chunks, tail) := update_chunks (S (length body)) true body in
          if bool_decide (length chunks = 0) then Err (no_changes (trim path))
          else let? later := parse_hunks fuel' tail in Ok (UpdateFile (trim path) move_to chunks :: later)
      | None => parse_hunks fuel' rest
      end end end
  | _, _ => Ok []
  end.

(** [skip(position(begin) + 1)]. *)
Fixpoint after_begin (ls : list string) : option (list string) :=
  match ls with
  | [] => None
  | l :: rest => if bool_decide (trim l = "*** Begin Patch") then Some rest else after_begin rest
  end.

Definition parse_apply_patch (input : string) : result (list PatchHunk) string :=
  match after_begin (lines input) with
  | None => Err "Patch must contain *** Begin Patch"
  | Some body =>
      let? hunks := parse_hunks (length body) body in
      if bool_decide (length hunks = 0) then Err "No valid patch directives found" else Ok hunks
  end.

(** ** Finding the lines *)

(** [lines[i..i + pattern.len()]] equals the pattern, up to [f] on each line. *)
Definition window_matches (f : string → string) (ls pattern : list string) (i : nat) : bool :=
  bool_decide (map f (take (length pattern) (drop i ls)) = map f pattern).

(** One pass [for i in lo..=hi]. *)
Definition seek_pass (f : string → string) (ls pattern : list string) (lo hi : nat) : option nat :=
  find_first (window_matches f ls pattern) (seq lo (S hi - lo)).

Definition seek_sequence (ls pattern : list string) (start : nat) (eof : bool) : option nat :=
  if length pattern =? 0 then Some start
  else if length ls <? length pattern then None
  else
    let lo := if eof && (length pattern <=? length ls) then length ls - length pattern else start in
    let hi := length ls - length pattern in
    match seek_pass id ls pattern lo hi with
    | Some i => Some i
    | None =>
        match seek_pass trim_end ls pattern lo hi with
        | Some i => Some i
        | None => seek_pass trim ls pattern lo hi
        end
    end.

Definition ends_empty (l : list string) : bool := bool_decide (last l = Some "").

Record Replacement := { rp_start : nat; rp_len : nat; rp_new : list string }.

Definition insertion_index (ls : list string) : nat :=
  if ends_empty ls then length ls - 1 else length ls.

(** The old lines as searched for, the new lines, and where they were found. *)
Definition locate_chunk (ls : list string) (line_index : nat) (c : UpdateFileChunk)
  : list string * list string * option nat :=
  match seek_sequence ls (ck_old c) line_index (ck_eof c) with
  | Some i => (ck_old c, ck_new c, Some i)
  | None =>
      if ends_empty (ck_old c) then
        let pattern := removelast (ck_old c) in
        let new := if ends_empty (ck_new c) then removelast (ck_new c) else ck_new c in
        (pattern, new, seek_sequence ls pattern line_index (ck_eof c))
      else (ck_old c, ck_new c, None)
  end.

Definition context_missing (ctx path : string) : string :=
  "Failed to find context '" +:+ ctx +:+ "' in " +:+ path.
Definition lines_missing (path : string) (olds : list string) : string :=
  "Failed to find expected lines in " +:+ path +:+ ":" +:+ newline +:+ String.concat newline olds.

(** [line_index] after the chunk's context line, if it names one. *)
Definition seek_context (ls : list string) (path : string) (line_index : nat) (ctx : option string)
  : result nat string :=
  match ctx with
  | None => Ok line_index
  | Some ctx_line =>
      match seek_sequence ls [ctx_line] line_index false with
      | Some i => Ok (i + 1)
      | None => Err (context_missing ctx_line path)
      end
  end.

Fixpoint replacement_loop (ls : list string) (path : string) (line_index : nat) (chunks : list UpdateFileChunk)
  : result (list Replacement) string :=
  match chunks with
  | [] => Ok []
  | c :: rest =>
      let? line_index := seek_context ls path line_index (ck_context c) in
      if length (ck_old c) =? 0 then
        let? later := replacement_loop ls path line_index rest in
        Ok ({| rp_start := insertion_index ls; rp_len := 0; rp_new := ck_new c |} :: later)
      else
        let '(pattern, new, found) := locate_chunk ls line_index c in
        match found with
        | Some start =>
            let? later := replacement_loop ls path (start + length pattern) rest in
            Ok ({| rp_start := start; rp_len := length pattern; rp_new := new |} :: later)
        | None => Err (lines_missing path (ck_old c))
        end
  end.

Definition start_leb (a b : Replacement) : bool := rp_start a <=? rp_start b.

Definition compute_replacements (ls : list string) (path : string) (chunks : list UpdateFileChunk)
  : result (list Replacement) string :=
  let? reps := replacement_loop ls path 0 chunks in Ok (sort_by start_leb reps).

(** ** Applying *)

(** [if start < lines.len() { lines.remove(start) }]. *)
Definition remove_line (start : nat) (ls : list string) : list string :=
  if start <? length ls then take start ls ++ drop (S start) ls else ls.

(** [lines.insert(i, x)]; [None] is the panic beyond the end. *)
Definition insert_line (i : nat) (x : string) (ls : list string) : option (list string) :=
  if i <=? length ls then Some (take i ls ++ x :: drop i ls) else None.

Fixpoint insert_segment (i : nat) (new : list string) (ls : list string) : option (list string) :=
  match new with
  | [] => Some ls
  | x :: rest => ls' ← insert_line i x ls; insert_segment (S i) rest ls'
  end.

Definition apply_replacement (r : Replacement) (ls : list string) : option (list string) :=
  insert_segment (rp_start r) (rp_new r) (Nat.iter (rp_len r) (remove_line (rp_start r)) ls).

(** [for .. in replacements.iter().rev()]. *)
Definition apply_replacements (ls : list string) (reps : list Replacement) : option (list string) :=
  foldr (λ r acc, acc ≫= apply_replacement r) (Some ls) reps.

(** [contents.split('\n')] without a last empty piece. *)
Definition file_lines (contents : string) : list string :=
  let ls := str_split newline contents in
  if ends_empty ls then removelast ls else ls.

Definition join_lines (ls : list string) : string :=
  String.concat newline (if ends_empty ls then ls else ls ++ [""]).

Section ApplyTool.
Context {FS : Type} `{FileSystem FS} `{TextDiff} (ctx : ToolContext).

Definition apply_update_chunks (path : string) (chunks : list UpdateFileChunk)
  : stateE (World FS) tool_error (string * string) :=
  do! original_contents <- read_to_string path;
  let original_lines := file_lines original_contents in
  do! reps <- st_lift (match compute_replacements original_lines path chunks with
                       | Ok r => Ok r | Err e => Err (Failed e) end);
  do! new_lines <- st_index (apply_replacements original_lines reps);
  st_ret (original_contents, join_lines new_lines).

Definition APPLY_MAX_LINES : nat := 30.
Definition generate_diff_summary (old new : string) : string :=
  trim_end (diff_loop APPLY_MAX_LINES 0 1 1 (from_lines old new)).

Definition publish_file_touch (resolved verb diff : string) (intent : option string)
  : stateE (World FS) tool_error unit :=
  publish {| ft_session_id := ctx_session_id ctx;
             ft_path := resolved;
             ft_op := OpEdit;
             ft_intent := match intent with
                          | Some v => if str_is_empty (trim v) then None else Some (trim v)
                          | None => None end;
             ft_summary := Some (verb +:+ " via apply_patch");
             ft_detail := build_file_touch_preview diff |}.

(** A result line with the diff under it, if there is one. *)
Definition result_line (head diff : string) : string :=
  if str_is_empty diff then head else head +:+ newline +:+ diff.

Definition modified_text (path : string) (n : nat) : string :=
  "✓ " +:+ path +:+ ": modified (" +:+ pretty n +:+ " hunks)".

(** [match apply_update_chunks(..).await { Ok(..) => .., Err(e) => .. }]. *)
Definition st_try {S A} (m : stateE S tool_error A) : stateE S tool_error (result A string) :=
  λ s, match m s with
       | (Ok x, s') => (Ok (Ok x), s')
       | (Err (Failed e), s') => (Ok (Err e), s')
       | (Err Panicked, s') => (Err Panicked, s')
       end.

(** One round of the loop over hunks: the result line and the touched paths. *)
Definition execute_hunk (intent : option string) (h : PatchHunk)
  : stateE (World FS) tool_error (string * list string) :=
  match h with
  | AddFile path contents =>
      let resolved := resolve_path ctx path in
      run! lift_io (fs_create_parent resolved);
      run! lift_io (fs_write resolved contents);
      let diff := generate_diff_summary "" contents in
      run! publish_file_touch resolved "created" diff intent;
      st_ret (result_line ("✓ " +:+ path +:+ ": created") diff, [path])
  | DeleteFile path =>
      let resolved := resolve_path ctx path in
      do! old_contents <- read_or_default resolved;
      do! removed <- try_io (fs_remove resolved);
      if removed then
        let diff := generate_diff_summary old_contents "" in
        run! publish_file_touch resolved "deleted" diff intent;
        st_ret (result_line ("✓ " +:+ path +:+ ": deleted") diff, [path])
      else st_ret ("✗ " +:+ path +:+ ": failed to delete", [])
  | UpdateFile path move_to chunks =>
      let resolved := resolve_path ctx path in
      do! outcome <- st_try (apply_update_chunks resolved chunks);
      match outcome with
      | Err e => st_ret ("✗ " +:+ path +:+ ": " +:+ e, [])
      | Ok (old_contents, new_contents) =>
          let diff := generate_diff_summary old_contents new_contents in
          match move_to with
          | Some dest =>
              let dest_resolved := resolve_path ctx dest in
              run! lift_io (fs_create_parent dest_resolved);
              run! lift_io (fs_write dest_resolved new_contents);
              run! try_io (fs_remove resolved);
              run! publish_file_touch resolved "modified" diff intent;
              run! publish_file_touch dest_resolved "modified" diff intent;
              st_ret (result_line (modified_text path (length chunks) +:+ ", moved to " +:+ dest) diff, [path; dest])
          | None =>
              run! lift_io (fs_write resolved new_contents);
              run! publish_file_touch resolved "modified" diff intent;
              st_ret (result_line (modified_text path (length chunks)) diff, [path])
          end
      end
  end.

Fixpoint execute_hunks (intent : option string) (hs : list PatchHunk)
  : stateE (World FS) tool_error (list string * list string) :=
  match hs with
  | [] => st_ret ([], [])
  | h :: rest =>
      do! one <- execute_hunk intent h;
      do! later <- execute_hunks intent rest;
      st_ret (one.1 :: later.1, one.2 ++ later.2)
  end.

(** The output: the result lines, titled by the one path touched or their number. *)
Definition finish_output (results touched : list string) : ToolOutput :=
  if bool_decide (length results = 0) then output_new "No changes applied"
  else
    let output := output_new (String.concat newline results) in
    match touched with
    | [one] => with_title one output
    | _ => with_title (pretty (length touched) +:+ " files") output
    end.

Definition apply_patch_execute (intent : option string) (patch_text : string)
  : stateE (World FS) tool_error ToolOutput :=
  do! hunks <- st_lift (match parse_apply_patch patch_text with
                        | Ok hs => Ok hs | Err e => Err (Failed e) end);
  do! out <- execute_hunks intent hunks;
  st_ret (finish_output out.1 out.2).
End ApplyTool.

(** ** The finding: an appended chunk can be lost *)

(** A file that ends with a blank line; one chunk rewrites its last two lines,
    the other only adds "c". *)
Definition demo_blank_end : list UpdateFileChunk :=
  [{| ck_context := None; ck_old := ["a"; ""]; ck_new := ["b"; ""]; ck_eof := false |};
   {| ck_context := None; ck_old := []; ck_new := ["c"]; ck_eof := false |}].
