(* ===== verification/ApplyPatchClaims.v ===== *)
(** * What apply_patch guarantees

    - [update_applies_the_chunks]: when the chunks are found, the new file is
      the old one with each chunk's lines rewritten in place, in order; chunks
      whose lines occur in order are always found.
    - [patch_text_roundtrip]: the parser reads back any well-formed patch.
    - [apply_patch_is_contained]: the tool never panics and touches no file the
      patch does not name.
    - [appended_chunk_can_be_lost]: a pure insertion next to a chunk that covers
      the final blank line of a file disappears. *)

From stdpp Require Import base list gmap strings sorting.
From S2P Require Import Prelude RustString Mention RustText ToolFs FileTools ApplyPatch.

Open Scope string_scope.
Open Scope nat_scope.
Open Scope list_scope.

(** ** Lemmas on applying a patch

    Fuel of the parser, the search for a chunk's lines, and replacements: a
    single replacement is a splice, a sorted list of replacements never runs
    out of range, and a list without overlaps is one pass over the file. *)

#[local] Arguments starts_with : simpl never.
#[local] Arguments strip_prefix : simpl never.

(** ** Fuel *)

Lemma length_add_contents ls : length (add_contents ls).2 ≤ length ls.
Proof.
  induction ls as [|l ls IH]; [done|]. cbn [add_contents]. destruct (starts_with "*** " l); [simpl; lia|].
  destruct (add_contents ls) as [c t]. simpl in *. destruct (strip_prefix "+" l); simpl; lia.
Qed.

Lemma cb_tail_push o n b : cb_tail (body_push o n b) = cb_tail b.
Proof. done. Qed.

Lemma length_chunk_body had ls : length (cb_tail (chunk_body had ls)) ≤ length ls.
Proof.
  revert had. induction ls as [|l ls IH]; intros had; [done|]. cbn [chunk_body].
  pose proof (IH true). pose proof (IH had).
  case_bool_decide; [simpl; lia|]. destruct (starts_with "*** " l || starts_with "@@" l); [simpl; lia|].
  destruct (strip_prefix " " l); [rewrite cb_tail_push; simpl; lia|].
  destruct (strip_prefix "+" l); [rewrite cb_tail_push; simpl; lia|].
  destruct (strip_prefix "-" l); [rewrite cb_tail_push; simpl; lia|].
  destruct (str_is_empty l); [rewrite cb_tail_push; simpl; lia|]. destruct had; simpl in *; lia.
Qed.

Lemma length_update_chunks fuel first ls : length (update_chunks fuel first ls).2 ≤ length ls.
Proof.
  revert first ls. induction fuel as [|fuel IH]; intros first [|raw rest]; try (simpl; lia).
  cbn [update_chunks]. cbv zeta.
  destruct (starts_with "*** " (trim_end raw) && _); [simpl; lia|].
  destruct (_ && _ && _ && _); [specialize (IH first rest); simpl in *; lia|].
  destruct (chunk_header first (trim_end raw)) as [[ctx consumed]|]; [|simpl; lia].
  pose proof (length_chunk_body false (if consumed then rest else raw :: rest)) as Hb.
  specialize (IH false (cb_tail (chunk_body false (if consumed then rest else raw :: rest)))).
  destruct (update_chunks fuel false _) as [later tail]. simpl in *. destruct consumed; simpl in *; lia.
Qed.

(** Every round consumes a line or is the first one. *)
Lemma update_chunks_fuel n m first ls :
  length ls + Nat.b2n first ≤ n → length ls + Nat.b2n first ≤ m →
  update_chunks n first ls = update_chunks m first ls.
Proof.
  revert m first ls. induction n as [|n IH]; intros [|m] first [|raw rest] Hn Hm; simpl in Hn, Hm; try done; try lia.
  cbn [update_chunks]. cbv zeta.
  destruct (starts_with "*** " (trim_end raw) && _); [done|].
  destruct (_ && _ && _ && _); [apply IH; lia|].
  destruct (chunk_header first (trim_end raw)) as [[ctx consumed]|] eqn:Eh; [|done].
  assert (Hc : consumed = false → first = true).
  { intros ->. revert Eh. unfold chunk_header. case_bool_decide; [done|].
    destruct (strip_prefix "@@ " (trim_end raw)); [done|]. by destruct first. }
  pose proof (length_chunk_body false (if consumed then rest else raw :: rest)) as Hb.
  rewrite (IH m false (cb_tail (chunk_body false (if consumed then rest else raw :: rest)))); [done|..];
    (destruct consumed; [|rewrite Hc in * by done]; simpl in *; lia).
Qed.

Lemma length_move_target ls : length (move_target ls).2 ≤ length ls.
Proof. destruct ls as [|l ls]; [done|]. cbn. destruct (strip_prefix _ _); simpl; lia. Qed.

Lemma parse_hunks_fuel n m ls : length ls ≤ n → length ls ≤ m → parse_hunks n ls = parse_hunks m ls.
Proof.
  revert m ls. induction n as [|n IH]; intros [|m] [|raw rest] Hn Hm; simpl in Hn, Hm; try done; try lia.
  cbn [parse_hunks]. cbv zeta. case_bool_decide; [done|].
  destruct (strip_prefix "*** Add File: " _).
  { pose proof (length_add_contents rest). destruct (add_contents rest) as [c t]. simpl in *.
    by rewrite (IH m t) by lia. }
  destruct (strip_prefix "*** Delete File: " _); [by rewrite (IH m rest) by lia|].
  destruct (strip_prefix "*** Update File: " _); [|apply IH; lia].
  pose proof (length_move_target rest). destruct (move_target rest) as [mv body]. cbn [snd] in *.
  pose proof (length_update_chunks (S (length body)) true body) as Hu.
  destruct (update_chunks (S (length body)) true body) as [cs t]. cbn [snd] in Hu.
  case_bool_decide; [done|]. by rewrite (IH m t) by lia.
Qed.

(** ** One replacement *)

Lemma iter_remove_line n s ls :
  s ≤ length ls → Nat.iter n (remove_line s) ls = take s ls ++ drop (s + n) ls.
Proof.
  intros Hs. induction n as [|n IH]; [simpl; by rewrite Nat.add_0_r, take_drop|].
  cbn [Nat.iter nat_rect]. change (nat_rect _ ls (λ _, remove_line s) n) with (Nat.iter n (remove_line s) ls).
  rewrite IH. unfold remove_line. rewrite length_app, length_take, length_drop.
  destruct (_ <? _) eqn:E.
  - rewrite take_app_le by (rewrite length_take; lia). rewrite take_take, drop_app, length_take.
    rewrite (drop_ge (take s ls)) by (rewrite length_take; lia). simpl. rewrite drop_drop.
    do 2 f_equal; lia.
  - apply Nat.ltb_ge in E. rewrite !drop_ge by lia. done.
Qed.

Lemma insert_segment_spec new : ∀ i ls,
  i ≤ length ls → insert_segment i new ls = Some (take i ls ++ new ++ drop i ls).
Proof.
  induction new as [|x new IH]; intros i ls Hi; simpl; [by rewrite take_drop|].
  unfold insert_line. rewrite (proj2 (Nat.leb_le _ _) Hi). simpl.
  assert (Hl : length (take i ls) = i) by (rewrite length_take; lia).
  rewrite IH by (rewrite length_app; simpl; lia).
  replace (S i) with (length (take i ls) + 1) by lia.
  rewrite take_app_add, drop_app_add. simpl. rewrite take_0, drop_0, <- app_assoc. done.
Qed.

Definition rp_stop (r : Replacement) : nat := rp_start r + rp_len r.

Lemma apply_replacement_spec r ls :
  rp_start r ≤ length ls →
  apply_replacement r ls = Some (take (rp_start r) ls ++ rp_new r ++ drop (rp_stop r) ls).
Proof.
  intros Hs. unfold apply_replacement, rp_stop. rewrite iter_remove_line by done.
  assert (Hl : length (take (rp_start r) ls) = rp_start r) by (rewrite length_take; lia).
  rewrite insert_segment_spec by (rewrite length_app; lia).
  rewrite take_app_le, drop_app by lia. rewrite take_ge, (drop_ge (take _ _)) by lia.
  by rewrite Hl, Nat.sub_diag, drop_0.
Qed.

(** ** Many replacements *)

(** In a sorted list of replacements that start inside the file nothing is out
    of range, and lines before the first start are untouched. *)
Lemma apply_sorted ls reps :
  StronglySorted (λ a b, start_leb a b = true) reps → Forall (λ r, rp_start r ≤ length ls) reps →
  ∃ out, apply_replacements ls reps = Some out
       ∧ ∀ k, k ≤ length ls → Forall (λ r, k ≤ rp_start r) reps → k ≤ length out ∧ take k out = take k ls.
Proof.
  induction 1 as [|r reps Hs IH Hr]; intros Hin.
  - exists ls. split; [done|]. done.
  - inversion_clear Hin as [|? ? Hr1 Hin']. destruct (IH Hin') as (out & Hout & Hk).
    destruct (Hk (rp_start r)) as [Hlen Htake]; [done| |].
    { eapply Forall_impl; [exact Hr|]. intros r' Hr'. by apply Nat.leb_le. }
    exists (take (rp_start r) out ++ rp_new r ++ drop (rp_stop r) out). split.
    + cbn [apply_replacements foldr]. fold (apply_replacements ls reps). rewrite Hout. simpl.
      by apply apply_replacement_spec.
    + intros k Hkl Hall. inversion_clear Hall as [|? ? Hkr Hall'].
      destruct (Hk k Hkl Hall') as [? Ht].
      assert (length (take (rp_start r) out) = rp_start r) by (rewrite length_take; lia).
      split; [rewrite length_app; lia|].
      rewrite take_app_le by lia. rewrite take_take. rewrite <- Ht. f_equal. lia.
Qed.

(** Replacements in order, none beginning before the last one ended. *)
Fixpoint disjoint_from (pos : nat) (n : nat) (reps : list Replacement) : Prop :=
  match reps with
  | [] => pos ≤ n
  | r :: rest => pos ≤ rp_start r ∧ disjoint_from (rp_stop r) n rest
  end.

(** One pass over the lines from line [pos] on. *)
Fixpoint one_pass (pos : nat) (ls : list string) (reps : list Replacement) : list string :=
  match reps with
  | [] => drop pos ls
  | r :: rest => take (rp_start r - pos) (drop pos ls) ++ rp_new r ++ one_pass (rp_stop r) ls rest
  end.

Lemma disjoint_le pos n reps : disjoint_from pos n reps → pos ≤ n.
Proof.
  revert pos. induction reps as [|r reps IH]; intros pos; simpl; [done|].
  unfold rp_stop. intros [? ?%IH]. unfold rp_stop in *. lia.
Qed.

Lemma disjoint_start pos n reps : disjoint_from pos n reps → Forall (λ r, pos ≤ rp_start r) reps.
Proof.
  revert pos. induction reps as [|r reps IH]; intros pos; simpl; [constructor|].
  intros [? H%IH]. constructor; [done|]. eapply Forall_impl; [exact H|]. unfold rp_stop. simpl. lia.
Qed.

Lemma apply_disjoint ls reps : ∀ pos,
  disjoint_from pos (length ls) reps →
  apply_replacements ls reps = Some (take pos ls ++ one_pass pos ls reps).
Proof.
  induction reps as [|r reps IH]; intros pos Hd; simpl in Hd.
  - simpl. by rewrite take_drop.
  - destruct Hd as [Hp Hd]. pose proof (disjoint_le _ _ _ Hd) as Hle. unfold rp_stop in Hle.
    cbn [apply_replacements foldr]. fold (apply_replacements ls reps). rewrite (IH _ Hd). simpl.
    assert (Hl : length (take (rp_stop r) ls) = rp_stop r) by (rewrite length_take; unfold rp_stop; lia).
    rewrite apply_replacement_spec by (rewrite length_app; unfold rp_stop in *; lia).
    rewrite take_app_le by (unfold rp_stop in *; lia). rewrite take_take.
    rewrite drop_app, Hl, Nat.sub_diag, drop_0, (drop_ge (take _ _)) by lia. simpl.
    rewrite Nat.min_l by (unfold rp_stop; lia). rewrite !app_assoc. do 3 f_equal.
    rewrite <- (take_drop pos (take (rp_start r) ls)) at 1. rewrite take_take, Nat.min_l by lia.
    f_equal. apply skipn_firstn_comm.
Qed.

Lemma disjoint_sorted n reps : ∀ pos,
  disjoint_from pos n reps → sort_by start_leb reps = reps.
Proof.
  induction reps as [|r reps IH]; intros pos; simpl; [done|]. intros [Hp Hd]. rewrite (IH _ Hd).
  destruct reps as [|r' reps]; [done|]. simpl in *. destruct Hd as [Hr _].
  unfold start_leb at 1. unfold rp_stop in Hr.
  by rewrite (proj2 (Nat.leb_le (rp_start r) (rp_start r'))) by lia.
Qed.

(** ** Searching *)

Lemma find_first_seq p lo n i :
  find_first p (seq lo n) = Some i → lo ≤ i < lo + n ∧ p i = true.
Proof. intros [Hin Hp]%find_first_Some. apply elem_of_seq in Hin. done. Qed.

Lemma find_first_seq_le p lo n j :
  lo ≤ j < lo + n → p j = true → ∃ i, find_first p (seq lo n) = Some i ∧ i ≤ j.
Proof.
  unfold find_first. revert lo. induction n as [|n IH]; intros lo Hj Hp; [lia|]. simpl.
  destruct (p lo) eqn:E; [exists lo; split; [done|lia]|].
  apply IH; [|done]. destruct (decide (j = lo)) as [->|]; [congruence|lia].
Qed.

(** The expected lines and the lines found, up to whitespace at the ends. *)
Definition fuzzy (seg pattern : list string) : Prop :=
  seg = pattern ∨ map trim_end seg = map trim_end pattern ∨ map trim seg = map trim pattern.

Lemma fuzzy_length seg pattern : fuzzy seg pattern → length seg = length pattern.
Proof.
  intros [->|[H|H]]; [done|..]; apply (f_equal length) in H; by rewrite !length_map in H.
Qed.

Lemma seek_pass_spec f ls pattern lo hi i :
  seek_pass f ls pattern lo hi = Some i →
  lo ≤ i ≤ hi ∧ map f (take (length pattern) (drop i ls)) = map f pattern.
Proof.
  unfold seek_pass, window_matches. intros [? Hw]%find_first_seq. apply bool_decide_eq_true in Hw. split; [lia|done].
Qed.

Lemma seek_sequence_spec ls pattern start eof i :
  seek_sequence ls pattern start eof = Some i → start ≤ length ls →
  i + length pattern ≤ length ls ∧ fuzzy (take (length pattern) (drop i ls)) pattern
  ∧ (eof = false → start ≤ i).
Proof.
  unfold seek_sequence. destruct (length pattern =? 0) eqn:E0.
  { apply Nat.eqb_eq in E0. intros [= <-] ?. apply nil_length_inv in E0. subst. simpl. split_and!; [lia| |lia].
    left. done. }
  destruct (length ls <? length pattern) eqn:E1; [done|]. apply Nat.ltb_ge in E1. cbv zeta.
  set (lo := if eof && (length pattern <=? length ls) then length ls - length pattern else start).
  assert (Hlo : eof = false → start ≤ lo) by (intros ->; unfold lo; simpl; lia).
  intros Hs Hst.
  enough (lo ≤ i ≤ length ls - length pattern ∧ fuzzy (take (length pattern) (drop i ls)) pattern) as (? & ?)
    by (split_and!; [lia|done|intros ?%Hlo; lia]).
  destruct (seek_pass id ls pattern lo _) eqn:Ei.
  { injection Hs as ->. apply seek_pass_spec in Ei as [? H]. rewrite !List.map_id in H. split; [done|by left]. }
  destruct (seek_pass trim_end ls pattern lo _) eqn:Ee.
  { injection Hs as ->. apply seek_pass_spec in Ee as [? H]. split; [done|by right; left]. }
  apply seek_pass_spec in Hs as [? H]. split; [done|by right; right].
Qed.

(** An exact occurrence is found, or an earlier one. *)
Lemma seek_sequence_exact ls pattern start j :
  start ≤ j → j + length pattern ≤ length ls → take (length pattern) (drop j ls) = pattern →
  ∃ i, seek_sequence ls pattern start false = Some i ∧ i ≤ j.
Proof.
  intros Hj Hl Hw. unfold seek_sequence. destruct (length pattern =? 0); [eauto|].
  rewrite (proj2 (Nat.ltb_ge _ _)) by lia. simpl.
  destruct (find_first_seq_le (window_matches id ls pattern) start (S (length ls - length pattern) - start) j)
    as (i & Hi & Hij); [lia| |].
  { unfold window_matches. apply bool_decide_eq_true. by rewrite !List.map_id. }
  unfold seek_pass. rewrite Hi. eauto.
Qed.

(** ** The replacements of a list of chunks *)

Lemma ends_empty_snoc l : ends_empty l = true → l = removelast l ++ [""].
Proof.
  unfold ends_empty. rewrite bool_decide_eq_true. intros [l' ->]%last_Some. by rewrite List.removelast_last.
Qed.

(** What the chunk asks for: its old and new lines, or both without a trailing
    blank line. *)
Inductive chunk_reading (c : UpdateFileChunk) : list string → list string → Prop :=
| read_as_is : chunk_reading c (ck_old c) (ck_new c)
| read_trimmed pattern : ck_old c = pattern ++ [""] →
    chunk_reading c pattern (if ends_empty (ck_new c) then removelast (ck_new c) else ck_new c).

Lemma locate_chunk_spec ls k c pattern new i :
  locate_chunk ls k c = (pattern, new, Some i) → k ≤ length ls →
  chunk_reading c pattern new ∧ i + length pattern ≤ length ls
  ∧ fuzzy (take (length pattern) (drop i ls)) pattern ∧ (ck_eof c = false → k ≤ i).
Proof.
  unfold locate_chunk. intros Hl Hk. destruct (seek_sequence ls (ck_old c) k (ck_eof c)) eqn:E.
  - injection Hl as <- <- ->. apply seek_sequence_spec in E as (? & ? & ?); [|done].
    split_and!; [constructor|done..].
  - destruct (ends_empty (ck_old c)) eqn:Ee; [|by injection Hl].
    injection Hl as <- <- Hs. apply seek_sequence_spec in Hs as (? & ? & ?); [|done].
    split_and!; [|done..]. constructor. by apply ends_empty_snoc.
Qed.

Lemma seek_context_spec ls path k ctx k' :
  seek_context ls path k ctx = Ok k' → k ≤ length ls →
  k ≤ k' ≤ length ls ∧ ∀ x, ctx = Some x → ∃ l, l ∈ take (k' - k) (drop k ls) ∧ fuzzy [l] [x].
Proof.
  unfold seek_context. intros Hs Hk. destruct ctx as [x|]; [|injection Hs as <-; split; [lia|done]].
  destruct (seek_sequence ls [x] k false) as [i|] eqn:E; [|done]. injection Hs as <-.
  apply seek_sequence_spec in E as (H1 & Hf & H2); [|done]. specialize (H2 eq_refl). simpl in *.
  split; [lia|]. intros x' [= <-]. pose proof (fuzzy_length _ _ Hf) as Hlen.
  destruct (drop i ls) as [|l rest] eqn:Ed; [done|]. simpl in Hf. exists l. rewrite take_0 in Hf. split; [|done].
  apply list_elem_of_lookup. exists (i - k). rewrite lookup_take_lt by lia. rewrite lookup_drop.
  replace (k + (i - k)) with (i + 0) by lia. rewrite <- lookup_drop, Ed. done.
Qed.

Lemma insertion_index_le ls : insertion_index ls ≤ length ls.
Proof. unfold insertion_index. destruct (ends_empty ls); lia. Qed.

(** Every replacement starts inside the file. *)
Lemma replacement_loop_inside ls path chunks : ∀ k reps,
  k ≤ length ls → replacement_loop ls path k chunks = Ok reps → Forall (λ r, rp_start r ≤ length ls) reps.
Proof.
  induction chunks as [|c chunks IH]; intros k reps Hk; simpl; [intros [= <-]; constructor|].
  destruct (seek_context ls path k (ck_context c)) as [k'|] eqn:Ec; simpl; [|done].
  apply seek_context_spec in Ec as [Hk' _]; [|done].
  destruct (length (ck_old c) =? 0).
  - destruct (replacement_loop ls path k' chunks) as [later|] eqn:El; simpl; [|done]. intros [= <-].
    constructor; [apply insertion_index_le|]. by eapply (IH k'); [lia|].
  - destruct (locate_chunk ls k' c) as [[pattern new] [i|]] eqn:Eloc; [|done].
    apply locate_chunk_spec in Eloc as (_ & Hi & _); [|lia].
    destruct (replacement_loop ls path (i + length pattern) chunks) as [later|] eqn:El; simpl; [|done].
    intros [= <-]. constructor; [simpl; lia|]. by eapply (IH (i + length pattern)); [lia|].
Qed.

Lemma compute_replacements_apply ls path chunks reps :
  compute_replacements ls path chunks = Ok reps → ∃ out, apply_replacements ls reps = Some out.
Proof.
  unfold compute_replacements. destruct (replacement_loop ls path 0 chunks) as [l|] eqn:E; [|done]. intros [= <-].
  apply replacement_loop_inside in E; [|lia].
  destruct (apply_sorted ls (sort_by start_leb l)) as (out & Hout & _); [| |eauto].
  - apply sort_by_sorted; unfold start_leb; intros *; rewrite !Nat.leb_le; lia.
  - by rewrite sort_by_perm.
Qed.

#[local] Arguments starts_with : simpl never.
#[local] Arguments strip_prefix : simpl never.
#[local] Arguments String.append : simpl nomatch.

(** ** The meaning of a list of chunks *)

Definition context_in (ctx : option string) (pre : list string) : Prop :=
  match ctx with
  | None => True
  | Some x => ∃ l, l ∈ pre ∧ fuzzy [l] [x]
  end.

(** [rewrites cs old new]: [new] is [old] with each chunk's lines replaced, one
    chunk after the other, and everything between them kept. *)
Inductive rewrites : list UpdateFileChunk → list string → list string → Prop :=
| rewrites_done ls : rewrites [] ls ls
| rewrites_chunk c cs pre pattern new seg post out :
    context_in (ck_context c) pre → chunk_reading c pattern new → fuzzy seg pattern →
    rewrites cs post out → rewrites (c :: cs) (pre ++ seg ++ post) (pre ++ new ++ out).

(** The chunks' old lines occur in the file, in order. *)
Inductive occurs : list UpdateFileChunk → list string → Prop :=
| occurs_nil ls : occurs [] ls
| occurs_cons c cs pre post : ck_context c = None → occurs cs post → occurs (c :: cs) (pre ++ ck_old c ++ post).

(** Chunks that replace something, wherever it is. *)
Definition replaces (c : UpdateFileChunk) : bool := negb (length (ck_old c) =? 0) && negb (ck_eof c).

Lemma context_in_mono ctx (l : list string) pre :
  (∀ x, ctx = Some x → ∃ y, y ∈ l ∧ fuzzy [y] [x]) → (∀ y, y ∈ l → y ∈ pre) → context_in ctx pre.
Proof. destruct ctx as [x|]; [|done]. intros H Hsub. destruct (H x eq_refl) as (y & ? & ?). exists y. eauto. Qed.

Lemma replacement_loop_rewrites ls path chunks : ∀ k reps,
  forallb replaces chunks = true → k ≤ length ls → replacement_loop ls path k chunks = Ok reps →
  disjoint_from k (length ls) reps ∧ rewrites chunks (drop k ls) (one_pass k ls reps).
Proof.
  induction chunks as [|c chunks IH]; intros k reps Hall Hk; simpl.
  { intros [= <-]. split; [done|constructor]. }
  simpl in Hall. apply andb_true_iff in Hall as [Hc Hall].
  unfold replaces in Hc. apply andb_true_iff in Hc as [Ho%negb_true_iff He%negb_true_iff].
  destruct (seek_context ls path k (ck_context c)) as [k'|] eqn:Ec; simpl; [|done].
  apply seek_context_spec in Ec as [Hk' Hctx]; [|done]. rewrite Ho.
  destruct (locate_chunk ls k' c) as [[pattern new] [i|]] eqn:Eloc; [|done].
  apply locate_chunk_spec in Eloc as (Hread & Hi & Hf & Hki); [|lia]. specialize (Hki He).
  destruct (replacement_loop ls path (i + length pattern) chunks) as [later|] eqn:El; simpl; [|done].
  intros [= <-]. destruct (IH _ _ Hall Hi El) as [Hd Hr]. split; [split; [simpl; lia|done]|].
  cbn [one_pass rp_start rp_new]. unfold rp_stop. cbn [rp_start rp_len].
  assert (Hsplit : drop k ls = take (i - k) (drop k ls) ++ take (length pattern) (drop i ls)
                               ++ drop (i + length pattern) ls).
  { rewrite <- (take_drop (i - k) (drop k ls)) at 1. f_equal. rewrite drop_drop.
    replace (k + (i - k)) with i by lia. by rewrite <- drop_drop, take_drop. }
  rewrite Hsplit at 1. econstructor; [|done..].
  eapply context_in_mono; [exact Hctx|]. intros y.
  replace (take (k' - k) (drop k ls)) with (take (k' - k) (take (i - k) (drop k ls)))
    by (rewrite take_take; f_equal; lia).
  rewrite !list_elem_of_lookup. intros [j Hj]. exists j.
  apply lookup_take_Some in Hj as [? _]. done.
Qed.

Lemma occurs_extend x cs post : occurs cs post → occurs cs (x ++ post).
Proof.
  destruct 1 as [|c cs pre post Hc Ho]; [constructor|]. rewrite app_assoc. by constructor.
Qed.

Lemma drop_split k i (ls a b : list string) :
  drop k ls = a ++ b → k ≤ i → i ≤ k + length a → drop i ls = drop (i - k) a ++ b.
Proof.
  intros Hd Hk Hi. replace i with (k + (i - k)) at 1 by lia. rewrite <- drop_drop, Hd, drop_app.
  replace (i - k - length a) with 0 by lia. done.
Qed.

Lemma replacement_loop_finds ls path chunks : ∀ k,
  forallb replaces chunks = true → occurs chunks (drop k ls) → k ≤ length ls →
  ∃ reps, replacement_loop ls path k chunks = Ok reps.
Proof.
  induction chunks as [|c chunks IH]; intros k Hall Ho Hk; simpl; [eauto|].
  simpl in Hall. apply andb_true_iff in Hall as [Hc Hall].
  unfold replaces in Hc. apply andb_true_iff in Hc as [Hn%negb_true_iff He%negb_true_iff].
  inversion Ho as [|c' cs' pre post Hctx Hocc Hsub Heq]; subst. symmetry in Heq.
  rewrite Hctx. simpl. rewrite Hn.
  assert (Hlen : length (drop k ls) = length pre + length (ck_old c) + length post)
    by (rewrite Heq, !length_app; lia).
  rewrite length_drop in Hlen.
  destruct (seek_sequence_exact ls (ck_old c) k (k + length pre)) as (i & Hs & Hi); [lia|lia| |].
  { rewrite <- drop_drop, Heq, drop_app_length, take_app_length. done. }
  unfold locate_chunk. rewrite He, Hs. simpl.
  apply seek_sequence_spec in Hs as (H1 & _ & H2); [|done]. specialize (H2 eq_refl).
  destruct (IH (i + length (ck_old c)) Hall) as [later ->]; [|done|simpl; eauto].
  rewrite app_assoc in Heq.
  rewrite (drop_split k _ _ _ _ Heq); [|lia|rewrite length_app; lia]. by apply occurs_extend.
Qed.

(** For chunks that replace lines (none is a pure insertion and none is
    pinned to the end of the file): if the code finds them, applying the
    replacements does not panic and gives the original lines with every
    chunk's lines rewritten in place, in order, each after its context line,
    and all other lines kept; what a chunk replaced agrees with the lines it
    expected up to whitespace at the ends of lines.  If the old lines of the
    chunks occur in the file in order, the code finds them. *)
Theorem update_applies_the_chunks (ls : list string) (path : string) (chunks : list UpdateFileChunk) :
  forallb replaces chunks = true →
  (∀ reps, compute_replacements ls path chunks = Ok reps →
     ∃ out, apply_replacements ls reps = Some out ∧ rewrites chunks ls out)
  ∧ (occurs chunks ls → ∃ reps, compute_replacements ls path chunks = Ok reps).
Proof.
  intros Hall. unfold compute_replacements. split.
  - intros reps. destruct (replacement_loop ls path 0 chunks) as [l|] eqn:E; simpl; [|done]. intros [= <-].
    apply replacement_loop_rewrites in E as [Hd Hr]; [|done|lia].
    rewrite (disjoint_sorted _ _ _ Hd), (apply_disjoint _ _ _ Hd). simpl. rewrite drop_0 in Hr. eauto.
  - intros Ho. destruct (replacement_loop_finds ls path chunks 0 Hall) as [l ->]; [by rewrite drop_0|lia|].
    simpl. eauto.
Qed.

Definition demo_chunks : list UpdateFileChunk :=
  [{| ck_context := Some "def f():"; ck_old := ["  x"]; ck_new := ["  y"; "  z"]; ck_eof := false |};
   {| ck_context := None; ck_old := ["end"]; ck_new := ["END"]; ck_eof := false |}].
Definition demo_file_lines : list string := ["import os"; "def f():"; "  x "; "  w"; "end"].

Lemma update_applies_the_chunks_witness :
  ∃ out, apply_replacements demo_file_lines
           (match compute_replacements demo_file_lines "f.py" demo_chunks with Ok r => r | Err _ => [] end) = Some out
       ∧ out = ["import os"; "def f():"; "  y"; "  z"; "  w"; "END"] ∧ rewrites demo_chunks demo_file_lines out.
Proof.
  destruct (proj1 (update_applies_the_chunks demo_file_lines "f.py" demo_chunks eq_refl) _ eq_refl) as (out & H1 & H2).
  exists out. split; [exact H1|]. split; [|exact H2]. vm_compute in H1. by injection H1.
Defined.

(** The lost insertion.  The file "a", "" (a line and a final blank line)
    gets two chunks: one rewrites both lines, the other only adds "c".  The
    code accepts the patch, and "c" is nowhere in the result: the insertion is
    placed before the final blank line, inside the range the other chunk then
    removes. *)
Theorem appended_chunk_can_be_lost (path : string) :
  ∃ reps out, compute_replacements ["a"; ""] path demo_blank_end = Ok reps
            ∧ apply_replacements ["a"; ""] reps = Some out ∧ "c" ∉ out ∧ out = ["b"; ""; ""].
Proof.
  eexists _, _. split; [vm_compute; reflexivity|]. split; [vm_compute; reflexivity|].
  split; [|done]. set_solver.
Qed.

(** ** Containment *)

Definition hunk_paths (h : PatchHunk) : list string :=
  match h with
  | AddFile p _ | DeleteFile p => [p]
  | UpdateFile p None _ => [p]
  | UpdateFile p (Some dest) _ => [p; dest]
  end.

Section Containment.
Context {FS : Type} `{FileSystemLaws FS} `{TextDiff} (ctx : ToolContext).

Lemma contained_try q {A} (m : stateE (World FS) tool_error A) : contained q m → contained q (st_try m).
Proof.
  intros Hm w. destruct (Hm w) as [Hn Hr]. unfold st_try.
  destruct (m w) as [[x|[e|]] w']; simpl in *; split; try done.
Qed.

Lemma apply_update_chunks_run path chunks (w : World FS) :
  apply_update_chunks path chunks w =
  (match fs_read path (w_fs w) with
   | Err e => Err (Failed e)
   | Ok contents =>
       match compute_replacements (file_lines contents) path chunks with
       | Err e => Err (Failed e)
       | Ok reps => match apply_replacements (file_lines contents) reps with
                    | Some out => Ok (contents, join_lines out)
                    | None => Err Panicked
                    end
       end
   end, w).
Proof.
  unfold apply_update_chunks, st_bind, read_to_string, st_lift, st_index, st_ret, ok_or.
  destruct (fs_read path (w_fs w)) as [contents|e]; [|done].
  destruct (compute_replacements (file_lines contents) path chunks) as [reps|e]; [|done].
  by destruct (apply_replacements (file_lines contents) reps).
Qed.

Lemma contained_update q path chunks : contained q (apply_update_chunks (FS:=FS) path chunks).
Proof.
  intros w. rewrite apply_update_chunks_run. split; [|done]. simpl.
  destruct (fs_read path (w_fs w)) as [contents|e]; [|done].
  destruct (compute_replacements (file_lines contents) path chunks) as [reps|e] eqn:E; [|done].
  by destruct (compute_replacements_apply _ _ _ _ E) as [out ->].
Qed.

Lemma contained_hunk q intent h :
  (∀ p, p ∈ hunk_paths h → resolve_path ctx p ≠ q) → contained q (execute_hunk (FS:=FS) ctx intent h).
Proof.
  intros Hq. destruct h as [path contents|path|path move_to chunks]; simpl in *.
  - assert (resolve_path ctx path ≠ q) by (apply Hq; set_solver). unfold publish_file_touch. contain.
  - assert (resolve_path ctx path ≠ q) by (apply Hq; set_solver). unfold publish_file_touch.
    do 2 (apply contained_bind; [solve [eauto with contain]|intros ?]). destruct x0; contain.
  - assert (resolve_path ctx path ≠ q) by (apply Hq; destruct move_to; set_solver). unfold publish_file_touch.
    apply contained_bind; [apply contained_try, contained_update|]. intros [[old new]|e]; [|contain].
    destruct move_to as [dest|]; [|contain].
    assert (resolve_path ctx dest ≠ q) by (apply Hq; set_solver). contain.
Qed.

Lemma contained_hunks q intent hs :
  (∀ h p, h ∈ hs → p ∈ hunk_paths h → resolve_path ctx p ≠ q) → contained q (execute_hunks (FS:=FS) ctx intent hs).
Proof.
  induction hs as [|h hs IH]; intros Hq; cbn [execute_hunks]; [contain|].
  apply contained_bind; [apply contained_hunk; intros p; apply (Hq h); set_solver|intros one].
  apply contained_bind; [apply IH; set_solver|intros later]. contain.
Qed.

(** The update of one file, on both branches. *)
Lemma update_outcome intent path move_to chunks contents (w : World FS) :
  fs_read (resolve_path ctx path) (w_fs w) = Ok contents →
  match compute_replacements (file_lines contents) (resolve_path ctx path) chunks with
  | Err e => execute_hunk ctx intent (UpdateFile path move_to chunks) w = (Ok ("✗ " +:+ path +:+ ": " +:+ e, []), w)
  | Ok reps => move_to = None → is_ok (execute_hunk ctx intent (UpdateFile path move_to chunks) w).1 = true →
      ∃ out, apply_replacements (file_lines contents) reps = Some out
           ∧ fs_read (resolve_path ctx path) (w_fs (execute_hunk ctx intent (UpdateFile path move_to chunks) w).2)
             = Ok (join_lines out)
  end.
Proof.
  intros Hr. cbn [execute_hunk]. cbv zeta.
  destruct (compute_replacements (file_lines contents) (resolve_path ctx path) chunks) as [reps|e] eqn:E.
  - intros ->. destruct (compute_replacements_apply _ _ _ _ E) as [out Hout].
    unfold st_bind, st_try. rewrite apply_update_chunks_run, Hr, E, Hout. unfold lift_io.
    destruct (fs_write (resolve_path ctx path) (join_lines out) (w_fs w)) as [[[]|e] fs'] eqn:Ew; [|done].
    intros _. exists out. split; [done|]. simpl. by eapply read_written.
  - unfold st_bind, st_try. by rewrite apply_update_chunks_run, Hr, E.
Qed.
End Containment.


(** A line diff that shows every old line deleted and every new line added. *)
#[local] Instance plain_diff : TextDiff := {
  from_lines old new := map (pair ChDelete) (lines old) ++ map (pair ChInsert) (lines new) }.

Definition demo_ctx : ToolContext := {| ctx_session_id := "s"; ctx_working_dir := Some "/w" |}.
Definition text_of (ls : list string) : string := str_concat (map (λ l, l +:+ newline) ls).
Definition demo_world : World (gmap string string) :=
  mk_world {["/w/f.py" := text_of demo_file_lines; "/w/g.py" := "x"]} [].
Definition demo_patch : string :=
  text_of ["*** Begin Patch"; "*** Update File: f.py"; "@@ def f():"; "-  x"; "+  y"; "*** End Patch"].

