(* ===== verification/PatchRoundtrip.v ===== *)
(** * The patch format round trip

    A patch as an author thinks of it (files to add, delete or update; chunks
    of kept, added and removed lines), its text, and the theorem that
    [parse_apply_patch] reads the text back as exactly that patch. *)

From Stdlib Require Import Ascii.
From stdpp Require Import base list gmap strings.
From S2P Require Import Prelude RustString RustText ToolFs ApplyPatch ApplyPatchClaims.

Open Scope string_scope.
Open Scope nat_scope.
Open Scope list_scope.

#[local] Arguments starts_with : simpl never.
#[local] Arguments strip_prefix : simpl never.
#[local] Arguments String.append : simpl nomatch.

(** ** Patches and their text *)

Inductive patch_line := Keep (s : string) | Plus (s : string) | Minus (s : string).
Record patch_chunk := { pc_context : option string; pc_lines : list patch_line; pc_eof : bool }.
Inductive patch_item :=
| ItemAdd (path : string) (contents : list string)
| ItemDelete (path : string)
| ItemUpdate (path : string) (move_to : option string) (chunks : list patch_chunk).

Definition old_of (l : patch_line) : list string := match l with Keep s | Minus s => [s] | Plus _ => [] end.
Definition new_of (l : patch_line) : list string := match l with Keep s | Plus s => [s] | Minus _ => [] end.

Definition chunk_of (c : patch_chunk) : UpdateFileChunk :=
  {| ck_context := pc_context c; ck_old := mjoin (map old_of (pc_lines c));
     ck_new := mjoin (map new_of (pc_lines c)); ck_eof := pc_eof c |}.
Definition hunk_of (i : patch_item) : PatchHunk :=
  match i with
  | ItemAdd p ls => AddFile p (str_concat (map (λ l, l +:+ newline) ls))
  | ItemDelete p => DeleteFile p
  | ItemUpdate p m cs => UpdateFile p m (map chunk_of cs)
  end.

Definition line_text (l : patch_line) : string :=
  match l with Keep s => " " +:+ s | Plus s => "+" +:+ s | Minus s => "-" +:+ s end.
Definition chunk_lines (c : patch_chunk) : list string :=
  (match pc_context c with None => "@@" | Some x => "@@ " +:+ x end)
  :: map line_text (pc_lines c) ++ (if pc_eof c then ["*** End of File"] else []).
Definition item_lines (i : patch_item) : list string :=
  match i with
  | ItemAdd p ls => ("*** Add File: " +:+ p) :: map (λ l, "+" +:+ l) ls
  | ItemDelete p => ["*** Delete File: " +:+ p]
  | ItemUpdate p m cs =>
      ("*** Update File: " +:+ p) :: (match m with None => [] | Some d => ["*** Move to: " +:+ d] end)
      ++ mjoin (map chunk_lines cs)
  end.
Definition patch_lines (items : list patch_item) : list string :=
  "*** Begin Patch" :: mjoin (map item_lines items) ++ ["*** End Patch"].
Definition patch_text (items : list patch_item) : string :=
  str_concat (map (λ l, l +:+ newline) (patch_lines items)).

(** A path or context: not empty, valid, without whitespace at its ends. *)
Definition name_ok (s : string) : bool :=
  negb (str_is_empty s) && utf8 s && bool_decide (trim_end s = s) && bool_decide (trim s = s).
Definition chunk_ok (c : patch_chunk) : bool :=
  match pc_context c with
  | None => negb (length (pc_lines c) =? 0)
  | Some x => name_ok x
  end.
Definition item_ok (i : patch_item) : bool :=
  match i with
  | ItemAdd p _ | ItemDelete p => name_ok p
  | ItemUpdate p m cs =>
      name_ok p && (match m with None => true | Some d => name_ok d end)
      && negb (length cs =? 0) && forallb chunk_ok cs
  end.

(** ** Lemmas *)

Lemma name_ok_spec s :
  name_ok s = true → s ≠ "" ∧ starts_char s = true ∧ trim_end s = s ∧ trim s = s.
Proof.
  unfold name_ok, str_is_empty. rewrite !andb_true_iff, negb_true_iff, bool_decide_eq_false, !bool_decide_eq_true.
  intros [[[? ?%utf8_starts_char] ?] ?]. done.
Qed.

Lemma strip_prefix_app a b : strip_prefix a (a +:+ b) = Some b.
Proof. by apply strip_prefix_Some. Qed.

(** A header line is not trimmed. *)
Lemma header_trim_end pre s : name_ok s = true → trim_end (pre +:+ s) = pre +:+ s.
Proof. intros (? & ? & ? & ?)%name_ok_spec. by apply trim_end_append. Qed.

Lemma starts_char_app pre s : pre ≠ "" → starts_char pre = true → starts_char (pre +:+ s) = true.
Proof. by destruct pre. Qed.

Lemma header_trim pre s :
  name_ok s = true → pre ≠ "" → starts_char pre = true → trim (String "*"%char (pre +:+ s)) = String "*"%char (pre +:+ s).
Proof.
  intros Hs Hne Hp. rewrite trim_start_solid; [|by apply starts_char_app|done].
  exact (header_trim_end (String "*"%char pre) s Hs).
Qed.

(** Where the body of a chunk stops. *)
Definition stops (t : list string) : Prop :=
  match t with
  | [] => True
  | l :: _ => (starts_with "*** " l || starts_with "@@" l) = true ∧ l ≠ "*** End of File"
  end.

Lemma chunk_body_stop had t : stops t → chunk_body had t = body_end false had t.
Proof.
  destruct t as [|l t]; [done|]. intros [Hs Hne]. cbn [chunk_body].
  rewrite bool_decide_eq_false_2 by done. by rewrite Hs.
Qed.

Lemma chunk_body_line had l rest :
  chunk_body had (line_text l :: rest)
  = {| cb_old := old_of l ++ cb_old (chunk_body true rest); cb_new := new_of l ++ cb_new (chunk_body true rest);
       cb_eof := cb_eof (chunk_body true rest); cb_had := cb_had (chunk_body true rest);
       cb_tail := cb_tail (chunk_body true rest) |}.
Proof. by destruct l. Qed.

Lemma chunk_body_had rest : cb_had (chunk_body true rest) = true.
Proof.
  induction rest as [|l rest IH]; [done|]. cbn [chunk_body]. case_bool_decide; [done|].
  destruct (_ || _); [done|]. destruct (strip_prefix " " l); [done|]. destruct (strip_prefix "+" l); [done|].
  destruct (strip_prefix "-" l); [done|]. by destruct (str_is_empty l).
Qed.

Lemma chunk_body_rendered ls (eof : bool) t : ∀ had,
  stops t →
  chunk_body had (map line_text ls ++ (if eof then ["*** End of File"] else []) ++ t)
  = {| cb_old := mjoin (map old_of ls); cb_new := mjoin (map new_of ls); cb_eof := eof;
       cb_had := had || negb (length ls =? 0); cb_tail := t |}.
Proof.
  induction ls as [|l ls IH]; intros had Ht.
  - simpl. rewrite orb_false_r. destruct eof; [done|]. simpl. by rewrite chunk_body_stop.
  - cbn [map app]. rewrite chunk_body_line, IH by done. simpl. by rewrite orb_true_r.
Qed.

Lemma chunk_header_rendered first c :
  chunk_ok c = true →
  trim_end (match pc_context c with None => "@@" | Some x => "@@ " +:+ x end)
  = (match pc_context c with None => "@@" | Some x => "@@ " +:+ x end)
  ∧ chunk_header first (match pc_context c with None => "@@" | Some x => "@@ " +:+ x end) = Some (pc_context c, true).
Proof.
  unfold chunk_ok. destruct (pc_context c) as [x|]; intros Hok; [|split; vm_compute; reflexivity].
  split; [by apply header_trim_end|].
  unfold chunk_header. rewrite bool_decide_eq_false_2; [by rewrite strip_prefix_app|].
  apply name_ok_spec in Hok as (Hne & _). by destruct x.
Qed.

Lemma chunks_stop cs t : stops t → stops (mjoin (map chunk_lines cs) ++ t).
Proof.
  destruct cs as [|c cs]; [done|]. intros _. simpl. destruct (pc_context c) as [x|]; [|done].
  split; [|done]. unfold starts_with. simpl. done.
Qed.

(** What follows the chunks of a file: nothing, or a line beginning with stars
    whose trimmed form still does. *)
Definition ends_hunk (t : list string) : Prop :=
  match t with
  | [] => True
  | l :: _ => trim_end l = l ∧ starts_with "*** " l = true ∧ l ≠ "*** End of File"
  end.

Lemma update_chunks_rendered cs t : ∀ fuel first,
  ends_hunk t → forallb chunk_ok cs = true → length cs < fuel →
  update_chunks fuel first (mjoin (map chunk_lines cs) ++ t) = (map chunk_of cs, t).
Proof.
  induction cs as [|c cs IH]; intros fuel first Ht Hok Hf; (destruct fuel as [|fuel]; [lia|]).
  - destruct t as [|l t]; [done|]. destruct Ht as (Hl & Hs & Hne). 
    change (mjoin (map chunk_lines []) ++ l :: t) with (l :: t). cbn [map update_chunks]. cbv zeta.
    rewrite Hl, Hs, bool_decide_eq_false_2 by done. done.
  - simpl in Hok. apply andb_true_iff in Hok as [Hc Hok].
    assert (Hst : stops (mjoin (map chunk_lines cs) ++ t)).
    { apply chunks_stop. destruct t as [|l t]; [done|]. destruct Ht as (? & Hs & ?). split; [by rewrite Hs|done]. }
    change (mjoin (map chunk_lines (c :: cs))) with (chunk_lines c ++ mjoin (map chunk_lines cs)).
    unfold chunk_lines at 1. cbn [app]. cbn [update_chunks]. cbv zeta.
    destruct (chunk_header_rendered first c Hc) as [-> ->].
    assert (starts_with "*** " (match pc_context c with None => "@@" | Some x => "@@ " +:+ x end) = false) as ->
      by (by destruct (pc_context c)).
    assert (str_is_empty (trim (match pc_context c with None => "@@" | Some x => "@@ " +:+ x end)) = false) as ->.
    { unfold chunk_ok in Hc. destruct (pc_context c) as [x|]; [|by vm_compute].
      change ("@@ " +:+ x) with (String "@"%char ("@ " +:+ x)).
      rewrite trim_start_solid; [|done|done]. 
      change (String "@"%char ("@ " +:+ x)) with ("@@ " +:+ x). rewrite header_trim_end by done. done. }
    cbn [andb]. rewrite <- !app_assoc. rewrite chunk_body_rendered by done. cbn [cb_tail cb_had cb_old cb_new cb_eof].
    rewrite IH by (done || (simpl in Hf; lia)). unfold chunk_of at 2.
    assert (false || negb (length (pc_lines c) =? 0) || bool_decide (is_Some (pc_context c)) = true) as ->; [|done].
    unfold chunk_ok in Hc. destruct (pc_context c); [by rewrite orb_true_r|]. by rewrite Hc.
Qed.

Lemma add_contents_rendered ls t :
  (match t with [] => True | l :: _ => starts_with "*** " l = true end) →
  add_contents (map (λ l, "+" +:+ l) ls ++ t) = (str_concat (map (λ l, l +:+ newline) ls), t).
Proof.
  intros Ht. induction ls as [|l ls IH].
  - simpl. destruct t as [|x t]; [done|]. cbn [add_contents]. by rewrite Ht.
  - cbn [map app add_contents]. rewrite IH.
    change (starts_with "*** " ("+" +:+ l)) with false. cbv iota. rewrite strip_prefix_app.
    f_equal. change (str_concat ((l +:+ newline) :: map (λ l, l +:+ newline) ls))
      with ((l +:+ newline) +:+ str_concat (map (λ l, l +:+ newline) ls)). by rewrite append_assoc_s.
Qed.

Lemma items_end items : forallb item_ok items = true → ends_hunk (mjoin (map item_lines items) ++ ["*** End Patch"]).
Proof.
  destruct items as [|i items]; [intros _; change (ends_hunk ["*** End Patch"]); split_and!; vm_compute; done|].
  intros [Hi _]%andb_true_iff.
  destruct i as [p ls|p|p m cs]; cbn [item_ok] in Hi; rewrite ?andb_true_iff in Hi.
  - split_and!; [by apply (header_trim_end "*** Add File: ")|done|done].
  - split_and!; [by apply (header_trim_end "*** Delete File: ")|done|done].
  - destruct Hi as [[[Hp _] _] _]. split_and!; [by apply (header_trim_end "*** Update File: ")|done|done].
Qed.

Lemma ends_hunk_stars t : ends_hunk t → match t with [] => True | l :: _ => starts_with "*** " l = true end.
Proof. destruct t; [done|]. intros (_ & ? & _). done. Qed.

(** One header line [pre p] of each kind is recognised as itself. *)
Lemma parse_hunks_rendered items : ∀ fuel,
  forallb item_ok items = true → length (mjoin (map item_lines items)) < fuel →
  parse_hunks fuel (mjoin (map item_lines items) ++ ["*** End Patch"]) = Ok (map hunk_of items).
Proof.
  induction items as [|i items IH]; intros fuel Hok Hf; (destruct fuel as [|fuel]; [simpl in *; lia|]).
  { vm_compute. reflexivity. }
  simpl in Hok. apply andb_true_iff in Hok as [Hi Hok].
  pose proof (items_end items Hok) as Hend.
  change (mjoin (map item_lines (i :: items))) with (item_lines i ++ mjoin (map item_lines items)) in *.
  rewrite length_app in Hf. rewrite <- app_assoc.
  set (rest := mjoin (map item_lines items) ++ ["*** End Patch"]) in *.
  destruct i as [p ls|p|p m cs]; cbn [item_lines item_ok] in *.
  - cbn [app parse_hunks]. cbv zeta. rewrite header_trim_end by done.
    change ("*** Add File: " +:+ p) with (String "*"%char ("** Add File: " +:+ p)). rewrite header_trim by done.
    change (String "*"%char ("** Add File: " +:+ p)) with ("*** Add File: " +:+ p).
    rewrite bool_decide_eq_false_2, strip_prefix_app by done.
    rewrite add_contents_rendered by (by apply ends_hunk_stars).
    rewrite IH by (done || simpl in Hf; lia). simpl. apply name_ok_spec in Hi as (_ & _ & _ & ->). done.
  - cbn [app parse_hunks]. cbv zeta. rewrite header_trim_end by done.
    change ("*** Delete File: " +:+ p) with (String "*"%char ("** Delete File: " +:+ p)). rewrite header_trim by done.
    change (String "*"%char ("** Delete File: " +:+ p)) with ("*** Delete File: " +:+ p).
    rewrite bool_decide_eq_false_2 by done.
    change (strip_prefix "*** Add File: " ("*** Delete File: " +:+ p)) with (@None string).
    cbv iota. rewrite strip_prefix_app.
    rewrite IH by (done || simpl in Hf; lia). simpl. apply name_ok_spec in Hi as (_ & _ & _ & ->). done.
  - rewrite !andb_true_iff in Hi. destruct Hi as [[[Hp Hm] Hn] Hcs].
    cbn [app parse_hunks]. cbv zeta. rewrite header_trim_end by done.
    change ("*** Update File: " +:+ p) with (String "*"%char ("** Update File: " +:+ p)). rewrite header_trim by done.
    change (String "*"%char ("** Update File: " +:+ p)) with ("*** Update File: " +:+ p).
    rewrite bool_decide_eq_false_2 by done.
    change (strip_prefix "*** Add File: " ("*** Update File: " +:+ p)) with (@None string).
    change (strip_prefix "*** Delete File: " ("*** Update File: " +:+ p)) with (@None string).
    cbv iota. rewrite strip_prefix_app.
    assert (Hmove : move_target (((match m with None => [] | Some d => ["*** Move to: " +:+ d] end)
                                  ++ mjoin (map chunk_lines cs)) ++ rest) = (m, mjoin (map chunk_lines cs) ++ rest)).
    { destruct m as [d|]; cbn [app].
      - cbn [move_target]. rewrite header_trim_end, strip_prefix_app by done. by apply name_ok_spec in Hm as (_ & _ & _ & ->).
      - destruct cs as [|c cs]; [done|]. cbn [forallb] in Hcs. apply andb_true_iff in Hcs as [Hc _].
        change (mjoin (map chunk_lines (c :: cs))) with (chunk_lines c ++ mjoin (map chunk_lines cs)).
        unfold chunk_lines. cbn [app move_target]. destruct (chunk_header_rendered true c Hc) as [-> _].
        by destruct (pc_context c). }
    rewrite Hmove, update_chunks_rendered; [|done|done|].
    2: { rewrite length_app. assert (length cs ≤ length (mjoin (map chunk_lines cs))); [|lia].
         clear. induction cs as [|c cs IH]; [done|].
         change (mjoin (map chunk_lines (c :: cs))) with (chunk_lines c ++ mjoin (map chunk_lines cs)).
         rewrite length_app. simpl in *. lia. }
    rewrite length_map, bool_decide_eq_false_2 by (apply negb_true_iff, Nat.eqb_neq in Hn; done).
    rewrite IH by (done || (simpl in Hf; lia)). simpl. apply name_ok_spec in Hp as (_ & _ & _ & ->). done.
Qed.

(** ** Theorem *)

(** C37: Round trip of the patch format.  For a patch of at least one item whose
    paths and context lines are non-empty text without whitespace at the ends,
    whose updates have a chunk and whose chunks have a line or a context, and
    whose text has no line feed or final carriage return inside a line, parsing
    the rendered text gives exactly that patch: the same files in the same
    order, with the same old and new lines, contexts, moves and end-of-file
    marks. *)
Theorem patch_text_roundtrip (items : list patch_item) :
  items ≠ [] → forallb item_ok items = true → forallb line_ok (patch_lines items) = true →
  parse_apply_patch (patch_text items) = Ok (map hunk_of items).
Proof.
  intros Hne Hok Hl. unfold parse_apply_patch, patch_text. rewrite lines_of_text by done.
  assert (after_begin (patch_lines items) = Some (mjoin (map item_lines items) ++ ["*** End Patch"])) as ->
    by (unfold patch_lines; cbn [after_begin]; by rewrite bool_decide_eq_true_2 by (vm_compute; reflexivity)).
  rewrite parse_hunks_rendered by (done || (rewrite length_app; simpl; lia)). simpl.
  rewrite length_map, bool_decide_eq_false_2 by (by destruct items). done.
Qed.

Definition demo_patch_items : list patch_item :=
  [ItemAdd "docs/a b.txt" ["one"; ""; "+two"];
   ItemDelete "old.rs";
   ItemUpdate "src/m.rs" (Some "src/n.rs")
     [{| pc_context := Some "fn main() {"; pc_lines := [Keep "  a"; Minus "  b"; Plus "  @@ c"]; pc_eof := false |};
      {| pc_context := None; pc_lines := [Minus "*** x"; Plus ""]; pc_eof := true |}]].

Lemma patch_text_roundtrip_witness :
  forallb item_ok demo_patch_items = true ∧ parse_apply_patch (patch_text demo_patch_items) = Ok (map hunk_of demo_patch_items).
Proof.
  split; [vm_compute; reflexivity|].
  apply (patch_text_roundtrip demo_patch_items); [done|vm_compute; reflexivity|vm_compute; reflexivity].
Defined.
