(* ===== verification/CommGraph.v ===== *)
(** * The server's task-graph handlers

    crates/jcode-app-core/src/server/comm_graph.rs: the handlers that seed,
    expand, complete and inject.  Each one finds the caller's swarm, takes the
    lock on the plans, lifts the plan into the engine (Bridge.v), applies one
    engine operation (DagOps.v), lowers the result, and then persists,
    broadcasts, records the event and replies.  The section under the plan lock
    is one [stateE] computation on the plan; what happens after it is the list
    of outputs.  The election of the seeder as coordinator takes four locks in
    turn, so it is also given as the steps of a thread.

    Also crates/jcode-app-core/src/session_effort.rs and the effort
    classification of crates/jcode-base/src/prompt.rs, from which a seed takes
    its default mode. *)

From stdpp Require Import base list strings gmap pretty.
From S2P Require Import Prelude RustString Dag DagOps Schedule Plan Bridge.

Open Scope string_scope.
Open Scope nat_scope.
Open Scope list_scope.

(** ** Efforts *)

Definition eq_ignore_ascii_case (a b : string) : bool :=
  bool_decide (to_ascii_lowercase a = to_ascii_lowercase b).

Definition SWARM_EFFORT : string := "swarm".
Definition SWARM_DEEP_EFFORT : string := "swarm-deep".

Definition is_swarm_effort (effort : string) : bool :=
  let trimmed := trim effort in
  eq_ignore_ascii_case trimmed SWARM_EFFORT || eq_ignore_ascii_case trimmed SWARM_DEEP_EFFORT.
Definition is_deep_swarm_effort (effort : string) : bool :=
  eq_ignore_ascii_case (trim effort) SWARM_DEEP_EFFORT.

Inductive EffortKind := EffReasoning | EffSwarmLight | EffSwarmDeep.
Definition is_swarm_mode (k : EffortKind) : bool :=
  match k with EffSwarmLight | EffSwarmDeep => true | EffReasoning => false end.
Definition classify_effort (effort : string) : EffortKind :=
  let trimmed := trim effort in
  if eq_ignore_ascii_case trimmed SWARM_DEEP_EFFORT then EffSwarmDeep
  else if eq_ignore_ascii_case trimmed SWARM_EFFORT then EffSwarmLight
  else EffReasoning.
Definition is_swarm_mode_effort (effort : string) : bool := is_swarm_mode (classify_effort effort).

(** The side table of efforts by session. *)
Definition record_session_effort (session : string) (effort : option string) (m : gmap string string) : gmap string string :=
  match effort with Some e => <[session := e]> m | None => delete session m end.
Definition session_effort (session : string) (m : gmap string string) : option string := m !! session.
Definition forget_session_effort (session : string) (m : gmap string string) : gmap string string := delete session m.

(** ** State *)

(** The fields of [SwarmMember] the handlers use; [mb_closed] is
    [event_tx.is_closed()]. *)
Record Member := mkMember {
  mb_swarm_id : option string;
  mb_friendly_name : option string;
  mb_role : string;
  mb_closed : bool;
  mb_headless : bool }.

Definition set_role (r : string) (m : Member) : Member :=
  mkMember (mb_swarm_id m) (mb_friendly_name m) r (mb_closed m) (mb_headless m).

Record Server := mkServer {
  sv_members : gmap string Member;
  sv_coordinators : gmap string string;
  sv_plans : gmap string VersionedPlan;
  sv_efforts : gmap string string }.

Record TaskGraphNodeSpec := mkWire {
  ws_id : string;
  ws_content : string;
  ws_kind : option string;
  ws_depends_on : list string;
  ws_priority : Z }.

(** What a handler sends: to the disk, to the swarm, and to the caller. *)
Inductive Output :=
| OutPersist (swarm : string)
| OutBroadcast (swarm reason : string)
| OutPlanUpdate (session : string) (from_name : option string) (swarm : string) (item_count : nat)
| OutDone (id : N)
| OutError (id : N) (message : string).

Definition spec_from_wire (s : TaskGraphNodeSpec) : NodeSpec :=
  mkSpec (Some (ws_id s)) (ws_content s) (parse_kind (ws_kind s)) (ws_depends_on s) (ws_priority s).

Definition size_message (n : nat) : string :=
  "plan would contain " +:+ pretty n +:+ " items, exceeding the per-swarm limit of " +:+ pretty MAX_PLAN_ITEMS
  +:+ "; finish or clear stale plan nodes before adding more".
Definition graph_size_error (g : TaskGraph) : option string :=
  if MAX_PLAN_ITEMS <? graph_len g then Some (size_message (graph_len g)) else None.

Definition swarm_id_for (session : string) (sv : Server) : option string :=
  sv_members sv !! session ≫= mb_swarm_id.

(** ** Electing the seeder *)

(** [!member.event_tx.is_closed() && !member.is_headless]. *)
Definition is_live_driver (members : gmap string Member) (session : string) : bool :=
  match members !! session with
  | Some m => negb (mb_closed m) && negb (mb_headless m)
  | None => false
  end.

Definition coordinator_is_live (members : gmap string Member) (current : option string) : bool :=
  match current with Some coord => is_live_driver members coord | None => false end.

(** The section under the write lock on coordinators: [inl won] returns at
    once, [inr prior] goes on to the roles. *)
Definition swap_coordinator (swarm seeder : string) (current : option string) (coords : gmap string string)
  : (bool + option string) * gmap string string :=
  if bool_decide (coords !! swarm ≠ current) then (inl (bool_decide (coords !! swarm = Some seeder)), coords)
  else (inr (coords !! swarm), <[swarm := seeder]> coords).

(** The section under the write lock on members. *)
Definition update_roles (seeder : string) (prior : option string) (members : gmap string Member) : gmap string Member :=
  let members := alter (set_role "coordinator") seeder members in
  match prior with
  | Some p => if bool_decide (p ≠ seeder) then alter (set_role "agent") p members else members
  | None => members
  end.

Definition set_members (m : gmap string Member) (sv : Server) : Server :=
  mkServer m (sv_coordinators sv) (sv_plans sv) (sv_efforts sv).
Definition set_coordinators (c : gmap string string) (sv : Server) : Server :=
  mkServer (sv_members sv) c (sv_plans sv) (sv_efforts sv).
Definition set_plans (p : gmap string VersionedPlan) (sv : Server) : Server :=
  mkServer (sv_members sv) (sv_coordinators sv) p (sv_efforts sv).

Definition ensure_seeder_can_coordinate (swarm seeder : string) (sv : Server) : bool * Server :=
  let current := sv_coordinators sv !! swarm in
  if bool_decide (current = Some seeder) then (true, sv)
  else if coordinator_is_live (sv_members sv) current then (false, sv)
  else
    match swap_coordinator swarm seeder current (sv_coordinators sv) with
    | (inl won, _) => (won, sv)
    | (inr prior, coords) =>
        (true, set_members (update_roles seeder prior (sv_members sv)) (set_coordinators coords sv))
    end.

(** The same call as a thread: one state per lock it is about to take. *)
Inductive Seeder :=
| SRead
| SCheck (current : option string)
| SSwap (current : option string)
| SRoles (prior : option string)
| SReturned (won : bool).

Definition seeder_step (swarm seeder : string) (t : Seeder) (sv : Server) : option (Seeder * Server) :=
  match t with
  | SRead =>
      let current := sv_coordinators sv !! swarm in
      Some (if bool_decide (current = Some seeder) then SReturned true else SCheck current, sv)
  | SCheck current =>
      Some (if coordinator_is_live (sv_members sv) current then SReturned false else SSwap current, sv)
  | SSwap current =>
      match swap_coordinator swarm seeder current (sv_coordinators sv) with
      | (inl won, _) => Some (SReturned won, sv)
      | (inr prior, coords) => Some (SRoles prior, set_coordinators coords sv)
      end
  | SRoles prior => Some (SReturned true, set_members (update_roles seeder prior (sv_members sv)) sv)
  | SReturned _ => None
  end.

(** ** The sections under the plan lock *)

Definition claim_queued_node_for_actor (node_id actor : string) (g : TaskGraph) : TaskGraph :=
  match get g node_id with
  | Some n =>
      if bool_decide (tn_status n = Queued)
         && (bool_decide (tn_owner n = None) || bool_decide (tn_owner n = Some actor))
      then (dispatch node_id actor g).2
      else g
  | None => g
  end.

Section Handlers.
(** The JSON codec of artifacts, as in Bridge.v, and the text of its errors. *)
Context (to_json : HandoffArtifact → option string) (from_json : string → option HandoffArtifact).
Context (json_error : string → string).

(** [apply_task_graph(plan, &graph); plan.version += 1]. *)
Definition store_graph (p : VersionedPlan) (g : TaskGraph) : VersionedPlan :=
  let p := apply_task_graph to_json p g in
  mkPlan (vp_items p) (u64_succ (vp_version p)) (vp_participants p) (vp_task_progress p) (vp_mode p) (vp_node_meta p).

Definition downgrade_message : string :=
  "Seed rejected: this swarm already has a non-empty deep-mode plan; seeding with mode=light would silently strip its gates and artifact validation. Omit `mode` to keep deep, or finish/clear the current plan first.".

Definition downgrades_deep (p : VersionedPlan) (mode : string) : bool :=
  eq_ignore_ascii_case (vp_mode p) "deep" && negb (eq_ignore_ascii_case mode "deep")
  && negb (bool_decide (vp_items p = [])).

Definition set_mode (mode : string) (p : VersionedPlan) : VersionedPlan :=
  mkPlan (vp_items p) (vp_version p) (vp_participants p) (vp_task_progress p) mode (vp_node_meta p).
Definition add_participant (session : string) (p : VersionedPlan) : VersionedPlan :=
  mkPlan (vp_items p) (vp_version p) ({[session]} ∪ vp_participants p) (vp_task_progress p) (vp_mode p) (vp_node_meta p).

(** From [plan.participants.insert] to the end of the section. *)
Definition seed_plan (session : string) (specs : list NodeSpec) : stateE VersionedPlan string unit := λ p,
  let p := add_participant session p in
  let before := to_task_graph from_json p in
  match seed specs before with
  | (Err e, _) => (Err ("Seed rejected: " +:+ error_display e), p)
  | (Ok _, g) =>
      match graph_size_error g with
      | Some message => (Err ("Seed rejected: " +:+ message), p)
      | None => (Ok tt, if bool_decide (g ≠ before) then store_graph p g else p)
      end
  end.

Definition seed_section (session : string) (mode : option string) (specs : list NodeSpec)
  : stateE VersionedPlan string unit := λ p,
  match mode with
  | Some m =>
      if downgrades_deep p m then (Err downgrade_message, p) else seed_plan session specs (set_mode m p)
  | None => seed_plan session specs p
  end.

Definition expand_section (session node_id : string) (children : list NodeSpec)
  : stateE VersionedPlan string unit := λ p,
  let graph := claim_queued_node_for_actor node_id session (to_task_graph from_json p) in
  match expand_node node_id session children graph with
  | (Err e, _) => (Err ("Expand rejected: " +:+ error_display e), p)
  | (Ok _, g) =>
      match graph_size_error g with
      | Some message => (Err ("Expand rejected: " +:+ message), p)
      | None => (Ok tt, store_graph p g)
      end
  end.

Definition complete_section (session node_id : string) (artifact : HandoffArtifact)
  : stateE VersionedPlan string unit := λ p,
  let graph := claim_queued_node_for_actor node_id session (to_task_graph from_json p) in
  match complete_node node_id session artifact graph with
  | (Err e, _) => (Err ("Complete rejected: " +:+ error_display e), p)
  | (Ok _, g) => (Ok tt, store_graph p g)
  end.

Definition inject_section (session gate_id : string) (nodes : list NodeSpec)
  : stateE VersionedPlan string unit := λ p,
  let graph := claim_queued_node_for_actor gate_id session (to_task_graph from_json p) in
  match inject_from_gate gate_id session nodes graph with
  | (Err e, _) => (Err ("Inject rejected: " +:+ error_display e), p)
  | (Ok _, g) =>
      match graph_size_error g with
      | Some message => (Err ("Inject rejected: " +:+ message), p)
      | None => (Ok tt, store_graph p g)
      end
  end.

(** ** The handlers *)

Definition finalize (id : N) (swarm session reason : string) (item_count : nat) (sv : Server) : list Output :=
  [OutPersist swarm; OutBroadcast swarm reason;
   OutPlanUpdate session (sv_members sv !! session ≫= mb_friendly_name) swarm item_count;
   OutDone id].

(** The end of every handler: the reply to what the section returned. *)
Definition reply (id : N) (swarm session reason : string) (count : nat) (r : result unit string) (sv : Server)
  : Server * list Output :=
  match r with
  | Ok _ => (sv, finalize id swarm session reason count sv)
  | Err message => (sv, [OutError id message])
  end.

(** Run a section on the plan of a swarm that has one. *)
Definition with_plan (id : N) (swarm : string) (section : stateE VersionedPlan string unit)
  (k : result unit string → Server → Server * list Output) (sv : Server) : Server * list Output :=
  match sv_plans sv !! swarm with
  | None => (sv, [OutError id "No plan for this swarm."])
  | Some plan =>
      let '(r, plan') := section plan in
      k r (set_plans (<[swarm := plan']> (sv_plans sv)) sv)
  end.

(** The mode of a seed: the caller's, else deep for a deep-effort session. *)
Definition resolved_mode (session : string) (mode : option string) (sv : Server) : option string :=
  match mode with
  | Some m => Some m
  | None =>
      match session_effort session (sv_efforts sv) with
      | Some effort => if is_deep_swarm_effort effort then Some "deep" else None
      | None => None
      end
  end.

Definition handle_comm_seed_graph (id : N) (session : string) (mode : option string)
  (nodes : list TaskGraphNodeSpec) (sv : Server) : Server * list Output :=
  match swarm_id_for session sv with
  | None => (sv, [OutError id "Not in a swarm."])
  | Some swarm =>
      let '(_, sv) := ensure_seeder_can_coordinate swarm session sv in
      let specs := map spec_from_wire nodes in
      let mode := resolved_mode session mode sv in
      let plan := default plan_new (sv_plans sv !! swarm) in
      let '(r, plan') := seed_section session mode specs plan in
      reply id swarm session "task_graph_seed" (length specs) r
        (set_plans (<[swarm := plan']> (sv_plans sv)) sv)
  end.

Definition handle_comm_expand_node (id : N) (session node_id : string) (children : list TaskGraphNodeSpec)
  (sv : Server) : Server * list Output :=
  match swarm_id_for session sv with
  | None => (sv, [OutError id "Not in a swarm."])
  | Some swarm =>
      let specs := map spec_from_wire children in
      with_plan id swarm (expand_section session node_id specs)
        (reply id swarm session "task_graph_expand" (length specs)) sv
  end.

Definition handle_comm_complete_node (id : N) (session node_id artifact_json : string) (sv : Server)
  : Server * list Output :=
  match swarm_id_for session sv with
  | None => (sv, [OutError id "Not in a swarm."])
  | Some swarm =>
      match from_json artifact_json with
      | None => (sv, [OutError id ("Invalid artifact JSON: " +:+ json_error artifact_json)])
      | Some artifact =>
          with_plan id swarm (complete_section session node_id artifact)
            (reply id swarm session "task_graph_complete" 1) sv
      end
  end.

Definition handle_comm_inject_gap (id : N) (session gate_id : string) (nodes : list TaskGraphNodeSpec)
  (sv : Server) : Server * list Output :=
  match swarm_id_for session sv with
  | None => (sv, [OutError id "Not in a swarm."])
  | Some swarm =>
      let specs := map spec_from_wire nodes in
      with_plan id swarm (inject_section session gate_id specs)
        (reply id swarm session "task_graph_inject_gap" (length specs)) sv
  end.
End Handlers.
