(* ===== verification/CommGraphClaims.v ===== *)
(** * What the graph handlers guarantee

    - [live_plan_refines_engine]: whatever the handlers do to a plan, it lifts
      to a graph the engine reaches, so the engine's theorems hold of the live
      plan; and it never outgrows the limit.
    - [rejected_request_effects]: what a rejected request leaves behind.
    - [seeder_election]: concurrent seeders elect exactly one coordinator and
      never displace a live one. *)

From stdpp Require Import base list strings gmap relations.
From S2P Require Import Prelude RustString Dag DagOps Schedule DagInv DagGrow DagSafety DagClaims.
From S2P Require Import Plan PlanClaims Bridge BridgeClaims CommGraph.

Open Scope string_scope.
Open Scope nat_scope.
Open Scope list_scope.

(** ** Ids and priorities through an operation *)

Definition tag (n : TaskNode) : string * Z := (tn_id n, tn_priority n).
Definition tags (g : TaskGraph) : list (string * Z) := map tag (g_nodes g).

(** Priorities a stored plan can name. *)
Definition nameable (z : Z) : Prop := z = 0%Z ∨ z = 1%Z ∨ z = 2%Z.
Definition specs_nameable (specs : list NodeSpec) : Prop := ∀ s, s ∈ specs → nameable (ns_priority s).

(** The operation keeps the nodes' ids and priorities and appends nodes whose
    priority can be stored. *)
Definition graph_extends (g g' : TaskGraph) : Prop :=
  ∃ extra, tags g' = tags g ++ extra ∧ ∀ t, t ∈ extra → nameable t.2.

Lemma graph_extends_refl g : graph_extends g g.
Proof. exists []. rewrite app_nil_r. split; [done|]. by intros ? ?%elem_of_nil. Qed.

Lemma graph_extends_trans g1 g2 g3 : graph_extends g1 g2 → graph_extends g2 g3 → graph_extends g1 g3.
Proof.
  intros (e1 & H1 & P1) (e2 & H2 & P2). exists (e1 ++ e2). rewrite H2, H1, app_assoc. split; [done|].
  intros t [?|?]%elem_of_app; auto.
Qed.

Lemma tags_update id f g : (∀ n, tag (f n) = tag n) → tags (update_node id f g) = tags g.
Proof. intros Hf. unfold tags, update_node. simpl. apply (fmap_update_first _ tag). auto. Qed.

Lemma extends_update id f g : (∀ n, tag (f n) = tag n) → graph_extends g (update_node id f g).
Proof. intros Hf. exists []. rewrite tags_update, app_nil_r by done. split; [done|]. by intros ? ?%elem_of_nil. Qed.

Lemma extends_append g news : (∀ n, n ∈ news → nameable (tn_priority n)) → graph_extends g (append_nodes g news).
Proof.
  intros Hn. exists (map tag news). unfold tags, append_nodes. simpl. rewrite map_app. split; [done|].
  intros t (n & -> & H)%list_elem_of_fmap. by apply Hn.
Qed.

Lemma spec_nodes_nameable specs parent origin n :
  specs_nameable specs → n ∈ spec_nodes specs parent origin → nameable (tn_priority n).
Proof. intros Hs (s & -> & Hin)%list_elem_of_fmap. by apply Hs. Qed.

Lemma tag_flip deps n : tag (flip_to_composite deps n) = tag n.
Proof. unfold flip_to_composite. simpl. by destruct (tn_planner n). Qed.

Lemma tag_refresh roots n : tag (refresh_gate roots n) = tag n.
Proof. unfold refresh_gate. cbv zeta. by destruct (_ && is_terminal n). Qed.

Lemma extends_root_gate g : graph_extends g (ensure_root_gate g).
Proof.
  unfold ensure_root_gate. destruct (root_ids g); [apply graph_extends_refl|].
  destruct (find_first is_root_gate (g_nodes g)); [apply extends_update, tag_refresh|].
  eexists [_]. unfold tags, push. simpl. rewrite map_app. split; [done|].
  intros t ->%list_elem_of_singleton. by left.
Qed.

Lemma extends_seed specs g g' : specs_nameable specs → seed specs g = (Ok tt, g') → graph_extends g g'.
Proof.
  intros Hs (unique & Hcol & _ & _ & -> & _)%seed_ok.
  assert (Hnew : graph_extends g (append_nodes g (spec_nodes (fresh_specs g unique) None OSeed))).
  { apply extends_append. intros n. apply spec_nodes_nameable. intros s [Hin _]%elem_of_List_filter.
    apply Hs. apply collapse_specs_ok in Hcol as (_ & _ & _ & Hsub & _); [|constructor|by intros ? ?%elem_of_nil].
    apply Hsub in Hin as [?%elem_of_nil|?]; done. }
  unfold seed_result. destruct (requires_gates (g_mode g)); [|done].
  eapply graph_extends_trans; [exact Hnew|apply extends_root_gate].
Qed.

Lemma extends_expand id actor cs g out g' :
  specs_nameable cs → expand_node id actor cs g = (Ok out, g') → graph_extends g g'.
Proof.
  intros Hs (n & kids & gates & _ & _ & _ & _ & _ & _ & _ & _ & Hg & -> & _)%expand_node_ok.
  eapply graph_extends_trans; [apply extends_append|apply extends_update, tag_flip].
  intros x [Hx|Hx]%elem_of_app; [by eapply spec_nodes_nameable|].
  destruct Hg as [[_ ->]|(_ & gid & content & _ & ->)]; [by apply elem_of_nil in Hx|].
  apply list_elem_of_singleton in Hx as ->. by left.
Qed.

Lemma extends_inject id actor specs g out g' :
  specs_nameable specs → inject_from_gate id actor specs g = (Ok out, g') → graph_extends g g'.
Proof.
  intros Hs (gate & _ & _ & _ & _ & _ & _ & _ & -> & _)%inject_from_gate_ok.
  set (g1 := append_nodes g (spec_nodes specs (tn_parent gate) OGap)).
  assert (graph_extends g g1) as H1 by (apply extends_append; intros n; by apply spec_nodes_nameable).
  apply (graph_extends_trans _ _ _ H1), (graph_extends_trans _ (update_node id (requeue_gate out) g1)); [by apply extends_update|].
  unfold widen_parent. destruct (tn_parent gate); [by apply extends_update|apply graph_extends_refl].
Qed.

Lemma extends_complete id actor a g g' : complete_node id actor a g = (Ok tt, g') → graph_extends g g'.
Proof. intros (n & _ & _ & _ & _ & _ & ->)%complete_node_ok. by apply extends_update. Qed.

Lemma claim_step node actor g :
  rtc dag_step g (claim_queued_node_for_actor node actor g) ∧ graph_extends g (claim_queued_node_for_actor node actor g).
Proof.
  unfold claim_queued_node_for_actor. destruct (get g node) as [n|]; [|split; [done|apply graph_extends_refl]].
  destruct (_ && _); [|split; [done|apply graph_extends_refl]].
  destruct (dispatch node actor g) as [[] g'] eqn:E; simpl.
  - split; [eapply rtc_once, step_dispatch, E|]. apply dispatch_ok in E as (_ & _ & _ & _ & ->). by apply extends_update.
  - unfold dispatch in E. destruct (get g node) as [m|]; [|injection E as <-; split; [done|apply graph_extends_refl]].
    destruct (is_ready g m); [done|]. injection E as <-. split; [done|apply graph_extends_refl].
Qed.

(** ** Storing and lifting back *)

Lemma prior_items_lookup items i : NoDup (map pi_id items) → i ∈ items → prior_items items !! pi_id i = Some i.
Proof.
  unfold prior_items.
  assert (Hskip : ∀ l (m : gmap string PlanItem) k, k ∉ map pi_id l →
    foldl (λ m i, <[pi_id i := i]> m) m l !! k = m !! k).
  { induction l as [|x l IH]; intros m k Hk; simpl in *; [done|]. apply not_elem_of_cons in Hk as [? ?].
    rewrite IH by done. by rewrite lookup_insert_ne. }
  intros Hnd Hi. generalize (∅ : gmap string PlanItem) as m. induction items as [|x items IH]; intros m;
    [by apply elem_of_nil in Hi|]. simpl in *. apply NoDup_cons in Hnd as [Hx Hnd].
  apply elem_of_cons in Hi as [->|Hi]; [|by apply IH]. rewrite Hskip by done. by rewrite lookup_insert_eq.
Qed.

Lemma prior_items_absent items k : k ∉ map pi_id items → prior_items items !! k = None.
Proof.
  unfold prior_items. intros Hk. rewrite <- (lookup_empty k). revert Hk. generalize (∅ : gmap string PlanItem) as m.
  induction items as [|x items IH]; intros m Hk; simpl in *; [done|]. apply not_elem_of_cons in Hk as [? ?].
  rewrite IH by done. by rewrite lookup_insert_ne.
Qed.

Section Live.
Context (to_json : HandoffArtifact → option string) (from_json : string → option HandoffArtifact).
Context (Hc : codec_ok to_json from_json).

#[local] Notation lift := (to_task_graph from_json).

Lemma lifted_ids p : ids (lift p) = map pi_id (vp_items p).
Proof. rewrite lift_nodes. unfold ids. simpl. by rewrite map_map. Qed.

Lemma extends_priorities_kept p g' : graph_extends (lift p) g' → NoDup (ids g') → priorities_kept p g'.
Proof.
  intros (extra & Ht & Hex) Hnd n Hn. unfold stored_priority, lower_item. cbn [pi_priority].
  assert (Htn : tag n ∈ tags g') by (by apply (list_elem_of_fmap_2 tag)).
  assert (Hids : ids g' = map fst (tags (lift p)) ++ map fst extra).
  { rewrite <- map_app, <- Ht. unfold tags, ids. by rewrite map_map. }
  assert (Hl : map fst (tags (lift p)) = map pi_id (vp_items p)).
  { rewrite <- lifted_ids. unfold tags, ids. by rewrite map_map. }
  rewrite Hids, Hl in Hnd. apply NoDup_app in Hnd as (Hnd & Hdis & _).
  rewrite Ht in Htn. apply elem_of_app in Htn as [Hold|Hnew].
  - unfold tags in Hold. rewrite lift_nodes in Hold. simpl in Hold. rewrite map_map in Hold.
    apply list_elem_of_fmap in Hold as (i & Heq & Hi). unfold tag in Heq. injection Heq as Hid Hpr.
    rewrite Hid. simpl. rewrite (prior_items_lookup _ _ Hnd Hi). by rewrite Hpr.
  - rewrite prior_items_absent.
    + apply Hex in Hnew. simpl in Hnew. destruct Hnew as [-> |[-> | ->]]; done.
    + intros Hin. apply (Hdis _ Hin). apply list_elem_of_fmap. by exists (tag n).
Qed.

Lemma lift_store p g' : graph_extends (lift p) g' → NoDup (ids g') → lift (store_graph to_json p g') = g'.
Proof.
  intros Hx Hnd. rewrite <- (lift_of_lowered to_json from_json p g' Hc Hnd) at 2.
  - rewrite !lift_nodes. done.
  - by apply extends_priorities_kept.
Qed.

(** ** Live plans *)

(** The plan stands for a graph the engine reaches in its mode, within the limit. *)
Definition live (p : VersionedPlan) : Prop :=
  reachable (parse_mode (vp_mode p)) (lift p) ∧ length (vp_items p) ≤ MAX_PLAN_ITEMS.

Lemma lifted_length p : graph_len (lift p) = length (vp_items p).
Proof. rewrite lift_nodes. unfold graph_len. simpl. by rewrite length_map. Qed.

Lemma store_live p g' :
  reachable (parse_mode (vp_mode p)) g' → graph_extends (lift p) g' → graph_len g' ≤ MAX_PLAN_ITEMS →
  lift (store_graph to_json p g') = g' ∧ live (store_graph to_json p g').
Proof.
  intros Hr Hx Hlen. pose proof (dag_inv_reachable _ _ Hr) as [Hg _].
  pose proof (lift_store p g' Hx (si_nodup Hg)) as Hl. split; [done|]. unfold live. split.
  - rewrite Hl. replace (parse_mode (vp_mode (store_graph to_json p g'))) with (parse_mode (vp_mode p)); [done|].
    rewrite <- (reachable_mode _ _ Hr). symmetry. apply parse_mode_str.
  - by rewrite <- lifted_length, Hl.
Qed.

Lemma size_ok g : graph_size_error g = None → graph_len g ≤ MAX_PLAN_ITEMS.
Proof. unfold graph_size_error. destruct (_ <? _) eqn:E; [done|]. intros _. by apply Nat.ltb_ge in E. Qed.

Lemma live_reached p g' : live p → rtc dag_step (lift p) g' → reachable (parse_mode (vp_mode p)) g'.
Proof. intros [Hr _] Hs. unfold reachable in *. by etrans. Qed.

(** A seed does not change the mode of a plan that has items. *)
Definition keeps_mode (p : VersionedPlan) (mode : option string) : Prop :=
  ∀ m, mode = Some m → vp_items p = [] ∨ parse_mode m = parse_mode (vp_mode p).

Inductive live_plan_step : VersionedPlan → VersionedPlan → Prop :=
| ps_seed session mode specs p :
    specs_nameable specs → keeps_mode p mode →
    live_plan_step p (seed_section to_json from_json session mode specs p).2
| ps_expand session node children p :
    specs_nameable children → live_plan_step p (expand_section to_json from_json session node children p).2
| ps_complete session node artifact p : live_plan_step p (complete_section to_json from_json session node artifact p).2
| ps_inject session gate nodes p :
    specs_nameable nodes → live_plan_step p (inject_section to_json from_json session gate nodes p).2.

Lemma lift_participant s p : lift (add_participant s p) = lift p.
Proof. by rewrite !lift_nodes. Qed.

Lemma live_participant s p : live p → live (add_participant s p).
Proof. unfold live. by rewrite lift_participant. Qed.

Lemma live_set_mode m p : live p → (vp_items p = [] ∨ parse_mode m = parse_mode (vp_mode p)) → live (set_mode m p).
Proof.
  intros [Hr Hl] Hm. unfold live. split; [|done]. rewrite lift_nodes in *. simpl.
  destruct Hm as [He|He].
  - rewrite He. simpl. constructor.
  - rewrite He. exact Hr.
Qed.

Lemma live_seed_plan session specs p :
  specs_nameable specs → live p → live (seed_plan to_json from_json session specs p).2.
Proof.
  intros Hs Hp. unfold seed_plan. cbv zeta. pose proof (live_participant session p Hp) as Hp'.
  destruct (seed specs (lift (add_participant session p))) as [[[]|e] g] eqn:E; [|done].
  destruct (graph_size_error g) eqn:Ez; [done|]. case_bool_decide; [|done].
  apply store_live; [|by eapply extends_seed|by apply size_ok].
  eapply live_reached; [done|]. eapply rtc_once, step_seed, E.
Qed.

Lemma live_op node actor p g' :
  live p → (∃ g1, g1 = claim_queued_node_for_actor node actor (lift p) ∧ dag_step g1 g' ∧ graph_extends g1 g') →
  graph_len g' ≤ MAX_PLAN_ITEMS → live (store_graph to_json p g').
Proof.
  intros Hp (g1 & -> & Hstep & Hx) Hlen. destruct (claim_step node actor (lift p)) as [Hr Hcx].
  apply store_live; [|by eapply graph_extends_trans|done]. eapply live_reached; [done|].
  etrans; [exact Hr|by apply rtc_once].
Qed.

Lemma extends_complete_len id actor a g g' : complete_node id actor a g = (Ok tt, g') → graph_len g' = graph_len g.
Proof.
  intros (n & _ & _ & _ & _ & _ & ->)%complete_node_ok. unfold graph_len, update_node. simpl.
  rewrite <- (length_map tn_id), <- (length_map tn_id (g_nodes g)). f_equal.
  by apply (fmap_update_first _ tn_id).
Qed.

Lemma claim_len node actor g : graph_len (claim_queued_node_for_actor node actor g) = graph_len g.
Proof.
  unfold claim_queued_node_for_actor. destruct (get g node) as [n|] eqn:Eg; [|done]. destruct (_ && _); [|done].
  unfold dispatch. rewrite Eg. destruct (is_ready g n); [|done]. unfold graph_len, update_node. simpl.
  rewrite <- (length_map tn_id), <- (length_map tn_id (g_nodes g)). f_equal.
  by apply (fmap_update_first _ tn_id).
Qed.

Lemma live_step p p' : live_plan_step p p' → live p → live p'.
Proof.
  destruct 1 as [session mode specs p Hs Hm|session node cs p Hs|session node a p|session gate ns p Hs]; intros Hp.
  - unfold seed_section. destruct mode as [m|]; [|by apply live_seed_plan].
    destruct (downgrades_deep p m); [done|]. apply live_seed_plan; [done|]. apply live_set_mode; auto.
  - unfold expand_section. cbv zeta.
    destruct (expand_node node session cs _) as [[out|e] g] eqn:E; [|done].
    destruct (graph_size_error g) eqn:Ez; [done|].
    eapply (live_op node session); [done| |by apply size_ok].
    eexists. split_and!; [done|by eapply step_expand|by eapply extends_expand].
  - unfold complete_section. cbv zeta.
    destruct (complete_node node session a _) as [[[]|e] g] eqn:E; [|done].
    eapply (live_op node session); [done| |].
    + eexists. split_and!; [done|by eapply step_complete|by eapply extends_complete].
    + rewrite (extends_complete_len _ _ _ _ _ E), claim_len, lifted_length. apply Hp.
  - unfold inject_section. cbv zeta.
    destruct (inject_from_gate gate session ns _) as [[out|e] g] eqn:E; [|done].
    destruct (graph_size_error g) eqn:Ez; [done|].
    eapply (live_op gate session); [done| |by apply size_ok].
    eexists. split_and!; [done|by eapply step_inject|by eapply extends_inject].
Qed.
End Live.

(** C4: The live plan refines the engine.  Take any sequence of handler calls
    (seed, expand, complete, inject; accepted or rejected, by any sessions)
    starting from a new plan, where priorities are ones the plan can name and
    no seed changes the mode of a plan that already has items.  The plan then
    lifts to a graph that the engine reaches in the plan's mode, by successful
    engine steps only; so the structural and execution invariants, and every
    theorem about reachable graphs, hold of the stored plan.  The plan never
    exceeds the per-swarm limit. *)
Theorem live_plan_refines_engine (to_json : HandoffArtifact → option string)
    (from_json : string → option HandoffArtifact) (p : VersionedPlan) :
  codec_ok to_json from_json → rtc (live_plan_step to_json from_json) plan_new p →
  reachable (parse_mode (vp_mode p)) (to_task_graph from_json p)
  ∧ struct_inv (to_task_graph from_json p) ∧ dyn_inv (to_task_graph from_json p)
  ∧ length (vp_items p) ≤ MAX_PLAN_ITEMS.
Proof.
  intros Hc Hr. enough (live from_json p) as [Hre Hlen].
  { destruct (dag_inv_reachable _ _ Hre). done. }
  assert (live from_json plan_new) as H0 by (split; [constructor|simpl; lia]). revert H0.
  induction Hr as [|p1 p2 p3 Hs _ IH]; [done|]. intros H. apply IH. by eapply live_step.
Qed.

Definition demo_wire : list TaskGraphNodeSpec :=
  [mkWire "a" "explore a" None [] 0; mkWire "b" "fix b" (Some "fix") ["a"] 2].
Definition demo_plan_1 : VersionedPlan :=
  (seed_section demo_to_json demo_from_json "s1" (Some "deep") (map spec_from_wire demo_wire) plan_new).2.
Definition demo_plan_2 : VersionedPlan :=
  (expand_section demo_to_json demo_from_json "s1" "a" [spec_new "a1" "left" Explore] demo_plan_1).2.

Lemma demo_plan_steps : rtc (live_plan_step demo_to_json demo_from_json) plan_new demo_plan_2.
Proof.
  refine (rtc_l _ plan_new demo_plan_1 demo_plan_2 _ (rtc_once demo_plan_1 demo_plan_2 _)).
  - refine (ps_seed demo_to_json demo_from_json "s1" (Some "deep") (map spec_from_wire demo_wire) plan_new _ _).
    + intros s Hs. unfold nameable. repeat (apply elem_of_cons in Hs as [->|Hs]; [vm_compute; auto|]).
      by apply elem_of_nil in Hs.
    + intros m _. by left.
  - refine (ps_expand demo_to_json demo_from_json "s1" "a" [spec_new "a1" "left" Explore] demo_plan_1 _).
    intros s ->%list_elem_of_singleton. by left.
Qed.

Lemma live_plan_refines_engine_witness :
  reachable (parse_mode (vp_mode demo_plan_2)) (to_task_graph demo_from_json demo_plan_2)
  ∧ map pi_id (vp_items demo_plan_2) = ["a"; "b"; "plan::gate"; "a1"; "a::gate"].
Proof.
  split; [|vm_compute; reflexivity].
  exact (proj1 (live_plan_refines_engine demo_to_json demo_from_json demo_plan_2 demo_codec_ok demo_plan_steps)).
Defined.

(** ** Rejections *)

Definition is_reply (o : Output) : bool := match o with OutDone _ | OutError _ _ => true | _ => false end.

Lemma reply_once id swarm session reason count r sv :
  length (List.filter is_reply (reply id swarm session reason count r sv).2) = 1.
Proof. by destruct r. Qed.

Lemma with_plan_reply id swarm session reason count section sv :
  length (List.filter is_reply (with_plan id swarm section (reply id swarm session reason count) sv).2) = 1.
Proof.
  unfold with_plan. destruct (sv_plans sv !! swarm) as [p|]; [|done].
  destruct (section p) as [r p']. apply reply_once.
Qed.

(** What a rejected request leaves behind.  A rejected expand, complete or
    inject leaves the plan as it was, whatever the claim of the node did to the
    lifted graph.  A rejected seed keeps all items, node data, progress and the version,
    but it is not without effect: unless it was refused as a downgrade, the
    session has become a participant, and the mode it named is now the mode of
    the plan.  Every request, accepted or not, gets exactly one reply. *)
Theorem rejected_request_effects (to_json : HandoffArtifact → option string)
    (from_json : string → option HandoffArtifact) (json_error : string → string)
    (session node : string) (mode : option string) (specs : list NodeSpec) (a : HandoffArtifact) (p : VersionedPlan) :
  (is_ok (expand_section to_json from_json session node specs p).1 = false →
     (expand_section to_json from_json session node specs p).2 = p)
  ∧ (is_ok (complete_section to_json from_json session node a p).1 = false →
     (complete_section to_json from_json session node a p).2 = p)
  ∧ (is_ok (inject_section to_json from_json session node specs p).1 = false →
     (inject_section to_json from_json session node specs p).2 = p)
  ∧ (is_ok (seed_section to_json from_json session mode specs p).1 = false →
     (seed_section to_json from_json session mode specs p).2
     = match mode with
       | Some m => if downgrades_deep p m then p else add_participant session (set_mode m p)
       | None => add_participant session p
       end)
  ∧ ∀ id wires sv,
     length (List.filter is_reply (handle_comm_seed_graph to_json from_json id session mode wires sv).2) = 1
     ∧ length (List.filter is_reply (handle_comm_expand_node to_json from_json id session node wires sv).2) = 1
     ∧ (∀ json, length (List.filter is_reply (handle_comm_complete_node to_json from_json json_error id session node json sv).2) = 1)
     ∧ length (List.filter is_reply (handle_comm_inject_gap to_json from_json id session node wires sv).2) = 1.
Proof.
  split_and!.
  - unfold expand_section. cbv zeta. destruct (expand_node _ _ _ _) as [[?|?] g]; [|done].
    by destruct (graph_size_error g).
  - unfold complete_section. cbv zeta. by destruct (complete_node _ _ _ _) as [[?|?] g].
  - unfold inject_section. cbv zeta. destruct (inject_from_gate _ _ _ _) as [[?|?] g]; [|done].
    by destruct (graph_size_error g).
  - assert (Hsp : ∀ q, is_ok (seed_plan to_json from_json session specs q).1 = false →
      (seed_plan to_json from_json session specs q).2 = add_participant session q).
    { intros q. unfold seed_plan. cbv zeta. destruct (seed _ _) as [[?|?] g]; [|done].
      by destruct (graph_size_error g). }
    unfold seed_section. destruct mode as [m|]; [|apply Hsp]. destruct (downgrades_deep p m); [done|apply Hsp].
  - intros id wires sv. split_and!.
    + unfold handle_comm_seed_graph. destruct (swarm_id_for session sv) as [swarm|]; [|done].
      destruct (ensure_seeder_can_coordinate swarm session sv) as [won sv']. cbv zeta.
      destruct (seed_section _ _ _ _ _ _) as [r p']. apply reply_once.
    + unfold handle_comm_expand_node. destruct (swarm_id_for session sv); [|done]. apply with_plan_reply.
    + intros json. unfold handle_comm_complete_node. destruct (swarm_id_for session sv); [|done].
      destruct (from_json json); [apply with_plan_reply|done].
    + unfold handle_comm_inject_gap. destruct (swarm_id_for session sv); [|done]. apply with_plan_reply.
Qed.

(** A rejected seed deepens a light plan that has work in it. *)
Definition demo_light_plan : VersionedPlan :=
  (seed_section demo_to_json demo_from_json "s1" None (map spec_from_wire demo_wire) plan_new).2.
Definition blank_spec : NodeSpec := mkSpec (Some " ") "x" Fix [] 0.

Example rejected_seed_changes_mode :
  let '(r, p') := seed_section demo_to_json demo_from_json "s2" (Some "deep") [blank_spec] demo_light_plan in
  parse_mode (vp_mode demo_light_plan) = Light ∧ length (vp_items demo_light_plan) = 2
  ∧ is_ok r = false ∧ parse_mode (vp_mode p') = Deep.
Proof. vm_compute. auto. Qed.

Lemma rejected_request_effects_witness :
  vp_mode (seed_section demo_to_json demo_from_json "s2" (Some "deep") [blank_spec] demo_light_plan).2 = "deep".
Proof.
  destruct (rejected_request_effects demo_to_json demo_from_json id "s2" "" (Some "deep")
    [blank_spec] artifact_default demo_light_plan) as (_ & _ & _ & H & _).
  rewrite H by (vm_compute; reflexivity). vm_compute. reflexivity.
Defined.

(** ** Electing a coordinator *)

Section Election.
Context (swarm : string) (sv0 : Server).

(** Who was a live driver when the seeders started; roles do not matter to it. *)
Definition live0 (x : string) : bool := is_live_driver (sv_members sv0) x.
Definition c0 : option string := sv_coordinators sv0 !! swarm.

(** One seeder takes its next lock. *)
Inductive election_step : gmap string Seeder * Server → gmap string Seeder * Server → Prop :=
| election_next s t t' ts sv sv' :
    ts !! s = Some t → seeder_step swarm s t sv = Some (t', sv') →
    election_step (ts, sv) (<[s := t']> ts, sv').

(** Past the point where it could still lose. *)
Definition winning (t : Seeder) : Prop := t = SReturned true ∨ ∃ prior, t = SRoles prior.

Record election_inv (ts : gmap string Seeder) (sv : Server) : Prop := {
  ei_live : ∀ x, is_live_driver (sv_members sv) x = live0 x;
  ei_threads : ∀ s, is_Some (ts !! s) → live0 s = true;
  ei_coord : sv_coordinators sv !! swarm = c0
             ∨ coordinator_is_live (sv_members sv0) c0 = false
               ∧ ∃ s t, sv_coordinators sv !! swarm = Some s ∧ Some s ≠ c0 ∧ ts !! s = Some t ∧ winning t;
  ei_swap : ∀ s cur, ts !! s = Some (SSwap cur) → coordinator_is_live (sv_members sv0) cur = false;
  ei_seen : ∀ s cur, ts !! s = Some (SCheck cur) ∨ ts !! s = Some (SSwap cur) →
            cur = c0 ∨ sv_coordinators sv !! swarm ≠ c0;
  ei_roles : ∀ s prior, ts !! s = Some (SRoles prior) → prior = c0 ∧ coordinator_is_live (sv_members sv0) c0 = false;
  ei_winning : ∀ s t, ts !! s = Some t → winning t → sv_coordinators sv !! swarm = Some s;
  ei_lost : ∀ s, ts !! s = Some (SReturned false) →
            coordinator_is_live (sv_members sv0) c0 = true ∨ sv_coordinators sv !! swarm ≠ c0;
  ei_role : ∀ s m, ts !! s = Some (SReturned true) → c0 ≠ Some s → sv_members sv !! s = Some m → mb_role m = "coordinator" }.

Lemma live_roles seeder prior members x :
  is_live_driver (update_roles seeder prior members) x = is_live_driver members x.
Proof.
  assert (Hone : ∀ r y (m : gmap string Member), is_live_driver (alter (set_role r) y m) x = is_live_driver m x).
  { intros r y m. unfold is_live_driver. destruct (decide (y = x)) as [->|].
    - rewrite lookup_alter_eq. by destruct (m !! x).
    - by rewrite lookup_alter_ne. }
  unfold update_roles. cbv zeta. destruct prior as [q|]; [|apply Hone]. case_bool_decide; by rewrite !Hone.
Qed.

Lemma live_coord (members : gmap string Member) c :
  (∀ x, is_live_driver members x = live0 x) → coordinator_is_live members c = coordinator_is_live (sv_members sv0) c.
Proof. intros H. destruct c; simpl; [apply H|done]. Qed.

(** A seeder that has not won yet moves without writing. *)
Lemma inv_local ts sv s t t' :
  election_inv ts sv → ts !! s = Some t → ¬ winning t →
  (∀ cur, t' = SSwap cur → coordinator_is_live (sv_members sv0) cur = false) →
  (∀ cur, t' = SCheck cur ∨ t' = SSwap cur → cur = c0 ∨ sv_coordinators sv !! swarm ≠ c0) →
  (∀ prior, t' ≠ SRoles prior) →
  (t' = SReturned true → sv_coordinators sv !! swarm = Some s) →
  (t' = SReturned false → coordinator_is_live (sv_members sv0) c0 = true ∨ sv_coordinators sv !! swarm ≠ c0) →
  election_inv (<[s := t']> ts) sv.
Proof.
  intros [Hl Ht Hco Hsw Hse Hro Hwi Hlo Hrl] Hs Hnw H1 H0 H2 H3 H4.
  assert (Hc : sv_coordinators sv !! swarm = Some s → c0 = Some s).
  { intros E. destruct Hco as [<-|(_ & s' & t2 & E' & _ & Ht' & Hw)]; [done|].
    rewrite E in E'. injection E' as <-. rewrite Hs in Ht'. by injection Ht' as <-. }
  constructor.
  - done.
  - intros x [y Hy]. destruct (decide (s = x)) as [->|]; [apply Ht; eauto|].
    rewrite lookup_insert_ne in Hy by done. apply Ht. eauto.
  - destruct Hco as [E|(Hn & s' & t2 & E & Hne & Ht' & Hw)]; [by left|]. right. split; [done|].
    exists s', t2. split_and!; try done. rewrite lookup_insert_ne; [done|]. intros ->. rewrite Hs in Ht'. by injection Ht' as <-.
  - intros x cur. rewrite lookup_insert. case_decide; [intros [= ->]; eauto|eauto].
  - intros x cur. rewrite lookup_insert. case_decide; [|eauto]. intros [[= ->]|[= ->]]; eauto.
  - intros x prior. rewrite lookup_insert. case_decide; [intros [= ->]; by destruct (H2 prior)|eauto].
  - intros x y. rewrite lookup_insert. case_decide as Ex; [|eauto]. intros [= <-] [->|[prior ->]]; [subst; auto|by destruct (H2 prior)].
  - intros x. rewrite lookup_insert. case_decide; [intros [= ->]; eauto|eauto].
  - intros x m. rewrite lookup_insert. case_decide as Ex; [|eauto]. intros [= ->] Hne. subst. by destruct Hne; auto.
Qed.

(** The swap that succeeds. *)
Lemma inv_swap ts sv s cur :
  election_inv ts sv → ts !! s = Some (SSwap cur) → sv_coordinators sv !! swarm = cur →
  election_inv (<[s := SRoles cur]> ts) (set_coordinators (<[swarm := s]> (sv_coordinators sv)) sv).
Proof.
  intros [Hl Ht Hco Hsw Hse Hro Hwi Hlo Hrl] Hs Hcur.
  pose proof (Hsw _ _ Hs) as Hdead.
  assert (Hc0 : cur = c0).
  { destruct Hco as [E|(_ & s' & t2 & E & _ & Ht' & _)]; [congruence|].
    exfalso. assert (coordinator_is_live (sv_members sv0) cur = true) by (rewrite <- Hcur, E; apply Ht; eauto). congruence. }
  assert (Hsl : live0 s = true) by (apply Ht; eauto).
  assert (Hns : Some s ≠ c0) by (intros E; rewrite Hc0, <- E in Hdead; unfold coordinator_is_live, live0 in *; congruence).
  assert (Hnw : ∀ x y, x ≠ s → ts !! x = Some y → ¬ winning y).
  { intros x y Hx Hy Hw. pose proof (Hwi x y Hy Hw) as E. assert (live0 x = true) by (apply Ht; eauto).
    rewrite <- Hcur, E in Hdead. unfold coordinator_is_live, live0 in *. congruence. }
  constructor; cbn [sv_members sv_coordinators set_coordinators].
  - done.
  - intros x [y Hy]. destruct (decide (s = x)) as [->|]; [done|].
    rewrite lookup_insert_ne in Hy by done. apply Ht. eauto.
  - right. split; [congruence|]. exists s, (SRoles cur). rewrite !lookup_insert_eq. split_and!; try done. right. eauto.
  - intros x c. rewrite lookup_insert. case_decide; [done|eauto].
  - intros x c _. right. by rewrite lookup_insert_eq.
  - intros x prior. rewrite lookup_insert. case_decide; [intros [= <-]; split; congruence|eauto].
  - intros x y. rewrite lookup_insert. case_decide as Ex.
    + intros _ _. rewrite lookup_insert_eq. by subst.
    + intros Hy Hw. by destruct (Hnw x y ltac:(done) Hy Hw).
  - intros x _. right. by rewrite lookup_insert_eq.
  - intros x m. rewrite lookup_insert. case_decide; [done|]. intros Hy. exfalso. apply (Hnw x _ ltac:(done) Hy). by left.
Qed.

(** The winner writes the roles and returns. *)
Lemma inv_roles ts sv s prior :
  election_inv ts sv → ts !! s = Some (SRoles prior) →
  election_inv (<[s := SReturned true]> ts) (set_members (update_roles s prior (sv_members sv)) sv).
Proof.
  intros [Hl Ht Hco Hsw Hse Hro Hwi Hlo Hrl] Hs.
  pose proof (Hro _ _ Hs) as [Hp Hdead]. assert (Hme : winning (SRoles prior)) by (right; eauto).
  pose proof (Hwi _ _ Hs Hme) as Hcs.
  constructor; cbn [sv_members sv_coordinators set_members].
  - intros x. rewrite live_roles. apply Hl.
  - intros x [y Hy]. destruct (decide (s = x)) as [->|]; [apply Ht; eauto|].
    rewrite lookup_insert_ne in Hy by done. apply Ht. eauto.
  - destruct Hco as [E|(Hn & s' & t2 & E & Hne & Ht' & Hw)]; [by left|]. right. split; [done|].
    exists s'. destruct (decide (s' = s)) as [->|].
    + exists (SReturned true). rewrite lookup_insert_eq. split_and!; try done. by left.
    + exists t2. rewrite lookup_insert_ne by done. done.
  - intros x c. rewrite lookup_insert. case_decide; [done|eauto].
  - intros x c. rewrite lookup_insert. case_decide; [by intros [?|?]|eauto].
  - intros x q. rewrite lookup_insert. case_decide; [done|eauto].
  - intros x y. rewrite lookup_insert. case_decide; [by subst|eauto].
  - intros x. rewrite lookup_insert. case_decide; [done|eauto].
  - intros x m. rewrite lookup_insert. case_decide as Ex.
    + intros _ Hne. subst x. unfold update_roles. cbv zeta. subst prior.
      assert (Hx : alter (set_role "coordinator") s (sv_members sv) !! s = Some m → mb_role m = "coordinator").
      { rewrite lookup_alter_eq. destruct (sv_members sv !! s); [|done]. intros [= <-]. done. }
      destruct c0 as [q|]; [|done]. case_bool_decide as Eq; [|done]. rewrite lookup_alter_ne by done. done.
    + intros Hy. exfalso. assert (winning (SReturned true)) as Hw by (by left).
      pose proof (Hwi x _ Hy Hw) as E. congruence.
Qed.

Lemma election_inv_step ts sv ts' sv' :
  election_step (ts, sv) (ts', sv') → election_inv ts sv → election_inv ts' sv'.
Proof.
  inversion 1 as [s t t' ? ? ? Hs Hstep]; subst. intros Hi. pose proof Hi as [Hl Ht Hco _ Hse _ _ _ _].
  destruct t as [|cur|cur|prior|won]; simpl in Hstep.
  - injection Hstep as <- <-. apply (inv_local ts sv s SRead); try done; [by intros [?|[? ?]]|..].
    + intros cur. case_bool_decide; done.
    + intros cur. case_bool_decide; [by intros [?|?]|]. intros [[= <-]|?]; [|done].
      destruct Hco as [->|(_ & s' & t2 & -> & ? & _)]; auto.
    + intros prior. by case_bool_decide.
    + by case_bool_decide.
    + by case_bool_decide.
  - injection Hstep as <- <-. rewrite (live_coord _ _ Hl).
    assert (Hse' : cur = c0 ∨ sv_coordinators sv !! swarm ≠ c0) by (apply (Hse s); by left).
    destruct (coordinator_is_live (sv_members sv0) cur) eqn:Ec;
      (apply (inv_local ts sv s (SCheck cur)); try done; [by intros [?|[? ?]]|..]).
    + by intros ? [?|?].
    + intros _. destruct Hse' as [->|]; auto.
    + by intros ? [= <-].
    + intros ? [?|[= <-]]; done.
  - assert (Hse' : cur = c0 ∨ sv_coordinators sv !! swarm ≠ c0) by (apply (Hse s); by right).
    unfold swap_coordinator in Hstep. case_bool_decide as Ecur; injection Hstep as <- <-.
    + apply (inv_local ts sv s (SSwap cur)); try done; [by intros [?|[? ?]]|by intros ? [?|?]|..].
      * case_bool_decide; done.
      * intros _. destruct Hse' as [->|]; auto.
    + rewrite Ecur. by apply inv_swap.
  - injection Hstep as <- <-. by apply inv_roles.
  - done.
Qed.

Lemma election_inv_rtc x y :
  rtc election_step x y → election_inv x.1 x.2 → election_inv y.1 y.2 ∧ dom y.1 = dom x.1.
Proof.
  induction 1 as [x|[t1 s1] [t2 s2] z Hs _ IH]; [done|]. intros Hi.
  destruct IH as [Hz ->]; [by eapply election_inv_step|]. split; [done|].
  inversion Hs as [s t t' ? ? ? Hts _]; subst. simpl. rewrite dom_insert_L.
  apply elem_of_dom_2 in Hts. set_solver.
Qed.

Lemma election_inv_init seeders :
  (∀ s, s ∈ seeders → live0 s = true) → election_inv (gset_to_gmap SRead (list_to_set seeders)) sv0.
Proof.
  intros Hl. assert (Hr : ∀ s t, gset_to_gmap SRead (list_to_set seeders : gset string) !! s = Some t → t = SRead ∧ live0 s = true).
  { intros s t [Hin <-]%lookup_gset_to_gmap_Some. split; [done|]. apply Hl. by apply elem_of_list_to_set in Hin. }
  constructor; try done.
  - intros s [t Ht]. by apply Hr in Ht as [_ ?].
  - by left.
  - intros s cur H. by apply Hr in H as [? _].
  - intros s cur [H|H]; by apply Hr in H as [? _].
  - intros s prior H. by apply Hr in H as [? _].
  - intros s t H Hw. apply Hr in H as [-> _]. by destruct Hw as [?|[? ?]].
  - intros s H. by apply Hr in H as [? _].
  - intros s m H. by apply Hr in H as [? _].
Qed.
End Election.

(** Concurrent seeders.  Any number of sessions that are live drivers seed
    at once, interleaved at every lock.  In every reachable state: a coordinator
    that was live when they started is still the coordinator; whoever was told
    it won is the coordinator, so at most one is; and a winner that was not
    coordinator before carries the coordinator role.  When all calls have
    returned and the swarm had no live coordinator, exactly one seeder won. *)
Theorem seeder_election (swarm : string) (sv0 : Server) (seeders : list string)
    (ts : gmap string Seeder) (sv : Server) :
  (∀ s, s ∈ seeders → is_live_driver (sv_members sv0) s = true) →
  rtc (election_step swarm) (gset_to_gmap SRead (list_to_set seeders), sv0) (ts, sv) →
  (coordinator_is_live (sv_members sv0) (sv_coordinators sv0 !! swarm) = true →
     sv_coordinators sv !! swarm = sv_coordinators sv0 !! swarm)
  ∧ (∀ s, ts !! s = Some (SReturned true) → sv_coordinators sv !! swarm = Some s)
  ∧ (∀ s m, ts !! s = Some (SReturned true) → sv_coordinators sv0 !! swarm ≠ Some s →
       sv_members sv !! s = Some m → mb_role m = "coordinator")
  ∧ (seeders ≠ [] → coordinator_is_live (sv_members sv0) (sv_coordinators sv0 !! swarm) = false →
     (∀ s, s ∈ seeders → ∃ won, ts !! s = Some (SReturned won)) →
     ∃ s, s ∈ seeders ∧ ts !! s = Some (SReturned true) ∧ ∀ s', ts !! s' = Some (SReturned true) → s' = s).
Proof.
  intros Hlive Hr. set (ts0 := gset_to_gmap SRead (list_to_set seeders) : gmap string Seeder) in *.
  pose proof (election_inv_rtc _ _ _ _ Hr (election_inv_init _ _ _ Hlive)) as Hinv. simpl in Hinv.
  destruct Hinv as [[Hl Ht Hco _ _ Hro Hwi Hlo Hrl] Hdom].
  split_and!.
  - intros Hc. destruct Hco as [?|[Hn _]]; [done|]. unfold c0 in Hn. congruence.
  - intros s Hs. apply (Hwi s _ Hs). by left.
  - intros s m Hs Hne Hm. by eapply Hrl.
  - intros Hne Hdead Hall.
    assert (Hex : ∃ s, ts !! s = Some (SReturned true)).
    { destruct seeders as [|s0 seeders]; [done|]. destruct (Hall s0) as [[] Hs0]; [by left|eauto|].
      destruct (Hlo _ Hs0) as [?|Hch]; [unfold c0 in *; congruence|].
      destruct Hco as [?|(_ & s & t & Hs & _ & Hts & Hw)]; [done|]. exists s.
      assert (s ∈ s0 :: seeders) as Hin.
      { apply elem_of_dom_2 in Hts. rewrite Hdom in Hts. unfold ts0 in Hts. rewrite dom_gset_to_gmap in Hts.
        by apply elem_of_list_to_set in Hts. }
      destruct (Hall s Hin) as [won Hwon]. rewrite Hts in Hwon. injection Hwon as ->.
      destruct Hw as [[= ->]|[? ?]]; done. }
    destruct Hex as [s Hs]. exists s. split_and!; [|done|].
    + apply elem_of_dom_2 in Hs. rewrite Hdom in Hs. unfold ts0 in Hs. rewrite dom_gset_to_gmap in Hs.
      by apply elem_of_list_to_set in Hs.
    + intros s' Hs'. pose proof (Hwi s _ Hs ltac:(by left)). pose proof (Hwi s' _ Hs' ltac:(by left)). congruence.
Qed.

(** Run the seeders in the given order, one lock each time. *)
Definition run_election (swarm : string) (order : list string) (x : gmap string Seeder * Server)
  : gmap string Seeder * Server :=
  foldl (λ x s, match x.1 !! s with
                | Some t => match seeder_step swarm s t x.2 with
                            | Some (t', sv') => (<[s := t']> x.1, sv')
                            | None => x
                            end
                | None => x
                end) x order.

Lemma run_election_rtc swarm order x : rtc (election_step swarm) x (run_election swarm order x).
Proof.
  unfold run_election. revert x. induction order as [|s order IH]; intros [ts sv]; simpl; [done|].
  destruct (ts !! s) as [t|] eqn:Et; [|apply IH].
  destruct (seeder_step swarm s t sv) as [[t' sv']|] eqn:Es; [|apply IH].
  eapply rtc_l; [by econstructor|apply IH].
Qed.

Definition demo_server : Server :=
  mkServer {["x" := mkMember (Some "w") None "agent" false false; "y" := mkMember (Some "w") None "agent" false false]}
    {["w" := "gone"]} ∅ ∅.
Definition demo_race : gmap string Seeder * Server :=
  run_election "w" ["x"; "y"; "x"; "y"; "y"; "x"; "y"] (gset_to_gmap SRead (list_to_set ["x"; "y"]), demo_server).

Lemma seeder_election_witness :
  sv_coordinators demo_race.2 !! "w" = Some "y"
  ∧ ∃ s, s ∈ ["x"; "y"] ∧ demo_race.1 !! s = Some (SReturned true)
       ∧ ∀ s', demo_race.1 !! s' = Some (SReturned true) → s' = s.
Proof.
  split; [vm_compute; reflexivity|].
  destruct (seeder_election "w" demo_server ["x"; "y"] demo_race.1 demo_race.2) as (_ & _ & _ & H).
  - intros s Hs. repeat (apply elem_of_cons in Hs as [->|Hs]; [vm_compute; reflexivity|]). by apply elem_of_nil in Hs.
  - rewrite <- surjective_pairing. apply run_election_rtc.
  - apply H; [done|vm_compute; reflexivity|].
    intros s Hs. repeat (apply elem_of_cons in Hs as [->|Hs]; [eexists; vm_compute; reflexivity|]). by apply elem_of_nil in Hs.
Defined.

(** Alone, the thread computes what the function does. *)
Fixpoint seeder_run (fuel : nat) (swarm s : string) (t : Seeder) (sv : Server) : Seeder * Server :=
  match fuel with
  | O => (t, sv)
  | S fuel' =>
      match seeder_step swarm s t sv with
      | Some (t', sv') => seeder_run fuel' swarm s t' sv'
      | None => (t, sv)
      end
  end.

Lemma seeder_alone swarm s sv :
  seeder_run 4 swarm s SRead sv
  = (SReturned (ensure_seeder_can_coordinate swarm s sv).1, (ensure_seeder_can_coordinate swarm s sv).2).
Proof.
  unfold ensure_seeder_can_coordinate, swap_coordinator. simpl.
  case_bool_decide; simpl; [done|].
  destruct (coordinator_is_live (sv_members sv) (sv_coordinators sv !! swarm)); simpl; [done|].
  unfold swap_coordinator. case_bool_decide; done.
Qed.
