(* ===== verification/Message.v ===== *)
(** * Conversation messages

    crates/jcode-message-types/src/lib.rs: messages and their content blocks,
    tool calls and definitions, the constructors, the injection of timestamps,
    the insertion of dynamic system context, tool identifiers and the stable
    hash.  [serde_json::Value] and [chrono::DateTime<Utc>] are parameters
    (classes [Json] and [Chrono]); the current time is an argument. *)

From stdpp Require Import base list strings pretty.
From S2P Require Import Prelude RustString RustText Float32.

Open Scope string_scope.
Open Scope nat_scope.
Open Scope list_scope.

(** ** Parameters *)

(** The shape of a JSON value: the constructors of [serde_json::Value]. *)
Inductive JsonKind := JNull | JBool | JNumber | JString | JArray | JObject.

(** What the code uses of [serde_json]: the kind of a value, its text, the
    field of an object, the string in a value, building an object or a string,
    and parsing. *)
Class Json := {
  Value : Type;
  value_kind : Value → JsonKind;
  value_to_string : Value → string;
  value_get : Value → string → option Value;
  value_as_str : Value → option string;
  value_null : Value;
  value_string : string → Value;
  value_object : list (string * Value) → Value;
  value_from_str : string → option Value;
}.

Class JsonLaws (J : Json) : Prop := {
  kind_null : value_kind value_null = JNull;
  kind_object : ∀ fields, value_kind (value_object fields) = JObject;
}.

(** What the code uses of [chrono]: RFC 3339 text with milliseconds, and going
    back a number of milliseconds. *)
Class Chrono := {
  DateTime : Type;
  to_rfc3339_millis : DateTime → string;
  checked_sub_millis : DateTime → Z → option DateTime;
}.

Section Messages.
Context {J : Json} {T : Chrono}.

(** ** Data *)

Record ToolCall := mkToolCall {
  tc_id : string;
  tc_name : string;
  tc_input : Value;
  tc_intent : option string;
  tc_thought_signature : option string;
}.

Record ToolDefinition := mkToolDefinition {
  td_name : string;
  td_description : string;
  td_input_schema : Value;
}.

Inductive Role := User | Assistant.

Record CacheControl := mkCacheControl { cc_kind : string; cc_ttl : option string }.

Inductive ContentBlock :=
| Text (text : string) (cache_control : option CacheControl)
| Reasoning (text : string)
| ReasoningTrace (text : string)
| AnthropicThinking (thinking signature : string)
| OpenAIReasoning (id : string) (summary : list string) (encrypted_content status : option string)
| ToolUse (id name : string) (input : Value) (thought_signature : option string)
| ToolResult (tool_use_id content : string) (is_error : option bool)
| Image (media_type data : string)
| OpenAICompaction (encrypted_content : string).

Record Message := mkMessage {
  role : Role;
  content : list ContentBlock;
  timestamp : option DateTime;
  tool_duration_ms : option N;
}.

#[global] Instance Role_eq_dec : EqDecision Role.
Proof. solve_decision. Defined.

(** ** Tool definitions *)

Definition definition_json (d : ToolDefinition) : Value :=
  value_object [("name", value_string (td_name d));
                ("description", value_string (td_description d));
                ("input_schema", td_input_schema d)].
Definition prompt_chars (d : ToolDefinition) : nat := String.length (value_to_string (definition_json d)).
Definition message_estimate_tokens (s : string) : nat := String.length s / 4.
Definition description_token_estimate (d : ToolDefinition) : nat := message_estimate_tokens (td_description d).
Definition prompt_token_estimate (d : ToolDefinition) : nat :=
  message_estimate_tokens (value_to_string (definition_json d)).
Definition aggregate_prompt_chars (defs : list ToolDefinition) : nat := sum_list (prompt_chars <$> defs).
Definition aggregate_prompt_token_estimate (defs : list ToolDefinition) : nat :=
  sum_list (prompt_token_estimate <$> defs).

(** ** Constructors *)

Definition ephemeral (ttl : option string) : CacheControl := mkCacheControl "ephemeral" ttl.

Definition user_message (now : DateTime) (text : string) : Message :=
  mkMessage User [Text text None] (Some now) None.
Definition user_with_images (now : DateTime) (text : string) (images : list (string * string)) : Message :=
  mkMessage User (((λ '(media_type, data), Image media_type data) <$> images) ++ [Text text None]) (Some now) None.
Definition assistant_text (now : DateTime) (text : string) : Message :=
  mkMessage Assistant [Text text None] (Some now) None.
Definition tool_result_with_duration (now : DateTime) (tool_use_id text : string) (is_error : bool)
    (duration : option N) : Message :=
  mkMessage User [ToolResult tool_use_id text (if is_error then Some true else None)] (Some now) duration.
Definition tool_result (now : DateTime) (tool_use_id text : string) (is_error : bool) : Message :=
  tool_result_with_duration now tool_use_id text is_error None.

(** ** Durations and timestamps *)

Definition format_duration (duration_ms : N) : string :=
  if (duration_ms <=? 999)%N then pretty duration_ms +:+ "ms"
  else if (duration_ms <=? 9999)%N then fixed 1 (f64_div (f64_of_N duration_ms) (f64_of_N 1000)) +:+ "s"
  else if (duration_ms <=? 59999)%N then pretty (duration_ms / 1000)%N +:+ "s"
  else
    let total_seconds := (duration_ms / 1000)%N in
    let minutes := (total_seconds / 60)%N in
    let seconds := (total_seconds mod 60)%N in
    if (seconds =? 0)%N then pretty minutes +:+ "m"
    else pretty minutes +:+ "m " +:+ pretty seconds +:+ "s".

Definition format_timestamp (ts : DateTime) : string := to_rfc3339_millis ts.

Definition SYSTEM_REMINDER_OPEN : string := "<system-reminder>".

Fixpoint first_text (blocks : list ContentBlock) : option string :=
  match blocks with
  | [] => None
  | Text text _ :: _ => Some text
  | _ :: rest => first_text rest
  end.
Definition is_internal_system_reminder (msg : Message) : bool :=
  match first_text (content msg) with
  | Some text => starts_with SYSTEM_REMINDER_OPEN (trim_start text)
  | None => false
  end.
Definition should_skip_timestamp_injection (msg : Message) : bool := is_internal_system_reminder msg.

Definition I64_MAX : Z := 9223372036854775807%Z.
Definition tool_result_tag (msg : Message) (ts : DateTime) : string :=
  match tool_duration_ms msg with
  | Some d =>
      let start_ts := default ts (checked_sub_millis ts (Z.min (Z.of_N d) I64_MAX)) in
      "[tool timing: start=" +:+ format_timestamp start_ts +:+ " finish=" +:+ format_timestamp ts
      +:+ " duration=" +:+ format_duration d +:+ "]"
  | None => "[" +:+ format_timestamp ts +:+ "]"
  end.

(** The loop over the blocks: the first text or tool result is tagged. *)
Fixpoint tag_blocks (text_tag tool_tag : string) (tagged : bool) (blocks : list ContentBlock) : list ContentBlock :=
  match blocks with
  | [] => []
  | b :: rest =>
      let '(b', tagged') :=
        match b with
        | Text text cache_control =>
            if tagged then (b, tagged) else (Text (text_tag +:+ " " +:+ text) cache_control, true)
        | ToolResult id text is_error =>
            if tagged then (b, tagged) else (ToolResult id (tool_tag +:+ " " +:+ text) is_error, true)
        | _ => (b, tagged)
        end in
      b' :: tag_blocks text_tag tool_tag tagged' rest
  end.

Definition with_timestamp (msg : Message) : Message :=
  match timestamp msg with
  | None => msg
  | Some ts =>
      if negb (bool_decide (role msg = User)) || should_skip_timestamp_injection msg then msg
      else
        let text_tag := "[" +:+ format_timestamp ts +:+ "]" in
        let tool_tag := tool_result_tag msg ts in
        mkMessage (role msg) (tag_blocks text_tag tool_tag false (content msg)) (timestamp msg) (tool_duration_ms msg)
  end.
Definition with_timestamps (messages : list Message) : list Message := with_timestamp <$> messages.

(** ** The stable hash *)

Definition TOOL_OUTPUT_MISSING_TEXT : string :=
  "Tool output missing (session interrupted before tool execution completed)".

Definition STABLE_HASH_SEED : N := 0xcbf29ce484222325%N.
Definition STABLE_HASH_PRIME : N := 0x100000001b3%N.
Definition stable_hash_bytes (bytes : list N) : N :=
  fold_left (λ h b, (N.lxor h b * STABLE_HASH_PRIME) mod 2 ^ 64)%N bytes STABLE_HASH_SEED.

(** [n.to_le_bytes()] of a [u64]. *)
Definition to_le_bytes (n : N) : list N :=
  (λ i, (N.shiftr n (8 * N.of_nat i)) mod 256)%N <$> seq 0 8.
Definition extend_stable_hash (acc next : N) : N :=
  stable_hash_bytes (to_le_bytes acc ++ to_le_bytes next).

(** [stable_message_hash], for the two renderings of a message it can hash. *)
Definition stable_message_hash (to_vec : Message → option (list N)) (debug : Message → list N) (m : Message) : N :=
  match to_vec m with
  | Some bytes => stable_hash_bytes bytes
  | None => stable_hash_bytes (debug m)
  end.

(** ** Turns *)

Definition is_tool_result (b : ContentBlock) : bool :=
  match b with ToolResult _ _ _ => true | _ => false end.
Definition is_text (b : ContentBlock) : bool :=
  match b with Text _ _ => true | _ => false end.
Definition is_image (b : ContentBlock) : bool :=
  match b with Image _ _ => true | _ => false end.

(** A text that the user wrote: not blank and not a system reminder. *)
Definition is_user_text (text : string) : bool :=
  let trimmed := trim text in
  negb (str_is_empty trimmed) && negb (starts_with SYSTEM_REMINDER_OPEN trimmed).

(** The loops over the blocks of [ends_with_fresh_user_turn]
    ([allow_images = false]) and [is_fresh_user_text_message] ([true]): [None]
    is the early [return false]. *)
Fixpoint saw_user_text (allow_images : bool) (blocks : list ContentBlock) (saw : bool) : option bool :=
  match blocks with
  | [] => Some saw
  | Text text _ :: rest => saw_user_text allow_images rest (saw || is_user_text text)
  | Image _ _ :: rest => if allow_images then saw_user_text allow_images rest saw else None
  | _ :: _ => None
  end.

(** The loop over the messages, newest first. *)
Fixpoint fresh_turn_loop (newest_first : list Message) : bool :=
  match newest_first with
  | [] => false
  | msg :: older =>
      if negb (bool_decide (role msg = User)) then false
      else if existsb is_tool_result (content msg) then false
      else match content msg with
           | [] => false
           | _ =>
               match saw_user_text false (content msg) false with
               | None => false
               | Some true => true
               | Some false => if is_internal_system_reminder msg then fresh_turn_loop older else false
               end
           end
  end.
Definition ends_with_fresh_user_turn (messages : list Message) : bool := fresh_turn_loop (rev messages).

Definition is_fresh_user_text_message (m : Message) : bool :=
  if negb (bool_decide (role m = User)) then false
  else default false (saw_user_text true (content m) false).

Definition dynamic_system_context_message (now : DateTime) (system_dynamic : string) : option Message :=
  let trimmed := trim system_dynamic in
  if str_is_empty trimmed then None
  else Some (user_message now (SYSTEM_REMINDER_OPEN +:+ newline +:+ trimmed +:+ newline +:+ "</system-reminder>")).

(** [iter().rposition(p)]. *)
Fixpoint rposition {A} (p : A → bool) (l : list A) : option nat :=
  match l with
  | [] => None
  | x :: l' =>
      match rposition p l' with
      | Some i => Some (S i)
      | None => if p x then Some 0 else None
      end
  end.

Definition messages_with_dynamic_system_context (now : DateTime) (messages : list Message)
    (system_dynamic : string) : list Message :=
  match dynamic_system_context_message now system_dynamic with
  | None => messages
  | Some dynamic_message =>
      let insert_at := match rposition is_fresh_user_text_message messages with
                       | Some idx => idx + 1
                       | None => length messages
                       end in
      take insert_at messages ++ dynamic_message :: drop insert_at messages
  end.

(** ** Tool calls *)

(** The characters that survive: a multi-byte character never does. *)
Definition is_tool_id_char (c : string) : bool :=
  match c with
  | String b "" => is_ascii_alphanumeric b || bool_decide (c = "_") || bool_decide (c = "-")
  | _ => false
  end.
Definition sanitize_tool_id (id : string) : string :=
  if str_is_empty id then "unknown"
  else
    let sanitized := str_concat ((λ c, if is_tool_id_char c then c else "_") <$> chars id) in
    if str_is_empty sanitized then "unknown" else sanitized.

Definition is_object (v : Value) : bool :=
  match value_kind v with JObject => true | _ => false end.
Definition normalize_input_to_object (input : Value) : Value :=
  match value_kind input with JObject => input | _ => value_object [] end.
Definition input_as_object (input : Value) : Value := normalize_input_to_object input.
Definition parse_streamed_input_to_object (input : string) : Value :=
  let trimmed := trim input in
  if str_is_empty trimmed then value_object []
  else match value_from_str trimmed with
       | Some value => normalize_input_to_object value
       | None => value_null
       end.
Definition json_value_kind (v : Value) : string :=
  match value_kind v with
  | JNull => "null" | JBool => "boolean" | JNumber => "number"
  | JString => "string" | JArray => "array" | JObject => "object"
  end.
Definition validation_error (c : ToolCall) : option string :=
  if str_is_empty (trim (tc_name c)) then Some "Invalid tool call: tool name must not be empty."
  else if negb (is_object (tc_input c)) then
    Some ("Invalid tool call for '" +:+ tc_name c +:+ "': arguments must be a JSON object, got "
          +:+ json_value_kind (tc_input c) +:+ ".")
  else None.
Definition intent_from_input (input : Value) : option string :=
  match value_get input "intent" ≫= value_as_str with
  | Some s => let intent := trim s in if str_is_empty intent then None else Some intent
  | None => None
  end.
Definition refresh_intent_from_input (c : ToolCall) : ToolCall :=
  mkToolCall (tc_id c) (tc_name c) (tc_input c) (intent_from_input (tc_input c)) (tc_thought_signature c).

(** ** Connection phases *)

Inductive ConnectionPhase :=
| Authenticating | Connecting | WaitingForResponse | Streaming | Retrying (attempt max : N).
Definition phase_display (p : ConnectionPhase) : string :=
  match p with
  | Authenticating => "authenticating"
  | Connecting => "connecting"
  | WaitingForResponse => "waiting for response"
  | Streaming => "streaming"
  | Retrying attempt max => "retrying (" +:+ pretty attempt +:+ "/" +:+ pretty max +:+ ")"
  end.
End Messages.

#[global] Arguments Role_eq_dec : simpl never.
