(* ===== verification/MessageClaims.v ===== *)
(** * Theorems on conversation messages

    Tool identifiers are sanitised into the pattern providers accept; dynamic
    context goes right after the latest prompt of the user and leaves the
    history before it untouched; timestamps touch one block; and the test for a
    fresh user turn is the pattern it means. *)

From Stdlib Require Import Ascii.
From stdpp Require Import base list strings pretty.
From S2P Require Import Prelude RustString Mention RustText Message.

Open Scope string_scope.
Open Scope nat_scope.
Open Scope list_scope.

#[local] Arguments starts_with : simpl never.

(** ** Tool identifiers *)

(** [^[a-zA-Z0-9_-]+$]. *)
Definition tool_id_byte (c : Ascii.ascii) : bool :=
  is_ascii_alphanumeric c || bool_decide (c = "_"%char) || bool_decide (c = "-"%char).
Definition valid_tool_id (s : string) : bool :=
  negb (str_is_empty s) && negb (any_byte (λ c, negb (tool_id_byte c)) s).

Lemma tool_id_char_byte c : is_tool_id_char (String c "") = tool_id_byte c.
Proof. unfold is_tool_id_char, tool_id_byte. f_equal; [f_equal|]; apply bool_decide_ext; split; congruence. Qed.

Lemma tool_id_byte_ascii c : tool_id_byte c = true → is_cont c = false.
Proof. destruct c as [[] [] [] [] [] [] [] []]; vm_compute; congruence. Qed.

(** Single-byte characters from the pattern. *)
Definition plain (c : string) : Prop := ∃ b, c = String b "" ∧ tool_id_byte b = true.

Lemma plain_sanitized c : plain (if is_tool_id_char c then c else "_").
Proof.
  destruct (is_tool_id_char c) eqn:E; [|by exists "_"%char].
  destruct c as [|b [|b' r]]; try done. exists b. by rewrite <- tool_id_char_byte.
Qed.

Lemma plain_concat l :
  Forall plain l →
  starts_char (str_concat l) = true ∧ chars (str_concat l) = l
  ∧ any_byte (λ c, negb (tool_id_byte c)) (str_concat l) = false.
Proof.
  induction 1 as [|c l (b & -> & Hb) _ (IH1 & IH2 & IH3)]; [done|].
  change (str_concat (String b "" :: l)) with (String b (str_concat l)). split_and!.
  - cbn. by rewrite tool_id_byte_ascii.
  - rewrite chars_cons_start by done. by rewrite IH2.
  - cbn [any_byte]. by rewrite Hb.
Qed.

Lemma valid_chars s : any_byte (λ c, negb (tool_id_byte c)) s = false → Forall plain (chars s).
Proof.
  induction s as [|c s IH]; [constructor|]. cbn [any_byte]. intros [Hc Hs]%orb_false_iff.
  apply negb_false_iff in Hc. rewrite chars_cons_start.
  - constructor; [by exists c|auto].
  - destruct s as [|d s]; [done|]. cbn [any_byte] in Hs. apply orb_false_iff in Hs as [Hd _].
    apply negb_false_iff in Hd. cbn. by rewrite tool_id_byte_ascii.
Qed.

Lemma sanitize_map_plain l : Forall plain l → (λ c, if is_tool_id_char c then c else "_") <$> l = l.
Proof.
  induction 1 as [|c l (b & -> & Hb) _ IH]; [done|]. rewrite fmap_cons, IH.
  by rewrite tool_id_char_byte, Hb.
Qed.

Lemma sanitize_valid s : valid_tool_id s = true → sanitize_tool_id s = s.
Proof.
  unfold valid_tool_id. intros [He Hb]%andb_true_iff. apply negb_true_iff in He, Hb.
  unfold sanitize_tool_id. rewrite He, sanitize_map_plain by by apply valid_chars.
  by rewrite str_concat_chars, He.
Qed.

Lemma sanitize_is_valid s : valid_tool_id (sanitize_tool_id s) = true.
Proof.
  unfold sanitize_tool_id. destruct (str_is_empty s); [done|].
  destruct (str_is_empty (str_concat _)) eqn:E; [done|].
  unfold valid_tool_id. rewrite E. simpl.
  destruct (plain_concat ((λ c, if is_tool_id_char c then c else "_") <$> chars s)) as (_ & _ & ->); [|done].
  apply Forall_fmap, Forall_true. intros c. apply plain_sanitized.
Qed.

(** C40: Sanitising gives an identifier of the accepted pattern
    [^[a-zA-Z0-9_-]+$] for every input, leaves an identifier that already has
    the pattern unchanged (so it is idempotent), and keeps the number of
    characters of a non-empty identifier. *)
Theorem sanitized_tool_id_has_the_pattern (id : string) :
  valid_tool_id (sanitize_tool_id id) = true
  ∧ (valid_tool_id id = true → sanitize_tool_id id = id)
  ∧ sanitize_tool_id (sanitize_tool_id id) = sanitize_tool_id id
  ∧ (id ≠ "" → char_count (sanitize_tool_id id) = char_count id).
Proof.
  split_and!; [apply sanitize_is_valid|apply sanitize_valid|apply sanitize_valid, sanitize_is_valid|].
  intros Hne. unfold sanitize_tool_id, str_is_empty. rewrite (bool_decide_eq_false_2 (id = "")) by done.
  destruct (plain_concat ((λ c, if is_tool_id_char c then c else "_") <$> chars id)) as (_ & Hc & _).
  { apply Forall_fmap, Forall_true. intros c. apply plain_sanitized. }
  case_bool_decide as E.
  - exfalso. rewrite E in Hc. simpl in Hc. symmetry in Hc. apply fmap_nil_inv in Hc. by apply chars_nil in Hc.
  - unfold char_count. by rewrite Hc, length_fmap.
Qed.

(** ** Dynamic context *)

Lemma rposition_Some {A} (p : A → bool) l i :
  rposition p l = Some i → ∃ pre x post, l = pre ++ x :: post ∧ length pre = i ∧ p x = true
                                         ∧ forallb (λ y, negb (p y)) post = true.
Proof.
  revert i. induction l as [|x l IH]; intros i; simpl; [done|].
  destruct (rposition p l) as [j|] eqn:E.
  - intros [= <-]. destruct (IH j eq_refl) as (pre & y & post & -> & <- & ? & ?).
    by exists (x :: pre), y, post.
  - destruct (p x) eqn:Ep; [|done]. intros [= <-]. exists [], x, l. split_and!; try done.
    clear IH. induction l as [|y l IH]; [done|]. simpl in *.
    destruct (rposition p l); [done|]. destruct (p y); [done|]. simpl. by apply IH.
Qed.

Lemma rposition_None {A} (p : A → bool) l : rposition p l = None → forallb (λ y, negb (p y)) l = true.
Proof.
  induction l as [|y l IH]; [done|]. simpl. destruct (rposition p l); [done|].
  destruct (p y); [done|]. intros _. simpl. by apply IH.
Qed.

Lemma trim_start_id c s :
  starts_char s = true → is_whitespace (String c "") = false → trim_start (String c s) = String c s.
Proof.
  intros Hs Hc. unfold trim_start, trim_start_matches. rewrite chars_cons_start by done. cbn [drop_while].
  rewrite Hc. rewrite <- (str_concat_chars s) at 2. done.
Qed.

Lemma reminder_open_cons s : SYSTEM_REMINDER_OPEN +:+ s = String "<"%char ("system-reminder>" +:+ s).
Proof. done. Qed.

Lemma reminder_trim (body : string) :
  let text := SYSTEM_REMINDER_OPEN +:+ newline +:+ body +:+ newline +:+ "</system-reminder>" in trim text = text.
Proof.
  cbn zeta. rewrite reminder_open_cons, trim_start_solid, <- reminder_open_cons by done.
  pose proof (trim_end_append (SYSTEM_REMINDER_OPEN +:+ newline +:+ body +:+ newline) "</system-reminder>") as H.
  rewrite !append_assoc_s in H. by apply H.
Qed.

Section Context.
Context {J : Json} {T : Chrono}.

Lemma dynamic_message_shape now sys d :
  dynamic_system_context_message now sys = Some d →
  role d = User ∧ is_internal_system_reminder d = true ∧ is_fresh_user_text_message d = false.
Proof.
  unfold dynamic_system_context_message. destruct (str_is_empty (trim sys)); [done|]. intros [= <-].
  unfold is_internal_system_reminder, is_fresh_user_text_message, user_message. cbn [role content first_text].
  split_and!; [done|..].
  - rewrite reminder_open_cons, trim_start_id, <- reminder_open_cons by done. apply starts_with_spec. eauto.
  - rewrite bool_decide_eq_true_2 by done. cbn [negb saw_user_text default].
    rewrite orb_false_l. unfold is_user_text. rewrite reminder_trim.
    assert (starts_with SYSTEM_REMINDER_OPEN (SYSTEM_REMINDER_OPEN +:+ newline +:+ trim sys +:+ newline +:+ "</system-reminder>") = true) as ->
      by (apply starts_with_spec; eauto).
    by rewrite andb_false_r.
Qed.

(** Dynamic system context is inserted as one message, a system reminder
    of the user's role that is not itself a prompt: right after the latest
    message that carries text of the user, or at the end when there is none.
    Everything before it and after it is unchanged; blank context changes
    nothing. *)
Theorem dynamic_context_insertion (now : DateTime) (messages : list Message) (sys : string) :
  (trim sys = "" → messages_with_dynamic_system_context now messages sys = messages)
  ∧ (trim sys ≠ "" →
     ∃ d, role d = User ∧ is_internal_system_reminder d = true ∧ is_fresh_user_text_message d = false
     ∧ ((forallb (λ m, negb (is_fresh_user_text_message m)) messages = true
         ∧ messages_with_dynamic_system_context now messages sys = messages ++ [d])
        ∨ ∃ pre u post, messages = pre ++ u :: post ∧ is_fresh_user_text_message u = true
          ∧ forallb (λ m, negb (is_fresh_user_text_message m)) post = true
          ∧ messages_with_dynamic_system_context now messages sys = pre ++ u :: d :: post)).
Proof.
  unfold messages_with_dynamic_system_context. split.
  - intros E. unfold dynamic_system_context_message. by rewrite E.
  - intros E. destruct (dynamic_system_context_message now sys) as [d|] eqn:Ed.
    2: { unfold dynamic_system_context_message, str_is_empty in Ed. by rewrite bool_decide_eq_false_2 in Ed. }
    exists d. destruct (dynamic_message_shape _ _ _ Ed) as (? & ? & ?). split_and!; [done..|].
    destruct (rposition is_fresh_user_text_message messages) as [i|] eqn:Er.
    + right. apply rposition_Some in Er as (pre & u & post & -> & <- & Hu & Hp).
      exists pre, u, post. split_and!; [done..|].
      rewrite take_app, drop_app, take_ge, drop_ge by lia. replace (length pre + 1 - length pre) with 1 by lia.
      by rewrite <- app_assoc.
    + left. apply rposition_None in Er. by rewrite firstn_all, drop_all.
Qed.

(** ** Fresh turns *)

(** The texts of the user in a message. *)
Definition block_user_text (b : ContentBlock) : bool :=
  match b with Text text _ => is_user_text text | _ => false end.

(** A message of texts only, one of them the user's. *)
Definition is_prompt (m : Message) : bool :=
  bool_decide (role m = User) && forallb is_text (content m) && existsb block_user_text (content m).
(** A message of texts only, none of them the user's, that opens with a reminder. *)
Definition is_reminder_only (m : Message) : bool :=
  bool_decide (role m = User) && forallb is_text (content m) && negb (existsb block_user_text (content m))
  && is_internal_system_reminder m.

Lemma saw_user_text_spec blocks saw :
  saw_user_text false blocks saw
  = if forallb is_text blocks then Some (saw || existsb block_user_text blocks) else None.
Proof.
  revert saw. induction blocks as [|b blocks IH]; intros saw; [by rewrite orb_false_r|].
  destruct b; simpl; try done. rewrite IH. by rewrite orb_assoc.
Qed.

Lemma text_only_no_result blocks : forallb is_text blocks = true → existsb is_tool_result blocks = false.
Proof. induction blocks as [|[] ? IH]; simpl; try done. Qed.

Lemma fresh_step msg older :
  fresh_turn_loop (msg :: older) = is_prompt msg || (is_reminder_only msg && fresh_turn_loop older).
Proof.
  cbn [fresh_turn_loop]. unfold is_prompt, is_reminder_only. destruct (bool_decide (role msg = User)); [|done].
  cbn [negb andb]. rewrite saw_user_text_spec. destruct (forallb is_text (content msg)) eqn:Et.
  - rewrite text_only_no_result by done. destruct (content msg) as [|b bs] eqn:Ec.
    + unfold is_internal_system_reminder. by rewrite Ec.
    + destruct (existsb block_user_text (b :: bs)); [done|].
      cbn [orb andb negb]. by destruct (is_internal_system_reminder msg).
  - destruct (existsb is_tool_result (content msg)); [done|]. by destruct (content msg).
Qed.

(** The test for a fresh user turn holds exactly of the conversations that
    end with a prompt, a message of texts with one of the user's, followed only
    by system reminders. *)
Theorem fresh_turn_is_prompt_then_reminders (messages : list Message) :
  ends_with_fresh_user_turn messages = true
  ↔ ∃ pre u reminders, messages = pre ++ u :: reminders ∧ is_prompt u = true
      ∧ forallb is_reminder_only reminders = true.
Proof.
  unfold ends_with_fresh_user_turn. induction messages as [|m ms IH] using rev_ind.
  - split; [done|]. intros ([|] & ? & ? & ? & _); done.
  - rewrite rev_app_distr. cbn [rev app]. rewrite fresh_step, orb_true_iff, andb_true_iff, IH. split.
    + intros [Hp|[Hr (pre & u & rs & -> & Hu & Hrs)]].
      * exists ms, m, []. done.
      * exists pre, u, (rs ++ [m]). rewrite <- app_assoc. split_and!; [done..|].
        rewrite forallb_app, Hrs. simpl. by rewrite Hr.
    + intros (pre & u & rs & He & Hu & Hrs). destruct rs as [|r rs _] using rev_ind.
      * apply app_inj_tail in He as [-> ->]. by left.
      * right. rewrite app_comm_cons, app_assoc in He. apply app_inj_tail in He as [-> ->].
        rewrite forallb_app in Hrs. simpl in Hrs. rewrite andb_true_r in Hrs.
        apply andb_true_iff in Hrs as [? ?]. split; [done|]. eauto 10.
Qed.

(** ** Timestamps *)

Definition taggable (b : ContentBlock) : bool := is_text b || is_tool_result b.
Definition tag_block (text_tag tool_tag : string) (b : ContentBlock) : ContentBlock :=
  match b with
  | Text text cc => Text (text_tag +:+ " " +:+ text) cc
  | ToolResult id text e => ToolResult id (tool_tag +:+ " " +:+ text) e
  | _ => b
  end.

Lemma tag_blocks_tagged t1 t2 bs : tag_blocks t1 t2 true bs = bs.
Proof. induction bs as [|[] bs IH]; simpl; rewrite ?IH; done. Qed.

Lemma tag_blocks_spec t1 t2 pre b post :
  forallb (λ x, negb (taggable x)) pre = true → taggable b = true →
  tag_blocks t1 t2 false (pre ++ b :: post) = pre ++ tag_block t1 t2 b :: post.
Proof.
  intros Hp Hb. induction pre as [|x pre IH]; simpl.
  - destruct b; simpl in Hb; try done; simpl; by rewrite tag_blocks_tagged.
  - simpl in Hp. apply andb_true_iff in Hp as [Hx Hp]. destruct x; simpl in Hx; try done; simpl; by rewrite IH.
Qed.

Lemma tag_blocks_none t1 t2 bs : forallb (λ x, negb (taggable x)) bs = true → tag_blocks t1 t2 false bs = bs.
Proof. induction bs as [|[] bs IH]; simpl; intros; try done; by rewrite IH. Qed.

(** A stamped message differs from the original in its first text or tool
    result only. *)
Lemma with_timestamp_spec m ts pre b post :
  timestamp m = Some ts → role m = User → is_internal_system_reminder m = false →
  content m = pre ++ b :: post → forallb (λ x, negb (taggable x)) pre = true → taggable b = true →
  with_timestamp m
  = mkMessage User (pre ++ tag_block ("[" +:+ format_timestamp ts +:+ "]") (tool_result_tag m ts) b :: post)
      (Some ts) (tool_duration_ms m).
Proof.
  intros Ht Hr Hi Hc Hp Hb. unfold with_timestamp, should_skip_timestamp_injection. rewrite Ht, Hr, Hi.
  simpl. by rewrite Hc, tag_blocks_spec.
Qed.

Lemma with_timestamp_untouched m :
  timestamp m = None ∨ role m = Assistant ∨ is_internal_system_reminder m = true
  ∨ forallb (λ x, negb (taggable x)) (content m) = true →
  with_timestamp m = m.
Proof.
  unfold with_timestamp, should_skip_timestamp_injection. destruct (timestamp m) eqn:Et; [|done].
  intros [?|[->|[->|Hc]]]; [done|done|by rewrite orb_true_r|].
  destruct (_ || _); [done|]. rewrite tag_blocks_none by done. destruct m; simpl in *. by subst.
Qed.
End Context.
