(* ===== verification/Compaction.v ===== *)
(** * Conversation compaction

    crates/jcode-compaction-core/src/lib.rs: what is dropped, summarised or cut
    from a conversation that no longer fits.  Sizes that the code keeps in
    [usize] and compares with megabyte budgets are [N]; positions in the list
    of messages are [nat].  [char::is_alphanumeric] and [str::to_lowercase]
    need the Unicode tables and are parameters (class [Unicode]). *)

From stdpp Require Import base list strings pretty gmap.
From S2P Require Import Prelude RustString RustText Message.

Open Scope string_scope.
Open Scope nat_scope.
Open Scope list_scope.

Class Unicode := {
  to_lowercase : string → string;
  is_alphanumeric : string → bool;
}.

(** ** Constants *)

Definition DEFAULT_TOKEN_BUDGET : N := 200000.
Definition RECENT_TURNS_TO_KEEP : nat := 10.
Definition MIN_TURNS_TO_KEEP : nat := 2.
Definition EMERGENCY_TOOL_RESULT_MAX_CHARS : N := 4000.
Definition EMERGENCY_IMAGE_MAX_CHARS : N := 1024.
Definition PAYLOAD_IMAGE_CHAR_BUDGET : N := 12 * 1024 * 1024.
Definition CHARS_PER_TOKEN : N := 4.
Definition IMAGE_TOKEN_COST : N := 1600.
Definition SYSTEM_OVERHEAD_TOKENS : N := 18000.
Definition TOKEN_HISTORY_WINDOW : nat := 20.
Definition EMBED_MAX_CHARS_PER_MSG : nat := 512.
Definition EMBEDDING_HISTORY_WINDOW : nat := 10.
Definition SEMANTIC_EMBED_CACHE_CAPACITY : nat := 256.

Definition SUMMARY_PROMPT : string :=
  "Summarize our conversation so you can continue this work later." +:+ newline +:+ newline
  +:+ "Write in natural language with these sections:" +:+ newline
  +:+ "- **Context:** What we're working on and why (1-2 sentences)" +:+ newline
  +:+ "- **What we did:** Key actions taken, files changed, problems solved" +:+ newline
  +:+ "- **Current state:** What works, what's broken, what's next" +:+ newline
  +:+ "- **User preferences:** Specific requirements or decisions they made" +:+ newline +:+ newline
  +:+ "Be concise but preserve important details. You can search the full conversation later if you need exact error messages or code snippets.".

(** [s.len()]. *)
Definition str_len (s : string) : N := N.of_nat (String.length s).

Definition USIZE_MAX : N := 2 ^ 64 - 1.
Definition saturating_add (a b : N) : N := N.min (a + b) USIZE_MAX.

(** ** Data *)

Record Summary := mkSummary {
  sum_text : string;
  sum_openai_encrypted_content : option string;
  sum_covers_up_to_turn : nat;
  sum_original_turn_count : nat;
}.

Inductive CompactionAction :=
| NoAction
| BackgroundStarted (trigger : string)
| HardCompacted (dropped : nat).

Definition compacted_summary_text_block (summary : string) : string :=
  "## Previous Conversation Summary" +:+ newline +:+ newline +:+ summary
  +:+ newline +:+ newline +:+ "---" +:+ newline +:+ newline.

(** ** Cutting text at a character boundary *)

Definition truncate_str_boundary (value : string) (max_bytes : N) : string :=
  if (str_len value <=? max_bytes)%N then value
  else str_take (floor_boundary value (Nat.min (N.to_nat max_bytes) (String.length value))) value.

Definition tail_str_boundary (value : string) (max_bytes : N) : string :=
  if (str_len value <=? max_bytes)%N then value
  else
    let start := String.length value - N.to_nat max_bytes in
    str_drop (ceil_boundary (String.length value - start) value start) value.

Definition emergency_truncated_tool_result (content : string) (max_chars : N) : string :=
  let head := truncate_str_boundary content (max_chars / 2) in
  let tail := tail_str_boundary content (max_chars / 4) in
  let truncated_len := (str_len content - (str_len head + str_len tail))%N in
  head +:+ newline +:+ newline +:+ "... [" +:+ pretty truncated_len
  +:+ " chars truncated for context recovery] ..." +:+ newline +:+ newline +:+ tail.

Section Compaction.
Context {J : Json} {T : Chrono}.

(** ** The prompt *)

Definition block_transcript (block : ContentBlock) : string :=
  match block with
  | Text text _ => text +:+ newline
  | ToolUse _ name input _ => "[Tool: " +:+ name +:+ " - " +:+ value_to_string input +:+ "]" +:+ newline
  | ToolResult _ content _ =>
      let truncated := if (500 <? str_len content)%N
                       then truncate_str_boundary content 500 +:+ "... (truncated)"
                       else content in
      "[Result: " +:+ truncated +:+ "]" +:+ newline
  | Reasoning _ | ReasoningTrace _ | AnthropicThinking _ _ | OpenAIReasoning _ _ _ _ => ""
  | Image _ _ => "[Image]" +:+ newline
  | OpenAICompaction _ => "[OpenAI native compaction]" +:+ newline
  end.

Definition message_transcript (msg : Message) : string :=
  "**" +:+ (match role msg with User => "User" | Assistant => "Assistant" end) +:+ ":**" +:+ newline
  +:+ str_concat (block_transcript <$> content msg) +:+ newline.

Definition build_compaction_conversation_text (messages : list Message) (existing_summary : option Summary) : string :=
  (match existing_summary with
   | Some summary => "## Previous Summary" +:+ newline +:+ newline +:+ sum_text summary
                     +:+ newline +:+ newline +:+ "## New Conversation" +:+ newline +:+ newline
   | None => ""
   end) +:+ str_concat (message_transcript <$> messages).

Definition TRUNCATED_MARKER : string :=
  newline +:+ newline +:+ "... [earlier conversation truncated to fit context window]" +:+ newline.

Definition build_compaction_prompt (messages : list Message) (existing_summary : option Summary)
    (max_prompt_chars : N) : string :=
  let conversation_text := build_compaction_conversation_text messages existing_summary in
  let overhead := (str_len SUMMARY_PROMPT + 50)%N in
  let conversation_text :=
    if (max_prompt_chars <? str_len conversation_text + overhead)%N && (overhead <? max_prompt_chars)%N
    then truncate_str_boundary conversation_text (max_prompt_chars - overhead) +:+ TRUNCATED_MARKER
    else conversation_text in
  conversation_text +:+ newline +:+ newline +:+ "---" +:+ newline +:+ newline +:+ SUMMARY_PROMPT.

(** ** The cutoff *)

(** The tool ids seen in the kept part: calls, and results without a call. *)
Record ToolIds := mkToolIds { available : gset string; missing : gset string }.

Definition scan_block (ids : ToolIds) (block : ContentBlock) : ToolIds :=
  match block with
  | ToolUse id _ _ _ => mkToolIds ({[id]} ∪ available ids) (missing ids ∖ {[id]})
  | ToolResult tool_use_id _ _ =>
      if bool_decide (tool_use_id ∈ available ids) then ids
      else mkToolIds (available ids) ({[tool_use_id]} ∪ missing ids)
  | _ => ids
  end.
Definition scan_message (ids : ToolIds) (msg : Message) : ToolIds := fold_left scan_block (content msg) ids.

(** The backward walk over [messages[..cutoff]], newest first; [idx] is the
    number of messages before the one at the head. *)
Fixpoint cutoff_walk (newest_first : list Message) (ids : ToolIds) : nat :=
  match newest_first with
  | [] => 0
  | msg :: older =>
      let ids' := scan_message ids msg in
      if bool_decide (missing ids' = ∅) then length older else cutoff_walk older ids'
  end.

Definition safe_compaction_cutoff (messages : list Message) (initial_cutoff : nat) : nat :=
  let cutoff := Nat.min initial_cutoff (length messages) in
  let ids := fold_left scan_message (drop cutoff messages) (mkToolIds ∅ ∅) in
  if bool_decide (missing ids = ∅) then cutoff
  else cutoff_walk (rev (take cutoff messages)) ids.

(** ** Sizes *)

Definition sum_N (l : list N) : N := foldr N.add 0%N l.
Definition opt_len (o : option string) : N := match o with Some s => str_len s | None => 0%N end.

Definition block_char_count (block : ContentBlock) : N :=
  match block with
  | Text text _ | Reasoning text | ReasoningTrace text => str_len text
  | AnthropicThinking thinking signature => str_len thinking + str_len signature
  | OpenAIReasoning id summary encrypted_content status =>
      str_len id + sum_N (str_len <$> summary) + opt_len encrypted_content + opt_len status
  | ToolUse _ _ input _ => str_len (value_to_string input) + 50
  | ToolResult _ content _ => str_len content + 20
  | Image _ _ => IMAGE_TOKEN_COST * CHARS_PER_TOKEN
  | OpenAICompaction encrypted_content => str_len encrypted_content
  end%N.
Definition content_char_count (blocks : list ContentBlock) : N := sum_N (block_char_count <$> blocks).
Definition message_char_count (msg : Message) : N := content_char_count (content msg).

Definition summary_payload_char_count (summary : Summary) : N :=
  match sum_openai_encrypted_content summary with
  | Some value => str_len value
  | None => str_len (sum_text summary)
  end.

Definition estimate_compaction_tokens_from_chars (total_chars token_budget : N) : N :=
  let msg_tokens := (total_chars / CHARS_PER_TOKEN)%N in
  let overhead := if (DEFAULT_TOKEN_BUDGET / 2 <=? token_budget)%N then SYSTEM_OVERHEAD_TOKENS else 0%N in
  (msg_tokens + overhead)%N.
Definition estimate_compaction_tokens (summary : option Summary) (active_message_chars token_budget : N) : N :=
  let summary_chars := match summary with Some s => summary_payload_char_count s | None => 0%N end in
  estimate_compaction_tokens_from_chars (summary_chars + active_message_chars) token_budget.

Definition effective_context_tokens_from_usage `{Unicode} (provider_name : string) (input_tokens : N)
    (cache_read_input_tokens cache_creation_input_tokens : option N) : N :=
  if (input_tokens =? 0)%N then 0%N
  else
    let cache_read := default 0%N cache_read_input_tokens in
    let cache_creation := default 0%N cache_creation_input_tokens in
    let provider_name := to_lowercase provider_name in
    let split_cache_accounting :=
      str_contains "anthropic" provider_name || str_contains "claude" provider_name
      || (0 <? cache_creation)%N || (input_tokens <? cache_read)%N in
    if split_cache_accounting
    then saturating_add (saturating_add input_tokens cache_read) cache_creation
    else input_tokens.

(** ** Semantic excerpts *)

Definition push_semantic_excerpt (target source : string) (max_chars : nat) : string :=
  if str_is_empty source then target
  else (if str_is_empty target then target else target +:+ " ") +:+ take_chars max_chars source.

Definition goal_block (text : string) (block : ContentBlock) : string :=
  match block with
  | Text block_text _ => push_semantic_excerpt text block_text 200
  | ToolResult _ content _ => push_semantic_excerpt text content 100
  | _ => text
  end.
Definition semantic_goal_text (messages : list Message) : string :=
  fold_left (λ text msg, fold_left goal_block (content msg) text) messages "".
Definition semantic_message_text (msg : Message) : string :=
  fold_left (λ text block, match block with
                           | Text block_text _ => push_semantic_excerpt text block_text EMBED_MAX_CHARS_PER_MSG
                           | _ => text
                           end) (content msg) "".

(** ** The emergency summary *)

Definition looks_like_file_reference (word : string) : bool :=
  (str_contains "/" word || str_contains "." word)
  && (3 <? String.length word) && (String.length word <? 120)
  && negb (starts_with "http" word)
  && (str_contains ".rs" word || str_contains ".ts" word || str_contains ".py" word
      || str_contains ".toml" word || str_contains ".json" word
      || starts_with "src/" word || starts_with "./" word).

Definition is_reference_edge `{Unicode} (c : string) : bool :=
  negb (is_alphanumeric c) && negb (bool_decide (c = "/")) && negb (bool_decide (c = "."))
  && negb (bool_decide (c = "_")) && negb (bool_decide (c = "-")).
Definition clean_file_reference `{Unicode} (word : string) : string :=
  str_concat (drop_while_end is_reference_edge (drop_while is_reference_edge (chars word))).

Definition extract_file_mentions `{Unicode} (text : string) (file_mentions : list string) : list string :=
  fold_left (λ acc word,
    if looks_like_file_reference word then
      let cleaned := clean_file_reference word in
      if str_is_empty cleaned then acc else acc ++ [cleaned]
    else acc) (split_whitespace text) file_mentions.

Definition collect_block `{Unicode} (hints : gset string * list string) (block : ContentBlock) : gset string * list string :=
  match block with
  | ToolUse _ name _ _ => ({[name]} ∪ hints.1, hints.2)
  | Text text _ => (hints.1, extract_file_mentions text hints.2)
  | _ => hints
  end.
Definition collect_emergency_summary_hints `{Unicode} (hints : gset string * list string) (msg : Message) :
    gset string * list string := fold_left collect_block (content msg) hints.

(** [v.dedup()]: consecutive equal elements. *)
Fixpoint dedup (l : list string) : list string :=
  match l with
  | [] => []
  | x :: l' => match l' with
               | y :: _ => if bool_decide (x = y) then dedup l' else x :: dedup l'
               | [] => [x]
               end
  end.

Definition emergency_note (dropped_count : nat) (pre_tokens token_budget : N) : string :=
  "**[Emergency compaction]**: " +:+ pretty dropped_count
  +:+ " messages were dropped to recover from context overflow. The conversation had ~"
  +:+ pretty (pre_tokens / 1000)%N +:+ "k tokens which exceeded the "
  +:+ pretty (token_budget / 1000)%N +:+ "k limit.".

Definition build_emergency_summary_text `{Unicode} (existing_summary : option string) (dropped_count : nat)
    (pre_tokens token_budget : N) (dropped_messages : list Message) : string :=
  let existing := match existing_summary with
                  | Some e => if str_is_empty e then [] else [e]
                  | None => []
                  end in
  let hints := fold_left collect_emergency_summary_hints dropped_messages (∅, []) in
  let tools := sort_strings (elements hints.1) in
  let files := dedup (sort_strings hints.2) in
  String.concat (newline +:+ newline)
    (existing ++ [emergency_note dropped_count pre_tokens token_budget]
     ++ (if bool_decide (hints.1 = ∅) then [] else ["Tools used: " +:+ String.concat ", " tools])
     ++ (match files with [] => [] | _ => ["Files referenced: " +:+ String.concat ", " (take 30 files)] end)).

(** ** Emergency truncation *)

Definition truncate_tool_result (max_chars : N) (block : ContentBlock) : ContentBlock * nat :=
  match block with
  | ToolResult id content is_error =>
      if (max_chars <? str_len content)%N
      then (ToolResult id (emergency_truncated_tool_result content max_chars) is_error, 1)
      else (block, 0)
  | _ => (block, 0)
  end.

Definition image_omitted_text (media_type : string) (original_len : N) : string :=
  "[Image omitted during emergency context recovery: media_type=" +:+ media_type
  +:+ ", original_base64_chars=" +:+ pretty original_len
  +:+ ". Rely on adjacent browser/tool text, screenshots saved to disk, or re-open/re-screenshot if visual details are needed.]".

Definition truncate_payload (max_tool_result_chars max_image_chars : N) (block : ContentBlock) : ContentBlock * nat :=
  match block with
  | ToolResult _ _ _ => truncate_tool_result max_tool_result_chars block
  | Image media_type data =>
      if (max_image_chars <? str_len data)%N
      then (Text (image_omitted_text media_type (str_len data)) None, 1)
      else (block, 0)
  | _ => (block, 0)
  end.

(** The double loop: the messages rewritten and the number of changes. *)
Definition set_content (msg : Message) (blocks : list ContentBlock) : Message :=
  mkMessage (role msg) blocks (timestamp msg) (tool_duration_ms msg).
Definition rewrite_blocks (f : ContentBlock → ContentBlock * nat) (messages : list Message) : list Message * nat :=
  ((λ m, set_content m ((λ b, (f b).1) <$> content m)) <$> messages,
   sum_list ((λ m, sum_list ((λ b, (f b).2) <$> content m)) <$> messages)).

Definition emergency_truncate_tool_results (messages : list Message) (max_chars : N) : list Message * nat :=
  rewrite_blocks (truncate_tool_result max_chars) messages.
Definition emergency_truncate_large_payloads (messages : list Message)
    (max_tool_result_chars max_image_chars : N) : list Message * nat :=
  rewrite_blocks (truncate_payload max_tool_result_chars max_image_chars) messages.

(** ** Images that make the request too large *)

Definition stripped_image_text (media_type : string) (original_len : N) : string :=
  "[Image omitted during request-size recovery: media_type=" +:+ media_type
  +:+ ", original_base64_chars=" +:+ pretty original_len
  +:+ ". The request body exceeded the provider size limit; older images were dropped. Rely on adjacent browser/tool text, screenshots saved to disk, or re-open/re-screenshot if visual details are needed.]".

(** The index loop: [(content_index, block_index, payload_len)] of the images. *)
Definition images_in (ci : nat) (blocks : list ContentBlock) : list (nat * nat * N) :=
  omap (λ '(bi, b), match b with Image _ data => Some (ci, bi, str_len data) | _ => None end)
       (imap (λ bi b, (bi, b)) blocks).
Definition image_index (contents : list (list ContentBlock)) : list (nat * nat * N) :=
  mjoin (imap images_in contents).
Definition image_total (contents : list (list ContentBlock)) : N :=
  fold_left (λ total '(_, _, len), saturating_add total len) (image_index contents) 0%N.

(** [if let Image { .. } = &mut contents[ci][bi] { .. }]: the indices come from
    the first loop, so they are in range. *)
Definition strip_image_at (ci bi : nat) (contents : list (list ContentBlock)) : option (list (list ContentBlock)) :=
  blocks ← contents !! ci;
  block ← blocks !! bi;
  match block with
  | Image media_type data =>
      Some (<[ci := <[bi := Text (stripped_image_text media_type (str_len data)) None]> blocks]> contents)
  | _ => None
  end.

Fixpoint strip_loop (images : list (nat * nat * N)) (target total : N) (stripped : nat)
    (contents : list (list ContentBlock)) : list (list ContentBlock) * nat :=
  match images with
  | [] => (contents, stripped)
  | (ci, bi, payload_len) :: rest =>
      if (total <=? target)%N then (contents, stripped)
      else match strip_image_at ci bi contents with
           | Some contents' => strip_loop rest target (total - payload_len)%N (S stripped) contents'
           | None => strip_loop rest target total stripped contents
           end
  end.

Definition strip_large_images_in_contents (contents : list (list ContentBlock)) (target_total_chars : N) :
    list (list ContentBlock) * nat :=
  let total := image_total contents in
  if (total <=? target_total_chars)%N then (contents, 0)
  else strip_loop (image_index contents) target_total_chars total 0 contents.

Definition emergency_strip_large_images (messages : list Message) (target_total_chars : N) : list Message * nat :=
  let '(contents, stripped) := strip_large_images_in_contents (content <$> messages) target_total_chars in
  (zip_with set_content messages contents, stripped).
End Compaction.

(** ** Recognising the error *)

Definition no_digit (o : option Ascii.ascii) : bool :=
  match o with Some c => negb (is_ascii_digit c) | None => true end.

(** [match_indices(code).any(..)]: [pre] has been passed; [skip] bytes of the
    current match are still to be passed. *)
Fixpoint status_code_from (code : string) (prev : option Ascii.ascii) (skip : nat) (s : string) : bool :=
  match s with
  | "" => false
  | String c s' =>
      match skip with
      | S k => status_code_from code (Some c) k s'
      | O =>
          if starts_with code s
          then (no_digit prev && no_digit (first_byte (str_drop (String.length code) s)))
               || status_code_from code (Some c) (String.length code - 1) s'
          else status_code_from code (Some c) 0 s'
      end
  end.
Definition contains_independent_status_code (haystack code : string) : bool :=
  status_code_from code None 0 haystack.

Definition is_request_payload_too_large_error (error : string) : bool :=
  let lower := to_ascii_lowercase error in
  str_contains "request_too_large" lower
  || str_contains "request too large" lower
  || str_contains "payload too large" lower
  || str_contains "request entity too large" lower
  || str_contains "request exceeds the maximum size" lower
  || str_contains "exceeds the maximum size" lower
  || contains_independent_status_code lower "413".
