(* ===== verification/CompactionClaims.v ===== *)
(** * Theorems on conversation compaction

    The cutoff never separates a tool result from its call and drops as much as
    it can; images are dropped oldest first and no more than needed; cut texts
    stay within their bounds and stay valid UTF-8; a status code is recognised
    only when it stands alone. *)

From Stdlib Require Import Ascii.
From stdpp Require Import base list strings pretty gmap.
From S2P Require Import Prelude RustString Mention RustText Message Compaction.

Open Scope string_scope.
Open Scope nat_scope.
Open Scope list_scope.

#[local] Arguments starts_with : simpl never.

(** ** The cutoff *)

Section Cutoff.
Context {J : Json} {T : Chrono}.

Definition block_use (b : ContentBlock) : option string :=
  match b with ToolUse id _ _ _ => Some id | _ => None end.
Definition block_result (b : ContentBlock) : option string :=
  match b with ToolResult id _ _ => Some id | _ => None end.
Definition blocks_of (ms : list Message) : list ContentBlock := ms ≫= content.

Lemma blocks_of_cons m ms : blocks_of (m :: ms) = content m ++ blocks_of ms.
Proof. done. Qed.

(** Every tool result in these messages has its call in these messages. *)
Definition closed (ms : list Message) : Prop :=
  ∀ id, id ∈ omap block_result (blocks_of ms) → id ∈ omap block_use (blocks_of ms).

(** What the two sets hold after the blocks [bs] have been scanned. *)
Definition scanned (bs : list ContentBlock) (ids : ToolIds) : Prop :=
  ∀ id, (id ∈ available ids ↔ id ∈ omap block_use bs)
        ∧ (id ∈ missing ids ↔ id ∈ omap block_result bs ∧ id ∉ omap block_use bs).

Lemma omap_snoc {A B} (f : A → option B) l x : omap f (l ++ [x]) = omap f l ++ option_list (f x).
Proof. rewrite omap_app. simpl. by destruct (f x). Qed.

Lemma scan_block_scanned bs ids b : scanned bs ids → scanned (bs ++ [b]) (scan_block ids b).
Proof.
  intros H id. specialize (H id) as [Ha Hm]. rewrite !omap_snoc.
  destruct b; simpl; rewrite ?app_nil_r; try done.
  - set_solver.
  - case_bool_decide as E; simpl; rewrite elem_of_app, list_elem_of_singleton.
    + split; [done|]. rewrite Hm. split; [tauto|]. intros [[?| ->] ?]; [done|tauto].
    + set_solver.
Qed.

Lemma scan_message_scanned bs ids m : scanned bs ids → scanned (bs ++ content m) (scan_message ids m).
Proof.
  unfold scan_message. generalize (content m) as cs. intros cs. revert bs ids.
  induction cs as [|c cs IH]; intros bs ids H; simpl; [by rewrite app_nil_r|].
  rewrite cons_middle, app_assoc. apply IH. by apply scan_block_scanned.
Qed.

Lemma scan_messages_scanned bs ids ms : scanned bs ids → scanned (bs ++ blocks_of ms) (fold_left scan_message ms ids).
Proof.
  revert bs ids. induction ms as [|m ms IH]; intros bs ids H; cbn [fold_left]; [by rewrite app_nil_r|].
  rewrite blocks_of_cons, app_assoc. apply IH. by apply scan_message_scanned.
Qed.

Lemma scanned_perm bs bs' ids : bs ≡ₚ bs' → scanned bs ids → scanned bs' ids.
Proof. intros Hp H id. specialize (H id). by rewrite !Hp in H. Qed.

Lemma scanned_closed ms ids : scanned (blocks_of ms) ids → missing ids = ∅ ↔ closed ms.
Proof.
  intros H. split.
  - intros E id Hr. destruct (decide (id ∈ omap block_use (blocks_of ms))); [done|].
    destruct (H id) as [_ Hm]. set_solver.
  - intros Hc. apply set_eq. intros id. destruct (H id) as [_ ->]. specialize (Hc id). set_solver.
Qed.

Lemma cutoff_walk_spec older kept ids :
  scanned (blocks_of kept) ids → ¬ closed kept →
  let c := cutoff_walk (rev older) ids in
  c ≤ length older
  ∧ (∀ c', c < c' ≤ length older → ¬ closed (drop c' (older ++ kept)))
  ∧ (closed (drop c (older ++ kept)) ∨ c = 0).
Proof.
  revert kept ids. induction older as [|m older IH] using rev_ind; intros kept ids Hs Hn.
  { simpl. split_and!; [done|intros; lia|by right]. }
  rewrite rev_app_distr. cbn [rev app cutoff_walk]. rewrite length_app. simpl (length [m]).
  assert (scanned (blocks_of (m :: kept)) (scan_message ids m)) as Hs'.
  { eapply scanned_perm; [|by apply scan_message_scanned]. rewrite blocks_of_cons. apply Permutation_app_comm. }
  rewrite <- app_assoc. cbn [app]. destruct (bool_decide (missing (scan_message ids m) = ∅)) eqn:E.
  - apply bool_decide_eq_true in E. rewrite length_rev. split_and!; [lia| |].
    + intros c' Hc'. assert (c' = S (length older)) as -> by lia.
      rewrite drop_app, drop_ge by lia. replace (S (length older) - length older) with 1 by lia. done.
    + left. rewrite drop_app_length. by apply (scanned_closed _ _ Hs').
  - apply bool_decide_eq_false in E. assert (¬ closed (m :: kept)) as Hn' by by rewrite <- (scanned_closed _ _ Hs').
    destruct (IH _ _ Hs' Hn') as (H1 & H2 & H3). split_and!; [lia| |done].
    intros c' Hc'. destruct (decide (c' = length older + 1)) as [->|].
    + rewrite drop_app, drop_ge by lia. replace (length older + 1 - length older) with 1 by lia. done.
    + apply H2. lia.
Qed.

Lemma safe_cutoff_spec (messages : list Message) (initial_cutoff : nat) :
  let bound := Nat.min initial_cutoff (length messages) in
  let c := safe_compaction_cutoff messages initial_cutoff in
  c ≤ bound
  ∧ (∀ c', c < c' ≤ bound → ¬ closed (drop c' messages))
  ∧ (closed (drop c messages) ∨ c = 0).
Proof.
  cbn zeta. unfold safe_compaction_cutoff. set (cut := Nat.min _ _).
  pose proof (scan_messages_scanned [] (mkToolIds ∅ ∅) (drop cut messages)) as Hs.
  specialize (Hs ltac:(intros id; set_solver)). simpl in Hs.
  case_bool_decide as E.
  - split_and!; [done|intros; lia|]. left. by apply (scanned_closed _ _ Hs).
  - destruct (cutoff_walk_spec (take cut messages) _ _ Hs) as (H1 & H2 & H3).
    { by rewrite <- (scanned_closed _ _ Hs). }
    rewrite take_drop in *. rewrite length_take_le in * by lia. done.
Qed.

(** The cutoff is the largest one, not above the one asked for, that keeps
    no tool result without its call, and 0 when there is none: what is kept is
    closed unless nothing is dropped, and no larger cutoff would do. *)
Theorem compaction_cutoff_is_largest_safe (messages : list Message) (initial_cutoff : nat) :
  let bound := Nat.min initial_cutoff (length messages) in
  let c := safe_compaction_cutoff messages initial_cutoff in
  c ≤ bound
  ∧ (∀ c', c < c' ≤ bound → ¬ closed (drop c' messages))
  ∧ (closed (drop c messages) ∨ c = 0).
Proof. apply safe_cutoff_spec. Qed.
End Cutoff.

(** ** Dropping images *)

Lemma fmap_zip_with_same {A B C} (g : A → C) (f : A → B → A) l k :
  (∀ x y, g (f x y) = g x) → length l ≤ length k → g <$> zip_with f l k = g <$> l.
Proof.
  intros Hg. revert k. induction l as [|x l IH]; intros [|y k] Hl; simpl in *; try done; try lia.
  rewrite Hg, IH by lia. done.
Qed.

Section Images.
Context {J : Json} {T : Chrono}.

Definition image_len (b : ContentBlock) : option N :=
  match b with Image _ data => Some (str_len data) | _ => None end.
Definition omit_image (b : ContentBlock) : ContentBlock :=
  match b with Image media_type data => Text (stripped_image_text media_type (str_len data)) None | _ => b end.

(** The payloads of the images of a transcript, oldest first. *)
Definition image_lens (contents : list (list ContentBlock)) : list N := omap image_len (concat contents).

(** The reference: replace the first [k] images of a transcript. *)
Fixpoint omit_blocks (k : nat) (bs : list ContentBlock) : list ContentBlock :=
  match bs with
  | [] => []
  | b :: bs' => match k, b with
                | S k', Image _ _ => omit_image b :: omit_blocks k' bs'
                | _, _ => b :: omit_blocks k bs'
                end
  end.
Fixpoint omit_contents (k : nat) (contents : list (list ContentBlock)) : list (list ContentBlock) :=
  match contents with
  | [] => []
  | bs :: rest => omit_blocks k bs :: omit_contents (k - length (omap image_len bs)) rest
  end.

(** How many images go before the rest fits. *)
Fixpoint strip_count (lens : list N) (target total : N) : nat :=
  match lens with
  | [] => 0
  | l :: lens' => if (total <=? target)%N then 0 else S (strip_count lens' target (total - l)%N)
  end.

Definition images_from (ci bi : nat) (bs : list ContentBlock) : list (nat * nat * N) :=
  omap (λ '(i, b), match b with Image _ data => Some (ci, i, str_len data) | _ => None end)
       (imap (λ i b, (bi + i, b)) bs).
Definition index_from (ci : nat) (contents : list (list ContentBlock)) : list (nat * nat * N) :=
  mjoin (imap (λ i, images_in (ci + i)) contents).

Lemma images_from_cons ci bi b bs :
  images_from ci bi (b :: bs)
  = match b with Image _ data => [(ci, bi, str_len data)] | _ => [] end ++ images_from ci (S bi) bs.
Proof.
  unfold images_from. rewrite imap_cons. simpl. rewrite Nat.add_0_r.
  rewrite (imap_ext _ (λ i b, (S bi + i, b))) by (intros; simpl; f_equal; lia).
  by destruct b.
Qed.

Lemma images_in_from ci bs : images_in ci bs = images_from ci 0 bs.
Proof. done. Qed.

Lemma index_from_cons ci bs rest : index_from ci (bs :: rest) = images_from ci 0 bs ++ index_from (S ci) rest.
Proof.
  unfold index_from. rewrite imap_cons. simpl. rewrite Nat.add_0_r, images_in_from. f_equal. f_equal.
  apply imap_ext. intros. simpl. f_equal. lia.
Qed.

Lemma strip_loop_done images target total n contents :
  (total ≤ target)%N → strip_loop images target total n contents = (contents, n).
Proof. intros H%N.leb_le. destruct images as [|[[? ?] ?] ?]; [done|]. simpl. by rewrite H. Qed.

Lemma strip_count_done lens target total : (total ≤ target)%N → strip_count lens target total = 0.
Proof. intros H%N.leb_le. destruct lens; [done|]. simpl. by rewrite H. Qed.

Lemma omit_blocks_0 bs : omit_blocks 0 bs = bs.
Proof. induction bs as [|b bs IH]; [done|]. simpl. by rewrite IH. Qed.

(** What is left of the total when the first [k] images are gone. *)
Definition spend (total : N) (lens : list N) (k : nat) : N := fold_left N.sub (take k lens) total.

Lemma strip_image_at_here pre bpre b bs rest :
  is_image b = true →
  strip_image_at (length pre) (length bpre) (pre ++ (bpre ++ b :: bs) :: rest)
  = Some (pre ++ (bpre ++ omit_image b :: bs) :: rest).
Proof.
  intros Hb. unfold strip_image_at. rewrite list_lookup_middle by done. cbn [mbind option_bind].
  rewrite list_lookup_middle by done. cbn [mbind option_bind]. destruct b; try done.
  rewrite <- (Nat.add_0_r (length pre)), insert_app_r. simpl.
  rewrite <- (Nat.add_0_r (length bpre)), insert_app_r. done.
Qed.

(** The loop over the images of one message. *)
Lemma strip_loop_blocks bs bpre pre rest tail target total n :
  let lens := omap image_len bs in
  let k := strip_count lens target total in
  strip_loop (images_from (length pre) (length bpre) bs ++ tail) target total n (pre ++ (bpre ++ bs) :: rest)
  = strip_loop tail target (spend total lens k) (n + k) (pre ++ (bpre ++ omit_blocks k bs) :: rest).
Proof.
  revert bpre total n. induction bs as [|b bs IH]; intros bpre total n.
  { cbn. by rewrite Nat.add_0_r. }
  cbn zeta. rewrite images_from_cons.
  assert (∀ x, bpre ++ x :: bs = (bpre ++ [x]) ++ bs) as Hsnoc by (intros; by rewrite <- app_assoc).
  assert (∀ k, bpre ++ b :: omit_blocks k bs = (bpre ++ [b]) ++ omit_blocks k bs) as Hsnoc'
    by (intros; by rewrite <- app_assoc).
  assert (∀ x : ContentBlock, length (bpre ++ [x]) = S (length bpre)) as Hlen by (intros; rewrite length_app; simpl; lia).
  destruct (is_image b) eqn:Hb.
  - destruct b as [| | | | | | |mt data|]; try done. cbn [app strip_loop omap list_omap image_len].
    cbn [strip_count]. destruct (total <=? target)%N eqn:E.
    + apply N.leb_le in E. rewrite omit_blocks_0, Nat.add_0_r. unfold spend. cbn [take fold_left].
      by rewrite strip_loop_done.
    + rewrite strip_image_at_here by done. rewrite Hsnoc, <- (Hlen (omit_image (Image mt data))), IH.
      cbn [omit_blocks]. unfold spend. cbn [take fold_left]. rewrite <- app_assoc. f_equal. lia.
  - assert (image_len b = None) as Hi by by destruct b.
    replace (match b with Image _ d => [(length pre, length bpre, str_len d)] | _ => [] end) with (@nil (nat * nat * N))
      by by destruct b.
    cbn [app omap list_omap]. rewrite Hi, Hsnoc, <- (Hlen b), IH. change (omap image_len bs) with (omap image_len bs).
    assert (∀ k, omit_blocks k (b :: bs) = b :: omit_blocks k bs) as Ho by (intros []; by destruct b).
    by rewrite Ho, <- app_assoc.
Qed.

Lemma strip_count_le lens target total : strip_count lens target total ≤ length lens.
Proof.
  revert total. induction lens as [|l lens IH]; intros total; simpl; [lia|].
  destruct (_ <=? _)%N; [lia|]. specialize (IH (total - l)%N). lia.
Qed.

(** Stopping early means that the target is met. *)
Lemma strip_count_early lens target total :
  strip_count lens target total < length lens → (spend total lens (strip_count lens target total) ≤ target)%N.
Proof.
  revert total. induction lens as [|l lens IH]; intros total; simpl; [lia|].
  destruct (total <=? target)%N eqn:E; [intros _; by apply N.leb_le in E|].
  unfold spend in *. cbn [take fold_left]. intros H. apply IH. lia.
Qed.

Lemma strip_count_app l1 l2 target total :
  strip_count (l1 ++ l2) target total
  = strip_count l1 target total + strip_count l2 target (spend total l1 (strip_count l1 target total)).
Proof.
  revert total. induction l1 as [|l l1 IH]; intros total; [done|]. simpl.
  destruct (total <=? target)%N eqn:E.
  - unfold spend. simpl. apply N.leb_le in E. by rewrite strip_count_done.
  - rewrite IH. done.
Qed.

Lemma omit_blocks_all k bs : length (omap image_len bs) ≤ k → omit_blocks k bs = omit_image <$> bs.
Proof.
  revert k. induction bs as [|b bs IH]; intros k Hk; [done|].
  destruct b; simpl in *; try (destruct k; rewrite (IH _ Hk); done).
  destruct k; [lia|]. by rewrite (IH k (le_S_n _ _ Hk)).
Qed.

Lemma omit_contents_0 contents : omit_contents 0 contents = contents.
Proof. induction contents as [|bs rest IH]; [done|]. cbn [omit_contents]. by rewrite Nat.sub_0_l, omit_blocks_0, IH. Qed.

(** The loop over the whole transcript. *)
Lemma strip_loop_contents contents pre target total n :
  let k := strip_count (image_lens contents) target total in
  strip_loop (index_from (length pre) contents) target total n (pre ++ contents) = (pre ++ omit_contents k contents, n + k).
Proof.
  revert pre total n. induction contents as [|bs rest IH]; intros pre total n.
  { cbn. by rewrite Nat.add_0_r. }
  cbn zeta. rewrite index_from_cons.
  pose proof (strip_loop_blocks bs [] pre rest (index_from (S (length pre)) rest) target total n) as H.
  cbn [app length] in H. rewrite H. clear H.
  unfold image_lens. cbn [concat]. rewrite omap_app, strip_count_app.
  change (omap image_len (concat rest)) with (image_lens rest).
  set (k1 := strip_count (omap image_len bs) target total).
  set (t1 := spend total (omap image_len bs) k1).
  replace (S (length pre)) with (length (pre ++ [omit_blocks k1 bs])) by (rewrite length_app; simpl; lia).
  assert (pre ++ omit_blocks k1 bs :: rest = (pre ++ [omit_blocks k1 bs]) ++ rest) as -> by by rewrite <- app_assoc.
  rewrite IH. set (k2 := strip_count (image_lens rest) target t1).
  rewrite <- app_assoc. cbn [app omit_contents]. f_equal; [|lia]. do 2 f_equal.
  - destruct (decide (k1 < length (omap image_len bs))) as [Hlt|].
    + assert (k2 = 0) as ->; [|by rewrite Nat.add_0_r]. by apply strip_count_done, strip_count_early.
    + pose proof (strip_count_le (omap image_len bs) target total). by rewrite !omit_blocks_all by lia.
  - f_equal. destruct (decide (k1 < length (omap image_len bs))) as [Hlt|].
    + assert (k2 = 0) as -> by by apply strip_count_done, strip_count_early. lia.
    + pose proof (strip_count_le (omap image_len bs) target total). lia.
Qed.

Lemma length_omit_contents k contents : length (omit_contents k contents) = length contents.
Proof. revert k. induction contents; intros k; simpl; [done|]. by f_equal. Qed.

Lemma omit_blocks_lens k bs : omap image_len (omit_blocks k bs) = drop k (omap image_len bs).
Proof.
  revert k. induction bs as [|b bs IH]; intros k; [by destruct k|].
  destruct b, k; simpl; rewrite ?IH; done.
Qed.

(** The images that are left are the newest ones. *)
Lemma omit_contents_lens k contents : image_lens (omit_contents k contents) = drop k (image_lens contents).
Proof.
  revert k. induction contents as [|bs rest IH]; intros k; [by destruct k|].
  unfold image_lens in *. cbn [omit_contents concat]. by rewrite !omap_app, omit_blocks_lens, IH, drop_app.
Qed.

Lemma strip_count_least lens target :
  let k := strip_count lens target (sum_N lens) in
  (sum_N (drop k lens) ≤ target)%N ∧ ∀ j, j < k → (target < sum_N (drop j lens))%N.
Proof.
  induction lens as [|l lens [IH1 IH2]]; simpl; [split; [lia|intros; lia]|].
  destruct (l + sum_N lens <=? target)%N eqn:E.
  - apply N.leb_le in E. split; [done|intros; lia].
  - apply N.leb_gt in E. replace (l + sum_N lens - l)%N with (sum_N lens) by lia. split; [done|].
    intros [|j] Hj; [done|]. apply IH2. lia.
Qed.

Lemma images_from_lens ci bi bs : snd <$> images_from ci bi bs = omap image_len bs.
Proof.
  revert bi. induction bs as [|b bs IH]; intros bi; [done|]. rewrite images_from_cons, fmap_app, IH.
  by destruct b.
Qed.

Lemma index_from_lens ci contents : snd <$> index_from ci contents = image_lens contents.
Proof.
  revert ci. induction contents as [|bs rest IH]; intros ci; [done|].
  rewrite index_from_cons, fmap_app, IH, images_from_lens. unfold image_lens. cbn [concat]. by rewrite omap_app.
Qed.

Lemma image_total_sum contents : (sum_N (image_lens contents) ≤ USIZE_MAX)%N → image_total contents = sum_N (image_lens contents).
Proof.
  unfold image_total. change (image_index contents) with (index_from 0 contents).
  rewrite <- (index_from_lens 0 contents). generalize (index_from 0 contents) as l. intros l.
  assert (∀ acc, (acc + sum_N (snd <$> l) ≤ USIZE_MAX)%N →
    fold_left (λ total '(_, _, len), saturating_add total len) l acc = (acc + sum_N (snd <$> l))%N) as H.
  { induction l as [|[[c b] n] l IH]; intros acc Hs; [cbn; lia|].
    rewrite fmap_cons in *. cbn [fold_left sum_N foldr snd] in *. change (foldr N.add 0%N) with sum_N in *.
    unfold saturating_add at 2. rewrite N.min_l by lia. rewrite IH by lia. lia. }
  intros Hs. rewrite H; lia.
Qed.

(** Recovering from a request that is too large replaces the first [k]
    images of the transcript, oldest first, by text markers and returns [k]:
    the images left are the newest ones and fit the target, one image fewer
    would not have been enough, and nothing else of any message changes.  The
    total is kept in a [usize]. *)
Theorem images_dropped_oldest_first (messages : list Message) (target : N) :
  (sum_N (image_lens (content <$> messages)) ≤ USIZE_MAX)%N →
  let r := emergency_strip_large_images messages target in
  let lens := image_lens (content <$> messages) in
  content <$> r.1 = omit_contents r.2 (content <$> messages)
  ∧ (λ m, set_content m []) <$> r.1 = (λ m, set_content m []) <$> messages
  ∧ image_lens (content <$> r.1) = drop r.2 lens
  ∧ (sum_N (image_lens (content <$> r.1)) ≤ target)%N
  ∧ ∀ j, j < r.2 → (target < sum_N (drop j lens))%N.
Proof.
  intros Hs. cbn zeta. unfold emergency_strip_large_images, strip_large_images_in_contents.
  rewrite image_total_sum by done.
  set (lens := image_lens (content <$> messages)) in *.
  pose proof (strip_loop_contents (content <$> messages) [] target (sum_N lens) 0) as Hl.
  cbn [app length Nat.add] in Hl. fold lens in Hl. set (k := strip_count lens target (sum_N lens)) in *.
  assert ((if (sum_N lens <=? target)%N then (content <$> messages, 0)
           else strip_loop (image_index (content <$> messages)) target (sum_N lens) 0 (content <$> messages))
          = (omit_contents k (content <$> messages), k)) as ->.
  { destruct (sum_N lens <=? target)%N eqn:E; [|exact Hl]. apply N.leb_le in E.
    by rewrite strip_loop_done in Hl. }
  cbn [fst snd].
  assert (content <$> zip_with set_content messages (omit_contents k (content <$> messages))
          = omit_contents k (content <$> messages)) as Hc.
  { apply fmap_zip_with_r; [done|]. by rewrite length_omit_contents, length_fmap. }
  destruct (strip_count_least lens target) as [H1 H2]. rewrite Hc, omit_contents_lens. split_and!; try done.
  apply fmap_zip_with_same; [done|]. by rewrite length_omit_contents, length_fmap.
Qed.
End Images.

(** A JSON and a clock for the witnesses: values are texts, times are numbers. *)
Definition text_json : Json :=
  {| Value := string; value_kind := λ s, if str_is_empty s then JNull else JObject; value_to_string := id;
     value_get := λ _ _, None; value_as_str := Some; value_null := ""; value_string := id;
     value_object := λ _, "{}"; value_from_str := Some |}.
Definition tick_chrono : Chrono :=
  {| DateTime := N; to_rfc3339_millis := λ n, pretty n;
     checked_sub_millis := λ n z, if (z <=? Z.of_N n)%Z then Some (Z.to_N (Z.of_N n - z)) else None |}.

Definition demo_images : list (@Message text_json tick_chrono) :=
  [mkMessage User [Image "png" "aaaa"; Text "look" None; Image "png" "bbb"] None None;
   mkMessage User [Image "png" "cc"] None None].

Lemma images_dropped_oldest_first_witness :
  (emergency_strip_large_images demo_images 5).2 = 1
  ∧ image_lens (content <$> (emergency_strip_large_images demo_images 5).1) = [3; 2]%N.
Proof.
  split; [reflexivity|].
  destruct (images_dropped_oldest_first demo_images 5 ltac:(vm_compute; discriminate)) as (_ & _ & H & _).
  rewrite H. reflexivity.
Defined.

(** ** Theorems on the texts of compaction

    Cut tool results, the size of the compaction prompt and the recognition of
    a status code (crates/jcode-compaction-core/src/lib.rs, and the same
    recogniser of crates/jcode-provider-core/src/failover.rs). *)

#[local] Arguments starts_with : simpl never.

(** ** Decimal numbers *)

Lemma utf8_from_append k a b : utf8_from k a = true → utf8 b = true → utf8_from k (a +:+ b) = true.
Proof.
  revert k. induction a as [|c a IH]; intros k Ha Hb.
  - cbn [utf8_from] in Ha. destruct k; [done|]. by destruct k.
  - change (String c a +:+ b) with (String c (a +:+ b)). destruct k; cbn [utf8_from] in *;
      apply andb_true_iff in Ha as [-> Ha]; simpl; by apply IH.
Qed.

Lemma utf8_append a b : utf8 a = true → utf8 b = true → utf8 (a +:+ b) = true.
Proof. apply utf8_from_append. Qed.

Lemma pretty_N_char_utf8 d s : utf8 s = true → utf8 (String (pretty_N_char (d mod 10)) s) = true.
Proof.
  intros Hs. apply (utf8_append (String _ "")); [|done].
  assert (d mod 10 < 10)%N as H by (apply N.mod_lt; lia). revert H. generalize (d mod 10)%N as n. intros n Hn.
  assert (n = 0 ∨ n = 1 ∨ n = 2 ∨ n = 3 ∨ n = 4 ∨ n = 5 ∨ n = 6 ∨ n = 7 ∨ n = 8 ∨ n = 9)%N as H by lia.
  by repeat destruct H as [->|H]; subst.
Qed.

Lemma pretty_N_go_spec d x s :
  (x < 10 ^ N.of_nat d)%N → utf8 s = true →
  utf8 (pretty_N_go x s) = true ∧ String.length (pretty_N_go x s) ≤ d + String.length s.
Proof.
  revert x s. induction d as [|d IH]; intros x s Hx Hs.
  { simpl in Hx. assert (x = 0)%N as -> by lia. rewrite pretty_N_go_0. split; [done|lia]. }
  destruct (decide (x = 0)%N) as [->|Hne]; [rewrite pretty_N_go_0; split; [done|lia]|].
  rewrite pretty_N_go_step by lia.
  rewrite Nat2N.inj_succ, N.pow_succ_r' in Hx.
  destruct (IH (x `div` 10)%N (String (pretty_N_char (x `mod` 10)) s)) as [H1 H2].
  - apply N.Div0.div_lt_upper_bound. lia.
  - by apply pretty_N_char_utf8.
  - split; [done|]. simpl in H2. lia.
Qed.

Lemma pretty_N_utf8 (n : N) : utf8 (pretty n) = true.
Proof.
  unfold pretty, pretty_N. destruct (decide (n = 0)%N); [done|].
  apply (pretty_N_go_spec (S (N.to_nat n))); [|done].
  rewrite Nat2N.inj_succ, N2Nat.id. pose proof (N.pow_gt_lin_r 10 (N.succ n)). lia.
Qed.

Lemma pretty_N_length (d : nat) (n : N) :
  d ≠ 0 → (n < 10 ^ N.of_nat d)%N → String.length (pretty n) ≤ d.
Proof.
  intros Hd Hn. unfold pretty, pretty_N. destruct (decide (n = 0)%N); [simpl; lia|].
  destruct (pretty_N_go_spec d n "") as [_ H]; [done..|]. simpl in H. lia.
Qed.

(** ** Heads and tails *)

Lemma truncate_str_boundary_eq s n : truncate_str_boundary s n = truncate_str s (N.to_nat n).
Proof.
  unfold truncate_str_boundary, truncate_str, str_len. destruct (_ <=? _)%N eqn:E.
  - apply N.leb_le in E. assert (String.length s ≤ N.to_nat n) as ->%Nat.leb_le by lia. done.
  - apply N.leb_gt in E. assert (N.to_nat n < String.length s) as H by lia.
    rewrite (proj2 (Nat.leb_gt _ _) H). by rewrite Nat.min_l by lia.
Qed.

Lemma ceil_boundary_spec fuel s start :
  start ≤ String.length s → String.length s - start ≤ fuel →
  let r := ceil_boundary fuel s start in
  start ≤ r ≤ String.length s ∧ is_char_boundary s r = true
  ∧ ∀ i, start ≤ i < r → is_char_boundary s i = false.
Proof.
  revert start. induction fuel as [|fuel IH]; intros start Hle Hf; cbn [ceil_boundary].
  - assert (start = String.length s) as -> by lia. split_and!; [lia|lia| |intros; lia].
    unfold is_char_boundary. destruct (_ =? _) eqn:E; [done|]. rewrite str_drop_all by done.
    by rewrite Nat.eqb_refl.
  - destruct ((start <? String.length s) && negb (is_char_boundary s start)) eqn:E.
    + apply andb_true_iff in E as [E1 E2]. apply Nat.ltb_lt in E1. apply negb_true_iff in E2.
      destruct (IH (S start)) as (H1 & H2 & H3); [lia..|]. split_and!; [lia|lia|done|].
      intros i Hi. destruct (decide (i = start)) as [->|]; [done|]. apply H3. lia.
    + split_and!; [lia|lia| |intros; lia]. apply andb_false_iff in E as [E|E].
      * apply Nat.ltb_ge in E. assert (start = String.length s) as -> by lia.
        unfold is_char_boundary. destruct (_ =? 0) eqn:E0; [done|]. rewrite str_drop_all by done.
        by rewrite Nat.eqb_refl.
      * by apply negb_false_iff in E.
Qed.

Lemma tail_str_boundary_spec s n :
  (str_len (tail_str_boundary s n) ≤ n)%N
  ∧ (∃ pre, s = pre +:+ tail_str_boundary s n)
  ∧ (utf8 s = true → utf8 (tail_str_boundary s n) = true).
Proof.
  unfold tail_str_boundary. destruct (str_len s <=? n)%N eqn:E.
  - apply N.leb_le in E. split_and!; [done| |done]. by exists "".
  - apply N.leb_gt in E. unfold str_len in *. cbn zeta. set (start := _ - N.to_nat n).
    destruct (ceil_boundary_spec (String.length s - start) s start) as ((H1 & H2) & H3 & _); [lia|lia|].
    set (r := ceil_boundary _ _ _) in *. split_and!.
    + rewrite length_str_drop. lia.
    + exists (str_take r s). by rewrite str_take_drop_s.
    + intros Hu. by apply boundary_cut.
Qed.

Lemma str_len_append a b : str_len (a +:+ b) = (str_len a + str_len b)%N.
Proof. unfold str_len. rewrite length_append_s. lia. Qed.

(** A head and a tail that do not overlap leave a middle. *)
Lemma head_tail_middle (s head tail post pre : string) :
  s = head +:+ post → s = pre +:+ tail → String.length head + String.length tail ≤ String.length s →
  ∃ mid, s = head +:+ mid +:+ tail.
Proof.
  intros Hh Ht Hle. exists (str_take (String.length s - String.length head - String.length tail) post).
  assert (String.length s = String.length head + String.length post) as H1 by (rewrite Hh at 1; apply length_append_s).
  assert (String.length s = String.length pre + String.length tail) as H2 by (rewrite Ht at 1; apply length_append_s).
  assert (tail = str_drop (String.length s - String.length head - String.length tail) post) as Htail.
  { transitivity (str_drop (String.length pre) s); [by rewrite Ht, str_drop_append|].
    replace (String.length pre) with (String.length head + (String.length s - String.length head - String.length tail)) by lia.
    rewrite str_drop_add. f_equal. rewrite Hh. apply str_drop_append. }
  rewrite Hh at 1. f_equal. rewrite Htail at 2. by rewrite str_take_drop_s.
Qed.

Definition cut_note (n : N) : string :=
  newline +:+ newline +:+ "... [" +:+ pretty n +:+ " chars truncated for context recovery] ..." +:+ newline +:+ newline.

Lemma cut_note_utf8 n : utf8 (cut_note n) = true.
Proof.
  unfold cut_note. do 2 (apply utf8_append; [done|]). apply utf8_append; [done|].
  apply utf8_append; [apply pretty_N_utf8|done].
Qed.

Lemma cut_note_length n : (n < 2 ^ 64)%N → (str_len (cut_note n) ≤ 71)%N.
Proof.
  intros Hn. unfold cut_note. rewrite !str_len_append.
  assert (String.length (pretty n) ≤ 20) by (apply pretty_N_length; [lia|simpl; lia]).
  cbn [str_len]. unfold str_len in *. simpl (String.length newline). cbn. lia.
Qed.

(** An oversized tool result is cut to a head of at most half the limit
    and a tail of at most a quarter, both at character boundaries, with the
    exact number of bytes left out in between: the three parts make up the
    original text, and valid UTF-8 stays valid.  From a limit of 284 on the
    result is within the limit, so a second pass cuts nothing more. *)
Theorem cut_tool_result_bounds (content : string) (max_chars : N) :
  (max_chars < str_len content < 2 ^ 64)%N →
  ∃ head mid tail, content = head +:+ mid +:+ tail
  ∧ emergency_truncated_tool_result content max_chars = head +:+ cut_note (str_len mid) +:+ tail
  ∧ (str_len head ≤ max_chars / 2)%N ∧ (str_len tail ≤ max_chars / 4)%N
  ∧ (utf8 content = true → utf8 (emergency_truncated_tool_result content max_chars) = true)
  ∧ ((284 ≤ max_chars)%N → (str_len (emergency_truncated_tool_result content max_chars) ≤ max_chars)%N).
Proof.
  intros [Hmax H64]. unfold emergency_truncated_tool_result.
  rewrite truncate_str_boundary_eq. set (head := truncate_str _ _). set (tail := tail_str_boundary _ _).
  destruct (truncate_str_spec content (N.to_nat (max_chars / 2))) as (Hh1 & (post & Hh2) & Hh3).
  destruct (tail_str_boundary_spec content (max_chars / 4)) as (Ht1 & (pre & Ht2) & Ht3).
  fold head in Hh1, Hh2, Hh3. fold tail in Ht1, Ht2, Ht3.
  assert (str_len head ≤ max_chars / 2)%N as Hh by (unfold str_len; lia).
  assert (max_chars / 2 + max_chars / 4 + 71 ≤ max_chars + 71 - max_chars / 4 ∧ max_chars / 2 + max_chars / 4 ≤ max_chars)%N as Hq.
  { pose proof (N.Div0.mul_div_le max_chars 2). pose proof (N.Div0.mul_div_le max_chars 4).
    pose proof (N.mul_succ_div_gt max_chars 2 ltac:(lia)).
    pose proof (N.mul_succ_div_gt max_chars 4 ltac:(lia)). lia. }
  destruct (head_tail_middle content head tail post pre Hh2 Ht2) as [mid Hmid].
  { unfold str_len in *. lia. }
  assert (str_len content = str_len head + (str_len mid + str_len tail))%N as Hlen
    by (rewrite Hmid at 1; by rewrite !str_len_append).
  exists head, mid, tail. replace (str_len content - (str_len head + str_len tail))%N with (str_len mid) by lia.
  assert (head +:+ newline +:+ newline +:+ "... [" +:+ pretty (str_len mid)
    +:+ " chars truncated for context recovery] ..." +:+ newline +:+ newline +:+ tail
    = head +:+ cut_note (str_len mid) +:+ tail) as -> by (unfold cut_note; by rewrite !append_assoc_s).
  split_and!; try done.
  - intros Hu. apply utf8_append; [auto|]. apply utf8_append; [apply cut_note_utf8|auto].
  - intros H284. rewrite !str_len_append. pose proof (cut_note_length (str_len mid) ltac:(lia)).
    pose proof (N.mul_succ_div_gt max_chars 4 ltac:(lia)). lia.
Qed.

Definition demo_long : string := String.concat "" (replicate 30 "0123456789").

Lemma cut_tool_result_bounds_witness : (str_len (emergency_truncated_tool_result demo_long 284) ≤ 284)%N.
Proof.
  destruct (cut_tool_result_bounds demo_long 284 ltac:(vm_compute; done)) as (h & m & t & _ & _ & _ & _ & _ & H).
  apply H. lia.
Defined.

(** ** The size of the prompt *)

(** A compaction prompt that had to be cut is at most 18 bytes over the
    limit it was cut for, and it does exceed it when the cut falls on a
    character boundary: the allowance of 50 bytes is smaller than the marker
    and the separator, which take 68. *)
Theorem compaction_prompt_size `{J : Json} `{T : Chrono} (messages : list Message) (summary : option Summary) (limit : N) :
  (str_len SUMMARY_PROMPT + 50 < limit)%N →
  (limit < str_len (build_compaction_conversation_text messages summary) + (str_len SUMMARY_PROMPT + 50))%N →
  let cut := (limit - (str_len SUMMARY_PROMPT + 50))%N in
  let text := build_compaction_conversation_text messages summary in
  (str_len (build_compaction_prompt messages summary limit) ≤ limit + 18)%N
  ∧ (is_char_boundary text (N.to_nat cut) = true →
     str_len (build_compaction_prompt messages summary limit) = limit + 18)%N.
Proof.
  intros Hlim Hbig. cbn zeta. unfold build_compaction_prompt.
  set (text := build_compaction_conversation_text messages summary) in *. cbn zeta.
  rewrite (proj2 (N.ltb_lt _ _) Hbig), (proj2 (N.ltb_lt _ _) Hlim). cbn [andb].
  rewrite truncate_str_boundary_eq, !str_len_append.
  change (str_len TRUNCATED_MARKER) with 61%N. change (str_len newline) with 1%N. change (str_len "---") with 3%N.
  change (str_len SUMMARY_PROMPT) with 508%N in *. set (cut := N.to_nat (limit - (508 + 50))).
  destruct (truncate_str_spec text cut) as (H1 & _ & _). split; [unfold str_len; lia|].
  intros Hb. assert (String.length (truncate_str text cut) = cut) as Hc; [|unfold str_len; lia].
  unfold truncate_str. unfold str_len in Hbig. destruct (String.length text <=? cut) eqn:E.
  { apply Nat.leb_le in E. lia. }
  assert (floor_boundary text cut = cut) as ->.
  { destruct cut as [|c]; [done|]. cbn [floor_boundary]. by rewrite Hb. }
  apply length_str_take. apply Nat.leb_gt in E. lia.
Qed.

Definition demo_prompt : list (@Message text_json tick_chrono) := [mkMessage User [Text "hello" None] None None].

Lemma compaction_prompt_size_witness : str_len (build_compaction_prompt demo_prompt None 570) = 588%N.
Proof.
  destruct (compaction_prompt_size demo_prompt None 570 ltac:(vm_compute; done) ltac:(vm_compute; done)) as [_ H].
  rewrite H; reflexivity.
Defined.

(** ** Status codes *)

Definition all_digits (s : string) : bool := negb (any_byte (λ c, negb (is_ascii_digit c)) s).

(** The byte before the rest, when [prev] comes before [pre]. *)
Definition last_from (prev : option Ascii.ascii) (pre : string) : option Ascii.ascii :=
  match last_byte pre with Some c => Some c | None => prev end.

Lemma last_byte_cons c s : last_byte (String c s) = last_from (Some c) s.
Proof.
  revert c. induction s as [|a s IH]; intros c; [done|].
  change (last_byte (String c (String a s))) with (last_byte (String a s)).
  unfold last_from at 1. rewrite IH. unfold last_from. by destruct (last_byte s).
Qed.

Lemma last_from_cons prev c s : last_from prev (String c s) = last_from (Some c) s.
Proof. unfold last_from at 1. rewrite last_byte_cons. unfold last_from. by destruct (last_byte s). Qed.

(** A standing occurrence after [prev], not before [skip] bytes are passed. *)
Definition stands (code : string) (prev : option Ascii.ascii) (skip : nat) (s : string) : Prop :=
  ∃ pre post, s = pre +:+ code +:+ post ∧ skip ≤ String.length pre
              ∧ no_digit (last_from prev pre) = true ∧ no_digit (first_byte post) = true.

Lemma status_code_sound code prev skip s : status_code_from code prev skip s = true → stands code prev skip s.
Proof.
  revert prev skip. induction s as [|c s IH]; intros prev skip; cbn [status_code_from]; [done|].
  assert (∀ k, status_code_from code (Some c) k s = true → stands code prev (S k) (String c s)) as Hstep.
  { intros k (pre & post & -> & ? & ? & ?)%IH. exists (String c pre), post. rewrite last_from_cons.
    split_and!; try done. simpl. lia. }
  destruct skip as [|k]; [|apply Hstep].
  assert (∀ k, stands code prev k (String c s) → stands code prev 0 (String c s)) as Hweak.
  { intros k (pre & post & ? & ? & ? & ?). exists pre, post. split_and!; try done. lia. }
  destruct (starts_with code (String c s)) eqn:E; [|intros H; by eapply Hweak, Hstep].
  intros [[H1 H2]%andb_true_iff|H]%orb_true_iff; [|by eapply Hweak, Hstep].
  apply starts_with_spec in E as [post Hp]. exists "", post. rewrite Hp in H2 |- *.
  rewrite str_drop_append in H2. split_and!; try done.
Qed.

Lemma append_split (a b c d : string) :
  a +:+ b = c +:+ d → String.length a ≤ String.length c → ∃ r, c = a +:+ r.
Proof.
  revert c. induction a as [|x a IH]; intros c He Hl; [by exists c|].
  destruct c as [|y c]; [simpl in Hl; lia|]. change (String x (a +:+ b) = String y (c +:+ d)) in He.
  injection He as -> He. destruct (IH c He) as [r ->]; [simpl in Hl; lia|]. by exists r.
Qed.

Lemma digits_last c pre r : all_digits (String c pre +:+ r) = true → no_digit (last_from None (String c pre)) = false.
Proof.
  unfold all_digits. revert c. induction pre as [|d pre IH]; intros c H.
  - apply negb_true_iff in H. change (any_byte (λ c, negb (is_ascii_digit c)) (String c r) = false) in H.
    cbn [any_byte] in H. apply orb_false_iff in H as [H _]. apply negb_false_iff in H. cbn. by rewrite H.
  - rewrite last_from_cons. unfold last_from. rewrite last_byte_cons, <- last_from_cons with (prev := None).
    replace (match last_from None (String d pre) with Some c => Some c | None => Some c end)
      with (last_from None (String d pre)) by (rewrite last_from_cons; unfold last_from; by destruct (last_byte pre)).
    apply IH. apply negb_true_iff in H. apply negb_true_iff.
    change (any_byte (λ c, negb (is_ascii_digit c)) (String c (String d pre +:+ r)) = false) in H.
    cbn [any_byte] in H. by apply orb_false_iff in H as [_ H].
Qed.

Lemma status_code_complete code prev skip s :
  code ≠ "" → all_digits code = true → stands code prev skip s → status_code_from code prev skip s = true.
Proof.
  intros Hne Hd. revert prev skip. induction s as [|c s IH]; intros prev skip (pre & post & Hs & Hk & Hb & Ha).
  { destruct pre; [|done]. by destruct code. }
  cbn [status_code_from].
  assert (∀ k, k ≤ String.length pre - 1 → pre ≠ "" → status_code_from code (Some c) k s = true) as Hstep.
  { intros k Hle Hp. destruct pre as [|c' pre]; [done|].
    change (String c s = String c' (pre +:+ code +:+ post)) in Hs. injection Hs as <- Hs.
    apply IH. exists pre, post. rewrite last_from_cons in Hb. simpl in Hle. split_and!; try done. lia. }
  destruct skip as [|k].
  2: { apply Hstep; [lia|]. intros ->. simpl in Hk. lia. }
  destruct (starts_with code (String c s)) eqn:E.
  - destruct pre as [|c' pre].
    + apply orb_true_iff. left. change (String c s = code +:+ post) in Hs.
      rewrite Hs, str_drop_append, Ha, andb_true_r. done.
    + apply orb_true_iff. right. apply Hstep; [|done].
      destruct (decide (String.length code ≤ String.length (String c' pre))) as [|Hlt]; [lia|]. exfalso.
      apply starts_with_spec in E as [x Hx]. rewrite Hs in Hx.
      destruct (append_split _ _ _ _ Hx) as [r Hr]; [lia|].
      rewrite Hr in Hd. apply digits_last in Hd. rewrite last_from_cons in Hb, Hd. congruence.
  - apply Hstep; [lia|]. intros ->. change (String c s = code +:+ post) in Hs.
    assert (starts_with code (String c s) = true); [|congruence]. apply starts_with_spec. by exists post.
Qed.

(** A status code, a non-empty run of digits, is recognised in an error
    text exactly when the text contains it with no digit right before or right
    after it; scanning the non-overlapping matches only loses no such
    occurrence. *)
Theorem status_code_stands_alone (haystack code : string) :
  code ≠ "" → all_digits code = true →
  contains_independent_status_code haystack code = true
  ↔ ∃ pre post, haystack = pre +:+ code +:+ post
      ∧ no_digit (last_byte pre) = true ∧ no_digit (first_byte post) = true.
Proof.
  intros Hne Hd. unfold contains_independent_status_code. split.
  - intros (pre & post & -> & _ & Hb & Ha)%status_code_sound. exists pre, post. split_and!; try done.
    unfold last_from in Hb. by destruct (last_byte pre).
  - intros (pre & post & -> & Hb & Ha). apply status_code_complete; [done..|]. exists pre, post.
    split_and!; try done; [lia|]. unfold last_from. by destruct (last_byte pre).
Qed.

Lemma status_code_stands_alone_witness : contains_independent_status_code "code 4130 413" "413" = true.
Proof.
  apply (status_code_stands_alone "code 4130 413" "413"); [discriminate|reflexivity|].
  exists "code 4130 ", "". split_and!; reflexivity.
Defined.
