(* ===== verification/Manager.v ===== *)
(** * The compaction manager

    crates/jcode-base/src/compaction.rs: the state that decides when a
    conversation is compacted and how much of it is live.  The manager does not
    own the messages: every operation takes the caller's list.  A background
    task is [Running] with the messages it summarises until the environment
    finishes it ([Finished]); [generate_compaction_artifact] is what it
    computes.  The provider, the embedding model and the cache hash are
    parameters.  Log lines and wall-clock waits are left out; waiting for a
    task takes the outcome that arrives in time, if any, as an argument.
    [None] is a panic.

    Also the compaction settings of crates/jcode-config-types, the replay limit
    of crates/jcode-provider-openai/src/request.rs, the persisted state of
    crates/jcode-session-types and the cosine similarity of
    crates/jcode-embedding. *)

From Stdlib Require Import Floats.SpecFloat.
From stdpp Require Import base list strings pretty gmap.
From S2P Require Import Prelude RustString RustText Float32 Message Compaction.

Open Scope string_scope.
Open Scope nat_scope.
Open Scope list_scope.

(** ** Settings *)

Inductive CompactionMode := Reactive | Proactive | Semantic.

Definition mode_as_str (m : CompactionMode) : string :=
  match m with Reactive => "reactive" | Proactive => "proactive" | Semantic => "semantic" end.
Definition mode_parse (input : string) : option CompactionMode :=
  let s := to_ascii_lowercase (trim input) in
  if bool_decide (s = "reactive") then Some Reactive
  else if bool_decide (s = "proactive") then Some Proactive
  else if bool_decide (s = "semantic") then Some Semantic
  else None.

Record CompactionConfig := mkConfig {
  cfg_mode : CompactionMode;
  cfg_lookahead_turns : N;
  cfg_ewma_alpha : f32;
  cfg_proactive_floor : f32;
  cfg_min_samples : nat;
  cfg_stall_window : nat;
  cfg_min_turns_between_compactions : nat;
  cfg_topic_shift_threshold : f32;
  cfg_relevance_keep_threshold : f32;
  cfg_goal_window_turns : nat;
}.
Definition config_default : CompactionConfig :=
  mkConfig Reactive 15 (F32.of_decimal 3 1) (F32.of_decimal 40 2) 3 5 10
    (F32.of_decimal 45 2) (F32.of_decimal 65 2) 5.

Definition COMPACTION_THRESHOLD : f32 := F32.of_decimal 80 2.
Definition CRITICAL_THRESHOLD : f32 := F32.of_decimal 95 2.
Definition MANUAL_COMPACT_MIN_THRESHOLD : f32 := F32.of_decimal 10 2.

(** ** Native compaction payloads *)

Definition OPENAI_ENCRYPTED_CONTENT_PROVIDER_MAX_CHARS : N := 10485760.
Definition OPENAI_ENCRYPTED_CONTENT_SAFE_MAX_CHARS : N := 9500000.
Definition openai_encrypted_content_is_sendable (encrypted_content : string) : bool :=
  (str_len encrypted_content <=? OPENAI_ENCRYPTED_CONTENT_SAFE_MAX_CHARS)%N.
Definition openai_encrypted_content_fallback_summary (len : N) : string :=
  "OpenAI native compaction state was discarded because its encrypted payload was " +:+ pretty len
  +:+ " chars, above Jcode's safe replay limit of " +:+ pretty OPENAI_ENCRYPTED_CONTENT_SAFE_MAX_CHARS
  +:+ " chars (provider hard limit: " +:+ pretty OPENAI_ENCRYPTED_CONTENT_PROVIDER_MAX_CHARS
  +:+ " chars). Earlier compacted details may be unavailable; use the recent visible messages and session search/tools if exact prior details are needed.".

(** [text] after its native payload of [len] characters has been dropped. *)
Definition fallback_text (text : string) (len : N) : string :=
  let fallback := openai_encrypted_content_fallback_summary len in
  if str_is_empty (trim text) then fallback
  else if negb (str_contains "OpenAI native compaction state was discarded" text)
  then text +:+ newline +:+ newline +:+ fallback
  else text.

(** The summary without a payload that cannot be sent; [None] when it stays. *)
Definition discard_oversized (summary : Summary) : option Summary :=
  match sum_openai_encrypted_content summary with
  | Some encrypted_content =>
      if openai_encrypted_content_is_sendable encrypted_content then None
      else Some (mkSummary (fallback_text (sum_text summary) (str_len encrypted_content)) None
                   (sum_covers_up_to_turn summary) (sum_original_turn_count summary))
  | None => None
  end.

(** ** Embeddings *)

Class Embedder := {
  embed : string → option (list f32);
  semantic_cache_key : string → N;
}.

Definition cosine_similarity (a b : list f32) : f32 :=
  if negb (length a =? length b) || (length a =? 0) then F32.zero
  else
    let dot := f32_sum (zip_with F32.mul a b) in
    let norm_a := f32_sqrt (f32_sum ((λ x, F32.mul x x) <$> a)) in
    let norm_b := f32_sqrt (f32_sum ((λ x, F32.mul x x) <$> b)) in
    if SFeqb norm_a F32.zero || SFeqb norm_b F32.zero then F32.zero
    else f32_div dot (F32.mul norm_a norm_b).

(** [mean[i] += v] for the components of one embedding, up to [dim]. *)
Fixpoint add_embedding (mean emb : list f32) : list f32 :=
  match mean, emb with
  | x :: mean', v :: emb' => F32.add x v :: add_embedding mean' emb'
  | _, _ => mean
  end.
Definition mean_embedding (embeddings : list (list f32)) (dim : nat) : list f32 :=
  let total := fold_left add_embedding embeddings (replicate dim F32.zero) in
  let n := f32_of_N (N.of_nat (Nat.max (length embeddings) 1)) in
  let mean := (λ v, f32_div v n) <$> total in
  let norm := f32_sqrt (f32_sum ((λ x, F32.mul x x) <$> mean)) in
  if F32.gtb norm F32.zero then (λ v, f32_div v norm) <$> mean else mean.

(** ** Data *)

Record CompactionResult := mkResult {
  cr_summary_text : string;
  cr_openai_encrypted_content : option string;
  cr_covers_up_to_turn : nat;
  cr_duration_ms : N;
  cr_summarized_messages : nat;
}.

Record CompactionEvent := mkEvent {
  ce_trigger : string;
  ce_pre_tokens : option N;
  ce_post_tokens : option N;
  ce_tokens_saved : option N;
  ce_duration_ms : option N;
  ce_messages_dropped : option nat;
  ce_messages_compacted : option nat;
  ce_summary_chars : option N;
  ce_active_messages : option nat;
}.

Record CompactionStats := mkStats {
  st_total_turns : nat;
  st_active_messages : nat;
  st_has_summary : bool;
  st_is_compacting : bool;
  st_token_estimate : N;
  st_effective_tokens : N;
  st_observed_input_tokens : option N;
  st_context_usage : f32;
}.

Record StoredCompactionState := mkStored {
  sc_summary_text : string;
  sc_openai_encrypted_content : option string;
  sc_covers_up_to_turn : nat;
  sc_original_turn_count : nat;
  sc_compacted_count : nat;
}.

(** ** The estimate of the live characters *)

Record ActiveCharEstimate := mkEstimate { ac_chars : N; ac_dirty : bool }.

Definition estimate_default : ActiveCharEstimate := mkEstimate 0 false.
Definition invalidate (e : ActiveCharEstimate) : ActiveCharEstimate := mkEstimate (ac_chars e) true.
Definition set_exact (chars : N) (e : ActiveCharEstimate) : ActiveCharEstimate := mkEstimate chars false.
Definition append_exact (chars : N) (e : ActiveCharEstimate) : ActiveCharEstimate :=
  mkEstimate (saturating_add (ac_chars e) chars) false.
Definition reset_pending (maybe_has_active : bool) (e : ActiveCharEstimate) : ActiveCharEstimate :=
  mkEstimate 0 maybe_has_active.

Section Manager.
Context {J : Json} {T : Chrono}.

(** What a background task has come to. *)
Inductive TaskOutcome :=
| Produced (r : CompactionResult)
| Failure (e : string)
| TaskPanicked.
Inductive Task :=
| Running (messages_to_summarize : list Message) (existing_summary : option Summary)
| Finished (outcome : TaskOutcome).

Definition is_finished (t : Task) : bool :=
  match t with Finished _ => true | Running _ _ => false end.

Record CompactionManager := mkCM {
  compacted_count : nat;
  active_summary : option Summary;
  active_chars : ActiveCharEstimate;
  pending_task : option Task;
  pending_trigger : option string;
  pending_cutoff : nat;
  total_turns : nat;
  suppress_compaction_until_new_message : bool;
  token_budget : N;
  observed_input_tokens : option N;
  last_compaction : option CompactionEvent;
  mode : CompactionMode;
  compaction_config : CompactionConfig;
  token_history : list N;
  turns_since_last_compact : nat;
  embedding_history : list (list f32);
  semantic_embed_cache : gmap N (option (list f32) * N);
  semantic_embed_cache_counter : N;
}.

(** Assignments to single fields. *)
Definition set_compacted (v : nat) (m : CompactionManager) : CompactionManager :=
  let '(mkCM a b c d e f g h i j k l n o p q r s) := m in mkCM v b c d e f g h i j k l n o p q r s.
Definition set_summary (v : option Summary) (m : CompactionManager) : CompactionManager :=
  let '(mkCM a b c d e f g h i j k l n o p q r s) := m in mkCM a v c d e f g h i j k l n o p q r s.
Definition map_chars (v : ActiveCharEstimate → ActiveCharEstimate) (m : CompactionManager) : CompactionManager :=
  let '(mkCM a b c d e f g h i j k l n o p q r s) := m in mkCM a b (v c) d e f g h i j k l n o p q r s.
Definition set_task (v : option Task) (m : CompactionManager) : CompactionManager :=
  let '(mkCM a b c d e f g h i j k l n o p q r s) := m in mkCM a b c v e f g h i j k l n o p q r s.
Definition set_pending (trigger : option string) (cutoff : nat) (m : CompactionManager) : CompactionManager :=
  let '(mkCM a b c d e f g h i j k l n o p q r s) := m in mkCM a b c d trigger cutoff g h i j k l n o p q r s.
Definition set_turns (v : nat) (suppress : bool) (m : CompactionManager) : CompactionManager :=
  let '(mkCM a b c d e f g h i j k l n o p q r s) := m in mkCM a b c d e f v suppress i j k l n o p q r s.
Definition set_budget (v : N) (m : CompactionManager) : CompactionManager :=
  let '(mkCM a b c d e f g h i j k l n o p q r s) := m in mkCM a b c d e f g h v j k l n o p q r s.
Definition set_observed (v : option N) (m : CompactionManager) : CompactionManager :=
  let '(mkCM a b c d e f g h i j k l n o p q r s) := m in mkCM a b c d e f g h i v k l n o p q r s.
Definition set_last (v : option CompactionEvent) (m : CompactionManager) : CompactionManager :=
  let '(mkCM a b c d e f g h i j k l n o p q r s) := m in mkCM a b c d e f g h i j v l n o p q r s.
Definition set_mode (v : CompactionMode) (m : CompactionManager) : CompactionManager :=
  let '(mkCM a b c d e f g h i j k l n o p q r s) := m in
  let '(mkConfig _ n2 n3 n4 n5 n6 n7 n8 n9 n10) := n in
  mkCM a b c d e f g h i j k v (mkConfig v n2 n3 n4 n5 n6 n7 n8 n9 n10) o p q r s.
Definition set_history (v : list N) (turns : nat) (m : CompactionManager) : CompactionManager :=
  let '(mkCM a b c d e f g h i j k l n o p q r s) := m in mkCM a b c d e f g h i j k l n v turns q r s.
Definition set_embeddings (v : list (list f32)) (m : CompactionManager) : CompactionManager :=
  let '(mkCM a b c d e f g h i j k l n o p q r s) := m in mkCM a b c d e f g h i j k l n o p v r s.
Definition set_cache (v : gmap N (option (list f32) * N)) (counter : N) (m : CompactionManager) : CompactionManager :=
  let '(mkCM a b c d e f g h i j k l n o p q r s) := m in mkCM a b c d e f g h i j k l n o p q v counter.

(** ** Construction and notifications *)

(** [new], for the loaded settings. *)
Definition manager_new (cfg : CompactionConfig) : CompactionManager :=
  mkCM 0 None estimate_default None None 0 0 false DEFAULT_TOKEN_BUDGET None None
    (cfg_mode cfg) cfg [] 0 [] ∅ 0.

Definition notify_message_added (m : CompactionManager) : CompactionManager :=
  map_chars invalidate (set_turns (S (total_turns m)) false m).
Definition notify_message_added_blocks (blocks : list ContentBlock) (m : CompactionManager) : CompactionManager :=
  map_chars (append_exact (content_char_count blocks)) (set_turns (S (total_turns m)) false m).
Definition notify_message_added_with (msg : Message) (m : CompactionManager) : CompactionManager :=
  notify_message_added_blocks (content msg) m.
Definition add_message (msg : Message) (m : CompactionManager) : CompactionManager :=
  notify_message_added_with msg m.

Definition message_chars (msgs : list Message) : N := sum_N (message_char_count <$> msgs).

Definition seed_restored_messages (count : nat) (m : CompactionManager) : CompactionManager :=
  map_chars (reset_pending (0 <? count)) (set_turns count (0 <? count) m).
Definition seed_restored_messages_with (all : list Message) (m : CompactionManager) : CompactionManager :=
  map_chars (set_exact (message_chars all)) (set_turns (length all) (negb (length all =? 0)) m).

Definition active_messages (m : CompactionManager) (all : list Message) : list Message :=
  drop (Nat.min (compacted_count m) (length all)) all.
Definition active_messages_count (m : CompactionManager) : nat := total_turns m - compacted_count m.

Definition restore_persisted_state (state : StoredCompactionState) (total_messages : nat)
    (m : CompactionManager) : CompactionManager :=
  let compacted := Nat.min (sc_compacted_count state) total_messages in
  mkCM compacted
    (Some (mkSummary (sc_summary_text state) (sc_openai_encrypted_content state)
             (sc_covers_up_to_turn state) (sc_original_turn_count state)))
    (reset_pending (compacted <? total_messages) (active_chars m))
    None None 0 total_messages (0 <? total_messages) (token_budget m) None None
    (mode m) (compaction_config m) [] 0 [] ∅ 0.
Definition restore_persisted_state_with (state : StoredCompactionState) (all : list Message)
    (m : CompactionManager) : CompactionManager :=
  let m' := restore_persisted_state state (length all) m in
  map_chars (set_exact (message_chars (active_messages m' all))) m'.
Definition persisted_state (m : CompactionManager) : option StoredCompactionState :=
  (λ s, mkStored (sum_text s) (sum_openai_encrypted_content s) (sum_covers_up_to_turn s)
          (sum_original_turn_count s) (compacted_count m)) <$> active_summary m.

Definition discard_oversized_openai_native_compaction (m : CompactionManager) : bool * CompactionManager :=
  match active_summary m ≫= discard_oversized with
  | Some summary => (true, set_observed None (set_summary (Some summary) m))
  | None => (false, m)
  end.

(** ** Token counts *)

Definition active_message_chars_with (m : CompactionManager) (all : list Message) : N :=
  if ac_dirty (active_chars m) || negb (active_messages_count m =? length (active_messages m all))
  then message_chars (active_messages m all)
  else ac_chars (active_chars m).

Definition token_estimate_with (m : CompactionManager) (all : list Message) : N :=
  estimate_compaction_tokens (active_summary m) (active_message_chars_with m all) (token_budget m).
Definition token_estimate (m : CompactionManager) : N :=
  estimate_compaction_tokens (active_summary m) 0 (token_budget m).
Definition update_observed_input_tokens (tokens : N) (m : CompactionManager) : CompactionManager :=
  set_observed (Some tokens) m.
Definition effective_token_count_with (m : CompactionManager) (all : list Message) : N :=
  N.max (token_estimate_with m all) (default 0%N (observed_input_tokens m)).
Definition effective_token_count (m : CompactionManager) : N :=
  N.max (token_estimate m) (default 0%N (observed_input_tokens m)).
Definition context_usage_with (m : CompactionManager) (all : list Message) : f32 :=
  f32_div (f32_of_N (effective_token_count_with m all)) (f32_of_N (token_budget m)).
Definition context_usage (m : CompactionManager) : f32 :=
  f32_div (f32_of_N (effective_token_count m)) (f32_of_N (token_budget m)).

Definition is_compacting (m : CompactionManager) : bool := bool_decide (is_Some (pending_task m)).
Definition mode_trigger_label (m : CompactionManager) : string := mode_as_str (mode m).
Definition summary_chars (m : CompactionManager) : N :=
  match active_summary m with Some s => summary_payload_char_count s | None => 0%N end.

Definition stats (m : CompactionManager) : CompactionStats :=
  mkStats (total_turns m) 0 (bool_decide (is_Some (active_summary m))) (is_compacting m)
    (token_estimate m) (effective_token_count m) (observed_input_tokens m) (context_usage m).
Definition stats_with (m : CompactionManager) (all : list Message) : CompactionStats :=
  mkStats (total_turns m) (length (active_messages m all)) (bool_decide (is_Some (active_summary m)))
    (is_compacting m) (token_estimate_with m all) (effective_token_count_with m all)
    (observed_input_tokens m) (context_usage_with m all).

(** ** Snapshots and the embedding cache *)

(** [push_back], then [pop_front] above the window. *)
Definition push_window {A} (window : nat) (x : A) (l : list A) : list A :=
  let l' := l ++ [x] in if window <? length l' then tail l' else l'.

Definition push_token_snapshot (tokens : N) (m : CompactionManager) : CompactionManager :=
  set_history (push_window TOKEN_HISTORY_WINDOW tokens (token_history m)) (S (turns_since_last_compact m)) m.

(** [iter().min_by_key(recency)]: the first of the least recently used. *)
Definition oldest_key (cache : gmap N (option (list f32) * N)) : option N :=
  fst <$> fold_left (λ best '(k, (_, r)),
    match best with
    | Some (_, r') => if (r <? r')%N then Some (k, r) else best
    | None => Some (k, r)
    end) (map_to_list cache) None.

Definition insert_semantic_embedding_cache (key : N) (embedding : option (list f32)) (m : CompactionManager) :
    CompactionManager :=
  let cache := semantic_embed_cache m in
  let cache :=
    if SEMANTIC_EMBED_CACHE_CAPACITY <=? size cache
    then match oldest_key cache with Some k => delete k cache | None => cache end
    else cache in
  let counter := semantic_embed_cache_counter m in
  set_cache (<[key := (embedding, counter)]> cache) (u64_succ counter) m.

Context {E : Embedder}.

Definition cached_semantic_embedding (text : string) (m : CompactionManager) : option (list f32) * CompactionManager :=
  let key := semantic_cache_key text in
  match semantic_embed_cache m !! key with
  | Some (cached, _) =>
      let counter := semantic_embed_cache_counter m in
      (cached, set_cache (<[key := (cached, counter)]> (semantic_embed_cache m)) (u64_succ counter) m)
  | None =>
      let embedding := embed text in
      (embedding, insert_semantic_embedding_cache key embedding m)
  end.

Definition push_embedding_snapshot (text : string) (m : CompactionManager) : CompactionManager :=
  let '(emb, m) := cached_semantic_embedding (take_chars EMBED_MAX_CHARS_PER_MSG text) m in
  match emb with
  | Some e => set_embeddings (push_window EMBEDDING_HISTORY_WINDOW e (embedding_history m)) m
  | None => m
  end.

(** ** When to compact *)

(** The growth guard: [None] is the out-of-range index of an empty window. *)
Definition growth_stalled (window : nat) (history : list N) : option bool :=
  if window <=? length history then
    let recent := take window (rev history) in
    oldest ← last recent; newest ← head recent; Some (newest <=? oldest)%N
  else Some false.

Definition anti_signals_block (m : CompactionManager) (all : list Message) : option bool :=
  let cfg := compaction_config m in
  if is_compacting m then Some true
  else if ltb (context_usage_with m all) (cfg_proactive_floor cfg) then Some true
  else if length (token_history m) <? cfg_min_samples cfg then Some true
  else
    stalled ← growth_stalled (cfg_stall_window cfg) (token_history m);
    if (stalled : bool) then Some true
    else Some (turns_since_last_compact m <? cfg_min_turns_between_compactions cfg).

(** The smoothed growth per turn, from the second snapshot on. *)
Definition ewma_step (alpha : f64) (acc : f64 * N) (next : N) : f64 * N :=
  let '(ewma, prev) := acc in
  let delta := f64_max (f64_sub (f64_of_N next) (f64_of_N prev)) f64_zero in
  (f64_add (f64_mul alpha delta) (f64_mul (f64_sub f64_one alpha) ewma), next).
Definition projected_tokens (alpha : f64) (lookahead : N) (snapshots : list N) : option f64 :=
  match snapshots with
  | s0 :: s1 :: rest =>
      let start := f64_max (f64_sub (f64_of_N s1) (f64_of_N s0)) f64_zero in
      let '(ewma, current) := fold_left (ewma_step alpha) rest (start, s1) in
      Some (f64_add (f64_of_N current) (f64_mul ewma (f64_of_N lookahead)))
  | _ => None
  end.

Definition should_compact_proactively (m : CompactionManager) (all : list Message) : option bool :=
  blocked ← anti_signals_block m all;
  if (blocked : bool) then Some false
  else
    let cfg := compaction_config m in
    let threshold := f64_mul (f64_of_f32 COMPACTION_THRESHOLD) (f64_of_N (token_budget m)) in
    match projected_tokens (f64_of_f32 (cfg_ewma_alpha cfg)) (cfg_lookahead_turns cfg) (token_history m) with
    | None => Some false
    | Some projected => Some (geb projected threshold)
    end.

Definition topic_shifted (threshold : f32) (history : list (list f32)) : bool :=
  let half := length history / 2 in
  let old_embeddings := take half history in
  let new_embeddings := drop half history in
  let dim := length (default [] (head old_embeddings)) in
  ltb (cosine_similarity (mean_embedding old_embeddings dim) (mean_embedding new_embeddings dim)) threshold.

Definition should_compact_semantic (m : CompactionManager) (all : list Message) : option bool :=
  blocked ← anti_signals_block m all;
  if (blocked : bool) then Some false
  else if length (embedding_history m) <? 4 then should_compact_proactively m all
  else if topic_shifted (cfg_topic_shift_threshold (compaction_config m)) (embedding_history m) then Some true
  else should_compact_proactively m all.

Definition should_compact_with (m : CompactionManager) (all : list Message) : option bool :=
  if suppress_compaction_until_new_message m then Some false
  else
    let enough := RECENT_TURNS_TO_KEEP <? length (active_messages m all) in
    match mode m with
    | Reactive =>
        Some (negb (is_compacting m) && geb (context_usage_with m all) COMPACTION_THRESHOLD && enough)
    | Proactive => if enough then should_compact_proactively m all else Some false
    | Semantic => if enough then should_compact_semantic m all else Some false
    end.

(** ** How much to compact *)

(** The relevance loop over [active[..standard_cutoff]]: how many messages are
    close to the goal and the first of them. *)
Fixpoint relevance_loop (goal : list f32) (threshold : f32) (idx : nat) (msgs : list Message)
    (count earliest : nat) (m : CompactionManager) : nat * nat * CompactionManager :=
  match msgs with
  | [] => (count, earliest, m)
  | msg :: rest =>
      let text := semantic_message_text msg in
      if str_is_empty text then relevance_loop goal threshold (S idx) rest count earliest m
      else
        let '(emb, m) := cached_semantic_embedding text m in
        match emb with
        | Some e =>
            if geb (cosine_similarity goal e) threshold
            then relevance_loop goal threshold (S idx) rest (S count) (Nat.min earliest idx) m
            else relevance_loop goal threshold (S idx) rest count earliest m
        | None => relevance_loop goal threshold (S idx) rest count earliest m
        end
  end.

Definition semantic_cutoff (active : list Message) (m : CompactionManager) : nat * CompactionManager :=
  let cfg := compaction_config m in
  let standard_cutoff := length active - RECENT_TURNS_TO_KEEP in
  if standard_cutoff =? 0 then (0, m)
  else
    let goal_turns := Nat.min (cfg_goal_window_turns cfg) (length active) in
    let goal_text := semantic_goal_text (drop (length active - goal_turns) active) in
    if str_is_empty goal_text then (standard_cutoff, m)
    else
      let '(goal, m) := cached_semantic_embedding goal_text m in
      match goal with
      | None => (standard_cutoff, m)
      | Some goal_emb =>
          let '(count, earliest, m) :=
            relevance_loop goal_emb (cfg_relevance_keep_threshold cfg) 0 (take standard_cutoff active)
              0 standard_cutoff m in
          if count =? 0 then (standard_cutoff, m)
          else if earliest <? 2 then (standard_cutoff, m)
          else (earliest, m)
      end.

(** Spawning the task: [trigger] labels it. *)
Definition spawn_task (trigger : string) (cutoff : nat) (active : list Message) (m : CompactionManager) :
    CompactionManager :=
  set_task (Some (Running (take cutoff active) (active_summary m))) (set_pending (Some trigger) cutoff m).

Definition maybe_start_compaction_with (all : list Message) (m : CompactionManager) : option CompactionManager :=
  go ← should_compact_with m all;
  if negb (go : bool) then Some m
  else
    let active := active_messages m all in
    let '(cutoff, m) :=
      match mode m with
      | Semantic => semantic_cutoff active m
      | _ => (length active - RECENT_TURNS_TO_KEEP, m)
      end in
    if cutoff =? 0 then Some m
    else
      let cutoff := safe_compaction_cutoff active cutoff in
      if cutoff =? 0 then Some m
      else Some (spawn_task (mode_trigger_label m) cutoff active m).

Definition force_compact_with (all : list Message) (m : CompactionManager) : result unit string * CompactionManager :=
  if is_compacting m then (Err "Compaction already in progress", m)
  else
    let active := active_messages m all in
    if length active <=? RECENT_TURNS_TO_KEEP then
      (Err ("Not enough messages to compact (need more than " +:+ pretty RECENT_TURNS_TO_KEEP
            +:+ ", have " +:+ pretty (length active) +:+ ")"), m)
    else if ltb (context_usage_with m all) MANUAL_COMPACT_MIN_THRESHOLD then
      (Err ("Context usage too low (" +:+ fixed 1 (F32.mul (context_usage_with m all) (f32_of_N 100))
            +:+ "%) - nothing to compact"), m)
    else
      let cutoff := length active - RECENT_TURNS_TO_KEEP in
      if cutoff =? 0 then (Err "No messages available to compact after keeping recent turns", m)
      else
        let cutoff := safe_compaction_cutoff active cutoff in
        if cutoff =? 0 then (Err "Cannot compact - would split tool call/result pairs", m)
        else (Ok tt, spawn_task "manual" cutoff active m).

(** ** Applying a background result *)

Definition clamp_compacted_count_to_messages (all : list Message) (m : CompactionManager) : bool * CompactionManager :=
  if (length all =? 0) || (compacted_count m <=? length all) then (false, m)
  else (true, map_chars (set_exact 0) (set_compacted (length all) m)).

Definition summary_text_len (m : CompactionManager) : option N := (λ s, str_len (sum_text s)) <$> active_summary m.

(** The branch for a result; the task has been taken out. *)
Definition apply_result (result : CompactionResult) (all : list Message) (m : CompactionManager) : CompactionManager :=
  let trigger := default (mode_trigger_label m) (pending_trigger m) in
  let cutoff := pending_cutoff m in
  let active_len := length (active_messages m all) in
  let leaves_no_healthy_tail := active_len - MIN_TURNS_TO_KEEP <? cutoff in
  if negb (length all =? 0) && leaves_no_healthy_tail then set_pending None 0 m
  else
    let pre_tokens := effective_token_count_with m all in
    let compacted_chars := message_chars (take cutoff (active_messages m all)) in
    let summary := mkSummary (cr_summary_text result) (cr_openai_encrypted_content result)
                     (cr_covers_up_to_turn result) cutoff in
    let count := compacted_count m + cutoff in
    let count := if length all =? 0 then count else Nat.min count (length all) in
    let m := set_compacted count m in
    let m := map_chars (set_exact (active_message_chars_with m all - compacted_chars)%N) m in
    let m := set_summary (Some summary) m in
    let m := (discard_oversized_openai_native_compaction m).2 in
    let m := set_observed None m in
    let post_tokens := effective_token_count_with m all in
    let m := set_last (Some (mkEvent trigger (Some pre_tokens) (Some post_tokens)
               (Some (pre_tokens - post_tokens)%N) (Some (cr_duration_ms result)) None
               (Some (cr_summarized_messages result)) (summary_text_len m)
               (Some (active_messages_count m)))) m in
    set_pending None 0 (set_history (token_history m) 0 m).

Definition check_and_apply_compaction_with (all : list Message) (m : CompactionManager) : CompactionManager :=
  let m := (clamp_compacted_count_to_messages all m).2 in
  match pending_task m with
  | None => m
  | Some (Running _ _) => m
  | Some (Finished outcome) =>
      let m := set_task None m in
      match outcome with
      | Produced result => apply_result result all m
      | Failure _ | TaskPanicked => set_pending None 0 m
      end
  end.
Definition check_and_apply_compaction (m : CompactionManager) : CompactionManager :=
  map_chars invalidate (check_and_apply_compaction_with [] m).
Definition take_compaction_event (m : CompactionManager) : option CompactionEvent * CompactionManager :=
  (last_compaction m, set_last None m).
Definition poll_compaction_event_with (all : list Message) (m : CompactionManager) :
    option CompactionEvent * CompactionManager :=
  take_compaction_event (check_and_apply_compaction_with all m).

(** ** Messages for a request *)

Definition summary_block (summary : Summary) : ContentBlock :=
  match sum_openai_encrypted_content summary with
  | Some encrypted_content => OpenAICompaction encrypted_content
  | None => Text (compacted_summary_text_block (sum_text summary)) None
  end.
Definition messages_for_api_with (all : list Message) (m : CompactionManager) : list Message * CompactionManager :=
  let m := check_and_apply_compaction_with all m in
  let m := (discard_oversized_openai_native_compaction m).2 in
  let active := active_messages m all in
  (match active_summary m with
   | Some summary => mkMessage User [summary_block summary] None None :: active
   | None => active
   end, m).

(** ** Hard compaction *)

(** [remaining_suffix_chars[idx]]. *)
Definition suffix_chars (active : list Message) (idx : nat) : N :=
  foldr (λ msg acc, saturating_add acc (message_char_count msg)) 0%N (drop idx active).

(** The loop over the number of turns to keep, which halves; [fuel] at least
    [turns_to_keep]. *)
Fixpoint hard_cutoff (fuel : nat) (active : list Message) (budget : N) (turns_to_keep : nat) : nat :=
  let cutoff := safe_compaction_cutoff active (length active - turns_to_keep) in
  if (0 <? cutoff) && (suffix_chars active cutoff / CHARS_PER_TOKEN <=? budget)%N then cutoff
  else if turns_to_keep <=? MIN_TURNS_TO_KEEP
  then safe_compaction_cutoff active (length active - MIN_TURNS_TO_KEEP)
  else match fuel with
       | O => 0
       | S fuel' => hard_cutoff fuel' active budget (Nat.max (turns_to_keep / 2) MIN_TURNS_TO_KEEP)
       end.

(** Dropping a task that a hard compaction supersedes. *)
Definition abort_pending (m : CompactionManager) : CompactionManager :=
  match pending_task m with
  | Some _ => set_pending None 0 (set_task None m)
  | None => m
  end.

Context {U : Unicode}.

Definition hard_compact_with (all : list Message) (m : CompactionManager) : result nat string * CompactionManager :=
  let m := (clamp_compacted_count_to_messages all m).2 in
  let active := active_messages m all in
  if length active <=? MIN_TURNS_TO_KEEP then
    (Err ("Not enough messages to compact (have " +:+ pretty (length active) +:+ ", need more than "
          +:+ pretty MIN_TURNS_TO_KEEP +:+ ")"), m)
  else
    let pre_tokens := effective_token_count_with m all in
    let turns_to_keep := Nat.min RECENT_TURNS_TO_KEEP (length active - 1) in
    let cutoff := hard_cutoff turns_to_keep active (token_budget m) turns_to_keep in
    if cutoff =? 0 then (Err "Cannot compact — would split tool call/result pairs", m)
    else
      let m := abort_pending m in
      let summary_text := build_emergency_summary_text (sum_text <$> active_summary m) cutoff pre_tokens
                            (token_budget m) (take cutoff active) in
      let summary := mkSummary summary_text None cutoff cutoff in
      let m := set_compacted (Nat.min (compacted_count m + cutoff) (length all)) m in
      let m := map_chars (set_exact (suffix_chars active cutoff)) m in
      let m := set_observed None (set_summary (Some summary) m) in
      let post_tokens := effective_token_count_with m all in
      let m := set_last (Some (mkEvent "hard_compact" (Some pre_tokens) (Some post_tokens)
                 (Some (pre_tokens - post_tokens)%N) (Some 0%N) (Some cutoff) (Some cutoff)
                 (summary_text_len m) (Some (active_messages_count m)))) m in
      (Ok cutoff, m).

(** ** Emergency recovery *)

Definition emergency_truncate_with (all : list Message) (m : CompactionManager) :
    nat * list Message * CompactionManager :=
  let start := Nat.min (compacted_count m) (length all) in
  let '(active, truncated) := emergency_truncate_large_payloads (drop start all)
                                EMERGENCY_TOOL_RESULT_MAX_CHARS EMERGENCY_IMAGE_MAX_CHARS in
  (truncated, take start all ++ active,
   if 0 <? truncated then map_chars invalidate (set_observed None m) else m).

Record EmergencyRecovery := mkRecovery {
  er_pre_usage : f32;
  er_dropped : option nat;
  er_truncated : nat;
}.

Definition recover_within_budget (all : list Message) (m : CompactionManager) :
    EmergencyRecovery * list Message * CompactionManager :=
  let pre_usage := context_usage_with m all in
  let '(r, m) := hard_compact_with all m in
  let dropped := match r with Ok d => Some d | Err _ => None end in
  let still_over_budget := F32.gtb (context_usage_with m all) F32.one || bool_decide (dropped = None) in
  if still_over_budget then
    let '(truncated, all', m) := emergency_truncate_with all m in
    (mkRecovery pre_usage dropped truncated, all', m)
  else (mkRecovery pre_usage dropped 0, all, m).

Definition did_anything (r : EmergencyRecovery) : bool :=
  (0 <? default 0 (er_dropped r)) || (0 <? er_truncated r).

Definition recovery_summary_line (r : EmergencyRecovery) (trigger_usage : f32) : string :=
  let pct := fixed 0 (F32.mul trigger_usage (f32_of_N 100)) in
  match er_dropped r, er_truncated r with
  | Some dropped, O =>
      "⚡ Emergency compaction: dropped " +:+ pretty dropped +:+ " old messages (context was at " +:+ pct +:+ "%)."
  | Some dropped, truncated =>
      "⚡ Emergency compaction: dropped " +:+ pretty dropped +:+ " old messages and truncated "
      +:+ pretty truncated +:+ " tool result(s) (context was at " +:+ pct +:+ "%)."
  | None, truncated =>
      "⚡ Emergency truncation: shortened " +:+ pretty truncated +:+ " large tool result(s) to fit context."
  end.

(** ** Before a request *)

(** Waiting for the pending task: [finish] is the outcome that arrives before
    the time is up.  The result is [(applied, timed_out)]. *)
Definition wait_for_pending_compaction_at_hard_threshold (finish : option TaskOutcome) (all : list Message)
    (m : CompactionManager) : bool * bool * CompactionManager :=
  let m := match pending_task m, finish with
           | Some (Running _ _), Some outcome => set_task (Some (Finished outcome)) m
           | _, _ => m
           end in
  match pending_task m with
  | Some (Finished _) =>
      let m := check_and_apply_compaction_with all m in
      (bool_decide (is_Some (last_compaction m)), false, m)
  | _ => (false, true, m)
  end.

(** The last part: start a background compaction when it is time. *)
Definition background_if_needed (all : list Message) (m : CompactionManager) :
    option (CompactionAction * CompactionManager) :=
  let was_compacting := is_compacting m in
  m ← maybe_start_compaction_with all m;
  if negb was_compacting && is_compacting m
  then Some (BackgroundStarted (default (mode_trigger_label m) (pending_trigger m)), m)
  else Some (NoAction, m).

(** A hard compaction, and the background path when it fails. *)
Definition hard_compact_or_background (all : list Message) (m : CompactionManager) :
    option (CompactionAction * CompactionManager) :=
  let '(r, m) := hard_compact_with all m in
  match r with
  | Ok dropped => Some (HardCompacted dropped, m)
  | Err _ => background_if_needed all m
  end.

Definition ensure_context_fits (finish : option TaskOutcome) (all : list Message) (m : CompactionManager) :
    option (CompactionAction * CompactionManager) :=
  if geb (context_usage_with m all) CRITICAL_THRESHOLD then
    if is_compacting m then
      let m := (wait_for_pending_compaction_at_hard_threshold finish all m).2 in
      if ltb (context_usage_with m all) CRITICAL_THRESHOLD then background_if_needed all m
      else hard_compact_or_background all m
    else hard_compact_or_background all m
  else background_if_needed all m.

(** ** What the task computes *)

(** What the code uses of a provider: native compaction (the summary text and
    the encrypted content), the context window, and a plain completion. *)
Record Provider := mkProvider {
  native_compact : list Message → option string → option string → result (option string * option string) string;
  context_window : N;
  complete_simple : string → string → result string string;
}.

Definition generate_compaction_artifact (provider : Provider) (duration : N) (messages : list Message)
    (existing_summary : option Summary) : result CompactionResult string :=
  let existing_summary := (λ s, default s (discard_oversized s)) <$> existing_summary in
  let fallback :=
    let max_prompt_chars := ((context_window provider - 4000) * CHARS_PER_TOKEN)%N in
    let prompt := build_compaction_prompt messages existing_summary max_prompt_chars in
    let? summary := complete_simple provider prompt "You are a helpful assistant that summarizes conversations." in
    Ok (mkResult summary None (length messages) duration (length messages)) in
  match native_compact provider messages (sum_text <$> existing_summary)
          (existing_summary ≫= sum_openai_encrypted_content) with
  | Ok (summary_text, encrypted) =>
      match encrypted with
      | Some e => if openai_encrypted_content_is_sendable e
                  then Ok (mkResult (default "" summary_text) encrypted (length messages) duration (length messages))
                  else fallback
      | None => Ok (mkResult (default "" summary_text) encrypted (length messages) duration (length messages))
      end
  | Err _ => fallback
  end.

(** The environment finishes the running task. *)
Definition task_finishes (provider : Provider) (duration : N) (m : CompactionManager) : CompactionManager :=
  match pending_task m with
  | Some (Running msgs existing) =>
      set_task (Some (Finished (match generate_compaction_artifact provider duration msgs existing with
                                | Ok r => Produced r
                                | Err e => Failure e
                                end))) m
  | _ => m
  end.

Definition build_transfer_compaction_state (provider : Provider) (duration : N) (messages : list Message)
    (existing_state : option StoredCompactionState) : result (option StoredCompactionState) string :=
  let existing_summary := (λ s, mkSummary (sc_summary_text s) (sc_openai_encrypted_content s)
                                  (sc_covers_up_to_turn s) (sc_original_turn_count s)) <$> existing_state in
  match messages with
  | [] => Ok ((λ s, mkStored (sc_summary_text s) (sc_openai_encrypted_content s) (sc_covers_up_to_turn s)
                      (sc_original_turn_count s) 0) <$> existing_state)
  | _ =>
      let prior_turns := match existing_state with
                         | Some s => Nat.max (sc_original_turn_count s) (sc_covers_up_to_turn s)
                         | None => 0
                         end in
      let? r := generate_compaction_artifact provider duration messages existing_summary in
      let total := prior_turns + length messages in
      Ok (Some (mkStored (cr_summary_text r) (cr_openai_encrypted_content r) total total 0))
  end.
End Manager.
