(* ===== verification/ManagerClaims.v ===== *)
(** * Theorems on the compaction manager

    In every history in which the manager hears of each message, a background
    result is never stale and leaves the recent turns, and nothing is skipped
    without a summary; its estimate of the live text is exact unless a stale one
    has been trusted.  A hard compaction
    keeps tool calls with their results and at least two messages.  A cache
    that was marked stale is trusted again too early. *)

From Stdlib Require Import Floats.SpecFloat.
From stdpp Require Import base list strings pretty gmap relations.
From S2P Require Import Prelude RustString RustText Float32 Message Compaction CompactionClaims Manager.

Open Scope string_scope.
Open Scope nat_scope.
Open Scope list_scope.

Ltac open_manager m :=
  destruct m as [cc sm ch tk tg cut turns sup bud obs lst md cfg hist since emb cache ctr]; simpl in *.

Section Claims.
Context {J : Json} {T : Chrono} {E : Embedder} {U : Unicode}.

(** ** Sums *)

Lemma sum_N_app l1 l2 : sum_N (l1 ++ l2) = (sum_N l1 + sum_N l2)%N.
Proof.
  induction l1 as [|x l1 IH]; [done|]. change (x + sum_N (l1 ++ l2) = x + sum_N l1 + sum_N l2)%N.
  rewrite IH. lia.
Qed.

Lemma message_chars_app a b : message_chars (a ++ b) = (message_chars a + message_chars b)%N.
Proof. unfold message_chars. by rewrite fmap_app, sum_N_app. Qed.

Lemma message_chars_split n l : message_chars l = (message_chars (take n l) + message_chars (drop n l))%N.
Proof. rewrite <- message_chars_app. by rewrite take_drop. Qed.

Lemma suffix_chars_sum active idx :
  (message_chars active ≤ USIZE_MAX)%N → suffix_chars active idx = message_chars (drop idx active).
Proof.
  intros Hb. rewrite (message_chars_split idx) in Hb. unfold suffix_chars.
  assert (message_chars (drop idx active) ≤ USIZE_MAX)%N as H by lia. revert H. generalize (drop idx active) as l.
  clear Hb. induction l as [|x l IH]; intros Hb; [done|].
  change (message_chars (x :: l)) with (message_char_count x + message_chars l)%N in *.
  cbn [foldr]. rewrite IH by lia. unfold saturating_add. lia.
Qed.

(** ** What embedding look-ups touch *)

Definition only_cache (m m' : CompactionManager) : Prop := ∃ c n, m' = set_cache c n m.

Lemma only_cache_refl m : only_cache m m.
Proof. exists (semantic_embed_cache m), (semantic_embed_cache_counter m). by destruct m. Qed.
Lemma only_cache_trans m1 m2 m3 : only_cache m1 m2 → only_cache m2 m3 → only_cache m1 m3.
Proof. intros (c & n & ->) (c' & n' & ->). exists c', n'. by destruct m1. Qed.

Lemma only_cache_lookup text m : only_cache m (cached_semantic_embedding text m).2.
Proof.
  unfold cached_semantic_embedding, insert_semantic_embedding_cache.
  destruct (semantic_embed_cache m !! _) as [[? ?]|]; simpl; do 2 eexists; reflexivity.
Qed.

Lemma only_cache_relevance goal thr idx msgs count earliest m :
  let '(_, earliest', m') := relevance_loop goal thr idx msgs count earliest m in
  earliest' ≤ earliest ∧ only_cache m m'.
Proof.
  revert idx count earliest m. induction msgs as [|msg msgs IH]; intros idx count earliest m; cbn [relevance_loop].
  { split; [done|apply only_cache_refl]. }
  destruct (str_is_empty _); [apply IH|].
  pose proof (only_cache_lookup (semantic_message_text msg) m) as Hc.
  destruct (cached_semantic_embedding _ m) as [[e|] m1]; simpl in Hc.
  - destruct (geb _ _).
    + specialize (IH (S idx) (S count) (Nat.min earliest idx) m1). destruct (relevance_loop _ _ _ _ _ _ _) as [[? ?] ?].
      destruct IH. split; [lia|by eapply only_cache_trans].
    + specialize (IH (S idx) count earliest m1). destruct (relevance_loop _ _ _ _ _ _ _) as [[? ?] ?].
      destruct IH. split; [lia|by eapply only_cache_trans].
  - specialize (IH (S idx) count earliest m1). destruct (relevance_loop _ _ _ _ _ _ _) as [[? ?] ?].
    destruct IH. split; [lia|by eapply only_cache_trans].
Qed.

Lemma semantic_cutoff_spec active m :
  let '(c, m') := semantic_cutoff active m in c ≤ length active - RECENT_TURNS_TO_KEEP ∧ only_cache m m'.
Proof.
  unfold semantic_cutoff. set (std := _ - RECENT_TURNS_TO_KEEP). destruct (std =? 0).
  { split; [lia|apply only_cache_refl]. }
  destruct (str_is_empty _); [split; [done|apply only_cache_refl]|].
  match goal with |- context [cached_semantic_embedding ?t m] => pose proof (only_cache_lookup t m) as Hc end.
  destruct (cached_semantic_embedding _ m) as [[goal|] m1]; simpl in Hc; [|done].
  match goal with |- context [relevance_loop ?g ?t ?i ?l ?c ?e ?m] =>
    pose proof (only_cache_relevance g t i l c e m) as Hr end.
  destruct (relevance_loop _ _ _ _ _ _ _) as [[count earliest] m2]. destruct Hr as [Hle Hr].
  assert (only_cache m m2) by by eapply only_cache_trans.
  destruct (count =? 0); [done|]. destruct (earliest <? 2); done.
Qed.

(** ** The invariant *)

(** The manager knows the messages: the counters are right, a skipped prefix
    has a summary, and a pending task leaves the recent turns alone.  If [sound],
    an estimate that is not marked stale is exact. *)
Definition accounted (sound : bool) (msgs : list Message) (m : CompactionManager) : Prop :=
  total_turns m = length msgs
  ∧ compacted_count m ≤ length msgs
  ∧ (sound = true → ac_dirty (active_chars m) = false → ac_chars (active_chars m) = message_chars (drop (compacted_count m) msgs))
  ∧ (0 < compacted_count m → is_Some (active_summary m))
  ∧ match pending_task m with
    | Some _ => 0 < pending_cutoff m ∧ pending_cutoff m + RECENT_TURNS_TO_KEEP ≤ length msgs - compacted_count m
    | None => pending_cutoff m = 0
    end.

Lemma accounted_active {ok} msgs m : accounted ok msgs m → active_messages m msgs = drop (compacted_count m) msgs.
Proof. intros (_ & Hc & _). unfold active_messages. by rewrite Nat.min_l. Qed.

Lemma accounted_chars msgs m :
  accounted true msgs m → active_message_chars_with m msgs = message_chars (active_messages m msgs).
Proof.
  intros H. pose proof (accounted_active _ _ H) as Ha. destruct H as (Ht & Hc & He & _).
  unfold active_message_chars_with, active_messages_count. rewrite Ha, Ht, length_drop, Nat.eqb_refl. cbn [negb].
  destruct (ac_dirty (active_chars m)) eqn:Hd; [done|]. by apply He.
Qed.

(** Only the fields the invariant reads matter. *)
Lemma accounted_only_cache {ok} msgs m m' : only_cache m m' → accounted ok msgs m → accounted ok msgs m'.
Proof. intros (c & n & ->). by destruct m. Qed.

(** The counters and the pending task after one more message. *)
Lemma accounted_grow {ok} sound msgs x m f :
  accounted ok msgs m →
  (sound = true → ac_dirty (f (active_chars m)) = false →
     ac_chars (f (active_chars m)) = message_chars (drop (compacted_count m) (msgs ++ [x]))) →
  accounted sound (msgs ++ [x]) (map_chars f (set_turns (S (total_turns m)) false m)).
Proof.
  intros (Ht & Hc & _ & Hs & Hp) Hf. open_manager m. unfold accounted. simpl. rewrite length_app. simpl.
  split_and!; try done; try lia. destruct tk; [|done]. lia.
Qed.

Lemma accounted_add {ok} msgs x m :
  (message_chars (msgs ++ [x]) ≤ USIZE_MAX)%N → accounted ok msgs m →
  accounted (ok && negb (ac_dirty (active_chars m))) (msgs ++ [x]) (notify_message_added_with x m).
Proof.
  intros Hb H. eapply accounted_grow; [exact H|]. intros [-> Hd%negb_true_iff]%andb_true_iff _.
  destruct H as (_ & Hc & He & _). specialize (He eq_refl Hd). unfold append_exact. cbn [ac_chars].
  rewrite message_chars_app in Hb. change (message_chars [x]) with (message_char_count x + 0)%N in Hb.
  rewrite He, drop_app_le, message_chars_app by done.
  change (message_chars [x]) with (message_char_count x + 0)%N. unfold saturating_add.
  rewrite (message_chars_split (compacted_count m) msgs) in Hb. unfold message_char_count in *. lia.
Qed.

Lemma accounted_notify {ok} msgs x m : accounted ok msgs m → accounted true (msgs ++ [x]) (notify_message_added m).
Proof. intros H. by eapply accounted_grow. Qed.

Lemma accounted_spawn {ok} msgs m trigger cutoff :
  accounted ok msgs m → 0 < cutoff → cutoff ≤ length msgs - compacted_count m - RECENT_TURNS_TO_KEEP →
  accounted ok msgs (spawn_task trigger cutoff (active_messages m msgs) m).
Proof. intros (Ht & Hc & He & Hs & Hp). destruct m; simpl in *. intros. unfold accounted; simpl. split_and!; try done. lia. Qed.

Lemma accounted_start {ok} msgs m m' : accounted ok msgs m → maybe_start_compaction_with msgs m = Some m' → accounted ok msgs m'.
Proof.
  intros H. unfold maybe_start_compaction_with. destruct (should_compact_with m msgs) as [[]|]; simpl; [|by intros [= <-]|done].
  pose proof (accounted_active _ _ H) as Ha.
  assert (∃ cutoff m1, (match mode m with
      | Semantic => semantic_cutoff (active_messages m msgs) m
      | _ => (length (active_messages m msgs) - RECENT_TURNS_TO_KEEP, m) end) = (cutoff, m1)
      ∧ cutoff ≤ length (active_messages m msgs) - RECENT_TURNS_TO_KEEP ∧ only_cache m m1) as (cutoff & m1 & -> & Hc & Ho).
  { pose proof (semantic_cutoff_spec (active_messages m msgs) m) as Hs.
    destruct (semantic_cutoff _ m) as [c m1]. destruct (mode m); [..|by exists c, m1];
      (do 2 eexists; split_and!; [reflexivity|done|apply only_cache_refl]). }
  pose proof (accounted_only_cache _ _ _ Ho H) as H1.
  destruct (cutoff =? 0); [by intros [= <-]|].
  destruct (safe_compaction_cutoff _ cutoff =? 0) eqn:Es; [by intros [= <-]|]. intros [= <-].
  apply Nat.eqb_neq in Es.
  destruct (safe_cutoff_spec (active_messages m msgs) cutoff) as (Hle & _ & _).
  assert (active_messages m msgs = active_messages m1 msgs) as Heq by (destruct Ho as (? & ? & ->); by destruct m).
  rewrite Heq in *. apply accounted_spawn; [done|lia|].
  rewrite (accounted_active _ _ H1), length_drop in *. lia.
Qed.

(** Fields that the invariant does not read. *)
Lemma accounted_set_observed {ok} msgs m v : accounted ok msgs m → accounted ok msgs (set_observed v m).
Proof. by open_manager m. Qed.
Lemma accounted_set_history {ok} msgs m h n : accounted ok msgs m → accounted ok msgs (set_history h n m).
Proof. by open_manager m. Qed.
Lemma accounted_set_last {ok} msgs m v : accounted ok msgs m → accounted ok msgs (set_last v m).
Proof. by open_manager m. Qed.
Lemma accounted_set_embeddings {ok} msgs m v : accounted ok msgs m → accounted ok msgs (set_embeddings v m).
Proof. by open_manager m. Qed.
Lemma accounted_set_budget {ok} msgs m v : accounted ok msgs m → accounted ok msgs (set_budget v m).
Proof. by open_manager m. Qed.
Lemma accounted_set_mode {ok} msgs m v : accounted ok msgs m → accounted ok msgs (set_mode v m).
Proof. open_manager m. by destruct cfg. Qed.
Lemma accounted_replace_task {ok} msgs m t t' : accounted ok msgs m → pending_task m = Some t → accounted ok msgs (set_task (Some t') m).
Proof. intros H Hp. open_manager m. by subst. Qed.
Lemma accounted_drop_task {ok} msgs m : accounted ok msgs m → accounted ok msgs (set_pending None 0 (set_task None m)).
Proof. intros (? & ? & ? & ? & ?). open_manager m. done. Qed.
Lemma accounted_set_summary {ok} msgs m s : accounted ok msgs m → accounted ok msgs (set_summary (Some s) m).
Proof. intros (? & ? & ? & ? & ?). open_manager m. unfold accounted. simpl. split_and!; eauto. Qed.

Lemma accounted_discard {ok} msgs m :
  accounted ok msgs m → accounted ok msgs (discard_oversized_openai_native_compaction m).2.
Proof.
  intros H. unfold discard_oversized_openai_native_compaction. destruct (_ ≫= _); [|done].
  by apply accounted_set_observed, accounted_set_summary.
Qed.

Lemma clamp_accounted {ok} msgs m : accounted ok msgs m → clamp_compacted_count_to_messages msgs m = (false, m).
Proof.
  intros (_ & Hc & _). unfold clamp_compacted_count_to_messages. apply Nat.leb_le in Hc.
  by rewrite Hc, orb_true_r.
Qed.

(** Advancing over the live prefix keeps the estimate exact. *)
Definition advance (cutoff : nat) (chars : N) (m : CompactionManager) : CompactionManager :=
  map_chars (set_exact chars) (set_compacted (compacted_count m + cutoff) m).

Lemma accounted_advance {ok} sound msgs m cutoff chars s :
  accounted ok msgs m → compacted_count m + cutoff ≤ length msgs → pending_task m = None →
  (sound = true → chars = message_chars (drop (compacted_count m + cutoff) msgs)) →
  accounted sound msgs (set_summary (Some s) (advance cutoff chars m)).
Proof.
  intros (? & ? & ? & ? & Hp) Hle Ht Hch. open_manager m. subst. unfold accounted. simpl. split_and!; eauto.
Qed.

(** The state the guard sees when a result is applied. *)
Lemma advance_chars msgs m cutoff :
  accounted true msgs m → ac_dirty (active_chars m) = false → cutoff ≤ length msgs - compacted_count m →
  (active_message_chars_with (set_compacted (compacted_count m + cutoff) m) msgs
   - message_chars (take cutoff (active_messages m msgs)))%N
  = message_chars (drop (compacted_count m + cutoff) msgs).
Proof.
  intros H Hd Hle. pose proof (accounted_active _ _ H) as Ha. rewrite Ha. destruct H as (Ht & Hc & He & _).
  specialize (He eq_refl Hd).
  unfold active_message_chars_with, active_messages_count, active_messages. open_manager m. subst turns.
  rewrite Nat.min_l, length_drop, Nat.eqb_refl, Hd, He by lia. simpl.
  rewrite (message_chars_split cutoff (drop cc msgs)), drop_drop. lia.
Qed.

Lemma accounted_apply_result {ok} msgs m r :
  accounted ok msgs m → pending_task m = Some (Finished (Produced r)) →
  let m' := apply_result r msgs (set_task None m) in
  accounted (ok && negb (ac_dirty (active_chars m))) msgs m' ∧ pending_task m' = None
  ∧ compacted_count m' = compacted_count m + pending_cutoff m.
Proof.
  intros H Hp. pose proof H as (Ht & Hc & He & Hs & Hk). rewrite Hp in Hk. destruct Hk as [Hk0 Hk].
  cbn zeta. unfold apply_result.
  assert (active_messages (set_task None m) msgs = active_messages m msgs) as -> by by destruct m.
  assert (pending_cutoff (set_task None m) = pending_cutoff m) as -> by by destruct m.
  assert (compacted_count (set_task None m) = compacted_count m) as -> by by destruct m.
  rewrite (accounted_active _ _ H), length_drop.
  assert (length msgs - compacted_count m - MIN_TURNS_TO_KEEP <? pending_cutoff m = false) as ->.
  { apply Nat.ltb_ge. unfold RECENT_TURNS_TO_KEEP, MIN_TURNS_TO_KEEP in *. lia. }
  rewrite andb_false_r. assert (length msgs =? 0 = false) as -> by (apply Nat.eqb_neq; lia).
  rewrite Nat.min_l by (unfold RECENT_TURNS_TO_KEEP in *; lia).
  set (k := pending_cutoff m) in *.
  set (sound := ok && negb (ac_dirty (active_chars m))).
  set (chars := (active_message_chars_with (set_compacted (compacted_count m + k) (set_task None m)) msgs
     - message_chars (take k (drop (compacted_count m) msgs)))%N).
  assert (sound = true → chars = message_chars (drop (compacted_count m + k) msgs)) as Hch.
  { unfold sound, chars. intros [-> Hd%negb_true_iff]%andb_true_iff. rewrite <- (accounted_active _ _ H).
    rewrite <- (advance_chars msgs m k H Hd) by lia. by destruct m. }
  clearbody chars sound.
  match goal with |- context [set_summary (Some ?s) ?x] => set (m1 := set_summary (Some s) x) end.
  assert (accounted sound msgs (set_pending None 0 m1)) as H1.
  { apply (accounted_drop_task _ _ ) in H. unfold m1.
    pose proof (accounted_advance (ok := ok) sound msgs (set_pending None 0 (set_task None m)) k chars
      (mkSummary (cr_summary_text r) (cr_openai_encrypted_content r) (cr_covers_up_to_turn r) k)) as Hadv.
    assert (compacted_count (set_pending None 0 (set_task None m)) = compacted_count m) as Hcc by by destruct m.
    rewrite Hcc in Hadv. specialize (Hadv H).
    assert (compacted_count m + k ≤ length msgs) as Hle by (unfold RECENT_TURNS_TO_KEEP in *; lia).
    specialize (Hadv Hle ltac:(by destruct m) Hch). clear -Hadv. by destruct m. }
  assert (pending_task m1 = None ∧ compacted_count m1 = compacted_count m + k) as [H2 H3] by (unfold m1; by destruct m).
  clearbody m1. clear -H1 H2 H3.
  unfold discard_oversized_openai_native_compaction. destruct (active_summary m1 ≫= discard_oversized) as [s'|]; simpl.
  - split_and!; [|by open_manager m1..]. destruct H1 as (? & ? & ? & ? & ?). open_manager m1. subst.
    unfold accounted. simpl. split_and!; eauto.
  - split_and!; [|by open_manager m1..]. by open_manager m1.
Qed.

(** A result is ready to be applied. *)
Definition result_ready (m : CompactionManager) : bool :=
  match pending_task m with Some (Finished (Produced _)) => true | _ => false end.

(** Whether the estimate can still be believed after a ready result has been
    applied: not when it was stale. *)
Definition sound_apply (ok : bool) (m : CompactionManager) : bool :=
  ok && negb (result_ready m && ac_dirty (active_chars m)).

(** Believing less is always possible. *)
Lemma accounted_weaken {ok} ok' msgs m : (ok' = true → ok = true) → accounted ok msgs m → accounted ok' msgs m.
Proof. intros Hok (? & ? & ? & ? & ?). unfold accounted. split_and!; auto. Qed.

Lemma accounted_apply {ok} msgs m :
  accounted ok msgs m → accounted (sound_apply ok m) msgs (check_and_apply_compaction_with msgs m).
Proof.
  intros H. unfold check_and_apply_compaction_with, sound_apply, result_ready. rewrite (clamp_accounted _ _ H). simpl.
  destruct (pending_task m) as [[|[r|e|]]|] eqn:Hp; rewrite ?andb_true_r; [done|..|done].
  - by apply accounted_apply_result.
  - by apply accounted_drop_task.
  - by apply accounted_drop_task.
Qed.

(** ** Hard compaction *)

(** The loop ends: [turns] steps of fuel are enough, and it finds a cut unless
    there is none that keeps two messages. *)
Lemma hard_cutoff_spec fuel active budget turns :
  turns ≤ fuel → MIN_TURNS_TO_KEEP ≤ turns →
  let c := hard_cutoff fuel active budget turns in
  c = safe_compaction_cutoff active (length active - MIN_TURNS_TO_KEEP)
  ∨ (0 < c ≤ length active - MIN_TURNS_TO_KEEP ∧ closed (drop c active)
     ∧ (suffix_chars active c / CHARS_PER_TOKEN ≤ budget)%N).
Proof.
  revert turns. induction fuel as [|fuel IH]; intros turns Hf Hm; cbn zeta; cbn [hard_cutoff];
    set (c0 := safe_compaction_cutoff active (length active - turns)).
  { unfold MIN_TURNS_TO_KEEP in Hm. lia. }
  destruct ((0 <? c0) && _) eqn:Ec.
  - apply andb_true_iff in Ec as [E1 E2]. apply Nat.ltb_lt in E1. apply N.leb_le in E2. right.
    destruct (safe_cutoff_spec active (length active - turns)) as (H1 & _ & H3).
    fold c0 in H1, H3.
    split_and!; [done| |destruct H3; [done|lia]|done]. unfold MIN_TURNS_TO_KEEP in *. lia.
  - destruct (turns <=? MIN_TURNS_TO_KEEP) eqn:Et; [by left|]. apply Nat.leb_gt in Et.
    assert (turns / 2 < turns) by (apply Nat.div_lt; unfold MIN_TURNS_TO_KEEP in *; lia).
    apply IH; unfold MIN_TURNS_TO_KEEP in *; lia.
Qed.

(** A cut that keeps two messages and separates no result from its call. *)
Definition good_cut (active : list Message) (c : nat) : Prop :=
  0 < c ∧ c + MIN_TURNS_TO_KEEP ≤ length active ∧ closed (drop c active).

Lemma hard_cutoff_good active budget turns :
  turns = Nat.min RECENT_TURNS_TO_KEEP (length active - 1) → MIN_TURNS_TO_KEEP < length active →
  let c := hard_cutoff turns active budget turns in
  (c = 0 ∧ ∀ c', ¬ good_cut active c')
  ∨ (good_cut active c
     ∧ ((suffix_chars active c / CHARS_PER_TOKEN ≤ budget)%N ∨ ∀ c', good_cut active c' → c' ≤ c)).
Proof.
  intros Ht Hl. cbn zeta. unfold MIN_TURNS_TO_KEEP, RECENT_TURNS_TO_KEEP in *.
  destruct (safe_cutoff_spec active (length active - 2)) as (H1 & H2 & H3).
  rewrite Nat.min_l in H1, H2 by lia.
  destruct (hard_cutoff_spec turns active budget turns) as [Hc|((Hc1 & Hc2) & Hc3 & Hc4)];
    [lia|unfold MIN_TURNS_TO_KEEP; lia|..].
  - change MIN_TURNS_TO_KEEP with 2 in Hc. rewrite Hc. set (c := safe_compaction_cutoff _ _) in *.
    assert (∀ c', good_cut active c' → c' ≤ c) as Hmax.
    { intros c' (? & ? & Hcl). unfold MIN_TURNS_TO_KEEP in *. destruct (decide (c' ≤ c)); [done|].
      exfalso. apply (H2 c'); [lia|done]. }
    destruct (decide (c = 0)) as [H0|H0].
    + left. split; [done|]. intros c' Hg. pose proof (Hmax c' Hg). destruct Hg. lia.
    + right. split; [|by right]. unfold good_cut, MIN_TURNS_TO_KEEP. destruct H3; [|done]. split_and!; [lia|lia|done].
  - right. split; [|by left]. unfold good_cut, MIN_TURNS_TO_KEEP in *. split_and!; [lia|lia|done].
Qed.

Lemma abort_pending_fields m :
  compacted_count (abort_pending m) = compacted_count m ∧ pending_task (abort_pending m) = None
  ∧ total_turns (abort_pending m) = total_turns m.
Proof. unfold abort_pending. open_manager m. by destruct tk. Qed.

Lemma accounted_abort {ok} msgs m : accounted ok msgs m → accounted ok msgs (abort_pending m).
Proof. intros H. unfold abort_pending. destruct (pending_task m) eqn:?; [by apply accounted_drop_task|done]. Qed.

Lemma hard_compact_result msgs m :
  compacted_count m ≤ length msgs → (message_chars msgs ≤ USIZE_MAX)%N →
  match hard_compact_with msgs m with
  | (Ok n, m') =>
      good_cut (active_messages m msgs) n
      ∧ ((message_chars (drop n (active_messages m msgs)) / CHARS_PER_TOKEN ≤ token_budget m)%N
         ∨ ∀ n', good_cut (active_messages m msgs) n' → n' ≤ n)
      ∧ compacted_count m' = compacted_count m + n
      ∧ active_messages m' msgs = drop n (active_messages m msgs)
      ∧ active_chars m' = mkEstimate (message_chars (active_messages m' msgs)) false
      ∧ pending_task m' = None ∧ is_Some (active_summary m')
      ∧ (∀ ok, accounted ok msgs m → accounted true msgs m')
  | (Err _, m') => m' = m ∧ ∀ n, ¬ good_cut (active_messages m msgs) n
  end.
Proof.
  intros Hc Hb. unfold hard_compact_with.
  assert (clamp_compacted_count_to_messages msgs m = (false, m)) as ->.
  { unfold clamp_compacted_count_to_messages. apply Nat.leb_le in Hc. by rewrite Hc, orb_true_r. }
  cbn [snd]. set (active := active_messages m msgs).
  assert (active = drop (compacted_count m) msgs) as Ha by (unfold active, active_messages; by rewrite Nat.min_l).
  destruct (length active <=? MIN_TURNS_TO_KEEP) eqn:El.
  { apply Nat.leb_le in El. split; [done|]. intros n (? & ? & _). lia. }
  apply Nat.leb_gt in El. set (turns := Nat.min RECENT_TURNS_TO_KEEP (length active - 1)).
  destruct (hard_cutoff_good active (token_budget m) turns eq_refl El) as [[-> Hno]|[Hg Hmax]]; [done|].
  set (n := hard_cutoff turns active (token_budget m) turns) in *. clearbody n.
  destruct Hg as (Hn0 & Hn2 & Hcl). assert (n =? 0 = false) as -> by (apply Nat.eqb_neq; lia).
  assert (length active = length msgs - compacted_count m) as Hla by (rewrite Ha; apply length_drop).
  assert (message_chars active ≤ USIZE_MAX)%N as Hba.
  { rewrite Ha. rewrite (message_chars_split (compacted_count m) msgs) in Hb. lia. }
  rewrite suffix_chars_sum in * by done.
  destruct (abort_pending_fields m) as (Hf1 & Hf2 & Hf3). rewrite Hf1.
  assert (compacted_count m + n ≤ length msgs) as Hle by (unfold MIN_TURNS_TO_KEEP in *; lia).
  rewrite Nat.min_l by done.
  assert (drop n active = drop (compacted_count m + n) msgs) as Hd by (rewrite Ha; apply drop_drop).
  split; [done|]. split; [done|]. pose proof (λ ok, @accounted_abort ok msgs m) as Hac. unfold active_messages.
  destruct (abort_pending m) as [cc sm ch tk tg cut tu sup bud obs lst md cfg hist since emb cache ctr].
  simpl in *. subst cc. rewrite Nat.min_l, Hd by done. split_and!; eauto.
  intros ok Hacc. destruct (Hac ok Hacc) as (H1 & H2 & H3 & H4 & H5). unfold accounted. simpl in *. subst tk.
  split_and!; eauto.
Qed.

(** ** Histories *)

(** What a truncation changes: the contents of messages, and nothing when it
    reports no change. *)
Lemma rewrite_blocks_same f msgs :
  (∀ b, (f b).2 = 0 → (f b).1 = b) → (rewrite_blocks f msgs).2 = 0 → (rewrite_blocks f msgs).1 = msgs.
Proof.
  intros Hf. unfold rewrite_blocks. cbn [fst snd].
  assert (∀ l : list ContentBlock, sum_list ((λ b, (f b).2) <$> l) = 0 → (λ b, (f b).1) <$> l = l) as Hl.
  { induction l as [|b l IH]; cbn; [done|]. intros [H1 H2]%Nat.eq_add_0. by rewrite Hf, IH. }
  induction msgs as [|x msgs IH]; cbn; [done|]. intros [H1 H2]%Nat.eq_add_0. rewrite (IH H2). f_equal.
  destruct x. unfold set_content. cbn in *. by rewrite Hl.
Qed.

Lemma truncate_payload_same a b block : (truncate_payload a b block).2 = 0 → (truncate_payload a b block).1 = block.
Proof. destruct block; cbn; try done; by destruct (_ <? _)%N. Qed.

Lemma accounted_truncate {ok} msgs m :
  accounted ok msgs m →
  let '(truncated, msgs', m') := emergency_truncate_with msgs m in
  length msgs' = length msgs ∧ accounted (ok || (0 <? truncated)) msgs' m'.
Proof.
  intros H. pose proof H as (Ht & Hc & He & Hs & Hp). unfold emergency_truncate_with, emergency_truncate_large_payloads.
  rewrite Nat.min_l by done. set (f := truncate_payload _ _). set (live := drop (compacted_count m) msgs) in *.
  pose proof (rewrite_blocks_same f live (truncate_payload_same _ _)) as Hsame.
  assert (length (rewrite_blocks f live).1 = length live) as Hlen by apply length_fmap.
  destruct (rewrite_blocks f live) as [active truncated]. cbn [fst snd] in *.
  assert (length (take (compacted_count m) msgs ++ active) = length msgs) as Hl.
  { rewrite length_app, Hlen, <- length_app. unfold live. by rewrite take_drop. }
  split; [done|]. destruct (0 <? truncated) eqn:Et.
  - rewrite orb_true_r. open_manager m. unfold accounted. simpl. rewrite Hl. split_and!; try done.
  - rewrite orb_false_r. apply Nat.ltb_ge in Et. rewrite Hsame by lia. unfold live. by rewrite take_drop.
Qed.

(** The task that [ensure_context_fits] waits for has come to an end. *)
Definition arrived (finish : option TaskOutcome) (m : CompactionManager) : CompactionManager :=
  match pending_task m, finish with
  | Some (Running _ _), Some outcome => set_task (Some (Finished outcome)) m
  | _, _ => m
  end.

(** Whether the estimate can be believed after [ensure_context_fits]: it waits
    and applies a result only at the critical threshold, and a hard compaction
    counts anew. *)
Definition sound_fit (ok : bool) (finish : option TaskOutcome) (msgs : list Message) (action : CompactionAction)
    (m : CompactionManager) : bool :=
  match action with
  | HardCompacted _ => true
  | _ => if geb (context_usage_with m msgs) CRITICAL_THRESHOLD then sound_apply ok (arrived finish m) else ok
  end.

(** Every call on a manager and the environment finishing a task, with the
    messages the calls are made with; each new message is reported, with or
    without its content.  The text fits a [usize].  The flag is no part of the
    program: it says whether the estimate can be believed when it is not marked
    stale.  It falls when content is added to a stale estimate or a result is
    applied over one, and rises when the text is counted anew or the estimate is
    marked stale. *)
Inductive manager_step : list Message * CompactionManager * bool → list Message * CompactionManager * bool → Prop :=
| step_add msgs m ok x : (message_chars (msgs ++ [x]) ≤ USIZE_MAX)%N →
    manager_step (msgs, m, ok) (msgs ++ [x], notify_message_added_with x m, ok && negb (ac_dirty (active_chars m)))
| step_notify msgs m ok x : (message_chars (msgs ++ [x]) ≤ USIZE_MAX)%N →
    manager_step (msgs, m, ok) (msgs ++ [x], notify_message_added m, true)
| step_observe msgs m ok n : manager_step (msgs, m, ok) (msgs, update_observed_input_tokens n m, ok)
| step_snapshot msgs m ok n : manager_step (msgs, m, ok) (msgs, push_token_snapshot n m, ok)
| step_embedding msgs m ok text : manager_step (msgs, m, ok) (msgs, push_embedding_snapshot text m, ok)
| step_budget msgs m ok n : manager_step (msgs, m, ok) (msgs, set_budget n m, ok)
| step_mode msgs m ok v : manager_step (msgs, m, ok) (msgs, set_mode v m, ok)
| step_start msgs m ok m' : maybe_start_compaction_with msgs m = Some m' → manager_step (msgs, m, ok) (msgs, m', ok)
| step_force msgs m ok : manager_step (msgs, m, ok) (msgs, (force_compact_with msgs m).2, ok)
| step_finish msgs m ok provider duration : manager_step (msgs, m, ok) (msgs, task_finishes provider duration m, ok)
| step_panic msgs m ok t : pending_task m = Some t →
    manager_step (msgs, m, ok) (msgs, set_task (Some (Finished TaskPanicked)) m, ok)
| step_apply msgs m ok : manager_step (msgs, m, ok) (msgs, check_and_apply_compaction_with msgs m, sound_apply ok m)
| step_apply_unseen msgs m ok : manager_step (msgs, m, ok) (msgs, check_and_apply_compaction m, true)
| step_take_event msgs m ok : manager_step (msgs, m, ok) (msgs, (take_compaction_event m).2, ok)
| step_poll msgs m ok : manager_step (msgs, m, ok) (msgs, (poll_compaction_event_with msgs m).2, sound_apply ok m)
| step_api msgs m ok : manager_step (msgs, m, ok) (msgs, (messages_for_api_with msgs m).2, sound_apply ok m)
| step_discard msgs m ok : manager_step (msgs, m, ok) (msgs, (discard_oversized_openai_native_compaction m).2, ok)
| step_hard msgs m ok r m' : hard_compact_with msgs m = (r, m') →
    manager_step (msgs, m, ok) (msgs, m', match r with Ok _ => true | Err _ => ok end)
| step_fit msgs m ok finish action m' : ensure_context_fits finish msgs m = Some (action, m') →
    manager_step (msgs, m, ok) (msgs, m', sound_fit ok finish msgs action m)
| step_truncate msgs m ok n msgs' m' :
    emergency_truncate_with msgs m = (n, msgs', m') → (message_chars msgs' ≤ USIZE_MAX)%N →
    manager_step (msgs, m, ok) (msgs', m', ok || (0 <? n))
| step_recover msgs m ok r msgs' m' :
    recover_within_budget msgs m = (r, msgs', m') → (message_chars msgs' ≤ USIZE_MAX)%N →
    manager_step (msgs, m, ok) (msgs', m', ok || did_anything r)
| step_restore msgs m ok state msgs' : (message_chars msgs' ≤ USIZE_MAX)%N →
    manager_step (msgs, m, ok) (msgs', restore_persisted_state_with state msgs' m, true)
| step_restore_count msgs m ok state msgs' : (message_chars msgs' ≤ USIZE_MAX)%N →
    manager_step (msgs, m, ok) (msgs', restore_persisted_state state (length msgs') m, true)
| step_seed msgs m ok cfg msgs' : (message_chars msgs' ≤ USIZE_MAX)%N →
    manager_step (msgs, m, ok) (msgs', seed_restored_messages_with msgs' (manager_new cfg), true)
| step_seed_count msgs m ok cfg msgs' : (message_chars msgs' ≤ USIZE_MAX)%N →
    manager_step (msgs, m, ok) (msgs', seed_restored_messages (length msgs') (manager_new cfg), true).

(** The invariant with the bound on the text. *)
Definition tracked (s : list Message * CompactionManager * bool) : Prop :=
  (message_chars s.1.1 ≤ USIZE_MAX)%N ∧ accounted s.2 s.1.1 s.1.2.

Lemma tracked_new cfg : tracked ([], manager_new cfg, true).
Proof. split; [done|]. unfold accounted. simpl. split_and!; try done. lia. Qed.

Lemma accounted_force {ok} msgs m : accounted ok msgs m → accounted ok msgs (force_compact_with msgs m).2.
Proof.
  intros H. unfold force_compact_with. destruct (is_compacting m); [done|].
  destruct (_ <=? _); [done|]. destruct (ltb _ _); [done|].
  set (cut := _ - RECENT_TURNS_TO_KEEP). destruct (cut =? 0); [done|].
  destruct (safe_compaction_cutoff _ cut =? 0) eqn:Es; [done|]. apply Nat.eqb_neq in Es.
  destruct (safe_cutoff_spec (active_messages m msgs) cut) as (Hle & _). simpl.
  apply accounted_spawn; [done|lia|]. unfold cut in *. rewrite (accounted_active _ _ H), length_drop in *. lia.
Qed.

Lemma accounted_hard {ok} msgs m r m' :
  tracked (msgs, m, ok) → hard_compact_with msgs m = (r, m') →
  accounted (match r with Ok _ => true | Err _ => ok end) msgs m'.
Proof.
  intros [Hb H] E1. cbn in Hb, H. pose proof H as (_ & Hc & _). pose proof (hard_compact_result msgs m Hc Hb) as Hr.
  rewrite E1 in Hr. destruct r as [n|e].
  - destruct Hr as (_ & _ & _ & _ & _ & _ & _ & Hr). by eapply Hr.
  - by destruct Hr as [-> _].
Qed.

Lemma accounted_background {ok} msgs m a m' :
  accounted ok msgs m → background_if_needed msgs m = Some (a, m') →
  accounted ok msgs m' ∧ ∀ n, a ≠ HardCompacted n.
Proof.
  intros H. unfold background_if_needed. destruct (maybe_start_compaction_with msgs m) as [m1|] eqn:Es; simpl; [|done].
  apply (accounted_start msgs m m1 H) in Es. destruct (_ && _); by intros [= <- <-].
Qed.

Lemma accounted_hard_or_background {ok} msgs m a m' :
  tracked (msgs, m, ok) → hard_compact_or_background msgs m = Some (a, m') →
  accounted (match a with HardCompacted _ => true | _ => ok end) msgs m'.
Proof.
  intros H. unfold hard_compact_or_background. pose proof (λ r m1, accounted_hard (ok := ok) msgs m r m1 H) as Hh.
  destruct (hard_compact_with msgs m) as [r m1]. specialize (Hh r m1 eq_refl). destruct r as [n|e].
  - by intros [= <- <-].
  - intros [Hb Hn]%(accounted_background msgs m1 a m' Hh). destruct a; try done. by destruct (Hn dropped).
Qed.

Lemma accounted_wait {ok} finish msgs m :
  accounted ok msgs m →
  accounted (sound_apply ok (arrived finish m)) msgs (wait_for_pending_compaction_at_hard_threshold finish msgs m).2.
Proof.
  intros H. unfold wait_for_pending_compaction_at_hard_threshold. fold (arrived finish m).
  assert (accounted ok msgs (arrived finish m)) as H1.
  { unfold arrived. destruct (pending_task m) as [[]|] eqn:Hp; [|done..]. destruct finish; [|done].
    by eapply accounted_replace_task. }
  set (m1 := arrived finish m) in *. clearbody m1.
  assert (accounted (sound_apply ok m1) msgs m1) as Hw.
  { eapply accounted_weaken; [|exact H1]. by intros [? _]%andb_true_iff. }
  destruct (pending_task m1) as [[]|]; simpl; [done| |done]. by apply accounted_apply.
Qed.

Lemma accounted_fit {ok} finish msgs m a m' :
  tracked (msgs, m, ok) → ensure_context_fits finish msgs m = Some (a, m') → accounted (sound_fit ok finish msgs a m) msgs m'.
Proof.
  intros [Hb H]. unfold ensure_context_fits, sound_fit. cbn in Hb, H.
  assert (∀ ok' m1, accounted ok' msgs m1 → background_if_needed msgs m1 = Some (a, m') →
    accounted (match a with HardCompacted _ => true | _ => ok' end) msgs m') as Hback.
  { intros ok' m1 H1 [H2 Hn]%(accounted_background msgs m1 a m' H1). destruct a; try done. by destruct (Hn dropped). }
  destruct (geb _ _); [|by apply Hback].
  pose proof (accounted_wait finish msgs m H) as Hm. unfold is_compacting.
  destruct (pending_task m) as [t|] eqn:Hp; cbn [bool_decide].
  - rewrite bool_decide_eq_true_2 by done.
    destruct (ltb _ _); [by apply Hback|apply accounted_hard_or_background; by split].
  - rewrite bool_decide_eq_false_2 by (by intros [? [=]]).
    assert (sound_apply ok (arrived finish m) = ok) as ->.
    { unfold sound_apply, result_ready, arrived. rewrite Hp, Hp. apply andb_true_r. }
    apply accounted_hard_or_background; by split.
Qed.

Lemma accounted_recover {ok} msgs m r msgs' m' :
  tracked (msgs, m, ok) → recover_within_budget msgs m = (r, msgs', m') → accounted (ok || did_anything r) msgs' m'.
Proof.
  intros H. unfold recover_within_budget. destruct (hard_compact_with msgs m) as [res m1] eqn:E1.
  pose proof (accounted_hard msgs m res m1 H E1) as H1. destruct H as [Hb H]. cbn in Hb, H.
  pose proof H as (_ & Hc & _). pose proof (hard_compact_result msgs m Hc Hb) as Hr. rewrite E1 in Hr.
  assert (accounted (ok || (0 <? default 0 match res with Ok d => Some d | Err _ => None end)) msgs m1) as H2.
  { eapply accounted_weaken; [|exact H1]. destruct res; cbn; [done|by rewrite orb_false_r]. }
  destruct (F32.gtb _ _ || _).
  - pose proof (accounted_truncate msgs m1 H2) as Ht. destruct (emergency_truncate_with msgs m1) as [[n l] m2].
    destruct Ht as [_ Ht]. intros [= <- <- <-]. unfold did_anything. cbn. by rewrite orb_assoc.
  - intros [= <- <- <-]. unfold did_anything. cbn. by rewrite orb_false_r.
Qed.

Lemma accounted_restore msgs m state : accounted true msgs (restore_persisted_state_with state msgs m).
Proof.
  unfold restore_persisted_state_with, restore_persisted_state, active_messages. simpl.
  rewrite (Nat.min_l (Nat.min _ _)) by lia. unfold accounted. simpl. split_and!; eauto. lia.
Qed.

Lemma accounted_restore_count msgs m state : accounted true msgs (restore_persisted_state state (length msgs) m).
Proof.
  unfold restore_persisted_state, accounted. simpl. split_and!; eauto; [lia|].
  intros _ Hd%Nat.ltb_ge. by rewrite drop_ge by lia.
Qed.

(** The variant without the messages marks the estimate as stale. *)
Lemma accounted_apply_unseen {ok} msgs m : accounted ok msgs m → accounted true msgs (check_and_apply_compaction m).
Proof.
  intros (Ht & Hc & He & Hs & Hp). unfold check_and_apply_compaction, check_and_apply_compaction_with.
  unfold clamp_compacted_count_to_messages. cbn [length Nat.eqb orb snd].
  destruct (pending_task m) as [[|[r|e|]]|] eqn:Ep.
  - open_manager m. subst tk. unfold accounted. simpl. split_and!; try done; apply Hp.
  - unfold apply_result. cbn [length Nat.eqb negb andb]. unfold discard_oversized_openai_native_compaction.
    open_manager m. destruct (discard_oversized _); unfold accounted; simpl; split_and!; eauto; try done; lia.
  - open_manager m. unfold accounted. simpl. split_and!; done.
  - open_manager m. unfold accounted. simpl. split_and!; done.
  - open_manager m. subst tk. unfold accounted. simpl. split_and!; try done.
Qed.

Lemma tracked_step s s' : manager_step s s' → tracked s → tracked s'.
Proof.
  intros Hs Hb'. pose proof Hb' as [Hb H]. destruct Hs; cbn [fst snd] in *; split; cbn [fst snd]; try assumption.
  - by apply accounted_add.
  - by eapply accounted_notify.
  - by apply accounted_set_observed.
  - by apply accounted_set_history.
  - unfold push_embedding_snapshot. pose proof (only_cache_lookup (take_chars EMBED_MAX_CHARS_PER_MSG text) m) as Hc.
    destruct (cached_semantic_embedding _ m) as [[e|] m1]; simpl in Hc; apply (accounted_only_cache _ _ _ Hc) in H; [|done].
    by apply accounted_set_embeddings.
  - by apply accounted_set_budget.
  - by apply accounted_set_mode.
  - by eapply accounted_start.
  - by apply accounted_force.
  - unfold task_finishes. destruct (pending_task m) as [[]|] eqn:Hp; [|done..]. by eapply accounted_replace_task.
  - by eapply accounted_replace_task.
  - by apply accounted_apply.
  - by eapply accounted_apply_unseen.
  - by apply accounted_set_last.
  - unfold poll_compaction_event_with, take_compaction_event. simpl. by apply accounted_set_last, accounted_apply.
  - unfold messages_for_api_with. simpl. by apply accounted_discard, accounted_apply.
  - by apply accounted_discard.
  - by eapply accounted_hard.
  - by eapply accounted_fit.
  - pose proof (accounted_truncate msgs m H) as Ht. rewrite H0 in Ht. apply Ht.
  - by eapply accounted_recover.
  - apply accounted_restore.
  - apply accounted_restore_count.
  - unfold accounted. simpl. rewrite drop_0. split_and!; try done; lia.
  - unfold accounted. simpl. rewrite drop_0. split_and!; try done; try lia. intros _ Hd%Nat.ltb_ge.
    by destruct msgs'; [|simpl in Hd; lia].
Qed.

Lemma tracked_reachable cfg s : rtc manager_step ([], manager_new cfg, true) s → tracked s.
Proof.
  intros Hr. assert (∀ a b, rtc manager_step a b → tracked a → tracked b) as H.
  { induction 1; [done|]. intros. eauto using tracked_step. }
  eapply H; [done|apply tracked_new].
Qed.

Lemma apply_keeps_recent {ok} msgs m r :
  accounted ok msgs m → pending_task m = Some (Finished (Produced r)) →
  let m' := check_and_apply_compaction_with msgs m in
  accounted (sound_apply ok m) msgs m' ∧ compacted_count m' = compacted_count m + pending_cutoff m
  ∧ RECENT_TURNS_TO_KEEP ≤ length (active_messages m' msgs).
Proof.
  intros H Hp. pose proof (accounted_apply msgs m H) as Ha. cbn zeta. split; [done|]. clear Ha.
  unfold check_and_apply_compaction_with. rewrite (clamp_accounted _ _ H). cbn [snd].
  rewrite Hp. destruct (accounted_apply_result msgs m r H Hp) as (H1 & _ & H3). split; [done|].
  rewrite (accounted_active _ _ H1), length_drop, H3. destruct H as (_ & _ & _ & _ & Hk). rewrite Hp in Hk. lia.
Qed.

(** C12: Accounting of the live conversation.  Let every new message be reported,
    with or without its content.  Then, whatever the calls, emergency
    truncations and recoveries and restored or freshly seeded histories included,
    the skipped prefix is a prefix of the history and has a summary, and a
    background result that is ready is never stale: applying it advances by
    exactly the summarised messages and leaves at least the ten most recent ones
    live.  The number of live characters the manager works with is exact, unless,
    since the text was last counted or marked stale, a stale count has been
    extended by a message's content or carried over a result; the manager does not
    prevent either.  Applying a result to a count that is exact and not marked
    stale gives an exact one. *)
Theorem compaction_accounting_exact (cfg : CompactionConfig) (msgs : list Message) (m : CompactionManager) (sound : bool) :
  rtc manager_step ([], manager_new cfg, true) (msgs, m, sound) →
  compacted_count m ≤ length msgs
  ∧ (0 < compacted_count m → is_Some (active_summary m))
  ∧ (sound = true → active_message_chars_with m msgs = message_chars (active_messages m msgs))
  ∧ ∀ r, pending_task m = Some (Finished (Produced r)) →
      let m' := check_and_apply_compaction_with msgs m in
      compacted_count m' = compacted_count m + pending_cutoff m
      ∧ RECENT_TURNS_TO_KEEP ≤ length (active_messages m' msgs)
      ∧ (sound = true → ac_dirty (active_chars m) = false →
         active_message_chars_with m' msgs = message_chars (active_messages m' msgs)).
Proof.
  intros [_ H]%tracked_reachable. simpl in H. pose proof H as (_ & Hc & _ & Hs & _).
  split_and!; [done|done|by intros ->; apply accounted_chars|]. intros r Hp. cbn zeta.
  destruct (apply_keeps_recent msgs m r H Hp) as (H1 & H2 & H3). split_and!; [done|done|]. intros -> Hd.
  apply accounted_chars. by rewrite (eq_refl : sound_apply true m = negb (result_ready m && _)), Hd, andb_false_r in H1.
Qed.

(** Hard compaction, on every branch.  It succeeds exactly when there is a
    cut that keeps at least two messages and no tool result without its call.
    On success the cut has both properties, and what is kept fits the budget
    unless no larger cut would do; the skipped prefix grows by the messages
    dropped, the estimate is exact, there is a summary, and a background task
    that was in flight is gone.  On failure nothing changes. *)
Theorem hard_compact_contract (msgs : list Message) (m : CompactionManager) :
  compacted_count m ≤ length msgs → (message_chars msgs ≤ USIZE_MAX)%N →
  match hard_compact_with msgs m with
  | (Ok n, m') =>
      good_cut (active_messages m msgs) n
      ∧ ((message_chars (drop n (active_messages m msgs)) / CHARS_PER_TOKEN ≤ token_budget m)%N
         ∨ ∀ n', good_cut (active_messages m msgs) n' → n' ≤ n)
      ∧ compacted_count m' = compacted_count m + n
      ∧ active_messages m' msgs = drop n (active_messages m msgs)
      ∧ active_chars m' = mkEstimate (message_chars (active_messages m' msgs)) false
      ∧ pending_task m' = None ∧ is_Some (active_summary m')
  | (Err _, m') => m' = m ∧ ∀ n, ¬ good_cut (active_messages m msgs) n
  end.
Proof.
  intros Hc Hb. pose proof (hard_compact_result msgs m Hc Hb) as H.
  destruct (hard_compact_with msgs m) as [[n|e] m']; [|done].
  destruct H as (? & ? & ? & ? & ? & ? & ? & _). done.
Qed.

(** A stale estimate is trusted again.  Adding a message to a stale
    estimate extends the stale number and marks it exact; and applying a
    background result while the estimate is stale counts the summarised
    messages off twice, once by recounting the new live suffix and once by
    subtracting them, and marks the difference exact. *)
Theorem stale_estimate_is_trusted (msgs : list Message) (m : CompactionManager) (r : CompactionResult) (x : Message) :
  ac_dirty (active_chars m) = true →
  compacted_count m ≤ length msgs →
  pending_task m = Some (Finished (Produced r)) →
  pending_cutoff m + MIN_TURNS_TO_KEEP ≤ length (active_messages m msgs) →
  active_chars (notify_message_added_with x m)
  = mkEstimate (saturating_add (ac_chars (active_chars m)) (message_char_count x)) false
  ∧ let m' := check_and_apply_compaction_with msgs m in
    active_messages m' msgs = drop (pending_cutoff m) (active_messages m msgs)
    ∧ active_chars m'
      = mkEstimate (message_chars (active_messages m' msgs)
                    - message_chars (take (pending_cutoff m) (active_messages m msgs)))%N false.
Proof.
  intros Hd Hc Hp Hk. split; [by open_manager m|]. cbn zeta.
  unfold check_and_apply_compaction_with, clamp_compacted_count_to_messages.
  rewrite (proj2 (Nat.leb_le _ _) Hc), orb_true_r. cbn [snd]. rewrite Hp. unfold apply_result.
  unfold active_messages in *. rewrite Nat.min_l, length_drop in Hk by done.
  assert (length msgs =? 0 = false) as -> by (apply Nat.eqb_neq; unfold MIN_TURNS_TO_KEEP in *; lia).
  open_manager m. subst tk. rewrite (Nat.min_l cc) by lia. rewrite length_drop.
  assert (length msgs - cc - MIN_TURNS_TO_KEEP <? cut = false) as -> by (apply Nat.ltb_ge; lia). simpl.
  rewrite (Nat.min_l (cc + cut)) by (unfold MIN_TURNS_TO_KEEP in *; lia).
  unfold discard_oversized_openai_native_compaction. simpl.
  destruct (discard_oversized _); simpl; rewrite !(Nat.min_l (cc + cut)) by (unfold MIN_TURNS_TO_KEEP in *; lia);
    (split; [by rewrite drop_drop|]); unfold active_message_chars_with, active_messages; simpl; rewrite Hd; simpl;
    by rewrite (Nat.min_l (cc + cut)) by (unfold MIN_TURNS_TO_KEEP in *; lia).
Qed.

(** ** Persistence *)

(** Saving and restoring the compacted view.  The state exported by a
    manager with no task in flight, restored over the same messages into any
    manager, gives the same request messages, exports the same state again, and
    counts the live characters exactly. *)
Theorem compaction_state_roundtrip (msgs : list Message) (m m0 : CompactionManager) (state : StoredCompactionState) :
  compacted_count m ≤ length msgs → pending_task m = None → persisted_state m = Some state →
  let m' := restore_persisted_state_with state msgs m0 in
  (messages_for_api_with msgs m').1 = (messages_for_api_with msgs m).1
  ∧ persisted_state m' = Some state
  ∧ active_message_chars_with m' msgs = message_chars (active_messages m' msgs).
Proof.
  intros Hc Hp Hs. cbn zeta. split_and!.
  - unfold messages_for_api_with, check_and_apply_compaction_with, clamp_compacted_count_to_messages, persisted_state in *.
    rewrite (proj2 (Nat.leb_le _ _) Hc), orb_true_r. cbn [snd]. rewrite Hp.
    open_manager m. destruct sm as [sm|]; [|done]. simpl in Hs. injection Hs as <-.
    unfold restore_persisted_state_with, restore_persisted_state. simpl. rewrite Nat.min_l by done.
    rewrite (proj2 (Nat.leb_le _ _) Hc), orb_true_r. simpl.
    unfold discard_oversized_openai_native_compaction. destruct sm as [tx en cv orig]; simpl.
    destruct (discard_oversized _); simpl; unfold active_messages; simpl; rewrite Nat.min_l by done; done.
  - unfold persisted_state in *. open_manager m. destruct sm as [sm|]; [|done]. simpl in Hs. injection Hs as <-.
    simpl. by rewrite Nat.min_l.
  - apply accounted_chars, accounted_restore.
Qed.

(** ** The check that can panic *)

Lemma growth_stalled_None window history : growth_stalled window history = None ↔ window = 0.
Proof.
  unfold growth_stalled. destruct (window <=? length history) eqn:Ew.
  - apply Nat.leb_le in Ew. destruct window as [|w].
    + by rewrite take_0.
    + split; [|done]. destruct (rev history) as [|a l] eqn:Er.
      { apply (f_equal length) in Er. rewrite length_rev in Er. simpl in Er. lia. }
      cbn [take head]. destruct (last (a :: take w l)) eqn:El; [done|]. by apply last_None in El.
  - apply Nat.leb_gt in Ew. split; [done|lia].
Qed.

Lemma anti_signals_None m all :
  anti_signals_block m all = None
  ↔ pending_task m = None ∧ ltb (context_usage_with m all) (cfg_proactive_floor (compaction_config m)) = false
    ∧ cfg_min_samples (compaction_config m) ≤ length (token_history m) ∧ cfg_stall_window (compaction_config m) = 0.
Proof.
  unfold anti_signals_block, is_compacting. destruct (pending_task m) as [t|]; simpl; [naive_solver|].
  destruct (ltb _ _); [naive_solver|]. destruct (_ <? _) eqn:El.
  - apply Nat.ltb_lt in El. split; [done|]. intros (_ & _ & ? & _). lia.
  - apply Nat.ltb_ge in El. rewrite <- (growth_stalled_None _ (token_history m)).
    destruct (growth_stalled _ _) as [[]|]; simpl; naive_solver.
Qed.

(** When the trigger check panics.  Deciding whether to compact fails
    exactly in the two predictive modes, after a new message and above the
    recent turns, when nothing else blocks and the configured stall window is
    0, which indexes an empty list of snapshots; with any other window it
    always answers. *)
Theorem trigger_check_panics_iff (m : CompactionManager) (all : list Message) :
  should_compact_with m all = None
  ↔ suppress_compaction_until_new_message m = false ∧ mode m ≠ Reactive
    ∧ RECENT_TURNS_TO_KEEP < length (active_messages m all)
    ∧ pending_task m = None
    ∧ ltb (context_usage_with m all) (cfg_proactive_floor (compaction_config m)) = false
    ∧ cfg_min_samples (compaction_config m) ≤ length (token_history m)
    ∧ cfg_stall_window (compaction_config m) = 0.
Proof.
  assert (should_compact_proactively m all = None ↔ anti_signals_block m all = None) as Hp.
  { unfold should_compact_proactively. destruct (anti_signals_block m all) as [[]|]; simpl; try done.
    destruct (projected_tokens _ _ _); done. }
  assert (should_compact_semantic m all = None ↔ anti_signals_block m all = None) as Hs.
  { unfold should_compact_semantic. destruct (anti_signals_block m all) as [[]|] eqn:Ea; simpl; try done.
    destruct (_ <? 4); [done|]. destruct (topic_shifted _ _); done. }
  rewrite anti_signals_None in Hp, Hs. unfold should_compact_with.
  destruct (suppress_compaction_until_new_message m); [by split; [|intros [? _]]|].
  destruct (mode m) eqn:Em; [by split; [|intros (_ & ? & _)]|..];
    destruct (RECENT_TURNS_TO_KEEP <? length (active_messages m all)) eqn:El;
    first [apply Nat.ltb_lt in El | apply Nat.ltb_ge in El; split; [done|intros (_ & _ & ? & _); lia]];
    first [rewrite Hp | rewrite Hs];
    (split; [intros (? & ? & ? & ?); split_and!; done|intros (_ & _ & _ & ? & ? & ? & ?); split_and!; done]).
Qed.

(** ** The embedding cache *)

Definition cache_ok (m : CompactionManager) : Prop :=
  size (semantic_embed_cache m) ≤ SEMANTIC_EMBED_CACHE_CAPACITY
  ∧ ∀ k e r, semantic_embed_cache m !! k = Some (e, r) → ∃ text, k = semantic_cache_key text ∧ e = embed text.

Lemma oldest_key_Some cache : size cache ≠ 0 → ∃ k v, oldest_key cache = Some k ∧ cache !! k = Some v.
Proof.
  intros Hs. unfold oldest_key.
  assert (∀ l best, (∀ k r, best = Some (k, r) → is_Some (cache !! k)) →
    (∀ k v, (k, v) ∈ l → cache !! k = Some v) →
    (∃ k r, best = Some (k, r)) ∨ l ≠ [] →
    ∃ k r, fold_left (λ best '(k, (_, r)), match best with
      | Some (_, r') => if (r <? r')%N then Some (k, r) else best
      | None => Some (k, r) end) l best = Some (k, r) ∧ is_Some (cache !! k)) as H.
  { induction l as [|[k [e r]] l IH]; intros best Hb Hl Hne; cbn [fold_left].
    - destruct Hne as [(k & r & ->)|]; [|done]. exists k, r. split; [done|]. by eapply Hb.
    - apply IH.
      + intros k' r' Hk. destruct best as [[k0 r0]|].
        * destruct (r <? r0)%N; [|by eapply Hb]. injection Hk as <- <-. exists (e, r). apply Hl. left.
        * injection Hk as <- <-. exists (e, r). apply Hl. left.
      + intros k' v Hk. apply Hl. by right.
      + left. destruct best as [[k0 r0]|]; [destruct (r <? r0)%N|]; eauto. }
  destruct (H (map_to_list cache) None) as (k & r & -> & [v Hv]).
  - done.
  - intros k v. apply elem_of_map_to_list.
  - right. intros Hn. apply map_to_list_empty_iff in Hn. subst. by rewrite map_size_empty in Hs.
  - by exists k, v.
Qed.

Lemma cached_lookup_ok `{!Inj (=) (=) semantic_cache_key} text m :
  cache_ok m → (cached_semantic_embedding text m).1 = embed text ∧ cache_ok (cached_semantic_embedding text m).2.
Proof.
  intros [Hs Hc]. unfold cached_semantic_embedding. destruct (semantic_embed_cache m !! _) as [[e r]|] eqn:El; simpl.
  - destruct (Hc _ _ _ El) as (t & Ht%(inj _) & ->). subst t. split; [done|]. unfold cache_ok.
    open_manager m. split; [by rewrite map_size_insert_Some by eauto|]. intros k e' r' Hl.
    apply lookup_insert_Some in Hl as [[<- [= <- <-]]|[_ Hl]]; eauto.
  - split; [done|]. unfold insert_semantic_embedding_cache. set (cache := semantic_embed_cache m) in *.
    match goal with |- context [<[_ := _]> ?c] => set (cache' := c) end.
    assert (size cache' < SEMANTIC_EMBED_CACHE_CAPACITY ∧ cache' ⊆ cache) as [Hs' Hsub].
    { unfold cache'. destruct (_ <=? size cache) eqn:Ec.
      - apply Nat.leb_le in Ec. destruct (oldest_key_Some cache) as (k & v & -> & Hk).
        { unfold SEMANTIC_EMBED_CACHE_CAPACITY in *. lia. }
        split; [|apply delete_subseteq]. rewrite map_size_delete_Some by eauto.
        unfold SEMANTIC_EMBED_CACHE_CAPACITY in *. lia.
      - apply Nat.leb_gt in Ec. done. }
    clearbody cache cache'. unfold cache_ok.
    assert (∀ c n, semantic_embed_cache (set_cache c n m) = c) as -> by by destruct m. split.
    + rewrite map_size_insert. destruct (cache' !! _); unfold id; lia.
    + intros k e r Hl. apply lookup_insert_Some in Hl as [[<- [= <- <-]]|[_ Hl]]; [eauto|].
      eapply Hc, lookup_weaken; eauto.
Qed.

(** Look-ups one after the other. *)
Fixpoint lookups (texts : list string) (m : CompactionManager) : list (option (list f32)) * CompactionManager :=
  match texts with
  | [] => ([], m)
  | t :: rest => let '(e, m) := cached_semantic_embedding t m in
                 let '(es, m) := lookups rest m in (e :: es, m)
  end.

(** The embedding cache is transparent and bounded.  When no two texts
    share a key, any sequence of look-ups from an empty cache returns what the
    model returns, and the cache never holds more than its capacity. *)
Theorem embedding_cache_transparent (cfg : CompactionConfig) (texts : list string) :
  Inj (=) (=) semantic_cache_key →
  (lookups texts (manager_new cfg)).1 = embed <$> texts
  ∧ size (semantic_embed_cache (lookups texts (manager_new cfg)).2) ≤ SEMANTIC_EMBED_CACHE_CAPACITY.
Proof.
  intros Hinj. assert (cache_ok (manager_new cfg)) as Hok.
  { split; [simpl; rewrite map_size_empty; lia|]. intros k e r Hl. simpl in Hl. by rewrite lookup_empty in Hl. }
  enough ((lookups texts (manager_new cfg)).1 = embed <$> texts ∧ cache_ok (lookups texts (manager_new cfg)).2)
    as [? [? _]] by done.
  revert Hok. generalize (manager_new cfg) as m. induction texts as [|t texts IH]; intros m Hok; [done|].
  cbn [lookups]. destruct (cached_lookup_ok t m Hok) as [H1 H2].
  destruct (cached_semantic_embedding t m) as [e m1]. simpl in *. subst e.
  destruct (IH m1 H2) as [H3 H4]. destruct (lookups texts m1) as [es m2]. simpl in *. by subst.
Qed.
End Claims.

(** ** Witnesses *)

Definition demo_embedder : Embedder := {| embed := λ _, Some [F32.one]; semantic_cache_key := λ s, N.pos (encode s) |}.
Definition demo_unicode : Unicode :=
  {| to_lowercase := to_ascii_lowercase; is_alphanumeric := λ c, any_byte is_ascii_alphanumeric c |}.

Definition demo_message (text : string) : @Message text_json tick_chrono := mkMessage User [Text text None] None None.
Definition demo_history : list (@Message text_json tick_chrono) := replicate 12 (demo_message "hello").
Definition demo_provider : @Provider text_json tick_chrono :=
  mkProvider (λ _ _ _, Err "none") 200000 (λ _ _, Ok "summary").

(** A restored history of twelve messages, a small budget, a manual compaction
    and its summary. *)
Definition demo_seeded : @CompactionManager text_json tick_chrono :=
  set_budget 20 (seed_restored_messages_with demo_history (manager_new config_default)).
Definition demo_ready : @CompactionManager text_json tick_chrono :=
  task_finishes demo_provider 7 (force_compact_with demo_history demo_seeded).2.

Lemma compaction_accounting_exact_witness :
  let m' := check_and_apply_compaction_with demo_history demo_ready in
  compacted_count m' = 2 ∧ RECENT_TURNS_TO_KEEP ≤ length (active_messages m' demo_history).
Proof.
  assert (rtc (manager_step (E := demo_embedder) (U := demo_unicode)) ([], manager_new config_default, true)
            (demo_history, demo_ready, true)) as Hr.
  { eapply rtc_l; [apply (step_seed _ _ _ config_default demo_history); vm_compute; discriminate|].
    eapply rtc_l; [apply (step_budget _ _ _ 20)|]. eapply rtc_l; [apply step_force|].
    apply rtc_once. apply (step_finish _ _ _ demo_provider 7). }
  destruct (compaction_accounting_exact _ _ _ _ Hr) as (_ & _ & _ & H).
  destruct (H (mkResult "summary" None 2 7 2) ltac:(vm_compute; reflexivity)) as (H1 & H2 & _).
  cbn zeta. split; [rewrite H1; vm_compute; reflexivity|exact H2].
Defined.

Lemma hard_compact_contract_witness :
  ∃ n m', hard_compact_with (U := demo_unicode) demo_history demo_seeded = (Ok n, m')
          ∧ good_cut (active_messages demo_seeded demo_history) n.
Proof.
  pose proof (hard_compact_contract (U := demo_unicode) demo_history demo_seeded
    ltac:(vm_compute; lia) ltac:(vm_compute; discriminate)) as H.
  destruct (hard_compact_with demo_history demo_seeded) as [[n|e] m'] eqn:Eq.
  - exists n, m'. split; [reflexivity|]. apply H.
  - exfalso. vm_compute in Eq. discriminate Eq.
Defined.

(** The twelve messages heard of without their content. *)
Definition demo_stale : @CompactionManager text_json tick_chrono := map_chars invalidate demo_ready.

Lemma stale_estimate_is_trusted_witness :
  let m' := check_and_apply_compaction_with demo_history demo_stale in
  active_message_chars_with m' demo_history = 40%N
  ∧ message_chars (active_messages m' demo_history) = 50%N.
Proof.
  destruct (stale_estimate_is_trusted demo_history demo_stale (mkResult "summary" None 2 7 2) (demo_message "x")
    ltac:(reflexivity) ltac:(vm_compute; lia) ltac:(vm_compute; reflexivity) ltac:(vm_compute; lia)) as (_ & H1 & H2).
  cbn zeta. split; [|rewrite H1; vm_compute; reflexivity].
  unfold active_message_chars_with. rewrite H2, H1. vm_compute. reflexivity.
Defined.

Lemma compaction_state_roundtrip_witness :
  (messages_for_api_with demo_history
     (restore_persisted_state_with (mkStored "earlier" None 2 2 2) demo_history demo_seeded)).1
  = demo_message (compacted_summary_text_block "earlier") :: drop 2 demo_history.
Proof.
  pose (m := set_compacted 2 (set_summary (Some (mkSummary "earlier" None 2 2)) demo_seeded)).
  destruct (compaction_state_roundtrip demo_history m demo_seeded (mkStored "earlier" None 2 2 2)
    ltac:(vm_compute; lia) ltac:(reflexivity) ltac:(reflexivity)) as [H _].
  rewrite H. vm_compute. reflexivity.
Defined.

Lemma embedding_cache_transparent_witness :
  (lookups (J := text_json) (T := tick_chrono) (E := demo_embedder) ["a"; "b"; "a"] (manager_new config_default)).1
  = [Some [F32.one]; Some [F32.one]; Some [F32.one]].
Proof.
  assert (Inj (=) (=) (@semantic_cache_key demo_embedder)) as Hi.
  { intros x y Hxy. simpl in Hxy. injection Hxy as Hxy. by apply (inj encode). }
  destruct (embedding_cache_transparent (J := text_json) (T := tick_chrono) config_default ["a"; "b"; "a"] Hi) as [H _].
  exact H.
Defined.
