(* ===== verification/ModelId.v ===== *)
(** * Model identifiers and what they are known to support

    crates/jcode-provider-core/src: model_id.rs (normalisation), models.rs (the
    static catalogue, provider inference, context limits), anthropic.rs (the
    long-context and reasoning tables) and reasoning.rs (effort ladders). *)

From Stdlib Require Import Ascii.
From stdpp Require Import base list gmap strings.
From S2P Require Import Prelude RustString RustText.

Open Scope string_scope.
Open Scope nat_scope.
Open Scope list_scope.

(** ** String operations *)

(** The arm of a [match] on a string that lists several literals. *)
Definition one_of (l : list string) (s : string) : bool := existsb (String.eqb s) l.
Definition starts_with_any (l : list string) (s : string) : bool := existsb (λ p, starts_with p s) l.
Definition contains_any (l : list string) (s : string) : bool := existsb (λ p, str_contains p s) l.
Definition contains_byte (b : Ascii.ascii) (s : string) : bool := any_byte (λ c, bool_decide (c = b)) s.

(** [a.eq_ignore_ascii_case(b)]. *)
Definition eq_ignore_ascii_case (a b : string) : bool :=
  bool_decide (to_ascii_lowercase a = to_ascii_lowercase b).

Definition ends_with (suf s : string) : bool :=
  (String.length suf <=? String.length s)
  && bool_decide (str_drop (String.length s - String.length suf) s = suf).
Definition strip_suffix (suf s : string) : option string :=
  if ends_with suf s then Some (str_take (String.length s - String.length suf) s) else None.

(** [s.replace(char, new)] for a one-byte character. *)
Fixpoint replace_byte (p : Ascii.ascii → bool) (new s : string) : string :=
  match s with
  | "" => ""
  | String c s' => (if p c then new else String c "") +:+ replace_byte p new s'
  end.

(** [s.split_once(sep)] and [s.rsplit_once(sep)] for a one-byte separator. *)
Fixpoint split_once (sep : Ascii.ascii) (s : string) : option (string * string) :=
  match s with
  | "" => None
  | String c s' =>
      if bool_decide (c = sep) then Some ("", s')
      else match split_once sep s' with
           | Some (a, b) => Some (String c a, b)
           | None => None
           end
  end.
Fixpoint rsplit_once (sep : Ascii.ascii) (s : string) : option (string * string) :=
  match s with
  | "" => None
  | String c s' =>
      match rsplit_once sep s' with
      | Some (a, b) => Some (String c a, b)
      | None => if bool_decide (c = sep) then Some ("", s') else None
      end
  end.

Definition every_byte (p : Ascii.ascii → bool) (s : string) : bool := negb (any_byte (λ c, negb (p c)) s).

(** ** model_id.rs *)

Definition LONG_CONTEXT_SUFFIX : string := "[1m]".

Definition strip_long_context_suffix (model : string) : string :=
  default model (strip_suffix LONG_CONTEXT_SUFFIX model).

Definition split_long_context (model : string) : string * bool :=
  match strip_suffix LONG_CONTEXT_SUFFIX model with
  | Some base => (base, true)
  | None => (model, false)
  end.

Definition canonical (model : string) : string :=
  strip_long_context_suffix (to_ascii_lowercase (trim model)).

Definition strip_date_suffix (model : string) : string :=
  match rsplit_once "-" model with
  | Some (head, tail) =>
      if (String.length tail =? 8) && every_byte is_ascii_digit tail then head else model
  | None => model
  end.

Definition slash_base (model : string) : string :=
  match rsplit_once "/" model with Some (_, base) => base | None => model end.

Definition matches_known_model (model : string) (known : list string) : bool :=
  let trimmed := trim model in
  if existsb (λ candidate, eq_ignore_ascii_case candidate trimmed) known then true
  else existsb (λ candidate, eq_ignore_ascii_case candidate (strip_long_context_suffix trimmed)) known.

(** ** models.rs: the catalogue *)

Definition DEFAULT_CLAUDE_MODEL : string := "claude-fable-5".
Definition DEFAULT_OPENAI_MODEL : string := "gpt-5.6-sol".

Definition ALL_CLAUDE_MODELS : list string :=
  [DEFAULT_CLAUDE_MODEL; "claude-opus-4-8"; "claude-opus-4-6"; "claude-opus-4-6[1m]"; "claude-sonnet-5";
   "claude-sonnet-4-6"; "claude-sonnet-4-6[1m]"; "claude-haiku-4-5"; "claude-opus-4-5"; "claude-sonnet-4-5";
   "claude-sonnet-4-20250514"].

Definition OPENAI_API_ONLY_PRO_MODELS : list string := ["gpt-5.5-pro"; "gpt-5.4-pro"; "gpt-5.2-pro"; "gpt-5-pro"].

Definition is_openai_api_only_pro_model (model : string) : bool :=
  let trimmed := trim model in
  existsb (eq_ignore_ascii_case trimmed) OPENAI_API_ONLY_PRO_MODELS
  || ((4 <? String.length trimmed)
      && existsb (λ pro, starts_with (pro +:+ "-") (to_ascii_lowercase trimmed)) OPENAI_API_ONLY_PRO_MODELS).

Definition ALL_OPENAI_MODELS : list string :=
  [DEFAULT_OPENAI_MODEL; "gpt-5.5-pro"; "gpt-5.5"; "gpt-5.4"; "gpt-5.4-pro"; "gpt-5.3-codex"; "gpt-5.3-codex-spark";
   "gpt-5.2-chat-latest"; "gpt-5.2-codex"; "gpt-5.2-pro"; "gpt-5.1-codex-mini"; "gpt-5.1-codex-max"; "gpt-5.2";
   "gpt-5.1-chat-latest"; "gpt-5.1"; "gpt-5.1-codex"; "gpt-5-chat-latest"; "gpt-5-codex"; "gpt-5-codex-mini";
   "gpt-5-pro"; "gpt-5-mini"; "gpt-5-nano"; "gpt-5"].

Definition DEFAULT_CONTEXT_LIMIT : N := 200000.

Definition normalize_provider_id (provider : string) : string := to_ascii_lowercase (trim provider).

Definition provider_key_from_hint (provider_hint : option string) : option string :=
  match provider_hint with
  | None => None
  | Some hint =>
      let normalized := normalize_provider_id hint in
      if one_of ["anthropic"; "claude"] normalized then Some "claude"
      else if one_of ["openai"] normalized then Some "openai"
      else if one_of ["openrouter"] normalized then Some "openrouter"
      else if one_of ["copilot"; "github copilot"] normalized then Some "copilot"
      else if one_of ["antigravity"] normalized then Some "antigravity"
      else if one_of ["gemini"; "google gemini"] normalized then Some "gemini"
      else if one_of ["cursor"] normalized then Some "cursor"
      else None
  end.

Definition is_listable_model_name (model : string) : bool :=
  let trimmed := trim model in
  negb (str_is_empty trimmed) && negb (one_of ["copilot models"; "openrouter models"] trimmed).

Definition model_id_for_capability_lookup (model : string) (provider : option string) : string * bool :=
  let normalized := to_ascii_lowercase (trim model) in
  let '(base, is_1m) := split_long_context normalized in
  let lookup :=
    if bool_decide (provider = Some "openrouter") || contains_byte "/" base then slash_base base else base in
  (lookup, is_1m).

(** The arms of this table that repeat the default limit are kept. *)
Definition copilot_context_limit_for_model (model : string) : N :=
  if one_of ["claude-sonnet-4"; "claude-sonnet-4-6"; "claude-sonnet-4.6"] model then 128000
  else if one_of ["claude-opus-4-6"; "claude-opus-4.6"; "claude-opus-4.6-fast"] model then 200000
  else if one_of ["claude-opus-4.5"; "claude-opus-4-5"] model then 200000
  else if one_of ["claude-sonnet-4.5"; "claude-sonnet-4-5"] model then 200000
  else if one_of ["claude-haiku-4.5"; "claude-haiku-4-5"] model then 200000
  else if one_of ["gpt-4o"; "gpt-4o-mini"] model then 128000
  else if starts_with "gpt-4o" model then 128000
  else if starts_with "gpt-4.1" model then 128000
  else if starts_with "gpt-5" model then 128000
  else if one_of ["o3-mini"; "o4-mini"] model then 128000
  else if starts_with "gemini-2.0-flash" model then 1000000
  else if starts_with "gemini-2.5" model then 1000000
  else if starts_with "gemini-3" model then 1000000
  else 128000.

Definition provider_for_model_with_hint (model : string) (provider_hint : option string) : option string :=
  match provider_key_from_hint provider_hint with
  | Some provider => Some provider
  | None =>
      let model := trim model in
      if contains_byte "@" model then Some "openrouter"
      else if one_of ALL_CLAUDE_MODELS model then Some "claude"
      else if one_of ALL_OPENAI_MODELS model then Some "openai"
      else if contains_byte "/" model then Some "openrouter"
      else if starts_with "claude-" model then Some "claude"
      else if starts_with "gpt-" model then Some "openai"
      else if starts_with "gemini-" model then Some "gemini"
      else None
  end.

Definition provider_for_model (model : string) : option string := provider_for_model_with_hint model None.

(** ** anthropic.rs: long context *)

Inductive AnthropicContextMode := Native1M | OptIn1M | Standard.

Definition default_context_window (m : AnthropicContextMode) : N :=
  match m with Native1M => 1000000 | OptIn1M | Standard => 200000 end.
Definition long_context_window (m : AnthropicContextMode) : N :=
  match m with Native1M => 1000000 | OptIn1M => 1048576 | Standard => 200000 end.
Definition has_1m_window (m : AnthropicContextMode) : bool :=
  match m with Standard => false | _ => true end.
Definition exposes_1m_alias (m : AnthropicContextMode) : bool :=
  match m with OptIn1M => true | _ => false end.

Definition anthropic_strip_1m_suffix (model : string) : string := strip_long_context_suffix model.

Definition anthropic_context_mode (model : string) : AnthropicContextMode :=
  let base := to_ascii_lowercase (anthropic_strip_1m_suffix (trim model)) in
  if starts_with_any ["claude-opus-4-8"; "claude-opus-4.8"; "claude-opus-4-7"; "claude-opus-4.7";
                      "claude-sonnet-5"; "claude-fable-5"] base then Native1M
  else if starts_with_any ["claude-opus-4-6"; "claude-opus-4.6"; "claude-sonnet-4-6"; "claude-sonnet-4.6"] base
  then OptIn1M
  else Standard.

Definition anthropic_is_1m_model (model : string) : bool := ends_with "[1m]" model.
Definition anthropic_effectively_1m (model : string) : bool := anthropic_is_1m_model model.

(** ** models.rs: context limits *)

Definition KNOWN_CLAUDE_PREFIXES : list string :=
  ["claude-opus-4-8"; "claude-opus-4.8"; "claude-opus-4-7"; "claude-opus-4.7"; "claude-opus-4-6"; "claude-opus-4.6";
   "claude-opus-4-5"; "claude-opus-4.5"; "claude-sonnet-5"; "claude-sonnet-4-6"; "claude-sonnet-4.6";
   "claude-sonnet-4-5"; "claude-sonnet-4.5"; "claude-haiku-4-5"; "claude-haiku-4.5"; "claude-fable-5"; "claude-fable"].
Definition base_is_known_claude_model (base : string) : bool := starts_with_any KNOWN_CLAUDE_PREFIXES base.

Definition open_weight_family_context_limit (m : string) : option N :=
  let glm :=
    if str_contains "glm" m then
      if contains_any ["glm-5.2"; "glm-52"; "glm-5p2"] m then Some 1000000%N
      else if contains_any ["glm-5"; "glm-4.7"; "glm-47"; "glm-4p7"; "glm-4-7"; "glm-4.6"; "glm-46"; "glm-4p6"] m
      then Some 200000%N
      else if str_contains "glm-4" m then Some 128000%N
      else None
    else None in
  match glm with
  | Some limit => Some limit
  | None =>
      if str_contains "deepseek-v4" m then Some 1000000%N
      else if contains_any ["deepseek-v3.2"; "deepseek-v3p2"; "deepseek-v3-2"] m then Some 163840%N
      else if str_contains "deepseek-v3" m then Some 131072%N
      else if str_contains "kimi" m then Some 262144%N
      else if str_contains "minimax" m then Some 204800%N
      else if str_contains "mimo" m then Some 262144%N
      else if str_contains "gte-qwen" m then Some 32768%N
      else if contains_any ["qwen3"; "qwen-3"] m then Some 262144%N
      else if str_contains "gpt-oss" m then Some 131072%N
      else if str_contains "llama-3" m then Some 131072%N
      else if str_contains "hermes-4" m then Some 131072%N
      else if str_contains "gemma-3" m then Some 131072%N
      else if str_contains "mistral-small-3" m then Some 131072%N
      else if str_contains "grok-code-fast" m then Some 256000%N
      else if str_contains "sonar" m then Some 128000%N
      else None
  end.

Definition context_limit_for_model_with_provider_and_cache (model : string) (provider_hint : option string)
    (cached_context_limit : string → option N) : option N :=
  let provider :=
    match provider_key_from_hint provider_hint with
    | Some p => Some p
    | None => provider_for_model model
    end in
  let '(model, is_1m) := model_id_for_capability_lookup model provider in
  if bool_decide (provider = Some "copilot") then Some (copilot_context_limit_for_model model)
  else if starts_with "gpt-5.3-codex-spark" model then Some 128000%N
  else if starts_with_any ["gpt-5.2-chat"; "gpt-5.1-chat"; "gpt-5-chat"] model then Some 128000%N
  else if starts_with "gpt-5.4" model then Some 1000000%N
  else if starts_with "gpt-5" model then Some 272000%N
  else if base_is_known_claude_model model then
    let mode := anthropic_context_mode model in
    Some (if is_1m then long_context_window mode else default_context_window mode)
  else
    match cached_context_limit model with
    | Some limit => Some limit
    | None =>
        if starts_with_any ["gemini-2.0-flash"; "gemini-2.5"; "gemini-3"] model then Some 1000000%N
        else open_weight_family_context_limit model
    end.

Definition context_limit_for_model_with_provider (model : string) (provider_hint : option string) : option N :=
  context_limit_for_model_with_provider_and_cache model provider_hint (λ _, None).
Definition context_limit_for_model (model : string) : option N := context_limit_for_model_with_provider model None.

Definition normalize_copilot_model_name (model : string) : option string :=
  let known := ALL_CLAUDE_MODELS ++ ALL_OPENAI_MODELS in
  if one_of known model then None
  else
    let normalized := replace_byte (λ c, bool_decide (c = "."%char)) "-" model in
    find_first (λ canonical, String.eqb canonical normalized) known.

(** ** anthropic.rs: headers, reasoning, tool names *)

Definition ANTHROPIC_OAUTH_BETA_HEADERS : string :=
  "claude-code-20250219,oauth-2025-04-20,interleaved-thinking-2025-05-14,context-management-2025-06-27,prompt-caching-scope-2026-01-05,advisor-tool-2026-03-01,advanced-tool-use-2025-11-20,effort-2025-11-24".
Definition ANTHROPIC_OAUTH_BETA_HEADERS_1M : string :=
  "claude-code-20250219,oauth-2025-04-20,interleaved-thinking-2025-05-14,context-management-2025-06-27,prompt-caching-scope-2026-01-05,advisor-tool-2026-03-01,advanced-tool-use-2025-11-20,effort-2025-11-24,context-1m-2025-08-07".

Definition anthropic_oauth_beta_headers (model : string) : string :=
  if anthropic_is_1m_model model then ANTHROPIC_OAUTH_BETA_HEADERS_1M else ANTHROPIC_OAUTH_BETA_HEADERS.

Record AnthropicReasoningCaps := mkCaps {
  output_effort : bool;
  adaptive_thinking : bool;
  manual_thinking : bool;
  xhigh_effort : bool;
  max_effort : bool;
}.

Definition CAPS_FULL := mkCaps true true false true true.
Definition CAPS_EFFORT_NO_XHIGH := mkCaps true true false false true.
Definition CAPS_MANUAL_WITH_EFFORT := mkCaps true false true false false.
Definition CAPS_MANUAL_ONLY := mkCaps false false true false false.
Definition CAPS_NONE := mkCaps false false false false false.

Definition supports_reasoning_effort (c : AnthropicReasoningCaps) : bool := output_effort c || manual_thinking c.

Definition normalized_claude_caps_key (model : string) : string :=
  strip_date_suffix
    (replace_byte (λ c, bool_decide (c = "."%char)) "-"
       (to_ascii_lowercase (anthropic_strip_1m_suffix (trim model)))).

(** [segment.parse::<u32>()]. *)
Fixpoint u32_digits (acc : N) (s : string) : option N :=
  match s with
  | "" => Some acc
  | String c s' =>
      if is_ascii_digit c then
        let v := (acc * 10 + (byte_val c - 48))%N in
        if (v <? 2 ^ 32)%N then u32_digits v s' else None
      else None
  end.
Definition parse_u32 (s : string) : option N :=
  let s := default s (strip_prefix "+" s) in
  if str_is_empty s then None else u32_digits 0 s.

Definition is_ascii_alphabetic (c : Ascii.ascii) : bool := is_ascii_upper c || is_ascii_lower c.

Definition family_step (acc : option string * list N) (segment : string) : option string * list N :=
  let '(family, nums) := acc in
  if String.eqb segment "claude" then (family, nums)
  else
    match parse_u32 segment with
    | Some num => (family, if length nums <? 2 then nums ++ [num] else nums)
    | None =>
        match family with
        | None => if every_byte is_ascii_alphabetic segment then (Some segment, nums) else (None, nums)
        | Some f => (Some f, nums)
        end
    end.

Definition parse_claude_family_version (base : string) : option string * option (N * N) :=
  let '(family, nums) := fold_left family_step (str_split "-" base) (None, []) in
  (family,
   match nums with
   | [] => None
   | [major] => Some (major, 0%N)
   | major :: minor :: _ => Some (major, minor)
   end).

(** [version >= (a, b)] on pairs, lexicographically. *)
Definition version_ge (v : N * N) (a b : N) : bool := (a <? v.1)%N || ((v.1 =? a)%N && (b <=? v.2)%N).
Definition version_is (v : N * N) (a b : N) : bool := (v.1 =? a)%N && (v.2 =? b)%N.

Definition anthropic_reasoning_caps (model : string) : AnthropicReasoningCaps :=
  let base := normalized_claude_caps_key model in
  if negb (starts_with "claude" base) then CAPS_NONE
  else if str_contains "mythos" base then CAPS_EFFORT_NO_XHIGH
  else
    let '(family, version) := parse_claude_family_version base in
    match version with
    | None => CAPS_NONE
    | Some v =>
        if bool_decide (family = Some "opus") then
          if version_ge v 4 7 then CAPS_FULL
          else if version_is v 4 6 then CAPS_EFFORT_NO_XHIGH
          else if version_is v 4 5 then CAPS_MANUAL_WITH_EFFORT
          else CAPS_NONE
        else if bool_decide (family = Some "sonnet") then
          if version_ge v 5 0 then CAPS_FULL
          else if version_is v 4 6 then CAPS_EFFORT_NO_XHIGH
          else if version_is v 3 7 then CAPS_MANUAL_ONLY
          else CAPS_NONE
        else if version_ge v 5 0 then CAPS_FULL else CAPS_NONE
    end.

(** The two directions of the OAuth tool-name table. *)
Definition oauth_tool_names : list (string * string) :=
  [("bash", "Bash"); ("read", "Read"); ("write", "Write"); ("edit", "Edit"); ("glob", "Glob"); ("grep", "Grep");
   ("subagent", "Agent"); ("schedule", "ScheduleWakeup"); ("skill_manage", "Skill")].
Definition anthropic_map_tool_name_for_oauth (name : string) : string :=
  match find_first (λ p, String.eqb p.1 name) oauth_tool_names with Some p => p.2 | None => name end.
Definition anthropic_map_tool_name_from_oauth (name : string) : string :=
  match find_first (λ p, String.eqb p.2 name) oauth_tool_names with Some p => p.1 | None => name end.

(** ** reasoning.rs *)

Definition OPENAI_SELECTABLE_EFFORTS : list string :=
  ["none"; "minimal"; "low"; "medium"; "high"; "xhigh"; "max"; "swarm"; "swarm-deep"].
Definition OPENROUTER_SELECTABLE_EFFORTS : list string :=
  ["none"; "minimal"; "low"; "medium"; "high"; "xhigh"; "swarm"; "swarm-deep"].
Definition DEEPSEEK_SELECTABLE_EFFORTS : list string :=
  ["none"; "low"; "medium"; "high"; "max"; "swarm"; "swarm-deep"].

Definition canonical_reasoning_effort (value : string) : option string :=
  find_first (λ e, String.eqb e (to_ascii_lowercase (trim value)))
    ["none"; "minimal"; "low"; "medium"; "high"; "xhigh"; "max"].

Definition inferred_reasoning_efforts (provider_name model_name : option string) : list string :=
  let provider := to_ascii_lowercase (default "" provider_name) in
  let model := to_ascii_lowercase (default "" model_name) in
  if str_contains "openrouter" provider then OPENROUTER_SELECTABLE_EFFORTS
  else if str_contains "deepseek" provider || str_contains "deepseek" model then DEEPSEEK_SELECTABLE_EFFORTS
  else
    let is_openai_model := starts_with_any ["gpt-"; "o1"; "o3"; "o4"; "o5"] model in
    if str_contains "openai-compatible" provider then
      if is_openai_model then OPENAI_SELECTABLE_EFFORTS else []
    else if str_contains "anthropic" provider || str_contains "claude" provider || starts_with "claude-" model then
      let caps := anthropic_reasoning_caps model in
      if negb (supports_reasoning_effort caps) then []
      else ["none"; "low"; "medium"; "high"] ++ (if xhigh_effort caps then ["xhigh"] else [])
           ++ (if max_effort caps then ["max"] else []) ++ ["swarm"; "swarm-deep"]
    else if str_contains "openai" provider || str_contains "codex" provider || is_openai_model then
      OPENAI_SELECTABLE_EFFORTS
    else [].

(** The table of known families lists the bare name [claude-fable], but the
    long-context table only has [claude-fable-5]: the bare name gets the
    standard window. *)
Lemma bare_fable_is_not_long_context :
  base_is_known_claude_model "claude-fable" = true
  ∧ context_limit_for_model "claude-fable" = Some 200000%N
  ∧ context_limit_for_model "claude-fable-5" = Some 1000000%N.
Proof. vm_compute. done. Qed.
