(* ===== verification/Routes.v ===== *)
(** * Model routes: credentials, selection, deduplication and fallback

    crates/jcode-provider-core/src: auth_mode.rs (the OAuth-or-key decision and
    its vocabularies), lib.rs (routes, runtime keys, api methods, label
    matching, cost estimates), selection.rs (providers, prefixes, the bucketed
    deduplication and its reference), fallback_pick.rs (the next route to offer)
    and catalog_refresh.rs (the summary of a catalogue refresh). *)

From Stdlib Require Import Ascii.
From stdpp Require Import base list gmap strings.
From S2P Require Import Prelude RustString RustText ModelId.

Open Scope string_scope.
Open Scope nat_scope.
Open Scope list_scope.

(** ** selection.rs: providers *)

Inductive ActiveProvider := Claude | OpenAI | Copilot | Antigravity | Gemini | Cursor | Bedrock | OpenRouter.

#[global] Instance ActiveProvider_eq_dec : EqDecision ActiveProvider.
Proof. solve_decision. Defined.

Record ProviderAvailability := mkAvailability {
  av_openai : bool;
  av_claude : bool;
  av_copilot : bool;
  av_antigravity : bool;
  av_gemini : bool;
  av_cursor : bool;
  av_bedrock : bool;
  av_openrouter : bool;
  av_copilot_premium_zero : bool;
}.

Definition is_configured (av : ProviderAvailability) (provider : ActiveProvider) : bool :=
  match provider with
  | Claude => av_claude av
  | OpenAI => av_openai av
  | Copilot => av_copilot av
  | Antigravity => av_antigravity av
  | Gemini => av_gemini av
  | Cursor => av_cursor av
  | Bedrock => av_bedrock av
  | OpenRouter => av_openrouter av
  end.

Definition auto_default_provider (av : ProviderAvailability) : ActiveProvider :=
  if av_copilot_premium_zero av && av_copilot av then Copilot
  else if av_claude av then Claude
  else if av_openai av then OpenAI
  else if av_copilot av then Copilot
  else if av_antigravity av then Antigravity
  else if av_gemini av then Gemini
  else if av_cursor av then Cursor
  else if av_bedrock av then Bedrock
  else if av_openrouter av then OpenRouter
  else Claude.

Definition parse_provider_hint (value : string) : option ActiveProvider :=
  let v := to_ascii_lowercase (trim value) in
  if one_of ["claude"; "anthropic"] v then Some Claude
  else if one_of ["openai"] v then Some OpenAI
  else if one_of ["copilot"] v then Some Copilot
  else if one_of ["antigravity"] v then Some Antigravity
  else if one_of ["gemini"] v then Some Gemini
  else if one_of ["cursor"] v then Some Cursor
  else if one_of ["bedrock"; "aws-bedrock"; "aws_bedrock"] v then Some Bedrock
  else if one_of ["openrouter"] v then Some OpenRouter
  else None.

Definition provider_label (provider : ActiveProvider) : string :=
  match provider with
  | Claude => "Anthropic"
  | OpenAI => "OpenAI"
  | Copilot => "GitHub Copilot"
  | Antigravity => "Antigravity"
  | Gemini => "Gemini"
  | Cursor => "Cursor"
  | Bedrock => "AWS Bedrock"
  | OpenRouter => "OpenRouter"
  end.

Definition provider_key (provider : ActiveProvider) : string :=
  match provider with
  | Claude => "claude"
  | OpenAI => "openai"
  | Copilot => "copilot"
  | Antigravity => "antigravity"
  | Gemini => "gemini"
  | Cursor => "cursor"
  | Bedrock => "bedrock"
  | OpenRouter => "openrouter"
  end.

Definition provider_from_model_key (key : string) : option ActiveProvider :=
  if one_of ["claude"] key then Some Claude
  else if one_of ["openai"] key then Some OpenAI
  else if one_of ["copilot"] key then Some Copilot
  else if one_of ["antigravity"] key then Some Antigravity
  else if one_of ["gemini"] key then Some Gemini
  else if one_of ["cursor"] key then Some Cursor
  else if one_of ["bedrock"] key then Some Bedrock
  else if one_of ["openrouter"] key then Some OpenRouter
  else None.

(** ** auth_mode.rs *)

Inductive DualAuthProvider := DualAnthropic | DualOpenAI.
Inductive AuthMode := Oauth | ApiKey.
Inductive ResolvedCredential := CredOauth | CredApiKey.

#[global] Instance DualAuthProvider_eq_dec : EqDecision DualAuthProvider.
Proof. solve_decision. Defined.
#[global] Instance AuthMode_eq_dec : EqDecision AuthMode.
Proof. solve_decision. Defined.

Definition from_active_provider (provider : ActiveProvider) : option DualAuthProvider :=
  match provider with
  | Claude => Some DualAnthropic
  | OpenAI => Some DualOpenAI
  | _ => None
  end.
Definition dual_active_provider (p : DualAuthProvider) : ActiveProvider :=
  match p with DualAnthropic => Claude | DualOpenAI => OpenAI end.

Definition mode_is_subscription (m : AuthMode) : bool := match m with Oauth => true | ApiKey => false end.
Definition mode_resolved_credential (m : AuthMode) : ResolvedCredential :=
  match m with Oauth => CredOauth | ApiKey => CredApiKey end.
Definition auth_method_label (c : ResolvedCredential) : string :=
  match c with CredOauth => "OAuth" | CredApiKey => "API key" end.
Definition credential_is_subscription (c : ResolvedCredential) : bool :=
  match c with CredOauth => true | CredApiKey => false end.

Record AuthRoute := mkAuthRoute { ar_provider : DualAuthProvider; ar_mode : AuthMode }.

#[global] Instance AuthRoute_eq_dec : EqDecision AuthRoute.
Proof. solve_decision. Defined.

(** A trimmed token with one trailing colon removed, in lower case. *)
Definition auth_token (token : string) : string :=
  to_ascii_lowercase (trim (default (trim token) (strip_suffix ":" (trim token)))).

Definition auth_route_parse (token : string) : option AuthRoute :=
  let t := auth_token token in
  if one_of ["claude"; "anthropic"; "claude-oauth"; "anthropic-oauth"] t then Some (mkAuthRoute DualAnthropic Oauth)
  else if one_of ["claude-api"; "anthropic-api"; "anthropic-api-key"; "claude-api-key"; "anthropic-key";
                  "claude-key"; "api-key"] t then Some (mkAuthRoute DualAnthropic ApiKey)
  else if one_of ["openai"; "openai-oauth"] t then Some (mkAuthRoute DualOpenAI Oauth)
  else if one_of ["openai-api"; "openai-api-key"; "openai-key"; "openai-apikey"; "openai-platform";
                  "platform-openai"] t then Some (mkAuthRoute DualOpenAI ApiKey)
  else None.

Definition route_active_provider (r : AuthRoute) : ActiveProvider := dual_active_provider (ar_provider r).
Definition route_resolved_credential (r : AuthRoute) : ResolvedCredential := mode_resolved_credential (ar_mode r).

Definition parse_explicit_credential_prefix (prefix : string) : option AuthRoute :=
  let t := auth_token prefix in
  if one_of ["claude"; "anthropic"; "openai"] t then None else auth_route_parse t.

Definition runtime_provider_key (r : AuthRoute) : string :=
  match ar_provider r, ar_mode r with
  | DualAnthropic, Oauth => "claude"
  | DualAnthropic, ApiKey => "claude-api"
  | DualOpenAI, Oauth => "openai"
  | DualOpenAI, ApiKey => "openai-api"
  end.
Definition route_api_method (r : AuthRoute) : string :=
  match ar_provider r, ar_mode r with
  | DualAnthropic, Oauth => "claude-oauth"
  | DualAnthropic, ApiKey => "anthropic-api-key"
  | DualOpenAI, Oauth => "openai-oauth"
  | DualOpenAI, ApiKey => "openai-api-key"
  end.
Definition model_prefix (r : AuthRoute) : string :=
  match ar_provider r, ar_mode r with
  | DualAnthropic, Oauth => "claude-oauth"
  | DualAnthropic, ApiKey => "claude-api"
  | DualOpenAI, Oauth => "openai-oauth"
  | DualOpenAI, ApiKey => "openai-api"
  end.
Definition session_provider_key (r : AuthRoute) : string := runtime_provider_key r.
Definition cli_provider_arg (r : AuthRoute) : string :=
  match ar_provider r, ar_mode r with
  | DualAnthropic, Oauth => "claude"
  | DualAnthropic, ApiKey => "anthropic-api"
  | DualOpenAI, Oauth => "openai"
  | DualOpenAI, ApiKey => "openai-api"
  end.

Definition pinned_mode_for (provider : DualAuthProvider) (runtime_provider : option string) : option AuthMode :=
  match runtime_provider with
  | None => None
  | Some token =>
      match auth_route_parse token with
      | None => None
      | Some route => if bool_decide (ar_provider route = provider) then Some (ar_mode route) else None
      end
  end.

(** ** selection.rs: prefixes and keys *)

Definition cli_provider_arg_for_session_key (key : string) : option string :=
  let normalized := to_ascii_lowercase (trim key) in
  let base := match split_once ":" normalized with Some (prefix, _) => prefix | None => normalized end in
  match auth_route_parse base with
  | Some route => Some (cli_provider_arg route)
  | None =>
      if one_of ["openrouter"] base then Some "openrouter"
      else if one_of ["copilot"] base then Some "copilot"
      else if one_of ["gemini"] base then Some "gemini"
      else if one_of ["cursor"] base then Some "cursor"
      else if one_of ["bedrock"] base then Some "bedrock"
      else if one_of ["antigravity"] base then Some "antigravity"
      else if one_of ["code-assist-oauth"; "google"] base then Some "google"
      else None
  end.

(** The prefixes in the order they are tried. *)
Definition model_prefixes : list (string * ActiveProvider) :=
  [("claude-api:", Claude); ("claude-oauth:", Claude); ("claude:", Claude); ("anthropic:", Claude);
   ("openai-api:", OpenAI); ("openai-oauth:", OpenAI); ("openai:", OpenAI); ("copilot:", Copilot);
   ("antigravity:", Antigravity); ("gemini:", Gemini); ("cursor:", Cursor); ("bedrock:", Bedrock);
   ("openrouter:", OpenRouter)].

Fixpoint first_prefix (l : list (string * ActiveProvider)) (model : string) :
    option (ActiveProvider * string * string) :=
  match l with
  | [] => None
  | (prefix, provider) :: l' =>
      match strip_prefix prefix model with
      | Some rest => Some (provider, prefix, rest)
      | None => first_prefix l' model
      end
  end.
Definition explicit_model_provider_prefix (model : string) : option (ActiveProvider * string * string) :=
  first_prefix model_prefixes model.

Definition model_name_for_provider (provider : ActiveProvider) (model : string) : string :=
  match provider, normalize_copilot_model_name model with
  | Claude, Some canonical => canonical
  | _, _ => model
  end.

Definition fallback_sequence (active : ActiveProvider) : list ActiveProvider :=
  match active with
  | Claude => [Claude; OpenAI; Copilot; Gemini; Cursor; Bedrock; OpenRouter]
  | OpenAI => [OpenAI; Claude; Copilot; Gemini; Cursor; Bedrock; OpenRouter]
  | Copilot => [Copilot; Claude; OpenAI; Antigravity; Gemini; Cursor; Bedrock; OpenRouter]
  | Antigravity => [Antigravity; Claude; OpenAI; Copilot; Gemini; Cursor; Bedrock; OpenRouter]
  | Gemini => [Gemini; Claude; OpenAI; Antigravity; Copilot; Cursor; Bedrock; OpenRouter]
  | Cursor => [Cursor; Claude; OpenAI; Copilot; Antigravity; Gemini; OpenRouter]
  | Bedrock => [Bedrock; Claude; OpenAI; Copilot; Antigravity; Gemini; Cursor; OpenRouter]
  | OpenRouter => [OpenRouter; Claude; OpenAI; Copilot; Antigravity; Gemini; Cursor]
  end.

(** ** lib.rs: cost estimates *)

Inductive RouteBillingKind := Metered | Subscription | IncludedQuota | BillingUnknown.
Inductive RouteCostSource :=
| PublicApiPricing | PublicPlanPricing | RuntimePlan | OpenRouterEndpoint | OpenRouterCatalog | ModelsDevCatalog
| Heuristic.
Inductive RouteCostConfidence := ConfExact | ConfHigh | ConfMedium | ConfLow | ConfUnknown.

Record RouteCheapnessEstimate := mkEstimate {
  billing_kind : RouteBillingKind;
  ce_source : RouteCostSource;
  ce_confidence : RouteCostConfidence;
  monthly_price_micros : option N;
  input_price_per_mtok_micros : option N;
  output_price_per_mtok_micros : option N;
  cache_read_price_per_mtok_micros : option N;
  included_requests_per_month : option N;
  reference_input_tokens : N;
  reference_output_tokens : N;
  ce_reference_cost_micros : option N;
  ce_note : option string;
}.

Definition CHEAPNESS_REFERENCE_INPUT_TOKENS : N := 25000.
Definition CHEAPNESS_REFERENCE_OUTPUT_TOKENS : N := 5000.
Definition U64_MAX : N := 2 ^ 64 - 1.
Definition saturating_mul (a b : N) : N := N.min (a * b) U64_MAX.

Definition reference_request_cost_micros (input_price output_price : N) : N :=
  saturating_mul input_price CHEAPNESS_REFERENCE_INPUT_TOKENS / 1000000
  + saturating_mul output_price CHEAPNESS_REFERENCE_OUTPUT_TOKENS / 1000000.

Definition metered (source : RouteCostSource) (confidence : RouteCostConfidence) (input_price output_price : N)
    (cache_read : option N) (note : option string) : RouteCheapnessEstimate :=
  mkEstimate Metered source confidence None (Some input_price) (Some output_price) cache_read None
    CHEAPNESS_REFERENCE_INPUT_TOKENS CHEAPNESS_REFERENCE_OUTPUT_TOKENS
    (Some (reference_request_cost_micros input_price output_price)) note.
Definition subscription (source : RouteCostSource) (confidence : RouteCostConfidence) (monthly_price : N)
    (included_requests : option N) (note : option string) : RouteCheapnessEstimate :=
  mkEstimate Subscription source confidence (Some monthly_price) None None None included_requests
    CHEAPNESS_REFERENCE_INPUT_TOKENS CHEAPNESS_REFERENCE_OUTPUT_TOKENS
    ((λ count, monthly_price / N.max count 1)%N <$> included_requests) note.
Definition included_quota (source : RouteCostSource) (confidence : RouteCostConfidence) (monthly_price : N)
    (included_requests estimated_reference_cost : option N) (note : option string) : RouteCheapnessEstimate :=
  mkEstimate IncludedQuota source confidence (Some monthly_price) None None None included_requests
    CHEAPNESS_REFERENCE_INPUT_TOKENS CHEAPNESS_REFERENCE_OUTPUT_TOKENS estimated_reference_cost note.

(** ** lib.rs: routes *)

Record ModelRoute := mkRoute {
  rt_model : string;
  rt_provider : string;
  rt_api_method : string;
  rt_available : bool;
  rt_detail : string;
  rt_cheapness : option RouteCheapnessEstimate;
}.

Inductive ModelRouteApiMethod :=
| MJcodeSubscription | MClaudeOAuth | MAnthropicApiKey | MOpenAIOAuth | MOpenAIApiKey | MOpenRouter
| MOpenAiCompatible (profile_id : option string)
| MCopilot | MCursor | MBedrock | MCodeAssistOAuth | MAntigravityHttps | MRemoteCatalog | MCurrent
| MOther (method : string).

#[global] Instance ModelRouteApiMethod_eq_dec : EqDecision ModelRouteApiMethod.
Proof. solve_decision. Defined.

Inductive RuntimeKey :=
| KJcodeSubscription | KClaudeOAuth | KAnthropicApiKey | KOpenAIOAuth | KOpenAIApiKey | KOpenRouter
| KOpenAiCompatible (profile_id : option string)
| KCopilot | KGemini | KCursor | KBedrock | KAntigravity | KCodeAssistOAuth | KRemoteCatalog | KCurrent
| KOther (value : string).

Definition from_api_method (m : ModelRouteApiMethod) : RuntimeKey :=
  match m with
  | MJcodeSubscription => KJcodeSubscription
  | MClaudeOAuth => KClaudeOAuth
  | MAnthropicApiKey => KAnthropicApiKey
  | MOpenAIOAuth => KOpenAIOAuth
  | MOpenAIApiKey => KOpenAIApiKey
  | MOpenRouter => KOpenRouter
  | MOpenAiCompatible profile_id => KOpenAiCompatible profile_id
  | MCopilot => KCopilot
  | MCursor => KCursor
  | MBedrock => KBedrock
  | MCodeAssistOAuth => KCodeAssistOAuth
  | MAntigravityHttps => KAntigravity
  | MRemoteCatalog => KRemoteCatalog
  | MCurrent => KCurrent
  | MOther method => KOther method
  end.

Definition stable_id (k : RuntimeKey) : string :=
  match k with
  | KJcodeSubscription => "jcode-subscription"
  | KClaudeOAuth => "claude-oauth"
  | KAnthropicApiKey => "anthropic-api-key"
  | KOpenAIOAuth => "openai-oauth"
  | KOpenAIApiKey => "openai-api-key"
  | KOpenRouter => "openrouter"
  | KOpenAiCompatible (Some profile_id) => "openai-compatible:" +:+ profile_id
  | KOpenAiCompatible None => "openai-compatible"
  | KCopilot => "copilot"
  | KGemini => "gemini"
  | KCursor => "cursor"
  | KBedrock => "bedrock"
  | KAntigravity => "antigravity"
  | KCodeAssistOAuth => "code-assist-oauth"
  | KRemoteCatalog => "remote-catalog"
  | KCurrent => "current"
  | KOther value => value
  end.

Definition from_auth_route (r : AuthRoute) : ModelRouteApiMethod :=
  match ar_provider r, ar_mode r with
  | DualAnthropic, Oauth => MClaudeOAuth
  | DualAnthropic, ApiKey => MAnthropicApiKey
  | DualOpenAI, Oauth => MOpenAIOAuth
  | DualOpenAI, ApiKey => MOpenAIApiKey
  end.

Definition api_method_parse (value : string) : ModelRouteApiMethod :=
  let trimmed := trim value in
  let lower := to_ascii_lowercase trimmed in
  match auth_route_parse lower with
  | Some route => from_auth_route route
  | None =>
      if one_of ["jcode-subscription"] lower then MJcodeSubscription
      else if one_of ["openrouter"] lower then MOpenRouter
      else if one_of ["openai-compatible"] lower then MOpenAiCompatible None
      else if one_of ["copilot"] lower then MCopilot
      else if one_of ["cursor"] lower then MCursor
      else if one_of ["bedrock"] lower then MBedrock
      else if one_of ["code-assist-oauth"] lower then MCodeAssistOAuth
      else if one_of ["https"] lower then MAntigravityHttps
      else if one_of ["remote-catalog"] lower then MRemoteCatalog
      else if one_of ["current"] lower then MCurrent
      else
        match split_once ":" lower with
        | Some (scheme, profile_id) =>
            if String.eqb scheme "openai-compatible" then
              let profile_id := trim profile_id in
              MOpenAiCompatible (if str_is_empty profile_id then None else Some profile_id)
            else MOther trimmed
        | None => MOther trimmed
        end
  end.

Definition profile_id (m : ModelRouteApiMethod) : option string :=
  match m with MOpenAiCompatible (Some p) => Some p | _ => None end.
Definition is_openai_compatible (m : ModelRouteApiMethod) : bool :=
  match m with MOpenAiCompatible _ => true | _ => false end.
Definition is_openrouter (m : ModelRouteApiMethod) : bool := match m with MOpenRouter => true | _ => false end.
Definition is_copilot (m : ModelRouteApiMethod) : bool := match m with MCopilot => true | _ => false end.
Definition is_cursor (m : ModelRouteApiMethod) : bool := match m with MCursor => true | _ => false end.
Definition is_bedrock (m : ModelRouteApiMethod) : bool := match m with MBedrock => true | _ => false end.
Definition matches_openai_compatible_profile (m : ModelRouteApiMethod) (provider_id : string) : bool :=
  match profile_id m with Some p => eq_ignore_ascii_case p provider_id | None => false end.
Definition is_anthropic_credential_route (m : ModelRouteApiMethod) : bool :=
  match m with MClaudeOAuth | MAnthropicApiKey => true | _ => false end.
Definition is_openai_credential_route (m : ModelRouteApiMethod) : bool :=
  match m with MOpenAIOAuth | MOpenAIApiKey => true | _ => false end.

Definition display_label (m : ModelRouteApiMethod) : string :=
  match m with
  | MJcodeSubscription => "subscription"
  | MClaudeOAuth | MOpenAIOAuth | MCodeAssistOAuth => "oauth"
  | MAnthropicApiKey | MOpenAIApiKey | MOpenAiCompatible _ => "api key"
  | MOpenRouter => "openrouter"
  | MCopilot => "copilot"
  | MCursor => "cursor"
  | MBedrock => "bedrock"
  | MAntigravityHttps => "https"
  | MRemoteCatalog => "remote-catalog"
  | MCurrent => "current"
  | MOther method => match split_once ":" method with Some (head, _) => head | None => method end
  end.

Definition api_method_kind (r : ModelRoute) : ModelRouteApiMethod := api_method_parse (rt_api_method r).
Definition estimated_reference_cost_micros (r : ModelRoute) : option N :=
  match rt_cheapness r with Some e => ce_reference_cost_micros e | None => None end.

(** ** lib.rs: a structured selection *)

Record RouteSelection := mkSelection {
  rs_model : string;
  rs_runtime_key : RuntimeKey;
  rs_api_method : string;
  rs_provider_label : string;
  rs_detail : string;
}.

Definition from_model_route (r : ModelRoute) : RouteSelection :=
  mkSelection (rt_model r) (from_api_method (api_method_kind r)) (rt_api_method r) (rt_provider r) (rt_detail r).

Definition openrouter_catalog_model_id (model : string) : string :=
  let trimmed := trim model in
  if bool_decide (provider_for_model trimmed = Some "claude") then "anthropic/" +:+ trimmed
  else if bool_decide (provider_for_model trimmed = Some "openai") then "openai/" +:+ trimmed
  else trimmed.

Definition routed_model_spec (s : RouteSelection) : string :=
  let model := trim (rs_model s) in
  match rs_runtime_key s with
  | KJcodeSubscription => model
  | KClaudeOAuth => "claude-oauth:" +:+ model
  | KAnthropicApiKey => "claude-api:" +:+ model
  | KOpenAIOAuth => "openai-oauth:" +:+ model
  | KOpenAIApiKey => "openai-api:" +:+ model
  | KOpenAiCompatible (Some profile_id) => trim profile_id +:+ ":" +:+ model
  | KOpenAiCompatible None => model
  | KOpenRouter =>
      let provider := trim (rs_provider_label s) in
      let catalog_id := openrouter_catalog_model_id model in
      if str_is_empty provider || eq_ignore_ascii_case provider "auto" || contains_byte "@" model
      then catalog_id
      else catalog_id +:+ "@" +:+ provider
  | KCopilot => "copilot:" +:+ model
  | KCursor => "cursor:" +:+ model
  | KBedrock => "bedrock:" +:+ model
  | KAntigravity => "antigravity:" +:+ model
  | KGemini | KCodeAssistOAuth | KRemoteCatalog | KCurrent | KOther _ => model
  end.

(** ** lib.rs: provider labels *)

Definition normalize_model_route_provider_label (value : string) : string :=
  replace_byte (λ c, bool_decide (c = " "%char) || bool_decide (c = "_"%char) || bool_decide (c = "-"%char)) ""
    (to_ascii_lowercase (trim value)).

Definition label_groups : list (list string * list string) :=
  [(["claude"; "anthropic"], ["anthropic"; "claude"]);
   (["openai"], ["openai"]);
   (["gemini"; "google"], ["gemini"; "google"]);
   (["antigravity"], ["antigravity"]);
   (["copilot"; "copilotcode"; "githubcopilot"], ["copilot"; "githubcopilot"]);
   (["cursor"], ["cursor"]);
   (["bedrock"; "awsbedrock"], ["bedrock"; "awsbedrock"]);
   (["openrouter"], ["openrouter"; "auto"])].

Definition model_route_provider_labels_match (route_provider current_provider : string) : bool :=
  let route := normalize_model_route_provider_label route_provider in
  let current := normalize_model_route_provider_label current_provider in
  if str_is_empty route || str_is_empty current then false
  else if String.eqb route current then true
  else existsb (λ g, one_of g.1 current && one_of g.2 route) label_groups.

Definition model_route_provider_labels_related (route_provider login_provider : string) : bool :=
  let route := normalize_model_route_provider_label route_provider in
  let login := normalize_model_route_provider_label login_provider in
  if str_is_empty route || str_is_empty login then false
  else if String.eqb route login || str_contains login route || str_contains route login then true
  else model_route_provider_labels_match route login.

Definition model_route_provider_matches_key (route_provider_key : option string)
    (route_provider_label desired_provider : string) : bool :=
  let desired := trim desired_provider in
  if str_is_empty desired then false
  else
    match parse_explicit_credential_prefix desired with
    | Some desired_route =>
        match route_provider_key with
        | Some key =>
            let folded := match auth_route_parse key with Some r => session_provider_key r | None => key end in
            String.eqb (normalize_model_route_provider_label folded)
              (normalize_model_route_provider_label (session_provider_key desired_route))
        | None => false
        end
    | None =>
        let by_key :=
          match route_provider_key with
          | Some key =>
              String.eqb (normalize_model_route_provider_label key) (normalize_model_route_provider_label desired)
          | None => false
          end in
        if by_key then true else model_route_provider_labels_match route_provider_label desired
    end.

Definition model_route_metadata_is_recommended (model provider api_method : string) (available : bool) : bool :=
  if negb available then false
  else
    let m := api_method_parse api_method in
    if String.eqb model "gpt-5.5" then
      bool_decide (m = MOpenAIOAuth) && model_route_provider_labels_match provider "openai"
    else if String.eqb model "claude-opus-4-8" then
      is_anthropic_credential_route m && model_route_provider_labels_match provider "anthropic"
    else false.

(** ** selection.rs: removing duplicate routes *)

Definition is_generic_openai_compatible_route (api_method : string) : bool :=
  String.eqb api_method "openai-compatible".
Definition is_profile_openai_compatible_route (api_method : string) : bool :=
  starts_with "openai-compatible:" api_method.

Definition duplicate_route_api_method (existing candidate : string) : bool :=
  String.eqb existing candidate
  || (is_generic_openai_compatible_route existing && is_profile_openai_compatible_route candidate)
  || (is_profile_openai_compatible_route existing && is_generic_openai_compatible_route candidate).

Definition should_replace_duplicate_route (existing candidate : ModelRoute) : bool :=
  negb (is_profile_openai_compatible_route (rt_api_method existing))
  && is_profile_openai_compatible_route (rt_api_method candidate).

Definition duplicate_model_route (existing candidate : ModelRoute) : bool :=
  String.eqb (rt_provider existing) (rt_provider candidate)
  && String.eqb (rt_model existing) (rt_model candidate)
  && duplicate_route_api_method (rt_api_method existing) (rt_api_method candidate).

(** The routes kept so far and, per provider and model, their indices.  Indexing
    [deduped] outside its bounds panics: [None]. *)
Notation Buckets := (gmap (string * string) (list nat)).

Fixpoint find_in_bucket (deduped : list ModelRoute) (method : string) (bucket : list nat) :
    option (option nat) :=
  match bucket with
  | [] => Some None
  | idx :: bucket' =>
      match deduped !! idx with
      | None => None
      | Some existing =>
          if duplicate_route_api_method (rt_api_method existing) method then Some (Some idx)
          else find_in_bucket deduped method bucket'
      end
  end.

(** [if should_replace(&deduped[i], &route) { deduped[i] = route }]. *)
Definition keep_or_replace (deduped : list ModelRoute) (i : nat) (route : ModelRoute) : option (list ModelRoute) :=
  match deduped !! i with
  | None => None
  | Some existing => Some (if should_replace_duplicate_route existing route then <[i := route]> deduped else deduped)
  end.

Fixpoint dedupe_loop (routes deduped : list ModelRoute) (buckets : Buckets) : option (list ModelRoute) :=
  match routes with
  | [] => Some deduped
  | route :: rest =>
      let key := (rt_provider route, rt_model route) in
      let bucket := default [] (buckets !! key) in
      match find_in_bucket deduped (rt_api_method route) bucket with
      | None => None
      | Some (Some existing_idx) =>
          match keep_or_replace deduped existing_idx route with
          | None => None
          | Some deduped' => dedupe_loop rest deduped' (<[key := bucket]> buckets)
          end
      | Some None =>
          dedupe_loop rest (deduped ++ [route]) (<[key := bucket ++ [length deduped]]> buckets)
      end
  end.
Definition dedupe_model_routes (routes : list ModelRoute) : option (list ModelRoute) :=
  dedupe_loop routes [] ∅.

(** [deduped.iter().position(..)]. *)
Fixpoint position {A} (p : A → bool) (l : list A) : option nat :=
  match l with
  | [] => None
  | x :: l' => if p x then Some 0 else S <$> position p l'
  end.

Definition reference_step (deduped : list ModelRoute) (route : ModelRoute) : list ModelRoute :=
  match position (λ existing, duplicate_model_route existing route) deduped with
  | Some i => default deduped (keep_or_replace deduped i route)
  | None => deduped ++ [route]
  end.
Definition dedupe_model_routes_reference (routes : list ModelRoute) : list ModelRoute :=
  fold_left reference_step routes [].

(** ** fallback_pick.rs *)

Definition api_method_is_oauth (m : ModelRouteApiMethod) : bool :=
  match m with MClaudeOAuth | MOpenAIOAuth | MCodeAssistOAuth => true | _ => false end.
Definition models_match (a b : string) : bool := eq_ignore_ascii_case (trim a) (trim b).
Definition api_methods_match (a b : string) : bool := bool_decide (api_method_parse a = api_method_parse b).

Record FallbackPickOptions := mkPickOptions { credential_failure : bool }.

Definition credential_failure_markers : list string :=
  ["token refresh failed"; "refresh_token_invalidated"; "re-authenticate"; "session has ended";
   "authentication_error"; "invalid_grant"; "invalid x-api-key"; "invalid api key"; "incorrect api key";
   "api key not valid"; "token expired"; "unauthorized"; "oauth token expired"; "no refresh token";
   "credentials have been revoked"; "please log in again"; "replace or re-import"].
Definition error_looks_like_credential_failure (error : string) : bool :=
  contains_any credential_failure_markers (to_ascii_lowercase error).

(** The rank of a route: tier and whether it is not a subscription login.  A
    route that must not be offered has none. *)
Definition fallback_rank (current_model current_provider current_api_method : string) (options : FallbackPickOptions)
    (route : ModelRoute) : option (nat * nat) :=
  let unknown_method := str_is_empty (trim current_api_method) in
  let same_model := models_match (rt_model route) current_model in
  let same_method := api_methods_match (rt_api_method route) current_api_method in
  let same_provider := model_route_provider_labels_match (rt_provider route) current_provider
                       || models_match (rt_provider route) current_provider in
  if same_model && same_provider && (same_method || unknown_method) then None
  else if credential_failure options && same_provider && (same_method || unknown_method) then None
  else
    let tier := if same_model && negb same_method then 0 else if same_provider then 1 else 2 in
    let prefers_oauth := if api_method_is_oauth (api_method_parse (rt_api_method route)) then 0 else 1 in
    Some (tier, prefers_oauth).

(** [Iterator::min] on the keys: the first of the least. *)
Definition key_leb (a b : nat * nat * nat) : bool :=
  let '(t, o, i) := a in let '(t', o', i') := b in
  (t <? t') || ((t =? t') && ((o <? o') || ((o =? o') && (i <=? i')))).
Definition min_key (keys : list (nat * nat * nat)) : option (nat * nat * nat) :=
  fold_left (λ best k, match best with
                       | None => Some k
                       | Some b => if key_leb b k then Some b else Some k
                       end) keys None.

Definition fallback_keys (model provider api_method : string) (options : FallbackPickOptions)
    (routes : list ModelRoute) : list (nat * nat * nat) :=
  omap (λ ir, if rt_available ir.2
              then (λ rank, (rank.1, rank.2, ir.1)) <$> fallback_rank model provider api_method options ir.2
              else None) (imap pair routes).

Definition pick_next_fallback_route_with_options (routes : list ModelRoute)
    (current_model current_provider current_api_method : string) (options : FallbackPickOptions) : option nat :=
  (λ k : nat * nat * nat, k.2)
    <$> min_key (fallback_keys current_model current_provider current_api_method options routes).
Definition pick_next_fallback_route (routes : list ModelRoute) (model provider api_method : string) : option nat :=
  pick_next_fallback_route_with_options routes model provider api_method (mkPickOptions false).

(** ** catalog_refresh.rs *)

Notation CatalogRouteKey := (string * string * string)%type.
Notation CatalogRouteSnapshot := (bool * string * option N)%type.
Notation CatalogRouteMap := (gmap CatalogRouteKey CatalogRouteSnapshot).

Record ModelCatalogRefreshSummary := mkRefresh {
  model_count_before : nat;
  model_count_after : nat;
  models_added : nat;
  models_removed : nat;
  models_added_names : list string;
  models_removed_names : list string;
  route_count_before : nat;
  route_count_after : nat;
  routes_added : nat;
  routes_removed : nat;
  routes_changed : nat;
}.

Definition is_display_only_age_suffix (detail : string) : bool :=
  let detail := trim detail in
  match find_first (λ suf, ends_with suf detail) ["m ago"; "h ago"; "d ago"] with
  | Some suf =>
      let prefix := default "" (strip_suffix suf detail) in
      negb (str_is_empty prefix) && every_byte is_ascii_digit prefix
  | None => false
  end.

Definition is_comma (c : string) : bool := bool_decide (c = ",").

Definition normalize_route_refresh_detail (detail : string) : string :=
  let detail := trim detail in
  if str_is_empty detail then ""
  else if is_display_only_age_suffix detail then ""
  else
    match rsplit_once "," detail with
    | Some (prefix, suffix) =>
        if is_display_only_age_suffix suffix then trim (trim_end_matches is_comma (trim_end prefix)) else detail
    | None => detail
    end.

(** Collecting into a map: a later route with the same key wins. *)
Definition catalog_route_map (routes : list ModelRoute) : CatalogRouteMap :=
  fold_left (λ m route,
    <[(rt_model route, rt_provider route, rt_api_method route) :=
       (rt_available route, normalize_route_refresh_detail (rt_detail route),
        estimated_reference_cost_micros route)]> m) routes ∅.

(** [BTreeSet]: sorted, without repeats. *)
Definition set_difference (a b : list string) : list string := List.filter (λ x, negb (bool_decide (x ∈ b))) a.

Definition summarize_model_catalog_refresh (before_models after_models : list string)
    (before_routes after_routes : list ModelRoute) : ModelCatalogRefreshSummary :=
  let before_set := btree_set before_models in
  let after_set := btree_set after_models in
  let before_map := catalog_route_map before_routes in
  let after_map := catalog_route_map after_routes in
  mkRefresh (length before_set) (length after_set)
    (length (set_difference after_set before_set)) (length (set_difference before_set after_set))
    (set_difference after_set before_set) (set_difference before_set after_set)
    (size before_map) (size after_map)
    (size (filter (λ kv, before_map !! kv.1 = None) after_map))
    (size (filter (λ kv, after_map !! kv.1 = None) before_map))
    (size (filter (λ kv, is_Some (before_map !! kv.1) ∧ before_map !! kv.1 ≠ Some kv.2) after_map)).
