(* ===== verification/Failover.v ===== *)
(** * Failures of a provider: classification, retry hints, tracked attempts

    crates/jcode-provider-core/src: failover.rs (the classifier and the message
    that carries a failover prompt), transport.rs (transient transport faults),
    retry_after.rs (the server's delay) and attempt_tracker.rs (the forwarder
    that notices whether an attempt produced output).  [serde_json] on a prompt,
    the HTTP date parser and the random jitter are parameters. *)

From Stdlib Require Import Ascii Floats.SpecFloat.
From stdpp Require Import base list gmap strings pretty.
From S2P Require Import Prelude RustString RustText Float32 Message Compaction ModelId Routes.

Open Scope string_scope.
Open Scope nat_scope.
Open Scope list_scope.

(** ** failover.rs *)

Definition PROVIDER_FAILOVER_PROMPT_PREFIX : string := "[jcode-provider-failover]".

Record ProviderFailoverPrompt := mkFailoverPrompt {
  from_provider : string;
  from_label : string;
  to_provider : string;
  to_label : string;
  fp_reason : string;
  estimated_input_chars : N;
  estimated_input_tokens : N;
}.

(** [serde_json] on the prompt: encoding may fail, decoding may refuse. *)
Class PromptCodec := {
  prompt_to_json : ProviderFailoverPrompt → option string;
  prompt_from_json : string → option ProviderFailoverPrompt;
}.

Section Prompt.
Context `{PromptCodec}.

Definition to_error_message (p : ProviderFailoverPrompt) : string :=
  let payload := default "{}" (prompt_to_json p) in
  PROVIDER_FAILOVER_PROMPT_PREFIX +:+ payload +:+ newline +:+ from_label p +:+ " is unavailable; switching to "
  +:+ to_label p +:+ " would resend about " +:+ pretty (estimated_input_tokens p) +:+ " input tokens (~"
  +:+ pretty (estimated_input_chars p) +:+ " chars).".

Definition parse_failover_prompt_message (message : string) : option ProviderFailoverPrompt :=
  match lines message with
  | [] => None
  | line :: _ =>
      match strip_prefix PROVIDER_FAILOVER_PROMPT_PREFIX (trim line) with
      | Some json => prompt_from_json json
      | None => None
      end
  end.
End Prompt.

Inductive FailoverDecision := FailoverNone | RetryNextProvider | RetryAndMarkUnavailable.

Definition should_failover (d : FailoverDecision) : bool := match d with FailoverNone => false | _ => true end.
Definition should_mark_provider_unavailable (d : FailoverDecision) : bool :=
  match d with RetryAndMarkUnavailable => true | _ => false end.
Definition decision_as_str (d : FailoverDecision) : string :=
  match d with
  | FailoverNone => "none"
  | RetryNextProvider => "retry-next-provider"
  | RetryAndMarkUnavailable => "retry-and-mark-unavailable"
  end.

Definition failover_has_status_code (haystack code : string) : bool :=
  contains_independent_status_code haystack code.

Definition request_size_needles : list string :=
  ["context length"; "context_length"; "context window"; "maximum context"; "prompt is too long";
   "input is too long"; "too many tokens"; "max tokens"; "token limit"; "token_limit"; "413 payload too large";
   "413 request entity too large"].
Definition rate_needles : list string :=
  ["rate limit"; "rate-limited"; "too many requests"; "quota"; "credit balance"; "credits have run out";
   "insufficient credit"; "billing"; "payment required"; "usage tier"].
Definition access_needles : list string :=
  ["access denied"; "not accessible by integration"; "provider unavailable"; "provider not available";
   "provider is unavailable"; "provider currently unavailable"; "provider not configured";
   "credentials are not configured"; "no credentials"; "token exchange failed"; "authentication failed";
   "unauthorized"; "forbidden"].

Definition classify_failover_error_message (message : string) : FailoverDecision :=
  let lower := to_ascii_lowercase message in
  if contains_any request_size_needles lower || failover_has_status_code lower "413" then RetryNextProvider
  else if contains_any rate_needles lower || failover_has_status_code lower "429"
          || failover_has_status_code lower "402" then RetryAndMarkUnavailable
  else if contains_any access_needles lower || failover_has_status_code lower "401"
          || failover_has_status_code lower "403" then RetryAndMarkUnavailable
  else FailoverNone.

(** ** transport.rs *)

Definition transient_transport_needles : list string :=
  ["connection reset"; "connection closed"; "connection refused"; "connection aborted"; "broken pipe"; "timed out";
   "timeout"; "operation timed out"; "error decoding"; "error reading"; "unexpected eof"; "close_notify";
   "peer closed connection"; "tls handshake eof"; "client error (connect)"; "connection error"; "incomplete message";
   "request or response body error"; "badrecordmac"; "bad_record_mac"; "fatal alert: badrecordmac";
   "fatal alert: bad_record_mac"; "received fatal alert: badrecordmac"; "received fatal alert: bad_record_mac";
   "decryption failed or bad record mac"; "temporary failure in name resolution";
   "failed to lookup address information"; "dns error"; "name or service not known"; "no route to host";
   "network is unreachable"; "host is unreachable"; "http2 error"; "stream error"; "protocol error";
   "refused_stream"; "refused stream"; "enhance_your_calm"; "goaway"; "go away"; "sendrequest"].
Definition is_transient_transport_error (error_str : string) : bool :=
  contains_any transient_transport_needles (to_ascii_lowercase error_str).

(** ** retry_after.rs

    Durations and instants in nanoseconds.  The header value is [None] when the
    header is absent or is not visible ASCII. *)

Definition SECOND : N := 1000000000.
Definition MAX_RETRY_AFTER : N := 60 * SECOND.
Definition sat_mul_u64 (a b : N) : N := N.min (a * b) U64_MAX.
Definition sat_add_u64 (a b : N) : N := N.min (a + b) U64_MAX.

Fixpoint retry_seconds (acc : N) (digits : string) : N :=
  match digits with
  | "" => acc
  | String c rest =>
      retry_seconds (N.min (sat_add_u64 (sat_mul_u64 acc 10) (byte_val c - 48)) (MAX_RETRY_AFTER / SECOND)) rest
  end.

Definition retry_after_delay_at (parse_http_date : string → option N) (header : option string) (now : N) : option N :=
  match header with
  | None => None
  | Some raw =>
      let value := trim raw in
      if str_is_empty value then None
      else if every_byte is_ascii_digit value then Some (retry_seconds 0 value * SECOND)%N
      else
        match parse_http_date value with
        | Some retry_at => Some (N.min (if (now <=? retry_at)%N then retry_at - now else 0) MAX_RETRY_AFTER)
        | None => None
        end
  end.

Record RetryAfter := mkRetryAfter { deadline : N }.
Definition retry_after (parse_http_date : string → option N) (header : option string) (system_now instant_now : N) :
    option RetryAfter :=
  (λ delay, mkRetryAfter (instant_now + delay)) <$> retry_after_delay_at parse_http_date header system_now.
(** [saturating_duration_since]. *)
Definition remaining (r : RetryAfter) (instant_now : N) : N := (deadline r - instant_now)%N.

(** An [anyhow::Error]: its message, and the layers of context around the
    source; a layer may be the wrapper that carries a hint. *)
Inductive ErrorLayer :=
| PlainError (message : string)
| RetryAfterError (message : string) (hint : RetryAfter).
Definition AnyhowError : Type := list ErrorLayer.

Definition layer_message (l : ErrorLayer) : string :=
  match l with PlainError m => m | RetryAfterError m _ => m end.
Definition error_with_retry_after (message : string) (hint : option RetryAfter) : AnyhowError :=
  match hint with
  | Some r => [RetryAfterError message r]
  | None => [PlainError message]
  end.
Fixpoint first_hint (error : AnyhowError) : option RetryAfter :=
  match error with
  | [] => None
  | RetryAfterError _ r :: _ => Some r
  | PlainError _ :: rest => first_hint rest
  end.
Definition retry_after_from_error (error : AnyhowError) (instant_now : N) : option N :=
  (λ r, remaining r instant_now) <$> first_hint error.

(** ** attempt_tracker.rs *)

Section Tracker.
Context {J : Json}.

Inductive StreamEvent :=
| TextDelta (text : string)
| ToolUseStart (id name : string)
| ToolInputDelta (fragment : string)
| ToolUseEnd
| ToolUseSignature (signature : string)
| EvToolResult (tool_use_id content : string) (is_error : bool)
| GeneratedImage (id path : string) (metadata_path : option string) (output_format : string)
    (revised_prompt : option string)
| ThinkingStart
| ThinkingDelta (text : string)
| ThinkingSignatureDelta (signature : string)
| EvOpenAIReasoning (id : string) (summary : list string) (encrypted_content status : option string)
| ThinkingEnd
| ThinkingDone (duration_secs : spec_float)
| MessageEnd (stop_reason : option string)
| RetryRollback (attempt max : N)
| TokenUsage (input_tokens output_tokens cache_read_input_tokens cache_creation_input_tokens : option N)
| ConnectionType (connection : string)
| EvConnectionPhase (phase : ConnectionPhase)
| StatusDetail (detail : string)
| EvError (message : string) (retry_after_secs : option N)
| SessionId (id : string)
| EvCompaction (trigger : string) (pre_tokens : option N) (openai_encrypted_content : option string)
| UpstreamProvider (provider : string)
| NativeToolCall (request_id tool_name : string) (input : Value).

Definition stream_event_is_replay_visible (event : StreamEvent) : bool :=
  match event with
  | TextDelta _ | ToolUseStart _ _ | ToolInputDelta _ | ToolUseEnd | ToolUseSignature _ | EvToolResult _ _ _
  | GeneratedImage _ _ _ _ _ | ThinkingDelta _ | ThinkingSignatureDelta _ | EvOpenAIReasoning _ _ _ _
  | MessageEnd _ | EvCompaction _ _ _ | NativeToolCall _ _ _ => true
  | ThinkingStart | ThinkingEnd | ThinkingDone _ | RetryRollback _ _ | TokenUsage _ _ _ _ | ConnectionType _
  | EvConnectionPhase _ | StatusDetail _ | EvError _ _ | SessionId _ | UpstreamProvider _ => false
  end.

(** The forwarder task of one attempt, with the two channels around it.  The
    attempt channel holds at most 32 items, the outer one [capacity]; [sent] is
    the history of the attempt's sends and [received] what the consumer took. *)
Inductive ForwarderPhase :=
| Receiving
| Inspecting (item : result StreamEvent string)
| Sending (item : result StreamEvent string)
| Finished.

Record Attempt := mkAttempt {
  at_queue : list (result StreamEvent string);
  at_sender_open : bool;
  at_phase : ForwarderPhase;
  at_saw_output : bool;
  at_outer : list (result StreamEvent string);
  at_consumer_open : bool;
  at_received : list (result StreamEvent string);
  at_sent : list (result StreamEvent string);
}.

Definition ATTEMPT_CHANNEL_CAPACITY : nat := 32.

Definition track_attempt_output (outer : list (result StreamEvent string)) : Attempt :=
  mkAttempt [] true Receiving false outer true [] [].

Inductive Action :=
| AttemptSend (item : result StreamEvent string)  (* the attempt sends an item *)
| AttemptDrop                                     (* the last attempt sender is dropped *)
| Forward                                         (* the forwarder's next atomic step *)
| Consume                                         (* the consumer takes an item *)
| HangUp.                                         (* the consumer drops its receiver *)

Definition item_is_visible (item : result StreamEvent string) : bool :=
  match item with Ok event => stream_event_is_replay_visible event | Err _ => false end.

(** One step of the forwarder task: receive, note output, send on.  [None]: it
    waits (nothing to receive yet, or no room in the outer channel). *)
Definition forwarder_step (capacity : nat) (s : Attempt) : option Attempt :=
  match at_phase s with
  | Receiving =>
      match at_queue s with
      | item :: queue =>
          Some (mkAttempt queue (at_sender_open s) (Inspecting item) (at_saw_output s) (at_outer s)
                  (at_consumer_open s) (at_received s) (at_sent s))
      | [] =>
          if at_sender_open s then None
          else Some (mkAttempt [] false Finished (at_saw_output s) (at_outer s) (at_consumer_open s)
                       (at_received s) (at_sent s))
      end
  | Inspecting item =>
      Some (mkAttempt (at_queue s) (at_sender_open s) (Sending item)
              (if item_is_visible item then true else at_saw_output s) (at_outer s) (at_consumer_open s)
              (at_received s) (at_sent s))
  | Sending item =>
      if at_consumer_open s then
        if length (at_outer s) <? capacity then
          Some (mkAttempt (at_queue s) (at_sender_open s) Receiving (at_saw_output s) (at_outer s ++ [item])
                  true (at_received s) (at_sent s))
        else None
      else Some (mkAttempt (at_queue s) (at_sender_open s) Finished (at_saw_output s) (at_outer s) false
                   (at_received s) (at_sent s))
  | Finished => None
  end.

Definition is_finished (s : Attempt) : bool := match at_phase s with Finished => true | _ => false end.

Definition attempt_step (capacity : nat) (act : Action) (s : Attempt) : option Attempt :=
  match act with
  | AttemptSend item =>
      if at_sender_open s && negb (is_finished s) && (length (at_queue s) <? ATTEMPT_CHANNEL_CAPACITY) then
        Some (mkAttempt (at_queue s ++ [item]) true (at_phase s) (at_saw_output s) (at_outer s)
                (at_consumer_open s) (at_received s) (at_sent s ++ [item]))
      else None
  | AttemptDrop =>
      if at_sender_open s then
        Some (mkAttempt (at_queue s) false (at_phase s) (at_saw_output s) (at_outer s) (at_consumer_open s)
                (at_received s) (at_sent s))
      else None
  | Forward => forwarder_step capacity s
  | Consume =>
      match at_outer s with
      | item :: outer =>
          if at_consumer_open s then
            Some (mkAttempt (at_queue s) (at_sender_open s) (at_phase s) (at_saw_output s) outer true
                    (at_received s ++ [item]) (at_sent s))
          else None
      | [] => None
      end
  | HangUp =>
      if at_consumer_open s then
        Some (mkAttempt (at_queue s) (at_sender_open s) (at_phase s) (at_saw_output s) (at_outer s) false
                (at_received s) (at_sent s))
      else None
  end.

(** [AttemptGuard::finish] resolves once the task has ended. *)
Definition finish (s : Attempt) : option bool := if is_finished s then Some (at_saw_output s) else None.

Fixpoint run_actions (capacity : nat) (acts : list Action) (s : Attempt) : option Attempt :=
  match acts with
  | [] => Some s
  | act :: acts' =>
      match attempt_step capacity act s with
      | Some s' => run_actions capacity acts' s'
      | None => None
      end
  end.
End Tracker.

(** [x as u64]: truncation, saturating, NaN to zero. *)
Definition f64_to_u64 (x : spec_float) : N :=
  match x with
  | S754_finite false m e => N.min (Z.to_N (Z.shiftl (Z.pos m) e)) U64_MAX
  | S754_infinity false => U64_MAX
  | _ => 0%N
  end.

(** The jitter, drawn from [0.8, 1.2), is an argument; the delay is in
    milliseconds. *)
Definition backoff_base (attempt base_ms : N) : N := sat_mul_u64 base_ms (2 ^ N.min (attempt - 1) 16).
Definition retry_backoff_delay (jitter : spec_float) (attempt base_ms : N) : N :=
  N.max (f64_to_u64 (f64_mul (f64_of_N (backoff_base attempt base_ms)) jitter)) 1.
Definition retry_delay (jitter : spec_float) (attempt base_ms : N) (server_hint : option N) : N :=
  default (retry_backoff_delay jitter attempt base_ms * 1000000)%N server_hint.
