(* ===== verification/RoutesClaims.v ===== *)
(** * What holds of model routes

    The bucketed deduplication is the reference one, keeps one representative
    of every route and no two duplicates; the fallback offered is the best
    eligible route; a credential survives the trip through a model spec; the
    summary of a catalogue refresh accounts for every route. *)

From Stdlib Require Import Ascii.
From stdpp Require Import base list gmap strings.
From S2P Require Import Prelude RustString RustText ModelId Routes.

Open Scope string_scope.
Open Scope nat_scope.
Open Scope list_scope.

#[local] Arguments starts_with : simpl never.
#[local] Arguments String.eqb : simpl never.

(** ** Buckets *)

Definition route_key (r : ModelRoute) : string * string := (rt_provider r, rt_model r).

(** The indices of the routes with a key, counted from [n]. *)
Fixpoint positions_of (key : string * string) (n : nat) (keys : list (string * string)) : list nat :=
  match keys with
  | [] => []
  | k :: keys' => if decide (k = key) then n :: positions_of key (S n) keys' else positions_of key (S n) keys'
  end.

(** The buckets list, for each key, the indices of its routes in order. *)
Definition bucketed (deduped : list ModelRoute) (buckets : Buckets) : Prop :=
  ∀ key, default [] (buckets !! key) = positions_of key 0 (route_key <$> deduped).

Lemma positions_of_app key n l1 l2 :
  positions_of key n (l1 ++ l2) = positions_of key n l1 ++ positions_of key (n + length l1) l2.
Proof.
  revert n. induction l1 as [|k l1 IH]; intros n; simpl; [by rewrite Nat.add_0_r|].
  rewrite IH, <- Nat.add_succ_comm. by case_decide.
Qed.

Lemma duplicate_is_same_key r route :
  duplicate_model_route r route =
    bool_decide (route_key r = route_key route) && duplicate_route_api_method (rt_api_method r) (rt_api_method route).
Proof.
  unfold duplicate_model_route, route_key. f_equal. apply eq_true_iff_eq.
  rewrite andb_true_iff, !String.eqb_eq, bool_decide_eq_true.
  split; [by intros [-> ->]|by intros [= -> ->]].
Qed.

(** Searching the bucket of a route finds the first duplicate of it. *)
Lemma find_in_bucket_position route pre l :
  find_in_bucket (pre ++ l) (rt_api_method route) (positions_of (route_key route) (length pre) (route_key <$> l))
  = Some ((λ i, length pre + i) <$> position (λ r, duplicate_model_route r route) l).
Proof.
  revert pre. induction l as [|r l IH]; intros pre; [done|]. cbn [fmap list_fmap positions_of position].
  specialize (IH (pre ++ [r])). rewrite length_app, Nat.add_1_r, <- app_assoc in IH.
  rewrite duplicate_is_same_key. case_decide as Hk.
  - rewrite bool_decide_true by done. cbn [find_in_bucket andb].
    rewrite list_lookup_middle by done. destruct duplicate_route_api_method.
    + simpl. by rewrite Nat.add_0_r.
    + etrans; [exact IH|]. f_equal. destruct position; simpl; [by rewrite Nat.add_succ_r|done].
  - rewrite bool_decide_false by done. etrans; [exact IH|]. f_equal.
    destruct position; simpl; [by rewrite Nat.add_succ_r|done].
Qed.

Lemma position_Some {A} (p : A → bool) l i :
  position p l = Some i → ∃ x, l !! i = Some x ∧ p x = true ∧ ∀ j y, j < i → l !! j = Some y → p y = false.
Proof.
  revert i. induction l as [|x l IH]; intros i; simpl; [done|].
  destruct (p x) eqn:Hp; [intros [= <-]; exists x; split_and!; [done..|lia]|].
  destruct (position p l) as [k|]; [|done]. intros [= <-].
  destruct (IH k eq_refl) as (y & Hy & Hpy & Hlt). exists y. split_and!; [done..|].
  intros [|j] z Hj Hz; simplify_eq/=; [done|]. apply (Hlt j); [lia|done].
Qed.

Lemma position_None {A} (p : A → bool) l x : position p l = None → x ∈ l → p x = false.
Proof.
  induction l as [|y l IH]; simpl; [by intros ? ?%elem_of_nil|]. destruct (p y) eqn:Hp; [done|].
  destruct (position p l); [done|]. intros _ [->|Hx]%elem_of_cons; [done|]. by apply IH.
Qed.

Lemma bucketed_same_keys l1 l2 buckets :
  route_key <$> l1 = route_key <$> l2 → bucketed l1 buckets → bucketed l2 buckets.
Proof. intros He Hb key. by rewrite <- He. Qed.

Lemma bucketed_touch l buckets key :
  bucketed l buckets → bucketed l (<[key := default [] (buckets !! key)]> buckets).
Proof.
  intros Hb k. rewrite <- Hb. destruct (decide (key = k)) as [->|Hne].
  - by rewrite lookup_insert_eq.
  - by rewrite lookup_insert_ne.
Qed.

Lemma bucketed_push l buckets route :
  bucketed l buckets →
  bucketed (l ++ [route])
    (<[route_key route := default [] (buckets !! route_key route) ++ [length l]]> buckets).
Proof.
  intros Hb k. rewrite fmap_app, positions_of_app, length_fmap, <- Hb. simpl.
  case_decide as Hk.
  - subst k. by rewrite lookup_insert_eq.
  - rewrite lookup_insert_ne by done. by rewrite app_nil_r.
Qed.

(** Replacing a route by a duplicate keeps its key. *)
Lemma keep_or_replace_keys l i route x :
  l !! i = Some x → route_key x = route_key route →
  ∃ l', keep_or_replace l i route = Some l' ∧ route_key <$> l' = route_key <$> l.
Proof.
  intros Hi Hk. unfold keep_or_replace. rewrite Hi. eexists. split; [done|].
  destruct should_replace_duplicate_route; [|done].
  rewrite list_fmap_insert. apply list_insert_id. rewrite list_lookup_fmap, Hi. simpl. by f_equal.
Qed.

Lemma dedupe_loop_reference routes deduped buckets :
  bucketed deduped buckets →
  dedupe_loop routes deduped buckets = Some (fold_left reference_step routes deduped).
Proof.
  revert deduped buckets. induction routes as [|route routes IH]; intros deduped buckets Hb; [done|].
  cbn [dedupe_loop fold_left]. change (rt_provider route, rt_model route) with (route_key route).
  pose proof (find_in_bucket_position route [] deduped) as Hf. simpl app in Hf. simpl length in Hf.
  rewrite <- Hb in Hf. rewrite Hf.
  destruct (position (λ r, duplicate_model_route r route) deduped) as [i|] eqn:Hp; simpl.
  - destruct (position_Some _ _ _ Hp) as (x & Hx & Hd & _).
    rewrite duplicate_is_same_key in Hd. apply andb_true_iff in Hd as [Hk%bool_decide_eq_true _].
    destruct (keep_or_replace_keys deduped i route x Hx Hk) as (l' & Hr & Hl').
    assert (reference_step deduped route = l') as -> by (unfold reference_step; by rewrite Hp, Hr).
    rewrite Hr. apply IH. apply bucketed_touch. by apply (bucketed_same_keys deduped).
  - assert (reference_step deduped route = deduped ++ [route]) as -> by (unfold reference_step; by rewrite Hp).
    apply IH. by apply bucketed_push.
Qed.

(** The bucketed deduplication of routes never indexes out of bounds and
    returns what the quadratic reference returns, in the same order. *)
Theorem bucketed_dedupe_is_reference (routes : list ModelRoute) :
  dedupe_model_routes routes = Some (dedupe_model_routes_reference routes).
Proof. unfold dedupe_model_routes. rewrite dedupe_loop_reference; [done|]. intros key. by rewrite lookup_empty. Qed.

(** ** What the deduplication keeps *)

Lemma duplicate_method_true a b :
  duplicate_route_api_method a b = true ↔
    a = b ∨ (is_generic_openai_compatible_route a = true ∧ is_profile_openai_compatible_route b = true)
    ∨ (is_profile_openai_compatible_route a = true ∧ is_generic_openai_compatible_route b = true).
Proof.
  unfold duplicate_route_api_method. rewrite !orb_true_iff, !andb_true_iff, String.eqb_eq. tauto.
Qed.

Lemma duplicate_true a b :
  duplicate_model_route a b = true ↔
    route_key a = route_key b ∧ duplicate_route_api_method (rt_api_method a) (rt_api_method b) = true.
Proof. by rewrite duplicate_is_same_key, andb_true_iff, bool_decide_eq_true. Qed.

Lemma duplicate_sym a b : duplicate_model_route a b = true → duplicate_model_route b a = true.
Proof. rewrite !duplicate_true, !duplicate_method_true. intros [-> [->|H]]; split; tauto. Qed.

Lemma duplicate_refl a : duplicate_model_route a a = true.
Proof. rewrite duplicate_true, duplicate_method_true. tauto. Qed.

(** The generic method is not scoped to a profile. *)
Lemma generic_not_profile m :
  is_generic_openai_compatible_route m = true → is_profile_openai_compatible_route m = false.
Proof. unfold is_generic_openai_compatible_route. by intros ->%String.eqb_eq. Qed.

(** Replacement happens only for a generic route, by a profile of it. *)
Lemma replaced_is_generic x route :
  duplicate_model_route x route = true → should_replace_duplicate_route x route = true →
  is_generic_openai_compatible_route (rt_api_method x) = true
  ∧ is_profile_openai_compatible_route (rt_api_method route) = true.
Proof.
  unfold should_replace_duplicate_route. rewrite duplicate_true, duplicate_method_true, andb_true_iff, negb_true_iff.
  intros [_ [He|[H|H]]] [Hn Hp]; [congruence|done|]. destruct H. congruence.
Qed.

(** No two kept routes are duplicates of each other. *)
Definition pairwise_distinct (l : list ModelRoute) : Prop :=
  ∀ i j a b, i ≠ j → l !! i = Some a → l !! j = Some b → duplicate_model_route a b = false.

(** A kept route stands for [r]: it is a duplicate of it, and is as specific. *)
Definition stands_for (kept r : ModelRoute) : Prop :=
  duplicate_model_route kept r = true
  ∧ (is_profile_openai_compatible_route (rt_api_method r) = true → rt_api_method kept = rt_api_method r).

(** What one step does. *)
Lemma reference_step_cases l route :
  (∃ i x, l !! i = Some x ∧ duplicate_model_route x route = true
     ∧ reference_step l route = if should_replace_duplicate_route x route then <[i := route]> l else l)
  ∨ (reference_step l route = l ++ [route] ∧ ∀ x, x ∈ l → duplicate_model_route x route = false).
Proof.
  unfold reference_step. destruct (position (λ r, duplicate_model_route r route) l) as [i|] eqn:Hp.
  - destruct (position_Some _ _ _ Hp) as (x & Hx & Hd & _). left. exists i, x. unfold keep_or_replace. by rewrite Hx.
  - right. split; [done|]. intros x Hx. by apply (position_None (λ r, duplicate_model_route r route) l).
Qed.

(** A duplicate of the profile that replaces [x] was already a duplicate of [x]. *)
Lemma duplicate_of_replacement a x route :
  duplicate_model_route x route = true → should_replace_duplicate_route x route = true →
  duplicate_model_route a route = true → duplicate_model_route a x = true.
Proof.
  intros Hd Hr Ha. destruct (replaced_is_generic _ _ Hd Hr) as [Hg Hp].
  apply duplicate_true in Hd as [Hk _]. apply duplicate_true in Ha as [Hka Hm].
  apply duplicate_true. split; [congruence|]. apply duplicate_method_true in Hm. apply duplicate_method_true.
  destruct Hm as [He|[[Hga _]|[_ Hgr]]].
  - right; right. split; [congruence|done].
  - left. unfold is_generic_openai_compatible_route in *. apply String.eqb_eq in Hg, Hga. congruence.
  - apply generic_not_profile in Hgr. congruence.
Qed.

Lemma reference_step_distinct l route : pairwise_distinct l → pairwise_distinct (reference_step l route).
Proof.
  intros Hl. destruct (reference_step_cases l route) as [(k & x & Hx & Hd & ->)|[-> Hn]].
  - destruct (should_replace_duplicate_route x route) eqn:Hr; [|done].
    assert (∀ i a, i ≠ k → l !! i = Some a → duplicate_model_route a route = false) as Ho.
    { intros i a Hi Ha. apply not_true_iff_false. intros Hdup.
      pose proof (duplicate_of_replacement a x route Hd Hr Hdup). rewrite (Hl i k a x) in *; done. }
    intros i j a b Hij Ha Hb. apply list_lookup_insert_Some in Ha, Hb.
    destruct Ha as [(<- & <- & _)|[Hi Ha]], Hb as [(<- & <- & _)|[Hj Hb]]; [done| | |by apply (Hl i j)].
    + apply not_true_iff_false. intros Hdup%duplicate_sym. rewrite (Ho j b) in Hdup; done.
    + by apply (Ho i).
  - intros i j a b Hij Ha Hb. apply lookup_app_Some in Ha, Hb.
    destruct Ha as [Ha|[Hi Ha]], Hb as [Hb|[Hj Hb]].
    + by apply (Hl i j).
    + apply list_lookup_singleton_Some in Hb as [_ <-]. apply Hn. by apply list_elem_of_lookup_2 in Ha.
    + apply list_lookup_singleton_Some in Ha as [_ <-]. apply not_true_iff_false. intros Hdup%duplicate_sym.
      rewrite Hn in Hdup; [done|]. by apply list_elem_of_lookup_2 in Hb.
    + apply list_lookup_singleton_Some in Ha as [? _], Hb as [? _]. lia.
Qed.

Lemma stands_for_refl r : stands_for r r.
Proof. split; [apply duplicate_refl|done]. Qed.

(** A route kept for a profile is itself scoped to that profile. *)
Lemma profile_stands_for x route :
  duplicate_model_route x route = true → should_replace_duplicate_route x route = false → stands_for x route.
Proof.
  intros Hd Hr. split; [done|]. intros Hp. unfold should_replace_duplicate_route in Hr. rewrite Hp, andb_true_r in Hr.
  apply negb_false_iff in Hr. apply duplicate_true in Hd as [_ Hm]. apply duplicate_method_true in Hm.
  destruct Hm as [Hm|[[Hg _]|[_ Hg]]]; [done| |]; apply generic_not_profile in Hg; congruence.
Qed.

Lemma replacement_stands_for x route r :
  duplicate_model_route x route = true → should_replace_duplicate_route x route = true →
  stands_for x r → stands_for route r.
Proof.
  intros Hd Hr [Hx Hs]. destruct (replaced_is_generic _ _ Hd Hr) as [Hg Hp].
  apply duplicate_true in Hd as [Hk _]. apply duplicate_true in Hx as [Hkr Hm].
  assert (is_profile_openai_compatible_route (rt_api_method r) = false) as Hn.
  { apply not_true_iff_false. intros Hpr. specialize (Hs Hpr). apply generic_not_profile in Hg. congruence. }
  split; [|congruence]. apply duplicate_true. split; [congruence|]. apply duplicate_method_true in Hm.
  apply duplicate_method_true. destruct Hm as [Hm|[[_ Hm]|[Hm _]]]; [|congruence|].
  - right; right. split; [done|]. congruence.
  - apply generic_not_profile in Hg. congruence.
Qed.

Lemma reference_step_covers l route r :
  (∃ x, x ∈ l ∧ stands_for x r) ∨ r = route → ∃ x, x ∈ reference_step l route ∧ stands_for x r.
Proof.
  intros Hin. destruct (reference_step_cases l route) as [(k & x & Hx & Hd & ->)|[-> _]].
  - destruct (should_replace_duplicate_route x route) eqn:Hr.
    + assert (route ∈ <[k := route]> l) as Hnew.
      { apply list_elem_of_lookup. exists k. rewrite list_lookup_insert_eq; [done|]. by apply lookup_lt_Some in Hx. }
      destruct Hin as [(y & Hy & Hsy)| ->]; [|exists route; split; [done|apply stands_for_refl]].
      apply list_elem_of_lookup in Hy as [j Hj]. destruct (decide (j = k)) as [->|Hne].
      * exists route. split; [done|]. assert (y = x) as -> by congruence. by apply (replacement_stands_for x).
      * exists y. split; [|done]. apply list_elem_of_lookup. exists j. by rewrite list_lookup_insert_ne.
    + destruct Hin as [?| ->]; [done|]. exists x. split; [by apply list_elem_of_lookup_2 in Hx|].
      by apply profile_stands_for.
  - destruct Hin as [(y & Hy & Hsy)| ->].
    + exists y. split; [|done]. apply elem_of_app. by left.
    + exists route. split; [apply elem_of_app; right; by apply list_elem_of_singleton|apply stands_for_refl].
Qed.

Lemma reference_step_elem l route x : x ∈ reference_step l route → x ∈ l ∨ x = route.
Proof.
  destruct (reference_step_cases l route) as [(k & y & Hy & Hd & ->)|[-> _]].
  - destruct should_replace_duplicate_route; [|by left]. intros [j Hj]%list_elem_of_lookup.
    apply list_lookup_insert_Some in Hj as [(_ & <- & _)|[_ Hj]]; [by right|].
    left. by apply list_elem_of_lookup_2 in Hj.
  - rewrite elem_of_app, list_elem_of_singleton. tauto.
Qed.

Lemma dedupe_fold_spec routes l :
  pairwise_distinct l →
  let out := fold_left reference_step routes l in
  pairwise_distinct out
  ∧ (∀ r, (∃ x, x ∈ l ∧ stands_for x r) ∨ r ∈ routes → ∃ x, x ∈ out ∧ stands_for x r)
  ∧ (∀ x, x ∈ out → x ∈ l ∨ x ∈ routes).
Proof.
  revert l. induction routes as [|route routes IH]; intros l Hl; simpl.
  - split_and!; [done| |by left]. intros r [?|?%elem_of_nil]; done.
  - destruct (IH _ (reference_step_distinct l route Hl)) as (H1 & H2 & H3). split_and!; [done| |].
    + intros r Hr. apply H2. rewrite elem_of_cons in Hr. destruct Hr as [Hr|[->|Hr]]; [left|left|by right];
        apply reference_step_covers; tauto.
    + intros x Hx. rewrite elem_of_cons. apply H3 in Hx as [Hx|Hx]; [|tauto].
      apply reference_step_elem in Hx. tauto.
Qed.

(** Deduplication keeps exactly one representative.  The result is a
    selection of the given routes in which no two are duplicates of each other;
    every given route has a kept duplicate of it, and a route scoped to a named
    profile is represented by a route of that very profile, never by the
    generic transport. *)
Theorem dedupe_keeps_one_representative (routes out : list ModelRoute) :
  dedupe_model_routes routes = Some out →
  pairwise_distinct out
  ∧ (∀ x, x ∈ out → x ∈ routes)
  ∧ (∀ r, r ∈ routes → ∃ x, x ∈ out ∧ stands_for x r).
Proof.
  unfold dedupe_model_routes. rewrite dedupe_loop_reference by (intros key; by rewrite lookup_empty).
  intros [= <-]. destruct (dedupe_fold_spec routes []) as (H1 & H2 & H3).
  - intros i j a b _ Ha. by rewrite lookup_nil in Ha.
  - split_and!; [done| |naive_solver]. intros x Hx. by apply H3 in Hx as [?%elem_of_nil|].
Qed.

Definition demo_route (model provider api_method : string) : ModelRoute :=
  mkRoute model provider api_method true "" None.
Definition demo_routes : list ModelRoute :=
  [demo_route "qwen" "Cerebras" "openai-compatible"; demo_route "gpt-5" "OpenAI" "openai-oauth";
   demo_route "qwen" "Cerebras" "openai-compatible:cerebras"; demo_route "qwen" "Cerebras" "openai-compatible";
   demo_route "gpt-5" "OpenAI" "openai-api-key"].

Lemma dedupe_keeps_one_representative_witness :
  ∃ x, x ∈ default [] (dedupe_model_routes demo_routes)
       ∧ stands_for x (demo_route "qwen" "Cerebras" "openai-compatible").
Proof.
  apply (dedupe_keeps_one_representative demo_routes); [vm_compute; reflexivity|].
  unfold demo_routes. apply elem_of_cons. by left.
Defined.

(** ** The fallback *)

Lemma key_leb_spec t o i t' o' i' :
  key_leb (t, o, i) (t', o', i') = true ↔ t < t' ∨ (t = t' ∧ (o < o' ∨ (o = o' ∧ i ≤ i'))).
Proof.
  unfold key_leb. rewrite !orb_true_iff, !andb_true_iff, !orb_true_iff, !andb_true_iff, !Nat.ltb_lt, !Nat.eqb_eq, Nat.leb_le.
  tauto.
Qed.

Lemma key_leb_total a b : key_leb a b = true ∨ key_leb b a = true.
Proof. destruct a as [[t o] i], b as [[t' o'] i']. rewrite !key_leb_spec. lia. Qed.

Lemma key_leb_trans a b c : key_leb a b = true → key_leb b c = true → key_leb a c = true.
Proof. destruct a as [[t o] i], b as [[t' o'] i'], c as [[t'' o''] i'']. rewrite !key_leb_spec. lia. Qed.

Lemma min_key_from keys best :
  ∃ m, fold_left (λ best k, match best with
                            | None => Some k
                            | Some b => if key_leb b k then Some b else Some k
                            end) keys (Some best) = Some m
       ∧ m ∈ best :: keys ∧ ∀ k, k ∈ best :: keys → key_leb m k = true.
Proof.
  revert best. induction keys as [|k keys IH]; intros best; simpl.
  - exists best. split_and!; [done|by apply list_elem_of_singleton|]. intros k ->%list_elem_of_singleton.
    by destruct (key_leb_total best best).
  - destruct (key_leb best k) eqn:Hle.
    + destruct (IH best) as (m & Hf & Hm & Hl). exists m. split_and!; [done| |].
      * apply elem_of_cons in Hm as [->|Hm]; [by left|]. by do 2 right.
      * intros k' [->|[->|Hk]%elem_of_cons]%elem_of_cons; [apply Hl; by left| |apply Hl; by right].
        apply (key_leb_trans _ best); [|done]. apply Hl. by left.
    + destruct (IH k) as (m & Hf & Hm & Hl). exists m. split_and!; [done|by right|].
      intros k' [->|Hk]%elem_of_cons; [|by apply Hl]. apply (key_leb_trans _ k); [apply Hl; by left|].
      destruct (key_leb_total k best); congruence.
Qed.

Lemma min_key_spec keys :
  match min_key keys with
  | Some m => m ∈ keys ∧ ∀ k, k ∈ keys → key_leb m k = true
  | None => keys = []
  end.
Proof.
  unfold min_key. destruct keys as [|k keys]; [done|]. simpl.
  destruct (min_key_from keys k) as (m & -> & ?). done.
Qed.

Section Fallback.
Context (model provider api_method : string) (options : FallbackPickOptions) (routes : list ModelRoute).

Notation rank := (fallback_rank model provider api_method options).

Lemma elem_of_fallback_keys t o i :
  (t, o, i) ∈ fallback_keys model provider api_method options routes ↔
    ∃ r, routes !! i = Some r ∧ rt_available r = true ∧ rank r = Some (t, o).
Proof.
  unfold fallback_keys. rewrite list_elem_of_omap. split.
  - intros ([j r] & Hin & Hk). apply elem_of_lookup_imap in Hin as (j' & r' & [= <- <-] & Hr). simpl in Hk.
    destruct (rt_available r) eqn:Ha; [|done]. destruct (rank r) as [[t' o']|] eqn:Hrank; [|done]. simplify_eq/=.
    by exists r.
  - intros (r & Hr & Ha & Hrank). exists (i, r). split; [by apply elem_of_lookup_imap_2|]. simpl.
    by rewrite Ha, Hrank.
Qed.

(** The failed route itself, and after a credential failure every route of
    the same provider and method (of any method, when it is not known). *)
Definition is_ruled_out (r : ModelRoute) : bool :=
  let same_method := api_methods_match (rt_api_method r) api_method || str_is_empty (trim api_method) in
  let same_provider := model_route_provider_labels_match (rt_provider r) provider
                       || models_match (rt_provider r) provider in
  same_provider && same_method && (models_match (rt_model r) model || credential_failure options).

Lemma fallback_rank_None r : rank r = None ↔ is_ruled_out r = true.
Proof.
  unfold fallback_rank, is_ruled_out. destruct options as [cf], (api_method_is_oauth _);
    destruct (models_match (rt_model r) model), (models_match (rt_provider r) provider),
      (model_route_provider_labels_match (rt_provider r) provider), (api_methods_match (rt_api_method r) api_method),
      (str_is_empty (trim api_method)), cf; cbn; split; done.
Qed.

(** The fallback offered.  No route is offered exactly when every
    available route is ruled out.  Otherwise the offered route is available,
    is not ruled out, and no available route that is not ruled out comes before
    it: the same model by another method first, then the same provider, then
    the rest; among equals a subscription login first, then catalogue order. *)
Theorem fallback_is_the_best_eligible :
  match pick_next_fallback_route_with_options routes model provider api_method options with
  | Some i =>
      ∃ r t o, routes !! i = Some r ∧ rt_available r = true ∧ is_ruled_out r = false ∧ rank r = Some (t, o)
        ∧ ∀ j r' t' o', routes !! j = Some r' → rt_available r' = true → rank r' = Some (t', o') →
            t < t' ∨ (t = t' ∧ (o < o' ∨ (o = o' ∧ i ≤ j)))
  | None => ∀ j r, routes !! j = Some r → rt_available r = true → is_ruled_out r = true
  end.
Proof.
  unfold pick_next_fallback_route_with_options.
  pose proof (min_key_spec (fallback_keys model provider api_method options routes)) as Hm.
  destruct min_key as [[[t o] i]|]; simpl.
  - destruct Hm as [Hin Hleast]. apply elem_of_fallback_keys in Hin as (r & Hr & Ha & Hrank).
    exists r, t, o. split_and!; try done.
    + apply not_true_iff_false. rewrite <- fallback_rank_None. by rewrite Hrank.
    + intros j r' t' o' Hr' Ha' Hrank'. apply key_leb_spec, Hleast, elem_of_fallback_keys. exists r'. split_and!; assumption.
  - intros j r Hr Ha. apply fallback_rank_None. destruct (rank r) as [[t o]|] eqn:Hrank; [|done].
    assert ((t, o, j) ∈ fallback_keys model provider api_method options routes) as Hin
      by (apply elem_of_fallback_keys; exists r; split_and!; assumption).
    rewrite Hm in Hin. by apply elem_of_nil in Hin.
Qed.
End Fallback.

(** ** Credentials *)

(** Every spelling of a credential route. *)
Definition vocabulary (r : AuthRoute) : list string :=
  [runtime_provider_key r; route_api_method r; model_prefix r; session_provider_key r; cli_provider_arg r].

(** The spellings that name a credential and not only its provider. *)
Definition pinning_vocabulary (r : AuthRoute) : list string := [route_api_method r; model_prefix r].

Definition all_auth_routes : list AuthRoute :=
  [mkAuthRoute DualAnthropic Oauth; mkAuthRoute DualAnthropic ApiKey; mkAuthRoute DualOpenAI Oauth;
   mkAuthRoute DualOpenAI ApiKey].

Lemma vocabulary_agrees :
  forallb (λ r, forallb (λ v,
    bool_decide (auth_route_parse v = Some r) && bool_decide (auth_route_parse (v +:+ ":") = Some r)
    && bool_decide (api_method_parse v = from_auth_route r)
    && bool_decide (cli_provider_arg_for_session_key v = Some (cli_provider_arg r))) (vocabulary r))
    all_auth_routes = true.
Proof. vm_compute. reflexivity. Qed.

Lemma elem_of_all_routes r : r ∈ all_auth_routes.
Proof. destruct r as [[] []]; unfold all_auth_routes; set_solver. Qed.

Lemma matches_pinned_key (v desired label : string) (r r' : AuthRoute) :
  v ∈ vocabulary r → desired ∈ pinning_vocabulary r' →
  model_route_provider_matches_key (Some v) label desired = bool_decide (r = r').
Proof.
  unfold vocabulary, pinning_vocabulary. intros Hv Hd.
  destruct r as [[] []], r' as [[] []];
    repeat (apply elem_of_cons in Hv as [->|Hv]; [|]); try (by apply elem_of_nil in Hv);
    repeat (apply elem_of_cons in Hd as [->|Hd]; [|]); try (by apply elem_of_nil in Hd);
    vm_compute; reflexivity.
Qed.

(** One credential decision in every vocabulary.  Each spelling of a
    credential route, also with a trailing colon, parses back to that route, is
    the same api method and the same command-line provider; a configured
    default that names a credential marks exactly the routes of that
    credential; and selecting a route and reading the resulting model spec back
    gives the same provider, the same credential and the model. *)
Theorem credential_vocabularies_agree (r : AuthRoute) :
  (∀ v, v ∈ vocabulary r →
     auth_route_parse v = Some r ∧ auth_route_parse (v +:+ ":") = Some r
     ∧ api_method_parse v = from_auth_route r
     ∧ cli_provider_arg_for_session_key v = Some (cli_provider_arg r)
     ∧ ∀ r' label desired, desired ∈ pinning_vocabulary r' →
         model_route_provider_matches_key (Some v) label desired = bool_decide (r = r'))
  ∧ (∀ route, api_method_kind route = from_auth_route r →
       ∃ prefix,
         explicit_model_provider_prefix (routed_model_spec (from_model_route route))
           = Some (route_active_provider r, prefix, trim (rt_model route))
         ∧ parse_explicit_credential_prefix prefix = Some r).
Proof.
  split.
  - intros v Hv. pose proof (proj1 (List.forallb_forall _ _) vocabulary_agrees) as Hall.
    specialize (Hall r (proj1 (list_elem_of_In _ _) (elem_of_all_routes r))). cbv beta in Hall.
    pose proof (proj1 (List.forallb_forall _ _) Hall v (proj1 (list_elem_of_In _ _) Hv)) as H. cbv beta in H.
    rewrite !andb_true_iff, !bool_decide_eq_true in H. destruct H as [[[H1 H2] H3] H4].
    split_and!; [assumption..|]. intros r' label desired. by apply matches_pinned_key.
  - intros route Hk. exists (model_prefix r +:+ ":"). unfold from_model_route. rewrite Hk. unfold routed_model_spec.
    cbn [rs_model rs_runtime_key]. destruct r as [[] []]; split; try (vm_compute; reflexivity); reflexivity.
Qed.

(** ** Catalogue refresh *)

Lemma size_filter_missing {K A} `{Countable K} (m1 m2 : gmap K A) :
  size (filter (λ kv, m2 !! kv.1 = None) m1) = size (dom m1 ∖ dom m2).
Proof.
  rewrite <- size_dom. f_equal. apply set_eq. intros k. rewrite elem_of_difference, !elem_of_dom.
  split.
  - intros [x [Hx Hn]%map_lookup_filter_Some]. simpl in Hn. split; [by exists x|]. rewrite Hn. by intros [].
  - intros [[x Hx] Hn]. exists x. apply map_lookup_filter_Some. split; [done|]. simpl. by apply eq_None_not_Some.
Qed.

Lemma map_growth {K A} `{Countable K} (m1 m2 : gmap K A) :
  size m2 + size (filter (λ kv, m2 !! kv.1 = None) m1) = size m1 + size (filter (λ kv, m1 !! kv.1 = None) m2).
Proof.
  rewrite !size_filter_missing, <- !size_dom, <- !size_union_alt. f_equal. set_solver.
Qed.

Lemma elem_of_set_difference x a b : x ∈ set_difference a b ↔ x ∈ a ∧ x ∉ b.
Proof. unfold set_difference. rewrite elem_of_List_filter, negb_true_iff, bool_decide_eq_false. done. Qed.

Lemma length_set_difference a b :
  NoDup a → length (set_difference a b) = size (list_to_set a ∖ list_to_set b : gset string).
Proof.
  intros Ha. rewrite <- (size_list_to_set (C := gset string) (set_difference a b)) by by apply NoDup_List_filter.
  f_equal. apply set_eq. intros x. rewrite elem_of_difference, !elem_of_list_to_set. apply elem_of_set_difference.
Qed.

Lemma set_growth a b :
  NoDup a → NoDup b → length b + length (set_difference a b) = length a + length (set_difference b a).
Proof.
  intros Ha Hb. rewrite !length_set_difference by done.
  rewrite <- (size_list_to_set (C := gset string) a), <- (size_list_to_set (C := gset string) b) by done.
  rewrite <- !size_union_alt. f_equal. set_solver.
Qed.

Lemma size_filter_zero {K A} `{Countable K} (P : K * A → Prop) `{!∀ x, Decision (P x)} (m : gmap K A) :
  size (filter P m) = 0 ↔ ∀ k x, m !! k = Some x → ¬ P (k, x).
Proof. rewrite map_size_empty_iff, map_empty_filter. done. Qed.

(** A refresh summary accounts for everything.  The counts before and
    after differ by what was added and removed, for models and for routes; the
    listed names are exactly the models that appeared and disappeared; and no
    route is reported added, removed or changed exactly when the two catalogues
    hold the same routes with the same availability, cost and detail, where the
    age at the end of a detail does not count. *)
Theorem catalog_refresh_accounts (before_models after_models : list string) (before_routes after_routes : list ModelRoute) :
  let s := summarize_model_catalog_refresh before_models after_models before_routes after_routes in
  model_count_after s + models_removed s = model_count_before s + models_added s
  ∧ route_count_after s + routes_removed s = route_count_before s + routes_added s
  ∧ (∀ m, m ∈ models_added_names s ↔ m ∈ after_models ∧ m ∉ before_models)
  ∧ (∀ m, m ∈ models_removed_names s ↔ m ∈ before_models ∧ m ∉ after_models)
  ∧ (routes_added s = 0 ∧ routes_removed s = 0 ∧ routes_changed s = 0
     ↔ catalog_route_map before_routes = catalog_route_map after_routes).
Proof.
  intros s. unfold s, summarize_model_catalog_refresh. cbn -[btree_set set_difference size filter catalog_route_map].
  generalize (catalog_route_map before_routes) (catalog_route_map after_routes). intros mb ma.
  split_and!.
  - apply set_growth; apply NoDup_btree_set.
  - apply map_growth.
  - intros m. by rewrite elem_of_set_difference, !elem_of_btree_set.
  - intros m. by rewrite elem_of_set_difference, !elem_of_btree_set.
  - rewrite !size_filter_zero. cbn [fst snd]. split.
    + intros (Ha & Hr & Hc). apply map_eq. intros k. destruct (ma !! k) as [y|] eqn:Hy.
      * specialize (Ha k y Hy). specialize (Hc k y Hy). destruct (mb !! k) as [x|] eqn:Hx; [|done].
        destruct (decide (x = y)) as [->|Hne]; [done|]. destruct Hc. split; [by eexists|congruence].
      * destruct (mb !! k) as [x|] eqn:Hx; [|done]. by destruct (Hr k x Hx).
    + intros ->. split_and!; intros k x Hx; rewrite Hx; naive_solver.
Qed.
