(* ===== verification/FailoverClaims.v ===== *)
(** * What holds of retries and failover

    The server's delay is read exactly and capped; the message that carries a
    failover prompt gives the prompt back; the tracker of an attempt forwards
    every event in order, reports output exactly, and its guard resolves. *)

From Stdlib Require Import Ascii Floats.SpecFloat.
From stdpp Require Import base list gmap strings pretty.
From S2P Require Import Prelude RustString RustText Float32 Message Compaction CompactionClaims ModelId Routes Failover.

Open Scope string_scope.
Open Scope nat_scope.
Open Scope list_scope.

#[local] Arguments starts_with : simpl never.

(** ** The server's delay *)

(** The number a string of digits denotes. *)
Fixpoint decimal_value (acc : N) (digits : string) : N :=
  match digits with
  | "" => acc
  | String c rest => decimal_value (acc * 10 + (byte_val c - 48)) rest
  end.

Lemma decimal_value_mono a b digits : (a ≤ b)%N → (decimal_value a digits ≤ decimal_value b digits)%N.
Proof. revert a b. induction digits as [|c s IH]; intros a b H; simpl; [done|]. apply IH. lia. Qed.

Lemma decimal_value_ge a digits : (a ≤ decimal_value a digits)%N.
Proof. revert a. induction digits as [|c s IH]; intros a; simpl; [lia|]. specialize (IH (a * 10 + (byte_val c - 48))%N). lia. Qed.

Lemma byte_val_lt c : (byte_val c < 256)%N.
Proof. unfold byte_val. apply N_ascii_bounded. Qed.

Lemma retry_seconds_value acc digits :
  (acc ≤ 60)%N → retry_seconds acc digits = N.min (decimal_value acc digits) 60.
Proof.
  revert acc. induction digits as [|c s IH]; intros acc Ha; cbn [retry_seconds decimal_value]; [lia|].
  change (MAX_RETRY_AFTER / SECOND)%N with 60%N. pose proof (byte_val_lt c).
  assert (sat_add_u64 (sat_mul_u64 acc 10) (byte_val c - 48) = acc * 10 + (byte_val c - 48))%N as ->.
  { unfold sat_add_u64, sat_mul_u64. change U64_MAX with 18446744073709551615%N. lia. }
  rewrite IH by lia. destruct (N.leb_spec (acc * 10 + (byte_val c - 48)) 60).
  - by rewrite (N.min_l (acc * 10 + (byte_val c - 48)) 60).
  - rewrite (N.min_r (acc * 10 + (byte_val c - 48)) 60) by lia. pose proof (decimal_value_ge 60 s).
    pose proof (decimal_value_mono 60 (acc * 10 + (byte_val c - 48)) s). lia.
Qed.

(** C39: The server's delay.  A header of digits, of any length, is read as
    the number it denotes in seconds, capped at sixty; a date as the time until
    it, zero when it has passed, with the same cap; so a hint never makes a
    retry wait longer than sixty seconds, however late it is looked at. *)
Theorem retry_hint_exact_and_capped (parse_http_date : string → option N) (header : string) (now start later : N) :
  trim header ≠ "" → (start ≤ later)%N →
  retry_after_delay_at parse_http_date (Some header) now =
    (if every_byte is_ascii_digit (trim header)
     then Some (N.min (decimal_value 0 (trim header)) 60 * SECOND)%N
     else (λ at_time, N.min (at_time - now) (60 * SECOND)) <$> parse_http_date (trim header))
  ∧ ∀ hint, retry_after parse_http_date (Some header) now start = Some hint →
      (remaining hint later ≤ 60 * SECOND)%N.
Proof.
  intros Hne Hle.
  assert (retry_after_delay_at parse_http_date (Some header) now =
    (if every_byte is_ascii_digit (trim header)
     then Some (N.min (decimal_value 0 (trim header)) 60 * SECOND)%N
     else (λ at_time, N.min (at_time - now) (60 * SECOND)) <$> parse_http_date (trim header))) as He.
  { unfold retry_after_delay_at, str_is_empty. rewrite bool_decide_false by done.
    destruct every_byte; [by rewrite retry_seconds_value|].
    destruct parse_http_date as [t|]; [|done]. simpl. f_equal. unfold MAX_RETRY_AFTER.
    destruct (N.leb_spec now t); lia. }
  split; [done|]. unfold retry_after. rewrite He. intros hint.
  destruct every_byte; [|destruct parse_http_date]; intros; simplify_eq/=; unfold remaining; simpl;
    change SECOND with 1000000000%N; lia.
Qed.

Lemma retry_hint_exact_and_capped_witness :
  retry_after_delay_at (λ _, None) (Some " 99999999999999999999999 ") 0 = Some (60 * SECOND)%N.
Proof.
  etrans; [apply (retry_hint_exact_and_capped (λ _, None) " 99999999999999999999999 " 0 0 5)|];
    [vm_compute; discriminate|lia|vm_compute; reflexivity].
Defined.

(** ** The failover prompt *)

(** The text [serde_json::to_string] gives for a struct: one line, an object. *)
Class PromptCodecLaws (C : PromptCodec) : Prop := {
  prompt_json_object : ∀ p json, prompt_to_json p = Some json →
    ∃ fields, json = "{" +:+ fields +:+ "}" ∧ any_byte is_lf fields = false;
  prompt_json_roundtrip : ∀ p json, prompt_to_json p = Some json → prompt_from_json json = Some p;
}.

Lemma last_byte_snoc s c : last_byte (s +:+ String c "") = Some c.
Proof.
  induction s as [|d s IH]; [done|]. change (String d s +:+ String c "") with (String d (s +:+ String c "")).
  cbn [last_byte]. rewrite IH. by destruct (s +:+ String c "").
Qed.

(** Round trip of the failover prompt.  When the prompt can be encoded,
    the error message that carries it, which goes on with a sentence for the
    user, parses back to that prompt, whatever the labels contain. *)
Theorem failover_prompt_roundtrip `{!PromptCodec, !PromptCodecLaws _} (p : ProviderFailoverPrompt) (json : string) :
  prompt_to_json p = Some json → parse_failover_prompt_message (to_error_message p) = Some p.
Proof.
  intros Hj. destruct (prompt_json_object p json Hj) as (fields & He & Hlf).
  unfold parse_failover_prompt_message, to_error_message. rewrite Hj. change (default "{}" (Some json)) with json.
  rewrite <- (append_assoc_s PROVIDER_FAILOVER_PROMPT_PREFIX). unfold lines. rewrite lines_from_line.
  2: { rewrite any_byte_append, He, !any_byte_append, Hlf. reflexivity. }
  set (line := PROVIDER_FAILOVER_PROMPT_PREFIX +:+ json).
  assert (∃ body, line = String "[" (body +:+ "}") ∧ starts_char (body +:+ "}") = true) as (body & Hl & Hs).
  { exists ("jcode-provider-failover]{" +:+ fields). unfold line. rewrite He.
    split; [|reflexivity]. rewrite <- append_assoc_s. reflexivity. }
  assert (strip_cr line = line) as Hcr.
  { unfold strip_cr. rewrite Hl. change (String "[" (body +:+ "}")) with (String "[" body +:+ "}").
    by rewrite last_byte_snoc. }
  assert (trim line = line) as Htr.
  { rewrite Hl, trim_start_solid; [|done|vm_compute; reflexivity].
    change (String "[" (body +:+ "}")) with (String "[" body +:+ "}").
    apply trim_end_append; [done|done|vm_compute; reflexivity]. }
  change ("" +:+ line) with line. rewrite Hcr, Htr.
  assert (strip_prefix PROVIDER_FAILOVER_PROMPT_PREFIX line = Some json) as -> by (by apply strip_prefix_Some).
  by apply prompt_json_roundtrip.
Qed.

#[global] Instance ProviderFailoverPrompt_eq_dec : EqDecision ProviderFailoverPrompt.
Proof. solve_decision. Defined.

Definition demo_failover : ProviderFailoverPrompt :=
  mkFailoverPrompt "claude" "Anthropic" "openai" "OpenAI" "rate limit" 1200 300.
Definition demo_failover_json : string := "{from:claude,to:openai}".
(** A codec that knows one prompt. *)
Definition demo_codec : PromptCodec := {|
  prompt_to_json := λ p, if decide (p = demo_failover) then Some demo_failover_json else None;
  prompt_from_json := λ s, if decide (s = demo_failover_json) then Some demo_failover else None;
|}.

Lemma demo_codec_laws : PromptCodecLaws demo_codec.
Proof.
  split; intros p json; simpl; (case_decide as Hp; [|done]); intros [= <-].
  - by exists "from:claude,to:openai".
  - rewrite decide_True by done. by rewrite Hp.
Qed.

Lemma failover_prompt_roundtrip_witness :
  @parse_failover_prompt_message demo_codec (@to_error_message demo_codec demo_failover) = Some demo_failover.
Proof. apply (@failover_prompt_roundtrip demo_codec demo_codec_laws demo_failover demo_failover_json). reflexivity. Defined.

(** ** The attempt tracker *)

Section TrackerFacts.
Context {J : Json} (capacity : nat) (prev : list (result StreamEvent string)).

Notation visible := (existsb item_is_visible).
Definition delivered (s : Attempt) : list (result StreamEvent string) := at_received s ++ at_outer s.
Definition inspected_next (s : Attempt) : list (result StreamEvent string) :=
  match at_phase s with Inspecting item => [item] | _ => [] end.

(** What [handled], the items already inspected, tells of a state. *)
Definition phase_ok (s : Attempt) (handled : list (result StreamEvent string)) : Prop :=
  match at_phase s with
  | Receiving | Inspecting _ => delivered s = prev ++ handled
  | Sending item => ∃ before, handled = before ++ [item] ∧ delivered s = prev ++ before
  | Finished =>
      (delivered s = prev ++ handled ∧ at_queue s = [])
      ∨ (∃ before item, handled = before ++ [item] ∧ delivered s = prev ++ before ∧ at_consumer_open s = false)
  end.

Definition tracked (s : Attempt) : Prop :=
  ∃ handled, at_sent s = handled ++ inspected_next s ++ at_queue s
    ∧ at_saw_output s = visible handled ∧ phase_ok s handled.

Lemma forwarder_tracked s s' : tracked s → forwarder_step capacity s = Some s' → tracked s'.
Proof.
  intros (handled & Hsent & Hsaw & Hph) Hstep. unfold forwarder_step in Hstep.
  unfold phase_ok, inspected_next, delivered in *. destruct s as [q so ph saw out co rcv sent]; simpl in *.
  destruct ph as [|item|item|]; [|injection Hstep as <-| |done].
  - destruct q as [|item q].
    + destruct so; [done|]. injection Hstep as <-. exists handled. unfold phase_ok; simpl. split_and!; [done..|by left].
    + injection Hstep as <-. by exists handled.
  - exists (handled ++ [item]). unfold phase_ok; simpl. rewrite existsb_app, <- Hsaw. split_and!.
    + by rewrite Hsent, <- !app_assoc.
    + simpl. destruct item_is_visible, saw; done.
    + by exists handled.
  - destruct Hph as (before & -> & Hd). destruct co; [destruct (length out <? capacity); [|done]|];
      injection Hstep as <-; exists (before ++ [item]); unfold phase_ok; simpl; split_and!; try done.
    + unfold delivered; simpl. by rewrite !app_assoc, Hd.
    + right. by exists before, item.
Qed.

Lemma step_tracked act s s' : tracked s → attempt_step capacity act s = Some s' → tracked s'.
Proof.
  intros Ht Hstep. destruct act as [item| | | |]; simpl in Hstep; [| |by apply (forwarder_tracked s)| |];
    destruct Ht as (handled & Hsent & Hsaw & Hph); exists handled; unfold phase_ok, inspected_next, delivered in *.
  - destruct (is_finished s) eqn:Hf; [by rewrite andb_false_r in Hstep|].
    destruct (_ && _); [|done]. injection Hstep as <-. simpl. unfold is_finished in Hf.
    split_and!; [by rewrite Hsent, <- !app_assoc|done|]. by destruct (at_phase s).
  - destruct (at_sender_open s); [|done]. injection Hstep as <-. done.
  - destruct (at_outer s) as [|item out]; [done|]. destruct (at_consumer_open s) eqn:Hc; [|done].
    injection Hstep as <-. simpl. by rewrite <- app_assoc.
  - destruct (at_consumer_open s); [|done]. injection Hstep as <-. simpl. split_and!; [done..|].
    destruct (at_phase s); try done. destruct Hph as [?|(b & i & ? & ? & _)]; [by left|right; by exists b, i].
Qed.

Lemma run_tracked acts s s' : tracked s → run_actions capacity acts s = Some s' → tracked s'.
Proof.
  revert s. induction acts as [|a acts IH]; intros s Ht; simpl; [by intros [= <-]|].
  destruct (attempt_step capacity a s) as [t|] eqn:Hs; [|done]. apply IH. by apply (step_tracked a s).
Qed.

(** C33: The attempt tracker.  In every interleaving of the attempt's sends,
    the forwarder and the consumer, whatever was in the outer channel before:
    once the guard has resolved, the consumer's side got a prefix of the
    attempt's events, in order and after the earlier ones, and the guard
    reports output whenever one of those events was visible.  As long as the
    consumer listens, that prefix is everything the attempt sent, and the guard
    reports output exactly when a visible event was sent, so a rollback sent
    next comes after all of it. *)
Theorem attempt_tracker_exact (acts : list Action) (s : Attempt) (saw : bool) :
  run_actions capacity acts (track_attempt_output prev) = Some s → finish s = Some saw →
  (∃ k, at_received s ++ at_outer s = prev ++ take k (at_sent s)
        ∧ (visible (take k (at_sent s)) = true → saw = true))
  ∧ (at_consumer_open s = true →
       at_received s ++ at_outer s = prev ++ at_sent s ∧ saw = visible (at_sent s)).
Proof.
  intros Hrun Hfin.
  assert (tracked (track_attempt_output prev)) as H0.
  { exists []. unfold phase_ok, delivered; simpl. by rewrite app_nil_r. }
  destruct (run_tracked _ _ _ H0 Hrun) as (handled & Hsent & Hsaw & Hph).
  unfold finish, is_finished in Hfin. unfold phase_ok, inspected_next, delivered in *.
  destruct (at_phase s); try done. injection Hfin as <-.
  destruct Hph as [[Hd Hq]|(before & item & -> & Hd & Hc)].
  - rewrite Hq in Hsent. simpl in Hsent. rewrite app_nil_r in Hsent. subst handled. split; [|done].
    exists (length (at_sent s)). rewrite take_ge by lia. split; [done|]. by rewrite Hsaw.
  - split; [|by rewrite Hc]. exists (length before).
    rewrite Hsent, <- !app_assoc, take_app_length. split; [done|]. rewrite Hsaw, existsb_app. by intros ->.
Qed.

(** ** The guard resolves *)

Definition phase_cost (ph : ForwarderPhase) : nat :=
  match ph with Receiving => 1 | Inspecting _ => 4 | Sending _ => 3 | Finished => 0 end.
Definition remaining_steps (s : Attempt) : nat :=
  4 * length (at_queue s) + phase_cost (at_phase s) + length (at_outer s).

Definition draining (s : Attempt) : Prop := at_sender_open s = false ∧ at_consumer_open s = true.
Definition is_drain (a : Action) : Prop := a = Forward ∨ a = Consume.

Lemma drain_step a s s' :
  draining s → is_drain a → attempt_step capacity a s = Some s' →
  draining s' ∧ remaining_steps s = S (remaining_steps s').
Proof.
  intros [Hs Hc] [->| ->] Hstep; unfold attempt_step, forwarder_step in Hstep; unfold draining, remaining_steps.
  - destruct (at_phase s) as [|i|i|] eqn:Hp; simpl.
    + destruct (at_queue s) as [|x q]; [rewrite Hs in Hstep|]; injection Hstep as <-; simpl; (split; [done|lia]).
    + injection Hstep as <-. simpl. split; [done|lia].
    + rewrite Hc in Hstep. destruct (_ <? _); [|done]. injection Hstep as <-. simpl.
      rewrite length_app; simpl. split; [done|lia].
    + done.
  - destruct (at_outer s); [done|]. rewrite Hc in Hstep. injection Hstep as <-. simpl. split; [done|lia].
Qed.

Lemma drain_enabled s :
  draining s → 0 < capacity → is_finished s = false → ∃ a, is_drain a ∧ is_Some (attempt_step capacity a s).
Proof.
  intros [Hs Hc] Hcap Hf. unfold is_finished in Hf. destruct (at_phase s) as [|i|i|] eqn:Hp; [| | |done].
  - exists Forward. split; [by left|]. simpl. unfold forwarder_step. rewrite Hp, Hs. by destruct (at_queue s).
  - exists Forward. split; [by left|]. simpl. unfold forwarder_step. by rewrite Hp.
  - destruct (length (at_outer s) <? capacity) eqn:Hl.
    + exists Forward. split; [by left|]. simpl. unfold forwarder_step. by rewrite Hp, Hc, Hl.
    + exists Consume. split; [by right|]. apply Nat.ltb_ge in Hl. simpl. rewrite Hc.
      destruct (at_outer s); [simpl in Hl; lia|done].
Qed.

(** The guard resolves.  After the attempt has dropped its sender, while
    the consumer listens, every schedule of forwarder and consumer steps is
    bounded by four steps per buffered item and a constant, and can be
    continued until the guard resolves: waiting for it never deadlocks, also
    when the outer channel is full. *)
Theorem attempt_guard_resolves (s s' : Attempt) (acts : list Action) :
  0 < capacity → at_sender_open s = false → at_consumer_open s = true →
  Forall is_drain acts → run_actions capacity acts s = Some s' →
  length acts ≤ 4 * length (at_queue s) + length (at_outer s) + 4
  ∧ (finish s' = None → ∃ a, is_drain a ∧ is_Some (attempt_step capacity a s')).
Proof.
  intros Hcap Hs Hc Hacts Hrun.
  assert (draining s' ∧ length acts ≤ remaining_steps s) as [Hd Hlen].
  { assert (draining s) as Hd by done. clear Hs Hc. revert s Hd Hrun.
    induction Hacts as [|a acts Ha Hacts IH]; intros s Hd Hrun; simpl in *; [split; [congruence|lia]|].
    destruct (attempt_step capacity a s) as [t|] eqn:Hst; [|done].
    destruct (drain_step a s t Hd Ha Hst) as [Hdt Hm]. destruct (IH t Hdt Hrun). split; [done|lia]. }
  split.
  - unfold remaining_steps in Hlen. assert (phase_cost (at_phase s) ≤ 4) by (destruct (at_phase s); simpl; lia). lia.
  - unfold finish. destruct (is_finished s') eqn:Hf; [done|]. intros _. by apply drain_enabled.
Qed.
End TrackerFacts.

Definition demo_sent : list (result (@StreamEvent text_json) string) :=
  [Ok (EvConnectionPhase Connecting); Ok (TextDelta "partial")].
Definition demo_acts : list (@Action text_json) :=
  [AttemptSend (Ok (EvConnectionPhase Connecting)); Forward; AttemptSend (Ok (TextDelta "partial")); Forward; Forward;
   AttemptDrop; Forward; Forward; Consume; Forward; Forward].
Definition demo_attempt : Attempt :=
  mkAttempt [] false Finished true [Ok (TextDelta "partial")] true [Ok (EvConnectionPhase Connecting)] demo_sent.

Lemma attempt_tracker_exact_witness :
  at_received demo_attempt ++ at_outer demo_attempt = [] ++ at_sent demo_attempt
  ∧ true = existsb item_is_visible (at_sent demo_attempt).
Proof. apply (attempt_tracker_exact 1 [] demo_acts demo_attempt true); reflexivity. Defined.

Definition demo_draining : @Attempt text_json :=
  mkAttempt [Ok ToolUseEnd] false Receiving false [Err "late"] true [] [Ok ToolUseEnd].

Lemma attempt_guard_resolves_witness :
  ∃ a, is_drain a ∧ is_Some (attempt_step 1 a (default demo_draining (run_actions 1 [Forward; Forward] demo_draining))).
Proof.
  refine (proj2 (attempt_guard_resolves 1 demo_draining
    (default demo_draining (run_actions 1 [Forward; Forward] demo_draining)) [Forward; Forward] _ _ _ _ _) _);
    [lia|reflexivity|reflexivity| |reflexivity|reflexivity].
  repeat constructor.
Defined.
