(* ===== verification/OpenAiRequest.v ===== *)
(** * Building a request of the OpenAI Responses API

    crates/jcode-provider-openai/src/request.rs: the conversion of a
    conversation into input items, with tool calls and their outputs put side
    by side.  The items are the JSON objects the code writes, one constructor
    per ["type"]; the later passes, which read the ["type"], ["call_id"] and
    ["output"] fields back, match on the constructor.  The counters only feed
    the log and are left out.  [iter] is the order in which the set of open
    calls is iterated. *)

From stdpp Require Import base list gmap strings.
From S2P Require Import Prelude RustString RustText Message Compaction Manager ModelId.

Open Scope string_scope.
Open Scope nat_scope.
Open Scope list_scope.

Definition is_openai_encrypted_content_too_large_error (error : string) : bool :=
  let lower := to_ascii_lowercase error in
  str_contains "encrypted_content" lower
  && contains_any ["string_above_max_length"; "string too long"; "maximum length"; "large_string_param";
                   "largestringparam"] lower.

Inductive Part := InputImage (image_url : string) | InputText (text : string).

Inductive Item :=
| UserItem (content : list Part)
| AssistantItem (text : string)
| CompactionItem (encrypted_content : string)
| ReasoningItem (id : string) (summary : list string) (encrypted_content status : option string)
| FunctionCall (name arguments call_id : string)
| FunctionCallOutput (call_id output : string).

Definition missing_output : string := "[Error] " +:+ TOOL_OUTPUT_MISSING_TEXT.

Definition orphan_tool_output_to_user_message (call_id output : string) : option Item :=
  let output := trim output in
  if str_is_empty output || String.eqb output missing_output then None
  else Some (UserItem [InputText ("[Recovered orphaned tool output: " +:+ call_id +:+ "]" +:+ newline +:+ output)]).

Record Build := mkBuild {
  bd_items : list Item;
  bd_open : gset string;
  bd_pending : gmap string string;
  bd_used : gset string;
}.

Definition push_item (i : Item) (b : Build) : Build :=
  mkBuild (bd_items b ++ [i]) (bd_open b) (bd_pending b) (bd_used b).

(** [if !content_parts.is_empty() { items.push(.. take(&mut content_parts)) }]. *)
Definition flush_parts (parts : list Part) (b : Build) : Build :=
  match parts with [] => b | _ => push_item (UserItem parts) b end.

Section Build.
Context {J : Json} {T : Chrono}.

(** ** The first pass *)

Definition tool_result_ids (msg : Message) : list string :=
  match role msg with
  | User => omap (λ b, match b with ToolResult id _ _ => Some id | _ => None end) (content msg)
  | Assistant => []
  end.
Fixpoint result_positions (idx : nat) (messages : list Message) (m : gmap string nat) : gmap string nat :=
  match messages with
  | [] => m
  | msg :: rest => result_positions (S idx) rest (fold_left (λ m id, <[id := idx]> m) (tool_result_ids msg) m)
  end.
Definition tool_result_last_pos (messages : list Message) : gmap string nat := result_positions 0 messages ∅.

Definition result_output (content : string) (is_error : option bool) : string :=
  if bool_decide (is_error = Some true) then "[Error] " +:+ content else content.

Definition take_result (tool_use_id output : string) (b : Build) : Build :=
  if bool_decide (tool_use_id ∈ bd_used b) then b
  else if bool_decide (tool_use_id ∈ bd_open b) then
    mkBuild (bd_items b ++ [FunctionCallOutput (sanitize_tool_id tool_use_id) output])
      (bd_open b ∖ {[tool_use_id]}) (bd_pending b) ({[tool_use_id]} ∪ bd_used b)
  else if bool_decide (is_Some (bd_pending b !! tool_use_id)) then b
  else mkBuild (bd_items b) (bd_open b) (<[tool_use_id := output]> (bd_pending b)) (bd_used b).

Definition user_block (acc : list Part * Build) (block : ContentBlock) : list Part * Build :=
  let '(parts, b) := acc in
  match block with
  | Image media_type data => (parts ++ [InputImage ("data:" +:+ media_type +:+ ";base64," +:+ data)], b)
  | Text text _ => (parts ++ [InputText text], b)
  | OpenAICompaction encrypted_content =>
      let b := flush_parts parts b in
      if openai_encrypted_content_is_sendable encrypted_content
      then ([], push_item (CompactionItem encrypted_content) b)
      else ([], push_item (UserItem [InputText (openai_encrypted_content_fallback_summary
                                                  (str_len encrypted_content))]) b)
  | ToolResult tool_use_id content is_error =>
      ([], take_result tool_use_id (result_output content is_error) (flush_parts parts b))
  | _ => (parts, b)
  end.

Definition user_message_items (msg : Message) (b : Build) : Build :=
  let '(parts, b) := fold_left user_block (content msg) ([], b) in flush_parts parts b.

Definition call_arguments (input : Value) : string := if is_object input then value_to_string input else "{}".

(** After a call has been pushed: its output if it came before, nothing if it is
    still to come, and a synthetic one otherwise. *)
Definition answer_call (last_pos : gmap string nat) (idx : nat) (id : string) (b : Build) : Build :=
  match bd_pending b !! id with
  | Some output =>
      mkBuild (bd_items b ++ [FunctionCallOutput (sanitize_tool_id id) output]) (bd_open b)
        (delete id (bd_pending b)) ({[id]} ∪ bd_used b)
  | None =>
      let has_future_output := match last_pos !! id with Some pos => idx <? pos | None => false end in
      if has_future_output then mkBuild (bd_items b) ({[id]} ∪ bd_open b) (bd_pending b) (bd_used b)
      else mkBuild (bd_items b ++ [FunctionCallOutput (sanitize_tool_id id) missing_output]) (bd_open b)
             (bd_pending b) ({[id]} ∪ bd_used b)
  end.

Definition assistant_block (last_pos : gmap string nat) (idx : nat) (b : Build) (block : ContentBlock) : Build :=
  match block with
  | Text text _ => push_item (AssistantItem text) b
  | OpenAIReasoning id summary encrypted_content status =>
      push_item (ReasoningItem id summary encrypted_content status) b
  | ToolUse id name input _ =>
      answer_call last_pos idx id (push_item (FunctionCall name (call_arguments input) (sanitize_tool_id id)) b)
  | _ => b
  end.

Fixpoint build_messages (last_pos : gmap string nat) (idx : nat) (messages : list Message) (b : Build) : Build :=
  match messages with
  | [] => b
  | msg :: rest =>
      let b := match role msg with
               | User => user_message_items msg b
               | Assistant => fold_left (assistant_block last_pos idx) (content msg) b
               end in
      build_messages last_pos (S idx) rest b
  end.

(** ** Open calls and results without a call *)

Definition close_call (b : Build) (call_id : string) : Build :=
  if bool_decide (call_id ∈ bd_used b) then b
  else match bd_pending b !! call_id with
       | Some output =>
           mkBuild (bd_items b ++ [FunctionCallOutput (sanitize_tool_id call_id) output]) (bd_open b)
             (delete call_id (bd_pending b)) (bd_used b)
       | None => push_item (FunctionCallOutput (sanitize_tool_id call_id) missing_output) b
       end.

Definition entry_leb (a b : string * string) : bool := String.leb a.1 b.1.
Definition pending_orphans (pending : gmap string string) : list Item :=
  omap (λ e, orphan_tool_output_to_user_message (sanitize_tool_id e.1) e.2) (sort_by entry_leb (map_to_list pending)).

(** ** The later passes *)

Definition output_id (i : Item) : option string :=
  match i with FunctionCallOutput call_id _ => Some call_id | _ => None end.

(** Every call gets an output. *)
Fixpoint inject_missing (output_ids : gset string) (items : list Item) : list Item :=
  match items with
  | [] => []
  | item :: rest =>
      match item with
      | FunctionCall _ _ call_id =>
          if bool_decide (call_id ∈ output_ids) then item :: inject_missing output_ids rest
          else item :: FunctionCallOutput call_id missing_output :: inject_missing ({[call_id]} ∪ output_ids) rest
      | _ => item :: inject_missing output_ids rest
      end
  end.

(** The output kept for a call: the first that is not the synthetic one. *)
Definition note_output (m : gmap string string) (item : Item) : gmap string string :=
  match item with
  | FunctionCallOutput call_id output =>
      match m !! call_id with
      | Some existing =>
          if String.eqb existing missing_output && negb (String.eqb output missing_output)
          then <[call_id := output]> m else m
      | None => <[call_id := output]> m
      end
  | _ => m
  end.
Definition output_map (items : list Item) : gmap string string := fold_left note_output items ∅.

(** Each call directly followed by its output, other outputs dropped or
    turned into messages. *)
Fixpoint order_items (outputs : gmap string string) (used : gset string) (items : list Item) : list Item :=
  match items with
  | [] => []
  | item :: rest =>
      match item with
      | FunctionCall _ _ call_id =>
          item :: FunctionCallOutput call_id (default missing_output (outputs !! call_id))
               :: order_items outputs ({[call_id]} ∪ used) rest
      | FunctionCallOutput call_id output =>
          if bool_decide (call_id ∈ used) then order_items outputs used rest
          else match orphan_tool_output_to_user_message call_id output with
               | Some message_item => message_item :: order_items outputs used rest
               | None => order_items outputs used rest
               end
      | _ => item :: order_items outputs used rest
      end
  end.

Definition build_responses_input (iter : gset string → list string) (messages : list Message) : list Item :=
  let b := build_messages (tool_result_last_pos messages) 0 messages (mkBuild [] ∅ ∅ ∅) in
  let b := fold_left close_call (iter (bd_open b)) b in
  let items := bd_items b ++ pending_orphans (bd_pending b) in
  let normalized := inject_missing (list_to_set (omap output_id items)) items in
  order_items (output_map normalized) ∅ normalized.
End Build.
