(* ===== verification/OpenAiRequestClaims.v ===== *)
(** * What holds of a built request

    In every request each tool call is directly followed by one output, and no
    output stands anywhere else.  When distinct tool identifiers stay distinct,
    the calls are those of the conversation, each answered by the first result
    recorded for it, and results without a call are kept as messages. *)

From stdpp Require Import base list gmap strings.
From S2P Require Import Prelude RustString RustText Message Compaction CompactionClaims Manager ModelId OpenAiRequest.

Open Scope string_scope.
Open Scope nat_scope.
Open Scope list_scope.

#[local] Arguments sanitize_tool_id : simpl never.
#[local] Arguments missing_output : simpl never.

(** Every call is directly followed by an output with its identifier, and
    every output directly follows its call. *)
Fixpoint paired (items : list Item) : Prop :=
  match items with
  | [] => True
  | FunctionCall _ _ call_id :: rest =>
      match rest with
      | FunctionCallOutput call_id' _ :: rest' => call_id' = call_id ∧ paired rest'
      | _ => False
      end
  | FunctionCallOutput _ _ :: _ => False
  | _ :: rest => paired rest
  end.

Lemma orphan_is_user_item id o i : orphan_tool_output_to_user_message id o = Some i → ∃ parts, i = UserItem parts.
Proof. unfold orphan_tool_output_to_user_message. destruct (_ || _); [done|]. intros [= <-]. by eexists. Qed.

Lemma order_items_paired outputs used items : paired (order_items outputs used items).
Proof.
  revert used. induction items as [|i items IH]; intros used; [done|].
  destruct i; cbn [order_items]; try apply IH; [split; [done|apply IH]|].
  case_bool_decide; [apply IH|]. destruct orphan_tool_output_to_user_message eqn:Ho; [|apply IH].
  apply orphan_is_user_item in Ho as [parts ->]. apply IH.
Qed.

Section Facts.
Context {J : Json} {T : Chrono}.

(** Pairing.  Whatever the conversation, also one cut off in the middle,
    with repeated, misplaced or unanswered results, every tool call of the
    request is directly followed by one output for it, and the request has no
    other outputs. *)
Theorem responses_input_is_paired (iter : gset string → list string) (messages : list Message) :
  paired (build_responses_input iter messages).
Proof. apply order_items_paired. Qed.

(** ** What the conversation says *)

Definition called (msg : Message) : list (string * string * string) :=
  match role msg with
  | Assistant =>
      omap (λ b, match b with ToolUse id name input _ => Some (id, name, call_arguments input) | _ => None end)
        (content msg)
  | User => []
  end.
Definition conversation_calls (messages : list Message) : list (string * string * string) := messages ≫= called.

Definition answered (msg : Message) : list (string * string) :=
  match role msg with
  | User => omap (λ b, match b with ToolResult id c e => Some (id, result_output c e) | _ => None end) (content msg)
  | Assistant => []
  end.
Definition conversation_results (messages : list Message) : list (string * string) := messages ≫= answered.

(** The first result recorded for an identifier. *)
Definition first_result (results : list (string * string)) (id : string) : option string :=
  snd <$> find_first (λ e, bool_decide (e.1 = id)) results.

Definition sent_call (c : string * string * string) : Item := FunctionCall c.1.2 c.2 (sanitize_tool_id c.1.1).
Definition calls_of (items : list Item) : list Item :=
  List.filter (λ i, match i with FunctionCall _ _ _ => true | _ => false end) items.

Lemma first_result_app l1 l2 id :
  first_result (l1 ++ l2) id = match first_result l1 id with Some o => Some o | None => first_result l2 id end.
Proof.
  unfold first_result. induction l1 as [|[k o] l1 IH]; [done|]. cbn. case_bool_decide; [done|]. apply IH.
Qed.

Lemma first_result_cons k o l id :
  first_result ((k, o) :: l) id = if decide (k = id) then Some o else first_result l id.
Proof. unfold first_result. cbn. case_bool_decide; by case_decide. Qed.

Lemma first_result_None l id : id ∉ l.*1 → first_result l id = None.
Proof.
  induction l as [|[k o] l IH]; [done|]. intros Hn. rewrite first_result_cons. apply not_elem_of_cons in Hn as [? Hn].
  rewrite decide_False by done. by apply IH.
Qed.

(** ** The state of the first pass

    [C] are the calls pushed so far, [R] the results seen so far and [All]
    all the results of the conversation. *)
Record pass_ok (All R : list (string * string)) (C : list (string * string * string)) (b : Build) : Prop := {
  ok_pending : ∀ id o, bd_pending b !! id = Some o → first_result R id = Some o ∧ id ∉ C.*1.*1;
  ok_used : ∀ id, id ∈ bd_used b → id ∈ C.*1.*1;
  ok_open : ∀ id, id ∈ bd_open b → id ∈ C.*1.*1;
  ok_called : ∀ id, id ∈ C.*1.*1 → id ∈ bd_open b ∨ id ∈ bd_used b;
  ok_seen : ∀ id o, first_result R id = Some o → id ∈ bd_used b ∨ bd_pending b !! id = Some o;
  ok_answer : ∀ id, id ∈ bd_used b →
    FunctionCallOutput (sanitize_tool_id id) (default missing_output (first_result All id)) ∈ bd_items b;
  ok_output : ∀ cid o, FunctionCallOutput cid o ∈ bd_items b →
    ∃ id, id ∈ C.*1.*1 ∧ cid = sanitize_tool_id id ∧ (o = missing_output ∨ first_result All id = Some o);
  ok_calls : calls_of (bd_items b) = sent_call <$> C;
}.

Lemma calls_of_app l1 l2 : calls_of (l1 ++ l2) = calls_of l1 ++ calls_of l2.
Proof. apply List.filter_app. Qed.

(** Pushing an item that is neither a call nor an output. *)
Definition is_plain (i : Item) : Prop :=
  match i with FunctionCall _ _ _ | FunctionCallOutput _ _ => False | _ => True end.

Lemma push_plain All R C b i : is_plain i → pass_ok All R C b → pass_ok All R C (push_item i b).
Proof.
  intros Hi []. split; try done; simpl.
  - intros id Hid. apply elem_of_app. left. by apply ok_answer0.
  - intros cid o [?|Hx%list_elem_of_singleton]%elem_of_app; [by apply ok_output0|]. by subst i.
  - rewrite calls_of_app, ok_calls0. destruct i; try done; simpl; by rewrite app_nil_r.
Qed.

Lemma flush_ok All R C b parts : pass_ok All R C b → pass_ok All R C (flush_parts parts b).
Proof. destruct parts; [done|]. by apply push_plain. Qed.

Lemma take_result_ok All R C b S id o :
  All = R ++ (id, o) :: S → pass_ok All R C b → pass_ok All (R ++ [(id, o)]) C (take_result id o b).
Proof.
  intros HAll [].
  assert (∀ i x, first_result R i = Some x → first_result (R ++ [(id, o)]) i = Some x) as Hmono
    by (intros i x Hx; by rewrite first_result_app, Hx).
  assert (∀ i x, first_result (R ++ [(id, o)]) i = Some x →
            first_result R i = Some x ∨ (i = id ∧ x = o ∧ first_result R i = None)) as Hinv.
  { intros i x. rewrite first_result_app. destruct (first_result R i) eqn:Hr; [by left|].
    rewrite first_result_cons. case_decide as Hd; [|done]. intros [= <-]. by right. }
  unfold take_result. case_bool_decide as Hu; [|case_bool_decide as Ho; [|case_bool_decide as Hp]].
  - split; try done.
    + intros i x Hx. destruct (ok_pending0 i x Hx). auto.
    + intros i x [?|(-> & _)]%Hinv; [by apply ok_seen0|by left].
  - assert (first_result R id = None) as Hnone.
    { destruct (first_result R id) as [x|] eqn:Hr; [|done]. exfalso. destruct (ok_seen0 id x Hr) as [?|Hx]; [done|].
      destruct (ok_pending0 id x Hx) as [_ Hc]. by apply Hc, ok_open0. }
    assert (first_result All id = Some o) as Hfst
      by (by rewrite HAll, first_result_app, Hnone, first_result_cons, decide_True).
    split; simpl; try done.
    + intros i x Hx. destruct (ok_pending0 i x Hx). auto.
    + intros i [->%elem_of_singleton|?]%elem_of_union; auto.
    + set_solver.
    + intros i Hi. destruct (decide (i = id)) as [->|]; [set_solver|]. destruct (ok_called0 i Hi); set_solver.
    + intros i x [?|(-> & _)]%Hinv; [|set_solver]. destruct (ok_seen0 i x); set_solver.
    + intros i [->%elem_of_singleton|Hi]%elem_of_union; apply elem_of_app; [right|left; by apply ok_answer0].
      rewrite Hfst. by apply list_elem_of_singleton.
    + intros cid x [?|Hx%list_elem_of_singleton]%elem_of_app; [by apply ok_output0|]. simplify_eq.
      exists id. auto.
    + rewrite calls_of_app, ok_calls0. simpl. by rewrite app_nil_r.
  - destruct Hp as [x Hx]. split; try done.
    + intros i y Hy. destruct (ok_pending0 i y Hy). auto.
    + intros i y [?|(-> & _ & Hn)]%Hinv; [by apply ok_seen0|]. destruct (ok_pending0 _ _ Hx). congruence.
  - assert (bd_pending b !! id = None) as Hnp by by apply eq_None_not_Some.
    assert (id ∉ C.*1.*1) as Hc by (intros Hc; destruct (ok_called0 id Hc); done).
    assert (first_result R id = None) as Hnone.
    { destruct (first_result R id) as [x|] eqn:Hr; [|done]. destruct (ok_seen0 id x Hr); congruence. }
    split; simpl; try done.
    + intros i x [[-> ->]|[Hne Hx]]%lookup_insert_Some.
      * split; [|done]. by rewrite first_result_app, Hnone, first_result_cons, decide_True.
      * destruct (ok_pending0 i x Hx). auto.
    + intros i x [Hr|(-> & -> & _)]%Hinv; [|right; by rewrite lookup_insert_eq].
      destruct (ok_seen0 i x Hr) as [?|Hx]; [by left|]. right. rewrite lookup_insert_ne; [done|]. congruence.
Qed.

(** The results in a list of blocks of a user message. *)
Definition block_results (blocks : list ContentBlock) : list (string * string) :=
  omap (λ b, match b with ToolResult id c e => Some (id, result_output c e) | _ => None end) blocks.

Lemma user_blocks_ok All C blocks : ∀ R S parts b,
  All = R ++ block_results blocks ++ S → pass_ok All R C b →
  pass_ok All (R ++ block_results blocks) C (fold_left user_block blocks (parts, b)).2.
Proof.
  induction blocks as [|blk blocks IH]; intros R S parts b HAll Hok; [by rewrite app_nil_r|].
  cbn [fold_left]. destruct blk; try (apply (IH R S); assumption).
  - cbn [block_results omap list_omap] in *.
    change (omap _ blocks) with (block_results blocks) in *.
    rewrite (cons_middle _ R), app_assoc. simpl user_block.
    apply (IH _ S); [by rewrite HAll, <- !app_assoc|].
    apply (take_result_ok All R C _ (block_results blocks ++ S)); [by rewrite HAll|]. by apply flush_ok.
  - cbn [user_block]. case_match; apply (IH R S); try assumption; apply push_plain; try done; by apply flush_ok.
Qed.

Lemma user_message_ok All R S C b msg :
  role msg = User → All = R ++ answered msg ++ S → pass_ok All R C b →
  pass_ok All (R ++ answered msg) C (user_message_items msg b).
Proof.
  intros Hr. unfold answered. rewrite Hr. intros HAll Hok.
  pose proof (user_blocks_ok All C (content msg) R S [] b HAll Hok) as H.
  unfold user_message_items. destruct (fold_left user_block (content msg) ([], b)) as [parts b'].
  by apply flush_ok.
Qed.

Lemma push_call_ok All R C b last_pos idx id name args :
  (∀ pos, last_pos !! id = Some pos → pos ≤ idx → first_result All id = first_result R id) →
  (last_pos !! id = None → first_result All id = first_result R id) →
  (∀ i, first_result R i = None ∨ first_result R i = first_result All i) →
  pass_ok All R C b →
  pass_ok All R (C ++ [(id, name, args)])
    (answer_call last_pos idx id (push_item (FunctionCall name args (sanitize_tool_id id)) b)).
Proof.
  intros Hle Hno Hpre Hok. destruct Hok.
  assert ((C ++ [(id, name, args)]).*1.*1 = C.*1.*1 ++ [id]) as HC by (by rewrite !fmap_app).
  assert (∀ i, i ∈ C.*1.*1 ++ [id] ↔ i ∈ C.*1.*1 ∨ i = id) as Hin
    by (intros i; rewrite elem_of_app, list_elem_of_singleton; done).
  set (b0 := push_item _ b).
  assert (∀ i, i ∈ bd_used b → FunctionCallOutput (sanitize_tool_id i)
            (default missing_output (first_result All i)) ∈ bd_items b0) as Hans
    by (intros i Hi; apply elem_of_app; left; by apply ok_answer0).
  assert (∀ cid o, FunctionCallOutput cid o ∈ bd_items b0 →
            ∃ i, i ∈ C.*1.*1 ++ [id] ∧ cid = sanitize_tool_id i ∧ (o = missing_output ∨ first_result All i = Some o))
    as Hout.
  { intros cid o [Hx|Hx%list_elem_of_singleton]%elem_of_app; [|done].
    destruct (ok_output0 cid o Hx) as (i & Hi & ?). exists i. rewrite Hin. auto. }
  assert (calls_of (bd_items b0) = sent_call <$> (C ++ [(id, name, args)])) as Hcalls
    by (unfold b0; simpl; by rewrite calls_of_app, ok_calls0, fmap_app).
  assert (bd_pending b0 = bd_pending b ∧ bd_open b0 = bd_open b ∧ bd_used b0 = bd_used b) as (Ep & Eo & Eu) by done.
  clearbody b0. unfold answer_call. rewrite Ep, Eo, Eu.
  destruct (bd_pending b !! id) as [o|] eqn:Hp; [|case_match eqn:Hf].
  - destruct (ok_pending0 id o Hp) as [Hr Hc].
    assert (first_result All id = Some o) as HA by (destruct (Hpre id); congruence).
    split; rewrite ?HC; simpl; try setoid_rewrite Hin.
    + intros i x [Hne Hx]%lookup_delete_Some. destruct (ok_pending0 i x Hx). naive_solver.
    + intros i [->%elem_of_singleton|?]%elem_of_union; auto.
    + auto.
    + intros i [Hi| ->]; [|set_solver]. destruct (ok_called0 i Hi); set_solver.
    + intros i x Hx. destruct (decide (i = id)) as [->|Hne]; [set_solver|].
      destruct (ok_seen0 i x Hx); [set_solver|right]. by rewrite lookup_delete_ne.
    + intros i [->%elem_of_singleton|Hi]%elem_of_union; apply elem_of_app; [right|left; by apply Hans].
      rewrite HA. by apply list_elem_of_singleton.
    + intros cid x [Hx|Hx%list_elem_of_singleton]%elem_of_app.
      * destruct (Hout cid x Hx) as (i & Hi & ?). exists i. by rewrite <- Hin.
      * simplify_eq. exists id. auto.
    + rewrite calls_of_app, Hcalls. simpl. by rewrite app_nil_r.
  - split; rewrite ?HC; simpl; try setoid_rewrite Hin; auto.
    + intros i x Hx. destruct (ok_pending0 i x Hx). split; [done|]. intros [?| ->]; [done|]. congruence.
    + set_solver.
    + intros i [Hi| ->]; [destruct (ok_called0 i Hi)|]; set_solver.
    + intros cid x Hx. destruct (Hout cid x Hx) as (i & Hi & ?). exists i. by rewrite <- Hin.
  - assert (first_result All id = first_result R id) as HA.
    { destruct (last_pos !! id) as [pos|] eqn:Hl; [|by apply Hno]. apply Nat.ltb_ge in Hf. by apply (Hle pos). }
    split; rewrite ?HC; simpl; try setoid_rewrite Hin; auto.
    + intros i x Hx. destruct (ok_pending0 i x Hx). split; [done|]. intros [?| ->]; [done|]. congruence.
    + intros i [->%elem_of_singleton|?]%elem_of_union; auto.
    + intros i [Hi| ->]; [destruct (ok_called0 i Hi)|]; set_solver.
    + intros i x Hx. destruct (ok_seen0 i x Hx); set_solver.
    + intros i [->%elem_of_singleton|Hi]%elem_of_union; apply elem_of_app; [|left; by apply Hans].
      destruct (first_result All id) as [o|] eqn:Ho; [left|right; by apply list_elem_of_singleton].
      rewrite <- Ho. apply Hans. symmetry in HA. destruct (ok_seen0 id o HA); [done|congruence].
    + intros cid x [Hx|Hx%list_elem_of_singleton]%elem_of_app.
      * destruct (Hout cid x Hx) as (i & Hi & ?). exists i. by rewrite <- Hin.
      * simplify_eq. exists id. auto.
    + rewrite calls_of_app, Hcalls. simpl. by rewrite app_nil_r.
Qed.
(** ** Positions of results *)

Lemma fold_insert_lookup ids (idx : nat) (m : gmap string nat) id :
  fold_left (λ m id, <[id := idx]> m) ids m !! id = if decide (id ∈ ids) then Some idx else m !! id.
Proof.
  revert m. induction ids as [|x ids IH]; intros m; simpl; [done|]. rewrite IH.
  destruct (decide (id = x)) as [->|Hne].
  - rewrite (decide_True (P := x ∈ x :: ids)) by set_solver. rewrite lookup_insert_eq. by case_decide.
  - rewrite lookup_insert_ne by done. do 2 case_decide; set_solver.
Qed.

Lemma result_positions_mono messages idx m id p :
  m !! id = Some p → p ≤ idx → ∃ p', result_positions idx messages m !! id = Some p' ∧ p ≤ p'.
Proof.
  revert idx m p. induction messages as [|msg messages IH]; intros idx m p Hp Hle; simpl; [by exists p|].
  destruct (decide (id ∈ tool_result_ids msg)) as [Hd|Hd].
  - destruct (IH (S idx) (fold_left (λ m id, <[id := idx]> m) (tool_result_ids msg) m) idx) as (p' & ? & ?);
      [by rewrite fold_insert_lookup, decide_True|lia|]. exists p'. split; [done|lia].
  - apply IH; [by rewrite fold_insert_lookup, decide_False|lia].
Qed.

Lemma result_positions_spec messages idx m id j msg :
  messages !! j = Some msg → id ∈ tool_result_ids msg →
  ∃ p, result_positions idx messages m !! id = Some p ∧ idx + j ≤ p.
Proof.
  revert idx m j. induction messages as [|x messages IH]; intros idx m [|j] Hj Hid; simplify_eq/=.
  - destruct (result_positions_mono messages (S idx) (fold_left (λ m id, <[id := idx]> m) (tool_result_ids msg) m)
      id idx) as (p & ? & ?); [by rewrite fold_insert_lookup, decide_True|lia|]. exists p. split; [done|lia].
  - destruct (IH (S idx) (fold_left (λ m id, <[id := idx]> m) (tool_result_ids x) m) j Hj Hid) as (p & ? & ?).
    exists p. split; [done|lia].
Qed.

Lemma answered_ids msg : (answered msg).*1 = tool_result_ids msg.
Proof.
  unfold answered, tool_result_ids. destruct (role msg); [|done]. induction (content msg) as [|b l IH]; [done|].
  destruct b; first [exact IH|cbn; f_equal; exact IH].
Qed.

(** A result after position [idx] is announced by the table of positions. *)
Lemma no_later_result messages pre post id :
  messages = pre ++ post →
  (∀ pos, tool_result_last_pos messages !! id = Some pos → pos < length pre) →
  first_result (conversation_results post) id = None.
Proof.
  intros -> Hpos. apply first_result_None. intros Hin.
  unfold conversation_results in Hin. apply list_elem_of_fmap in Hin as ([i o] & -> & Hin).
  apply list_elem_of_bind in Hin as (msg & Hin & Hmsg). apply list_elem_of_lookup in Hmsg as [j Hj].
  destruct (result_positions_spec (pre ++ post) 0 ∅ i (length pre + j) msg) as (p & Hp & Hle).
  - by rewrite lookup_app_r, Nat.add_comm, Nat.add_sub by lia.
  - rewrite <- answered_ids. apply list_elem_of_fmap. by exists (i, o).
  - specialize (Hpos p Hp). simpl in *. lia.
Qed.

(** ** The whole first pass *)

Definition block_calls (blocks : list ContentBlock) : list (string * string * string) :=
  omap (λ b, match b with ToolUse id name input _ => Some (id, name, call_arguments input) | _ => None end) blocks.

Lemma assistant_blocks_ok All R last_pos idx blocks : ∀ C b,
  (∀ id, match last_pos !! id with Some pos => pos ≤ idx | None => True end →
         first_result All id = first_result R id) →
  (∀ i, first_result R i = None ∨ first_result R i = first_result All i) →
  pass_ok All R C b →
  pass_ok All R (C ++ block_calls blocks) (fold_left (assistant_block last_pos idx) blocks b).
Proof.
  induction blocks as [|blk blocks IH]; intros C b Hlast Hpre Hok; [by rewrite app_nil_r|].
  cbn [fold_left]. destruct blk; try (apply IH; [done..|]; cbn [assistant_block]; by try apply push_plain).
  cbn [block_calls omap list_omap assistant_block]. change (omap _ blocks) with (block_calls blocks).
  rewrite (cons_middle _ C), app_assoc. apply IH; [done..|].
  apply push_call_ok; [| |done|done].
  - intros pos Hp Hle. apply Hlast. by rewrite Hp.
  - intros Hn. apply Hlast. by rewrite Hn.
Qed.

Lemma conversation_results_app l1 l2 :
  conversation_results (l1 ++ l2) = conversation_results l1 ++ conversation_results l2.
Proof. apply bind_app. Qed.

Lemma build_messages_ok messages : ∀ pre post b,
  messages = pre ++ post →
  pass_ok (conversation_results messages) (conversation_results pre) (conversation_calls pre) b →
  pass_ok (conversation_results messages) (conversation_results messages) (conversation_calls messages)
    (build_messages (tool_result_last_pos messages) (length pre) post b).
Proof.
  intros pre post. revert pre. induction post as [|msg post IH]; intros pre b Hm Hok; simpl.
  { rewrite app_nil_r in Hm. by subst. }
  assert (messages = (pre ++ [msg]) ++ post) as Hm' by (by rewrite <- app_assoc).
  assert (conversation_results (pre ++ [msg]) = conversation_results pre ++ answered msg) as Hr.
  { rewrite conversation_results_app. f_equal. unfold conversation_results. simpl. by rewrite app_nil_r. }
  assert (conversation_calls (pre ++ [msg]) = conversation_calls pre ++ called msg) as Hc.
  { unfold conversation_calls. rewrite bind_app. f_equal. simpl. by rewrite app_nil_r. }
  assert (S (length pre) = length (pre ++ [msg])) as Hl by (rewrite length_app; simpl; lia).
  rewrite Hl. apply IH; [done|]. rewrite Hr, Hc.
  assert (conversation_results messages = conversation_results pre ++ answered msg ++ conversation_results post) as HAll
    by (by rewrite Hm', conversation_results_app, Hr, <- app_assoc).
  destruct (role msg) eqn:Hrole.
  - assert (called msg = []) as -> by (unfold called; by rewrite Hrole). rewrite app_nil_r.
    by apply (user_message_ok _ _ (conversation_results post)).
  - assert (answered msg = []) as Ha by (unfold answered; by rewrite Hrole). rewrite Ha, app_nil_r in *.
    assert (called msg = block_calls (content msg)) as -> by (unfold called; by rewrite Hrole).
    apply assistant_blocks_ok; [| |done].
    + intros id Hpos. rewrite HAll, first_result_app.
      assert (first_result (conversation_results post) id = None) as Hn.
      { apply (no_later_result messages (pre ++ [msg])); [done|]. intros pos Hp. rewrite Hp in Hpos.
        rewrite length_app. simpl. lia. }
      rewrite first_result_app, Hn. by destruct (first_result (conversation_results pre) id).
    + intros i. rewrite HAll, first_result_app. destruct (first_result (conversation_results pre) i); auto.
Qed.
(** ** Closing the open calls *)

Lemma close_calls l : ∀ b,
  (∀ id, id ∈ l → id ∈ bd_used b ∨ bd_pending b !! id = None) →
  let b' := fold_left close_call l b in
  bd_pending b' = bd_pending b ∧ bd_used b' = bd_used b
  ∧ ∃ extra, bd_items b' = bd_items b ++ extra
      ∧ (∀ i, i ∈ extra → ∃ id, id ∈ l ∧ i = FunctionCallOutput (sanitize_tool_id id) missing_output)
      ∧ (∀ id, id ∈ l → id ∉ bd_used b → FunctionCallOutput (sanitize_tool_id id) missing_output ∈ extra).
Proof.
  induction l as [|id l IH]; intros b Hl; simpl.
  { split_and!; [done..|]. exists []. rewrite app_nil_r. set_solver. }
  unfold close_call at 2 4 6. case_bool_decide as Hu.
  - destruct (IH b) as (-> & -> & extra & -> & H1 & H2); [intros; apply Hl; by right|]. split_and!; [done..|].
    exists extra. set_solver.
  - assert (bd_pending b !! id = None) as Hp by (destruct (Hl id); [by left|done..]). rewrite Hp.
    destruct (IH (push_item (FunctionCallOutput (sanitize_tool_id id) missing_output) b))
      as (-> & -> & extra & -> & H1 & H2); [intros i Hi; apply Hl; by right|]. split_and!; [done..|].
    exists (FunctionCallOutput (sanitize_tool_id id) missing_output :: extra). simpl. rewrite <- app_assoc.
    split_and!; [done| |].
    + intros i [->|Hi]%elem_of_cons; [exists id; set_solver|]. destruct (H1 i Hi) as (k & ? & ?). exists k. set_solver.
    + intros k [->|Hk]%elem_of_cons Hn; [by left|]. right. by apply H2.
Qed.

(** Every call has its answer, and every output answers a call. *)
Record items_ok (All : list (string * string)) (C : list (string * string * string)) (items : list Item) : Prop := {
  it_answer : ∀ id, id ∈ C.*1.*1 →
    FunctionCallOutput (sanitize_tool_id id) (default missing_output (first_result All id)) ∈ items;
  it_output : ∀ cid o, FunctionCallOutput cid o ∈ items →
    ∃ id, id ∈ C.*1.*1 ∧ cid = sanitize_tool_id id ∧ (o = missing_output ∨ first_result All id = Some o);
  it_calls : calls_of items = sent_call <$> C;
}.

Lemma close_ok (iter : gset string → list string) All C b :
  (∀ s x, x ∈ iter s ↔ x ∈ s) → pass_ok All All C b →
  let b' := fold_left close_call (iter (bd_open b)) b in
  items_ok All C (bd_items b') ∧ bd_pending b' = bd_pending b.
Proof.
  intros Hiter []. destruct (close_calls (iter (bd_open b)) b) as (Hp & _ & extra & Hi & H1 & H2).
  { intros id Hid%Hiter. right. apply eq_None_not_Some. intros [o Ho]. destruct (ok_pending0 id o Ho) as [_ Hc].
    by apply Hc, ok_open0. }
  simpl. split; [|done]. rewrite Hi. split.
  - intros id Hid. apply elem_of_app. destruct (decide (id ∈ bd_used b)) as [Hu|Hu]; [left; by apply ok_answer0|].
    destruct (ok_called0 id Hid) as [Ho|]; [|done]. right.
    assert (first_result All id = None) as ->; [|by apply H2; [apply Hiter|]].
    destruct (first_result All id) as [o|] eqn:Hr; [|done]. destruct (ok_seen0 id o Hr) as [|Hx]; [done|].
    destruct (ok_pending0 id o Hx). done.
  - intros cid o [Hx|Hx]%elem_of_app; [by apply ok_output0|]. destruct (H1 _ Hx) as (id & Hid & [= -> ->]).
    exists id. split; [apply ok_open0; by apply Hiter|]. auto.
  - rewrite calls_of_app, ok_calls0. assert (calls_of extra = []) as ->; [|by rewrite app_nil_r].
    apply List_filter_none. intros i Hx. by destruct (H1 i Hx) as (id & _ & ->).
Qed.

(** Messages after the items change nothing about calls and outputs. *)
Lemma items_ok_messages All C items orphans :
  (∀ i, i ∈ orphans → ∃ parts, i = UserItem parts) → items_ok All C items → items_ok All C (items ++ orphans).
Proof.
  intros Hu []. split.
  - intros id Hid. apply elem_of_app. left. by apply it_answer0.
  - intros cid o [?|Hx]%elem_of_app; [by apply it_output0|]. by destruct (Hu _ Hx).
  - rewrite calls_of_app, it_calls0. assert (calls_of orphans = []) as ->; [|by rewrite app_nil_r].
    apply List_filter_none. intros i Hx. by destruct (Hu i Hx) as [? ->].
Qed.

(** ** The later passes *)

Lemma inject_missing_id ids items :
  (∀ n a cid, FunctionCall n a cid ∈ items → cid ∈ ids) → inject_missing ids items = items.
Proof.
  intros H. induction items as [|i items IH]; [done|].
  assert (inject_missing ids items = items) as IH' by (apply IH; intros n a cid Hi; apply (H n a cid); by right).
  destruct i; cbn [inject_missing]; rewrite ?IH'; try done.
  rewrite bool_decide_true; [done|]. apply (H name arguments). by left.
Qed.

Lemma output_map_from items : ∀ m cid,
  let r := fold_left note_output items m in
  (∀ o, r !! cid = Some o → m !! cid = Some o ∨ FunctionCallOutput cid o ∈ items)
  ∧ (∀ o, m !! cid = Some o ∨ FunctionCallOutput cid o ∈ items →
       ∃ o', r !! cid = Some o' ∧ (o ≠ missing_output → o' ≠ missing_output)).
Proof.
  induction items as [|i items IH]; intros m cid; simpl.
  { split; [by left|]. intros o [Ho|?%elem_of_nil]; [by exists o|done]. }
  destruct (IH (note_output m i) cid) as [H1 H2].
  assert ((∀ o, note_output m i !! cid = Some o → m !! cid = Some o ∨ FunctionCallOutput cid o = i)
    ∧ (∀ o, m !! cid = Some o ∨ FunctionCallOutput cid o = i →
         ∃ o', note_output m i !! cid = Some o' ∧ (o ≠ missing_output → o' ≠ missing_output))) as [Hn1 Hn2].
  { destruct i; cbn [note_output]; try (split; [by left|intros o [?|?]; [by exists o|done]]).
    destruct (decide (call_id = cid)) as [->|Hne].
    - destruct (m !! cid) as [e|] eqn:He; [destruct (String.eqb e missing_output && _) eqn:Hb|].
      + apply andb_true_iff in Hb as [->%String.eqb_eq Hb]. rewrite lookup_insert_eq.
        apply negb_true_iff, String.eqb_neq in Hb. split; [intros o [= <-]; by right|].
        intros o _. by exists output.
      + rewrite He. split; [by left|]. intros o [[= <-]|[= <-]]; [by exists e|]. exists e. split; [done|].
        intros Ho ->. rewrite String.eqb_refl in Hb. simpl in Hb. apply negb_false_iff, String.eqb_eq in Hb. done.
      + rewrite lookup_insert_eq. split; [intros o [= <-]; by right|]. intros o [?|[= ->]]; [done|by exists output].
    - assert (∀ x, <[call_id := x]> m !! cid = m !! cid) as Hs by (intros; by rewrite lookup_insert_ne).
      destruct (m !! call_id) as [e|]; [destruct (_ && _)|]; rewrite ?Hs;
        (split; [by left|intros o [?|[= ? _]]; [by exists o|done]]). }
  split.
  - intros o [Ho|Ho]%H1; [|right; by right]. apply Hn1 in Ho as [?|<-]; [by left|right; by left].
  - intros o Ho. rewrite elem_of_cons in Ho. destruct Ho as [Ho|[Ho|Ho]].
    + destruct (Hn2 o) as (o1 & Ho1 & ?); [by left|]. destruct (H2 o1) as (o2 & ? & ?); [by left|]. exists o2. auto.
    + destruct (Hn2 o) as (o1 & Ho1 & ?); [by right|]. destruct (H2 o1) as (o2 & ? & ?); [by left|]. exists o2. auto.
    + apply H2. by right.
Qed.

Lemma order_items_user outputs used items parts :
  UserItem parts ∈ items → UserItem parts ∈ order_items outputs used items.
Proof.
  revert used. induction items as [|i items IH]; intros used; [by intros ?%elem_of_nil|].
  intros [<-|Hi]%elem_of_cons; [cbn; by left|].
  destruct i; cbn [order_items]; try (right; by apply IH); [do 2 right; by apply IH|].
  case_bool_decide; [by apply IH|]. destruct orphan_tool_output_to_user_message; [right|]; by apply IH.
Qed.
(** The tool items of a request, and what the conversation makes of them. *)
Definition tool_items (items : list Item) : list Item :=
  List.filter (λ i, match i with FunctionCall _ _ _ | FunctionCallOutput _ _ => true | _ => false end) items.
Definition answered_call (results : list (string * string)) (c : string * string * string) : list Item :=
  [sent_call c; FunctionCallOutput (sanitize_tool_id c.1.1) (default missing_output (first_result results c.1.1))].

Lemma order_items_tools outputs used items :
  tool_items (order_items outputs used items)
  = calls_of items ≫= λ i, match i with
                           | FunctionCall _ _ call_id => [i; FunctionCallOutput call_id (default missing_output (outputs !! call_id))]
                           | _ => []
                           end.
Proof.
  unfold calls_of, tool_items. revert used. induction items as [|i items IH]; intros used; [done|].
  destruct i; cbn [order_items List.filter]; rewrite ?IH; try done.
  case_bool_decide; [apply IH|]. destruct orphan_tool_output_to_user_message eqn:Ho; [|apply IH].
  apply orphan_is_user_item in Ho as [parts ->]. cbn [List.filter]. apply IH.
Qed.

Lemma orphan_kept cid o :
  trim o ≠ "" → trim o ≠ missing_output →
  orphan_tool_output_to_user_message cid o
  = Some (UserItem [InputText ("[Recovered orphaned tool output: " +:+ cid +:+ "]" +:+ newline +:+ trim o)]).
Proof.
  intros H1 H2. unfold orphan_tool_output_to_user_message.
  assert (str_is_empty (trim o) = false) as -> by (by destruct (trim o)). cbn [orb].
  by destruct (String.eqb_spec (trim o) missing_output).
Qed.

(** C34: Answers.  Let the set of open calls be iterated in any order, and let
    distinct identifiers of called tools stay distinct when sanitised.  Then the
    tool items of the request are, in the order of the conversation, each of its
    calls with one output, directly behind it: the first result the conversation
    records for the call, before or after it, or the text that says that the
    output is missing when there is none.  The first result of a tool that was
    never called is kept as a message, unless it is blank or is just the text that
    says that the output is missing. *)
Theorem calls_get_their_first_result (iter : gset string → list string) (messages : list Message) :
  (∀ s x, x ∈ iter s ↔ x ∈ s) →
  (∀ id id', id ∈ (conversation_calls messages).*1.*1 → id' ∈ (conversation_calls messages).*1.*1 →
     sanitize_tool_id id = sanitize_tool_id id' → id = id') →
  let out := build_responses_input iter messages in
  paired out
  ∧ tool_items out = conversation_calls messages ≫= answered_call (conversation_results messages)
  ∧ (∀ id o, id ∉ (conversation_calls messages).*1.*1 → first_result (conversation_results messages) id = Some o →
       trim o ≠ "" → trim o ≠ missing_output →
       UserItem [InputText ("[Recovered orphaned tool output: " +:+ sanitize_tool_id id +:+ "]" +:+ newline +:+ trim o)] ∈ out).
Proof.
  intros Hiter Hinj out.
  set (All := conversation_results messages) in *. set (C := conversation_calls messages) in *.
  set (b := build_messages (tool_result_last_pos messages) 0 messages (mkBuild [] ∅ ∅ ∅)).
  assert (pass_ok All All C b) as Hb.
  { apply (build_messages_ok messages [] messages); [done|]. split; simpl; set_solver. }
  destruct (close_ok iter All C b Hiter Hb) as [Hitems Hpend].
  set (b' := fold_left close_call (iter (bd_open b)) b) in *.
  set (items := bd_items b' ++ pending_orphans (bd_pending b')).
  assert (items_ok All C items) as [Hans Hout Hcalls].
  { apply items_ok_messages; [|done]. intros i Hi. unfold pending_orphans in Hi.
    apply list_elem_of_omap in Hi as (e & _ & He). by apply orphan_is_user_item in He. }
  assert (inject_missing (list_to_set (omap output_id items)) items = items) as Hnorm.
  { apply inject_missing_id. intros n a cid Hi. apply elem_of_list_to_set, list_elem_of_omap.
    assert (FunctionCall n a cid ∈ calls_of items) as Hc by (by apply elem_of_List_filter).
    rewrite Hcalls in Hc. apply list_elem_of_fmap in Hc as (c & [= -> -> ->] & Hc).
    eexists. split; [apply (Hans c.1.1)|done]. rewrite <- list_fmap_compose. apply list_elem_of_fmap. by exists c. }
  assert (out = order_items (output_map items) ∅ items) as ->
    by (unfold out, build_responses_input; fold b; fold b'; fold items; by rewrite Hnorm).
  assert (∀ id, id ∈ C.*1.*1 →
    default missing_output (output_map items !! sanitize_tool_id id) = default missing_output (first_result All id)) as Hfirst.
  { intros id Hid. destruct (output_map_from items ∅ (sanitize_tool_id id)) as [H1 H2].
    destruct (H2 (default missing_output (first_result All id))) as (o & Ho & Hne); [right; by apply Hans|].
    unfold output_map. rewrite Ho. simpl. destruct (H1 o Ho) as [Hx|Hx]; [by rewrite lookup_empty in Hx|].
    destruct (Hout _ _ Hx) as (id' & Hid' & Hs & Hval). apply Hinj in Hs; [subst id'|done..].
    destruct (first_result All id) as [x|]; simpl in *; [|by destruct Hval as [->|]].
    destruct Hval as [->|[= ->]]; [|done]. destruct (decide (x = missing_output)); [done|]. by destruct Hne. }
  split_and!; [apply order_items_paired|..].
  - rewrite order_items_tools, Hcalls. clear -Hfirst. revert Hfirst. generalize C as l. induction l as [|c l IH]; intros Hfirst; [done|].
    cbn. unfold answered_call at 1. cbn. rewrite Hfirst by (cbn; left). do 2 f_equal. apply IH.
    intros id Hid. apply Hfirst. cbn. by right.
  - intros id o Hid Ho Hblank Hm. pose proof (orphan_kept (sanitize_tool_id id) o Hblank Hm) as Hi. apply order_items_user.
    apply elem_of_app. right. apply list_elem_of_omap. exists (id, o). split; [|done].
    apply elem_of_sort_by, elem_of_map_to_list. rewrite Hpend. destruct Hb.
    destruct (ok_seen0 id o Ho) as [Hu|]; [|done]. by apply ok_used0 in Hu.
Qed.
End Facts.

Definition demo_tool (id : string) : @Message text_json tick_chrono :=
  mkMessage Assistant [@ToolUse text_json id "bash" "{}" None] None None.
Definition demo_answer (id text : string) : @Message text_json tick_chrono :=
  mkMessage User [ToolResult id text None] None None.

(** A call answered late, one never answered, and a result nobody asked for. *)
Definition demo_conversation : list (@Message text_json tick_chrono) :=
  [demo_tool "a"; demo_tool "b"; demo_answer "a" "done"; demo_answer "zz" "lost"].

Lemma calls_get_their_first_result_witness :
  tool_items (build_responses_input elements demo_conversation)
  = [FunctionCall "bash" "{}" "a"; FunctionCallOutput "a" "done"; FunctionCall "bash" "{}" "b"; FunctionCallOutput "b" missing_output].
Proof.
  destruct (calls_get_their_first_result elements demo_conversation) as (_ & H & _); [..|rewrite H; vm_compute; reflexivity].
  - intros s x. apply elem_of_elements.
  - intros id id' H1 H2. vm_compute in H1, H2.
    repeat (apply elem_of_cons in H1 as [->|H1]; [|]); try (by apply elem_of_nil in H1);
    repeat (apply elem_of_cons in H2 as [->|H2]; [|]); try (by apply elem_of_nil in H2); done.
Defined.

(** An identifier that is used twice: both calls are sent with the result of
    the first, and the second result is dropped. *)
Lemma repeated_tool_id_repeats_the_first_output :
  build_responses_input elements [demo_tool "a"; demo_answer "a" "x"; demo_tool "a"; demo_answer "a" "y"]
  = [FunctionCall "bash" "{}" "a"; FunctionCallOutput "a" "x"; FunctionCall "bash" "{}" "a"; FunctionCallOutput "a" "x"].
Proof. vm_compute. reflexivity. Qed.
