(* ===== verification/Schema.v ===== *)
(** * Tool schemas for the OpenAI API

    crates/jcode-provider-core/src/openai_schema.rs and [build_tools] of
    crates/jcode-provider-openai/src/request.rs: the rewriting of a JSON schema
    into one the API accepts and, where possible, into its strict form.
    [serde_json::Map] is a [BTreeMap] here (the [preserve_order] feature is
    off): a list of members in key order. *)

From stdpp Require Import base list strings.
From S2P Require Import Prelude RustString ModelId.

Open Scope string_scope.
Open Scope nat_scope.
Open Scope list_scope.

(** ** JSON values *)

Inductive json :=
| VNull
| VBool (b : bool)
| VNumber (digits : string)
| VString (s : string)
| VArray (items : list json)
| VObject (members : list (string * json)).

Notation members := (list (string * json)).

Fixpoint json_eqb (a b : json) {struct a} : bool :=
  match a, b with
  | VNull, VNull => true
  | VBool x, VBool y => Bool.eqb x y
  | VNumber x, VNumber y => String.eqb x y
  | VString x, VString y => String.eqb x y
  | VArray l, VArray l' =>
      (fix go (l l' : list json) : bool :=
         match l, l' with
         | [], [] => true
         | x :: l, y :: l' => json_eqb x y && go l l'
         | _, _ => false
         end) l l'
  | VObject m, VObject m' =>
      (fix go (m m' : members) : bool :=
         match m, m' with
         | [], [] => true
         | (k, x) :: m, (k', y) :: m' => String.eqb k k' && json_eqb x y && go m m'
         | _, _ => false
         end) m m'
  | _, _ => false
  end.

(** [BTreeMap]: lookup, insertion that replaces, removal. *)
Definition obj_get (k : string) (m : members) : option json :=
  snd <$> find_first (λ e, String.eqb e.1 k) m.
Fixpoint obj_insert (k : string) (v : json) (m : members) : members :=
  match m with
  | [] => [(k, v)]
  | (k', v') :: m' =>
      if String.eqb k k' then (k, v) :: m'
      else if String.leb k k' then (k, v) :: m
      else (k', v') :: obj_insert k v m'
  end.
Definition obj_remove (k : string) (m : members) : members := List.filter (λ e, negb (String.eqb e.1 k)) m.
Definition obj_keys (m : members) : list string := m.*1.

Definition as_str (v : json) : option string := match v with VString s => Some s | _ => None end.
Definition is_str (s : string) (v : json) : bool := match v with VString s' => String.eqb s' s | _ => false end.
Definition is_false (v : json) : bool := match v with VBool false => true | _ => false end.

(** ** Flattening *)

Definition collect_strings (value : json) : option (list string) :=
  match value with
  | VString s => Some [s]
  | VArray items => mapM as_str items
  | _ => None
  end.

Definition merge_string_sets (existing incoming : json) : option json :=
  match collect_strings existing, collect_strings incoming with
  | Some combined, Some more =>
      match push_missing combined more with
      | [single] => Some (VString single)
      | l => Some (VArray (VString <$> l))
      end
  | _, _ => None
  end.

Definition schema_map_keys : list string := ["properties"; "$defs"; "definitions"; "patternProperties"].

(** One member of the incoming object.  [merge_values] and [merge_object] stand
    for the recursive calls on the parts of [v]. *)
Definition merge_member (merge_values merge_object : json → json → json) (target : members) (key : string) (v : json) :
    members :=
  if one_of schema_map_keys key then
    match v with
    | VObject incoming_children =>
        match obj_get key target with
        | Some (VObject existing_children) =>
            obj_insert key
              (VObject (fold_left (λ ec '(child_key, child_value),
                          match obj_get child_key ec with
                          | Some existing_child => obj_insert child_key (merge_values existing_child child_value) ec
                          | None => obj_insert child_key child_value ec
                          end) incoming_children existing_children)) target
        | _ => obj_insert key v target
        end
    | _ => obj_insert key v target
    end
  else if one_of ["required"; "enum"; "type"] key then
    match obj_get key target with
    | Some existing => match merge_string_sets existing v with
                       | Some merged => obj_insert key merged target
                       | None => target
                       end
    | None => obj_insert key v target
    end
  else if one_of ["description"; "title"] key then
    match obj_get key target with Some _ => target | None => obj_insert key v target end
  else if one_of ["additionalProperties"] key then
    match obj_get key target with
    | Some (VObject existing_obj) =>
        match v with
        | VObject _ => obj_insert key (merge_object (VObject existing_obj) v) target
        | _ => if is_false v then obj_insert key (VBool false) target else target
        end
    | Some _ => if is_false v then obj_insert key (VBool false) target else target
    | None => obj_insert key v target
    end
  else
    match obj_get key target with
    | Some existing => obj_insert key (merge_values existing v) target
    | None => obj_insert key v target
    end.

(** [merge true] is [merge_schema_values]; on two objects [merge false], which
    does not first test for equality, is [merge_schema_objects]. *)
Fixpoint merge (check_equal : bool) (existing incoming : json) {struct incoming} : json :=
  if check_equal && json_eqb existing incoming then existing
  else
    match incoming with
    | VObject incoming_map =>
        match existing with
        | VObject existing_map =>
            VObject (fold_left (λ target '(key, v),
                       merge_member (λ e v, merge true e v) (λ e v, merge false e v) target key v)
                       incoming_map existing_map)
        | _ => incoming
        end
    | VArray incoming_items =>
        match existing with
        | VArray existing_items =>
            VArray (fold_left (λ acc item, if existsb (json_eqb item) acc then acc else acc ++ [item])
                      incoming_items existing_items)
        | _ => incoming
        end
    | _ => incoming
    end.

Definition merge_schema_values (existing incoming : json) : json := merge true existing incoming.
Definition merge_schema_objects (target incoming : members) : members :=
  match merge false (VObject target) (VObject incoming) with VObject m => m | _ => target end.

(** A branch of [allOf]: objects are merged in, anything else is kept aside. *)
Definition all_of_step (acc : members * list json) (item : json) : members * list json :=
  match item with
  | VObject item_map => (merge_schema_objects acc.1 item_map, acc.2)
  | other => (acc.1, acc.2 ++ [other])
  end.

Definition flatten_all_of_schema (map : members) : json :=
  let rest := obj_remove "allOf" map in
  match obj_get "allOf" map with
  | Some (VArray all_of_items) =>
      let '(merged, fallback_any_of) := fold_left all_of_step all_of_items (rest, []) in
      match fallback_any_of with
      | [] => VObject merged
      | _ =>
          match obj_get "anyOf" merged with
          | Some (VArray existing) => VObject (obj_insert "anyOf" (VArray (existing ++ fallback_any_of)) merged)
          | _ => VObject (obj_insert "anyOf" (VArray fallback_any_of) merged)
          end
      end
  | _ => VObject rest
  end.

Definition compatible_key (key : string) : string := if String.eqb key "oneOf" then "anyOf" else key.

Fixpoint openai_compatible_schema (schema : json) : json :=
  match schema with
  | VObject map =>
      flatten_all_of_schema
        (fold_left (λ out '(key, value), obj_insert (compatible_key key) (openai_compatible_schema value) out) map [])
  | VArray items => VArray (List.map openai_compatible_schema items)
  | _ => schema
  end.

(** ** The strict form *)

Definition schema_is_object_typed (map : members) : bool :=
  match obj_get "type" map with
  | Some (VString t) => String.eqb t "object"
  | Some (VArray types) => existsb (is_str "object") types
  | _ => false
  end.

Definition has_properties (map : members) : bool :=
  match obj_get "properties" map with Some (VObject props) => bool_decide (props ≠ []) | _ => false end.

Definition opens_properties (map : members) : bool :=
  match obj_get "additionalProperties" map with Some (VBool true) | Some (VObject _) => true | _ => false end.

Fixpoint schema_supports_strict (schema : json) : bool :=
  match schema with
  | VObject map =>
      if schema_is_object_typed map && negb (has_properties map) then false
      else if schema_is_object_typed map && opens_properties map then false
      else forallb (λ '(_, v), schema_supports_strict v) map
  | VArray items => forallb schema_supports_strict items
  | _ => true
  end.

Definition schema_contains_null_type (schema : json) : bool :=
  match schema with
  | VObject map => match obj_get "type" map with Some v => is_str "null" v | None => false end
  | _ => false
  end.

Definition null_schema : json := VObject [("type", VString "null")].

Definition make_schema_nullable (schema : json) : json :=
  match schema with
  | VObject map =>
      match obj_get "type" map with
      | Some (VString t) =>
          if String.eqb t "null" then VObject map
          else VObject (obj_insert "type" (VArray [VString t; VString "null"]) map)
      | Some (VArray types) =>
          VObject (obj_insert "type"
                     (VArray (if existsb (is_str "null") types then types else types ++ [VString "null"])) map)
      | _ =>
          match obj_get "anyOf" map with
          | Some (VArray any_of) =>
              VObject (obj_insert "anyOf"
                         (VArray (if existsb schema_contains_null_type any_of then any_of
                                  else any_of ++ [null_schema])) map)
          | _ => VObject [("anyOf", VArray [VObject map; null_schema])]
          end
      end
  | other => VObject [("anyOf", VArray [other; null_schema])]
  end.

Definition existing_required_keys (map : members) : list string :=
  match obj_get "required" map with Some (VArray arr) => omap as_str arr | _ => [] end.

Definition normalize_required_properties (map : members) : members :=
  match obj_get "properties" map with
  | Some (VObject properties) =>
      let names := sort_strings (obj_keys properties) in
      let existing_required := existing_required_keys map in
      let properties' :=
        (λ '(name, schema), (name, if bool_decide (name ∈ existing_required) then schema
                                   else make_schema_nullable schema)) <$> properties in
      obj_insert "required" (VArray (VString <$> names)) (obj_insert "properties" (VObject properties') map)
  | _ => map
  end.

(** What [strict_normalize_schema] does after its members are normalized. *)
Definition finish_strict_map (out : members) : members :=
  let is_object_typed := schema_is_object_typed out in
  let out := normalize_required_properties out in
  if is_object_typed || bool_decide (is_Some (obj_get "properties" out))
  then obj_insert "additionalProperties" (VBool false) out
  else out.

(** The normalization of a member depends on its key; the lists of
    [allOf], [anyOf], [oneOf] and [prefixItems] are treated like any other
    array. *)
Definition normalize_strict_schema_keyword (strict : json → json) (key : string) (value : json) : json :=
  if one_of schema_map_keys key then
    match value with
    | VObject children => VObject (List.map (λ '(child_key, child_value), (child_key, strict child_value)) children)
    | _ => strict value
    end
  else if one_of ["allOf"; "anyOf"; "oneOf"; "prefixItems"] key then
    match value with
    | VArray items => VArray (List.map strict items)
    | _ => strict value
    end
  else strict value.

Fixpoint strict_normalize_schema (schema : json) : json :=
  match schema with
  | VObject map =>
      VObject (finish_strict_map
        (fold_left (λ out '(key, value),
           obj_insert key (normalize_strict_schema_keyword (λ v, strict_normalize_schema v) key value) out) map []))
  | VArray items => VArray (List.map strict_normalize_schema items)
  | _ => schema
  end.

(** ** request.rs: the tools of a request *)

Record ToolSpec := mkToolSpec { ts_name : string; ts_description : string; ts_input_schema : json }.
Record ApiTool := mkApiTool { at_name : string; at_description : string; at_strict : bool; at_parameters : json }.

Definition build_tool (t : ToolSpec) : ApiTool :=
  let compatible_schema := openai_compatible_schema (ts_input_schema t) in
  let supports_strict := schema_supports_strict compatible_schema in
  mkApiTool (ts_name t) (ts_description t) supports_strict
    (if supports_strict then strict_normalize_schema compatible_schema else compatible_schema).
Definition build_tools (tools : list ToolSpec) : list ApiTool := build_tool <$> tools.
