(* ===== verification/SchemaClaims.v ===== *)
(** * What holds of the rewritten schemas

    The parameters sent for a tool contain no [oneOf] and no [allOf]; a tool
    marked strict has the strict form at every level; and three ways in which
    the flattening changes what a schema says. *)

From stdpp Require Import base list strings.
From S2P Require Import Prelude RustString ModelId Schema.

Open Scope string_scope.
Open Scope nat_scope.
Open Scope list_scope.

#[local] Arguments String.eqb : simpl never.
#[local] Arguments String.leb : simpl never.
#[local] Arguments one_of : simpl never.

(** ** Induction over values *)

Section JsonInd.
Context (P : json → Prop) (Hnull : P VNull) (Hbool : ∀ b, P (VBool b)) (Hnum : ∀ s, P (VNumber s))
  (Hstr : ∀ s, P (VString s)) (Harr : ∀ l, Forall P l → P (VArray l))
  (Hobj : ∀ m : members, Forall (λ e, P e.2) m → P (VObject m)).

Fixpoint json_induction (v : json) : P v :=
  match v with
  | VNull => Hnull
  | VBool b => Hbool b
  | VNumber s => Hnum s
  | VString s => Hstr s
  | VArray l =>
      Harr l ((fix go (l : list json) : Forall P l :=
                 match l with
                 | [] => Forall_nil_2 _
                 | x :: l' => Forall_cons_2 _ _ _ (json_induction x) (go l')
                 end) l)
  | VObject m =>
      Hobj m ((fix go (m : members) : Forall (λ e : string * json, P e.2) m :=
                 match m with
                 | [] => Forall_nil_2 _
                 | e :: m' =>
                     Forall_cons_2 (λ e : string * json, P e.2) e m'
                       (match e as e0 return P e0.2 with (k, x) => json_induction x end) (go m')
                 end) m)
  end.
End JsonInd.

(** ** Objects *)

Lemma obj_get_cons k k' v m : obj_get k ((k', v) :: m) = if String.eqb k' k then Some v else obj_get k m.
Proof. unfold obj_get. cbn. by destruct (String.eqb k' k). Qed.

Lemma obj_get_insert k v m : obj_get k (obj_insert k v m) = Some v.
Proof.
  induction m as [|[k' v'] m IH]; cbn [obj_insert]; [by rewrite obj_get_cons, String.eqb_refl|].
  destruct (String.eqb k k') eqn:He; [by rewrite obj_get_cons, String.eqb_refl|].
  destruct (String.leb k k'); rewrite obj_get_cons; [by rewrite String.eqb_refl|]. by rewrite String.eqb_sym, He.
Qed.

Lemma obj_get_insert_ne k k' v m : k ≠ k' → obj_get k' (obj_insert k v m) = obj_get k' m.
Proof.
  intros Hne. apply String.eqb_neq in Hne as Hn.
  induction m as [|[k1 v1] m IH]; cbn [obj_insert]; [by rewrite obj_get_cons, Hn|].
  destruct (String.eqb k k1) eqn:He.
  - apply String.eqb_eq in He as <-. by rewrite !obj_get_cons, Hn.
  - destruct (String.leb k k1); rewrite !obj_get_cons, ?Hn; [done|]. by rewrite IH.
Qed.

(** A property of all members. *)
Section Members.
Context (Q : string → json → Prop).

Definition all_members (m : members) : Prop := Forall (λ e, Q e.1 e.2) m.

Lemma all_members_insert k v m : Q k v → all_members m → all_members (obj_insert k v m).
Proof.
  intros Hv Hm. induction Hm as [|[k' v'] m Hx Hm IH]; cbn [obj_insert]; [by repeat constructor|].
  destruct (String.eqb k k'); [by constructor|]. destruct (String.leb k k'); repeat constructor; done.
Qed.

Lemma all_members_get k v m : all_members m → obj_get k m = Some v → Q k v.
Proof.
  intros Hm. induction Hm as [|[k' v'] m Hx Hm IH]; [done|]. rewrite obj_get_cons.
  destruct (String.eqb k' k) eqn:He; [|done]. apply String.eqb_eq in He as <-. by intros [= <-].
Qed.

Lemma all_members_remove k m : all_members m → all_members (obj_remove k m).
Proof.
  unfold all_members. rewrite !Forall_forall. intros Hm e [He _]%elem_of_List_filter. by apply Hm.
Qed.
End Members.

(** ** No [oneOf], no [allOf] *)

Definition banned : list string := ["oneOf"; "allOf"].

Fixpoint flat (v : json) : Prop :=
  match v with
  | VArray l => (fix go (l : list json) : Prop := match l with [] => True | x :: l' => flat x ∧ go l' end) l
  | VObject m =>
      (fix go (m : members) : Prop :=
         match m with [] => True | (k, x) :: m' => (one_of banned k = false ∧ flat x) ∧ go m' end) m
  | _ => True
  end.

Notation flat_member := (λ (k : string) (v : json), one_of banned k = false ∧ flat v).

Lemma flat_array l : flat (VArray l) ↔ Forall flat l.
Proof. induction l as [|x l IH]; simpl; [by split|]. rewrite Forall_cons, <- IH. done. Qed.

Lemma flat_object m : flat (VObject m) ↔ all_members flat_member m.
Proof.
  unfold all_members. induction m as [|[k x] m IH]; simpl; [by split|]. rewrite Forall_cons, <- IH. done.
Qed.

Lemma flat_strings l : flat (VArray (VString <$> l)).
Proof. apply flat_array. apply Forall_fmap, Forall_true. done. Qed.

Lemma merge_string_sets_flat a b c : merge_string_sets a b = Some c → flat c.
Proof.
  unfold merge_string_sets. destruct (collect_strings a) as [la|], (collect_strings b) as [lb|]; try done.
  destruct (push_missing _ _) as [|x [|y rest]]; intros [= <-]; try done. apply (flat_strings (x :: y :: rest)).
Qed.

(** The children of a map of schemas may have any name, so their names are
    only banned because they come from rewritten schemas. *)
Lemma merge_children_flat (mv : json → json → json) (ch ec : members) :
  Forall (λ e, ∀ x, flat x → flat e.2 → flat (mv x e.2)) ch →
  all_members flat_member ch → all_members flat_member ec →
  all_members flat_member
    (fold_left (λ ec '(child_key, child_value),
       match obj_get child_key ec with
       | Some existing_child => obj_insert child_key (mv existing_child child_value) ec
       | None => obj_insert child_key child_value ec
       end) ch ec).
Proof.
  intros Hmv Hch. revert ec. induction ch as [|[ck cv] ch IH]; intros ec Hec; simpl; [done|].
  apply Forall_cons in Hmv as [Hv Hmv]. apply Forall_cons in Hch as [[Hk Hc] Hch]. apply IH; [done..|].
  destruct (obj_get ck ec) as [e|] eqn:He; apply all_members_insert; try done.
  split; [done|]. apply Hv; [|done]. by apply (all_members_get flat_member ck e ec).
Qed.

Lemma merge_member_flat (mv mo : json → json → json) target key v :
  (∀ x, flat x → flat v → flat (mv x v)) → (∀ x, flat x → flat v → flat (mo x v)) →
  match v with VObject ch => Forall (λ e, ∀ x, flat x → flat e.2 → flat (mv x e.2)) ch | _ => True end →
  one_of banned key = false → flat v → all_members flat_member target →
  all_members flat_member (merge_member mv mo target key v).
Proof.
  intros Hmv Hmo Hch Hk Hv Ht.
  assert (∀ w, flat w → all_members flat_member (obj_insert key w target)) as Hins
    by (intros w Hw; by apply all_members_insert).
  unfold merge_member. destruct (one_of schema_map_keys key).
  { destruct v as [| | | | |ch]; try by apply Hins. destruct (obj_get key target) as [e|] eqn:He; [|by apply Hins].
    destruct e as [| | | | |ec]; try by apply Hins. apply Hins, flat_object.
    apply merge_children_flat; [done|by apply flat_object|].
    by apply (all_members_get flat_member key (VObject ec) target Ht) in He as [_ He%flat_object]. }
  destruct (one_of ["required"; "enum"; "type"] key).
  { destruct (obj_get key target) as [e|]; [|by apply Hins].
    destruct (merge_string_sets e v) eqn:Hm; [|done]. apply Hins. by apply (merge_string_sets_flat e v). }
  destruct (one_of ["description"; "title"] key); [destruct (obj_get key target); [done|by apply Hins]|].
  destruct (one_of ["additionalProperties"] key).
  { destruct (obj_get key target) as [e|] eqn:He; [|by apply Hins].
    assert (flat e) as Hfe by (by apply (all_members_get flat_member key e target Ht) in He as [_ ?]).
    destruct e; try (destruct (is_false v); [by apply Hins|done]).
    destruct v; try (destruct (is_false _); [by apply Hins|done]). apply Hins. by apply Hmo. }
  destruct (obj_get key target) as [e|] eqn:He; [|by apply Hins]. apply Hins, Hmv; [|done].
  by apply (all_members_get flat_member key e target Ht) in He as [_ ?].
Qed.

Lemma push_items_flat l acc :
  Forall flat l → Forall flat acc →
  Forall flat (fold_left (λ acc item, if existsb (json_eqb item) acc then acc else acc ++ [item]) l acc).
Proof.
  intros Hl. revert acc. induction Hl as [|x l Hx Hl IH]; intros acc Ha; simpl; [done|].
  apply IH. destruct existsb; [done|]. apply Forall_app. auto.
Qed.

(** The members of a map of schemas are merged with [merge true]. *)
Definition merges_flat (v : json) : Prop :=
  (∀ check x, flat x → flat v → flat (merge check x v))
  ∧ match v with VObject ch => Forall (λ e, ∀ x, flat x → flat e.2 → flat (merge true x e.2)) ch | _ => True end.

Lemma merge_flat v : merges_flat v.
Proof.
  induction v as [| | | |l Hl|m Hm] using json_induction; split; try done;
    try (intros check x Hx Hv; cbn [merge]; destruct (check && _); done).
  - intros check x Hx Hv. cbn [merge]. destruct (check && _); [done|]. destruct x as [| | | |ei|]; try done.
    apply flat_array. apply push_items_flat; by apply flat_array.
  - intros check x Hx Hv. cbn [merge]. destruct (check && _); [done|]. destruct x as [| | | | |em]; try done.
    apply flat_object. apply flat_object in Hx, Hv. revert em Hx Hv. clear check.
    induction Hm as [|[k v] m [Hv1 Hv2] Hm IH]; intros em Hx Hv; simpl; [done|].
    apply Forall_cons in Hv as [[Hk Hfv] Hv]. apply IH; [|done].
    apply merge_member_flat; try done; intros; by apply Hv1.
  - apply (Forall_impl _ _ _ Hm). intros e [He _] x Hx Hv. by apply He.
Qed.

Lemma merge_objects_flat t m :
  all_members flat_member t → all_members flat_member m → all_members flat_member (merge_schema_objects t m).
Proof.
  intros Ht Hm. unfold merge_schema_objects.
  destruct (merge_flat (VObject m)) as [H _]. specialize (H false (VObject t)).
  rewrite !flat_object in H. specialize (H Ht Hm). destruct (merge false _ _); try done. by apply flat_object.
Qed.

Lemma flatten_flat m :
  all_members (λ k v, String.eqb k "oneOf" = false ∧ flat v) m → flat (flatten_all_of_schema m).
Proof.
  intros Hm. unfold flatten_all_of_schema.
  assert (all_members flat_member (obj_remove "allOf" m)) as Hrest.
  { unfold all_members in *. rewrite Forall_forall in *. intros e [He Hn]%elem_of_List_filter.
    destruct (Hm e He) as [Ho Hf]. split; [|done]. unfold one_of, banned. simpl. rewrite Ho. simpl.
    apply negb_true_iff in Hn. by rewrite Hn. }
  destruct (obj_get "allOf" m) as [a|] eqn:Ha; [|by apply flat_object].
  destruct a as [| | | |items|]; try by apply flat_object.
  apply (all_members_get _ _ _ _ Hm) in Ha as [_ Hitems%flat_array].
  assert (∀ t acc, all_members flat_member t → Forall flat acc →
            all_members flat_member (fold_left all_of_step items (t, acc)).1
            ∧ Forall flat (fold_left all_of_step items (t, acc)).2) as Hfold.
  { induction Hitems as [|x l Hx Hl IH]; intros t acc Ht Hacc; simpl; [done|].
    destruct x; try (apply IH; [done|]; apply Forall_app; auto).
    apply IH; [|done]. apply merge_objects_flat; [done|]. by apply flat_object. }
  destruct (Hfold (obj_remove "allOf" m) []) as [Hmerged Hany]; [done..|].
  destruct (fold_left all_of_step items _) as [merged any]. simpl in *.
  destruct any as [|y any]; [by apply flat_object|].
  assert (∀ l, Forall flat l → flat (VObject (obj_insert "anyOf" (VArray l) merged))) as Hins.
  { intros l Hl. apply flat_object, all_members_insert; [|done]. split; [done|]. by apply flat_array. }
  destruct (obj_get "anyOf" merged) as [e|] eqn:He; [|by apply Hins].
  destruct e as [| | | |ex|]; try by apply Hins. apply Hins. apply Forall_app. split; [|done].
  apply (all_members_get flat_member _ _ _ Hmerged) in He as [_ He%flat_array]. done.
Qed.

Lemma compatible_flat schema : flat (openai_compatible_schema schema).
Proof.
  induction schema as [| | | |l Hl|m Hm] using json_induction; try done.
  - cbn [openai_compatible_schema]. apply flat_array. rewrite Forall_map. exact Hl.
  - cbn [openai_compatible_schema]. apply flatten_flat.
    assert (∀ out, all_members (λ k v, String.eqb k "oneOf" = false ∧ flat v) out →
      all_members (λ k v, String.eqb k "oneOf" = false ∧ flat v)
        (fold_left (λ out '(key, value), obj_insert (compatible_key key) (openai_compatible_schema value) out) m out))
      as H; [|by apply H; constructor].
    induction Hm as [|[k v] m Hv Hm IH]; intros out Hout; simpl; [done|]. apply IH.
    apply all_members_insert; [|done]. split; [|done]. unfold compatible_key.
    destruct (String.eqb k "oneOf") eqn:He; [done|]. done.
Qed.

(** ** The strict form *)

(** An object schema is closed and requires all its properties. *)
Definition strict_local (m : members) : Prop :=
  (schema_is_object_typed m = true ∨ is_Some (obj_get "properties" m) →
     obj_get "additionalProperties" m = Some (VBool false))
  ∧ (∀ props, obj_get "properties" m = Some (VObject props) →
       obj_get "required" m = Some (VArray (VString <$> sort_strings (obj_keys props)))).

(** At every schema: the values of a map of schemas are schemas, the map is not. *)
Fixpoint strict_form (v : json) : Prop :=
  match v with
  | VArray l => (fix go (l : list json) : Prop := match l with [] => True | x :: l' => strict_form x ∧ go l' end) l
  | VObject m =>
      strict_local m
      ∧ (fix go (m : members) : Prop :=
           match m with
           | [] => True
           | (k, x) :: m' =>
               (if one_of schema_map_keys k then
                  match x with
                  | VObject ch =>
                      (fix goc (ch : members) : Prop :=
                         match ch with [] => True | (_, c) :: ch' => strict_form c ∧ goc ch' end) ch
                  | _ => strict_form x
                  end
                else strict_form x) ∧ go m'
           end) m
  | _ => True
  end.

Definition strict_member (k : string) (x : json) : Prop :=
  if one_of schema_map_keys k then
    match x with VObject ch => Forall (λ e, strict_form e.2) ch | _ => strict_form x end
  else strict_form x.

Lemma strict_array l : strict_form (VArray l) ↔ Forall strict_form l.
Proof. induction l as [|x l IH]; simpl; [by split|]. rewrite Forall_cons, <- IH. done. Qed.

Lemma strict_object m : strict_form (VObject m) ↔ strict_local m ∧ all_members strict_member m.
Proof.
  cbn [strict_form]. apply and_iff_compat_l. unfold all_members. induction m as [|[k x] m IH]; [by split|].
  rewrite Forall_cons, IH. apply and_iff_compat_r. unfold strict_member. cbn [fst snd].
  destruct (one_of schema_map_keys k); [|done]. destruct x as [| | | | |ch]; try done.
  induction ch as [|[ck c] ch IHc]; [by split|]. rewrite Forall_cons, <- IHc. done.
Qed.

Lemma strict_local_insert_ne k v m :
  k ≠ "type" → k ≠ "properties" → k ≠ "additionalProperties" → k ≠ "required" →
  strict_local m → strict_local (obj_insert k v m).
Proof. intros. unfold strict_local, schema_is_object_typed. by rewrite !obj_get_insert_ne by congruence. Qed.

Lemma strict_local_insert_type v m :
  schema_is_object_typed (obj_insert "type" v m) = schema_is_object_typed m →
  strict_local m → strict_local (obj_insert "type" v m).
Proof. intros Ht. unfold strict_local. by rewrite Ht, !obj_get_insert_ne by done. Qed.

Lemma null_schema_strict : strict_form null_schema.
Proof. split; [split; [by intros [?|[x ?]]|done]|done]. Qed.

Lemma wrapped_strict v : strict_form v → strict_form (VObject [("anyOf", VArray [v; null_schema])]).
Proof.
  intros Hv. apply strict_object. split; [split; [by intros [H|[x H]]|done]|].
  apply Forall_cons. split; [|done]. change (strict_form (VArray [v; null_schema])). apply strict_array.
  apply Forall_cons. split; [done|]. apply Forall_singleton, null_schema_strict.
Qed.

Lemma nullable_strict v : strict_form v → strict_form (make_schema_nullable v).
Proof.
  destruct v as [| | | |l|m]; cbn [make_schema_nullable]; try apply wrapped_strict.
  intros Hv. destruct (strict_object m) as [Hs _]. destruct (Hs Hv) as [Hloc Hmem].
  assert (∀ w, strict_form w → schema_is_object_typed (obj_insert "type" w m) = schema_is_object_typed m →
            strict_form (VObject (obj_insert "type" w m))) as Htype.
  { intros w Hw He. apply strict_object. split; [by apply strict_local_insert_type|]. by apply all_members_insert. }
  assert (∀ w, Forall strict_form w → strict_form (VObject (obj_insert "anyOf" (VArray w) m))) as Hany.
  { intros w Hw. apply strict_object. split; [by apply strict_local_insert_ne|]. apply all_members_insert; [|done].
    by apply strict_array. }
  pose proof null_schema_strict as Hnull.
  assert (match obj_get "anyOf" m with
          | Some (VArray any_of) =>
              strict_form (VObject (obj_insert "anyOf"
                (VArray (if existsb schema_contains_null_type any_of then any_of else any_of ++ [null_schema])) m))
          | _ => strict_form (VObject [("anyOf", VArray [VObject m; null_schema])])
          end) as Hrest.
  { destruct (obj_get "anyOf" m) as [a|] eqn:Ha; [|by apply wrapped_strict].
    destruct a as [| | | |any_of|]; try by apply wrapped_strict.
    pose proof (proj1 (strict_array any_of) (all_members_get strict_member _ _ _ Hmem Ha)) as Ha'.
    apply Hany. destruct existsb; [done|]. apply Forall_app. auto. }
  assert (∀ l, schema_is_object_typed (obj_insert "type" (VArray l) m) = existsb (is_str "object") l) as Hty
    by (intros l; unfold schema_is_object_typed; by rewrite obj_get_insert).
  destruct (obj_get "type" m) as [ty|] eqn:Hget; [|by destruct (obj_get "anyOf" m) as [[]|]].
  destruct ty as [| | |t|types|]; try (by destruct (obj_get "anyOf" m) as [[]|]).
  - destruct (String.eqb t "null"); [done|]. apply Htype; [by repeat constructor|].
    rewrite Hty. unfold schema_is_object_typed. rewrite Hget. simpl. by rewrite !orb_false_r.
  - pose proof (proj1 (strict_array types) (all_members_get strict_member _ _ _ Hmem Hget)) as Hget'. apply Htype.
    + apply strict_array. destruct existsb; [done|]. apply Forall_app. split; [done|]. by repeat constructor.
    + rewrite Hty. unfold schema_is_object_typed. rewrite Hget. destruct (existsb (is_str "null") types); [done|].
      rewrite existsb_app. simpl. by rewrite !orb_false_r.
Qed.

Lemma strings_strict l : strict_form (VArray (VString <$> l)).
Proof. apply strict_array, Forall_fmap, Forall_true. done. Qed.

Lemma finish_strict_ok out : all_members strict_member out → strict_form (VObject (finish_strict_map out)).
Proof.
  intros Hout. unfold finish_strict_map.
  assert (all_members strict_member (normalize_required_properties out)
    ∧ schema_is_object_typed (normalize_required_properties out) = schema_is_object_typed out
    ∧ ∀ props, obj_get "properties" (normalize_required_properties out) = Some (VObject props) →
        obj_get "required" (normalize_required_properties out)
        = Some (VArray (VString <$> sort_strings (obj_keys props)))) as (Hmem & Htyp & Hreq).
  { unfold normalize_required_properties. destruct (obj_get "properties" out) as [p|] eqn:Hp; [|by rewrite Hp].
    destruct p as [| | | | |props]; try (split_and!; [done..|intros ps; by rewrite Hp]).
    split_and!.
    - apply all_members_insert; [apply strings_strict|]. apply all_members_insert; [|done].
      apply (all_members_get strict_member _ _ _ Hout) in Hp. unfold strict_member in *. simpl in *.
      rewrite Forall_fmap. apply (Forall_impl _ _ _ Hp). intros [n s] Hs. simpl in *.
      case_bool_decide; [done|]. by apply nullable_strict.
    - unfold schema_is_object_typed. by rewrite !obj_get_insert_ne by done.
    - intros ps. rewrite obj_get_insert_ne, obj_get_insert by done. intros [= <-]. rewrite obj_get_insert.
      do 4 f_equal. unfold obj_keys. rewrite <- list_fmap_compose. apply list_fmap_ext. by intros ? [] ?. }
  set (out' := normalize_required_properties out) in *. rewrite <- Htyp.
  destruct (schema_is_object_typed out' || _) eqn:Hc; apply strict_object.
  - split; [|by apply all_members_insert]. split; [by rewrite obj_get_insert|].
    intros props. rewrite !obj_get_insert_ne by done. apply Hreq.
  - apply orb_false_iff in Hc as [Ht Hn%bool_decide_eq_false]. split; [|done]. split; [|done].
    intros [?|?]; [congruence|done].
Qed.

Definition strict_parts (v : json) : Prop :=
  strict_form (strict_normalize_schema v)
  ∧ match v with VObject ch => Forall (λ e, strict_form (strict_normalize_schema e.2)) ch | _ => True end.

Lemma keyword_strict k v :
  strict_parts v → strict_member k (normalize_strict_schema_keyword (λ v, strict_normalize_schema v) k v).
Proof.
  intros [Hv Hch]. unfold normalize_strict_schema_keyword, strict_member.
  destruct (one_of schema_map_keys k).
  - destruct v as [| | | | |ch]; try done. rewrite Forall_map. apply (Forall_impl _ _ _ Hch). by intros [].
  - destruct (one_of _ k); [|done]. destruct v; try done.
Qed.

Lemma strict_normalize_ok v : strict_parts v.
Proof.
  induction v as [| | | |l Hl|m Hm] using json_induction; split; try done.
  - cbn [strict_normalize_schema]. apply strict_array. rewrite Forall_map. apply (Forall_impl _ _ _ Hl).
    by intros x [? _].
  - cbn [strict_normalize_schema]. apply finish_strict_ok.
    assert (∀ out, all_members strict_member out →
      all_members strict_member (fold_left (λ out '(key, value),
        obj_insert key (normalize_strict_schema_keyword (λ v, strict_normalize_schema v) key value) out) m out))
      as H; [|by apply H; constructor].
    induction Hm as [|[k v] m Hv Hm IH]; intros out Hout; simpl; [done|]. apply IH.
    apply all_members_insert; [by apply keyword_strict|done].
  - apply (Forall_impl _ _ _ Hm). by intros e [? _].
Qed.

(** ** Both together *)

Lemma nullable_flat v : flat v → flat (make_schema_nullable v).
Proof.
  assert (∀ w, flat w → flat (VObject [("anyOf", VArray [w; null_schema])])) as Hwrap by (intros w Hw; cbn; tauto).
  destruct v as [| | | |l|m]; cbn [make_schema_nullable]; try apply Hwrap.
  intros Hv. pose proof (proj1 (flat_object m) Hv) as Hmem.
  assert (∀ k w, one_of banned k = false → flat w → flat (VObject (obj_insert k w m))) as Hins
    by (intros k w Hk Hw; apply flat_object, all_members_insert; done).
  assert (match obj_get "anyOf" m with
          | Some (VArray any_of) =>
              flat (VObject (obj_insert "anyOf"
                (VArray (if existsb schema_contains_null_type any_of then any_of else any_of ++ [null_schema])) m))
          | _ => flat (VObject [("anyOf", VArray [VObject m; null_schema])])
          end) as Hrest.
  { specialize (Hwrap _ Hv). destruct (obj_get "anyOf" m) as [a|] eqn:Ha; [|exact Hwrap].
    destruct a as [| | | |any_of|]; try exact Hwrap. apply Hins; [done|]. apply flat_array.
    pose proof (all_members_get flat_member _ _ _ Hmem Ha) as [_ Hf%flat_array].
    destruct existsb; [done|]. apply Forall_app. split; [done|]. by apply Forall_singleton. }
  destruct (obj_get "type" m) as [ty|] eqn:Hget; [|by destruct (obj_get "anyOf" m) as [[]|]].
  destruct ty as [| | |t|types|]; try (by destruct (obj_get "anyOf" m) as [[]|]).
  - destruct (String.eqb t "null"); [done|]. by apply Hins.
  - apply Hins; [done|]. apply flat_array. pose proof (all_members_get flat_member _ _ _ Hmem Hget) as [_ Hf%flat_array].
    destruct existsb; [done|]. apply Forall_app. split; [done|]. by apply Forall_singleton.
Qed.

Lemma finish_strict_flat out : all_members flat_member out → all_members flat_member (finish_strict_map out).
Proof.
  intros Hout. unfold finish_strict_map.
  assert (all_members flat_member (normalize_required_properties out)) as Hn.
  { unfold normalize_required_properties. destruct (obj_get "properties" out) as [p|] eqn:Hp; [|done].
    destruct p as [| | | | |props]; try done.
    apply all_members_insert; [split; [done|apply flat_strings]|]. apply all_members_insert; [|done].
    split; [done|]. apply flat_object. pose proof (all_members_get flat_member _ _ _ Hout Hp) as [_ Hf%flat_object].
    unfold all_members in *. rewrite Forall_fmap. apply (Forall_impl _ _ _ Hf). intros [n s] [Hn Hs]. simpl in *.
    split; [done|]. case_bool_decide; [done|]. by apply nullable_flat. }
  destruct (_ || _); [|done]. by apply all_members_insert.
Qed.

Definition stays_flat (v : json) : Prop :=
  (flat v → flat (strict_normalize_schema v))
  ∧ match v with VObject ch => Forall (λ e, flat e.2 → flat (strict_normalize_schema e.2)) ch | _ => True end.

Lemma keyword_flat k v :
  stays_flat v → flat v → flat (normalize_strict_schema_keyword (λ v, strict_normalize_schema v) k v).
Proof.
  intros [Hv Hch] Hf. unfold normalize_strict_schema_keyword. destruct (one_of schema_map_keys k).
  - destruct v as [| | | | |ch]; try by apply Hv. apply flat_object. apply flat_object in Hf.
    unfold all_members in *. rewrite Forall_map. rewrite Forall_forall in *. intros [ck c] Hc.
    destruct (Hf _ Hc). split; [done|]. by apply (Hch (ck, c)).
  - destruct (one_of _ k); [|by apply Hv]. destruct v; try by apply Hv.
Qed.

Lemma strict_flat v : stays_flat v.
Proof.
  induction v as [| | | |l Hl|m Hm] using json_induction; split; try done.
  - rewrite flat_array. intros Hf. cbn [strict_normalize_schema]. apply flat_array. rewrite Forall_map.
    rewrite Forall_forall in *. intros x Hx. by apply Hl, Hf.
  - rewrite flat_object. intros Hf. cbn [strict_normalize_schema]. apply flat_object, finish_strict_flat.
    assert (∀ out, all_members flat_member out →
      all_members flat_member (fold_left (λ out '(key, value),
        obj_insert key (normalize_strict_schema_keyword (λ v, strict_normalize_schema v) key value) out) m out))
      as H; [|by apply H; constructor].
    induction Hm as [|[k v] m Hv Hm IH]; intros out Hout; simpl; [done|].
    apply Forall_cons in Hf as [[Hk Hfv] Hf]. apply IH; [done|].
    apply all_members_insert; [|done]. split; [done|]. by apply keyword_flat.
  - apply (Forall_impl _ _ _ Hm). by intros e [? _].
Qed.

(** The tools of a request fit the API.  Whatever schema a tool declares,
    the parameters sent for it have no [oneOf] and no [allOf] at any depth; and
    when the tool is marked strict, every schema in them that is typed as an
    object or lists properties forbids additional ones, and requires exactly
    the properties it lists, in order. *)
Theorem built_tools_fit_the_api (tools : list ToolSpec) :
  Forall (λ tool, flat (at_parameters tool) ∧ (at_strict tool = true → strict_form (at_parameters tool)))
    (build_tools tools).
Proof.
  unfold build_tools. apply Forall_fmap, Forall_true. intros t. unfold build_tool, compose. cbn [at_parameters at_strict].
  pose proof (compatible_flat (ts_input_schema t)) as Hf.
  destruct (schema_supports_strict _); split; try done; [by apply strict_flat|].
  intros _. apply strict_normalize_ok.
Qed.

(** ** What flattening changes *)

(** Two branches that require the same single property leave [required] a
    string instead of a list, so the strict form takes the property for
    optional and lets it be null. *)
Definition demo_branch : json :=
  VObject [("properties", VObject [("path", VObject [("type", VString "string")])]);
           ("required", VArray [VString "path"]); ("type", VString "object")].

Lemma shared_requirement_is_lost :
  openai_compatible_schema (VObject [("allOf", VArray [demo_branch; demo_branch])])
  = VObject [("properties", VObject [("path", VObject [("type", VString "string")])]);
             ("required", VString "path"); ("type", VString "object")]
  ∧ strict_normalize_schema (openai_compatible_schema (VObject [("allOf", VArray [demo_branch; demo_branch])]))
    = VObject [("additionalProperties", VBool false);
               ("properties", VObject [("path", VObject [("type", VArray [VString "string"; VString "null"])])]);
               ("required", VArray [VString "path"]); ("type", VString "object")].
Proof. vm_compute. done. Qed.

(** A property that is named like a keyword is renamed or dropped, and a
    [oneOf] replaces an [anyOf] beside it. *)
Lemma keyword_properties_are_lost :
  openai_compatible_schema (VObject [("properties", VObject [("allOf", VObject []); ("oneOf", VObject [])])])
  = VObject [("properties", VObject [("anyOf", VObject [])])]
  ∧ openai_compatible_schema (VObject [("anyOf", VArray [VObject []]); ("oneOf", VArray [])])
    = VObject [("anyOf", VArray [])].
Proof. vm_compute. done. Qed.
