(* ===== verification/SwarmServer.v ===== *)
(** * Members, plans and coordinators of the server

    crates/jcode-app-core/src/server/swarm.rs with the member record, the event
    channels and the soft interrupts of server/state.rs: the spawn tree, the
    lifecycle of members, salvage of a dead worker's tasks, heartbeats and the
    staleness sweep, status updates and their notifications, and the removal of
    a session with the election that follows.

    A channel is a number; [closed] says whether its receiver is gone.  Clocks
    are numbers of milliseconds: [now] for [Instant::now()], [now_ms] for
    [now_unix_ms()].  A function that takes several locks in turn is the
    composition of its sections; what it sends, saves and logs is the list of
    effects it returns beside the new state. *)

From stdpp Require Import base list strings gmap pretty.
From S2P Require Import Prelude RustString Dag Plan Bridge Swarm.

Open Scope string_scope.
Open Scope nat_scope.
Open Scope list_scope.

(** ** Data *)

Record SwarmMemberRuntime := mkRuntime {
  rt_model : option string;
  rt_provider : option string;
  rt_auth_method : option string;
  rt_effort : option string;
  rt_elapsed_secs : option N }.

Definition runtime_default : SwarmMemberRuntime := mkRuntime None None None None None.

Record SwarmMember := mkSwarmMember {
  sm_session_id : string;
  sm_event_tx : N;
  sm_event_txs : gmap string N;
  sm_working_dir : option string;
  sm_swarm_id : option string;
  sm_swarm_enabled : bool;
  sm_status : string;
  sm_detail : option string;
  sm_task_label : option string;
  sm_friendly_name : option string;
  sm_report_back : option string;
  sm_completion_report : option string;
  sm_role : string;
  sm_joined_at : N;
  sm_last_status_change : N;
  sm_is_headless : bool;
  sm_output_tail : option string;
  sm_todo_progress : option (N * N);
  sm_runtime : SwarmMemberRuntime }.

Record SwarmState := mkState {
  ss_members : gmap string SwarmMember;
  ss_swarms : gmap string (gset string);
  ss_plans : gmap string VersionedPlan;
  ss_coordinators : gmap string string }.

Definition set_ss_members (m : gmap string SwarmMember) (s : SwarmState) : SwarmState :=
  mkState m (ss_swarms s) (ss_plans s) (ss_coordinators s).
Definition set_ss_swarms (m : gmap string (gset string)) (s : SwarmState) : SwarmState :=
  mkState (ss_members s) m (ss_plans s) (ss_coordinators s).
Definition set_ss_plans (m : gmap string VersionedPlan) (s : SwarmState) : SwarmState :=
  mkState (ss_members s) (ss_swarms s) m (ss_coordinators s).
Definition set_ss_coordinators (m : gmap string string) (s : SwarmState) : SwarmState :=
  mkState (ss_members s) (ss_swarms s) (ss_plans s) m.

Definition alter_member (f : SwarmMember → SwarmMember) (id : string) (s : SwarmState) : SwarmState :=
  set_ss_members (alter f id (ss_members s)) s.
Definition alter_plan (f : VersionedPlan → VersionedPlan) (id : string) (s : SwarmState) : SwarmState :=
  set_ss_plans (alter f id (ss_plans s)) s.

Definition set_member_role (r : string) (m : SwarmMember) : SwarmMember :=
  mkSwarmMember (sm_session_id m) (sm_event_tx m) (sm_event_txs m) (sm_working_dir m) (sm_swarm_id m)
    (sm_swarm_enabled m) (sm_status m) (sm_detail m) (sm_task_label m) (sm_friendly_name m) (sm_report_back m)
    (sm_completion_report m) r (sm_joined_at m) (sm_last_status_change m) (sm_is_headless m) (sm_output_tail m)
    (sm_todo_progress m) (sm_runtime m).
Definition set_report_back (o : option string) (m : SwarmMember) : SwarmMember :=
  mkSwarmMember (sm_session_id m) (sm_event_tx m) (sm_event_txs m) (sm_working_dir m) (sm_swarm_id m)
    (sm_swarm_enabled m) (sm_status m) (sm_detail m) (sm_task_label m) (sm_friendly_name m) o
    (sm_completion_report m) (sm_role m) (sm_joined_at m) (sm_last_status_change m) (sm_is_headless m)
    (sm_output_tail m) (sm_todo_progress m) (sm_runtime m).
Definition set_task_label (o : option string) (m : SwarmMember) : SwarmMember :=
  mkSwarmMember (sm_session_id m) (sm_event_tx m) (sm_event_txs m) (sm_working_dir m) (sm_swarm_id m)
    (sm_swarm_enabled m) (sm_status m) (sm_detail m) o (sm_friendly_name m) (sm_report_back m)
    (sm_completion_report m) (sm_role m) (sm_joined_at m) (sm_last_status_change m) (sm_is_headless m)
    (sm_output_tail m) (sm_todo_progress m) (sm_runtime m).
Definition set_channels (tx : N) (txs : gmap string N) (m : SwarmMember) : SwarmMember :=
  mkSwarmMember (sm_session_id m) tx txs (sm_working_dir m) (sm_swarm_id m)
    (sm_swarm_enabled m) (sm_status m) (sm_detail m) (sm_task_label m) (sm_friendly_name m) (sm_report_back m)
    (sm_completion_report m) (sm_role m) (sm_joined_at m) (sm_last_status_change m) (sm_is_headless m)
    (sm_output_tail m) (sm_todo_progress m) (sm_runtime m).

(** The durable part of a member, jcode-swarm-core. *)
Record SwarmMemberRecord := mkMemberRecord {
  mr_session_id : string;
  mr_working_dir : option string;
  mr_swarm_id : option string;
  mr_swarm_enabled : bool;
  mr_status : SwarmLifecycleStatus;
  mr_detail : option string;
  mr_task_label : option string;
  mr_friendly_name : option string;
  mr_report_back : option string;
  mr_completion_report : option string;
  mr_role : SwarmRole;
  mr_is_headless : bool }.

Definition durable_record (m : SwarmMember) : SwarmMemberRecord :=
  mkMemberRecord (sm_session_id m) (sm_working_dir m) (sm_swarm_id m) (sm_swarm_enabled m)
    (lifecycle_from (sm_status m)) (sm_detail m) (sm_task_label m) (sm_friendly_name m) (sm_report_back m)
    (sm_completion_report m) (role_from (sm_role m)) (sm_is_headless m).

Definition from_record (now : N) (r : SwarmMemberRecord) (event_tx : N) : SwarmMember :=
  mkSwarmMember (mr_session_id r) event_tx ∅ (mr_working_dir r) (mr_swarm_id r) (mr_swarm_enabled r)
    (lifecycle_as_str (mr_status r)) (mr_detail r) (mr_task_label r) (mr_friendly_name r) (mr_report_back r)
    (mr_completion_report r) (role_as_str (mr_role r)) now now (mr_is_headless r) None None runtime_default.

(** What the server sends ([ServerEvent]), records ([SwarmEventType]) and does
    besides. *)
Inductive ServerEvent :=
| EvNotification (from_session : string) (from_name : option string) (scope : string) (tldr : option string)
    (message : string)
| EvSwarmPlan (swarm_id : string) (version : N) (items : list PlanItem) (participants : list string)
    (reason : option string)
| EvPlanProposal (swarm_id proposer : string) (proposer_name : option string) (items : list PlanItem)
    (summary proposal_key : string)
| EvError (id : N) (message : string) (retry_after_secs : option N)
| EvDone (id : N)
| EvAssignTask (id : N) (task_id target_session : string)
| EvTaskControl (id : N) (action task_id : string) (target_session : option string) (status : string)
| EvSpawn (id : N) (session_id new_session_id : string).

Inductive SwarmEventType :=
| SeNotification (notification_type message : string)
| SePlanUpdate (swarm_id : string) (item_count : nat)
| SePlanProposal (swarm_id proposer_session : string) (item_count : nat)
| SeStatusChange (old_status new_status : string).

Inductive Effect :=
| Send (chan : N) (event : ServerEvent)
| Persist (swarm_id : string)
| RemovePersisted (swarm_id : string)
| BroadcastStatus (swarm_id : string)
| Record_event (session : string) (name : option string) (swarm_id : option string) (event : SwarmEventType)
| Activity (session : string)
| SoftInterrupt (session : string) (message : string) (urgent : bool)
| StartRun (session swarm_id task_id assignment_text : string).

(** The order in which a hash map is iterated. *)
Class MapIter := {
  map_iter : ∀ A, gmap string A → list (string * A);
  map_iter_perm : ∀ A (m : gmap string A), map_iter A m ≡ₚ map_to_list m }.
Arguments map_iter {_ A} _.

Definition keyed_iter : MapIter := {| map_iter := λ A m, map_to_list m; map_iter_perm := λ A m, reflexivity _ |}.

(** ** The spawn tree *)

Definition parent_of (members : gmap string SwarmMember) (s : string) : option string :=
  members !! s ≫= sm_report_back.

(** One iteration per visited session; [visited] holds the start and every
    ancestor found. *)
Fixpoint ancestors_loop (fuel : nat) (members : gmap string SwarmMember) (visited : list string) (current : string)
  : list string :=
  match fuel with
  | 0 => []
  | S fuel =>
      match parent_of members current with
      | Some parent =>
          if bool_decide (parent = current) || bool_decide (parent ∈ visited) then []
          else parent :: ancestors_loop fuel members (parent :: visited) parent
      | None => []
      end
  end.
Definition swarm_ancestors (members : gmap string SwarmMember) (session_id : string) : list string :=
  ancestors_loop (S (size members)) members [session_id] session_id.

Definition swarm_is_self_or_ancestor (members : gmap string SwarmMember) (ancestor session_id : string) : bool :=
  bool_decide (ancestor = session_id) || existsb (String.eqb ancestor) (swarm_ancestors members session_id).

(** ** Lifecycle predicates *)

Definition elapsed (now t : N) : N := (now - t)%N.

Definition member_status_is_terminal : string → bool :=
  is_one_of ["completed"; "done"; "failed"; "stopped"; "crashed"; "closed"; "disconnected"].
Definition member_status_is_dead : string → bool := is_one_of ["failed"; "stopped"; "crashed"].
Definition member_consumes_swarm_capacity (m : SwarmMember) : bool := negb (member_status_is_terminal (sm_status m)).
Definition member_in_status_broadcast (now : N) (m : SwarmMember) (retention : N) : bool :=
  negb (member_status_is_terminal (sm_status m)) || (elapsed now (sm_last_status_change m) <? retention)%N.

Section Lists.
Context {I : MapIter}.

Definition member_values (members : gmap string SwarmMember) : list SwarmMember := (map_iter members).*2.

Definition expired_terminal_member_ids (now : N) (members : gmap string SwarmMember) (retention : N) : list string :=
  sm_session_id <$> List.filter (λ m, member_status_is_terminal (sm_status m)
                                      && (retention <=? elapsed now (sm_last_status_change m))%N)
                      (member_values members).

Definition idle_spawned_worker_reap_candidates (now : N) (members : gmap string SwarmMember) (idle_after : N)
  : list string :=
  sm_session_id <$> List.filter (λ m,
      bool_decide (is_Some (sm_report_back m)) && negb (bool_decide (sm_role m = "coordinator"))
      && (bool_decide (sm_status m = "ready") || member_status_is_terminal (sm_status m))
      && (idle_after <=? elapsed now (sm_last_status_change m))%N) (member_values members).
End Lists.

(** ** Items and progress records *)

Definition set_item_status (s : string) (i : PlanItem) : PlanItem :=
  mkItem (pi_content i) s (pi_priority i) (pi_id i) (pi_subsystem i) (pi_file_scope i) (pi_blocked_by i)
    (pi_assigned_to i).
Definition set_item_assignee (o : option string) (i : PlanItem) : PlanItem :=
  mkItem (pi_content i) (pi_status i) (pi_priority i) (pi_id i) (pi_subsystem i) (pi_file_scope i) (pi_blocked_by i) o.

(** [plan.items.iter_mut().find(|item| item.id == id)] and a change there. *)
Definition update_item (id : string) (f : PlanItem → PlanItem) (items : list PlanItem) : list PlanItem :=
  update_first (λ i, bool_decide (pi_id i = id)) f items.
(** [task_progress.entry(id).or_default()] and a change there. *)
Definition update_progress (id : string) (f : SwarmTaskProgress → SwarmTaskProgress)
  (m : gmap string SwarmTaskProgress) : gmap string SwarmTaskProgress :=
  <[id := f (default progress_default (m !! id))]> m.

Definition set_items (items : list PlanItem) (p : VersionedPlan) : VersionedPlan :=
  mkPlan items (vp_version p) (vp_participants p) (vp_task_progress p) (vp_mode p) (vp_node_meta p).
Definition set_progress (m : gmap string SwarmTaskProgress) (p : VersionedPlan) : VersionedPlan :=
  mkPlan (vp_items p) (vp_version p) (vp_participants p) m (vp_mode p) (vp_node_meta p).
Definition bump_version (p : VersionedPlan) : VersionedPlan :=
  mkPlan (vp_items p) (u64_succ (vp_version p)) (vp_participants p) (vp_task_progress p) (vp_mode p) (vp_node_meta p).
Definition set_participants (s : gset string) (p : VersionedPlan) : VersionedPlan :=
  mkPlan (vp_items p) (vp_version p) s (vp_task_progress p) (vp_mode p) (vp_node_meta p).
Definition insert_participant (session : string) (p : VersionedPlan) : VersionedPlan :=
  set_participants ({[session]} ∪ vp_participants p) p.

Definition set_stale_since (o : option N) (t : SwarmTaskProgress) : SwarmTaskProgress :=
  mkProgress (tp_assigned_session_id t) (tp_assignment_summary t) (tp_assigned_at_unix_ms t)
    (tp_started_at_unix_ms t) (tp_last_heartbeat_unix_ms t) (tp_last_detail t) (tp_last_checkpoint_unix_ms t)
    (tp_checkpoint_summary t) (tp_completed_at_unix_ms t) o (tp_heartbeat_count t) (tp_checkpoint_count t)
    (tp_no_artifact_requeues t) (tp_dead_assignee_reclaims t).

(** [Some(count.unwrap_or(0) + 1)] at 32 bits. *)
Definition count_up (o : option N) : option N := Some (u64_succ (default 0%N o)).

(** ** Salvage *)

Record DeadMemberSalvage := mkSalvage { requeued_task_ids : list string; failed_task_ids : list string }.

Definition salvage_is_empty (o : DeadMemberSalvage) : bool :=
  bool_decide (requeued_task_ids o = []) && bool_decide (failed_task_ids o = []).

Definition warning_sign : string := str_bytes [226; 154; 160].

Definition describe (o : DeadMemberSalvage) (worker_label : string) : string :=
  String.concat " "
    ([warning_sign +:+ " Worker " +:+ worker_label +:+ " died while holding swarm task assignment(s)."]
     ++ (if bool_decide (requeued_task_ids o = []) then []
         else ["Requeued for automatic re-dispatch: " +:+ String.concat ", " (requeued_task_ids o) +:+ "."])
     ++ (if bool_decide (failed_task_ids o = []) then []
         else ["Marked failed (automatic reclaim cap reached): " +:+ String.concat ", " (failed_task_ids o)
               +:+ ". Use retry or assign_task to redispatch explicitly."])
     ++ ["Queued tasks will be picked up by assign_next/run_plan; check plan_status for details."]).

Definition cap_progress (now_ms : N) (session_id : string) (t : SwarmTaskProgress) : SwarmTaskProgress :=
  mkProgress None (tp_assignment_summary t) (tp_assigned_at_unix_ms t) (tp_started_at_unix_ms t)
    (tp_last_heartbeat_unix_ms t) (tp_last_detail t) (tp_last_checkpoint_unix_ms t)
    (Some (truncate_detail ("failed: assigned worker " +:+ session_id
                            +:+ " died and the automatic reclaim cap was reached") 120))
    (Some now_ms) None (tp_heartbeat_count t) (tp_checkpoint_count t) (tp_no_artifact_requeues t)
    (tp_dead_assignee_reclaims t).

(** The capped branch and the requeueing branch of the loop. *)
Definition fail_capped (now_ms : N) (session_id task_id : string) (p : VersionedPlan) : VersionedPlan :=
  bump_version
    (set_progress (update_progress task_id (cap_progress now_ms session_id) (vp_task_progress p))
       (set_items (update_item task_id (λ i, set_item_assignee None (set_item_status "failed" i)) (vp_items p)) p)).
Definition requeue_reclaimed (task_id : string) (p : VersionedPlan) : VersionedPlan :=
  set_progress (update_progress task_id (set_stale_since None) (vp_task_progress p))
    (set_items (update_item task_id (set_item_status "queued") (vp_items p)) p).

Definition salvage_step (now_ms : N) (session_id : string) (acc : VersionedPlan * DeadMemberSalvage) (task_id : string)
  : VersionedPlan * DeadMemberSalvage :=
  let '(p, o) := acc in
  if (MAX_DEAD_ASSIGNEE_RECLAIMS <=? reclaims p task_id)%N then
    (fail_capped now_ms session_id task_id p, mkSalvage (requeued_task_ids o) (failed_task_ids o ++ [task_id]))
  else
    match reclaim_stranded_assignment task_id p with
    | (true, p) => (requeue_reclaimed task_id p, mkSalvage (requeued_task_ids o ++ [task_id]) (failed_task_ids o))
    | (false, p) => (p, o)
    end.

Definition held_by (session_id : string) (i : PlanItem) : bool :=
  bool_decide (pi_assigned_to i = Some session_id) && negb (is_terminal_status (pi_status i)).

Definition salvage_plan_assignments_of (now_ms : N) (p : VersionedPlan) (session_id : string)
  : VersionedPlan * DeadMemberSalvage :=
  fold_left (salvage_step now_ms session_id) (map pi_id (List.filter (held_by session_id) (vp_items p)))
    (p, mkSalvage [] []).

Section Server.
Context {I : MapIter} (closed : N → bool) (now now_ms : N).

(** ** Event channels *)

(** A send to a channel whose receiver is gone fails and is ignored. *)
Definition send (chan : N) (event : ServerEvent) : list Effect := if closed chan then [] else [Send chan event].

Definition register_session_event_sender (session_id connection_id : string) (event_tx : N) (s : SwarmState)
  : SwarmState :=
  alter_member (λ m, set_channels event_tx (<[connection_id := event_tx]> (sm_event_txs m)) m) session_id s.

Definition first_channel (fallback : N) (txs : gmap string N) : N :=
  match map_iter txs with (_, tx) :: _ => tx | [] => fallback end.

Definition unregister_session_event_sender (session_id connection_id : string) (s : SwarmState) : SwarmState :=
  alter_member (λ m, let txs := delete connection_id (sm_event_txs m) in
                     set_channels (first_channel (sm_event_tx m) txs) txs m) session_id s.

Definition open_channels (txs : gmap string N) : gmap string N := filter (λ kv, closed kv.2 = false) txs.

Definition fanout_session_event (session_id : string) (event : ServerEvent) (s : SwarmState)
  : SwarmState * list Effect :=
  match ss_members s !! session_id with
  | None => (s, [])
  | Some m =>
      let txs := open_channels (sm_event_txs m) in
      let m' := set_channels (first_channel (sm_event_tx m) txs) txs m in
      let targets := match (map_iter txs).*2 with [] => [sm_event_tx m] | l => l end in
      (set_ss_members (<[session_id := m']> (ss_members s)) s, mjoin ((λ tx, send tx event) <$> targets))
  end.

(** ** Broadcasting the plan *)

Definition plan_participants (swarm_id : string) (p : VersionedPlan) (s : SwarmState) : list string :=
  match sort_strings (elements (vp_participants p)) with
  | [] => sort_strings (elements (default ∅ (ss_swarms s !! swarm_id)))
  | l => l
  end.

(** The summary of the plan that goes with it is a function of the plan and is
    left out of the event. *)
Definition broadcast_swarm_plan (swarm_id : string) (reason : option string) (s : SwarmState) : list Effect :=
  match ss_plans s !! swarm_id with
  | None => []
  | Some p =>
      let participants := plan_participants swarm_id p s in
      let event := EvSwarmPlan swarm_id (vp_version p) (vp_items p) participants reason in
      mjoin ((λ sid, match ss_members s !! sid with Some m => send (sm_event_tx m) event | None => [] end)
               <$> participants)
  end.

Definition send_swarm_plan_to_session (session_id : string) (s : SwarmState) : list Effect :=
  match ss_members s !! session_id with
  | None => []
  | Some m =>
      match sm_swarm_id m with
      | None => []
      | Some swarm_id =>
          match ss_plans s !! swarm_id with
          | None => []
          | Some p =>
              if bool_decide (vp_items p = []) then []
              else send (sm_event_tx m)
                     (EvSwarmPlan swarm_id (vp_version p) (vp_items p) (sort_strings (elements (vp_participants p)))
                        (Some "reconnect"))
          end
      end
  end.

(** ** A worker died *)

(** [&session_id[..8.min(session_id.len())]], on ids of one byte per character. *)
Definition short_id (session_id : string) : string := str_take 8 session_id.

Definition notify_coordinator_of_salvage (session_id swarm_id : string) (o : DeadMemberSalvage) (s : SwarmState)
  : SwarmState * list Effect :=
  match ss_coordinators s !! swarm_id with
  | None => (s, [])
  | Some coordinator_id =>
      if bool_decide (coordinator_id = session_id) then (s, [])
      else
        let label := default (short_id session_id) (ss_members s !! session_id ≫= sm_friendly_name) in
        fanout_session_event coordinator_id
          (EvNotification session_id (Some label) "swarm" None (describe o label)) s
  end.

Definition salvage_assignments_of_dead_member (session_id swarm_id : string) (s : SwarmState)
  : SwarmState * list Effect :=
  match ss_plans s !! swarm_id with
  | None => (s, [])
  | Some p =>
      let '(p, o) := salvage_plan_assignments_of now_ms p session_id in
      let s := set_ss_plans (<[swarm_id := p]> (ss_plans s)) s in
      if salvage_is_empty o then (s, [])
      else
        let plan_effects := broadcast_swarm_plan swarm_id (Some "task_salvaged_dead_worker") s in
        let '(s, note_effects) := notify_coordinator_of_salvage session_id swarm_id o s in
        (s, [Persist swarm_id] ++ plan_effects ++ note_effects)
  end.

(** ** Heartbeats *)

Definition touch_progress (assigned detail checkpoint : option string) (t : SwarmTaskProgress) : SwarmTaskProgress :=
  mkProgress (match assigned with Some _ => assigned | None => tp_assigned_session_id t end)
    (tp_assignment_summary t) (tp_assigned_at_unix_ms t) (tp_started_at_unix_ms t) (Some now_ms)
    (match detail with Some d => Some (truncate_detail d 120) | None => tp_last_detail t end)
    (match checkpoint with Some _ => Some now_ms | None => tp_last_checkpoint_unix_ms t end)
    (match checkpoint with Some c => Some (truncate_detail c 120) | None => tp_checkpoint_summary t end)
    (tp_completed_at_unix_ms t) (tp_stale_since_unix_ms t) (count_up (tp_heartbeat_count t))
    (match checkpoint with Some _ => count_up (tp_checkpoint_count t) | None => tp_checkpoint_count t end)
    (tp_no_artifact_requeues t) (tp_dead_assignee_reclaims t).

Definition touch_plan (task_id : string) (assigned detail checkpoint : option string) (p : VersionedPlan)
  : option (bool * VersionedPlan) :=
  match find_item p task_id with
  | None => None
  | Some item =>
      let p := set_progress (update_progress task_id (touch_progress assigned detail checkpoint)
                               (vp_task_progress p)) p in
      if bool_decide (pi_status item = "running_stale") then
        Some (true, bump_version
                      (set_progress (update_progress task_id (set_stale_since None) (vp_task_progress p))
                         (set_items (update_item task_id (set_item_status "running") (vp_items p)) p)))
      else Some (false, p)
  end.

Definition touch_swarm_task_progress (swarm_id task_id : string) (assigned detail checkpoint : option string)
  (s : SwarmState) : bool * SwarmState * list Effect :=
  match ss_plans s !! swarm_id with
  | None => (false, s, [])
  | Some p =>
      match touch_plan task_id assigned detail checkpoint p with
      | None => (false, s, [])
      | Some (revived, p') =>
          let owner := vp_task_progress p' !! task_id ≫= tp_assigned_session_id in
          (revived, set_ss_plans (<[swarm_id := p']> (ss_plans s)) s,
           (match owner with Some o => [Activity o] | None => [] end) ++ [Persist swarm_id])
      end
  end.

(** ** The staleness sweep *)

Definition last_heartbeat (t : SwarmTaskProgress) : option N :=
  match tp_last_heartbeat_unix_ms t with
  | Some h => Some h
  | None => match tp_started_at_unix_ms t with Some h => Some h | None => tp_assigned_at_unix_ms t end
  end.

Definition progress_is_stale (stale_after : N) (t : SwarmTaskProgress) : bool :=
  match last_heartbeat t with Some ts => (stale_after <=? now_ms - ts)%N | None => true end.

(** One item: its new form, the progress table, the version, whether it changed. *)
Definition sweep_item (stale_after : N) (acc : list PlanItem * gmap string SwarmTaskProgress * N * bool)
  (i : PlanItem) : list PlanItem * gmap string SwarmTaskProgress * N * bool :=
  let '(out, progress, version, changed) := acc in
  if negb (is_active_status (pi_status i)) then (out ++ [i], progress, version, changed)
  else
    let t := default progress_default (progress !! pi_id i) in
    let stale := progress_is_stale stale_after t in
    if bool_decide (pi_status i = "running") && stale then
      (out ++ [set_item_status "running_stale" i],
       <[pi_id i := set_stale_since (Some (default now_ms (tp_stale_since_unix_ms t))) t]> progress,
       u64_succ version, true)
    else if bool_decide (pi_status i = "running_stale") && negb stale then
      (out ++ [set_item_status "running" i], <[pi_id i := set_stale_since None t]> progress, u64_succ version, true)
    else (out ++ [i], <[pi_id i := t]> progress, version, changed).

Definition sweep_plan (stale_after : N) (p : VersionedPlan) : bool * VersionedPlan :=
  let '(items, progress, version, changed) :=
    fold_left (sweep_item stale_after) (vp_items p) ([], vp_task_progress p, vp_version p, false) in
  (changed, mkPlan items version (vp_participants p) progress (vp_mode p) (vp_node_meta p)).

Definition sweepable : string → bool := is_one_of ["running"; "running_stale"; "queued"].

Definition item_assignee (p : VersionedPlan) (i : PlanItem) : option string :=
  match pi_assigned_to i with
  | Some a => Some a
  | None => vp_task_progress p !! pi_id i ≫= tp_assigned_session_id
  end.

Definition assignee_is_dead (grace : N) (members : gmap string SwarmMember) (assignee : string) : bool :=
  match members !! assignee with
  | None => true
  | Some m => member_status_is_dead (sm_status m) && (grace <=? elapsed now (sm_last_status_change m))%N
  end.

Definition dead_assignees (grace : N) (members : gmap string SwarmMember) (p : VersionedPlan) : list string :=
  omap (λ i, if sweepable (pi_status i) then
               match item_assignee p i with
               | Some a => if assignee_is_dead grace members a then Some a else None
               | None => None
               end
             else None) (vp_items p).

(** The pairs of the [BTreeSet]: by swarm, then by session. *)
Definition salvage_candidates (grace : N) (s : SwarmState) : list (string * string) :=
  mjoin ((λ swarm_id, (λ a, (swarm_id, a)) <$> btree_set (default [] (dead_assignees grace (ss_members s)
                                                                      <$> ss_plans s !! swarm_id)))
           <$> sort_strings (elements (dom (ss_plans s)))).

Definition salvage_all (pairs : list (string * string)) (s : SwarmState) : SwarmState * list Effect :=
  fold_left (λ acc pair, let '(s, effects) := acc in
                         let '(s, more) := salvage_assignments_of_dead_member pair.2 pair.1 s in
                         (s, effects ++ more)) pairs (s, []).

Definition refresh_swarm_task_staleness (stale_after : N) (s : SwarmState) : SwarmState * list Effect :=
  let swept := sweep_plan stale_after <$> ss_plans s in
  let s := set_ss_plans (snd <$> swept) s in
  let changed := (List.filter (λ kv, kv.2.1) (map_iter swept)).*1 in
  let effects := mjoin ((λ swarm_id, Persist swarm_id
                           :: broadcast_swarm_plan swarm_id (Some "task_staleness_changed") s) <$> changed) in
  let '(s, more) := salvage_all (salvage_candidates stale_after s) s in
  (s, effects ++ more).

(** ** Participants and labels *)

Definition rename_plan_participant (swarm_id old_session_id new_session_id : string) (s : SwarmState) : SwarmState :=
  alter_plan (rename_session old_session_id new_session_id) swarm_id s.
Definition remove_participant (session_id : string) (p : VersionedPlan) : VersionedPlan :=
  set_participants (vp_participants p ∖ {[session_id]}) p.
Definition remove_plan_participant (swarm_id session_id : string) (s : SwarmState) : SwarmState :=
  alter_plan (remove_participant session_id) swarm_id s.

Definition set_member_task_label (session_id task_text : string) (s : SwarmState) : SwarmState :=
  match derive_swarm_task_label task_text with
  | None => s
  | Some label => alter_member (set_task_label (Some label)) session_id s
  end.

(** ** Removing a session *)

Definition leave_swarm (session_id swarm_id : string) (s : SwarmState) : SwarmState :=
  match ss_swarms s !! swarm_id with
  | None => s
  | Some swarm =>
      let swarm := swarm ∖ {[session_id]} in
      set_ss_swarms (if bool_decide (swarm = ∅) then delete swarm_id (ss_swarms s)
                     else <[swarm_id := swarm]> (ss_swarms s)) s
  end.

(** The least session of the swarm that is a member and not headless. *)
Definition next_coordinator (swarm_id : string) (s : SwarmState) : option string :=
  head (sort_strings (List.filter (λ id, match ss_members s !! id with
                                         | Some m => negb (sm_is_headless m)
                                         | None => false
                                         end) (elements (default ∅ (ss_swarms s !! swarm_id))))).

Definition elect_coordinator (swarm_id : string) (s : SwarmState) : SwarmState * list Effect :=
  match next_coordinator swarm_id s with
  | None => (set_ss_coordinators (delete swarm_id (ss_coordinators s)) s, [])
  | Some new_id =>
      let s := set_ss_coordinators (<[swarm_id := new_id]> (ss_coordinators s)) s in
      let s := alter_member (set_member_role "coordinator") new_id s in
      let s := alter_plan (insert_participant new_id) swarm_id s in
      (s, match ss_members s !! new_id with
          | Some m => send (sm_event_tx m)
                        (EvNotification new_id (sm_friendly_name m) "swarm" None
                           "You are now the coordinator for this swarm.")
          | None => []
          end)
  end.

Definition fallback_parent (session_id swarm_id : string) (departing_parent : option string) (s : SwarmState)
  : option string :=
  let grandparent_is_live :=
    match departing_parent with
    | Some parent =>
        negb (bool_decide (parent = session_id))
        && match ss_members s !! parent with
           | Some m => bool_decide (sm_swarm_id m = Some swarm_id)
           | None => false
           end
    | None => false
    end in
  if grandparent_is_live then departing_parent
  else match ss_coordinators s !! swarm_id with
       | Some c => if bool_decide (c = session_id) then None else Some c
       | None => None
       end.

Definition reparent_member (session_id swarm_id : string) (fallback : option string) (m : SwarmMember) : SwarmMember :=
  if bool_decide (sm_swarm_id m = Some swarm_id) && bool_decide (sm_report_back m = Some session_id)
  then set_report_back (match fallback with
                        | Some p => if bool_decide (p = sm_session_id m) then None else Some p
                        | None => None
                        end) m
  else m.

Definition remove_session_from_swarm (session_id swarm_id : string) (s : SwarmState) : SwarmState * list Effect :=
  let departing_parent := ss_members s !! session_id ≫= sm_report_back in
  let '(s, salvage_effects) := salvage_assignments_of_dead_member session_id swarm_id s in
  let s := remove_plan_participant swarm_id session_id s in
  let s := leave_swarm session_id swarm_id s in
  let was_coordinator := bool_decide (ss_coordinators s !! swarm_id = Some session_id) in
  let '(s, elect_effects) := if was_coordinator then elect_coordinator swarm_id s else (s, []) in
  let s := alter_member (set_member_role "agent") session_id s in
  let fallback := fallback_parent session_id swarm_id departing_parent s in
  let s := set_ss_members (reparent_member session_id swarm_id fallback <$> ss_members s) s in
  (s, salvage_effects ++ elect_effects
      ++ [if bool_decide (is_Some (ss_plans s !! swarm_id)) then Persist swarm_id else RemovePersisted swarm_id;
          BroadcastStatus swarm_id]).

(** ** Status updates *)

Definition is_busy_status : string → bool := is_one_of ["running"; "streaming"; "thinking"].
Definition ends_output : string → bool := is_one_of ["ready"; "completed"; "done"; "failed"; "crashed"; "stopped"].

Definition update_runtime (old_status status : string) (m : SwarmMember) : SwarmMemberRuntime :=
  let r := sm_runtime m in
  let elapsed_secs :=
    if bool_decide (old_status = status) then rt_elapsed_secs r
    else if is_busy_status status then None
    else if is_busy_status old_status then Some (elapsed now (sm_joined_at m) / 1000)%N
    else rt_elapsed_secs r in
  mkRuntime (rt_model r) (rt_provider r) (rt_auth_method r) (rt_effort r) elapsed_secs.

Definition update_status_of (status : string) (detail report : option string) (m : SwarmMember) : SwarmMember :=
  mkSwarmMember (sm_session_id m) (sm_event_tx m) (sm_event_txs m) (sm_working_dir m) (sm_swarm_id m)
    (sm_swarm_enabled m) status detail (sm_task_label m) (sm_friendly_name m) (sm_report_back m)
    (match report with Some _ => report | None => sm_completion_report m end) (sm_role m) (sm_joined_at m)
    (if bool_decide (sm_status m = status) then sm_last_status_change m else now) (sm_is_headless m)
    (if ends_output status then None else sm_output_tail m) (sm_todo_progress m)
    (update_runtime (sm_status m) status m).

Definition should_notify (old_status status : string) (report_back : option string) : bool :=
  negb (bool_decide (old_status = status))
  && (bool_decide (status = "completed")
      || (bool_decide (is_Some report_back) && bool_decide (old_status = "running")
          && is_one_of ["ready"; "failed"; "stopped"] status)
      || (bool_decide (status = "crashed") && is_one_of ["running"; "running_stale"; "queued"] old_status)).

Definition other_coordinator (swarm_id session_id : string) (members : gmap string SwarmMember) : option string :=
  sm_session_id <$> find_first (λ m, bool_decide (sm_swarm_id m = Some swarm_id)
                                     && bool_decide (sm_role m = "coordinator")
                                     && negb (bool_decide (sm_session_id m = session_id))) (member_values members).

Definition status_recipient (swarm_id session_id : string) (report_back : option string)
  (members : gmap string SwarmMember) : option string :=
  match report_back with
  | Some owner => if bool_decide (owner = session_id) then None else Some owner
  | None => other_coordinator swarm_id session_id members
  end.

(** [record] says whether the caller passed the three event sinks. *)
Definition update_member_status_with_report_tldr (session_id status : string) (detail report tldr : option string)
  (record : bool) (s : SwarmState) : SwarmState * list Effect :=
  let report := normalize_completion_report report in
  match ss_members s !! session_id with
  | None => (s, [])
  | Some m =>
      let status_changed := negb (bool_decide (sm_status m = status)) in
      let member_changed := status_changed || negb (bool_decide (sm_detail m = detail))
                            || (bool_decide (is_Some report) && negb (bool_decide (sm_completion_report m = report))) in
      let s := set_ss_members (<[session_id := update_status_of status detail report m]> (ss_members s)) s in
      match sm_swarm_id m with
      | None => (s, [])
      | Some swarm_id =>
          if negb member_changed then (s, [])
          else
            let recorded := if status_changed && record
                            then [Record_event session_id (sm_friendly_name m) (Some swarm_id)
                                    (SeStatusChange (sm_status m) status)] else [] in
            let '(s, notified) :=
              if should_notify (sm_status m) status (sm_report_back m) then
                match status_recipient swarm_id session_id (sm_report_back m) (ss_members s) with
                | Some recipient =>
                    let name := default (short_id session_id) (sm_friendly_name m) in
                    fanout_session_event recipient
                      (EvNotification session_id (sm_friendly_name m) "swarm" tldr
                         (completion_notification_message name status report)) s
                | None => (s, [])
                end
              else (s, []) in
            (s, recorded ++ [BroadcastStatus swarm_id] ++ notified)
      end
  end.

Definition update_member_status_with_report (session_id status : string) (detail report : option string)
  (record : bool) (s : SwarmState) : SwarmState * list Effect :=
  update_member_status_with_report_tldr session_id status detail report None record s.
Definition update_member_status (session_id status : string) (detail : option string) (record : bool)
  (s : SwarmState) : SwarmState * list Effect :=
  update_member_status_with_report session_id status detail None record s.
End Server.

(** ** The event history *)

Definition MAX_EVENT_HISTORY : nat := 5000.

(** [record_swarm_event]: the identifier counts up and the oldest event leaves
    a full history. *)
Definition push_event {E} (counter : N) (history : list (N * E)) (e : E) : N * list (N * E) :=
  let history := history ++ [(counter, e)] in
  (u64_succ counter, if MAX_EVENT_HISTORY <? length history then tail history else history).

(** ** Debounced status broadcasts

    [broadcast_swarm_status] in a swarm above the threshold: the entry of the
    swarm in the table of pending broadcasts, and the task that sleeps, sends
    the current members and looks at the entry again.  [db_changes] counts the
    calls, [db_sent] how many of them the last message reflects. *)
Record PendingBroadcast := mkPending { pb_scheduled : bool; pb_dirty : bool }.

Inductive Sender := Sleeping | Sent.

Record Debounce := mkDebounce {
  db_entry : option PendingBroadcast;
  db_tasks : list Sender;
  db_changes : nat;
  db_sent : nat }.

Definition debounce_init : Debounce := mkDebounce None [] 0 0.

Definition request_broadcast (d : Debounce) : Debounce :=
  let entry := default (mkPending false false) (db_entry d) in
  if pb_scheduled entry then
    mkDebounce (Some (mkPending true true)) (db_tasks d) (S (db_changes d)) (db_sent d)
  else mkDebounce (Some (mkPending true false)) (db_tasks d ++ [Sleeping]) (S (db_changes d)) (db_sent d).

(** One atomic step of the [i]-th task: after the sleep it sends; after sending
    it takes the table's lock and goes on or leaves. *)
Definition task_step (i : nat) (d : Debounce) : option Debounce :=
  match db_tasks d !! i with
  | Some Sleeping => Some (mkDebounce (db_entry d) (<[i := Sent]> (db_tasks d)) (db_changes d) (db_changes d))
  | Some Sent =>
      match db_entry d with
      | None => Some (mkDebounce None (delete i (db_tasks d)) (db_changes d) (db_sent d))
      | Some e =>
          if pb_dirty e then
            Some (mkDebounce (Some (mkPending (pb_scheduled e) false)) (<[i := Sleeping]> (db_tasks d))
                    (db_changes d) (db_sent d))
          else Some (mkDebounce None (delete i (db_tasks d)) (db_changes d) (db_sent d))
      end
  | None => None
  end.
