(* ===== verification/SwarmServerClaims.v ===== *)
(** * Properties of the swarm server

    Ownership in the spawn tree, what the removal of a session leaves behind,
    the staleness sweep, status notifications and debounced broadcasts. *)

From stdpp Require Import base list strings gmap relations sorting.
From S2P Require Import Prelude RustString Dag Plan PlanClaims Bridge Swarm SwarmServer.

Open Scope string_scope.
Open Scope nat_scope.
Open Scope list_scope.

(** ** Facts about the swarm server

    The spawn tree is the reflexive transitive closure of the report-back
    edges; salvage as a map over the items of a plan; the debounced
    broadcasts. *)

(** ** The spawn tree *)

Definition spawned_by (members : gmap string SwarmMember) (s parent : string) : Prop :=
  parent_of members s = Some parent.

Lemma parent_of_dom members s p : parent_of members s = Some p → s ∈ dom members.
Proof.
  unfold parent_of. destruct (members !! s) eqn:E; [|done]. intros _. apply elem_of_dom. by eexists.
Qed.

Lemma ancestors_sound fuel members visited cur x :
  x ∈ ancestors_loop fuel members visited cur → rtc (spawned_by members) cur x ∧ x ∉ visited.
Proof.
  revert visited cur. induction fuel as [|fuel IH]; intros visited cur; simpl; [by intros ?%elem_of_nil|].
  destruct (parent_of members cur) as [p|] eqn:E; [|by intros ?%elem_of_nil].
  destruct (_ || _) eqn:Ev; [by intros ?%elem_of_nil|]. bool_hyps.
  intros [->|Hx]%elem_of_cons.
  - split; [|done]. by apply rtc_once.
  - apply IH in Hx as [Hr Hn]. split; [|set_solver]. by eapply rtc_l.
Qed.

Lemma ancestors_NoDup fuel members visited cur : NoDup (ancestors_loop fuel members visited cur).
Proof.
  revert visited cur. induction fuel as [|fuel IH]; intros visited cur; simpl; [constructor|].
  destruct (parent_of members cur) as [p|]; [|constructor]. destruct (_ || _); [constructor|].
  constructor; [|apply IH]. intros Hx%ancestors_sound. set_solver.
Qed.

Lemma visited_bound (members : gmap string SwarmMember) (visited : list string) cur :
  NoDup visited → (∀ v, v ∈ visited → v ≠ cur → v ∈ dom members) → length visited ≤ S (size members).
Proof.
  intros Hnd Hin. rewrite <- (size_list_to_set (C := gset string)) by done.
  etrans; [apply (subseteq_size _ ({[cur]} ∪ dom members))|].
  - intros v Hv%elem_of_list_to_set. destruct (decide (v = cur)); set_solver.
  - rewrite size_union_alt, size_singleton. apply le_n_S.
    rewrite <- (size_dom members). apply subseteq_size. set_solver.
Qed.

(** What the loop has seen is closed under the parent edge. *)
Lemma ancestors_closed fuel members visited cur :
  NoDup visited → cur ∈ visited →
  (∀ v, v ∈ visited → v ≠ cur → ∃ p, parent_of members v = Some p ∧ p ∈ visited) →
  size members + 2 ≤ fuel + length visited →
  ∀ v p, v ∈ visited ∨ v ∈ ancestors_loop fuel members visited cur → parent_of members v = Some p →
         p ∈ visited ∨ p ∈ ancestors_loop fuel members visited cur.
Proof.
  revert visited cur. induction fuel as [|fuel IH]; intros visited cur Hnd Hcur Hinv Hlen v p Hv Hp.
  - exfalso. assert (length visited ≤ S (size members)); [|lia].
    apply (visited_bound _ _ cur); [done|]. intros w Hw Hne.
    destruct (Hinv w Hw Hne) as (q & Hq & _). by eapply parent_of_dom.
  - simpl in *. destruct (parent_of members cur) as [q|] eqn:Eq; simpl in *.
    + destruct (_ || _) eqn:Ev.
      * destruct Hv as [Hv|Hv%elem_of_nil]; [|done]. left.
        destruct (decide (v = cur)) as [->|Hne]; [|naive_solver].
        assert (p = q) as -> by congruence. apply orb_true_iff in Ev as [Ev|Ev]; bool_hyps; by subst.
      * bool_hyps.
        assert (v ∈ q :: visited ∨ v ∈ ancestors_loop fuel members (q :: visited) q) as Hv'.
        { destruct Hv as [Hv|[->|Hv]%elem_of_cons]; [left; by right|left; left|by right]. }
        destruct (IH (q :: visited) q) with (v := v) (p := p) as [[->|Hin]%elem_of_cons|Hin]; try done.
        -- by constructor.
        -- left.
        -- intros w [->|Hw]%elem_of_cons Hne; [done|].
           destruct (decide (w = cur)) as [->|Hwc]; [exists q; split; [done|left]|].
           destruct (Hinv w Hw Hwc) as (r & Hr & Hrv). exists r. split; [done|by right].
        -- simpl. lia.
        -- right. left.
        -- by left.
        -- right. by right.
    + destruct Hv as [Hv|Hv%elem_of_nil]; [|done]. left.
      destruct (decide (v = cur)) as [->|Hne]; [congruence|naive_solver].
Qed.

Lemma ancestors_complete members start x :
  rtc (spawned_by members) start x → x = start ∨ x ∈ swarm_ancestors members start.
Proof.
  assert (∀ v p, (v = start ∨ v ∈ swarm_ancestors members start) → parent_of members v = Some p →
                 p = start ∨ p ∈ swarm_ancestors members start) as Hcl.
  { intros v p Hv Hp.
    destruct (ancestors_closed (S (size members)) members [start] start) with (v := v) (p := p); try done; try set_solver.
    - repeat constructor. set_solver.
    - simpl. lia. }
  intros Hr. cut (∀ v, rtc (spawned_by members) v x → (v = start ∨ v ∈ swarm_ancestors members start) →
                       x = start ∨ x ∈ swarm_ancestors members start); [eauto|].
  clear Hr. induction 1 as [v|v p y Hp _ IH]; [done|]. intros Hv. by apply IH, (Hcl v).
Qed.

Lemma is_self_or_ancestor_iff members a s :
  swarm_is_self_or_ancestor members a s = true ↔ rtc (spawned_by members) s a.
Proof.
  unfold swarm_is_self_or_ancestor. rewrite orb_true_iff, bool_decide_eq_true, existsb_exists. split.
  - intros [->|(x & Hx & ->%String.eqb_eq)]; [done|]. by apply list_elem_of_In, ancestors_sound in Hx as [? _].
  - intros [->|Hx]%ancestors_complete; [by left|right].
    exists a. split; [by apply list_elem_of_In|apply String.eqb_refl].
Qed.

(** ** Debounced broadcasts *)

Inductive debounce_step : Debounce → Debounce → Prop :=
| ds_request d : debounce_step d (request_broadcast d)
| ds_task i d d' : task_step i d = Some d' → debounce_step d d'.

(** At most one task, and what it and the entry stand for. *)
Definition debounce_ok (d : Debounce) : Prop :=
  match db_tasks d, db_entry d with
  | [], None => db_sent d = db_changes d
  | [Sleeping], Some e => pb_scheduled e = true
  | [Sent], Some e => pb_scheduled e = true ∧ (pb_dirty e = false → db_sent d = db_changes d)
  | _, _ => False
  end.

Lemma debounce_step_ok d d' : debounce_ok d → debounce_step d d' → debounce_ok d'.
Proof.
  intros Hok Hst. destruct Hst as [[entry tasks changes sent]|i [entry tasks changes sent] d' Hs].
  - destruct tasks as [|[] [|]], entry as [[[] []]|]; unfold debounce_ok in *; simpl in *; try done; naive_solver.
  - unfold task_step in Hs. destruct tasks as [|[] [|]], entry as [[[] []]|]; unfold debounce_ok in *; simpl in *;
      try done; destruct i; simpl in *; naive_solver.
Qed.

Lemma debounce_reachable_ok d : rtc debounce_step debounce_init d → debounce_ok d.
Proof. revert d. apply rtc_ind_r; [done|]. intros d d' _ Hs Hok. by eapply debounce_step_ok. Qed.

(** ** Items and progress *)

Lemma update_item_map id f items :
  NoDup (map pi_id items) →
  update_item id f items = (λ i, if decide (pi_id i = id) then f i else i) <$> items.
Proof.
  unfold update_item. induction items as [|i items IH]; simpl; [done|]. intros [Hni Hnd]%NoDup_cons.
  case_bool_decide as Hid.
  - rewrite decide_True by done. f_equal. symmetry. rewrite <- (list_fmap_id items) at 2.
    apply list_fmap_ext. intros k j Hj. apply decide_False. intros Hj'. apply Hni.
    rewrite Hid, <- Hj'. apply list_elem_of_fmap. exists j. split; [done|]. by eapply list_elem_of_lookup_2.
  - rewrite decide_False by done. f_equal. by apply IH.
Qed.

Lemma item_map_ids (f : PlanItem → PlanItem) items :
  (∀ i, pi_id (f i) = pi_id i) → map pi_id (f <$> items) = map pi_id items.
Proof. intros Hf. rewrite <- list_fmap_compose. apply list_fmap_ext. intros ? j _. apply Hf. Qed.

Lemma reclaims_update p id f v :
  (∀ t, tp_dead_assignee_reclaims (f t) = tp_dead_assignee_reclaims t) →
  reclaims (set_progress (update_progress id f (vp_task_progress p)) p) v = reclaims p v.
Proof.
  intros Hf. unfold reclaims, update_progress. simpl. destruct (decide (v = id)) as [->|Hne].
  - rewrite lookup_insert_eq. simpl. rewrite Hf. by destruct (vp_task_progress p !! id).
  - by rewrite lookup_insert_ne.
Qed.

(** ** Salvage *)

Definition capped (p : VersionedPlan) (id : string) : bool := (MAX_DEAD_ASSIGNEE_RECLAIMS <=? reclaims p id)%N.

(** What becomes of an item whose worker died. *)
Definition released (failed : bool) (i : PlanItem) : PlanItem :=
  set_item_assignee None (set_item_status (if failed then "failed" else "queued") i).

Definition same_rest (p p' : VersionedPlan) : Prop :=
  vp_participants p' = vp_participants p ∧ vp_mode p' = vp_mode p ∧ vp_node_meta p' = vp_node_meta p.

Lemma salvage_step_spec now_ms session p o id i :
  NoDup (map pi_id (vp_items p)) → find_item p id = Some i → pi_assigned_to i = Some session →
  ∃ p', salvage_step now_ms session (p, o) id
        = (p', if capped p id then mkSalvage (requeued_task_ids o) (failed_task_ids o ++ [id])
               else mkSalvage (requeued_task_ids o ++ [id]) (failed_task_ids o))
  ∧ vp_items p' = (λ j, if decide (pi_id j = id) then released (capped p id) j else j) <$> vp_items p
  ∧ (∀ v, reclaims p' v = if bool_decide (v = id) && negb (capped p id) then u32_succ (reclaims p v) else reclaims p v)
  ∧ same_rest p p'.
Proof.
  intros Hnd Hi Ha. unfold salvage_step. fold (capped p id). destruct (capped p id).
  - eexists. split_and!; [done|..]; simpl.
    + by rewrite update_item_map.
    + intros v. rewrite andb_false_r. apply (reclaims_update p). done.
    + done.
  - destruct (reclaim_stranded_assignment id p) as [[] p1] eqn:Hr;
      pose proof Hr as Hr'; unfold reclaim_stranded_assignment in Hr; rewrite Hi, Ha in Hr; [|done].
    eexists. split_and!; [done|..].
    + injection Hr as <-. simpl. fold (update_item id clear_assignee (vp_items p)).
      rewrite (update_item_map id clear_assignee) by done. rewrite update_item_map.
      * rewrite <- list_fmap_compose. apply list_fmap_ext. intros k j _. simpl.
        destruct (decide (pi_id j = id)) as [E|E]; simpl; [by rewrite decide_True|by rewrite decide_False].
      * rewrite item_map_ids; [done|]. intros j. by destruct (decide _).
    + intros v. rewrite andb_true_r. unfold requeue_reclaimed.
      rewrite <- (decide_bool_decide (v = id)), <- (reclaim_reclaims id p p1 v Hr').
      apply (reclaims_update p1). done.
    + by injection Hr as <-.
Qed.

Lemma find_item_ids p id : NoDup (map pi_id (vp_items p)) → id ∈ map pi_id (vp_items p) →
  ∃ i, i ∈ vp_items p ∧ pi_id i = id ∧ find_item p id = Some i.
Proof.
  intros Hnd (i & -> & Hi)%list_elem_of_fmap. exists i. split_and!; [done..|]. by apply find_item_of.
Qed.

Lemma salvage_fold now_ms session L p o :
  NoDup (map pi_id (vp_items p)) → NoDup L →
  (∀ i, i ∈ vp_items p → pi_id i ∈ L → pi_assigned_to i = Some session) →
  (∀ id, id ∈ L → id ∈ map pi_id (vp_items p)) →
  let r := fold_left (salvage_step now_ms session) L (p, o) in
  vp_items r.1 = (λ i, if decide (pi_id i ∈ L) then released (capped p (pi_id i)) i else i) <$> vp_items p
  ∧ requeued_task_ids r.2 = requeued_task_ids o ++ List.filter (λ id, negb (capped p id)) L
  ∧ failed_task_ids r.2 = failed_task_ids o ++ List.filter (capped p) L
  ∧ (∀ v, reclaims r.1 v
          = if bool_decide (v ∈ L) && negb (capped p v) then u32_succ (reclaims p v) else reclaims p v)
  ∧ same_rest p r.1.
Proof.
  revert p o. induction L as [|id L IH]; intros p o Hnd HndL Hheld Hin; cbn [fold_left List.filter].
  - simpl. rewrite !app_nil_r. split_and!; try done. symmetry. rewrite <- (list_fmap_id (vp_items p)) at 2.
    by apply list_fmap_ext.
  - apply NoDup_cons in HndL as [Hni HndL].
    destruct (find_item_ids p id Hnd) as (i & Hi & Hid & Hfind); [apply Hin; left|].
    destruct (salvage_step_spec now_ms session p o id i) as (p' & -> & Hitems & Hrec & Hr1 & Hr2 & Hr3);
      [done..|apply Hheld; [done|rewrite Hid; left]|].
    assert (map pi_id (vp_items p') = map pi_id (vp_items p)) as Hids.
    { rewrite Hitems. apply item_map_ids. intros j. by destruct (decide _). }
    assert (∀ v, v ∈ L → capped p' v = capped p v) as Hcap.
    { intros v Hv. unfold capped. rewrite Hrec. rewrite bool_decide_eq_false_2; [done|]. intros ->. done. }
    destruct (IH p' (if capped p id then mkSalvage (requeued_task_ids o) (failed_task_ids o ++ [id])
               else mkSalvage (requeued_task_ids o ++ [id]) (failed_task_ids o)))
      as (H1 & H2 & H3 & H4 & H5 & H6 & H7); [by rewrite Hids|done|..].
    { intros j Hj Hjl. rewrite Hitems in Hj. apply list_elem_of_fmap in Hj as (k & -> & Hk).
      destruct (decide (pi_id k = id)) as [E|E]; [simpl in Hjl; congruence|]. apply Hheld; [done|by right]. }
    { intros v Hv. rewrite Hids. apply Hin. by right. }
    assert (∀ f, List.filter (λ v, f (capped p' v)) L = List.filter (λ v, f (capped p v)) L) as Hfil.
    { intros f. apply filter_ext_in. intros v Hv%list_elem_of_In. by rewrite Hcap. }
    split_and!.
    + rewrite H1, Hitems, <- list_fmap_compose. apply list_fmap_ext. intros k j _. simpl.
      destruct (decide (pi_id j = id)) as [E|E]; simpl.
      * rewrite decide_False by congruence. rewrite decide_True by (rewrite E; left). by rewrite E.
      * destruct (decide (pi_id j ∈ L)) as [Hj|Hj].
        -- rewrite decide_True by (by right). by rewrite Hcap.
        -- rewrite decide_False; [done|]. by intros [?|?]%elem_of_cons.
    + rewrite H2, (Hfil negb). destruct (capped p id); simpl; [done|]. by rewrite <- app_assoc.
    + rewrite H3. rewrite (Hfil (λ b, b) : List.filter (capped p') L = List.filter (capped p) L). destruct (capped p id); simpl; [by rewrite <- app_assoc|done].
    + intros v. rewrite H4, Hrec. destruct (decide (v = id)) as [->|Hne].
      * rewrite (bool_decide_eq_false_2 (id ∈ L)) by done. rewrite !bool_decide_eq_true_2 by (try done; left). done.
      * rewrite (bool_decide_eq_false_2 (v = id)) by done. simpl.
        assert (bool_decide (v ∈ L) = bool_decide (v ∈ id :: L)) as <-.
        { apply bool_decide_ext. rewrite elem_of_cons. naive_solver. }
        destruct (bool_decide (v ∈ L)) eqn:Ev; [|done]. bool_hyps. by rewrite Hcap.
    + unfold same_rest. split_and!; congruence.
Qed.

(** Salvage, item by item. *)
Definition salvage_item (p : VersionedPlan) (session : string) (i : PlanItem) : PlanItem :=
  if held_by session i then released (capped p (pi_id i)) i else i.

Lemma salvage_items now_ms p session :
  NoDup (map pi_id (vp_items p)) →
  let r := salvage_plan_assignments_of now_ms p session in
  let held := map pi_id (List.filter (held_by session) (vp_items p)) in
  vp_items r.1 = salvage_item p session <$> vp_items p
  ∧ requeued_task_ids r.2 = List.filter (λ id, negb (capped p id)) held
  ∧ failed_task_ids r.2 = List.filter (capped p) held
  ∧ (∀ v, reclaims r.1 v
          = if bool_decide (v ∈ held) && negb (capped p v) then u32_succ (reclaims p v) else reclaims p v)
  ∧ same_rest p r.1.
Proof.
  intros Hnd r held.
  assert (∀ i, i ∈ vp_items p → pi_id i ∈ held ↔ held_by session i = true) as Hheld.
  { intros i Hi. unfold held. split.
    - intros (j & Hj & [Hj' Hh]%elem_of_List_filter)%list_elem_of_fmap.
      by rewrite (item_unique (vp_items p) i j).
    - intros Hh. apply list_elem_of_fmap. exists i. split; [done|]. by apply elem_of_List_filter. }
  destruct (salvage_fold now_ms session held p (mkSalvage [] [])) as (H1 & H2 & H3 & H4 & H5); try done.
  - unfold held. clear -Hnd. induction (vp_items p) as [|i l IH]; simpl; [constructor|].
    apply NoDup_cons in Hnd as [Hni Hnd]. destruct (held_by session i); [|by apply IH].
    constructor; [|by apply IH]. intros (j & Hj & [Hjl _]%elem_of_List_filter)%list_elem_of_fmap.
    apply Hni. rewrite Hj. by apply (list_elem_of_fmap_2 pi_id).
  - intros i Hi Hh%(Hheld i Hi). unfold held_by in Hh. by bool_hyps.
  - intros id (i & -> & [Hi _]%elem_of_List_filter)%list_elem_of_fmap. by apply (list_elem_of_fmap_2 pi_id).
  - split_and!; try done; [|apply H5..]. unfold r, salvage_plan_assignments_of. fold held. rewrite H1.
    apply list_fmap_ext. intros k i Hi%list_elem_of_lookup_2. unfold salvage_item.
    pose proof (Hheld i Hi) as Hiff. destruct (held_by session i); [rewrite decide_True; naive_solver|].
    rewrite decide_False; naive_solver.
Qed.

(** Nothing is left with the dead worker. *)
Lemma salvage_releases now_ms p session :
  NoDup (map pi_id (vp_items p)) →
  Forall (λ i, held_by session i = false) (vp_items (salvage_plan_assignments_of now_ms p session).1).
Proof.
  intros Hnd. destruct (salvage_items now_ms p session Hnd) as (-> & _). apply Forall_fmap, Forall_true.
  intros i. simpl. unfold salvage_item. by destruct (held_by session i) eqn:E.
Qed.

(** ** Salvage when ids repeat

    The server finds a task by its id, the first one that has it. *)

Lemma find_item_updated id id' f items :
  (∀ i, pi_id (f i) = pi_id i) →
  find_first (λ i, bool_decide (pi_id i = id)) (update_item id' f items)
  = if decide (id = id') then f <$> find_first (λ i, bool_decide (pi_id i = id)) items
    else find_first (λ i, bool_decide (pi_id i = id)) items.
Proof.
  intros Hf. unfold update_item. destruct (decide (id = id')) as [->|Hne].
  - apply find_first_update. intros i. by rewrite Hf.
  - apply find_first_update_ne. intros i Hi%bool_decide_eq_true_1. rewrite Hf, Hi. by rewrite bool_decide_eq_false_2.
Qed.

(** The task found under an id has no assignee. *)
Definition freed (p : VersionedPlan) (id : string) : Prop := ∀ i, find_item p id = Some i → pi_assigned_to i = None.

Lemma salvage_step_found now_ms session p o id :
  let p' := (salvage_step now_ms session (p, o) id).1 in
  freed p' id ∧ ∀ v, v ≠ id → find_item p' v = find_item p v.
Proof.
  unfold salvage_step, freed, find_item. destruct (_ <=? _)%N.
  - unfold fail_capped. cbn [fst vp_items set_progress set_items bump_version]. split; [|intros v Hv; rewrite find_item_updated by done; by rewrite decide_False].
    intros i. rewrite find_item_updated, decide_True by done. by intros (j & _ & ->)%fmap_Some.
  - unfold reclaim_stranded_assignment, find_item.
    destruct (find_first (λ i, bool_decide (pi_id i = id)) (vp_items p)) as [i|] eqn:E; [|split; [cbn [fst]; intros i; by rewrite E|done]].
    destruct (pi_assigned_to i) eqn:Ea; [|split; [cbn [fst]; intros j; rewrite E; by intros [= <-]|done]].
    unfold requeue_reclaimed. cbn [fst vp_items set_progress set_items]. fold (update_item id clear_assignee (vp_items p)).
    split; [|intros v Hv; rewrite find_item_updated, find_item_updated by done; by rewrite !decide_False].
    intros j. rewrite !find_item_updated, !decide_True by done. by intros (x & (y & _ & ->)%fmap_Some & ->)%fmap_Some.
Qed.

Lemma salvage_fold_found now_ms session L p o :
  let p' := (fold_left (salvage_step now_ms session) L (p, o)).1 in
  ∀ id, freed p' id ∨ id ∉ L ∧ find_item p' id = find_item p id.
Proof.
  revert p o. induction L as [|x L IH]; intros p o; cbn [fold_left].
  - intros id. right. split; [apply not_elem_of_nil|done].
  - pose proof (salvage_step_found now_ms session p o x) as [Hx Hne].
    destruct (salvage_step now_ms session (p, o) x) as [p1 o1]. cbn [fst] in *. intros id.
    destruct (IH p1 o1 id) as [Hf|[Hni Hfi]]; [by left|]. destruct (decide (id = x)) as [->|Hix].
    + left. unfold freed. by rewrite Hfi.
    + right. split; [by intros [?|?]%elem_of_cons|]. by rewrite Hfi, Hne.
Qed.

(** No task that can be found is left with the dead worker; another one is
    found as before or has been released. *)
Lemma salvage_found now_ms p session id i :
  find_item (salvage_plan_assignments_of now_ms p session).1 id = Some i →
  held_by session i = false ∧ (pi_assigned_to i = None ∨ find_item p id = Some i).
Proof.
  intros Hi. unfold salvage_plan_assignments_of in Hi.
  destruct (salvage_fold_found now_ms session (map pi_id (List.filter (held_by session) (vp_items p))) p (mkSalvage [] []) id)
    as [Hf|[Hni Hfi]].
  - pose proof (Hf i Hi) as Ha. split; [unfold held_by; by rewrite Ha|by left].
  - rewrite Hfi in Hi. split; [|by right]. destruct (held_by session i) eqn:E; [|done]. destruct Hni.
    apply find_item_Some in Hi as [Hi Hid]. apply list_elem_of_fmap. exists i. split; [done|]. by apply elem_of_List_filter.
Qed.

Lemma found_all p (P : PlanItem → Prop) :
  NoDup (map pi_id (vp_items p)) → (∀ id i, find_item p id = Some i → P i) → Forall P (vp_items p).
Proof. intros Hnd H. apply Forall_forall. intros i Hi. by eapply H, find_item_of. Qed.

Lemma salvage_ids now_ms p session :
  NoDup (map pi_id (vp_items p)) →
  map pi_id (vp_items (salvage_plan_assignments_of now_ms p session).1) = map pi_id (vp_items p).
Proof.
  intros Hnd. destruct (salvage_items now_ms p session Hnd) as (-> & _). apply item_map_ids.
  intros i. unfold salvage_item. by destruct (held_by session i).
Qed.

(** Ownership of a spawned subtree.  A session may manage another exactly
    when it is that session or one of its spawners, direct or not, also when
    the report-back edges form a cycle; the list of ancestors is finite, has no
    repetitions and never contains the session itself. *)
Theorem spawn_tree_ownership (members : gmap string SwarmMember) (a s : string) :
  (swarm_is_self_or_ancestor members a s = true ↔ rtc (spawned_by members) s a)
  ∧ NoDup (swarm_ancestors members s) ∧ s ∉ swarm_ancestors members s
  ∧ (∀ x, x ∈ swarm_ancestors members s → tc (spawned_by members) s x).
Proof.
  split_and!; [apply is_self_or_ancestor_iff|apply ancestors_NoDup|..].
  - intros [_ Hn]%ancestors_sound. apply Hn. left.
  - intros x [[->|(y & Hy & Hr)]%rtc_inv Hn]%ancestors_sound; [destruct Hn; left|]. by eapply tc_rtc_r; [apply tc_once|].
Qed.

(** ** Members up to their channels *)

Definition core (m : SwarmMember) : SwarmMember := set_channels 0%N ∅ m.

Definition same_core (s s' : SwarmState) : Prop := core <$> ss_members s' = core <$> ss_members s.

Lemma same_core_lookup s s' k m' :
  same_core s s' → ss_members s' !! k = Some m' → ∃ m, ss_members s !! k = Some m ∧ core m' = core m.
Proof.
  intros Hc Hk. assert ((core <$> ss_members s) !! k = Some (core m')) as H.
  { rewrite <- Hc, lookup_fmap, Hk. done. }
  rewrite lookup_fmap in H. destruct (ss_members s !! k) as [m|]; [|done].
  exists m. split; [done|]. symmetry. by apply (inj Some).
Qed.

Lemma same_core_sym s s' : same_core s s' → same_core s' s.
Proof. unfold same_core. congruence. Qed.

Lemma core_fields m m' : core m = core m' →
  sm_session_id m = sm_session_id m' ∧ sm_swarm_id m = sm_swarm_id m' ∧ sm_status m = sm_status m'
  ∧ sm_report_back m = sm_report_back m' ∧ sm_last_status_change m = sm_last_status_change m'
  ∧ sm_is_headless m = sm_is_headless m' ∧ sm_role m = sm_role m'.
Proof. destruct m, m'. unfold core, set_channels. simpl. intros H. injection H as. subst. by split_and!. Qed.

Section Claims.
Context {I : MapIter} (closed : N → bool) (now now_ms : N).

Lemma fanout_core session ev s :
  let r := fanout_session_event closed session ev s in
  same_core s r.1 ∧ ss_plans r.1 = ss_plans s ∧ ss_swarms r.1 = ss_swarms s ∧ ss_coordinators r.1 = ss_coordinators s.
Proof.
  unfold fanout_session_event. destruct (ss_members s !! session) as [m|] eqn:E; [|done]. simpl. split_and!; try done.
  unfold same_core. simpl. rewrite fmap_insert. apply map_eq. intros k. destruct (decide (k = session)) as [->|Hne].
  - rewrite lookup_insert_eq, lookup_fmap, E. done.
  - by rewrite lookup_insert_ne.
Qed.

Lemma salvage_member_state session swarm s :
  let r := salvage_assignments_of_dead_member closed now_ms session swarm s in
  same_core s r.1 ∧ ss_swarms r.1 = ss_swarms s ∧ ss_coordinators r.1 = ss_coordinators s
  ∧ ss_plans r.1 = alter (λ p, (salvage_plan_assignments_of now_ms p session).1) swarm (ss_plans s).
Proof.
  unfold salvage_assignments_of_dead_member. destruct (ss_plans s !! swarm) as [p|] eqn:E.
  - destruct (salvage_plan_assignments_of now_ms p session) as [p' o] eqn:Es.
    assert (<[swarm := p']> (ss_plans s)
            = alter (λ p, (salvage_plan_assignments_of now_ms p session).1) swarm (ss_plans s)) as Hp.
    { apply map_eq. intros k. destruct (decide (k = swarm)) as [->|Hne].
      - rewrite lookup_insert_eq, lookup_alter_eq, E. simpl. by rewrite Es.
      - by rewrite lookup_insert_ne, lookup_alter_ne. }
    destruct (salvage_is_empty o); [by simpl; rewrite Hp|].
    unfold notify_coordinator_of_salvage. simpl.
    destruct (ss_coordinators s !! swarm) as [c|]; [|by simpl; rewrite Hp].
    destruct (bool_decide (c = session)); [by simpl; rewrite Hp|].
    match goal with |- context [fanout_session_event ?cl ?a ?b ?d] =>
      pose proof (fanout_core a b d) as (H1 & H2 & H3 & H4); destruct (fanout_session_event cl a b d) as [s1 e1] end.
    simpl in *. split_and!; try done. by rewrite H2.
  - simpl. split_and!; try done. symmetry. apply alter_id. intros x Hx. congruence.
Qed.

(** ** Election *)

Definition eligible (swarm : string) (s : SwarmState) (id : string) : Prop :=
  id ∈ default ∅ (ss_swarms s !! swarm) ∧ ∃ m, ss_members s !! id = Some m ∧ sm_is_headless m = false.

Lemma next_coordinator_spec swarm s :
  match next_coordinator swarm s with
  | Some c => eligible swarm s c ∧ ∀ d, eligible swarm s d → String.leb c d = true
  | None => ∀ d, ¬ eligible swarm s d
  end.
Proof.
  unfold next_coordinator.
  match goal with |- context [head (sort_strings ?l)] => set (L := l) end.
  assert (∀ d, d ∈ sort_strings L ↔ eligible swarm s d) as HL.
  { intros d. rewrite elem_of_sort_strings. unfold L. rewrite elem_of_List_filter, elem_of_elements.
    unfold eligible. destruct (ss_members s !! d) as [m|]; [|naive_solver].
    rewrite negb_true_iff. naive_solver. }
  pose proof (sort_strings_sorted L) as Hs. destruct (sort_strings L) as [|c l]; simpl.
  - intros d Hd%HL. by apply elem_of_nil in Hd.
  - split; [apply HL; left|]. intros d [->|Hd]%HL%elem_of_cons.
    + destruct (String.leb_total c c); done.
    + apply StronglySorted_inv in Hs as [_ Hf]. by eapply Forall_forall in Hf.
Qed.

Lemma elect_state swarm s :
  let r := elect_coordinator closed swarm s in
  ss_swarms r.1 = ss_swarms s
  ∧ ss_coordinators r.1 !! swarm = next_coordinator swarm s
  ∧ (∀ k m', ss_members r.1 !! k = Some m' →
             ∃ m, ss_members s !! k = Some m ∧ sm_swarm_id m' = sm_swarm_id m ∧ sm_report_back m' = sm_report_back m)
  ∧ ss_plans r.1 = match next_coordinator swarm s with
                   | Some c => alter (insert_participant c) swarm (ss_plans s) | None => ss_plans s end.
Proof.
  unfold elect_coordinator. destruct (next_coordinator swarm s) as [c|]; simpl.
  - split_and!; try done; [apply lookup_insert_eq|]. intros k m' Hk.
    destruct (decide (k = c)) as [->|Hne].
    + rewrite lookup_alter_eq in Hk. destruct (ss_members s !! c) as [m|]; [|done]. exists m. naive_solver.
    + rewrite lookup_alter_ne in Hk by done. by exists m'.
  - split_and!; try done; [apply lookup_delete_eq|]. intros k m' Hk. by exists m'.
Qed.

(** ** Removing a session *)

Lemma fallback_not_session session swarm dp s : fallback_parent session swarm dp s ≠ Some session.
Proof.
  unfold fallback_parent. destruct dp as [p|]; simpl.
  - destruct (negb _ && _) eqn:E; bool_hyps; [congruence|]. break; bool_hyps; congruence.
  - break; bool_hyps; congruence.
Qed.

Lemma reparented session swarm fallback m :
  fallback ≠ Some session → sm_swarm_id (reparent_member session swarm fallback m) = Some swarm →
  sm_report_back (reparent_member session swarm fallback m) ≠ Some session.
Proof.
  unfold reparent_member. intros Hf. destruct (_ && _) eqn:E; simpl.
  - intros _. destruct fallback as [p|]; [|done]. clear E. case_bool_decide; congruence.
  - intros Hs Hr. rewrite Hs, Hr, !bool_decide_eq_true_2 in E; done.
Qed.

Lemma leave_swarm_spec session swarm s :
  session ∉ default ∅ (ss_swarms (leave_swarm session swarm s) !! swarm)
  ∧ default ∅ (ss_swarms (leave_swarm session swarm s) !! swarm) = default ∅ (ss_swarms s !! swarm) ∖ {[session]}
  ∧ ss_members (leave_swarm session swarm s) = ss_members s ∧ ss_plans (leave_swarm session swarm s) = ss_plans s
  ∧ ss_coordinators (leave_swarm session swarm s) = ss_coordinators s.
Proof.
  assert (default ∅ (ss_swarms (leave_swarm session swarm s) !! swarm) = default ∅ (ss_swarms s !! swarm) ∖ {[session]})
    as H; [|rewrite H; split_and!; [set_solver|done|unfold leave_swarm; by destruct (ss_swarms s !! swarm)..]].
  unfold leave_swarm. destruct (ss_swarms s !! swarm) as [w|] eqn:E; simpl.
  - case_bool_decide as Hw; [by rewrite lookup_delete_eq, Hw|by rewrite lookup_insert_eq].
  - rewrite E. simpl. set_solver.
Qed.

(** The state after the election, before roles and edges are rewritten. *)
Definition after_leaving (session swarm : string) (s : SwarmState) : SwarmState :=
  leave_swarm session swarm
    (remove_plan_participant swarm session (salvage_assignments_of_dead_member closed now_ms session swarm s).1).
Definition after_election (session swarm : string) (s : SwarmState) : SwarmState :=
  if bool_decide (ss_coordinators (after_leaving session swarm s) !! swarm = Some session)
  then (elect_coordinator closed swarm (after_leaving session swarm s)).1 else after_leaving session swarm s.

Lemma remove_session_state session swarm s :
  ∃ fallback, fallback ≠ Some session ∧
  let s' := (remove_session_from_swarm closed now_ms session swarm s).1 in
  ss_members s' = reparent_member session swarm fallback
                    <$> alter (set_member_role "agent") session (ss_members (after_election session swarm s))
  ∧ ss_swarms s' = ss_swarms (after_election session swarm s)
  ∧ ss_plans s' = ss_plans (after_election session swarm s)
  ∧ ss_coordinators s' = ss_coordinators (after_election session swarm s).
Proof.
  unfold remove_session_from_swarm, after_election, after_leaving.
  destruct (salvage_assignments_of_dead_member closed now_ms session swarm s) as [s1 e1]. simpl.
  match goal with |- context [elect_coordinator closed swarm ?t] => set (t0 := t) end.
  destruct (bool_decide _); [destruct (elect_coordinator closed swarm t0) as [s2 e2]|]; simpl;
    (eexists; split; [apply fallback_not_session|by split_and!]).
Qed.

Lemma after_leaving_state session swarm s :
  same_core s (after_leaving session swarm s)
  ∧ ss_coordinators (after_leaving session swarm s) = ss_coordinators s
  ∧ default ∅ (ss_swarms (after_leaving session swarm s) !! swarm) = default ∅ (ss_swarms s !! swarm) ∖ {[session]}
  ∧ ss_plans (after_leaving session swarm s) !! swarm
    = (λ p, remove_participant session (salvage_plan_assignments_of now_ms p session).1) <$> ss_plans s !! swarm.
Proof.
  unfold after_leaving. destruct (salvage_member_state session swarm s) as (H1 & H2 & H3 & H4).
  destruct (salvage_assignments_of_dead_member closed now_ms session swarm s) as [s1 e1]. simpl in *.
  match goal with |- context [leave_swarm session swarm ?t] => destruct (leave_swarm_spec session swarm t) as (_ & L2 & L3 & L4 & L5) end.
  split_and!; [unfold same_core; by rewrite L3|by rewrite L5|by rewrite L2; simpl; rewrite H2|].
  rewrite L4. simpl. rewrite H4, lookup_alter_eq, lookup_alter_eq. by destruct (ss_plans s !! swarm).
Qed.

(** C8: Removing a session.  Afterwards no member of the swarm reports back to
    it, and it is neither coordinator nor member nor participant.  No unfinished
    task that the server finds by its id is assigned to it: that is every task
    when the plan's ids are distinct, which approvals do not enforce, and the
    first one of each id otherwise (lemma [repeated_id_releases_the_wrong_task]
    shows what can become of the rest).  When it was the coordinator, its successor is
    the least remaining member that is attached to a client, and is a participant
    of the plan; without one the swarm has no coordinator.  Otherwise the
    coordinator stays. *)
Theorem removal_leaves_no_reference (session swarm : string) (s : SwarmState) :
  let s' := (remove_session_from_swarm closed now_ms session swarm s).1 in
  (∀ k m, ss_members s' !! k = Some m → sm_swarm_id m = Some swarm → sm_report_back m ≠ Some session)
  ∧ session ∉ default ∅ (ss_swarms s' !! swarm)
  ∧ (∀ p, ss_plans s' !! swarm = Some p →
       session ∉ vp_participants p ∧ (∀ id i, find_item p id = Some i → held_by session i = false)
       ∧ (NoDup (map pi_id (vp_items p)) → Forall (λ i, held_by session i = false) (vp_items p)))
  ∧ (if bool_decide (ss_coordinators s !! swarm = Some session)
     then match ss_coordinators s' !! swarm with
          | Some c => c ≠ session ∧ eligible swarm s c ∧ (∀ d, d ≠ session → eligible swarm s d → String.leb c d = true)
                      ∧ (∀ p, ss_plans s' !! swarm = Some p → c ∈ vp_participants p)
          | None => ∀ d, eligible swarm s d → d = session
          end
     else ss_coordinators s' !! swarm = ss_coordinators s !! swarm).
Proof.
  intros s'. destruct (remove_session_state session swarm s) as (fb & Hfb & Hm & Hsw & Hp & Hc).
  destruct (after_leaving_state session swarm s) as (L1 & L2 & L3 & L4). fold s' in Hm, Hsw, Hp, Hc.
  set (t := after_leaving session swarm s) in *.
  assert (∀ d, eligible swarm t d ↔ d ≠ session ∧ eligible swarm s d) as Hel.
  { intros d. unfold eligible. rewrite L3, elem_of_difference, elem_of_singleton. split.
    - intros [[Hd Hne] (m & Hl & Hh)]. destruct (same_core_lookup s t d m L1 Hl) as (m0 & Hm0 & Hco).
      apply core_fields in Hco as (_ & _ & _ & _ & _ & Hh' & _). split_and!; [done..|]. exists m0. split; [done|congruence].
    - intros [Hne [Hd (m & Hl & Hh)]]. destruct (same_core_lookup t s d m (same_core_sym _ _ L1) Hl) as (m0 & Hm0 & Hco).
      apply core_fields in Hco as (_ & _ & _ & _ & _ & Hh' & _). split_and!; [done..|]. exists m0. split; [done|congruence]. }
  assert (ss_swarms s' = ss_swarms t) as Hsw'.
  { rewrite Hsw. unfold after_election. destruct (bool_decide _); [apply (elect_state swarm)|done]. }
  pose proof (elect_state swarm t) as (_ & E2 & _ & E4). pose proof (next_coordinator_spec swarm t) as Hn.
  assert (∀ p, ss_plans t !! swarm = Some p →
    session ∉ vp_participants p ∧ ∀ id i, find_item p id = Some i → held_by session i = false) as Ht.
  { intros p Hpt. rewrite L4 in Hpt. apply fmap_Some in Hpt as (p0 & Hp0 & ->). simpl. split; [clear; set_solver|].
    intros id i Hi. by apply (salvage_found now_ms p0 session id i) in Hi as [? _]. }
  assert (∀ p, ss_plans s' !! swarm = Some p →
    session ∉ vp_participants p ∧ ∀ id i, find_item p id = Some i → held_by session i = false) as Hs'.
  { intros p. rewrite Hp. unfold after_election. fold t. destruct (bool_decide _); [|apply Ht]. rewrite E4.
    destruct (next_coordinator swarm t) as [c|]; [|apply Ht]. rewrite lookup_alter_eq.
    intros (p0 & Hp0 & ->)%fmap_Some. simpl. destruct (Ht p0 Hp0) as [Hpa Hit]. split; [|exact Hit].
    destruct Hn as [[Hcs _]%Hel _]. clear -Hcs Hpa; set_solver. }
  split_and!.
  - intros k m Hk Hs. rewrite Hm, lookup_fmap in Hk. apply fmap_Some in Hk as (m0 & _ & ->). by apply reparented.
  - rewrite Hsw', L3. clear; set_solver.
  - intros p (Hpa & Hit)%Hs'. split_and!; [done..|]. intros Hnd. by apply found_all.
  - rewrite <- L2. rewrite Hc, Hp. unfold after_election. fold t. destruct (bool_decide _) eqn:Eb; [|done].
    rewrite E2, E4. destruct (next_coordinator swarm t) as [c|].
    + destruct Hn as [[Hcs Hce]%Hel Hmin]. split_and!; [done..| |].
      * intros d Hd1 Hd2. apply Hmin, Hel. done.
      * intros p. rewrite lookup_alter_eq. intros (p0 & _ & ->)%fmap_Some. simpl. clear; set_solver.
    + intros d Hd. destruct (decide (d = session)); [done|]. exfalso. by apply (Hn d), Hel.
Qed.

(** ** The staleness sweep *)

(** What the first phase makes of an item. *)
Definition swept_item (stale_after : N) (progress : gmap string SwarmTaskProgress) (i : PlanItem) : PlanItem :=
  if is_active_status (pi_status i)
  then set_item_status (if progress_is_stale now_ms stale_after (default progress_default (progress !! pi_id i))
                        then "running_stale" else "running") i
  else i.

Definition same_beats (m m' : gmap string SwarmTaskProgress) : Prop :=
  ∀ k, last_heartbeat (default progress_default (m' !! k)) = last_heartbeat (default progress_default (m !! k))
       ∧ tp_assigned_session_id (default progress_default (m' !! k))
         = tp_assigned_session_id (default progress_default (m !! k)).

Lemma same_beats_insert m m' k t :
  same_beats m m' → last_heartbeat t = last_heartbeat (default progress_default (m' !! k)) →
  tp_assigned_session_id t = tp_assigned_session_id (default progress_default (m' !! k)) →
  same_beats m (<[k := t]> m').
Proof.
  intros H H1 H2 v. destruct (decide (v = k)) as [->|Hne].
  - rewrite lookup_insert_eq. simpl. rewrite H1, H2. apply H.
  - rewrite lookup_insert_ne by done. apply H.
Qed.

Lemma set_same_status i : set_item_status (pi_status i) i = i.
Proof. by destruct i. Qed.

Lemma active_cases s : is_active_status s = true → s = "running" ∨ s = "running_stale".
Proof. intros H%is_one_of_true. set_solver. Qed.

Lemma sweep_item_spec stale_after out m v c m0 i :
  same_beats m0 m →
  ∃ m' v' c', sweep_item now_ms stale_after (out, m, v, c) i = (out ++ [swept_item stale_after m0 i], m', v', c')
              ∧ same_beats m0 m'.
Proof.
  intros Hb. unfold sweep_item, swept_item.
  destruct (is_active_status (pi_status i)) eqn:Ea; simpl; [|by eexists _, _, _].
  assert (progress_is_stale now_ms stale_after (default progress_default (m !! pi_id i))
          = progress_is_stale now_ms stale_after (default progress_default (m0 !! pi_id i))) as Hst.
  { unfold progress_is_stale. by destruct (Hb (pi_id i)) as [-> _]. }
  rewrite Hst. clear Hst. destruct (progress_is_stale _ _ _), (active_cases _ Ea) as [E|E]; rewrite E; simpl.
  - eexists _, _, _. split; [done|]. by apply same_beats_insert.
  - rewrite <- E, set_same_status. eexists _, _, _. split; [done|]. by apply same_beats_insert.
  - rewrite <- E, set_same_status. eexists _, _, _. split; [done|]. by apply same_beats_insert.
  - eexists _, _, _. split; [done|]. by apply same_beats_insert.
Qed.

Lemma sweep_plan_spec stale_after p :
  vp_items (sweep_plan now_ms stale_after p).2 = swept_item stale_after (vp_task_progress p) <$> vp_items p
  ∧ same_beats (vp_task_progress p) (vp_task_progress (sweep_plan now_ms stale_after p).2).
Proof.
  unfold sweep_plan.
  assert (∀ l out m v c, same_beats (vp_task_progress p) m → ∃ m' v' c',
    fold_left (sweep_item now_ms stale_after) l (out, m, v, c)
    = (out ++ (swept_item stale_after (vp_task_progress p) <$> l), m', v', c') ∧ same_beats (vp_task_progress p) m') as H.
  { induction l as [|i l IH]; intros out m v c Hb; cbn [fold_left].
    - rewrite app_nil_r. by eexists _, _, _.
    - destruct (sweep_item_spec stale_after out m v c (vp_task_progress p) i Hb) as (m1 & v1 & c1 & -> & Hb1).
      destruct (IH (out ++ [swept_item stale_after (vp_task_progress p) i]) m1 v1 c1 Hb1) as (m2 & v2 & c2 & -> & Hb2).
      eexists _, _, _. split; [by rewrite <- app_assoc|done]. }
  destruct (H (vp_items p) [] (vp_task_progress p) (vp_version p) false) as (m' & v' & c' & -> & Hb); [done|]. done.
Qed.

Lemma swept_ids stale_after p :
  map pi_id (vp_items (sweep_plan now_ms stale_after p).2) = map pi_id (vp_items p).
Proof.
  destruct (sweep_plan_spec stale_after p) as [-> _]. apply item_map_ids. intros i. unfold swept_item.
  by destruct (is_active_status _).
Qed.

(** An item that is kept, or taken from one of [sessions]. *)
Definition evolves (sessions : list string) (i i' : PlanItem) : Prop :=
  i' = i ∨ ∃ a b, a ∈ sessions ∧ held_by a i = true ∧ i' = released b i.

Definition salvage_each (sessions : list string) (p : VersionedPlan) : VersionedPlan :=
  fold_left (λ p a, (salvage_plan_assignments_of now_ms p a).1) sessions p.

Lemma released_not_held a b i : held_by a (released b i) = false.
Proof. done. Qed.

Lemma evolves_not_held a L i i' : evolves L i i' → held_by a i = false → held_by a i' = false.
Proof. by intros [->|(c & b & _ & _ & ->)]. Qed.

Lemma salvage_each_spec L p :
  NoDup (map pi_id (vp_items p)) →
  Forall2 (evolves L) (vp_items p) (vp_items (salvage_each L p))
  ∧ (∀ a, a ∈ L → Forall (λ i, held_by a i = false) (vp_items (salvage_each L p))).
Proof.
  revert p. induction L as [|a L IH]; intros p Hnd; cbn [salvage_each fold_left].
  - split; [|by intros a ?%elem_of_nil]. apply Forall2_same_length_lookup_2; [done|]. intros. left. congruence.
  - destruct (salvage_items now_ms p a Hnd) as (Hit & _).
    destruct (IH (salvage_plan_assignments_of now_ms p a).1) as [H1 H2]; [by rewrite salvage_ids|].
    unfold salvage_each in *. rewrite Hit in H1. split.
    + apply (Forall2_fmap_l (salvage_item p a)) in H1. eapply Forall2_impl; [exact H1|]. intros i i' He. unfold compose, salvage_item in He.
      destruct (held_by a i) eqn:Ea.
      * destruct He as [->|(c & b & _ & Hc & _)]; [|by rewrite released_not_held in Hc]. right. eexists a, _. split_and!; [left|done..].
      * destruct He as [->|(c & b & Hc & Hh & ->)]; [by left|]. right. exists c, b. split_and!; [by right|done..].
    + intros c [->|Hc]%elem_of_cons; [|by apply H2]. pose proof (salvage_releases now_ms p a Hnd) as Hr.
      rewrite Hit in Hr. apply Forall_lookup. intros k i' Hk.
      destruct (Forall2_lookup_r _ _ _ k i' H1 Hk) as (i & Hi & He).
      eapply evolves_not_held; [exact He|]. by eapply Forall_lookup in Hr.
Qed.

Lemma salvage_all_state pairs s :
  let r := salvage_all closed now_ms pairs s in
  same_core s r.1
  ∧ ∀ w, ss_plans r.1 !! w = salvage_each (map snd (List.filter (λ pr, String.eqb pr.1 w) pairs)) <$> ss_plans s !! w.
Proof.
  unfold salvage_all. generalize (@nil Effect). revert s.
  induction pairs as [|[w0 a] pairs IH]; intros s effects; cbn [fold_left List.filter map fst snd].
  - split; [done|]. intros w. simpl. by destruct (ss_plans s !! w).
  - destruct (salvage_member_state a w0 s) as (H1 & _ & _ & H4).
    destruct (salvage_assignments_of_dead_member closed now_ms a w0 s) as [s1 e1]. simpl in H1, H4.
    destruct (IH s1 (effects ++ e1)) as [I1 I2]. split; [unfold same_core in *; congruence|]. intros w.
    rewrite I2, H4. destruct (String.eqb_spec w0 w) as [->|Hne].
    + rewrite lookup_alter_eq. by destruct (ss_plans s !! w).
    + by rewrite lookup_alter_ne.
Qed.

Lemma sweepable_not_terminal st : sweepable st = true → is_terminal_status st = false.
Proof. intros H%is_one_of_true. repeat (apply elem_of_cons in H as [->|H]; [done|]). by apply elem_of_nil in H. Qed.

Lemma elem_of_candidates_of grace s w a :
  a ∈ map snd (List.filter (λ pr, String.eqb pr.1 w) (salvage_candidates now grace s))
  ↔ ∃ p, ss_plans s !! w = Some p ∧ a ∈ dead_assignees now grace (ss_members s) p.
Proof.
  unfold salvage_candidates. rewrite list_elem_of_fmap. split.
  - intros ([w' a'] & -> & [Hin E]%elem_of_List_filter). simpl in E. apply String.eqb_eq in E as ->.
    apply list_elem_of_join in Hin as (l & Hin & (w1 & -> & Hw1)%list_elem_of_fmap).
    apply list_elem_of_fmap in Hin as (a1 & [= -> ->] & Ha1). rewrite elem_of_btree_set in Ha1.
    destruct (ss_plans s !! w1) as [p|]; simpl in *; [by exists p|by apply elem_of_nil in Ha1].
  - intros (p & Hp & Ha). exists (w, a). split; [done|]. apply elem_of_List_filter. simpl.
    split; [|apply String.eqb_refl]. apply list_elem_of_join.
    eexists. split; [|apply list_elem_of_fmap; exists w; split; [done|]].
    + apply list_elem_of_fmap. exists a. split; [done|]. rewrite Hp. by apply elem_of_btree_set.
    + rewrite elem_of_sort_strings, elem_of_elements. apply elem_of_dom. by eexists.
Qed.

Lemma refresh_plans stale_after s w p :
  ss_plans s !! w = Some p →
  let s1 := set_ss_plans (snd <$> (sweep_plan now_ms stale_after <$> ss_plans s)) s in
  ss_plans (refresh_swarm_task_staleness closed now now_ms stale_after s).1 !! w
  = Some (salvage_each (map snd (List.filter (λ pr, String.eqb pr.1 w) (salvage_candidates now stale_after s1)))
            (sweep_plan now_ms stale_after p).2).
Proof.
  intros Hp s1. unfold refresh_swarm_task_staleness. fold s1.
  destruct (salvage_all_state (salvage_candidates now stale_after s1) s1) as [_ Hs].
  destruct (salvage_all closed now_ms _ s1) as [s2 e2]. simpl. rewrite Hs. unfold s1. simpl.
  by rewrite !lookup_fmap, Hp.
Qed.

(** The tasks that are found after the salvage of several sessions. *)
Lemma salvage_each_found L p id i :
  find_item (salvage_each L p) id = Some i →
  (∀ a, a ∈ L → held_by a i = false) ∧ (pi_assigned_to i = None ∨ find_item p id = Some i).
Proof.
  unfold salvage_each. revert p. induction L as [|a L IH]; intros p; cbn [fold_left].
  - intros Hi. split; [by intros a ?%not_elem_of_nil|by right].
  - intros (H1 & [H2|H2])%IH.
    + split; [|by left]. intros b _. unfold held_by. by rewrite H2.
    + apply salvage_found in H2 as [Ha Hf]. split; [|done]. intros b [->|Hb]%elem_of_cons; [done|by apply H1].
Qed.

(** C19: The staleness sweep.  Afterwards no running, stale or queued task that
    the server finds by its id is assigned to a session that is gone or has been
    dead for longer than the grace period.  When the plan's ids are distinct,
    which approvals do not enforce, that holds of every task, and a task whose
    assignee is alive (or that has none) keeps its assignee and everything else:
    only its running state is set, to stale exactly when its last heartbeat is too
    old.  Every member keeps its record, apart from its delivery channels, of
    which nothing is said. *)
Theorem sweep_spares_the_living (stale_after : N) (s : SwarmState) (w : string) (p : VersionedPlan) :
  ss_plans s !! w = Some p →
  let s' := (refresh_swarm_task_staleness closed now now_ms stale_after s).1 in
  ∃ p', ss_plans s' !! w = Some p'
  ∧ (∀ id i a, find_item p' id = Some i → sweepable (pi_status i) = true → pi_assigned_to i = Some a →
       assignee_is_dead now stale_after (ss_members s) a = false)
  ∧ (NoDup (map pi_id (vp_items p)) →
     (∀ k i, vp_items p !! k = Some i →
        (∀ a, pi_assigned_to i = Some a → assignee_is_dead now stale_after (ss_members s) a = false) →
        vp_items p' !! k = Some (swept_item stale_after (vp_task_progress p) i))
     ∧ (∀ i a, i ∈ vp_items p' → sweepable (pi_status i) = true → pi_assigned_to i = Some a →
          assignee_is_dead now stale_after (ss_members s) a = false))
  ∧ same_core s s'.
Proof.
  intros Hp s'. pose proof (refresh_plans stale_after s w p Hp) as Hr. simpl in Hr.
  set (s1 := set_ss_plans _ _) in Hr. set (L := map snd _) in Hr. set (p1 := (sweep_plan now_ms stale_after p).2) in *.
  assert (ss_plans s1 !! w = Some p1) as Hp1 by (unfold s1; simpl; by rewrite !lookup_fmap, Hp).
  assert (∀ a, a ∈ L ↔ a ∈ dead_assignees now stale_after (ss_members s) p1) as HL.
  { intros a. unfold L. rewrite elem_of_candidates_of. split; [|intros H; by exists p1].
    intros (q & Hq & Ha). by simplify_eq. }
  assert (∀ a, a ∈ L → assignee_is_dead now stale_after (ss_members s) a = true) as Hdead.
  { intros a Ha%HL. unfold dead_assignees in Ha. apply list_elem_of_omap in Ha as (i & _ & Hi).
    destruct (sweepable (pi_status i)); [|done]. destruct (item_assignee p1 i); [|done].
    destruct (assignee_is_dead _ _ _ s0) eqn:E; [|done]. by simplify_eq. }
  assert (∀ i a, i ∈ vp_items p1 → sweepable (pi_status i) = true → pi_assigned_to i = Some a →
    assignee_is_dead now stale_after (ss_members s) a = true → a ∈ L) as HinL.
  { intros i a Hi Hs Ha E. apply HL. unfold dead_assignees. apply list_elem_of_omap. exists i.
    split; [done|]. rewrite Hs. unfold item_assignee. by rewrite Ha, E. }
  assert (∀ i a, sweepable (pi_status i) = true → pi_assigned_to i = Some a → held_by a i = true) as Hheld.
  { intros i a Hs Ha. unfold held_by. rewrite Ha, bool_decide_eq_true_2, sweepable_not_terminal; done. }
  exists (salvage_each L p1). split_and!; [done|..].
  - intros id i a Hi Hs Ha. destruct (assignee_is_dead now stale_after (ss_members s) a) eqn:E; [|done]. exfalso.
    apply salvage_each_found in Hi as [Hfree [?|Hi]]; [congruence|]. apply find_item_Some in Hi as [Hi _].
    pose proof (Hfree a (HinL i a Hi Hs Ha E)) as Hf. by rewrite (Hheld i a Hs Ha) in Hf.
  - intros Hnd. destruct (sweep_plan_spec stale_after p) as [Hsw _]. fold p1 in Hsw.
    destruct (salvage_each_spec L p1) as [Hev Hfree]; [unfold p1; by rewrite swept_ids|]. split.
    + intros k i Hk Ha.
      assert (vp_items p1 !! k = Some (swept_item stale_after (vp_task_progress p) i)) as Hk1
        by (by rewrite Hsw, list_lookup_fmap, Hk).
      destruct (Forall2_lookup_l _ _ _ k _ Hev Hk1) as (i' & Hi' & [->|(a & b & Hain & Hh & _)]); [done|]. exfalso.
      unfold held_by in Hh. bool_hyps. assert (pi_assigned_to i = Some a) as Hai.
      { revert H. unfold swept_item. by destruct (is_active_status _). }
      pose proof (Hdead a Hain). rewrite (Ha a Hai) in *. done.
    + intros i a Hi Hs Ha. destruct (assignee_is_dead now stale_after (ss_members s) a) eqn:E; [|done]. exfalso.
      apply list_elem_of_lookup in Hi as [k Hk].
      destruct (Forall2_lookup_r _ _ _ k i Hev Hk) as (i1 & Hi1 & [->|(c & b & _ & _ & ->)]); [|done].
      pose proof (Hfree a (HinL i1 a (list_elem_of_lookup_2 _ _ _ Hi1) Hs Ha E)) as Hf.
      eapply Forall_lookup in Hf; [|exact Hk]. pose proof (Hheld i1 a Hs Ha). congruence.
  - unfold s', refresh_swarm_task_staleness. fold s1.
    destruct (salvage_all_state (salvage_candidates now stale_after s1) s1) as [Hc _].
    by destruct (salvage_all closed now_ms _ s1) as [s2 e2].
Qed.

(** ** Notifications *)

Lemma fanout_sends sid ev s m ef :
  ss_members s !! sid = Some m →
  ef ∈ (fanout_session_event closed sid ev s).2 ↔
  ∃ ch, ef = Send ch ev ∧ closed ch = false
        ∧ ((∃ c, sm_event_txs m !! c = Some ch) ∨ open_channels closed (sm_event_txs m) = ∅ ∧ ch = sm_event_tx m).
Proof.
  intros Hm. unfold fanout_session_event. rewrite Hm. simpl.
  set (txs := open_channels closed (sm_event_txs m)).
  assert (∀ ch, ch ∈ (map_iter txs).*2 ↔ (∃ c, sm_event_txs m !! c = Some ch) ∧ closed ch = false) as Hch.
  { intros ch. rewrite (map_iter_perm _ txs), list_elem_of_fmap. split.
    - intros ([c ch'] & -> & Hc%elem_of_map_to_list). unfold txs, open_channels in Hc.
      apply map_lookup_filter_Some in Hc as [Hc1 Hc2]. split; [by eexists|done].
    - intros [[c Hc] Ho]. exists (c, ch). split; [done|]. apply elem_of_map_to_list.
      apply map_lookup_filter_Some. done. }
  assert ((map_iter txs).*2 = [] ↔ txs = ∅) as Hnil.
  { split.
    - intros E%fmap_nil_inv. apply map_to_list_empty_iff, Permutation_nil_r. by rewrite <- map_iter_perm, E.
    - intros ->. assert (map_iter (∅ : gmap string N) = []) as ->; [|done].
      apply Permutation_nil_r. by rewrite map_iter_perm, map_to_list_empty. }
  assert (∀ l, ef ∈ mjoin ((λ tx, send closed tx ev) <$> l) ↔ ∃ ch, ch ∈ l ∧ ef = Send ch ev ∧ closed ch = false) as Hj.
  { intros l. rewrite list_elem_of_join. split.
    - intros (x & Hx & (ch & -> & Hc)%list_elem_of_fmap). unfold send in Hx.
      destruct (closed ch) eqn:Ec; [by apply elem_of_nil in Hx|]. apply list_elem_of_singleton in Hx. by exists ch.
    - intros (ch & Hc & -> & Ho). exists (send closed ch ev). split; [|by apply (list_elem_of_fmap_2 (λ tx, send closed tx ev))].
      unfold send. rewrite Ho. by apply list_elem_of_singleton. }
  destruct ((map_iter txs).*2) as [|x l] eqn:E.
  - rewrite Hj. split.
    + intros (ch & ->%list_elem_of_singleton & -> & Ho). eexists. split_and!; [done..|]. right. split; [|done]. by apply Hnil.
    + intros (ch & -> & Ho & [Hc|[_ ->]]); [|by exists (sm_event_tx m); split_and!; [left|..]].
      exfalso. assert (ch ∈ @nil N) as Hx; [|by apply elem_of_nil in Hx]. by apply Hch.
  - rewrite Hj. split.
    + intros (ch & Hc & -> & Ho). exists ch. split_and!; [done..|]. left. by apply Hch.
    + intros (ch & -> & Ho & [Hc|[Hn ->]]); [exists ch; split_and!; [by apply Hch|done..]|]. by apply Hnil in Hn.
Qed.

Lemma status_recipient_other swarm session rb members o :
  status_recipient swarm session rb members = Some o → o ≠ session.
Proof.
  unfold status_recipient, other_coordinator. destruct rb as [w|].
  - case_bool_decide; [done|]. by intros [= <-].
  - intros (m & [_ Hm]%find_first_Some & ->)%fmap_Some. by bool_hyps.
Qed.

(** The state in which the recipient is looked up. *)
Definition with_status (session status : string) (detail report : option string) (m : SwarmMember) (s : SwarmState)
  : SwarmState :=
  set_ss_members (<[session := update_status_of now status detail (normalize_completion_report report) m]>
                    (ss_members s)) s.

(** Worker ends are reported.  A status update that changes nothing sends
    nothing.  A notification only goes to the recipient (the session the worker
    reports to, else another member with the coordinator role), never to the
    worker itself, and reaches every open connection of it.  A running worker
    that becomes ready, completed, failed, stopped or crashed and reports to
    another session has that session as the recipient. *)
Theorem worker_end_is_reported (session status : string) (detail report tldr : option string) (record : bool)
    (s : SwarmState) (m : SwarmMember) (swarm : string) :
  ss_members s !! session = Some m → sm_swarm_id m = Some swarm →
  let effects := (update_member_status_with_report_tldr closed now session status detail report tldr record s).2 in
  let members := ss_members (with_status session status detail report m s) in
  let recipient := status_recipient swarm session (sm_report_back m) members in
  let note := EvNotification session (sm_friendly_name m) "swarm" tldr
                (completion_notification_message (default (short_id session) (sm_friendly_name m)) status
                   (normalize_completion_report report)) in
  (sm_status m = status → sm_detail m = detail → report = None → effects = [])
  ∧ (∀ ch ev, Send ch ev ∈ effects → ev = note ∧ closed ch = false ∧
       ∃ o mo, recipient = Some o ∧ o ≠ session ∧ members !! o = Some mo
               ∧ (ch = sm_event_tx mo ∨ ∃ c, sm_event_txs mo !! c = Some ch))
  ∧ (∀ o mo c ch, should_notify (sm_status m) status (sm_report_back m) = true → recipient = Some o →
       members !! o = Some mo → sm_event_txs mo !! c = Some ch → closed ch = false → Send ch note ∈ effects)
  ∧ (∀ o, sm_status m = "running" → status ∈ ["ready"; "completed"; "failed"; "stopped"; "crashed"] →
       sm_report_back m = Some o → o ≠ session →
       should_notify (sm_status m) status (sm_report_back m) = true ∧ recipient = Some o).
Proof.
  intros Hm Hsw effects members recipient note.
  set (s1 := with_status session status detail report m s) in *.
  assert (effects = if negb (negb (bool_decide (sm_status m = status)) || negb (bool_decide (sm_detail m = detail))
       || (bool_decide (is_Some (normalize_completion_report report))
           && negb (bool_decide (sm_completion_report m = normalize_completion_report report)))) then []
     else (if negb (bool_decide (sm_status m = status)) && record
           then [Record_event session (sm_friendly_name m) (Some swarm) (SeStatusChange (sm_status m) status)] else [])
          ++ [BroadcastStatus swarm]
          ++ (if should_notify (sm_status m) status (sm_report_back m) then
                match recipient with Some o => (fanout_session_event closed o note s1).2 | None => [] end else [])) as He.
  { unfold effects, update_member_status_with_report_tldr. rewrite Hm, Hsw. fold s1.
    change (set_ss_members (<[session := update_status_of now status detail (normalize_completion_report report) m]>
       (ss_members s)) s) with s1. fold members recipient note.
    destruct (negb _); [done|]. destruct (should_notify _ _ _); [|done]. destruct recipient as [o|]; [|done].
    by destruct (fanout_session_event closed o note s1). }
  split_and!.
  - intros H1 H2 H3. rewrite He, H3, (bool_decide_eq_true_2 _ H1), (bool_decide_eq_true_2 _ H2). done.
  - intros ch ev Hin. rewrite He in Hin. destruct (negb _) in Hin; [by apply elem_of_nil in Hin|].
    apply elem_of_app in Hin as [Hin|[Hin|Hin]%elem_of_app].
    + destruct (_ && record); [|by apply elem_of_nil in Hin]. by apply list_elem_of_singleton in Hin.
    + by apply list_elem_of_singleton in Hin.
    + destruct (should_notify _ _ _); [|by apply elem_of_nil in Hin].
      destruct recipient as [o|] eqn:Er; [|by apply elem_of_nil in Hin].
      destruct (members !! o) as [mo|] eqn:Eo; 
        [|unfold fanout_session_event in Hin; change (ss_members s1 !! o = None) in Eo; rewrite Eo in Hin;
          by apply elem_of_nil in Hin].
      apply (fanout_sends o note s1 mo) in Hin; [|done]. destruct Hin as (ch' & Hs & Ho & Hc).
      assert (ch = ch' ∧ ev = note) as [E1 E2] by (split; congruence). rewrite E1, E2. split_and!; [done..|].
      exists o, mo. split_and!; [done|by eapply status_recipient_other|done|]. naive_solver.
  - intros o mo c ch Hn Hr Hmo Hc Ho. rewrite He, Hn, Hr.
    destruct (bool_decide (sm_status m = status)) eqn:Est; [unfold should_notify in Hn; by rewrite Est in Hn|]. simpl.
    apply elem_of_app. right. apply elem_of_cons. right. apply (fanout_sends o note s1 mo); [done|].
    exists ch. split_and!; [done..|]. left. by exists c.
  - intros o Hst Hin Hrb Hne. unfold recipient, status_recipient, should_notify. rewrite Hrb, Hst.
    rewrite (bool_decide_eq_false_2 (o = session)) by done. split; [|done].
    rewrite (bool_decide_eq_true_2 (is_Some (Some o))) by (by eexists).
    repeat (apply elem_of_cons in Hin as [->|Hin]; [done|]). by apply elem_of_nil in Hin.
Qed.

(** C32: Debounced broadcasts.  Whatever the interleaving of calls and sender
    tasks, there is at most one sender task per swarm, and whenever there is
    none, the last message sent reflects every change; while there is one, it
    can take at most three steps until that is so. *)
Theorem debounced_broadcasts_converge (d : Debounce) :
  rtc debounce_step debounce_init d →
  length (db_tasks d) ≤ 1
  ∧ (db_tasks d = [] → db_sent d = db_changes d)
  ∧ ∃ n d', n ≤ 3 ∧ nsteps (λ x y, task_step 0 x = Some y) n d d' ∧ db_sent d' = db_changes d' ∧ db_changes d' = db_changes d.
Proof.
  intros Hok%debounce_reachable_ok. destruct d as [entry tasks changes sent]. unfold debounce_ok in Hok. simpl in *.
  destruct tasks as [|[] [|]], entry as [[sch dirty]|]; try done; (split_and!; [simpl; lia|done|]).
  - exists 0, (mkDebounce None [] changes sent). split_and!; [lia|constructor|done..].
  - eexists 1, _. split_and!; [lia|by eapply nsteps_once|done..].
  - destruct Hok as [_ Hd], dirty.
    + eexists 2, _. split_and!; [lia|eapply nsteps_l; [reflexivity|]; by eapply nsteps_once|done..].
    + exists 0, (mkDebounce (Some (mkPending sch false)) [Sent] changes sent).
      split_and!; [lia|constructor|by apply Hd|done].
Qed.

End Claims.

(** ** Examples *)

Definition demo_member (id : string) (parent : option string) (role status : string) (tx : N) : SwarmMember :=
  mkSwarmMember id tx {["conn" := tx]} None (Some "w") true status None None None parent None role 0 0 false None None
    runtime_default.

Definition demo_task (id status : string) (assignee : option string) : PlanItem :=
  mkItem "work" status "medium" id None [] [] assignee.

(** The coordinator [d] spawned [c], which spawned [a]; [c] and a session that
    is gone hold a task each. *)
Definition demo_swarm_plan : VersionedPlan :=
  mkPlan [demo_task "t1" "running" (Some "c"); demo_task "t2" "queued" (Some "gone")] 1 {["c"]} ∅ "light" ∅.
Definition demo_swarm : SwarmState :=
  mkState {["d" := demo_member "d" None "coordinator" "ready" 1; "c" := demo_member "c" (Some "d") "agent" "running" 2;
            "a" := demo_member "a" (Some "c") "agent" "ready" 3]}
    {["w" := {["d"; "c"; "a"]}]} {["w" := demo_swarm_plan]} {["w" := "d"]}.

Lemma demo_plan_ids p : ss_plans demo_swarm !! "w" = Some p → NoDup (map pi_id (vp_items p)).
Proof. intros Hp. vm_compute in Hp. injection Hp as <-. simpl. repeat constructor; set_solver. Defined.

Lemma removal_leaves_no_reference_witness :
  "c" ∉ default ∅ (ss_swarms (remove_session_from_swarm (I := keyed_iter) (λ _, false) 5 "c" "w" demo_swarm).1 !! "w").
Proof.
  destruct (removal_leaves_no_reference (I := keyed_iter) (λ _, false) 5 "c" "w" demo_swarm) as (_ & H & _).
  exact H.
Defined.

(** With a repeated id the first task is released in place of the dead worker's:
    a living worker loses its task and the dead one keeps the other. *)
Lemma repeated_id_releases_the_wrong_task :
  let p := set_items [demo_task "t1" "running" (Some "c"); demo_task "t1" "running" (Some "ghost")] demo_swarm_plan in
  vp_items (salvage_plan_assignments_of 5 p "ghost").1
  = [demo_task "t1" "queued" None; demo_task "t1" "running" (Some "ghost")].
Proof. reflexivity. Qed.

Lemma sweep_spares_the_living_witness :
  ∃ p', ss_plans (refresh_swarm_task_staleness (I := keyed_iter) (λ _, false) 100 100 45 demo_swarm).1 !! "w" = Some p'
        ∧ vp_items p' !! 0 = Some (demo_task "t1" "running_stale" (Some "c")).
Proof.
  destruct (sweep_spares_the_living (I := keyed_iter) (λ _, false) 100 100 45 demo_swarm "w" demo_swarm_plan)
    as (p' & Hp & _ & Hd & _); [reflexivity|]. destruct (Hd (demo_plan_ids demo_swarm_plan eq_refl)) as [Hk _].
  exists p'. split; [exact Hp|]. apply (Hk 0 (demo_task "t1" "running" (Some "c"))); [reflexivity|].
  intros a Ha. injection Ha as <-. reflexivity.
Defined.

Lemma worker_end_is_reported_witness :
  Send 1 (EvNotification "c" None "swarm" None (completion_notification_message "c" "failed" None))
  ∈ (update_member_status_with_report_tldr (I := keyed_iter) (λ _, false) 9 "c" "failed" None None None true demo_swarm).2.
Proof.
  destruct (worker_end_is_reported (I := keyed_iter) (λ _, false) 9 "c" "failed" None None None true demo_swarm
              (demo_member "c" (Some "d") "agent" "running" 2) "w") as (_ & _ & H & H'); [reflexivity..|].
  destruct (H' "d") as [H1 H2]; [reflexivity|right; right; left|reflexivity|discriminate|].
  exact (H "d" (demo_member "d" None "coordinator" "ready" 1) "conn" 1%N H1 H2 eq_refl eq_refl eq_refl).
Defined.

Lemma debounced_broadcasts_converge_witness :
  ∃ n d', n ≤ 3 ∧ nsteps (λ x y, task_step 0 x = Some y) n (request_broadcast debounce_init) d'
          ∧ db_sent d' = db_changes d' ∧ db_changes d' = 1.
Proof.
  destruct (debounced_broadcasts_converge (request_broadcast debounce_init)) as (_ & _ & H); [|exact H].
  apply rtc_once, ds_request.
Defined.

(** When a root session leaves, its children are given to the new coordinator,
    which can be one of their descendants: here [c] ends up reporting to [a] and
    [a] to [c], so each counts as the other's spawner. *)
Lemma reparenting_can_close_a_cycle :
  let members := ss_members (remove_session_from_swarm (I := keyed_iter) (λ _, false) 5 "d" "w" demo_swarm).1 in
  swarm_is_self_or_ancestor (ss_members demo_swarm) "a" "c" = false
  ∧ swarm_is_self_or_ancestor members "a" "c" = true ∧ swarm_is_self_or_ancestor members "c" "a" = true.
Proof. vm_compute. done. Qed.
