(* ===== verification/Mutation.v ===== *)
(** * Deduplication of swarm mutations

    crates/jcode-app-core/src/server/swarm_mutation_state.rs on top of
    durable_state.rs: a request first looks for a stored final response, then
    joins the execution in flight for its key or claims the key; the executor
    stores its final response, and then answers and forgets every waiter.  The
    two sections under the lock and the two file writes are the atomic steps of
    a request's thread.  The stored states are a table by key; the hash in a
    key is a parameter, since the standard library leaves it unspecified. *)

From stdpp Require Import base list strings gmap relations.
From S2P Require Import Prelude RustString Dag Plan SwarmServer.

Open Scope string_scope.
Open Scope nat_scope.
Open Scope list_scope.

(** ** Keys *)

Definition is_key_char (c : Ascii.ascii) : bool :=
  is_ascii_alphanumeric c || (byte_val c =? 45)%N || (byte_val c =? 95)%N.

(** Every character that is not kept becomes an underscore. *)
Definition sanitize_session_id (session_id : string) : string :=
  str_concat ((λ c, match c with
                    | String b "" => if is_key_char b then c else "_"
                    | _ => "_"
                    end) <$> chars session_id).

Definition hashed_request_key (digest : string → string → list string → string) (session_id action : string)
  (components : list string) : string :=
  sanitize_session_id session_id +:+ "-" +:+ digest session_id action components.

(** ** Stored states *)

Inductive MutationResponse :=
| MrDone
| MrAssignTask (task_id target_session : string)
| MrError (message : string) (retry_after_secs : option N)
| MrSpawn (new_session_id : string).

Definition into_server_event (r : MutationResponse) (id : N) (session_id : string) : ServerEvent :=
  match r with
  | MrDone => EvDone id
  | MrAssignTask task_id target_session => EvAssignTask id task_id target_session
  | MrError message retry_after_secs => EvError id message retry_after_secs
  | MrSpawn new_session_id => EvSpawn id session_id new_session_id
  end.

Record MutationState := mkMutation {
  mu_key : string;
  mu_action : string;
  mu_session_id : string;
  mu_created_at : N;
  mu_final : option MutationResponse }.

Definition FINAL_STATE_TTL : N := 30000.
Definition PENDING_STATE_TTL : N := 1800000.

Definition elapsed_exceeds (now created_at ttl : N) : bool := (ttl <? now - created_at)%N.

Definition is_stale (now : N) (st : MutationState) : bool :=
  match mu_final st with
  | Some _ => elapsed_exceeds now (mu_created_at st) FINAL_STATE_TTL
  | None => elapsed_exceeds now (mu_created_at st) PENDING_STATE_TTL
  end.

(** A stale file is removed when it is read. *)
Definition load_state (now : N) (key : string) (store : gmap string MutationState)
  : option MutationState * gmap string MutationState :=
  match store !! key with
  | None => (None, store)
  | Some st => if is_stale now st then (None, delete key store) else (Some st, store)
  end.

Definition save_state (st : MutationState) (store : gmap string MutationState) : gmap string MutationState :=
  <[mu_key st := st]> store.

Definition pending_state (now : N) (key action session_id : string) : MutationState :=
  mkMutation key action session_id now None.

Definition ensure_pending_state (now : N) (key action session_id : string) (store : gmap string MutationState)
  : MutationState * gmap string MutationState :=
  match load_state now key store with
  | (Some existing, store) => (existing, store)
  | (None, store) =>
      let st := pending_state now key action session_id in (st, save_state st store)
  end.

Definition persist_final_response (st : MutationState) (r : MutationResponse) (store : gmap string MutationState)
  : MutationState * gmap string MutationState :=
  let next := mkMutation (mu_key st) (mu_action st) (mu_session_id st) (mu_created_at st) (Some r) in
  (next, save_state next store).

(** ** The sections *)

(** The runtime's [sync] and the files, whose writes succeed.  One number names a
    request, its id and its client's channel. *)
Record Sync := mkSync {
  sy_active : gset string;
  sy_waiters : gmap string (list N);
  sy_store : gmap string MutationState }.

Inductive Begin := Replay (r : MutationResponse) | Joined | Claimed.

Definition begin_section (now : N) (key : string) (request : N) (replay_final : bool) (sy : Sync) : Begin * Sync :=
  let '(loaded, store) := if replay_final then load_state now key (sy_store sy) else (None, sy_store sy) in
  match loaded ≫= mu_final with
  | Some r => (Replay r, mkSync (sy_active sy) (sy_waiters sy) store)
  | None =>
      let waiters := <[key := default [] (sy_waiters sy !! key) ++ [request]]> (sy_waiters sy) in
      if bool_decide (key ∈ sy_active sy) then (Joined, mkSync (sy_active sy) waiters store)
      else (Claimed, mkSync ({[key]} ∪ sy_active sy) waiters store)
  end.

(** After the claim, outside the lock. *)
Definition begin_state (now : N) (key action session_id : string) (replay_final : bool) (sy : Sync)
  : MutationState * Sync :=
  let '(st, store) :=
    if replay_final then ensure_pending_state now key action session_id (sy_store sy)
    else let st := pending_state now key action session_id in (st, save_state st (sy_store sy)) in
  (st, mkSync (sy_active sy) (sy_waiters sy) store).

Definition finish_persist (st : MutationState) (r : MutationResponse) (sy : Sync) : MutationState * Sync :=
  let '(next, store) := persist_final_response st r (sy_store sy) in
  (next, mkSync (sy_active sy) (sy_waiters sy) store).

Definition finish_drain (key : string) (sy : Sync) : list N * Sync :=
  (default [] (sy_waiters sy !! key), mkSync (sy_active sy ∖ {[key]}) (delete key (sy_waiters sy)) (sy_store sy)).

(** ** Threads *)

Inductive Phase :=
| PBegin
| PEnsure
| PRun (st : MutationState)
| PDrain (st : MutationState) (r : MutationResponse)
| PReturned.

Record Thread := mkThread {
  th_key : string;
  th_action : string;
  th_session : string;
  th_replay : bool;
  th_phase : Phase }.

Definition set_phase (ph : Phase) (t : Thread) : Thread :=
  mkThread (th_key t) (th_action t) (th_session t) (th_replay t) ph.

Record World := mkWorld {
  wo_now : N;
  wo_sync : Sync;
  wo_threads : gmap N Thread;
  wo_sent : list (N * ServerEvent) }.

(** One step of the thread of [request]; [choice] is what the mutation returns
    when this step is the end of its work. *)
Definition request_step (request : N) (choice : MutationResponse) (w : World) : option World :=
  match wo_threads w !! request with
  | None => None
  | Some t =>
      let goto ph sy sent := Some (mkWorld (wo_now w) sy (<[request := set_phase ph t]> (wo_threads w)) (wo_sent w ++ sent)) in
      match th_phase t with
      | PBegin =>
          match begin_section (wo_now w) (th_key t) request (th_replay t) (wo_sync w) with
          | (Replay r, sy) => goto PReturned sy [(request, into_server_event r request (th_session t))]
          | (Joined, sy) => goto PReturned sy []
          | (Claimed, sy) => goto PEnsure sy []
          end
      | PEnsure =>
          let '(st, sy) := begin_state (wo_now w) (th_key t) (th_action t) (th_session t) (th_replay t) (wo_sync w) in
          goto (PRun st) sy []
      | PRun st => let '(next, sy) := finish_persist st choice (wo_sync w) in goto (PDrain next choice) sy []
      | PDrain st r =>
          let '(waiters, sy) := finish_drain (mu_key st) (wo_sync w) in
          goto PReturned sy ((λ n, (n, into_server_event r n (mu_session_id st))) <$> waiters)
      | PReturned => None
      end
  end.

(** New requests arrive, time passes, threads step. *)
Inductive world_step : World → World → Prop :=
| ws_arrive w request key action session replay :
    wo_threads w !! request = None →
    world_step w (mkWorld (wo_now w) (wo_sync w)
                    (<[request := mkThread key action session replay PBegin]> (wo_threads w)) (wo_sent w))
| ws_time w d : world_step w (mkWorld (wo_now w + d)%N (wo_sync w) (wo_threads w) (wo_sent w))
| ws_request w request choice w' : request_step request choice w = Some w' → world_step w w'.

(** The table of files may hold the states of an earlier run of the server. *)
Definition world_init (now : N) (store : gmap string MutationState) : World :=
  mkWorld now (mkSync ∅ ∅ store) ∅ [].
