(* ===== verification/MutationClaims.v ===== *)
(** * Theorems on the deduplication of swarm mutations

    The invariant of every interleaving of requests: a key is claimed exactly
    while one thread works on it, and a request past its first section is
    either answered once or waiting once. *)

From stdpp Require Import base list strings gmap relations.
From S2P Require Import Prelude RustString Dag Plan SwarmServer Mutation.

Open Scope string_scope.
Open Scope nat_scope.
Open Scope list_scope.

(** ** The invariant *)

Definition works (t : Thread) : bool :=
  match th_phase t with PEnsure | PRun _ | PDrain _ _ => true | _ => false end.

Definition begun (t : Thread) : bool := match th_phase t with PBegin => false | _ => true end.

Definition phase_key_ok (t : Thread) : Prop :=
  match th_phase t with PRun st | PDrain st _ => mu_key st = th_key t | _ => True end.

(** The answers sent to a request, and its entries among the waiters of a key. *)
Definition answers (w : World) (n : N) : list (N * ServerEvent) := filter (λ p, p.1 = n) (wo_sent w).

Definition waiters_of (w : World) (key : string) : list N := default [] (sy_waiters (wo_sync w) !! key).

Definition waits (w : World) (key : string) (n : N) : nat := length (filter (λ m, m = n) (waiters_of w key)).

Definition phase_rank (t : Thread) : nat :=
  match th_phase t with PBegin => 4 | PEnsure => 3 | PRun _ => 2 | PDrain _ _ => 1 | PReturned => 0 end.

Record mutation_inv (w : World) : Prop := {
  mi_store k st : sy_store (wo_sync w) !! k = Some st → mu_key st = k;
  mi_phase n t : wo_threads w !! n = Some t → phase_key_ok t;
  mi_active k : k ∈ sy_active (wo_sync w) ↔ ∃ n t, wo_threads w !! n = Some t ∧ works t = true ∧ th_key t = k;
  mi_unique n t n' t' : wo_threads w !! n = Some t → wo_threads w !! n' = Some t' →
    works t = true → works t' = true → th_key t = th_key t' → n = n';
  mi_waiters k n : n ∈ waiters_of w k → k ∈ sy_active (wo_sync w) ∧ ∃ t, wo_threads w !! n = Some t ∧ th_key t = k;
  mi_count n t : wo_threads w !! n = Some t →
    length (answers w n) + waits w (th_key t) n = if begun t then 1 else 0;
  mi_fresh n : wo_threads w !! n = None → answers w n = [] }.

(** ** Store lemmas *)

Section Store.
Context (store : gmap string MutationState) (keyed : ∀ k st, store !! k = Some st → mu_key st = k).

Lemma save_state_keyed st k st' : save_state st store !! k = Some st' → mu_key st' = k.
Proof. unfold save_state. intros [[<- <-] | [_ H]]%lookup_insert_Some; [done | by apply keyed]. Qed.

Lemma load_state_keyed now key k st : (load_state now key store).2 !! k = Some st → mu_key st = k.
Proof.
  unfold load_state. destruct (store !! key) as [s|]; [destruct (is_stale now s)|]; cbn; [|apply keyed..].
  intros [_ H]%lookup_delete_Some. by apply keyed.
Qed.

Lemma load_state_key now key st : (load_state now key store).1 = Some st → mu_key st = key.
Proof.
  unfold load_state. destruct (store !! key) as [s|] eqn:E; [|done].
  destruct (is_stale now s); [done|]. cbn. intros [= <-]. by apply keyed.
Qed.

End Store.

Lemma ensure_pending_key store now key action session :
  (∀ k st, store !! k = Some st → mu_key st = k) →
  mu_key (ensure_pending_state now key action session store).1 = key
  ∧ ∀ k st, (ensure_pending_state now key action session store).2 !! k = Some st → mu_key st = k.
Proof.
  intros Hs. unfold ensure_pending_state.
  pose proof (load_state_keyed store Hs now key) as H2. pose proof (load_state_key store Hs now key) as H1.
  destruct (load_state now key store) as [[st|] s']; cbn in *.
  - split; [by apply H1 | done].
  - split; [done|]. intros k st. by apply save_state_keyed.
Qed.

Lemma begin_section_shape now key request replay sy b sy' :
  begin_section now key request replay sy = (b, sy') →
  (∀ k st, sy_store sy !! k = Some st → mu_key st = k) →
  (∀ k st, sy_store sy' !! k = Some st → mu_key st = k)
  ∧ match b with
    | Replay _ => sy_active sy' = sy_active sy ∧ sy_waiters sy' = sy_waiters sy
    | Joined => key ∈ sy_active sy ∧ sy_active sy' = sy_active sy
        ∧ sy_waiters sy' = <[key := default [] (sy_waiters sy !! key) ++ [request]]> (sy_waiters sy)
    | Claimed => key ∉ sy_active sy ∧ sy_active sy' = {[key]} ∪ sy_active sy
        ∧ sy_waiters sy' = <[key := default [] (sy_waiters sy !! key) ++ [request]]> (sy_waiters sy)
    end.
Proof.
  unfold begin_section. intros E Hs.
  assert (∀ k st, (if replay then load_state now key (sy_store sy) else (None, sy_store sy)).2 !! k = Some st
                  → mu_key st = k) as H2.
  { destruct replay; [by apply load_state_keyed | done]. }
  destruct (if replay then _ else _) as [loaded store].
  destruct (loaded ≫= mu_final) as [r|]; [by simplify_eq|].
  case_bool_decide; simplify_eq/=; by split_and!.
Qed.

Lemma begin_state_shape now key action session replay sy st sy' :
  begin_state now key action session replay sy = (st, sy') →
  (∀ k st, sy_store sy !! k = Some st → mu_key st = k) →
  mu_key st = key ∧ (∀ k st, sy_store sy' !! k = Some st → mu_key st = k)
  ∧ sy_active sy' = sy_active sy ∧ sy_waiters sy' = sy_waiters sy.
Proof.
  unfold begin_state. intros E Hs. destruct replay.
  - pose proof (ensure_pending_key (sy_store sy) now key action session Hs) as [H1 H2].
    destruct (ensure_pending_state _ _ _ _ _) as [st0 store]. by simplify_eq/=.
  - simplify_eq/=. split_and!; [done| |done..]. intros k st. by apply save_state_keyed.
Qed.

(** ** Lists of answers *)

Lemma answers_app w sent n now sy th :
  answers (mkWorld now sy th (wo_sent w ++ sent)) n = answers w n ++ filter (λ p, p.1 = n) sent.
Proof. apply filter_app. Qed.

Lemma filter_answers (f : N → ServerEvent) (l : list N) n :
  length (filter (λ p : N * ServerEvent, p.1 = n) ((λ m, (m, f m)) <$> l)) = length (filter (λ m, m = n) l).
Proof. induction l as [|m l IH]; [done|]. rewrite fmap_cons, !filter_cons. cbn [fst].
  case_decide; cbn [length]; by rewrite IH. Qed.

Lemma filter_absent (l : list N) n : n ∉ l → filter (λ m, m = n) l = [].
Proof.
  intros H. destruct (filter (λ m, m = n) l) as [|m r] eqn:E; [done|].
  assert (m ∈ filter (λ m, m = n) l) as [-> Hm]%list_elem_of_filter by (rewrite E; apply list_elem_of_here). done.
Qed.

Lemma filter_present (l : list N) n : n ∈ l → 1 ≤ length (filter (λ m, m = n) l).
Proof.
  intros H. destruct (filter (λ m, m = n) l) eqn:E; cbn; [|lia].
  exfalso. apply (not_elem_of_nil n). rewrite <- E. by apply list_elem_of_filter.
Qed.

(** ** Preservation *)

Lemma waiters_of_update w now sy th sent key l k :
  sy_waiters sy = <[key := l]> (sy_waiters (wo_sync w)) →
  waiters_of (mkWorld now sy th sent) k = if decide (k = key) then l else waiters_of w k.
Proof.
  intros E. unfold waiters_of. cbn. rewrite E. case_decide as Hk.
  - subst. by rewrite lookup_insert_eq.
  - by rewrite lookup_insert_ne.
Qed.

Section Step.
Context (w : World) (n : N) (t : Thread) (Hinv : mutation_inv w) (Ht : wo_threads w !! n = Some t).

(** A thread that stays silent, with the same claim, as the same waiter. *)
Lemma inv_quiet ph sy :
  begun t = true → works (set_phase ph t) = works t → begun (set_phase ph t) = true → phase_key_ok (set_phase ph t) →
  (∀ k st, sy_store sy !! k = Some st → mu_key st = k) →
  sy_active sy = sy_active (wo_sync w) → sy_waiters sy = sy_waiters (wo_sync w) →
  mutation_inv (mkWorld (wo_now w) sy (<[n := set_phase ph t]> (wo_threads w)) (wo_sent w ++ [])).
Proof.
  intros Hb Hw Hb' Hp Hs Ha Hq. destruct Hinv as [I1 I2 I3 I4 I5 I6 I7]. rewrite app_nil_r.
  assert (∀ k, waiters_of (mkWorld (wo_now w) sy (<[n := set_phase ph t]> (wo_threads w)) (wo_sent w)) k
               = waiters_of w k) as Hwo.
  { intros k. unfold waiters_of. cbn. by rewrite Hq. }
  split; cbn [wo_sync wo_threads]; [done|..].
  - intros m u [[<- <-] | [_ Hu]]%lookup_insert_Some; [done | by eapply I2].
  - intros k. rewrite Ha, I3. split.
    + intros (m & u & Hu & H1 & H2). destruct (decide (m = n)) as [->|Hne].
      * exists n, (set_phase ph t). rewrite lookup_insert_eq. rewrite Hu in Ht. simplify_eq. split_and!; [done| by rewrite Hw|done].
      * exists m, u. by rewrite lookup_insert_ne.
    + intros (m & u & [[<- <-] | [_ Hu]]%lookup_insert_Some & H1 & H2); [exists n, t; by rewrite <- Hw | by exists m, u].
  - intros m u m' u' [[<- <-] | [_ Hu]]%lookup_insert_Some [[<- <-] | [_ Hu']]%lookup_insert_Some; rewrite ?Hw; intros H1 H2 H3;
      [done | by eapply I4 | by eapply I4 | by eapply I4].
  - intros k m. rewrite Hwo, Ha. intros (H1 & u & Hu & Hk)%I5. split; [done|].
    destruct (decide (m = n)) as [->|Hne].
    + exists (set_phase ph t). rewrite lookup_insert_eq. rewrite Hu in Ht. by simplify_eq.
    + exists u. by rewrite lookup_insert_ne.
  - intros m u Hu. unfold waits. rewrite Hwo. change (answers _ m) with (answers w m).
    apply lookup_insert_Some in Hu as [[<- <-] | [_ Hu]]; [|by apply I6].
    pose proof (I6 n t Ht) as H. rewrite Hb in H. rewrite Hb'. done.
  - intros m [Hm _]%lookup_insert_None. by apply I7.
Qed.

(** The answer of a stored response. *)
Lemma inv_replay sy ev :
  th_phase t = PBegin → (∀ k st, sy_store sy !! k = Some st → mu_key st = k) →
  sy_active sy = sy_active (wo_sync w) → sy_waiters sy = sy_waiters (wo_sync w) →
  mutation_inv (mkWorld (wo_now w) sy (<[n := set_phase PReturned t]> (wo_threads w)) (wo_sent w ++ [(n, ev)])).
Proof.
  intros Hph Hs Ha Hq. destruct Hinv as [I1 I2 I3 I4 I5 I6 I7].
  assert (works t = false) as Hwk by (unfold works; by rewrite Hph).
  assert (∀ k, waiters_of (mkWorld (wo_now w) sy (<[n := set_phase PReturned t]> (wo_threads w)) (wo_sent w ++ [(n, ev)])) k
               = waiters_of w k) as Hwo.
  { intros k. unfold waiters_of. cbn. by rewrite Hq. }
  split; cbn [wo_sync wo_threads]; [done|..].
  - intros m u [[<- <-] | [_ Hu]]%lookup_insert_Some; [done | by eapply I2].
  - intros k. rewrite Ha, I3. split.
    + intros (m & u & Hu & H1 & H2). exists m, u. rewrite lookup_insert_ne; [done|]. intros ->. congruence.
    + intros (m & u & [[<- <-] | [_ Hu]]%lookup_insert_Some & H1 & H2); [done | by exists m, u].
  - intros m u m' u' [[<- <-] | [_ Hu]]%lookup_insert_Some [[<- <-] | [_ Hu']]%lookup_insert_Some; try done. by apply I4.
  - intros k m. rewrite Hwo, Ha. intros (H1 & u & Hu & Hk)%I5. split; [done|].
    destruct (decide (m = n)) as [->|Hne].
    + exists (set_phase PReturned t). rewrite lookup_insert_eq. rewrite Hu in Ht. by simplify_eq.
    + exists u. by rewrite lookup_insert_ne.
  - intros m u Hu. unfold waits. rewrite Hwo, answers_app, filter_cons, filter_nil. cbn [fst].
    apply lookup_insert_Some in Hu as [[<- <-] | [Hne Hu]].
    + rewrite decide_True by done. pose proof (I6 n t Ht) as H. unfold begun in H. rewrite Hph in H. unfold waits in H.
      rewrite length_app. cbn in *. lia.
    + rewrite decide_False by done. rewrite app_nil_r. by apply I6.
  - intros m [Hm Hne]%lookup_insert_None. rewrite answers_app, filter_cons, filter_nil. cbn [fst].
    rewrite decide_False by done. rewrite app_nil_r. by apply I7.
Qed.

(** Becoming a waiter, with or without the claim. *)
Lemma inv_enqueue ph sy :
  th_phase t = PBegin → begun (set_phase ph t) = true → phase_key_ok (set_phase ph t) →
  (∀ k st, sy_store sy !! k = Some st → mu_key st = k) →
  (if works (set_phase ph t) then th_key t ∉ sy_active (wo_sync w) else th_key t ∈ sy_active (wo_sync w)) →
  sy_active sy = {[th_key t]} ∪ sy_active (wo_sync w) →
  sy_waiters sy = <[th_key t := default [] (sy_waiters (wo_sync w) !! th_key t) ++ [n]]> (sy_waiters (wo_sync w)) →
  mutation_inv (mkWorld (wo_now w) sy (<[n := set_phase ph t]> (wo_threads w)) (wo_sent w ++ [])).
Proof.
  intros Hph Hb Hp Hs Hact Ha Hq. destruct Hinv as [I1 I2 I3 I4 I5 I6 I7]. rewrite app_nil_r.
  assert (works t = false) as Hwk by (unfold works; by rewrite Hph).
  assert (∀ m, wo_threads w !! m = Some t → works t = true → False) as Hno by congruence.
  split; cbn [wo_sync wo_threads]; [done|..].
  - intros m u [[<- <-] | [_ Hu]]%lookup_insert_Some; [done | by eapply I2].
  - intros k. rewrite Ha, elem_of_union, elem_of_singleton, I3. split.
    + intros [-> | (m & u & Hu & H1 & H2)].
      * destruct (works (set_phase ph t)) eqn:Hwp.
        -- exists n, (set_phase ph t). by rewrite lookup_insert_eq.
        -- apply I3 in Hact as (m & u & Hu & H1 & H2). exists m, u. rewrite lookup_insert_ne; [done|]. intros ->. congruence.
      * exists m, u. rewrite lookup_insert_ne; [done|]. intros ->. congruence.
    + intros (m & u & [[<- <-] | [_ Hu]]%lookup_insert_Some & H1 & H2); [by left | right; by exists m, u].
  - intros m u m' u' Hu Hu' H1 H2 H3.
    apply lookup_insert_Some in Hu as [[<- <-] | [Hn Hu]]; apply lookup_insert_Some in Hu' as [[<- <-] | [Hn' Hu']];
      [done | | | by eapply I4]; exfalso.
    + rewrite H1 in Hact. apply Hact, I3. exists m', u'. cbn in H3. by rewrite H3.
    + rewrite H2 in Hact. apply Hact, I3. exists m, u. cbn in H3. by rewrite H3.
  - intros k m. rewrite (waiters_of_update w _ _ _ _ _ _ k Hq), Ha. case_decide as Hk.
    + subst k. intros [Hm | ->%list_elem_of_singleton]%elem_of_app; (split; [set_solver|]).
      * apply I5 in Hm as (_ & u & Hu & Hk). destruct (decide (m = n)) as [->|Hne].
        -- exists (set_phase ph t). by rewrite lookup_insert_eq.
        -- exists u. by rewrite lookup_insert_ne.
      * exists (set_phase ph t). by rewrite lookup_insert_eq.
    + intros (H1 & u & Hu & Hk')%I5. split; [set_solver|]. exists u.
      rewrite lookup_insert_ne; [done|]. intros ->. rewrite Hu in Ht. by simplify_eq.
  - intros m u Hu. unfold waits. rewrite (waiters_of_update w _ _ _ _ _ _ _ Hq).
    change (answers _ m) with (answers w m).
    apply lookup_insert_Some in Hu as [[<- <-] | [Hne Hu]].
    + rewrite decide_True by done. rewrite filter_app, filter_cons, filter_nil, decide_True, length_app by done.
      pose proof (I6 n t Ht) as H. unfold begun in H. rewrite Hph in H. unfold waits, waiters_of in H.
      rewrite Hb. cbn [length]. lia.
    + pose proof (I6 m u Hu) as H. unfold waits in H. rewrite <- H. case_decide as Hk; [|done].
      rewrite filter_app, filter_cons, filter_nil, decide_False, app_nil_r by done. by rewrite Hk.
  - intros m [Hm Hne]%lookup_insert_None. by apply I7.
Qed.

(** The end of the work: every waiter is answered and the claim released. *)
Lemma inv_drain st r sy :
  th_phase t = PDrain st r →
  finish_drain (mu_key st) (wo_sync w) = (waiters_of w (th_key t), sy) →
  mutation_inv (mkWorld (wo_now w) sy (<[n := set_phase PReturned t]> (wo_threads w))
    (wo_sent w ++ ((λ m, (m, into_server_event r m (mu_session_id st))) <$> waiters_of w (th_key t)))).
Proof.
  intros Hph E. destruct Hinv as [I1 I2 I3 I4 I5 I6 I7].
  assert (mu_key st = th_key t) as Hk by (pose proof (I2 n t Ht) as H; unfold phase_key_ok in H; by rewrite Hph in H).
  assert (works t = true) as Hwk by (unfold works; by rewrite Hph).
  unfold finish_drain in E. rewrite Hk in E. injection E as <-.
  set (w' := mkWorld _ _ _ _).
  assert (∀ k, waiters_of w' k = if decide (k = th_key t) then [] else waiters_of w k) as Hwo.
  { intros k. unfold waiters_of, w'. cbn. case_decide; [subst; by rewrite lookup_delete_eq | by rewrite lookup_delete_ne]. }
  assert (∀ m, length (answers w' m) = length (answers w m) + waits w (th_key t) m) as Han.
  { intros m. unfold w'. rewrite answers_app, length_app, filter_answers. done. }
  split; unfold w'; cbn [wo_sync wo_threads sy_store sy_active]; fold w'; [done|..].
  - intros m u [[<- <-] | [_ Hu]]%lookup_insert_Some; [done | by eapply I2].
  - intros k. rewrite elem_of_difference, elem_of_singleton, I3. split.
    + intros [(m & u & Hu & H1 & H2) Hne]. exists m, u. rewrite lookup_insert_ne; [done|]. intros ->. congruence.
    + intros (m & u & [[<- <-] | [Hm Hu]]%lookup_insert_Some & H1 & H2); [done|].
      split; [by exists m, u|]. intros ->. apply Hm. by eapply I4.
  - intros m u m' u' [[<- <-] | [_ Hu]]%lookup_insert_Some [[<- <-] | [_ Hu']]%lookup_insert_Some; try done. by apply I4.
  - intros k m. rewrite Hwo. case_decide as Hkk; [by intros ?%not_elem_of_nil|].
    intros (H1 & u & Hu & Hku)%I5. split; [set_solver|]. exists u.
    rewrite lookup_insert_ne; [done|]. intros ->. rewrite Hu in Ht. by simplify_eq.
  - intros m u Hu. unfold waits. rewrite Hwo, Han.
    apply lookup_insert_Some in Hu as [[<- <-] | [Hne Hu]].
    + rewrite decide_True by done. pose proof (I6 n t Ht) as H. unfold begun in H. rewrite Hph in H. cbn. lia.
    + pose proof (I6 m u Hu) as H. case_decide as Hku; [by rewrite <- H, Hku, filter_nil, Nat.add_0_r|].
      rewrite <- H. unfold waits at 1. rewrite filter_absent; [cbn; unfold waits; lia|].
      intros (_ & u' & Hu' & Hk')%I5. congruence.
  - intros m [Hm Hne]%lookup_insert_None. apply length_zero_iff_nil. rewrite Han, (I7 m Hm).
    unfold waits. rewrite filter_absent; [done|]. intros (_ & u' & Hu' & _)%I5. congruence.
Qed.

End Step.

Lemma request_step_inv n choice w w' :
  mutation_inv w → request_step n choice w = Some w' → mutation_inv w'.
Proof.
  intros Hinv. unfold request_step. destruct (wo_threads w !! n) as [t|] eqn:Ht; [|done].
  destruct (th_phase t) as [| |st|st r|] eqn:Hph; [..|done].
  - destruct (begin_section _ _ _ _ _) as [b sy] eqn:E.
    apply begin_section_shape in E as [Hs H]; [|apply (mi_store _ Hinv)].
    destruct b as [r| |]; intros [= <-].
    + destruct H as [Ha Hq]. by apply inv_replay.
    + destruct H as (Hk & Ha & Hq). apply inv_enqueue; try done. rewrite Ha. symmetry. apply subseteq_union_1_L. set_solver.
    + destruct H as (Hk & Ha & Hq). by apply inv_enqueue.
  - destruct (begin_state _ _ _ _ _ _) as [st sy] eqn:E.
    apply begin_state_shape in E as (Hk & Hs & Ha & Hq); [|apply (mi_store _ Hinv)].
    intros [= <-]. apply inv_quiet; try done; unfold begun, works; by rewrite Hph.
  - intros [= <-]. pose proof (mi_phase _ Hinv n t Ht) as Hk. unfold phase_key_ok in Hk. rewrite Hph in Hk.
    apply inv_quiet; try done; [unfold begun, works; by rewrite Hph..|].
    intros k st'. exact (save_state_keyed _ (mi_store _ Hinv) _ k st').
  - pose proof (mi_phase _ Hinv n t Ht) as Hk. unfold phase_key_ok in Hk. rewrite Hph in Hk.
    destruct (finish_drain _ _) as [l sy] eqn:E. intros [= <-].
    assert (l = waiters_of w (th_key t)) as -> by (unfold finish_drain in E; rewrite Hk in E; by injection E).
    by apply inv_drain.
Qed.

Lemma world_step_inv w w' : mutation_inv w → world_step w w' → mutation_inv w'.
Proof.
  intros Hinv Hst. revert Hinv.
  destruct Hst as [w0 n key action session replay Hn | w0 d | w0 n choice w1 E]; intros Hinv; [..|by eapply request_step_inv].
  - destruct Hinv as [I1 I2 I3 I4 I5 I6 I7]. split; cbn [wo_sync wo_threads]; [done|..].
    + intros m u [[<- <-] | [_ Hu]]%lookup_insert_Some; [done | by eapply I2].
    + intros k. rewrite I3. split.
      * intros (m & u & Hu & H). exists m, u. rewrite lookup_insert_ne; [done|]. congruence.
      * intros (m & u & [[<- <-] | [_ Hu]]%lookup_insert_Some & H1 & H); [done | by exists m, u].
    + intros m u m' u' [[<- <-] | [_ Hu]]%lookup_insert_Some [[<- <-] | [_ Hu']]%lookup_insert_Some; try done. by apply I4.
    + intros k m (H1 & u & Hu & Hk)%I5. split; [done|]. exists u. rewrite lookup_insert_ne; [done|]. congruence.
    + intros m u [[<- <-] | [_ Hu]]%lookup_insert_Some; [|by apply (I6 m u)].
      change (answers _ n) with (answers w0 n). rewrite (I7 n Hn). cbn.
      change (waits _ key n) with (waits w0 key n). unfold waits. rewrite filter_absent; [done|].
      intros (_ & u & Hu & _)%I5. congruence.
    + intros m [Hm _]%lookup_insert_None. by apply (I7 m).
  - destruct Hinv as [I1 I2 I3 I4 I5 I6 I7]. by split.
Qed.

Lemma world_init_inv now store :
  (∀ k st, store !! k = Some st → mu_key st = k) → mutation_inv (world_init now store).
Proof.
  intros Hs. split; cbn; try done.
  - intros k. split; [by intros ?%not_elem_of_empty|]. by intros (n & t & ? & _).
  - intros k n. unfold waiters_of. cbn. by intros ?%not_elem_of_nil.
Qed.

Lemma reachable_inv now store w :
  (∀ k st, store !! k = Some st → mu_key st = k) → rtc world_step (world_init now store) w → mutation_inv w.
Proof.
  intros Hs. apply (rtc_ind_r (λ w, mutation_inv w)); [by apply world_init_inv|].
  intros w1 w2 _ Hst Hi. by eapply world_step_inv.
Qed.

(** A thread is never blocked before it returns, and each of its steps brings it
    closer to the end. *)
Lemma request_step_progress n choice w t :
  wo_threads w !! n = Some t → th_phase t ≠ PReturned →
  ∃ w' t', request_step n choice w = Some w' ∧ wo_threads w' = <[n := t']> (wo_threads w)
           ∧ th_key t' = th_key t ∧ phase_rank t' < phase_rank t.
Proof.
  intros Ht Hne. unfold request_step. rewrite Ht. unfold phase_rank. destruct (th_phase t); [..|done].
  - destruct (begin_section _ _ _ _ _) as [[| |] sy]; eexists _, _; (split_and!; [reflexivity|reflexivity|reflexivity|cbn; lia]).
  - destruct (begin_state _ _ _ _ _ _); eexists _, _; (split_and!; [reflexivity|reflexivity|reflexivity|cbn; lia]).
  - eexists _, _; (split_and!; [reflexivity|reflexivity|reflexivity|cbn; lia]).
  - eexists _, _; (split_and!; [reflexivity|reflexivity|reflexivity|cbn; lia]).
Qed.

(** ** Claims *)

(** C3: Swarm mutations are deduplicated under every interleaving.  Whatever
    requests arrive and however their threads, the clock and the two sections
    under the lock interleave, at most one thread executes the mutation of a
    key; no request is ever answered twice; a request that has returned is
    answered exactly once as soon as nothing executes its key; and no thread
    is blocked before it returns, each step bringing it closer to the end. *)
Theorem mutations_execute_once (now : N) (store : gmap string MutationState) (w : World) :
  (∀ k st, store !! k = Some st → mu_key st = k) →
  rtc world_step (world_init now store) w →
  (∀ n n' t t', wo_threads w !! n = Some t → wo_threads w !! n' = Some t' →
     works t = true → works t' = true → th_key t = th_key t' → n = n')
  ∧ (∀ n, length (answers w n) ≤ 1)
  ∧ (∀ n t, wo_threads w !! n = Some t → th_phase t = PReturned →
       (∀ n' t', wo_threads w !! n' = Some t' → th_key t' = th_key t → works t' = false) → length (answers w n) = 1)
  ∧ (∀ n t choice, wo_threads w !! n = Some t → th_phase t ≠ PReturned →
       ∃ w' t', request_step n choice w = Some w' ∧ wo_threads w' = <[n := t']> (wo_threads w)
                ∧ th_key t' = th_key t ∧ phase_rank t' < phase_rank t).
Proof.
  intros Hs Hr. pose proof (reachable_inv now store w Hs Hr) as [I1 I2 I3 I4 I5 I6 I7]. split_and!.
  - intros n n' t t' H H'. by eapply I4.
  - intros n. destruct (wo_threads w !! n) as [t|] eqn:Ht.
    + pose proof (I6 n t Ht). destruct (begun t); lia.
    + rewrite (I7 n Ht). cbn. lia.
  - intros n t Ht Hph Hnone. pose proof (I6 n t Ht) as H. unfold begun in H. rewrite Hph in H.
    enough (waits w (th_key t) n = 0) by lia. unfold waits. rewrite filter_absent; [done|].
    intros (Hact & _)%I5. apply I3 in Hact as (n' & t' & Hn' & Hw & Hk). by rewrite (Hnone n' t' Hn' Hk) in Hw.
  - intros n t choice. apply request_step_progress.
Qed.

(** Runs a list of steps. *)
Definition run_steps (l : list (N * MutationResponse)) (w : World) : option World :=
  fold_left (λ ow p, ow ≫= request_step p.1 p.2) l (Some w).

Lemma run_steps_none l : fold_left (λ ow (p : N * MutationResponse), ow ≫= request_step p.1 p.2) l None = None.
Proof. by induction l. Qed.

Lemma run_steps_rtc l w w' : run_steps l w = Some w' → rtc world_step w w'.
Proof.
  unfold run_steps. revert w. induction l as [|[n c] l IH]; intros w; cbn [fold_left].
  - intros [= <-]. constructor.
  - cbn. destruct (request_step n c w) as [w1|] eqn:E; [|by rewrite run_steps_none].
    intros H. eapply rtc_l; [by eapply ws_request | by apply IH].
Qed.

(** Two assignments of the same task arrive while nothing is stored. *)
Definition two_requests : World :=
  mkWorld 0 (mkSync ∅ ∅ ∅) (<[2%N := mkThread "k" "assign_task" "s" true PBegin]> (<[1%N := mkThread "k" "assign_task" "s" true PBegin]> ∅)) [].

Lemma two_requests_reachable : rtc world_step (world_init 0 ∅) two_requests.
Proof.
  eapply rtc_l; [apply (ws_arrive _ 1%N "k" "assign_task" "s" true); reflexivity|].
  eapply rtc_l; [apply (ws_arrive _ 2%N "k" "assign_task" "s" true); reflexivity|].
  apply rtc_refl.
Qed.

(** The world after the given steps. *)
Definition after (l : list (N * MutationResponse)) : World := default two_requests (run_steps l two_requests).

Lemma mutations_execute_once_witness :
  length (answers (after [(1, MrDone); (2, MrDone); (1, MrDone); (1, MrSpawn "w"); (1, MrDone)]%N) 2) ≤ 1
  ∧ answers (after [(1, MrDone); (2, MrDone); (1, MrDone); (1, MrSpawn "w"); (1, MrDone)]%N) 2
    = [(2%N, EvSpawn 2 "s" "w")].
Proof.
  split; [|vm_compute; reflexivity].
  assert (∀ k st, (∅ : gmap string MutationState) !! k = Some st → mu_key st = k) as Hs by (intros k st H; by rewrite lookup_empty in H).
  assert (rtc world_step (world_init 0 ∅) (after [(1, MrDone); (2, MrDone); (1, MrDone); (1, MrSpawn "w"); (1, MrDone)]%N)) as Hr.
  { transitivity two_requests; [apply two_requests_reachable|].
    apply (run_steps_rtc [(1, MrDone); (2, MrDone); (1, MrDone); (1, MrSpawn "w"); (1, MrDone)]%N). vm_compute. reflexivity. }
  exact (proj1 (proj2 (mutations_execute_once 0 ∅ _ Hs Hr)) 2%N).
Defined.

(** A finished mutation is replayed, not repeated.  While the stored final
    response of a key is within thirty seconds of the start of its attempt, a
    request that accepts replays is answered in its first section with that
    response, and neither the claims nor the waiters nor the files change; a
    control-driven request never takes the stored response: it joins the
    execution in flight or starts an attempt of its own, whose state has no
    response yet. *)
Theorem finished_mutations_replay (w : World) (n : N) (t : Thread) (st : MutationState) (r choice : MutationResponse) :
  wo_threads w !! n = Some t → th_phase t = PBegin →
  sy_store (wo_sync w) !! th_key t = Some st → mu_final st = Some r →
  (wo_now w - mu_created_at st <= 30000)%N →
  (th_replay t = true →
     request_step n choice w
     = Some (mkWorld (wo_now w) (wo_sync w) (<[n := set_phase PReturned t]> (wo_threads w))
                     (wo_sent w ++ [(n, into_server_event r n (th_session t))])))
  ∧ (th_replay t = false → ∃ w1, request_step n choice w = Some w1 ∧ wo_sent w1 = wo_sent w
       ∧ (th_key t ∈ sy_active (wo_sync w) → waiters_of w1 (th_key t) = waiters_of w (th_key t) ++ [n])
       ∧ (th_key t ∉ sy_active (wo_sync w) → ∃ w2, request_step n choice w1 = Some w2
            ∧ (∃ st2, th_phase <$> wo_threads w2 !! n = Some (PRun st2) ∧ mu_final st2 = None
                 ∧ mu_created_at st2 = wo_now w ∧ sy_store (wo_sync w2) !! th_key t = Some st2))).
Proof.
  intros Ht Hph Hst Hr Hnow. split; intros Hre; unfold request_step; rewrite Ht, Hph, Hre; unfold begin_section.
  - unfold load_state. rewrite Hst. unfold is_stale, elapsed_exceeds. rewrite Hr.
    replace (FINAL_STATE_TTL <? _)%N with false by (symmetry; apply N.ltb_ge; exact Hnow).
    cbn. rewrite Hr. by destruct w as [? []].
  - cbn. case_bool_decide as Hk; (eexists; split; [reflexivity|]); rewrite app_nil_r; (split_and!; [done|..]); [|done|done|].
    + intros _. unfold waiters_of. cbn. by rewrite lookup_insert_eq.
    + intros _. eexists. cbn. rewrite lookup_insert_eq. cbn. rewrite Hre. split; [reflexivity|].
      eexists. cbn. rewrite lookup_insert_eq. split; [reflexivity|]. cbn. split_and!; [done..|].
      by rewrite lookup_insert_eq.
Qed.

Definition replayable : World :=
  mkWorld 10 (mkSync ∅ ∅ {["k" := mkMutation "k" "spawn" "s" 5 (Some (MrSpawn "w"))]})
    {[1%N := mkThread "k" "spawn" "s" true PBegin]} [].

Lemma finished_mutations_replay_witness :
  wo_sent <$> request_step 1 MrDone replayable = Some [(1%N, EvSpawn 1 "s" "w")].
Proof.
  assert (Hn : (wo_now replayable - 5 <= 30000)%N) by (vm_compute; discriminate).
  pose proof (finished_mutations_replay replayable 1 (mkThread "k" "spawn" "s" true PBegin)
    (mkMutation "k" "spawn" "s" 5 (Some (MrSpawn "w"))) (MrSpawn "w") MrDone
    eq_refl eq_refl eq_refl eq_refl Hn) as [H _].
  rewrite (H eq_refl). reflexivity.
Defined.

(** The age of a stored response counts from the start of its attempt: a
    mutation that took longer than thirty seconds is executed again by a
    duplicate that arrives right after its answers were sent. *)
Lemma slow_mutation_runs_again :
  ∃ w st, rtc world_step (world_init 0 ∅) w ∧ answers w 1 = [(1%N, EvSpawn 1 "s" "w")]
          ∧ th_phase <$> wo_threads w !! 2%N = Some (PRun st) ∧ mu_final st = None.
Proof.
  set (slow := match after [(1, MrDone); (1, MrDone)]%N with
               | w => mkWorld (wo_now w + 30001) (wo_sync w) (wo_threads w) (wo_sent w) end).
  set (last := default slow (run_steps [(1, MrSpawn "w"); (1, MrDone); (2, MrDone); (2, MrDone)]%N slow)).
  exists last, (mkMutation "k" "assign_task" "s" 30001 None). split_and!; [|vm_compute; reflexivity..].
  transitivity two_requests; [apply two_requests_reachable|].
  transitivity (after [(1, MrDone); (1, MrDone)]%N).
  { apply (run_steps_rtc [(1, MrDone); (1, MrDone)]%N). vm_compute. reflexivity. }
  eapply rtc_l; [apply (ws_time _ 30001)|].
  apply (run_steps_rtc [(1, MrSpawn "w"); (1, MrDone); (2, MrDone); (2, MrDone)]%N). vm_compute. reflexivity.
Qed.
