(* ===== verification/Control.v ===== *)
(** * Assigning and controlling tasks

    crates/jcode-app-core/src/server/comm_control.rs: the choice of a worker
    and the claims that keep concurrent choices apart, the assignment of a task
    with its guard against double assignment, the life of an assigned run
    (start, progress, end of turn, failure), and the handlers assign_role,
    assign_task, assign_next and task_control.

    A handler is the composition of its sections on the server's state and the
    table of claims.  What it reads of its surroundings is the section's
    context: the sessions that have an agent and whether it is busy, the
    sessions with a client, whether the deduplication layer (Mutation.v) lets
    the request execute, and the spawning of a worker. *)

From stdpp Require Import base list strings gmap pretty.
From S2P Require Import Prelude RustString Dag Plan Bridge Swarm SwarmServer Mutation.

Open Scope string_scope.
Open Scope nat_scope.
Open Scope list_scope.

(** ** Candidates and claims *)

Definition is_drivable_auto_worker (m : SwarmMember) (req_session_id : string) : bool :=
  sm_is_headless m || bool_decide (sm_report_back m = Some req_session_id).

Definition is_auto_candidate (req_session_id swarm_id : string) (m : SwarmMember) : bool :=
  negb (bool_decide (sm_session_id m = req_session_id))
  && bool_decide (sm_swarm_id m = Some swarm_id)
  && bool_decide (sm_role m = "agent")
  && is_one_of ["ready"; "completed"] (sm_status m)
  && is_drivable_auto_worker m req_session_id.

Definition filter_swarm_agent_candidates {I : MapIter} (members : gmap string SwarmMember)
  (req_session_id swarm_id : string) : list SwarmMember :=
  List.filter (is_auto_candidate req_session_id swarm_id) (member_values members).

Definition load_of (loads : gmap string nat) (session_id : string) : nat := default 0 (loads !! session_id).

Definition member_has_active_assignment (session_id : string) (loads : gmap string nat) : bool :=
  0 <? load_of loads session_id.

Definition AUTO_ASSIGN_CLAIM_TTL : N := 15000.

Definition auto_assign_claim_key (swarm_id session_id : string) : string := swarm_id +:+ newline +:+ session_id.

(** What [claims.retain] keeps. *)
Definition live_claims (now : N) (claims : gmap string N) : gmap string N :=
  filter (λ kv, (now - kv.2 < AUTO_ASSIGN_CLAIM_TTL)%N) claims.

Definition try_claim_auto_assign_target (now : N) (swarm_id session_id : string) (claims : gmap string N)
  : bool * gmap string N :=
  let claims := live_claims now claims in
  match claims !! auto_assign_claim_key swarm_id session_id with
  | Some _ => (false, claims)
  | None => (true, <[auto_assign_claim_key swarm_id session_id := now]> claims)
  end.

Definition release_auto_assign_claim (swarm_id session_id : string) (claims : gmap string N) : gmap string N :=
  delete (auto_assign_claim_key swarm_id session_id) claims.

Definition no_auto_target_error (busy_skipped : nat) : string :=
  "No ready or completed swarm agents are available for automatic task assignment."
  +:+ (if 0 <? busy_skipped then
         " Skipped " +:+ pretty busy_skipped +:+ " worker(s) that already have an active assignment or an in-flight pick; spawn a fresh agent (spawn_if_needed/prefer_spawn) or wait for one to finish."
       else "").

Fixpoint select_from (now : N) (swarm_id : string) (candidates : list SwarmMember) (loads : gmap string nat)
  (busy_skipped : nat) (claims : gmap string N) : result string string * gmap string N :=
  match candidates with
  | [] => (Err (no_auto_target_error busy_skipped), claims)
  | m :: rest =>
      if member_has_active_assignment (sm_session_id m) loads then
        select_from now swarm_id rest loads (S busy_skipped) claims
      else
        match try_claim_auto_assign_target now swarm_id (sm_session_id m) claims with
        | (true, claims) => (Ok (sm_session_id m), claims)
        | (false, claims) => select_from now swarm_id rest loads (S busy_skipped) claims
        end
  end.
Definition select_and_claim_auto_target (now : N) (swarm_id : string) (candidates : list SwarmMember)
  (loads : gmap string nat) (claims : gmap string N) : result string string * gmap string N :=
  select_from now swarm_id candidates loads 0 claims.

(** ** Ranking *)

Definition ready_rank (m : SwarmMember) : nat := if bool_decide (sm_status m = "ready") then 0 else 1.

Definition target_cmp (loads : gmap string nat) (l r : SwarmMember) : comparison :=
  then_with (Nat.compare (load_of loads (sm_session_id l)) (load_of loads (sm_session_id r)))
    (then_with (Nat.compare (ready_rank l) (ready_rank r)) (String.compare (sm_session_id l) (sm_session_id r))).

Definition task_target_cmp (a : AssignmentAffinities) (l r : SwarmMember) : comparison :=
  then_with (Nat.compare (load_of (dependency_carryover a) (sm_session_id r))
                         (load_of (dependency_carryover a) (sm_session_id l)))
    (then_with (Nat.compare (load_of (metadata_carryover a) (sm_session_id r))
                            (load_of (metadata_carryover a) (sm_session_id l)))
       (target_cmp (loads a) l r)).

Section Resolve.
Context {I : MapIter} (now : N).

Definition resolve_assignment_target_session (req_session_id swarm_id : string) (requested : option string)
  (s : SwarmState) (claims : gmap string N) : result string string * gmap string N :=
  match requested with
  | Some target =>
      (if bool_decide (target = req_session_id) then Err "Coordinator cannot assign a swarm task to itself."
       else match ss_members s !! target with
            | None => Err ("Unknown session '" +:+ target +:+ "'")
            | Some m =>
                if bool_decide (sm_swarm_id m = Some swarm_id) then Ok target
                else Err ("Session '" +:+ target +:+ "' is not in swarm '" +:+ swarm_id
                          +:+ "' and cannot receive this task.")
            end, claims)
  | None =>
      let counts := default ∅ (assignment_loads <$> ss_plans s !! swarm_id) in
      select_and_claim_auto_target now swarm_id
        (sort_by (λ l r, not_greater (target_cmp counts l r))
           (filter_swarm_agent_candidates (ss_members s) req_session_id swarm_id)) counts claims
  end.

(** The recorded planner of an expanded node that is not a gate. *)
Definition composite_owner (p : VersionedPlan) (task_id : string) : option string :=
  vp_node_meta p !! task_id ≫= λ meta, if nm_expanded meta && negb (nm_is_gate meta) then nm_planner meta else None.

Definition resolve_assignment_target_for_task (req_session_id swarm_id task_id : string) (requested : option string)
  (s : SwarmState) (claims : gmap string N) : result string string * gmap string N :=
  match requested with
  | Some _ => resolve_assignment_target_session req_session_id swarm_id requested s claims
  | None =>
      let candidates := filter_swarm_agent_candidates (ss_members s) req_session_id swarm_id in
      let owner :=
        match ss_plans s !! swarm_id ≫= λ p, composite_owner p task_id with
        | Some owner =>
            if negb (bool_decide (owner = req_session_id))
               && existsb (λ m, bool_decide (sm_session_id m = owner)) candidates
            then Some owner else None
        | None => None
        end in
      let '(won, claims) := match owner with
                            | Some owner => try_claim_auto_assign_target now swarm_id owner claims
                            | None => (false, claims)
                            end in
      match owner, won with
      | Some owner, true => (Ok owner, claims)
      | _, _ =>
          match ss_plans s !! swarm_id with
          | None => (Err "No runnable unassigned tasks are available in the swarm plan", claims)
          | Some p =>
              match assignment_affinities_for_task p task_id with
              | Err e => (Err e, claims)
              | Ok a => select_and_claim_auto_target now swarm_id
                          (sort_by (λ l r, not_greater (task_target_cmp a l r)) candidates) (loads a) claims
              end
          end
      end
  end.

(** The next task that nobody holds, or else one stranded on a dead session
    (members are keyed by their session). *)
Definition stranded_is_dead (swarm_id : string) (members : gmap string SwarmMember) (session_id : string) : bool :=
  match members !! session_id with
  | Some m => if bool_decide (sm_swarm_id m = Some swarm_id) then member_status_is_dead (sm_status m) else true
  | None => true
  end.

Definition next_runnable_task_id_reclaiming_stranded (swarm_id : string) (s : SwarmState)
  : option string * SwarmState :=
  match ss_plans s !! swarm_id with
  | None => (None, s)
  | Some p =>
      match next_unassigned_runnable_item_id p with
      | Some id => (Some id, s)
      | None =>
          match next_stranded_runnable_item_id p (stranded_is_dead swarm_id (ss_members s)) with
          | None => (None, s)
          | Some id =>
              match reclaim_stranded_assignment id p with
              | (true, p) => (Some id, set_ss_plans (<[swarm_id := p]> (ss_plans s)) s)
              | (false, p) => (None, set_ss_plans (<[swarm_id := p]> (ss_plans s)) s)
              end
          end
      end
  end.
End Resolve.

(** ** The guard against double assignment *)

Record ActiveAssignmentConflict := mkConflict { cf_assignee : string; cf_active_ago_ms : N }.

Definition active_assignment_conflict (status : string) (assigned_to : option string)
  (progress : option SwarmTaskProgress) (now_ms active_within_ms : N) : option ActiveAssignmentConflict :=
  match assigned_to with
  | None => None
  | Some assignee =>
      if negb (is_one_of ["queued"; "running"] status) then None
      else
        match progress ≫= last_heartbeat with
        | None => None
        | Some last_activity_ms =>
            let active_ago_ms := (now_ms - last_activity_ms)%N in
            if (active_ago_ms <? active_within_ms)%N then Some (mkConflict assignee active_ago_ms) else None
        end
  end.

Definition active_assignment_error (task_id : string) (c : ActiveAssignmentConflict) : string :=
  "Task '" +:+ task_id +:+ "' is already assigned to '" +:+ cf_assignee c +:+ "' (active "
  +:+ pretty (cf_active_ago_ms c / 1000)%N
  +:+ "s ago); refusing to double-assign. Use task_control reassign/replace to take over (the displaced worker is told to stand down), retry to re-dispatch to the same assignee, or wait for the assignment to finish or go stale.".

(** ** The end of a turn *)

Inductive TurnEndDisposition := AutoComplete | RequeueNoArtifact | FailNoArtifact | LeaveAlone.

Definition turn_end_disposition (is_deep : bool) (status : string) (expanded : bool) (prior_no_artifact_requeues : N)
  : TurnEndDisposition :=
  if negb (is_one_of ["running"; "running_stale"] status) then LeaveAlone
  else if is_deep then (if (prior_no_artifact_requeues =? 0)%N then RequeueNoArtifact else FailNoArtifact)
  else if expanded then LeaveAlone
  else AutoComplete.

(** ** What a worker is told *)

Definition quote : string := str_bytes [34].

Definition composite_synthesis_content (item_id raw_content : string) (is_composite_synthesis : bool) : string :=
  if is_composite_synthesis then
    "Synthesis turn for composite node '" +:+ item_id
    +:+ "'. Its children (and the deep-mode critique/verify gate) are complete; their outputs are provided below. Read them, write one synthesized result, and finish by calling `swarm complete_node` with node_id="
    +:+ quote +:+ item_id +:+ quote
    +:+ " and an artifact summarizing the integrated findings. Do NOT call expand_node again. Original brief: "
    +:+ raw_content
  else raw_content.

Definition plan_is_deep (p : VersionedPlan) : bool := bool_decide (to_ascii_lowercase (vp_mode p) = "deep").

Definition is_composite (p : VersionedPlan) (id : string) : bool :=
  match vp_node_meta p !! id with Some meta => nm_expanded meta && negb (nm_is_gate meta) | None => false end.

Section Content.
Context (from_json : string → option HandoffArtifact).

Definition audited_ids (p : VersionedPlan) (item_id : string) : list string :=
  match find_item p item_id with
  | None => []
  | Some item => List.filter (λ dep, match vp_node_meta p !! dep with
                                     | Some meta => negb (nm_is_gate meta)
                                     | None => true
                                     end) (pi_blocked_by item)
  end.

Definition deep_mode_assignment_content (p : VersionedPlan) (item_id : string) (is_composite_synthesis : bool)
  (content : string) : string :=
  if negb (plan_is_deep p) || is_composite_synthesis then content
  else
    let is_gate := match vp_node_meta p !! item_id with Some meta => nm_is_gate meta | None => false end in
    if is_gate then
      let audited := audited_ids p item_id in
      append_deep_gate_instructions content item_id audited
        (List.filter (λ id, bool_decide (id ∈ audited)) (low_confidence_completed_ids from_json p))
    else append_deep_node_instructions content item_id.

(** What an assignment of the item says. *)
Definition assignment_content (p : VersionedPlan) (item : PlanItem) : string :=
  let synthesis := is_composite p (pi_id item) in
  deep_mode_assignment_content p (pi_id item) synthesis
    (hydrate_assignment from_json p (pi_id item)
       (composite_synthesis_content (pi_id item) (pi_content item) synthesis)).

Record TaskSnapshot := mkSnapshot {
  sn_content : string;
  sn_status : string;
  sn_assigned_to : option string;
  sn_progress : option SwarmTaskProgress }.

Definition task_snapshot_for (swarm_id task_id : string) (s : SwarmState) : option TaskSnapshot :=
  p ← ss_plans s !! swarm_id;
  item ← find_item p task_id;
  Some (mkSnapshot
          (deep_mode_assignment_content p task_id (is_composite p task_id)
             (hydrate_assignment from_json p task_id (pi_content item)))
          (pi_status item) (pi_assigned_to item) (vp_task_progress p !! task_id)).
End Content.

(** ** Progress records *)

Definition assigned_progress (target summary : string) (now_ms : N) : SwarmTaskProgress :=
  mkProgress (Some target) (Some summary) (Some now_ms) None None None None None None None None None None None.

Definition requeued_progress (assignee summary : string) (now_ms : N) (t : SwarmTaskProgress) : SwarmTaskProgress :=
  mkProgress (Some assignee) (Some summary) (Some now_ms) (tp_started_at_unix_ms t) (tp_last_heartbeat_unix_ms t)
    (tp_last_detail t) (tp_last_checkpoint_unix_ms t) (tp_checkpoint_summary t) None None (tp_heartbeat_count t)
    (tp_checkpoint_count t) (tp_no_artifact_requeues t) (tp_dead_assignee_reclaims t).

Definition started_progress (target text : string) (now_ms : N) (t : SwarmTaskProgress) : SwarmTaskProgress :=
  mkProgress (Some target) (Some (truncate_detail text 120)) (tp_assigned_at_unix_ms t) (Some now_ms) (Some now_ms)
    (Some (truncate_detail text 120)) (Some now_ms) (Some "task started") None None (count_up (tp_heartbeat_count t))
    (count_up (tp_checkpoint_count t)) (tp_no_artifact_requeues t) (tp_dead_assignee_reclaims t).

(** The ends that close the task ("task completed", "failed: ...", an error). *)
Definition closed_progress (summary : string) (now_ms : N) (t : SwarmTaskProgress) : SwarmTaskProgress :=
  mkProgress (tp_assigned_session_id t) (tp_assignment_summary t) (tp_assigned_at_unix_ms t) (tp_started_at_unix_ms t)
    (Some now_ms) (tp_last_detail t) (Some now_ms) (Some summary) (Some now_ms) None (tp_heartbeat_count t)
    (count_up (tp_checkpoint_count t)) (tp_no_artifact_requeues t) (tp_dead_assignee_reclaims t).

Definition requeued_no_artifact_progress (prior now_ms : N) (t : SwarmTaskProgress) : SwarmTaskProgress :=
  mkProgress None (tp_assignment_summary t) (tp_assigned_at_unix_ms t) (tp_started_at_unix_ms t) (Some now_ms)
    (tp_last_detail t) (Some now_ms)
    (Some "requeued: deep-mode turn ended without a complete_node artifact")
    (tp_completed_at_unix_ms t) None (tp_heartbeat_count t) (count_up (tp_checkpoint_count t))
    (Some (u32_succ prior)) (tp_dead_assignee_reclaims t).

(** ** Sections on the plan *)

Definition on_item (task_id : string) (f : PlanItem → PlanItem) (g : SwarmTaskProgress → SwarmTaskProgress)
  (p : VersionedPlan) : VersionedPlan :=
  bump_version (set_progress (update_progress task_id g (vp_task_progress p))
                  (set_items (update_item task_id f (vp_items p)) p)).

(** The start of a run. *)
Definition start_run (target task_id text : string) (now_ms : N) (p : VersionedPlan) : VersionedPlan :=
  match find_item p task_id with
  | None => p
  | Some _ => on_item task_id (set_item_status "running") (started_progress target text now_ms) p
  end.

Definition prior_requeues (p : VersionedPlan) (task_id : string) : N :=
  default 0%N (vp_task_progress p !! task_id ≫= tp_no_artifact_requeues).

(** The end of a turn that succeeded. *)
Definition end_turn (task_id : string) (now_ms : N) (p : VersionedPlan) : TurnEndDisposition * VersionedPlan :=
  match find_item p task_id with
  | None => (LeaveAlone, p)
  | Some item =>
      let d := turn_end_disposition (plan_is_deep p) (pi_status item) (is_composite p task_id) (prior_requeues p task_id) in
      (d, match d with
          | AutoComplete => on_item task_id (set_item_status "done") (closed_progress "task completed" now_ms) p
          | RequeueNoArtifact =>
              on_item task_id (λ i, set_item_assignee None (set_item_status "queued" i))
                (requeued_no_artifact_progress (prior_requeues p task_id) now_ms) p
          | FailNoArtifact =>
              on_item task_id (set_item_status "failed")
                (closed_progress "failed: repeated deep-mode turns ended without a complete_node artifact" now_ms) p
          | LeaveAlone => p
          end)
  end.

(** A run that ended in an error. *)
Definition fail_run (task_id error : string) (now_ms : N) (p : VersionedPlan) : VersionedPlan :=
  match find_item p task_id with
  | None => p
  | Some _ => on_item task_id (set_item_status "failed")
                (closed_progress (truncate_detail ("task failed: " +:+ error) 120) now_ms) p
  end.

Definition requeue_existing_assignment (req_session_id assignee task_id summary : string) (now_ms : N)
  (p : VersionedPlan) : option VersionedPlan :=
  match find_item p task_id with
  | None => None
  | Some _ =>
      Some (insert_participant assignee (insert_participant req_session_id
              (on_item task_id (λ i, set_item_status "queued" (set_item_assignee (Some assignee) i))
                 (requeued_progress assignee (truncate_detail summary 120) now_ms) p)))
  end.

(** ** Runs *)

Section Runs.
Context {I : MapIter} (closed : N → bool) (now now_ms : N).

(** [spawn_assigned_task_run] up to the turn. *)
Definition run_started (target swarm_id task_id assignment_text : string) (s : SwarmState) : SwarmState * list Effect :=
  let text := append_swarm_completion_report_instructions assignment_text in
  let s := alter_plan (start_run target task_id text now_ms) swarm_id s in
  let plan_effects := broadcast_swarm_plan closed swarm_id (Some "task_running") s in
  let s := set_member_task_label target text s in
  let '(s, status_effects) := update_member_status closed now target "running" (Some (truncate_detail text 120)) true s in
  (s, [Persist swarm_id] ++ plan_effects ++ status_effects).

(** A heartbeat, or the event sender of the turn on an event that tells
    something; the event itself is then fanned out. *)
Definition run_touched (target swarm_id task_id : string) (detail checkpoint : option string) (s : SwarmState)
  : SwarmState * list Effect :=
  let '(revived, s, effects) := touch_swarm_task_progress now_ms swarm_id task_id (Some target) detail checkpoint s in
  let '(s, status_effects) :=
    match detail with
    | Some d => update_member_status closed now target "running" (Some (truncate_detail d 120)) true s
    | None => (s, [])
    end in
  (s, effects ++ status_effects
      ++ (if revived then broadcast_swarm_plan closed swarm_id (Some "task_heartbeat") s else [])).

(** The turn returned. *)
Definition run_ended (target swarm_id task_id : string) (completion_report : option string) (s : SwarmState)
  : SwarmState * list Effect :=
  let disposition := default LeaveAlone ((λ p, (end_turn task_id now_ms p).1) <$> ss_plans s !! swarm_id) in
  let s := alter_plan (λ p, (end_turn task_id now_ms p).2) swarm_id s in
  let reason := match disposition with
                | RequeueNoArtifact => "task_requeued_no_artifact"
                | FailNoArtifact => "task_failed_no_artifact"
                | _ => "task_completed"
                end in
  let plan_effects := broadcast_swarm_plan closed swarm_id (Some reason) s in
  let '(s, status_effects) :=
    update_member_status_with_report closed now target "completed" None completion_report true s in
  (s, [Persist swarm_id] ++ plan_effects ++ status_effects).

(** The turn failed. *)
Definition run_failed (target swarm_id task_id error : string) (s : SwarmState) : SwarmState * list Effect :=
  let s := alter_plan (fail_run task_id error now_ms) swarm_id s in
  let plan_effects := broadcast_swarm_plan closed swarm_id (Some "task_failed") s in
  let '(s, status_effects) := update_member_status closed now target "failed" (Some (truncate_detail error 120)) true s in
  (s, [Persist swarm_id] ++ plan_effects ++ status_effects).
End Runs.

(** The event sender's reading of an event of the turn. *)
Inductive TurnEvent := TeStatusDetail (detail : string) | TeToolStart (name : string)
| TeToolDone (name : string) (error : bool) | TeOther.

Definition turn_event_progress (e : TurnEvent) : option string * option string :=
  match e with
  | TeStatusDetail detail => (Some detail, None)
  | TeToolStart name => let summary := "tool start: " +:+ name in (Some summary, Some summary)
  | TeToolDone name error =>
      let summary := (if error then "tool error: " else "tool done: ") +:+ name in (Some summary, Some summary)
  | TeOther => (None, None)
  end.

(** ** Messages of a salvage *)

Record ToolCallSummary := mkCall { tc_tool_name : string; tc_brief_output : string }.

Definition format_salvage_message (source_session : string) (source_name : option string)
  (summaries : list ToolCallSummary) (extra_message : option string) : string :=
  let label := default source_session source_name in
  "Salvage prior progress from " +:+ label +:+ ". Review this before continuing the task." +:+ newline +:+ newline
  +:+ match summaries with
      | [] => "No recorded tool call summary was available from the previous assignee."
      | _ => "Recent prior activity:" +:+ newline
             +:+ String.concat "" ((λ call, "- " +:+ tc_tool_name call +:+ ": "
                    +:+ truncate_detail (if bool_decide (trim (tc_brief_output call) = "") then "no result summary"
                                         else tc_brief_output call) 180 +:+ newline) <$> take 12 summaries)
      end
  +:+ match extra_message with
      | Some extra => newline +:+ newline +:+ "Additional coordinator instructions:" +:+ newline +:+ extra
      | None => ""
      end.

(** ** Handlers *)

Inductive AssignDedupMode := ReplayFinal | AlwaysDispatch.
#[export] Instance AssignDedupMode_eq_dec : EqDecision AssignDedupMode.
Proof. solve_decision. Defined.

Record Server := mkServer { sv_state : SwarmState; sv_claims : gmap string N }.

(** What the requester is told: an event of its own, the response of the
    mutation (Mutation.v delivers it), or nothing from this thread. *)
Inductive Reply := RSend (e : ServerEvent) | RFinish (r : MutationResponse) | RJoined.

Definition fails (id : N) (message : string) : Reply := RSend (EvError id message None).
Definition finish_error (message : string) : Reply := RFinish (MrError message None).

(** [opt.and_then(|t| (!t.trim().is_empty()).then(|| t.trim()))]. *)
Definition non_blank (o : option string) : option string :=
  match o with
  | Some t => if bool_decide (trim t = "") then None else Some (trim t)
  | None => None
  end.

Section Handlers.
Context {I : MapIter} (from_json : string → option HandoffArtifact) (closed : N → bool) (now now_ms stale_after : N).
Context (agents : gset string) (busy : string → bool) (clients : gset string)
  (call_summaries : string → list ToolCallSummary)
  (executes : string → list string → AssignDedupMode → bool)
  (spawn_swarm_agent : string → string → Server → result string string * Server * list Effect).

Definition require_plan_driver_swarm (req_session_id permission_error : string) (s : SwarmState)
  : result string string :=
  match ss_members s !! req_session_id ≫= sm_swarm_id with
  | None => Err "Not in a swarm."
  | Some swarm_id =>
      let is_coordinator := bool_decide (ss_coordinators s !! swarm_id = Some req_session_id) in
      let is_deep_participant :=
        match ss_plans s !! swarm_id with
        | Some p => (match parse_mode (vp_mode p) with Deep => true | Light => false end)
                    && bool_decide (req_session_id ∈ vp_participants p)
        | None => false
        end in
      if is_coordinator || is_deep_participant then Ok swarm_id else Err permission_error
  end.

(** *** assign_role *)

Definition may_assign_roles (req_session_id target_session role : string) (s : SwarmState) : bool :=
  match ss_members s !! req_session_id ≫= sm_swarm_id with
  | None => false
  | Some sid =>
      let current := ss_coordinators s !! sid in
      if bool_decide (current = Some req_session_id) then true
      else if bool_decide (role = "coordinator") && bool_decide (target_session = req_session_id) then
        match current with
        | Some coord_id =>
            match ss_members s !! coord_id with
            | Some m => closed (sm_event_tx m) || sm_is_headless m
            | None => true
            end || negb (bool_decide (coord_id ∈ agents))
        | None => true
        end
      else false
  end.

Definition handle_comm_assign_role (id : N) (req_session_id target_session role : string) (sv : Server)
  : Server * list Effect * Reply :=
  let s := sv_state sv in
  match may_assign_roles req_session_id target_session role s, ss_members s !! req_session_id ≫= sm_swarm_id with
  | false, _ => (sv, [], fails id "Only the coordinator can assign roles. (Tip: if the coordinator has disconnected, use assign_role with target_session set to your own session ID to self-promote.)")
  | true, None => (sv, [], fails id "Not in a swarm.")
  | true, Some swarm_id =>
      if negb (executes "assign_role" [swarm_id; target_session; role] ReplayFinal) then (sv, [], RJoined)
      else
        match ss_members s !! target_session with
        | None => (sv, [], finish_error ("Unknown session '" +:+ target_session +:+ "'"))
        | Some _ =>
            let s := alter_member (set_member_role role) target_session s in
            let s := if bool_decide (role = "coordinator") then
                       let s := set_ss_coordinators (<[swarm_id := target_session]> (ss_coordinators s)) s in
                       alter_member (λ m, if bool_decide (sm_session_id m = target_session) then m
                                          else set_member_role "agent" m) req_session_id s
                     else s in
            (mkServer s (sv_claims sv),
             [Persist swarm_id; BroadcastStatus swarm_id;
              Record_event req_session_id None (Some swarm_id)
                (SeNotification "role_assignment" (target_session +:+ " -> " +:+ role))],
             RFinish MrDone)
        end
  end.

(** *** assign_task *)

Definition conflict_reason (mode : AssignDedupMode) (requested : option string) (p : VersionedPlan) : option string :=
  match mode, requested with
  | ReplayFinal, Some task_id =>
      active_assignment_error task_id <$>
        (find_item p task_id ≫= λ item,
           active_assignment_conflict (pi_status item) (pi_assigned_to item) (vp_task_progress p !! task_id)
             now_ms stale_after)
  | _, _ => None
  end.

Definition blocked_reason (mode : AssignDedupMode) (requested : option string) (p : VersionedPlan) : option string :=
  match conflict_reason mode requested p with
  | Some reason => Some reason
  | None => requested ≫= explicit_task_blocked_reason p
  end.

Definition selected_item (mode : AssignDedupMode) (requested : option string) (p : VersionedPlan) : option PlanItem :=
  match blocked_reason mode requested p with
  | Some _ => None
  | None => (match requested with Some t => Some t | None => next_unassigned_runnable_item_id p end) ≫= find_item p
  end.

Definition record_assignment (req_session_id target : string) (message : option string) (item : PlanItem)
  (p : VersionedPlan) : VersionedPlan :=
  let summary := truncate_detail (combine_assignment_text (assignment_content from_json p item) message) 120 in
  insert_participant target (insert_participant req_session_id
    (bump_version
       (set_progress (<[pi_id item := assigned_progress target summary now_ms]> (vp_task_progress p))
          (set_items (update_item (pi_id item) (λ i, set_item_status "queued" (set_item_assignee (Some target) i))
                        (vp_items p)) p)))).

(** After the plan is written: the messages, the status, the run.  The order
    in which the other participants are told is the table's. *)
Definition announce_assignment (req_session_id target swarm_id task_id content : string) (message : option string)
  (participants : list string) (item_count : nat) (s : SwarmState) : SwarmState * list Effect :=
  let plan_effects := broadcast_swarm_plan closed swarm_id (Some "task_assigned") s in
  let coordinator_name := ss_members s !! req_session_id ≫= sm_friendly_name in
  let notification :=
    match message with
    | Some extra => "Task assigned to you by coordinator: " +:+ content +:+ " " +:+ str_bytes [226; 128; 148] +:+ " " +:+ extra
    | None => "Task assigned to you by coordinator: " +:+ content
    end in
  let assignment_text := combine_assignment_text content message in
  let s := set_member_task_label target assignment_text s in
  let '(s, status_effects) :=
    update_member_status closed now target "queued" (Some (truncate_detail assignment_text 120)) true s in
  let tell scope text sid :=
    match ss_members s !! sid with
    | Some m => send closed (sm_event_tx m) (EvNotification req_session_id coordinator_name scope None text)
    | None => []
    end in
  (s, [Persist swarm_id] ++ plan_effects
      ++ [Record_event req_session_id None (Some swarm_id) (SePlanUpdate swarm_id item_count)] ++ status_effects
      ++ [SoftInterrupt target (append_swarm_completion_report_instructions notification) false]
      ++ tell "dm" notification target
      ++ (if negb (bool_decide (target ∈ clients)) && bool_decide (target ∈ agents)
          then [StartRun target swarm_id task_id assignment_text] else [])
      ++ mjoin ((λ sid, if bool_decide (sid = target) || bool_decide (sid = req_session_id) then []
                        else tell "plan" ("Plan updated: task '" +:+ task_id +:+ "' assigned to " +:+ target +:+ ".") sid)
                  <$> participants)).

(** The body of an assignment that executes. *)
Definition assign_task_body (req_session_id swarm_id : string) (requested_target requested_task message : option string)
  (mode : AssignDedupMode) (sv : Server) : Server * list Effect * Reply :=
  match resolve_assignment_target_session now req_session_id swarm_id requested_target (sv_state sv) (sv_claims sv) with
  | (Err e, claims) => (mkServer (sv_state sv) claims, [], finish_error e)
  | (Ok target, claims) =>
      let release := λ claims, match requested_target with
                               | None => release_auto_assign_claim swarm_id target claims
                               | Some _ => claims
                               end in
      let p := default plan_new (ss_plans (sv_state sv) !! swarm_id) in
      match selected_item mode requested_task p with
      | None =>
          (mkServer (set_ss_plans (<[swarm_id := p]> (ss_plans (sv_state sv))) (sv_state sv)) (release claims), [],
           finish_error (match blocked_reason mode requested_task p, requested_task with
                         | Some reason, _ => reason
                         | None, None => "No runnable unassigned tasks are available in the swarm plan"
                         | None, Some task_id => "Task '" +:+ task_id +:+ "' not found in swarm plan"
                         end))
      | Some item =>
          let content := assignment_content from_json p item in
          let p' := record_assignment req_session_id target message item p in
          let s := set_ss_plans (<[swarm_id := p']> (ss_plans (sv_state sv))) (sv_state sv) in
          let '(s, effects) := announce_assignment req_session_id target swarm_id (pi_id item) content message
                                 (elements (vp_participants p')) (length (vp_items p')) s in
          (mkServer s (release claims), effects, RFinish (MrAssignTask (pi_id item) target))
      end
  end.

Definition handle_comm_assign_task_with_mode (id : N) (req_session_id : string)
  (target_session task_id message : option string) (mode : AssignDedupMode) (sv : Server)
  : Server * list Effect * Reply :=
  let target := non_blank target_session in
  let task := non_blank task_id in
  match require_plan_driver_swarm req_session_id "Only the coordinator can assign tasks." (sv_state sv) with
  | Err e => (sv, [], fails id e)
  | Ok swarm_id =>
      if negb (executes "assign_task" [swarm_id; default "__next_available__" target;
                                       default "__next_runnable__" task; default "" message] mode)
      then (sv, [], RJoined)
      else assign_task_body req_session_id swarm_id target task message mode sv
  end.

Definition handle_comm_assign_task (id : N) (req_session_id : string) (target_session task_id message : option string)
  (sv : Server) : Server * list Effect * Reply :=
  handle_comm_assign_task_with_mode id req_session_id target_session task_id message ReplayFinal sv.

(** *** assign_next *)

Definition handle_comm_assign_next (id : N) (req_session_id : string) (target_session : option string)
  (prefer_spawn spawn_if_needed : option bool) (message : option string) (sv : Server)
  : Server * list Effect * Reply :=
  match target_session with
  | Some _ => handle_comm_assign_task id req_session_id target_session None message sv
  | None =>
      match require_plan_driver_swarm req_session_id "Only the coordinator can assign tasks." (sv_state sv) with
      | Err e => (sv, [], fails id e)
      | Ok swarm_id =>
          match next_runnable_task_id_reclaiming_stranded swarm_id (sv_state sv) with
          | (None, s) =>
              (mkServer s (sv_claims sv), [], fails id "No runnable unassigned tasks are available in the swarm plan")
          | (Some selected, s) =>
              let '(preferred, claims) :=
                resolve_assignment_target_for_task now req_session_id swarm_id selected None s (sv_claims sv) in
              let prefer := default false prefer_spawn in
              if (prefer || default false spawn_if_needed) && (prefer || negb (is_ok preferred)) then
                let claims := match preferred with
                              | Ok unused => release_auto_assign_claim swarm_id unused claims
                              | Err _ => claims
                              end in
                match spawn_swarm_agent req_session_id swarm_id (mkServer s claims) with
                | (Ok spawned, sv, effects) =>
                    let '(sv, more, reply) :=
                      handle_comm_assign_task id req_session_id (Some spawned) (Some selected) message sv in
                    (sv, effects ++ more, reply)
                | (Err error, sv, effects) =>
                    (sv, effects, fails id ("Failed to spawn preferred worker: " +:+ error))
                end
              else
                match preferred with
                | Ok target =>
                    let '(sv, effects, reply) :=
                      handle_comm_assign_task id req_session_id (Some target) (Some selected) message (mkServer s claims) in
                    (mkServer (sv_state sv) (release_auto_assign_claim swarm_id target (sv_claims sv)), effects, reply)
                | Err e => (mkServer s claims, [], fails id e)
                end
          end
      end
  end.

(** *** task_control *)

Definition task_id_for_target_session (swarm_id target_session : string) (action : TaskControlAction) (s : SwarmState)
  : result string string :=
  match ss_plans s !! swarm_id with
  | None => Err "No swarm plan exists for this swarm."
  | Some p => task_control_target_item_id (vp_items p) target_session action
  end.

(** The task the request is about. *)
Definition controlled_task (swarm_id : string) (action : TaskControlAction) (task_id : string)
  (target_session : option string) (s : SwarmState) : result string string :=
  if bool_decide (trim task_id = "") then
    match target_session with
    | None => Err ("task_id is required for " +:+ action_as_str action
                   +:+ " unless target_session uniquely identifies an assigned task.")
    | Some target => task_id_for_target_session swarm_id target action s
    end
  else Ok task_id.

(** start, wake and resume. *)
Definition control_restart (id : N) (req_session_id swarm_id task_id assignee : string) (action : TaskControlAction)
  (target_session message : option string) (snapshot : TaskSnapshot) (sv : Server) : Server * list Effect * Reply :=
  let text := build_control_assignment_text action (sn_content snapshot) message in
  let reply status := RSend (EvTaskControl id (action_as_str action) task_id (Some assignee) status) in
  let mismatch := match target_session with
                  | Some requested => if bool_decide (requested = assignee) then None else Some requested
                  | None => None
                  end in
  match mismatch with
  | Some requested =>
      (sv, [], fails id ("Task '" +:+ task_id +:+ "' is assigned to '" +:+ assignee +:+ "', not '" +:+ requested
                         +:+ "'. Use reassign or replace to change ownership."))
  | None =>
      if negb (bool_decide (assignee ∈ agents)) then
        (sv, [], fails id ("Assigned session '" +:+ assignee
           +:+ "' is not available. Use replace or salvage to move the task to another agent."))
      else
        match ss_members (sv_state sv) !! assignee with
        | None =>
            (sv, [], fails id ("Assigned session '" +:+ assignee
               +:+ "' is no longer in the swarm. Use replace or salvage to move the task."))
        | Some _ =>
            if negb (busy assignee) then
              let '(s, effects) :=
                match (if bool_decide (sn_status snapshot = "queued") then None
                       else ss_plans (sv_state sv) !! swarm_id
                            ≫= requeue_existing_assignment req_session_id assignee task_id text now_ms) with
                | Some p =>
                    let s := set_ss_plans (<[swarm_id := p]> (ss_plans (sv_state sv))) (sv_state sv) in
                    (s, Persist swarm_id :: broadcast_swarm_plan closed swarm_id (Some ("task_" +:+ action_as_str action)) s)
                | None => (sv_state sv, [])
                end in
              (mkServer s (sv_claims sv), effects ++ [StartRun assignee swarm_id task_id text], reply "running")
            else if (match action with Wake => true | _ => false end) then
              (sv, [SoftInterrupt assignee
                      ("Coordinator requested you wake and continue task '" +:+ task_id +:+ "'." +:+ newline +:+ newline
                       +:+ append_swarm_completion_report_instructions text) false], reply "queued")
            else
              (sv, [], RSend (EvError id ("Assigned session '" +:+ assignee
                 +:+ "' is currently busy. Use wake to queue the task, or retry once the agent is idle.") (Some 1%N)))
        end
  end.

Definition retry_note (message : option string) : string :=
  match message with
  | None => "Retry this assignment."
  | Some extra => "Retry this assignment." +:+ newline +:+ newline +:+ "Additional coordinator instructions:" +:+ newline +:+ extra
  end.

(** What the new worker is told about the old one. *)
Definition handoff_message (action : TaskControlAction) (assignee : string) (message : option string)
  (snapshot : TaskSnapshot) (s : SwarmState) : option string :=
  match action with
  | Salvage =>
      let summaries := if bool_decide (assignee ∈ agents) && negb (busy assignee) then call_summaries assignee else [] in
      let section title o := match o with Some text => newline +:+ newline +:+ title +:+ newline +:+ text | None => "" end in
      Some (format_salvage_message assignee (ss_members s !! assignee ≫= sm_friendly_name) summaries message
            +:+ match sn_progress snapshot with
                | Some t => section "Latest checkpoint summary:" (tp_checkpoint_summary t)
                            +:+ section "Latest recorded detail:" (tp_last_detail t)
                | None => ""
                end)
  | Replace =>
      Some ("This task is replacing prior assignee '" +:+ assignee +:+ "'."
            +:+ match message with
                | Some extra => newline +:+ newline +:+ "Additional coordinator instructions:" +:+ newline +:+ extra
                | None => ""
                end)
  | _ => message
  end.

Definition stand_down (task_id new_target : string) (action : TaskControlAction) : string :=
  "Task '" +:+ task_id +:+ "' has been handed off to '" +:+ new_target +:+ "' by the coordinator ("
  +:+ action_as_str action
  +:+ "). Stop working on it immediately: do not make further edits or commits for that task. If you have uncommitted progress worth keeping, note it in a brief message to the coordinator, then stand down.".

Definition takeover_landed (swarm_id task_id new_target : string) (s : SwarmState) : bool :=
  match ss_plans s !! swarm_id ≫= λ p, find_item p task_id with
  | Some item => bool_decide (pi_assigned_to item = Some new_target)
  | None => false
  end.

(** reassign, replace and salvage. *)
Definition control_handoff (id : N) (req_session_id swarm_id task_id assignee : string) (action : TaskControlAction)
  (target_session message : option string) (snapshot : TaskSnapshot) (sv : Server) : Server * list Effect * Reply :=
  match target_session with
  | None => (sv, [], fails id ("'target_session' is required for " +:+ action_as_str action +:+ "."))
  | Some new_target =>
      if bool_decide (new_target = assignee) then
        (sv, [], fails id ("Task '" +:+ task_id +:+ "' is already assigned to '" +:+ assignee +:+ "'."))
      else if bool_decide (sn_status snapshot = "running") then
        (sv, [], RSend (EvError id ("Task '" +:+ task_id +:+ "' is actively running on '" +:+ assignee
           +:+ "'. Wait, wake, or stop that agent before handing the task off.") (Some 1%N)))
      else if (match action with Replace => true | _ => false end)
              && negb (is_one_of ["queued"; "failed"; "stopped"; "crashed"; "running_stale"] (sn_status snapshot)) then
        (sv, [], fails id ("Task '" +:+ task_id +:+ "' is '" +:+ sn_status snapshot +:+ "' and cannot be safely replaced."))
      else
        let '(sv', effects, reply) :=
          handle_comm_assign_task_with_mode id req_session_id (Some new_target) (Some task_id)
            (handoff_message action assignee message snapshot (sv_state sv)) AlwaysDispatch sv in
        (sv', effects ++ (if takeover_landed swarm_id task_id new_target (sv_state sv') then
                            [SoftInterrupt assignee (stand_down task_id new_target action) true]
                            ++ match ss_members (sv_state sv') !! assignee with
                               | Some m => send closed (sm_event_tx m)
                                             (EvNotification req_session_id None "dm" None (stand_down task_id new_target action))
                               | None => []
                               end
                          else []), reply)
  end.

Definition handle_comm_task_control (id : N) (req_session_id action task_id : string)
  (target_session message : option string) (sv : Server) : Server * list Effect * Reply :=
  match action_parse action with
  | None => (sv, [], fails id "Unknown task control action. Use start, wake, resume, retry, reassign, replace, or salvage.")
  | Some action =>
      match require_plan_driver_swarm req_session_id "Only the coordinator can control assigned tasks." (sv_state sv) with
      | Err e => (sv, [], fails id e)
      | Ok swarm_id =>
          match controlled_task swarm_id action task_id target_session (sv_state sv) with
          | Err e => (sv, [], fails id e)
          | Ok task_id =>
              match task_snapshot_for from_json swarm_id task_id (sv_state sv) with
              | None => (sv, [], fails id ("Task '" +:+ task_id +:+ "' not found in swarm plan"))
              | Some snapshot =>
                  if negb (task_control_action_allows_status action (sn_status snapshot)) then
                    (sv, [], fails id (task_control_status_error action (sn_status snapshot) task_id))
                  else
                    match sn_assigned_to snapshot with
                    | None =>
                        (sv, [], fails id ("Task '" +:+ task_id
                           +:+ "' is not currently assigned. Use assign_task to create the first assignment."))
                    | Some assignee =>
                        match action with
                        | Start | Wake | Resume =>
                            control_restart id req_session_id swarm_id task_id assignee action target_session message
                              snapshot sv
                        | Retry =>
                            handle_comm_assign_task_with_mode id req_session_id (Some assignee) (Some task_id)
                              (Some (retry_note message)) AlwaysDispatch sv
                        | Reassign | Replace | Salvage =>
                            control_handoff id req_session_id swarm_id task_id assignee action target_session message
                              snapshot sv
                        end
                    end
              end
          end
      end
  end.
End Handlers.
