(* ===== verification/ControlClaims.v ===== *)
(** * Theorems on assigning and controlling tasks

    The worker an automatic choice takes, how the claims keep concurrent choices
    apart, what an assignment changes and what it refuses, how a run ends, and
    what task_control may touch. *)

From stdpp Require Import base list strings gmap pretty sorting.
From S2P Require Import Prelude RustString Dag Plan PlanClaims Bridge Swarm SwarmServer SwarmServerClaims Mutation Control.

Open Scope string_scope.
Open Scope nat_scope.
Open Scope list_scope.

(** ** The choice of a worker *)

Definition target_key (loads : gmap string nat) (m : SwarmMember) : nat * (nat * string) :=
  (load_of loads (sm_session_id m), (ready_rank m, sm_session_id m)).

Lemma target_cmp_key loads l r :
  target_cmp loads l r = pair_cmp Nat.compare (pair_cmp Nat.compare String.compare) (target_key loads l) (target_key loads r).
Proof. done. Qed.

Definition task_key (a : AssignmentAffinities) (m : SwarmMember) : nat * (nat * (nat * (nat * string))) :=
  (load_of (dependency_carryover a) (sm_session_id m),
   (load_of (metadata_carryover a) (sm_session_id m), target_key (loads a) m)).

Definition task_key_cmp := pair_cmp (flip Nat.compare) (pair_cmp (flip Nat.compare)
  (pair_cmp Nat.compare (pair_cmp Nat.compare String.compare))).

#[local] Instance task_key_order : TotalOrder task_key_cmp.
Proof. pose proof (flip_total_order Nat.compare _). unfold task_key_cmp. apply _. Qed.

Lemma task_cmp_key a l r : task_target_cmp a l r = task_key_cmp (task_key a l) (task_key a r).
Proof. done. Qed.

(** Nobody else's work and nobody else's pick. *)
Definition is_free (now : N) (swarm_id : string) (loads : gmap string nat) (claims : gmap string N) (m : SwarmMember) : bool :=
  negb (member_has_active_assignment (sm_session_id m) loads)
  && bool_decide (live_claims now claims !! auto_assign_claim_key swarm_id (sm_session_id m) = None).

Lemma live_claims_idemp now claims : live_claims now (live_claims now claims) = live_claims now claims.
Proof. unfold live_claims. rewrite map_filter_filter. apply map_filter_ext. naive_solver. Qed.

Lemma is_free_live now swarm_id loads claims m :
  is_free now swarm_id loads (live_claims now claims) m = is_free now swarm_id loads claims m.
Proof. unfold is_free. by rewrite live_claims_idemp. Qed.

Lemma select_from_spec now swarm_id cands loads n claims :
  match select_from now swarm_id cands loads n claims with
  | (Ok t, claims') => ∃ pre m post, cands = pre ++ m :: post ∧ sm_session_id m = t
      ∧ is_free now swarm_id loads claims m = true ∧ Forall (λ m, is_free now swarm_id loads claims m = false) pre
      ∧ claims' = <[auto_assign_claim_key swarm_id t := now]> (live_claims now claims)
  | (Err e, claims') => e = no_auto_target_error (n + length cands)
      ∧ Forall (λ m, is_free now swarm_id loads claims m = false) cands
      ∧ live_claims now claims' = live_claims now claims
  end.
Proof.
  revert n claims. induction cands as [|m rest IH]; intros n claims; cbn [select_from].
  { rewrite Nat.add_0_r. by split_and!. }
  assert (∀ c, (c = claims ∨ c = live_claims now claims) → is_free now swarm_id loads claims m = false →
    match select_from now swarm_id rest loads (S n) c with
    | (Ok t, claims') => ∃ pre m' post, m :: rest = pre ++ m' :: post ∧ sm_session_id m' = t
        ∧ is_free now swarm_id loads claims m' = true ∧ Forall (λ m, is_free now swarm_id loads claims m = false) pre
        ∧ claims' = <[auto_assign_claim_key swarm_id t := now]> (live_claims now claims)
    | (Err e, claims') => e = no_auto_target_error (n + S (length rest))
        ∧ Forall (λ m, is_free now swarm_id loads claims m = false) (m :: rest)
        ∧ live_claims now claims' = live_claims now claims
    end) as Hskip.
  { intros c Hc Hm. specialize (IH (S n) c).
    assert (∀ x, is_free now swarm_id loads c x = is_free now swarm_id loads claims x) as Hf.
    { intros x. destruct Hc as [-> | ->]; [done | apply is_free_live]. }
    assert (live_claims now c = live_claims now claims) as Hl by (destruct Hc as [-> | ->]; [done | apply live_claims_idemp]).
    destruct (select_from now swarm_id rest loads (S n) c) as [[t|e] claims'].
    - destruct IH as (pre & m' & post & -> & <- & H1 & H2 & ->). exists (m :: pre), m', post.
      rewrite Hf in H1. rewrite Hl. split_and!; try done. constructor; [done|]. eapply Forall_impl; [exact H2|]. intros x. cbv beta. by rewrite Hf.
    - destruct IH as (-> & H2 & H3). rewrite Hl in H3. rewrite Nat.add_succ_r. split_and!; [done| |done].
      constructor; [done|]. eapply Forall_impl; [exact H2|]. intros x. cbv beta. by rewrite Hf. }
  destruct (member_has_active_assignment (sm_session_id m) loads) eqn:Hload.
  { apply Hskip; [by left|]. unfold is_free. by rewrite Hload. }
  unfold try_claim_auto_assign_target.
  destruct (live_claims now claims !! auto_assign_claim_key swarm_id (sm_session_id m)) as [at0|] eqn:Hcl.
  { apply Hskip; [by right|]. unfold is_free. by rewrite Hload, Hcl. }
  exists [], m, rest. split_and!; try done. unfold is_free. rewrite Hload, Hcl. by rewrite bool_decide_true.
Qed.

(** Among the free candidates the first of a sorted list is a least one. *)
Lemma sorted_first_free {K} (cmp : K → K → comparison) `{!TotalOrder cmp} (key : SwarmMember → K) (free : SwarmMember → bool)
  cands pre m post x :
  sort_by (λ l r, not_greater (cmp (key l) (key r))) cands = pre ++ m :: post →
  Forall (λ m, free m = false) pre → x ∈ cands → free x = true → not_greater (cmp (key m) (key x)) = true.
Proof.
  intros Hs Hpre Hx Hfree.
  assert (x ∈ pre ++ m :: post) as Hx'. { rewrite <- Hs. by apply elem_of_sort_by. }
  assert (StronglySorted (λ l r, not_greater (cmp (key l) (key r)) = true) (pre ++ m :: post)) as Hss.
  { rewrite <- Hs. apply sort_by_sorted; [intros; apply not_greater_total, _ | intros ?? ?; by apply not_greater_trans]. }
  apply elem_of_app in Hx' as [Hx' | [-> | Hx']%elem_of_cons].
  - rewrite Forall_forall in Hpre. by rewrite (Hpre x Hx') in Hfree.
  - by rewrite (cmp_refl cmp).
  - apply StronglySorted_app in Hss as (_ & _ & Hss). apply StronglySorted_inv in Hss as [_ Hss].
    rewrite Forall_forall in Hss. by apply Hss.
Qed.

Section Pick.
Context {I : MapIter}.

Lemma elem_of_auto_candidates members req swarm_id m :
  (∀ k m, members !! k = Some m → sm_session_id m = k) →
  m ∈ filter_swarm_agent_candidates members req swarm_id
  ↔ members !! sm_session_id m = Some m ∧ is_auto_candidate req swarm_id m = true.
Proof.
  intros Hk. unfold filter_swarm_agent_candidates, member_values. rewrite elem_of_List_filter.
  enough (m ∈ (map_iter members).*2 ↔ members !! sm_session_id m = Some m) by naive_solver.
  rewrite list_elem_of_fmap. split.
  - intros ([k m'] & -> & H). rewrite map_iter_perm, elem_of_map_to_list in H. cbn. by rewrite (Hk k m' H).
  - intros H. exists (sm_session_id m, m). split; [done|]. by rewrite map_iter_perm, elem_of_map_to_list.
Qed.
End Pick.

(** A pick that is right: it takes and claims a best free candidate, or there is
    none and the claims in force are as before. *)
Definition best_pick (now : N) (swarm_id : string) (loads : gmap string nat) (claims : gmap string N)
  (cmp : SwarmMember → SwarmMember → comparison) (candidate : SwarmMember → Prop)
  (r : result string string * gmap string N) : Prop :=
  let free := is_free now swarm_id loads claims in
  match r with
  | (Ok t, claims') =>
      (∃ m, candidate m ∧ sm_session_id m = t ∧ free m = true
            ∧ ∀ x, candidate x → free x = true → not_greater (cmp m x) = true)
      ∧ claims' = <[auto_assign_claim_key swarm_id t := now]> (live_claims now claims)
  | (Err e, claims') =>
      (∃ n, e = no_auto_target_error n) ∧ (∀ x, candidate x → free x = false)
      ∧ live_claims now claims' = live_claims now claims
  end.

Lemma select_best {K} (kcmp : K → K → comparison) `{!TotalOrder kcmp} (key : SwarmMember → K) now swarm_id loads claims cands
  (candidate : SwarmMember → Prop) :
  (∀ m, m ∈ cands ↔ candidate m) →
  best_pick now swarm_id loads claims (λ l r, kcmp (key l) (key r)) candidate
    (select_and_claim_auto_target now swarm_id (sort_by (λ l r, not_greater (kcmp (key l) (key r))) cands) loads claims).
Proof.
  intros Hc. unfold select_and_claim_auto_target.
  pose proof (select_from_spec now swarm_id (sort_by (λ l r, not_greater (kcmp (key l) (key r))) cands) loads 0 claims) as H.
  destruct (select_from _ _ _ _ _ _) as [[t|e] claims']; cbn.
  - destruct H as (pre & m & post & Hs & <- & Hm & Hpre & ->). split; [|done]. exists m.
    split_and!; [|done..|].
    + apply Hc. eapply elem_of_sort_by. rewrite Hs. apply elem_of_app. right. left.
    + intros x Hx Hf. apply Hc in Hx. by eapply sorted_first_free.
  - destruct H as (-> & Hall & Hl). split_and!; [by eexists| |done].
    intros x Hx%Hc. rewrite Forall_forall in Hall. apply Hall. by apply elem_of_sort_by.
Qed.

Section Order.
Context (members : gmap string SwarmMember) (Hk : ∀ k m, members !! k = Some m → sm_session_id m = k).

Lemma auto_candidates_perm (I J : MapIter) req swarm_id :
  filter_swarm_agent_candidates (I := I) members req swarm_id ≡ₚ filter_swarm_agent_candidates (I := J) members req swarm_id.
Proof. apply List_filter_perm. unfold member_values. by rewrite !map_iter_perm. Qed.

Lemma sorted_candidates_eq {K} (kcmp : K → K → comparison) `{!TotalOrder kcmp} (key : SwarmMember → K) (I J : MapIter) req swarm_id :
  (∀ x y, key x = key y → sm_session_id x = sm_session_id y) →
  sort_by (λ l r, not_greater (kcmp (key l) (key r))) (filter_swarm_agent_candidates (I := I) members req swarm_id)
  = sort_by (λ l r, not_greater (kcmp (key l) (key r))) (filter_swarm_agent_candidates (I := J) members req swarm_id).
Proof.
  intros Hkey. apply sort_by_perm_eq; [intros; apply not_greater_total, _ | intros ?? ?; by apply not_greater_trans | |
    apply auto_candidates_perm].
  intros x y Hx Hy Hxy Hyx. apply (elem_of_auto_candidates (I := I)) in Hx as [Hx _], Hy as [Hy _]; [|done..].
  enough (sm_session_id x = sm_session_id y) as E. { rewrite E, Hy in Hx. by injection Hx. }
  apply Hkey, (cmp_eq (cmp := kcmp)). rewrite (cmp_opp (cmp := kcmp)) in Hyx.
  by destruct (kcmp (key x) (key y)).
Qed.
End Order.

Lemma target_key_session loads x y : target_key loads x = target_key loads y → sm_session_id x = sm_session_id y.
Proof. by intros [=]. Qed.
Lemma task_key_session a x y : task_key a x = task_key a y → sm_session_id x = sm_session_id y.
Proof. by intros [=]. Qed.

(** C18: An automatic choice of a worker is right and does not depend on the
    order of the member table.  For a given task whose node has no recorded
    planner it takes and claims a free candidate with the most dependency
    affinity, then the most metadata affinity, then an idle one before a
    finished one, then the least id; a free candidate has no unfinished
    assignment and no claim in force.  The planner of an expanded node that is
    a candidate without a claim is taken first, however loaded.  A choice
    without a task ranks by readiness and id.  When it fails, every candidate
    is loaded or claimed and no claim in force changes.  Candidates are the
    other drivable agents of the swarm that are ready or completed. *)
Theorem auto_pick_takes_the_best (I J : MapIter) (now : N) (req swarm_id task_id : string) (s : SwarmState)
  (claims : gmap string N) (p : VersionedPlan) (a : AssignmentAffinities) :
  (∀ k m, ss_members s !! k = Some m → sm_session_id m = k) →
  ss_plans s !! swarm_id = Some p → assignment_affinities_for_task p task_id = Ok a →
  let candidate m := ss_members s !! sm_session_id m = Some m ∧ is_auto_candidate req swarm_id m = true in
  let pick := resolve_assignment_target_for_task (I := I) now req swarm_id task_id None s claims in
  pick = resolve_assignment_target_for_task (I := J) now req swarm_id task_id None s claims
  ∧ (composite_owner p task_id = None →
       best_pick now swarm_id (loads a) claims (task_target_cmp a) candidate pick)
  ∧ (∀ owner m, composite_owner p task_id = Some owner → sm_session_id m = owner → candidate m →
       live_claims now claims !! auto_assign_claim_key swarm_id owner = None →
       pick = (Ok owner, <[auto_assign_claim_key swarm_id owner := now]> (live_claims now claims)))
  ∧ best_pick now swarm_id (assignment_loads p) claims (target_cmp (assignment_loads p)) candidate
      (resolve_assignment_target_session (I := I) now req swarm_id None s claims).
Proof.
  intros Hk Hp Ha. cbv zeta.
  assert (∀ owner, existsb (λ m, bool_decide (sm_session_id m = owner))
            (filter_swarm_agent_candidates (I := I) (ss_members s) req swarm_id)
          = existsb (λ m, bool_decide (sm_session_id m = owner))
            (filter_swarm_agent_candidates (I := J) (ss_members s) req swarm_id)) as Hex.
  { intros owner. apply eq_bool_prop_intro. rewrite !Is_true_true, !existsb_exists.
    by setoid_rewrite <- list_elem_of_In; setoid_rewrite (auto_candidates_perm (ss_members s) I J req swarm_id). }
  unfold resolve_assignment_target_for_task, resolve_assignment_target_session. rewrite Hp. cbn [mbind option_bind]. rewrite Ha.
  split_and!.
  - pose proof (sorted_candidates_eq (ss_members s) Hk task_key_cmp (task_key a) I J req swarm_id (task_key_session a)) as Hs.
    change (λ l r, not_greater (task_key_cmp (task_key a l) (task_key a r))) with (λ l r, not_greater (task_target_cmp a l r)) in Hs.
    rewrite Hs.
    destruct (composite_owner p task_id) as [owner|]; [|done]. by rewrite Hex.
  - intros ->. apply (select_best task_key_cmp (task_key a)). intros m. by apply elem_of_auto_candidates.
  - intros owner m -> Hm [Hin Hc] Hfree.
    assert (owner ≠ req) as Hne.
    { intros ->. unfold is_auto_candidate in Hc. rewrite Hm, bool_decide_true in Hc by done. done. }
    rewrite bool_decide_false by done. cbn [negb andb].
    assert (existsb (λ m, bool_decide (sm_session_id m = owner))
              (filter_swarm_agent_candidates (I := I) (ss_members s) req swarm_id) = true) as ->.
    { apply existsb_exists. exists m. rewrite <- list_elem_of_In, elem_of_auto_candidates, bool_decide_true; done. }
    unfold try_claim_auto_assign_target. by rewrite Hfree.
  - apply (select_best (pair_cmp Nat.compare (pair_cmp Nat.compare String.compare)) (target_key (assignment_loads p))).
    intros m. by apply elem_of_auto_candidates.
Qed.

(** ** Concurrent choices *)

(** Requests of one swarm pick at their own times, from their own views of the
    members and the plan, and release what they hold. *)
Inductive PickOp :=
| Pick (at_ms : N) (candidates : list SwarmMember) (view : gmap string nat)
| Release (session_id : string).

Definition op_time_ok (t0 : N) (o : PickOp) : Prop :=
  match o with Pick t _ _ => (t0 <= t)%N ∧ (t - t0 < AUTO_ASSIGN_CLAIM_TTL)%N | Release _ => True end.

(** The claims and the sessions picked and not yet released. *)
Definition pick_step (swarm_id : string) (st : gmap string N * list string) (o : PickOp) : gmap string N * list string :=
  match o with
  | Pick t candidates view =>
      match select_and_claim_auto_target t swarm_id candidates view st.1 with
      | (Ok session, claims) => (claims, session :: st.2)
      | (Err _, claims) => (claims, st.2)
      end
  | Release session =>
      if bool_decide (session ∈ st.2)
      then (release_auto_assign_claim swarm_id session st.1, List.filter (λ h, negb (bool_decide (h = session))) st.2)
      else st
  end.

Lemma claim_key_inj swarm_id a b : auto_assign_claim_key swarm_id a = auto_assign_claim_key swarm_id b → a = b.
Proof. unfold auto_assign_claim_key. intros H. by do 2 apply (inj (String.append _)) in H. Qed.

Definition picks_ok (t0 : N) (swarm_id : string) (st : gmap string N * list string) : Prop :=
  NoDup st.2 ∧ ∀ h, h ∈ st.2 → ∃ t, st.1 !! auto_assign_claim_key swarm_id h = Some t ∧ (t0 <= t)%N.

Lemma claimed_stays t0 t k v claims :
  (t0 <= t)%N → (t - t0 < AUTO_ASSIGN_CLAIM_TTL)%N → claims !! k = Some v → (t0 <= v)%N → live_claims t claims !! k = Some v.
Proof. intros H1 H2 H H3. unfold live_claims. apply map_lookup_filter_Some. split; [done|]. cbn. lia. Qed.

Lemma select_from_live now swarm_id cands loads n claims t claims' :
  select_from now swarm_id cands loads n claims = (Err t, claims') → claims' = claims ∨ claims' = live_claims now claims.
Proof.
  revert n claims. induction cands as [|m rest IH]; intros n claims; cbn [select_from]; [by intros [= _ <-]; left|].
  destruct (member_has_active_assignment _ _); [apply IH|].
  unfold try_claim_auto_assign_target. destruct (live_claims now claims !! _); [|done].
  intros [-> | ->]%IH; [by right|]. right. apply live_claims_idemp.
Qed.

Lemma pick_step_ok t0 swarm_id st o : op_time_ok t0 o → picks_ok t0 swarm_id st → picks_ok t0 swarm_id (pick_step swarm_id st o).
Proof.
  intros Ho [Hnd Hh]. destruct o as [t cands view | session]; cbn [pick_step].
  - destruct Ho as [H1 H2]. unfold select_and_claim_auto_target.
    pose proof (select_from_spec t swarm_id cands view 0 st.1) as H.
    pose proof (select_from_live t swarm_id cands view 0 st.1) as Hl.
    assert (∀ h, h ∈ st.2 → ∃ v, live_claims t st.1 !! auto_assign_claim_key swarm_id h = Some v ∧ (t0 <= v)%N) as Hlive.
    { intros h (v & Hv & Hle)%Hh. exists v. split; [by eapply claimed_stays | done]. }
    destruct (select_from t swarm_id cands view 0 st.1) as [[x|e] claims'].
    + destruct H as (pre & m & post & _ & <- & Hf & _ & ->).
      unfold is_free in Hf. bool_hyps. split; cbn [snd fst].
      * constructor; [|done]. intros (v & Hv & _)%Hlive. congruence.
      * intros h [-> | Hin]%elem_of_cons; [exists t; by rewrite lookup_insert_eq|].
        destruct (Hlive h Hin) as (v & Hv & Hle). exists v. rewrite lookup_insert_ne; [done|].
        intros <-%claim_key_inj. congruence.
    + split; [done|]. cbn [fst snd]. intros h Hin. destruct (Hl e claims' eq_refl) as [-> | ->]; [by apply Hh | by apply Hlive].
  - case_bool_decide as Hin; [|done]. split; cbn [fst snd].
    + by apply NoDup_List_filter.
    + intros h [Hin' Hne%negb_true_iff%bool_decide_eq_false]%elem_of_List_filter.
      destruct (Hh h Hin') as (v & Hv & Hle). exists v. split; [|done]. unfold release_auto_assign_claim.
      rewrite lookup_delete_ne; [done|]. by intros ->%claim_key_inj.
Qed.

(** C20: No worker is picked twice at once.  Whatever claims of earlier requests
    are still in the table, and however the picks and releases of the requests
    of a swarm interleave within the fifteen seconds a claim lives, from
    whatever views of members and plan, the sessions picked and not yet
    released are distinct. *)
Theorem concurrent_picks_are_disjoint (t0 : N) (swarm_id : string) (claims : gmap string N) (ops : list PickOp) :
  Forall (op_time_ok t0) ops → NoDup (fold_left (pick_step swarm_id) ops (claims, [])).2.
Proof.
  intros Hops. enough (∀ st, picks_ok t0 swarm_id st → picks_ok t0 swarm_id (fold_left (pick_step swarm_id) ops st)) as H.
  { apply (H (claims, [])). split; [constructor|]. by intros h ?%not_elem_of_nil. }
  induction Hops as [|o ops Ho _ IH]; intros st Hst; cbn [fold_left]; [done|]. by apply IH, pick_step_ok.
Qed.

(** ** Plans under the server's operations *)

Section Plans.
Context {I : MapIter} (closed : N → bool) (now : N).

Lemma fanout_plans session ev s : ss_plans (fanout_session_event closed session ev s).1 = ss_plans s.
Proof. unfold fanout_session_event. by destruct (ss_members s !! session). Qed.

Lemma status_plans session status detail report tldr record s :
  ss_plans (update_member_status_with_report_tldr closed now session status detail report tldr record s).1 = ss_plans s.
Proof.
  unfold update_member_status_with_report_tldr. destruct (ss_members s !! session) as [m|]; [|done].
  destruct (sm_swarm_id m); [|done]. destruct (negb _); [done|]. destruct (should_notify _ _ _); [|done].
  destruct (status_recipient _ _ _ _) as [r|]; [|done].
  destruct (fanout_session_event closed r _ _) as [s' e] eqn:E. cbn.
  pose proof (f_equal (λ x, ss_plans x.1) E) as H. cbn [fst] in H. rewrite fanout_plans in H. by rewrite <- H.
Qed.

Lemma label_plans session text s : ss_plans (set_member_task_label session text s) = ss_plans s.
Proof. unfold set_member_task_label. by destruct (derive_swarm_task_label text). Qed.
End Plans.

Lemma find_update_item p id f i :
  (∀ j, pi_id (f j) = pi_id j) → find_item p id = Some i →
  find_first (λ j, bool_decide (pi_id j = id)) (update_item id f (vp_items p)) = Some (f i).
Proof.
  intros Hf Hi. unfold update_item. unfold find_item in Hi. rewrite find_first_update; [by rewrite Hi|].
  intros x. by rewrite Hf.
Qed.

Lemma find_on_item p id f g i :
  (∀ j, pi_id (f j) = pi_id j) → find_item p id = Some i → find_item (on_item id f g p) id = Some (f i).
Proof. apply find_update_item. Qed.

Lemma elem_of_update_item p id f j :
  j ∈ update_item id f (vp_items p) → j ∈ vp_items p ∨ ∃ i, find_item p id = Some i ∧ j = f i.
Proof. apply elem_of_update_first. Qed.

Lemma prior_on_item p id f g :
  prior_requeues (on_item id f g p) id = default 0%N (tp_no_artifact_requeues (g (default progress_default (vp_task_progress p !! id)))).
Proof. unfold prior_requeues, on_item, update_progress. cbn. by rewrite lookup_insert_eq. Qed.

(** ** The end of a turn *)

Definition is_running (i : PlanItem) : bool := is_one_of ["running"; "running_stale"] (pi_status i).

(** Deep mode completes nothing by itself.  When the turn of a worker ends
    in a deep plan, no item becomes completed; the item, if it is still
    running, goes back to the queue without an assignee the first time and
    fails when it was requeued before; in any other status the plan is as it
    was.  In a light plan a running item that was not expanded is done. *)
Theorem deep_turns_need_an_artifact {I : MapIter} (closed : N → bool) (now now_ms : N) (target swarm_id task_id : string)
  (report : option string) (s : SwarmState) (p : VersionedPlan) (i : PlanItem) :
  ss_plans s !! swarm_id = Some p → find_item p task_id = Some i →
  ∃ p', ss_plans (run_ended closed now now_ms target swarm_id task_id report s).1 !! swarm_id = Some p'
  ∧ (is_running i = false → p' = p)
  ∧ (plan_is_deep p = true →
       (∀ j, j ∈ vp_items p' → is_completed_status (pi_status j) = true → j ∈ vp_items p)
       ∧ (is_running i = true → prior_requeues p task_id = 0%N →
            find_item p' task_id = Some (set_item_assignee None (set_item_status "queued" i)) ∧ prior_requeues p' task_id = 1%N)
       ∧ (is_running i = true → prior_requeues p task_id ≠ 0%N → find_item p' task_id = Some (set_item_status "failed" i)))
  ∧ (plan_is_deep p = false → is_running i = true →
       find_item p' task_id = if is_composite p task_id then Some i else Some (set_item_status "done" i)).
Proof.
  intros Hp Hi. exists (end_turn task_id now_ms p).2. split.
  { unfold run_ended. destruct (update_member_status_with_report _ _ _ _ _ _ _ _) as [s' e] eqn:E.
    pose proof (f_equal (λ x, ss_plans x.1) E) as H. unfold update_member_status_with_report in H.
    rewrite status_plans in H. cbn in H. cbn. rewrite <- H, lookup_alter_eq, Hp. done. }
  unfold end_turn. rewrite Hi. unfold turn_end_disposition. fold (is_running i).
  destruct (is_running i); cbn [negb snd fst]; [|split_and!; try done; by intros; split_and!].
  split_and!; [done|..]; intros Hd; rewrite Hd.
  - destruct (prior_requeues p task_id =? 0)%N eqn:E0; cbn [snd].
    + apply N.eqb_eq in E0. split_and!; [| |done].
      * intros j [Hj | (x & Hx & ->)]%elem_of_update_item; done.
      * intros _ _. split; [by apply (find_on_item p task_id (λ i, set_item_assignee None (set_item_status "queued" i)))|].
        rewrite prior_on_item. cbn. by rewrite E0.
    + apply N.eqb_neq in E0. split_and!; [|done|].
      * intros j [Hj | (x & Hx & ->)]%elem_of_update_item; done.
      * intros _ _. by apply find_on_item.
  - intros _. destruct (is_composite p task_id); [done|]. by apply find_on_item.
Qed.

(** ** Rounds of a worker that delivers nothing *)

(** An assignment, the start of its run, and the end of a turn that never
    called complete_node. *)
Definition idle_round (from_json : string → option HandoffArtifact) (now_ms : N) (req target task_id text : string)
  (message : option string) (p : VersionedPlan) : VersionedPlan :=
  match find_item p task_id with
  | Some item =>
      (end_turn task_id now_ms
         (start_run target task_id text now_ms (record_assignment from_json now_ms req target message item p))).2
  | None => p
  end.

(** A worker that never delivers an artifact is replaced for ever.  An
    assignment writes a fresh progress record, so the count of artifact-less
    turns starts again: after any number of rounds of assigning a node of a
    deep plan, running it and ending the turn without an artifact, the node is
    queued with one recorded requeue; it never fails. *)
Theorem idle_rounds_never_fail (from_json : string → option HandoffArtifact) (now_ms : N) (req target task_id text : string)
  (message : option string) (p : VersionedPlan) (n : nat) :
  plan_is_deep p = true → is_Some (find_item p task_id) →
  ∃ i, find_item (Nat.iter (S n) (idle_round from_json now_ms req target task_id text message) p) task_id = Some i
       ∧ pi_status i = "queued" ∧ pi_assigned_to i = None
       ∧ prior_requeues (Nat.iter (S n) (idle_round from_json now_ms req target task_id text message) p) task_id = 1%N.
Proof.
  intros Hd Hf.
  assert (∀ q, plan_is_deep q = true → is_Some (find_item q task_id) →
    let q' := idle_round from_json now_ms req target task_id text message q in
    plan_is_deep q' = true ∧ ∃ i, find_item q' task_id = Some i ∧ pi_status i = "queued" ∧ pi_assigned_to i = None
    ∧ prior_requeues q' task_id = 1%N) as Hround.
  { intros q Hq [i Hi]. cbv zeta. unfold idle_round. rewrite Hi.
    pose proof (find_item_Some _ _ _ Hi) as [_ Hid].
    set (q1 := record_assignment from_json now_ms req target message i q).
    assert (find_item q1 task_id = Some (set_item_status "queued" (set_item_assignee (Some target) i))) as H1.
    { unfold q1. rewrite <- Hid. apply (find_update_item q _ (λ j, set_item_status "queued" (set_item_assignee (Some target) j)) i); [done|]. by rewrite Hid. }
    assert (prior_requeues q1 task_id = 0%N) as P1.
    { unfold q1, prior_requeues. cbn. by rewrite Hid, lookup_insert_eq. }
    assert (plan_is_deep q1 = true) as D1 by done. clearbody q1.
    unfold start_run. rewrite H1.
    set (i2 := set_item_status "running" (set_item_status "queued" (set_item_assignee (Some target) i))).
    set (q2 := on_item task_id _ _ q1).
    assert (find_item q2 task_id = Some i2) as H2 by (by apply find_on_item).
    assert (prior_requeues q2 task_id = 0%N) as P2.
    { unfold q2. rewrite prior_on_item. cbn. unfold prior_requeues in P1. by destruct (vp_task_progress q1 !! task_id). }
    assert (plan_is_deep q2 = true) as D2 by done. clearbody q2.
    unfold end_turn. rewrite H2, D2, P2.
    change (turn_end_disposition true (pi_status i2) (is_composite q2 task_id) 0%N) with RequeueNoArtifact.
    cbv zeta. cbn [snd]. split; [done|].
    eexists. split; [by apply (find_on_item q2 task_id (λ i, set_item_assignee None (set_item_status "queued" i)))|].
    split_and!; [done..|]. by rewrite prior_on_item. }
  set (f := idle_round from_json now_ms req target task_id text message) in *.
  enough (plan_is_deep (Nat.iter (S n) f p) = true
          ∧ ∃ i, find_item (Nat.iter (S n) f p) task_id = Some i ∧ pi_status i = "queued" ∧ pi_assigned_to i = None
                 ∧ prior_requeues (Nat.iter (S n) f p) task_id = 1%N) by tauto.
  induction n as [|n [IHd (i & IHi & _)]]; [by apply Hround|].
  change (Nat.iter (S (S n)) f p) with (f (Nat.iter (S n) f p)). apply Hround; [done|]. by exists i.
Qed.

(** ** Assignments *)

Section Assign.
Context {I : MapIter} (from_json : string → option HandoffArtifact) (closed : N → bool) (now now_ms stale_after : N).
Context (agents clients : gset string).

Lemma announce_plans req target swarm_id task_id content message parts n s :
  ss_plans (announce_assignment closed now agents clients req target swarm_id task_id content message parts n s).1 = ss_plans s.
Proof.
  unfold announce_assignment. destruct (update_member_status _ _ _ _ _ _ _) as [s' e] eqn:E. cbn.
  pose proof (f_equal (λ x, ss_plans x.1) E) as H. unfold update_member_status, update_member_status_with_report in H.
  rewrite status_plans, label_plans in H. by rewrite H.
Qed.

Lemma announce_run req target swarm_id task_id content message parts n s :
  StartRun target swarm_id task_id (combine_assignment_text content message)
    ∈ (announce_assignment closed now agents clients req target swarm_id task_id content message parts n s).2
  ↔ target ∉ clients ∧ target ∈ agents.
Proof.
  assert (∀ chan ev x, x ∈ send closed chan ev → ∀ a b c d, x ≠ StartRun a b c d) as Hsend.
  { intros chan ev x. unfold send. destruct (closed chan); [by intros ?%not_elem_of_nil|].
    by intros ->%list_elem_of_singleton. }
  assert (∀ s sid ev x, x ∈ (fanout_session_event closed sid ev s).2 → ∀ a b c d, x ≠ StartRun a b c d) as Hfan.
  { intros s0 sid ev x. unfold fanout_session_event. destruct (ss_members s0 !! sid); [|by intros ?%not_elem_of_nil].
    cbn [snd]. rewrite list_elem_of_join. intros (l & Hx & Hl). apply list_elem_of_fmap in Hl as (c & -> & _). by eapply Hsend. }
  unfold announce_assignment. destruct (update_member_status _ _ _ _ _ _ _) as [s' e] eqn:E. cbn [snd].
  assert (∀ a b c d, StartRun a b c d ∉ e) as He.
  { intros a b c d Hin. pose proof (f_equal snd E) as H. cbn in H. rewrite <- H in Hin. clear E H.
    unfold update_member_status, update_member_status_with_report, update_member_status_with_report_tldr in Hin.
    destruct (ss_members _ !! _) as [m|]; [|by apply not_elem_of_nil in Hin].
    destruct (sm_swarm_id m) as [w|]; [|by apply not_elem_of_nil in Hin].
    destruct (negb (_ || _)); [by apply not_elem_of_nil in Hin|].
    assert (∀ l : list Effect, StartRun a b c d ∉ l →
      StartRun a b c d ∉ (if negb (bool_decide (sm_status m = "queued")) && true
         then [Record_event target (sm_friendly_name m) (Some w) (SeStatusChange (sm_status m) "queued")] else [])
         ++ [BroadcastStatus w] ++ l) as Hl.
    { intros l Hn. destruct (negb _ && true); rewrite ?elem_of_app, ?list_elem_of_singleton, ?elem_of_nil; naive_solver. }
    destruct (should_notify _ _ _); [|by apply (Hl []) in Hin; [|apply not_elem_of_nil]].
    destruct (status_recipient _ _ _ _) as [r|]; [|by apply (Hl []) in Hin; [|apply not_elem_of_nil]].
    destruct (fanout_session_event closed r _ _) as [s1 e1] eqn:E1. cbn [snd] in Hin.
    apply (Hl e1) in Hin; [done|]. intros Hin'. apply (f_equal snd) in E1. cbn [snd] in E1. subst e1. by eapply Hfan in Hin'. }
  split.
  - rewrite !elem_of_app. intros [H|[H|[H|[H|[H|[H|[H|H]]]]]]].
    + by apply list_elem_of_singleton in H.
    + unfold broadcast_swarm_plan in H. destruct (ss_plans s !! swarm_id) as [p|]; [|by apply not_elem_of_nil in H].
      rewrite list_elem_of_join in H. destruct H as (l & Hx & Hl). apply list_elem_of_fmap in Hl as (c & -> & _).
      destruct (ss_members s !! c); [by eapply Hsend in Hx | by apply not_elem_of_nil in Hx].
    + by apply list_elem_of_singleton in H.
    + by apply He in H.
    + by apply list_elem_of_singleton in H.
    + destruct (ss_members s' !! target); [by eapply Hsend in H | by apply not_elem_of_nil in H].
    + destruct (negb _ && _) eqn:Hb; [|by apply not_elem_of_nil in H]. bool_hyps. done.
    + rewrite list_elem_of_join in H. destruct H as (l & Hx & Hl). apply list_elem_of_fmap in Hl as (c & -> & _).
      destruct (bool_decide _ || _); [by apply not_elem_of_nil in Hx|].
      destruct (ss_members s' !! c); [by eapply Hsend in Hx | by apply not_elem_of_nil in Hx].
  - intros [H1 H2]. rewrite !elem_of_app. do 6 right. left. rewrite bool_decide_false, bool_decide_true by done. by left.
Qed.

Lemma resolve_target_member req swarm_id requested s claims t claims' :
  (∀ k m, ss_members s !! k = Some m → sm_session_id m = k) →
  resolve_assignment_target_session now req swarm_id requested s claims = (Ok t, claims') →
  t ≠ req ∧ ∃ m, ss_members s !! t = Some m ∧ sm_swarm_id m = Some swarm_id.
Proof.
  intros Hk. unfold resolve_assignment_target_session. destruct requested as [r|].
  - intros [= H _]. case_bool_decide as Hr; [done|]. destruct (ss_members s !! r) as [m|] eqn:Hm; [|done].
    case_bool_decide; [|done]. simplify_eq. split; [done|]. by exists m.
  - set (loads := default ∅ _). intros H.
    pose proof (select_best (pair_cmp Nat.compare (pair_cmp Nat.compare String.compare)) (target_key loads) now swarm_id loads claims
      (filter_swarm_agent_candidates (ss_members s) req swarm_id) _ (λ m, elem_of_auto_candidates (ss_members s) req swarm_id m Hk)) as Hb.
    change (λ l r, not_greater (pair_cmp Nat.compare (pair_cmp Nat.compare String.compare) (target_key loads l) (target_key loads r)))
      with (λ l r, not_greater (target_cmp loads l r)) in Hb. rewrite H in Hb.
    destruct Hb as [(m & [Hm Hc] & <- & _) _]. unfold is_auto_candidate in Hc. bool_hyps.
    split; [done|]. by exists m.
Qed.

(** What an assignment of the item to the target makes of the plan. *)
Definition assigned_plan (req target : string) (message : option string) (item : PlanItem) (p p' : VersionedPlan) : Prop :=
  vp_items p' = update_item (pi_id item) (λ i, set_item_status "queued" (set_item_assignee (Some target) i)) (vp_items p)
  ∧ (∀ k, k ≠ pi_id item → vp_task_progress p' !! k = vp_task_progress p !! k)
  ∧ (vp_task_progress p' !! pi_id item ≫= last_heartbeat) = Some now_ms
  ∧ vp_version p' = u64_succ (vp_version p) ∧ vp_participants p' = {[target]} ∪ ({[req]} ∪ vp_participants p)
  ∧ vp_mode p' = vp_mode p ∧ vp_node_meta p' = vp_node_meta p.


(** ** Task control *)

Context (busy : string → bool) (call_summaries : string → list ToolCallSummary)
  (executes : string → list string → AssignDedupMode → bool).

(** C25: A refused control request changes nothing.  Whatever the action, the
    task and the state, when the requester is answered with an error of its
    own the server's state and claims are as they were and nothing else was
    sent, saved, interrupted or started. *)
Theorem refused_control_changes_nothing (id : N) (req action task_id : string) (target_session message : option string)
  (sv sv' : Server) (effects : list Effect) (id' : N) (e : string) (retry : option N) :
  handle_comm_task_control from_json closed now now_ms stale_after agents busy clients call_summaries executes
    id req action task_id target_session message sv = (sv', effects, RSend (EvError id' e retry)) →
  sv' = sv ∧ effects = [] ∧ id' = id.
Proof.
  unfold handle_comm_task_control. destruct (action_parse action) as [act|]; [|by intros [=]].
  destruct (require_plan_driver_swarm req _ (sv_state sv)) as [w|] eqn:Hreq; [|by intros [=]].
  assert (∀ m, require_plan_driver_swarm req m (sv_state sv) = Ok w) as Hreq'.
  { intros m. revert Hreq. unfold require_plan_driver_swarm. destruct (_ ≫= sm_swarm_id); [|done]. by destruct (_ || _). }
  assert (∀ tgt task msg mode sv1 ef r, handle_comm_assign_task_with_mode from_json closed now now_ms stale_after agents clients executes
            id req tgt task msg mode sv = (sv1, ef, r) → ∀ ev, r ≠ RSend ev) as Hno.
  { intros tgt task msg mode sv1 ef r. unfold handle_comm_assign_task_with_mode. rewrite Hreq'.
    destruct (negb _); [by intros [= _ _ <-]|]. unfold assign_task_body.
    destruct (resolve_assignment_target_session _ _ _ _ _ _) as [[t|er] cl]; [|by intros [= _ _ <-]].
    destruct (selected_item _ _ _ _ _); [|by intros [= _ _ <-]].
    destruct (announce_assignment _ _ _ _ _ _ _ _ _ _ _ _ _). by intros [= _ _ <-]. }
  destruct (controlled_task _ _ _ _ _) as [t|]; [|by intros [=]].
  destruct (task_snapshot_for _ _ _ _) as [sn|]; [|by intros [=]].
  destruct (negb _); [by intros [=]|]. destruct (sn_assigned_to sn) as [assignee|]; [|by intros [=]].
  assert (∀ x, control_restart closed now_ms agents busy id req w t assignee x target_session message sn sv
               = (sv', effects, RSend (EvError id' e retry)) → sv' = sv ∧ effects = [] ∧ id' = id) as Hrestart.
  { intros x. unfold control_restart. destruct (match target_session with Some _ => _ | None => _ end); [by intros [=]|].
    destruct (negb (bool_decide _)); [by intros [=]|]. destruct (ss_members _ !! _); [|by intros [=]].
    destruct (negb (busy assignee)); [|destruct x; by intros [=]].
    destruct (if bool_decide _ then _ else _); by intros [=]. }
  assert (∀ x, control_handoff from_json closed now now_ms stale_after agents busy clients call_summaries executes
               id req w t assignee x target_session message sn sv
               = (sv', effects, RSend (EvError id' e retry)) → sv' = sv ∧ effects = [] ∧ id' = id) as Hhand.
  { intros x. unfold control_handoff. destruct target_session as [nt|]; [|by intros [=]].
    destruct (bool_decide _); [by intros [=]|]. destruct (bool_decide _); [by intros [=]|].
    destruct (_ && negb _); [by intros [=]|].
    destruct (handle_comm_assign_task_with_mode _ _ _ _ _ _ _ _ _ _ _ _ _ _ _) as [[sv1 ef] r] eqn:E.
    intros [= _ _ ->]. by eapply Hno in E. }
  destruct act; [by apply Hrestart | by apply Hrestart | by apply Hrestart | | by apply Hhand | by apply Hhand | by apply Hhand].
  destruct (handle_comm_assign_task_with_mode _ _ _ _ _ _ _ _ _ _ _ _ _ _ _) as [[sv1 ef] r] eqn:E.
  intros [= _ _ ->]. by eapply Hno in E.
Qed.

End Assign.

(** ** Examples *)

Definition reverse_iter : MapIter :=
  {| map_iter := λ A m, rev (map_to_list m); map_iter_perm := λ A m, symmetry (Permutation_rev (map_to_list m)) |}.

(** The coordinator [d] with a ready worker [a], a finished one [b] that still
    holds [t2], and a deep plan in which [t1] is free. *)
Definition pool_plan (mode : string) : VersionedPlan :=
  mkPlan [demo_task "t1" "queued" None; demo_task "t2" "running" (Some "b")] 1 {["d"]}
    {["t2" := assigned_progress "b" "work" 990]} mode ∅.
Definition pool (mode : string) : SwarmState :=
  mkState {["d" := demo_member "d" None "coordinator" "ready" 1; "a" := demo_member "a" (Some "d") "agent" "ready" 2;
            "b" := demo_member "b" (Some "d") "agent" "completed" 3]}
    {["w" := {["d"; "a"; "b"]}]} {["w" := pool_plan mode]} {["w" := "d"]}.

Lemma pool_keyed mode k m : ss_members (pool mode) !! k = Some m → sm_session_id m = k.
Proof.
  apply (bool_decide_unpack (map_Forall (λ k m, sm_session_id m = k) (ss_members (pool "light")))). vm_compute. exact I.
Defined.

Definition pool_affinities : AssignmentAffinities := mkAffinities {["b" := 1]} ∅ ∅.

Lemma auto_pick_takes_the_best_witness :
  resolve_assignment_target_for_task (I := reverse_iter) 100 "d" "w" "t1" None (pool "deep") ∅
  = (Ok "a", {[auto_assign_claim_key "w" "a" := 100%N]}).
Proof.
  assert (assignment_affinities_for_task (pool_plan "deep") "t1" = Ok pool_affinities) as Ha by (vm_compute; reflexivity).
  destruct (auto_pick_takes_the_best reverse_iter keyed_iter 100 "d" "w" "t1" (pool "deep") ∅ (pool_plan "deep") pool_affinities
    (pool_keyed "deep") eq_refl Ha) as [H _].
  rewrite H. vm_compute. reflexivity.
Defined.

Definition pool_picks : list PickOp :=
  [Pick 100 [demo_member "a" None "agent" "ready" 2; demo_member "b" None "agent" "ready" 3] ∅;
   Pick 200 [demo_member "a" None "agent" "ready" 2; demo_member "b" None "agent" "ready" 3] ∅; Release "a";
   Pick 300 [demo_member "a" None "agent" "ready" 2] ∅].

Lemma concurrent_picks_are_disjoint_witness :
  NoDup (fold_left (pick_step "w") pool_picks (∅, [])).2 ∧ (fold_left (pick_step "w") pool_picks (∅, [])).2 = ["a"; "b"].
Proof.
  split; [|vm_compute; reflexivity]. apply (concurrent_picks_are_disjoint 100 "w" ∅ pool_picks).
  repeat constructor; vm_compute; congruence.
Defined.

Lemma deep_turns_need_an_artifact_witness :
  ∃ p', ss_plans (run_ended (I := keyed_iter) (λ _, false) 5 1000 "b" "w" "t2" None (pool "deep")).1 !! "w" = Some p'
        ∧ find_item p' "t2" = Some (demo_task "t2" "queued" None).
Proof.
  destruct (deep_turns_need_an_artifact (I := keyed_iter) (λ _, false) 5 1000 "b" "w" "t2" None (pool "deep") (pool_plan "deep")
    (demo_task "t2" "running" (Some "b")) eq_refl eq_refl) as (p' & Hp & _ & Hd & _).
  exists p'. split; [exact Hp|]. destruct (Hd eq_refl) as (_ & H & _). exact (proj1 (H eq_refl eq_refl)).
Defined.

Lemma idle_rounds_never_fail_witness :
  ∃ i, find_item (Nat.iter 5 (idle_round (λ _, None) 1000 "d" "a" "t1" "work" None) (pool_plan "deep")) "t1" = Some i
       ∧ pi_status i = "queued".
Proof.
  destruct (idle_rounds_never_fail (λ _, None) 1000 "d" "a" "t1" "work" None (pool_plan "deep") 4) as (i & Hi & Hq & _).
  - reflexivity.
  - eexists. reflexivity.
  - exists i. split; [exact Hi | exact Hq].
Defined.


Lemma refused_control_changes_nothing_witness :
  (handle_comm_task_control (I := keyed_iter) (λ _, None) (λ _, false) 5 1000 45000 {["a"; "b"]} (λ _, false) ∅ (λ _, [])
     (λ _ _ _, true) 7 "d" "reassign" "t2" (Some "a") None (mkServer (pool "deep") ∅)).1.2 = [].
Proof.
  destruct (handle_comm_task_control (I := keyed_iter) (λ _, None) (λ _, false) 5 1000 45000 {["a"; "b"]} (λ _, false) ∅ (λ _, [])
     (λ _ _ _, true) 7 "d" "reassign" "t2" (Some "a") None (mkServer (pool "deep") ∅)) as [[sv' ef] r] eqn:E.
  assert (r = RSend (EvError 7 "Task 't2' is actively running on 'b'. Wait, wake, or stop that agent before handing the task off." (Some 1%N)))
    as Hr by (apply (f_equal snd) in E; vm_compute in E; symmetry; exact E).
  subst r.
  destruct (refused_control_changes_nothing (I := keyed_iter) (λ _, None) (λ _, false) 5 1000 45000 {["a"; "b"]} ∅ (λ _, false) (λ _, [])
     (λ _ _ _, true) 7 "d" "reassign" "t2" (Some "a") None (mkServer (pool "deep") ∅) sv' ef 7 _ _ E) as (_ & H & _).
  exact H.
Defined.

(** A role can be given to a session of another swarm, which then coordinates a
    swarm it does not belong to. *)
Lemma foreign_coordinator :
  let foreign := mkSwarmMember "x" 9 ∅ None (Some "other") true "ready" None None None None None "agent" 0 0 false None None runtime_default in
  let sv := mkServer (set_ss_members (<["x" := foreign]> (ss_members (pool "light"))) (pool "light")) ∅ in
  let sv' := (handle_comm_assign_role (λ _, false) {["d"; "x"]} (λ _ _ _, true) 1 "d" "x" "coordinator" sv).1.1 in
  ss_coordinators (sv_state sv') !! "w" = Some "x" ∧ (ss_members (sv_state sv') !! "x" ≫= sm_swarm_id) = Some "other".
Proof. vm_compute. done. Qed.

(** The target of a handoff is trimmed for the assignment but not for the check
    that the handoff landed: with a blank around the name the displaced worker
    is not told to stand down. *)
Lemma padded_handoff_is_silent :
  let sv := mkServer (alter_plan (λ p, set_items (update_item "t2" (set_item_status "running_stale") (vp_items p)) p) "w" (pool "light")) ∅ in
  let run target := handle_comm_task_control (I := keyed_iter) (λ _, None) (λ _, false) 5 1000 45000 ∅ (λ _, false) ∅ (λ _, [])
     (λ _ _ _, true) 7 "d" "reassign" "t2" (Some target) None sv in
  let told r := existsb (λ e, match e with SoftInterrupt s _ u => bool_decide (s = "b") && u | _ => false end) (r.1.2) in
  (run "a").2 = RFinish (MrAssignTask "t2" "a") ∧ (run " a").2 = RFinish (MrAssignTask "t2" "a")
  ∧ told (run "a") = true ∧ told (run " a") = false.
Proof. vm_compute. done. Qed.
