(* ===== verification/PlanComm.v ===== *)
(** * Proposing and approving plans

    crates/jcode-app-core/src/server/comm_plan.rs: a coordinator's direct update
    of the plan, a member's proposal in the shared context, its approval and its
    rejection.  An approval checks the merged plan under one lock and commits
    under another, so it is also given as the two steps of a thread.

    [serde_json] at [Vec<PlanItem>] is the pair of functions of the section. *)

From stdpp Require Import base list strings gmap pretty.
From S2P Require Import Prelude RustString Dag Plan Swarm SwarmServer Mutation Control.

Open Scope string_scope.
Open Scope nat_scope.
Open Scope list_scope.

Record SharedContext := mkShared {
  sc_key : string;
  sc_value : string;
  sc_from_session : string;
  sc_from_name : option string;
  sc_created_at : N;
  sc_updated_at : N }.

Record PlanServer := mkPlanServer {
  ps_state : SwarmState;
  ps_context : gmap string (gmap string SharedContext) }.

Definition plan_cycle_error (items : list PlanItem) : option string :=
  match cycle_item_ids items with
  | [] => None
  | cycle_ids => Some ("Plan rejected: dependency cycle among item(s): " +:+ String.concat ", " cycle_ids
                       +:+ ". Fix the blocked_by edges so the plan forms a DAG, then propose again.")
  end.

Definition proposal_key (session : string) : string := "plan_proposal:" +:+ session.

Definition insert_owners (items : list PlanItem) (p : VersionedPlan) : VersionedPlan :=
  fold_left (λ p i, match pi_assigned_to i with Some owner => insert_participant owner p | None => p end) items p.

(** The coordinator's own update, under the plan's lock. *)
Definition direct_update (req_session_id : string) (items : list PlanItem) (p : VersionedPlan) : VersionedPlan :=
  bump_version (replace_items items (insert_owners items (insert_participant req_session_id p))).

(** The commit of an approval, under the plan's lock. *)
Definition approve_commit (req_session_id proposer_session : string) (items : list PlanItem) (p : VersionedPlan)
  : VersionedPlan :=
  insert_owners items (insert_participant proposer_session (insert_participant req_session_id
    (bump_version (set_items (vp_items p ++ items) p)))).

(** The checks of an approval: the size, then the merged graph. *)
Definition approve_check (items : list PlanItem) (p : option VersionedPlan) : option string :=
  let existing := default [] (vp_items <$> p) in
  let merged_count := length existing + length items in
  if MAX_PLAN_ITEMS <? merged_count then
    Some ("Plan approval would contain " +:+ pretty merged_count
          +:+ " items, exceeding the per-swarm limit of " +:+ pretty MAX_PLAN_ITEMS
          +:+ "; finish or clear stale plan nodes first.")
  else plan_cycle_error (existing ++ items).

Section Plans.
Context (to_json : list PlanItem → string) (items_of_json : string → option (list PlanItem)).
Context (closed : N → bool) (now : N) (executes : string → list string → AssignDedupMode → bool).

Definition require_coordinator_swarm (req_session_id permission_error : string) (s : SwarmState)
  : result string string :=
  match ss_members s !! req_session_id ≫= sm_swarm_id with
  | Some swarm_id =>
      if bool_decide (ss_coordinators s !! swarm_id = Some req_session_id) then Ok swarm_id else Err permission_error
  | None => Err permission_error
  end.

Definition with_plan (swarm_id : string) (f : VersionedPlan → VersionedPlan) (s : SwarmState) : SwarmState :=
  set_ss_plans (<[swarm_id := f (default plan_new (ss_plans s !! swarm_id))]> (ss_plans s)) s.

(** A notification and a soft interrupt for one session. *)
Definition notify_member (from : string) (name : option string) (scope text sid : string) (s : SwarmState) : list Effect :=
  match ss_members s !! sid with
  | Some m => send closed (sm_event_tx m) (EvNotification from name scope None text)
  | None => []
  end.

Definition remove_proposal (swarm_id proposer : string) (context : gmap string (gmap string SharedContext))
  : gmap string (gmap string SharedContext) :=
  alter (delete (proposal_key proposer)) swarm_id context.

Definition handle_comm_propose_plan (id : N) (req_session_id : string) (items : list PlanItem) (ps : PlanServer)
  : PlanServer * list Effect * Reply :=
  let s := ps_state ps in
  match ss_members s !! req_session_id ≫= sm_swarm_id with
  | None => (ps, [], fails id "Not in a swarm.")
  | Some swarm_id =>
      let from_name := ss_members s !! req_session_id ≫= sm_friendly_name in
      let from_label := default (str_concat (take 8 (chars req_session_id))) from_name in
      match ss_coordinators s !! swarm_id with
      | None => (ps, [], fails id "No coordinator for this swarm.")
      | Some coordinator_id =>
          match plan_cycle_error items with
          | Some message => (ps, [], fails id message)
          | None =>
              if bool_decide (coordinator_id = req_session_id) then
                let s := with_plan swarm_id (direct_update req_session_id items) s in
                let p := default plan_new (ss_plans s !! swarm_id) in
                let text := "Plan updated by " +:+ from_label +:+ " (" +:+ pretty (length items) +:+ " items, v"
                            +:+ pretty (vp_version p) +:+ ")" in
                (mkPlanServer s (ps_context ps),
                 mjoin ((λ sid, if bool_decide (sid = req_session_id) then []
                                else notify_member req_session_id from_name "plan" text sid s ++ [SoftInterrupt sid text false])
                          <$> elements (vp_participants p))
                 ++ [Persist swarm_id] ++ broadcast_swarm_plan closed swarm_id (Some "coordinator_direct_update") s
                 ++ [Record_event req_session_id from_name (Some swarm_id) (SePlanUpdate swarm_id (length items))],
                 RSend (EvDone id))
              else
                let key := proposal_key req_session_id in
                let entry := mkShared key (to_json items) req_session_id from_name now now in
                let context := <[swarm_id := <[key := entry]> (default ∅ (ps_context ps !! swarm_id))]> (ps_context ps) in
                let summary := summarize_plan_items items 3 in
                let text := "Plan proposal from " +:+ from_label +:+ " (" +:+ pretty (length items)
                            +:+ " items). Summary: " +:+ summary +:+ ". Review with communicate read key '" +:+ key +:+ "'." in
                let confirmation := "Plan proposal sent to coordinator (not yet applied)." in
                (mkPlanServer s context,
                 [Record_event req_session_id from_name (Some swarm_id) (SePlanProposal swarm_id req_session_id (length items))]
                 ++ match ss_members s !! coordinator_id with
                    | Some m => send closed (sm_event_tx m) (EvNotification req_session_id from_name "plan_proposal" None text)
                                ++ send closed (sm_event_tx m)
                                     (EvPlanProposal swarm_id req_session_id from_name items summary key)
                    | None => []
                    end
                 ++ [SoftInterrupt coordinator_id text false]
                 ++ notify_member req_session_id from_name "plan_proposal" confirmation req_session_id s
                 ++ [SoftInterrupt req_session_id confirmation false],
                 RSend (EvDone id))
          end
      end
  end.

Definition pending_proposal (swarm_id proposer : string) (ps : PlanServer) : option string :=
  ps_context ps !! swarm_id ≫= λ context, sc_value <$> context !! proposal_key proposer.

Definition no_proposal (proposer : string) : Reply :=
  finish_error ("No pending plan proposal from session '" +:+ proposer +:+ "'").

(** After the checks of an approval. *)
Definition approve_apply (req_session_id proposer swarm_id : string) (items : list PlanItem) (ps : PlanServer)
  : PlanServer * list Effect :=
  let s := with_plan swarm_id (approve_commit req_session_id proposer items) (ps_state ps) in
  let p := default plan_new (ss_plans s !! swarm_id) in
  let name := ss_members s !! req_session_id ≫= sm_friendly_name in
  let text := "Plan approved by coordinator: " +:+ pretty (length items) +:+ " items added from " +:+ proposer in
  (mkPlanServer s (remove_proposal swarm_id proposer (ps_context ps)),
   broadcast_swarm_plan closed swarm_id (Some "proposal_approved") s
   ++ [Record_event req_session_id None (Some swarm_id) (SePlanUpdate swarm_id (length items))]
   ++ mjoin ((λ sid, match ss_members s !! sid with
                     | Some m => send closed (sm_event_tx m) (EvNotification req_session_id name "plan" None text)
                                 ++ [SoftInterrupt sid text false]
                     | None => []
                     end) <$> elements (vp_participants p))
   ++ [Persist swarm_id]).

Definition handle_comm_approve_plan (id : N) (req_session_id proposer : string) (ps : PlanServer)
  : PlanServer * list Effect * Reply :=
  match require_coordinator_swarm req_session_id "Only the coordinator can approve plan proposals." (ps_state ps) with
  | Err e => (ps, [], fails id e)
  | Ok swarm_id =>
      if negb (executes "approve_plan" [swarm_id; proposer] ReplayFinal) then (ps, [], RJoined)
      else
        match pending_proposal swarm_id proposer ps with
        | None => (ps, [], no_proposal proposer)
        | Some proposal =>
            match items_of_json proposal with
            | None => (ps, [], RFinish MrDone)
            | Some items =>
                match approve_check items (ss_plans (ps_state ps) !! swarm_id) with
                | Some message => (ps, [], finish_error message)
                | None => let '(ps, effects) := approve_apply req_session_id proposer swarm_id items ps in
                          (ps, effects, RFinish MrDone)
                end
            end
        end
  end.

Definition handle_comm_reject_plan (id : N) (req_session_id proposer : string) (reason : option string) (ps : PlanServer)
  : PlanServer * list Effect * Reply :=
  match require_coordinator_swarm req_session_id "Only the coordinator can reject plan proposals." (ps_state ps) with
  | Err e => (ps, [], fails id e)
  | Ok swarm_id =>
      if negb (executes "reject_plan" [swarm_id; proposer; default "" reason] ReplayFinal) then (ps, [], RJoined)
      else
        match pending_proposal swarm_id proposer ps with
        | None => (ps, [], no_proposal proposer)
        | Some _ =>
            let s := ps_state ps in
            let name := ss_members s !! req_session_id ≫= sm_friendly_name in
            let text := "Your plan proposal was rejected by the coordinator"
                        +:+ match reason with Some r => ": " +:+ r | None => "" end in
            (mkPlanServer s (remove_proposal swarm_id proposer (ps_context ps)),
             match ss_members s !! proposer with
             | Some m => send closed (sm_event_tx m) (EvNotification req_session_id name "dm" None text)
                         ++ [SoftInterrupt proposer text false]
             | None => []
             end
             ++ [Record_event req_session_id name (Some swarm_id) (SeNotification "plan_rejected" proposer)],
             RFinish MrDone)
        end
  end.

(** The two locked sections of an approval as the steps of a thread. *)
Inductive Approval :=
| ApChecking (proposer : string) (items : list PlanItem)
| ApCommitting (proposer : string) (items : list PlanItem)
| ApDone.

Definition approval_step (req_session_id swarm_id : string) (a : Approval) (ps : PlanServer) : Approval * PlanServer :=
  match a with
  | ApChecking proposer items =>
      match approve_check items (ss_plans (ps_state ps) !! swarm_id) with
      | Some _ => (ApDone, ps)
      | None => (ApCommitting proposer items, ps)
      end
  | ApCommitting proposer items => (ApDone, (approve_apply req_session_id proposer swarm_id items ps).1)
  | ApDone => (ApDone, ps)
  end.
End Plans.
