(* ===== verification/PlanCommClaims.v ===== *)
(** * Theorems on proposing and approving plans

    Plans stay acyclic under everything the server does with them; a proposal
    reaches the plan exactly through an approval. *)

From stdpp Require Import base list strings gmap pretty relations.
From S2P Require Import Prelude RustString Dag DagCycle Plan PlanClaims Swarm SwarmServer SwarmServerClaims Mutation Control ControlClaims PlanComm.

Open Scope string_scope.
Open Scope nat_scope.
Open Scope list_scope.

(** ** The shape of a plan *)

(** What the dependency graph reads. *)
Definition shape (p : VersionedPlan) : list (string * list string) := (λ i, (pi_id i, pi_blocked_by i)) <$> vp_items p.

Definition plan_acyclic (p : VersionedPlan) : Prop := acyclic (items_graph (vp_items p)).

Lemma depends_shape p p' u v : shape p' = shape p → depends (items_graph (vp_items p)) u v → depends (items_graph (vp_items p')) u v.
Proof.
  intros Hs [Hu (n & Hn & Hid & Hd)]. rewrite ids_items_graph in Hu. apply list_elem_of_fmap in Hn as (i & -> & Hi).
  assert (map pi_id (vp_items p') = map pi_id (vp_items p)) as Hids.
  { pose proof (f_equal (fmap fst) Hs) as H. unfold shape in H. by rewrite <- !list_fmap_compose in H. }
  split; [by rewrite ids_items_graph, Hids|].
  assert ((pi_id i, pi_blocked_by i) ∈ shape p') as (j & Hj & Hin)%list_elem_of_fmap.
  { rewrite Hs. by apply (list_elem_of_fmap_2 (λ i, (pi_id i, pi_blocked_by i))). }
  injection Hj as H1 H2. exists (item_node j). split_and!; [by apply (list_elem_of_fmap_2 item_node)| |].
  - cbn. by rewrite <- H1.
  - cbn. by rewrite <- H2.
Qed.

Lemma acyclic_shape p p' : shape p' = shape p → plan_acyclic p → plan_acyclic p'.
Proof. intros Hs. apply acyclic_mono. intros u v. apply depends_shape. done. Qed.

Lemma no_cycle_error items : plan_cycle_error items = None ↔ acyclic (items_graph items).
Proof.
  rewrite <- cycle_nodes_nil_acyclic. unfold plan_cycle_error.
  assert (cycle_item_ids items = [] ↔ cycle_nodes (items_graph items) = []) as <-.
  { split; intros H.
    all: match goal with |- ?l = [] => destruct l as [|x l'] eqn:E; [done|] end; exfalso; apply (not_elem_of_nil x).
    - rewrite <- H. apply elem_of_cycle_item_ids. rewrite E. left.
    - rewrite <- H. apply elem_of_cycle_item_ids. rewrite E. left. }
  by destruct (cycle_item_ids items).
Qed.

(** ** Operations that keep the shape *)

Lemma update_item_shape p id f :
  (∀ i, pi_id (f i) = pi_id i) → (∀ i, pi_blocked_by (f i) = pi_blocked_by i) →
  (λ i, (pi_id i, pi_blocked_by i)) <$> update_item id f (vp_items p) = shape p.
Proof. intros H1 H2. apply fmap_update_first. intros i _. by rewrite H1, H2. Qed.

Lemma on_item_shape p id f g :
  (∀ i, pi_id (f i) = pi_id i) → (∀ i, pi_blocked_by (f i) = pi_blocked_by i) → shape (on_item id f g p) = shape p.
Proof. apply update_item_shape. Qed.

Lemma map_shape p (f : PlanItem → PlanItem) :
  (∀ i, pi_id (f i) = pi_id i) → (∀ i, pi_blocked_by (f i) = pi_blocked_by i) →
  (λ i, (pi_id i, pi_blocked_by i)) <$> (f <$> vp_items p) = shape p.
Proof.
  intros H1 H2. rewrite <- list_fmap_compose. apply list_fmap_ext. intros k i _. cbn. by rewrite H1, H2.
Qed.

Lemma start_run_shape target id text now_ms p : shape (start_run target id text now_ms p) = shape p.
Proof. unfold start_run. destruct (find_item p id); [by apply on_item_shape | done]. Qed.

Lemma end_turn_shape id now_ms p : shape (end_turn id now_ms p).2 = shape p.
Proof.
  unfold end_turn. destruct (find_item p id); [|done]. cbn [snd].
  destruct (turn_end_disposition _ _ _ _); [by apply on_item_shape..|done].
Qed.

Lemma fail_run_shape id e now_ms p : shape (fail_run id e now_ms p) = shape p.
Proof. unfold fail_run. destruct (find_item p id); [by apply on_item_shape | done]. Qed.

Lemma requeue_shape req a id sum now_ms p p' :
  requeue_existing_assignment req a id sum now_ms p = Some p' → shape p' = shape p.
Proof.
  unfold requeue_existing_assignment. destruct (find_item p id); [|done]. intros [= <-].
  by apply (on_item_shape p id (λ i, set_item_status "queued" (set_item_assignee (Some a) i))).
Qed.

Lemma record_assignment_shape from_json now_ms req target message item p :
  shape (record_assignment from_json now_ms req target message item p) = shape p.
Proof. by apply (update_item_shape p _ (λ i, set_item_status "queued" (set_item_assignee (Some target) i))). Qed.

Lemma touch_plan_shape now_ms id a d c p r p' : touch_plan now_ms id a d c p = Some (r, p') → shape p' = shape p.
Proof.
  unfold touch_plan. destruct (find_item p id); [|done]. case_bool_decide; intros [= _ <-]; [|done].
  by apply update_item_shape.
Qed.

Lemma sweep_plan_shape now_ms stale_after p : shape (sweep_plan now_ms stale_after p).2 = shape p.
Proof.
  unfold shape. destruct (sweep_plan_spec (λ _, false) now_ms stale_after p) as [-> _].
  apply map_shape; intros i; unfold swept_item; by destruct (is_active_status _).
Qed.

Lemma salvage_shape now_ms session p : shape (salvage_plan_assignments_of now_ms p session).1 = shape p.
Proof.
  unfold salvage_plan_assignments_of. generalize (map pi_id (List.filter (held_by session) (vp_items p))) as l.
  generalize (mkSalvage [] []) as o. intros o l. revert p o. induction l as [|id l IH]; intros p o; cbn [fold_left]; [done|].
  assert (∃ p' o', salvage_step now_ms session (p, o) id = (p', o') ∧ shape p' = shape p) as (p' & o' & -> & <-); [|apply IH].
  unfold salvage_step. destruct (_ <=? _)%N; [eexists _, _; split; [done|]; by apply (update_item_shape p id (λ i, set_item_assignee None (set_item_status "failed" i)))|].
  unfold reclaim_stranded_assignment. destruct (find_item p id) as [i|]; [|by eexists _, _].
  destruct (pi_assigned_to i); [|by eexists _, _]. eexists _, _. split; [done|]. unfold requeue_reclaimed, shape at 1. cbn [vp_items set_progress set_items].
  rewrite <- (update_item_shape p id clear_assignee) by done.
  apply fmap_update_first. done.
Qed.

Lemma insert_owners_shape items p : vp_items (insert_owners items p) = vp_items p.
Proof.
  unfold insert_owners. revert p. induction items as [|i items IH]; intros p; cbn [fold_left]; [done|].
  rewrite IH. by destruct (pi_assigned_to i).
Qed.

(** ** All plans of the server *)

Definition plans_acyclic (s : SwarmState) : Prop := ∀ w p, ss_plans s !! w = Some p → plan_acyclic p.

Lemma plans_alter s s' f w :
  ss_plans s' = alter f w (ss_plans s) → (∀ p, shape (f p) = shape p) → plans_acyclic s → plans_acyclic s'.
Proof.
  intros E Hf H v p Hp. rewrite E in Hp. destruct (decide (v = w)) as [->|Hne].
  - rewrite lookup_alter_eq in Hp. destruct (ss_plans s !! w) as [q|] eqn:Hq; [|done]. injection Hp as <-.
    eapply acyclic_shape; [apply Hf | by eapply H].
  - rewrite lookup_alter_ne in Hp by done. by eapply H.
Qed.

Lemma plans_insert s s' w p :
  ss_plans s' = <[w := p]> (ss_plans s) → plan_acyclic p → plans_acyclic s → plans_acyclic s'.
Proof.
  intros E Hp H v q Hq. rewrite E in Hq. apply lookup_insert_Some in Hq as [[<- <-] | [_ Hq]]; [done | by eapply H].
Qed.

Lemma plans_same s s' : ss_plans s' = ss_plans s → plans_acyclic s → plans_acyclic s'.
Proof. intros E H w p. rewrite E. apply H. Qed.

Lemma empty_acyclic : plan_acyclic plan_new.
Proof. apply no_cycle_error. vm_compute. done. Qed.

Lemma plan_or_new s w : plans_acyclic s → plan_acyclic (default plan_new (ss_plans s !! w)).
Proof. intros H. destruct (ss_plans s !! w) eqn:E; [by eapply H | apply empty_acyclic]. Qed.

Section Steps.
Context {I : MapIter} (to_json : list PlanItem → string) (items_of_json : string → option (list PlanItem))
  (from_json : string → option HandoffArtifact).

(** Everything the server does with its plans, outside the task-graph handlers. *)
Inductive server_step : PlanServer → PlanServer → Prop :=
| st_propose closed now id req items ps :
    server_step ps (handle_comm_propose_plan to_json closed now id req items ps).1.1
| st_approve closed executes id req proposer ps :
    server_step ps (handle_comm_approve_plan items_of_json closed executes id req proposer ps).1.1
| st_reject closed executes id req proposer reason ps :
    server_step ps (handle_comm_reject_plan closed executes id req proposer reason ps).1.1
| st_assign closed now now_ms stale_after agents clients req w target task message mode claims s context :
    server_step (mkPlanServer s context)
      (mkPlanServer (sv_state (assign_task_body from_json closed now now_ms stale_after agents clients req w target task message mode
                                 (mkServer s claims)).1.1) context)
| st_reclaim w s context :
    server_step (mkPlanServer s context) (mkPlanServer (next_runnable_task_id_reclaiming_stranded w s).2 context)
| st_requeue now_ms req w assignee task text s context p p' :
    ss_plans s !! w = Some p → requeue_existing_assignment req assignee task text now_ms p = Some p' →
    server_step (mkPlanServer s context) (mkPlanServer (set_ss_plans (<[w := p']> (ss_plans s)) s) context)
| st_run_started closed now now_ms target w task text s context :
    server_step (mkPlanServer s context) (mkPlanServer (run_started closed now now_ms target w task text s).1 context)
| st_run_touched closed now now_ms target w task detail checkpoint s context :
    server_step (mkPlanServer s context) (mkPlanServer (run_touched closed now now_ms target w task detail checkpoint s).1 context)
| st_run_ended closed now now_ms target w task report s context :
    server_step (mkPlanServer s context) (mkPlanServer (run_ended closed now now_ms target w task report s).1 context)
| st_run_failed closed now now_ms target w task error s context :
    server_step (mkPlanServer s context) (mkPlanServer (run_failed closed now now_ms target w task error s).1 context)
| st_sweep closed now now_ms stale_after s context :
    server_step (mkPlanServer s context) (mkPlanServer (refresh_swarm_task_staleness closed now now_ms stale_after s).1 context)
| st_remove closed now_ms session w s context :
    server_step (mkPlanServer s context) (mkPlanServer (remove_session_from_swarm closed now_ms session w s).1 context).

Lemma propose_acyclic closed now id req items ps :
  plans_acyclic (ps_state ps) → plans_acyclic (ps_state (handle_comm_propose_plan to_json closed now id req items ps).1.1).
Proof.
  intros H. unfold handle_comm_propose_plan. destruct (_ ≫= sm_swarm_id) as [w|]; [|done].
  destruct (ss_coordinators _ !! w) as [c|]; [|done]. destruct (plan_cycle_error items) eqn:E; [done|].
  case_bool_decide; [|done]. cbn [fst ps_state]. eapply plans_insert; [done| |done].
  apply no_cycle_error in E. exact E.
Qed.

Lemma approve_acyclic closed executes id req proposer ps :
  plans_acyclic (ps_state ps) → plans_acyclic (ps_state (handle_comm_approve_plan items_of_json closed executes id req proposer ps).1.1).
Proof.
  intros H. unfold handle_comm_approve_plan. destruct (require_coordinator_swarm _ _ _) as [w|]; [|done].
  destruct (negb _); [done|]. destruct (pending_proposal _ _ _) as [v|]; [|done].
  destruct (items_of_json v) as [items|]; [|done]. destruct (approve_check _ _) eqn:E; [done|].
  cbn [fst ps_state approve_apply]. eapply plans_insert; [done| |done].
  unfold plan_acyclic, approve_commit. rewrite insert_owners_shape. cbn.
  unfold approve_check in E. destruct (_ <? _); [done|]. apply no_cycle_error in E.
  by destruct (ss_plans (ps_state ps) !! w).
Qed.

Lemma salvage_each_shape now_ms L p : shape (salvage_each now_ms L p) = shape p.
Proof.
  unfold salvage_each. revert p. induction L as [|a L IH]; intros p; cbn [fold_left]; [done|]. by rewrite IH, salvage_shape.
Qed.

Lemma remove_acyclic closed now_ms session w s :
  plans_acyclic s → plans_acyclic (remove_session_from_swarm closed now_ms session w s).1.
Proof.
  intros H. destruct (remove_session_state closed now_ms session w s) as (fb & _ & _ & _ & Hp & _).
  eapply plans_same; [exact Hp|].
  assert (plans_acyclic (after_leaving closed now_ms session w s)) as Hl.
  { unfold after_leaving. destruct (salvage_member_state closed now_ms session w s) as (_ & _ & _ & H4).
    set (s1 := (salvage_assignments_of_dead_member closed now_ms session w s).1) in *.
    assert (plans_acyclic s1) as H1 by (eapply plans_alter; [exact H4 | intros p; apply salvage_shape | done]).
    eapply (plans_same (remove_plan_participant w session s1)).
    - unfold leave_swarm. by destruct (ss_swarms _ !! w).
    - by eapply plans_alter. }
  unfold after_election. case_bool_decide; [|done].
  destruct (elect_state closed now_ms w (after_leaving closed now_ms session w s)) as (_ & _ & _ & He).
  destruct (next_coordinator w _); [by eapply plans_alter | by eapply plans_same].
Qed.

Lemma status_acyclic closed now session status detail record s :
  plans_acyclic s → plans_acyclic (update_member_status closed now session status detail record s).1.
Proof. apply plans_same, status_plans. Qed.

Lemma server_step_acyclic ps ps' : server_step ps ps' → plans_acyclic (ps_state ps) → plans_acyclic (ps_state ps').
Proof.
  intros Hst. destruct Hst; cbn [ps_state]; intros Hok.
  - by apply propose_acyclic.
  - by apply approve_acyclic.
  - unfold handle_comm_reject_plan. destruct (require_coordinator_swarm _ _ _); [|done]. destruct (negb _); [done|].
    by destruct (pending_proposal _ _ _).
  - unfold assign_task_body. cbn [sv_state sv_claims].
    destruct (resolve_assignment_target_session _ _ _ _ _ _) as [[t|e] cl]; [|done].
    destruct (selected_item _ _ _ _ _) as [item|]; cbn [fst sv_state].
    + destruct (announce_assignment _ _ _ _ _ _ _ _ _ _ _ _ _) as [s1 ef] eqn:E. cbn [fst sv_state].
      pose proof (f_equal (λ x, ss_plans x.1) E) as Hp. cbv beta in Hp. rewrite announce_plans in Hp. cbn in Hp.
      eapply (plans_insert s); [symmetry; exact Hp| |done].
      eapply acyclic_shape; [apply record_assignment_shape|]. by apply plan_or_new.
    + eapply plans_insert; [done| |done]. by apply plan_or_new.
  - unfold next_runnable_task_id_reclaiming_stranded. destruct (ss_plans s !! w) as [p|] eqn:Hp; [|done].
    destruct (next_unassigned_runnable_item_id p); [done|].
    destruct (next_stranded_runnable_item_id p _) as [id|]; [|done].
    assert (shape (reclaim_stranded_assignment id p).2 = shape p) as Hs.
    { unfold reclaim_stranded_assignment. destruct (find_item p id) as [i|]; [|done].
      destruct (pi_assigned_to i); [|done]. by apply (update_item_shape p id clear_assignee). }
    destruct (reclaim_stranded_assignment id p) as [[] p']; cbn [snd] in *;
      (eapply plans_insert; [done| |done]; eapply acyclic_shape; [exact Hs | by eapply Hok]).
  - eapply plans_insert; [done| |done]. eapply acyclic_shape; [by eapply requeue_shape | by eapply Hok].
  - unfold run_started. destruct (update_member_status _ _ _ _ _ _ _) as [s1 ef] eqn:E. cbn [fst].
    apply (f_equal fst) in E. cbn [fst] in E. subst s1. apply status_acyclic.
    eapply plans_same; [apply label_plans|]. eapply plans_alter; [done | intros p; apply start_run_shape | done].
  - unfold run_touched. destruct (touch_swarm_task_progress _ _ _ _ _ _ _) as [[r s1] e1] eqn:E.
    assert (plans_acyclic s1) as H1.
    { unfold touch_swarm_task_progress in E. destruct (ss_plans s !! w) as [p|] eqn:Hp; [|by simplify_eq].
      destruct (touch_plan _ _ _ _ _ p) as [[r' p']|] eqn:Et; [|by simplify_eq]. injection E as _ <- _.
      eapply plans_insert; [done| |done]. eapply acyclic_shape; [by eapply touch_plan_shape | by eapply Hok]. }
    destruct detail; [|done]. destruct (update_member_status _ _ _ _ _ _ _) as [s2 e2] eqn:E2. cbn [fst].
    apply (f_equal fst) in E2. cbn [fst] in E2. subst s2. by apply status_acyclic.
  - unfold run_ended. destruct (update_member_status_with_report _ _ _ _ _ _ _ _) as [s1 ef] eqn:E. cbn [fst].
    apply (f_equal fst) in E. cbn [fst] in E. subst s1. eapply plans_same; [apply status_plans|].
    eapply plans_alter; [done | intros p; apply end_turn_shape | done].
  - unfold run_failed. destruct (update_member_status _ _ _ _ _ _ _) as [s1 ef] eqn:E. cbn [fst].
    apply (f_equal fst) in E. cbn [fst] in E. subst s1. apply status_acyclic.
    eapply plans_alter; [done | intros p; apply fail_run_shape | done].
  - intros w p Hp. destruct (ss_plans s !! w) as [q|] eqn:Hq.
    + rewrite (refresh_plans _ _ _ _ _ w q Hq) in Hp. injection Hp as <-.
      eapply acyclic_shape; [rewrite salvage_each_shape; apply sweep_plan_shape | by eapply Hok].
    + exfalso. unfold refresh_swarm_task_staleness in Hp.
      match type of Hp with context [salvage_all ?c ?m ?l ?t] =>
        pose proof (salvage_all_state c m l t) as [_ Hs]; destruct (salvage_all c m l t) as [s2 e2] end.
      cbn [fst] in *. rewrite Hs in Hp. cbn in Hp. by rewrite !lookup_fmap, Hq in Hp.
  - by apply remove_acyclic.
Qed.

(** An approval between its two locks: where it is, and the shape of the plan
    its check has read. *)
Record InFlight := mkInFlight {
  fl_session : string;
  fl_swarm : string;
  fl_approval : Approval;
  fl_seen : list (string * list string) }.

Definition shape_now (w : string) (ps : PlanServer) : list (string * list string) :=
  shape (default plan_new (ss_plans (ps_state ps) !! w)).

(** A commit finds the ids and dependencies its check has read. *)
Definition undisturbed (f : InFlight) (ps : PlanServer) : Prop :=
  match fl_approval f with ApCommitting _ _ => shape_now (fl_swarm f) ps = fl_seen f | _ => True end.

(** The server with any number of approvals in flight, each of which checks
    and commits in steps of its own. *)
Inductive live_step : PlanServer * list InFlight → PlanServer * list InFlight → Prop :=
| lv_server ps ps' fs : server_step ps ps' → live_step (ps, fs) (ps', fs)
| lv_begin req w proposer proposal items ps fs :
    pending_proposal w proposer ps = Some proposal → items_of_json proposal = Some items →
    live_step (ps, fs) (ps, mkInFlight req w (ApChecking proposer items) [] :: fs)
| lv_approval closed f a ps ps' l1 l2 :
    undisturbed f ps → approval_step closed (fl_session f) (fl_swarm f) (fl_approval f) ps = (a, ps') →
    live_step (ps, l1 ++ f :: l2)
      (ps', l1 ++ mkInFlight (fl_session f) (fl_swarm f) a (shape_now (fl_swarm f) ps) :: l2).

(** What an approval that is about to commit has seen would stay acyclic. *)
Definition checked (f : InFlight) : Prop :=
  match fl_approval f with
  | ApCommitting _ items => ∃ p, shape p = fl_seen f ∧ acyclic (items_graph (vp_items p ++ items))
  | _ => True
  end.

Lemma approve_check_acyclic items o :
  approve_check items o = None → acyclic (items_graph (vp_items (default plan_new o) ++ items)).
Proof.
  unfold approve_check. destruct (_ <? _); [done|]. intros E%no_cycle_error. by destruct o.
Qed.

Lemma commit_acyclic p q req proposer items :
  shape p = shape q → acyclic (items_graph (vp_items q ++ items)) → plan_acyclic (approve_commit req proposer items p).
Proof.
  intros Hs Ha. eapply (acyclic_shape (set_items (vp_items q ++ items) q)); [|exact Ha].
  unfold shape, approve_commit. rewrite insert_owners_shape. cbn. rewrite !fmap_app. f_equal. exact Hs.
Qed.

Lemma live_step_acyclic c c' :
  live_step c c' → plans_acyclic (ps_state c.1) ∧ Forall checked c.2 → plans_acyclic (ps_state c'.1) ∧ Forall checked c'.2.
Proof.
  intros Hs [Hp Hf]. destruct Hs as [ps ps' fs Hs|req w proposer proposal items ps fs _ _|closed f a ps ps' l1 l2 Hu E]; cbn [fst snd] in *.
  - split; [by eapply server_step_acyclic|done].
  - split; [done|]. by constructor.
  - apply Forall_app in Hf as [Hf1 [Hff Hf2]%Forall_cons]. unfold undisturbed, checked in Hu, Hff.
    destruct f as [req w ap seen]. destruct ap as [proposer items|proposer items|]; cbn in *.
    + destruct (approve_check items _) eqn:Ec; injection E as <- <-; (split; [done|]); apply Forall_app;
        (split; [done|constructor; [|done]]); [done|].
      eexists. split; [done|]. by apply approve_check_acyclic.
    + injection E as <- <-. destruct Hff as (q & Hq & Ha). split; [|apply Forall_app; split; [done|by constructor]].
      cbn. eapply plans_insert; [done| |done]. eapply commit_acyclic; [|exact Ha]. by rewrite Hq.
    + injection E as <- <-. split; [done|]. apply Forall_app. split; [done|by constructor].
Qed.

(** C5: Live plans stay acyclic.  The server starts with plans that have no
    dependency cycle and no approval under way, and handles, the requests on task
    graphs apart, any sequence of proposals, direct updates, approvals and
    rejections by anyone, of assignments, reclaims and requeues, of runs that start, report, end or fail,
    of staleness sweeps and of departing sessions.  An approval checks the merged
    plan in one step and commits it in a later one, with anything in between; the
    one condition is that the commit finds the ids and dependencies that the
    check has read.  Then no plan ever has a cycle.  The check is exact: it finds
    nothing exactly on acyclic items.  (The two locks of the handler do not
    ensure the condition, and without it two approvals can close a cycle: lemma
    [interleaved_approvals_close_a_cycle].) *)
Theorem live_plans_stay_acyclic (ps ps' : PlanServer) (flights : list InFlight) :
  (∀ w p, ss_plans (ps_state ps) !! w = Some p → plan_acyclic p) →
  rtc live_step (ps, []) (ps', flights) →
  (∀ w p, ss_plans (ps_state ps') !! w = Some p → plan_acyclic p)
  ∧ ∀ items, plan_cycle_error items = None ↔ acyclic (items_graph items).
Proof.
  intros H Hr. split; [|apply no_cycle_error].
  enough (plans_acyclic (ps_state (ps', flights).1) ∧ Forall checked (ps', flights).2) as [H' _] by exact H'.
  revert Hr. apply (rtc_ind_r (λ c, plans_acyclic (ps_state c.1) ∧ Forall checked c.2)); [by split|].
  intros c c' _ Hs. by apply live_step_acyclic.
Qed.
End Steps.

(** ** Proposals *)

Lemma insert_owners_participants items p :
  vp_participants (insert_owners items p) = vp_participants p ∪ list_to_set (omap pi_assigned_to items).
Proof.
  unfold insert_owners. revert p. induction items as [|i items IH]; intros p; cbn [fold_left omap list_omap]; [set_solver|].
  rewrite IH. destruct (pi_assigned_to i); cbn; set_solver.
Qed.

Lemma insert_owners_rest items p :
  vp_version (insert_owners items p) = vp_version p ∧ vp_task_progress (insert_owners items p) = vp_task_progress p.
Proof.
  unfold insert_owners. revert p. induction items as [|i items IH]; intros p; cbn [fold_left]; [done|].
  destruct (IH (match pi_assigned_to i with Some owner => insert_participant owner p | None => p end)) as [-> ->].
  by destruct (pi_assigned_to i).
Qed.

Lemma remove_proposal_pending w proposer s context :
  pending_proposal w proposer (mkPlanServer s (remove_proposal w proposer context)) = None.
Proof.
  unfold pending_proposal, remove_proposal. cbn. rewrite lookup_alter_eq. destruct (context !! w); cbn; [|done].
  by rewrite lookup_delete_eq.
Qed.

(** A proposal takes effect exactly when it is approved.  A member's
    proposal changes nothing but the shared context.  When the coordinator then
    approves it and the merged plan is within the limit and acyclic, the items
    are appended to the plan in order, the version goes up by one, the
    coordinator, the proposer and every owner of an item participate, the plan
    holds at most 1024 items and the proposal is gone, so a second approval is
    refused; a rejection removes the proposal and changes no plan. *)
Theorem approval_applies_the_proposal (to_json : list PlanItem → string)
  (items_of_json : string → option (list PlanItem)) (closed : N → bool) (now : N)
  (executes : string → list string → AssignDedupMode → bool) (id id' : N) (c req w : string) (items : list PlanItem)
  (reason : option string) (ps : PlanServer) :
  items_of_json (to_json items) = Some items →
  (ss_members (ps_state ps) !! req ≫= sm_swarm_id) = Some w → (ss_members (ps_state ps) !! c ≫= sm_swarm_id) = Some w →
  ss_coordinators (ps_state ps) !! w = Some c → c ≠ req → (∀ a l m, executes a l m = true) →
  plan_cycle_error items = None → approve_check items (ss_plans (ps_state ps) !! w) = None →
  let ps1 := (handle_comm_propose_plan to_json closed now id req items ps).1.1 in
  let approve := handle_comm_approve_plan items_of_json closed executes id' c req in
  let old := default plan_new (ss_plans (ps_state ps) !! w) in
  ps_state ps1 = ps_state ps
  ∧ (∃ ps2 effects p', approve ps1 = (ps2, effects, RFinish MrDone) ∧ ss_plans (ps_state ps2) !! w = Some p'
       ∧ vp_items p' = vp_items old ++ items ∧ vp_version p' = u64_succ (vp_version old)
       ∧ vp_participants p' = {[c; req]} ∪ vp_participants old ∪ list_to_set (omap pi_assigned_to items)
       ∧ length (vp_items p') ≤ 1024 ∧ (∀ v, v ≠ w → ss_plans (ps_state ps2) !! v = ss_plans (ps_state ps) !! v)
       ∧ approve ps2 = (ps2, [], no_proposal req))
  ∧ (∃ ps2 effects, handle_comm_reject_plan closed executes id' c req reason ps1 = (ps2, effects, RFinish MrDone)
       ∧ ps_state ps2 = ps_state ps ∧ pending_proposal w req ps2 = None).
Proof.
  intros Hj Hr Hc Hco Hne Hex Hcy Hck. cbv zeta.
  unfold handle_comm_propose_plan. rewrite Hr, Hco, Hcy. cbv zeta.
  rewrite (bool_decide_false (c = req)) by done. cbn [fst ps_state].
  set (ps1 := mkPlanServer (ps_state ps) _).
  assert (pending_proposal w req ps1 = Some (to_json items)) as Hpend.
  { unfold pending_proposal, ps1. cbn. by rewrite lookup_insert_eq; cbn; rewrite lookup_insert_eq. }
  assert (∀ m, require_coordinator_swarm c m (ps_state ps) = Ok w) as Hreq.
  { intros m. unfold require_coordinator_swarm. by rewrite Hc, bool_decide_true. }
  split_and!; [done|..].
  - destruct (approve_apply closed c req w items ps1) as [ps2 effects] eqn:E.
    exists ps2, effects, (approve_commit c req items (default plan_new (ss_plans (ps_state ps) !! w))).
    assert (ps2 = mkPlanServer (with_plan w (approve_commit c req items) (ps_state ps)) (remove_proposal w req (ps_context ps1))) as Hps2.
    { apply (f_equal fst) in E. by symmetry. }
    split_and!.
    + unfold handle_comm_approve_plan. unfold ps1 at 1. cbn [ps_state]. rewrite Hreq, Hex, Hpend, Hj. cbn [negb].
      unfold ps1 at 1. cbn [ps_state]. by rewrite Hck, E.
    + rewrite Hps2. cbn. by rewrite lookup_insert_eq.
    + unfold approve_commit. by rewrite insert_owners_shape.
    + unfold approve_commit. by rewrite (proj1 (insert_owners_rest items _)).
    + unfold approve_commit. rewrite insert_owners_participants. cbn. set_solver.
    + unfold approve_commit. rewrite insert_owners_shape. cbn. rewrite length_app. unfold approve_check in Hck.
      destruct (MAX_PLAN_ITEMS <? _) eqn:El; [done|]. apply Nat.ltb_ge in El. unfold MAX_PLAN_ITEMS in El.
      by destruct (ss_plans (ps_state ps) !! w).
    + intros v Hv. rewrite Hps2. cbn. by rewrite lookup_insert_ne.
    + unfold handle_comm_approve_plan. rewrite Hps2 at 1. cbn [ps_state].
      replace (require_coordinator_swarm c _ (with_plan _ _ _)) with (Ok w : result string string); [|by symmetry; apply Hreq].
      rewrite Hex. cbn [negb]. rewrite Hps2 at 1. by rewrite remove_proposal_pending.
  - unfold handle_comm_reject_plan. unfold ps1 at 1. cbn [ps_state]. rewrite Hreq, Hex, Hpend. cbn [negb].
    eexists _, _. split; [done|]. split; [done|]. apply remove_proposal_pending.
Qed.

(** ** Examples *)

Definition plan_server : PlanServer := mkPlanServer (pool "light") ∅.

Definition proposed : list PlanItem := [mkItem "extend" "queued" "high" "p1" None [] ["t1"] (Some "b")].

Lemma approval_applies_the_proposal_witness :
  ∃ ps2 effects p', handle_comm_approve_plan (λ _, Some proposed) (λ _, false) (λ _ _ _, true) 2 "d" "a"
      (handle_comm_propose_plan (λ _, "json") (λ _, false) 5 1 "a" proposed plan_server).1.1
    = (ps2, effects, RFinish MrDone) ∧ ss_plans (ps_state ps2) !! "w" = Some p' ∧ length (vp_items p') = 3.
Proof.
  destruct (approval_applies_the_proposal (λ _, "json") (λ _, Some proposed) (λ _, false) 5 (λ _ _ _, true)
    1 2 "d" "a" "w" proposed None plan_server) as (_ & (ps2 & ef & p' & H1 & H2 & H3 & _) & _);
    [reflexivity | vm_compute; reflexivity | vm_compute; reflexivity | vm_compute; reflexivity | discriminate | reflexivity
    | vm_compute; reflexivity | vm_compute; reflexivity |].
  exists ps2, ef, p'. split; [exact H1|]. split; [exact H2|]. rewrite H3. vm_compute. reflexivity.
Defined.

(** Two members propose; the approvals of both are in flight together, the
    second checks after the first has committed. *)
Definition two_proposals : PlanServer :=
  let ps := (handle_comm_propose_plan (λ _, "json") (λ _, false) 5 1 "a" proposed plan_server).1.1 in
  (handle_comm_propose_plan (λ _, "json") (λ _, false) 6 2 "b" proposed ps).1.1.

Definition both_approved : PlanServer :=
  (approve_apply (λ _, false) "d" "b" "w" proposed (approve_apply (λ _, false) "d" "a" "w" proposed two_proposals).1).1.

Lemma live_plans_stay_acyclic_witness :
  plan_acyclic (default plan_new (ss_plans (ps_state both_approved) !! "w")).
Proof.
  set (ps1 := (approve_apply (λ _, false) "d" "a" "w" proposed two_proposals).1).
  set (s0 := shape_now "w" two_proposals). set (s1 := shape_now "w" ps1).
  destruct (live_plans_stay_acyclic (I := keyed_iter) (λ _, "json") (λ _, Some proposed) (λ _, None) plan_server both_approved
    [mkInFlight "d" "w" ApDone s1; mkInFlight "d" "w" ApDone s0]) as [H _].
  - intros w p Hp. apply no_cycle_error. unfold plan_server, pool in Hp. cbn [ps_state ss_plans] in Hp.
    apply lookup_singleton_Some in Hp as [_ <-]. vm_compute. reflexivity.
  - eapply rtc_l; [apply lv_server, (st_propose _ _ _ (λ _, false) 5 1 "a" proposed)|].
    eapply rtc_l; [apply lv_server, (st_propose _ _ _ (λ _, false) 6 2 "b" proposed)|]. fold two_proposals.
    eapply rtc_l; [apply (lv_begin _ _ _ "d" "w" "a" "json" proposed); reflexivity|].
    eapply rtc_l; [apply (lv_begin _ _ _ "d" "w" "b" "json" proposed); reflexivity|].
    eapply rtc_l; [apply (lv_approval _ _ _ (λ _, false) _ (ApCommitting "a" proposed) _ two_proposals [_] []); reflexivity|].
    eapply rtc_l; [apply (lv_approval _ _ _ (λ _, false) _ ApDone _ ps1 [_] []); reflexivity|].
    eapply rtc_l; [apply (lv_approval _ _ _ (λ _, false) _ (ApCommitting "b" proposed) _ ps1 [] [_]); reflexivity|].
    eapply rtc_l; [apply (lv_approval _ _ _ (λ _, false) _ ApDone _ both_approved [] [_]); reflexivity|].
    constructor.
  - apply (H "w"). reflexivity.
Defined.

(** The check of an approval and its commit take the plan's lock separately: two
    approvals whose checks both come before either commit leave a cycle. *)
Lemma interleaved_approvals_close_a_cycle :
  let first := [mkItem "x" "queued" "high" "x" None [] ["y"] None] in
  let second := [mkItem "y" "queued" "high" "y" None [] ["x"] None] in
  let step := approval_step (λ _, false) "d" "w" in
  let '(a, ps) := step (ApChecking "a" first) plan_server in
  let '(b, ps) := step (ApChecking "b" second) ps in
  let '(a, ps) := step a ps in
  let '(b, ps) := step b ps in
  a = ApDone ∧ b = ApDone
  ∧ cycle_item_ids (vp_items (default plan_new (ss_plans (ps_state ps) !! "w"))) = ["x"; "y"].
Proof. vm_compute. done. Qed.

(** A direct update is not limited in size, and an approval may repeat an id. *)
Lemma direct_update_is_unlimited (req : string) (items : list PlanItem) (p : VersionedPlan) :
  length (vp_items (direct_update req items p)) = length items.
Proof. done. Qed.
