(* ===== verification/Await.v ===== *)
(** * Waiting for members

    crates/jcode-app-core/src/server/comm_await.rs and await_members_state.rs:
    the statuses a wait looks at, when it is over and what it says, the stored
    states of waits, the decisions of the handler and of the watcher, and the
    table of waiters they share.  The table and the set of active keys have a
    lock each, so a request registers in two steps and whoever answers the waiters
    releases the key in a second one; the machine at the end has these steps for
    one key, for requests of both kinds, in time or past the deadline. *)

From stdpp Require Import base list strings gmap pretty.
From S2P Require Import Prelude RustString Dag Plan SwarmServer Mutation.

Open Scope string_scope.
Open Scope nat_scope.
Open Scope list_scope.

(** ** Statuses *)

Record AwaitedMemberStatus := mkAwaited {
  am_session_id : string;
  am_friendly_name : option string;
  am_status : string;
  am_done : bool;
  am_completion_report : option string }.

Definition status_is_done (target_status : list string) (status : string) : bool :=
  is_one_of target_status status
  || (bool_decide (status = "unknown") && (bool_decide ("stopped" ∈ target_status) || bool_decide ("completed" ∈ target_status))).

Definition watch_ids (req_session_id swarm_id : string) (requested_ids : list string) (s : SwarmState) : list string :=
  match requested_ids with
  | [] => sort_strings (List.filter (λ id, negb (bool_decide (id = req_session_id)))
                          (elements (default ∅ (ss_swarms s !! swarm_id))))
  | _ => requested_ids
  end.

Definition awaited_status (target_status : list string) (s : SwarmState) (session_id : string) : AwaitedMemberStatus :=
  match ss_members s !! session_id with
  | Some m => mkAwaited session_id (sm_friendly_name m) (sm_status m) (status_is_done target_status (sm_status m))
                (sm_completion_report m)
  | None => mkAwaited session_id None "unknown" (status_is_done target_status "unknown") None
  end.

Definition awaited_member_statuses (req_session_id swarm_id : string) (requested_ids target_status : list string)
  (s : SwarmState) : list AwaitedMemberStatus :=
  awaited_status target_status s <$> watch_ids req_session_id swarm_id requested_ids s.

(** ** Summaries *)

Definition short_member_name (m : AwaitedMemberStatus) : string := default (short_id (am_session_id m)) (am_friendly_name m).

Definition timeout_summary (l : list AwaitedMemberStatus) : string :=
  "Timed out. Still waiting on: "
  +:+ String.concat ", " ((λ m, short_member_name m +:+ " (" +:+ am_status m +:+ ")") <$> List.filter (λ m, negb (am_done m)) l).

Definition completion_summary (l : list AwaitedMemberStatus) : string :=
  "All " +:+ pretty (length l) +:+ " members are done: " +:+ String.concat ", " (short_member_name <$> l).

Definition mode_is_any (mode : option string) : bool := bool_decide (mode = Some "any").

Definition mode_satisfied (l : list AwaitedMemberStatus) (mode : option string) : bool :=
  if mode_is_any mode then existsb am_done l else forallb am_done l.

Definition mode_summary (l : list AwaitedMemberStatus) (mode : option string) : string :=
  if mode_is_any mode then
    let matching := short_member_name <$> List.filter am_done l in
    "Matched " +:+ pretty (length matching) +:+ " member" +:+ (if length matching =? 1 then "" else "s") +:+ ": "
    +:+ String.concat ", " matching
  else completion_summary l.

Definition background_started_summary (l : list AwaitedMemberStatus) (mode : option string) (wake : bool) : string :=
  let pending := short_member_name <$> List.filter (λ m, negb (am_done m)) l in
  let delivery := if wake then "You'll be woken with the result when it resolves."
                  else "A notification will appear when it resolves." in
  match pending with
  | [] => "Watching swarm members in the background. " +:+ delivery
  | _ => "Watching " +:+ (if mode_is_any mode then "any of" else "all of") +:+ " " +:+ String.concat ", " pending
         +:+ " in the background. " +:+ delivery
  end.

Definition nothing_to_wait_for : string := "No other members in swarm to wait for.".

(** ** Stored waits *)

Record AwaitResult := mkAwaitResult {
  aw_completed : bool;
  aw_members : list AwaitedMemberStatus;
  aw_summary : string;
  aw_resolved_at : N }.

Record AwaitState := mkAwait {
  as_key : string;
  as_session_id : string;
  as_swarm_id : string;
  as_target_status : list string;
  as_requested_ids : list string;
  as_mode : option string;
  as_created_at : N;
  as_deadline : N;
  as_background : bool;
  as_notify : bool;
  as_wake : bool;
  as_final : option AwaitResult }.

Definition AWAIT_FINAL_TTL : N := 21600000.
Definition AWAIT_PENDING_TTL : N := 86400000.

Definition await_is_stale (now_ms : N) (st : AwaitState) : bool :=
  match as_final st with
  | Some r => (AWAIT_FINAL_TTL <? now_ms - aw_resolved_at r)%N
  | None => (AWAIT_PENDING_TTL <? now_ms - as_deadline st)%N
  end.

Definition is_pending (st : AwaitState) : bool := match as_final st with None => true | Some _ => false end.

(** The unit separator joins the sorted lists of a key. *)
Definition await_request_key (digest : string → string → list string → string) (session_id swarm_id : string)
  (requested_ids target_status : list string) (mode : option string) : string :=
  let sep := str_bytes [31] in
  hashed_request_key digest session_id "await_members"
    [swarm_id; String.concat sep (sort_strings requested_ids); String.concat sep (sort_strings target_status);
     default "all" mode].

Definition await_load (now_ms : N) (key : string) (store : gmap string AwaitState)
  : option AwaitState * gmap string AwaitState :=
  match store !! key with
  | None => (None, store)
  | Some st => if await_is_stale now_ms st then (None, delete key store) else (Some st, store)
  end.

Definition await_save (st : AwaitState) (store : gmap string AwaitState) : gmap string AwaitState :=
  <[as_key st := st]> store.

(** A fresh pending state unless a pending one is stored. *)
Definition await_ensure_pending (now_ms : N) (fresh : AwaitState) (store : gmap string AwaitState)
  : AwaitState * gmap string AwaitState :=
  match await_load now_ms (as_key fresh) store with
  | (Some existing, store) => if is_pending existing then (existing, store) else (fresh, await_save fresh store)
  | (None, store) => (fresh, await_save fresh store)
  end.

Definition await_persist_final (now_ms : N) (st : AwaitState) (completed : bool) (members : list AwaitedMemberStatus)
  (summary : string) (store : gmap string AwaitState) : gmap string AwaitState :=
  await_save (mkAwait (as_key st) (as_session_id st) (as_swarm_id st) (as_target_status st) (as_requested_ids st)
                (as_mode st) (as_created_at st) (as_deadline st) (as_background st) (as_notify st) (as_wake st)
                (Some (mkAwaitResult completed members summary now_ms))) store.

Definition set_prefs (background notify wake : bool) (st : AwaitState) : AwaitState :=
  mkAwait (as_key st) (as_session_id st) (as_swarm_id st) (as_target_status st) (as_requested_ids st) (as_mode st)
    (as_created_at st) (as_deadline st) background notify wake (as_final st).

(** The stored pending state of the wait, else the watcher's copy. *)
Definition refresh_pending_state (now_ms : N) (st : AwaitState) (store : gmap string AwaitState)
  : option AwaitState * gmap string AwaitState :=
  match await_load now_ms (as_key st) store with
  | (Some latest, store) => (if is_pending latest then Some latest else None, store)
  | (None, store) => (None, store)
  end.

(** ** The handler *)

Record AwaitRequest := mkAwaitRequest {
  aq_session : string;
  aq_target_status : list string;
  aq_requested_ids : list string;
  aq_mode : option string;
  aq_timeout_secs : option N;
  aq_background : bool;
  aq_notify : bool;
  aq_wake : bool }.

(** What the request's client is sent at once. *)
Inductive AwaitReply :=
| ArError (message : string)
| ArResponse (completed : bool) (members : list AwaitedMemberStatus) (summary : string) (background_started : bool).

(** What the handler does next with the waiters of the key. *)
Inductive AwaitNext :=
| NxNothing
| NxFinalize (st : AwaitState) (members : list AwaitedMemberStatus) (summary : string)
| NxWatch (st : AwaitState)
| NxRegister (st : AwaitState) (expired : bool) (members : list AwaitedMemberStatus).

Section Handler.
Context (digest : string → string → list string → string) (now_ms : N).

Definition fresh_wait (key swarm_id : string) (q : AwaitRequest) : AwaitState :=
  mkAwait key (aq_session q) swarm_id (aq_target_status q) (aq_requested_ids q) (aq_mode q) now_ms
    (now_ms + default 3600 (aq_timeout_secs q) * 1000)%N (aq_background q) (aq_notify q) (aq_wake q) None.

(** From the loaded state to the state of this wait, with the request's
    delivery preferences. *)
Definition wait_state (key swarm_id : string) (q : AwaitRequest) (persisted : option AwaitState)
  (store : gmap string AwaitState) : AwaitState * gmap string AwaitState :=
  let '(st, store) := match persisted with
                      | Some st => (st, store)
                      | None => await_ensure_pending now_ms (fresh_wait key swarm_id q) store
                      end in
  if bool_decide (as_background st = aq_background q) && bool_decide (as_notify st = aq_notify q)
     && bool_decide (as_wake st = aq_wake q) then (st, store)
  else let st := set_prefs (aq_background q) (aq_notify q) (aq_wake q) st in (st, await_save st store).

Definition handle_comm_await_members (q : AwaitRequest) (s : SwarmState) (store : gmap string AwaitState)
  : option AwaitReply * AwaitNext * gmap string AwaitState :=
  match ss_members s !! aq_session q ≫= sm_swarm_id with
  | None => (Some (ArError "Not in a swarm. Use a git repository to enable swarm features."), NxNothing, store)
  | Some swarm_id =>
      let key := await_request_key digest (aq_session q) swarm_id (aq_requested_ids q) (aq_target_status q) (aq_mode q) in
      let '(persisted, store) := await_load now_ms key store in
      let statuses := awaited_member_statuses (aq_session q) swarm_id (aq_requested_ids q) (aq_target_status q) s in
      let satisfied := mode_satisfied statuses (aq_mode q) in
      let over := bool_decide (statuses = []) || satisfied in
      match (if over then persisted ≫= as_final else None) with
      | Some r => (Some (ArResponse (aw_completed r) (aw_members r) (aw_summary r) false), NxNothing, store)
      | None =>
          let persisted := match persisted with
                           | Some st => if is_pending st then Some st else None
                           | None => None
                           end in
          if bool_decide (statuses = []) then (Some (ArResponse true [] nothing_to_wait_for false), NxNothing, store)
          else if satisfied then
            (Some (ArResponse true statuses (mode_summary statuses (aq_mode q)) false), NxNothing, store)
          else
            let '(st, store) := wait_state key swarm_id q persisted store in
            let expired := (as_deadline st <=? now_ms)%N in
            if aq_background q then
              if expired then
                let summary := timeout_summary statuses in
                (Some (ArResponse false statuses summary false), NxFinalize st statuses summary, store)
              else
                (Some (ArResponse false statuses (background_started_summary statuses (aq_mode q) (aq_wake q)) true),
                 NxWatch st, store)
            else (None, NxRegister st expired statuses, store)
      end
  end.

(** ** The watcher *)

Inductive WatchStep :=
| WsFinish (completed : bool) (members : list AwaitedMemberStatus) (summary : string)
| WsAbandon
| WsWait.

(** One round before the select: [open] is the number of waiters whose client
    is still there. *)
Definition watch_round (st : AwaitState) (s : SwarmState) (store : gmap string AwaitState) (open : nat) : WatchStep :=
  let statuses := awaited_member_statuses (as_session_id st) (as_swarm_id st) (as_requested_ids st) (as_target_status st) s in
  if bool_decide (statuses = []) then WsFinish true [] nothing_to_wait_for
  else if mode_satisfied statuses (as_mode st) then WsFinish true statuses (mode_summary statuses (as_mode st))
  else
    let background := match (refresh_pending_state now_ms st store).1 with
                      | Some latest => as_background latest
                      | None => as_background st
                      end in
    if negb background && (open =? 0) then WsAbandon else WsWait.

(** The deadline fires in the select; [s] is the state the round looked at. *)
Definition watch_timeout (st : AwaitState) (s : SwarmState) : WatchStep :=
  let statuses := awaited_member_statuses (as_session_id st) (as_swarm_id st) (as_requested_ids st) (as_target_status st) s in
  WsFinish false statuses (timeout_summary statuses).

(** A wait whose deadline passed while the server was down. *)
Definition resume_expired (st : AwaitState) (s : SwarmState) : WatchStep :=
  let statuses := awaited_member_statuses (as_session_id st) (as_swarm_id st) (as_requested_ids st) (as_target_status st) s in
  if bool_decide (statuses = []) then WsFinish true statuses nothing_to_wait_for
  else if mode_satisfied statuses (as_mode st) then WsFinish true statuses (mode_summary statuses (as_mode st))
  else WsFinish false statuses (timeout_summary statuses).

(** The stored result of a finished wait and whether the agent is notified or
    woken: with the latest preferences, when one is stored. *)
Definition finalize_await (st : AwaitState) (completed : bool) (members : list AwaitedMemberStatus) (summary : string)
  (store : gmap string AwaitState) : gmap string AwaitState * option (string * bool * bool) :=
  let '(latest, store) := refresh_pending_state now_ms st store in
  let st := default st latest in
  (await_persist_final now_ms st completed members summary store,
   if as_background st && (as_notify st || as_wake st) then Some (as_session_id st, as_notify st, as_wake st) else None).

(** At startup: the pending background waits, expired ones finished and the
    others watched again. *)
Definition resumable (store : gmap string AwaitState) : list AwaitState :=
  List.filter (λ st, negb (await_is_stale now_ms st) && is_pending st && as_background st) (map_to_list store).*2.
End Handler.

(** ** The waiters of one key *)

(** Who answers the waiters of the key or looks for a watcher: a watcher, a
    request of either kind, or the resumption at startup. *)
Inductive AwaitParty :=
| Watcher
| Blocking
| Background
| Startup.

(** Where a thread is, between two locks. *)
Inductive AwaitThread :=
| AtRequest
| AtResume
| AtRegister (expired : bool)
| AtMark (who : AwaitParty)
| AtWatch
| AtTake (who : AwaitParty)
| AtClear (who : AwaitParty)
| AtReply
| AtEnded.

(** Requests are named by their threads; [at_closed] has the requests whose
    client is gone, [at_answers] those that were sent a response, in order. *)
Record AwaitTable := mkTable {
  at_active : bool;
  at_waiters : list N;
  at_threads : list AwaitThread;
  at_answers : list N;
  at_closed : list N }.

(** What a thread finds when it runs: what [handle_comm_await_members] decided,
    whether a deadline passed while the server was down, whether a watcher's
    wait is over (or its deadline fired), is not over and is a background wait,
    or lost the event channel. *)
Inductive AwaitChoice :=
| ChHandled (next : AwaitNext)
| ChResumed (expired : bool)
| ChFinished
| ChRound (background : bool)
| ChChannelClosed
| ChGo.

(** The next step of thread [i]. *)
Definition await_step (i : nat) (choice : AwaitChoice) (t : AwaitTable) : option AwaitTable :=
  let goto th := <[i := th]> (at_threads t) in
  let move th := Some (mkTable (at_active t) (at_waiters t) (goto th) (at_answers t) (at_closed t)) in
  let reply th := Some (mkTable (at_active t) (at_waiters t) (goto th) (at_answers t ++ [N.of_nat i]) (at_closed t)) in
  match at_threads t !! i, choice with
  | Some AtRequest, ChHandled NxNothing => reply AtEnded
  | Some AtRequest, ChHandled (NxFinalize _ _ _) => move (AtTake Background)
  | Some AtRequest, ChHandled (NxWatch _) => move (AtMark Background)
  | Some AtRequest, ChHandled (NxRegister _ expired _) => move (AtRegister expired)
  | Some AtResume, ChResumed expired => move (if expired then AtTake Startup else AtMark Startup)
  | Some (AtRegister expired), ChGo =>
      Some (mkTable (at_active t) (at_waiters t ++ [N.of_nat i])
              (goto (if expired then AtTake Blocking else AtMark Blocking)) (at_answers t) (at_closed t))
  | Some (AtMark who), ChGo =>
      let next := match who with Background => AtReply | _ => AtEnded end in
      Some (mkTable true (at_waiters t) (if at_active t then goto next else goto next ++ [AtWatch]) (at_answers t) (at_closed t))
  | Some AtWatch, ChFinished => move (AtTake Watcher)
  | Some AtWatch, ChRound true => move AtWatch
  | Some AtWatch, ChRound false =>
      let kept := List.filter (λ r, negb (bool_decide (r ∈ at_closed t))) (at_waiters t) in
      Some (mkTable (at_active t) kept (goto (if bool_decide (kept = []) then AtClear Watcher else AtWatch))
              (at_answers t) (at_closed t))
  | Some AtWatch, ChChannelClosed => move (AtClear Watcher)
  | Some (AtTake who), ChGo =>
      Some (mkTable (at_active t) [] (goto (AtClear who)) (at_answers t ++ at_waiters t) (at_closed t))
  | Some (AtClear who), ChGo =>
      Some (mkTable false (at_waiters t) (goto (match who with Background => AtReply | _ => AtEnded end))
              (at_answers t) (at_closed t))
  | Some AtReply, ChGo => reply AtEnded
  | _, _ => None
  end.

(** The client of a request disconnects. *)
Definition disconnect (r : N) (t : AwaitTable) : AwaitTable :=
  mkTable (at_active t) (at_waiters t) (at_threads t) (at_answers t) (r :: at_closed t).
