(* ===== verification/AwaitClaims.v ===== *)
(** * Theorems on waiting for members *)

From stdpp Require Import base list strings gmap pretty relations.
From S2P Require Import Prelude RustString Dag Plan PlanClaims SwarmServer SwarmServerClaims Mutation Control ControlClaims Await.

Open Scope string_scope.
Open Scope nat_scope.
Open Scope list_scope.

(** ** When a wait is over *)

(** The session reached one of the statuses, or it is gone and the wait would
    take a stopped or completed one. *)
Definition reached (target : list string) (s : SwarmState) (id : string) : Prop :=
  match ss_members s !! id with
  | Some m => sm_status m ∈ target ∨ sm_status m = "unknown" ∧ ("stopped" ∈ target ∨ "completed" ∈ target)
  | None => "unknown" ∈ target ∨ "stopped" ∈ target ∨ "completed" ∈ target
  end.

Definition wait_over (ids target : list string) (mode : option string) (s : SwarmState) : Prop :=
  ids = [] ∨ if mode_is_any mode then ∃ id, id ∈ ids ∧ reached target s id else ∀ id, id ∈ ids → reached target s id.

Lemma awaited_done target s id : am_done (awaited_status target s id) = true ↔ reached target s id.
Proof.
  unfold awaited_status, reached. destruct (ss_members s !! id) as [m|]; cbn [am_done]; unfold status_is_done;
    rewrite orb_true_iff, is_one_of_true, andb_true_iff, orb_true_iff, !bool_decide_eq_true; naive_solver.
Qed.

Lemma over_iff ids target mode s :
  bool_decide ((awaited_status target s <$> ids) = []) || mode_satisfied (awaited_status target s <$> ids) mode = true
  ↔ wait_over ids target mode s.
Proof.
  rewrite orb_true_iff, bool_decide_eq_true. unfold wait_over, mode_satisfied.
  assert ((awaited_status target s <$> ids) = [] ↔ ids = []) as -> by (by destruct ids).
  destruct (mode_is_any mode).
  - rewrite existsb_exists. setoid_rewrite <- list_elem_of_In. setoid_rewrite list_elem_of_fmap.
    split; (intros [H|H]; [by left | right]).
    + destruct H as (x & (id & -> & Hid) & Hd). exists id. by rewrite <- awaited_done.
    + destruct H as (id & Hid & Hr). exists (awaited_status target s id). rewrite awaited_done. naive_solver.
  - rewrite forallb_forall. setoid_rewrite <- list_elem_of_In. setoid_rewrite list_elem_of_fmap.
    split; (intros [H|H]; [by left | right]).
    + intros id Hid. apply awaited_done, H. by exists id.
    + intros x (id & -> & Hid). by apply awaited_done, H.
Qed.

Lemma await_load_some now_ms key store st store' :
  await_load now_ms key store = (Some st, store') → store' = store ∧ store !! key = Some st ∧ await_is_stale now_ms st = false.
Proof.
  unfold await_load. destruct (store !! key) as [x|]; [|done]. destruct (await_is_stale now_ms x) eqn:E; [done|].
  by intros [= <- <-].
Qed.

Section Wait.
Context (digest : string → string → list string → string) (now_ms : N).

(** The stored wait of a key that is still of use. *)
Definition live_wait (key : string) (store : gmap string AwaitState) : option AwaitState := (await_load now_ms key store).1.

Lemma ensure_pending_spec fresh store :
  is_pending fresh = true → (∀ k st, store !! k = Some st → as_key st = k) →
  let '(st, store') := await_ensure_pending now_ms fresh store in
  is_pending st = true ∧ as_key st = as_key fresh ∧ store' !! as_key fresh = Some st
  ∧ as_deadline st = match live_wait (as_key fresh) store with
                     | Some old => if is_pending old then as_deadline old else as_deadline fresh
                     | None => as_deadline fresh
                     end.
Proof.
  intros Hf Hk. unfold await_ensure_pending, live_wait.
  destruct (await_load now_ms (as_key fresh) store) as [[old|] store1] eqn:E; cbn [fst].
  - apply await_load_some in E as (-> & Hold & _). destruct (is_pending old) eqn:Ho.
    + split_and!; [done | by apply Hk | done | done].
    + unfold await_save. by rewrite lookup_insert_eq.
  - unfold await_save. by rewrite lookup_insert_eq.
Qed.

Lemma wait_state_spec key w q store persisted store1 :
  (∀ k st, store !! k = Some st → as_key st = k) →
  await_load now_ms key store = (persisted, store1) →
  let '(st, store') := wait_state now_ms key w q
                         (match persisted with Some st => if is_pending st then Some st else None | None => None end) store1 in
  is_pending st = true ∧ as_key st = key ∧ store' !! key = Some st
  ∧ as_background st = aq_background q ∧ as_notify st = aq_notify q ∧ as_wake st = aq_wake q
  ∧ as_deadline st = match persisted with
                     | Some old => if is_pending old then as_deadline old else (now_ms + default 3600 (aq_timeout_secs q) * 1000)%N
                     | None => (now_ms + default 3600 (aq_timeout_secs q) * 1000)%N
                     end.
Proof.
  intros Hk Hl. unfold wait_state.
  set (o := match persisted with Some st => if is_pending st then Some st else None | None => None end).
  assert (∃ st store2, match o with Some st => (st, store1) | None => await_ensure_pending now_ms (fresh_wait now_ms key w q) store1 end
            = (st, store2) ∧ is_pending st = true ∧ as_key st = key ∧ store2 !! key = Some st
          ∧ as_deadline st = match o with Some old => as_deadline old | None => (now_ms + default 3600 (aq_timeout_secs q) * 1000)%N end)
    as (st & store2 & -> & Hp & Hkey & Hst & Hd).
  { destruct o as [old|] eqn:Ho.
    - destruct persisted as [x|]; [|done]. unfold o in Ho. destruct (is_pending x) eqn:Hx; [|done]. injection Ho as ->.
      apply await_load_some in Hl as (-> & Hold & _). eexists _, _. split; [done|]. split_and!; [done | by apply Hk | done | done].
    - assert (∀ k st, store1 !! k = Some st → as_key st = k) as Hk1.
      { unfold await_load in Hl. destruct (store !! key) as [x|]; [destruct (await_is_stale now_ms x)|]; injection Hl as _ <-; [|done..].
        intros k st [_ H]%lookup_delete_Some. by apply Hk. }
      pose proof (ensure_pending_spec (fresh_wait now_ms key w q) store1 eq_refl Hk1) as H.
      destruct (await_ensure_pending _ _ _) as [st store2]. destruct H as (H1 & H2 & H3 & H4).
      exists st, store2. split_and!; try done. rewrite H4. unfold live_wait. cbn [as_key fresh_wait].
      unfold o in Ho. unfold await_load in Hl |- *. destruct (store !! key) as [x|] eqn:Ex.
      + destruct (await_is_stale now_ms x) eqn:Es; injection Hl as <- <-.
        * by rewrite lookup_delete_eq.
        * rewrite Ex, Es. cbn. by destruct (is_pending x).
      + injection Hl as <- <-. by rewrite Ex. }
  assert (match persisted with
          | Some old => if is_pending old then as_deadline old else (now_ms + default 3600 (aq_timeout_secs q) * 1000)%N
          | None => (now_ms + default 3600 (aq_timeout_secs q) * 1000)%N end = as_deadline st) as ->.
  { rewrite Hd. unfold o. destruct persisted as [x|]; [|done]. by destruct (is_pending x). }
  case_bool_decide as B1; cbn [andb]; [case_bool_decide as B2; cbn [andb]; [case_bool_decide as B3; cbn [andb]|]|];
    split_and!; try done; unfold await_save; cbn [as_key set_prefs]; rewrite Hkey; by rewrite lookup_insert_eq.
Qed.

(** A wait is decided by the members.  With [ids] the sessions the wait is
    about, it is over when there is none, or when all (in mode any: one) of them
    reached a wanted status, a session that is gone counting as stopped or
    completed.  A request whose wait is over and has no stored result is
    answered at once as complete; a request whose wait is not over is never
    answered as complete, and is stored under its key as pending, with the
    deadline of the wait already pending there or its own, and with its own
    delivery preferences: it is watched in the background, registered as a
    waiter, or timed out.  A watcher finishes its wait as complete exactly when
    it is over, and gives up exactly when it is not, nobody asked for background
    delivery and no client is left. *)
Theorem waits_follow_the_members (q : AwaitRequest) (s : SwarmState) (store : gmap string AwaitState) (w : string) :
  (ss_members s !! aq_session q ≫= sm_swarm_id) = Some w →
  (∀ k st, store !! k = Some st → as_key st = k) →
  let key := await_request_key digest (aq_session q) w (aq_requested_ids q) (aq_target_status q) (aq_mode q) in
  let ids := watch_ids (aq_session q) w (aq_requested_ids q) s in
  let over := wait_over ids (aq_target_status q) (aq_mode q) s in
  let '(reply, next, store') := handle_comm_await_members digest now_ms q s store in
  (over → (live_wait key store ≫= as_final) = None → next = NxNothing ∧ ∃ members summary,
     reply = Some (ArResponse true members summary false))
  ∧ (¬ over → (∀ c m t b, reply = Some (ArResponse c m t b) → c = false)
     ∧ ∃ st, store' !! key = Some st ∧ is_pending st = true ∧ as_background st = aq_background q
       ∧ as_notify st = aq_notify q ∧ as_wake st = aq_wake q
       ∧ as_deadline st = (match live_wait key store with
                           | Some old => if is_pending old then as_deadline old
                                         else now_ms + default 3600 (aq_timeout_secs q) * 1000
                           | None => now_ms + default 3600 (aq_timeout_secs q) * 1000 end)%N
       ∧ match next with
         | NxNothing => False
         | NxFinalize st' _ _ => st' = st ∧ aq_background q = true ∧ (as_deadline st <= now_ms)%N
         | NxWatch st' => st' = st ∧ aq_background q = true ∧ (now_ms < as_deadline st)%N
         | NxRegister st' expired _ => st' = st ∧ aq_background q = false ∧ reply = None
                                       ∧ expired = (as_deadline st <=? now_ms)%N
         end)
  ∧ ∀ st open, as_session_id st = aq_session q → as_swarm_id st = w → as_requested_ids st = aq_requested_ids q →
      as_target_status st = aq_target_status q → as_mode st = aq_mode q → live_wait (as_key st) store = Some st → is_pending st = true →
      match watch_round now_ms st s store open with
      | WsFinish completed _ _ => completed = true ∧ over
      | WsAbandon => ¬ over ∧ as_background st = false ∧ open = 0
      | WsWait => ¬ over ∧ (as_background st = true ∨ open ≠ 0)
      end.
Proof.
  intros Hw Hk. cbv zeta.
  set (ids := watch_ids (aq_session q) w (aq_requested_ids q) s).
  pose proof (over_iff ids (aq_target_status q) (aq_mode q) s) as Hover.
  set (statuses := awaited_status (aq_target_status q) s <$> ids) in *.
  unfold handle_comm_await_members. rewrite Hw.
  set (key := await_request_key _ _ _ _ _ _). change (awaited_member_statuses _ _ _ _ _) with statuses.
  assert (∀ st open, as_session_id st = aq_session q → as_swarm_id st = w → as_requested_ids st = aq_requested_ids q →
      as_target_status st = aq_target_status q → as_mode st = aq_mode q → live_wait (as_key st) store = Some st → is_pending st = true →
      match watch_round now_ms st s store open with
      | WsFinish completed _ _ => completed = true ∧ wait_over ids (aq_target_status q) (aq_mode q) s
      | WsAbandon => ¬ wait_over ids (aq_target_status q) (aq_mode q) s ∧ as_background st = false ∧ open = 0
      | WsWait => ¬ wait_over ids (aq_target_status q) (aq_mode q) s ∧ (as_background st = true ∨ open ≠ 0)
      end) as Hwatch.
  { intros st open H1 H2 H3 H4 H5 H6 H7. unfold watch_round. rewrite H1, H2, H3, H4, H5.
    change (awaited_member_statuses _ _ _ _ _) with statuses.
    destruct (bool_decide (statuses = [])) eqn:B; cbn [orb] in Hover; [split; [done|by apply Hover]|].
    destruct (mode_satisfied statuses (aq_mode q)); [split; [done|by apply Hover]|].
    assert (¬ wait_over ids (aq_target_status q) (aq_mode q) s) as Hn by (intros H; by apply Hover in H).
    unfold refresh_pending_state. unfold live_wait in H6. destruct (await_load now_ms (as_key st) store) as [l st1]. cbn in H6. subst l.
    rewrite H7. cbn [fst]. destruct (as_background st); cbn; [by split; [|left]|].
    destruct (open =? 0) eqn:E; [apply Nat.eqb_eq in E | apply Nat.eqb_neq in E]; (split; [done|]); [done | by right]. }
  unfold live_wait. destruct (await_load now_ms key store) as [persisted store1] eqn:Hl. cbn [fst].
  destruct (bool_decide (statuses = []) || mode_satisfied statuses (aq_mode q)) eqn:Hov.
  - assert (wait_over ids (aq_target_status q) (aq_mode q) s) as Ho by (by apply Hover).
    destruct (persisted ≫= as_final) as [r|] eqn:Hfin.
    + split_and!; [by intros | by intros | done].
    + destruct (bool_decide (statuses = [])); [split_and!; [by eauto | by intros | done]|]. cbn [orb] in Hov. rewrite Hov.
      split_and!; [by eauto | by intros | done].
  - assert (¬ wait_over ids (aq_target_status q) (aq_mode q) s) as Hn by (intros H; by apply Hover in H).
    apply orb_false_iff in Hov as [Hov1 Hov2]. rewrite Hov1, Hov2.
    pose proof (wait_state_spec key w q store persisted store1 Hk Hl) as H.
    destruct (wait_state now_ms key w q _ store1) as [st store2]. destruct H as (H1 & H2 & H3 & H4 & H5 & H6 & H7).
    destruct (aq_background q) eqn:Hb; [destruct (as_deadline st <=? now_ms)%N eqn:He|].
    + apply N.leb_le in He. split_and!; [by intros| |done]. intros _. split; [naive_solver|]. exists st. by split_and!.
    + apply N.leb_gt in He. split_and!; [by intros| |done]. intros _. split; [naive_solver|]. exists st. by split_and!.
    + split_and!; [by intros| |done]. intros _. split; [done|]. exists st. by split_and!.
Qed.
End Wait.

(** ** The table of waiters *)

Definition watching (th : AwaitThread) : bool :=
  match th with AtWatch | AtTake Watcher | AtClear Watcher => true | _ => false end.

(** The request of this thread has neither registered nor answered yet. *)
Definition unheard (th : AwaitThread) : bool :=
  match th with
  | AtRequest | AtRegister _ | AtMark Background | AtTake Background | AtClear Background | AtReply => true
  | _ => false
  end.

(** The request of this thread is a blocking one that has registered, or it has
    been handled. *)
Definition heard (th : AwaitThread) : bool :=
  match th with AtMark Blocking | AtTake Blocking | AtClear Blocking | AtEnded => true | _ => false end.

Definition table_init (n m : nat) : AwaitTable := mkTable false [] (replicate n AtRequest ++ replicate m AtResume) [] [].

Definition table_step (t t' : AwaitTable) : Prop := (∃ i choice, await_step i choice t = Some t') ∨ ∃ r, t' = disconnect r t.

Record table_ok (n : nat) (t : AwaitTable) : Prop := {
  to_nodup : NoDup (at_answers t ++ at_waiters t);
  to_old r : r ∈ at_answers t ++ at_waiters t → ∃ th, at_threads t !! N.to_nat r = Some th ∧ unheard th = false;
  to_kept i th : i < n → at_threads t !! i = Some th → unheard th = false →
    N.of_nat i ∈ at_answers t ++ at_waiters t ∨ N.of_nat i ∈ at_closed t;
  to_requests i th : i < n → at_threads t !! i = Some th → unheard th || heard th = true;
  to_taken i : i < n → at_threads t !! i = Some (AtClear Blocking) → N.of_nat i ∈ at_answers t ++ at_closed t;
  to_watched : at_active t = true → ∃ i th, at_threads t !! i = Some th ∧ watching th = true;
  to_length : n ≤ length (at_threads t) }.

(** One thread moves from [x] to [y], perhaps starting a watcher. *)
Lemma table_ok_move n t i x y (new : bool) active waiters answers :
  table_ok n t → at_threads t !! i = Some x →
  NoDup (answers ++ waiters) →
  (∀ r, r ∈ answers ++ waiters → r ∈ at_answers t ++ at_waiters t ∨ r = N.of_nat i ∧ unheard y = false) →
  (∀ r, r ∈ at_answers t ++ at_waiters t → r ∈ answers ++ waiters ∨ r ∈ at_closed t) →
  (unheard x = true → unheard y = false → N.of_nat i ∈ answers ++ waiters) →
  (unheard x = false → unheard y = false) → (unheard x || heard x = true → unheard y || heard y = true) →
  (∀ r, r ∈ at_answers t → r ∈ answers) → (y = AtClear Blocking → x = AtTake Blocking ∧ ∀ r, r ∈ at_waiters t → r ∈ answers) →
  (active = true → new = true ∨ at_active t = true ∧ (watching x = true → watching y = true)) →
  table_ok n (mkTable active waiters (<[i := y]> (at_threads t) ++ if new then [AtWatch] else []) answers (at_closed t)).
Proof.
  intros Hok Hi Hnd Hnew Hkeep Hin Hun Hreq Hans Htaken Hact. destruct Hok as [_ Ho Hk Hr Ht Hw Hl].
  assert (i < length (at_threads t)) as Hlt by (by eapply lookup_lt_Some).
  assert (∀ k th, (<[i := y]> (at_threads t) ++ if new then [AtWatch] else []) !! k = Some th →
    k = i ∧ th = y ∨ k ≠ i ∧ at_threads t !! k = Some th ∨ n ≤ k) as Hlook.
  { intros k th [H|[H _]]%lookup_app_Some; [|rewrite length_insert in H; lia].
    destruct (decide (k = i)) as [->|Hne].
    - rewrite list_lookup_insert_eq in H by done. injection H as <-. by left.
    - rewrite list_lookup_insert_ne in H by done. auto. }
  split; cbn [at_active at_waiters at_threads at_answers at_closed].
  - done.
  - intros r Hr'. destruct (Hnew r Hr') as [(th & H1 & H2)%Ho|[-> Hy]].
    + destruct (decide (N.to_nat r = i)) as [E|Hne].
      * exists y. rewrite lookup_app_l, E, list_lookup_insert_eq by (rewrite ?length_insert; lia).
        split; [done|]. apply Hun. rewrite E, Hi in H1. by injection H1 as <-.
      * exists th. rewrite lookup_app_l by (rewrite length_insert; by eapply lookup_lt_Some).
        by rewrite list_lookup_insert_ne.
    + exists y. by rewrite Nat2N.id, lookup_app_l, list_lookup_insert_eq by (rewrite ?length_insert; lia).
  - intros k th Hkn Hth Hu. destruct (Hlook k th Hth) as [[-> ->]|[[Hne H]|?]]; [|..|lia].
    + destruct (unheard x) eqn:Ex; [left; by apply Hin|].
      destruct (Hk i x Hkn Hi Ex) as [Hr'|]; [|by right]. by apply Hkeep.
    + destruct (Hk k th Hkn H Hu) as [Hr'|]; [|by right]. by apply Hkeep.
  - intros k th Hkn Hth. destruct (Hlook k th Hth) as [[-> ->]|[[Hne H]|?]]; [|by eapply Hr|lia]. apply Hreq. by eapply Hr.
  - intros k Hkn Hth. rewrite elem_of_app. destruct (Hlook k _ Hth) as [[-> <-]|[[Hne H]|?]]; [|..|lia].
    + destruct (Htaken eq_refl) as [-> Hall]. destruct (Hk i _ Hkn Hi eq_refl) as [[H|H]%elem_of_app|H]; auto.
    + destruct (proj1 (elem_of_app _ _ _) (Ht k Hkn H)); auto.
  - intros [->|[Ha Hxy]]%Hact.
    + exists (length (at_threads t)), AtWatch. split; [|done]. rewrite lookup_app_r by (rewrite length_insert; lia).
      by rewrite length_insert, Nat.sub_diag.
    + destruct (Hw Ha) as (k & th & H1 & H2). destruct (decide (k = i)) as [->|Hne].
      * exists i, y. rewrite lookup_app_l, list_lookup_insert_eq by (rewrite ?length_insert; lia).
        split; [done|]. apply Hxy. by simplify_eq.
      * exists k, th. rewrite lookup_app_l by (rewrite length_insert; by eapply lookup_lt_Some).
        by rewrite list_lookup_insert_ne.
  - rewrite length_app, length_insert. lia.
Qed.

(** The same when no watcher starts and the table stays as it is. *)
Lemma table_ok_goto n t i x y :
  table_ok n t → at_threads t !! i = Some x → unheard y = unheard x → (heard x = true → heard y = true) →
  y ≠ AtClear Blocking → (watching x = true → watching y = true) →
  table_ok n (mkTable (at_active t) (at_waiters t) (<[i := y]> (at_threads t)) (at_answers t) (at_closed t)).
Proof.
  intros Hok Hi Hu Hh Hy Hw. rewrite <- (app_nil_r (<[i := y]> _)).
  apply (table_ok_move n t i x y false); rewrite ?Hu; auto; try congruence; [by apply to_nodup with n|].
  destruct (unheard x); simpl; auto.
Qed.

(** A thread that has not been heard of is in neither list. *)
Lemma table_ok_fresh n t i x :
  table_ok n t → at_threads t !! i = Some x → unheard x = true → N.of_nat i ∉ at_answers t ++ at_waiters t.
Proof.
  intros Hok Hi Hx (th & Hth & Hu)%(to_old _ _ Hok). rewrite Nat2N.id in Hth. by simplify_eq; congruence.
Qed.

Lemma table_ok_reply n t i x :
  table_ok n t → at_threads t !! i = Some x → unheard x = true → watching x = false →
  table_ok n (mkTable (at_active t) (at_waiters t) (<[i := AtEnded]> (at_threads t)) (at_answers t ++ [N.of_nat i]) (at_closed t)).
Proof.
  intros Hok Hi Hu Hw. pose proof (table_ok_fresh n t i x Hok Hi Hu) as Hf. pose proof (to_nodup _ _ Hok) as Hnd.
  rewrite <- (app_nil_r (<[i := AtEnded]> _)).
  apply (table_ok_move n t i x AtEnded false); auto; try congruence.
  - rewrite elem_of_app in Hf. apply NoDup_app in Hnd as (N1 & N2 & N3). rewrite <- app_assoc. apply NoDup_app. split_and!; [done| |].
    + intros r Hr. rewrite elem_of_app, list_elem_of_singleton. intros [->|?]; [by apply Hf; left|by eapply N2].
    + apply NoDup_app. split_and!; [apply NoDup_singleton| |done]. intros r ->%list_elem_of_singleton ?. apply Hf. by right.
  - intros r. rewrite !elem_of_app, list_elem_of_singleton. tauto.
  - intros r. rewrite !elem_of_app. tauto.
  - intros _ _. rewrite !elem_of_app, list_elem_of_singleton. tauto.
  - intros r Hr. apply elem_of_app. by left.
  - rewrite Hw. auto.
Qed.

Lemma table_ok_register n t i expired y :
  table_ok n t → at_threads t !! i = Some (AtRegister expired) → y = AtMark Blocking ∨ y = AtTake Blocking →
  table_ok n (mkTable (at_active t) (at_waiters t ++ [N.of_nat i]) (<[i := y]> (at_threads t)) (at_answers t) (at_closed t)).
Proof.
  intros Hok Hi Hy. pose proof (table_ok_fresh n t i _ Hok Hi eq_refl) as Hf. pose proof (to_nodup _ _ Hok) as Hnd.
  rewrite <- (app_nil_r (<[i := y]> _)).
  assert (unheard y = false ∧ heard y = true ∧ y ≠ AtClear Blocking) as (Hu & Hh & Hc) by (by destruct Hy as [-> | ->]).
  apply (table_ok_move n t i (AtRegister expired) y false); rewrite ?Hu, ?Hh; auto; try congruence.
  - rewrite app_assoc. apply NoDup_app. split_and!; [done| |apply NoDup_singleton]. by intros r Hr ->%list_elem_of_singleton.
  - intros r. rewrite app_assoc, elem_of_app, list_elem_of_singleton. intros [?| ->]; auto.
  - intros r. rewrite !elem_of_app. tauto.
  - intros _ _. rewrite !elem_of_app, list_elem_of_singleton. tauto.
  - intros ?. right. by split.
Qed.

Lemma table_ok_mark n t i who y :
  table_ok n t → at_threads t !! i = Some (AtMark who) → y = (match who with Background => AtReply | _ => AtEnded end) →
  table_ok n (mkTable true (at_waiters t) (if at_active t then <[i := y]> (at_threads t) else <[i := y]> (at_threads t) ++ [AtWatch])
                (at_answers t) (at_closed t)).
Proof.
  intros Hok Hi Hy. pose proof (to_nodup _ _ Hok) as Hnd.
  assert (unheard y = unheard (AtMark who) ∧ unheard y || heard y = true ∧ y ≠ AtClear Blocking) as (Hu & Hh & Hc)
    by (subst y; by destruct who).
  replace (if at_active t then _ else _) with (<[i := y]> (at_threads t) ++ if negb (at_active t) then [AtWatch] else [])
    by (destruct (at_active t); [apply app_nil_r|done]).
  apply (table_ok_move n t i (AtMark who) y (negb (at_active t))); rewrite ?Hu; auto; try congruence.
  intros _. destruct (at_active t); [right|by left]. split; [done|by intros ?].
Qed.

Lemma table_ok_take n t i who :
  table_ok n t → at_threads t !! i = Some (AtTake who) →
  table_ok n (mkTable (at_active t) [] (<[i := AtClear who]> (at_threads t)) (at_answers t ++ at_waiters t) (at_closed t)).
Proof.
  intros Hok Hi. pose proof (to_nodup _ _ Hok) as Hnd. rewrite <- (app_nil_r (<[i := _]> _)).
  apply (table_ok_move n t i (AtTake who) (AtClear who) false); rewrite ?app_nil_r; auto; try (by destruct who).
  - intros r Hr. apply elem_of_app. by left.
  - intros [= ->]. split; [done|]. intros r Hr. apply elem_of_app. by right.
Qed.

Lemma table_ok_clear n t i who y :
  table_ok n t → at_threads t !! i = Some (AtClear who) → y = (match who with Background => AtReply | _ => AtEnded end) →
  table_ok n (mkTable false (at_waiters t) (<[i := y]> (at_threads t)) (at_answers t) (at_closed t)).
Proof.
  intros Hok Hi ->. pose proof (to_nodup _ _ Hok) as Hnd. rewrite <- (app_nil_r (<[i := _]> _)).
  apply (table_ok_move n t i (AtClear who) _ false); auto; by destruct who.
Qed.

Lemma table_ok_retain n t i :
  table_ok n t → at_threads t !! i = Some AtWatch →
  let kept := List.filter (λ r, negb (bool_decide (r ∈ at_closed t))) (at_waiters t) in
  table_ok n (mkTable (at_active t) kept (<[i := if bool_decide (kept = []) then AtClear Watcher else AtWatch]> (at_threads t))
                (at_answers t) (at_closed t)).
Proof.
  intros Hok Hi kept. pose proof (to_nodup _ _ Hok) as Hnd. rewrite <- (app_nil_r (<[i := _]> _)).
  set (y := if bool_decide (kept = []) then _ else _).
  assert (unheard y = false ∧ y ≠ AtClear Blocking ∧ watching y = true) as (Hu & Hc & Hw) by (unfold y; by case_bool_decide).
  assert (∀ r, r ∈ kept ↔ r ∈ at_waiters t ∧ r ∉ at_closed t) as Hkept.
  { intros r. unfold kept. by rewrite elem_of_List_filter, negb_true_iff, bool_decide_eq_false. }
  apply (table_ok_move n t i AtWatch y false); rewrite ?Hu; auto; try congruence.
  - apply NoDup_app in Hnd as (N1 & N2 & N3). apply NoDup_app. split_and!; [done| |by apply NoDup_List_filter].
    intros r Hr [Hr' _]%Hkept. by eapply N2.
  - intros r. rewrite !elem_of_app, Hkept. tauto.
  - intros r. rewrite !elem_of_app, Hkept. destruct (decide (r ∈ at_closed t)); tauto.
  - done.
  - done.
Qed.

Lemma table_step_ok n t t' : table_ok n t → table_step t t' → table_ok n t'.
Proof.
  intros Hok [(i & choice & E)|[r ->]].
  2:{ destruct Hok. split; cbn; try done.
    - intros k th Hk Hth Hu. destruct (to_kept0 k th Hk Hth Hu); [by left|right; by right].
    - intros k Hk Hth. specialize (to_taken0 k Hk Hth). rewrite elem_of_app in *. destruct to_taken0; [by left|right; by right]. }
  unfold await_step in E. destruct (at_threads t !! i) as [[]|] eqn:Hi; try done.
  - destruct choice as [[| | |]| | | | |]; try done; injection E as <-; [by eapply table_ok_reply|..];
      by eapply table_ok_goto.
  - destruct choice as [|[]| | | |]; try done; injection E as <-; by eapply table_ok_goto.
  - destruct choice; try done. injection E as <-. eapply table_ok_register; [done..|]. destruct expired; auto.
  - destruct choice; try done. injection E as <-. by eapply table_ok_mark.
  - destruct choice as [| | |[]| |]; try done; injection E as <-; [by eapply table_ok_goto..| |by eapply table_ok_goto].
    by apply table_ok_retain.
  - destruct choice; try done. injection E as <-. by apply table_ok_take.
  - destruct choice; try done. injection E as <-. by eapply table_ok_clear.
  - destruct choice; try done. injection E as <-. by eapply table_ok_reply.
Qed.

Lemma table_reachable_ok n m t : rtc table_step (table_init n m) t → table_ok n t.
Proof.
  intros Hr. revert t Hr. apply rtc_ind_r; [|intros t t' _ Hs Hok; by eapply table_step_ok].
  assert (∀ i th, i < n → (replicate n AtRequest ++ replicate m AtResume) !! i = Some th → th = AtRequest) as H.
  { intros i th Hi. rewrite lookup_app_l by (by rewrite length_replicate). by intros [-> _]%lookup_replicate. }
  split; cbn; [constructor | by intros r ?%not_elem_of_nil|..].
  - intros i th Hi Hth%H; [by subst|done].
  - intros i th Hi Hth%H; [by subst|done].
  - intros i Hi Hth%H; [done..].
  - done.
  - rewrite length_app, !length_replicate. lia.
Qed.

(** C31: The waiters of a wait.  [n] requests for one wait, blocking, in the
    background or answered at once, in time or past the deadline, resumptions at
    startup, and the watchers they start interleave in any way, clients
    disconnect at any time, and the members do anything.  Then no request is
    answered twice and none that was answered is still waiting; a request that
    was handled has been answered, is waiting, or its client is gone; a blocking
    request past the deadline has its answer, unless its client is gone, when it
    releases the key; and a key is active only while a watcher is at work.  (The
    converse fails, and two watchers can be at work: lemma
    [expired_request_lets_two_watch].) *)
Theorem waiters_are_answered_once (n m : nat) (t : AwaitTable) :
  rtc table_step (table_init n m) t →
  NoDup (at_answers t ++ at_waiters t)
  ∧ (∀ i, i < n → at_threads t !! i = Some AtEnded → N.of_nat i ∈ at_answers t ++ at_waiters t ∨ N.of_nat i ∈ at_closed t)
  ∧ (∀ i, i < n → at_threads t !! i = Some (AtClear Blocking) → N.of_nat i ∈ at_answers t ++ at_closed t)
  ∧ (at_active t = true → ∃ i th, at_threads t !! i = Some th ∧ watching th = true).
Proof.
  intros [H1 _ H3 _ H5 H6]%table_reachable_ok. split_and!; [done| |done..]. intros i Hi Ht. by eapply H3.
Qed.

(** ** Examples *)

Fixpoint run_table (l : list (nat * AwaitChoice)) (t : AwaitTable) : option AwaitTable :=
  match l with
  | [] => Some t
  | (i, choice) :: l => match await_step i choice t with Some t' => run_table l t' | None => None end
  end.

Lemma run_table_rtc l t t' : run_table l t = Some t' → rtc table_step t t'.
Proof.
  revert t. induction l as [|[i choice] l IH]; intros t; cbn [run_table]; [intros [= <-]; constructor|].
  destruct (await_step i choice t) as [t1|] eqn:E; [|done]. intros H. eapply rtc_l; [|by apply IH]. left. by exists i, choice.
Qed.

Definition demo_wait : AwaitState := mkAwait "d-h" "d" "w" ["completed"] ["b"] None 0 400 false true true None.
Definition blocks (expired : bool) : AwaitChoice := ChHandled (NxRegister demo_wait expired []).
Definition detaches : AwaitChoice := ChHandled (NxWatch demo_wait).

(** Two blocking requests and a background one share a watcher. *)
Definition served : AwaitTable :=
  mkTable false [] [AtEnded; AtEnded; AtEnded; AtEnded] [2%N; 0%N; 1%N] [].

Lemma waiters_are_answered_once_witness : NoDup (at_answers served ++ at_waiters served).
Proof.
  apply (waiters_are_answered_once 3 0 served).
  apply (run_table_rtc [(0, blocks false); (1, blocks false); (0, ChGo); (1, ChGo); (0, ChGo); (1, ChGo); (2, detaches); (2, ChGo);
    (2, ChGo); (3, ChRound false); (3, ChFinished); (3, ChGo); (3, ChGo)]). reflexivity.
Defined.

(** A request that registers after the watcher took the waiters and looks for a
    watcher before the watcher clears the key is left without one: every thread
    has ended and it is still waiting. *)
Lemma late_waiter_is_orphaned :
  ∃ t, rtc table_step (table_init 2 0) t ∧ at_waiters t = [1%N] ∧ at_answers t = [0%N] ∧ at_active t = false
       ∧ at_closed t = [] ∧ ∀ i choice, await_step i choice t = None.
Proof.
  exists (mkTable false [1%N] [AtEnded; AtEnded; AtEnded] [0%N] []). split_and!; try done.
  - apply (run_table_rtc [(0, blocks false); (0, ChGo); (0, ChGo); (1, blocks false); (2, ChFinished); (2, ChGo); (1, ChGo);
      (1, ChGo); (2, ChGo)]). reflexivity.
  - intros [|[|[|i]]] [[]| | | | |]; reflexivity.
Qed.

(** A request past the deadline releases the key while the watcher of the wait
    is still there.  The next request starts a second watcher, and the first one
    answers it, with the end of the old wait. *)
Lemma expired_request_lets_two_watch :
  ∃ t t', rtc table_step (table_init 3 0) t ∧ List.filter watching (at_threads t) = [AtWatch; AtWatch]
          ∧ at_waiters t = [2%N]
          ∧ run_table [(3, ChFinished); (3, ChGo); (3, ChGo)] t = Some t'
          ∧ at_answers t' = [0%N; 1%N; 2%N] ∧ at_active t' = false ∧ at_threads t' !! 4 = Some AtWatch.
Proof.
  eexists (mkTable true [2%N] [AtEnded; AtEnded; AtEnded; AtWatch; AtWatch] [0%N; 1%N] []), _. split_and!.
  - apply (run_table_rtc [(0, blocks false); (0, ChGo); (0, ChGo); (1, blocks true); (1, ChGo); (1, ChGo); (1, ChGo);
      (2, blocks false); (2, ChGo); (2, ChGo)]). reflexivity.
  - reflexivity.
  - reflexivity.
  - reflexivity.
  - reflexivity.
  - reflexivity.
  - reflexivity.
Qed.
Definition await_all (sessions : list string) : AwaitRequest :=
  mkAwaitRequest "d" ["completed"] sessions None None false true true.

Lemma waits_follow_the_members_witness :
  let r := handle_comm_await_members (λ _ _ _, "h") 1000 (await_all ["b"]) (pool "light") ∅ in
  r.1.2 = NxNothing ∧ ∃ members summary, r.1.1 = Some (ArResponse true members summary false).
Proof.
  pose proof (waits_follow_the_members (λ _ _ _, "h") 1000 (await_all ["b"]) (pool "light") ∅ "w" eq_refl) as H.
  cbv zeta in H |- *. destruct (handle_comm_await_members _ _ _ _ _) as [[reply next] store'] eqn:E.
  destruct H as (H & _); [intros k st Hst; by rewrite lookup_empty in Hst|].
  apply H; [|reflexivity]. right. intros id ->%list_elem_of_singleton. left. left.
Defined.

(** A stored timeout outlives the wait it ended: when the members have finished
    since, the same request is answered with the old timeout. *)
Lemma stale_timeout_is_replayed :
  let old := mkAwaitResult false [mkAwaited "b" None "running" false None] "Timed out. Still waiting on: b (running)" 500 in
  let key := "d-h" in
  let stored := mkAwait key "d" "w" ["completed"] ["b"] None 0 400 false true true (Some old) in
  (handle_comm_await_members (λ _ _ _, "h") 1000 (await_all ["b"]) (pool "light") {[key := stored]}).1.1
  = Some (ArResponse false [mkAwaited "b" None "running" false None] "Timed out. Still waiting on: b (running)" false)
  ∧ mode_satisfied (awaited_member_statuses "d" "w" ["b"] ["completed"] (pool "light")) None = true.
Proof. vm_compute. done. Qed.
