(* ===== verification/Storage.v ===== *)
(** * Atomic JSON files

    jcode-storage/src/lib.rs: [write_bytes_inner], which replaces a file by a
    rename and keeps the previous version beside it, [read_json], which falls
    back to that version, and [upsert_env_file_value].

    A directory is a map from file names to contents.  Every call of the
    operating system is one step of the monad [IO]; an oracle, the list of
    outcomes of the calls still to come, lets it succeed, fail, or end the
    process.  A failing or interrupted write leaves a prefix of its bytes.  Hard
    links are copies: the only calls that write to an existing file are the one
    that creates a temporary file and the copy of a backup over a file with
    other contents, so no two names of one file are ever told apart. *)

From stdpp Require Import base list strings gmap pretty.
From S2P Require Import Prelude RustString RustText.

Open Scope string_scope.
Open Scope nat_scope.
Open Scope list_scope.

(** ** Files *)

(** A file name is its stem and its extension. *)
Notation FileName := (string * option string)%type.
Notation Files := (@gmap FileName (@prod_eq_dec string String.eq_dec (option string) (@option_eq_dec string String.eq_dec))
  (@prod_countable string String.eq_dec String.countable (option string) (@option_eq_dec string String.eq_dec)
     (@option_countable string String.eq_dec String.countable)) string).

(** [Path::with_extension] for an extension without a dot. *)
Definition with_extension (f : FileName) (extension : string) : FileName := (f.1, Some extension).

(** The temporary name: [with_extension] of "tmp.pid.nonce", whose own extension
    is the nonce. *)
Definition tmp_path (pid nonce : N) (f : FileName) : FileName :=
  (f.1 +:+ ".tmp." +:+ pretty pid, Some (pretty nonce)).

Inductive IoError := NotFound | OtherError.
#[export] Instance IoError_eq_dec : EqDecision IoError.
Proof. solve_decision. Defined.

(** ** Runs *)

Inductive Outcome := Succeeds | Fails (written : nat) | Crashes (written : nat).

Record Disk := mkDisk { dk_files : Files; dk_outcomes : list Outcome }.

Inductive Run (A : Type) :=
| Finished (value : result A IoError) (d : Disk)
| Crashed (files : Files).
Arguments Finished {A} value d.
Arguments Crashed {A} files.

Definition IO (A : Type) : Type := Disk → Run A.

Definition io_ret {A : Type} (x : A) : IO A := λ d, Finished (Ok x) d.
Definition io_err {A : Type} (e : IoError) : IO A := λ d, Finished (Err e) d.
Definition io_files : IO Files := λ d, Finished (Ok (dk_files d)) d.

(** [settle m k] hands the result of [m] to [k], also when it is an error. *)
Definition settle {A B : Type} (m : IO A) (k : result A IoError → IO B) : IO B := λ d,
  match m d with
  | Finished r d => k r d
  | Crashed files => Crashed files
  end.

(** The question mark: an error ends the function. *)
Definition io_bind {A B : Type} (m : IO A) (k : A → IO B) : IO B :=
  settle m (λ r, match r with Ok x => k x | Err e => io_err e end).

Notation "'let*' x := m 'in' k" := (io_bind m (λ x, k))
  (at level 200, x name, m at level 100, k at level 200, right associativity).
Notation "m ';;*' k" := (io_bind m (λ _, k)) (at level 100, k at level 200, right associativity).

Definition io_when (b : bool) (m : IO unit) : IO unit := if b then m else io_ret tt.

(** The files left behind, by a run that ended in whatever way. *)
Definition run_files {A : Type} (r : Run A) : Files :=
  match r with Finished _ d => dk_files d | Crashed files => files end.

(** One call: [cut] is what an interrupted one leaves. *)
Definition call {A : Type} (cut : nat → Files → Files) (act : Files → result A IoError * Files) : IO A := λ d,
  let files := dk_files d in
  match dk_outcomes d with
  | Crashes n :: _ => Crashed (cut n files)
  | Fails n :: rest => Finished (Err OtherError) (mkDisk (cut n files) rest)
  | outcomes => let '(r, files) := act files in Finished r (mkDisk files (tail outcomes))
  end.

(** Calls that take place or do not, and calls without an effect on names and
    contents (directories, permissions, synchronisation). *)
Definition atomic {A : Type} : (Files → result A IoError * Files) → IO A := call (λ _ files, files).
Definition touch : IO unit := atomic (λ files, (Ok tt, files)).

Definition fs_read (f : FileName) : IO string :=
  atomic (λ files, (match files !! f with
                    | Some data => if utf8 data then Ok data else Err OtherError
                    | None => Err NotFound
                    end, files)).

Definition fs_create (f : FileName) : IO unit := atomic (λ files, (Ok tt, <[f := ""]> files)).

Definition fs_write_all (f : FileName) (bytes : string) : IO unit :=
  call (λ n files, <[f := str_take n bytes]> files) (λ files, (Ok tt, <[f := bytes]> files)).

Definition fs_remove (f : FileName) : IO unit :=
  atomic (λ files, match files !! f with
                   | Some _ => (Ok tt, delete f files)
                   | None => (Err NotFound, files)
                   end).

Definition fs_hard_link (original link : FileName) : IO unit :=
  atomic (λ files, match files !! original, files !! link with
                   | Some data, None => (Ok tt, <[link := data]> files)
                   | None, _ => (Err NotFound, files)
                   | _, _ => (Err OtherError, files)
                   end).

Definition fs_rename (from to : FileName) : IO unit :=
  atomic (λ files, match files !! from with
                   | Some data => (Ok tt, <[to := data]> (delete from files))
                   | None => (Err NotFound, files)
                   end).

(** The target is truncated and then filled; a copy that is cut may not have
    opened it yet. *)
Definition fs_fill (to : FileName) (data : string) : IO unit :=
  call (λ n files, match n with 0 => files | S k => <[to := str_take k data]> files end)
    (λ files, (Ok tt, <[to := data]> files)).

Definition fs_copy (from to : FileName) : IO unit := λ d,
  match dk_files d !! from with
  | Some data => fs_fill to data d
  | None => Finished (Err NotFound) d
  end.

Definition fs_exists (f : FileName) : IO bool := λ d, Finished (Ok (bool_decide (is_Some (dk_files d !! f)))) d.

(** ** Writing *)

(** The closure of [write_bytes_inner]. *)
Definition replace_file (tmp path : FileName) (bytes : string) (durable secret : bool) : IO unit :=
  fs_create tmp ;;*
  io_when secret touch ;;*
  fs_write_all tmp bytes ;;*
  io_when durable touch ;;*
  let* present := fs_exists path in
  io_when present
    (let bak_path := with_extension path "bak" in
     io_when secret touch ;;*
     settle (fs_remove bak_path) (λ _,
     settle (fs_hard_link path bak_path) (λ _,
     let* linked := fs_exists bak_path in io_when (secret && linked) touch))) ;;*
  fs_rename tmp path ;;*
  io_when secret touch ;;*
  io_when durable (settle touch (λ _, io_ret tt)).

Definition write_bytes_inner (pid nonce : N) (path : FileName) (bytes : string) (durable secret : bool) : IO unit :=
  touch ;;*
  io_when secret touch ;;*
  let tmp := tmp_path pid nonce path in
  settle (replace_file tmp path bytes durable secret) (λ r,
  match r with
  | Ok _ => io_ret tt
  | Err e => settle (fs_remove tmp) (λ _, io_err e)
  end).

Section Json.
(** [serde_json] for one type. *)
Context {T : Type} (encode : T → string) (decode : string → option T).

Definition write_json_fast (pid nonce : N) (path : FileName) (value : T) : IO unit :=
  write_bytes_inner pid nonce path (encode value) false false.

(** ** Reading *)

(** A corrupt file is replaced by its backup; the copy may fail. *)
Definition read_json (path : FileName) : IO T :=
  let* data := fs_read path in
  match decode data with
  | Some value => io_ret value
  | None =>
      let bak_path := with_extension path "bak" in
      let* present := fs_exists bak_path in
      if present then
        let* bak_data := fs_read bak_path in
        match decode bak_data with
        | Some value => settle (fs_copy bak_path path) (λ _, io_ret value)
        | None => io_err OtherError
        end
      else io_err OtherError
  end.

End Json.

(** ** Environment files *)

Definition is_env_start (c : Ascii.ascii) : bool :=
  is_ascii_upper c || is_ascii_lower c || (byte_val c =? 95)%N.
Definition is_env_char (c : Ascii.ascii) : bool := is_ascii_alphanumeric c || (byte_val c =? 95)%N.

Definition env_key_is_safe (key : string) : bool :=
  match key with
  | String c rest => is_env_start c && negb (any_byte (λ b, negb (is_env_char b)) rest)
  | "" => false
  end.

(** The new lines of the file. *)
Definition env_lines (existing : list string) (key : string) (value : option string) : list string :=
  let prefix := key +:+ "=" in
  let line := match value with Some v => [prefix +:+ v] | None => [] end in
  let kept := mjoin ((λ l, if starts_with prefix l then line else [l]) <$> existing) in
  if existsb (starts_with prefix) existing then kept else kept ++ line.

Definition env_content (ls : list string) : string :=
  let content := String.concat newline ls in
  if bool_decide (content = "") then "" else content +:+ newline.

Definition has_line_break (s : string) : bool := any_byte (λ b, (byte_val b =? 10)%N || (byte_val b =? 13)%N) s.

Definition upsert_env_file_value (pid nonce : N) (path : FileName) (env_key : string) (value : option string) : IO unit :=
  if negb (env_key_is_safe env_key) then io_err OtherError
  else if match value with Some v => has_line_break v | None => false end then io_err OtherError
  else
    settle (fs_read path) (λ r,
    let existing := match r with Ok s => s | Err _ => "" end in
    write_bytes_inner pid nonce path (env_content (env_lines (lines existing) env_key value)) true true).
