(* ===== verification/StorageClaims.v ===== *)
(** * Theorems on atomic files

    A small crash logic for [IO], what an interrupted write can leave behind, and
    what an update of an environment file changes. *)

From stdpp Require Import base list strings gmap pretty.
From S2P Require Import Prelude RustString RustText Storage.

Open Scope string_scope.
Open Scope nat_scope.
Open Scope list_scope.

(** ** Crash triples *)

(** Outcomes without errors of the system, unless [errs] allows them. *)
Definition no_fault (o : Outcome) : bool := match o with Fails _ => false | _ => true end.
Definition faults_ok (errs : bool) (outcomes : list Outcome) : Prop := errs = false → forallb no_fault outcomes = true.

(** From files satisfying [P], a run of [m] ends with a result and files in [Q]
    or is interrupted with files in [C], whatever the oracle does. *)
Definition triple {A : Type} (errs : bool) (P : Files → Prop) (m : IO A) (Q : result A IoError → Files → Prop)
    (C : Files → Prop) : Prop :=
  ∀ d, faults_ok errs (dk_outcomes d) → P (dk_files d) →
  match m d with
  | Finished r d => faults_ok errs (dk_outcomes d) ∧ Q r (dk_files d)
  | Crashed files => C files
  end.

Lemma triple_conseq {errs : bool} {A : Type} (P P' : Files → Prop) (m : IO A) (Q Q' : result A IoError → Files → Prop) (C C' : Files → Prop) :
  triple errs P m Q C → (∀ f, P' f → P f) → (∀ r f, Q r f → Q' r f) → (∀ f, C f → C' f) → triple errs P' m Q' C'.
Proof. intros H HP HQ HC d Ho Hd. specialize (H d Ho (HP _ Hd)). destruct (m d); naive_solver. Qed.

Lemma triple_settle {errs : bool} {A B : Type} (P : Files → Prop) (m : IO A) (R : result A IoError → Files → Prop) (k : result A IoError → IO B) (Q : result B IoError → Files → Prop)
    (C : Files → Prop) :
  triple errs P m R C → (∀ r, triple errs (R r) (k r) Q C) → triple errs P (settle m k) Q C.
Proof.
  intros Hm Hk d Ho Hd. specialize (Hm d Ho Hd). unfold settle. destruct (m d); [|done]. by apply Hk; destruct Hm.
Qed.

Lemma triple_ret {errs : bool} {A : Type} (x : A) (P : Files → Prop) (Q : result A IoError → Files → Prop) (C : Files → Prop) : (∀ f, P f → Q (Ok x) f) → triple errs P (io_ret x) Q C.
Proof. intros H d Ho Hd. split; [done|by apply H]. Qed.

Lemma triple_err {errs : bool} {A : Type} (e : IoError) (P : Files → Prop) (Q : result A IoError → Files → Prop) (C : Files → Prop) :
  (∀ f, P f → Q (Err e) f) → triple errs P (io_err e) Q C.
Proof. intros H d Ho Hd. split; [done|by apply H]. Qed.

Lemma triple_bind {errs : bool} {A B : Type} (P : Files → Prop) (m : IO A) (R : result A IoError → Files → Prop) (k : A → IO B) (Q : result B IoError → Files → Prop)
    (C : Files → Prop) :
  triple errs P m R C → (∀ x, triple errs (R (Ok x)) (k x) Q C) → (∀ e f, R (Err e) f → Q (Err e) f) →
  triple errs P (io_bind m k) Q C.
Proof. intros Hm Hk He. apply (triple_settle _ _ R); [done|]. intros [x|e]; [apply Hk|]. apply triple_err. auto. Qed.

Lemma triple_call {errs : bool} {A : Type} (cut : nat → Files → Files) (act : Files → result A IoError * Files)
    (P : Files → Prop) (Q : result A IoError → Files → Prop) (C : Files → Prop) :
  (∀ f, P f → Q (act f).1 (act f).2) → (∀ n f, errs = true → P f → Q (Err OtherError) (cut n f)) →
  (∀ n f, P f → C (cut n f)) → triple errs P (call cut act) Q C.
Proof.
  intros Ha Hf Hc [f o] Ho Hd. unfold call. simpl in *. specialize (Ha _ Hd).
  destruct o as [|[|n|n] rest]; simpl; [| |split|by apply Hc].
  - destruct (act f). done.
  - destruct (act f). done.
  - intros E. by specialize (Ho E).
  - apply Hf; [|done]. destruct errs; [done|]. by specialize (Ho eq_refl).
Qed.

(** A step that keeps every file. *)
Lemma triple_touch {errs : bool} (P C : Files → Prop) : (∀ f, P f → C f) → triple errs P touch (λ _, P) C.
Proof. intros H. apply triple_call; auto. Qed.

Lemma triple_when {errs : bool} (b : bool) (m : IO unit) (P C : Files → Prop) :
  triple errs P m (λ _, P) C → triple errs P (io_when b m) (λ _, P) C.
Proof. intros H. destruct b; [done|]. by apply triple_ret. Qed.

Lemma triple_exists {errs : bool} (f : FileName) (P C : Files → Prop) :
  triple errs P (fs_exists f) (λ r files, P files ∧ r = Ok (bool_decide (is_Some (files !! f)))) C.
Proof. by intros d Ho Hd. Qed.

(** ** Runs without faults *)

Definition runs {A : Type} (P : Files → Prop) (m : IO A) (Q : result A IoError → Files → Prop) : Prop :=
  ∀ f, P f → ∃ r f', m (mkDisk f []) = Finished r (mkDisk f' []) ∧ Q r f'.

Lemma runs_conseq {A : Type} (P P' : Files → Prop) (m : IO A) (Q Q' : result A IoError → Files → Prop) :
  runs P m Q → (∀ f, P' f → P f) → (∀ r f, Q r f → Q' r f) → runs P' m Q'.
Proof. intros H HP HQ f Hf. destruct (H f (HP _ Hf)) as (r & f' & E & ?). eauto. Qed.

Lemma runs_settle {A B : Type} (P : Files → Prop) (m : IO A) (R : result A IoError → Files → Prop)
    (k : result A IoError → IO B) (Q : result B IoError → Files → Prop) :
  runs P m R → (∀ r, runs (R r) (k r) Q) → runs P (settle m k) Q.
Proof. intros Hm Hk f Hf. destruct (Hm f Hf) as (r & f' & E & Hr). unfold settle. rewrite E. by apply Hk. Qed.

Lemma runs_ret {A : Type} (x : A) (P : Files → Prop) (Q : result A IoError → Files → Prop) :
  (∀ f, P f → Q (Ok x) f) → runs P (io_ret x) Q.
Proof. intros H f Hf. exists (Ok x), f. auto. Qed.

Lemma runs_false {A : Type} (P : Files → Prop) (m : IO A) (Q : result A IoError → Files → Prop) :
  (∀ f, ¬ P f) → runs P m Q.
Proof. intros H f Hf. by destruct (H f). Qed.

(** Sequencing of functions that succeed. *)
Lemma runs_bind {A B : Type} (P : Files → Prop) (m : IO A) (k : A → IO B) (R : A → Files → Prop)
    (Q : result B IoError → Files → Prop) :
  runs P m (λ r f, match r with Ok x => R x f | Err _ => False end) → (∀ x, runs (R x) (k x) Q) → runs P (io_bind m k) Q.
Proof. intros Hm Hk. eapply runs_settle; [exact Hm|]. intros [x|e]; [apply Hk|apply runs_false; by intros f []]. Qed.

Lemma runs_any_call {A : Type} (cut : nat → Files → Files) (act : Files → result A IoError * Files) (P : Files → Prop)
    (Q : result A IoError → Files → Prop) :
  (∀ f, P f → Q (act f).1 (act f).2) → runs P (call cut act) Q.
Proof. intros H f Hf. specialize (H f Hf). unfold call. simpl. destruct (act f) as [r f']. eauto. Qed.

Lemma runs_touch (P : Files → Prop) : runs P touch (λ r f, r = Ok tt ∧ P f).
Proof. by apply runs_any_call. Qed.

Lemma runs_when (b : bool) (P : Files → Prop) : runs P (io_when b touch) (λ r f, r = Ok tt ∧ P f).
Proof. destruct b; [apply runs_touch|by apply runs_ret]. Qed.

Lemma runs_exists (f : FileName) (P : Files → Prop) :
  runs P (fs_exists f) (λ r files, r = Ok (bool_decide (is_Some (files !! f))) ∧ P files).
Proof. intros files Hf. eauto. Qed.

Lemma runs_post {A : Type} (P : Files → Prop) (m : IO A) (Q Q' : result A IoError → Files → Prop) :
  runs P m Q → (∀ r f, Q r f → Q' r f) → runs P m Q'.
Proof. intros H HQ. by eapply runs_conseq. Qed.

(** A run without faults meets the triples. *)
Lemma runs_triple {A : Type} (P : Files → Prop) (m : IO A) (R Q : result A IoError → Files → Prop) (C : Files → Prop) :
  runs P m R → triple false P m Q C → runs P m (λ r f, R r f ∧ Q r f).
Proof.
  intros HR HT f Hf. destruct (HR f Hf) as (r & f' & E & Hr). exists r, f'. specialize (HT (mkDisk f []) (λ _, eq_refl) Hf).
  rewrite E in HT. by destruct HT.
Qed.

(** Closes a step that succeeds by [L]. *)
Ltac ok L := eapply runs_post; [apply L|by intros r f [-> ?]].

(** ** Names *)

Lemma tmp_fresh pid nonce (f : FileName) e : tmp_path pid nonce f ≠ (f.1, e).
Proof.
  intros [=E _]. apply (f_equal String.length) in E. rewrite !length_append_s in E. simpl in E. lia.
Qed.

(** ** Replacing a file *)

Section Replace.
Context (tmp path : FileName) (bytes : string) (f0 : Files).
Let bak := with_extension path "bak".
Context (tmp_path_ne : tmp ≠ path) (tmp_bak_ne : tmp ≠ bak) (path_bak_ne : path ≠ bak).

(** The backup is as it was, gone, or the previous version. *)
Definition backup_ok (f : Files) : Prop :=
  f !! bak = f0 !! bak ∨ is_Some (f0 !! path) ∧ (f !! bak = None ∨ f !! bak = f0 !! path).

Definition framed (f : Files) : Prop :=
  backup_ok f ∧ ∀ n, n ≠ tmp → n ≠ path → n ≠ bak → f !! n = f0 !! n.

Definition old_version (f : Files) : Prop := framed f ∧ f !! path = f0 !! path.
Definition new_version (f : Files) : Prop := framed f ∧ f !! path = Some bytes ∧ f !! tmp = None.
Definition either_version (f : Files) : Prop := old_version f ∨ new_version f.

Lemma old_refl : old_version f0.
Proof using Type. split; [split; [by left|done]|done]. Qed.

Lemma old_insert_tmp data f : old_version f → old_version (<[tmp := data]> f).
Proof using tmp_path_ne tmp_bak_ne.
  intros [[Hb Hf] Hp]. split; [split|].
  - unfold backup_ok. rewrite lookup_insert_ne by done. exact Hb.
  - intros n Hn Hn' Hn''. rewrite lookup_insert_ne by congruence. auto.
  - by rewrite lookup_insert_ne.
Qed.

Lemma old_delete_tmp f : old_version f → old_version (delete tmp f).
Proof using tmp_path_ne tmp_bak_ne.
  intros [[Hb Hf] Hp]. split; [split|].
  - unfold backup_ok. rewrite lookup_delete_ne by done. exact Hb.
  - intros n Hn Hn' Hn''. rewrite lookup_delete_ne by congruence. auto.
  - by rewrite lookup_delete_ne.
Qed.

Lemma old_delete_bak f : old_version f → is_Some (f0 !! path) → old_version (delete bak f).
Proof using path_bak_ne.
  intros [[Hb Hf] Hp] Hs. split; [split|].
  - right. split; [done|]. left. apply lookup_delete_eq.
  - intros n Hn Hn' Hn''. rewrite lookup_delete_ne by congruence. auto.
  - by rewrite lookup_delete_ne.
Qed.

Lemma old_link data f : old_version f → f !! path = Some data → old_version (<[bak := data]> f).
Proof using path_bak_ne.
  intros [[Hb Hf] Hp] Hs. split; [split|].
  - right. rewrite <- Hp, Hs. split; [done|]. right. apply lookup_insert_eq.
  - intros n Hn Hn' Hn''. rewrite lookup_insert_ne by congruence. auto.
  - by rewrite lookup_insert_ne.
Qed.

Lemma new_rename data f :
  old_version f → f !! tmp = Some data → data = bytes → new_version (<[path := data]> (delete tmp f)).
Proof using tmp_path_ne tmp_bak_ne path_bak_ne.
  intros [[Hb Hf] Hp] Hs ->. split; [split|split].
  - unfold backup_ok. rewrite lookup_insert_ne by congruence. rewrite lookup_delete_ne by congruence. exact Hb.
  - intros n Hn Hn' Hn''. rewrite lookup_insert_ne by congruence. rewrite lookup_delete_ne by congruence. auto.
  - apply lookup_insert_eq.
  - rewrite lookup_insert_ne by congruence. apply lookup_delete_eq.
Qed.

(** The temporary file is complete. *)
Definition written (f : Files) : Prop := old_version f ∧ f !! tmp = Some bytes.

Lemma written_old f : written f → old_version f.
Proof using Type. by intros []. Qed.

Lemma rotate_triple {errs : bool} secret :
  triple errs (λ f, written f ∧ is_Some (f !! path))
    (io_when secret touch ;;*
     settle (fs_remove bak) (λ _,
     settle (fs_hard_link path bak) (λ _,
     let* linked := fs_exists bak in io_when (secret && linked) touch)))
    (λ _, written) either_version.
Proof using tmp_path_ne tmp_bak_ne path_bak_ne.
  assert (∀ f, written f → either_version f) as Hw by (intros f []; by left).
  apply (triple_bind _ _ (λ _ f, written f ∧ is_Some (f !! path))).
  { apply triple_when, triple_touch. intros f []. auto. }
  2: { by intros e f []. }
  intros []. apply (triple_settle _ _ (λ _, written)).
  { apply triple_call; [|by intros n f _ []|by intros n f [? _]; auto].
    intros f [[Ho Ht] Hs]. destruct (f !! bak) eqn:E; simpl; [|done]. split.
    - apply old_delete_bak; [done|]. by destruct Ho as [_ <-].
    - by rewrite lookup_delete_ne. }
  intros _. apply (triple_settle _ _ (λ _, written)).
  { apply triple_call; [|done|by intros n f; auto].
    intros f [Ho Ht]. destruct (f !! path) as [data|] eqn:E; simpl; [|done].
    destruct (f !! bak) eqn:E'; simpl; [done|]. split; [by apply old_link|]. by rewrite lookup_insert_ne. }
  intros _. apply (triple_bind _ _ (λ _, written)); [|intros b; apply triple_when, triple_touch; auto|done].
  eapply triple_conseq; [apply (triple_exists bak written)|done|by intros r f []|done].
Qed.

Lemma replace_triple {errs : bool} durable secret :
  triple errs (λ f, f = f0) (replace_file tmp path bytes durable secret)
    (λ r f, match r with
            | Ok _ => new_version f
            | Err _ => if secret then either_version f else old_version f
            end) either_version.
Proof using tmp_path_ne tmp_bak_ne path_bak_ne.
  assert (∀ f, old_version f → if secret then either_version f else old_version f) as Hse.
  { intros f Hf. destruct secret; [by left|done]. }
  assert (∀ f, old_version f → either_version f) as Hoe by (by left).
  unfold replace_file. apply (triple_bind _ _ (λ _, old_version)); [|intros []|auto].
  { apply triple_call; [|by intros n f _ ->; apply old_refl|by intros n f ->; apply Hoe, old_refl].
    intros f ->. apply old_insert_tmp, old_refl. }
  apply (triple_bind _ _ (λ _, old_version)); [apply triple_when, triple_touch; auto|intros []|auto].
  apply (triple_bind _ _ (λ r f, match r with Ok _ => written f | Err _ => old_version f end)); [|intros []|auto].
  { apply triple_call; [|by intros n f _ Hf; apply old_insert_tmp|by intros n f Hf; apply Hoe, old_insert_tmp].
    intros f Hf. split; [by apply old_insert_tmp|apply lookup_insert_eq]. }
  apply (triple_bind _ _ (λ _, written)); [apply triple_when, triple_touch|intros []|by intros e f []; apply Hse].
  { intros f []. auto. }
  apply (triple_bind _ _ (λ r f, written f ∧ r = Ok (bool_decide (is_Some (f !! path)))));
    [apply triple_exists|intros present|by intros e f [[] _]; apply Hse].
  apply (triple_bind _ _ (λ _, written)); [|intros []|by intros e f []; apply Hse].
  { destruct present; simpl; [|by apply triple_ret; intros f []].
    eapply triple_conseq; [apply rotate_triple| |done|done].
    intros f [Hw [= E]]. split; [done|]. symmetry in E. by apply bool_decide_eq_true in E. }
  apply (triple_bind _ _ (λ r f, match r with Ok _ => new_version f | Err _ => old_version f end)); [|intros []|auto].
  { apply triple_call; [|by intros n f _ []|by intros n f []; auto].
    intros f [Ho Ht]. rewrite Ht. simpl. by apply new_rename. }
  apply (triple_bind _ _ (λ r f, new_version f ∧ (is_ok r = false → secret = true))); [|intros []|].
  { destruct secret; [|by apply triple_ret]. eapply triple_conseq;
      [apply (triple_touch (errs:=errs) new_version either_version); by right|done|by intros r f Hf|done]. }
  - destruct durable; simpl; [|by apply triple_ret; intros f []].
    apply (triple_settle _ _ (λ _, new_version)); [|intros r; by apply triple_ret].
    eapply triple_conseq; [apply (triple_touch (errs:=errs) new_version either_version); by right|by intros f []|done|done].
  - intros e f [Hf Hs]. rewrite Hs by done. by right.
Qed.
End Replace.

(** ** The whole write *)

Section Write.
Context (pid nonce : N) (path : FileName) (bytes : string).
Let bak := with_extension path "bak".
Let tmp := tmp_path pid nonce path.
Context (path_bak_ne : path ≠ bak).

Lemma tmp_bak_ne : tmp ≠ bak.
Proof using Type. apply tmp_fresh. Qed.

Lemma tmp_path_ne : tmp ≠ path.
Proof using Type. unfold tmp. rewrite (surjective_pairing path) at 2. apply tmp_fresh. Qed.

Hint Resolve tmp_bak_ne tmp_path_ne path_bak_ne : core.

Lemma discard_triple {errs : bool} (f0 : Files) (P : Files → Prop) (e : IoError) :
  (∀ f, P f → P (delete tmp f)) → (∀ f, P f → either_version tmp path bytes f0 f) →
  triple errs P (settle (fs_remove tmp) (λ _, io_err e)) (λ r f, match r with Ok tt => False | Err _ => P f end)
    (either_version tmp path bytes f0).
Proof using path_bak_ne.
  intros HP HC. apply (triple_settle _ _ (λ _, P)); [|intros _; by apply triple_err].
  apply triple_call; [|done|auto]. intros f Hf. destruct (f !! tmp); simpl; auto.
Qed.

Lemma write_triple {errs : bool} (f0 : Files) (durable secret : bool) :
  triple errs (λ f, f = f0) (write_bytes_inner pid nonce path bytes durable secret)
    (λ r f, match r with
            | Ok tt => new_version tmp path bytes f0 f
            | Err _ => if secret then either_version tmp path bytes f0 f else old_version tmp path f0 f
            end) (either_version tmp path bytes f0).
Proof using path_bak_ne.
  assert (either_version tmp path bytes f0 f0) as He by (left; apply old_refl).
  assert (if secret then either_version tmp path bytes f0 f0 else old_version tmp path f0 f0) as Hs.
  { destruct secret; [done|apply old_refl]. }
  unfold write_bytes_inner. apply (triple_bind _ _ (λ _ f, f = f0)); [|intros []|by intros e f ->].
  { apply triple_touch. by intros f ->. }
  apply (triple_bind _ _ (λ _ f, f = f0)); [|intros []|by intros e f ->].
  { apply triple_when, triple_touch. by intros f ->. }
  eapply triple_settle; [by apply replace_triple|]. intros [[]|e]; [by apply triple_ret|].
  eapply triple_conseq; [apply (discard_triple f0
    (λ f, if secret then either_version tmp path bytes f0 f else old_version tmp path f0 f) e)|done| |done].
  - intros f Hf. destruct secret; [|by apply old_delete_tmp]. destruct Hf as [Hf|Hf]; [left; by apply old_delete_tmp|].
    right. destruct Hf as [Hf [Hp Ht]]. by rewrite delete_id.
  - intros f Hf. destruct secret; [done|by left].
  - by intros [[]|e'] f Hf.
Qed.

(** Without faults the write succeeds. *)
Lemma write_runs (durable secret : bool) :
  runs (λ _, True) (write_bytes_inner pid nonce path bytes durable secret) (λ r _, r = Ok tt).
Proof using path_bak_ne.
  unfold write_bytes_inner, replace_file.
  apply runs_bind with (λ _ _, True); [ok runs_touch|intros _].
  apply runs_bind with (λ _ _, True); [ok runs_when|intros _].
  apply (runs_settle _ _ (λ r _, r = Ok tt)); [|intros [[]|e]; [by apply runs_ret|apply runs_false; by intros f [=]]].
  apply runs_bind with (λ _ _, True); [by apply runs_any_call|intros []].
  apply runs_bind with (λ _ _, True); [ok runs_when|intros []].
  apply runs_bind with (λ _ f, f !! tmp = Some bytes); [|intros []].
  { apply runs_any_call. intros f _. apply lookup_insert_eq. }
  apply runs_bind with (λ _ f, f !! tmp = Some bytes); [ok runs_when|intros []].
  apply runs_bind with (λ _ f, f !! tmp = Some bytes); [ok runs_exists|intros present].
  apply runs_bind with (λ _ f, f !! tmp = Some bytes); [|intros []].
  { destruct present; simpl; [|by apply runs_ret]. apply runs_bind with (λ _ f, f !! tmp = Some bytes); [ok runs_when|intros []].
    apply runs_settle with (λ _ f, f !! tmp = Some bytes).
    { apply runs_any_call. intros f Hf. destruct (f !! with_extension path "bak"); simpl; [|done]. by rewrite lookup_delete_ne by auto. }
    intros _. apply runs_settle with (λ _ f, f !! tmp = Some bytes).
    { apply runs_any_call. intros f Hf. destruct (f !! path), (f !! with_extension path "bak"); simpl; try done. by rewrite lookup_insert_ne by auto. }
    intros _. apply runs_bind with (λ _ f, f !! tmp = Some bytes); [ok runs_exists|intros b; ok runs_when]. }
  apply runs_bind with (λ _ _, True); [|intros []].
  { apply runs_any_call. intros f Hf. fold tmp. by rewrite Hf. }
  apply runs_bind with (λ _ _, True); [ok runs_when|intros []].
  destruct durable; [|by apply runs_ret]. apply (runs_settle _ _ (λ _ _, True)); [ok runs_touch|]. intros r. by apply runs_ret.
Qed.

End Write.

Lemma path_bak_ne_of (path : FileName) : path.2 ≠ Some "bak" → path ≠ with_extension path "bak".
Proof. intros H E. apply H. by rewrite E. Qed.

Lemma triple_run {A : Type} (errs : bool) (f : Files) (m : IO A) (Q : result A IoError → Files → Prop)
    (C : Files → Prop) (outcomes : list Outcome) :
  triple errs (λ g, g = f) m Q C → faults_ok errs outcomes →
  (∀ r d, m (mkDisk f outcomes) = Finished r d → Q r (dk_files d))
  ∧ (∀ g, m (mkDisk f outcomes) = Crashed g → C g).
Proof.
  intros H Ho. specialize (H (mkDisk f outcomes) Ho eq_refl). destruct (m _); split; intros; simplify_eq; [by destruct H|done].
Qed.

(** The files left behind, when both ends of a triple say the same of them. *)
Lemma triple_files {A : Type} (errs : bool) (f : Files) (m : IO A) (Q : Files → Prop) (outcomes : list Outcome) :
  triple errs (λ g, g = f) m (λ _, Q) Q → faults_ok errs outcomes → Q (run_files (m (mkDisk f outcomes))).
Proof. intros H Ho. destruct (triple_run errs f m _ _ outcomes H Ho) as [HF HC]. destruct (m _); [by eapply HF|by apply HC]. Qed.

Lemma runs_files {A : Type} (f : Files) (m : IO A) (Q : result A IoError → Files → Prop) :
  runs (λ g, g = f) m Q → ∃ r d, m (mkDisk f []) = Finished r d ∧ Q r (run_files (m (mkDisk f []))).
Proof. intros H. destruct (H f eq_refl) as (r & f' & E & Hr). rewrite E. eauto. Qed.

Lemma faults_any (outcomes : list Outcome) : faults_ok true outcomes.
Proof. done. Qed.

(** C29: Files are replaced atomically.  Whatever calls fail and wherever the
    process is interrupted, the file afterwards has its previous content, or is
    still missing, or has exactly the new content: it is never lost and never
    torn.  A write that reports success has put the new content in place and
    left no temporary file; one that reports an error has changed nothing (for a
    secret file the permissions may fail after the replacement).  The backup is
    as it was, or the previous version, or, only while the file is there,
    missing; no other file than these and the temporary one changes.  Without
    faults the write succeeds. *)
Theorem interrupted_writes_are_atomic (pid nonce : N) (path : FileName) (bytes : string) (durable secret : bool)
    (files : Files) (outcomes : list Outcome) :
  path.2 ≠ Some "bak" →
  let bak := with_extension path "bak" in
  let tmp := tmp_path pid nonce path in
  let run := write_bytes_inner pid nonce path bytes durable secret (mkDisk files outcomes) in
  let files' := run_files run in
  (files' !! path = files !! path ∨ files' !! path = Some bytes)
  ∧ (∀ d, run = Finished (Ok tt) d → files' !! path = Some bytes ∧ files' !! tmp = None)
  ∧ (∀ e d, run = Finished (Err e) d → secret = false → files' !! path = files !! path)
  ∧ (files' !! bak = files !! bak
     ∨ is_Some (files' !! path) ∧ (files' !! bak = None ∨ files' !! bak = files !! path))
  ∧ (∀ n, n ≠ tmp → n ≠ path → n ≠ bak → files' !! n = files !! n)
  ∧ (outcomes = [] → ∃ d, run = Finished (Ok tt) d).
Proof.
  intros Hp bak tmp run files'. apply path_bak_ne_of in Hp.
  destruct (triple_run true files _ _ _ outcomes (write_triple pid nonce path bytes Hp files durable secret)
    (faults_any _)) as [HF HC].
  assert (either_version tmp path bytes files files') as He.
  { unfold files', run. destruct (write_bytes_inner _ _ _ _ _ _ _) as [[[]|e] d|g] eqn:E; simpl; [right; by apply (HF (Ok tt))| |by apply HC].
    specialize (HF _ _ eq_refl). simpl in HF. destruct secret; [done|by left]. }
  split_and!.
  - destruct He as [[_ ?]|[_ [? _]]]; auto.
  - intros d E. specialize (HF _ _ E). unfold files'. rewrite E. apply HF.
  - intros e d E ->. specialize (HF _ _ E). unfold files'. rewrite E. apply HF.
  - destruct He as [[[Hb _] Hq]|[[Hb _] [Hq _]]]; destruct Hb as [Hb|[Hs Hb]]; [by left| |by left|]; right; rewrite Hq; auto.
  - intros n. destruct He as [[[_ Hf] _]|[[_ Hf] _]]; apply Hf.
  - intros ->. destruct (write_runs pid nonce path bytes Hp durable secret files I) as (r & f' & E & ->). eauto.
Qed.

(** A crash before the rename. *)
Lemma interrupted_writes_are_atomic_witness :
  let run := write_bytes_inner 7 9 ("s", Some "json") "new" false false
               (mkDisk {[("s", Some "json") := "old"]} [Succeeds; Succeeds; Succeeds; Succeeds; Succeeds; Crashes 0]) in
  run_files run !! ("s", Some "json") = Some "old" ∧ run_files run !! ("s", Some "bak") = Some "old"
  ∧ (run_files run !! ("s", Some "json") = Some "old" ∨ run_files run !! ("s", Some "json") = Some "new").
Proof.
  intros run. split_and!; [vm_compute; reflexivity|vm_compute; reflexivity|].
  exact (proj1 (interrupted_writes_are_atomic 7 9 ("s", Some "json") "new" false false {[("s", Some "json") := "old"]}
    [Succeeds; Succeeds; Succeeds; Succeeds; Succeeds; Crashes 0] ltac:(discriminate))).
Defined.

(** ** Environment files *)

Lemma mjoin_cons {A : Type} (x : list A) (l : list (list A)) : mjoin (x :: l) = x ++ mjoin l.
Proof. reflexivity. Qed.

Lemma starts_with_refl pre x : starts_with pre (pre +:+ x) = true.
Proof. apply starts_with_spec. by exists x. Qed.

(** Setting a variable keeps every other line in place, and the lines of the
    variable are exactly the new one; removing it leaves none. *)
Lemma env_lines_spec ls key value :
  let prefix := key +:+ "=" in
  List.filter (λ l, negb (starts_with prefix l)) (env_lines ls key value) = List.filter (λ l, negb (starts_with prefix l)) ls
  ∧ (∀ l, l ∈ env_lines ls key value → starts_with prefix l = true → ∃ v, value = Some v ∧ l = prefix +:+ v)
  ∧ (∀ v, value = Some v → prefix +:+ v ∈ env_lines ls key value).
Proof.
  intros prefix. unfold env_lines. fold prefix.
  set (line := match value with Some v => [prefix +:+ v] | None => [] end).
  set (kept := mjoin _).
  assert (List.filter (λ l, negb (starts_with prefix l)) line = []) as Hline.
  { unfold line. destruct value; [|done]. simpl. by rewrite starts_with_refl. }
  assert (∀ l, l ∈ line → ∃ v, value = Some v ∧ l = prefix +:+ v) as Hin.
  { unfold line. destruct value as [v|]; [|by intros l ?%elem_of_nil]. intros l ->%list_elem_of_singleton. eauto. }
  assert (List.filter (λ l, negb (starts_with prefix l)) kept = List.filter (λ l, negb (starts_with prefix l)) ls
    ∧ (∀ l, l ∈ kept → starts_with prefix l = true → l ∈ line)
    ∧ (existsb (starts_with prefix) ls = true → ∀ l, l ∈ line → l ∈ kept)) as (K1 & K2 & K3).
  { unfold kept. clear kept. induction ls as [|l ls (I1 & I2 & I3)]; [split_and!; [done|by intros l ?%elem_of_nil|done]|].
    rewrite fmap_cons, mjoin_cons, List.filter_app, I1. cbn [existsb].
    destruct (starts_with prefix l) eqn:E; simpl; rewrite E; simpl; rewrite ?Hline; split_and!; try done.
    - intros x [?|?]%elem_of_app Hx; auto.
    - intros _ x Hx. apply elem_of_app. auto.
    - intros x [->|?]%elem_of_cons Hx; [congruence|auto].
    - intros He x Hx. right. auto. }
  destruct (existsb (starts_with prefix) ls) eqn:Ee.
  - split_and!; [done|auto|]. intros v ->. apply (K3 eq_refl). by left.
  - rewrite List.filter_app, Hline, app_nil_r. split_and!; [done| |].
    + intros l [?|?]%elem_of_app Hl; auto.
    + intros v ->. apply elem_of_app. right. by left.
Qed.
