(* ===== verification/Persist.v ===== *)
(** * Saving and restoring swarms

    jcode-app-core/src/server/swarm_persistence.rs, with its two entry points in
    server.rs: a snapshot of each swarm in a file of its own, replaced
    atomically, and what a restarted server makes of the files.  The JSON codec
    of a snapshot, the clocks, the nonces of temporary files and the order of
    directories and hash sets are parameters. *)

From stdpp Require Import base list strings gmap pretty.
From S2P Require Import Prelude RustString Plan Swarm SwarmServer Mutation Storage.

Open Scope string_scope.
Open Scope nat_scope.
Open Scope list_scope.

(** ** Snapshots *)

Record PersistedVersionedPlan := mkPersistedPlan {
  pp_items : list PlanItem;
  pp_version : N;
  pp_participants : list string;
  pp_task_progress : gmap string SwarmTaskProgress;
  pp_mode : string;
  pp_node_meta : gmap string NodeMeta }.

Record PersistedSwarmMember := mkPersistedMember {
  pm_record : SwarmMemberRecord;
  pm_terminal_since : option N }.

Record PersistedSwarmState := mkSnapshot {
  sp_swarm_id : string;
  sp_plan : option PersistedVersionedPlan;
  sp_coordinator : option string;
  sp_members : list PersistedSwarmMember;
  sp_updated_at : N }.

Definition state_path (swarm_id : string) : FileName := (sanitize_session_id swarm_id, Some "json").

Definition to_persisted_plan (p : VersionedPlan) : PersistedVersionedPlan :=
  mkPersistedPlan (vp_items p) (vp_version p) (sort_strings (elements (vp_participants p))) (vp_task_progress p)
    (vp_mode p) (vp_node_meta p).

(** One item of the loop of [from_persisted_plan]. *)
Definition restore_item (updated_at : N) (acc : list PlanItem * gmap string SwarmTaskProgress) (i : PlanItem)
  : list PlanItem * gmap string SwarmTaskProgress :=
  let '(out, progress) := acc in
  if bool_decide (pi_status i = "running") then
    let t := default progress_default (progress !! pi_id i) in
    (out ++ [set_item_status "running_stale" i],
     <[pi_id i := set_stale_since (Some (default updated_at (tp_stale_since_unix_ms t))) t]> progress)
  else (out ++ [i], progress).

Definition from_persisted_plan (p : PersistedVersionedPlan) (updated_at : N) : VersionedPlan :=
  let '(items, progress) := fold_left (restore_item updated_at) (pp_items p) ([], pp_task_progress p) in
  prune_side_maps (mkPlan items (pp_version p) (list_to_set (pp_participants p)) progress (pp_mode p) (pp_node_meta p)).

Definition persisted_plan_is_dormant (p : PersistedVersionedPlan) : bool :=
  bool_decide (pp_items p = [])
  || forallb (λ i, bool_decide (pi_assigned_to i = None) && negb (is_active_status (pi_status i))) (pp_items p).

Definition persisted_plan_is_expired (p : PersistedVersionedPlan) (updated_at loaded_at retention : N) : bool :=
  if bool_decide (pp_items p = []) then true
  else persisted_plan_is_dormant p && (retention <=? loaded_at - updated_at)%N.

(** ** Members *)

Definition to_persisted_member (now snapshot_ms : N) (m : SwarmMember) : PersistedSwarmMember :=
  mkPersistedMember (durable_record m)
    (if member_status_is_terminal (sm_status m) then Some (snapshot_ms - elapsed now (sm_last_status_change m))%N
     else None).

Definition append_recovery_detail (detail : option string) (note : string) : option string :=
  match detail with
  | Some existing => if bool_decide (trim existing = "") then Some note
                     else Some (existing +:+ " (" +:+ note +:+ ")")
  | None => Some note
  end.

Definition survives_headless (s : SwarmLifecycleStatus) : bool :=
  match s with LCompleted | LDone | LFailed | LStopped => true | _ => false end.

Definition recover_member_status (status : SwarmLifecycleStatus) (detail : option string) (is_headless : bool)
  : SwarmLifecycleStatus * option string :=
  match status with
  | LRunning => (LCrashed, append_recovery_detail detail "recovered after reload while running")
  | LReady =>
      (LStopped, append_recovery_detail detail
         (if is_headless then "idle worker not restored after server restart"
          else "client not attached after server restart"))
  | _ =>
      if is_headless && negb (survives_headless status) then
        (LCrashed, append_recovery_detail detail "headless session did not survive reload")
      else (status, detail)
  end.

Definition set_record_status (status : SwarmLifecycleStatus) (detail : option string) (r : SwarmMemberRecord)
  : SwarmMemberRecord :=
  mkMemberRecord (mr_session_id r) (mr_working_dir r) (mr_swarm_id r) (mr_swarm_enabled r) status detail
    (mr_task_label r) (mr_friendly_name r) (mr_report_back r) (mr_completion_report r) (mr_role r) (mr_is_headless r).

Definition set_status_change (t : N) (m : SwarmMember) : SwarmMember :=
  mkSwarmMember (sm_session_id m) (sm_event_tx m) (sm_event_txs m) (sm_working_dir m) (sm_swarm_id m)
    (sm_swarm_enabled m) (sm_status m) (sm_detail m) (sm_task_label m) (sm_friendly_name m) (sm_report_back m)
    (sm_completion_report m) (sm_role m) (sm_joined_at m) t (sm_is_headless m) (sm_output_tail m)
    (sm_todo_progress m) (sm_runtime m).

(** [Instant::checked_sub]; instants are counted from the earliest one. *)
Definition instant_checked_sub (now age : N) : option N := if (age <=? now)%N then Some (now - age)%N else None.

Section Recovery.
(** The monotonic clock, the wall clock, the retention of ended members, and the
    closed channel a recovered member gets. *)
Context (now loaded_at terminal_retention : N) (recovered_member_event_tx : N).

Definition recovered_terminal_since (m : PersistedSwarmMember) (updated_at : N) : option N :=
  let r := pm_record m in
  let was_terminal := member_status_is_terminal (lifecycle_as_str (mr_status r)) in
  let status := (recover_member_status (mr_status r) (mr_detail r) (mr_is_headless r)).1 in
  if member_status_is_terminal (lifecycle_as_str status) then
    Some (default (if was_terminal then updated_at else loaded_at) (pm_terminal_since m))
  else None.

Definition from_persisted_member (m : PersistedSwarmMember) (updated_at : N) : option SwarmMember :=
  let r := pm_record m in
  let '(status, detail) := recover_member_status (mr_status r) (mr_detail r) (mr_is_headless r) in
  let terminal_since := recovered_terminal_since m updated_at in
  if match terminal_since with Some t => (terminal_retention <=? loaded_at - t)%N | None => false end then None
  else
    let recovered := from_record now (set_record_status status detail r) recovered_member_event_tx in
    Some match terminal_since with
         | Some t => set_status_change (default now (instant_checked_sub now (loaded_at - t)%N)) recovered
         | None => recovered
         end.

End Recovery.

(** ** Files *)

(** The order of a directory and of a hash set. *)
Class DirIter := {
  dir_iter : Files → list FileName;
  dir_iter_perm : ∀ files : Files, dir_iter files ≡ₚ (map_to_list files).*1 }.

Definition keyed_dir : DirIter := {| dir_iter := λ files, (map_to_list files).*1; dir_iter_perm := λ _, reflexivity _ |}.

Definition set_iter {I : MapIter} (s : gset string) : list string := (map_iter (gset_to_gmap () s)).*1.

(** A loop that ignores the errors of its body. *)
Fixpoint io_each {A : Type} (body : A → IO unit) (l : list A) : IO unit :=
  match l with
  | [] => io_ret tt
  | x :: rest => settle (body x) (λ _, io_each body rest)
  end.

Section Snapshots.
Context {DI : DirIter} {MI : MapIter}.
Context (encode : PersistedSwarmState → string) (decode : string → option PersistedSwarmState).
(** Clocks of one operation, the process and the nonces of its temporary files. *)
Context (now now_unix_ms : N) (pid : N) (nonce : FileName → N).

Definition save_snapshot (path : FileName) (s : PersistedSwarmState) : IO unit :=
  write_json_fast encode pid (nonce path) path s.

Definition tombstone (swarm_id : string) : PersistedSwarmState := mkSnapshot swarm_id None None [] now_unix_ms.

(** Removing one of the two files; true unless it fails for another reason than
    that there is none. *)
Definition remove_candidate (f : FileName) : IO bool :=
  settle (fs_remove f) (λ r, io_ret (match r with Err OtherError => false | _ => true end)).

Definition remove_snapshot_files (swarm_id : string) : IO bool :=
  let path := state_path swarm_id in
  settle (save_snapshot path (tombstone swarm_id)) (λ r,
  match r with
  | Err _ => io_ret false
  | Ok _ =>
      let* bak := remove_candidate (with_extension path "bak") in
      let* primary := remove_candidate path in
      io_ret (bak && primary)
  end).

(** A newer plan on disk: the snapshot at hand is stale. *)
Definition is_outdated (swarm_plan : option VersionedPlan) (current : result PersistedSwarmState IoError) : bool :=
  match swarm_plan, current with
  | Some p, Ok s => match sp_plan s with Some q => (vp_version p <? pp_version q)%N | None => false end
  | _, _ => false
  end.

Definition snapshot_of (swarm_id : string) (swarm_plan : option VersionedPlan) (coordinator : option string)
  (members : list SwarmMember) : PersistedSwarmState :=
  mkSnapshot swarm_id (to_persisted_plan <$> swarm_plan) coordinator
    (sort_by (λ l r, not_greater (String.compare (mr_session_id (pm_record l)) (mr_session_id (pm_record r))))
       (to_persisted_member now now_unix_ms <$> members)) now_unix_ms.

Definition persist_swarm_state (swarm_id : string) (swarm_plan : option VersionedPlan) (coordinator : option string)
  (members : list SwarmMember) : IO unit :=
  if bool_decide (swarm_plan = None) && bool_decide (coordinator = None) && bool_decide (members = []) then
    settle (remove_snapshot_files swarm_id) (λ _, io_ret tt)
  else
    let save := settle (save_snapshot (state_path swarm_id) (snapshot_of swarm_id swarm_plan coordinator members))
                  (λ _, io_ret tt) in
    match swarm_plan with
    | Some _ => settle (read_json decode (state_path swarm_id)) (λ current,
                if is_outdated swarm_plan current then io_ret tt else save)
    | None => save
    end.

(** [fs::read] of the primary file, for the comparison of versions. *)
Definition read_primary_version (swarm_id : string) : IO (option string) :=
  settle (atomic (λ files, (match files !! state_path swarm_id with
                            | Some data => Ok data
                            | None => Err NotFound
                            end, files)))
    (λ r, io_ret (match r with Ok data => Some data | Err _ => None end)).

Definition remove_swarm_state_if_version (swarm_id : string) (expected : option string) : IO bool :=
  let* version := read_primary_version swarm_id in
  if bool_decide (version = expected) then remove_snapshot_files swarm_id else io_ret false.

(** ** A swarm in memory *)

Definition swarm_members_of (swarm_id : string) (s : SwarmState) : list SwarmMember :=
  sort_by (λ l r, not_greater (String.compare (sm_session_id l) (sm_session_id r)))
    (List.filter (λ m, bool_decide (sm_swarm_id m = Some swarm_id)) (member_values (ss_members s))).

Definition has_any_state (swarm_id : string) (s : SwarmState) : bool :=
  bool_decide (is_Some (ss_plans s !! swarm_id)) || bool_decide (is_Some (ss_coordinators s !! swarm_id))
  || negb (bool_decide (swarm_members_of swarm_id s = [])).

(** Both run under the operation lock of the swarm; [load_runtime] is the state
    they read there. *)
Definition persist_swarm_state_for (swarm_id : string) (s : SwarmState) : IO unit :=
  persist_swarm_state swarm_id (ss_plans s !! swarm_id) (ss_coordinators s !! swarm_id) (swarm_members_of swarm_id s).

Definition remove_persisted_swarm_state_for (swarm_id : string) (s : SwarmState) : IO unit :=
  let* version := read_primary_version swarm_id in
  if has_any_state swarm_id s then io_ret tt
  else settle (remove_swarm_state_if_version swarm_id version) (λ _, io_ret tt).

(** ** Loading *)

Record Loading := mkLoading {
  ld_state : SwarmState;
  ld_pruned_members : gmap string (gset string);
  ld_pruned_plans : gset string }.

Definition loading_start : Loading := mkLoading (mkState ∅ ∅ ∅ ∅) ∅ ∅.

Context (loaded_at terminal_retention plan_retention : N) (recovered_member_event_tx : N).

Definition load_plan (s : PersistedSwarmState) (l : Loading) : Loading :=
  let w := sp_swarm_id s in
  match sp_plan s with
  | None => l
  | Some p =>
      if persisted_plan_is_expired p (sp_updated_at s) loaded_at plan_retention then
        mkLoading (ld_state l) (ld_pruned_members l) ({[w]} ∪ ld_pruned_plans l)
      else mkLoading (set_ss_plans (<[w := from_persisted_plan p (sp_updated_at s)]> (ss_plans (ld_state l))) (ld_state l))
             (ld_pruned_members l) (ld_pruned_plans l)
  end.

Definition load_coordinator (s : PersistedSwarmState) (l : Loading) : Loading :=
  match sp_coordinator s with
  | Some c => mkLoading (set_ss_coordinators (<[sp_swarm_id s := c]> (ss_coordinators (ld_state l))) (ld_state l))
                (ld_pruned_members l) (ld_pruned_plans l)
  | None => l
  end.

Definition insert_in (k x : string) (m : gmap string (gset string)) : gmap string (gset string) :=
  <[k := {[x]} ∪ default ∅ (m !! k)]> m.

Definition load_member (updated_at : N) (l : Loading) (m : PersistedSwarmMember) : Loading :=
  let id := mr_session_id (pm_record m) in
  match mr_swarm_id (pm_record m) with
  | None => l
  | Some w =>
      match from_persisted_member now loaded_at terminal_retention recovered_member_event_tx m updated_at with
      | None => mkLoading (ld_state l) (insert_in w id (ld_pruned_members l)) (ld_pruned_plans l)
      | Some member =>
          let s := ld_state l in
          mkLoading (mkState (<[id := member]> (ss_members s)) (insert_in w id (ss_swarms s)) (ss_plans s)
                       (ss_coordinators s)) (ld_pruned_members l) (ld_pruned_plans l)
      end
  end.

Definition load_snapshot (l : Loading) (s : PersistedSwarmState) : Loading :=
  fold_left (load_member (sp_updated_at s)) (sp_members s) (load_coordinator s (load_plan s l)).

(** The entries of the directory; a file that cannot be read is passed over, and
    so is a backup beside its primary. *)
Fixpoint load_entries (entries : list FileName) (l : Loading) : IO Loading :=
  match entries with
  | [] => io_ret l
  | path :: rest =>
      let* beside := fs_exists (with_extension path "json") in
      if bool_decide (path.2 = Some "bak") && beside then load_entries rest l
      else settle (read_json decode path) (λ r,
           load_entries rest (match r with Ok s => load_snapshot l s | Err _ => l end))
  end.

Definition pruned_in (l : Loading) (swarm_id session : string) : bool :=
  bool_decide (session ∈ default ∅ (ld_pruned_members l !! swarm_id)).

(** Coordinators and participants that were pruned are forgotten. *)
Definition drop_pruned (l : Loading) : SwarmState :=
  let s := ld_state l in
  mkState (ss_members s) (ss_swarms s)
    (map_imap (λ w p, Some (set_participants (filter (λ x, pruned_in l w x = false) (vp_participants p)) p)) (ss_plans s))
    (filter (λ kv, pruned_in l kv.1 kv.2 = false) (ss_coordinators s)).

Definition retained_members (swarm_id : string) (s : SwarmState) : list SwarmMember :=
  omap (λ id, ss_members s !! id) (set_iter (default ∅ (ss_swarms s !! swarm_id))).

Definition rewrite_swarm (s : SwarmState) (w : string) : IO unit :=
  persist_swarm_state w (ss_plans s !! w) (ss_coordinators s !! w) (retained_members w s).

(** Copies of the old location's snapshots, when the new one has none. *)
Fixpoint migrate_entries (legacy : Files) (entries : list FileName) : IO unit :=
  match entries with
  | [] => io_ret tt
  | f :: rest =>
      match f.2, legacy !! f with
      | Some "json", Some data =>
          touch ;;*
          settle (fs_fill f data) (λ _, migrate_entries legacy rest)
      | _, _ => migrate_entries legacy rest
      end
  end.

Definition migrate_legacy_state (legacy : Files) : IO unit :=
  settle touch (λ r,
  let* files := io_files in
  let has_new_state := match r with
                       | Ok _ => existsb (λ f : FileName, bool_decide (f.2 = Some "json")) (dir_iter files)
                       | Err _ => false
                       end in
  if has_new_state then io_ret tt
  else settle touch (λ r, match r with
                          | Ok _ => migrate_entries legacy (dir_iter legacy)
                          | Err _ => io_ret tt
                          end)).

Definition load_runtime_state (legacy : Files) : IO SwarmState :=
  settle (migrate_legacy_state legacy) (λ _,
  settle touch (λ r,
  match r with
  | Err _ => io_ret (mkState ∅ ∅ ∅ ∅)
  | Ok _ =>
      let* files := io_files in
      let* l := load_entries (dir_iter files) loading_start in
      let s := drop_pruned l in
      io_each (rewrite_swarm s) (set_iter (dom (ld_pruned_members l) ∪ ld_pruned_plans l)) ;;*
      io_ret s
  end)).

End Snapshots.
