(* ===== verification/PersistFacts.v ===== *)
(** * Facts about saving and loading snapshots

    Crash triples of saving, removing and reading a snapshot; what loading makes
    of a directory of readable snapshots, file by file. *)

From stdpp Require Import base list strings gmap pretty relations.
From S2P Require Import Prelude RustString RustText Plan PlanClaims Swarm SwarmServer SwarmServerClaims Mutation Storage StorageClaims Persist.

Open Scope string_scope.
Open Scope nat_scope.
Open Scope list_scope.

(** ** Names of snapshots *)

Definition is_dot (c : Ascii.ascii) : bool := (byte_val c =? 46)%N.

Lemma sanitize_no_dot w : any_byte is_dot (sanitize_session_id w) = false.
Proof.
  unfold sanitize_session_id. induction (chars w) as [|c cs IH]; [done|]. cbn [fmap list_fmap str_concat foldr].
  rewrite any_byte_append. apply orb_false_iff. split; [|exact IH].
  destruct c as [|b []]; [done| |done]. destruct (is_key_char b) eqn:E; [|done]. simpl. rewrite orb_false_r.
  unfold is_dot. apply N.eqb_neq. intros Hb. unfold is_key_char, is_ascii_alphanumeric, is_ascii_digit, is_ascii_upper,
    is_ascii_lower, in_range in E. by rewrite Hb in E.
Qed.

Lemma tmp_ne_snapshot pid nonce w f e : tmp_path pid nonce f ≠ (sanitize_session_id w, e).
Proof.
  intros [= E _]. apply (f_equal (any_byte is_dot)) in E. rewrite sanitize_no_dot, any_byte_append in E. simpl in E.
  by rewrite orb_true_r in E.
Qed.

Definition backup_path (w : string) : FileName := with_extension (state_path w) "bak".

Lemma state_backup_ne w : state_path w ≠ backup_path w.
Proof. by apply path_bak_ne_of. Qed.

Section Saving.
Context (encode : PersistedSwarmState → string) (decode : string → option PersistedSwarmState).
Context (decode_encode : ∀ s, decode (encode s) = Some s) (encode_utf8 : ∀ s, utf8 (encode s) = true).
Context (now now_unix_ms pid : N) (nonce : FileName → N).

(** The snapshot file can be read, or there is neither it nor a backup. *)
Definition healthy (f : Files) (w : string) : Prop :=
  match f !! state_path w with
  | Some data => utf8 data = true ∧ is_Some (decode data)
  | None => f !! backup_path w = None
  end.

(** What a load reads then. *)
Definition shown (f : Files) (w : string) : option PersistedSwarmState := f !! state_path w ≫= decode.

(** Same snapshot; and nothing but the files of [w] and a temporary one differs. *)
Definition same_shown (w : string) (f f' : Files) : Prop := healthy f' w ∧ shown f' w = shown f w.

Definition other_files (w : string) (f f' : Files) : Prop :=
  ∀ n, n ≠ tmp_path pid (nonce (state_path w)) (state_path w) → n ≠ state_path w → n ≠ backup_path w → f' !! n = f !! n.

Lemma old_shown w f f' :
  healthy f w → old_version (tmp_path pid (nonce (state_path w)) (state_path w)) (state_path w) f f' →
  same_shown w f f' ∧ other_files w f f'.
Proof using Type.
  intros Hh [[Hb Hf] Hp]. split; [|exact Hf]. unfold same_shown, healthy, shown in *. rewrite Hp. split; [|done].
  destruct (f !! state_path w) eqn:E; [done|]. destruct Hb as [Hb|[[x Hs] _]]; [|congruence]. unfold backup_path in *. by rewrite Hb.
Qed.

Lemma new_shown w s f f' :
  new_version (tmp_path pid (nonce (state_path w)) (state_path w)) (state_path w) (encode s) f f' →
  healthy f' w ∧ shown f' w = Some s ∧ other_files w f f'.
Proof using decode_encode encode_utf8.
  intros [[_ Hf] [Hp _]]. unfold healthy, shown. rewrite Hp. simpl. rewrite decode_encode. split; [|split; [done|exact Hf]].
  split; [apply encode_utf8|done].
Qed.

(** Saving a snapshot: the old one or the new one is shown. *)
Definition saved (w : string) (s : PersistedSwarmState) (f f' : Files) : Prop :=
  healthy f' w ∧ (shown f' w = shown f w ∨ shown f' w = Some s) ∧ other_files w f f'.

Lemma save_triple {errs : bool} (w : string) (s : PersistedSwarmState) (f : Files) :
  healthy f w →
  triple errs (λ g, g = f) (save_snapshot encode pid nonce (state_path w) s)
    (λ r f', match r with
             | Ok _ => healthy f' w ∧ shown f' w = Some s ∧ other_files w f f'
             | Err _ => same_shown w f f' ∧ other_files w f f'
             end) (saved w s f).
Proof using decode_encode encode_utf8.
  intros Hh. eapply triple_conseq; [apply (write_triple _ _ _ _ (state_backup_ne w) f)|done| |].
  - intros [[]|e] f' Hf; [by apply new_shown|by apply old_shown].
  - intros f' [Hf|Hf]; [apply old_shown in Hf as [[? ?] ?]; [|done]|apply new_shown in Hf as (? & ? & ?)];
      split_and!; auto.
Qed.

(** Reading a healthy snapshot changes nothing. *)
Lemma read_triple {errs : bool} (w : string) (f : Files) (C : Files → Prop) :
  healthy f w → C f →
  triple errs (λ g, g = f) (read_json decode (state_path w))
    (λ r f', f' = f ∧ match r with Ok s => shown f w = Some s | Err _ => errs = false → shown f w = None end) C.
Proof using Type.
  intros Hh HC. unfold read_json.
  apply (triple_bind _ _ (λ r f', f' = f ∧ match r with
      | Ok data => f !! state_path w = Some data | Err _ => errs = false → shown f w = None end)).
  - apply triple_call; [|by intros n f' -> ->|by intros n f' ->]. intros f' ->. split; [done|].
    unfold healthy, shown in *. simpl. destruct (f !! state_path w) as [data|]; simpl; [|done].
    by destruct Hh as [-> _].
  - intros data. intros d Ho [Hd Hs]. unfold healthy, shown in *. rewrite Hs in *. destruct Hh as [_ [s E]]. rewrite E.
    split; [done|]. split; [done|]. simpl. by rewrite E.
  - by intros e f' [-> ?].
Qed.

Definition outdated_by (p : option VersionedPlan) (s : option PersistedSwarmState) : bool :=
  match s with Some s => is_outdated p (Ok s) | None => false end.

Notation new_snapshot := (snapshot_of now now_unix_ms).
Notation persist := (persist_swarm_state encode decode now now_unix_ms pid nonce).

(** The new snapshot is only shown in the place of one that is not newer. *)
Definition kept_or_saved (errs : bool) (w : string) (p : option VersionedPlan) (s : PersistedSwarmState) (f f' : Files) : Prop :=
  healthy f' w ∧ other_files w f f'
  ∧ (shown f' w = shown f w ∨ shown f' w = Some s ∧ (errs = false → outdated_by p (shown f w) = false)).

Definition is_empty_state (p : option VersionedPlan) (c : option string) (ms : list SwarmMember) : bool :=
  bool_decide (p = None) && bool_decide (c = None) && bool_decide (ms = []).

Lemma outdated_read (errs : bool) p (r : result PersistedSwarmState IoError) w f :
  is_outdated p r = false →
  match r with Ok s => shown f w = Some s | Err _ => errs = false → shown f w = None end →
  errs = false → outdated_by p (shown f w) = false.
Proof using Type. intros Ho Hr He. destruct r as [s|e]; [by rewrite Hr|by rewrite Hr]. Qed.

Lemma persist_triple {errs : bool} w p c ms (f : Files) :
  healthy f w → is_empty_state p c ms = false →
  triple errs (λ g, g = f) (persist w p c ms) (λ _, kept_or_saved errs w p (new_snapshot w p c ms) f)
    (kept_or_saved errs w p (new_snapshot w p c ms) f).
Proof using decode_encode encode_utf8.
  intros Hh He. unfold persist_swarm_state. unfold is_empty_state in He. rewrite He.
  assert (kept_or_saved errs w p (new_snapshot w p c ms) f f) as Hsame by (split; [done|split; [by intros ?|by left]]).
  assert (∀ P : Prop, P → (P → errs = false → outdated_by p (shown f w) = false) →
    triple errs (λ g, g = f) (settle (save_snapshot encode pid nonce (state_path w) (new_snapshot w p c ms)) (λ _, io_ret tt))
      (λ _, kept_or_saved errs w p (new_snapshot w p c ms) f) (kept_or_saved errs w p (new_snapshot w p c ms) f)) as Hsave.
  { intros P HP Hn. eapply triple_settle;
      [eapply triple_conseq; [by apply save_triple|done|done|]|intros [x|e]; apply triple_ret].
    - intros f' (? & [?|?] & ?); (split; [done|split; [done|]]); [by left|right; auto].
    - intros f' (? & ? & ?). split; [done|split; [done|right; auto]].
    - intros f' ([? ?] & ?). split; [done|split; [done|by left]]. }
  destruct p as [p|]; [|apply (Hsave True); [done|]; by destruct (shown f w)].
  eapply triple_settle; [by apply read_triple|]. intros r.
  destruct (is_outdated (Some p) r) eqn:Ho; [apply triple_ret; by intros f' [-> _]|].
  intros d Hd [Hf Hr]. apply (Hsave _ Hr); [|done|done]. intros Hr'. by apply (outdated_read errs _ r).
Qed.

(** Without faults: the new snapshot, unless the old one is newer. *)
Definition replaced (w : string) (s : PersistedSwarmState) (f f' : Files) : Prop :=
  f' !! state_path w = Some (encode s) ∧ f' !! tmp_path pid (nonce (state_path w)) (state_path w) = None
  ∧ other_files w f f'.

Lemma save_runs w s (f : Files) :
  runs (λ g, g = f) (settle (save_snapshot encode pid nonce (state_path w) s) (λ _, io_ret tt))
    (λ r f', r = Ok tt ∧ replaced w s f f').
Proof using Type.
  apply (runs_settle _ _ (λ r f', r = Ok tt ∧ match r with
      Ok _ => new_version (tmp_path pid (nonce (state_path w)) (state_path w)) (state_path w) (encode s) f f' | Err _ => True end)).
  - eapply runs_post; [eapply runs_triple; [|apply (write_triple _ _ _ _ (state_backup_ne w) f)]|].
    + eapply runs_conseq; [apply (write_runs _ _ _ _ (state_backup_ne w))|done|done].
    + intros r f' [-> Hf]. done.
  - intros r. apply runs_ret. intros f' [-> [[_ Hf] [Hp Ht]]]. by split; [|split_and!].
Qed.

Lemma read_ok path data s (f : Files) :
  f !! path = Some data → utf8 data = true → decode data = Some s →
  read_json decode path (mkDisk f []) = Finished (Ok s) (mkDisk f []).
Proof using Type.
  intros Hp Hu Hs. unfold read_json, io_bind, settle, fs_read, atomic, call. simpl. by rewrite Hp, Hu, Hs.
Qed.

Lemma read_missing path (f : Files) :
  f !! path = None → read_json decode path (mkDisk f []) = Finished (Err NotFound) (mkDisk f []).
Proof using Type. intros Hp. unfold read_json, io_bind, settle, fs_read, atomic, call. simpl. by rewrite Hp. Qed.

Lemma persist_runs w p c ms (f : Files) :
  healthy f w → is_empty_state p c ms = false →
  runs (λ g, g = f) (persist w p c ms) (λ r f', r = Ok tt ∧
    if outdated_by p (shown f w) then f' = f else replaced w (new_snapshot w p c ms) f f').
Proof using Type.
  intros Hh He. unfold persist_swarm_state. unfold is_empty_state in He. rewrite He.
  destruct p as [p|].
  2: { replace (outdated_by None (shown f w)) with false by by destruct (shown f w). apply save_runs. }
  apply (runs_settle _ _ (λ r f', f' = f ∧ is_outdated (Some p) r = outdated_by (Some p) (shown f w))).
  - intros f' ->. unfold healthy, shown in *. destruct (f !! state_path w) as [data|] eqn:E; simpl.
    + destruct Hh as [Hu [s Hs]]. rewrite Hs. eexists _, _. split; [by eapply read_ok|done].
    + eexists _, _. split; [by apply read_missing|done].
  - intros r f' [-> Hr]. rewrite <- Hr. destruct (is_outdated (Some p) r); [eexists _, _; done|by apply save_runs].
Qed.

(** ** Removal *)

(** With crashes but without errors, removal shows the old snapshot, the
    tombstone, or nothing. *)
Definition removed (w : string) (f f' : Files) : Prop :=
  healthy f' w ∧ other_files w f f'
  ∧ (shown f' w = shown f w ∨ shown f' w = Some (tombstone now_unix_ms w) ∨ shown f' w = None).

Definition gone (w : string) (f f' : Files) : Prop :=
  f' !! state_path w = None ∧ f' !! backup_path w = None ∧ other_files w f f'.

Lemma gone_removed w f f' : gone w f f' → removed w f f'.
Proof using Type. intros (Hp & Hb & Ho). split; [|split; [done|right; right]]; unfold healthy, shown; by rewrite Hp. Qed.

Lemma remove_candidate_triple n (P C : Files → Prop) (Q : Files → Prop) :
  (∀ f, P f → C f) → (∀ f, P f → Q (delete n f)) → (∀ f, P f → f !! n = None → Q f) →
  triple false P (remove_candidate n) (λ r f, r = Ok true ∧ Q f) C.
Proof using Type.
  intros HC HQ HN. apply (triple_settle _ _ (λ r f, r ≠ Err OtherError ∧ Q f)).
  - apply triple_call; [|done|auto]. intros f Hf. destruct (f !! n) eqn:E; simpl; auto.
  - intros r. apply triple_ret. intros f [Hr Hf]. by destruct r as [|[]].
Qed.

Lemma other_files_delete w n f f' :
  other_files w f f' → n = state_path w ∨ n = backup_path w → other_files w f (delete n f').
Proof using Type. intros H Hn m H1 H2 H3. rewrite lookup_delete_ne by naive_solver. by apply H. Qed.

Lemma remove_triple w (f : Files) :
  healthy f w →
  triple false (λ g, g = f) (remove_snapshot_files encode now_unix_ms pid nonce w)
    (λ r f', removed w f f' ∧ (r = Ok true → gone w f f')) (removed w f).
Proof using decode_encode encode_utf8.
  intros Hh. unfold remove_snapshot_files.
  eapply triple_settle; [eapply triple_conseq; [by apply save_triple|done|done|]|intros [x|e]].
  - intros f' (? & [?|?] & ?); split; auto.
  - apply (triple_bind _ _ (λ r f', r = Ok true ∧ (healthy f' w ∧ shown f' w = Some (tombstone now_unix_ms w)
      ∧ other_files w f f') ∧ f' !! backup_path w = None)).
    + apply remove_candidate_triple.
      * intros f' (? & ? & ?). split; auto.
      * intros f' (H1 & H2 & H3). split; [|apply lookup_delete_eq]. unfold healthy, shown in *.
        rewrite lookup_delete_ne by (apply not_eq_sym, state_backup_ne).
        destruct (f' !! state_path w); [|done]. split; [exact H1|split; [exact H2|]]. apply other_files_delete; auto.
      * auto.
    + intros b. apply (triple_bind _ _ (λ r f', r = Ok true ∧ b = true ∧ gone w f f')).
      * eapply triple_conseq; [apply (remove_candidate_triple (state_path w)
          (λ f', b = true ∧ healthy f' w ∧ shown f' w = Some (tombstone now_unix_ms w) ∧ other_files w f f' ∧ f' !! backup_path w = None)
          (removed w f) (λ f', b = true ∧ gone w f f'))| | |done].
        -- intros f' (_ & ? & ? & ? & ?). split; auto.
        -- intros f' (-> & ? & ? & ? & ?). split; [done|]. split; [apply lookup_delete_eq|split].
           ++ by rewrite lookup_delete_ne by apply state_backup_ne.
           ++ apply other_files_delete; auto.
        -- intros f' (-> & ? & ? & ? & ?) ?. by split.
        -- intros f' ([= ->] & (? & ? & ?) & ?). auto.
        -- intros r f' (? & ? & ?). auto.
      * intros b'. apply triple_ret. intros f' (E & E' & Hg). split; [by apply gone_removed|done].
      * by intros e f' [[=] _].
    + by intros e f' [[=] _].
  - apply triple_ret. intros f' [[? ?] ?]. split; [by split; auto|done].
Qed.

Lemma remove_runs w (f : Files) :
  healthy f w → runs (λ g, g = f) (remove_snapshot_files encode now_unix_ms pid nonce w) (λ r f', r = Ok true ∧ gone w f f').
Proof using decode_encode encode_utf8.
  intros Hh. eapply runs_post; [eapply (runs_triple _ _ (λ r _, r = Ok true)); [|by apply remove_triple]|by intros r f' (E & _ & Hg); auto].
  assert (∀ n, runs (λ _, True) (remove_candidate n) (λ r _, r = Ok true)) as Hc.
  { intros n. apply (runs_settle _ _ (λ r _, r ≠ Err OtherError)).
    - apply runs_any_call. intros g _. by destruct (g !! n).
    - intros r. apply runs_ret. intros g Hr. by destruct r as [|[]]. }
  unfold remove_snapshot_files. apply (runs_settle _ _ (λ r _, r = Ok tt)).
  { eapply runs_conseq; [apply (write_runs _ _ _ _ (state_backup_ne w))|done|done]. }
  intros [x|e]; [|by apply runs_false].
  apply runs_bind with (λ b _, b = true).
  { eapply runs_conseq; [apply Hc|done|by intros r g ->]. }
  intros b. apply runs_bind with (λ b' _, b && b' = true); [|by intros b'; apply runs_ret; intros g ->].
  intros g ->. destruct (Hc (state_path w) g I) as (r & g' & E & ->). eexists _, _. split; [exact E|done].
Qed.

End Saving.

Section Steps.
(** [serde_json] on snapshots: what is encoded decodes to itself and is text. *)
Context (encode : PersistedSwarmState → string) (decode : string → option PersistedSwarmState).
Context (decode_encode : ∀ s, decode (encode s) = Some s) (encode_utf8 : ∀ s, utf8 (encode s) = true).

Lemma empty_state_iff {MI : MapIter} w s :
  is_empty_state (ss_plans s !! w) (ss_coordinators s !! w) (swarm_members_of w s) = negb (has_any_state w s).
Proof using Type.
  unfold is_empty_state, has_any_state. destruct (ss_plans s !! w); [done|]. destruct (ss_coordinators s !! w); [done|].
  simpl. by destruct (bool_decide (swarm_members_of w s = [])).
Qed.

Lemma persist_empty now now_unix_ms pid nonce w p c ms :
  is_empty_state p c ms = true →
  persist_swarm_state encode decode now now_unix_ms pid nonce w p c ms
  = settle (remove_snapshot_files encode now_unix_ms pid nonce w) (λ _, io_ret tt).
Proof using Type. unfold persist_swarm_state, is_empty_state. by intros ->. Qed.

Lemma removal_triple w p c ms (f : Files) now now_unix_ms pid nonce :
  healthy decode f w → is_empty_state p c ms = true →
  triple false (λ g, g = f) (persist_swarm_state encode decode now now_unix_ms pid nonce w p c ms)
    (λ _, removed decode now_unix_ms pid nonce w f) (removed decode now_unix_ms pid nonce w f).
Proof using decode_encode encode_utf8.
  intros Hh He. rewrite persist_empty by done.
  eapply triple_settle; [by apply remove_triple|]. intros r. apply triple_ret. by intros f' [? _].
Qed.

Lemma removal_runs w p c ms (f : Files) now now_unix_ms pid nonce :
  healthy decode f w → is_empty_state p c ms = true →
  runs (λ g, g = f) (persist_swarm_state encode decode now now_unix_ms pid nonce w p c ms) (λ _, gone pid nonce w f).
Proof using decode_encode encode_utf8.
  intros Hh He. rewrite persist_empty by done.
  eapply runs_settle; [by apply (remove_runs encode decode)|]. intros r. apply runs_ret. by intros f' [_ ?].
Qed.

(** ** Versions *)

Definition shown_version (f : Files) (w : string) : option N := pp_version <$> (shown decode f w ≫= sp_plan).

(** A save of [w]'s plan that may be cut off by a crash, from whatever view of the
    swarm, or anything that leaves the two files of [w] alone. *)
Inductive save_step (w : string) (f : Files) : Files → Prop :=
| ss_save now now_unix_ms pid nonce p c ms outcomes :
    forallb no_fault outcomes = true →
    save_step w f (run_files (persist_swarm_state encode decode now now_unix_ms pid nonce w (Some p) c ms (mkDisk f outcomes)))
| ss_elsewhere f' :
    f' !! state_path w = f !! state_path w → f' !! backup_path w = f !! backup_path w → save_step w f f'.

Lemma save_step_version w f f' :
  healthy decode f w → save_step w f f' → healthy decode f' w ∧
  ∀ v, shown_version f w = Some v → ∃ v', shown_version f' w = Some v' ∧ (v <= v')%N.
Proof using decode_encode encode_utf8.
  intros Hh [now unix pid nonce p c ms outcomes Hn|f1 Hp Hb].
  - destruct (triple_files false f _ _ outcomes (persist_triple encode decode decode_encode encode_utf8 now unix
      pid nonce w (Some p) c ms f Hh eq_refl) (λ _, Hn)) as (Hh' & _ & Hk).
    split; [done|]. intros v Hv. unfold shown_version in *. destruct Hk as [->|[-> Hf]]; [by exists v|].
    simpl. exists (vp_version p). split; [done|]. specialize (Hf eq_refl).
    destruct (shown decode f w) as [s|]; [|done]. simpl in *. destruct (sp_plan s); [|done]. simplify_eq/=.
    by apply N.ltb_ge in Hf.
  - unfold shown_version, shown, healthy in *. rewrite Hp, Hb. split; [done|]. intros v Hv. by exists v.
Qed.

End Steps.

(** ** Loading *)

Section Loading.
Context (now loaded_at terminal_retention plan_retention tx : N).

Notation recover m u := (from_persisted_member now loaded_at terminal_retention tx m u).
Notation load_member := (load_member now loaded_at terminal_retention tx).
Notation load_snapshot := (load_snapshot now loaded_at terminal_retention plan_retention tx).

Definition member_id (m : PersistedSwarmMember) : string := mr_session_id (pm_record m).

(** Members of a swarm's file carry that swarm. *)
Definition members_of (w : string) (ms : list PersistedSwarmMember) : Prop :=
  Forall (λ m, mr_swarm_id (pm_record m) = Some w) ms.

Definition in_set (m : gmap string (gset string)) (w x : string) : Prop := x ∈ default ∅ (m !! w).

Lemma in_set_insert m k y w x : in_set (insert_in k y m) w x ↔ in_set m w x ∨ w = k ∧ x = y.
Proof using Type.
  unfold in_set, insert_in. destruct (decide (w = k)) as [->|Hne].
  - rewrite lookup_insert_eq. simpl. set_solver.
  - rewrite lookup_insert_ne by done. naive_solver.
Qed.

(** What one member, and a list of members, of swarm [w] does to the state. *)
Lemma load_member_spec w u l m :
  mr_swarm_id (pm_record m) = Some w →
  let l' := load_member u l m in
  ss_plans (ld_state l') = ss_plans (ld_state l) ∧ ss_coordinators (ld_state l') = ss_coordinators (ld_state l)
  ∧ (∀ v x, in_set (ld_pruned_members l') v x ↔
       in_set (ld_pruned_members l) v x ∨ v = w ∧ member_id m = x ∧ recover m u = None)
  ∧ (∀ v x, in_set (ss_swarms (ld_state l')) v x ↔
       in_set (ss_swarms (ld_state l)) v x ∨ v = w ∧ member_id m = x ∧ is_Some (recover m u))
  ∧ (∀ x, ss_members (ld_state l') !! x
       = if bool_decide (x = member_id m) then (match recover m u with Some r => Some r | None => ss_members (ld_state l) !! x end)
         else ss_members (ld_state l) !! x).
Proof using Type.
  intros Hw l'. unfold l', Persist.load_member. rewrite Hw. fold (member_id m).
  destruct (recover m u) as [r|]; simpl; split_and!; try done; intros.
  - split; [auto|]. intros [|(_ & _ & [=])]; done.
  - rewrite in_set_insert. naive_solver.
  - destruct (decide (x = member_id m)) as [->|Hne]; [by rewrite bool_decide_eq_true_2, lookup_insert_eq by done|].
    by rewrite bool_decide_eq_false_2, lookup_insert_ne by done.
  - rewrite in_set_insert. naive_solver.
  - split; [auto|]. intros [|(_ & _ & [? [=]])]; done.
  - by destruct (bool_decide _).
Qed.

Lemma exists_cons {A : Type} (m : A) (ms : list A) (Q : A → Prop) :
  (∃ m', m' ∈ m :: ms ∧ Q m') ↔ Q m ∨ ∃ m', m' ∈ ms ∧ Q m'.
Proof using Type. setoid_rewrite elem_of_cons. naive_solver. Qed.

Lemma load_members_spec w u ms : ∀ l,
  members_of w ms →
  let l' := fold_left (load_member u) ms l in
  ss_plans (ld_state l') = ss_plans (ld_state l) ∧ ss_coordinators (ld_state l') = ss_coordinators (ld_state l)
  ∧ (∀ v x, in_set (ld_pruned_members l') v x ↔
       in_set (ld_pruned_members l) v x ∨ v = w ∧ ∃ m, m ∈ ms ∧ member_id m = x ∧ recover m u = None)
  ∧ (∀ v x, in_set (ss_swarms (ld_state l')) v x ↔
       in_set (ss_swarms (ld_state l)) v x ∨ v = w ∧ ∃ m, m ∈ ms ∧ member_id m = x ∧ is_Some (recover m u))
  ∧ (∀ x, x ∉ member_id <$> ms → ss_members (ld_state l') !! x = ss_members (ld_state l) !! x)
  ∧ (NoDup (member_id <$> ms) → ∀ m r, m ∈ ms → recover m u = Some r → ss_members (ld_state l') !! member_id m = Some r).
Proof using Type.
  induction ms as [|m ms IH]; intros l Hms l'.
  - split_and!; [done|done|set_solver..].
  - inversion Hms as [|? ? Hm Hrest]; subst. destruct (load_member_spec w u l m Hm) as (P1 & P2 & P3 & P4 & P5).
    destruct (IH (load_member u l m) Hrest) as (Q1 & Q2 & Q3 & Q4 & Q5 & Q6). subst l'. cbn [fold_left].
    split_and!; [congruence|congruence| | | |].
    + intros v x. rewrite Q3, P3, exists_cons. tauto.
    + intros v x. rewrite Q4, P4, exists_cons. tauto.
    + intros x [Hx Hx']%not_elem_of_cons. rewrite Q5, P5 by done. by rewrite bool_decide_eq_false_2.
    + intros [Hn Hnd]%NoDup_cons m' r [->|Hin]%elem_of_cons Hr; [|by apply Q6].
      rewrite Q5, P5 by done. by rewrite bool_decide_eq_true_2, Hr.
Qed.

(** The plan a snapshot brings. *)
Definition loaded_plan (s : PersistedSwarmState) : option VersionedPlan :=
  sp_plan s ≫= λ p, if persisted_plan_is_expired p (sp_updated_at s) loaded_at plan_retention then None
                    else Some (from_persisted_plan p (sp_updated_at s)).

Lemma load_snapshot_spec l s :
  members_of (sp_swarm_id s) (sp_members s) →
  let l' := load_snapshot l s in
  let w := sp_swarm_id s in
  let u := sp_updated_at s in
  (∀ v, ss_plans (ld_state l') !! v = if bool_decide (v = w) then union (loaded_plan s) (ss_plans (ld_state l) !! v)
                                      else ss_plans (ld_state l) !! v)
  ∧ (∀ v, ss_coordinators (ld_state l') !! v
          = if bool_decide (v = w) then union (sp_coordinator s) (ss_coordinators (ld_state l) !! v)
            else ss_coordinators (ld_state l) !! v)
  ∧ (∀ v x, in_set (ld_pruned_members l') v x ↔
       in_set (ld_pruned_members l) v x ∨ v = w ∧ ∃ m, m ∈ sp_members s ∧ member_id m = x ∧ recover m u = None)
  ∧ (∀ v x, in_set (ss_swarms (ld_state l')) v x ↔
       in_set (ss_swarms (ld_state l)) v x ∨ v = w ∧ ∃ m, m ∈ sp_members s ∧ member_id m = x ∧ is_Some (recover m u))
  ∧ (∀ x, x ∉ member_id <$> sp_members s → ss_members (ld_state l') !! x = ss_members (ld_state l) !! x)
  ∧ (NoDup (member_id <$> sp_members s) → ∀ m r, m ∈ sp_members s → recover m u = Some r →
       ss_members (ld_state l') !! member_id m = Some r).
Proof using Type.
  intros Hms l' w u. unfold l', Persist.load_snapshot.
  destruct (load_members_spec w u (sp_members s) (load_coordinator s (load_plan loaded_at plan_retention s l)) Hms)
    as (Q1 & Q2 & Q3 & Q4 & Q5 & Q6). fold u.
  assert (ss_members (ld_state (load_coordinator s (load_plan loaded_at plan_retention s l))) = ss_members (ld_state l)
    ∧ ss_swarms (ld_state (load_coordinator s (load_plan loaded_at plan_retention s l))) = ss_swarms (ld_state l)
    ∧ ld_pruned_members (load_coordinator s (load_plan loaded_at plan_retention s l)) = ld_pruned_members l) as (E1 & E2 & E3).
  { unfold load_coordinator, load_plan. repeat case_match; done. }
  rewrite E1 in Q5. rewrite E2 in Q4. rewrite E3 in Q3.
  split_and!; [| |exact Q3|exact Q4|exact Q5|exact Q6]; intros v; [rewrite Q1|rewrite Q2]; clear - w.
  - unfold loaded_plan, load_coordinator, load_plan. fold w. destruct (decide (v = w)) as [->|Hne].
    + rewrite bool_decide_eq_true_2 by done. destruct (sp_coordinator s), (sp_plan s) as [p|]; simpl; try case_match; simpl;
        rewrite ?lookup_insert_eq; by destruct (ss_plans (ld_state l) !! w).
    + rewrite bool_decide_eq_false_2 by done. destruct (sp_coordinator s), (sp_plan s) as [p|]; simpl; try case_match; simpl;
        by rewrite ?lookup_insert_ne.
  - unfold load_coordinator, load_plan. fold w. destruct (decide (v = w)) as [->|Hne].
    + rewrite bool_decide_eq_true_2 by done. destruct (sp_coordinator s), (sp_plan s) as [p|]; simpl; try case_match; simpl;
        rewrite ?lookup_insert_eq; by destruct (ss_coordinators (ld_state l) !! w).
    + rewrite bool_decide_eq_false_2 by done. destruct (sp_coordinator s), (sp_plan s) as [p|]; simpl; try case_match; simpl;
        by rewrite ?lookup_insert_ne.
Qed.

(** Files of other swarms keep what is known of [w]. *)
Definition same_at (w : string) (l l' : Loading) : Prop :=
  ss_plans (ld_state l') !! w = ss_plans (ld_state l) !! w
  ∧ ss_coordinators (ld_state l') !! w = ss_coordinators (ld_state l) !! w
  ∧ (∀ x, in_set (ld_pruned_members l') w x ↔ in_set (ld_pruned_members l) w x)
  ∧ (∀ x, in_set (ss_swarms (ld_state l')) w x ↔ in_set (ss_swarms (ld_state l)) w x).

Lemma load_others w snaps : ∀ l,
  Forall (λ s, sp_swarm_id s ≠ w ∧ members_of (sp_swarm_id s) (sp_members s)) snaps →
  same_at w l (fold_left load_snapshot snaps l)
  ∧ ∀ x, Forall (λ s, x ∉ member_id <$> sp_members s) snaps →
      ss_members (ld_state (fold_left load_snapshot snaps l)) !! x = ss_members (ld_state l) !! x.
Proof using Type.
  induction snaps as [|s snaps IH]; intros l Hs; [done|]. inversion Hs as [|? ? [Hne Hms] Hrest]; subst. cbn [fold_left].
  destruct (IH (load_snapshot l s) Hrest) as [(I1 & I2 & I3 & I4) I5].
  destruct (load_snapshot_spec l s Hms) as (P1 & P2 & P3 & P4 & P5 & _). split.
  - split_and!.
    + rewrite I1, P1. by rewrite bool_decide_eq_false_2 by congruence.
    + rewrite I2, P2. by rewrite bool_decide_eq_false_2 by congruence.
    + intros x. rewrite I3, P3. naive_solver.
    + intros x. rewrite I4, P4. naive_solver.
  - intros x Hx. inversion Hx; subst. rewrite I5, P5; done.
Qed.

Lemma load_among w pre s post :
  Forall (λ s, sp_swarm_id s ≠ w ∧ members_of (sp_swarm_id s) (sp_members s)) (pre ++ post) →
  sp_swarm_id s = w → members_of w (sp_members s) →
  let l := fold_left load_snapshot (pre ++ s :: post) loading_start in
  let u := sp_updated_at s in
  ss_plans (ld_state l) !! w = loaded_plan s ∧ ss_coordinators (ld_state l) !! w = sp_coordinator s
  ∧ (∀ x, in_set (ld_pruned_members l) w x ↔ ∃ m, m ∈ sp_members s ∧ member_id m = x ∧ recover m u = None)
  ∧ (∀ x, in_set (ss_swarms (ld_state l)) w x ↔ ∃ m, m ∈ sp_members s ∧ member_id m = x ∧ is_Some (recover m u))
  ∧ (NoDup (member_id <$> sp_members s) → ∀ m r, m ∈ sp_members s → recover m u = Some r →
       Forall (λ s, member_id m ∉ member_id <$> sp_members s) post → ss_members (ld_state l) !! member_id m = Some r).
Proof using Type.
  intros [Hpre Hpost]%Forall_app Hw Hms l u. unfold l. rewrite fold_left_app. cbn [fold_left].
  destruct (load_others w pre loading_start Hpre) as [(A1 & A2 & A3 & A4) _].
  set (l1 := fold_left load_snapshot pre loading_start) in *. subst w.
  destruct (load_snapshot_spec l1 s Hms) as (B1 & B2 & B3 & B4 & _ & B6).
  destruct (load_others _ post (load_snapshot l1 s) Hpost) as [(C1 & C2 & C3 & C4) C5].
  assert (∀ w x, ¬ in_set ∅ w x) as Hno by (intros w x; unfold in_set; rewrite lookup_empty; set_solver).
  split_and!.
  - rewrite C1, B1, A1, bool_decide_eq_true_2 by done. simpl. rewrite lookup_empty. by destruct (loaded_plan s).
  - rewrite C2, B2, A2, bool_decide_eq_true_2 by done. simpl. rewrite lookup_empty. by destruct (sp_coordinator s).
  - intros x. rewrite C3, B3, A3. pose proof (Hno (sp_swarm_id s) x). simpl. tauto.
  - intros x. rewrite C4, B4, A4. pose proof (Hno (sp_swarm_id s) x). simpl. tauto.
  - intros Hnd m r Hm Hr Hf. rewrite C5 by done. by apply B6.
Qed.

(** ** Directories *)

Context {DI : DirIter} {MI : MapIter}.
Context (encode : PersistedSwarmState → string) (decode : string → option PersistedSwarmState).
Context (now_unix_ms pid : N) (nonce : FileName → N).

(** Snapshots that can be read, under the names of their swarms, with backups
    beside them, and nothing else. *)
Record tidy (f : Files) : Prop := {
  tidy_names : ∀ n data, f !! n = Some data → n.2 = Some "json" ∨ n.2 = Some "bak" ∧ is_Some (f !! (n.1, Some "json"));
  tidy_json : ∀ stem data, f !! (stem, Some "json") = Some data → utf8 data = true ∧ ∃ s, decode data = Some s
    ∧ stem = sanitize_session_id (sp_swarm_id s) ∧ members_of (sp_swarm_id s) (sp_members s) }.

Definition entry_snapshot (f : Files) (n : FileName) : option PersistedSwarmState :=
  if bool_decide (n.2 = Some "json") then f !! n ≫= decode else None.

Notation load_entries := (load_entries decode now loaded_at terminal_retention plan_retention tx).

Lemma load_entries_ok f entries : ∀ l,
  tidy f → Forall (λ n, is_Some (f !! n)) entries →
  load_entries entries l (mkDisk f [])
  = Finished (Ok (fold_left load_snapshot (omap (entry_snapshot f) entries) l)) (mkDisk f []).
Proof using Type.
  induction entries as [|n entries IH]; intros l Ht He; [done|]. inversion He as [|? ? [data Hd] Hrest]; subst.
  cbn [Persist.load_entries]. unfold io_bind, settle at 1, fs_exists at 1. cbn [dk_files].
  destruct (tidy_names f Ht n data Hd) as [Hj|[Hb Hp]].
  - rewrite (bool_decide_eq_false_2 (n.2 = Some "bak")) by congruence. simpl.
    destruct n as [stem e]; simpl in Hj; subst e. destruct (tidy_json f Ht stem data Hd) as (Hu & s & Hs & _).
    unfold settle at 1. rewrite (read_ok decode (stem, Some "json") data s f Hd Hu Hs).
    assert (entry_snapshot f (stem, Some "json") = Some s) as ->.
    { unfold entry_snapshot. simpl. by rewrite Hd. }
    cbn [fold_left]. by apply IH.
  - rewrite (bool_decide_eq_true_2 (n.2 = Some "bak")) by done. unfold with_extension.
    rewrite (bool_decide_eq_true_2 (is_Some _)) by done. simpl.
    unfold entry_snapshot at 1. rewrite bool_decide_eq_false_2 by congruence. by apply IH.
Qed.

(** ** Calls that finish *)

Definition finishes {A : Type} (m : IO A) : Prop := runs (λ _, True) m (λ _ _, True).

Lemma finishes_ret {A : Type} (x : A) : finishes (io_ret x).
Proof using Type. by apply runs_ret. Qed.

Lemma finishes_err {A : Type} (e : IoError) : finishes (@io_err A e).
Proof using Type. intros f _. by exists (Err e), f. Qed.

Lemma finishes_settle {A B : Type} (m : IO A) (k : result A IoError → IO B) :
  finishes m → (∀ r, finishes (k r)) → finishes (settle m k).
Proof using Type. intros Hm Hk. by apply (runs_settle _ _ (λ _ _, True)). Qed.

Lemma finishes_bind {A B : Type} (m : IO A) (k : A → IO B) : finishes m → (∀ x, finishes (k x)) → finishes (io_bind m k).
Proof using Type. intros Hm Hk. apply finishes_settle; [done|]. intros [x|e]; [done|apply finishes_err]. Qed.

Lemma finishes_call {A : Type} cut (act : Files → result A IoError * Files) : finishes (call cut act).
Proof using Type. by apply runs_any_call. Qed.

Lemma finishes_exists n : finishes (fs_exists n).
Proof using Type. intros f _. by eexists _, f. Qed.

Lemma finishes_copy n n' : finishes (fs_copy n n').
Proof using Type.
  intros f _. unfold fs_copy. simpl. destruct (f !! n); [by apply finishes_call|]. by eexists _, f.
Qed.

Lemma finishes_read path : finishes (read_json decode path).
Proof using Type.
  unfold read_json. apply finishes_bind; [apply finishes_call|]. intros data. destruct (decode data); [apply finishes_ret|].
  apply finishes_bind; [apply finishes_exists|]. intros []; [|apply finishes_err].
  apply finishes_bind; [apply finishes_call|]. intros bak. destruct (decode bak); [|apply finishes_err].
  apply finishes_settle; [apply finishes_copy|]. intros _. apply finishes_ret.
Qed.

Lemma finishes_save w snap : finishes (save_snapshot encode pid nonce (state_path w) snap).
Proof using Type. eapply runs_conseq; [apply (write_runs _ _ _ _ (state_backup_ne w))|done|done]. Qed.

Lemma finishes_persist w p c ms : finishes (persist_swarm_state encode decode now now_unix_ms pid nonce w p c ms).
Proof using Type.
  unfold persist_swarm_state. destruct (_ && _).
  - apply finishes_settle; [|intros r; apply finishes_ret]. apply finishes_settle; [apply finishes_save|].
    intros [x|e]; [|apply finishes_ret].
    apply finishes_bind; [apply finishes_settle; [apply finishes_call|intros r; apply finishes_ret]|]. intros b.
    apply finishes_bind; [apply finishes_settle; [apply finishes_call|intros r; apply finishes_ret]|]. intros b'. apply finishes_ret.
  - destruct p; [apply finishes_settle; [apply finishes_read|]; intros r; destruct (is_outdated _ _); [apply finishes_ret|]|];
      (apply finishes_settle; [apply finishes_save|]; intros r'; apply finishes_ret).
Qed.

Lemma io_each_ok {A : Type} (body : A → IO unit) (l : list A) :
  (∀ x, finishes (body x)) → runs (λ _, True) (io_each body l) (λ r _, r = Ok tt).
Proof using Type.
  intros H. induction l as [|x l IH]; [by apply runs_ret|]. apply (runs_settle _ _ (λ _ _, True)); [apply H|done].
Qed.

(** ** A whole load *)

Notation load_runtime_state :=
  (load_runtime_state encode decode now now_unix_ms pid nonce loaded_at terminal_retention plan_retention tx).

Lemma load_runtime_ok f n legacy :
  tidy f → is_Some (f !! n) → n.2 = Some "json" →
  ∃ d, load_runtime_state legacy (mkDisk f [])
    = Finished (Ok (drop_pruned (fold_left load_snapshot (omap (entry_snapshot f) (dir_iter f)) loading_start))) d.
Proof using Type.
  intros Ht Hn Hj.
  assert (∀ m, m ∈ dir_iter f ↔ is_Some (f !! m)) as Hiter.
  { intros m. rewrite (dir_iter_perm f), list_elem_of_fmap. split.
    - intros ([k data] & -> & Hin). apply elem_of_map_to_list in Hin. by eexists.
    - intros [data Hd]. exists (m, data). split; [done|]. by apply elem_of_map_to_list. }
  assert (migrate_legacy_state legacy (mkDisk f []) = Finished (Ok tt) (mkDisk f [])) as Hm.
  { unfold migrate_legacy_state, settle, io_bind, settle, io_files. simpl.
    replace (existsb _ (dir_iter f)) with true; [done|]. symmetry. apply existsb_exists. exists n.
    split; [apply list_elem_of_In; by apply Hiter|]. by apply bool_decide_eq_true_2. }
  unfold Persist.load_runtime_state. unfold settle at 1. rewrite Hm. unfold settle at 1. simpl.
  unfold io_bind at 1, settle at 1, io_files at 1. unfold io_bind at 1, settle at 1. simpl.
  rewrite load_entries_ok; [|done|apply Forall_forall; intros m Hin; by apply Hiter].
  set (l := fold_left load_snapshot _ _).
  destruct (io_each_ok (rewrite_swarm encode decode now now_unix_ms pid nonce (drop_pruned l))
    (set_iter (dom (ld_pruned_members l) ∪ ld_pruned_plans l)) (λ w, finishes_persist _ _ _ _) f I) as (r & f' & E & ->).
  exists (mkDisk f' []). unfold io_bind, settle. by rewrite E.
Qed.

(** Saving keeps the directory tidy. *)
Lemma tidy_replaced saved_ms spid snonce w s p c ms f f' :
  (∀ snap, decode (encode snap) = Some snap) → (∀ snap, utf8 (encode snap) = true) →
  Forall (λ m, sm_swarm_id m = Some w) ms → tidy f →
  replaced encode spid snonce w (snapshot_of s saved_ms w p c ms) f f' → tidy f'.
Proof using Type.
  intros Hcodec Hutf Hms Ht (Hp & Htmp & Hf). split.
  - intros n data Hn. destruct (decide (n = state_path w)) as [->|Hne]; [by left|].
    destruct (decide (n = backup_path w)) as [->|Hne']; [right; split; [done|by eexists]|].
    assert (n ≠ tmp_path spid (snonce (state_path w)) (state_path w)) as Hnt by congruence.
    rewrite Hf in Hn by done. destruct (tidy_names f Ht n data Hn) as [|[Hb [data' Hd]]]; [by left|right; split; [done|]].
    destruct (decide ((n.1, Some "json") = state_path w)) as [->|Hne'']; [by eexists|].
    rewrite Hf; [by eexists| |done|by intros [=]].
    destruct (tidy_json f Ht _ _ Hd) as (_ & snap & _ & -> & _). apply not_eq_sym, tmp_ne_snapshot.
  - intros stem data Hn. destruct (decide ((stem, Some "json") = state_path w)) as [E|Hne].
    + injection E as ->. fold (state_path w) in Hn. rewrite Hp in Hn. injection Hn as <-. split; [apply Hutf|].
      eexists. split; [apply Hcodec|]. split; [done|].
      unfold members_of, snapshot_of. simpl. rewrite sort_by_perm, Forall_fmap. done.
    + destruct (decide ((stem, Some "json") = tmp_path spid (snonce (state_path w)) (state_path w))) as [E|Hne'];
        [by rewrite E, Htmp in Hn|].
      rewrite Hf in Hn by (done || by intros [=]). by apply (tidy_json f Ht).
Qed.

(** ** Plans *)

Definition restored_item (i : PlanItem) : PlanItem :=
  if bool_decide (pi_status i = "running") then set_item_status "running_stale" i else i.

Lemma restore_items u items : ∀ out progress,
  (fold_left (restore_item u) items (out, progress)).1 = out ++ (restored_item <$> items)
  ∧ ∀ id, (∀ i, i ∈ items → pi_id i = id → pi_status i ≠ "running") →
      (fold_left (restore_item u) items (out, progress)).2 !! id = progress !! id.
Proof using Type.
  induction items as [|i items IH]; intros out progress; cbn [fold_left]; [by rewrite app_nil_r|].
  assert (restore_item u (out, progress) i = (out ++ [restored_item i],
    if bool_decide (pi_status i = "running") then (restore_item u (out, progress) i).2 else progress)) as E.
  { unfold restore_item, restored_item. by case_bool_decide. }
  rewrite E. match goal with |- context [fold_left _ _ (?o, ?q)] => destruct (IH o q) as [-> I2] end.
  split; [by rewrite fmap_cons, <- app_assoc|]. intros id Hid. rewrite I2 by set_solver.
  case_bool_decide as Hr; [|done]. unfold restore_item. rewrite bool_decide_eq_true_2 by done.
  apply lookup_insert_ne. intros Ei. apply (Hid i); [by left|done|done].
Qed.

Lemma restored_ids items : map pi_id (restored_item <$> items) = map pi_id items.
Proof using Type.
  induction items as [|i items IH]; [done|]. cbn. f_equal; [|exact IH]. unfold restored_item. by case_bool_decide.
Qed.

Lemma filter_live {A : Type} (m : gmap string A) items k :
  k ∈ map pi_id items → filter (λ kv, kv.1 ∈ item_ids items) m !! k = m !! k.
Proof using Type.
  intros Hk. destruct (m !! k) eqn:E; [|apply map_lookup_filter_None; by left].
  apply map_lookup_filter_Some. split; [done|]. by apply elem_of_list_to_set.
Qed.

(** A stored plan is restored: what ran is stale, the rest is as it was. *)
Lemma plan_restored p u :
  let p' := from_persisted_plan (to_persisted_plan p) u in
  vp_items p' = restored_item <$> vp_items p ∧ vp_version p' = vp_version p ∧ vp_mode p' = vp_mode p
  ∧ vp_participants p' = vp_participants p
  ∧ (∀ id, id ∈ map pi_id (vp_items p) → vp_node_meta p' !! id = vp_node_meta p !! id)
  ∧ (∀ i, i ∈ vp_items p → pi_status i ≠ "running" → NoDup (map pi_id (vp_items p)) →
       vp_task_progress p' !! pi_id i = vp_task_progress p !! pi_id i).
Proof using Type.
  unfold from_persisted_plan, to_persisted_plan. cbn [pp_items pp_task_progress pp_version pp_participants pp_mode pp_node_meta].
  destruct (restore_items u (vp_items p) [] (vp_task_progress p)) as [E1 E2]. simpl in E1.
  destruct (fold_left _ _ _) as [items progress]. simpl in E1, E2. subst items.
  unfold prune_side_maps. simpl. split_and!; [done|done|done| | |].
  - apply set_eq. intros x. by rewrite elem_of_list_to_set, elem_of_sort_strings, elem_of_elements.
  - intros id Hid. apply filter_live. by rewrite restored_ids.
  - intros i Hi Hr Hnd. rewrite filter_live; [apply E2|].
    + intros j Hj Hid. by rewrite (item_unique _ j i Hnd Hj Hi Hid).
    + rewrite restored_ids. apply list_elem_of_fmap. by exists i.
Qed.

End Loading.

Section Restart.
Context {DI : DirIter} {MI : MapIter}.
Context (encode : PersistedSwarmState → string) (decode : string → option PersistedSwarmState).
Context (decode_encode : ∀ s, decode (encode s) = Some s) (encode_utf8 : ∀ s, utf8 (encode s) = true).

Lemma elem_of_swarm_members w s m :
  m ∈ swarm_members_of w s ↔ sm_swarm_id m = Some w ∧ ∃ k, ss_members s !! k = Some m.
Proof using Type.
  unfold swarm_members_of, member_values. rewrite elem_of_sort_by, elem_of_List_filter, bool_decide_eq_true.
  rewrite map_iter_perm, list_elem_of_fmap. split.
  - intros [([k x] & -> & Hin) Hw]. apply elem_of_map_to_list in Hin. eauto.
  - intros [Hw [k Hk]]. split; [|done]. exists (k, m). split; [done|]. by apply elem_of_map_to_list.
Qed.

Lemma swarm_members_NoDup w s :
  (∀ k m, ss_members s !! k = Some m → sm_session_id m = k) → NoDup (sm_session_id <$> swarm_members_of w s).
Proof using Type.
  intros Hkey. unfold swarm_members_of, member_values. rewrite sort_by_perm.
  rewrite (List_filter_perm _ _ _ (fmap_Permutation snd _ _ (map_iter_perm _ (ss_members s)))).
  assert (∀ l : list (string * SwarmMember), NoDup l.*1 → Forall (λ kv, sm_session_id kv.2 = kv.1) l → ∀ q,
    NoDup (sm_session_id <$> List.filter q l.*2)) as H.
  { induction l as [|[k m] l IH]; intros Hnd Hf q; [constructor|]. simpl in *.
    apply NoDup_cons in Hnd as [Hk Hnd]. inversion Hf as [|? ? Hm Hf']; subst.
    destruct (q m); [|by apply IH]. simpl. apply NoDup_cons. split; [|by apply IH].
    intros (x & Hx & Hin)%list_elem_of_fmap. apply elem_of_List_filter in Hin as [Hin _].
    apply list_elem_of_fmap in Hin as ([k' x'] & -> & Hin). simpl in *.
    rewrite Forall_forall in Hf'. specialize (Hf' _ Hin). simpl in Hf'. apply Hk, list_elem_of_fmap.
    exists (k', x'). split; [simpl; congruence|done]. }
  apply H; [apply NoDup_fst_map_to_list|]. apply Forall_forall. intros [k m] Hin. apply elem_of_map_to_list in Hin. by apply Hkey.
Qed.

(** The order of the directory splits at the file of [w]. *)
Lemma entries_split w new data (f : Files) :
  tidy decode f → f !! state_path w = Some data → decode data = Some new → sp_swarm_id new = w →
  ∃ pre post, omap (entry_snapshot decode f) (dir_iter f) = pre ++ new :: post
  ∧ Forall (λ s, sp_swarm_id s ≠ w ∧ members_of (sp_swarm_id s) (sp_members s)) (pre ++ post)
  ∧ ∀ s, s ∈ pre ++ post → ∃ v, v ≠ w ∧ sp_swarm_id s = v ∧ state_path v ≠ state_path w ∧ shown decode f v = Some s.
Proof using Type.
  intros Ht Hp Hdec Hw. assert (state_path w ∈ dir_iter f) as Hin.
  { rewrite dir_iter_perm. apply list_elem_of_fmap. exists (state_path w, data). split; [done|].
    by apply elem_of_map_to_list. }
  assert (NoDup (dir_iter f)) as Hnd by (rewrite dir_iter_perm; apply NoDup_fst_map_to_list).
  apply list_elem_of_split in Hin as (l1 & l2 & E). rewrite E in *.
  apply NoDup_app in Hnd as (_ & Hn1 & Hnd2). apply NoDup_cons in Hnd2 as [Hn2 _].
  exists (omap (entry_snapshot decode f) l1), (omap (entry_snapshot decode f) l2).
  assert (entry_snapshot decode f (state_path w) = Some new) as Ew.
  { unfold entry_snapshot. simpl. by rewrite Hp. }
  assert (∀ s, s ∈ omap (entry_snapshot decode f) l1 ++ omap (entry_snapshot decode f) l2 →
    (sp_swarm_id s ≠ w ∧ members_of (sp_swarm_id s) (sp_members s)) ∧
    ∃ v, v ≠ w ∧ sp_swarm_id s = v ∧ state_path v ≠ state_path w ∧ shown decode f v = Some s) as Hall.
  { intros s Hs. assert (∃ n, n ≠ state_path w ∧ entry_snapshot decode f n = Some s) as ([stem e] & Hne & Hes).
    { apply elem_of_app in Hs as [Hs|Hs]; apply list_elem_of_omap in Hs as (n & Hn & Hes); exists n; (split; [|done]);
        intros ->; [by apply (Hn1 (state_path w)); [|left]|done]. }
    unfold entry_snapshot in Hes. simpl in Hes. case_bool_decide as He; [|done]. subst e.
    destruct (f !! (stem, Some "json")) as [text|] eqn:Ed; [|done]. simpl in Hes.
    destruct (tidy_json decode f Ht stem text Ed) as (_ & s' & Es' & -> & Hms).
    rewrite Es' in Hes. injection Hes as ->.
    assert (sp_swarm_id s ≠ w) as Hsw by (intros Hsw; apply Hne; unfold state_path; by rewrite Hsw).
    split; [done|]. exists (sp_swarm_id s). split_and!; [done|done|done|]. unfold shown, state_path. by rewrite Ed. }
  split_and!.
  - rewrite omap_app. simpl. by rewrite Ew.
  - apply Forall_forall. intros s Hs. by apply Hall.
  - intros s Hs. by apply Hall.
Qed.

Lemma tidy_healthy f w : tidy decode f → healthy decode f w.
Proof using Type.
  intros Ht. unfold healthy. destruct (f !! state_path w) as [data|] eqn:E.
  - destruct (tidy_json decode f Ht _ _ E) as (Hu & s & Hs & _). split; [done|by eexists].
  - destruct (f !! backup_path w) eqn:Eb; [|done].
    destruct (tidy_names decode f Ht _ _ Eb) as [[=]|[_ [x Hx]]]. unfold state_path in E. simpl in Hx. congruence.
Qed.

(** The members of a snapshot are those of the swarm. *)
Lemma snapshot_members now saved_ms w s p :
  (∀ k m, ss_members s !! k = Some m → sm_session_id m = k) →
  let new := snapshot_of now saved_ms w p (ss_coordinators s !! w) (swarm_members_of w s) in
  Forall (λ m, sm_swarm_id m = Some w) (swarm_members_of w s)
  ∧ members_of w (sp_members new) ∧ NoDup (member_id <$> sp_members new)
  ∧ ∀ (Q : PersistedSwarmMember → Prop) x, (∃ m, m ∈ sp_members new ∧ member_id m = x ∧ Q m) ↔
      ∃ m, (ss_members s !! x = Some m ∧ sm_swarm_id m = Some w) ∧ Q (to_persisted_member now saved_ms m).
Proof using Type.
  intros Hkey new.
  assert (Forall (λ m, sm_swarm_id m = Some w) (swarm_members_of w s)) as Hall.
  { apply Forall_forall. intros m Hm. by apply elem_of_swarm_members in Hm as [? _]. }
  unfold new, snapshot_of. simpl. split_and!; [done| | |].
  - unfold members_of. rewrite sort_by_perm, Forall_fmap. exact Hall.
  - rewrite sort_by_perm, <- list_fmap_compose. by apply swarm_members_NoDup.
  - intros Q x. setoid_rewrite elem_of_sort_by. setoid_rewrite list_elem_of_fmap. split.
    + intros (m' & (m & -> & Hm) & Hid & HQ). apply elem_of_swarm_members in Hm as [Hw [k Hk]].
      specialize (Hkey k m Hk). unfold member_id in Hid. simpl in Hid. exists m. by rewrite <- Hid, Hkey.
    + intros (m & [Hk Hw] & HQ). exists (to_persisted_member now saved_ms m). split_and!; [|by apply Hkey|done].
      exists m. split; [done|]. apply elem_of_swarm_members. eauto.
Qed.

End Restart.
