(* ===== verification/PersistCodec.v ===== *)
(** * A codec of snapshots

    Shows that the laws asked of the JSON codec of snapshots can hold: an
    encoding of snapshots as text of two characters, through stdpp's countable
    types. *)

From stdpp Require Import base list strings gmap countable.
From S2P Require Import Prelude RustString Plan Swarm SwarmServer Persist.

Open Scope string_scope.
Open Scope nat_scope.
Open Scope list_scope.

#[export] Instance SwarmTaskProgress_eq_dec : EqDecision SwarmTaskProgress.
Proof. solve_decision. Defined.
#[export] Instance NodeMeta_eq_dec : EqDecision NodeMeta.
Proof. solve_decision. Defined.
#[export] Instance SwarmRole_eq_dec : EqDecision SwarmRole.
Proof. solve_decision. Defined.
#[export] Instance SwarmLifecycleStatus_eq_dec : EqDecision SwarmLifecycleStatus.
Proof. solve_decision. Defined.
#[export] Instance SwarmMemberRecord_eq_dec : EqDecision SwarmMemberRecord.
Proof. solve_decision. Defined.
#[export] Instance PersistedVersionedPlan_eq_dec : EqDecision PersistedVersionedPlan.
Proof. solve_decision. Defined.
#[export] Instance PersistedSwarmMember_eq_dec : EqDecision PersistedSwarmMember.
Proof. solve_decision. Defined.
#[export] Instance PersistedSwarmState_eq_dec : EqDecision PersistedSwarmState.
Proof. solve_decision. Defined.

#[export] Instance PlanItem_countable : Countable PlanItem.
Proof.
  refine (inj_countable'
    (λ i, (pi_content i, pi_status i, pi_priority i, pi_id i, pi_subsystem i, pi_file_scope i, pi_blocked_by i, pi_assigned_to i))
    (λ '(a, b, c, d, e, f, g, h), mkItem a b c d e f g h) _). by intros [].
Defined.

#[export] Instance SwarmTaskProgress_countable : Countable SwarmTaskProgress.
Proof.
  refine (inj_countable'
    (λ p, (tp_assigned_session_id p, tp_assignment_summary p, tp_assigned_at_unix_ms p, tp_started_at_unix_ms p,
           tp_last_heartbeat_unix_ms p, tp_last_detail p, tp_last_checkpoint_unix_ms p, tp_checkpoint_summary p,
           tp_completed_at_unix_ms p, tp_stale_since_unix_ms p, tp_heartbeat_count p, tp_checkpoint_count p,
           tp_no_artifact_requeues p, tp_dead_assignee_reclaims p))
    (λ '(a, b, c, d, e, f, g, h, i, j, k, l, m, n), mkProgress a b c d e f g h i j k l m n) _). by intros [].
Defined.

#[export] Instance NodeMeta_countable : Countable NodeMeta.
Proof.
  refine (inj_countable'
    (λ m, (nm_kind m, nm_parent m, nm_expanded m, nm_is_gate m, nm_planner m, nm_artifact_json m, nm_origin m))
    (λ '(a, b, c, d, e, f, g), mkMeta a b c d e f g) _). by intros [].
Defined.

#[export] Instance SwarmRole_countable : Countable SwarmRole.
Proof.
  refine (inj_countable' (λ r, match r with RAgent => inl true | RCoordinator => inl false | ROther v => inr v end)
    (λ x, match x with inl true => RAgent | inl false => RCoordinator | inr v => ROther v end) _). by intros [].
Defined.

#[export] Instance SwarmLifecycleStatus_countable : Countable SwarmLifecycleStatus.
Proof.
  refine (inj_countable' (λ s, match s with LOther v => inr v | _ => inl (lifecycle_as_str s) end)
    (λ x, match x with inl s => lifecycle_from s | inr v => LOther v end) _). by intros [].
Defined.

#[export] Instance SwarmMemberRecord_countable : Countable SwarmMemberRecord.
Proof.
  refine (inj_countable'
    (λ r, (mr_session_id r, mr_working_dir r, mr_swarm_id r, mr_swarm_enabled r, mr_status r, mr_detail r, mr_task_label r,
           mr_friendly_name r, mr_report_back r, mr_completion_report r, mr_role r, mr_is_headless r))
    (λ '(a, b, c, d, e, f, g, h, i, j, k, l), mkMemberRecord a b c d e f g h i j k l) _). by intros [].
Defined.

#[export] Instance PersistedVersionedPlan_countable : Countable PersistedVersionedPlan.
Proof.
  refine (inj_countable'
    (λ p, (pp_items p, pp_version p, pp_participants p, pp_task_progress p, pp_mode p, pp_node_meta p))
    (λ '(a, b, c, d, e, f), mkPersistedPlan a b c d e f) _). by intros [].
Defined.

#[export] Instance PersistedSwarmMember_countable : Countable PersistedSwarmMember.
Proof.
  refine (inj_countable' (λ m, (pm_record m, pm_terminal_since m)) (λ '(a, b), mkPersistedMember a b) _). by intros [].
Defined.

#[export] Instance PersistedSwarmState_countable : Countable PersistedSwarmState.
Proof.
  refine (inj_countable' (λ s, (sp_swarm_id s, sp_plan s, sp_coordinator s, sp_members s, sp_updated_at s))
    (λ '(a, b, c, d, e), mkSnapshot a b c d e) _). by intros [].
Defined.

(** ** Numbers as text *)

Fixpoint bits (p : positive) : string :=
  match p with
  | xH => ""
  | xO p => String (Ascii.ascii_of_nat 48) (bits p)
  | xI p => String (Ascii.ascii_of_nat 49) (bits p)
  end.

Fixpoint of_bits (s : string) : positive :=
  match s with
  | "" => xH
  | String c s => if Ascii.eqb c (Ascii.ascii_of_nat 49) then xI (of_bits s) else xO (of_bits s)
  end.

Lemma of_bits_bits p : of_bits (bits p) = p.
Proof. induction p as [p IH|p IH|]; simpl; [by rewrite IH..|done]. Qed.

Lemma bits_utf8 p : utf8 (bits p) = true.
Proof. unfold utf8. induction p as [p IH|p IH|]; [done..|done]. Qed.

(** ** Codecs *)

(** A snapshot of a table is written as its position, in unary; any other one as
    a dash and its number. *)
Section Table.
Context (table : list PersistedSwarmState).

Fixpoint unary (n : nat) : string := match n with 0 => "" | S n => String (Ascii.ascii_of_nat 120) (unary n) end.

Definition table_encode (s : PersistedSwarmState) : string :=
  match list_find (λ x, x = s) table with
  | Some (i, _) => unary i
  | None => String (Ascii.ascii_of_nat 45) (bits (encode s))
  end.

Definition table_decode (text : string) : option PersistedSwarmState :=
  match text with
  | String c rest => if Ascii.eqb c (Ascii.ascii_of_nat 45) then decode (of_bits rest) else table !! String.length text
  | "" => table !! 0
  end.

Lemma length_unary n : String.length (unary n) = n.
Proof using Type. induction n; simpl; congruence. Qed.

Lemma table_decode_encode s : table_decode (table_encode s) = Some s.
Proof using Type.
  unfold table_encode. destruct (list_find _ table) as [[i x]|] eqn:E.
  - apply list_find_Some in E as (Hi & -> & _). destruct i as [|i]; [done|]. cbn [unary table_decode].
    change (Ascii.eqb _ _) with false. cbn [String.length]. by rewrite length_unary.
  - cbn [table_decode]. change (Ascii.eqb _ _) with true. cbn [negb]. rewrite of_bits_bits. apply decode_encode.
Qed.

Lemma table_encode_utf8 s : utf8 (table_encode s) = true.
Proof using Type.
  unfold table_encode. destruct (list_find _ table) as [[i x]|]; [|exact (bits_utf8 _)].
  unfold utf8. by induction i.
Qed.

End Table.
