(* ===== verification/PersistClaims.v ===== *)
(** * Theorems on saving and restoring swarms

    What a crash can leave of a swarm's snapshot, that snapshots do not go back
    to older plans, what a restarted server restores, and how members recover. *)

From stdpp Require Import base list strings gmap pretty relations.
From S2P Require Import Prelude RustString RustText Plan PlanClaims Swarm SwarmServer SwarmServerClaims Mutation Storage StorageClaims Persist PersistFacts PersistCodec.

Open Scope string_scope.
Open Scope nat_scope.
Open Scope list_scope.

Section Claims.
(** [serde_json] on snapshots: what is encoded decodes to itself and is text. *)
Context (encode : PersistedSwarmState → string) (decode : string → option PersistedSwarmState).
Context (decode_encode : ∀ s, decode (encode s) = Some s) (encode_utf8 : ∀ s, utf8 (encode s) = true).

(** C7: Crashes do not tear a swarm's snapshot.  From a readable snapshot (or
    none), saving a swarm leaves, whatever calls fail and wherever the process
    is interrupted, a readable snapshot: the previous or the new one.  Removing
    the snapshot of a swarm without state leaves, wherever it is interrupted,
    the previous one, an empty one or none.  Without faults the new snapshot is
    in place unless the plan on disk is newer, and a removed one is gone with
    its backup.  The files of a swarm with another file
    name do not change. *)
Theorem saves_survive_crashes {MI : MapIter} (now now_unix_ms pid : N) (nonce : FileName → N) (w : string) (s : SwarmState)
    (files : Files) (outcomes : list Outcome) :
  healthy decode files w →
  let run := persist_swarm_state_for encode decode now now_unix_ms pid nonce w s (mkDisk files outcomes) in
  let files' := run_files run in
  let new := snapshot_of now now_unix_ms w (ss_plans s !! w) (ss_coordinators s !! w) (swarm_members_of w s) in
  let old := shown decode files w in
  (has_any_state w s = true →
     healthy decode files' w ∧ (shown decode files' w = old ∨ shown decode files' w = Some new)
     ∧ (∀ v, sanitize_session_id v ≠ sanitize_session_id w →
          files' !! state_path v = files !! state_path v ∧ files' !! backup_path v = files !! backup_path v)
     ∧ (outcomes = [] → (∃ d, run = Finished (Ok tt) d)
          ∧ shown decode files' w = if outdated_by (ss_plans s !! w) old then old else Some new))
  ∧ (has_any_state w s = false → forallb no_fault outcomes = true →
     healthy decode files' w
     ∧ (shown decode files' w = old ∨ shown decode files' w = Some (tombstone now_unix_ms w) ∨ shown decode files' w = None)
     ∧ (∀ v, sanitize_session_id v ≠ sanitize_session_id w →
          files' !! state_path v = files !! state_path v ∧ files' !! backup_path v = files !! backup_path v)
     ∧ (outcomes = [] → files' !! state_path w = None ∧ files' !! backup_path w = None)).
Proof using decode_encode encode_utf8.
  intros Hh run files' new old.
  assert (other_files pid nonce w files files' → ∀ v, sanitize_session_id v ≠ sanitize_session_id w →
    files' !! state_path v = files !! state_path v ∧ files' !! backup_path v = files !! backup_path v) as Hframe.
  { intros Ho v Hv. split; (apply Ho; [apply not_eq_sym, tmp_ne_snapshot| |]; intros [= E]; done). }
  pose proof (empty_state_iff w s) as He. split; intros Hs; rewrite Hs in He; simpl in He.
  - destruct (triple_files true files _ _ outcomes (persist_triple encode decode decode_encode encode_utf8 now now_unix_ms
      pid nonce w _ _ _ files Hh He) (faults_any _)) as (Hh' & Ho & Hk).
    split_and!; [done|by destruct Hk as [|[]]; auto|auto|]. intros ->.
    destruct (runs_files files _ _ (persist_runs encode decode now now_unix_ms pid nonce w _ _ _ files Hh He))
      as (r & d & E & -> & Hr). split; [by exists d|]. fold old new in Hr.
    destruct (outdated_by _ old); [unfold files', run, persist_swarm_state_for; by rewrite Hr|].
    destruct Hr as (Hp & _). unfold shown, files', run, persist_swarm_state_for. rewrite Hp. apply decode_encode.
  - intros Hn. pose proof (removal_triple encode decode decode_encode encode_utf8 w _ _ _ files now now_unix_ms pid nonce Hh He) as HT.
    destruct (triple_files false files _ _ outcomes HT (λ _, Hn)) as (Hh' & Ho & Hk).
    split_and!; [done|done|auto|]. intros ->.
    destruct (runs_files files _ _ (removal_runs encode decode decode_encode encode_utf8 w _ _ _ files now now_unix_ms pid nonce Hh He)) as (r & d & E & Hp & Hb & _).
    done.
Qed.

(** A restart over a directory with nothing but snapshots loads the plan of
    each. *)
Lemma load_shows_the_plan {DI : DirIter} {MI : MapIter} (now now_unix_ms pid : N) (nonce : FileName → N)
    (loaded_at terminal_retention plan_retention tx : N) (legacy f : Files) (w : string) (snap : PersistedSwarmState)
    (p : PersistedVersionedPlan) :
  tidy decode f → shown decode f w = Some snap → sp_swarm_id snap = w → sp_plan snap = Some p →
  persisted_plan_is_expired p (sp_updated_at snap) loaded_at plan_retention = false →
  ∃ st d q, load_runtime_state encode decode now now_unix_ms pid nonce loaded_at terminal_retention plan_retention tx legacy (mkDisk f [])
            = Finished (Ok st) d ∧ ss_plans st !! w = Some q ∧ vp_version q = pp_version p.
Proof using decode_encode encode_utf8.
  intros Ht Hs Hw Hp Hexp. unfold shown in Hs. destruct (f !! state_path w) as [data|] eqn:Hf; [|done]. simpl in Hs.
  destruct (entries_split decode w snap data f Ht Hf Hs Hw) as (pre & post & Esplit & Hothers & _).
  destruct (load_runtime_ok now loaded_at terminal_retention plan_retention tx encode decode now_unix_ms pid nonce f
    (state_path w) legacy Ht ltac:(by eexists) eq_refl) as [d Hload]. rewrite Esplit in Hload.
  destruct (tidy_json decode f Ht _ _ Hf) as (_ & s' & Hs' & _ & Hms). rewrite Hs in Hs'. injection Hs' as <-. rewrite Hw in Hms.
  destruct (load_among now loaded_at terminal_retention plan_retention tx w pre snap post Hothers Hw Hms)
    as (L1 & _). set (l := fold_left _ (pre ++ snap :: post) _) in *.
  unfold loaded_plan in L1. rewrite Hp in L1. simpl in L1. rewrite Hexp in L1.
  eexists _, d, _. split; [exact Hload|]. split; [simpl; by rewrite map_lookup_imap, L1|].
  simpl. unfold from_persisted_plan. by case_match.
Qed.

(** C30: Stored plans do not go back.  Whatever snapshots of a swarm's plan are
    saved, in whatever order they arrive and wherever a crash interrupts saving
    (file operations that fail without a crash are left out), and whatever
    happens to other files, the version of the plan in the swarm's own snapshot
    file never decreases, and that file stays readable.  A restart that finds
    nothing but snapshots in the directory loads the plan with that version,
    unless it is dormant and expired.  (A temporary file that a crash left behind
    is no snapshot, and can be loaded in place of it: lemma
    [leftover_temp_file_is_loaded].) *)
Theorem plan_versions_never_regress {DI : DirIter} {MI : MapIter} (w : string) (f f' : Files) :
  healthy decode f w → rtc (save_step encode decode w) f f' →
  healthy decode f' w ∧ ∀ v, shown_version decode f w = Some v → ∃ v', shown_version decode f' w = Some v' ∧ (v <= v')%N
  ∧ ∀ now now_unix_ms pid nonce loaded_at terminal_retention plan_retention tx legacy snap p,
      tidy decode f' → shown decode f' w = Some snap → sp_swarm_id snap = w → sp_plan snap = Some p →
      persisted_plan_is_expired p (sp_updated_at snap) loaded_at plan_retention = false →
      ∃ st d q, load_runtime_state encode decode now now_unix_ms pid nonce loaded_at terminal_retention plan_retention tx legacy
                  (mkDisk f' []) = Finished (Ok st) d
                ∧ ss_plans st !! w = Some q ∧ vp_version q = v'.
Proof using decode_encode encode_utf8.
  intros Hh Hr.
  assert (healthy decode f' w ∧ ∀ v, shown_version decode f w = Some v → ∃ v', shown_version decode f' w = Some v' ∧ (v <= v')%N)
    as [Hh' Hv].
  { induction Hr as [f|f f1 f2 Hs _ IH]; [split; [done|]; intros v Hv; by exists v|].
    destruct (save_step_version encode decode decode_encode encode_utf8 w f f1 Hh Hs) as [Hh1 H1]. destruct (IH Hh1) as [Hh2 H2].
    split; [done|]. intros v (v1 & Hv1 & Hle)%H1. destruct (H2 v1 Hv1) as (v2 & Hv2 & Hle2). exists v2. split; [done|lia]. }
  split; [done|]. intros v (v' & Hv' & Hle)%Hv. exists v'. split_and!; [done..|].
  intros now now_unix_ms pid nonce loaded_at tr pr tx legacy snap p Ht Hs Hw Hp Hexp.
  unfold shown_version in Hv'. rewrite Hs in Hv'. simpl in Hv'. rewrite Hp in Hv'. injection Hv' as <-.
  by apply (load_shows_the_plan now now_unix_ms pid nonce loaded_at tr pr tx legacy f' w snap p).
Qed.


End Claims.

(** ** Recovery of members *)

Lemma lifecycle_text s : lifecycle_as_str (lifecycle_from s) = s.
Proof. unfold lifecycle_from. repeat (case_bool_decide; [by subst|]). done. Qed.

Lemma lifecycle_from_inv s : lifecycle_from s = LRunning ∨ lifecycle_from s = LReady ∨ (s ≠ "running" ∧ s ≠ "ready").
Proof. unfold lifecycle_from. repeat case_bool_decide; subst; auto. Qed.

(** The recovered status: not live, ended for a headless worker, and ended if it
    had ended before. *)
Lemma recover_status_spec s detail headless :
  let s' := lifecycle_as_str (recover_member_status (lifecycle_from s) detail headless).1 in
  s' ≠ "running" ∧ s' ≠ "ready"
  ∧ (headless = true → s' ∈ ["completed"; "done"; "failed"; "stopped"; "crashed"])
  ∧ (headless = false → s ≠ "running" → s ≠ "ready" → s' = s)
  ∧ (member_status_is_terminal s = true → member_status_is_terminal s' = true).
Proof.
  pose proof (lifecycle_text s) as Ht. destruct (lifecycle_from_inv s) as [E|[E|[H1 H2]]].
  1,2: rewrite E in *; simpl in *; split_and!; try done; intros; try (by subst); destruct headless; try done; set_solver.
  intros s'. destruct (lifecycle_from s) eqn:E; simpl in Ht; subst s; try done; unfold s'; destruct headless; simpl;
    split_and!; try done; intros; try done; set_solver.
Qed.

(** Recovery of a member.  Nothing is live after a restart: no restored
    member is running or ready, a headless worker has ended, and an attached
    client that was neither keeps its status; names, role, spawner and report
    come back.  A member is left out exactly when it had ended before it was
    saved, longer ago than the retention.  The clock of the retention does not
    restart: when the restored member is saved again, its recorded end is the
    first one, so no number of restarts keeps an ended member for longer. *)
Theorem recovered_members_have_ended (now saved_ms now' loaded_at retention tx : N) (m : SwarmMember) :
  (0 < retention)%N → (saved_ms <= loaded_at)%N →
  let ended := (saved_ms - elapsed now (sm_last_status_change m))%N in
  let recovered := from_persisted_member now' loaded_at retention tx (to_persisted_member now saved_ms m) saved_ms in
  (∀ r, recovered = Some r →
     sm_status r ≠ "running" ∧ sm_status r ≠ "ready"
     ∧ (sm_is_headless m = true → sm_status r ∈ ["completed"; "done"; "failed"; "stopped"; "crashed"])
     ∧ (sm_is_headless m = false → sm_status m ≠ "running" → sm_status m ≠ "ready" → sm_status r = sm_status m)
     ∧ sm_session_id r = sm_session_id m ∧ sm_swarm_id r = sm_swarm_id m ∧ sm_friendly_name r = sm_friendly_name m
     ∧ sm_role r = sm_role m ∧ sm_report_back r = sm_report_back m ∧ sm_completion_report r = sm_completion_report m)
  ∧ (recovered = None ↔ member_status_is_terminal (sm_status m) = true ∧ (retention <= loaded_at - ended)%N)
  ∧ (∀ r δ, recovered = Some r → member_status_is_terminal (sm_status m) = true → (loaded_at - ended <= now')%N →
       pm_terminal_since (to_persisted_member (now' + δ) (loaded_at + δ) r) = Some ended).
Proof.
  intros Hret Htime ended recovered.
  destruct (recover_status_spec (sm_status m) (sm_detail m) (sm_is_headless m)) as (S1 & S2 & S3 & S4 & S5).
  set (rs := recover_member_status (lifecycle_from (sm_status m)) (sm_detail m) (sm_is_headless m)) in *.
  assert (∀ x, role_as_str (role_from x) = x) as Hrole.
  { intros x. unfold role_from. repeat case_bool_decide; subst; done. }
  unfold recovered, from_persisted_member, recovered_terminal_since. simpl. fold rs. rewrite lifecycle_text.
  destruct rs as [st detail]. simpl in *.
  destruct (member_status_is_terminal (sm_status m)) eqn:Et.
  - rewrite (S5 eq_refl). simpl. fold ended. destruct (retention <=? loaded_at - ended)%N eqn:Ecmp.
    + apply N.leb_le in Ecmp. split_and!; [done|done|done].
    + apply N.leb_gt in Ecmp. split_and!; [intros r [= <-]|split; [done|intros [_ ?]; lia]|intros r δ [= <-] _ Hup].
      * simpl. rewrite Hrole. by split_and!.
      * unfold to_persisted_member. simpl. rewrite (S5 eq_refl). f_equal. unfold elapsed, instant_checked_sub.
        rewrite (proj2 (N.leb_le _ _) Hup). simpl. unfold ended, elapsed in *. lia.
  - assert ((retention <=? loaded_at - loaded_at)%N = false) as Ez by (apply N.leb_gt; lia).
    destruct (member_status_is_terminal (lifecycle_as_str st)); simpl; rewrite ?Ez;
      (split_and!; [intros r [= <-]; simpl; rewrite Hrole; by split_and!|split; [done|by intros []]|done]).
Qed.

(** ** Examples *)

Definition demo_item (id status : string) (assignee : option string) : PlanItem :=
  mkItem id status "high" id None [] [] assignee.

Definition demo_plan (version : N) : VersionedPlan :=
  mkPlan [demo_item "t" "running" (Some "a"); demo_item "u" "queued" None] version {["a"; "b"; "c"]} ∅ "deep" ∅.

Definition demo_member (id status : string) (changed : N) (headless : bool) : SwarmMember :=
  mkSwarmMember id 1 ∅ None (Some "w") true status None None None None None "agent" 0 changed headless None None runtime_default.

Definition demo_state (version : N) : SwarmState :=
  mkState {["a" := demo_member "a" "running" 40 true; "b" := demo_member "b" "completed" 10 true]}
    {["w" := {["a"; "b"]}]} {["w" := demo_plan version]} {["w" := "b"]}.

#[local] Existing Instance keyed_iter.

Definition demo_snapshot (version : N) : PersistedSwarmState :=
  snapshot_of 50 1000 "w" (Some (demo_plan version)) (Some "b") (swarm_members_of "w" (demo_state version)).

Definition demo_table : list PersistedSwarmState := [demo_snapshot 1; demo_snapshot 2; tombstone 1000 "w"].
Notation demo_encode := (table_encode demo_table).
Notation demo_decode := (table_decode demo_table).

Definition demo_save (version : N) (outcomes : list Outcome) (files : Files) : Files :=
  run_files (persist_swarm_state_for demo_encode demo_decode 50 1000 7 (λ _, version) "w" (demo_state version) (mkDisk files outcomes)).

Definition demo_load (order : DirIter) (retention : N) (files : Files) : Run SwarmState :=
  load_runtime_state demo_encode demo_decode 500 2000 8 (λ _, 9%N) 2000 retention 100000 0 ∅ (mkDisk files []).

Definition loaded_version (r : Run SwarmState) (w : string) : option N :=
  match r with Finished (Ok st) _ => vp_version <$> ss_plans st !! w | _ => None end.

Lemma demo_any version : has_any_state "w" (demo_state version) = true.
Proof. reflexivity. Qed.

Lemma demo_stored version : ss_plans (demo_state version) !! "w" = Some (demo_plan version).
Proof. reflexivity. Qed.

Lemma demo_healthy : healthy demo_decode (demo_save 2 [] ∅) "w".
Proof. vm_compute. split; [reflexivity|eexists; reflexivity]. Qed.

Lemma saves_survive_crashes_witness :
  healthy demo_decode (demo_save 1 [Succeeds; Succeeds; Succeeds; Crashes 5] (demo_save 2 [] ∅)) "w".
Proof.
  destruct (saves_survive_crashes demo_encode demo_decode (table_decode_encode _) (table_encode_utf8 _) 50 1000 7
    (λ _, 1%N) "w" (demo_state 1) (demo_save 2 [] ∅) [Succeeds; Succeeds; Succeeds; Crashes 5] demo_healthy) as [H _].
  exact (proj1 (H (demo_any 1))).
Defined.

Lemma demo_version : shown_version demo_decode (demo_save 2 [] ∅) "w" = Some 2%N.
Proof. vm_compute. reflexivity. Qed.

Lemma demo_step f : save_step demo_encode demo_decode "w" f (demo_save 1 [] f).
Proof. unfold demo_save, persist_swarm_state_for. rewrite (demo_stored 1). by apply ss_save. Qed.

Lemma plan_versions_never_regress_witness :
  ∃ v, shown_version demo_decode (demo_save 1 [] (demo_save 2 [] ∅)) "w" = Some v ∧ (2 <= v)%N.
Proof.
  destruct (plan_versions_never_regress demo_encode demo_decode (table_decode_encode _) (table_encode_utf8 _) (DI := keyed_dir) "w"
    (demo_save 2 [] ∅) (demo_save 1 [] (demo_save 2 [] ∅)) demo_healthy (rtc_once _ _ (demo_step _))) as [_ H].
  destruct (H 2%N demo_version) as (v & Hv & Hle & _). by exists v.
Defined.

Lemma demo_keyed k m : ss_members (demo_state 2) !! k = Some m → sm_session_id m = k.
Proof.
  simpl. intros H. apply lookup_insert_Some in H as [[<- <-]|[_ H]]; [done|].
  apply lookup_singleton_Some in H as [<- <-]. done.
Qed.

Lemma empty_tidy : tidy demo_decode ∅.
Proof. split; intros; by rewrite lookup_empty in *. Qed.


Lemma recovered_members_have_ended_witness :
  from_persisted_member 500 2000 1020 0 (to_persisted_member 50 1000 (demo_member "b" "completed" 10 true)) 1000 = None
  ∧ ∀ r, from_persisted_member 1500 2000 5000 0 (to_persisted_member 50 1000 (demo_member "b" "completed" 10 true)) 1000 = Some r →
      pm_terminal_since (to_persisted_member (1500 + 100) (2000 + 100) r) = Some 960%N.
Proof.
  split.
  - destruct (recovered_members_have_ended 50 1000 500 2000 1020 0 (demo_member "b" "completed" 10 true)) as (_ & H & _);
      [lia|lia|]. apply H. split; [reflexivity|]. vm_compute. discriminate.
  - intros r Hr. destruct (recovered_members_have_ended 50 1000 1500 2000 5000 0 (demo_member "b" "completed" 10 true))
      as (_ & _ & H); [lia|lia|]. apply (H r 100%N Hr); [reflexivity|]. vm_compute. discriminate.
Defined.

(** ** What goes wrong *)

Definition reversed_dir : DirIter.
Proof.
  refine {| dir_iter := λ files, reverse (map_to_list files).*1 |}. intros files. apply reverse_Permutation.
Defined.

(** A crash before the rename leaves a complete temporary file.  It is loaded as a
    snapshot, here after the file of a newer plan, and the plan goes back. *)
Lemma leftover_temp_file_is_loaded :
  let crashed := demo_save 1 [Succeeds; Succeeds; Succeeds; Crashes 0] ∅ in
  let files := demo_save 2 [] crashed in
  shown demo_decode files "w" = Some (demo_snapshot 2)
  ∧ (loaded_version (demo_load keyed_dir 9000 files) "w" = Some 1%N ∨ loaded_version (demo_load reversed_dir 9000 files) "w" = Some 1%N).
Proof. vm_compute. split; [reflexivity|]. auto. Qed.

(** When the backup cannot be removed, the empty snapshot that hides it is removed
    all the same, and the next load reads the backup. *)
Lemma failed_removal_resurrects :
  let files := demo_save 1 [] ∅ in
  let removed := run_files (remove_snapshot_files demo_encode 1000 7 (λ _, 3%N) "w"
                   (mkDisk files [Succeeds; Succeeds; Succeeds; Succeeds; Succeeds; Succeeds; Fails 0])) in
  removed !! state_path "w" = None ∧ loaded_version (demo_load keyed_dir 9000 removed) "w" = Some 1%N.
Proof. vm_compute. auto. Qed.

(** Swarms are named by directories; two of them can share a file. *)
Lemma colliding_names : state_path "/srv/a b" = state_path "/srv/a_b" ∧ "/srv/a b" ≠ "/srv/a_b".
Proof. split; [reflexivity|discriminate]. Qed.
