(* ===== verification/Session.v ===== *)
(** * Sessions

    jcode-base/src/session.rs and session/journal.rs with the data types of
    jcode-session-types/src/lib.rs and session/model.rs: the transcript of a
    session, the marks of what is not yet on disk, the metadata of the journal
    and the cache of messages for the provider.

    The fields of [Session] that are stored and are not vectors form
    [SessionHead].  The clock, the process, the working directory, identifiers
    and the text of the session context are arguments.  The counters of
    [memory_profile_cache] only feed diagnostics and are left out, as are the
    marker files of active processes. *)

From stdpp Require Import base list strings gmap pretty.
From S2P Require Import Prelude RustString RustText Plan Message Compaction Manager.

Open Scope string_scope.
Open Scope nat_scope.
Open Scope list_scope.

(** ** Data without messages *)

Inductive SessionStatus :=
| StActive | StClosed | StCrashed (message : option string) | StReloaded | StCompacted | StRateLimited
| StError (message : string).
#[export] Instance SessionStatus_eq_dec : EqDecision SessionStatus.
Proof. solve_decision. Defined.

Definition status_display (s : SessionStatus) : string :=
  match s with
  | StActive => "active" | StClosed => "closed" | StCrashed _ => "crashed" | StReloaded => "reloaded"
  | StCompacted => "compacted" | StRateLimited => "rate limited" | StError _ => "error"
  end.
Definition status_detail (s : SessionStatus) : option string :=
  match s with StCrashed message => message | StError message => Some message | _ => None end.

Inductive SessionImproveMode := ImproveRun | ImprovePlan | RefactorRun | RefactorPlan.
#[export] Instance SessionImproveMode_eq_dec : EqDecision SessionImproveMode.
Proof. solve_decision. Defined.

Inductive StoredDisplayRole := DisplaySystem | DisplayBackgroundTask.
#[export] Instance StoredDisplayRole_eq_dec : EqDecision StoredDisplayRole.
Proof. solve_decision. Defined.

Record GitState := mkGit { git_root : string; git_head : option string; git_branch : option string; git_dirty : option bool }.

Record StoredTokenUsage := mkUsage {
  tu_input_tokens : N;
  tu_output_tokens : N;
  tu_cache_read_input_tokens : option N;
  tu_cache_creation_input_tokens : option N;
}.

Record TokenUsageTotals := mkTotals {
  tt_messages_with_token_usage : N;
  tt_input_tokens : N;
  tt_output_tokens : N;
  tt_cache_reported_input_tokens : N;
  tt_cache_read_input_tokens : N;
  tt_cache_creation_input_tokens : N;
}.

Inductive PersistVectorMode := Clean | Append | Full.
#[export] Instance PersistVectorMode_eq_dec : EqDecision PersistVectorMode.
Proof. solve_decision. Defined.

(** *** Recorded events *)

Record SwarmToolProgress := mkToolProgress { tpr_current : N; tpr_total : N; tpr_unit : option string }.
Record SwarmToolIntent := mkToolIntent {
  ti_tool_call_id : string;
  ti_tool_name : string;
  ti_intent : string;
  ti_status : string;
  ti_progress : option SwarmToolProgress;
}.
Record SwarmTodoItem := mkTodoItem { td_content : string; td_status : string; td_tool_intents : list SwarmToolIntent }.
Record SwarmMemberRuntime := mkRuntime {
  mrt_model : option string;
  mrt_provider : option string;
  mrt_auth_method : option string;
  mrt_effort : option string;
  mrt_elapsed_secs : option N;
}.
Record SwarmMemberStatus := mkMemberStatus {
  ms_session_id : string;
  ms_friendly_name : option string;
  ms_status : string;
  ms_detail : option string;
  ms_task_label : option string;
  ms_role : option string;
  ms_is_headless : option bool;
  ms_live_attachments : option nat;
  ms_status_age_secs : option N;
  ms_output_tail : option string;
  ms_report_back_to_session_id : option string;
  ms_todo_progress : option (N * N);
  ms_todo_items : list SwarmTodoItem;
  ms_runtime : SwarmMemberRuntime;
}.
#[export] Instance SwarmToolProgress_eq_dec : EqDecision SwarmToolProgress.
Proof. solve_decision. Defined.
#[export] Instance SwarmToolIntent_eq_dec : EqDecision SwarmToolIntent.
Proof. solve_decision. Defined.
#[export] Instance SwarmTodoItem_eq_dec : EqDecision SwarmTodoItem.
Proof. solve_decision. Defined.
#[export] Instance SwarmMemberRuntime_eq_dec : EqDecision SwarmMemberRuntime.
Proof. solve_decision. Defined.
#[export] Instance SwarmMemberStatus_eq_dec : EqDecision SwarmMemberStatus.
Proof. solve_decision. Defined.

Inductive StoredReplayEventKind :=
| DisplayMessage (role : string) (title : option string) (content : string)
| SwarmStatus (members : list SwarmMemberStatus)
| SwarmPlan (swarm_id : string) (version : N) (items : list PlanItem) (participants : list string) (reason : option string).
#[export] Instance StoredReplayEventKind_eq_dec : EqDecision StoredReplayEventKind.
Proof. solve_decision. Defined.

Definition SESSION_CONTEXT_PREFIX : string := "<system-reminder>" +:+ newline +:+ "# Session Context".

(** [wrapped] of the two functions that write the session context. *)
Definition wrapped_context (context : string) : string :=
  "<system-reminder>" +:+ newline +:+ trim context +:+ newline +:+ "</system-reminder>".

Definition MAX_SESSION_JOURNAL_BYTES : N := 512 * 1024.
Definition MAX_ENV_SNAPSHOTS : nat := 8.

(** ** Names and environment *)

(** [id.rs]: the first token after the prefix. *)
Definition extract_session_name (session_id : string) : option string :=
  match strip_prefix "session_" session_id with
  | Some rest => match str_find "_" rest with Some pos => Some (str_take pos rest) | None => None end
  | None => None
  end.

Definition env_flag_enabled (v : option string) : bool :=
  match v with
  | Some v => let trimmed := trim v in
      negb (str_is_empty trimmed) && negb (bool_decide (trimmed = "0"))
      && negb (bool_decide (to_ascii_lowercase trimmed = "false"))
  | None => false
  end.

(** The variables JCODE_RUNTIME_PROVIDER, JCODE_OPENROUTER_CACHE_NAMESPACE and
    JCODE_ACTIVE_PROVIDER are arguments. *)
Definition derive_session_provider_key (runtime_provider namespace active : option string) (provider_name : string) :
    option string :=
  let normalized_name := to_ascii_lowercase (trim provider_name) in
  let of_env v := v ≫= λ v, let v := to_ascii_lowercase (trim v) in if str_is_empty v then None else Some v in
  if bool_decide (normalized_name = "jcode") then Some "jcode"
  else
    match of_env runtime_provider with
    | Some v => if bool_decide (v = "openai-compatible") then None else Some v
    | None => None
    end ∪
    (of_env namespace ∪
    (of_env active ∪
    (if existsb (String.eqb normalized_name) ["anthropic"; "claude"; "claude cli"] then Some "claude"
     else if existsb (String.eqb normalized_name) ["github copilot"; "copilot"] then Some "copilot"
     else if str_is_empty normalized_name then None
     else Some normalized_name))).

Section Sessions.
Context {J : Json} {T : Chrono}.

(** ** Stored data *)

Record EnvSnapshot := mkEnv {
  ev_captured_at : DateTime;
  ev_reason : string;
  ev_session_id : string;
  ev_working_dir : option string;
  ev_provider : string;
  ev_model : string;
  ev_jcode_version : string;
  ev_jcode_git_hash : option string;
  ev_jcode_git_dirty : option bool;
  ev_os : string;
  ev_arch : string;
  ev_pid : N;
  ev_is_debug : bool;
  ev_working_git : option GitState;
}.

Record StoredMemoryInjection := mkInjection {
  in_summary : string;
  in_content : string;
  in_count : N;
  in_memory_ids : list string;
  in_age_ms : option N;
  in_before_message : option nat;
  in_timestamp : DateTime;
}.

Record StoredReplayEvent := mkReplayEvent { re_timestamp : DateTime; re_kind : StoredReplayEventKind }.

Record StoredMessage := mkStoredMessage {
  stm_id : string;
  stm_role : Role;
  stm_content : list ContentBlock;
  stm_display_role : option StoredDisplayRole;
  stm_timestamp : option DateTime;
  stm_tool_duration_ms : option N;
  stm_token_usage : option StoredTokenUsage;
}.

Definition to_message (m : StoredMessage) : Message :=
  mkMessage (stm_role m) (stm_content m) (stm_timestamp m) (stm_tool_duration_ms m).
Definition set_stored_content (m : StoredMessage) (blocks : list ContentBlock) : StoredMessage :=
  mkStoredMessage (stm_id m) (stm_role m) blocks (stm_display_role m) (stm_timestamp m) (stm_tool_duration_ms m)
    (stm_token_usage m).

(** The stored fields that are not vectors. *)
Record SessionHead := mkHead {
  h_id : string;
  h_parent_id : option string;
  h_title : option string;
  h_custom_title : option string;
  h_created_at : DateTime;
  h_updated_at : DateTime;
  h_compaction : option StoredCompactionState;
  h_provider_session_id : option string;
  h_provider_key : option string;
  h_model : option string;
  h_route_api_method : option string;
  h_reasoning_effort : option string;
  h_subagent_model : option string;
  h_improve_mode : option SessionImproveMode;
  h_autoreview_enabled : option bool;
  h_autojudge_enabled : option bool;
  h_working_dir : option string;
  h_short_name : option string;
  h_status : SessionStatus;
  h_last_pid : option N;
  h_last_active_at : option DateTime;
  h_is_debug : bool;
  h_saved : bool;
  h_save_label : option string;
}.

Record SessionJournalMeta := mkMeta {
  jm_parent_id : option string;
  jm_title : option string;
  jm_custom_title : option string;
  jm_updated_at : DateTime;
  jm_compaction : option StoredCompactionState;
  jm_provider_session_id : option string;
  jm_provider_key : option string;
  jm_model : option string;
  jm_reasoning_effort : option string;
  jm_subagent_model : option string;
  jm_improve_mode : option SessionImproveMode;
  jm_autoreview_enabled : option bool;
  jm_autojudge_enabled : option bool;
  jm_working_dir : option string;
  jm_short_name : option string;
  jm_status : SessionStatus;
  jm_last_pid : option N;
  jm_last_active_at : option DateTime;
  jm_is_debug : bool;
  jm_saved : bool;
  jm_save_label : option string;
}.

Record SessionPersistState := mkPersist {
  ps_snapshot_exists : bool;
  ps_messages_len : nat;
  ps_env_snapshots_len : nat;
  ps_memory_injections_len : nat;
  ps_replay_events_len : nat;
  ps_messages_mode : PersistVectorMode;
  ps_env_snapshots_mode : PersistVectorMode;
  ps_memory_injections_mode : PersistVectorMode;
  ps_replay_events_mode : PersistVectorMode;
  ps_last_meta : option SessionJournalMeta;
}.

Definition persist_default : SessionPersistState := mkPersist false 0 0 0 0 Clean Clean Clean Clean None.

(** The four cache fields. *)
Record ProviderCache := mkCache {
  pc_messages : list Message;
  pc_prefix_hashes : list N;
  pc_len : nat;
  pc_mode : PersistVectorMode;
}.

Record Session := mkSession {
  se_head : SessionHead;
  se_messages : list StoredMessage;
  se_env_snapshots : list EnvSnapshot;
  se_memory_injections : list StoredMemoryInjection;
  se_replay_events : list StoredReplayEvent;
  se_persist_state : SessionPersistState;
  se_provider_cache : ProviderCache;
}.

(** *** Updates *)

Definition set_head (h : SessionHead) (s : Session) : Session :=
  mkSession h (se_messages s) (se_env_snapshots s) (se_memory_injections s) (se_replay_events s) (se_persist_state s)
    (se_provider_cache s).
Definition set_messages (l : list StoredMessage) (s : Session) : Session :=
  mkSession (se_head s) l (se_env_snapshots s) (se_memory_injections s) (se_replay_events s) (se_persist_state s)
    (se_provider_cache s).
Definition set_env_snapshots (l : list EnvSnapshot) (s : Session) : Session :=
  mkSession (se_head s) (se_messages s) l (se_memory_injections s) (se_replay_events s) (se_persist_state s)
    (se_provider_cache s).
Definition set_memory_injections (l : list StoredMemoryInjection) (s : Session) : Session :=
  mkSession (se_head s) (se_messages s) (se_env_snapshots s) l (se_replay_events s) (se_persist_state s)
    (se_provider_cache s).
Definition set_replay_events (l : list StoredReplayEvent) (s : Session) : Session :=
  mkSession (se_head s) (se_messages s) (se_env_snapshots s) (se_memory_injections s) l (se_persist_state s)
    (se_provider_cache s).
Definition set_persist_state (p : SessionPersistState) (s : Session) : Session :=
  mkSession (se_head s) (se_messages s) (se_env_snapshots s) (se_memory_injections s) (se_replay_events s) p
    (se_provider_cache s).
Definition set_provider_cache (c : ProviderCache) (s : Session) : Session :=
  mkSession (se_head s) (se_messages s) (se_env_snapshots s) (se_memory_injections s) (se_replay_events s)
    (se_persist_state s) c.
Definition set_modes (messages env injections events : PersistVectorMode) (p : SessionPersistState) : SessionPersistState :=
  mkPersist (ps_snapshot_exists p) (ps_messages_len p) (ps_env_snapshots_len p) (ps_memory_injections_len p)
    (ps_replay_events_len p) messages env injections events (ps_last_meta p).
Definition set_cache_mode (m : PersistVectorMode) (c : ProviderCache) : ProviderCache :=
  mkCache (pc_messages c) (pc_prefix_hashes c) (pc_len c) m.

Definition head_status (v : SessionStatus) (h : SessionHead) : SessionHead :=
  mkHead (h_id h) (h_parent_id h) (h_title h) (h_custom_title h) (h_created_at h) (h_updated_at h) (h_compaction h)
    (h_provider_session_id h) (h_provider_key h) (h_model h) (h_route_api_method h) (h_reasoning_effort h)
    (h_subagent_model h) (h_improve_mode h) (h_autoreview_enabled h) (h_autojudge_enabled h) (h_working_dir h)
    (h_short_name h) v (h_last_pid h) (h_last_active_at h) (h_is_debug h) (h_saved h) (h_save_label h).
Definition head_custom_title (title : option string) (now : DateTime) (h : SessionHead) : SessionHead :=
  mkHead (h_id h) (h_parent_id h) (h_title h) title (h_created_at h) now (h_compaction h) (h_provider_session_id h)
    (h_provider_key h) (h_model h) (h_route_api_method h) (h_reasoning_effort h) (h_subagent_model h)
    (h_improve_mode h) (h_autoreview_enabled h) (h_autojudge_enabled h) (h_working_dir h) (h_short_name h)
    (h_status h) (h_last_pid h) (h_last_active_at h) (h_is_debug h) (h_saved h) (h_save_label h).
Definition head_updated_at (now : DateTime) (h : SessionHead) : SessionHead :=
  mkHead (h_id h) (h_parent_id h) (h_title h) (h_custom_title h) (h_created_at h) now (h_compaction h)
    (h_provider_session_id h) (h_provider_key h) (h_model h) (h_route_api_method h) (h_reasoning_effort h)
    (h_subagent_model h) (h_improve_mode h) (h_autoreview_enabled h) (h_autojudge_enabled h) (h_working_dir h)
    (h_short_name h) (h_status h) (h_last_pid h) (h_last_active_at h) (h_is_debug h) (h_saved h) (h_save_label h).
Definition head_saved (v : bool) (label : option string) (h : SessionHead) : SessionHead :=
  mkHead (h_id h) (h_parent_id h) (h_title h) (h_custom_title h) (h_created_at h) (h_updated_at h) (h_compaction h)
    (h_provider_session_id h) (h_provider_key h) (h_model h) (h_route_api_method h) (h_reasoning_effort h)
    (h_subagent_model h) (h_improve_mode h) (h_autoreview_enabled h) (h_autojudge_enabled h) (h_working_dir h)
    (h_short_name h) (h_status h) (h_last_pid h) (h_last_active_at h) (h_is_debug h) v label.
Definition head_debug (v : bool) (h : SessionHead) : SessionHead :=
  mkHead (h_id h) (h_parent_id h) (h_title h) (h_custom_title h) (h_created_at h) (h_updated_at h) (h_compaction h)
    (h_provider_session_id h) (h_provider_key h) (h_model h) (h_route_api_method h) (h_reasoning_effort h)
    (h_subagent_model h) (h_improve_mode h) (h_autoreview_enabled h) (h_autojudge_enabled h) (h_working_dir h)
    (h_short_name h) (h_status h) (h_last_pid h) (h_last_active_at h) v (h_saved h) (h_save_label h).
Definition head_active (pid : N) (now : DateTime) (h : SessionHead) : SessionHead :=
  mkHead (h_id h) (h_parent_id h) (h_title h) (h_custom_title h) (h_created_at h) (h_updated_at h) (h_compaction h)
    (h_provider_session_id h) (h_provider_key h) (h_model h) (h_route_api_method h) (h_reasoning_effort h)
    (h_subagent_model h) (h_improve_mode h) (h_autoreview_enabled h) (h_autojudge_enabled h) (h_working_dir h)
    (h_short_name h) StActive (Some pid) (Some now) (h_is_debug h) (h_saved h) (h_save_label h).
Definition head_working_dir (v : option string) (h : SessionHead) : SessionHead :=
  mkHead (h_id h) (h_parent_id h) (h_title h) (h_custom_title h) (h_created_at h) (h_updated_at h) (h_compaction h)
    (h_provider_session_id h) (h_provider_key h) (h_model h) (h_route_api_method h) (h_reasoning_effort h)
    (h_subagent_model h) (h_improve_mode h) (h_autoreview_enabled h) (h_autojudge_enabled h) v (h_short_name h)
    (h_status h) (h_last_pid h) (h_last_active_at h) (h_is_debug h) (h_saved h) (h_save_label h).
Definition head_compaction (v : option StoredCompactionState) (h : SessionHead) : SessionHead :=
  mkHead (h_id h) (h_parent_id h) (h_title h) (h_custom_title h) (h_created_at h) (h_updated_at h) v
    (h_provider_session_id h) (h_provider_key h) (h_model h) (h_route_api_method h) (h_reasoning_effort h)
    (h_subagent_model h) (h_improve_mode h) (h_autoreview_enabled h) (h_autojudge_enabled h) (h_working_dir h)
    (h_short_name h) (h_status h) (h_last_pid h) (h_last_active_at h) (h_is_debug h) (h_saved h) (h_save_label h).

(** ** Dirty marks *)

Definition append_mode (m : PersistVectorMode) : PersistVectorMode :=
  if bool_decide (m = Full) then Full else Append.

Definition mark_messages_append_dirty (s : Session) : Session :=
  let p := se_persist_state s in
  let c := se_provider_cache s in
  set_provider_cache (set_cache_mode (append_mode (pc_mode c)) c)
    (set_persist_state (set_modes (append_mode (ps_messages_mode p)) (ps_env_snapshots_mode p)
       (ps_memory_injections_mode p) (ps_replay_events_mode p) p) s).

Definition mark_messages_full_dirty (s : Session) : Session :=
  let p := se_persist_state s in
  set_provider_cache (set_cache_mode Full (se_provider_cache s))
    (set_persist_state (set_modes Full (ps_env_snapshots_mode p) (ps_memory_injections_mode p) (ps_replay_events_mode p) p) s).

Definition mark_env_snapshots_append_dirty (s : Session) : Session :=
  let p := se_persist_state s in
  set_persist_state (set_modes (ps_messages_mode p) (append_mode (ps_env_snapshots_mode p)) (ps_memory_injections_mode p)
    (ps_replay_events_mode p) p) s.
Definition mark_env_snapshots_full_dirty (s : Session) : Session :=
  let p := se_persist_state s in
  set_persist_state (set_modes (ps_messages_mode p) Full (ps_memory_injections_mode p) (ps_replay_events_mode p) p) s.
Definition mark_memory_injections_append_dirty (s : Session) : Session :=
  let p := se_persist_state s in
  set_persist_state (set_modes (ps_messages_mode p) (ps_env_snapshots_mode p) (append_mode (ps_memory_injections_mode p))
    (ps_replay_events_mode p) p) s.
Definition mark_replay_events_append_dirty (s : Session) : Session :=
  let p := se_persist_state s in
  set_persist_state (set_modes (ps_messages_mode p) (ps_env_snapshots_mode p) (ps_memory_injections_mode p)
    (append_mode (ps_replay_events_mode p)) p) s.

(** ** Journal metadata *)

Definition journal_meta (s : Session) : SessionJournalMeta :=
  let h := se_head s in
  mkMeta (h_parent_id h) (h_title h) (h_custom_title h) (h_updated_at h) (h_compaction h) (h_provider_session_id h)
    (h_provider_key h) (h_model h) (h_reasoning_effort h) (h_subagent_model h) (h_improve_mode h)
    (h_autoreview_enabled h) (h_autojudge_enabled h) (h_working_dir h) (h_short_name h) (h_status h) (h_last_pid h)
    (h_last_active_at h) (h_is_debug h) (h_saved h) (h_save_label h).

Definition apply_journal_meta (m : SessionJournalMeta) (s : Session) : Session :=
  let h := se_head s in
  set_head (mkHead (h_id h) (jm_parent_id m) (jm_title m) (jm_custom_title m) (h_created_at h) (jm_updated_at m)
    (jm_compaction m) (jm_provider_session_id m) (jm_provider_key m) (jm_model m) (h_route_api_method h)
    (jm_reasoning_effort m) (jm_subagent_model m) (jm_improve_mode m) (jm_autoreview_enabled m)
    (jm_autojudge_enabled m) (jm_working_dir m) (jm_short_name m) (jm_status m) (jm_last_pid m) (jm_last_active_at m)
    (jm_is_debug m) (jm_saved m) (jm_save_label m)) s.

Definition metadata_requires_snapshot (prev current : SessionJournalMeta) : bool :=
  negb (bool_decide (jm_parent_id prev = jm_parent_id current))
  || negb (bool_decide (jm_title prev = jm_title current))
  || negb (bool_decide (jm_custom_title prev = jm_custom_title current))
  || negb (bool_decide (jm_provider_key prev = jm_provider_key current))
  || negb (bool_decide (jm_reasoning_effort prev = jm_reasoning_effort current))
  || negb (bool_decide (jm_subagent_model prev = jm_subagent_model current))
  || negb (bool_decide (jm_improve_mode prev = jm_improve_mode current))
  || negb (bool_decide (jm_autoreview_enabled prev = jm_autoreview_enabled current))
  || negb (bool_decide (jm_autojudge_enabled prev = jm_autojudge_enabled current))
  || negb (bool_decide (jm_working_dir prev = jm_working_dir current))
  || negb (bool_decide (jm_short_name prev = jm_short_name current))
  || negb (bool_decide (jm_status prev = jm_status current))
  || negb (bool_decide (jm_is_debug prev = jm_is_debug current))
  || negb (bool_decide (jm_saved prev = jm_saved current))
  || negb (bool_decide (jm_save_label prev = jm_save_label current)).

Definition reset_persist_state (snapshot_exists : bool) (s : Session) : Session :=
  set_persist_state
    (mkPersist snapshot_exists (length (se_messages s)) (length (se_env_snapshots s)) (length (se_memory_injections s))
       (length (se_replay_events s)) Clean Clean Clean Clean (Some (journal_meta s))) s.

(** ** Creation *)

(** The struct literal of [create] and [create_with_id]. *)
Definition new_session (id : string) (short_name parent_id title : option string) (now : DateTime) (pid : N)
    (working_dir : option string) (is_debug : bool) : Session :=
  reset_persist_state false
    (mkSession
       (mkHead id parent_id title None now now None None None None None None None None None None working_dir short_name
          StActive (Some pid) (Some now) is_debug false None)
       [] [] [] [] persist_default (mkCache [] [] 0 Full)).

Definition create_with_id (session_id : string) (parent_id title : option string) (now : DateTime) (pid : N)
    (working_dir : option string) (is_debug : bool) : Session :=
  new_session session_id (extract_session_name session_id) parent_id title now pid working_dir is_debug.

(** [memorable] is the new identifier with its short name. *)
Definition create (memorable : string * string) (parent_id title : option string) (now : DateTime) (pid : N)
    (working_dir : option string) (is_debug : bool) : Session :=
  new_session memorable.1 (Some memorable.2) parent_id title now pid working_dir is_debug.

(** ** Metadata operations *)

Definition set_debug (is_debug : bool) (s : Session) : Session := set_head (head_debug is_debug (se_head s)) s.

Definition mark_saved (label : option string) (s : Session) : Session :=
  let h := se_head s in
  set_head (head_saved true (match label with Some l => Some l | None => h_save_label h end) h) s.
Definition unmark_saved (s : Session) : Session := set_head (head_saved false None (se_head s)) s.

Definition non_empty_trimmed (title : option string) : option string :=
  title ≫= λ t, let t := trim t in if str_is_empty t then None else Some t.

Definition rename_title (now : DateTime) (title : option string) (s : Session) : Session :=
  set_head (head_custom_title (non_empty_trimmed title) now (se_head s)) s.

Definition display_title (s : Session) : option string :=
  match non_empty_trimmed (h_custom_title (se_head s)) with
  | Some t => Some t
  | None => non_empty_trimmed (h_title (se_head s))
  end.
Definition display_name (s : Session) : string :=
  match h_short_name (se_head s) with
  | Some n => n
  | None => default (h_id (se_head s)) (extract_session_name (h_id (se_head s)))
  end.
Definition display_title_or_name (s : Session) : string := default (display_name s) (display_title s).

Definition set_status (status : SessionStatus) (s : Session) : Session := set_head (head_status status (se_head s)) s.
Definition mark_closed (s : Session) : Session := set_status StClosed s.
Definition mark_crashed (message : option string) (s : Session) : Session := set_status (StCrashed message) s.
Definition mark_error (message : string) (s : Session) : Session := set_status (StError message) s.
Definition mark_active_with_pid (now : DateTime) (pid : N) (s : Session) : Session :=
  set_head (head_active pid now (se_head s)) s.

(** [age_secs]: whole seconds since [updated_at]. *)
Definition detect_crash (is_pid_running : N → bool) (age_secs : Z) (s : Session) : Session * bool :=
  let h := se_head s in
  if negb (bool_decide (h_status h = StActive)) then (s, false)
  else match h_last_pid h with
       | Some pid =>
           if is_pid_running pid then (s, false)
           else (mark_crashed (Some ("Process " +:+ pretty pid +:+ " exited unexpectedly (no shutdown signal captured)")) s, true)
       | None =>
           if (120 <? age_secs)%Z
           then (mark_crashed (Some "Stale active session (possible abrupt termination)") s, true)
           else (s, false)
       end.

(** ** Environment snapshots *)

Definition record_env_snapshot (snapshot : EnvSnapshot) (s : Session) : Session :=
  let pushed := se_env_snapshots s ++ [snapshot] in
  if MAX_ENV_SNAPSHOTS <? length pushed
  then mark_env_snapshots_full_dirty (set_env_snapshots (drop (length pushed - MAX_ENV_SNAPSHOTS) pushed) s)
  else mark_env_snapshots_append_dirty (set_env_snapshots pushed s).

(** ** Messages *)

Definition append_stored_message (message : StoredMessage) (s : Session) : Session :=
  mark_messages_append_dirty (set_messages (se_messages s ++ [message]) s).

(** [id] is the new identifier, which is returned. *)
Definition add_message_ext_with_display_role (id : string) (now : DateTime) (role : Role) (content : list ContentBlock)
    (tool_duration_ms : option N) (token_usage : option StoredTokenUsage) (display_role : option StoredDisplayRole)
    (s : Session) : Session :=
  append_stored_message (mkStoredMessage id role content display_role (Some now) tool_duration_ms token_usage) s.

(** [Vec::insert] panics past the end. *)
Definition insert_message (index : nat) (message : StoredMessage) (s : Session) : option Session :=
  let l := se_messages s in
  if length l <? index then None
  else Some (mark_messages_full_dirty (set_messages (take index l ++ message :: drop index l) s)).

Definition replace_messages (messages : list StoredMessage) (s : Session) : Session :=
  mark_messages_full_dirty (set_messages messages s).

Definition truncate_messages (len : nat) (s : Session) : Session :=
  if len <? length (se_messages s) then mark_messages_full_dirty (set_messages (take len (se_messages s)) s) else s.

Definition strip_oversized_images (target_total_chars : N) (s : Session) : Session * nat :=
  let '(contents, stripped) := strip_large_images_in_contents (stm_content <$> se_messages s) target_total_chars in
  let s' := set_messages (zip_with set_stored_content (se_messages s) contents) s in
  (if 0 <? stripped then mark_messages_full_dirty s' else s', stripped).

Definition is_tool_use (b : ContentBlock) : bool := match b with ToolUse _ _ _ _ => true | _ => false end.

(** The loop up to the first message with the identifier; whether one was found. *)
Fixpoint remove_tool_use_in (message_id : string) (l : list StoredMessage) : list StoredMessage * bool :=
  match l with
  | [] => ([], false)
  | m :: rest =>
      if bool_decide (stm_id m = message_id)
      then (set_stored_content m (List.filter (λ b, negb (is_tool_use b)) (stm_content m)) :: rest, true)
      else let '(rest', found) := remove_tool_use_in message_id rest in (m :: rest', found)
  end.

Definition remove_tool_use_blocks (message_id : string) (s : Session) : Session :=
  let '(l, found) := remove_tool_use_in message_id (se_messages s) in
  let s' := set_messages l s in
  if found then mark_messages_full_dirty s' else s'.

(** *** The session context *)

Definition is_context_block (b : ContentBlock) : bool :=
  match b with Text text _ => starts_with SESSION_CONTEXT_PREFIX text | _ => false end.
Definition has_session_context_message (s : Session) : bool :=
  existsb (λ m, existsb is_context_block (stm_content m)) (se_messages s).

Definition add_system_message (id : string) (now : DateTime) (text : string) (s : Session) : Session :=
  add_message_ext_with_display_role id now User [Text text None] None None (Some DisplaySystem) s.

(** [context] is what [build_session_context] returns for the working directory;
    [cwd] is the current directory of the process. *)
Definition ensure_initial_session_context_message (id : string) (now : DateTime) (cwd : option string)
    (context : option string → string) (s : Session) : Session * bool :=
  if negb (bool_decide (se_messages s = [])) || has_session_context_message s then (s, false)
  else
    let s := match h_working_dir (se_head s) with
             | None => set_head (head_working_dir cwd (se_head s)) s
             | Some _ => s
             end in
    (add_system_message id now (wrapped_context (context (h_working_dir (se_head s)))) s, true).

Definition is_internal_system_reminder_message (m : StoredMessage) : bool :=
  match first_text (stm_content m) with
  | Some text => starts_with "<system-reminder>" (trim_start text)
  | None => false
  end.
Definition is_visible_conversation_message (m : StoredMessage) : bool :=
  bool_decide (stm_display_role m = None) && negb (is_internal_system_reminder_message m).

(** The loop over the blocks of the context message: [None] when it returns false. *)
Fixpoint refresh_context_blocks (wrapped : string) (blocks : list ContentBlock) : option (list ContentBlock) :=
  match blocks with
  | [] => None
  | b :: rest =>
      match b with
      | Text text cache_control =>
          if starts_with SESSION_CONTEXT_PREFIX text
          then if bool_decide (text = wrapped) then None else Some (Text wrapped cache_control :: rest)
          else (b ::.) <$> refresh_context_blocks wrapped rest
      | _ => (b ::.) <$> refresh_context_blocks wrapped rest
      end
  end.
Fixpoint refresh_context_messages (wrapped : string) (l : list StoredMessage) : option (list StoredMessage) :=
  match l with
  | [] => None
  | m :: rest =>
      if existsb is_context_block (stm_content m)
      then (λ blocks, set_stored_content m blocks :: rest) <$> refresh_context_blocks wrapped (stm_content m)
      else (m ::.) <$> refresh_context_messages wrapped rest
  end.

Definition refresh_initial_session_context_message (context : option string → string) (s : Session) : Session * bool :=
  if existsb is_visible_conversation_message (se_messages s) then (s, false)
  else match refresh_context_messages (wrapped_context (context (h_working_dir (se_head s)))) (se_messages s) with
       | Some l => (mark_messages_full_dirty (set_messages l s), true)
       | None => (s, false)
       end.

Definition append_fork_notice (id : string) (now : DateTime) (parent_session_id parent_display_name : string) (s : Session) :
    Session :=
  add_system_message id now
    ("<system-reminder>" +:+ newline +:+ "This session was forked (split) from session " +:+ parent_display_name
     +:+ " (" +:+ parent_session_id +:+ ") by the user. "
     +:+ "The full conversation above is inherited from that session, but the original agent in " +:+ parent_display_name
     +:+ " is still active and will continue handling whatever request or work was in progress there. "
     +:+ "Do NOT continue or duplicate that in-flight work here. Treat the next user message as a fresh "
     +:+ "request in this new forked session, using the inherited conversation only as context."
     +:+ newline +:+ "</system-reminder>") s.

(** *** Visible messages *)

Definition visible_conversation_messages (s : Session) : list StoredMessage :=
  List.filter is_visible_conversation_message (se_messages s).
Definition visible_conversation_message_count (s : Session) : nat := length (visible_conversation_messages s).

Fixpoint stored_len_loop (visible_index count stored_index : nat) (l : list StoredMessage) : option nat :=
  match l with
  | [] => None
  | m :: rest =>
      if is_visible_conversation_message m
      then if S count =? visible_index then Some (S stored_index)
           else stored_len_loop visible_index (S count) (S stored_index) rest
      else stored_len_loop visible_index count (S stored_index) rest
  end.
Definition stored_len_for_visible_conversation_message (visible_index : nat) (s : Session) : option nat :=
  if visible_index =? 0 then None else stored_len_loop visible_index 0 0 (se_messages s).

(** ** Token totals *)

Definition add_usage (t : TokenUsageTotals) (m : StoredMessage) : TokenUsageTotals :=
  match stm_token_usage m with
  | None => t
  | Some u =>
      mkTotals (saturating_add (tt_messages_with_token_usage t) 1)
        (saturating_add (tt_input_tokens t) (tu_input_tokens u))
        (saturating_add (tt_output_tokens t) (tu_output_tokens u))
        (match tu_cache_read_input_tokens u, tu_cache_creation_input_tokens u with
         | None, None => tt_cache_reported_input_tokens t
         | _, _ => saturating_add (tt_cache_reported_input_tokens t) (tu_input_tokens u)
         end)
        (saturating_add (tt_cache_read_input_tokens t) (default 0%N (tu_cache_read_input_tokens u)))
        (saturating_add (tt_cache_creation_input_tokens t) (default 0%N (tu_cache_creation_input_tokens u)))
  end.
Definition token_usage_totals (s : Session) : TokenUsageTotals :=
  fold_left add_usage (se_messages s) (mkTotals 0 0 0 0 0 0).

(** ** Injections and events *)

Definition record_memory_injection (now : DateTime) (summary content : string) (count age_ms : N)
    (memory_ids : list string) (s : Session) : Session :=
  mark_memory_injections_append_dirty
    (set_memory_injections
       (se_memory_injections s
          ++ [mkInjection summary content count memory_ids (Some age_ms) (Some (length (se_messages s))) now]) s).

(** The set that [injected_memory_ids] lists. *)
Definition injected_memory_ids (s : Session) : gset string := list_to_set (se_memory_injections s ≫= in_memory_ids).

Definition push_replay_event (now : DateTime) (kind : StoredReplayEventKind) (s : Session) : Session :=
  mark_replay_events_append_dirty (set_replay_events (se_replay_events s ++ [mkReplayEvent now kind]) s).
Definition last_kind_is (kind : StoredReplayEventKind) (s : Session) : bool :=
  match last (se_replay_events s) with Some e => bool_decide (re_kind e = kind) | None => false end.

Definition record_replay_display_message (now : DateTime) (role : string) (title : option string) (content : string)
    (s : Session) : Session :=
  push_replay_event now (DisplayMessage role title content) s.
Definition record_swarm_status_event (now : DateTime) (members : list SwarmMemberStatus) (s : Session) : Session :=
  if last_kind_is (SwarmStatus members) s then s else push_replay_event now (SwarmStatus members) s.
Definition record_swarm_plan_event (now : DateTime) (swarm_id : string) (version : N) (items : list PlanItem)
    (participants : list string) (reason : option string) (s : Session) : Session :=
  let kind := SwarmPlan swarm_id version items participants reason in
  if last_kind_is kind s then s else push_replay_event now kind s.

(** ** Messages for the provider *)

Definition stored_messages_to_messages (l : list StoredMessage) : list Message := to_message <$> l.
Definition messages_for_provider_uncached (s : Session) : list Message := stored_messages_to_messages (se_messages s).

Definition reset_provider_messages_cache (s : Session) : Session := set_provider_cache (mkCache [] [] 0 Full) s.
Definition release_provider_messages_cache (s : Session) : Session := set_provider_cache (mkCache [] [] 0 Full) s.

Section Hashes.
(** [stable_message_hash] hashes one of two renderings of a message. *)
Context (to_vec : Message → option (list N)) (debug : Message → list N).

Definition push_provider_message_cache_entry (c : ProviderCache) (message : Message) : ProviderCache :=
  let message_hash := stable_message_hash to_vec debug message in
  let prefix_hash := match last (pc_prefix_hashes c) with
                     | Some prev => extend_stable_hash prev message_hash
                     | None => message_hash
                     end in
  mkCache (pc_messages c ++ [message]) (pc_prefix_hashes c ++ [prefix_hash]) (pc_len c) (pc_mode c).

Definition provider_messages (s : Session) : Session * list Message :=
  let c := se_provider_cache s in
  let n := length (se_messages s) in
  let push c l := fold_left push_provider_message_cache_entry (to_message <$> l) c in
  let filled c := mkCache (pc_messages c) (pc_prefix_hashes c) n Clean in
  let s :=
    if bool_decide (pc_mode c = Full) || (n <? pc_len c)
    then set_provider_cache (filled (push (mkCache [] [] (pc_len c) (pc_mode c)) (se_messages s))) s
    else if bool_decide (pc_mode c = Append) && (pc_len c <? n)
    then set_provider_cache (filled (push c (drop (pc_len c) (se_messages s)))) s
    else s in
  (s, pc_messages (se_provider_cache s)).

Definition provider_message_prefix_hashes (s : Session) : Session * list N :=
  let s := (provider_messages s).1 in (s, pc_prefix_hashes (se_provider_cache s)).
Definition messages_for_provider (s : Session) : Session * list Message := provider_messages s.
End Hashes.

Definition strip_transcript_for_remote_client (s : Session) : Session :=
  reset_persist_state true
    (reset_provider_messages_cache
       (mkSession (head_compaction None (se_head s)) [] [] [] [] (se_persist_state s) (se_provider_cache s))).
End Sessions.
