(* ===== verification/SessionStore.v ===== *)
(** * Storing sessions

    jcode-base/src/session/persistence.rs, storage_paths.rs and the append of
    jcode-storage/src/lib.rs: a session is a snapshot file and a journal of the
    entries added since.  [save] appends an entry or writes a new snapshot;
    loading reads the snapshot and replays the journal, skipping lines that do
    not parse and looking for entries inside them.

    The file calls are those of the crash monad of [Storage].  [serde_json] is
    a parameter: the text of a snapshot and of an entry, the parser of
    snapshots, and a parser that reads one entry off the front of a text. *)

From stdpp Require Import base list strings gmap pretty.
From S2P Require Import Prelude RustString RustText Plan Message Compaction Manager Storage Session.

Open Scope string_scope.
Open Scope nat_scope.
Open Scope list_scope.

(** ** Files *)

Definition session_path (id : string) : FileName := (id, Some "json").
Definition session_journal_path_from_snapshot (path : FileName) : FileName := (path.1 +:+ ".journal", Some "jsonl").
(** [with_extension("corrupt.jsonl")] of a journal. *)
Definition corrupt_backup_path (journal : FileName) : FileName := (journal.1 +:+ ".corrupt", Some "jsonl").

(** [OpenOptions::create(true).append(true)]. *)
Definition fs_open_append (f : FileName) : IO unit :=
  atomic (λ files, (Ok tt, match files !! f with Some _ => files | None => <[f := ""]> files end)).
Definition appended (f : FileName) (bytes : string) (files : Files) : Files :=
  <[f := default "" (files !! f) +:+ bytes]> files.
Definition fs_append (f : FileName) (bytes : string) : IO unit :=
  call (λ n, appended f (str_take n bytes)) (λ files, (Ok tt, appended f bytes files)).

(** The bytes of a file, whatever they are. *)
Definition fs_read_bytes (f : FileName) : IO string :=
  atomic (λ files, (match files !! f with Some data => Ok data | None => Err NotFound end, files)).

Definition file_len_or_zero (f : FileName) : IO N :=
  settle (atomic (λ files, (match files !! f with Some data => Ok (N.of_nat (String.length data)) | None => Err NotFound end, files)))
    (λ r, io_ret (match r with Ok n => n | Err _ => 0%N end)).

(** JSON whitespace. *)
Definition is_json_space (c : Ascii.ascii) : bool :=
  (byte_val c =? 32)%N || (byte_val c =? 9)%N || (byte_val c =? 10)%N || (byte_val c =? 13)%N.
Fixpoint skip_json_space (s : string) : string :=
  match s with
  | String c rest => if is_json_space c then skip_json_space rest else s
  | "" => ""
  end.

Definition ENTRY_START : string := "{" +:+ dquote +:+ "meta" +:+ dquote +:+ ":".

Record JournalReplayStats := mkReplay { jr_entries : nat; jr_skipped_lines : nat; jr_salvaged_entries : nat }.
Definition is_corrupt (st : JournalReplayStats) : bool := 0 <? jr_skipped_lines st.

Section Store.
Context {J : Json} {T : Chrono}.

(** ** Stored forms *)

(** What serialising a session writes. *)
Record SessionSnapshot := mkSessionSnapshot {
  sn_head : SessionHead;
  sn_messages : list StoredMessage;
  sn_env_snapshots : list EnvSnapshot;
  sn_memory_injections : list StoredMemoryInjection;
  sn_replay_events : list StoredReplayEvent;
}.
Definition snapshot_of_session (s : Session) : SessionSnapshot :=
  mkSessionSnapshot (se_head s) (se_messages s) (se_env_snapshots s) (se_memory_injections s) (se_replay_events s).
(** The skipped fields of a deserialised session have their defaults. *)
Definition session_of_snapshot (d : SessionSnapshot) : Session :=
  mkSession (sn_head d) (sn_messages d) (sn_env_snapshots d) (sn_memory_injections d) (sn_replay_events d)
    persist_default (mkCache [] [] 0 Clean).

Record SessionJournalEntry := mkEntry {
  je_meta : SessionJournalMeta;
  je_append_messages : list StoredMessage;
  je_append_env_snapshots : list EnvSnapshot;
  je_append_memory_injections : list StoredMemoryInjection;
  je_append_replay_events : list StoredReplayEvent;
}.

(** The field [tool_call_id] is not serialised. *)
Definition wire_intent (i : SwarmToolIntent) : SwarmToolIntent :=
  mkToolIntent "" (ti_tool_name i) (ti_intent i) (ti_status i) (ti_progress i).
Definition wire_todo (t : SwarmTodoItem) : SwarmTodoItem :=
  mkTodoItem (td_content t) (td_status t) (wire_intent <$> td_tool_intents t).
Definition wire_member (m : SwarmMemberStatus) : SwarmMemberStatus :=
  mkMemberStatus (ms_session_id m) (ms_friendly_name m) (ms_status m) (ms_detail m) (ms_task_label m) (ms_role m)
    (ms_is_headless m) (ms_live_attachments m) (ms_status_age_secs m) (ms_output_tail m) (ms_report_back_to_session_id m)
    (ms_todo_progress m) (wire_todo <$> ms_todo_items m) (ms_runtime m).
Definition wire_event (e : StoredReplayEvent) : StoredReplayEvent :=
  mkReplayEvent (re_timestamp e)
    (match re_kind e with SwarmStatus members => SwarmStatus (wire_member <$> members) | k => k end).
Definition wire_snapshot (d : SessionSnapshot) : SessionSnapshot :=
  mkSessionSnapshot (sn_head d) (sn_messages d) (sn_env_snapshots d) (sn_memory_injections d) (wire_event <$> sn_replay_events d).
Definition wire_entry (e : SessionJournalEntry) : SessionJournalEntry :=
  mkEntry (je_meta e) (je_append_messages e) (je_append_env_snapshots e) (je_append_memory_injections e)
    (wire_event <$> je_append_replay_events e).

(** [SessionStartupStub] and [RemoteStartupSessionSnapshot] read part of it. *)
Record RemoteSnapshot := mkRemote { rs_head : SessionHead; rs_messages : list StoredMessage }.

Definition session_from_startup_stub (stub : SessionHead) : Session :=
  reset_persist_state true (mkSession stub [] [] [] [] persist_default (mkCache [] [] 0 Full)).
Definition session_from_remote_startup_snapshot (snapshot : RemoteSnapshot) : Session :=
  reset_provider_messages_cache
    (reset_persist_state true (mkSession (rs_head snapshot) (rs_messages snapshot) [] [] [] persist_default (mkCache [] [] 0 Full))).

Definition apply_journal_entry (s : Session) (entry : SessionJournalEntry) : Session :=
  let s := apply_journal_meta (je_meta entry) s in
  mkSession (se_head s) (se_messages s ++ je_append_messages entry) (se_env_snapshots s ++ je_append_env_snapshots entry)
    (se_memory_injections s ++ je_append_memory_injections entry) (se_replay_events s ++ je_append_replay_events entry)
    (se_persist_state s) (se_provider_cache s).

(** The closure of [load_for_remote_startup]. *)
Definition apply_remote_entry (s : Session) (entry : SessionJournalEntry) : Session :=
  let s := apply_journal_meta (je_meta entry) s in
  mkSession (se_head s) (se_messages s ++ je_append_messages entry) (se_env_snapshots s) (se_memory_injections s)
    (se_replay_events s ++ je_append_replay_events entry) (se_persist_state s) (se_provider_cache s).

Section Codec.
Context (encode_snapshot : SessionSnapshot → string) (decode_snapshot : string → option SessionSnapshot)
  (decode_stub : string → option SessionHead) (decode_remote : string → option RemoteSnapshot)
  (encode_entry : SessionJournalEntry → string) (parse_entry : string → option (SessionJournalEntry * string)).

(** ** Replay *)

(** [serde_json::from_str]: one value, and only white space after it. *)
Definition entry_from_str (s : string) : option SessionJournalEntry :=
  match parse_entry s with
  | Some (e, rest) => if str_is_empty (skip_json_space rest) then Some e else None
  | None => None
  end.

(** [into_iter] up to the first error. *)
Fixpoint stream_entries (fuel : nat) (s : string) : list SessionJournalEntry :=
  match fuel with
  | 0 => []
  | S fuel =>
      if str_is_empty (skip_json_space s) then []
      else match parse_entry s with
           | Some (e, rest) => e :: stream_entries fuel rest
           | None => []
           end
  end.

(** [rest] is the line from [search_from] on. *)
Fixpoint salvage_from (fuel : nat) (rest : string) : list SessionJournalEntry :=
  match fuel with
  | 0 => []
  | S fuel =>
      match str_find ENTRY_START rest with
      | None => []
      | Some rel =>
          let candidate := str_drop rel rest in
          match stream_entries (S (String.length candidate)) candidate with
          | [] => salvage_from fuel (str_drop (String.length ENTRY_START) candidate)
          | parsed => parsed
          end
      end
  end.
Definition salvage_glued_journal_entries (line : string) : list SessionJournalEntry :=
  salvage_from (S (String.length line)) line.

(** The loop over the lines: the entries to apply in order; an error is a line
    that is not text. *)
Fixpoint replay_lines (ls : list string) : option (list SessionJournalEntry * JournalReplayStats) :=
  match ls with
  | [] => Some ([], mkReplay 0 0 0)
  | line :: rest =>
      if negb (utf8 line) then None
      else
        match replay_lines rest with
        | None => None
        | Some (es, st) =>
            let trimmed := trim line in
            if str_is_empty trimmed then Some (es, st)
            else match entry_from_str trimmed with
                 | Some e => Some (e :: es, mkReplay (S (jr_entries st)) (jr_skipped_lines st) (jr_salvaged_entries st))
                 | None =>
                     let salvaged := salvage_glued_journal_entries trimmed in
                     let n := length salvaged in
                     Some (salvaged ++ es,
                           mkReplay (n + jr_entries st) (S (jr_skipped_lines st)) (n + jr_salvaged_entries st))
                 end
        end
  end.

Definition replay_journal_lines (journal_path : FileName) : IO (list SessionJournalEntry * JournalReplayStats) :=
  let* present := fs_exists journal_path in
  if negb present then io_ret ([], mkReplay 0 0 0)
  else
    let* data := fs_read_bytes journal_path in
    match replay_lines (lines data) with
    | Some r => io_ret r
    | None => io_err OtherError
    end.

(** ** Loading *)

Definition schedule_checkpoint_after_corrupt_journal (journal_path : FileName) (s : Session) : IO Session :=
  let s := mark_messages_full_dirty s in
  settle (fs_copy journal_path (corrupt_backup_path journal_path)) (λ _, io_ret s).

Definition load_from_path (path : FileName) : IO Session :=
  let* d := read_json decode_snapshot path in
  let journal_path := session_journal_path_from_snapshot path in
  let* replayed := replay_journal_lines journal_path in
  let session := fold_left apply_journal_entry replayed.1 (session_of_snapshot d) in
  let* exists_ := fs_exists path in
  let session := reset_provider_messages_cache (reset_persist_state exists_ session) in
  if is_corrupt replayed.2 then schedule_checkpoint_after_corrupt_journal journal_path session else io_ret session.

Definition load (session_id : string) : IO Session := load_from_path (session_path session_id).

Definition load_startup_stub (session_id : string) : IO Session :=
  let* data := fs_read (session_path session_id) in
  match decode_stub data with
  | Some stub => io_ret (session_from_startup_stub stub)
  | None => io_err OtherError
  end.

Definition load_for_remote_startup (session_id : string) : IO Session :=
  let path := session_path session_id in
  let* data := fs_read path in
  match decode_remote data with
  | None => io_err OtherError
  | Some snapshot =>
      let* replayed := replay_journal_lines (session_journal_path_from_snapshot path) in
      let session := fold_left apply_remote_entry replayed.1 (session_from_remote_startup_snapshot snapshot) in
      let* exists_ := fs_exists path in
      io_ret (reset_provider_messages_cache (reset_persist_state exists_ session))
  end.

(** ** Saving *)

Definition append_json_line_fast (path : FileName) (value : SessionJournalEntry) : IO unit :=
  touch ;;*
  fs_open_append path ;;*
  fs_append path (encode_entry value +:+ newline).

(** The session afterwards, with the result. *)
Definition checkpoint_snapshot (pid nonce : N) (snapshot_path journal_path : FileName) (s : Session) :
    IO (Session * result unit IoError) :=
  settle (write_json_fast encode_snapshot pid nonce snapshot_path (snapshot_of_session s)) (λ r,
  match r with
  | Err e => io_ret (s, Err e)
  | Ok _ =>
      let* present := fs_exists journal_path in
      settle (io_when present (fs_remove journal_path)) (λ _, io_ret (reset_persist_state true s, Ok tt))
  end).

Definition metadata_needs_snapshot (s : Session) : bool :=
  match ps_last_meta (se_persist_state s) with
  | Some prev => metadata_requires_snapshot prev (journal_meta s)
  | None => false
  end.

Definition vectors_need_snapshot (s : Session) : bool :=
  let p := se_persist_state s in
  negb (ps_snapshot_exists p)
  || bool_decide (ps_messages_mode p = Full)
  || bool_decide (ps_env_snapshots_mode p = Full)
  || bool_decide (ps_memory_injections_mode p = Full)
  || bool_decide (ps_replay_events_mode p = Full)
  || (length (se_messages s) <? ps_messages_len p)
  || (length (se_env_snapshots s) <? ps_env_snapshots_len p)
  || (length (se_memory_injections s) <? ps_memory_injections_len p)
  || (length (se_replay_events s) <? ps_replay_events_len p).

Definition next_entry (s : Session) : SessionJournalEntry :=
  let p := se_persist_state s in
  mkEntry (journal_meta s) (drop (ps_messages_len p) (se_messages s)) (drop (ps_env_snapshots_len p) (se_env_snapshots s))
    (drop (ps_memory_injections_len p) (se_memory_injections s)) (drop (ps_replay_events_len p) (se_replay_events s)).

Definition save (now : DateTime) (pid nonce : N) (s : Session) : IO (Session * result unit IoError) :=
  let s := set_head (head_updated_at now (se_head s)) s in
  let path := session_path (h_id (se_head s)) in
  let journal_path := session_journal_path_from_snapshot path in
  if metadata_needs_snapshot s || vectors_need_snapshot s then checkpoint_snapshot pid nonce path journal_path s
  else
    settle (append_json_line_fast journal_path (next_entry s)) (λ r,
    match r with
    | Ok _ =>
        let s := reset_persist_state true s in
        let* journal_bytes_after := file_len_or_zero journal_path in
        if (MAX_SESSION_JOURNAL_BYTES <? journal_bytes_after)%N then checkpoint_snapshot pid nonce path journal_path s
        else io_ret (s, Ok tt)
    | Err _ => checkpoint_snapshot pid nonce path journal_path s
    end).
End Codec.
End Store.
