(* ===== verification/SessionFacts.v ===== *)
(** * Facts on sessions

    The changes that the methods of a session make in memory, what stays true
    of the marks of unsaved data and of the provider cache, and how a journal is
    replayed. *)

From Stdlib Require Import Ascii.
From stdpp Require Import base list strings gmap pretty relations.
From S2P Require Import Prelude RustString Mention Plan RustText Message Compaction Manager Storage StorageClaims Session SessionStore.

Open Scope string_scope.
Open Scope nat_scope.
Open Scope list_scope.

Section Edits.
Context {J : Json} {T : Chrono} (to_vec : Message → option (list N)) (debug : Message → list N).

(** ** Changes in memory *)

(** One call of a method that changes the session without storing it.  The
    metadata fields are public: [EditHead] is any assignment to them. *)
Inductive edit (s : Session) : Session → Prop :=
| EditHead h : h_id h = h_id (se_head s) → h_created_at h = h_created_at (se_head s) → edit s (set_head h s)
| EditAppend m : edit s (append_stored_message m s)
| EditInsert i m s' : insert_message i m s = Some s' → edit s s'
| EditReplace l : edit s (replace_messages l s)
| EditTruncate n : edit s (truncate_messages n s)
| EditStrip target : edit s (strip_oversized_images target s).1
| EditRemoveToolUse id : edit s (remove_tool_use_blocks id s)
| EditContext id now cwd context : edit s (ensure_initial_session_context_message id now cwd context s).1
| EditRefresh context : edit s (refresh_initial_session_context_message context s).1
| EditEnv e : edit s (record_env_snapshot e s)
| EditInjection now summary text count age ids : edit s (record_memory_injection now summary text count age ids s)
| EditDisplay now role title text : edit s (record_replay_display_message now role title text s)
| EditStatus now members : edit s (record_swarm_status_event now members s)
| EditPlan now id version items participants reason :
    edit s (record_swarm_plan_event now id version items participants reason s)
| EditProvider : edit s (provider_messages to_vec debug s).1
| EditRelease : edit s (release_provider_messages_cache s).

(** ** Vectors and their marks *)

(** Unless it is marked for a full write, [stored] is a prefix of the vector. *)
Definition vec_ok {A : Type} (mode : PersistVectorMode) (len : nat) (stored v : list A) : Prop :=
  len = length stored ∧ (mode ≠ Full → stored `prefix_of` v).

Lemma vec_ok_append {A : Type} mode len (stored v x : list A) :
  vec_ok mode len stored v → vec_ok (append_mode mode) len stored (v ++ x).
Proof using Type.
  intros [Hl Hp]. split; [done|]. unfold append_mode. case_bool_decide; [done|]. intros _. by apply prefix_app_r, Hp.
Qed.

Lemma vec_ok_full {A : Type} mode len (stored v v' : list A) : vec_ok mode len stored v → vec_ok Full len stored v'.
Proof using Type. intros [Hl _]. by split. Qed.

(** The stored vectors of a session, against what is on disk. *)
Definition vectors_ok (d : SessionSnapshot) (s : Session) : Prop :=
  let p := se_persist_state s in
  vec_ok (ps_messages_mode p) (ps_messages_len p) (sn_messages d) (se_messages s)
  ∧ vec_ok (ps_env_snapshots_mode p) (ps_env_snapshots_len p) (sn_env_snapshots d) (se_env_snapshots s)
  ∧ vec_ok (ps_memory_injections_mode p) (ps_memory_injections_len p) (sn_memory_injections d) (se_memory_injections s)
  ∧ vec_ok (ps_replay_events_mode p) (ps_replay_events_len p) (sn_replay_events d) (wire_event <$> se_replay_events s).

(** ** Image stripping and tool calls *)

Lemma strip_loop_count images target total n contents :
  n ≤ (strip_loop images target total n contents).2
  ∧ ((strip_loop images target total n contents).2 = n → (strip_loop images target total n contents).1 = contents).
Proof using Type.
  revert total n contents. induction images as [|[[ci bi] len] rest IH]; intros total n contents; cbn [strip_loop]; [done|].
  destruct (total <=? target)%N; [done|]. destruct (strip_image_at ci bi contents) as [contents'|]; [|apply IH].
  destruct (IH (total - len)%N (S n) contents') as [Hn _]. split; [lia|]. intros E. lia.
Qed.

Lemma strip_none contents target : (strip_large_images_in_contents contents target).2 = 0 →
  (strip_large_images_in_contents contents target).1 = contents.
Proof using Type.
  unfold strip_large_images_in_contents. destruct (_ <=? _)%N; [done|]. apply strip_loop_count.
Qed.

Lemma zip_same_content l : zip_with set_stored_content l (stm_content <$> l) = l.
Proof using Type. induction l as [|m l IH]; [done|]. cbn [fmap list_fmap zip_with]. f_equal; [by destruct m|exact IH]. Qed.

Lemma remove_tool_use_none id l : (remove_tool_use_in id l).2 = false → (remove_tool_use_in id l).1 = l.
Proof using Type.
  induction l as [|m l IH]; cbn [remove_tool_use_in]; [done|]. case_bool_decide; [done|].
  destruct (remove_tool_use_in id l) as [l' found]. simpl in *. intros ->. by rewrite IH.
Qed.

(** ** The provider cache *)

(** The hash of each prefix, by extending the previous one. *)
Fixpoint hash_chain (prev : option N) (l : list Message) : list N :=
  match l with
  | [] => []
  | m :: rest =>
      let h := stable_message_hash to_vec debug m in
      let acc := match prev with Some p => extend_stable_hash p h | None => h end in
      acc :: hash_chain (Some acc) rest
  end.

Definition chain_end (prev : option N) (l : list Message) : option N :=
  match last (hash_chain prev l) with Some h => Some h | None => prev end.

Definition cache_ok (s : Session) : Prop :=
  let c := se_provider_cache s in
  pc_mode c ≠ Full →
  ∃ done : list StoredMessage, done `prefix_of` se_messages s ∧ pc_len c = length done
    ∧ pc_messages c = to_message <$> done ∧ pc_prefix_hashes c = hash_chain None (to_message <$> done)
    ∧ (pc_mode c = Clean → done = se_messages s).

Lemma hash_chain_snoc prev l m :
  hash_chain prev (l ++ [m]) =
  hash_chain prev l ++ [let h := stable_message_hash to_vec debug m in
    match chain_end prev l with Some p => extend_stable_hash p h | None => h end].
Proof using Type.
  revert prev. induction l as [|x l IH]; intros prev; [done|]. cbn [app hash_chain]. rewrite IH. unfold chain_end.
  cbn [hash_chain]. rewrite last_cons. by destruct (last (hash_chain _ l)).
Qed.

Lemma chain_end_none l : chain_end None l = last (hash_chain None l).
Proof using Type. unfold chain_end. by destruct (last _). Qed.

(** Pushing messages onto a cache that holds the chain. *)
Lemma push_chain l pre c :
  pc_messages c = pre → pc_prefix_hashes c = hash_chain None pre →
  fold_left (push_provider_message_cache_entry to_vec debug) l c
  = mkCache (pre ++ l) (hash_chain None (pre ++ l)) (pc_len c) (pc_mode c).
Proof using Type.
  revert pre c. induction l as [|m l IH]; intros pre c H1 H2; cbn [fold_left].
  - rewrite app_nil_r. destruct c. simpl in *. by subst.
  - rewrite (IH (pre ++ [m])).
    + by rewrite <- app_assoc.
    + simpl. by rewrite H1.
    + cbn [push_provider_message_cache_entry pc_prefix_hashes]. rewrite hash_chain_snoc, H2, chain_end_none. done.
Qed.

Lemma provider_messages_spec s : cache_ok s →
  let s' := (provider_messages to_vec debug s).1 in
  let c := se_provider_cache s' in
  (pc_messages c = to_message <$> se_messages s ∧ pc_prefix_hashes c = hash_chain None (to_message <$> se_messages s)
   ∧ pc_len c = length (se_messages s) ∧ pc_mode c ≠ Full)
  ∧ s' = set_provider_cache c s.
Proof using Type.
  intros Hc. unfold provider_messages. simpl. set (c := se_provider_cache s) in *. split.
  2: { destruct (_ || _); [done|]. destruct (_ && _); [done|]. by destruct s. }
  destruct (bool_decide (pc_mode c = Full) || (length (se_messages s) <? pc_len c)) eqn:Eb; simpl.
  { by rewrite (push_chain _ []). }
  apply orb_false_iff in Eb as [Em El]. apply bool_decide_eq_false in Em.
  destruct (Hc Em) as (don & [rest Hpre] & Hlen & Hms & Hhs & Hclean). fold c in Hlen, Hms, Hhs, Hclean.
  destruct (bool_decide (pc_mode c = Append) && (pc_len c <? length (se_messages s))) eqn:Ea; simpl.
  - rewrite (push_chain _ (to_message <$> don)) by done. simpl.
    rewrite Hlen, Hpre, drop_app_length, <- fmap_app. done.
  - fold c. assert (don = se_messages s) as <-; [|done].
    destruct (pc_mode c) eqn:E; [by apply Hclean| |done]. rewrite bool_decide_true in Ea by done. simpl in Ea.
    apply Nat.ltb_ge in Ea. rewrite Hpre, length_app in Ea. destruct rest; [by rewrite app_nil_r in Hpre|simpl in Ea; lia].
Qed.

(** ** Every change keeps the invariants *)

(** How one change relates the sessions: messages are appended, kept, or
    marked for a full write, and so on for the other vectors. *)
Lemma cache_append s m : cache_ok s → cache_ok (append_stored_message m s).
Proof using Type.
  intros Hc Hm. simpl in *. unfold append_mode in *. case_bool_decide; [done|].
  destruct (Hc H) as (don & Hp & Hl & H1 & H2 & _). exists don. split_and!; try done. by apply prefix_app_r.
Qed.

Lemma cache_full s l : cache_ok (mark_messages_full_dirty (set_messages l s)).
Proof using Type. by intros Hm. Qed.

Lemma vectors_append d s m : vectors_ok d s → vectors_ok d (append_stored_message m s).
Proof using Type. intros (H1 & H2 & H3 & H4). split_and!; [by apply vec_ok_append|done..]. Qed.

Lemma vectors_full d s l : vectors_ok d s → vectors_ok d (mark_messages_full_dirty (set_messages l s)).
Proof using Type. intros (H1 & H2 & H3 & H4). split_and!; [by eapply vec_ok_full|done..]. Qed.

Lemma vectors_event d s now kind : vectors_ok d s → vectors_ok d (push_replay_event now kind s).
Proof using Type.
  intros (H1 & H2 & H3 & H4). split_and!; [done..|]. cbn [push_replay_event mark_replay_events_append_dirty]. simpl.
  rewrite fmap_app. by apply vec_ok_append.
Qed.

(** The fields no change touches. *)
Definition same_file (s s' : Session) : Prop :=
  h_id (se_head s') = h_id (se_head s) ∧ h_created_at (se_head s') = h_created_at (se_head s)
  ∧ ps_snapshot_exists (se_persist_state s') = ps_snapshot_exists (se_persist_state s)
  ∧ ps_last_meta (se_persist_state s') = ps_last_meta (se_persist_state s).

Lemma same_file_refl s : same_file s s.
Proof using Type. done. Qed.

Hint Resolve same_file_refl cache_append cache_full vectors_append vectors_full vectors_event : core.

Definition kept (s s' : Session) : Prop :=
  same_file s s' ∧ (cache_ok s → cache_ok s') ∧ ∀ d, vectors_ok d s → vectors_ok d s'.

Lemma kept_refl s : kept s s.
Proof using Type. split_and!; auto. Qed.
Lemma kept_full s l : kept s (mark_messages_full_dirty (set_messages l s)).
Proof using Type. split_and!; auto. done. Qed.
Lemma kept_append s m : kept s (append_stored_message m s).
Proof using Type. split_and!; auto. done. Qed.
Lemma kept_event s now kind : kept s (push_replay_event now kind s).
Proof using Type. split_and!; auto. done. Qed.
Lemma set_messages_id s : set_messages (se_messages s) s = s.
Proof using Type. by destruct s. Qed.

Hint Resolve kept_refl kept_full kept_append kept_event : core.

Lemma edit_kept s s' : edit s s' → kept s s'.
Proof using Type.
  intros [h H1 H2|m|i m s'' H|l|n|target|id|id nowc cwd context|context|e|now summary text count age ids|now role title text
         |now members|now id version items participants reason| |]; auto.
  - split_and!; done.
  - unfold insert_message in H. destruct (_ <? _); [done|]. simplify_eq. auto.
  - apply kept_full.
  - unfold truncate_messages. destruct (_ <? _); auto.
  - unfold strip_oversized_images. pose proof (strip_none (stm_content <$> se_messages s) target) as H.
    destruct (strip_large_images_in_contents _ target) as [contents [|n]]; simpl in *; [|auto].
    rewrite H, zip_same_content, set_messages_id by done. auto.
  - unfold remove_tool_use_blocks. pose proof (remove_tool_use_none id (se_messages s)) as H.
    destruct (remove_tool_use_in id (se_messages s)) as [l []]; simpl in *; [auto|]. rewrite H, set_messages_id by done. auto.
  - unfold ensure_initial_session_context_message. destruct (_ || _); [auto|]. simpl.
    destruct (h_working_dir (se_head s)); [apply kept_append|].
    destruct (kept_append (set_head (head_working_dir cwd (se_head s)) s) (mkStoredMessage id User
      [Text (wrapped_context (context cwd)) None] (Some DisplaySystem) (Some nowc) None None)) as (H1 & H2 & H3).
    split; [exact H1|split; [exact H2|exact H3]].
  - unfold refresh_initial_session_context_message. destruct (existsb _ _); [apply kept_refl|].
    destruct (refresh_context_messages _ _); [apply kept_full|apply kept_refl].
  - split_and!; [unfold record_env_snapshot; by destruct (_ <? _)|unfold record_env_snapshot; by destruct (_ <? _)|].
    intros d (H1 & H2 & H3 & H4). unfold record_env_snapshot. destruct (_ <? _); split_and!; try done.
    + by eapply vec_ok_full.
    + by apply vec_ok_append.
  - split_and!; [done|done|]. intros d (H1 & H2 & H3 & H4). split_and!; try done. by apply vec_ok_append.
  - apply kept_event.
  - unfold record_swarm_status_event. destruct (last_kind_is _ _); auto.
  - unfold record_swarm_plan_event. cbn zeta. destruct (last_kind_is _ _); auto.
  - assert ((provider_messages to_vec debug s).1 = set_provider_cache (se_provider_cache (provider_messages to_vec debug s).1) s) as E.
    { unfold provider_messages. simpl. destruct (_ || _); [done|]. destruct (_ && _); [done|]. by destruct s. }
    split_and!.
    + rewrite E. done.
    + intros Hc. destruct (provider_messages_spec s Hc) as [(H1 & H2 & H3 & H4) H5]. intros _. rewrite H5. simpl.
      by exists (se_messages s).
    + intros d Hd. rewrite E. exact Hd.
  - split_and!; try done. by intros _ ?.
Qed.
End Edits.

(** ** The journal of a session

    The laws asked of the JSON codec, what replaying a complete or a torn
    journal gives, and what loading reads. *)

(** ** Text *)

Lemma str_take_append_le n a b : n ≤ String.length a → str_take n (a +:+ b) = str_take n a.
Proof.
  revert n. induction a as [|c a IH]; intros [|n] H; simpl in *; [by destruct b|lia|done|]. f_equal. apply IH. lia.
Qed.

Lemma str_take_append_ge n a b : String.length a ≤ n → str_take n (a +:+ b) = a +:+ str_take (n - String.length a) b.
Proof.
  revert n. induction a as [|c a IH]; intros n H; [by rewrite Nat.sub_0_r|]. destruct n as [|n]; simpl in H; [lia|].
  change (String c a +:+ b) with (String c (a +:+ b)). cbn [str_take]. by rewrite IH by lia.
Qed.

Lemma str_take_take n m s : n ≤ m → str_take n (str_take m s) = str_take n s.
Proof. revert n m. induction s as [|c s IH]; intros [|n] [|m] H; simpl; try done; [lia|]. f_equal. apply IH. lia. Qed.

Lemma append_take a b : str_take (String.length a) (a +:+ b) = a.
Proof. induction a; simpl; [by destruct b|congruence]. Qed.

(** A prefix of a text is one of its cuts. *)
Lemma prefix_take s a b : s = a +:+ b → a = str_take (String.length a) s.
Proof. intros ->. by rewrite append_take. Qed.

Lemma any_byte_take p n s : any_byte p s = false → any_byte p (str_take n s) = false.
Proof.
  revert n. induction s as [|c s IH]; intros [|n] H; simpl in *; [done..|]. apply orb_false_iff in H as [-> H]. by apply IH.
Qed.

Lemma str_find_start pat s : str_find pat (pat +:+ s) = Some 0.
Proof.
  assert (starts_with pat (pat +:+ s) = true) as Hs by (apply starts_with_spec; eauto).
  destruct (pat +:+ s); cbn [str_find]; by rewrite Hs.
Qed.

Lemma str_find_None_append pat a b : str_find pat (a +:+ b) = None → str_find pat a = None.
Proof.
  intros H. destruct (str_find pat a) as [n|] eqn:E; [|done]. exfalso. destruct (str_find_Some _ _ _ E) as (post & Ha & _).
  rewrite Ha in H. clear E Ha. revert H. generalize (str_take n a) as pre. intros pre. rewrite !append_assoc_s.
  induction pre as [|c pre IH].
  - change ("" +:+ pat +:+ post +:+ b) with (pat +:+ (post +:+ b)). by rewrite str_find_start.
  - change (String c pre +:+ pat +:+ post +:+ b) with (String c (pre +:+ pat +:+ post +:+ b)). cbn [str_find].
    destruct (starts_with _ _); [done|]. intros H. apply IH. by destruct (str_find pat (pre +:+ pat +:+ post +:+ b)).
Qed.

Lemma lines_from_tail cur tail : any_byte is_lf tail = false → lines_from cur tail = lines_from (cur +:+ tail) "".
Proof.
  revert cur. induction tail as [|c tail IH]; intros cur H; [by rewrite append_nil_r_s|]. simpl in H.
  apply orb_false_iff in H as [Hc H]. cbn [lines_from]. unfold is_lf in Hc. rewrite Hc, IH by done.
  f_equal. by rewrite append_assoc_s.
Qed.

(** Complete lines and a last one without a line feed. *)
Lemma lines_of_torn_text ls tail :
  forallb line_ok ls = true → any_byte is_lf tail = false → tail ≠ "" →
  lines (str_concat (map (λ l, l +:+ newline) ls) +:+ tail) = ls ++ [tail].
Proof.
  intros Hls Ht Hne. unfold lines. induction ls as [|l ls IH].
  - simpl. rewrite lines_from_tail by done. simpl. by rewrite bool_decide_false.
  - simpl in Hls. apply andb_true_iff in Hls as [Hl Hls]. unfold line_ok in Hl. apply andb_true_iff in Hl as [Hn Hc].
    apply negb_true_iff in Hn. apply bool_decide_eq_true in Hc.
    change (str_concat (map (λ l, l +:+ newline) (l :: ls)))
      with ((l +:+ newline) +:+ str_concat (map (λ l, l +:+ newline) ls)).
    rewrite !append_assoc_s, lines_from_line by done. change ("" +:+ l) with l. rewrite Hc. cbn [app]. by rewrite IH.
Qed.

(** What is left of a text that is cut is a cut again. *)
Lemma trim_open x : starts_char x = true → ∃ k, 0 < k ∧ trim ("{" +:+ x) = str_take k ("{" +:+ x).
Proof.
  intros Hx. change ("{" +:+ x) with (String "{"%char x). rewrite trim_start_solid by done.
  unfold trim_end, trim_end_matches. rewrite chars_cons_start by done.
  destruct (drop_while_end_prefix is_whitespace (String "{"%char "" :: chars x)) as (d & Hd & Hw).
  destruct (drop_while_end is_whitespace (String "{"%char "" :: chars x)) as [|y l] eqn:E.
  { destruct d as [|y d]; [done|]. simpl in Hd. injection Hd as <- _. done. }
  injection Hd as <- Hd. exists (String.length (str_concat (String "{"%char "" :: l))). split; [simpl; lia|].
  apply (prefix_take _ _ (str_concat d)). rewrite <- str_concat_app. cbn [app].
  rewrite <- Hd. change (str_concat (String "{"%char "" :: chars x)) with (String "{"%char (str_concat (chars x))).
  by rewrite str_concat_chars.
Qed.

Section Journal.
Context {J : Json} {T : Chrono}.
Context (encode_snapshot : SessionSnapshot → string) (decode_snapshot : string → option SessionSnapshot)
  (decode_stub : string → option SessionHead) (decode_remote : string → option RemoteSnapshot)
  (encode_entry : SessionJournalEntry → string) (parse_entry : string → option (SessionJournalEntry * string)).

(** [serde_json]: what is written is read back, apart from the fields that are
    not written; the text of a snapshot can also be read as one of the two
    shorter types.  An entry is one line of text in braces that starts with its
    field "meta"; the parser reads it off the front of a longer text and rejects
    what is cut. *)
Class CodecLaws : Prop := {
  snapshot_roundtrip : ∀ d, decode_snapshot (encode_snapshot d) = Some (wire_snapshot d);
  snapshot_utf8 : ∀ d, utf8 (encode_snapshot d) = true;
  snapshot_stub : ∀ d, decode_stub (encode_snapshot d) = Some (sn_head d);
  snapshot_remote : ∀ d, decode_remote (encode_snapshot d) = Some (mkRemote (sn_head d) (sn_messages d));
  entry_roundtrip : ∀ e rest, parse_entry (encode_entry e +:+ rest) = Some (wire_entry e, rest);
  entry_cut : ∀ e n, n < String.length (encode_entry e) → parse_entry (str_take n (encode_entry e)) = None;
  entry_utf8 : ∀ e, utf8 (encode_entry e) = true;
  entry_one_line : ∀ e, any_byte is_lf (encode_entry e) = false;
  entry_shape : ∀ e, ∃ body, encode_entry e = ENTRY_START +:+ body +:+ "}";
}.

Context {laws : CodecLaws}.

(** ** Entries *)

Lemma entry_braces e : ∃ x, encode_entry e = "{" +:+ x +:+ "}" ∧ starts_char x = true.
Proof using laws.
  destruct (entry_shape e) as [body ->]. exists (str_drop 1 ENTRY_START +:+ body). split; [|done].
  unfold ENTRY_START. by rewrite !append_assoc_s.
Qed.

Lemma entry_trim e : trim (encode_entry e) = encode_entry e.
Proof using laws. destruct (entry_braces e) as (x & -> & Hx). by apply trim_braced. Qed.

Lemma entry_not_empty e : str_is_empty (encode_entry e) = false.
Proof using laws. destruct (entry_braces e) as (x & -> & _). done. Qed.

Lemma entry_parses e : entry_from_str parse_entry (encode_entry e) = Some (wire_entry e).
Proof using laws.
  unfold entry_from_str. rewrite <- (append_nil_r_s (encode_entry e)), entry_roundtrip. done.
Qed.

Lemma strip_cr_braced x : strip_cr (x +:+ "}") = x +:+ "}".
Proof using Type.
  unfold strip_cr. assert (last_byte (x +:+ "}") = Some "}"%char) as ->; [|done].
  induction x as [|c x IH]; [done|]. change (String c x +:+ "}") with (String c (x +:+ "}")). cbn [last_byte].
  rewrite IH. by destruct x.
Qed.

Lemma entry_line_ok e : line_ok (encode_entry e) = true.
Proof using laws.
  unfold line_ok. rewrite entry_one_line. destruct (entry_braces e) as (x & -> & _).
  apply bool_decide_eq_true. change ("{" +:+ x +:+ "}") with (("{" +:+ x) +:+ "}"). apply strip_cr_braced.
Qed.

Lemma entries_line_ok es : forallb line_ok (encode_entry <$> es) = true.
Proof using laws. induction es as [|e es IH]; [done|]. cbn [fmap list_fmap forallb]. by rewrite entry_line_ok, IH. Qed.

(** ** Replaying *)

Notation replay := (replay_lines parse_entry).

(** A line in front of others. *)
Lemma replay_entry e ls es st : replay ls = Some (es, st) →
  replay (encode_entry e :: ls) =
  Some (wire_entry e :: es, mkReplay (S (jr_entries st)) (jr_skipped_lines st) (jr_salvaged_entries st)).
Proof using laws.
  intros H. cbn [replay_lines]. by rewrite entry_utf8, H, entry_trim, entry_not_empty, entry_parses.
Qed.

Lemma replay_entries es ls es' st : replay ls = Some (es', st) →
  replay ((encode_entry <$> es) ++ ls) =
  Some ((wire_entry <$> es) ++ es', mkReplay (length es + jr_entries st) (jr_skipped_lines st) (jr_salvaged_entries st)).
Proof using laws.
  intros H. induction es as [|e es IH]; [by destruct st|]. cbn [fmap list_fmap app length Nat.add]. by rewrite (replay_entry e _ _ _ IH).
Qed.

(** An entry whose cuts are text and whose text does not look as if an entry
    started inside it. *)
Definition plain_entry (e : SessionJournalEntry) : Prop :=
  (∀ n, utf8 (str_take n (encode_entry e)) = true)
  ∧ str_find ENTRY_START (str_drop (String.length ENTRY_START) (encode_entry e)) = None.

Lemma stream_cut e k fuel : k < String.length (encode_entry e) → stream_entries parse_entry fuel (str_take k (encode_entry e)) = [].
Proof using laws. intros Hk. destruct fuel; simpl; [done|]. destruct (str_is_empty _); [done|]. by rewrite entry_cut. Qed.

Lemma find_start_cut e k : plain_entry e →
  match str_find ENTRY_START (str_take k (encode_entry e)) with
  | None => True
  | Some rel => rel = 0 ∧ str_find ENTRY_START (str_drop (String.length ENTRY_START) (str_take k (encode_entry e))) = None
  end.
Proof using laws.
  intros [_ Hp]. destruct (entry_shape e) as [body E]. rewrite E in *. rewrite str_drop_append in Hp.
  destruct (decide (k < String.length ENTRY_START)) as [Hk|Hk].
  - rewrite str_take_append_le by lia. destruct (str_find ENTRY_START (str_take k ENTRY_START)) as [rel|] eqn:Ef; [|done].
    apply str_find_Some in Ef as (post & Ef & _). apply (f_equal String.length) in Ef. rewrite !length_append_s in Ef.
    pose proof (length_str_take_le k ENTRY_START). lia.
  - assert (str_take k (ENTRY_START +:+ body +:+ "}") = ENTRY_START +:+ str_take (k - String.length ENTRY_START) (body +:+ "}")) as ->.
    { apply str_take_append_ge. lia. }
    set (rest := str_take _ _).
    assert (str_find ENTRY_START (ENTRY_START +:+ rest) = Some 0) as ->.
    { apply str_find_start. }
    split; [done|]. rewrite str_drop_append. apply (str_find_None_append _ _ (str_drop (k - String.length ENTRY_START) (body +:+ "}"))).
    unfold rest. by rewrite str_take_drop_s.
Qed.

Lemma salvage_cut e k : plain_entry e → k < String.length (encode_entry e) →
  salvage_glued_journal_entries parse_entry (str_take k (encode_entry e)) = [].
Proof using laws.
  intros Hp Hk. unfold salvage_glued_journal_entries. generalize (S (String.length (str_take k (encode_entry e)))) as fuel.
  intros [|fuel]; [done|]. cbn [salvage_from]. pose proof (find_start_cut e k Hp) as H.
  destruct (str_find ENTRY_START _) as [rel|]; [|done]. destruct H as [-> H]. cbn [str_drop].
  rewrite stream_cut by done. destruct fuel; [done|]. cbn [salvage_from]. by rewrite H.
Qed.

Lemma replay_cut e n : plain_entry e → 0 < n < String.length (encode_entry e) →
  replay [str_take n (encode_entry e)] = Some ([], mkReplay 0 1 0).
Proof using laws.
  intros Hp [Hn Hl]. cbn [replay_lines]. rewrite (proj1 Hp n). cbn [negb].
  destruct (entry_braces e) as (x & E & Hx).
  assert (∃ k, 0 < k ∧ k ≤ n ∧ trim (str_take n (encode_entry e)) = str_take k (encode_entry e)) as (k & Hk & Hkn & ->).
  { destruct n as [|n]; [lia|]. rewrite E. change (str_take (S n) ("{" +:+ x +:+ "}")) with ("{" +:+ str_take n (x +:+ "}")).
    destruct (trim_open (str_take n (x +:+ "}"))) as (k & Hk & ->); [by destruct n, x|].
    change ("{" +:+ str_take n (x +:+ "}")) with (str_take (S n) ("{" +:+ x +:+ "}")).
    exists (k `min` S n). split_and!; [lia|lia|]. destruct (decide (k ≤ S n)).
    - rewrite str_take_take by done. f_equal. lia.
    - rewrite str_take_all; [f_equal; lia|]. pose proof (length_str_take_le (S n) ("{" +:+ x +:+ "}")). lia. }
  assert (str_is_empty (str_take k (encode_entry e)) = false) as -> by (rewrite E; by destruct k; [lia|]).
  unfold entry_from_str. rewrite entry_cut by lia. by rewrite salvage_cut by (done || lia).
Qed.

(** ** Journals *)

Definition journal_text (es : list SessionJournalEntry) : string := str_concat (map (λ l, l +:+ newline) (encode_entry <$> es)).

Lemma journal_text_snoc es e : journal_text es +:+ (encode_entry e +:+ newline) = journal_text (es ++ [e]).
Proof using Type.
  unfold journal_text. rewrite fmap_app, map_app, str_concat_app. cbn [fmap list_fmap map]. unfold str_concat at 3.
  simpl. by rewrite append_nil_r_s.
Qed.

Lemma replay_journal es : replay (lines (journal_text es)) = Some (wire_entry <$> es, mkReplay (length es) 0 0).
Proof using laws.
  unfold journal_text. rewrite lines_of_text by apply entries_line_ok.
  pose proof (replay_entries es [] [] (mkReplay 0 0 0) eq_refl) as H. by rewrite !app_nil_r, Nat.add_0_r in H.
Qed.

(** A journal whose last line was cut: the entry counts when only the line feed
    is missing. *)
Lemma replay_torn_journal es e n : plain_entry e → 0 < n ≤ String.length (encode_entry e) →
  ∃ st, replay (lines (journal_text es +:+ str_take n (encode_entry e)))
        = Some (wire_entry <$> (es ++ if n =? String.length (encode_entry e) then [e] else []), st).
Proof using laws.
  intros Hp [Hn Hl]. unfold journal_text. rewrite lines_of_torn_text.
  2: apply entries_line_ok. 2: apply any_byte_take, entry_one_line.
  2: { destruct (entry_braces e) as (x & -> & _). by destruct n; [lia|]. }
  destruct (Nat.eqb_spec n (String.length (encode_entry e))) as [->|Hne].
  - rewrite str_take_all by done. change [encode_entry e] with (encode_entry <$> [e]). rewrite <- fmap_app.
    pose proof (replay_entries (es ++ [e]) [] [] (mkReplay 0 0 0) eq_refl) as H. rewrite !app_nil_r in H. eauto.
  - erewrite replay_entries; [|apply replay_cut; [done|lia]]. rewrite !app_nil_r. eauto.
Qed.
End Journal.

(** ** Sessions on disk

    What the files of a session hold, what loading makes of them, and what a
    save leaves behind when it completes and when it is interrupted. *)

(** ** Names *)

Definition journal_of (id : string) : FileName := session_journal_path_from_snapshot (session_path id).

Lemma session_path_bak id : session_path id ≠ with_extension (session_path id) "bak".
Proof. done. Qed.

Lemma journal_ne_path id : journal_of id ≠ session_path id.
Proof. done. Qed.

Lemma journal_ne_bak id : journal_of id ≠ with_extension (session_path id) "bak".
Proof. done. Qed.

Lemma journal_ne_tmp id pid nonce : journal_of id ≠ tmp_path pid nonce (session_path id).
Proof. intros E. apply (f_equal fst) in E. by apply append_inj_l_s in E. Qed.

Lemma corrupt_ne id : corrupt_backup_path (journal_of id) ≠ session_path id.
Proof. done. Qed.

Section Disk.
Context {J : Json} {T : Chrono}.
Context (encode_snapshot : SessionSnapshot → string) (decode_snapshot : string → option SessionSnapshot)
  (decode_stub : string → option SessionHead) (decode_remote : string → option RemoteSnapshot)
  (encode_entry : SessionJournalEntry → string) (parse_entry : string → option (SessionJournalEntry * string)).
Context {laws : CodecLaws encode_snapshot decode_snapshot decode_stub decode_remote encode_entry parse_entry}.

Notation journal_text := (journal_text encode_entry).
Notation save := (save encode_snapshot encode_entry).
Notation load := (load decode_snapshot parse_entry).
Notation checkpoint := (checkpoint_snapshot encode_snapshot).

(** ** What is stored *)

(** A snapshot with journal entries applied to it. *)
Definition replayed (d : SessionSnapshot) (es : list SessionJournalEntry) : SessionSnapshot :=
  snapshot_of_session (fold_left apply_journal_entry es (session_of_snapshot d)).

(** The files hold the snapshot [d] and a complete journal of [es]. *)
Definition holds (f : Files) (id : string) (d : SessionSnapshot) (es : list SessionJournalEntry) : Prop :=
  f !! session_path id = Some (encode_snapshot d)
  ∧ match f !! journal_of id with Some text => text = journal_text es | None => es = [] end.

(** What is read of them. *)
Definition shown (d : SessionSnapshot) (es : list SessionJournalEntry) : SessionSnapshot :=
  replayed (wire_snapshot d) (wire_entry <$> es).

#[local] Arguments replayed : simpl never.
#[local] Arguments shown : simpl never.

Definition fresh_session (c : SessionSnapshot) : Session :=
  reset_provider_messages_cache (reset_persist_state true (session_of_snapshot c)).

Lemma fold_apply es s :
  let s' := fold_left apply_journal_entry es s in
  se_persist_state s' = se_persist_state s ∧ se_provider_cache s' = se_provider_cache s.
Proof using Type.
  revert s. induction es as [|e es IH]; intros s; [done|]. cbn [fold_left]. destruct (IH (apply_journal_entry s e)) as [-> ->].
  done.
Qed.

Lemma fold_replayed d es : fold_left apply_journal_entry es (session_of_snapshot d) = session_of_snapshot (replayed d es).
Proof using Type.
  unfold replayed. destruct (fold_apply es (session_of_snapshot d)) as [Hp Hc].
  destruct (fold_left apply_journal_entry es (session_of_snapshot d)) as [h a b c0 e p pc]. simpl in *. by subst.
Qed.

(** ** Loading *)

(** Readable files: a decodable snapshot and a journal of text lines. *)
Definition reads (f : Files) (id : string) (c : SessionSnapshot) : Prop :=
  ∃ text d es, f !! session_path id = Some text ∧ utf8 text = true ∧ decode_snapshot text = Some d
  ∧ (match f !! journal_of id with
     | Some j => ∃ st, replay_lines parse_entry (lines j) = Some (es, st)
     | None => es = []
     end)
  ∧ c = replayed d es.

Lemma load_reads f id c : reads f id c →
  ∃ s d, load id (mkDisk f []) = Finished (Ok s) d ∧ snapshot_of_session s = c.
Proof using Type.
  intros (text & d & es & Hp & Hu & Hd & Hj & ->). unfold SessionStore.load, load_from_path, io_bind at 1, read_json.
  unfold settle at 1, io_bind at 1, settle at 1. unfold fs_read, atomic, call. simpl. rewrite Hp, Hu. simpl. rewrite Hd. simpl.
  unfold io_bind at 1, settle at 1, replay_journal_lines, io_bind at 1, settle at 1. simpl. fold (journal_of id).
  destruct (f !! journal_of id) as [j|] eqn:Ej.
  - destruct Hj as [st Hj]. rewrite bool_decide_true by done. simpl. unfold io_bind at 1, settle at 1.
    unfold fs_read_bytes, atomic, call. simpl. rewrite Ej. simpl. rewrite Hj. simpl.
    unfold io_bind at 1, settle at 1. simpl. rewrite fold_replayed, Hp, bool_decide_true by done.
    destruct (is_corrupt st); [|by eexists _, _].
    unfold schedule_checkpoint_after_corrupt_journal, settle, fs_copy. simpl. fold (journal_of id). rewrite Ej. simpl.
    by eexists _, _.
  - subst es. rewrite bool_decide_false by (by intros []). simpl. unfold io_bind at 1, settle at 1. simpl.
    rewrite Hp, bool_decide_true by done. by eexists _, _.
Qed.

Lemma holds_reads f id d es : holds f id d es → reads f id (shown d es).
Proof using laws.
  intros [Hp Hj]. exists (encode_snapshot d), (wire_snapshot d), (wire_entry <$> es).
  split_and!; [done|apply laws|apply laws| |done]. destruct (f !! journal_of id) as [j|].
  - subst. eexists. by eapply replay_journal.
  - by subst.
Qed.

Lemma load_holds f id d es : holds f id d es → load id (mkDisk f []) = Finished (Ok (fresh_session (shown d es))) (mkDisk f []).
Proof using laws.
  intros [Hp Hj]. unfold SessionStore.load, load_from_path, io_bind at 1, read_json.
  unfold settle at 1, io_bind at 1, settle at 1. unfold fs_read, atomic, call. simpl.
  rewrite Hp, (snapshot_utf8 _ _ _ _ _ _ d). simpl. rewrite (snapshot_roundtrip _ _ _ _ _ _ d). simpl.
  unfold io_bind at 1, settle at 1, replay_journal_lines, io_bind at 1, settle at 1. simpl. fold (journal_of id).
  destruct (f !! journal_of id) as [j|] eqn:Ej.
  - rewrite bool_decide_true by done. simpl. unfold io_bind at 1, settle at 1. unfold fs_read_bytes, atomic, call. simpl.
    rewrite Ej. simpl. subst j. rewrite (replay_journal _ _ _ _ _ _ es). simpl.
    unfold io_bind at 1, settle at 1. simpl. by rewrite fold_replayed, Hp, bool_decide_true by done.
  - subst es. rewrite bool_decide_false by (by intros []). simpl. unfold io_bind at 1, settle at 1. simpl.
    by rewrite Hp, bool_decide_true by done.
Qed.

(** ** Agreement with memory *)

(** The stored form of a session, up to [route_api_method], which the journal
    does not carry. *)
Definition same_content (c : SessionSnapshot) (s : Session) : Prop :=
  sn_messages c = se_messages s ∧ sn_env_snapshots c = se_env_snapshots s
  ∧ sn_memory_injections c = se_memory_injections s ∧ sn_replay_events c = wire_event <$> se_replay_events s
  ∧ journal_meta (session_of_snapshot c) = journal_meta s
  ∧ h_id (sn_head c) = h_id (se_head s) ∧ h_created_at (sn_head c) = h_created_at (se_head s).

Definition sync (s : Session) (f : Files) : Prop :=
  let id := h_id (se_head s) in
  let p := se_persist_state s in
  if ps_snapshot_exists p then
    ∃ d es, holds f id d es ∧ vectors_ok (shown d es) s
    ∧ ps_last_meta p = Some (journal_meta (session_of_snapshot (shown d es)))
    ∧ h_id (sn_head (shown d es)) = id ∧ h_created_at (sn_head (shown d es)) = h_created_at (se_head s)
  else f !! session_path id = None.

Lemma same_content_sync s f d es :
  holds f (h_id (se_head s)) d es → same_content (shown d es) s → sync (reset_persist_state true s) f.
Proof using Type.
  intros Hh (H1 & H2 & H3 & H4 & H5 & H6 & H7). exists d, es. split; [done|].
  set (c := shown d es) in *. clearbody c. split_and!; [| |done|done].
  - unfold vectors_ok, vec_ok. simpl. rewrite H1, H2, H3, H4, length_fmap. done.
  - simpl. by rewrite H5.
Qed.

Lemma wire_event_idemp e : wire_event (wire_event e) = wire_event e.
Proof using Type.
  destruct e as [ts [| |]]; [done| |done]. unfold wire_event. simpl. do 2 f_equal. rewrite <- list_fmap_compose.
  apply list_fmap_ext. intros _ m _. unfold compose, wire_member. simpl. f_equal. rewrite <- list_fmap_compose.
  apply list_fmap_ext. intros _ t _. unfold compose, wire_todo. simpl. f_equal. rewrite <- list_fmap_compose. done.
Qed.

Lemma wire_events_idemp (l : list StoredReplayEvent) : wire_event <$> (wire_event <$> l) = wire_event <$> l.
Proof using Type. rewrite <- list_fmap_compose. apply list_fmap_ext. intros _ e _. apply wire_event_idemp. Qed.

(** A loaded session. *)
Lemma fresh_sync f id d es : holds f id d es → h_id (sn_head (shown d es)) = id →
  (∃ l : list StoredReplayEvent, sn_replay_events (shown d es) = wire_event <$> l) → sync (fresh_session (shown d es)) f.
Proof using Type.
  intros Hh <- [l Hl]. exists d, es. split; [exact Hh|]. set (c := shown d es) in *. clearbody c. split_and!; try done.
  unfold vectors_ok, vec_ok. simpl. split_and!; try done. rewrite Hl, wire_events_idemp. done.
Qed.

Lemma replayed_app d es es' : replayed d (es ++ es') = replayed (replayed d es) es'.
Proof using Type. unfold replayed at 1 2. by rewrite fold_left_app, fold_replayed. Qed.

Lemma shown_snoc d es e : shown d (es ++ [e]) = replayed (shown d es) [wire_entry e].
Proof using Type. unfold shown. by rewrite fmap_app, replayed_app. Qed.

Lemma shown_wired d es : ∃ l : list StoredReplayEvent, sn_replay_events (shown d es) = wire_event <$> l.
Proof using Type.
  induction es as [|e es (l & IH)] using rev_ind; [by eexists|]. rewrite shown_snoc.
  change (sn_replay_events (replayed (shown d es) [wire_entry e]))
    with (sn_replay_events (shown d es) ++ (wire_event <$> je_append_replay_events e)).
  rewrite IH, <- fmap_app. by eexists.
Qed.

(** The entry that a save appends completes what is stored. *)
Lemma next_entry_completes c s :
  vectors_ok c s → vectors_need_snapshot s = false →
  h_id (sn_head c) = h_id (se_head s) → h_created_at (sn_head c) = h_created_at (se_head s) →
  same_content (replayed c [wire_entry (next_entry s)]) s
  ∧ h_route_api_method (sn_head (replayed c [wire_entry (next_entry s)])) = h_route_api_method (sn_head c).
Proof using Type.
  intros (V1 & V2 & V3 & V4) Hn Hid Hcr. unfold vectors_need_snapshot in Hn. rewrite !orb_false_iff, !bool_decide_eq_false in Hn.
  destruct Hn as (((((((( _ & M1) & M2) & M3) & M4) & _) & _) & _) & _).
  destruct V1 as [L1 V1], V2 as [L2 V2], V3 as [L3 V3], V4 as [L4 V4].
  destruct (V1 M1) as [r1 E1], (V2 M2) as [r2 E2], (V3 M3) as [r3 E3], (V4 M4) as [r4 E4].
  split; [|done]. unfold same_content, replayed, next_entry. simpl. rewrite L1, L2, L3, L4. split_and!; try done.
  - by rewrite E1, drop_app_length.
  - by rewrite E2, drop_app_length.
  - by rewrite E3, drop_app_length.
  - by rewrite fmap_drop, E4, drop_app_length.
Qed.

Lemma snapshot_same s : same_content (shown (snapshot_of_session s) []) s.
Proof using Type. done. Qed.

(** ** Interrupted saves *)

Lemma triple_each {errs : bool} {A : Type} (P : Files → Prop) (m : IO A) (Q : result A IoError → Files → Prop) (C : Files → Prop) :
  (∀ f1, P f1 → triple errs (λ f, f = f1) m Q C) → triple errs P m Q C.
Proof using Type. intros H d Ho Hd. exact (H _ Hd d Ho eq_refl). Qed.

Section Save.
Context (id : string) (s : Session).
Let path := session_path id.
Let jp := journal_of id.
Let enc := encode_snapshot (snapshot_of_session s).

(** What a checkpoint can leave: nothing changed, or the new snapshot with the
    journal still there or gone. *)
Definition checkpoint_left (f0 f : Files) : Prop :=
  f !! path = f0 !! path ∧ f !! jp = f0 !! jp
  ∨ f !! path = Some enc ∧ (f !! jp = f0 !! jp ∨ f !! jp = None).

Lemma checkpoint_triple {errs : bool} pid nonce (f0 : Files) :
  triple errs (λ f, f = f0) (checkpoint pid nonce path jp s) (λ _, checkpoint_left f0) (checkpoint_left f0).
Proof using Type.
  assert (∀ f n, n ≠ tmp_path pid nonce path → n ≠ path → n ≠ with_extension path "bak" →
    either_version (tmp_path pid nonce path) path enc f0 f → f !! n = f0 !! n) as Hframe.
  { intros f n H1 H2 H3 [[[_ Hf] _]|[[_ Hf] _]]; by apply Hf. }
  assert (∀ f, either_version (tmp_path pid nonce path) path enc f0 f → checkpoint_left f0 f) as Hleft.
  { intros f Hf. pose proof (Hframe f jp (journal_ne_tmp id pid nonce) (journal_ne_path id) (journal_ne_bak id) Hf) as Hj.
    destruct Hf as [[_ Hp]|[_ [Hp _]]]; [by left|]. right. by split; [|left]. }
  unfold checkpoint_snapshot. eapply triple_settle.
  { eapply triple_conseq; [apply (write_triple pid nonce path enc (session_path_bak id) f0 false false)|done|done|].
    exact Hleft. }
  intros [[]|e]; [|by apply triple_ret; intros f Hf; apply Hleft; left].
  apply (triple_bind _ _ (λ _ f, checkpoint_left f0 f ∧ f !! path = Some enc)).
  { intros d Ho Hd. split; [done|]. split; [apply Hleft; by right|apply Hd]. }
  2: { by intros e f []. }
  intros present. apply (triple_settle _ _ (λ _, checkpoint_left f0)); [|intros r; by apply triple_ret].
  destruct present; [|by apply triple_ret; intros f []].
  apply triple_call; [|by intros n f _ []|by intros n f []].
  intros f [Hl Hp]. destruct (f !! jp) as [j|] eqn:Ej; [|done]. right. simpl. split; [by rewrite lookup_delete_ne|].
  right. apply lookup_delete_eq.
Qed.

(** What an append can leave of the journal. *)
Definition journal_grown (e : SessionJournalEntry) (f0 f : Files) : Prop :=
  f !! path = f0 !! path
  ∧ (f !! jp = f0 !! jp ∨ ∃ n, f !! jp = Some (default "" (f0 !! jp) +:+ str_take n (encode_entry e +:+ newline))).

Lemma append_triple {errs : bool} e (f0 : Files) :
  triple errs (λ f, f = f0) (append_json_line_fast encode_entry jp e) (λ _, journal_grown e f0) (journal_grown e f0).
Proof using Type.
  assert (∀ f, f = f0 → journal_grown e f0 f) as H0 by (intros f ->; split; [done|by left]).
  unfold append_json_line_fast. apply (triple_bind _ _ (λ _ f, f = f0)); [by apply triple_touch|intros []|auto].
  set (opened := λ f : Files, f !! path = f0 !! path ∧ (f !! jp = f0 !! jp ∨ f0 !! jp = None ∧ f !! jp = Some "")).
  assert (∀ f, opened f → journal_grown e f0 f) as H1.
  { intros f [Hp [Hj|[Hj Hj']]]; split; [done|by left|done|]. right. exists 0. rewrite Hj, Hj'. done. }
  apply (triple_bind _ _ (λ _, opened)); [|intros []|auto].
  { apply triple_call; [|by intros n f _ ->; split; [|left]|by intros n f ->; apply H0].
    intros f ->. simpl. destruct (f0 !! jp) eqn:Ej; [split; [done|left; by rewrite Ej]|]. split.
    - by rewrite lookup_insert_ne by apply journal_ne_path.
    - right. split; [done|]. apply lookup_insert_eq. }
  assert (∀ n f, opened f → journal_grown e f0 (appended jp (str_take n (encode_entry e +:+ newline)) f)) as H2.
  { intros n f [Hp Hj]. unfold appended. split; [by rewrite lookup_insert_ne by apply journal_ne_path|]. right. exists n.
    rewrite lookup_insert_eq. destruct Hj as [->|[-> ->]]; done. }
  apply triple_call; [|by intros n f _ ?; apply H2|by intros n f ?; apply H2].
  intros f Hf. simpl. rewrite <- (str_take_all (String.length (encode_entry e +:+ newline)) (encode_entry e +:+ newline)) by done.
  by apply H2.
Qed.

(** What a whole save can leave. *)
Definition save_left (appending : bool) (f0 f : Files) : Prop :=
  ∃ f1, (f1 = f0 ∨ appending = true ∧ journal_grown (next_entry s) f0 f1) ∧ checkpoint_left f1 f.

Lemma left_refl (f : Files) : checkpoint_left f f.
Proof using Type. by left. Qed.
End Save.

(** The session that is written. *)
Definition touched (now : DateTime) (s : Session) : Session := set_head (head_updated_at now (se_head s)) s.
Definition needs_snapshot (s : Session) : bool := metadata_needs_snapshot s || vectors_need_snapshot s.

Lemma session_save_triple {errs : bool} now pid nonce s (f0 : Files) :
  let s' := touched now s in
  let id := h_id (se_head s) in
  triple errs (λ f, f = f0) (save now pid nonce s) (λ _, save_left id s' (negb (needs_snapshot s')) f0)
    (save_left id s' (negb (needs_snapshot s')) f0).
Proof using Type.
  intros s' id. unfold SessionStore.save. fold (touched now s). change (h_id (se_head (touched now s))) with id. fold s'.
  fold (needs_snapshot s'). destruct (needs_snapshot s'); simpl.
  { eapply triple_conseq; [apply (checkpoint_triple id s' pid nonce f0)|done| |]; intros; exists f0; auto. }
  assert (∀ f, journal_grown id (next_entry s') f0 f → save_left id s' true f0 f) as Hg.
  { intros f Hf. exists f. split; [by right|apply left_refl]. }
  assert (∀ r : Session, se_messages r = se_messages s' → snapshot_of_session r = snapshot_of_session s' →
    triple errs (journal_grown id (next_entry s') f0) (checkpoint pid nonce (session_path id) (journal_of id) r)
      (λ _, save_left id s' true f0) (save_left id s' true f0)) as Hck.
  { intros r _ Hr. apply triple_each. intros f1 Hf1.
    assert (∀ f, checkpoint_left id r f1 f → save_left id s' true f0 f) as Hl.
    { intros f. unfold checkpoint_left. rewrite Hr. intros Hf. exists f1. split; [by right|exact Hf]. }
    eapply triple_conseq; [apply (checkpoint_triple id r _ _ f1)|done| |]; auto. }
  apply (triple_settle _ _ (λ _, journal_grown id (next_entry s') f0)).
  { eapply triple_conseq; [apply (append_triple id (next_entry s') f0)|done|done|exact Hg]. }
  intros [[]|e]; [|by apply Hck]. apply (triple_bind _ _ (λ _, journal_grown id (next_entry s') f0)).
  { apply (triple_settle _ _ (λ _, journal_grown id (next_entry s') f0)); [|intros r; by apply triple_ret].
    apply triple_call; simpl; auto. }
  2: { intros e f Hf. by apply Hg. }
  intros n. destruct (_ <? n)%N; [by apply Hck|]. apply triple_ret. auto.
Qed.

(** ** Complete saves *)

Lemma checkpoint_runs pid nonce id s (f : Files) :
  ∃ f', checkpoint pid nonce (session_path id) (journal_of id) s (mkDisk f [])
        = Finished (Ok (reset_persist_state true s, Ok tt)) (mkDisk f' [])
  ∧ holds f' id (snapshot_of_session s) [] ∧ f' !! journal_of id = None.
Proof using Type.
  set (path := session_path id). set (enc := encode_snapshot (snapshot_of_session s)).
  destruct (runs_triple (λ g, g = f) _ _ _ _ (runs_conseq _ _ _ _ _ (write_runs pid nonce path enc (session_path_bak id) false false)
    (λ g (_ : g = f), I) (λ r g H, H)) (write_triple pid nonce path enc (session_path_bak id) f false false) f eq_refl)
    as (r & f1 & E & -> & Hf1). simpl in Hf1. destruct Hf1 as [_ [Hp _]].
  unfold checkpoint_snapshot, settle at 1. unfold write_json_fast. fold enc path. rewrite E. unfold io_bind, settle at 1. simpl.
  destruct (f1 !! journal_of id) as [j|] eqn:Ej.
  - rewrite bool_decide_true by done. unfold io_when, fs_remove, atomic, settle, call. simpl. rewrite Ej. eexists. split; [done|].
    rewrite lookup_delete_eq. split; [|done]. split; [by rewrite lookup_delete_ne by apply journal_ne_path|]. by rewrite lookup_delete_eq.
  - rewrite bool_decide_false by (by intros []). unfold io_when, settle. simpl. eexists. split; [done|]. split; [|done]. split; [done|].
    by rewrite Ej.
Qed.

Lemma holds_grown (f f' : Files) id d es e :
  holds f id d es → f' !! session_path id = f !! session_path id →
  f' !! journal_of id = Some (default "" (f !! journal_of id) +:+ (encode_entry e +:+ newline)) → holds f' id d (es ++ [e]).
Proof using Type.
  intros [Hp Hj] Hp' Hj'. split; [congruence|]. rewrite Hj'. rewrite <- journal_text_snoc. f_equal.
  destruct (f !! journal_of id); [done|]. by subst.
Qed.

Lemma append_runs id e (f : Files) :
  ∃ f', append_json_line_fast encode_entry (journal_of id) e (mkDisk f []) = Finished (Ok tt) (mkDisk f' [])
  ∧ f' !! session_path id = f !! session_path id
  ∧ f' !! journal_of id = Some (default "" (f !! journal_of id) +:+ (encode_entry e +:+ newline)).
Proof using Type.
  unfold append_json_line_fast, io_bind, settle, touch, fs_open_append, fs_append, atomic, call. simpl.
  eexists. split; [done|]. unfold appended. rewrite lookup_insert_eq, lookup_insert_ne by apply journal_ne_path.
  destruct (f !! journal_of id) as [j|] eqn:Ej.
  - by rewrite Ej.
  - by rewrite lookup_insert_eq, lookup_insert_ne by apply journal_ne_path.
Qed.

Lemma touched_vectors now s c : vectors_ok c s → vectors_ok c (touched now s).
Proof using Type. done. Qed.

(** A save without faults stores the session: as a new snapshot, or, when it may
    append, at least as a longer journal. *)
Lemma session_save_runs now pid nonce s (f : Files) : sync s f →
  let s' := touched now s in
  let id := h_id (se_head s) in
  ∃ f' d es, save now pid nonce s (mkDisk f []) = Finished (Ok (reset_persist_state true s', Ok tt)) (mkDisk f' [])
  ∧ holds f' id d es ∧ same_content (shown d es) s'
  ∧ (d = snapshot_of_session s' ∧ es = []
     ∨ needs_snapshot s' = false ∧ ∃ es0, holds f id d es0 ∧ es = es0 ++ [next_entry s']
       ∧ h_route_api_method (sn_head (shown d es)) = h_route_api_method (sn_head (shown d es0))).
Proof using Type.
  intros Hs s' id. unfold SessionStore.save. fold (touched now s). change (h_id (se_head (touched now s))) with id. fold s'.
  fold (needs_snapshot s').
  assert (∀ g r, snapshot_of_session r = snapshot_of_session s' → reset_persist_state true r = reset_persist_state true s' →
    ∃ f' d es, checkpoint pid nonce (session_path id) (session_journal_path_from_snapshot (session_path id)) r (mkDisk g [])
      = Finished (Ok (reset_persist_state true s', Ok tt)) (mkDisk f' []) ∧ holds f' id d es ∧ same_content (shown d es) s'
      ∧ d = snapshot_of_session s' ∧ es = []) as Hck.
  { intros g r Hr Hr'. destruct (checkpoint_runs pid nonce id r g) as (f' & E & Hh & _). exists f', (snapshot_of_session s'), [].
    rewrite <- Hr' at 1. split_and!; [exact E|by rewrite <- Hr|apply snapshot_same|done|done]. }
  destruct (needs_snapshot s') eqn:En.
  { destruct (Hck f s' eq_refl eq_refl) as (f' & d & es & E & H1 & H2 & H3). exists f', d, es. auto. }
  destruct (append_runs id (next_entry s') f) as (f1 & E & Hp & Hj). unfold settle at 1. fold (journal_of id). rewrite E.
  unfold io_bind, settle at 1, file_len_or_zero. unfold settle at 1, atomic, call. simpl. rewrite Hj. simpl.
  destruct (_ <? _)%N.
  { destruct (Hck f1 (reset_persist_state true s') eq_refl eq_refl) as (f' & d & es & E' & H1 & H2 & H3). exists f', d, es. auto. }
  unfold sync in Hs. apply orb_false_iff in En as [_ En].
  assert (ps_snapshot_exists (se_persist_state s) = true) as Ex.
  { unfold vectors_need_snapshot in En. rewrite !orb_false_iff in En. destruct En as ((((((((En & _) & _) & _) & _) & _) & _) & _) & _).
    by apply negb_false_iff in En. }
  rewrite Ex in Hs. destruct Hs as (d & es0 & Hh & Hv & Hm & Hi & Hc). exists f1, d, (es0 ++ [next_entry s']).
  rewrite shown_snoc. destruct (next_entry_completes (shown d es0) s' Hv En Hi Hc) as [H1 H2].
  split_and!; [done|by eapply holds_grown|done|]. right. split; [done|].
  exists es0. split; [exact Hh|]. split; [done|].
  change (h_route_api_method (sn_head (shown d (es0 ++ [next_entry s']))) = h_route_api_method (sn_head (shown d es0))).
  by rewrite shown_snoc.
Qed.

(** ** Histories *)

(** A session in memory beside its files: changes in memory, complete saves, a
    restart that loads the files, and changes to other files. *)
Inductive session_step (to_vec : Message → option (list N)) (debug : Message → list N) :
    Session * Files → Session * Files → Prop :=
| StepEdit s s' f : edit to_vec debug s s' → session_step to_vec debug (s, f) (s', f)
| StepSave now pid nonce s s' f d :
    save now pid nonce s (mkDisk f []) = Finished (Ok (s', Ok tt)) d → session_step to_vec debug (s, f) (s', dk_files d)
| StepRestart s s' f d :
    load (h_id (se_head s)) (mkDisk f []) = Finished (Ok s') d → session_step to_vec debug (s, f) (s', dk_files d)
| StepOther s f f' :
    f' !! session_path (h_id (se_head s)) = f !! session_path (h_id (se_head s)) →
    f' !! journal_of (h_id (se_head s)) = f !! journal_of (h_id (se_head s)) → session_step to_vec debug (s, f) (s, f').

Lemma save_sync now pid nonce s s' (f : Files) d :
  sync s f → save now pid nonce s (mkDisk f []) = Finished (Ok (s', Ok tt)) d →
  s' = reset_persist_state true (touched now s) ∧ sync s' (dk_files d).
Proof using Type.
  intros Hs E. destruct (session_save_runs now pid nonce s f Hs) as (f' & d0 & es & E' & Hh & Hc & _). rewrite E in E'. simplify_eq.
  split; [done|]. by eapply same_content_sync.
Qed.

Lemma step_invariant to_vec debug s f s' f' :
  session_step to_vec debug (s, f) (s', f') → sync s f → cache_ok to_vec debug s →
  sync s' f' ∧ cache_ok to_vec debug s' ∧ h_id (se_head s') = h_id (se_head s).
Proof using laws.
  intros Hstep Hs Hc. inversion Hstep as [? ? ? He|now pid nonce ? ? ? d E|? ? ? d E|? ? ? E1 E2]; subst; clear Hstep.
  - destruct (edit_kept to_vec debug s s' He) as ((Hi & Hcr & Hx & Hm) & Hc' & Hv). split_and!; [|auto|done].
    unfold sync in *. rewrite Hx, Hi, Hm, Hcr. destruct (ps_snapshot_exists _); [|done].
    destruct Hs as (d & es & H1 & H2 & H3). exists d, es. auto.
  - destruct (save_sync _ _ _ _ _ _ _ Hs E) as [-> Hs']. split_and!; [done|exact Hc|done].
  - unfold sync in Hs. destruct (ps_snapshot_exists _).
    + destruct Hs as (d0 & es & H1 & H2 & H3 & H4 & H5). rewrite (load_holds _ _ _ _ H1) in E. simplify_eq.
      split_and!; [|by intros ?|done].
      apply (fresh_sync _ (h_id (se_head s))); [done|done|apply shown_wired].
    + exfalso. revert E. unfold SessionStore.load, load_from_path, io_bind, read_json, io_bind, settle, fs_read, atomic, call. simpl.
      by rewrite Hs.
  - split_and!; [|done|done]. unfold sync in *. destruct (ps_snapshot_exists _); [|congruence].
    destruct Hs as (d0 & es & [H1 H1'] & H2). exists d0, es. split; [|done]. split; [congruence|]. by rewrite E2.
Qed.

Lemma history_invariant to_vec debug s f s' f' :
  rtc (session_step to_vec debug) (s, f) (s', f') → sync s f → cache_ok to_vec debug s →
  sync s' f' ∧ cache_ok to_vec debug s' ∧ h_id (se_head s') = h_id (se_head s).
Proof using laws.
  intros Hr. remember (s, f) as x eqn:Ex. remember (s', f') as y eqn:Ey. revert s f Ex.
  induction Hr as [x|x [s1 f1] y Hst _ IH]; intros s f -> Hs Hc; [by simplify_eq|].
  destruct (step_invariant _ _ _ _ _ _ Hst Hs Hc) as (Hs1 & Hc1 & Hi1). destruct (IH Ey _ _ eq_refl Hs1 Hc1) as (H1 & H2 & H3).
  split_and!; [done|done|congruence].
Qed.

(** A new session whose snapshot is not on disk yet. *)
Definition newly_created (s : Session) : Prop :=
  ∃ id short parent title now pid wd dbg, s = new_session id short parent title now pid wd dbg.

Lemma new_invariant to_vec debug s f :
  newly_created s → f !! session_path (h_id (se_head s)) = None → sync s f ∧ cache_ok to_vec debug s.
Proof using Type. intros (id & short & parent & title & now & pid & wd & dbg & ->) Hf. split; [exact Hf|]. by intros ?. Qed.
End Disk.
