(* ===== verification/SessionCodec.v ===== *)
(** * A codec of sessions

    Shows that the laws asked of the JSON codec of sessions can hold: snapshots
    and journal entries, over texts as JSON values and numbers as times, written
    as numbers through stdpp's countable types. *)

From Stdlib Require Import Ascii.
From stdpp Require Import base list strings gmap countable.
From S2P Require Import Prelude RustString Mention RustText Plan Message Compaction CompactionClaims Manager Storage StorageClaims PersistCodec Session SessionStore SessionFacts.

Open Scope string_scope.
Open Scope nat_scope.
Open Scope list_scope.

(** ** Countable data *)

#[export] Instance text_value_dec : EqDecision (@Value text_json).
Proof. exact String.eq_dec. Defined.
#[export] Instance text_value_countable : Countable (@Value text_json).
Proof. exact String.countable. Defined.
#[export] Instance tick_time_dec : EqDecision (@DateTime tick_chrono).
Proof. exact N.eq_dec. Defined.
#[export] Instance tick_time_countable : Countable (@DateTime tick_chrono).
Proof. exact N_countable. Defined.

#[export] Instance GitState_dec : EqDecision GitState.
Proof. solve_decision. Defined.

#[export] Instance GitState_countable : Countable GitState.
Proof.
  refine (inj_countable'
    (λ r, (git_root r, git_head r, git_branch r, git_dirty r))
    (λ '(x0, x1, x2, x3), mkGit x0 x1 x2 x3) _). by intros [].
Defined.

#[export] Instance StoredTokenUsage_dec : EqDecision StoredTokenUsage.
Proof. solve_decision. Defined.

#[export] Instance StoredTokenUsage_countable : Countable StoredTokenUsage.
Proof.
  refine (inj_countable'
    (λ r, (tu_input_tokens r, tu_output_tokens r, tu_cache_read_input_tokens r, tu_cache_creation_input_tokens r))
    (λ '(x0, x1, x2, x3), mkUsage x0 x1 x2 x3) _). by intros [].
Defined.

#[export] Instance StoredCompactionState_dec : EqDecision StoredCompactionState.
Proof. solve_decision. Defined.

#[export] Instance StoredCompactionState_countable : Countable StoredCompactionState.
Proof.
  refine (inj_countable'
    (λ r, (sc_summary_text r, sc_openai_encrypted_content r, sc_covers_up_to_turn r, sc_original_turn_count r,
      sc_compacted_count r))
    (λ '(x0, x1, x2, x3, x4), mkStored x0 x1 x2 x3 x4) _). by intros [].
Defined.

#[export] Instance CacheControl_dec : EqDecision CacheControl.
Proof. solve_decision. Defined.

#[export] Instance CacheControl_countable : Countable CacheControl.
Proof.
  refine (inj_countable'
    (λ r, (cc_kind r, cc_ttl r))
    (λ '(x0, x1), mkCacheControl x0 x1) _). by intros [].
Defined.

#[export] Instance Role_countable : Countable Role.
Proof.
  refine (inj_countable'
    (λ x, match x with User => 0 | Assistant => 1 end)
    (λ n : nat, match n with 0 => User | _ => Assistant end) _). by intros [].
Defined.

#[export] Instance SessionImproveMode_countable : Countable SessionImproveMode.
Proof.
  refine (inj_countable'
    (λ x, match x with ImproveRun => 0 | ImprovePlan => 1 | RefactorRun => 2 | RefactorPlan => 3 end)
    (λ n : nat, match n with 0 => ImproveRun | 1 => ImprovePlan | 2 => RefactorRun | _ => RefactorPlan end) _). by intros [].
Defined.

#[export] Instance StoredDisplayRole_countable : Countable StoredDisplayRole.
Proof.
  refine (inj_countable'
    (λ x, match x with DisplaySystem => 0 | DisplayBackgroundTask => 1 end)
    (λ n : nat, match n with 0 => DisplaySystem | _ => DisplayBackgroundTask end) _). by intros [].
Defined.

#[export] Instance SessionStatus_countable : Countable SessionStatus.
Proof.
  refine (inj_countable'
    (λ x, match x with
      | StActive => inl (tt)
      | StClosed => inr (inl (tt))
      | StCrashed x0 => inr (inr (inl (x0)))
      | StReloaded => inr (inr (inr (inl (tt))))
      | StCompacted => inr (inr (inr (inr (inl (tt)))))
      | StRateLimited => inr (inr (inr (inr (inr (inl (tt))))))
      | StError x0 => inr (inr (inr (inr (inr (inr (x0))))))
      end)
    (λ x, match x with
      | inl (tt) => StActive
      | inr (inl (tt)) => StClosed
      | inr (inr (inl (x0))) => StCrashed x0
      | inr (inr (inr (inl (tt)))) => StReloaded
      | inr (inr (inr (inr (inl (tt))))) => StCompacted
      | inr (inr (inr (inr (inr (inl (tt)))))) => StRateLimited
      | inr (inr (inr (inr (inr (inr (x0)))))) => StError x0
      end) _). by intros [].
Defined.

#[export] Instance SwarmToolProgress_countable : Countable SwarmToolProgress.
Proof.
  refine (inj_countable'
    (λ r, (tpr_current r, tpr_total r, tpr_unit r))
    (λ '(x0, x1, x2), mkToolProgress x0 x1 x2) _). by intros [].
Defined.

#[export] Instance SwarmToolIntent_countable : Countable SwarmToolIntent.
Proof.
  refine (inj_countable'
    (λ r, (ti_tool_call_id r, ti_tool_name r, ti_intent r, ti_status r, ti_progress r))
    (λ '(x0, x1, x2, x3, x4), mkToolIntent x0 x1 x2 x3 x4) _). by intros [].
Defined.

#[export] Instance SwarmTodoItem_countable : Countable SwarmTodoItem.
Proof.
  refine (inj_countable'
    (λ r, (td_content r, td_status r, td_tool_intents r))
    (λ '(x0, x1, x2), mkTodoItem x0 x1 x2) _). by intros [].
Defined.

#[export] Instance SwarmMemberRuntime_countable : Countable SwarmMemberRuntime.
Proof.
  refine (inj_countable'
    (λ r, (mrt_model r, mrt_provider r, mrt_auth_method r, mrt_effort r, mrt_elapsed_secs r))
    (λ '(x0, x1, x2, x3, x4), mkRuntime x0 x1 x2 x3 x4) _). by intros [].
Defined.

#[export] Instance SwarmMemberStatus_countable : Countable SwarmMemberStatus.
Proof.
  refine (inj_countable'
    (λ r, (ms_session_id r, ms_friendly_name r, ms_status r, ms_detail r, ms_task_label r, ms_role r,
      ms_is_headless r, ms_live_attachments r, ms_status_age_secs r, ms_output_tail r, ms_report_back_to_session_id r,
      ms_todo_progress r, ms_todo_items r, ms_runtime r))
    (λ '(x0, x1, x2, x3, x4, x5, x6, x7, x8, x9, x10, x11, x12, x13), mkMemberStatus x0 x1 x2 x3 x4 x5 x6 x7 x8 x9 x10 x11 x12 x13) _). by intros [].
Defined.

#[export] Instance StoredReplayEventKind_countable : Countable StoredReplayEventKind.
Proof.
  refine (inj_countable'
    (λ x, match x with
      | DisplayMessage x0 x1 x2 => inl (x0, x1, x2)
      | SwarmStatus x0 => inr (inl (x0))
      | SwarmPlan x0 x1 x2 x3 x4 => inr (inr (x0, x1, x2, x3, x4))
      end)
    (λ x, match x with
      | inl (x0, x1, x2) => DisplayMessage x0 x1 x2
      | inr (inl (x0)) => SwarmStatus x0
      | inr (inr (x0, x1, x2, x3, x4)) => SwarmPlan x0 x1 x2 x3 x4
      end) _). by intros [].
Defined.

#[export] Instance ContentBlock_dec : EqDecision (@ContentBlock text_json).
Proof. solve_decision. Defined.

#[export] Instance ContentBlock_countable : Countable (@ContentBlock text_json).
Proof.
  refine (inj_countable'
    (λ x, match x with
      | Text x0 x1 => inl (x0, x1)
      | Reasoning x0 => inr (inl (x0))
      | ReasoningTrace x0 => inr (inr (inl (x0)))
      | AnthropicThinking x0 x1 => inr (inr (inr (inl (x0, x1))))
      | OpenAIReasoning x0 x1 x2 x3 => inr (inr (inr (inr (inl (x0, x1, x2, x3)))))
      | ToolUse x0 x1 x2 x3 => inr (inr (inr (inr (inr (inl (x0, x1, x2, x3))))))
      | ToolResult x0 x1 x2 => inr (inr (inr (inr (inr (inr (inl (x0, x1, x2)))))))
      | Image x0 x1 => inr (inr (inr (inr (inr (inr (inr (inl (x0, x1))))))))
      | OpenAICompaction x0 => inr (inr (inr (inr (inr (inr (inr (inr (x0))))))))
      end)
    (λ x, match x with
      | inl (x0, x1) => Text x0 x1
      | inr (inl (x0)) => Reasoning x0
      | inr (inr (inl (x0))) => ReasoningTrace x0
      | inr (inr (inr (inl (x0, x1)))) => AnthropicThinking x0 x1
      | inr (inr (inr (inr (inl (x0, x1, x2, x3))))) => OpenAIReasoning x0 x1 x2 x3
      | inr (inr (inr (inr (inr (inl (x0, x1, x2, x3)))))) => ToolUse x0 x1 x2 x3
      | inr (inr (inr (inr (inr (inr (inl (x0, x1, x2))))))) => ToolResult x0 x1 x2
      | inr (inr (inr (inr (inr (inr (inr (inl (x0, x1)))))))) => Image x0 x1
      | inr (inr (inr (inr (inr (inr (inr (inr (x0)))))))) => OpenAICompaction x0
      end) _). by intros [].
Defined.

#[export] Instance EnvSnapshot_dec : EqDecision (@EnvSnapshot tick_chrono).
Proof. solve_decision. Defined.

#[export] Instance EnvSnapshot_countable : Countable (@EnvSnapshot tick_chrono).
Proof.
  refine (inj_countable'
    (λ r, (ev_captured_at r, ev_reason r, ev_session_id r, ev_working_dir r, ev_provider r, ev_model r,
      ev_jcode_version r, ev_jcode_git_hash r, ev_jcode_git_dirty r, ev_os r, ev_arch r, ev_pid r, ev_is_debug r,
      ev_working_git r))
    (λ '(x0, x1, x2, x3, x4, x5, x6, x7, x8, x9, x10, x11, x12, x13), mkEnv x0 x1 x2 x3 x4 x5 x6 x7 x8 x9 x10 x11 x12 x13) _). by intros [].
Defined.

#[export] Instance StoredMemoryInjection_dec : EqDecision (@StoredMemoryInjection tick_chrono).
Proof. solve_decision. Defined.

#[export] Instance StoredMemoryInjection_countable : Countable (@StoredMemoryInjection tick_chrono).
Proof.
  refine (inj_countable'
    (λ r, (in_summary r, in_content r, in_count r, in_memory_ids r, in_age_ms r, in_before_message r, in_timestamp r))
    (λ '(x0, x1, x2, x3, x4, x5, x6), mkInjection x0 x1 x2 x3 x4 x5 x6) _). by intros [].
Defined.

#[export] Instance StoredReplayEvent_dec : EqDecision (@StoredReplayEvent tick_chrono).
Proof. solve_decision. Defined.

#[export] Instance StoredReplayEvent_countable : Countable (@StoredReplayEvent tick_chrono).
Proof.
  refine (inj_countable'
    (λ r, (re_timestamp r, re_kind r))
    (λ '(x0, x1), mkReplayEvent x0 x1) _). by intros [].
Defined.

#[export] Instance StoredMessage_dec : EqDecision (@StoredMessage text_json tick_chrono).
Proof. solve_decision. Defined.

#[export] Instance StoredMessage_countable : Countable (@StoredMessage text_json tick_chrono).
Proof.
  refine (inj_countable'
    (λ r, (stm_id r, stm_role r, stm_content r, stm_display_role r, stm_timestamp r, stm_tool_duration_ms r,
      stm_token_usage r))
    (λ '(x0, x1, x2, x3, x4, x5, x6), mkStoredMessage x0 x1 x2 x3 x4 x5 x6) _). by intros [].
Defined.

#[export] Instance SessionHead_dec : EqDecision (@SessionHead tick_chrono).
Proof. solve_decision. Defined.

#[export] Instance SessionHead_countable : Countable (@SessionHead tick_chrono).
Proof.
  refine (inj_countable'
    (λ r, (h_id r, h_parent_id r, h_title r, h_custom_title r, h_created_at r, h_updated_at r, h_compaction r,
      h_provider_session_id r, h_provider_key r, h_model r, h_route_api_method r, h_reasoning_effort r,
      h_subagent_model r, h_improve_mode r, h_autoreview_enabled r, h_autojudge_enabled r, h_working_dir r,
      h_short_name r, h_status r, h_last_pid r, h_last_active_at r, h_is_debug r, h_saved r, h_save_label r))
    (λ '(x0, x1, x2, x3, x4, x5, x6, x7, x8, x9, x10, x11, x12, x13, x14, x15, x16, x17, x18, x19, x20, x21, x22, x23), mkHead x0 x1 x2 x3 x4 x5 x6 x7 x8 x9 x10 x11 x12 x13 x14 x15 x16 x17 x18 x19 x20 x21 x22 x23) _). by intros [].
Defined.

#[export] Instance SessionJournalMeta_dec : EqDecision (@SessionJournalMeta tick_chrono).
Proof. solve_decision. Defined.

#[export] Instance SessionJournalMeta_countable : Countable (@SessionJournalMeta tick_chrono).
Proof.
  refine (inj_countable'
    (λ r, (jm_parent_id r, jm_title r, jm_custom_title r, jm_updated_at r, jm_compaction r, jm_provider_session_id r,
      jm_provider_key r, jm_model r, jm_reasoning_effort r, jm_subagent_model r, jm_improve_mode r,
      jm_autoreview_enabled r, jm_autojudge_enabled r, jm_working_dir r, jm_short_name r, jm_status r, jm_last_pid r,
      jm_last_active_at r, jm_is_debug r, jm_saved r, jm_save_label r))
    (λ '(x0, x1, x2, x3, x4, x5, x6, x7, x8, x9, x10, x11, x12, x13, x14, x15, x16, x17, x18, x19, x20), mkMeta x0 x1 x2 x3 x4 x5 x6 x7 x8 x9 x10 x11 x12 x13 x14 x15 x16 x17 x18 x19 x20) _). by intros [].
Defined.

#[export] Instance SessionSnapshot_dec : EqDecision (@SessionSnapshot text_json tick_chrono).
Proof. solve_decision. Defined.

#[export] Instance SessionSnapshot_countable : Countable (@SessionSnapshot text_json tick_chrono).
Proof.
  refine (inj_countable'
    (λ r, (sn_head r, sn_messages r, sn_env_snapshots r, sn_memory_injections r, sn_replay_events r))
    (λ '(x0, x1, x2, x3, x4), mkSessionSnapshot x0 x1 x2 x3 x4) _). by intros [].
Defined.

#[export] Instance SessionJournalEntry_dec : EqDecision (@SessionJournalEntry text_json tick_chrono).
Proof. solve_decision. Defined.

#[export] Instance SessionJournalEntry_countable : Countable (@SessionJournalEntry text_json tick_chrono).
Proof.
  refine (inj_countable'
    (λ r, (je_meta r, je_append_messages r, je_append_env_snapshots r, je_append_memory_injections r,
      je_append_replay_events r))
    (λ '(x0, x1, x2, x3, x4), mkEntry x0 x1 x2 x3 x4) _). by intros [].
Defined.

(** ** Numbers as text *)

(** An element of a table is written as its position, in unary; any other one as
    a dash and its number. *)
Section Code.
Context {A : Type} {Hdec : EqDecision A} {Hc : Countable A} (table : list A).

Definition code (x : A) : string :=
  match list_find (λ y, y = x) table with
  | Some (i, _) => unary i
  | None => String (Ascii.ascii_of_nat 45) (bits (encode x))
  end.

Definition decoded (text : string) : option A :=
  match text with
  | String c rest => if Ascii.eqb c (Ascii.ascii_of_nat 45) then decode (of_bits rest) else table !! String.length text
  | "" => table !! 0
  end.

Lemma decoded_code x : decoded (code x) = Some x.
Proof using Type.
  unfold code. destruct (list_find _ table) as [[i y]|] eqn:E.
  - apply list_find_Some in E as (Hi & -> & _). destruct i as [|i]; [done|]. cbn [unary decoded].
    change (Ascii.eqb _ _) with false. cbn [String.length]. by rewrite length_unary.
  - cbn [decoded]. change (Ascii.eqb _ _) with true. cbn iota. rewrite of_bits_bits. apply decode_encode.
Qed.

(** A code consists of four characters. *)
Definition code_byte (c : Ascii.ascii) : bool :=
  Ascii.eqb c "-"%char || Ascii.eqb c "0"%char || Ascii.eqb c "1"%char || Ascii.eqb c "x"%char.

Lemma code_bytes x : any_byte (λ c, negb (code_byte c)) (code x) = false.
Proof using Type.
  unfold code. destruct (list_find _ table) as [[i y]|].
  - by induction i.
  - cbn [any_byte]. change (negb (code_byte (Ascii.ascii_of_nat 45))) with false. cbn [orb].
    generalize (encode x) as p. induction p as [p IH|p IH|]; [done..|done].
Qed.
End Code.

Lemma any_byte_weaken (p q : Ascii.ascii → bool) s : (∀ c, q c = true → p c = true) → any_byte p s = false → any_byte q s = false.
Proof.
  intros H. induction s as [|c s IH]; [done|]. simpl. intros [Hp Hs]%orb_false_iff. rewrite (IH Hs), orb_false_r.
  destruct (q c) eqn:E; [|done]. by rewrite (H c E) in Hp.
Qed.

Definition is_brace (c : Ascii.ascii) : bool := Ascii.eqb c "}"%char.

Lemma code_no_brace c : is_brace c = true → negb (code_byte c) = true.
Proof. intros ->%Ascii.eqb_eq. done. Qed.
Lemma code_no_lf c : is_lf c = true → negb (code_byte c) = true.
Proof.
  unfold code_byte. intros H. destruct (Ascii.eqb_spec c "-"%char), (Ascii.eqb_spec c "0"%char), (Ascii.eqb_spec c "1"%char), (Ascii.eqb_spec c "x"%char);
    subst; done.
Qed.

Lemma code_utf8 s : any_byte (λ c, negb (code_byte c)) s = false → utf8 (s +:+ "}") = true.
Proof.
  unfold utf8. induction s as [|c s IH]; [done|]. cbn [any_byte]. intros [Hc Hs]%orb_false_iff. apply negb_false_iff in Hc.
  change (String c s +:+ "}") with (String c (s +:+ "}")). cbn [utf8_from].
  assert (negb (is_cont c) = true ∧ char_len c - 1 = 0) as [-> ->]; [|by apply IH].
  unfold code_byte in Hc. rewrite !orb_true_iff in Hc. destruct Hc as [[[E|E]|E]|E]; apply Ascii.eqb_eq in E; subst; done.
Qed.

Lemma find_brace body rest : any_byte is_brace body = false → str_find "}" (body +:+ "}" +:+ rest) = Some (String.length body).
Proof.
  induction body as [|c body IH]; intros H; [by destruct rest|]. simpl in H. apply orb_false_iff in H as [Hc H].
  change (String c body +:+ "}" +:+ rest) with (String c (body +:+ "}" +:+ rest)). cbn [str_find starts_with].
  unfold is_brace in Hc. apply Ascii.eqb_neq in Hc. rewrite bool_decide_false by congruence. cbn [andb].
  by rewrite IH.
Qed.

Lemma drop_past_brace body rest : str_drop (S (String.length body)) (body +:+ "}" +:+ rest) = rest.
Proof. induction body as [|c body IH]; [done|exact IH]. Qed.

Lemma find_no_brace s : any_byte is_brace s = false → str_find "}" s = None.
Proof.
  induction s as [|c s IH]; intros H; [done|]. simpl in H. apply orb_false_iff in H as [Hc H]. cbn [str_find starts_with].
  unfold is_brace in Hc. apply Ascii.eqb_neq in Hc. rewrite bool_decide_false by congruence. cbn [andb]. by rewrite IH.
Qed.

Lemma any_byte_drop p n s : any_byte p s = false → any_byte p (str_drop n s) = false.
Proof. revert n. induction s as [|c s IH]; intros [|n] H; simpl in *; try done. apply orb_false_iff in H as [_ H]. by apply IH. Qed.

Lemma take_last s c n : n < String.length (s +:+ String c "") → str_take n (s +:+ String c "") = str_take n s.
Proof. rewrite length_append_s. simpl. intros H. apply str_take_append_le. lia. Qed.

(** ** The codec *)

Notation DSnapshot := (@SessionSnapshot text_json tick_chrono).
Notation DEntry := (@SessionJournalEntry text_json tick_chrono).

Section Codec.
Context (snapshots : list DSnapshot) (entries : list DEntry).
(** Text put in front of an entry's number. *)
Context (pad : string).
Context (pad_utf8 : ∀ s, utf8 s = true → utf8 (pad +:+ s) = true) (pad_brace : any_byte is_brace pad = false)
  (pad_lf : any_byte is_lf pad = false).

Definition demo_encode_snapshot (d : DSnapshot) : string := code snapshots (wire_snapshot d).
Definition demo_decode_snapshot (s : string) : option DSnapshot := decoded snapshots s.
Definition demo_decode_stub (s : string) : option SessionHead := sn_head <$> decoded snapshots s.
Definition demo_decode_remote (s : string) : option RemoteSnapshot :=
  (λ d, mkRemote (sn_head d) (sn_messages d)) <$> decoded snapshots s.

Definition entry_head : string := ENTRY_START +:+ pad.
Definition demo_encode_entry (e : DEntry) : string := entry_head +:+ code entries (wire_entry e) +:+ "}".
Definition demo_parse_entry (s : string) : option (DEntry * string) :=
  match strip_prefix entry_head s with
  | None => None
  | Some s =>
      match str_find "}" s with
      | None => None
      | Some n => (λ e, (e, str_drop (S n) s)) <$> decoded entries (str_take n s)
      end
  end.

Lemma code_text_utf8 {A} `{Countable A} (table : list A) (x : A) : utf8 (code table x) = true.
Proof using Type.
  pose proof (code_utf8 _ (code_bytes table x)) as H1. revert H1. generalize (code table x) as s. intros s. unfold utf8.
  generalize 0 as k. induction s as [|c s IH]; intros k.
  - by destruct k.
  - change (String c s +:+ "}") with (String c (s +:+ "}")). cbn [utf8_from]. destruct k.
    + intros [-> H2]%andb_true_iff. simpl. by apply IH.
    + intros [-> H2]%andb_true_iff. simpl. by apply IH.
Qed.

Lemma demo_laws : CodecLaws demo_encode_snapshot demo_decode_snapshot demo_decode_stub demo_decode_remote demo_encode_entry
  demo_parse_entry.
Proof using pad_utf8 pad_brace pad_lf.
  split.
  - intros d. apply decoded_code.
  - intros d. apply code_text_utf8.
  - intros d. unfold demo_decode_stub, demo_encode_snapshot. by rewrite decoded_code.
  - intros d. unfold demo_decode_remote, demo_encode_snapshot. by rewrite decoded_code.
  - intros e rest. unfold demo_parse_entry, demo_encode_entry, strip_prefix. rewrite !append_assoc_s.
    rewrite (starts_with_refl entry_head), str_drop_append, find_brace by (eapply any_byte_weaken, code_bytes; apply code_no_brace).
    rewrite append_take, decoded_code, drop_past_brace. done.
  - intros e n Hn. unfold demo_parse_entry, demo_encode_entry in *. rewrite <- append_assoc_s in *. rewrite take_last by done.
    unfold strip_prefix. destruct (starts_with _ _); [|done].
    rewrite find_no_brace; [done|]. apply any_byte_drop, any_byte_take. unfold entry_head. rewrite !any_byte_append, pad_brace.
    rewrite (any_byte_weaken _ _ _ code_no_brace (code_bytes _ _)). done.
  - intros e. unfold demo_encode_entry, entry_head. rewrite append_assoc_s.
    change (utf8 (pad +:+ (code entries (wire_entry e) +:+ "}")) = true).
    apply pad_utf8, code_utf8, code_bytes.
  - intros e. unfold demo_encode_entry, entry_head. rewrite !any_byte_append, pad_lf.
    by rewrite (any_byte_weaken _ _ _ code_no_lf (code_bytes _ _)).
  - intros e. exists (pad +:+ code entries (wire_entry e)). unfold demo_encode_entry, entry_head. by rewrite !append_assoc_s.
Qed.
End Codec.
