(* ===== verification/SessionClaims.v ===== *)
(** * Theorems on sessions

    Sessions load back as they were saved, what a crash during a save can leave,
    and the cache of messages for the provider. *)

From Stdlib Require Import Ascii.
From stdpp Require Import base list strings gmap pretty relations.
From S2P Require Import Prelude RustString Mention RustText Plan Message Compaction CompactionClaims Manager Storage StorageClaims Session SessionStore SessionFacts SessionCodec.

Open Scope string_scope.
Open Scope nat_scope.
Open Scope list_scope.

Section Claims.
Context {J : Json} {T : Chrono}.
Context (encode_snapshot : SessionSnapshot → string) (decode_snapshot : string → option SessionSnapshot)
  (decode_stub : string → option SessionHead) (decode_remote : string → option RemoteSnapshot)
  (encode_entry : SessionJournalEntry → string) (parse_entry : string → option (SessionJournalEntry * string)).
Context {laws : CodecLaws encode_snapshot decode_snapshot decode_stub decode_remote encode_entry parse_entry}.
Context (to_vec : Message → option (list N)) (debug : Message → list N).

#[local] Arguments replayed : simpl never.
#[local] Arguments shown : simpl never.

Notation save := (save encode_snapshot encode_entry).
Notation load := (load decode_snapshot parse_entry).
Notation load_stub := (load_startup_stub decode_stub).
Notation load_remote := (load_for_remote_startup decode_remote parse_entry).
Notation holds := (holds encode_snapshot encode_entry).
Notation sync := (sync encode_snapshot encode_entry).
Notation history := (rtc (session_step encode_snapshot decode_snapshot encode_entry parse_entry to_vec debug)).

(** A session and its files after some history from its creation. *)
Definition lived (s : Session) (f : Files) : Prop :=
  ∃ s0 f0, newly_created s0 ∧ f0 !! session_path (h_id (se_head s0)) = None ∧ history (s0, f0) (s, f).

Lemma lived_invariant s f : lived s f → sync s f ∧ cache_ok to_vec debug s.
Proof using laws.
  intros (s0 & f0 & Hn & Hf & Hh). destruct (new_invariant encode_snapshot encode_entry to_vec debug s0 f0 Hn Hf) as [H1 H2].
  eapply history_invariant in Hh as (? & ? & _); eauto.
Qed.

Lemma lived_stored s f : lived s f → ps_snapshot_exists (se_persist_state s) = true →
  ∃ d es, holds f (h_id (se_head s)) d es ∧ vectors_ok (shown d es) s
  ∧ h_id (sn_head (shown d es)) = h_id (se_head s) ∧ h_created_at (sn_head (shown d es)) = h_created_at (se_head s).
Proof using laws.
  intros Hl Hx. destruct (lived_invariant s f Hl) as [Hs _]. unfold SessionFacts.sync in Hs. rewrite Hx in Hs.
  destruct Hs as (d & es & H1 & H2 & _ & H3 & H4). by exists d, es.
Qed.

(** The two shorter forms of loading. *)
Lemma stub_holds f id d es : holds f id d es →
  load_stub id (mkDisk f []) = Finished (Ok (session_from_startup_stub (sn_head d))) (mkDisk f []).
Proof using laws.
  intros [Hp _]. unfold load_startup_stub, io_bind, settle, fs_read, atomic, call. simpl.
  rewrite Hp, (snapshot_utf8 _ _ _ _ _ _ d), (snapshot_stub _ _ _ _ _ _ d). done.
Qed.

Lemma fold_remote es (s r : Session) :
  se_head r = se_head s → se_messages r = se_messages s →
  let s' := fold_left apply_journal_entry es s in
  let r' := fold_left apply_remote_entry es r in
  se_head r' = se_head s' ∧ se_messages r' = se_messages s'.
Proof using Type.
  revert s r. induction es as [|e es IH]; intros s r Hh Hm; [done|]. cbn [fold_left]. apply IH; simpl; by rewrite ?Hh, ?Hm.
Qed.

Lemma remote_holds f id d es : holds f id d es →
  ∃ r, load_remote id (mkDisk f []) = Finished (Ok r) (mkDisk f [])
  ∧ se_head r = sn_head (shown d es) ∧ se_messages r = sn_messages (shown d es).
Proof using laws.
  intros [Hp Hj]. set (r0 := session_from_remote_startup_snapshot (mkRemote (sn_head d) (sn_messages d))).
  exists (reset_provider_messages_cache (reset_persist_state true (fold_left apply_remote_entry (wire_entry <$> es) r0))).
  split.
  - unfold load_for_remote_startup, io_bind at 1, settle at 1. unfold fs_read, atomic, call. simpl.
    rewrite Hp, (snapshot_utf8 _ _ _ _ _ _ d). simpl. rewrite (snapshot_remote _ _ _ _ _ _ d).
    unfold io_bind at 1, settle at 1, replay_journal_lines, io_bind at 1, settle at 1. simpl. fold (journal_of id).
    destruct (f !! journal_of id) as [j|] eqn:Ej.
    + rewrite bool_decide_true by done. simpl. unfold io_bind at 1, settle at 1. unfold fs_read_bytes, atomic, call. simpl.
      rewrite Ej. simpl. subst j. rewrite (replay_journal _ _ _ _ _ _ es). simpl.
      unfold io_bind at 1, settle at 1. simpl. by rewrite Hp, bool_decide_true by done.
    + subst es. rewrite bool_decide_false by (by intros []). simpl. unfold io_bind at 1, settle at 1. simpl.
      by rewrite Hp, bool_decide_true by done.
  - apply (fold_remote (wire_entry <$> es) (session_of_snapshot (wire_snapshot d)) r0); done.
Qed.

(** C10: Sessions load back as they were saved.  A session was created, under an
    identifier without a snapshot, and then changed by its methods, saved,
    restarted from its files and so on, in any order.  Saving it then succeeds,
    and loading the files succeeds and gives back the whole transcript, the
    environment snapshots, the memory injections, the recorded events (without
    the identifiers of running tool calls, which are not stored) and all
    metadata of the journal; the API method comes back when the save wrote a
    snapshot.  The shorter loading for a remote client gives the same transcript
    and metadata. *)
Theorem saved_sessions_load_back (s : Session) (f : Files) (now : DateTime) (pid nonce : N) :
  lived s f →
  let id := h_id (se_head s) in
  ∃ s' f' l r,
    save now pid nonce s (mkDisk f []) = Finished (Ok (s', Ok tt)) (mkDisk f' [])
    ∧ load id (mkDisk f' []) = Finished (Ok l) (mkDisk f' [])
    ∧ load_remote id (mkDisk f' []) = Finished (Ok r) (mkDisk f' [])
    ∧ se_messages l = se_messages s ∧ se_env_snapshots l = se_env_snapshots s
    ∧ se_memory_injections l = se_memory_injections s ∧ se_replay_events l = wire_event <$> se_replay_events s
    ∧ journal_meta l = journal_meta (touched now s) ∧ journal_meta s' = journal_meta (touched now s)
    ∧ h_id (se_head l) = id ∧ h_created_at (se_head l) = h_created_at (se_head s)
    ∧ (needs_snapshot (touched now s) = true → h_route_api_method (se_head l) = h_route_api_method (se_head s))
    ∧ se_messages r = se_messages s ∧ journal_meta r = journal_meta l.
Proof using laws.
  intros Hl id. destruct (lived_invariant s f Hl) as [Hs _].
  destruct (session_save_runs encode_snapshot encode_entry now pid nonce s f Hs)
    as (f' & d & es & E & Hh & Hc & Hkind).
  destruct (remote_holds f' id d es Hh) as (r & Er & Hr1 & Hr2).
  pose proof (load_holds encode_snapshot decode_snapshot decode_stub decode_remote encode_entry parse_entry f' id d es Hh) as El.
  exists (reset_persist_state true (touched now s)), f', (fresh_session (shown d es)), r.
  destruct Hc as (H1 & H2 & H3 & H4 & H5 & H6 & H7).
  assert (needs_snapshot (touched now s) = true → h_route_api_method (sn_head (shown d es)) = h_route_api_method (se_head s)) as Hroute.
  { intros Hn. destruct Hkind as [[-> ->]|[Hn' _]]; [done|congruence]. }
  clear Hkind. do 3 (split; [done|]). set (c := shown d es) in *. clearbody c. split_and!; try done; [by rewrite Hr2|].
  unfold journal_meta at 1. by rewrite Hr1.
Qed.

(** ** Interrupted saves *)

Lemma replayed_messages d es : sn_messages (replayed d es) = sn_messages d ++ (es ≫= je_append_messages).
Proof using Type.
  induction es as [|e es IH] using rev_ind; [by rewrite app_nil_r|]. rewrite replayed_app.
  change (sn_messages (replayed (replayed d es) [e])) with (sn_messages (replayed d es) ++ je_append_messages e).
  rewrite IH, bind_app. simpl. by rewrite app_nil_r, app_assoc.
Qed.

Lemma shown_messages d es : sn_messages (shown d es) = sn_messages d ++ (es ≫= je_append_messages).
Proof using Type.
  unfold shown. rewrite replayed_messages. simpl. f_equal. induction es as [|e es IH]; [done|].
  change (je_append_messages e ++ ((wire_entry <$> es) ≫= je_append_messages) = je_append_messages e ++ (es ≫= je_append_messages)).
  by rewrite IH.
Qed.

(** What is read of a journal that a save was extending. *)
Lemma grown_reads e es (j0 j : option string) :
  plain_entry encode_entry e → match j0 with Some text => text = journal_text encode_entry es | None => es = [] end →
  (j = j0 ∨ ∃ n, j = Some (default "" j0 +:+ str_take n (encode_entry e +:+ newline))) →
  ∃ es', (es' = es ∨ j ≠ j0 ∧ es' = es ++ [e])
  ∧ match j with Some text => ∃ st, replay_lines parse_entry (lines text) = Some (wire_entry <$> es', st) | None => es' = [] end.
Proof using laws.
  intros Hp H0 [->|[n ->]].
  { exists es. split; [by left|]. destruct j0; [|done]. subst. eexists. by eapply replay_journal. }
  assert (0 < n → Some (default "" j0 +:+ str_take n (encode_entry e +:+ newline)) ≠ j0) as Hne.
  { intros Hn ?. destruct j0 as [t|]; [|done]. simplify_eq/=. rewrite <- (append_nil_r_s (journal_text _ es)) in H at 2.
    apply append_inj_l_s in H. destruct n; [lia|]. by destruct (encode_entry e). }
  assert (default "" j0 = journal_text encode_entry es) as Ed by (destruct j0; by subst). rewrite Ed in *.
  destruct (decide (n = 0)) as [->|Hn].
  { exists es. split; [by left|]. replace (str_take 0 _) with "" by (by destruct (encode_entry e)). rewrite append_nil_r_s.
    eexists. by eapply replay_journal. }
  destruct (decide (n ≤ String.length (encode_entry e))) as [Hle|Hgt].
  - rewrite str_take_append_le by done.
    destruct (replay_torn_journal encode_snapshot decode_snapshot decode_stub decode_remote encode_entry parse_entry es e n Hp)
      as [st Hst]; [lia|].
    eexists. split; [|exists st; exact Hst]. destruct (_ =? _); [right|left; apply app_nil_r].
    rewrite str_take_append_le in Hne by done. split; [apply Hne; lia|done].
  - exists (es ++ [e]). split; [right; split; [apply Hne; lia|done]|]. rewrite str_take_all by (rewrite length_append_s; simpl; lia).
    rewrite journal_text_snoc. eexists. by eapply replay_journal.
Qed.

Lemma load_stored f id d es :
  f !! session_path id = Some (encode_snapshot d) →
  match f !! journal_of id with
  | Some text => ∃ st, replay_lines parse_entry (lines text) = Some (wire_entry <$> es, st)
  | None => es = []
  end →
  ∃ l dk, load id (mkDisk f []) = Finished (Ok l) dk ∧ snapshot_of_session l = shown d es.
Proof using laws.
  intros Hp Hj. apply load_reads. exists (encode_snapshot d), (wire_snapshot d), (wire_entry <$> es).
  split_and!; [done|apply laws|apply laws| |done]. destruct (f !! journal_of id); [done|by subst].
Qed.

(** C14: Interrupted saves lose nothing that was stored.  A session with a
    snapshot on disk is saved, and whatever calls fail and wherever the process
    is interrupted, the files can be loaded afterwards and show the session as
    it was stored before, or as it is in memory, or as it is in memory with the
    entries of the journal applied a second time.  The entry that a save appends
    has to be plain: cut anywhere it is still text, and no other entry seems to
    start inside it. *)
Theorem interrupted_saves_stay_loadable (s : Session) (f : Files) (now : DateTime) (pid nonce : N) (outcomes : list Outcome) :
  lived s f → ps_snapshot_exists (se_persist_state s) = true →
  plain_entry encode_entry (next_entry (touched now s)) →
  let id := h_id (se_head s) in
  let f' := run_files (save now pid nonce s (mkDisk f outcomes)) in
  ∃ d es l dk,
    load id (mkDisk f []) = Finished (Ok (fresh_session (shown d es))) (mkDisk f [])
    ∧ load id (mkDisk f' []) = Finished (Ok l) dk
    ∧ (snapshot_of_session l = shown d es
       ∨ same_content (snapshot_of_session l) (touched now s)
       ∨ ∃ es', (es' = es ∨ es' = es ++ [next_entry (touched now s)])
         ∧ snapshot_of_session l = shown (snapshot_of_session (touched now s)) es'
         ∧ se_messages l = se_messages s ++ (es' ≫= je_append_messages)).
Proof using laws.
  intros Hl Hx Hp id f'. set (s' := touched now s) in *.
  destruct (lived_stored s f Hl Hx) as (d & es & Hh & Hv & Hi & Hc). exists d, es.
  destruct (triple_files true f _ _ outcomes (session_save_triple encode_snapshot encode_entry now pid nonce s f) (faults_any _))
    as (f1 & Hf1 & Hck). fold f' s' id in Hck.
  assert (f1 !! session_path id = f !! session_path id
    ∧ (needs_snapshot s' = true ∧ f1 !! journal_of id = f !! journal_of id
       ∨ needs_snapshot s' = false ∧ (f1 !! journal_of id = f !! journal_of id
          ∨ ∃ n, f1 !! journal_of id = Some (default "" (f !! journal_of id) +:+ str_take n (encode_entry (next_entry s') +:+ newline)))))
    as [Hp1 Hj1].
  { destruct Hf1 as [->|[Ha [H1 H2]]]; [split; [done|]; destruct (needs_snapshot s'); auto|]. split; [done|].
    apply negb_true_iff in Ha. auto. }
  destruct Hh as [Hpath Hj]. fold id in Hpath, Hj.
  destruct (grown_reads (next_entry s') es (f !! journal_of id) (f1 !! journal_of id) Hp Hj) as (es' & Hes & Hread).
  { destruct Hj1 as [[_ ?]|[_ ?]]; auto. }
  assert (needs_snapshot s' = false → es' = es ++ [next_entry s'] → same_content (shown d es') s') as Hnew.
  { intros Hn ->. rewrite shown_snoc. apply orb_false_iff in Hn as [_ Hn]. by apply next_entry_completes. }
  assert (es' = es ∨ needs_snapshot s' = false ∧ es' = es ++ [next_entry s']) as Hes'.
  { destruct Hes as [|[Hne ?]]; [by left|]. destruct Hj1 as [[_ ?]|[? _]]; [done|auto]. }
  pose proof (load_holds encode_snapshot decode_snapshot decode_stub decode_remote encode_entry parse_entry f id d es
    (conj Hpath Hj)) as Eold. destruct Hck as [[Hk1 Hk2]|[Hk1 [Hk2|Hk2]]].
  - destruct (load_stored f' id d es') as (l & dk & El & Esn); [congruence|by rewrite Hk2|]. exists l, dk. split_and!; [done|done|].
    rewrite Esn. destruct Hes' as [->|[? ?]]; auto.
  - destruct (load_stored f' id (snapshot_of_session s') es') as (l & dk & El & Esn); [done|by rewrite Hk2|].
    exists l, dk. split_and!; [done|done|]. right. right. exists es'. split_and!; [naive_solver|done|].
    change (se_messages l) with (sn_messages (snapshot_of_session l)). rewrite Esn. apply shown_messages.
  - destruct (load_stored f' id (snapshot_of_session s') []) as (l & dk & El & Esn); [done|by rewrite Hk2|].
    exists l, dk. split_and!; [done|done|]. right. left. rewrite Esn. apply snapshot_same.
Qed.

(** ** The provider cache *)

Lemma hash_chain_take prev n l : take n (hash_chain to_vec debug prev l) = hash_chain to_vec debug prev (take n l).
Proof using Type. revert prev n. induction l as [|m l IH]; intros prev [|n]; simpl; try done. f_equal. apply IH. Qed.

Lemma hash_chain_length prev l : length (hash_chain to_vec debug prev l) = length l.
Proof using Type. revert prev. induction l as [|m l IH]; intros prev; simpl; [done|]. by rewrite IH. Qed.

(** C28: The provider cache is transparent.  After any history, the messages that
    a session hands to the provider, from a cache that appending extends and that
    every other change of the transcript invalidates, are the messages converted
    afresh, and the hashes it hands out beside them are the chain of stable
    hashes: one for each message, and the first n of them depend on the first n
    messages only. *)
Theorem provider_cache_is_transparent (s : Session) (f : Files) :
  lived s f →
  let messages := messages_for_provider_uncached s in
  let hashes := (provider_message_prefix_hashes to_vec debug s).2 in
  (provider_messages to_vec debug s).2 = messages
  ∧ hashes = hash_chain to_vec debug None messages ∧ length hashes = length messages
  ∧ (∀ n, take n hashes = hash_chain to_vec debug None (take n messages))
  ∧ snapshot_of_session (provider_messages to_vec debug s).1 = snapshot_of_session s.
Proof using laws.
  intros Hl messages hashes. destruct (lived_invariant s f Hl) as [_ Hc].
  destruct (provider_messages_spec to_vec debug s Hc) as [(H1 & H2 & _) Hs].
  assert (hashes = hash_chain to_vec debug None messages) as Hh by exact H2.
  split_and!; [exact H1|done|rewrite Hh; apply hash_chain_length|intros n; rewrite Hh; apply hash_chain_take|by rewrite Hs].
Qed.

(** ** What crashes and appended metadata lose *)

(** A write over an existing file takes six calls. *)
Lemma write_six_calls pid nonce id bytes (f : Files) rest :
  is_Some (f !! session_path id) →
  ∃ f', write_bytes_inner pid nonce (session_path id) bytes false false (mkDisk f (replicate 6 Succeeds ++ rest))
        = Finished (Ok tt) (mkDisk f' rest)
  ∧ f' !! session_path id = Some bytes ∧ f' !! journal_of id = f !! journal_of id.
Proof using Type.
  intros [old Hold]. set (path := session_path id) in *. set (bak := with_extension path "bak"). set (tmp := tmp_path pid nonce path).
  assert (tmp ≠ path) as N1 by apply tmp_path_ne. assert (tmp ≠ bak) as N2 by apply tmp_bak_ne.
  assert (path ≠ bak) as N3 by apply session_path_bak. pose proof (journal_ne_tmp id pid nonce) as N4. fold path tmp in N4.
  pose proof (journal_ne_path id) as N5. pose proof (journal_ne_bak id) as N6. fold path in N5, N6. fold bak in N6.
  unfold write_bytes_inner, replace_file, io_bind, settle, io_when, touch, fs_create, fs_write_all, fs_remove, fs_hard_link, fs_rename,
    fs_exists, atomic, call, io_ret.
  cbn [replicate app dk_outcomes dk_files tail]. fold path bak tmp. set (g := <[tmp := bytes]> (<[tmp := ""]> f)).
  assert (g !! path = Some old ∧ g !! tmp = Some bytes ∧ g !! journal_of id = f !! journal_of id) as (G1 & G2 & G3).
  { unfold g. rewrite lookup_insert_eq, !lookup_insert_ne by done. auto. }
  clearbody g. rewrite G1, bool_decide_true by done. cbn [dk_outcomes dk_files tail andb].
  destruct (g !! bak) as [b|] eqn:Eb; cbn [dk_outcomes dk_files tail andb].
  - rewrite lookup_delete_ne, G1, lookup_delete_eq by done. cbn [dk_outcomes dk_files tail andb].
    rewrite lookup_insert_ne, lookup_delete_ne, G2 by done. cbn [dk_outcomes dk_files tail andb].
    eexists. split; [done|]. rewrite lookup_insert_eq. split; [done|].
    by rewrite lookup_insert_ne, lookup_delete_ne, lookup_insert_ne, lookup_delete_ne, G3 by done.
  - rewrite G1, Eb. cbn [dk_outcomes dk_files tail andb]. rewrite lookup_insert_ne, G2 by done. cbn [dk_outcomes dk_files tail andb].
    eexists. split; [done|]. rewrite lookup_insert_eq. split; [done|].
    by rewrite lookup_insert_ne, lookup_delete_ne, lookup_insert_ne, G3 by done.
Qed.

(** A crash can repeat messages.  When a save writes a new snapshot, it
    removes the journal only afterwards; a process that ends in between, with no
    call failing, leaves files in which every message of the journal comes a
    second time after the transcript. *)
Theorem crash_repeats_journal_messages (s : Session) (f : Files) (now : DateTime) (pid nonce : N)
    (d : SessionSnapshot) (es : list SessionJournalEntry) (text : string) :
  let id := h_id (se_head s) in
  holds f id d es → f !! journal_of id = Some text → needs_snapshot (touched now s) = true →
  let run := save now pid nonce s (mkDisk f (replicate 6 Succeeds ++ [Crashes 0])) in
  ∃ l dk, run = Crashed (run_files run)
  ∧ load id (mkDisk (run_files run) []) = Finished (Ok l) dk
  ∧ se_messages l = se_messages s ++ (es ≫= je_append_messages).
Proof using laws.
  intros id [Hp Hj] Ht Hn run. rewrite Ht in Hj. subst text.
  destruct (write_six_calls pid nonce id (encode_snapshot (snapshot_of_session (touched now s))) f [Crashes 0])
    as (f' & E & Hp' & Hj'); [by rewrite Hp|].
  assert (run = Crashed f') as ->.
  { unfold run, SessionStore.save. fold (touched now s). fold (needs_snapshot (touched now s)). rewrite Hn.
    change (h_id (se_head (touched now s))) with id. unfold checkpoint_snapshot, write_json_fast, settle at 1. rewrite E.
    unfold io_bind, settle, fs_exists. cbn [dk_files]. fold (journal_of id). rewrite Hj', Ht, bool_decide_true by done. done. }
  cbn [run_files]. destruct (load_stored f' id (snapshot_of_session (touched now s)) es) as (l & dk & El & Esn); [done| |].
  { rewrite Hj', Ht. eexists. by eapply replay_journal. }
  exists l, dk. split_and!; [done|done|]. change (se_messages l) with (sn_messages (snapshot_of_session l)). rewrite Esn.
  apply shown_messages.
Qed.

Lemma replay_bad_line es bad : utf8 bad = false → replay_lines parse_entry ((encode_entry <$> es) ++ [bad]) = None.
Proof using laws.
  intros Hb. induction es as [|e es IH]; [cbn [fmap list_fmap app replay_lines]; by rewrite Hb|].
  cbn [fmap list_fmap app replay_lines]. rewrite (entry_utf8 _ _ _ _ _ _ e), IH. done.
Qed.

(** A character cut by a crash blocks the session.  When a process ends
    while it appends to the journal and the bytes written so far end inside a
    character, loading the session fails: the line is not skipped. *)
Theorem cut_character_blocks_loading (s : Session) (f : Files) (now : DateTime) (pid nonce : N)
    (d : SessionSnapshot) (es : list SessionJournalEntry) (n : nat) :
  let id := h_id (se_head s) in
  holds f id d es → needs_snapshot (touched now s) = false →
  utf8 (str_take n (encode_entry (next_entry (touched now s)))) = false →
  let run := save now pid nonce s (mkDisk f [Succeeds; Succeeds; Crashes n]) in
  run = Crashed (run_files run) ∧ load id (mkDisk (run_files run) []) = Finished (Err OtherError) (mkDisk (run_files run) []).
Proof using laws.
  intros id [Hp Hj] Hn Hu run. set (e := next_entry (touched now s)) in *.
  assert (0 < n ∧ n ≤ String.length (encode_entry e)) as [Hn0 Hle].
  { destruct n; [by destruct (encode_entry e)|]. split; [lia|]. destruct (decide (S n ≤ String.length (encode_entry e))); [done|].
    rewrite str_take_all, (entry_utf8 _ _ _ _ _ _ e) in Hu by lia. done. }
  assert (∃ f', run = Crashed f' ∧ f' !! session_path id = Some (encode_snapshot d)
    ∧ f' !! journal_of id = Some (journal_text encode_entry es +:+ str_take n (encode_entry e))) as (f' & -> & Hp' & Hj').
  { unfold run, SessionStore.save. fold (touched now s). fold (needs_snapshot (touched now s)). rewrite Hn.
    change (h_id (se_head (touched now s))) with id. fold e. fold (journal_of id).
    unfold append_json_line_fast, io_bind, settle, touch, fs_open_append, fs_append, atomic, call. cbn [dk_outcomes dk_files tail].
    eexists. split; [done|]. unfold appended. rewrite lookup_insert_eq, lookup_insert_ne by apply journal_ne_path.
    rewrite str_take_append_le by done. destruct (f !! journal_of id) as [j|] eqn:Ej.
    - subst j. by rewrite Ej.
    - subst es. by rewrite lookup_insert_eq, lookup_insert_ne by apply journal_ne_path. }
  split; [done|]. cbn [run_files].
  unfold SessionStore.load, load_from_path, io_bind at 1, read_json. unfold settle at 1, io_bind at 1, settle at 1.
  unfold fs_read, atomic, call. simpl. rewrite Hp', (snapshot_utf8 _ _ _ _ _ _ d). simpl. rewrite (snapshot_roundtrip _ _ _ _ _ _ d). simpl.
  unfold io_bind at 1, settle at 1, replay_journal_lines, io_bind at 1, settle at 1. simpl. fold (journal_of id).
  rewrite Hj', bool_decide_true by done. simpl. unfold io_bind at 1, settle at 1. unfold fs_read_bytes, atomic, call. simpl.
  rewrite Hj'. simpl. unfold journal_text. rewrite lines_of_torn_text.
  - by rewrite replay_bad_line.
  - by eapply entries_line_ok.
  - by eapply any_byte_take, entry_one_line.
  - destruct (entry_braces _ _ _ _ _ _ e) as (x & -> & _). by destruct n; [lia|].
Qed.

Lemma shown_route d es : h_route_api_method (sn_head (shown d es)) = h_route_api_method (sn_head d).
Proof using Type.
  induction es as [|e es IH] using rev_ind; [done|]. rewrite shown_snoc, <- IH. done.
Qed.

(** Some metadata waits for a snapshot.  A save that leaves the snapshot file
    as it was (it appended to the journal) stores neither the API method of the
    session's route nor, for the startup stub, any metadata: loading returns the
    API method that was stored before, and the stub still shows what it showed
    before the save, while loading shows the session's model. *)
Theorem appended_metadata_is_partial (s : Session) (f : Files) (now : DateTime) (pid nonce : N) (s' : Session) (f' : Files) :
  lived s f → ps_snapshot_exists (se_persist_state s) = true →
  save now pid nonce s (mkDisk f []) = Finished (Ok (s', Ok tt)) (mkDisk f' []) →
  let id := h_id (se_head s) in
  f' !! session_path id = f !! session_path id →
  ∃ old l stub,
    load id (mkDisk f []) = Finished (Ok old) (mkDisk f [])
    ∧ load id (mkDisk f' []) = Finished (Ok l) (mkDisk f' [])
    ∧ h_route_api_method (se_head l) = h_route_api_method (se_head old)
    ∧ h_model (se_head l) = h_model (se_head s)
    ∧ load_stub id (mkDisk f []) = Finished (Ok stub) (mkDisk f [])
    ∧ load_stub id (mkDisk f' []) = Finished (Ok stub) (mkDisk f' []).
Proof using laws.
  intros Hl Hx E id Hsame. destruct (lived_stored s f Hl Hx) as (d & es & Hh & Hv & _ & _). fold id in Hh.
  destruct (session_save_runs encode_snapshot encode_entry now pid nonce s f (proj1 (lived_invariant s f Hl)))
    as (f1 & d1 & es1 & E1 & Hh1 & Hc1 & _). rewrite E in E1. simplify_eq. fold id in Hh1.
  assert (encode_snapshot d1 = encode_snapshot d) as Ee.
  { destruct Hh as [Hp _], Hh1 as [Hp1 _]. congruence. }
  assert (sn_head d1 = sn_head d) as Ehd.
  { pose proof (snapshot_stub encode_snapshot decode_snapshot decode_stub decode_remote encode_entry parse_entry d) as H1.
    pose proof (snapshot_stub encode_snapshot decode_snapshot decode_stub decode_remote encode_entry parse_entry d1) as H2.
    rewrite Ee in H2. congruence. }
  exists (fresh_session (shown d es)), (fresh_session (shown d1 es1)), (session_from_startup_stub (sn_head d)).
  split; [by eapply load_holds|]. split; [by eapply load_holds|]. split; [|split; [|split; [by eapply stub_holds|]]].
  - change (h_route_api_method (sn_head (shown d1 es1)) = h_route_api_method (sn_head (shown d es))). by rewrite !shown_route, Ehd.
  - destruct Hc1 as (_ & _ & _ & _ & Hm & _). exact (f_equal jm_model Hm).
  - rewrite <- Ehd. by eapply stub_holds.
Qed.

(** ** Building histories *)

Lemma lived_step s f s' f' :
  lived s f → session_step encode_snapshot decode_snapshot encode_entry parse_entry to_vec debug (s, f) (s', f') → lived s' f'.
Proof using Type. intros (s0 & f0 & H1 & H2 & H3) Hst. exists s0, f0. split_and!; [done|done|]. by eapply rtc_r. Qed.

Lemma lived_first_save s f now (pid nonce : N) :
  lived s f → ps_snapshot_exists (se_persist_state s) = false →
  lived (reset_persist_state true (touched now s))
    {[session_path (h_id (se_head s)) := encode_snapshot (snapshot_of_session (touched now s))]}.
Proof using Type.
  intros Hl Hx. set (s' := touched now s). set (id := h_id (se_head s)).
  destruct (checkpoint_runs encode_snapshot encode_entry pid nonce id s' f) as (f' & E & [Hp _] & Hj).
  assert (needs_snapshot s' = true) as Hn.
  { unfold needs_snapshot, vectors_need_snapshot. simpl. rewrite Hx. simpl. apply orb_true_r. }
  eapply lived_step; [eapply lived_step; [exact Hl|eapply (StepSave _ _ _ _ _ _ now pid nonce s _ f (mkDisk f' []))]|].
  - unfold SessionStore.save. fold (touched now s). fold s'. fold (needs_snapshot s'). rewrite Hn. exact E.
  - apply StepOther; change (h_id (se_head (reset_persist_state true s'))) with id; cbn [dk_files].
    + rewrite Hp. apply lookup_singleton_eq.
    + rewrite Hj. apply lookup_singleton_ne. by apply not_eq_sym, journal_ne_path.
Qed.
End Claims.

(** ** Witnesses *)

Notation demo_session := (@Session text_json tick_chrono).

Definition demo_message (n : N) (text : string) : @StoredMessage text_json tick_chrono :=
  mkStoredMessage "m" User [Text text None] None (Some n : option (@DateTime tick_chrono)) None None.

Definition demo_new : demo_session :=
  create_with_id "session_fox_1" None None (10%N : @DateTime tick_chrono) 7 (Some "/repo") false.
Definition demo_first : demo_session := append_stored_message (demo_message 11 "hello") demo_new.
(** After the first save, with a message since. *)
Definition demo_saved : demo_session := reset_persist_state true (touched (12%N : @DateTime tick_chrono) demo_first).
Definition demo_live : demo_session := append_stored_message (demo_message 13 "again") demo_saved.
Definition demo_now : @DateTime tick_chrono := 14%N.

Definition demo_vec : @Message text_json tick_chrono → option (list N) := λ _, None.
Definition demo_debug : @Message text_json tick_chrono → list N := λ m, [N.of_nat (length (content m))].

(** The model and its route were switched. *)
Definition demo_switched : demo_session :=
  let h := se_head demo_live in
  set_head (mkHead (h_id h) (h_parent_id h) (h_title h) (h_custom_title h) (h_created_at h) (h_updated_at h) (h_compaction h)
    (h_provider_session_id h) (h_provider_key h) (Some "gpt") (Some "openai-api") (h_reasoning_effort h) (h_subagent_model h)
    (h_improve_mode h) (h_autoreview_enabled h) (h_autojudge_enabled h) (h_working_dir h) (h_short_name h) (h_status h)
    (h_last_pid h) (h_last_active_at h) (h_is_debug h) (h_saved h) (h_save_label h)) demo_live.

Definition demo_snapshots : list DSnapshot := [snapshot_of_session demo_saved].
Definition demo_entries : list DEntry :=
  [next_entry (touched demo_now demo_live); next_entry (touched demo_now demo_switched)].
Notation enc_snapshot := (demo_encode_snapshot demo_snapshots).
Notation dec_snapshot := (demo_decode_snapshot demo_snapshots).
Notation dec_stub := (demo_decode_stub demo_snapshots).
Notation dec_remote := (demo_decode_remote demo_snapshots).
Notation enc_entry := (demo_encode_entry demo_entries "").
Notation par_entry := (demo_parse_entry demo_entries "").

Lemma plain_laws : CodecLaws enc_snapshot dec_snapshot dec_stub dec_remote enc_entry par_entry.
Proof. apply demo_laws; done. Qed.

Definition demo_files : Files := {[session_path "session_fox_1" := enc_snapshot (snapshot_of_session demo_saved)]}.

Lemma demo_lived : lived enc_snapshot dec_snapshot enc_entry par_entry demo_vec demo_debug demo_live demo_files.
Proof.
  eapply lived_step; [|apply StepEdit, EditAppend].
  apply (lived_first_save enc_snapshot dec_snapshot enc_entry par_entry demo_vec demo_debug demo_first ∅ 12%N 7 1); [|done].
  eapply lived_step; [|apply StepEdit, EditAppend].
  exists demo_new, ∅. split_and!; [by eexists _, _, _, _, _, _, _, _|done|done].
Qed.

Lemma take_code_utf8 n s : any_byte (λ c, negb (code_byte c) && negb (is_brace c)) s = false → utf8 (str_take n s) = true.
Proof.
  unfold utf8. revert n. induction s as [|c s IH]; intros [|n] H; [done..|]. cbn [any_byte] in H. apply orb_false_iff in H as [Hc Hs].
  cbn [str_take utf8_from]. assert (negb (is_cont c) = true ∧ char_len c - 1 = 0) as [-> ->]; [|by apply IH].
  unfold code_byte, is_brace in Hc. rewrite <- negb_orb, negb_false_iff, !orb_true_iff in Hc.
  destruct Hc as [[[[E|E]|E]|E]|E]; apply Ascii.eqb_eq in E; subst; done.
Qed.

Lemma find_no_start pat s : any_byte (Ascii.eqb "{"%char) s = false → str_find (String "{"%char pat) s = None.
Proof.
  induction s as [|c s IH]; intros H; [done|]. cbn [any_byte] in H. apply orb_false_iff in H as [Hc Hs].
  cbn [str_find starts_with]. apply Ascii.eqb_neq in Hc. rewrite bool_decide_false by done. simpl. by rewrite IH.
Qed.

Lemma demo_plain e : plain_entry enc_entry e.
Proof.
  unfold plain_entry, demo_encode_entry, entry_head. set (x := code demo_entries (wire_entry e)).
  pose proof (code_bytes demo_entries (wire_entry e)) as Hx. fold x in Hx. clearbody x. split.
  - intros n. destruct (decide (String.length (ENTRY_START +:+ "") ≤ n)) as [Hn|Hn].
    + rewrite str_take_append_ge by done.
      change (utf8 (str_take (n - 8) (x +:+ "}")) = true). apply take_code_utf8. rewrite any_byte_append, orb_false_r.
      eapply any_byte_weaken; [|exact Hx]. intros c [? _]%andb_true_iff. done.
    + rewrite str_take_append_le by lia. do 8 (destruct n as [|n]; [done|]). simpl in Hn. lia.
  - change (str_find ENTRY_START (x +:+ "}") = None). apply find_no_start. rewrite any_byte_append, orb_false_r.
    eapply any_byte_weaken; [|exact Hx]. intros c <-%Ascii.eqb_eq. done.
Qed.

Lemma saved_sessions_load_back_witness :
  lived enc_snapshot dec_snapshot enc_entry par_entry demo_vec demo_debug demo_live demo_files
  ∧ ∃ f' l, load dec_snapshot par_entry "session_fox_1" (mkDisk f' []) = Finished (Ok l) (mkDisk f' [])
    ∧ length (se_messages l) = 2.
Proof.
  split; [exact demo_lived|].
  destruct (saved_sessions_load_back enc_snapshot dec_snapshot dec_stub dec_remote enc_entry par_entry (laws := plain_laws)
    demo_vec demo_debug demo_live demo_files demo_now 7 2 demo_lived) as (s' & f' & l & r & _ & El & _ & Hm & _).
  exists f', l. split; [exact El|]. by rewrite Hm.
Defined.

(** The append is cut after three bytes. *)
Lemma interrupted_saves_stay_loadable_witness :
  lived enc_snapshot dec_snapshot enc_entry par_entry demo_vec demo_debug demo_live demo_files
  ∧ ∃ l dk, load dec_snapshot par_entry "session_fox_1"
      (mkDisk (run_files (save enc_snapshot enc_entry demo_now 7 2 demo_live (mkDisk demo_files [Succeeds; Succeeds; Crashes 3]))) [])
    = Finished (Ok l) dk.
Proof.
  split; [exact demo_lived|].
  destruct (interrupted_saves_stay_loadable enc_snapshot dec_snapshot dec_stub dec_remote enc_entry par_entry (laws := plain_laws)
    demo_vec demo_debug demo_live demo_files demo_now 7 2 [Succeeds; Succeeds; Crashes 3] demo_lived eq_refl (demo_plain _))
    as (d & es & l & dk & _ & El & _). by exists l, dk.
Defined.

Lemma provider_cache_is_transparent_witness :
  lived enc_snapshot dec_snapshot enc_entry par_entry demo_vec demo_debug demo_live demo_files
  ∧ (provider_messages demo_vec demo_debug demo_live).2 = to_message <$> [demo_message 11 "hello"; demo_message 13 "again"].
Proof.
  split; [exact demo_lived|].
  exact (proj1 (provider_cache_is_transparent enc_snapshot dec_snapshot dec_stub dec_remote enc_entry par_entry (laws := plain_laws)
    demo_vec demo_debug demo_live demo_files demo_lived)).
Defined.

(** A rename with a journal of one entry. *)
Definition demo_renamed : demo_session := rename_title demo_now (Some "t") (reset_persist_state true (touched demo_now demo_live)).
Definition demo_journal_files : Files :=
  <[journal_of "session_fox_1" := journal_text enc_entry [next_entry (touched demo_now demo_live)]]> demo_files.

Lemma crash_repeats_journal_messages_witness :
  ∃ l dk, load dec_snapshot par_entry "session_fox_1"
      (mkDisk (run_files (save enc_snapshot enc_entry demo_now 7 2 demo_renamed
        (mkDisk demo_journal_files (replicate 6 Succeeds ++ [Crashes 0])))) []) = Finished (Ok l) dk
  ∧ length (se_messages demo_renamed) = 2 ∧ length (se_messages l) = 3.
Proof.
  destruct (crash_repeats_journal_messages enc_snapshot dec_snapshot dec_stub dec_remote enc_entry par_entry (laws := plain_laws)
    demo_renamed demo_journal_files demo_now 7 2 (snapshot_of_session demo_saved) [next_entry (touched demo_now demo_live)]
    (journal_text enc_entry [next_entry (touched demo_now demo_live)])) as (l & dk & _ & El & Hm); [|done|done|].
  { split; [|done]. unfold demo_journal_files. rewrite lookup_insert_ne by apply journal_ne_path. apply lookup_singleton_eq. }
  exists l, dk. split; [exact El|]. split; [done|]. by rewrite Hm.
Defined.

(** Entries with a character of two bytes in front. *)
Definition e_acute : string := str_bytes [195; 169].
Lemma acute_laws : CodecLaws enc_snapshot dec_snapshot dec_stub dec_remote (demo_encode_entry demo_entries e_acute)
  (demo_parse_entry demo_entries e_acute).
Proof. apply demo_laws; [intros s Hs; exact Hs|done|done]. Qed.

Lemma cut_character_blocks_loading_witness :
  let run := save enc_snapshot (demo_encode_entry demo_entries e_acute) demo_now 7 2 demo_live
               (mkDisk demo_files [Succeeds; Succeeds; Crashes 9]) in
  load dec_snapshot (demo_parse_entry demo_entries e_acute) "session_fox_1" (mkDisk (run_files run) [])
  = Finished (Err OtherError) (mkDisk (run_files run) []).
Proof.
  refine (proj2 (cut_character_blocks_loading enc_snapshot dec_snapshot dec_stub dec_remote (demo_encode_entry demo_entries e_acute)
    (demo_parse_entry demo_entries e_acute) (laws := acute_laws) demo_live demo_files demo_now 7 2 (snapshot_of_session demo_saved) [] 9
    _ eq_refl _)).
  - split; [apply lookup_singleton_eq|done].
  - reflexivity.
Defined.

Definition demo_switched_files : Files :=
  run_files (save enc_snapshot enc_entry demo_now 7 2 demo_switched (mkDisk demo_files [])).

Lemma demo_switched_save :
  save enc_snapshot enc_entry demo_now 7 2 demo_switched (mkDisk demo_files [])
  = Finished (Ok (reset_persist_state true (touched demo_now demo_switched), Ok tt)) (mkDisk demo_switched_files []).
Proof. vm_compute. reflexivity. Qed.

Lemma demo_switched_same : demo_switched_files !! session_path "session_fox_1" = demo_files !! session_path "session_fox_1".
Proof. vm_compute. reflexivity. Qed.

Lemma demo_switched_lived : lived enc_snapshot dec_snapshot enc_entry par_entry demo_vec demo_debug demo_switched demo_files.
Proof. eapply lived_step; [exact demo_lived|]. by apply StepEdit, EditHead. Qed.

(** The session's model is stored, its API method is not. *)
Lemma appended_metadata_is_partial_witness :
  h_route_api_method (se_head demo_switched) = Some "openai-api"
  ∧ ∃ l, load dec_snapshot par_entry "session_fox_1" (mkDisk demo_switched_files []) = Finished (Ok l) (mkDisk demo_switched_files [])
    ∧ h_model (se_head l) = Some "gpt".
Proof.
  split; [done|].
  destruct (appended_metadata_is_partial enc_snapshot dec_snapshot dec_stub dec_remote enc_entry par_entry (laws := plain_laws)
    demo_vec demo_debug demo_switched demo_files demo_now 7 2 _ _ demo_switched_lived eq_refl demo_switched_save demo_switched_same)
    as (old & l & stub & _ & El & _ & Hm & _).
  exists l. split; [exact El|exact Hm].
Defined.
