(* ===== verification/OpenAiStream.v ===== *)
(** * The OpenAI response stream

    crates/jcode-provider-openai/src/stream.rs: the reading of the Responses API's
    server-sent events and their translation into [StreamEvent]s.

    [serde_json] is a parameter: [parse_json] reads a whole text, [parse_prefix]
    one value off the front of a text with the bytes it took, and [render] writes
    a value; an object repeats no key.  [str::to_lowercase] is a parameter too.
    What saving a generated image meets (the base64 text, the directory, the two
    files, the clock) is a record, [ImageEnv].  Log messages are left out. *)

From stdpp Require Import base list strings gmap pretty.
From S2P Require Import Prelude RustString RustText Message Failover Schema.

Open Scope string_scope.
Open Scope nat_scope.
Open Scope list_scope.

(** ** Values *)

Definition value_field (v : json) (k : string) : option json := match v with VObject m => obj_get k m | _ => None end.
Definition str_field (v : json) (k : string) : option string := value_field v k ≫= as_str.
Definition as_array (v : json) : option (list json) := match v with VArray l => Some l | _ => None end.
Definition is_object_or_array (v : json) : bool := match v with VObject _ | VArray _ => true | _ => false end.

Fixpoint digits_value (acc : N) (s : string) : option N :=
  match s with
  | "" => Some acc
  | String c rest => if is_ascii_digit c then digits_value (acc * 10 + (byte_val c - 48)) rest else None
  end.
(** [Value::as_u64]: an integer literal in range. *)
Definition as_u64 (v : json) : option N :=
  match v with
  | VNumber digits => if str_is_empty digits then None
                      else digits_value 0 digits ≫= λ n, if (n <? 2 ^ 64)%N then Some n else None
  | _ => None
  end.
Definition u64_field (v : json) (k : string) : option N := value_field v k ≫= as_u64.

Definition is_tool_item (item : json) : bool :=
  match str_field item "type" with
  | Some t => String.eqb t "function_call" || String.eqb t "custom_tool_call"
  | None => false
  end.

(** ** Events of the API *)

Record ResponseSseEvent := mkSse {
  sse_kind : string;
  sse_item : option json;
  sse_delta : option string;
  sse_item_id : option string;
  sse_call_id : option string;
  sse_name : option string;
  sse_arguments : option string;
  sse_response : option json;
  sse_error : option json;
}.

(** A missing or null field is [None]; a value of another type is an error. *)
Definition opt_string (m : members) (k : string) : option (option string) :=
  match obj_get k m with
  | None | Some VNull => Some None
  | Some (VString s) => Some (Some s)
  | Some _ => None
  end.
Definition opt_value (m : members) (k : string) : option json :=
  match obj_get k m with None | Some VNull => None | Some v => Some v end.

Definition sse_field_names : list string :=
  ["type"; "item"; "delta"; "item_id"; "call_id"; "name"; "arguments"; "response"; "error"].

(** The derived [Deserialize]: an object, or an array of all fields in order. *)
Definition sse_members (v : json) : option members :=
  match v with
  | VObject m => Some m
  | VArray l => if length l =? length sse_field_names then Some (zip sse_field_names l) else None
  | _ => None
  end.
Definition sse_from_value (v : json) : option ResponseSseEvent :=
  m ← sse_members v;
  kind ← obj_get "type" m ≫= as_str;
  delta ← opt_string m "delta";
  item_id ← opt_string m "item_id";
  call_id ← opt_string m "call_id";
  name ← opt_string m "name";
  arguments ← opt_string m "arguments";
  Some (mkSse kind (opt_value m "item") delta item_id call_id name arguments (opt_value m "response") (opt_value m "error")).

(** ** State *)

Record StreamingToolCallState := mkToolState { sc_call_id : option string; sc_name : option string; sc_arguments : string }.
Definition tool_state_default : StreamingToolCallState := mkToolState None None "".

(** What saving a generated image meets. *)
Record ImageEnv := mkImageEnv {
  ie_base64_len : string → option nat;
  ie_create_dir : bool;
  ie_write_image : bool;
  ie_write_metadata : bool;
  ie_dir : string;
  ie_timestamp_ms : N;
}.

Definition WEBSOCKET_FALLBACK_NOTICE : string := "falling back from websockets to https transport".

(** ** Recovered tool calls *)

Definition is_name_byte (c : Ascii.ascii) : bool := is_ascii_alphanumeric c || (byte_val c =? 95)%N.
Fixpoint name_len (s : string) : nat :=
  match s with
  | String c rest => if is_name_byte c then S (name_len rest) else 0
  | "" => 0
  end.

Definition quoted_key (k : string) : string := dquote +:+ k +:+ dquote.
Definition trim_quotes : string → string := trim_start_matches (λ c, bool_decide (c = dquote)).

Definition sanitize_recovered_tool_suffix (suffix : string) : string :=
  let trimmed := trim suffix in
  if str_is_empty trimmed then ""
  else
    let normalized := trim_quotes trimmed in
    if starts_with ("," +:+ quoted_key "item_id") normalized
       || starts_with ("," +:+ quoted_key "output_index") normalized
       || starts_with ("," +:+ quoted_key "sequence_number") normalized
       || starts_with ("," +:+ quoted_key "call_id") normalized
       || starts_with ("," +:+ quoted_key "type" +:+ ":" +:+ dquote +:+ "response.") normalized
       || (starts_with "," normalized && str_contains (quoted_key "item_id") normalized
           && (str_contains (quoted_key "output_index") normalized || str_contains (quoted_key "sequence_number") normalized))
    then "" else suffix.

Definition normalize_openai_tool_arguments (raw_arguments : string) : string :=
  let trimmed := trim raw_arguments in
  if str_is_empty trimmed || String.eqb trimmed "null" then "{}" else raw_arguments.

Definition streaming_tool_item_id (item : json) : option string :=
  match str_field item "id" with Some id => Some id | None => str_field item "item_id" end.

(** ** Reading responses *)

Fixpoint last_phase (newest_first : list json) : option string :=
  match newest_first with
  | [] => None
  | item :: rest =>
      if negb (bool_decide (str_field item "type" = Some "message")) then last_phase rest
      else if negb (bool_decide (str_field item "role" = Some "assistant")) then last_phase rest
      else match str_field item "phase" with Some phase => Some phase | None => last_phase rest end
  end.
Definition extract_last_assistant_message_phase (response : json) : option string :=
  output ← value_field response "output" ≫= as_array;
  last_phase (rev output).

Definition extract_stop_reason_from_response (response : json) : option string :=
  let status := str_field response "status" in
  if bool_decide (status = Some "completed") then
    if bool_decide (extract_last_assistant_message_phase response = Some "commentary") then Some "commentary" else None
  else
    match value_field response "incomplete_details" ≫= λ v, str_field v "reason" with
    | Some reason => Some reason
    | None => match status with Some s => if str_is_empty s then None else Some s | None => None end
    end.

Definition extract_cached_input_tokens (usage : json) : option N :=
  match value_field usage "input_tokens_details" with
  | Some details => u64_field details "cached_tokens"
  | None => value_field usage "prompt_tokens_details" ≫= λ details, u64_field details "cached_tokens"
  end.

Section Stream.
Context {J : Json}.
Context (to_lowercase : string → string) (parse_json : string → option json) (parse_prefix : string → option (json * nat))
  (render : json → string) (images : ImageEnv).

Definition extract_usage_from_response (response : json) : option StreamEvent :=
  usage ← value_field response "usage";
  let input_tokens := u64_field usage "input_tokens" in
  let output_tokens := u64_field usage "output_tokens" in
  let cache_read_input_tokens := extract_cached_input_tokens usage in
  match input_tokens, output_tokens, cache_read_input_tokens with
  | None, None, None => None
  | _, _, _ => Some (TokenUsage input_tokens output_tokens cache_read_input_tokens None)
  end.

Definition extract_error_with_retry (response top_level_error : option json) : string * option N :=
  let error := match response ≫= λ r, value_field r "error" with Some e => Some e | None => top_level_error end in
  match error with
  | None =>
      let details := response ≫= λ resp,
        (match value_field resp "status_message" with Some v => Some v | None => value_field resp "message" end) ≫= as_str in
      (default "OpenAI response stream error (no error details)" details, None)
  | Some error =>
      let message := default "OpenAI response stream error (unknown)" (str_field error "message") in
      let error_type := str_field error "type" in
      let code := str_field error "code" in
      let message_lower := to_lowercase message in
      let says x := str_contains (to_lowercase x) message_lower in
      let typed := match error_type with Some t => negb (says t) | None => false end in
      let coded := match code with Some c => negb (says c) | None => false end in
      let t := default "" error_type in
      let c := default "" code in
      let message :=
        if typed && coded then t +:+ " (" +:+ c +:+ "): " +:+ message
        else if typed then t +:+ ": " +:+ message
        else if coded then c +:+ ": " +:+ message
        else message in
      let retry_after := match u64_field error "retry_after" with
                         | Some n => Some n
                         | None => response ≫= λ r, u64_field r "retry_after"
                         end in
      (message, retry_after)
  end.

(** *** Plain text *)

Definition is_structured_response_event (data : string) : bool :=
  match parse_json data ≫= λ v, str_field v "type" with
  | Some kind => starts_with "response." kind || String.eqb kind "error"
  | None => false
  end.
Definition is_websocket_fallback_notice (data : string) : bool :=
  if is_structured_response_event data then false else str_contains WEBSOCKET_FALLBACK_NOTICE (to_lowercase data).

(** The loop over the braces of the text after the tool's name. *)
Fixpoint wrapped_call_from (prefix tool_name : string) (fallback : option (string * string * string * string)) (remaining : string) :
    option (string * string * string * string) :=
  match remaining with
  | "" => fallback
  | String c rest =>
      if negb (byte_val c =? 123)%N then wrapped_call_from prefix tool_name fallback rest
      else match parse_prefix remaining with
           | Some (VObject m, consumed) =>
               let suffix := trim (str_drop consumed remaining) in
               let call := (prefix, tool_name, render (VObject m), suffix) in
               if str_is_empty suffix then Some call
               else wrapped_call_from prefix tool_name (match fallback with Some f => Some f | None => Some call end) rest
           | _ => wrapped_call_from prefix tool_name fallback rest
           end
  end.

Definition parse_text_wrapped_tool_call (text : string) : option (string * string * string * string) :=
  let marker := "to=functions." in
  match str_find marker text with
  | None => None
  | Some marker_idx =>
      let after_marker := str_drop (marker_idx + String.length marker) text in
      let tool_name_end := name_len after_marker in
      if tool_name_end =? 0 then None
      else wrapped_call_from (trim_end (str_take marker_idx text)) (str_take tool_name_end after_marker) None
             (str_drop tool_name_end after_marker)
  end.

(** *** The parser's state *)

(** [pending] is the queue of events; the counter of fallback identifiers is
    global in the code. *)
Record StreamState := mkStream {
  ss_saw_text_delta : bool;
  ss_tool_calls : gmap string StreamingToolCallState;
  ss_completed : gset string;
  ss_pending : list StreamEvent;
  ss_counter : N;
}.
Definition stream_new (counter : N) : StreamState := mkStream false ∅ ∅ [] counter.

Definition push_back (es : list StreamEvent) (s : StreamState) : StreamState :=
  mkStream (ss_saw_text_delta s) (ss_tool_calls s) (ss_completed s) (ss_pending s ++ es) (ss_counter s).
Definition pop_front (s : StreamState) : option StreamEvent * StreamState :=
  match ss_pending s with
  | [] => (None, s)
  | e :: rest => (Some e, mkStream (ss_saw_text_delta s) (ss_tool_calls s) (ss_completed s) rest (ss_counter s))
  end.
Definition set_saw_text_delta (s : StreamState) : StreamState :=
  mkStream true (ss_tool_calls s) (ss_completed s) (ss_pending s) (ss_counter s).
Definition set_tool_calls (m : gmap string StreamingToolCallState) (s : StreamState) : StreamState :=
  mkStream (ss_saw_text_delta s) m (ss_completed s) (ss_pending s) (ss_counter s).
Definition set_completed (c : gset string) (s : StreamState) : StreamState :=
  mkStream (ss_saw_text_delta s) (ss_tool_calls s) c (ss_pending s) (ss_counter s).
(** [fetch_add(1)], with the wrap-around of the atomic. *)
Definition next_fallback_id (s : StreamState) : string * StreamState :=
  ("fallback_text_call_" +:+ pretty (ss_counter s),
   mkStream (ss_saw_text_delta s) (ss_tool_calls s) (ss_completed s) (ss_pending s) ((ss_counter s + 1) mod 2 ^ 64)%N).

Definition stream_text_or_recovered_tool_call (text : string) (s : StreamState) : option StreamEvent * StreamState :=
  if str_is_empty text then (None, s)
  else match parse_text_wrapped_tool_call text with
       | Some (prefix, tool_name, arguments, suffix) =>
           let suffix := sanitize_recovered_tool_suffix suffix in
           let s := push_back (if str_is_empty prefix then [] else [TextDelta prefix]) s in
           let '(id, s) := next_fallback_id s in
           pop_front
             (push_back ([ToolUseStart id tool_name; ToolInputDelta arguments; ToolUseEnd]
                         ++ if str_is_empty suffix then [] else [TextDelta suffix]) s)
       | None => (Some (TextDelta text), s)
       end.

(** [None] when the state has no name. *)
Definition stream_tool_call_from_state (item_id : option string) (state : StreamingToolCallState) (s : StreamState) :
    option StreamEvent * StreamState :=
  match sc_name state with
  | None => (None, s)
  | Some tool_name =>
      if str_is_empty tool_name then (None, s)
      else
        let given := match sc_call_id state with
                     | Some id => if str_is_empty id then item_id else Some id
                     | None => item_id
                     end in
        let '(raw_call_id, s) := match given with Some id => (id, s) | None => next_fallback_id s end in
        let arguments := normalize_openai_tool_arguments
                           (if str_is_empty (sc_arguments state) then "{}" else sc_arguments state) in
        pop_front (push_back [ToolUseStart (sanitize_tool_id raw_call_id) tool_name; ToolInputDelta arguments; ToolUseEnd] s)
  end.

(** *** Generated images *)

Definition is_safe_id_char (c : string) : bool :=
  match c with
  | String b "" => is_ascii_alphanumeric b || (byte_val b =? 95)%N || (byte_val b =? 45)%N
  | _ => false
  end.
Definition safe_image_id (item_id : string) : string :=
  let safe := str_concat (take 80 (List.filter is_safe_id_char (chars item_id))) in
  if str_is_empty safe then "image" else safe.

Definition handle_openai_image_generation_item (item : json) (s : StreamState) : option StreamEvent * StreamState :=
  match str_field item "result" with
  | None => (None, s)
  | Some result_b64 =>
      if str_is_empty result_b64 then (None, s)
      else match ie_base64_len images result_b64 with
      | None => (Some (TextDelta (newline +:+ "[Generated image received, but Jcode could not decode it.]" +:+ newline)), s)
      | Some byte_count =>
          let output_format := default "png" (str_field item "output_format") in
          let extension := if String.eqb output_format "jpeg" || String.eqb output_format "jpg" then "jpg"
                           else if String.eqb output_format "webp" then "webp" else "png" in
          let item_id := default "image" (str_field item "id") in
          if negb (ie_create_dir images) then
            (Some (TextDelta (newline +:+ "[Generated image received (" +:+ pretty byte_count
                              +:+ " bytes), but Jcode could not save it.]" +:+ newline)), s)
          else
            let stem := ie_dir images +:+ "/" +:+ pretty (ie_timestamp_ms images) +:+ "-" +:+ safe_image_id item_id in
            let path := stem +:+ "." +:+ extension in
            if negb (ie_write_image images) then
              (Some (TextDelta (newline +:+ "[Generated image received, but Jcode could not save it.]" +:+ newline)), s)
            else
              let metadata_path := if ie_write_metadata images then Some (stem +:+ ".json") else None in
              let markdown := newline +:+ "![Generated image](" +:+ path +:+ ")" +:+ newline +:+ newline
                +:+ "Generated image saved to `" +:+ path +:+ "`."
                +:+ (match metadata_path with Some p => newline +:+ "Metadata saved to `" +:+ p +:+ "`." | None => "" end)
                +:+ newline in
              (Some (GeneratedImage item_id path metadata_path output_format (str_field item "revised_prompt")),
               push_back [TextDelta markdown] s)
      end
  end.

(** *** Output items *)

Definition message_text (item : json) : string :=
  match value_field item "content" ≫= as_array with
  | None => ""
  | Some content =>
      str_concat ((λ entry,
        match str_field entry "type" with
        | Some t => if String.eqb t "output_text" || String.eqb t "text" then default "" (str_field entry "text") else ""
        | None => ""
        end) <$> content)
  end.

Definition summary_texts (item : json) : list string :=
  match value_field item "summary" ≫= as_array with
  | None => []
  | Some l => omap (λ summary_item, if bool_decide (str_field summary_item "type" = Some "summary_text")
                                    then str_field summary_item "text" else None) l
  end.

Definition raw_tool_arguments (item : json) : string :=
  match str_field item "arguments" with
  | Some a => a
  | None =>
      default "{}" (value_field item "input" ≫= λ v, if is_object_or_array v then Some (render v) else as_str v)
  end.

Definition handle_openai_output_item (item : json) (s : StreamState) : option StreamEvent * StreamState :=
  match str_field item "type" with
  | None => (None, s)
  | Some item_type =>
      if String.eqb item_type "compaction" then
        match str_field item "encrypted_content" with
        | Some e => (Some (EvCompaction "openai_native_auto" None (Some e)), s)
        | None => (None, s)
        end
      else if String.eqb item_type "function_call" || String.eqb item_type "custom_tool_call" then
        let call_id := default "" (str_field item "call_id") in
        let name := default "" (str_field item "name") in
        let arguments := normalize_openai_tool_arguments (raw_tool_arguments item) in
        pop_front (push_back [ToolUseStart call_id name; ToolInputDelta arguments; ToolUseEnd] s)
      else if String.eqb item_type "image_generation_call" then handle_openai_image_generation_item item s
      else if String.eqb item_type "message" then
        if ss_saw_text_delta s then (None, s) else stream_text_or_recovered_tool_call (message_text item) s
      else if String.eqb item_type "reasoning" then
        let id := default "" (str_field item "id") in
        let summary := summary_texts item in
        let encrypted_content := str_field item "encrypted_content" in
        let status := str_field item "status" in
        let has_summary := negb (bool_decide (summary = [])) in
        pop_front
          (push_back
             ((if negb (str_is_empty id) && (bool_decide (is_Some encrypted_content) || has_summary)
               then [EvOpenAIReasoning id summary encrypted_content status] else [])
              ++ if has_summary then [ThinkingStart; ThinkingDelta (String.concat newline summary); ThinkingEnd] else []) s)
      else (None, s)
  end.

(** *** One event *)

(** The state of a call after "response.output_item.added". *)
Definition tool_state_from_item (item : json) (state : StreamingToolCallState) : StreamingToolCallState :=
  mkToolState
    (match str_field item "call_id" with Some c => Some c | None => sc_call_id state end)
    (match str_field item "name" with Some n => Some n | None => sc_name state end)
    (match (match str_field item "arguments" with Some a => Some a | None => str_field item "input" end) with
     | Some a => a
     | None => match value_field item "input" with
               | Some input => if is_object_or_array input then render input else sc_arguments state
               | None => sc_arguments state
               end
     end).

(** The fields "call_id" and "name" of an event. *)
Definition tool_state_named (event : ResponseSseEvent) (state : StreamingToolCallState) : StreamingToolCallState :=
  mkToolState
    (match sse_call_id event with Some c => Some c | None => sc_call_id state end)
    (match sse_name event with Some n => Some n | None => sc_name state end)
    (sc_arguments state).
Definition with_arguments (a : string) (state : StreamingToolCallState) : StreamingToolCallState :=
  mkToolState (sc_call_id state) (sc_name state) a.

Definition finish_message (stop_reason : option string) (event : ResponseSseEvent) (s : StreamState) :
    option StreamEvent * StreamState :=
  let usage := match sse_response event ≫= extract_usage_from_response with Some u => [u] | None => [] end in
  pop_front (push_back (usage ++ [MessageEnd stop_reason]) s).

Definition item_added (event : ResponseSseEvent) (s : StreamState) : option StreamEvent * StreamState :=
  match sse_item event with
  | None => (None, s)
  | Some item =>
      if bool_decide (str_field item "type" = Some "reasoning") then (Some ThinkingStart, s)
      else if is_tool_item item then
        match streaming_tool_item_id item with
        | Some item_id =>
            let state := default tool_state_default (ss_tool_calls s !! item_id) in
            (None, set_tool_calls (<[item_id := tool_state_from_item item state]> (ss_tool_calls s)) s)
        | None => (None, s)
        end
      else (None, s)
  end.

Definition arguments_delta (event : ResponseSseEvent) (s : StreamState) : option StreamEvent * StreamState :=
  match sse_item_id event with
  | None => (None, s)
  | Some item_id =>
      let state := tool_state_named event (default tool_state_default (ss_tool_calls s !! item_id)) in
      let state := match sse_delta event with
                   | Some delta => with_arguments (sc_arguments state +:+ delta) state
                   | None => state
                   end in
      (None, set_tool_calls (<[item_id := state]> (ss_tool_calls s)) s)
  end.

Definition arguments_done (event : ResponseSseEvent) (s : StreamState) : option StreamEvent * StreamState :=
  match sse_item_id event with
  | None => (None, s)
  | Some item_id =>
      let state := tool_state_named event (default tool_state_default (ss_tool_calls s !! item_id)) in
      let state := match sse_arguments event with Some a => with_arguments a state | None => state end in
      let s := set_tool_calls (delete item_id (ss_tool_calls s)) s in
      let '(tool_event, s) := stream_tool_call_from_state (Some item_id) state s in
      match tool_event with
      | Some e => (Some e, set_completed ({[item_id]} ∪ ss_completed s) s)
      | None => (None, set_tool_calls (<[item_id := state]> (ss_tool_calls s)) s)
      end
  end.

(** The tool call of an item that "response.function_call_arguments.done" reported. *)
Definition reported_item (item : json) (s : StreamState) : option string :=
  match streaming_tool_item_id item with
  | Some item_id => if bool_decide (item_id ∈ ss_completed s) && is_tool_item item then Some item_id else None
  | None => None
  end.

Definition item_done (event : ResponseSseEvent) (s : StreamState) : option StreamEvent * StreamState :=
  match sse_item event with
  | None => (None, s)
  | Some item =>
      match reported_item item s with
      | Some item_id => (None, set_completed (ss_completed s ∖ {[item_id]}) s)
      | None => handle_openai_output_item item s
      end
  end.

Definition handle_sse_event (event : ResponseSseEvent) (s : StreamState) : option StreamEvent * StreamState :=
  let kind := sse_kind event in
  if String.eqb kind "response.output_text.delta" then
    match sse_delta event with
    | Some delta => stream_text_or_recovered_tool_call delta (set_saw_text_delta s)
    | None => (None, s)
    end
  else if String.eqb kind "response.reasoning.delta" || String.eqb kind "response.reasoning_summary_text.delta" then
    (ThinkingDelta <$> sse_delta event, s)
  else if String.eqb kind "response.reasoning.done" || String.eqb kind "response.output_item.added" then item_added event s
  else if String.eqb kind "response.function_call_arguments.delta" then arguments_delta event s
  else if String.eqb kind "response.function_call_arguments.done" then arguments_done event s
  else if String.eqb kind "response.output_item.done" then item_done event s
  else if String.eqb kind "response.incomplete" then
    finish_message (Some (default "incomplete" (sse_response event ≫= extract_stop_reason_from_response))) event s
  else if String.eqb kind "response.completed" then
    finish_message (sse_response event ≫= extract_stop_reason_from_response) event s
  else if String.eqb kind "response.failed" || String.eqb kind "response.error" || String.eqb kind "error" then
    let '(message, retry_after_secs) := extract_error_with_retry (sse_response event) (sse_error event) in
    (Some (EvError message retry_after_secs), s)
  else (None, s).

Definition parse_openai_response_event (data : string) (s : StreamState) : option StreamEvent * StreamState :=
  if String.eqb data "[DONE]" then (Some (MessageEnd None), s)
  else if is_websocket_fallback_notice data then (None, s)
  else if str_contains "stream disconnected before completion" (to_lowercase data)
          && negb (is_structured_response_event data)
  then (Some (EvError data None), s)
  else match parse_json data ≫= sse_from_value with
       | Some event => handle_sse_event event s
       | None => (None, s)
       end.

(** ** The byte stream *)

Record OpenAIResponsesStream := mkResponses { rs_buffer : string; rs_state : StreamState }.

Definition blank_line : string := newline +:+ newline.
Definition event_data (event_str : string) : option string :=
  match omap sse_data_line (lines event_str) with
  | [] => None
  | data_lines => Some (String.concat newline data_lines)
  end.

(** The loop over the complete events of the buffer. *)
Fixpoint parse_buffer (fuel : nat) (r : OpenAIResponsesStream) : option StreamEvent * OpenAIResponsesStream :=
  match fuel with
  | 0 => (None, r)
  | S fuel =>
      match str_find blank_line (rs_buffer r) with
      | None => (None, r)
      | Some pos =>
          let event_str := str_take pos (rs_buffer r) in
          let buffer := str_drop (pos + 2) (rs_buffer r) in
          match event_data event_str with
          | None => parse_buffer fuel (mkResponses buffer (rs_state r))
          | Some data =>
              match parse_openai_response_event data (rs_state r) with
              | (Some event, s) => (Some event, mkResponses buffer s)
              | (None, s) => parse_buffer fuel (mkResponses buffer s)
              end
          end
      end
  end.

Definition parse_next_event (r : OpenAIResponsesStream) : option StreamEvent * OpenAIResponsesStream :=
  match pop_front (rs_state r) with
  | (Some event, s) => (Some event, mkResponses (rs_buffer r) s)
  | (None, _) => parse_buffer (S (String.length (rs_buffer r))) r
  end.

(** What polling the connection returns: bytes, an error, or nothing yet. *)
Inductive Chunk := Bytes (bytes : string) | Broken (e : string) | NotReady.
Inductive Polled := Item (event : StreamEvent) | Failed (e : string) | Pending | Ended.

(** One call of [poll_next]; the connection answers from a list. *)
Fixpoint poll_next (inner : list Chunk) (r : OpenAIResponsesStream) : Polled * list Chunk * OpenAIResponsesStream :=
  match parse_next_event r with
  | (Some event, r) => (Item event, inner, r)
  | (None, r) =>
      match inner with
      | Bytes bytes :: inner =>
          poll_next inner (if utf8 bytes then mkResponses (rs_buffer r +:+ bytes) (rs_state r) else r)
      | Broken e :: inner => (Failed ("Stream error: " +:+ e), inner, r)
      | NotReady :: inner => (Pending, inner, r)
      | [] => (Ended, [], r)
      end
  end.

(** A consumer that polls up to [n] times and stops at the end. *)
Fixpoint poll_many (n : nat) (inner : list Chunk) (r : OpenAIResponsesStream) : list Polled :=
  match n with
  | 0 => []
  | S n =>
      match poll_next inner r with
      | (Ended, _, _) => [Ended]
      | (p, inner, r) => p :: poll_many n inner r
      end
  end.
End Stream.
