(* ===== verification/OpenAiStreamClaims.v ===== *)
(** * Theorems on the OpenAI response stream

    The events do not depend on how the network cuts the text, tool calls come
    out whole and once, and what a cut inside a character loses. *)

From stdpp Require Import base list strings gmap pretty.
From S2P Require Import Prelude RustString Mention RustText Message MessageClaims Failover Schema OpenAiStream.

Open Scope string_scope.
Open Scope nat_scope.
Open Scope list_scope.

Section Claims.
Context {J : Json}.
Context (to_lowercase : string → string) (parse_json : string → option json) (parse_prefix : string → option (json * nat))
  (render : json → string) (images : ImageEnv).

Notation parse_event := (parse_openai_response_event to_lowercase parse_json parse_prefix render images).
Notation handle := (handle_sse_event to_lowercase parse_prefix render images).
Notation next_event := (parse_next_event to_lowercase parse_json parse_prefix render images).
Notation buffer_loop := (parse_buffer to_lowercase parse_json parse_prefix render images).
Notation poll := (poll_next to_lowercase parse_json parse_prefix render images).
Notation polls := (poll_many to_lowercase parse_json parse_prefix render images).

(** ** The reference: one block of text after another *)

Definition clear (s : StreamState) : StreamState :=
  mkStream (ss_saw_text_delta s) (ss_tool_calls s) (ss_completed s) [] (ss_counter s).

(** Everything one event of the API gives. *)
Definition emitted (r : option StreamEvent * StreamState) : list StreamEvent :=
  match r.1 with Some e => e :: ss_pending r.2 | None => ss_pending r.2 end.

Definition block_result (block : string) (s : StreamState) : option StreamEvent * StreamState :=
  match event_data block with Some data => parse_event data s | None => (None, s) end.

Fixpoint blocks_events (blocks : list string) (s : StreamState) : list StreamEvent :=
  match blocks with
  | [] => []
  | b :: rest => emitted (block_result b s) ++ blocks_events rest (clear (block_result b s).2)
  end.

(** The events of a text: what comes before each blank line, in order. *)
Definition text_events (text : string) (s : StreamState) : list StreamEvent :=
  blocks_events (removelast (str_split blank_line text)) s.

(** ** An event that returns nothing leaves nothing pending *)

Definition quiet (s : StreamState) (r : option StreamEvent * StreamState) : Prop :=
  r.1 = None → ss_pending r.2 = ss_pending s.

Lemma quiet_pop s : quiet s (pop_front s).
Proof using Type. unfold quiet, pop_front. by destruct (ss_pending s) eqn:E; simpl. Qed.

Lemma pop_push_quiet (s s0 : StreamState) es :
  ss_pending s0 = [] → ss_pending s = [] → quiet s0 (pop_front (push_back es s)).
Proof using Type.
  unfold quiet, pop_front, push_back. simpl. intros -> ->. simpl. by destruct es.
Qed.

Lemma next_id_pending (s : StreamState) : ss_pending (next_fallback_id s).2 = ss_pending s.
Proof using Type. done. Qed.

Lemma text_quiet text s : ss_pending s = [] → quiet s (stream_text_or_recovered_tool_call parse_prefix render text s).
Proof using Type.
  intros Hs. unfold stream_text_or_recovered_tool_call. destruct (str_is_empty text); [done|].
  destruct (parse_text_wrapped_tool_call _ _ text) as [[[[prefix name] args] suffix]|]; [|done].
  unfold quiet, pop_front. simpl. rewrite Hs. by destruct (str_is_empty prefix).
Qed.

Lemma handle_quiet event s : ss_pending s = [] → quiet s (handle event s).
Proof using Type.
  intros Hs. unfold handle_sse_event.
  repeat match goal with |- quiet _ (if ?b then _ else _) => destruct b end; try done.
  - destruct (sse_delta event); [|done]. by apply (text_quiet _ (set_saw_text_delta s)).
  - unfold item_added. repeat case_match; done.
  - unfold arguments_delta. repeat case_match; done.
  - unfold arguments_done. destruct (sse_item_id event) as [i|]; [|done].
    set (st := match sse_arguments event with Some a => _ | None => _ end). set (s1 := set_tool_calls _ s).
    unfold stream_tool_call_from_state. destruct (sc_name st) as [name|]; [|done]. destruct (str_is_empty name); [done|].
    destruct (match sc_call_id st with Some id => if str_is_empty id then Some i else Some id | None => Some i end) as [id|];
      unfold quiet, pop_front; simpl; by rewrite Hs.
  - unfold item_done. destruct (sse_item event) as [item|]; [|done]. destruct (reported_item item s); [done|].
    unfold handle_openai_output_item. destruct (str_field item "type") as [ty|]; [|done].
    repeat match goal with |- quiet _ (if ?b then _ else _) => destruct b end; try done.
    + by destruct (str_field item "encrypted_content").
    + by apply pop_push_quiet.
    + unfold handle_openai_image_generation_item. repeat case_match; done.
    + by apply text_quiet.
    + by apply pop_push_quiet.
  - by apply pop_push_quiet.
  - by apply pop_push_quiet.
  - by destruct (extract_error_with_retry _ _ _).
Qed.

Lemma block_quiet block s : ss_pending s = [] → quiet s (block_result block s).
Proof using Type.
  intros Hs. unfold block_result. destruct (event_data block) as [data|]; [|done]. unfold parse_openai_response_event.
  repeat match goal with |- quiet _ (if ?b then _ else _) => destruct b end; try done.
  destruct (parse_json data ≫= sse_from_value); [|done]. by apply handle_quiet.
Qed.

(** ** Draining the buffer *)

Lemma starts_with_append_le pat a b : String.length pat ≤ String.length a → starts_with pat (a +:+ b) = starts_with pat a.
Proof using Type.
  revert a. induction pat as [|c pat IH]; intros [|d a] H; simpl in H; try (done || lia).
  change (String d a +:+ b) with (String d (a +:+ b)). cbn [starts_with]. by rewrite IH by lia.
Qed.

Lemma find_append_some pat a b n : str_find pat a = Some n → str_find pat (a +:+ b) = Some n.
Proof using Type.
  revert n. induction a as [|c a IH]; intros n.
  - simpl. destruct pat; [|done]. intros [= <-]. by destruct b.
  - change (String c a +:+ b) with (String c (a +:+ b)). intros H.
    assert (String.length pat ≤ String.length (String c a)) as Hl.
    { destruct (str_find_Some _ _ _ H) as (post & E & _). rewrite E, !length_append_s. lia. }
    pose proof (starts_with_append_le pat (String c a) b Hl) as Hs. change (String c a +:+ b) with (String c (a +:+ b)) in Hs.
    cbn [str_find] in *. rewrite Hs. destruct (starts_with pat (String c a)); [done|].
    destruct (str_find pat a) as [m|] eqn:Em; [|done]. by rewrite (IH m).
Qed.

Lemma split_blank text :
  str_split blank_line text =
  match str_find blank_line text with
  | None => [text]
  | Some n => str_take n text :: str_split blank_line (str_drop (n + 2) text)
  end.
Proof using Type. unfold str_split. change (str_is_empty blank_line) with false. by rewrite split_from_find. Qed.

Lemma split_non_nil text : str_split blank_line text ≠ [].
Proof using Type. rewrite split_blank. by destruct (str_find _ _). Qed.

(** The events of a text, from the first blank line on. *)
Lemma text_events_step text s :
  text_events text s =
  match str_find blank_line text with
  | None => []
  | Some n => emitted (block_result (str_take n text) s)
              ++ text_events (str_drop (n + 2) text) (clear (block_result (str_take n text) s).2)
  end.
Proof using Type.
  unfold text_events. rewrite (split_blank text). destruct (str_find _ _) as [n|]; [|done].
  pose proof (split_non_nil (str_drop (n + 2) text)). cbn [removelast].
  destruct (str_split blank_line (str_drop (n + 2) text)) eqn:E; [done|]. done.
Qed.

Lemma drop_append_le n a b : n ≤ String.length a → str_drop n (a +:+ b) = str_drop n a +:+ b.
Proof using Type. revert a. induction n as [|n IH]; intros a H; [done|]. destruct a as [|c a]; simpl in H; [lia|]. apply IH. lia. Qed.

Lemma take_append_le n a b : n ≤ String.length a → str_take n (a +:+ b) = str_take n a.
Proof using Type.
  revert a. induction n as [|n IH]; intros [|c a] H; simpl in H; [by destruct b|done|lia|]. cbn [String.append str_take].
  change (String c a +:+ b) with (String c (a +:+ b)). cbn [str_take]. f_equal. apply IH. lia.
Qed.

Lemma find_blank_bounds text n : str_find blank_line text = Some n → n + 2 ≤ String.length text.
Proof using Type.
  intros H. destruct (str_find_Some _ _ _ H) as (post & E & Hn). apply (f_equal String.length) in E.
  rewrite !length_append_s, length_str_take in E by done. simpl in E. lia.
Qed.

(** What is still to come from the buffer followed by [t]. *)
Definition to_come (r : OpenAIResponsesStream) (t : string) : list StreamEvent :=
  ss_pending (rs_state r) ++ text_events (rs_buffer r +:+ t) (clear (rs_state r)).

(** Nothing pending and no complete block. *)
Definition idle (r : OpenAIResponsesStream) : Prop := ss_pending (rs_state r) = [] ∧ str_find blank_line (rs_buffer r) = None.

Lemma clear_id s : ss_pending s = [] → clear s = s.
Proof using Type. destruct s. simpl. by intros ->. Qed.

Lemma buffer_loop_spec fuel r : ss_pending (rs_state r) = [] → String.length (rs_buffer r) < fuel →
  match buffer_loop fuel r with
  | (Some e, r') => ∀ t, to_come r t = e :: to_come r' t
  | (None, r') => idle r' ∧ ∀ t, to_come r t = to_come r' t
  end.
Proof using Type.
  revert r. induction fuel as [|fuel IH]; intros [buf s] Hs Hf; simpl in Hs, Hf; [lia|]. cbn [parse_buffer rs_buffer rs_state].
  destruct (str_find blank_line buf) as [pos|] eqn:E; [|by split].
  pose proof (find_blank_bounds _ _ E) as Hb.
  assert (∀ t, to_come (mkResponses buf s) t
    = emitted (block_result (str_take pos buf) s) ++ text_events (str_drop (pos + 2) buf +:+ t) (clear (block_result (str_take pos buf) s).2)) as Hstep.
  { intros t. unfold to_come. simpl. rewrite Hs, (clear_id s Hs). simpl. rewrite text_events_step, (find_append_some _ _ _ _ E).
    by rewrite take_append_le, drop_append_le by lia. }
  assert (String.length (str_drop (pos + 2) buf) < fuel) as Hlt by (rewrite length_str_drop; lia).
  pose proof (block_quiet (str_take pos buf) s Hs) as Hq. unfold block_result in *.
  destruct (event_data (str_take pos buf)) as [data|].
  - destruct (parse_event data s) as [[e|] s'] eqn:Ep.
    + intros t. rewrite Hstep. done.
    + specialize (Hq eq_refl). simpl in Hq. rewrite Hs in Hq. specialize (IH (mkResponses (str_drop (pos + 2) buf) s') Hq Hlt).
      destruct (buffer_loop fuel _) as [[e|] r']; [intros t|destruct IH as [Hi IH]; split; [done|]; intros t];
        rewrite <- IH, Hstep; unfold emitted, to_come; simpl; by rewrite Hq.
  - specialize (IH (mkResponses (str_drop (pos + 2) buf) s) Hs Hlt).
    destruct (buffer_loop fuel _) as [[e|] r']; [intros t|destruct IH as [Hi IH]; split; [done|]; intros t];
      rewrite <- IH, Hstep; unfold emitted, to_come; simpl; by rewrite Hs.
Qed.

Lemma next_event_spec r :
  match next_event r with
  | (Some e, r') => ∀ t, to_come r t = e :: to_come r' t
  | (None, r') => idle r' ∧ ∀ t, to_come r t = to_come r' t
  end.
Proof using Type.
  unfold parse_next_event, pop_front. destruct (ss_pending (rs_state r)) as [|e rest] eqn:E.
  - apply buffer_loop_spec; [done|lia].
  - intros t. unfold to_come. rewrite E. done.
Qed.

Lemma next_event_idle r : idle r → next_event r = (None, r).
Proof using Type.
  intros [Hp Hf]. unfold parse_next_event, pop_front. rewrite Hp. cbn [parse_buffer]. by rewrite Hf.
Qed.

(** ** Polling *)

Definition whole (c : Chunk) : bool := match c with Bytes b => utf8 b | Broken _ => false | NotReady => true end.
Definition chunk_text (c : Chunk) : string := match c with Bytes b => b | _ => "" end.
Definition text_of (chunks : list Chunk) : string := str_concat (chunk_text <$> chunks).
Definition polled_event (p : Polled) : option StreamEvent := match p with Item e => Some e | _ => None end.

Lemma poll_spec inner r : forallb whole inner = true →
  match poll inner r with
  | (p, inner', r') =>
      forallb whole inner' = true
      ∧ match p with
        | Item e => to_come r (text_of inner) = e :: to_come r' (text_of inner') ∧ length inner' ≤ length inner
        | Pending => to_come r (text_of inner) = to_come r' (text_of inner') ∧ length inner' < length inner
        | Failed _ => False
        | Ended => to_come r (text_of inner) = []
        end
  end.
Proof using Type.
  revert r. induction inner as [|c inner IH]; intros r Hw; cbn [poll_next]; pose proof (next_event_spec r) as Hn;
    destruct (next_event r) as [[e|] r1].
  - split; [done|]. split; [apply Hn|done].
  - destruct Hn as [[Hp Hf] Hn]. split; [done|]. rewrite Hn. unfold to_come, text_of. simpl. rewrite Hp, append_nil_r_s.
    rewrite text_events_step, Hf. done.
  - split; [done|]. split; [apply Hn|done].
  - destruct Hn as [_ Hn]. simpl in Hw. apply andb_true_iff in Hw as [Hc Hw]. destruct c as [b| |]; simpl in Hc; [|done|].
    + rewrite Hc. specialize (IH (mkResponses (rs_buffer r1 +:+ b) (rs_state r1)) Hw).
      assert (to_come r (text_of (Bytes b :: inner)) = to_come (mkResponses (rs_buffer r1 +:+ b) (rs_state r1)) (text_of inner)) as ->.
      { rewrite Hn. unfold to_come. simpl. change (text_of (Bytes b :: inner)) with (b +:+ text_of inner). by rewrite append_assoc_s. }
      destruct (poll_next _ _ _ _ _ inner _) as [[[] inner'] r']; simpl; destruct IH as [? IH]; split; try done;
        destruct IH; split; try done; lia.
    + split; [done|]. split; [apply Hn|simpl; lia].
Qed.

Lemma polls_spec n inner r :
  forallb whole inner = true → length (to_come r (text_of inner)) + length inner < n →
  omap polled_event (polls n inner r) = to_come r (text_of inner) ∧ last (polls n inner r) = Some Ended.
Proof using Type.
  revert inner r. induction n as [|n IH]; intros inner r Hw Hn; [lia|]. cbn [poll_many].
  pose proof (poll_spec inner r Hw) as Hp. destruct (poll inner r) as [[p inner'] r']. destruct Hp as [Hw' Hp].
  destruct p as [e| | |].
  - destruct Hp as [Hp Hl]. rewrite Hp in *. simpl in Hn. destruct (IH inner' r' Hw') as [I1 I2]; [lia|].
    split; [by rewrite <- I1|]. rewrite last_cons, I2. done.
  - done.
  - destruct Hp as [Hp Hl]. rewrite Hp in *. destruct (IH inner' r' Hw') as [I1 I2]; [lia|].
    split; [by rewrite <- I1|]. rewrite last_cons, I2. done.
  - simpl. by rewrite Hp.
Qed.

(** C26: The events do not depend on the network.  However the text of a response
    is cut into chunks between characters, and however often the connection is
    not ready, a consumer that polls often enough gets exactly the events of the
    text (those of the blocks before each blank line, in order, each translated
    whole) and then the end of the stream. *)
Theorem events_ignore_chunking (counter : N) (chunks : list Chunk) :
  forallb whole chunks = true →
  let r := mkResponses "" (stream_new counter) in
  let events := text_events (text_of chunks) (stream_new counter) in
  ∀ n, length events + length chunks < n →
  omap polled_event (polls n chunks r) = events ∧ last (polls n chunks r) = Some Ended.
Proof using Type. intros Hw r events n Hn. by apply polls_spec. Qed.

(** A cut inside a character loses the chunks.  Bytes that arrive as a chunk
    that is not whole text are dropped: when a character is cut between two
    chunks, the consumer sees what it would see if neither had been sent. *)
Theorem cut_character_drops_chunks (a b : string) (n : nat) (chunks : list Chunk) (r : OpenAIResponsesStream) :
  utf8 a = false → utf8 b = false → polls n (Bytes a :: Bytes b :: chunks) r = polls n chunks r.
Proof using Type.
  intros Ha Hb.
  assert (∀ x n chunks r, utf8 x = false → polls n (Bytes x :: chunks) r = polls n chunks r) as H.
  { clear. intros x n chunks. induction n as [|n IH]; intros r Hx; [done|]. cbn [poll_many].
    assert (poll (Bytes x :: chunks) r = match next_event r with
      | (Some e, r1) => (Item e, Bytes x :: chunks, r1) | (None, r1) => poll chunks r1 end) as ->.
    { cbn [poll_next]. by rewrite Hx. }
    pose proof (next_event_spec r) as Hn. destruct (next_event r) as [[e|] r1] eqn:E.
    - assert (poll chunks r = (Item e, chunks, r1)) as -> by (destruct chunks; cbn [poll_next]; by rewrite E).
      by rewrite IH.
    - destruct Hn as [Hi _]. assert (poll chunks r = poll chunks r1) as ->; [|done].
      destruct chunks; cbn [poll_next]; by rewrite E, (next_event_idle r1 Hi). }
  by rewrite !H.
Qed.

(** ** Tool calls come out whole *)

Definition is_tool_event (e : StreamEvent) : bool :=
  match e with ToolUseStart _ _ | ToolInputDelta _ | ToolUseEnd => true | _ => false end.

Definition good_arguments (a : string) : Prop := trim a ≠ "" ∧ trim a ≠ "null".

(** Every call is its start, its arguments in one piece and its end. *)
Inductive calls_whole : list StreamEvent → Prop :=
| WholeNil : calls_whole []
| WholeOther e l : is_tool_event e = false → calls_whole l → calls_whole (e :: l)
| WholeCall id name args l : good_arguments args → calls_whole l →
    calls_whole (ToolUseStart id name :: ToolInputDelta args :: ToolUseEnd :: l).
Hint Constructors calls_whole : core.

Lemma calls_whole_app l1 l2 : calls_whole l1 → calls_whole l2 → calls_whole (l1 ++ l2).
Proof using Type. induction 1; simpl; auto. Qed.

Lemma calls_other l : forallb (λ e, negb (is_tool_event e)) l = true → calls_whole l.
Proof using Type. induction l as [|e l IH]; simpl; [auto|]. intros [?%negb_true_iff ?]%andb_true_iff. auto. Qed.

Lemma normalize_good raw : good_arguments (normalize_openai_tool_arguments raw).
Proof using Type.
  unfold normalize_openai_tool_arguments, good_arguments. destruct (_ || _) eqn:E; [by vm_compute|].
  apply orb_false_iff in E as [E1 E2]. unfold str_is_empty in E1. apply bool_decide_eq_false in E1. apply String.eqb_neq in E2. auto.
Qed.

Lemma emitted_pop s : emitted (pop_front s) = ss_pending s.
Proof using Type. unfold emitted, pop_front. by destruct (ss_pending s) eqn:E; simpl. Qed.

Section Rendered.
(** The text of an object is in braces. *)
Context (render_object : ∀ m, ∃ x, render (VObject m) = "{" +:+ x +:+ "}" ∧ starts_char x = true).

Lemma render_good m : good_arguments (render (VObject m)).
Proof using render_object.
  destruct (render_object m) as (x & -> & Hx). unfold good_arguments. rewrite trim_braced by done. done.
Qed.

Lemma wrapped_good prefix name fallback remaining p n args suffix :
  (∀ p n args suffix, fallback = Some (p, n, args, suffix) → good_arguments args) →
  wrapped_call_from parse_prefix render prefix name fallback remaining = Some (p, n, args, suffix) → good_arguments args.
Proof using render_object.
  revert fallback. induction remaining as [|c rest IH]; intros fallback Hf; cbn [wrapped_call_from]; [apply Hf|].
  destruct (negb _); [by apply IH|]. destruct (parse_prefix _) as [[v consumed]|]; [|by apply IH].
  destruct v as [| | | | |m]; try (by apply IH). destruct (str_is_empty _).
  - intros [= <- <- <- <-]. apply render_good.
  - apply IH. intros p' n' a' s'. destruct fallback as [[[[? ?] ?] ?]|]; [apply Hf|]. intros [= <- <- <- <-]. apply render_good.
Qed.

Lemma text_whole text s : ss_pending s = [] →
  calls_whole (emitted (stream_text_or_recovered_tool_call parse_prefix render text s)).
Proof using render_object.
  intros Hs. unfold stream_text_or_recovered_tool_call. destruct (str_is_empty text); [unfold emitted; simpl; rewrite Hs; auto|].
  destruct (parse_text_wrapped_tool_call _ _ text) as [[[[prefix name] args] suffix]|] eqn:E; [|unfold emitted; simpl; rewrite Hs; auto].
  assert (good_arguments args) as Ha.
  { unfold parse_text_wrapped_tool_call in E. destruct (str_find _ text); [|done]. destruct (_ =? 0); [done|].
    by eapply (wrapped_good _ _ None); [|exact E]. }
  simpl. rewrite emitted_pop. simpl. rewrite Hs. simpl.
  apply calls_whole_app; [by destruct (str_is_empty prefix); auto|]. constructor; [done|]. by destruct (str_is_empty _); auto.
Qed.

Lemma image_whole item s : ss_pending s = [] → calls_whole (emitted (handle_openai_image_generation_item images item s)).
Proof using Type.
  intros Hs. unfold handle_openai_image_generation_item.
  repeat case_match; unfold emitted; cbn [fst snd ss_pending push_back]; rewrite Hs; by apply calls_other.
Qed.

Lemma item_whole item s : ss_pending s = [] → calls_whole (emitted (handle_openai_output_item parse_prefix render images item s)).
Proof using render_object.
  intros Hs. assert (calls_whole (emitted (None, s))) as Hnone by (unfold emitted; simpl; rewrite Hs; auto).
  unfold handle_openai_output_item. destruct (str_field item "type") as [ty|]; [|done].
  repeat match goal with |- calls_whole (emitted (if ?b then _ else _)) => destruct b end; try done.
  - destruct (str_field item "encrypted_content"); [|done]. unfold emitted. simpl. rewrite Hs. auto.
  - rewrite emitted_pop. simpl. rewrite Hs. simpl. constructor; [apply normalize_good|auto].
  - by apply image_whole.
  - by apply text_whole.
  - rewrite emitted_pop. simpl. rewrite Hs. simpl. apply calls_other. rewrite forallb_app. apply andb_true_iff. split.
    + by destruct (_ && _).
    + by destruct (negb _).
Qed.

Lemma finish_whole stop event s : ss_pending s = [] → calls_whole (emitted (finish_message stop event s)).
Proof using Type.
  intros Hs. unfold finish_message. rewrite emitted_pop. simpl. rewrite Hs. apply calls_other.
  destruct (sse_response event ≫= extract_usage_from_response) as [u|] eqn:E; [|done].
  apply bind_Some in E as (v & _ & E). unfold extract_usage_from_response in E. apply bind_Some in E as (w & _ & E).
  by repeat case_match; simplify_eq.
Qed.

Lemma handle_whole event s : ss_pending s = [] → calls_whole (emitted (handle event s)).
Proof using render_object.
  intros Hs. assert (calls_whole (emitted (None, s))) as Hnone by (unfold emitted; simpl; rewrite Hs; auto).
  unfold handle_sse_event.
  repeat match goal with |- calls_whole (emitted (if ?b then _ else _)) => destruct b end; try done.
  - destruct (sse_delta event); [|done]. by apply text_whole.
  - destruct (sse_delta event); [|done]. unfold emitted. simpl. rewrite Hs. auto.
  - unfold item_added. repeat case_match; unfold emitted; simpl; rewrite ?Hs; auto.
  - unfold arguments_delta. repeat case_match; unfold emitted; simpl; rewrite ?Hs; auto.
  - unfold arguments_done. destruct (sse_item_id event) as [i|]; [|done].
    set (st := match sse_arguments event with Some a => _ | None => _ end). unfold stream_tool_call_from_state.
    destruct (sc_name st) as [name|]; [|unfold emitted; simpl; rewrite Hs; auto].
    destruct (str_is_empty name); [unfold emitted; simpl; rewrite Hs; auto|].
    destruct (match sc_call_id st with Some id => if str_is_empty id then Some i else Some id | None => Some i end) as [id|];
      unfold pop_front, emitted; simpl; rewrite Hs; simpl; (constructor; [apply normalize_good|auto]).
  - unfold item_done. destruct (sse_item event) as [item|]; [|done]. destruct (reported_item item s).
    + unfold emitted. simpl. rewrite Hs. auto.
    + by apply item_whole.
  - by apply finish_whole.
  - by apply finish_whole.
  - destruct (extract_error_with_retry _ _ _). unfold emitted. simpl. rewrite Hs. auto.
Qed.

Lemma block_whole block s : ss_pending s = [] → calls_whole (emitted (block_result block s)).
Proof using render_object.
  intros Hs. assert (calls_whole (emitted (None, s))) as Hnone by (unfold emitted; simpl; rewrite Hs; auto).
  unfold block_result. destruct (event_data block) as [data|]; [|done]. unfold parse_openai_response_event.
  repeat match goal with |- calls_whole (emitted (if ?b then _ else _)) => destruct b end; try done;
    try (unfold emitted; simpl; rewrite Hs; by auto).
  destruct (parse_json data ≫= sse_from_value); [|done]. by apply handle_whole.
Qed.

(** C27: Tool calls come out whole.  Whatever text the API sends, in the events of
    a response every tool call is its start, one piece with all its arguments,
    which are never blank and never null, and its end, with nothing in between,
    and no part of a tool call comes out on its own. *)
Theorem tool_calls_come_out_whole (text : string) (counter : N) : calls_whole (text_events text (stream_new counter)).
Proof using render_object.
  unfold text_events. generalize (removelast (str_split blank_line text)) as blocks.
  assert (ss_pending (stream_new counter) = []) as Hs by done. revert Hs. generalize (stream_new counter) as s.
  intros s Hs blocks. revert s Hs. induction blocks as [|b blocks IH]; intros s Hs; cbn [blocks_events]; [auto|].
  apply calls_whole_app; [by apply block_whole|by apply IH].
Qed.
End Rendered.

End Claims.

(** ** Each call once *)

Section Calls.
Context {J : Json}.
Context (to_lowercase : string → string) (parse_prefix : string → option (json * nat)) (render : json → string)
  (images : ImageEnv).

Notation handle := (handle_sse_event to_lowercase parse_prefix render images).


Definition concerns (i : string) (event : ResponseSseEvent) : bool :=
  bool_decide (sse_item_id event = Some i)
  || match sse_item event with Some item => bool_decide (streaming_tool_item_id item = Some i) | None => false end.

(** What each event that concerns the item gives, and the final state. *)
Fixpoint item_trace (i : string) (events : list ResponseSseEvent) (s : StreamState) : list (list StreamEvent) * StreamState :=
  match events with
  | [] => ([], s)
  | event :: rest =>
      let r := handle event s in
      let '(l, s') := item_trace i rest (clear r.2) in
      (if concerns i event then emitted r :: l else l, s')
  end.

(** The part of the state that belongs to an item. *)
Definition item_state (i : string) (s : StreamState) : option StreamingToolCallState * bool :=
  (ss_tool_calls s !! i, bool_decide (i ∈ ss_completed s)).

Lemma item_state_text i text s :
  item_state i (stream_text_or_recovered_tool_call parse_prefix render text s).2 = item_state i s.
Proof using Type.
  unfold stream_text_or_recovered_tool_call. destruct (str_is_empty text); [done|].
  destruct (parse_text_wrapped_tool_call _ _ text) as [[[[prefix name] args] suffix]|]; [|done].
  simpl. unfold pop_front. by destruct (ss_pending _).
Qed.

Lemma item_state_pop i s : item_state i (pop_front s).2 = item_state i s.
Proof using Type. unfold pop_front. by destruct (ss_pending s). Qed.

Lemma item_state_output i item s :
  item_state i (handle_openai_output_item parse_prefix render images item s).2 = item_state i s.
Proof using Type.
  unfold handle_openai_output_item. destruct (str_field item "type"); [|done].
  repeat match goal with |- item_state _ (if ?b then _ else _).2 = _ => destruct b end; try done.
  - by destruct (str_field item "encrypted_content").
  - by rewrite item_state_pop.
  - unfold handle_openai_image_generation_item. by repeat case_match.
  - apply item_state_text.
  - by rewrite item_state_pop.
Qed.

Lemma item_state_other i event s : concerns i event = false → item_state i (handle event s).2 = item_state i s.
Proof using Type.
  unfold concerns. intros [Hid Hitem]%orb_false_iff. apply bool_decide_eq_false in Hid. unfold handle_sse_event.
  repeat match goal with |- item_state _ (if ?b then _ else _).2 = _ => destruct b end; try done.
  - destruct (sse_delta event); [|done]. by rewrite item_state_text.
  - unfold item_added. destruct (sse_item event) as [item|]; [|done]. apply bool_decide_eq_false in Hitem.
    destruct (bool_decide _); [done|]. destruct (is_tool_item item); [|done].
    destruct (streaming_tool_item_id item) as [j|]; [|done]. unfold item_state. simpl. by rewrite lookup_insert_ne by congruence.
  - unfold arguments_delta. destruct (sse_item_id event) as [j|]; [|done]. unfold item_state. simpl.
    by rewrite lookup_insert_ne by congruence.
  - unfold arguments_done. destruct (sse_item_id event) as [j|]; [|done].
    set (st := match sse_arguments event with Some a => _ | None => _ end). unfold stream_tool_call_from_state.
    assert (i ≠ j) as Hij by congruence.
    destruct (sc_name st) as [name|]; [destruct (str_is_empty name); [|]|]; cycle 1.
    + destruct (match sc_call_id st with Some id => if str_is_empty id then Some j else Some id | None => Some j end) as [id|];
        unfold pop_front; simpl; destruct (ss_pending s); simpl; unfold item_state; simpl; rewrite lookup_delete_ne by done;
        f_equal; apply bool_decide_ext; rewrite elem_of_union, elem_of_singleton; tauto.
    + unfold item_state. simpl. by rewrite lookup_insert_ne, lookup_delete_ne by done.
    + unfold item_state. simpl. by rewrite lookup_insert_ne, lookup_delete_ne by done.
  - unfold item_done. destruct (sse_item event) as [item|]; [|done]. apply bool_decide_eq_false in Hitem.
    destruct (reported_item item s) as [j|] eqn:E; [|apply item_state_output].
    unfold reported_item in E. destruct (streaming_tool_item_id item) as [j'|]; [|done]. destruct (_ && _); [|done]. simplify_eq.
    unfold item_state. simpl. f_equal. apply bool_decide_ext. rewrite elem_of_difference, elem_of_singleton.
    split; [tauto|]. intros ?. split; [done|congruence].
  - unfold finish_message. by rewrite item_state_pop.
  - unfold finish_message. by rewrite item_state_pop.
  - by destruct (extract_error_with_retry _ _ _).
Qed.

Lemma item_state_clear i s : item_state i (clear s) = item_state i s.
Proof using Type. done. Qed.

(** The events of one tool call, in the order the API sends them. *)
Definition delta_event (i d : string) : ResponseSseEvent :=
  mkSse "response.function_call_arguments.delta" None (Some d) (Some i) None None None None None.
Definition done_event (i : string) (arguments : option string) : ResponseSseEvent :=
  mkSse "response.function_call_arguments.done" None None (Some i) None None arguments None None.
Definition added_event (item : json) : ResponseSseEvent :=
  mkSse "response.output_item.added" (Some item) None None None None None None None.
Definition item_done_event (item : json) : ResponseSseEvent :=
  mkSse "response.output_item.done" (Some item) None None None None None None None.

Section Once.
Context (i call_id name : string) (final : json) (arguments : option string).
Context (name_given : name ≠ "") (id_given : call_id ≠ "").
Context (final_tool : is_tool_item final = true) (final_id : streaming_tool_item_id final = Some i).

Definition call_events (collected : string) : list StreamEvent :=
  [ToolUseStart (sanitize_tool_id call_id) name;
   ToolInputDelta (normalize_openai_tool_arguments (let a := default collected arguments in if str_is_empty a then "{}" else a));
   ToolUseEnd].

(** An event of another item passes. *)
Lemma trace_skip event rest s : concerns i event = false → ss_pending s = [] →
  item_trace i (event :: rest) s = item_trace i rest (clear (handle event s).2)
  ∧ item_state i (clear (handle event s).2) = item_state i s.
Proof using Type.
  intros Hc Hs. cbn [item_trace]. rewrite Hc. rewrite item_state_clear, (item_state_other i event s Hc).
  by destruct (item_trace i rest _).
Qed.

Lemma trace_last events s :
  List.filter (concerns i) events = [item_done_event final] → ss_pending s = [] → item_state i s = (None, true) →
  (item_trace i events s).1 = [[]] ∧ item_state i (item_trace i events s).2 = (None, false).
Proof using final_tool final_id.
  revert s. induction events as [|event events IH]; intros s Hf Hs Hst; [done|]. cbn [List.filter] in Hf.
  destruct (concerns i event) eqn:Hc.
  2: { destruct (trace_skip event events s Hc Hs) as [-> E]. apply IH; [done|done|by rewrite E]. }
  injection Hf as -> Hrest. unfold item_state in Hst. injection Hst as H1 H2.
  cbn [item_trace]. rewrite Hc. unfold handle_sse_event. simpl.
  unfold item_done, reported_item. simpl. rewrite final_id, final_tool, H2. simpl. unfold emitted. simpl. rewrite Hs.
  assert (∀ evs st, List.filter (concerns i) evs = [] → ss_pending st = [] → item_state i st = (None, false) →
    (item_trace i evs st).1 = [] ∧ item_state i (item_trace i evs st).2 = (None, false)) as Hend.
  { clear. induction evs as [|ev evs IH]; intros st Hf Hs Hst; [done|]. cbn [List.filter] in Hf. destruct (concerns i ev) eqn:Hc; [done|].
    destruct (trace_skip ev evs st Hc Hs) as [-> E]. apply IH; [done|done|by rewrite E]. }
  specialize (Hend events (clear (set_completed (ss_completed s ∖ {[i]}) s)) Hrest eq_refl).
  destruct (item_trace i events _) as [l s'] eqn:Et. simpl in *. destruct Hend as [-> ->]; [|done].
  unfold item_state. simpl. rewrite H1. f_equal. apply bool_decide_eq_false.
  intros [_ Hne]%elem_of_difference. by apply Hne, elem_of_singleton.
Qed.

Lemma trace_done events s collected :
  List.filter (concerns i) events = [done_event i arguments; item_done_event final] → ss_pending s = [] →
  item_state i s = (Some (mkToolState (Some call_id) (Some name) collected), false) →
  (item_trace i events s).1 = [call_events collected; []] ∧ item_state i (item_trace i events s).2 = (None, false).
Proof using name_given id_given final_tool final_id.
  revert s. induction events as [|event events IH]; intros s Hf Hs Hst; [done|]. cbn [List.filter] in Hf.
  destruct (concerns i event) eqn:Hc.
  2: { destruct (trace_skip event events s Hc Hs) as [-> E]. apply IH; [done|done|by rewrite E]. }
  injection Hf as -> Hrest. unfold item_state in Hst. injection Hst as H1 H2.
  cbn [item_trace]. rewrite Hc. unfold handle_sse_event. simpl. unfold arguments_done. simpl. rewrite H1. simpl.
  unfold stream_tool_call_from_state, tool_state_named. simpl.
  assert (str_is_empty name = false) as En by (unfold str_is_empty; by rewrite bool_decide_false).
  assert (str_is_empty call_id = false) as Ei by (unfold str_is_empty; by rewrite bool_decide_false).
  set (st := match arguments with Some a => _ | None => _ end).
  assert (sc_name st = Some name ∧ sc_call_id st = Some call_id ∧ sc_arguments st = default collected arguments) as (S1 & S2 & S3)
    by (unfold st; by destruct arguments).
  rewrite S1, S2, S3, En, Ei. unfold pop_front. simpl. rewrite Hs. simpl. unfold emitted. simpl.
  match goal with |- context [item_trace i events ?s0] => destruct (trace_last events s0 Hrest eq_refl) as [T1 T2] end.
  { unfold item_state. simpl. rewrite lookup_delete_eq. f_equal. apply bool_decide_eq_true.
    by apply elem_of_union_l, elem_of_singleton. }
  destruct (item_trace i events _) as [l s'] eqn:Et. simpl in *. by rewrite T1, T2.
Qed.

Lemma trace_deltas ds events s collected :
  List.filter (concerns i) events = (delta_event i <$> ds) ++ [done_event i arguments; item_done_event final] → ss_pending s = [] →
  item_state i s = (Some (mkToolState (Some call_id) (Some name) collected), false) →
  (item_trace i events s).1 = replicate (length ds) [] ++ [call_events (collected +:+ str_concat ds); []]
  ∧ item_state i (item_trace i events s).2 = (None, false).
Proof using name_given id_given final_tool final_id.
  revert ds s collected. induction events as [|event events IH]; intros ds s collected Hf Hs Hst; [by destruct ds|].
  destruct ds as [|d ds].
  { change (str_concat []) with "". rewrite append_nil_r_s. by apply trace_done. }
  cbn [List.filter] in Hf. destruct (concerns i event) eqn:Hc.
  2: { destruct (trace_skip event events s Hc Hs) as [-> E]. apply IH; [done|done|by rewrite E]. }
  cbn [fmap list_fmap app] in Hf. injection Hf as -> Hrest. unfold item_state in Hst. injection Hst as H1 H2.
  cbn [item_trace]. rewrite Hc. unfold handle_sse_event. simpl. unfold arguments_delta. simpl. rewrite H1. simpl.
  unfold emitted. simpl. rewrite Hs.
  match goal with |- context [item_trace i events ?s0] => destruct (IH ds s0 (collected +:+ d) Hrest eq_refl) as [T1 T2] end.
  { unfold item_state. simpl. rewrite lookup_insert_eq. by rewrite H2. }
  destruct (item_trace i events _) as [l s'] eqn:Et. simpl in *. rewrite T1, T2. rewrite append_assoc_s. done.
Qed.
End Once.

(** C13: Every tool call is reported once.  The API announces a tool call with its
    name and identifier, sends its arguments in pieces, then says that the
    arguments are complete (giving them again or not) and finally that the item
    is done; any events of other items, messages and so on may come in between.
    Then nothing is reported before the arguments are complete, at that moment
    exactly the one call, with the arguments put together, is reported, the last
    event does not report it again, and nothing of the call is kept. *)
Theorem tool_calls_are_reported_once (i call_id name : string) (added final : json) (pieces : list string)
    (arguments : option string) (events : list ResponseSseEvent) (s : StreamState) :
  name ≠ "" → call_id ≠ "" →
  is_tool_item added = true → streaming_tool_item_id added = Some i →
  tool_state_from_item render added tool_state_default = mkToolState (Some call_id) (Some name) "" →
  is_tool_item final = true → streaming_tool_item_id final = Some i →
  List.filter (concerns i) events
    = added_event added :: (delta_event i <$> pieces) ++ [done_event i arguments; item_done_event final] →
  ss_pending s = [] → item_state i s = (None, false) →
  (item_trace i events s).1
    = [] :: replicate (length pieces) [] ++ [call_events call_id name arguments (str_concat pieces); []]
  ∧ item_state i (item_trace i events s).2 = (None, false).
Proof using Type.
  intros Hn Hi Ha Hai Hast Hf Hfi. revert s. induction events as [|event events IH]; intros s Hev Hs Hst; [done|].
  cbn [List.filter] in Hev. destruct (concerns i event) eqn:Hc.
  2: { destruct (trace_skip i event events s Hc Hs) as [-> E]. apply IH; [done|done|by rewrite E]. }
  injection Hev as -> Hrest. unfold item_state in Hst. injection Hst as H1 H2.
  cbn [item_trace]. rewrite Hc. unfold handle_sse_event. simpl. unfold item_added. simpl. rewrite Ha, Hai, H1. cbn [default].
  assert (str_field added "type" ≠ Some "reasoning") as Ht.
  { intros E. unfold is_tool_item in Ha. by rewrite E in Ha. }
  rewrite bool_decide_false by done. unfold emitted. simpl. rewrite Hs. change (default tool_state_default None) with tool_state_default.
  rewrite Hast.
  match goal with |- context [item_trace i events ?s0] =>
    destruct (trace_deltas i call_id name final arguments Hn Hi Hf Hfi pieces events s0 "" Hrest eq_refl) as [T1 T2] end.
  { unfold item_state. simpl. rewrite lookup_insert_eq. by rewrite H2. }
  destruct (item_trace i events _) as [l s'] eqn:Et. simpl in *. by rewrite T1, T2.
Qed.
End Calls.

(** ** Witnesses *)

Definition demo_json : Json :=
  {| Value := string; value_kind := λ _, JNull; value_to_string := id; value_get := λ _ _, None; value_as_str := Some;
     value_null := ""; value_string := id; value_object := λ _, "{}"; value_from_str := Some |}.
Definition demo_images : ImageEnv := mkImageEnv (λ _, None) true true true "/repo/.jcode/generated-images" 5.
Definition demo_delta : json := VObject [("delta", VString "hi"); ("type", VString "response.output_text.delta")].
Definition e_acute : string := str_bytes [195; 169].
(** Two payloads with a meaning: the letter t and an accented one. *)
Definition demo_parse (s : string) : option json := if String.eqb s "t" || String.eqb s e_acute then Some demo_delta else None.
Definition demo_render (v : json) : string := match v with VObject _ => "{}" | _ => "" end.

Lemma events_ignore_chunking_witness :
  let chunks := [Bytes "da"; NotReady; Bytes ("ta: t" +:+ newline); Bytes newline] in
  forallb whole chunks = true
  ∧ omap (@polled_event demo_json)
      (poll_many to_ascii_lowercase demo_parse (λ _, None) demo_render demo_images 9 chunks (mkResponses "" (stream_new 1)))
    = [TextDelta "hi"].
Proof.
  intros chunks. split; [reflexivity|].
  exact (proj1 (events_ignore_chunking (J := demo_json) to_ascii_lowercase demo_parse (λ _, None) demo_render demo_images 1 chunks eq_refl 9
    ltac:(vm_compute; lia))).
Defined.

(** The same payload arrives whole or not at all. *)
Lemma cut_character_drops_chunks_witness :
  let a := "data: " +:+ str_bytes [195] in
  let b := str_bytes [169] +:+ newline +:+ newline in
  let polls chunks := poll_many (J := demo_json) to_ascii_lowercase demo_parse (λ _, None) demo_render demo_images 9 chunks
                        (mkResponses "" (stream_new 1)) in
  polls [Bytes (a +:+ b)] = [Item (TextDelta "hi"); Ended] ∧ polls [Bytes a; Bytes b] = [Ended].
Proof.
  intros a b polls. split; [vm_compute; reflexivity|].
  exact (cut_character_drops_chunks (J := demo_json) to_ascii_lowercase demo_parse (λ _, None) demo_render demo_images a b 9 []
    (mkResponses "" (stream_new 1)) eq_refl eq_refl).
Defined.

Lemma tool_calls_come_out_whole_witness :
  calls_whole (text_events (J := demo_json) to_ascii_lowercase demo_parse (λ _, None) demo_render demo_images
    ("data: t" +:+ newline +:+ newline) (stream_new 1)).
Proof.
  apply (tool_calls_come_out_whole (J := demo_json) to_ascii_lowercase demo_parse (λ _, None) demo_render demo_images).
  intros m. exists "". split; reflexivity.
Defined.

Definition demo_item : json :=
  VObject [("call_id", VString "c1"); ("id", VString "i1"); ("name", VString "read"); ("type", VString "function_call")].

(** Two pieces, with a piece of text in between. *)
Lemma tool_calls_are_reported_once_witness :
  let text := mkSse "response.output_text.delta" None (Some "hi") None None None None None None in
  let events := [added_event demo_item; delta_event "i1" "{a"; text; delta_event "i1" "}"; done_event "i1" None;
                 item_done_event demo_item] in
  (item_trace (J := demo_json) to_ascii_lowercase (λ _, None) demo_render demo_images "i1" events (stream_new 1)).1
  = [[]; []; []; [ToolUseStart "c1" "read"; ToolInputDelta "{a}"; ToolUseEnd]; []].
Proof.
  intros text events.
  refine (proj1 (tool_calls_are_reported_once (J := demo_json) to_ascii_lowercase (λ _, None) demo_render demo_images "i1" "c1" "read"
    demo_item demo_item ["{a"; "}"] None events (stream_new 1) _ _ _ _ _ _ _ _ _ _)); try done; reflexivity.
Defined.
