(* ===== verification/Agent.v ===== *)
(** * The agent

    crates/jcode-app-core/src/agent.rs and agent/messages.rs, interrupts.rs,
    response_recovery.rs, compaction.rs, tools.rs and the parts of
    turn_execution.rs around a turn: the state of an agent, the messages it
    adds, the repair of tool calls without a result, soft interrupts, truncated
    responses, recovery after a context limit, and rewinding.

    A method is a computation of [Agent], a world and the events sent to the
    client.  The world (class [AgentEnv]) holds what an agent shares with
    others or only calls: the clock, identifiers, the stored session, the
    compaction manager behind its lock, the queue of soft interrupts, signals,
    the provider and the tools; it may change whenever it is asked.  Logging,
    the bus of status events, the client-side cache accounting and the traces
    on the terminal are left out. *)

From stdpp Require Import base list strings gmap pretty.
From S2P Require Import Prelude RustString RustText Float32 ToolFs Compaction Manager ModelId Failover OpenAiRequest Message Session.

Open Scope string_scope.
Open Scope nat_scope.
Open Scope list_scope.

(** ** Data *)

Inductive SoftInterruptSource := SrcUser | SrcSystem | SrcBackgroundTask.
#[export] Instance SoftInterruptSource_dec : EqDecision SoftInterruptSource.
Proof. solve_decision. Defined.
#[export] Instance stored_state_dec : EqDecision StoredCompactionState.
Proof. solve_decision. Defined.

Record SoftInterruptMessage := mkSoft { si_content : string; si_urgent : bool; si_source : SoftInterruptSource }.
Record InjectedSoftInterrupt := mkInjected { ij_content : string; ij_source : SoftInterruptSource }.

(** What the code asks of the provider object. *)
Record ProviderView := mkView {
  pv_name : string;
  pv_display_name : string;
  pv_model : string;
  pv_supports_compaction : bool;
  pv_uses_jcode_compaction : bool;
  pv_context_window : N;
  pv_supports_image_input : bool;
  pv_handles_tools_internally : bool;
}.

(** The settings a turn reads. *)
Record Settings := mkSettings {
  cf_message_timestamps : bool;
  cf_persist_memory_injections : bool;
  cf_preserve_reasoning_context : bool;
  cf_show_thinking : bool;
  cf_compaction : CompactionConfig;
}.

Record PendingMemory := mkPendingMemory {
  pm_prompt : string;
  pm_display_prompt : option string;
  pm_age_ms : N;
  pm_count : nat;
  pm_memory_ids : list string;
}.

Record SplitSystemPrompt := mkSplit { sp_static : string; sp_dynamic : string }.

Record Usage := mkUsage {
  us_input_tokens : N;
  us_output_tokens : N;
  us_cache_read : option N;
  us_cache_creation : option N;
}.
Definition usage_default : Usage := mkUsage 0 0 None None.

(** An error of a turn: [anyhow] text, or a [StreamError] with its delay. *)
Inductive AgentError := PlainError (message : string) | StreamFailed (message : string) (retry_after_secs : option N).

Definition JCODE_NATIVE_TOOLS : list string := ["communicate"].
Definition MAX_CONTEXT_LIMIT_RETRIES : nat := 5.
Definition MAX_INCOMPLETE_CONTINUATION_ATTEMPTS : nat := 3.
Definition MAX_EMPTY_POST_TOOL_CONTINUATION_ATTEMPTS : nat := 1.
Definition MAX_TOOL_OUTPUT_CHARS_FOR_HISTORY : nat := 512 * 1024.

Definition soft_interrupt_session_display_role (source : SoftInterruptSource) : option StoredDisplayRole :=
  match source with
  | SrcUser => None
  | SrcSystem => Some DisplaySystem
  | SrcBackgroundTask => Some DisplayBackgroundTask
  end.
Definition soft_interrupt_protocol_display_role (source : SoftInterruptSource) : option string :=
  match source with SrcUser => None | SrcSystem => Some "system" | SrcBackgroundTask => Some "background_task" end.

Section Agents.
Context {J : Json} {T : Chrono}.

Record RewindUndoSnapshot := mkUndo {
  ru_messages : list StoredMessage;
  ru_provider_session_id : option string;
  ru_session_provider_session_id : option string;
  ru_visible_message_count : nat;
}.

(** The identifiers seen so far in the transcript, for the repair. *)
Record Tracking := mkTracking { tr_call_ids : gset string; tr_result_ids : gset string; tr_scan_index : nat }.
Definition tracking_reset : Tracking := mkTracking ∅ ∅ 0.

Record Agent := mkAgent {
  ag_session : Session;
  ag_active_skill : option string;
  ag_allowed_tools : option (gset string);
  ag_disabled_tools : gset string;
  ag_provider_session_id : option string;
  ag_last_upstream_provider : option string;
  ag_last_connection_type : option string;
  ag_last_status_detail : option string;
  ag_pending_alerts : list string;
  ag_system_reminder : option string;
  ag_tracking : Tracking;
  ag_last_usage : Usage;
  ag_locked_tools : option (list ToolDefinition);
  ag_mcp_late_register_resolved : bool;
  ag_memory_enabled : bool;
  ag_rewind_undo : option RewindUndoSnapshot;
}.

Definition set_session (v : Session) (a : Agent) : Agent :=
  let '(mkAgent _ b c d e f g h i j k l m n o p) := a in mkAgent v b c d e f g h i j k l m n o p.
Definition set_provider_session (v : option string) (x : Agent) : Agent :=
  let '(mkAgent a b c d _ f g h i j k l m n o p) := x in mkAgent a b c d v f g h i j k l m n o p.
Definition set_upstream (v : option string) (x : Agent) : Agent :=
  let '(mkAgent a b c d e _ g h i j k l m n o p) := x in mkAgent a b c d e v g h i j k l m n o p.
Definition set_connection (v : option string) (x : Agent) : Agent :=
  let '(mkAgent a b c d e f _ h i j k l m n o p) := x in mkAgent a b c d e f v h i j k l m n o p.
Definition set_status_detail (v : option string) (x : Agent) : Agent :=
  let '(mkAgent a b c d e f g _ i j k l m n o p) := x in mkAgent a b c d e f g v i j k l m n o p.
Definition set_alerts (v : list string) (x : Agent) : Agent :=
  let '(mkAgent a b c d e f g h _ j k l m n o p) := x in mkAgent a b c d e f g h v j k l m n o p.
Definition set_reminder (v : option string) (x : Agent) : Agent :=
  let '(mkAgent a b c d e f g h i _ k l m n o p) := x in mkAgent a b c d e f g h i v k l m n o p.
Definition set_tracking (v : Tracking) (x : Agent) : Agent :=
  let '(mkAgent a b c d e f g h i j _ l m n o p) := x in mkAgent a b c d e f g h i j v l m n o p.
Definition set_usage (v : Usage) (x : Agent) : Agent :=
  let '(mkAgent a b c d e f g h i j k _ m n o p) := x in mkAgent a b c d e f g h i j k v m n o p.
Definition set_locked (v : option (list ToolDefinition)) (resolved : bool) (x : Agent) : Agent :=
  let '(mkAgent a b c d e f g h i j k l _ _ o p) := x in mkAgent a b c d e f g h i j k l v resolved o p.
Definition set_rewind_undo (v : option RewindUndoSnapshot) (x : Agent) : Agent :=
  let '(mkAgent a b c d e f g h i j k l m n o _) := x in mkAgent a b c d e f g h i j k l m n o v.

Definition head_provider_session (v : option string) (h : SessionHead) : SessionHead :=
  mkHead (h_id h) (h_parent_id h) (h_title h) (h_custom_title h) (h_created_at h) (h_updated_at h) (h_compaction h)
    v (h_provider_key h) (h_model h) (h_route_api_method h) (h_reasoning_effort h)
    (h_subagent_model h) (h_improve_mode h) (h_autoreview_enabled h) (h_autojudge_enabled h) (h_working_dir h)
    (h_short_name h) (h_status h) (h_last_pid h) (h_last_active_at h) (h_is_debug h) (h_saved h) (h_save_label h).
Definition head_model (v : option string) (h : SessionHead) : SessionHead :=
  mkHead (h_id h) (h_parent_id h) (h_title h) (h_custom_title h) (h_created_at h) (h_updated_at h) (h_compaction h)
    (h_provider_session_id h) (h_provider_key h) v (h_route_api_method h) (h_reasoning_effort h)
    (h_subagent_model h) (h_improve_mode h) (h_autoreview_enabled h) (h_autojudge_enabled h) (h_working_dir h)
    (h_short_name h) (h_status h) (h_last_pid h) (h_last_active_at h) (h_is_debug h) (h_saved h) (h_save_label h).

(** One field of the session's head. *)
Definition map_head (f : SessionHead → SessionHead) (a : Agent) : Agent :=
  set_session (set_head (f (se_head (ag_session a))) (ag_session a)) a.

(** The provider's session is forgotten, on both sides. *)
Definition drop_provider_session (a : Agent) : Agent :=
  map_head (head_provider_session None) (set_provider_session None a).

(** ** The world *)

Record Request := mkRequest {
  rq_messages : list Message;
  rq_tools : list ToolDefinition;
  rq_system : SplitSystemPrompt;
  rq_resume_session_id : option string;
}.

(** What the stream of a response gives next; the loop that listens to the
    shutdown signal can also be woken by it. *)
Inductive StreamItem := Arrives (event : StreamEvent) | StreamBroken (error : string) | StopSignal.

(** Waiting for a tool in the background loop: it returns, or a signal comes
    first; [late] is what it returns in the grace period after that. *)
Inductive Waited :=
| ToolReturned (r : result ToolOutput string)
| Signalled (late : option (result ToolOutput string)).

(** Events for the client of a streamed turn. *)
Inductive TurnEvent :=
| SentCompaction (trigger : string) (pre_tokens : option N) (messages_compacted : option nat)
| SentMemoryInjected (count : nat) (prompt : string)
| SentConnectionPhase (phase : string)
| SentConnectionType (connection : string)
| SentStatusDetail (detail : string)
| SentUpstreamProvider (provider : string)
| SentReasoningDelta (text : string)
| SentReasoningDone (timed : bool)
| SentText (text : string)
| SentTextReplace (text : string)
| SentToolStart (id name : string)
| SentToolInput (delta : string)
| SentToolExec (id name : string)
| SentToolDone (id name output : string) (error : option string)
| SentGeneratedImage (id path : string)
| SentRetryRollback (attempt max : N)
| SentMessageEnd
| SentSessionId (session_id : string)
| SentTokenUsage (usage : Usage)
| SentModelChanged (model : string)
| SentGuardrail (stop_reason : option string) (message : string)
| SentSoftInterrupt (content : string) (display_role : option string) (point : string) (tools_skipped : option nat).

Class AgentEnv (W : Type) := {
  env_settings : Settings;
  env_now : W → DateTime;
  env_new_id : string → W → string * W;
  (** [Session::save]: [None] when the process ends in it. *)
  env_save : Session → W → option (Session * result unit string * W);
  (** [try_write] on the compaction manager: [None] while others hold it. *)
  env_try_write : W → option CompactionManager * W;
  env_put : CompactionManager → W → W;
  (** The outcome of a compaction task that ends while the manager waits. *)
  env_task_outcome : W → option TaskOutcome * W;
  env_peek_queue : W → list SoftInterruptMessage * W;
  env_drain_queue : W → list SoftInterruptMessage * W;
  env_shutdown : W → bool * W;
  env_provider : W → ProviderView;
  env_complete : Request → W → result (list StreamItem) string * W;
  (** Whether the shutdown signal comes before the stream is open. *)
  env_stopped_opening : W → bool * W;
  env_execute : string → Value → W → result ToolOutput string * N * W;
  (** Also the time in milliseconds, and in seconds with one decimal. *)
  env_wait_tool : string → Value → W → Waited * (N * string) * W;
  env_adopt : string → W → string * W;
  (** A tool run for the provider, whose result is sent back to it. *)
  env_native_call : string → string → Value → W → W;
  env_definitions : option (gset string) → W → list ToolDefinition * W;
  env_tool_names : W → list string * W;
  env_take_pending_memory : string → W → option PendingMemory * W;
  (** [prompt::build_system_prompt_split] with the swarm directive. *)
  env_system_prompt : option string → option string → W → SplitSystemPrompt * W;
  env_image_payload : string → string → option (string * string);
}.

Context {W : Type} {env : AgentEnv W}.

(** ** Computations *)

Record St := mkSt { st_agent : Agent; st_world : W; st_sent : list TurnEvent }.

(** [Dies]: a panic or the end of the process.  [Spins]: the fuel of a loop ran
    out. *)
Inductive Outcome (A : Type) :=
| Done (x : A) (s : St)
| Errs (e : AgentError) (s : St)
| Dies (s : St)
| Spins (s : St).
Arguments Done {A} _ _.
Arguments Errs {A} _ _.
Arguments Dies {A} _.
Arguments Spins {A} _.

Definition M (A : Type) : Type := St → Outcome A.
Definition m_ret {A} (x : A) : M A := λ s, Done x s.
Definition m_bind {A B} (m : M A) (k : A → M B) : M B := λ s,
  match m s with
  | Done x s => k x s
  | Errs e s => Errs e s
  | Dies s => Dies s
  | Spins s => Spins s
  end.
Definition m_err {A} (e : AgentError) : M A := λ s, Errs e s.
Definition m_die {A} : M A := λ s, Dies s.
Definition m_when (b : bool) (m : M unit) : M unit := if b then m else m_ret tt.
Definition gets {A} (f : Agent → A) : M A := λ s, Done (f (st_agent s)) s.
Definition modify (f : Agent → Agent) : M unit := λ s, Done tt (mkSt (f (st_agent s)) (st_world s) (st_sent s)).
(** A question to the world. *)
Definition ask {A} (f : W → A * W) : M A := λ s, let '(x, w) := f (st_world s) in Done x (mkSt (st_agent s) w (st_sent s)).
Definition send (e : TurnEvent) : M unit := λ s, Done tt (mkSt (st_agent s) (st_world s) (st_sent s ++ [e])).
End Agents.

Arguments Done {_ _ _ _} _ _.
Arguments Errs {_ _ _ _} _ _.
Arguments Dies {_ _ _ _} _.
Arguments Spins {_ _ _ _} _.

Declare Scope agent_scope.
Delimit Scope agent_scope with agent.
Notation "'let!' x := m 'in' k" := (m_bind m (λ x, k))
  (at level 200, x pattern, m at level 100, k at level 200, right associativity) : agent_scope.
Notation "m ';!' k" := (m_bind m (λ _, k)) (at level 100, k at level 200, right associativity) : agent_scope.

Section Methods.
Context {J : Json} {T : Chrono} {E : Embedder} {U : Unicode} {W : Type} {env : AgentEnv W}.
Context (to_vec : Message → option (list N)) (debug : Message → list N).
(** The first value of [serde_json::Deserializer::into_iter] and how much it took. *)
Context (parse_prefix : string → option (Value * nat)).

Open Scope agent_scope.

#[local] Notation M := (@M J T W).
#[local] Notation settings := (@env_settings J T W env).

(** ** Sessions *)

Definition edit_session (f : Session → Session) : M unit := modify (λ a, set_session (f (ag_session a)) a).
Definition now : M DateTime := λ s, Done (env_now (st_world s)) s.
Definition provider : M ProviderView := λ s, Done (env_provider (st_world s)) s.

(** [session.save()], its result a value. *)
Definition save : M (result unit string) := λ s,
  match env_save (ag_session (st_agent s)) (st_world s) with
  | Some (session, r, w) => Done r (mkSt (set_session session (st_agent s)) w (st_sent s))
  | None => Dies s
  end.
(** [session.save()?]. *)
Definition save_or_err : M unit :=
  let! r := save in match r with Ok _ => m_ret tt | Err e => m_err (PlainError e) end.
Definition persist_session_best_effort : M unit := let! _ := save in m_ret tt.

Definition put_manager (m : CompactionManager) : M unit := ask (λ w, (tt, env_put m w)).

(** The manager after a message, when nobody holds it. *)
Definition notify_manager : M unit :=
  let! lock := ask env_try_write in
  match lock with
  | None => m_ret tt
  | Some manager =>
      let! session := gets ag_session in
      put_manager (match last (se_messages session) with
                   | Some m => notify_message_added_blocks (stm_content m) manager
                   | None => notify_message_added manager
                   end)
  end.

Definition add_stored (role : Role) (content : list ContentBlock) (duration_ms : option N)
    (usage : option StoredTokenUsage) (display_role : option StoredDisplayRole) : M string :=
  let! id := ask (env_new_id "message") in
  let! time := now in
  edit_session (add_message_ext_with_display_role id time role content duration_ms usage display_role) ;!
  notify_manager ;!
  m_ret id.

Definition add_message (role : Role) (content : list ContentBlock) : M string := add_stored role content None None None.
Definition add_message_with_display_role (role : Role) (content : list ContentBlock)
    (display_role : option StoredDisplayRole) : M string := add_stored role content None None display_role.
Definition add_message_with_duration (role : Role) (content : list ContentBlock) (duration_ms : option N) : M string :=
  add_stored role content duration_ms None None.
Definition add_message_ext (role : Role) (content : list ContentBlock) (duration_ms : option N)
    (usage : option StoredTokenUsage) : M string := add_stored role content duration_ms usage None.

(** ** Tool calls without a result *)

Definition use_ids (blocks : list ContentBlock) : list string :=
  omap (λ b, match b with ToolUse id _ _ _ => Some id | _ => None end) blocks.
Definition result_ids (blocks : list ContentBlock) : list string :=
  omap (λ b, match b with ToolResult id _ _ => Some id | _ => None end) blocks.

(** The scan: results of user messages, and the calls of assistant messages with
    their index. *)
Fixpoint scan_from (index : nat) (l : list StoredMessage) : list string * list (nat * list string) :=
  match l with
  | [] => ([], [])
  | m :: rest =>
      let '(results, uses) := scan_from (S index) rest in
      match stm_role m with
      | User => (result_ids (stm_content m) ++ results, uses)
      | Assistant =>
          let ids := use_ids (stm_content m) in
          (results, match ids with [] => uses | _ => (index, ids) :: uses end)
      end
  end.

Definition missing_for (results : gset string) (uses : list (nat * list string)) : list (nat * list string) :=
  omap (λ '(index, ids),
    match List.filter (λ id, negb (bool_decide (id ∈ results))) ids with
    | [] => None
    | missing => Some (index, missing)
    end) uses.

Definition missing_output (id : string) (message_id : string) (time : DateTime) : StoredMessage :=
  mkStoredMessage message_id User [ToolResult id TOOL_OUTPUT_MISSING_TEXT (Some true)] None (Some time) None None.

(** Results for one message, from position [at_index] on. *)
Fixpoint insert_missing (at_index : nat) (ids : list string) : M unit :=
  match ids with
  | [] => m_ret tt
  | id :: rest =>
      let! message_id := ask (env_new_id "message") in
      let! time := now in
      let! session := gets ag_session in
      match insert_message at_index (missing_output id message_id time) session with
      | None => m_die
      | Some session =>
          modify (λ a, let t := ag_tracking a in
                       set_tracking (mkTracking (tr_call_ids t) ({[id]} ∪ tr_result_ids t) (tr_scan_index t))
                         (set_session session a)) ;!
          insert_missing (S at_index) rest
      end
  end.
Fixpoint insert_repairs (inserted : nat) (repairs : list (nat * list string)) : M nat :=
  match repairs with
  | [] => m_ret inserted
  | (index, missing) :: rest =>
      insert_missing (index + 1 + inserted) missing ;!
      insert_repairs (inserted + length missing) rest
  end.

Definition repair_missing_tool_outputs : M nat :=
  let! a := gets id in
  let t := if length (se_messages (ag_session a)) <? tr_scan_index (ag_tracking a)
           then tracking_reset else ag_tracking a in
  let messages := se_messages (ag_session a) in
  let scan_start := tr_scan_index t in
  let '(new_results, uses) := scan_from scan_start (drop scan_start messages) in
  let results := tr_result_ids t ∪ list_to_set new_results in
  let calls := tr_call_ids t ∪ list_to_set (uses ≫= snd) in
  modify (set_tracking (mkTracking calls results (length messages))) ;!
  let! repaired := insert_repairs 0 (missing_for results uses) in
  modify (λ a, let t := ag_tracking a in
               set_tracking (mkTracking (tr_call_ids t) (tr_result_ids t) (length (se_messages (ag_session a)))) a) ;!
  (if 0 <? repaired
   then persist_session_best_effort ;! modify (set_locked None false)
   else m_ret tt) ;!
  m_ret repaired.

(** ** Soft interrupts *)

Definition flush_group (injected : list InjectedSoftInterrupt) (source : SoftInterruptSource) (parts : list string) :
    M (list InjectedSoftInterrupt) :=
  match parts with
  | [] => m_ret injected
  | _ =>
      let content := String.concat (newline +:+ newline) parts in
      let! _ := add_message_with_display_role User [Text content None] (soft_interrupt_session_display_role source) in
      m_ret (injected ++ [mkInjected content source])
  end.

Fixpoint inject_loop (current : option SoftInterruptSource) (parts : list string)
    (injected : list InjectedSoftInterrupt) (messages : list SoftInterruptMessage) : M (list InjectedSoftInterrupt) :=
  match messages with
  | [] => match current with Some source => flush_group injected source parts | None => m_ret injected end
  | message :: rest =>
      match current with
      | Some source =>
          if negb (bool_decide (source = si_source message)) then
            let! injected := flush_group injected source parts in
            inject_loop (Some (si_source message)) [si_content message] injected rest
          else inject_loop current (parts ++ [si_content message]) injected rest
      | None => inject_loop (Some (si_source message)) (parts ++ [si_content message]) injected rest
      end
  end.

Definition inject_soft_interrupts : M (list InjectedSoftInterrupt) :=
  let! messages := ask env_drain_queue in
  match messages with
  | [] => m_ret []
  | _ =>
      let! injected := inject_loop None [] [] messages in
      persist_session_best_effort ;!
      m_ret injected
  end.

Definition has_urgent_interrupt : M bool :=
  let! queue := ask env_peek_queue in m_ret (existsb si_urgent queue).

Definition build_soft_interrupt_events (injected : list InjectedSoftInterrupt) (point : string) (tools_skipped : option nat) :
    list TurnEvent :=
  imap (λ idx interrupt, SentSoftInterrupt (ij_content interrupt) (soft_interrupt_protocol_display_role (ij_source interrupt))
                           point (if idx =? 0 then tools_skipped else None)) injected.

(** ** Responses that end early *)

Definition should_continue_after_stop_reason (stop_reason : string) : bool :=
  let reason := to_ascii_lowercase (trim stop_reason) in
  if str_is_empty reason then false
  else if existsb (String.eqb reason) ["stop"; "end_turn"; "tool_use"] then false
  else contains_any ["incomplete"; "max_output_tokens"; "max_tokens"; "length"; "trunc"; "commentary"] reason.

Definition is_guardrail_stop_reason (stop_reason : option string) : bool :=
  match stop_reason with
  | None => false
  | Some reason =>
      let reason := to_ascii_lowercase (trim reason) in
      existsb (String.eqb reason) ["refusal"; "content_filter"; "safety"]
      || str_contains "guardrail" reason || str_contains "policy_violation" reason
  end.

Definition non_empty_reason (stop_reason : option string) : option string :=
  stop_reason ≫= λ r, let r := trim r in if str_is_empty r then None else Some r.

Definition provider_guardrail_notice (stop_reason : option string) (visible_text_empty had_reasoning : bool) : option string :=
  let guardrail := is_guardrail_stop_reason stop_reason in
  if negb guardrail && negb visible_text_empty then None
  else
    let reason_label := default "unknown" (non_empty_reason stop_reason) in
    if guardrail then
      Some ("Provider guardrail stopped the response (stop_reason: " +:+ reason_label
            +:+ "). The model declined to answer this request. Rephrasing, narrowing the request, or providing more context may help.")
    else
      Some ("The model ended its turn without any visible output"
            +:+ (if had_reasoning then " after producing only internal reasoning" else "")
            +:+ " (stop_reason: " +:+ reason_label
            +:+ "). This is usually a provider-side guardrail or filter silently dropping the response. Rephrasing the request may help.").

Definition continuation_prompt_for_stop_reason (stop_reason : string) : string :=
  "[System reminder: your previous response ended before completion (stop_reason: " +:+ trim stop_reason
  +:+ "). Continue exactly where you left off, do not repeat completed content, and if the next step is a tool call, emit the tool call now.]".

(** Whether to go on, and the number of attempts. *)
Definition maybe_continue_incomplete_response (stop_reason : option string) (attempts : nat) : M (bool * nat) :=
  match non_empty_reason stop_reason with
  | None => m_ret (false, attempts)
  | Some reason =>
      if negb (should_continue_after_stop_reason reason) then m_ret (false, attempts)
      else if MAX_INCOMPLETE_CONTINUATION_ATTEMPTS <=? attempts then m_ret (false, attempts)
      else
        let! _ := add_message User [Text (continuation_prompt_for_stop_reason reason) None] in
        save_or_err ;!
        m_ret (true, S attempts)
  end.

Definition is_null (v : Value) : bool := match value_kind v with JNull => true | _ => false end.

Definition filter_truncated_tool_calls (stop_reason : option string) (tool_calls : list ToolCall)
    (assistant_message_id : option string) : M (list ToolCall) :=
  if negb (should_continue_after_stop_reason (default "" stop_reason)) then m_ret tool_calls
  else
    let kept := List.filter (λ tc, negb (is_null (tc_input tc))) tool_calls in
    let discarded := length tool_calls - length kept in
    match kept, assistant_message_id with
    | [], Some message_id =>
        if 0 <? discarded
        then edit_session (remove_tool_use_blocks message_id) ;! persist_session_best_effort ;! m_ret kept
        else m_ret kept
    | _, _ => m_ret kept
    end.

(** The text around a call and its place, as in the response stream, but with
    the value itself. *)
Fixpoint wrapped_value_from (prefix tool_name : string) (fallback : option (string * string * Value * string))
    (remaining : string) : option (string * string * Value * string) :=
  match remaining with
  | "" => fallback
  | String c rest =>
      if negb (byte_val c =? 123)%N then wrapped_value_from prefix tool_name fallback rest
      else match parse_prefix remaining with
           | Some (value, consumed) =>
               if negb (is_object value) then wrapped_value_from prefix tool_name fallback rest
               else
                 let suffix := trim (str_drop consumed remaining) in
                 let call := (prefix, tool_name, value, suffix) in
                 if str_is_empty suffix then Some call
                 else wrapped_value_from prefix tool_name (match fallback with Some f => Some f | None => Some call end) rest
           | None => wrapped_value_from prefix tool_name fallback rest
           end
  end.

(** Letters, digits and underscores at the start. *)
Fixpoint tool_name_end (s : string) : nat :=
  match s with
  | String c rest => if is_ascii_alphanumeric c || (byte_val c =? 95)%N then S (tool_name_end rest) else 0
  | "" => 0
  end.

Definition WRAP_MARKER : string := "to=functions.".

Definition parse_wrapped_call (text : string) : option (string * string * Value * string) :=
  match str_find WRAP_MARKER text with
  | None => None
  | Some marker_idx =>
      let after_marker := str_drop (marker_idx + String.length WRAP_MARKER) text in
      let name_end := tool_name_end after_marker in
      if name_end =? 0 then None
      else wrapped_value_from (trim_end (str_take marker_idx text)) (str_take name_end after_marker) None
             (str_drop name_end after_marker)
  end.

(** The text and the calls afterwards. *)
Definition recover_text_wrapped_tool_call (text : string) (tool_calls : list ToolCall) : M (string * list ToolCall) :=
  match tool_calls with
  | _ :: _ => m_ret (text, tool_calls)
  | [] =>
      if str_is_empty (trim text) then m_ret (text, tool_calls)
      else match parse_wrapped_call text with
           | None => m_ret (text, tool_calls)
           | Some (prefix, tool_name, arguments, suffix) =>
               let sanitized :=
                 if str_is_empty suffix then prefix
                 else (if str_is_empty prefix then "" else prefix +:+ newline) +:+ suffix in
               let! call := ask (env_new_id "call") in
               m_ret (sanitized,
                      [mkToolCall ("fallback_text_call_" +:+ call) tool_name arguments (intent_from_input arguments) None])
           end
  end.

(** ** Tool results *)

(** [chars().count()] against the limit, and the text that is kept. *)
Definition cap_content_for_history (tool_name content : string) : string :=
  let original_chars := length (chars content) in
  if original_chars <=? MAX_TOOL_OUTPUT_CHARS_FOR_HISTORY then content
  else
    truncate_str content MAX_TOOL_OUTPUT_CHARS_FOR_HISTORY +:+ newline +:+ newline
    +:+ "[Tool output truncated by jcode: tool `" +:+ tool_name +:+ "` produced " +:+ pretty original_chars
    +:+ " chars; kept first " +:+ pretty MAX_TOOL_OUTPUT_CHARS_FOR_HISTORY
    +:+ " chars to protect the remote protocol, session history, and prompt cache. Redirect large logs to a file and read targeted sections.]".
Definition cap_sdk_tool_content_for_history (tool_name content : string) : string :=
  cap_content_for_history tool_name content.
Definition cap_tool_output_for_history (tool_name : string) (output : ToolOutput) : ToolOutput :=
  {| to_output := cap_content_for_history tool_name (to_output output); to_title := to_title output;
     to_metadata := to_metadata output; to_images := to_images output |}.

Definition image_blocks (img : ToolImage) : list ContentBlock :=
  Image (img_media_type img) (img_data img)
  :: match img_label img with
     | Some label =>
         if str_is_empty (trim label) then []
         else [Text ("[Attached image associated with the preceding tool result: " +:+ label +:+ "]") None]
     | None => []
     end.
Definition tool_output_to_content_blocks (tool_use_id : string) (output : ToolOutput) : list ContentBlock :=
  ToolResult tool_use_id (to_output output) None :: (to_images output ≫= image_blocks).

Definition validate_tool_allowed (name : string) : M unit :=
  let! allowed := gets ag_allowed_tools in
  let! disabled := gets ag_disabled_tools in
  match allowed with
  | Some set => if bool_decide (name ∈ set) then m_ret tt else m_err (PlainError ("Tool '" +:+ name +:+ "' is not allowed"))
  | None => m_ret tt
  end ;!
  if bool_decide (name ∈ disabled) then m_err (PlainError ("Tool '" +:+ name +:+ "' is disabled")) else m_ret tt.

Definition unlock_tools : M unit := modify (λ a, set_locked None false a).
Definition unlock_tools_if_needed (tool_name : string) : M unit :=
  m_when (String.eqb tool_name "mcp") unlock_tools.

(** ** Compaction *)

Definition sync_session_compaction_state_from_manager (manager : CompactionManager) : M unit :=
  let! session := gets ag_session in
  let new_state := persisted_state manager in
  if bool_decide (h_compaction (se_head session) = new_state) then m_ret tt
  else modify (map_head (head_compaction new_state)) ;! persist_session_best_effort.

(** The session forgets the provider's state and the tools are read again. *)
Definition reset_provider_state (a : Agent) : Agent :=
  drop_provider_session (set_locked None (ag_mcp_late_register_resolved a) a).
Definition note_compaction_applied : M unit := modify reset_provider_state.

Definition context_limit_needles : list string :=
  ["context length"; "context window"; "maximum context"; "max context"; "token limit"; "too many tokens";
   "prompt is too long"; "input is too long"; "request too large"; "length limit"; "maximum tokens"].
Definition is_context_limit_error (error : string) : bool :=
  let lower := to_lowercase error in
  contains_any context_limit_needles lower || (str_contains "exceeded" lower && str_contains "tokens" lower).

(** [provider_messages], which fills the cache of the session. *)
Definition session_provider_messages : M (list Message) :=
  let! session := gets ag_session in
  let '(session, messages) := provider_messages to_vec debug session in
  modify (set_session session) ;! m_ret messages.

Definition seed_restored_stored_messages_with (all : list StoredMessage) (m : CompactionManager) : CompactionManager :=
  map_chars (set_exact (sum_N ((λ x, content_char_count (stm_content x)) <$> all)))
    (set_turns (length all) (negb (length all =? 0)) m).
Definition restore_persisted_stored_state_with (state : StoredCompactionState) (all : list StoredMessage)
    (m : CompactionManager) : CompactionManager :=
  let m := restore_persisted_state state (length all) m in
  map_chars (set_exact (sum_N ((λ x, content_char_count (stm_content x))
                                 <$> drop (Nat.min (compacted_count m) (length all)) all))) m.

Definition try_recover_oversized_openai_native_compaction : M bool :=
  let! lock := ask env_try_write in
  match lock with
  | None => m_ret false
  | Some manager =>
      let '(discarded, manager) := discard_oversized_openai_native_compaction manager in
      put_manager manager ;!
      if negb discarded then m_ret false
      else
        sync_session_compaction_state_from_manager manager ;!
        modify reset_provider_state ;!
        m_ret true
  end.

(** The manager starts again, for the transcript as it is now. *)
Definition reseeded (budget : N) (state : option StoredCompactionState) (messages : list Message) : CompactionManager :=
  let m := set_budget budget (manager_new (cf_compaction settings)) in
  match state with
  | Some state => restore_persisted_state_with state messages m
  | None => seed_restored_messages_with messages m
  end.

Definition try_recover_after_payload_too_large (error : string) : M bool :=
  if negb (is_request_payload_too_large_error error) then m_ret false
  else
    let! session := gets ag_session in
    let '(session, stripped) := strip_oversized_images PAYLOAD_IMAGE_CHAR_BUDGET session in
    modify (set_session session) ;!
    if stripped =? 0 then m_ret false
    else
      let! lock := ask env_try_write in
      match lock with
      | None => m_ret tt
      | Some _ =>
          let! messages := session_provider_messages in
          let! view := provider in
          let! session := gets ag_session in
          let manager := reseeded (pv_context_window view) (h_compaction (se_head session)) messages in
          put_manager manager ;!
          sync_session_compaction_state_from_manager manager
      end ;!
      modify reset_provider_state ;!
      m_ret true.

Definition hard_compact_for_limit : M bool :=
  let! view := provider in
  if negb (pv_supports_compaction view) then m_ret false
  else
    let! lock := ask env_try_write in
    match lock with
    | None => m_ret false
    | Some manager =>
        let! all := session_provider_messages in
        let manager := update_observed_input_tokens (pv_context_window view) manager in
        let '(r, manager) := hard_compact_with all manager in
        put_manager manager ;!
        match r with
        | Err _ => m_ret false
        | Ok _ =>
            sync_session_compaction_state_from_manager manager ;!
            modify reset_provider_state ;!
            m_ret true
        end
    end.

Definition try_auto_compact_after_context_limit (error : string) : M bool :=
  let! native :=
    (if is_openai_encrypted_content_too_large_error error then try_recover_oversized_openai_native_compaction else m_ret false) in
  if (native : bool) then m_ret true
  else
    let! payload := try_recover_after_payload_too_large error in
    if (payload : bool) then m_ret true
    else if negb (is_context_limit_error error) then m_ret false
    else hard_compact_for_limit.

Definition update_compaction_usage_from_stream (input_tokens : N) (cache_read cache_creation : option N) : M unit :=
  let! view := provider in
  if negb (pv_uses_jcode_compaction view) || (input_tokens =? 0)%N then m_ret tt
  else
    let observed := effective_context_tokens_from_usage (pv_name view) input_tokens cache_read cache_creation in
    let! lock := ask env_try_write in
    match lock with
    | None => m_ret tt
    | Some manager => put_manager (push_token_snapshot observed (update_observed_input_tokens observed manager))
    end.

Definition push_embedding_snapshot_if_semantic (text : string) : M unit :=
  let! read := ask env_try_write in
  match read with
  | Some manager =>
      match mode manager with
      | Semantic =>
          let! lock := ask env_try_write in
          match lock with Some manager => put_manager (push_embedding_snapshot text manager) | None => m_ret tt end
      | _ => m_ret tt
      end
  | None => m_ret tt
  end.

Definition apply_openai_native_compaction (encrypted_content : string) (compacted : nat) : M unit :=
  let sendable := openai_encrypted_content_is_sendable encrypted_content in
  let state := mkStored (if sendable then "" else openai_encrypted_content_fallback_summary (str_len encrypted_content))
                 (if sendable then Some encrypted_content else None) compacted compacted compacted in
  modify (map_head (head_compaction (Some state))) ;!
  let! lock := ask env_try_write in
  let! session := gets ag_session in
  let! view := provider in
  match lock with
  | Some manager =>
      put_manager (restore_persisted_stored_state_with state (se_messages session) (set_budget (pv_context_window view) manager))
  | None => m_ret tt
  end ;!
  modify (λ a, drop_provider_session (set_locked None false a)) ;!
  save_or_err.

(** [poll_compaction_completion_event], of an idle agent. *)
Definition poll_compaction_completion_event : M (option CompactionEvent) :=
  let! messages := session_provider_messages in
  let! lock := ask env_try_write in
  match lock with
  | None => m_ret None
  | Some manager =>
      let '(event, manager) := poll_compaction_event_with messages manager in
      put_manager manager ;!
      match event with
      | None => m_ret None
      | Some _ =>
          sync_session_compaction_state_from_manager manager ;!
          note_compaction_applied ;!
          persist_session_best_effort ;!
          m_ret event
      end
  end.

(** The messages of a request, and the compaction that was applied. *)
Definition messages_for_provider : M (list Message * option CompactionEvent) :=
  let! view := provider in
  let! session := gets ag_session in
  let! lock := (if pv_supports_compaction view || bool_decide (is_Some (h_compaction (se_head session)))
                then ask env_try_write else m_ret None) in
  match lock with
  | None => let! messages := session_provider_messages in m_ret (messages, None)
  | Some manager =>
      let '(discarded, manager) := discard_oversized_openai_native_compaction manager in
      let! all := session_provider_messages in
      let! fitted :=
        (if pv_uses_jcode_compaction view
         then let! finish := ask env_task_outcome in
              match ensure_context_fits finish all manager with
              | Some (_, manager) => m_ret manager
              | None => m_die
              end
         else m_ret manager) in
      let '(messages, manager) := messages_for_api_with all fitted in
      let '(event, manager) := take_compaction_event manager in
      put_manager manager ;!
      m_when (bool_decide (is_Some event) || discarded) (sync_session_compaction_state_from_manager manager) ;!
      m_when (bool_decide (is_Some event)) (note_compaction_applied ;! persist_session_best_effort) ;!
      m_ret (messages, event)
  end.

Definition seed_compaction_from_session : M unit :=
  let! lock := ask env_try_write in
  match lock with
  | None => m_ret tt
  | Some _ =>
      let! view := provider in
      let! session := gets ag_session in
      let manager := set_budget (pv_context_window view) (manager_new (cf_compaction settings)) in
      let manager := match h_compaction (se_head session) with
                     | Some state => restore_persisted_stored_state_with state (se_messages session) manager
                     | None => seed_restored_stored_messages_with (se_messages session) manager
                     end in
      let '(discarded, manager) := discard_oversized_openai_native_compaction manager in
      put_manager manager ;!
      m_when discarded (modify (map_head (head_compaction (persisted_state manager))) ;! persist_session_best_effort)
  end.

(** ** The tools of a request *)

Definition build_filtered_tool_definitions : M (list ToolDefinition) :=
  let! allowed := gets ag_allowed_tools in
  let! disabled := gets ag_disabled_tools in
  let! tools := ask (env_definitions allowed) in
  m_ret (List.filter (λ t, negb (bool_decide (td_name t ∈ disabled))) tools).

Definition is_new_mcp_tool (allowed : option (gset string)) (disabled : gset string) (locked : list ToolDefinition)
    (name : string) : bool :=
  starts_with "mcp__" name
  && match allowed with Some set => bool_decide (name ∈ set) | None => true end
  && negb (bool_decide (name ∈ disabled))
  && negb (existsb (λ t, String.eqb (td_name t) name) locked).
Definition registry_has_new_mcp_tools (locked : list ToolDefinition) : M bool :=
  let! names := ask env_tool_names in
  let! allowed := gets ag_allowed_tools in
  let! disabled := gets ag_disabled_tools in
  m_ret (existsb (is_new_mcp_tool allowed disabled locked) names).

Definition lock_tools : M (list ToolDefinition) :=
  let! tools := build_filtered_tool_definitions in
  modify (λ a, set_locked (Some tools) (ag_mcp_late_register_resolved a) a) ;!
  m_ret tools.

Definition tool_definitions : M (list ToolDefinition) :=
  let! locked := gets ag_locked_tools in
  let! resolved := gets ag_mcp_late_register_resolved in
  match locked with
  | None => lock_tools
  | Some tools =>
      if (resolved : bool) then m_ret tools
      else
        let! fresh := registry_has_new_mcp_tools tools in
        if (fresh : bool) then modify (set_locked None true) ;! lock_tools
        else m_ret tools
  end.

(** ** The prompt of a request *)

Definition append_current_turn_system_reminder (reminder : option string) (split : SplitSystemPrompt) : SplitSystemPrompt :=
  match reminder ≫= (λ r, let r := trim r in if str_is_empty r then None else Some r) with
  | None => split
  | Some r =>
      mkSplit (sp_static split)
        (sp_dynamic split +:+ (if str_is_empty (sp_dynamic split) then "" else newline +:+ newline)
         +:+ "# System Reminder" +:+ newline +:+ newline +:+ r)
  end.

Definition build_memory_prompt_nonblocking_shared (messages : list Message) : M (option PendingMemory) :=
  let! enabled := gets ag_memory_enabled in
  let! session := gets ag_session in
  if (enabled : bool) && ends_with_fresh_user_turn messages
  then ask (env_take_pending_memory (h_id (se_head session)))
  else m_ret None.

Definition memory_injection_message (time : DateTime) (memory : PendingMemory) : Message :=
  user_message time ("<system-reminder>" +:+ newline +:+ pm_prompt memory +:+ newline +:+ "</system-reminder>").

(** An injection of [count] memories, at least one. *)
Definition record_memory_injection_in_session (memory : PendingMemory) : M unit :=
  let count := Nat.max (pm_count memory) 1 in
  let summary := if count =? 1 then "🧠 auto-recalled 1 memory"
                 else "🧠 auto-recalled " +:+ pretty count +:+ " memories" in
  let display_prompt :=
    match pm_display_prompt memory with
    | Some p => p
    | None => if str_is_empty (trim (pm_prompt memory))
              then "# Memory" +:+ newline +:+ newline +:+ "## Notes" +:+ newline +:+ "1. (empty injection payload)"
              else pm_prompt memory
    end in
  let! time := now in
  edit_session (record_memory_injection time summary display_prompt (N.of_nat count) (pm_age_ms memory) (pm_memory_ids memory)) ;!
  persist_session_best_effort.

Definition prepare_memory_injection_message (memory : PendingMemory) : M Message :=
  let! time := now in
  let message := memory_injection_message time memory in
  m_when (cf_persist_memory_injections settings)
    (let! _ := add_message_with_display_role User (content message) (Some DisplaySystem) in
     persist_session_best_effort) ;!
  m_ret message.

(** The messages with the recalled memories at the end; a client is told. *)
Definition inject_memory (streamed : bool) (messages : list Message) (memory : option PendingMemory) : M (list Message) :=
  match memory with
  | None => m_ret messages
  | Some memory =>
      record_memory_injection_in_session memory ;!
      m_when streamed (send (SentMemoryInjected (Nat.max (pm_count memory) 1) (pm_prompt memory))) ;!
      let! message := prepare_memory_injection_message memory in
      m_ret (messages ++ [message])
  end.

(** ** Reasoning and images *)

Definition stores_reasoning_content_for_context (provider_name : string) : bool :=
  cf_preserve_reasoning_context settings
  && existsb (String.eqb (to_ascii_lowercase provider_name)) ["openrouter"; "anthropic"; "openai"].

Definition reasoning_blocks (provider_name reasoning_content : string) (reasoning_signature : option string)
    (store_replay_context : bool) : list ContentBlock :=
  if str_is_empty reasoning_content then []
  else
    let replay :=
      if negb store_replay_context then []
      else if eq_ignore_ascii_case provider_name "anthropic" then
        match reasoning_signature with
        | Some signature => if str_is_empty signature then [] else [AnthropicThinking reasoning_content signature]
        | None => []
        end
      else if eq_ignore_ascii_case provider_name "openai" then []
      else [Reasoning reasoning_content] in
    match replay with [] => [ReasoningTrace reasoning_content] | _ => replay end.

Definition non_blank (s : option string) : option string :=
  s ≫= λ s, if str_is_empty (trim s) then None else Some s.

Definition generated_image_visual_context_blocks (path : string) (metadata_path : option string) (output_format : string)
    (revised_prompt : option string) : option (list ContentBlock) :=
  '(media_type, data) ← env_image_payload path output_format;
  Some [Text ("<system-reminder>" +:+ newline +:+ "A provider-native image generation call created `" +:+ path
              +:+ "`. Jcode attached the image pixels as visual context for future turns because the active provider supports image input and the file is under the safe 20 MB limit."
              +:+ newline +:+ "Format: " +:+ output_format
              +:+ match non_blank metadata_path with Some p => newline +:+ "Metadata: " +:+ p | None => "" end
              +:+ match non_blank revised_prompt with
                  | Some p => newline +:+ "Revised prompt:" +:+ newline +:+ trim p
                  | None => ""
                  end
              +:+ newline +:+ "</system-reminder>") None;
        Image media_type data].

(** ** Between turns *)

Definition reset_tool_output_tracking : M unit := modify (set_tracking tracking_reset).

(** [message_index] counts the visible messages from one; [targets] are their
    places in the transcript. *)
Definition rewind_to_message (targets : list nat) (message_index : nat) : M (result nat string) :=
  let message_count := length targets in
  match (if message_index =? 0 then None else targets !! (message_index - 1)) with
  | None => m_ret (Err ("Invalid message number: " +:+ pretty message_index +:+ ". Valid range: 1-" +:+ pretty message_count))
  | Some target =>
      let! a := gets id in
      modify (set_rewind_undo (Some (mkUndo (se_messages (ag_session a)) (ag_provider_session_id a)
                (h_provider_session_id (se_head (ag_session a))) message_count))) ;!
      edit_session (truncate_messages (target + 1)) ;!
      let! time := now in
      modify (λ a, drop_provider_session (map_head (head_updated_at time) a)) ;!
      modify (λ a, set_locked None (ag_mcp_late_register_resolved a) a) ;!
      reset_tool_output_tracking ;!
      persist_session_best_effort ;!
      m_ret (Ok (message_count - message_index))
  end.

Definition undo_rewind (current_count : nat) : M (result nat string) :=
  let! undo := gets ag_rewind_undo in
  match undo with
  | None => m_ret (Err "No rewind to undo.")
  | Some snapshot =>
      modify (set_rewind_undo None) ;!
      edit_session (replace_messages (ru_messages snapshot)) ;!
      let! time := now in
      modify (λ a, map_head (head_updated_at time)
                     (map_head (head_provider_session (ru_session_provider_session_id snapshot))
                        (set_provider_session (ru_provider_session_id snapshot) a))) ;!
      modify (λ a, set_locked None (ag_mcp_late_register_resolved a) a) ;!
      reset_tool_output_tracking ;!
      persist_session_best_effort ;!
      m_ret (Ok (ru_visible_message_count snapshot - current_count))
  end.

Definition push_alert (alert : string) : M unit := modify (λ a, set_alerts (ag_pending_alerts a ++ [alert]) a).

(** A tool run by the client, with its result, recorded by hand. *)
Definition add_manual_tool_use (tool_call_id tool_name : string) (input : Value) : M string :=
  let! id := add_message Assistant [ToolUse tool_call_id tool_name input None] in
  save_or_err ;! m_ret id.
Definition add_manual_tool_result (tool_call_id : string) (output : ToolOutput) (duration_ms : N) : M unit :=
  let! _ := add_message_with_duration User (tool_output_to_content_blocks tool_call_id output) (Some duration_ms) in
  save_or_err.
Definition add_manual_tool_error (tool_call_id error : string) (duration_ms : N) : M unit :=
  let! _ := add_message_with_duration User [ToolResult tool_call_id error (Some true)] (Some duration_ms) in
  save_or_err.
End Methods.
