(* ===== verification/AgentTurn.v ===== *)
(** * The turns of an agent

    crates/jcode-app-core/src/agent/turn_loops.rs and turn_streaming_mpsc.rs,
    with the entry points of turn_execution.rs: one turn of an agent, in which
    requests are sent and tools executed until a response has no tool calls.
    The first loop prints to a terminal, the second one sends events to a
    client and listens to signals.  Both take fuel, one unit for each request;
    the printed output, keep-alive events and metrics are left out. *)

From stdpp Require Import base list strings gmap pretty.
From S2P Require Import Prelude RustString RustText Float32 ToolFs Compaction Manager ModelId Failover OpenAiRequest Message Session Agent.

Open Scope string_scope.
Open Scope nat_scope.
Open Scope list_scope.

(** ** Text that hides a tool call *)

Definition WRAP_TOOL_MARKERS : list string := ["to=functions."; "+#+#"].

(** [filter_map(find).min()]. *)
Definition first_marker (window : string) : option nat :=
  foldr (λ marker best, match str_find marker window, best with
                        | Some i, Some j => Some (Nat.min i j)
                        | Some i, None => Some i
                        | None, _ => best
                        end) None WRAP_TOOL_MARKERS.

(** Both copies of the function. *)
Definition floor_char_boundary (text : string) (index : nat) : nat :=
  if String.length text <=? index then String.length text else floor_boundary text index.

(** The first marker, looked for at the end of the text only: the part that was
    just appended and as much before it as a marker can reach into. *)
Definition find_wrap_marker_incremental (accumulated : string) (appended_len : nat) : option nat :=
  let max_marker_len := foldr Nat.max 0 (String.length <$> WRAP_TOOL_MARKERS) in
  let scan_start := String.length accumulated - (appended_len + (max_marker_len - 1)) in
  let scan_start := floor_char_boundary accumulated scan_start in
  (λ rel, scan_start + rel) <$> first_marker (str_drop scan_start accumulated).

Section Turn.
Context {J : Json} {T : Chrono} {E : Embedder} {U : Unicode} {W : Type} {env : AgentEnv W}.
Context (to_vec : Message → option (list N)) (debug : Message → list N).
Context (parse_prefix : string → option (Value * nat)).

Open Scope agent_scope.
#[local] Notation M := (@M J T W).
#[local] Notation settings := (@env_settings J T W env).

(** ** The response so far *)

Record Response := mkResponse {
  rp_text : string;
  rp_calls : list ToolCall;
  rp_current : option ToolCall;
  rp_input : string;
  rp_images : list (list ContentBlock);
  rp_usage : option N * option N * option N * option N;
  rp_saw_end : bool;
  rp_stop_reason : option string;
  rp_reasoning : string;
  rp_signature : string;
  rp_reasoning_items : list ContentBlock;
  rp_sdk_results : gmap string (string * bool);
  rp_native_compaction : option (string * nat);
  (** Of the loop with a client only. *)
  rp_wrapped : bool;
  rp_reasoning_open : bool;
  rp_names : gmap string string;
}.
Definition response_new : Response :=
  mkResponse "" [] None "" [] (None, None, None, None) false None "" "" [] ∅ None false false ∅.

Definition rp_set_text (v : string) (r : Response) : Response :=
  let '(mkResponse _ b c d e f g h i j k l m n o p) := r in mkResponse v b c d e f g h i j k l m n o p.
Definition rp_set_calls (v : list ToolCall) (current : option ToolCall) (input : string) (r : Response) : Response :=
  let '(mkResponse a _ _ _ e f g h i j k l m n o p) := r in mkResponse a v current input e f g h i j k l m n o p.
Definition rp_add_image (v : list ContentBlock) (r : Response) : Response :=
  let '(mkResponse a b c d e f g h i j k l m n o p) := r in mkResponse a b c d (e ++ [v]) f g h i j k l m n o p.
Definition rp_set_usage (v : option N * option N * option N * option N) (r : Response) : Response :=
  let '(mkResponse a b c d e _ g h i j k l m n o p) := r in mkResponse a b c d e v g h i j k l m n o p.
Definition rp_set_end (reason : option string) (r : Response) : Response :=
  let '(mkResponse a b c d e f _ h i j k l m n o p) := r in
  mkResponse a b c d e f true (match reason with Some _ => reason | None => h end) i j k l m n o p.
Definition rp_add_reasoning (v : string) (r : Response) : Response :=
  let '(mkResponse a b c d e f g h i j k l m n o p) := r in mkResponse a b c d e f g h (i +:+ v) j k l m n o p.
Definition rp_add_signature (v : string) (r : Response) : Response :=
  let '(mkResponse a b c d e f g h i j k l m n o p) := r in mkResponse a b c d e f g h i (j +:+ v) k l m n o p.
Definition rp_add_item (v : ContentBlock) (r : Response) : Response :=
  let '(mkResponse a b c d e f g h i j k l m n o p) := r in mkResponse a b c d e f g h i j (k ++ [v]) l m n o p.
Definition rp_add_result (id content : string) (is_error : bool) (r : Response) : Response :=
  let '(mkResponse a b c d e f g h i j k l m n o p) := r in
  mkResponse a b c d e f g h i j k (<[id := (content, is_error)]> l) m n o p.
Definition rp_set_native (v : option (string * nat)) (r : Response) : Response :=
  let '(mkResponse a b c d e f g h i j k l _ n o p) := r in mkResponse a b c d e f g h i j k l v n o p.
Definition rp_set_wrapped (v : bool) (r : Response) : Response :=
  let '(mkResponse a b c d e f g h i j k l m _ o p) := r in mkResponse a b c d e f g h i j k l m v o p.
Definition rp_set_open (v : bool) (r : Response) : Response :=
  let '(mkResponse a b c d e f g h i j k l m n _ p) := r in mkResponse a b c d e f g h i j k l m n v p.
Definition rp_set_name (id name : string) (r : Response) : Response :=
  let '(mkResponse a b c d e f g h i j k l m n o p) := r in mkResponse a b c d e f g h i j k l m n o (<[id := name]> p).

(** A rollback discards everything but the usage. *)
Definition rolled_back (r : Response) : Response := rp_set_usage (rp_usage r) response_new.

Definition start_call (id name : string) (r : Response) : Response :=
  rp_set_calls (rp_calls r) (Some (mkToolCall id name value_null None None)) "" r.
Definition extend_call (delta : string) (r : Response) : Response :=
  rp_set_calls (rp_calls r) (rp_current r) (rp_input r +:+ delta) r.
(** The call with its parsed input. *)
Definition finished_call (tool : ToolCall) (input : string) : ToolCall :=
  let value := parse_streamed_input_to_object input in
  mkToolCall (tc_id tool) (tc_name tool) value (intent_from_input value) (tc_thought_signature tool).
Definition end_call (r : Response) : Response :=
  match rp_current r with
  | Some tool => rp_set_calls (rp_calls r ++ [finished_call tool (rp_input r)]) None "" r
  | None => r
  end.
(** [tool_calls.last_mut()]. *)
Definition sign_last (signature : string) (calls : list ToolCall) : list ToolCall :=
  match last calls with
  | Some tool =>
      if str_is_empty signature then calls
      else removelast calls
           ++ [mkToolCall (tc_id tool) (tc_name tool) (tc_input tool) (tc_intent tool) (Some signature)]
  | None => calls
  end.
Definition note_usage (input output cache_read cache_creation : option N) (r : Response) : Response :=
  let '(i, o, cr, cc) := rp_usage r in
  let later (new old : option N) := match new with Some _ => new | None => old end in
  rp_set_usage (later input i, later output o, later cache_read cr, later cache_creation cc) r.

(** ** The events that both loops treat alike *)

Definition usage_event (input output cache_read cache_creation : option N) (r : Response) : M Response :=
  let r := note_usage input output cache_read cache_creation r in
  let '(i, _, cr, cc) := rp_usage r in
  match i with Some i => update_compaction_usage_from_stream i cr cc | None => m_ret tt end ;!
  m_ret r.
Definition image_event (path : string) (metadata_path : option string) (output_format : string)
    (revised_prompt : option string) (r : Response) : M Response :=
  let! view := provider in
  if negb (pv_supports_image_input view) then m_ret r
  else m_ret (match generated_image_visual_context_blocks path metadata_path output_format revised_prompt with
              | Some blocks => rp_add_image blocks r
              | None => r
              end).
Definition compaction_event (openai_encrypted_content : option string) (r : Response) : M Response :=
  let! session := gets ag_session in
  m_ret (match openai_encrypted_content, rp_native_compaction r with
         | Some encrypted, None => rp_set_native (Some (encrypted, length (se_messages session))) r
         | _, _ => r
         end).
Definition session_id_event (id : string) : M unit :=
  modify (λ a, map_head (head_provider_session (Some id)) (set_provider_session (Some id) a)).
Definition native_call_event (request_id tool_name : string) (input : Value) : M unit :=
  ask (λ w, (tt, env_native_call request_id tool_name (normalize_input_to_object input) w)).

(** A context limit that could be recovered counts as a retry; too many of them
    and any other error end the turn. *)
Definition retry_or_err (retries : nat) (message : string) (error : AgentError) : M nat :=
  let! recovered := try_auto_compact_after_context_limit to_vec debug message in
  if (recovered : bool) then
    if MAX_CONTEXT_LIMIT_RETRIES <? S retries
    then m_err (PlainError ("Context limit exceeded after " +:+ pretty MAX_CONTEXT_LIMIT_RETRIES +:+ " compaction retries"))
    else m_ret (S retries)
  else m_err error.

(** How an event leaves the loop over the stream. *)
Inductive Flow := Reading (r : Response) | Stopped (r : Response) | RetryRequest (retries : nat).

(** ** The blocking loop: events *)

Definition stream_event (store_reasoning : bool) (retries : nat) (event : StreamEvent) (r : Response) : M Flow :=
  match event with
  | ThinkingStart | ThinkingEnd | ThinkingDone _ | EvConnectionPhase _ => m_ret (Reading r)
  | ThinkingDelta text => m_ret (Reading (rp_add_reasoning text r))
  | ThinkingSignatureDelta signature => m_ret (Reading (if store_reasoning then rp_add_signature signature r else r))
  | TextDelta text => m_ret (Reading (rp_set_text (rp_text r +:+ text) r))
  | ToolUseStart id name => m_ret (Reading (start_call id name r))
  | ToolInputDelta delta => m_ret (Reading (extend_call delta r))
  | ToolUseEnd => m_ret (Reading (end_call r))
  | ToolUseSignature signature =>
      m_ret (Reading (rp_set_calls (sign_last signature (rp_calls r)) (rp_current r) (rp_input r) r))
  | EvToolResult id content is_error => m_ret (Reading (rp_add_result id content is_error r))
  | GeneratedImage _ path metadata_path output_format revised_prompt =>
      let! r := image_event path metadata_path output_format revised_prompt r in m_ret (Reading r)
  | TokenUsage i o cr cc => let! r := usage_event i o cr cc r in m_ret (Reading r)
  | ConnectionType connection => modify (set_connection (Some connection)) ;! m_ret (Reading r)
  | StatusDetail detail => modify (set_status_detail (Some detail)) ;! m_ret (Reading r)
  | RetryRollback _ _ => m_ret (Reading (rolled_back r))
  | MessageEnd reason => m_ret (Reading (rp_set_end reason r))
  | SessionId id => session_id_event id ;! m_ret (if rp_saw_end r then Stopped r else Reading r)
  | UpstreamProvider name => modify (set_upstream (Some name)) ;! m_ret (Reading r)
  | EvOpenAIReasoning id summary encrypted_content status =>
      m_ret (Reading (if store_reasoning then rp_add_item (OpenAIReasoning id summary encrypted_content status) r else r))
  | EvCompaction _ _ encrypted => let! r := compaction_event encrypted r in m_ret (Reading r)
  | NativeToolCall request_id tool_name input => native_call_event request_id tool_name input ;! m_ret (Reading r)
  | EvError message retry_after_secs =>
      let! retries := retry_or_err retries message (StreamFailed message retry_after_secs) in m_ret (RetryRequest retries)
  end.

Fixpoint read_stream (store_reasoning : bool) (retries : nat) (items : list StreamItem) (r : Response) : M Flow :=
  match items with
  | [] => m_ret (Stopped r)
  | StopSignal :: rest => read_stream store_reasoning retries rest r
  | StreamBroken e :: _ =>
      let! retries := retry_or_err retries e (PlainError e) in m_ret (RetryRequest retries)
  | Arrives event :: rest =>
      let! flow := stream_event store_reasoning retries event r in
      match flow with
      | Reading r => read_stream store_reasoning retries rest r
      | other => m_ret other
      end
  end.

(** ** One request *)

(** Everything before the provider is called: the repair, the messages after
    compaction, tools, recalled memories, prompt and timestamps.  Only a
    [streamed] turn has a client to tell. *)
Definition prepare_request (streamed : bool) : M Request :=
  let! _ := repair_missing_tool_outputs in
  let! fitted := messages_for_provider to_vec debug in
  let '(messages, event) := fitted in
  match event with
  | Some e =>
      modify (λ a, set_locked None (ag_mcp_late_register_resolved a) a) ;!
      m_when streamed (send (SentCompaction (ce_trigger e) (ce_pre_tokens e) (ce_messages_compacted e)))
  | None => m_ret tt
  end ;!
  let! tools := tool_definitions in
  let! memory := build_memory_prompt_nonblocking_shared messages in
  let! a := gets id in
  let! split := ask (env_system_prompt (ag_active_skill a) (h_working_dir (se_head (ag_session a)))) in
  let split := append_current_turn_system_reminder (ag_system_reminder a) split in
  edit_session release_provider_messages_cache ;!
  let! messages := inject_memory streamed messages memory in
  let messages := if cf_message_timestamps settings then with_timestamps messages else messages in
  modify (set_status_detail None) ;!
  let! resume := gets ag_provider_session_id in
  m_ret (mkRequest messages tools split resume).

(** [messages.iter().rev().any(..)]. *)
Definition is_tool_continuation (message : Message) : bool :=
  bool_decide (role message = User)
  && (existsb is_tool_result (content message)
      || existsb (λ b, match b with Text text _ => starts_with "<system-reminder>" (trim text) | _ => false end) (content message)).
Definition messages_end_with_tool_result (messages : list Message) : bool := existsb is_tool_continuation (rev messages).

(** ** After a response *)

Definition usage_of (r : Response) : Usage :=
  let '(i, o, cr, cc) := rp_usage r in mkUsage (default 0%N i) (default 0%N o) cr cc.

(** The calls of the message keep their signature in the blocking loop. *)
Definition call_block (keep_signature : bool) (tc : ToolCall) : ContentBlock :=
  ToolUse (tc_id tc) (tc_name tc) (tc_input tc) (if keep_signature then tc_thought_signature tc else None).
Definition response_blocks (keep_blank keep_signature : bool) (provider_name : string) (store_reasoning : bool)
    (text : string) (calls : list ToolCall) (r : Response) : list ContentBlock :=
  (if str_is_empty text || (negb keep_blank && str_is_empty (trim text)) then [] else [Text text None])
  ++ reasoning_blocks provider_name (rp_reasoning r) (Some (rp_signature r)) store_reasoning
  ++ (if store_reasoning then rp_reasoning_items r else [])
  ++ (call_block keep_signature <$> calls).

(** The assistant message, when the response has any content. *)
Definition add_response_message (blocks : list ContentBlock) (text : string) : M (option string) :=
  match blocks with
  | [] => m_ret None
  | _ =>
      let! usage := gets ag_last_usage in
      let! id := add_message_ext Assistant blocks None
                   (Some (Session.mkUsage (us_input_tokens usage) (us_output_tokens usage) (us_cache_read usage) (us_cache_creation usage))) in
      push_embedding_snapshot_if_semantic text ;!
      save_or_err ;!
      m_ret (Some id)
  end.

(** The visual context of generated images, as messages. *)
Fixpoint add_images (images : list (list ContentBlock)) : M unit :=
  match images with
  | [] => m_ret tt
  | blocks :: rest => let! _ := add_message User blocks in add_images rest
  end.
Definition flush_images (images : list (list ContentBlock)) : M unit :=
  match images with [] => m_ret tt | _ => add_images images ;! save_or_err end.

(** ** The blocking loop: tools *)

Definition add_result (tc : ToolCall) (content : string) (is_error : option bool) : M unit :=
  let! _ := add_message User [ToolResult (tc_id tc) content is_error] in m_ret tt.

(** A tool that has to run here; its result is recorded. *)
Definition execute_tool_call (tc : ToolCall) : M unit :=
  let! outcome := ask (env_execute (tc_name tc) (tc_input tc)) in
  let '(result, elapsed_ms) := outcome in
  unlock_tools_if_needed (tc_name tc) ;!
  match result with
  | Ok output =>
      let! _ := add_message_with_duration User
                  (tool_output_to_content_blocks (tc_id tc) (cap_tool_output_for_history (tc_name tc) output)) (Some elapsed_ms) in
      m_ret tt
  | Err e =>
      let! _ := add_message_with_duration User [ToolResult (tc_id tc) ("Error: " +:+ e) (Some true)] (Some elapsed_ms) in
      m_ret tt
  end.

(** A result the provider already has, unless it is an error of a native tool. *)
Definition usable_result (sdk_results : gmap string (string * bool)) (tc : ToolCall) : option (string * bool) :=
  '(content, is_error) ← sdk_results !! tc_id tc;
  if existsb (String.eqb (tc_name tc)) JCODE_NATIVE_TOOLS && is_error then None else Some (content, is_error).

Fixpoint execute_tools (sdk_results : gmap string (string * bool)) (calls : list ToolCall) : M unit :=
  match calls with
  | [] => m_ret tt
  | tc :: rest =>
      match validation_error tc with
      | Some error_msg => add_result tc error_msg (Some true) ;! execute_tools sdk_results rest
      | None =>
          validate_tool_allowed (tc_name tc) ;!
          match usable_result sdk_results tc with
          | Some (content, is_error) => add_result tc content (if is_error then Some true else None)
          | None => execute_tool_call tc
          end ;!
          execute_tools (delete (tc_id tc) sdk_results) rest
      end
  end.

(** ** The blocking loop *)

Record Counters := mkCounters { ct_retries : nat; ct_incomplete : nat; ct_empty_post_tool : nat }.
Inductive Next := Again (c : Counters) | Finish (text : string).

Definition EMPTY_POST_TOOL_PROMPT : string :=
  "The previous provider response was empty after tool results. Please provide the final answer to the user's last request using the tool results above. Do not call more tools unless absolutely necessary.".

(** A response without tool calls. *)
Definition no_tool_calls (c : Counters) (after_tools : bool) (text : string) (visible_empty : bool) (r : Response) : M Next :=
  if visible_empty && after_tools && (ct_empty_post_tool c <? MAX_EMPTY_POST_TOOL_CONTINUATION_ATTEMPTS) then
    let! _ := add_message User [Text EMPTY_POST_TOOL_PROMPT None] in
    save_or_err ;!
    m_ret (Again (mkCounters (ct_retries c) (ct_incomplete c) (S (ct_empty_post_tool c))))
  else
    let! continued := maybe_continue_incomplete_response (rp_stop_reason r) (ct_incomplete c) in
    let '(continue_, incomplete) := continued in
    if (continue_ : bool) then m_ret (Again (mkCounters (ct_retries c) incomplete (ct_empty_post_tool c)))
    else
      m_ret (Finish (match provider_guardrail_notice (rp_stop_reason r) visible_empty (negb (str_is_empty (trim (rp_reasoning r)))) with
                     | Some notice => if str_is_empty (trim text) then "[provider guardrail] " +:+ notice else text
                     | None => text
                     end)).

(** The tools of a response, and what follows them. *)
Definition with_tool_calls (c : Counters) (calls : list ToolCall) (r : Response) : M Next :=
  let! view := provider in
  let local := if pv_handles_tools_internally view
               then List.filter (λ tc, existsb (String.eqb (tc_name tc)) JCODE_NATIVE_TOOLS) calls else calls in
  match local with
  | [] =>
      match rp_images r with
      | [] => m_ret (Finish "")
      | images => flush_images images ;! m_ret (Again c)
      end
  | _ =>
      execute_tools (rp_sdk_results r) local ;!
      save_or_err ;!
      flush_images (rp_images r) ;!
      let! _ := inject_soft_interrupts in
      m_ret (Again c)
  end.

Definition after_response (c : Counters) (after_tools : bool) (provider_name : string) (store_reasoning : bool) (r : Response) :
    M Next :=
  modify (set_usage (usage_of r)) ;!
  let! recovered := recover_text_wrapped_tool_call parse_prefix (rp_text r) (rp_calls r) in
  let '(text, calls) := recovered in
  let visible_empty := str_is_empty (trim text) in
  let! message_id := add_response_message (response_blocks false true provider_name store_reasoning text calls r) text in
  match rp_native_compaction r with
  | Some (encrypted, compacted) => apply_openai_native_compaction encrypted compacted
  | None => m_ret tt
  end ;!
  let! calls := filter_truncated_tool_calls (rp_stop_reason r) calls message_id in
  match calls, rp_images r with
  | [], _ :: _ => flush_images (rp_images r) ;! m_ret (Again c)
  | [], [] => no_tool_calls c after_tools text visible_empty r
  | _, _ => with_tool_calls c calls r
  end.

(** One round of the loop. *)
Definition turn_round (c : Counters) : M Next :=
  let! request := prepare_request false in
  let! answer := ask (env_complete request) in
  match answer with
  | Err e =>
      let! retries := retry_or_err (ct_retries c) e (PlainError e) in
      m_ret (Again (mkCounters retries (ct_incomplete c) (ct_empty_post_tool c)))
  | Ok items =>
      let c := mkCounters 0 (ct_incomplete c) (ct_empty_post_tool c) in
      let! view := provider in
      let store := stores_reasoning_content_for_context (pv_name view) in
      let! flow := read_stream store 0 items response_new in
      match flow with
      | RetryRequest retries => m_ret (Again (mkCounters retries (ct_incomplete c) (ct_empty_post_tool c)))
      | Reading r | Stopped r =>
          after_response c (messages_end_with_tool_result (rq_messages request)) (pv_name view) store r
      end
  end.

Fixpoint run_turn_loop (fuel : nat) (c : Counters) : M string :=
  match fuel with
  | 0 => λ s, Spins s
  | S fuel =>
      let! next := turn_round c in
      match next with
      | Finish text => m_ret text
      | Again c => run_turn_loop fuel c
      end
  end.
Definition run_turn (fuel : nat) : M string := run_turn_loop fuel (mkCounters 0 0 0).

Definition run_once_capture (fuel : nat) (user_message : string) : M string :=
  let! _ := add_message User [Text user_message None] in
  save_or_err ;!
  run_turn fuel.

(** ** The streamed loop: events

    The same events, told to the client as they come. *)

(** A shown reasoning region ends. *)
Definition close_reasoning (r : Response) : M Response :=
  if rp_reasoning_open r then send (SentReasoningDone false) ;! m_ret (rp_set_open false r) else m_ret r.

Definition INTERRUPTED_TEXT : string :=
  newline +:+ newline +:+ "[generation interrupted - process shutting down]".

(** Text is shown until it turns out to hide a tool call. *)
Definition show_text (text : string) (r : Response) : M Response :=
  if rp_wrapped r then m_ret r
  else match find_wrap_marker_incremental (rp_text r) (String.length text) with
       | Some marker_idx => send (SentTextReplace (trim_end (str_take marker_idx (rp_text r)))) ;! m_ret (rp_set_wrapped true r)
       | None => send (SentText text) ;! m_ret r
       end.
Definition text_event (text : string) (r : Response) : M Flow :=
  let! r := (if str_is_empty (trim text) then m_ret r else close_reasoning r) in
  let! r := show_text text (rp_set_text (rp_text r +:+ text) r) in
  let! stopping := ask env_shutdown in
  if (stopping : bool)
  then send (SentText INTERRUPTED_TEXT) ;! m_ret (Stopped (rp_set_text (rp_text r +:+ INTERRUPTED_TEXT) r))
  else m_ret (Reading r).

Definition thinking_event (text : string) (r : Response) : M Response :=
  let! r := (if cf_show_thinking settings && negb (str_is_empty text)
             then send (SentReasoningDelta text) ;! m_ret (rp_set_open true r)
             else m_ret r) in
  m_ret (rp_add_reasoning text r).

Definition retry_streamed (retries : nat) (message : string) (error : AgentError) : M Flow :=
  let! retries := retry_or_err retries message error in
  send (SentCompaction "auto_recovery" None None) ;!
  m_ret (RetryRequest retries).

Definition stream_event_mpsc (store_reasoning : bool) (retries : nat) (event : StreamEvent) (r : Response) : M Flow :=
  match event with
  | ThinkingStart => send (SentConnectionPhase (phase_display Streaming)) ;! m_ret (Reading r)
  | ThinkingEnd => m_ret (Reading r)
  | ThinkingSignatureDelta signature => m_ret (Reading (if store_reasoning then rp_add_signature signature r else r))
  | ThinkingDelta text => let! r := thinking_event text r in m_ret (Reading r)
  | ThinkingDone _ =>
      if rp_reasoning_open r then send (SentReasoningDone true) ;! m_ret (Reading (rp_set_open false r))
      else m_ret (Reading r)
  | TextDelta text => text_event text r
  | ToolUseStart id name =>
      let! r := close_reasoning r in
      send (SentToolStart id name) ;! m_ret (Reading (start_call id name (rp_set_name id name r)))
  | ToolInputDelta delta => send (SentToolInput delta) ;! m_ret (Reading (extend_call delta r))
  | ToolUseEnd =>
      match rp_current r with
      | Some tool => send (SentToolExec (tc_id tool) (tc_name tool))
      | None => m_ret tt
      end ;!
      m_ret (Reading (end_call r))
  | ToolUseSignature signature =>
      m_ret (Reading (rp_set_calls (sign_last signature (rp_calls r)) (rp_current r) (rp_input r) r))
  | EvToolResult id content is_error =>
      send (SentToolDone id (default "" (rp_names r !! id)) content (if is_error then Some "Tool error" else None)) ;!
      m_ret (Reading (rp_add_result id content is_error r))
  | GeneratedImage id path metadata_path output_format revised_prompt =>
      let! r := image_event path metadata_path output_format revised_prompt r in
      send (SentGeneratedImage id path) ;! m_ret (Reading r)
  | TokenUsage i o cr cc => let! r := usage_event i o cr cc r in m_ret (Reading r)
  | ConnectionType connection =>
      modify (set_connection (Some connection)) ;! send (SentConnectionType connection) ;! m_ret (Reading r)
  | EvConnectionPhase phase => send (SentConnectionPhase (phase_display phase)) ;! m_ret (Reading r)
  | StatusDetail detail =>
      modify (set_status_detail (Some detail)) ;! send (SentStatusDetail detail) ;! m_ret (Reading r)
  | RetryRollback attempt max =>
      send (SentRetryRollback attempt max) ;!
      send (SentConnectionPhase (phase_display (Retrying attempt max))) ;!
      m_ret (Reading (rolled_back r))
  | MessageEnd reason =>
      let! r := close_reasoning r in
      send SentMessageEnd ;! m_ret (Reading (rp_set_end reason r))
  | SessionId id => session_id_event id ;! send (SentSessionId id) ;! m_ret (Reading r)
  | EvOpenAIReasoning id summary encrypted_content status =>
      m_ret (Reading (if store_reasoning then rp_add_item (OpenAIReasoning id summary encrypted_content status) r else r))
  | EvCompaction _ _ encrypted => let! r := compaction_event encrypted r in m_ret (Reading r)
  | NativeToolCall request_id tool_name input => native_call_event request_id tool_name input ;! m_ret (Reading r)
  | UpstreamProvider name =>
      modify (set_upstream (Some name)) ;! send (SentUpstreamProvider name) ;! m_ret (Reading r)
  | EvError message retry_after_secs => retry_streamed retries message (StreamFailed message retry_after_secs)
  end.

Fixpoint read_stream_mpsc (store_reasoning : bool) (retries : nat) (items : list StreamItem) (r : Response) : M Flow :=
  match items with
  | [] | StopSignal :: _ => m_ret (Stopped r)
  | StreamBroken e :: _ => retry_streamed retries e (PlainError e)
  | Arrives event :: rest =>
      let! flow := stream_event_mpsc store_reasoning retries event r in
      match flow with
      | Reading r => read_stream_mpsc store_reasoning retries rest r
      | other => m_ret other
      end
  end.

(** ** The streamed loop: tools *)

Definition is_wait_like (tc : ToolCall) : bool :=
  let action := default "" (value_get (tc_input tc) "action" ≫= value_as_str) in
  (String.eqb (tc_name tc) "bg" && String.eqb action "wait")
  || (String.eqb (tc_name tc) "swarm" && existsb (String.eqb action) ["await_members"; "run_plan"]).

(** The content of the result and whether it is an error; [elapsed_secs] is a
    number with one decimal. *)
Definition shutdown_interrupted_tool_result (tc : ToolCall) (elapsed_secs : string) : string * bool :=
  if is_wait_like tc then
    ("[Tool '" +:+ tc_name tc +:+ "' wait interrupted by process shutdown after " +:+ elapsed_secs
     +:+ "s. The underlying operation may still be running. Resume the wait by rerunning the same tool call with input: "
     +:+ value_to_string (tc_input tc) +:+ "]", false)
  else ("[Tool '" +:+ tc_name tc +:+ "' interrupted by process shutdown after " +:+ elapsed_secs +:+ "s]", true).

Fixpoint skip_tools (reason : string) (calls : list ToolCall) : M unit :=
  match calls with
  | [] => m_ret tt
  | tc :: rest => add_result tc reason (Some true) ;! skip_tools reason rest
  end.

Fixpoint send_all (events : list TurnEvent) : M unit :=
  match events with [] => m_ret tt | e :: rest => send e ;! send_all rest end.

Definition SHUTDOWN_SKIP : string := "[Skipped - process shutting down]".
Definition INTERRUPT_SKIP : string := "[Skipped: user interrupted]".

(** Point C: the remaining tools are skipped for an urgent interrupt. *)
Definition skip_for_interrupt (remaining : list ToolCall) : M unit :=
  skip_tools INTERRUPT_SKIP remaining ;!
  let! injected := inject_soft_interrupts in
  match injected with
  | [] => m_ret tt
  | _ =>
      send_all (build_soft_interrupt_events injected "C" (Some (length remaining))) ;!
      let! _ := add_message User
                  [Text ("[User interrupted: " +:+ pretty (length remaining) +:+ " remaining tool(s) skipped]") None] in
      m_ret tt
  end ;!
  persist_session_best_effort.

(** A tool that returned. *)
Definition finish_tool (tc : ToolCall) (result : result ToolOutput string) (elapsed_ms : N) : M unit :=
  match result with
  | Ok output =>
      let output := cap_tool_output_for_history (tc_name tc) output in
      send (SentToolDone (tc_id tc) (tc_name tc) (to_output output) None) ;!
      let! _ := add_message_with_duration User (tool_output_to_content_blocks (tc_id tc) output) (Some elapsed_ms) in
      m_ret tt
  | Err e =>
      let error_msg := "Error: " +:+ e in
      send (SentToolDone (tc_id tc) (tc_name tc) error_msg (Some error_msg)) ;!
      let! _ := add_message_with_duration User [ToolResult (tc_id tc) error_msg (Some true)] (Some elapsed_ms) in
      m_ret tt
  end.

(** The process shuts down while a tool runs: it is aborted, the others are
    skipped. *)
Definition abort_tool (tc : ToolCall) (rest : list ToolCall) (elapsed_ms : N) (elapsed_secs : string) : M unit :=
  let '(message, is_error) := shutdown_interrupted_tool_result tc elapsed_secs in
  send (SentToolDone (tc_id tc) (tc_name tc) message (if is_error then Some "interrupted by shutdown" else None)) ;!
  let! _ := add_message_with_duration User [ToolResult (tc_id tc) message (Some is_error)] (Some elapsed_ms) in
  save_or_err ;!
  skip_tools SHUTDOWN_SKIP rest ;!
  save_or_err.

Definition move_to_background (tc : ToolCall) (elapsed_ms : N) : M unit :=
  let! task_id := ask (env_adopt (tc_name tc)) in
  let message := "Tool '" +:+ tc_name tc +:+ "' was moved to background by the user (task_id: " +:+ task_id
                 +:+ "). Use the `bg` tool with action 'wait' to wait for completion/checkpoints, or action 'status'/'output' to inspect it." in
  send (SentToolDone (tc_id tc) (tc_name tc) message None) ;!
  let! _ := add_message_with_duration User [ToolResult (tc_id tc) message None] (Some elapsed_ms) in
  save_or_err.

(** What a tool leaves: whether the turn goes on, and whether results still
    have to be saved. *)
Inductive Ran := Goes (dirty : bool) | Leaves.

Definition run_tool (tc : ToolCall) (rest : list ToolCall) : M Ran :=
  let! waited := ask (env_wait_tool (tc_name tc) (tc_input tc)) in
  let '(outcome, (elapsed_ms, elapsed_secs)) := waited in
  let! result :=
    match outcome with
    | ToolReturned r => m_ret (Some r)
    | Signalled late =>
        let! stopping := ask env_shutdown in
        m_ret (if (stopping : bool) && String.eqb (tc_name tc) "bash" then late else None)
    end in
  unlock_tools_if_needed (tc_name tc) ;!
  match result with
  | Some r => finish_tool tc r elapsed_ms ;! m_ret (Goes true)
  | None =>
      let! stopping := ask env_shutdown in
      if (stopping : bool) then abort_tool tc rest elapsed_ms elapsed_secs ;! m_ret Leaves
      else move_to_background tc elapsed_ms ;! m_ret (Goes false)
  end.

(** All tools of a response; [first] is [tool_index = 0]. *)
Fixpoint execute_tools_mpsc (first dirty : bool) (sdk_results : gmap string (string * bool)) (calls : list ToolCall) : M Ran :=
  match calls with
  | [] => m_ret (Goes dirty)
  | tc :: rest =>
      let! urgent := (if first then m_ret false else has_urgent_interrupt) in
      if (urgent : bool) then skip_for_interrupt (tc :: rest) ;! m_ret (Goes dirty)
      else
        match validation_error tc with
        | Some error_msg =>
            send (SentToolDone (tc_id tc) (tc_name tc) error_msg (Some error_msg)) ;!
            add_result tc error_msg (Some true) ;!
            execute_tools_mpsc false true sdk_results rest
        | None =>
            validate_tool_allowed (tc_name tc) ;!
            let others := delete (tc_id tc) sdk_results in
            match usable_result sdk_results tc with
            | Some (content, is_error) =>
                add_result tc (cap_sdk_tool_content_for_history (tc_name tc) content) (if is_error then Some true else None) ;!
                execute_tools_mpsc false true others rest
            | None =>
                let! ran := run_tool tc rest in
                match ran with
                | Leaves => m_ret Leaves
                | Goes d => execute_tools_mpsc false (dirty || d) others rest
                end
            end
        end
  end.

(** ** The streamed loop *)

Inductive Opened := Stream (items : list StreamItem) | Cancelled.

(** The wait for the stream.  After a recovered context limit the loop waits
    once more for the request that has already failed: unless the shutdown
    signal comes first, that is a panic. *)
Definition open_stream (retries : nat) (request : Request) : M Opened :=
  let! stopped := ask env_stopped_opening in
  if (stopped : bool) then m_ret Cancelled
  else
    let! answer := ask (env_complete request) in
    match answer with
    | Ok items => m_ret (Stream items)
    | Err e =>
        let! _ := retry_streamed retries e (PlainError e) in
        let! stopped := ask env_stopped_opening in
        if (stopped : bool) then m_ret Cancelled else m_die
    end.

Inductive NextMpsc := AgainMpsc (retries incomplete : nat) | FinishMpsc.

Definition send_usage (r : Response) : M unit :=
  match rp_usage r with (None, None, None, None) => m_ret tt | _ => send (SentTokenUsage (usage_of r)) end.

(** The provider changed the model during the request. *)
Definition resync_model (model_at_start : string) : M unit :=
  let! view := provider in
  m_when (negb (String.eqb (pv_model view) model_at_start))
    (modify (map_head (head_model (Some (pv_model view)))) ;!
     persist_session_best_effort ;!
     send (SentModelChanged (pv_model view))).

(** A call found in the text is shown like one of the stream. *)
Definition show_recovered (had_calls : bool) (text : string) (calls : list ToolCall) : M unit :=
  match last calls with
  | Some tc =>
      m_when (negb had_calls && starts_with "fallback_text_call_" (tc_id tc))
        (send (SentTextReplace text) ;!
         send (SentToolStart (tc_id tc) (tc_name tc)) ;!
         send (SentToolInput (value_to_string (tc_input tc))) ;!
         send (SentToolExec (tc_id tc) (tc_name tc)))
  | None => m_ret tt
  end.

(** Point B, and the end of the turn. *)
Definition streaming_no_tool_calls (incomplete : nat) (text : string) (r : Response) : M NextMpsc :=
  let! continued := maybe_continue_incomplete_response (rp_stop_reason r) incomplete in
  let '(continue_, incomplete) := continued in
  if (continue_ : bool) then m_ret (AgainMpsc 0 incomplete)
  else
    let! injected := inject_soft_interrupts in
    match injected with
    | _ :: _ => send_all (build_soft_interrupt_events injected "B" None) ;! m_ret (AgainMpsc 0 incomplete)
    | [] =>
        let! stopping := (if rp_saw_end r then ask env_shutdown else m_ret true) in
        match provider_guardrail_notice (rp_stop_reason r) (str_is_empty (trim text))
                (negb (str_is_empty (trim (rp_reasoning r)))) with
        | Some notice => m_when (negb stopping) (send (SentGuardrail (rp_stop_reason r) notice))
        | None => m_ret tt
        end ;!
        m_ret FinishMpsc
    end.

(** Point D. *)
Definition inject_after_tools : M bool :=
  let! injected := inject_soft_interrupts in
  send_all (build_soft_interrupt_events injected "D" None) ;!
  m_ret (match injected with [] => false | _ => true end).

Definition streaming_tool_calls (incomplete : nat) (calls : list ToolCall) (r : Response) : M NextMpsc :=
  let! stopping := ask env_shutdown in
  if (stopping : bool) then skip_tools SHUTDOWN_SKIP calls ;! save_or_err ;! m_ret FinishMpsc
  else
    let! view := provider in
    let local := if pv_handles_tools_internally view
                 then List.filter (λ tc, existsb (String.eqb (tc_name tc)) JCODE_NATIVE_TOOLS) calls else calls in
    match local with
    | [] =>
        let! injected := inject_after_tools in
        m_ret (if (injected : bool) then AgainMpsc 0 incomplete else FinishMpsc)
    | _ =>
        let! ran := execute_tools_mpsc true false (rp_sdk_results r) local in
        match ran with
        | Leaves => m_ret FinishMpsc
        | Goes dirty =>
            m_when dirty save_or_err ;!
            flush_images (rp_images r) ;!
            let! _ := inject_after_tools in
            m_ret (AgainMpsc 0 incomplete)
        end
    end.

Definition after_response_mpsc (incomplete : nat) (model_at_start provider_name : string) (store_reasoning : bool)
    (r : Response) : M NextMpsc :=
  send_usage r ;!
  modify (set_usage (usage_of r)) ;!
  resync_model model_at_start ;!
  let! recovered := recover_text_wrapped_tool_call parse_prefix (rp_text r) (rp_calls r) in
  let '(text, calls) := recovered in
  show_recovered (match rp_calls r with [] => false | _ => true end) text calls ;!
  let! message_id := add_response_message (response_blocks true false provider_name store_reasoning text calls r) text in
  match rp_native_compaction r with
  | Some (encrypted, compacted) =>
      apply_openai_native_compaction encrypted compacted ;!
      send (SentCompaction "openai_native" (rp_usage r).1.1.1 (Some compacted))
  | None => m_ret tt
  end ;!
  let! calls := filter_truncated_tool_calls (rp_stop_reason r) calls message_id in
  match calls, rp_images r with
  | [], _ :: _ => flush_images (rp_images r) ;! m_ret (AgainMpsc 0 incomplete)
  | [], [] => streaming_no_tool_calls incomplete text r
  | _, _ => streaming_tool_calls incomplete calls r
  end.

Definition turn_round_mpsc (retries incomplete : nat) : M NextMpsc :=
  let! request := prepare_request true in
  let! before := provider in
  let! opened := open_stream retries request in
  match opened with
  | Cancelled => m_ret FinishMpsc
  | Stream items =>
      let! view := provider in
      let store := stores_reasoning_content_for_context (pv_name view) in
      let! flow := read_stream_mpsc store 0 items response_new in
      match flow with
      | RetryRequest retries => m_ret (AgainMpsc retries incomplete)
      | Reading r | Stopped r => after_response_mpsc incomplete (pv_model before) (pv_name view) store r
      end
  end.

Fixpoint run_turn_loop_mpsc (fuel : nat) (retries incomplete : nat) : M unit :=
  match fuel with
  | 0 => λ s, Spins s
  | S fuel =>
      let! next := turn_round_mpsc retries incomplete in
      match next with
      | FinishMpsc => m_ret tt
      | AgainMpsc retries incomplete => run_turn_loop_mpsc fuel retries incomplete
      end
  end.
Definition run_turn_streaming_mpsc (fuel : nat) : M unit := run_turn_loop_mpsc fuel 0 0.

(** ** A turn for a prompt of a client *)

Definition take_alerts : M (list string) :=
  let! alerts := gets ag_pending_alerts in modify (set_alerts []) ;! m_ret alerts.
Definition alert_text (alerts : list string) : string :=
  "[NOTIFICATION]" +:+ newline +:+ "You received " +:+ pretty (length alerts)
  +:+ " notification(s) from other agents working in this codebase:" +:+ newline +:+ newline
  +:+ String.concat (newline +:+ newline +:+ "---" +:+ newline +:+ newline) alerts +:+ newline +:+ newline
  +:+ "Use the communicate tool to coordinate with other agents (prefer dm; broadcast reaches only your spawned subtree).".

(** The result of the turn is kept, whatever it is, while the reminder is
    cleared. *)
Definition finally_clear_reminder {A} (m : M A) : M A := λ s,
  let clear (s : St) := mkSt (set_reminder None (st_agent s)) (st_world s) (st_sent s) in
  match m s with
  | Done x s => Done x (clear s)
  | Errs e s => Errs e (clear s)
  | other => other
  end.

Definition run_once_streaming_mpsc (fuel : nat) (user_message : string) (images : list (string * string))
    (system_reminder : option string) : M unit :=
  let! alerts := take_alerts in
  match alerts with
  | [] => m_ret tt
  | _ => let! _ := add_message User [Text (alert_text alerts) None] in m_ret tt
  end ;!
  modify (set_reminder (non_blank system_reminder)) ;!
  let! _ := add_message User (((λ '(media_type, data), Image media_type data) <$> images) ++ [Text user_message None]) in
  save_or_err ;!
  finally_clear_reminder (run_turn_streaming_mpsc fuel).
End Turn.
