(* ===== verification/AgentFacts.v ===== *)
(** * A program logic for the agent

    Rules for the computations of Agent.v and AgentTurn.v: what a computation
    does to the transcript, seen as the roles, tool calls and tool results of
    its messages.  Most methods leave it alone ([silent]); the hint database
    [agent] finds that by following their text. *)

From stdpp Require Import base list strings gmap pretty.
From S2P Require Import Prelude RustString RustText Float32 ToolFs Compaction Manager ModelId Failover OpenAiRequest Message Storage Session SessionStore Agent AgentTurn.

Open Scope nat_scope.
Open Scope list_scope.

Create HintDb agent.

Section Logic.
Context {J : Json} {T : Chrono} {E : Embedder} {U : Unicode} {W : Type} {env : AgentEnv W}.
Context (to_vec : Message → option (list N)) (debug : Message → list N).

#[local] Notation M := (@M J T W).
#[local] Notation St := (@St J T W).
#[local] Notation Outcome := (@Outcome J T W).

(** ** Outcomes *)

Definition end_of {A} (o : Outcome A) : St :=
  match o with Done _ s | Errs _ s | Dies s | Spins s => s end.
Definition msgs (s : St) : list StoredMessage := se_messages (ag_session (st_agent s)).

(** What the repair sees of a message. *)
Definition shape (m : StoredMessage) : Role * list string * list string :=
  (stm_role m, use_ids (stm_content m), result_ids (stm_content m)).
Definition shapes (s : St) : list (Role * list string * list string) := shape <$> msgs s.
Definition tracking (s : St) : Tracking := ag_tracking (st_agent s).

(** The same calls and results, and the same record of them. *)
Definition same (s s' : St) : Prop := shapes s' = shapes s ∧ tracking s' = tracking s.
Definition silent {A} (m : M A) : Prop := ∀ s, same s (end_of (m s)).

Lemma same_refl s : same s s.
Proof using Type. done. Qed.
Lemma same_trans s1 s2 s3 : same s1 s2 → same s2 s3 → same s1 s3.
Proof using Type. unfold same. intros [??] [??]. split; congruence. Qed.

(** ** Rules *)

Lemma silent_ret {A} (x : A) : silent (m_ret x).
Proof using Type. done. Qed.
Lemma silent_err {A} e : silent (@m_err J T W A e).
Proof using Type. done. Qed.
Lemma silent_die {A} : silent (@m_die J T W A).
Proof using Type. done. Qed.
Lemma silent_bind {A B} (m : M A) (k : A → M B) : silent m → (∀ x, silent (k x)) → silent (m_bind m k).
Proof using Type.
  intros Hm Hk s. unfold m_bind. specialize (Hm s). destruct (m s); simpl in *; try done.
  eapply same_trans; [exact Hm|apply Hk].
Qed.
Lemma silent_when b (m : M unit) : silent m → silent (m_when b m).
Proof using Type. intros H. by destruct b. Qed.
Lemma silent_gets {A} (f : Agent → A) : silent (gets f).
Proof using Type. done. Qed.
Lemma silent_ask {A} (f : W → A * W) : silent (ask f).
Proof using Type. intros s. unfold ask. by destruct (f (st_world s)). Qed.
Lemma silent_send e : silent (send e).
Proof using Type. done. Qed.
Lemma silent_now : silent now.
Proof using Type. done. Qed.
Lemma silent_provider : silent provider.
Proof using Type. done. Qed.

Lemma silent_modify f :
  (∀ a, shape <$> se_messages (ag_session (f a)) = shape <$> se_messages (ag_session a) ∧ ag_tracking (f a) = ag_tracking a) →
  silent (modify f).
Proof using Type. intros H s. apply H. Qed.
Lemma silent_edit f : (∀ x, shape <$> se_messages (f x) = shape <$> se_messages x) → silent (edit_session f).
Proof using Type. intros H. apply silent_modify. intros []; simpl. split; [apply H|done]. Qed.
End Logic.

#[export] Hint Resolve silent_ret silent_err silent_die silent_gets silent_ask silent_send silent_now silent_provider : agent.
#[export] Hint Resolve silent_when : agent.

(** Follow the text of a computation. *)
Ltac quiet :=
  repeat match goal with
    | |- silent (m_bind _ _) => apply silent_bind; [|intros ?]
    | |- silent (let '_ := ?x in _) => destruct x eqn:?
    | |- silent (match ?x with _ => _ end) => destruct x eqn:?
    | |- silent (modify _) => apply silent_modify; intros []; done
    | |- silent (m_when _ _) => apply silent_when
    | |- _ => progress intros
    | |- silent _ => solve [auto with agent nocore]
    end.

(** What an agent relies on: saving does not touch the messages. *)
Class AgentLaws {J : Json} {T : Chrono} {W : Type} {env : AgentEnv W} : Prop := {
  save_keeps_messages : ∀ session w session' r w',
    env_save session w = Some (session', r, w') → se_messages session' = se_messages session;
}.

Section Silent.
Context {J : Json} {T : Chrono} {E : Embedder} {U : Unicode} {W : Type} {env : AgentEnv W} {laws : AgentLaws}.
Context (to_vec : Message → option (list N)) (debug : Message → list N).
Context (parse_prefix : string → option (Value * nat)).

#[local] Notation M := (@M J T W).
#[local] Notation St := (@St J T W).
#[local] Notation silent m := (@silent J T W _ m).

(** ** Images and identifiers *)

Lemma ids_insert {X} (f : ContentBlock → option X) (blocks : list ContentBlock) i b b' :
  blocks !! i = Some b → f b = None → f b' = None → omap f (<[i := b']> blocks) = omap f blocks.
Proof using Type.
  intros Hb H1 H2. rewrite <- (take_drop_middle _ _ _ Hb) at 2. rewrite insert_take_drop by (by eapply lookup_lt_Some).
  rewrite !omap_app. simpl. by rewrite H1, H2.
Qed.

Lemma strip_image_ids ci bi contents contents' : strip_image_at ci bi contents = Some contents' →
  use_ids <$> contents' = use_ids <$> contents ∧ result_ids <$> contents' = result_ids <$> contents.
Proof using Type.
  unfold strip_image_at. intros H. apply bind_Some in H as (blocks & Hc & H). apply bind_Some in H as (b & Hb & H).
  destruct b; try done. injection H as <-. rewrite !list_fmap_insert. unfold use_ids, result_ids.
  rewrite !(ids_insert _ _ _ _ _ Hb) by done.
  split; apply list_insert_id; by rewrite list_lookup_fmap, Hc.
Qed.

Lemma strip_loop_ids images target total n contents :
  use_ids <$> (strip_loop images target total n contents).1 = use_ids <$> contents
  ∧ result_ids <$> (strip_loop images target total n contents).1 = result_ids <$> contents.
Proof using Type.
  revert total n contents. induction images as [|[[ci bi] len] rest IH]; intros total n contents; cbn [strip_loop]; [done|].
  destruct (total <=? target)%N; [done|]. destruct (strip_image_at ci bi contents) as [contents'|] eqn:H; [|apply IH].
  apply strip_image_ids in H as [<- <-]. apply IH.
Qed.

Lemma shapes_from_ids l contents :
  use_ids <$> contents = (use_ids ∘ stm_content) <$> l → result_ids <$> contents = (result_ids ∘ stm_content) <$> l →
  shape <$> zip_with set_stored_content l contents = shape <$> l.
Proof using Type.
  revert contents. induction l as [|m l IH]; intros [|c contents]; try done. simpl. intros H1 H2.
  injection H1 as H1 H1'. injection H2 as H2 H2'. unfold shape at 1 3. simpl. rewrite H1, H2. f_equal. by apply IH.
Qed.

Lemma strip_shapes target x : shape <$> se_messages (strip_oversized_images target x).1 = shape <$> se_messages x.
Proof using Type.
  unfold strip_oversized_images, strip_large_images_in_contents.
  assert (∀ images total n,
    shape <$> zip_with set_stored_content (se_messages x)
                (strip_loop images target total n (stm_content <$> se_messages x)).1 = shape <$> se_messages x) as H.
  { intros. destruct (strip_loop_ids images target total n (stm_content <$> se_messages x)) as [H1 H2].
    apply shapes_from_ids; rewrite ?H1, ?H2, <- list_fmap_compose; done. }
  destruct (_ <=? _)%N.
  - simpl. apply (H [] 0%N 0).
  - destruct (strip_loop _ _ _ _ _) as [contents n] eqn:He. specialize (H (image_index (stm_content <$> se_messages x))
      (image_total (stm_content <$> se_messages x)) 0). rewrite He in H. by destruct n.
Qed.

Lemma provider_messages_keep x : se_messages (provider_messages to_vec debug x).1 = se_messages x.
Proof using Type. unfold provider_messages. simpl. by repeat case_match. Qed.

(** ** Methods that leave the transcript alone *)

Lemma silent_save : silent save.
Proof using laws.
  intros s. unfold save. destruct (env_save _ _) as [[[x r] w]|] eqn:H; [|done]. apply save_keeps_messages in H.
  destruct s as [[] w0 l]. unfold same, shapes, msgs. simpl in *. by rewrite H.
Qed.
Hint Resolve silent_save : agent.
Lemma silent_save_or_err : silent save_or_err.
Proof using laws. unfold save_or_err. quiet. Qed.
Lemma silent_persist : silent persist_session_best_effort.
Proof using laws. unfold persist_session_best_effort. quiet. Qed.
Hint Resolve silent_save_or_err silent_persist : agent.
Lemma silent_put m : silent (put_manager m).
Proof using Type. unfold put_manager. quiet. Qed.
Hint Resolve silent_put : agent.
Lemma silent_notify : silent (notify_manager : M unit).
Proof using Type. unfold notify_manager. quiet. Qed.
Lemma silent_map_head f : silent (modify (map_head f) : M unit).
Proof using Type. apply silent_modify. by intros []. Qed.
Hint Resolve silent_notify silent_map_head : agent.

Lemma silent_sync m : silent (sync_session_compaction_state_from_manager m).
Proof using laws. unfold sync_session_compaction_state_from_manager. quiet. Qed.
Lemma silent_provider_messages : silent (session_provider_messages to_vec debug).
Proof using Type.
  intros s. unfold session_provider_messages, m_bind, gets. pose proof (provider_messages_keep (ag_session (st_agent s))) as H.
  destruct (provider_messages to_vec debug (ag_session (st_agent s))) as [x l]. simpl in *.
  unfold same, shapes, msgs. destruct s as [[] w0 e]. simpl in *. by rewrite H.
Qed.
Lemma silent_compaction_applied : silent (note_compaction_applied : M unit).
Proof using Type. unfold note_compaction_applied. quiet. Qed.
Hint Resolve silent_sync silent_provider_messages silent_compaction_applied : agent.

Lemma silent_try_native : silent try_recover_oversized_openai_native_compaction.
Proof using laws. unfold try_recover_oversized_openai_native_compaction. quiet. Qed.

(** Taking out images changes no call and no result. *)
Lemma silent_strip {A} (k : nat → M A) : (∀ n, silent (k n)) →
  silent (let! session := gets ag_session in
          let '(session, stripped) := strip_oversized_images PAYLOAD_IMAGE_CHAR_BUDGET session in
          modify (set_session session) ;! k stripped)%agent.
Proof using Type.
  intros Hk s. unfold m_bind, gets. pose proof (strip_shapes PAYLOAD_IMAGE_CHAR_BUDGET (ag_session (st_agent s))) as H.
  destruct (strip_oversized_images _ _) as [x n]. unfold modify. eapply same_trans; [|apply Hk].
  by destruct s as [[] w0 e].
Qed.
Hint Resolve silent_try_native : agent.

Lemma silent_try_payload error : silent (try_recover_after_payload_too_large to_vec debug error).
Proof using laws.
  unfold try_recover_after_payload_too_large. destruct (negb _); [apply silent_ret|]. apply silent_strip. intros n. quiet.
Qed.
Lemma silent_hard_compact : silent (hard_compact_for_limit to_vec debug).
Proof using laws. unfold hard_compact_for_limit. quiet. Qed.
Hint Resolve silent_try_payload silent_hard_compact : agent.
Lemma silent_auto_compact error : silent (try_auto_compact_after_context_limit to_vec debug error).
Proof using laws. unfold try_auto_compact_after_context_limit. quiet. Qed.
Lemma silent_usage_update i cr cc : silent (update_compaction_usage_from_stream i cr cc).
Proof using Type. unfold update_compaction_usage_from_stream. quiet. Qed.
Lemma silent_embedding text : silent (push_embedding_snapshot_if_semantic text).
Proof using Type. unfold push_embedding_snapshot_if_semantic. quiet. Qed.
Lemma silent_native_compaction c n : silent (apply_openai_native_compaction c n).
Proof using laws. unfold apply_openai_native_compaction. quiet. Qed.
Lemma silent_poll : silent (poll_compaction_completion_event to_vec debug).
Proof using laws. unfold poll_compaction_completion_event. quiet. Qed.
Lemma silent_messages_for_provider : silent (messages_for_provider to_vec debug).
Proof using laws. unfold messages_for_provider. quiet. Qed.
Lemma silent_seed : silent seed_compaction_from_session.
Proof using laws. unfold seed_compaction_from_session. quiet. Qed.
Hint Resolve silent_auto_compact silent_usage_update silent_embedding silent_native_compaction silent_poll
  silent_messages_for_provider silent_seed : agent.

Lemma silent_tool_definitions : silent tool_definitions.
Proof using Type.
  unfold tool_definitions, registry_has_new_mcp_tools, lock_tools, build_filtered_tool_definitions. quiet.
Qed.
Lemma silent_memory_prompt l : silent (build_memory_prompt_nonblocking_shared l).
Proof using Type. unfold build_memory_prompt_nonblocking_shared. quiet. Qed.
Lemma silent_record_memory m : silent (record_memory_injection_in_session m).
Proof using laws. unfold record_memory_injection_in_session. quiet. by apply silent_edit. Qed.
Lemma silent_release : silent (edit_session release_provider_messages_cache).
Proof using Type. by apply silent_edit. Qed.
Lemma silent_allowed name : silent (validate_tool_allowed name).
Proof using Type. unfold validate_tool_allowed. quiet. Qed.
Lemma silent_unlock name : silent (unlock_tools_if_needed name).
Proof using Type. unfold unlock_tools_if_needed, unlock_tools. quiet. Qed.
Lemma silent_urgent : silent has_urgent_interrupt.
Proof using Type. unfold has_urgent_interrupt. quiet. Qed.
Lemma silent_recover_call text calls : silent (recover_text_wrapped_tool_call parse_prefix text calls).
Proof using Type. unfold recover_text_wrapped_tool_call. quiet. Qed.
Hint Resolve silent_tool_definitions silent_memory_prompt silent_record_memory silent_release silent_allowed silent_unlock
  silent_urgent silent_recover_call : agent.

(** ** Reading a stream *)

Lemma silent_retry n message error : silent (retry_or_err to_vec debug n message error).
Proof using laws. unfold retry_or_err. quiet. Qed.
Hint Resolve silent_retry : agent.
Lemma silent_event store n event r : silent (stream_event to_vec debug store n event r).
Proof using laws.
  unfold stream_event, image_event, usage_event, session_id_event, compaction_event, native_call_event. quiet.
Qed.
Lemma silent_read store n items r : silent (read_stream to_vec debug store n items r).
Proof using laws.
  revert r. induction items as [|[event|e|] items IH]; intros r; cbn [read_stream]; quiet; apply silent_event.
Qed.
Lemma silent_event_mpsc store n event r : silent (stream_event_mpsc to_vec debug store n event r).
Proof using laws.
  unfold stream_event_mpsc, thinking_event, text_event, show_text, retry_streamed, close_reasoning, image_event, usage_event,
    session_id_event, compaction_event, native_call_event. quiet.
Qed.
Lemma silent_read_mpsc store n items r : silent (read_stream_mpsc to_vec debug store n items r).
Proof using laws.
  revert r. induction items as [|[event|e|] items IH]; intros r; cbn [read_stream_mpsc]; unfold retry_streamed; quiet;
    apply silent_event_mpsc.
Qed.
Lemma silent_open n request : silent (open_stream to_vec debug n request).
Proof using laws. unfold open_stream, retry_streamed. quiet. Qed.
Lemma silent_send_all events : silent (send_all events).
Proof using Type. induction events; cbn [send_all]; quiet. Qed.
Lemma silent_show_recovered b text calls : silent (show_recovered b text calls).
Proof using Type. unfold show_recovered. quiet. Qed.
Lemma silent_resync model : silent (resync_model model).
Proof using laws. unfold resync_model. quiet. Qed.
End Silent.

#[export] Hint Resolve silent_save silent_save_or_err silent_persist silent_put silent_notify silent_map_head silent_sync
  silent_provider_messages silent_compaction_applied silent_try_native silent_auto_compact silent_usage_update silent_embedding
  silent_native_compaction silent_poll silent_messages_for_provider silent_seed silent_tool_definitions silent_memory_prompt
  silent_record_memory silent_release silent_allowed silent_unlock silent_urgent silent_recover_call silent_retry silent_read
  silent_read_mpsc silent_open silent_send_all silent_show_recovered silent_resync : agent.

(** ** Saving to the session's files

    The files of SessionStore.v keep the law. *)
Section Files.
Context {J : Json} {T : Chrono}.
Context (encode_snapshot : SessionSnapshot → string) (encode_entry : SessionJournalEntry → string).

Lemma checkpoint_keeps_messages pid nonce path journal session d session' r d' :
  checkpoint_snapshot encode_snapshot pid nonce path journal session d = Finished (Ok (session', r)) d' →
  se_messages session' = se_messages session.
Proof using Type.
  unfold checkpoint_snapshot, settle, io_bind, settle. destruct (write_json_fast _ _ _ _ _ d) as [[x|e] d1|]; [| |done].
  - destruct (fs_exists journal d1) as [[present|e] d2|]; [|done|done].
    destruct (io_when present (fs_remove journal) d2) as [? d3|]; [|done]. by intros [= <- _ _].
  - by intros [= <- _ _].
Qed.

Lemma session_save_keeps_messages time pid nonce session d session' r d' :
  SessionStore.save encode_snapshot encode_entry time pid nonce session d = Finished (Ok (session', r)) d' →
  se_messages session' = se_messages session.
Proof using Type.
  unfold SessionStore.save. destruct (_ || _); [by intros ->%checkpoint_keeps_messages|]. unfold settle, io_bind, settle.
  destruct (append_json_line_fast _ _ _ d) as [[x|e] d1|]; [| |done]; [|by intros ->%checkpoint_keeps_messages].
  destruct (file_len_or_zero _ d1) as [[n|e] d2|]; [|done|done].
  destruct (_ <? n)%N; [by intros ->%checkpoint_keeps_messages|by intros [= <- _ _]].
Qed.

(** A world that saves to these files fulfils what an agent relies on. *)
Lemma files_keep_the_law {W : Type} {env : AgentEnv W} (disk : W → Disk) (time : W → DateTime) (pid nonce : W → N) :
  (∀ session w session' r w', env_save session w = Some (session', r, w') →
     ∃ x d', SessionStore.save encode_snapshot encode_entry (time w) (pid w) (nonce w) session (disk w) = Finished (Ok (session', x)) d') →
  AgentLaws.
Proof using Type.
  intros H. constructor. intros session w session' r w' Hs. destruct (H _ _ _ _ _ Hs) as (x & d' & Hd).
  by apply session_save_keeps_messages in Hd.
Qed.
End Files.
