(* ===== verification/AgentClaims.v ===== *)
(** * Theorems on the agent

    The transcript an agent sends to its provider: the repair of tool calls
    without a result, the results of the tools of a response, and what the
    client of a streamed turn is shown. *)

From stdpp Require Import base list strings gmap pretty.
From S2P Require Import Prelude RustString RustText Float32 ToolFs Compaction CompactionClaims Manager ManagerClaims ModelId Failover OpenAiRequest Message Session SessionFacts Agent AgentTurn AgentFacts.

Open Scope nat_scope.
Open Scope list_scope.

Lemma union_move (A B C D : gset string) : A ∪ (B ∪ C ∪ D) = B ∪ (C ∪ A) ∪ D.
Proof. set_solver. Qed.

Section Repair.
Context {J : Json} {T : Chrono} {E : Embedder} {U : Unicode} {W : Type} {env : AgentEnv W} {laws : AgentLaws}.

#[local] Notation M := (@M J T W).
#[local] Notation St := (@St J T W).
#[local] Notation silent m := (@silent J T W _ m).

(** ** Calls and results of a transcript *)

Definition calls_of (x : Role * list string * list string) : list string :=
  match x with (Assistant, uses, _) => uses | _ => [] end.
Definition results_of (x : Role * list string * list string) : list string :=
  match x with (User, _, results) => results | _ => [] end.

(** Every call of the assistant has a result. *)
Definition answered (l : list StoredMessage) : Prop :=
  ∀ id, id ∈ (shape <$> l) ≫= calls_of → id ∈ (shape <$> l) ≫= results_of.

(** What the agent remembers is what the part it has scanned says. *)
Definition tracked (s : St) : Prop :=
  let t := tracking s in
  tr_scan_index t ≤ length (shapes s)
  ∧ tr_result_ids t = list_to_set (take (tr_scan_index t) (shapes s) ≫= results_of)
  ∧ ∀ id, id ∈ take (tr_scan_index t) (shapes s) ≫= calls_of → id ∈ tr_result_ids t.

Definition view (m : StoredMessage) : Role * list ContentBlock := (stm_role m, stm_content m).
Definition view_shape (v : Role * list ContentBlock) : Role * list string * list string := (v.1, use_ids v.2, result_ids v.2).

(** The calls of a message that have no result, and what is put after it. *)
Definition unanswered (results : gset string) (v : Role * list ContentBlock) : list string :=
  List.filter (λ id, negb (bool_decide (id ∈ results))) (calls_of (view_shape v)).
Definition synthetic (id : string) : Role * list ContentBlock := (User, [ToolResult id TOOL_OUTPUT_MISSING_TEXT (Some true)]).
Definition completed (results : gset string) (l : list (Role * list ContentBlock)) : list (Role * list ContentBlock) :=
  l ≫= λ v, v :: (synthetic <$> unanswered results v).

(** The repair of a whole transcript, without any record of earlier scans. *)
Definition all_results (l : list (Role * list ContentBlock)) : gset string := list_to_set ((view_shape <$> l) ≫= results_of).
Definition repaired_transcript (l : list (Role * list ContentBlock)) : list (Role * list ContentBlock) :=
  completed (all_results l) l.

Lemma shape_view m : shape m = view_shape (view m).
Proof using Type. done. Qed.
Lemma shapes_view (l : list StoredMessage) : shape <$> l = view_shape <$> (view <$> l).
Proof using Type. by rewrite <- list_fmap_compose. Qed.

(** ** The scan *)

Lemma scan_results i l : (scan_from i l).1 = (shape <$> l) ≫= results_of.
Proof using Type.
  revert i. induction l as [|m l IH]; intros i; [done|]. cbn [scan_from]. specialize (IH (S i)).
  destruct (scan_from (S i) l) as [results uses]. simpl in *. subst. unfold shape at 1. by destruct (stm_role m).
Qed.

Lemma missing_cons i m l R : missing_for R (scan_from i (m :: l)).2 =
  match unanswered R (view m) with [] => [] | missing => [(i, missing)] end ++ missing_for R (scan_from (S i) l).2.
Proof using Type.
  cbn [scan_from]. destruct (scan_from (S i) l) as [results uses]. unfold unanswered. simpl.
  destruct (stm_role m); simpl; [done|]. destruct (use_ids (stm_content m)) as [|id ids] eqn:Hu; [done|].
  cbn [missing_for omap]. unfold missing_for. cbn [list_omap omap]. by destruct (List.filter _ _).
Qed.

(** ** Insertion *)

Lemma insert_missing_spec ids pre post s : msgs s = pre ++ post →
  ∃ s' ms, insert_missing (length pre) ids s = Done tt s' ∧ msgs s' = pre ++ ms ++ post ∧ view <$> ms = synthetic <$> ids
    ∧ tracking s' = mkTracking (tr_call_ids (tracking s)) (list_to_set ids ∪ tr_result_ids (tracking s)) (tr_scan_index (tracking s)).
Proof using Type.
  revert pre s. induction ids as [|id ids IH]; intros pre s Hs.
  - exists s, []. repeat split; try done. destruct s as [[] w e]; unfold tracking; simpl.
    destruct ag_tracking. f_equal. symmetry. apply union_empty_l_L.
  - cbn [insert_missing]. unfold m_bind, ask, gets, now. destruct (env_new_id "message" (st_world s)) as [mid w] eqn:Hid. simpl.
    set (m := missing_output id mid (env_now w)).
    unfold insert_message. unfold msgs in Hs. rewrite Hs, length_app.
    replace (length pre + length post <? length pre) with false by (symmetry; apply Nat.ltb_ge; lia).
    rewrite take_app_length, drop_app_length. unfold modify. simpl.
    set (s1 := mkSt _ _ _). destruct (IH (pre ++ [m]) s1) as (s' & ms & H1 & H2 & H3 & H4).
    { destruct s as [[] w0 e]. unfold s1, msgs. simpl. by rewrite <- app_assoc. }
    rewrite length_app, Nat.add_1_r in H1. exists s', (m :: ms). rewrite H1. split; [done|]. split; [|split].
    + rewrite H2. by rewrite <- app_assoc.
    + rewrite !fmap_cons, H3. done.
    + rewrite H4. destruct s as [[] w0 e]. unfold s1, tracking. simpl. f_equal. by rewrite assoc_L, (comm_L (∪) (list_to_set ids)) by apply _.
Qed.

(** The results a repair adds. *)
Definition all_unanswered (R : gset string) (l : list StoredMessage) : list string := (view <$> l) ≫= unanswered R.

Lemma insert_repairs_spec R l pre i inserted s : msgs s = pre ++ l → length pre = i + inserted →
  ∃ s' l', insert_repairs inserted (missing_for R (scan_from i l).2) s = Done (inserted + length (all_unanswered R l)) s'
    ∧ msgs s' = pre ++ l' ∧ view <$> l' = completed R (view <$> l)
    ∧ tracking s' = mkTracking (tr_call_ids (tracking s)) (list_to_set (all_unanswered R l) ∪ tr_result_ids (tracking s))
                      (tr_scan_index (tracking s)).
Proof using Type.
  revert pre i inserted s. induction l as [|m l IH]; intros pre i inserted s Hs Hpre.
  - exists s, []. rewrite Nat.add_0_r. repeat split; try done. destruct s as [[] w e]; unfold tracking; simpl.
    destruct ag_tracking. f_equal. symmetry. apply union_empty_l_L.
  - rewrite missing_cons. unfold all_unanswered, completed. rewrite fmap_cons. cbn [mbind list_bind].
    destruct (unanswered R (view m)) as [|id ids] eqn:Hm.
    + cbn [app fmap list_fmap]. destruct (IH (pre ++ [m]) (S i) inserted s) as (s' & l' & H1 & H2 & H3 & H4).
      { by rewrite Hs, <- app_assoc. } { rewrite length_app. simpl. lia. }
      exists s', (m :: l'). rewrite H1, H2, fmap_cons, H3, <- app_assoc. done.
    + cbn [app insert_repairs]. unfold m_bind.
      destruct (insert_missing_spec (id :: ids) (pre ++ [m]) l s) as (s1 & ms & H1 & H2 & H3 & H4).
      { by rewrite Hs, <- app_assoc. }
      rewrite length_app in H1. cbn [length] in H1. replace (length pre + 1) with (i + 1 + inserted) in H1 by lia. rewrite H1.
      destruct (IH ((pre ++ [m]) ++ ms) (S i) (inserted + length (id :: ids)) s1) as (s' & l' & G1 & G2 & G3 & G4).
      { by rewrite H2, !app_assoc. }
      { rewrite !length_app, <- (length_fmap view ms), H3, length_fmap. simpl. lia. }
      exists s', (m :: ms ++ l'). rewrite G1, G2, fmap_cons, fmap_app, H3, G3. split; [|split; [|split]].
      * f_equal. change (mbind (unanswered R) (view <$> l)) with (all_unanswered R l). simpl. rewrite length_app. lia.
      * by rewrite <- !app_assoc.
      * done.
      * rewrite G4, H4. simpl. f_equal. rewrite list_to_set_app_L. apply union_move.
Qed.

(** ** The repair *)

Lemma completed_answered R l : (∀ id, id ∈ (view_shape <$> l) ≫= calls_of → id ∈ R) → completed R l = l.
Proof using Type.
  induction l as [|v l IH]; intros H; [done|]. unfold completed. cbn [mbind list_bind fmap list_fmap] in *.
  replace (unanswered R v) with (@nil string).
  { simpl. f_equal. apply IH. intros id Hid. apply H. apply elem_of_app. by right. }
  symmetry. unfold unanswered. assert (∀ id, id ∈ calls_of (view_shape v) → id ∈ R) as Hv.
  { intros id Hid. apply H. apply elem_of_app. by left. }
  clear H IH. induction (calls_of (view_shape v)) as [|id ids IH]; [done|]. simpl.
  rewrite bool_decide_eq_true_2 by (apply Hv; by left). simpl. apply IH. intros x Hx. apply Hv. by right.
Qed.

Lemma unanswered_spec R v id : id ∈ unanswered R v ↔ id ∈ calls_of (view_shape v) ∧ id ∉ R.
Proof using Type.
  unfold unanswered. rewrite !list_elem_of_In, filter_In, negb_true_iff, bool_decide_eq_false. done.
Qed.

Lemma completed_calls R l : (view_shape <$> completed R l) ≫= calls_of = (view_shape <$> l) ≫= calls_of.
Proof using Type.
  induction l as [|v l IH]; [done|]. unfold completed. cbn [mbind list_bind fmap list_fmap].
  rewrite fmap_app, bind_app. change (l ≫= _) with (completed R l). rewrite IH. f_equal.
  cbn [mbind list_bind fmap list_fmap]. rewrite <- (app_nil_r (calls_of _)) at 2. f_equal.
  by induction (unanswered R v).
Qed.

Lemma completed_results R l id : id ∈ (view_shape <$> completed R l) ≫= results_of ↔
  id ∈ (view_shape <$> l) ≫= results_of ∨ id ∈ l ≫= unanswered R.
Proof using Type.
  induction l as [|v l IH]; [simpl; split; [by left|by intros [?|?]]|]. unfold completed. cbn [mbind list_bind fmap list_fmap].
  rewrite fmap_app, bind_app, !elem_of_app. change (l ≫= _) with (completed R l) at 1. rewrite IH.
  cbn [mbind list_bind fmap list_fmap]. rewrite elem_of_app.
  assert (id ∈ (view_shape <$> (synthetic <$> unanswered R v)) ≫= results_of ↔ id ∈ unanswered R v) as ->.
  { induction (unanswered R v) as [|x xs IHx]; [done|]. cbn [mbind list_bind fmap list_fmap]. rewrite elem_of_app, IHx, elem_of_cons.
    simpl. by rewrite list_elem_of_singleton. }
  tauto.
Qed.

Lemma tracked_same s s' : same s s' → tracked s → tracked s'.
Proof using Type. unfold tracked. intros [-> ->]. done. Qed.

(** The scan of the rest and the record together know all results. *)
Lemma tracked_results s : tracked s →
  tr_result_ids (tracking s) ∪ list_to_set ((shape <$> drop (tr_scan_index (tracking s)) (msgs s)) ≫= results_of)
  = all_results (view <$> msgs s).
Proof using Type.
  intros (_ & Hr & _). rewrite Hr. unfold all_results, shapes. rewrite <- shapes_view, <- list_to_set_app_L, <- bind_app.
  f_equal. f_equal. rewrite <- fmap_take, <- fmap_app. by rewrite take_drop.
Qed.

Lemma tracked_split s : tracked s →
  repaired_transcript (view <$> msgs s)
  = (view <$> take (tr_scan_index (tracking s)) (msgs s))
    ++ completed (all_results (view <$> msgs s)) (view <$> drop (tr_scan_index (tracking s)) (msgs s)).
Proof using Type.
  intros Ht. unfold repaired_transcript. set (R := all_results _). pose proof (tracked_results s Ht) as HR. fold R in HR.
  destruct Ht as (_ & _ & Hc).
  rewrite <- (take_drop (tr_scan_index (tracking s)) (msgs s)) at 1. rewrite fmap_app. unfold completed at 1. rewrite bind_app.
  f_equal. apply completed_answered. intros id Hid. rewrite <- HR. apply elem_of_union_l, Hc.
  rewrite <- shapes_view, fmap_take in Hid. exact Hid.
Qed.

(** A completed transcript has all its results. *)
Lemma completed_complete V id :
  id ∈ (view_shape <$> repaired_transcript V) ≫= calls_of → id ∈ (view_shape <$> repaired_transcript V) ≫= results_of.
Proof using Type.
  unfold repaired_transcript. rewrite completed_calls, completed_results. intros H.
  destruct (decide (id ∈ all_results V)) as [Hd|Hd]; [left; by apply elem_of_list_to_set in Hd|].
  right. apply list_elem_of_bind in H as (x & Hx & Hl). apply list_elem_of_bind. apply list_elem_of_fmap in Hl as (v & -> & Hv).
  exists v. by rewrite unanswered_spec.
Qed.

Lemma completed_tracked s V c : view <$> msgs s = repaired_transcript V →
  tracking s = mkTracking c (list_to_set (V ≫= unanswered (all_results V)) ∪ all_results V) (length (msgs s)) →
  tracked s ∧ answered (msgs s).
Proof using Type.
  intros Hv Ht. assert (answered (msgs s)) as Ha.
  { intros id. rewrite shapes_view, Hv. apply completed_complete. }
  split; [|done]. unfold tracked, shapes. rewrite Ht. cbn [tr_scan_index tr_result_ids].
  rewrite firstn_all2 by (by rewrite length_fmap).
  assert (∀ id, id ∈ (list_to_set (V ≫= unanswered (all_results V)) ∪ all_results V : gset string)
                ↔ id ∈ (shape <$> msgs s) ≫= results_of) as Hr.
  { intros id. rewrite shapes_view, Hv. unfold repaired_transcript.
    rewrite completed_results, elem_of_union. unfold all_results at 2. rewrite !elem_of_list_to_set. apply or_comm. }
  split; [by rewrite length_fmap|]. split; [apply set_eq; intros id; by rewrite Hr, elem_of_list_to_set|].
  intros id Hid. by apply Hr, Ha.
Qed.

(** The end of a repair. *)
Lemma repair_end n s :
  let m := ((if 0 <? n then persist_session_best_effort ;! modify (set_locked None false) else m_ret tt) ;! m_ret n : M nat)%agent in
  msgs (end_of (m s)) = msgs s ∧ tracking (end_of (m s)) = tracking s
  ∧ match m s with Done k _ => k = n | Dies _ => ∃ session w, env_save session w = None | _ => False end.
Proof using laws.
  cbv zeta. destruct (0 <? n); [|done]. unfold m_bind, persist_session_best_effort, m_bind, save.
  destruct (env_save _ _) as [[[? ?] ?]|] eqn:H; [|split_and!; [done..|by eexists _, _]].
  apply save_keeps_messages in H. by destruct s as [[] ? ?].
Qed.

Lemma all_unanswered_app R l1 l2 : all_unanswered R (l1 ++ l2) = all_unanswered R l1 ++ all_unanswered R l2.
Proof using Type. unfold all_unanswered. by rewrite fmap_app, bind_app. Qed.
Lemma all_unanswered_nil R l : (∀ id, id ∈ (shape <$> l) ≫= calls_of → id ∈ R) → all_unanswered R l = [].
Proof using Type.
  intros H. unfold all_unanswered. destruct ((view <$> l) ≫= unanswered R) as [|id ids] eqn:He; [done|].
  assert (id ∈ (view <$> l) ≫= unanswered R) as Hid by (rewrite He; by left).
  apply list_elem_of_bind in Hid as (v & Hv & Hl). apply unanswered_spec in Hv as [Hv Hn]. destruct Hn. apply H.
  rewrite shapes_view. apply list_elem_of_bind. exists (view_shape v). split; [done|]. by apply list_elem_of_fmap_2.
Qed.
Lemma tracked_prefix s : tracked s →
  all_unanswered (all_results (view <$> msgs s)) (take (tr_scan_index (tracking s)) (msgs s)) = [].
Proof using Type.
  intros Ht. rewrite <- tracked_results by done. apply all_unanswered_nil. destruct Ht as (_ & _ & Hc).
  intros id Hid. apply elem_of_union_l, Hc. unfold shapes. by rewrite <- fmap_take.
Qed.

(** A whole repair: it inserts, and only saving can stop it. *)
Lemma repair_spec s : tracked s →
  let s' := end_of (repair_missing_tool_outputs s) in
  view <$> msgs s' = repaired_transcript (view <$> msgs s) ∧ tracked s' ∧ answered (msgs s')
  ∧ match repair_missing_tool_outputs s with
    | Done n _ => n = length (all_unanswered (all_results (view <$> msgs s)) (msgs s))
    | Dies _ => ∃ session w, env_save session w = None
    | _ => False
    end.
Proof using laws.
  intros Ht. pose proof (tracked_results s Ht) as HR. pose proof (tracked_split s Ht) as Hsplit.
  pose proof (tracked_prefix s Ht) as Hpre. destruct Ht as (Hi & _ & _). unfold shapes in Hi. rewrite length_fmap in Hi.
  set (V := view <$> msgs s) in *. set (R := all_results V) in *. set (i := tr_scan_index (tracking s)) in *.
  remember (repair_missing_tool_outputs s) as o eqn:He. cbv zeta.
  unfold repair_missing_tool_outputs in He. unfold m_bind at 1, gets in He. cbn [id] in He. fold (tracking s) (msgs s) in He.
  replace (length (msgs s) <? tr_scan_index (tracking s)) with false in He by (symmetry; apply Nat.ltb_ge; lia).
  cbv zeta in He. fold i in He. pose proof (scan_results i (drop i (msgs s))) as Hscan.
  destruct (scan_from i (drop i (msgs s))) as [new uses] eqn:Hsc. simpl in Hscan. subst new. rewrite HR in He.
  unfold m_bind at 1, modify at 1 in He. set (c := tr_call_ids (tracking s) ∪ _) in He. set (s1 := mkSt (set_tracking _ _) _ _) in He.
  assert (msgs s1 = take i (msgs s) ++ drop i (msgs s)) as Hm1 by (rewrite take_drop; by destruct s as [[] ? ?]).
  destruct (insert_repairs_spec R (drop i (msgs s)) (take i (msgs s)) i 0 s1 Hm1) as (s2 & l' & H1 & H2 & H3 & H4).
  { rewrite length_take. lia. }
  rewrite Hsc in H1. cbn [snd] in H1. unfold m_bind at 1 in He. rewrite H1 in He. unfold m_bind at 1, modify at 1 in He.
  set (n := 0 + _) in He. set (s3 := mkSt (set_tracking _ _) _ _) in He.
  assert (msgs s3 = msgs s2) as Hm3 by (by destruct s2 as [[] ? ?]).
  assert (all_unanswered R (drop i (msgs s)) = all_unanswered R (msgs s)) as Hn.
  { rewrite <- (take_drop i (msgs s)) at 2. by rewrite all_unanswered_app, Hpre. }
  assert (view <$> msgs s3 = repaired_transcript V) as Hv by (rewrite Hm3, H2, fmap_app, H3, Hsplit; done).
  destruct (repair_end n s3) as (Hm & Htt & Ho). destruct (completed_tracked s3 V c Hv) as [Htr Ha].
  { assert (tracking s3 = mkTracking (tr_call_ids (tracking s2)) (tr_result_ids (tracking s2)) (length (msgs s2))) as ->
      by (by destruct s2 as [[] ? ?]).
    rewrite H4, Hm3, Hn. by destruct s as [[] ? ?]. }
  cbv zeta in Hm, Htt, Ho. rewrite <- He in Hm, Htt, Ho. rewrite Hm. split; [exact Hv|]. split; [|split; [exact Ha|]].
  - apply (tracked_same s3); [split; [unfold shapes; by rewrite Hm|exact Htt]|exact Htr].
  - unfold n in Ho. rewrite Hn in Ho. exact Ho.
Qed.
End Repair.

(** ** The invariant in a turn *)

Create HintDb agent_keeps.

Section Keeps.
Context {J : Json} {T : Chrono} {E : Embedder} {U : Unicode} {W : Type} {env : AgentEnv W} {laws : AgentLaws}.

#[local] Notation M := (@M J T W).
#[local] Notation St := (@St J T W).

Definition keeps {A} (m : M A) : Prop := ∀ s, tracked s → tracked (end_of (m s)).

Lemma keeps_silent {A} (m : M A) : silent m → keeps m.
Proof using Type. intros H s. apply tracked_same, H. Qed.
Lemma turn_keeps_bind {A B} (m : M A) (k : A → M B) : keeps m → (∀ x, keeps (k x)) → keeps (m_bind m k).
Proof using Type.
  intros Hm Hk s Hs. unfold m_bind. specialize (Hm s Hs). destruct (m s); simpl in *; try done. by apply Hk.
Qed.

Lemma tracked_reset (s : St) : tracking s = tracking_reset → tracked s.
Proof using Type. intros H. unfold tracked. rewrite H. simpl. split; [lia|]. split; [done|]. intros id Hid. by apply elem_of_nil in Hid. Qed.

Lemma tracked_append (s s' : St) x : shapes s' = shapes s ++ [x] → tracking s' = tracking s → tracked s → tracked s'.
Proof using Type.
  intros Hs Ht (H1 & H2 & H3). unfold tracked. rewrite Hs, Ht. split; [rewrite length_app; simpl; lia|].
  by rewrite take_app_le.
Qed.

(** ** Messages *)

Lemma add_stored_shapes role content d u r (s : St) :
  shapes (end_of (add_stored role content d u r s)) = shapes s ++ [(role, use_ids content, result_ids content)]
  ∧ tracking (end_of (add_stored role content d u r s)) = tracking s.
Proof using Type.
  unfold add_stored, m_bind, ask, now. destruct (env_new_id _ _) as [id w]. simpl.
  set (s1 := mkSt _ _ _). pose proof (silent_notify s1) as Hn.
  assert (end_of (match notify_manager s1 with
                  | Done _ s => Done id s | Errs e s => Errs e s | Dies s => Dies s | Spins s => Spins s
                  end) = end_of (notify_manager s1)) as Ho by (by destruct (notify_manager s1)).
  unfold m_ret. rewrite Ho. destruct Hn as [-> ->].
  destruct s as [[] ? ?]. unfold s1, shapes, msgs, tracking. simpl. by rewrite fmap_app.
Qed.
Lemma keeps_add_stored role content d u r : keeps (add_stored role content d u r).
Proof using Type. intros s. destruct (add_stored_shapes role content d u r s). by eapply tracked_append. Qed.

(** Taking calls out of a message. *)
Lemma remove_tool_use_shapes message_id l n :
  take n (shape <$> (remove_tool_use_in message_id l).1) ≫= results_of = take n (shape <$> l) ≫= results_of
  ∧ (∀ id, id ∈ take n (shape <$> (remove_tool_use_in message_id l).1) ≫= calls_of → id ∈ take n (shape <$> l) ≫= calls_of)
  ∧ length (remove_tool_use_in message_id l).1 = length l.
Proof using Type.
  revert n. induction l as [|m l IH]; intros n; [done|]. cbn [remove_tool_use_in].
  destruct (bool_decide _); [clear IH|].
  - cbn [fst fmap list_fmap length]. split_and!; [| |done]; destruct n; try done; cbn [firstn mbind list_bind].
    + f_equal. unfold shape. simpl. destruct (stm_role m); [|done]. unfold result_ids.
      induction (stm_content m) as [|[] c IH]; simpl; first [done|exact IH|f_equal; exact IH].
    + intros id. rewrite !elem_of_app. intros [H|H]; [left|by right]. unfold shape in *. simpl in *.
      destruct (stm_role m); [done|]. unfold use_ids in *.
      induction (stm_content m) as [|[] c IH]; simpl in *; try rewrite !elem_of_cons; auto.
  - destruct (remove_tool_use_in message_id l) as [l' found] eqn:He. cbn [fst length] in *.
    destruct n; [split_and!; try done; by rewrite (proj2 (proj2 (IH 0)))|].
    destruct (IH n) as (H1 & H2 & H3). rewrite !fmap_cons, !firstn_cons, !bind_cons, H1, H3. split_and!; [done| |done].
    intros id. rewrite !elem_of_app. intros [H|H]; [by left|right; by apply H2].
Qed.
Lemma keeps_remove message_id : keeps (edit_session (remove_tool_use_blocks message_id)).
Proof using Type.
  intros s (H1 & H2 & H3). unfold tracked.
  assert (shapes (end_of (edit_session (remove_tool_use_blocks message_id) s))
          = shape <$> (remove_tool_use_in message_id (msgs s)).1) as ->.
  { unfold shapes, msgs. destruct s as [[] ? ?]. simpl. unfold remove_tool_use_blocks.
    by destruct (remove_tool_use_in _ _) as [l []]. }
  assert (tracking (end_of (edit_session (remove_tool_use_blocks message_id) s)) = tracking s) as ->
    by (by destruct s as [[] ? ?]).
  destruct (remove_tool_use_shapes message_id (msgs s) (tr_scan_index (tracking s))) as (G1 & G2 & G3).
  rewrite length_fmap, G3, G1. unfold shapes in *. rewrite length_fmap in H1. split_and!; auto.
Qed.
Lemma keeps_repair : keeps repair_missing_tool_outputs.
Proof using laws. intros s H. by destruct (repair_spec s H) as (_ & ? & _). Qed.
End Keeps.

#[export] Hint Resolve keeps_add_stored keeps_remove keeps_repair : agent_keeps.

(** Follow the text of a computation that may add messages. *)
Ltac keep :=
  repeat match goal with
    | |- keeps (m_bind _ _) => apply turn_keeps_bind; [|intros ?]
    | |- keeps (let '_ := ?x in _) => destruct x eqn:?
    | |- keeps (match ?x with _ => _ end) => destruct x eqn:?
    | |- keeps (m_when ?b _) => destruct b; unfold m_when
    | |- _ => progress intros
    | |- keeps _ => solve [auto with agent_keeps nocore]
    | |- keeps _ => solve [apply keeps_silent; quiet]
    end.

Section Turns.
Context {J : Json} {T : Chrono} {E : Embedder} {U : Unicode} {W : Type} {env : AgentEnv W} {laws : AgentLaws}.
Context (to_vec : Message → option (list N)) (debug : Message → list N).
Context (parse_prefix : string → option (Value * nat)).

#[local] Notation M := (@M J T W).
#[local] Notation St := (@St J T W).
#[local] Notation keeps m := (@keeps J T W _ m).

Lemma keeps_add role content : keeps (add_message role content).
Proof using Type. unfold add_message. keep. Qed.
Lemma keeps_add_role role content r : keeps (add_message_with_display_role role content r).
Proof using Type. unfold add_message_with_display_role. keep. Qed.
Lemma keeps_add_duration role content d : keeps (add_message_with_duration role content d).
Proof using Type. unfold add_message_with_duration. keep. Qed.
Lemma keeps_add_ext role content d u : keeps (add_message_ext role content d u).
Proof using Type. unfold add_message_ext. keep. Qed.
Hint Resolve keeps_add keeps_add_role keeps_add_duration keeps_add_ext : agent_keeps.

Lemma keeps_flush injected source parts : keeps (flush_group injected source parts).
Proof using Type. unfold flush_group. keep. Qed.
Hint Resolve keeps_flush : agent_keeps.
Lemma keeps_inject_loop messages current parts injected : keeps (inject_loop current parts injected messages).
Proof using Type. revert current parts injected. induction messages; intros; cbn [inject_loop]; keep. Qed.
Hint Resolve keeps_inject_loop : agent_keeps.
Lemma keeps_inject : keeps inject_soft_interrupts.
Proof using laws. unfold inject_soft_interrupts. keep. Qed.
Lemma keeps_incomplete reason n : keeps (maybe_continue_incomplete_response reason n).
Proof using laws. unfold maybe_continue_incomplete_response. keep. Qed.
Lemma keeps_truncated reason calls id : keeps (filter_truncated_tool_calls reason calls id).
Proof using laws. unfold filter_truncated_tool_calls. keep. Qed.
Lemma keeps_memory b l memory : keeps (inject_memory b l memory).
Proof using laws. unfold inject_memory, prepare_memory_injection_message. keep. Qed.
Hint Resolve keeps_inject keeps_incomplete keeps_truncated keeps_memory : agent_keeps.

Lemma keeps_prepare b : keeps (prepare_request to_vec debug b).
Proof using laws. unfold prepare_request. keep. Qed.
Lemma keeps_response blocks text : keeps (add_response_message blocks text).
Proof using laws. unfold add_response_message. keep. Qed.
Lemma keeps_images images : keeps (add_images images).
Proof using Type. induction images; cbn [add_images]; keep. Qed.
Hint Resolve keeps_prepare keeps_response keeps_images : agent_keeps.
Lemma keeps_flush_images images : keeps (flush_images images).
Proof using laws. unfold flush_images. keep. Qed.
Lemma keeps_result tc content e : keeps (add_result tc content e).
Proof using Type. unfold add_result. keep. Qed.
Hint Resolve keeps_flush_images keeps_result : agent_keeps.
Lemma keeps_tools calls sdk : keeps (execute_tools sdk calls).
Proof using laws. revert sdk. induction calls; intros; cbn [execute_tools]; unfold execute_tool_call; keep. Qed.
Lemma keeps_skip reason calls : keeps (skip_tools reason calls).
Proof using Type. induction calls; cbn [skip_tools]; keep. Qed.
Hint Resolve keeps_tools keeps_skip : agent_keeps.
Lemma keeps_run_tool tc rest : keeps (run_tool tc rest).
Proof using laws. unfold run_tool, finish_tool, abort_tool, move_to_background. keep. Qed.
Hint Resolve keeps_run_tool : agent_keeps.
Lemma keeps_tools_mpsc calls first dirty sdk : keeps (execute_tools_mpsc first dirty sdk calls).
Proof using laws.
  revert first dirty sdk. induction calls; intros; cbn [execute_tools_mpsc]; unfold skip_for_interrupt; keep.
Qed.
Hint Resolve keeps_tools_mpsc : agent_keeps.

Lemma keeps_round c : keeps (turn_round to_vec debug parse_prefix c).
Proof using laws. unfold turn_round, after_response, with_tool_calls, no_tool_calls. keep. Qed.
Lemma keeps_round_mpsc n k : keeps (turn_round_mpsc to_vec debug parse_prefix n k).
Proof using laws.
  unfold turn_round_mpsc, after_response_mpsc, streaming_tool_calls, streaming_no_tool_calls, inject_after_tools, send_usage. keep.
Qed.
Hint Resolve keeps_round keeps_round_mpsc : agent_keeps.
Lemma keeps_loop fuel c : keeps (run_turn_loop to_vec debug parse_prefix fuel c).
Proof using laws. revert c. induction fuel; intros; cbn [run_turn_loop]; [by intros s|keep]. Qed.
Lemma keeps_loop_mpsc fuel n k : keeps (run_turn_loop_mpsc to_vec debug parse_prefix fuel n k).
Proof using laws. revert n k. induction fuel; intros; cbn [run_turn_loop_mpsc]; [by intros s|keep]. Qed.
Hint Resolve keeps_loop keeps_loop_mpsc : agent_keeps.

(** ** What can be done with an agent *)

Lemma keeps_finally {A} (m : M A) : keeps m → keeps (finally_clear_reminder m).
Proof using Type.
  intros H s Hs. specialize (H s Hs). unfold finally_clear_reminder. destruct (m s) as [x s'|e s'|s'|s']; try done;
    (eapply tracked_same; [|exact H]); by destruct s' as [[] ? ?].
Qed.

(** From a reset of the record on, the state before does not matter. *)
Definition restores {A} (m : M A) : Prop := ∀ s, tracked (end_of (m s)).
Lemma restores_reset {B} (k : unit → M B) : (∀ x, keeps (k x)) → restores (m_bind reset_tool_output_tracking k).
Proof using Type. intros Hk s. apply Hk, tracked_reset. by destruct s as [[] ? ?]. Qed.
Lemma restores_gets {A B} (f : Agent → A) (k : A → M B) : (∀ x, restores (k x)) → restores (m_bind (gets f) k).
Proof using Type. intros Hk s. apply Hk. Qed.
Lemma restores_modify {B} f (k : unit → M B) : (∀ x, restores (k x)) → restores (m_bind (modify f) k).
Proof using Type. intros Hk s. apply Hk. Qed.
Lemma restores_now {B} (k : DateTime → M B) : (∀ x, restores (k x)) → restores (m_bind now k).
Proof using Type. intros Hk s. apply Hk. Qed.
Lemma keeps_restores {A} (m : M A) : restores m → keeps m.
Proof using Type. intros H s _. apply H. Qed.

(** The turns, their rounds and the operations between them. *)
Inductive operation : ∀ {A : Type}, M A → Prop :=
| OpRun fuel message : operation (run_once_capture to_vec debug parse_prefix fuel message)
| OpRunStreamed fuel message images reminder :
    operation (run_once_streaming_mpsc to_vec debug parse_prefix fuel message images reminder)
| OpRound c : operation (turn_round to_vec debug parse_prefix c)
| OpRoundStreamed n k : operation (turn_round_mpsc to_vec debug parse_prefix n k)
| OpRewind targets index : operation (rewind_to_message targets index)
| OpUndo count : operation (undo_rewind count)
| OpAlert alert : operation (push_alert alert)
| OpManualUse id name input : operation (add_manual_tool_use id name input)
| OpManualResult id output d : operation (add_manual_tool_result id output d)
| OpManualError id error d : operation (add_manual_tool_error id error d)
| OpPoll : operation (poll_compaction_completion_event to_vec debug)
| OpSeed : operation seed_compaction_from_session.

(** An agent that was just made or given another session, the operations on it
    up to where they end, and what others do to the things it shares. *)
Inductive reachable : St → Prop :=
| ReachFresh s : tracking s = tracking_reset → reachable s
| ReachStep {A} (m : M A) s : operation m → reachable s → reachable (end_of (m s))
| ReachOthers a w w' l l' : reachable (mkSt a w l) → reachable (mkSt a w' l').

Lemma keeps_rewind targets index : keeps (rewind_to_message targets index).
Proof using laws.
  unfold rewind_to_message. destruct (if index =? 0 then None else targets !! (index - 1)) as [target|]; [|keep].
  apply keeps_restores, restores_gets. intros a. apply restores_modify. intros _. apply restores_modify. intros _.
  apply restores_now. intros time. apply restores_modify. intros _. apply restores_modify. intros _. apply restores_reset. keep.
Qed.
Lemma keeps_undo count : keeps (undo_rewind count).
Proof using laws.
  unfold undo_rewind. apply turn_keeps_bind; [keep|]. intros [snapshot|]; [|keep].
  apply keeps_restores, restores_modify. intros _. apply restores_modify. intros _.
  apply restores_now. intros time. apply restores_modify. intros _. apply restores_modify. intros _. apply restores_reset. keep.
Qed.

Lemma operation_keeps {A} (m : M A) : operation m → keeps m.
Proof using laws.
  intros [].
  - unfold run_once_capture, run_turn. keep.
  - unfold run_once_streaming_mpsc, run_turn_streaming_mpsc, take_alerts. keep. apply keeps_finally. keep.
  - keep.
  - keep.
  - apply keeps_rewind.
  - apply keeps_undo.
  - unfold push_alert. keep.
  - unfold add_manual_tool_use. keep.
  - unfold add_manual_tool_result. keep.
  - unfold add_manual_tool_error. keep.
  - keep.
  - keep.
Qed.
Lemma reachable_tracked s : reachable s → tracked s.
Proof using laws.
  induction 1 as [s H|A m s Ho _ IH|a w w' l l' _ IH]; [by apply tracked_reset|by apply operation_keeps|].
  by eapply tracked_same; [|exact IH].
Qed.

(** ** Requests *)

(** After the repair a request only adds messages without calls. *)
Definition answers {A} (m : M A) : Prop := ∀ s, answered (msgs s) → answered (msgs (end_of (m s))).
Lemma answers_silent {A} (m : M A) : silent m → answers m.
Proof using Type. intros H s. destruct (H s) as [Hs _]. unfold shapes in Hs. unfold answered. by rewrite Hs. Qed.
Lemma answers_bind {A B} (m : M A) (k : A → M B) : answers m → (∀ x, answers (k x)) → answers (m_bind m k).
Proof using Type.
  intros Hm Hk s Hs. unfold m_bind. specialize (Hm s Hs). destruct (m s); simpl in *; try done. by apply Hk.
Qed.
Lemma answers_add_user content r : answers (add_message_with_display_role User content r).
Proof using Type.
  intros s. destruct (add_stored_shapes User content None None r s) as [Hs _]. unfold shapes in Hs.
  unfold answered, add_message_with_display_role. rewrite Hs. intros H id. rewrite !bind_app, !elem_of_app.
  intros [?|Hu]; [left; by apply H|]. by apply elem_of_nil in Hu.
Qed.
Lemma answers_inject b l memory : answers (inject_memory b l memory).
Proof using laws.
  unfold inject_memory, prepare_memory_injection_message. destruct memory as [memory|]; [|by intros s].
  repeat (apply answers_bind; [|intros ?]); try (apply answers_silent; quiet; fail).
  { apply answers_silent. by apply silent_edit. }
  unfold m_when. case_match; [|by intros s].
  apply answers_bind; [apply answers_add_user|intros _; apply answers_silent; quiet].
Qed.
Lemma answers_prepare b s : tracked s → answered (msgs (end_of (prepare_request to_vec debug b s))).
Proof using laws.
  intros Ht. destruct (repair_spec s Ht) as (_ & _ & Ha & Ho). unfold prepare_request. unfold m_bind at 1.
  destruct (repair_missing_tool_outputs s) as [n s1|e s1|s1|s1]; simpl in Ha; try done.
  revert s1 Ha Ho. intros s1 Ha _. revert s1 Ha. match goal with |- ∀ s1, _ → answered (msgs (end_of (?m s1))) => change (answers m) end.
  repeat first [apply answers_bind; [|intros ?]|apply answers_inject|apply answers_silent; by quiet|case_match].
Qed.
End Turns.

(** ** Results of tools *)

Section Results.
Context {J : Json} {T : Chrono} {E : Embedder} {U : Unicode} {W : Type} {env : AgentEnv W} {laws : AgentLaws}.

#[local] Notation M := (@M J T W).
#[local] Notation St := (@St J T W).

(** The identifiers of the tool results of the transcript, in order. *)
Definition results (s : St) : list string := shapes s ≫= results_of.

(** [m] adds the results [f x] when it returns [x], and only results of [ids],
    in order, when it ends early. *)
Definition adds {A} (m : M A) (f : A → list string) (ids : list string) : Prop := ∀ s,
  match m s with
  | Done x s' => results s' = results s ++ f x
  | o => ∃ k, results (end_of o) = results s ++ take k ids
  end.
(** [m] adds no result. *)
Definition mute {A} (m : M A) : Prop := ∀ s, results (end_of (m s)) = results s.

Lemma mute_silent {A} (m : M A) : silent m → mute m.
Proof using Type. intros H s. destruct (H s) as [Hs _]. unfold results. by rewrite Hs. Qed.
Lemma mute_bind {A B} (m : M A) (k : A → M B) : mute m → (∀ x, mute (k x)) → mute (m_bind m k).
Proof using Type.
  intros Hm Hk s. unfold m_bind. specialize (Hm s). destruct (m s) as [x s'| | |]; simpl in *; try done. by rewrite Hk.
Qed.
Lemma mute_add role content d u r : result_ids content = [] → mute (add_stored role content d u r).
Proof using Type.
  intros Hc s. unfold results. rewrite (proj1 (add_stored_shapes role content d u r s)), bind_app. simpl.
  rewrite Hc. destruct role; by rewrite !app_nil_r.
Qed.

Lemma adds_mute {A} (m : M A) ids : mute m → adds m (λ _, []) ids.
Proof using Type.
  intros H s. specialize (H s). destruct (m s); simpl in *; [by rewrite app_nil_r|exists 0; by rewrite app_nil_r..].
Qed.
Lemma adds_bind {A B} (m : M A) (k : A → M B) f g ids : adds m f ids →
  (∀ x, ∃ h rest, ids = f x ++ rest ∧ adds (k x) h rest ∧ ∀ y, g y = f x ++ h y) → adds (m_bind m k) g ids.
Proof using Type.
  intros Hm Hk s. specialize (Hm s). unfold m_bind. destruct (m s) as [x s'| | |]; simpl in *; try done.
  destruct (Hk x) as (h & rest & -> & Hx & Hg). specialize (Hx s').
  destruct (k x s') as [y s2|e s2|s2|s2]; simpl in *; rewrite Hm in Hx; [by rewrite Hx, Hg, app_assoc|..];
    destruct Hx as [n ->]; exists (length (f x) + n); by rewrite firstn_app_2, app_assoc.
Qed.
Lemma adds_after {A B} (m : M A) (k : A → M B) g ids : mute m → (∀ x, adds (k x) g ids) → adds (m_bind m k) g ids.
Proof using Type.
  intros Hm Hk. eapply adds_bind; [by apply adds_mute|]. intros x. exists g, ids. split; [done|]. by split.
Qed.
(** One after the other. *)
Lemma adds_seq {A B} (m : M A) (k : A → M B) l ids : adds m (λ _, l) (l ++ ids) → (∀ x, adds (k x) (λ _, ids) ids) →
  adds (m_bind m k) (λ _, l ++ ids) (l ++ ids).
Proof using Type. intros Hm Hk. eapply adds_bind; [exact Hm|]. intros x. exists (λ _, ids), ids. auto. Qed.
Lemma adds_before {A B} (m : M A) (k : A → M B) l ids : adds m (λ _, l) (l ++ ids) → (∀ x, mute (k x)) →
  adds (m_bind m k) (λ _, l) (l ++ ids).
Proof using Type.
  intros Hm Hk. eapply adds_bind; [exact Hm|]. intros x. exists (λ _, []), ids. rewrite app_nil_r. auto using adds_mute.
Qed.
Lemma adds_all {A B} (m : M A) (k : A → M B) ids : adds m (λ _, ids) ids → (∀ x, mute (k x)) →
  adds (m_bind m k) (λ _, ids) ids.
Proof using Type.
  intros Hm Hk. eapply adds_bind; [exact Hm|]. intros x. exists (λ _, []), []. rewrite app_nil_r.
  auto using adds_mute, app_nil_r.
Qed.
Lemma adds_one id content d u r ids : result_ids content = [id] →
  adds (add_stored User content d u r) (λ _, [id]) ([id] ++ ids).
Proof using Type.
  intros Hc s. pose proof (proj1 (add_stored_shapes User content d u r s)) as Hs. rewrite Hc in Hs.
  assert (results (end_of (add_stored User content d u r s)) = results s ++ [id]) as H
    by (unfold results; by rewrite Hs, bind_app).
  destruct (add_stored _ _ _ _ _ s); simpl in *; [done|by exists 1..].
Qed.

(** ** The tools of a response *)

Lemma output_ids id output : result_ids (tool_output_to_content_blocks id output) = [id].
Proof using Type.
  unfold tool_output_to_content_blocks. change (id :: result_ids (to_images output ≫= image_blocks) = [id]). f_equal.
  induction (to_images output) as [|i l IH]; [done|]. unfold result_ids in *. rewrite bind_cons, omap_app, IH, app_nil_r.
  unfold image_blocks. by repeat case_match.
Qed.

Lemma adds_result tc c e ids : adds (add_result tc c e) (λ _, [tc_id tc]) (tc_id tc :: ids).
Proof using Type. apply (adds_before _ _ [tc_id tc]); [by apply adds_one|]. intros x s. done. Qed.
Lemma adds_skip reason calls : adds (skip_tools reason calls) (λ _, tc_id <$> calls) (tc_id <$> calls).
Proof using Type.
  induction calls as [|tc calls IH]; cbn [skip_tools]; [by apply adds_mute|].
  apply (adds_seq _ _ [tc_id tc]); [apply adds_result|]. done.
Qed.

Lemma mute_inject : mute inject_soft_interrupts.
Proof using laws.
  unfold inject_soft_interrupts. apply mute_bind; [apply mute_silent; quiet|]. intros [|m l]; [by intros s|].
  apply mute_bind; [|intros; apply mute_silent; quiet].
  assert (∀ injected source parts, mute (flush_group injected source parts)) as Hf.
  { intros ? ? [|p ps]; [by intros s|]. unfold flush_group. apply mute_bind; [by apply mute_add|]. by intros x s. }
  generalize (@None SoftInterruptSource), (@nil string), (@nil InjectedSoftInterrupt). generalize (m :: l). clear m l.
  intros l. induction l as [|m l IH]; intros current parts injected; cbn [inject_loop].
  - destruct current; [apply Hf|by intros s].
  - repeat case_match; try apply IH. apply mute_bind; [apply Hf|]. intros; apply IH.
Qed.

(** What one tool leaves to the others. *)
Definition ran_ids (tc : ToolCall) (rest : list ToolCall) (ran : Ran) : list string :=
  match ran with Goes _ => [tc_id tc] | Leaves => tc_id tc :: (tc_id <$> rest) end.

Lemma adds_finish tc r d ids : adds (finish_tool tc r d) (λ _, [tc_id tc]) (tc_id tc :: ids).
Proof using Type.
  unfold finish_tool. destruct r; (apply adds_after; [by intros s|intros _]); apply (adds_before _ _ [tc_id tc]);
    try (apply adds_one; apply output_ids || done); by intros ? s.
Qed.
Lemma adds_abort tc rest d secs :
  adds (abort_tool tc rest d secs) (λ _, tc_id tc :: (tc_id <$> rest)) (tc_id tc :: (tc_id <$> rest)).
Proof using laws.
  unfold abort_tool. destruct (shutdown_interrupted_tool_result tc secs) as [message is_error].
  apply adds_after; [by intros s|]. intros _. apply (adds_seq _ _ [tc_id tc]); [by apply adds_one|]. intros _.
  apply adds_after; [apply mute_silent; quiet|]. intros _.
  apply adds_all; [apply adds_skip|]. intros _. apply mute_silent. quiet.
Qed.
Lemma adds_background tc d ids : adds (move_to_background tc d) (λ _, [tc_id tc]) (tc_id tc :: ids).
Proof using laws.
  unfold move_to_background. apply adds_after; [apply mute_silent; quiet|]. intros task. apply adds_after; [by intros s|].
  intros _. apply (adds_before _ _ [tc_id tc]); [by apply adds_one|]. intros _. apply mute_silent. quiet.
Qed.
(** The value of a tool that ran, from the results it added. *)
Lemma adds_run {A} (m : M A) ran tc rest ids : adds m (λ _, ran_ids tc rest ran) ids → ids = tc_id tc :: (tc_id <$> rest) →
  adds (m ;! m_ret ran)%agent (ran_ids tc rest) ids.
Proof using Type.
  intros Hm -> s. specialize (Hm s). unfold m_bind. by destruct (m s).
Qed.
Lemma adds_run_tool tc rest : adds (run_tool tc rest) (ran_ids tc rest) (tc_id tc :: (tc_id <$> rest)).
Proof using laws.
  unfold run_tool. apply adds_after; [apply mute_silent; quiet|]. intros [outcome [ms secs]].
  apply adds_after; [apply mute_silent; quiet|]. intros result. apply adds_after; [apply mute_silent; quiet|]. intros _.
  destruct result as [r|]; [apply adds_run; [apply adds_finish|done]|].
  apply adds_after; [apply mute_silent; quiet|]. intros [].
  - apply adds_run; [apply adds_abort|done].
  - apply adds_run; [apply adds_background|done].
Qed.

Lemma mute_interrupt_text n events :
  mute (send_all events ;! (let! _ := add_message User [Text ("[User interrupted: " +:+ pretty (n : nat) +:+ " remaining tool(s) skipped]") None] in m_ret tt))%agent.
Proof using Type.
  apply mute_bind; [apply mute_silent; quiet|]. intros _. apply mute_bind; [by apply mute_add|]. by intros ? s.
Qed.
Lemma adds_interrupted calls : adds (skip_for_interrupt calls) (λ _, tc_id <$> calls) (tc_id <$> calls).
Proof using laws.
  unfold skip_for_interrupt. apply adds_all; [apply adds_skip|]. intros _. apply mute_bind; [apply mute_inject|].
  intros injected. apply mute_bind; [destruct injected; [by intros s|apply mute_interrupt_text]|].
  intros _. apply mute_silent. quiet.
Qed.

Lemma adds_tools_mpsc calls first dirty sdk :
  adds (execute_tools_mpsc first dirty sdk calls) (λ _, tc_id <$> calls) (tc_id <$> calls).
Proof using laws.
  revert first dirty sdk. induction calls as [|tc calls IH]; intros first dirty sdk; cbn [execute_tools_mpsc].
  { by apply adds_mute. }
  apply adds_after; [apply mute_silent; quiet|]. intros [].
  { apply adds_all; [apply adds_interrupted|]. by intros ? s. }
  destruct (validation_error tc) as [error|].
  { apply adds_after; [by intros s|]. intros _. apply (adds_seq _ _ [tc_id tc]); [apply adds_result|]. intros _. apply IH. }
  apply adds_after; [apply mute_silent; quiet|]. intros _. destruct (usable_result sdk tc) as [[content is_error]|].
  { apply (adds_seq _ _ [tc_id tc]); [apply adds_result|]. intros _. apply IH. }
  eapply adds_bind; [apply adds_run_tool|]. intros [d|].
  - exists (λ _, tc_id <$> calls), (tc_id <$> calls). split; [done|]. split; [apply IH|done].
  - exists (λ _, []), []. rewrite app_nil_r. split; [done|]. split; [by apply adds_mute|]. done.
Qed.
Lemma adds_tools calls sdk : adds (execute_tools sdk calls) (λ _, tc_id <$> calls) (tc_id <$> calls).
Proof using laws.
  revert sdk. induction calls as [|tc calls IH]; intros sdk; cbn [execute_tools]; [by apply adds_mute|].
  destruct (validation_error tc) as [error|].
  { apply (adds_seq _ _ [tc_id tc]); [apply adds_result|]. intros _. apply IH. }
  apply adds_after; [apply mute_silent; quiet|]. intros _. apply (adds_seq _ _ [tc_id tc]); [|intros _; apply IH].
  destruct (usable_result sdk tc) as [[content is_error]|]; [apply adds_result|].
  unfold execute_tool_call. apply adds_after; [apply mute_silent; quiet|]. intros [r d].
  apply adds_after; [apply mute_silent; quiet|]. intros _. destruct r; apply (adds_before _ _ [tc_id tc]);
    try (apply adds_one; apply output_ids || done); by intros ? s.
Qed.
End Results.

(** ** The end of a turn *)

Create HintDb agent_settles.

Section Settles.
Context {J : Json} {T : Chrono} {E : Embedder} {U : Unicode} {W : Type} {env : AgentEnv W}.

#[local] Notation M := (@M J T W).

(** [m] is never out of fuel, and what it returns satisfies [Q]. *)
Definition settles {A} (m : M A) (Q : A → Prop) : Prop := ∀ s,
  match m s with Done x _ => Q x | Spins _ => False | _ => True end.

Lemma settles_bind {A B} (m : M A) (k : A → M B) P Q : settles m P → (∀ x, P x → settles (k x) Q) → settles (m_bind m k) Q.
Proof using Type. intros Hm Hk s. unfold m_bind. specialize (Hm s). destruct (m s); try done. by apply Hk. Qed.
Lemma settles_weaken {A} (m : M A) (P Q : A → Prop) : settles m P → (∀ x, P x → Q x) → settles m Q.
Proof using Type. intros Hm H s. specialize (Hm s). destruct (m s); auto. Qed.
Lemma settles_any {A B} (m : M A) (k : A → M B) Q :
  settles m (λ _, True) → (∀ x, settles (k x) Q) → settles (m_bind m k) Q.
Proof using Type. intros Hm Hk. by eapply settles_bind. Qed.
Lemma settles_ret {A} (x : A) (Q : A → Prop) : Q x → settles (m_ret x) Q.
Proof using Type. by intros H s. Qed.
Lemma settles_err {A} e (Q : A → Prop) : settles (m_err e) Q.
Proof using Type. by intros s. Qed.
Lemma settles_die {A} (Q : A → Prop) : settles m_die Q.
Proof using Type. by intros s. Qed.
Lemma settles_gets {A} (f : Agent → A) : settles (gets f) (λ _, True).
Proof using Type. by intros s. Qed.
Lemma settles_modify f : settles (modify f) (λ _, True).
Proof using Type. by intros s. Qed.
Lemma settles_ask {A} (f : W → A * W) : settles (ask f) (λ _, True).
Proof using Type. intros s. unfold ask. by destruct (f _). Qed.
Lemma settles_send e : settles (send e) (λ _, True).
Proof using Type. by intros s. Qed.
Lemma settles_now : settles now (λ _, True).
Proof using Type. by intros s. Qed.
Lemma settles_provider : settles provider (λ _, True).
Proof using Type. by intros s. Qed.
Lemma settles_save : settles save (λ _, True).
Proof using Type. intros s. unfold save. by destruct (env_save _ _) as [[[] ]|]. Qed.
End Settles.

#[export] Hint Resolve settles_gets settles_modify settles_ask settles_send settles_now settles_provider settles_save : agent_settles.

Ltac settle :=
  repeat match goal with
    | |- settles (m_bind _ _) _ => apply settles_any; [|intros ?]
    | |- settles (m_ret _) _ => apply settles_ret
    | |- settles (m_err _) _ => apply settles_err
    | |- settles m_die _ => apply settles_die
    | |- settles (let '_ := ?x in _) _ => destruct x eqn:?
    | |- settles (match ?x with _ => _ end) _ => destruct x eqn:?
    | |- settles (m_when ?b _) _ => destruct b; unfold m_when
    | |- _ => progress intros
    | |- settles _ _ => solve [auto with agent_settles nocore]
    | |- True => exact I
    end.

Section Rounds.
Context {J : Json} {T : Chrono} {E : Embedder} {U : Unicode} {W : Type} {env : AgentEnv W}.
Context (to_vec : Message → option (list N)) (debug : Message → list N).
Context (parse_prefix : string → option (Value * nat)).

#[local] Notation M := (@M J T W).
#[local] Notation settles m := (@settles J T W _ m).

Lemma settles_save_or_err : settles save_or_err (λ _, True).
Proof using Type. unfold save_or_err. settle. Qed.
Lemma settles_persist : settles persist_session_best_effort (λ _, True).
Proof using Type. unfold persist_session_best_effort. settle. Qed.
Lemma settles_add role content d u r : settles (add_stored role content d u r) (λ _, True).
Proof using Type. unfold add_stored, notify_manager, put_manager, edit_session. settle. Qed.
Hint Resolve settles_save_or_err settles_persist settles_add : agent_settles.
Lemma settles_insert_missing ids i : settles (insert_missing i ids) (λ _, True).
Proof using Type. revert i. induction ids; intros; cbn [insert_missing]; settle. Qed.
Hint Resolve settles_insert_missing : agent_settles.
Lemma settles_insert_repairs repairs n : settles (insert_repairs n repairs) (λ _, True).
Proof using Type. revert n. induction repairs; intros; cbn [insert_repairs]; settle. Qed.
Hint Resolve settles_insert_repairs : agent_settles.
Lemma settles_repair : settles repair_missing_tool_outputs (λ _, True).
Proof using Type. unfold repair_missing_tool_outputs. settle. Qed.
Lemma settles_sync m : settles (sync_session_compaction_state_from_manager m) (λ _, True).
Proof using Type. unfold sync_session_compaction_state_from_manager. settle. Qed.
Lemma settles_provider_messages : settles (session_provider_messages to_vec debug) (λ _, True).
Proof using Type. unfold session_provider_messages. settle. Qed.
Hint Resolve settles_repair settles_sync settles_provider_messages : agent_settles.
Lemma settles_messages : settles (messages_for_provider to_vec debug) (λ _, True).
Proof using Type. unfold messages_for_provider, put_manager, note_compaction_applied. settle. Qed.
Hint Resolve settles_messages : agent_settles.
Lemma settles_prepare b : settles (prepare_request to_vec debug b) (λ _, True).
Proof using Type.
  unfold prepare_request, tool_definitions, registry_has_new_mcp_tools, lock_tools, build_filtered_tool_definitions,
    build_memory_prompt_nonblocking_shared, inject_memory, record_memory_injection_in_session,
    prepare_memory_injection_message, add_message_with_display_role, edit_session. settle.
Qed.
Lemma settles_auto_compact error : settles (try_auto_compact_after_context_limit to_vec debug error) (λ _, True).
Proof using Type.
  unfold try_auto_compact_after_context_limit, try_recover_oversized_openai_native_compaction,
    try_recover_after_payload_too_large, hard_compact_for_limit, put_manager. settle.
Qed.
Hint Resolve settles_prepare settles_auto_compact : agent_settles.

(** *** A provider without tools *)

(** Errors after which the agent shrinks the conversation and asks again. *)
Definition recoverable_error (error : string) : bool :=
  is_openai_encrypted_content_too_large_error error || is_request_payload_too_large_error error || is_context_limit_error error.

Lemma settles_hopeless error :
  recoverable_error error = false → settles (try_auto_compact_after_context_limit to_vec debug error) (λ recovered, recovered = false).
Proof using Type.
  intros [[H1 H2]%orb_false_iff H3]%orb_false_iff. unfold try_auto_compact_after_context_limit, try_recover_after_payload_too_large.
  rewrite H1, H2, H3. by intros s.
Qed.

(** Part of a reply that calls no tool, attaches no image and, if it fails, does
    so with an error that is not recovered from. *)
Definition quiet_item (item : StreamItem) : bool :=
  match item with
  | Arrives (ToolUseStart _ _) | Arrives (GeneratedImage _ _ _ _ _) => false
  | Arrives (EvError message _) => negb (recoverable_error message)
  | StreamBroken e => negb (recoverable_error e)
  | _ => true
  end.
Definition item_text (item : StreamItem) : string := match item with Arrives (TextDelta t) => t | _ => "" end.
Fixpoint texts (items : list StreamItem) : string := match items with [] => "" | i :: l => item_text i +:+ texts l end.
(** Nor does its text hide a call. *)
Definition quiet_reply (items : list StreamItem) : Prop :=
  forallb quiet_item items = true ∧ str_find WRAP_MARKER (texts items) = None.

(** A response without calls and images. *)
Definition plain (r : Response) : Prop := rp_calls r = [] ∧ rp_current r = None ∧ rp_images r = [].

Definition plain_as (r r' : Response) : Prop := plain r' ∧ rp_text r' = rp_text r.

Lemma settles_usage i o cr cc r : plain r → settles (usage_event i o cr cc r) (plain_as r).
Proof using to_vec debug env.
  intros Hr. unfold usage_event, note_usage. destruct (rp_usage r) as [[[ui uo] ucr] ucc]. set (r' := rp_set_usage _ r).
  assert (plain_as r r') by (by destruct r). clearbody r'. destruct (rp_usage r') as [[[ui' uo'] ucr'] ucc'].
  unfold update_compaction_usage_from_stream, put_manager. by settle.
Qed.
Lemma settles_compaction encrypted r : plain r → settles (compaction_event encrypted r) (plain_as r).
Proof using to_vec debug env. intros Hr. unfold compaction_event. settle. repeat case_match; by destruct r. Qed.

Lemma settles_gives_up {A} n message error (k : nat → M A) (Q : A → Prop) :
  negb (recoverable_error message) = true → settles (m_bind (retry_or_err to_vec debug n message error) k) Q.
Proof using Type.
  intros H%negb_true_iff. eapply (settles_bind _ _ (λ _, False)); [|done]. unfold retry_or_err.
  eapply settles_bind; [by apply settles_hopeless|]. intros ? ->. apply settles_err.
Qed.

Definition read_on (r : Response) (text : string) (flow : Flow) : Prop :=
  ∃ r', (flow = Reading r' ∨ flow = Stopped r') ∧ plain r' ∧ (rp_text r' = rp_text r +:+ text ∨ rp_text r' = "").
Lemma read_on_plain r r' flow : plain_as r r' → flow = Reading r' ∨ flow = Stopped r' → read_on r "" flow.
Proof using Type. intros [H1 H2] H. exists r'. rewrite append_nil_r_s. auto. Qed.

Lemma settles_event store n event r : quiet_item (Arrives event) = true → plain r →
  settles (stream_event to_vec debug store n event r) (read_on r (item_text (Arrives event))).
Proof using Type.
  intros Hq Hr. assert (∀ r', plain_as r r' → read_on r "" (Reading r')) as Hread by (intros r' H; eapply read_on_plain; eauto).
  assert (∀ f, f = Reading r ∨ f = Stopped r → read_on r "" f) as Hsame by (intros f H; by eapply read_on_plain).
  destruct event; try discriminate Hq; cbn [stream_event item_text];
    try (apply settles_ret, Hread; try destruct store; destruct r; by destruct Hr as (? & ? & ?); simpl in *; subst);
    try by apply settles_gives_up.
  - apply settles_ret. exists (rp_set_text (rp_text r +:+ text) r). destruct r; simpl; auto.
  - apply settles_ret. exists (rolled_back r). split; [by left|]. split; [done|by right].
  - eapply settles_bind; [by apply settles_usage|]. intros r' Hr'. by apply settles_ret, Hread.
  - apply settles_any; [by intros s|]. intros _. apply settles_ret, Hsame. destruct (rp_saw_end r); auto.
  - eapply settles_bind; [by apply settles_compaction|]. intros r' Hr'. by apply settles_ret, Hread.
Qed.

(** The text of a response is part of what was read. *)
Lemma settles_read store n items base r : forallb quiet_item items = true → plain r → (∃ a, base = a +:+ rp_text r) →
  settles (read_stream to_vec debug store n items r)
    (λ flow, ∃ r' a b, flow = Stopped r' ∧ plain r' ∧ base +:+ texts items = (a +:+ rp_text r') +:+ b).
Proof using Type.
  revert base r. induction items as [|item items IH]; intros base r Hq Hr (a & Ha); cbn [read_stream texts].
  { apply settles_ret. exists r, a, "". rewrite append_nil_r_s, Ha. by rewrite append_nil_r_s. }
  cbn [forallb] in Hq. apply andb_true_iff in Hq as [Hq Hqs]. destruct item as [event|e|]; [|by apply settles_gives_up|].
  2: { specialize (IH base r Hqs Hr). cbn [item_text]. apply IH. eauto. }
  eapply settles_bind; [by apply settles_event|]. intros flow (r' & Hf & Hr' & Ht).
  assert (∃ a', base +:+ item_text (Arrives event) = a' +:+ rp_text r') as [a' Ha'].
  { destruct Ht as [-> | ->]; [exists a; by rewrite Ha, append_assoc_s|eexists; by rewrite append_nil_r_s]. }
  destruct Hf as [-> | ->].
  - specialize (IH (base +:+ item_text (Arrives event)) r' Hqs Hr'). rewrite <- append_assoc_s. apply IH. eauto.
  - apply settles_ret. exists r', a', (texts items). by rewrite <- append_assoc_s, Ha'.
Qed.

Lemma no_marker_inside (pat a t b : string) : pat ≠ "" → str_find pat ((a +:+ t) +:+ b) = None → str_find pat t = None.
Proof using Type.
  intros Hp H. apply str_find_None_append in H. destruct (str_find pat t) as [n|] eqn:Hn; [|done].
  destruct (str_find_Some _ _ _ Hn) as (post & Ht & _). rewrite Ht, <- append_assoc_s in H.
  destruct (str_find_first pat (a +:+ str_take n t) post) as (k & Hk & _). congruence.
Qed.

(** ** The rounds of a turn without tools *)

(** How many rounds are left: every continuation is counted, and up to five
    failed requests before each. *)
Definition rounds_left (c : Counters) : nat :=
  6 * ((MAX_INCOMPLETE_CONTINUATION_ATTEMPTS - ct_incomplete c) + (MAX_EMPTY_POST_TOOL_CONTINUATION_ATTEMPTS - ct_empty_post_tool c))
  + (6 - ct_retries c).
Definition round_counts (c : Counters) (next : Next) : Prop :=
  match next with Finish _ => True | Again c' => ct_retries c' ≤ MAX_CONTEXT_LIMIT_RETRIES ∧ rounds_left c' < rounds_left c end.

Lemma settles_retry n message error :
  settles (retry_or_err to_vec debug n message error) (λ k, k = S n ∧ S n ≤ MAX_CONTEXT_LIMIT_RETRIES).
Proof using Type.
  unfold retry_or_err. apply settles_any; [apply settles_auto_compact|]. intros []; [|apply settles_err].
  destruct (Nat.ltb_spec MAX_CONTEXT_LIMIT_RETRIES (S n)); [apply settles_err|]. by apply settles_ret.
Qed.

Lemma settles_incomplete reason n : settles (maybe_continue_incomplete_response reason n)
  (λ '(again, n'), if again : bool then n' = S n ∧ n < MAX_INCOMPLETE_CONTINUATION_ATTEMPTS else True).
Proof using to_vec debug.
  unfold maybe_continue_incomplete_response. destruct (non_empty_reason reason); [|by apply settles_ret].
  destruct (negb _); [by apply settles_ret|].
  destruct (Nat.leb_spec MAX_INCOMPLETE_CONTINUATION_ATTEMPTS n); [by apply settles_ret|]. unfold add_message. by settle.
Qed.

Lemma settles_no_tool_calls c after_tools text blank r : ct_retries c = 0 →
  settles (no_tool_calls c after_tools text blank r)
    (λ next, match next with Finish _ => True | Again c' => ct_retries c' = 0 ∧ rounds_left c' + 6 ≤ rounds_left c end).
Proof using to_vec debug.
  intros Hc. unfold no_tool_calls. destruct (_ && _) eqn:Hb.
  - apply andb_true_iff in Hb as [_ Hb%Nat.ltb_lt]. unfold add_message. settle. simpl. split; [done|].
    unfold rounds_left. cbn [ct_incomplete ct_empty_post_tool ct_retries]. lia.
  - eapply settles_bind; [apply settles_incomplete|]. intros [again n] Hn. destruct again; apply settles_ret; [|done].
    destruct Hn as [-> Hn]. simpl. split; [done|]. unfold rounds_left. cbn [ct_incomplete ct_empty_post_tool ct_retries]. lia.
Qed.

Lemma settles_recover text : str_find WRAP_MARKER text = None →
  settles (recover_text_wrapped_tool_call parse_prefix text []) (λ '(_, calls), calls = []).
Proof using Type.
  intros H. unfold recover_text_wrapped_tool_call, parse_wrapped_call. rewrite H. destruct (str_is_empty _); by apply settles_ret.
Qed.
Lemma settles_truncated reason id : settles (filter_truncated_tool_calls reason [] id) (λ calls, calls = []).
Proof using Type. unfold filter_truncated_tool_calls. destruct (negb _), id; by apply settles_ret. Qed.

Lemma settles_after c after_tools name store r : ct_retries c = 0 → plain r → str_find WRAP_MARKER (rp_text r) = None →
  settles (after_response parse_prefix c after_tools name store r)
    (λ next, match next with Finish _ => True | Again c' => ct_retries c' = 0 ∧ rounds_left c' + 6 ≤ rounds_left c end).
Proof using to_vec debug.
  intros Hc (H1 & _ & H3) Ht. unfold after_response. rewrite H1, H3. apply settles_any; [apply settles_modify|]. intros _.
  eapply settles_bind; [by apply settles_recover|]. intros [text calls] ->.
  apply settles_any.
  { unfold add_response_message, add_message_ext, push_embedding_snapshot_if_semantic, put_manager. settle. }
  intros id. apply settles_any; [unfold apply_openai_native_compaction, put_manager; settle|]. intros _.
  eapply settles_bind; [apply settles_truncated|]. intros calls ->. by apply settles_no_tool_calls.
Qed.

Section Quiet.
(** The provider never asks for a tool. *)
Context (quiet_provider : ∀ request w, match (env_complete request w).1 with Ok items => quiet_reply items | Err _ => True end).

Lemma settles_complete request : settles (ask (env_complete request))
  (λ answer, match answer with Ok items => quiet_reply items | Err _ => True end).
Proof using quiet_provider.
  intros s. unfold ask. specialize (quiet_provider request (st_world s)). by destruct (env_complete request (st_world s)).
Qed.

Lemma settles_round c : ct_retries c ≤ MAX_CONTEXT_LIMIT_RETRIES → settles (turn_round to_vec debug parse_prefix c) (round_counts c).
Proof using quiet_provider.
  intros Hc. unfold turn_round. apply settles_any; [apply settles_prepare|]. intros request.
  eapply settles_bind; [apply settles_complete|]. intros [items|e] Hq.
  - apply settles_any; [apply settles_provider|]. intros v. destruct Hq as [Hq Ht].
    eapply settles_bind; [by apply (settles_read _ _ _ ""); [|done|exists ""]|]. intros flow (r & a & b & -> & Hr & He).
    eapply settles_weaken; [apply settles_after; [done|exact Hr|]|].
    + change ("" +:+ texts items) with (texts items) in He. rewrite He in Ht. by apply no_marker_inside in Ht.
    + intros [c'|text]; [|done]. intros [H1 H2]. unfold round_counts, rounds_left in *. simpl in *. rewrite H1. split; [lia|].
      unfold MAX_CONTEXT_LIMIT_RETRIES in Hc. lia.
  - eapply settles_bind; [apply settles_retry|]. intros k [-> Hk]. apply settles_ret. simpl. split; [done|].
    unfold rounds_left. simpl. unfold MAX_CONTEXT_LIMIT_RETRIES in *. lia.
Qed.

Lemma settles_loop fuel c : ct_retries c ≤ MAX_CONTEXT_LIMIT_RETRIES → rounds_left c ≤ fuel →
  settles (run_turn_loop to_vec debug parse_prefix fuel c) (λ _, True).
Proof using quiet_provider.
  revert c. induction fuel as [|fuel IH]; intros c Hc Hf; cbn [run_turn_loop].
  { unfold rounds_left, MAX_CONTEXT_LIMIT_RETRIES in *. lia. }
  eapply settles_bind; [by apply settles_round|]. intros [c'|text]; [|by intros; apply settles_ret].
  intros [H1 H2]. apply IH; [done|lia].
Qed.
End Quiet.
End Rounds.

(** ** Claims *)

Section Claims.
Context {J : Json} {T : Chrono} {E : Embedder} {U : Unicode} {W : Type} {env : AgentEnv W}.
Context (to_vec : Message → option (list N)) (debug : Message → list N).
Context (parse_prefix : string → option (Value * nat)).

#[local] Notation St := (@St J T W).

(** C11: Every request has all results.  Whatever an agent has gone through, turns
    that failed half way, rewinding and undoing included, when a request has been
    prepared every tool call of the assistant in the transcript has a tool
    result. *)
Theorem every_request_has_all_results (laws : AgentLaws) (s s' : St) (streamed : bool) (request : Request) :
  reachable to_vec debug parse_prefix s → prepare_request to_vec debug streamed s = Done request s' → answered (msgs s').
Proof using Type.
  intros Hs Hp. pose proof (answers_prepare to_vec debug streamed s (reachable_tracked to_vec debug parse_prefix s Hs)) as H.
  by rewrite Hp in H.
Qed.

(** C16: The incremental repair is a full one.  The agent scans only the messages
    since its last scan; the transcript it leaves is the one of a repair that
    looks at everything: each message as it was, followed by an error result for
    each of its calls without a result, in order.  The repair never indexes past
    the end: only saving the session can stop it. *)
Theorem repair_equals_full_scan (laws : AgentLaws) (s : St) :
  reachable to_vec debug parse_prefix s →
  view <$> msgs (end_of (repair_missing_tool_outputs s)) = repaired_transcript (view <$> msgs s)
  ∧ match repair_missing_tool_outputs s with
    | Done n _ => n = length (all_unanswered (all_results (view <$> msgs s)) (msgs s))
    | Dies _ => ∃ session w, env_save session w = None
    | _ => False
    end.
Proof using Type.
  intros Hs. destruct (repair_spec s (reachable_tracked to_vec debug parse_prefix s Hs)) as (H1 & _ & _ & H2). done.
Qed.

(** C15: One result for each call, in order.  In both loops, executing the tools of
    a response adds exactly one result for each call, in the order of the calls,
    whether a tool returns, fails, is refused as invalid, was run by the provider,
    is moved to the background, is skipped for an urgent interrupt or is cut off
    by a shutdown; and when the turn ends with an error, a part of them from the
    start. *)
Theorem tools_answered_in_order (laws : AgentLaws) (sdk : gmap string (string * bool)) (calls : list ToolCall) :
  (∀ first dirty, adds (execute_tools_mpsc first dirty sdk calls) (λ _, tc_id <$> calls) (tc_id <$> calls))
  ∧ adds (execute_tools sdk calls) (λ _, tc_id <$> calls) (tc_id <$> calls).
Proof using Type. split; [intros first dirty; apply adds_tools_mpsc|apply adds_tools]. Qed.

(** C22: A turn without tools ends.  Let the provider's replies ask for no tool,
    attach no image and hold no [to=functions.] marker, which a call can hide
    behind in the text, and let a reply that fails while it is being read fail
    with an error that is not one of the recoverable ones (context limit, payload
    or encrypted content too large).  A request may fail in any way when it is
    opened.  Then a turn of the blocking loop ends after at most 30 requests.
    (The bound: one answer, three continuations of incomplete answers and one of
    an empty one, and before each of them five requests that failed at the context
    limit.  A recoverable failure inside a reply is excluded because the retry
    counter starts again whenever a reply is opened.) *)
Theorem turn_without_tools_ends (s s' : St) (fuel : nat) :
  (∀ request w, match (env_complete request w).1 with Ok items => quiet_reply items | Err _ => True end) →
  30 ≤ fuel → run_turn to_vec debug parse_prefix fuel s ≠ Spins s'.
Proof using Type.
  intros Hq Hf H. assert (settles (run_turn to_vec debug parse_prefix fuel) (λ _, True)) as Hs
    by (apply settles_loop; [exact Hq|unfold MAX_CONTEXT_LIMIT_RETRIES; simpl; lia|exact Hf]).
  specialize (Hs s). by rewrite H in Hs.
Qed.
End Claims.

(** ** A small world for the witnesses *)

Definition demo_settings : Settings := mkSettings false false true true config_default.
Definition demo_view : ProviderView := mkView "demo" "Demo" "demo-1" false false 200000 false false.

(** The world counts; the provider always gives the same reply, tools echo. *)
Definition demo_agent_env (reply : list (@StreamItem text_json)) : @AgentEnv text_json tick_chrono nat :=
  {| env_settings := demo_settings;
     env_now := λ w, (N.of_nat w : @DateTime tick_chrono);
     env_new_id := λ kind w, ((kind +:+ "_" +:+ pretty w)%string, S w);
     env_save := λ session w, Some (session, Ok tt, w);
     env_try_write := λ w, (None, w);
     env_put := λ _ w, w;
     env_task_outcome := λ w, (None, w);
     env_peek_queue := λ w, ([], w);
     env_drain_queue := λ w, ([], w);
     env_shutdown := λ w, (false, w);
     env_provider := λ _, demo_view;
     env_complete := λ _ w, (Ok reply, w);
     env_stopped_opening := λ w, (false, w);
     env_execute := λ name _ w, (Ok {| to_output := name; to_title := None; to_metadata := None; to_images := [] |}, 1%N, w);
     env_wait_tool := λ name _ w,
       (ToolReturned (Ok {| to_output := name; to_title := None; to_metadata := None; to_images := [] |}), (1%N, "0.0"%string), w);
     env_adopt := λ _ w, ("task"%string, w);
     env_native_call := λ _ _ _ w, w;
     env_definitions := λ _ w, ([], w);
     env_tool_names := λ w, ([], w);
     env_take_pending_memory := λ _ w, (None, w);
     env_system_prompt := λ _ _ w, (mkSplit "" "", w);
     env_image_payload := λ _ _, None |}.

#[local] Existing Instance demo_embedder.
#[local] Existing Instance demo_unicode.
#[local] Instance demo_agent_laws reply : @AgentLaws _ _ _ (demo_agent_env reply).
Proof. constructor. simpl. by intros ? ? ? ? ? [= <- _ _]. Defined.

Definition demo_input : @Value text_json := "{}"%string.
Definition demo_call (id : string) : @ToolCall text_json := mkToolCall id "read" demo_input None None.
Definition demo_stored (role : Role) (content : list (@ContentBlock text_json)) : @StoredMessage text_json tick_chrono :=
  mkStoredMessage "m" role content None None None None.

(** A transcript with two calls and one result. *)
Definition demo_transcript : list (@StoredMessage text_json tick_chrono) :=
  [demo_stored User [Text "hello" None];
   demo_stored Assistant [ToolUse "a" "read" demo_input None; ToolUse "b" "read" demo_input None];
   demo_stored User [ToolResult "a" "done" None]].
Definition demo_agent (messages : list (@StoredMessage text_json tick_chrono)) : @Agent text_json tick_chrono :=
  mkAgent (replace_messages messages (create_with_id "session" None None (0%N : @DateTime tick_chrono) 1 None false)) None None ∅ None None None None
    [] None tracking_reset usage_default None false false None.
Definition demo_st : @St text_json tick_chrono nat := mkSt (demo_agent demo_transcript) 0 [].

Lemma every_request_has_all_results_witness :
  ∃ request s', @prepare_request _ _ _ _ _ (demo_agent_env []) (λ _, None) (λ _, []) true demo_st = Done request s'
    ∧ answered (msgs s') ∧ length (msgs s') = 4.
Proof.
  eexists _, _. split; [vm_compute; reflexivity|]. split; [|vm_compute; reflexivity].
  eapply (@every_request_has_all_results _ _ _ _ _ (demo_agent_env []) (λ _, None) (λ _, []) (λ _, None)
            (demo_agent_laws []) demo_st _ true); [|vm_compute; reflexivity].
  apply ReachFresh. reflexivity.
Defined.

Lemma repair_equals_full_scan_witness :
  (view <$> msgs (end_of (@repair_missing_tool_outputs _ _ _ (demo_agent_env []) demo_st)))
  = [(User, [Text "hello" None]);
     (Assistant, [ToolUse "a" "read" demo_input None; ToolUse "b" "read" demo_input None]);
     synthetic "b";
     (User, [ToolResult "a" "done" None])].
Proof.
  destruct (@repair_equals_full_scan _ _ _ _ _ (demo_agent_env []) (λ _, None) (λ _, []) (λ _, None) (demo_agent_laws []) demo_st
              (ReachFresh _ _ _ demo_st eq_refl)) as [H _].
  rewrite H. reflexivity.
Defined.

Lemma tools_answered_in_order_witness :
  results (end_of (@execute_tools_mpsc _ _ _ (demo_agent_env []) true false ∅ [demo_call "x"; demo_call "y"] demo_st)) = ["a"; "x"; "y"]%string.
Proof.
  pose proof (@tools_answered_in_order _ _ _ (demo_agent_env []) (demo_agent_laws []) ∅ [demo_call "x"; demo_call "y"]) as [H _].
  specialize (H true false demo_st). revert H. vm_compute. done.
Defined.

Definition demo_reply : list (@StreamItem text_json) :=
  [Arrives (TextDelta "hello"); Arrives (MessageEnd (Some "max_tokens"%string))].
Lemma turn_without_tools_ends_witness :
  (∀ s', @run_turn _ _ _ _ _ (demo_agent_env demo_reply) (λ _, None) (λ _, []) (λ _, None) 30 demo_st ≠ Spins s')
  ∧ quiet_reply demo_reply.
Proof.
  split; [|by split]. intros s'.
  apply (@turn_without_tools_ends _ _ _ _ _ (demo_agent_env demo_reply) (λ _, None) (λ _, []) (λ _, None) demo_st s' 30).
  - intros request w. by split.
  - lia.
Defined.
