(* ===== verification/AgentShown.v ===== *)
(** * What the client of a turn is shown

    The text of a response while it arrives: a response may hide a tool call in
    its text, which the client must not see.  The search for such a call looks
    at the end of the text only; it finds what a search of the whole text
    finds. *)

From stdpp Require Import base list strings gmap pretty.
From S2P Require Import Prelude RustString RustText Float32 Mention ToolFs Compaction CompactionClaims Manager ManagerClaims ModelId Failover OpenAiRequest Message Session OpenAiStreamClaims Agent AgentTurn AgentFacts AgentClaims.

Open Scope string_scope.
Open Scope nat_scope.
Open Scope list_scope.

(** ** The first marker *)

(** A marker starts at [i]. *)
Definition at_marker (s : string) (i : nat) : bool := existsb (λ m, starts_with m (str_drop i s)) WRAP_TOOL_MARKERS.

Lemma find_least pat s i : str_find pat s = Some i →
  starts_with pat (str_drop i s) = true ∧ ∀ j, j < i → starts_with pat (str_drop j s) = false.
Proof.
  revert i. induction s as [|c s IH]; intros i; cbn [str_find].
  - destruct (starts_with pat "") eqn:Hs; [|done]. intros [= <-]. split; [done|lia].
  - destruct (starts_with pat (String c s)) eqn:Hs; [intros [= <-]; split; [done|lia]|].
    destruct (str_find pat s) as [n|]; [|done]. intros [= <-]. destruct (IH n eq_refl) as [H1 H2]. split; [done|].
    intros [|j] Hj; [done|]. apply H2. lia.
Qed.
Lemma find_nowhere pat s : pat ≠ "" → str_find pat s = None → ∀ j, starts_with pat (str_drop j s) = false.
Proof.
  intros Hp. induction s as [|c s IH]; cbn [str_find].
  - intros _ j. destruct pat; [done|]. by destruct j.
  - destruct (starts_with pat (String c s)) eqn:Hs; [done|]. destruct (str_find pat s); [done|]. intros _ [|j]; [done|]. by apply IH.
Qed.

(** [first_marker] is the least position with a marker. *)
Lemma first_marker_some s i : first_marker s = Some i ↔ at_marker s i = true ∧ ∀ j, j < i → at_marker s j = false.
Proof.
  unfold first_marker, at_marker, WRAP_TOOL_MARKERS. cbn [foldr existsb].
  set (p := "to=functions."). set (q := "+#+#"). assert (p ≠ "" ∧ q ≠ "") as [Hp Hq] by done. clearbody p q.
  assert (∀ i, (∀ j, j < i → starts_with p (str_drop j s) || (starts_with q (str_drop j s) || false) = false) ↔
    (∀ j, j < i → starts_with p (str_drop j s) = false) ∧ (∀ j, j < i → starts_with q (str_drop j s) = false)) as Hall.
  { intros k. split; [intros H; split; intros j Hj; specialize (H j Hj); by apply orb_false_iff in H as [? [??]%orb_false_iff]|].
    intros [H1 H2] j Hj. by rewrite H1, H2. }
  rewrite Hall. clear Hall. rewrite !orb_true_iff.
  destruct (str_find p s) as [a|] eqn:Ha; [apply find_least in Ha as [Ha1 Ha2]|pose proof (find_nowhere _ _ Hp Ha) as Ha'];
  (destruct (str_find q s) as [b|] eqn:Hb; [apply find_least in Hb as [Hb1 Hb2]|pose proof (find_nowhere _ _ Hq Hb) as Hb']).
  - split.
    + intros [= <-]. split.
      * destruct (Nat.min_spec a b) as [[_ ->]|[_ ->]]; auto.
      * split; intros j Hj; [apply Ha2|apply Hb2]; lia.
    + intros [H1 [H2 H3]]. f_equal.
      assert (i ≤ a) by (destruct (decide (i ≤ a)); [done|]; rewrite H2 in Ha1 by lia; done).
      assert (i ≤ b) by (destruct (decide (i ≤ b)); [done|]; rewrite H3 in Hb1 by lia; done).
      destruct H1 as [H1|[H1|]]; [| |done].
      * assert (a ≤ i) by (destruct (decide (a ≤ i)); [done|]; rewrite Ha2 in H1 by lia; done). lia.
      * assert (b ≤ i) by (destruct (decide (b ≤ i)); [done|]; rewrite Hb2 in H1 by lia; done). lia.
  - split.
    + intros [= <-]. auto.
    + intros [[H1|[H1|]] [H2 _]]; [|by rewrite Hb' in H1|done]. f_equal.
      destruct (Nat.lt_trichotomy a i) as [?|[?|?]]; [rewrite H2 in Ha1 by lia; done|lia|rewrite Ha2 in H1 by lia; done].
  - split.
    + intros [= <-]. auto.
    + intros [[H1|[H1|]] [_ H2]]; [by rewrite Ha' in H1| |done]. f_equal.
      destruct (Nat.lt_trichotomy b i) as [?|[?|?]]; [rewrite H2 in Hb1 by lia; done|lia|rewrite Hb2 in H1 by lia; done].
  - split; [done|]. intros [[H1|[H1|]] _]; [by rewrite Ha' in H1|by rewrite Hb' in H1|done].
Qed.
Lemma first_marker_none s : first_marker s = None ↔ ∀ j, at_marker s j = false.
Proof.
  split.
  - unfold first_marker, at_marker, WRAP_TOOL_MARKERS. cbn [foldr existsb]. intros H j.
    destruct (str_find "to=functions." s) eqn:Ha; [by destruct (str_find "+#+#" s)|].
    destruct (str_find "+#+#" s) eqn:Hb; [done|]. by rewrite !find_nowhere.
  - intros H. destruct (first_marker s) as [i|] eqn:Hf; [|done]. apply first_marker_some in Hf as [Hf _]. by rewrite H in Hf.
Qed.

Lemma marker_length m : m ∈ WRAP_TOOL_MARKERS → String.length m ≤ 13.
Proof. intros Hm. repeat (apply elem_of_cons in Hm as [->|Hm]; [simpl; lia|]). by apply elem_of_nil in Hm. Qed.

Lemma existsb_eq {A} (f g : A → bool) l : (∀ x, x ∈ l → f x = g x) → existsb f l = existsb g l.
Proof.
  induction l as [|x l IH]; intros H; simpl; [done|]. rewrite H by left. by rewrite IH by (intros; apply H; by right).
Qed.

(** Whether a marker starts at [i] is settled by the next 13 bytes. *)
Lemma at_marker_append a b i : i + 13 ≤ String.length a → at_marker (a +:+ b) i = at_marker a i.
Proof.
  intros Hi. unfold at_marker. apply existsb_eq. intros m Hm. rewrite str_drop_app_le by lia.
  apply starts_with_append_le. rewrite length_str_drop. apply marker_length in Hm. lia.
Qed.
Lemma at_marker_drop s n i : at_marker (str_drop n s) i = at_marker s (n + i).
Proof. unfold at_marker. by rewrite str_drop_add. Qed.
Lemma at_marker_grows a b i : at_marker a i = true → at_marker (a +:+ b) i = true.
Proof.
  unfold at_marker. rewrite !existsb_exists. intros (m & Hm & Hs). exists m. split; [done|].
  assert (String.length m ≤ String.length (str_drop i a) ∧ i ≤ String.length a) as [Hl Hi].
  { pose proof Hs as [post Hp]%starts_with_spec. pose proof (f_equal String.length Hp) as Hp'.
    rewrite length_append_s in Hp'. rewrite length_str_drop in *. assert (1 ≤ String.length m); [|lia].
    apply list_elem_of_In in Hm. repeat (apply elem_of_cons in Hm as [->|Hm]; [simpl; lia|]). by apply elem_of_nil in Hm. }
  rewrite str_drop_app_le by done. by rewrite starts_with_append_le.
Qed.

Lemma floor_char_boundary_le s n : floor_char_boundary s n ≤ n ∨ String.length s ≤ n.
Proof.
  unfold floor_char_boundary. destruct (Nat.leb_spec (String.length s) n); [by right|]. left. apply floor_boundary_spec.
Qed.

(** The search at the end finds the first marker of the whole text, when the
    text before had none. *)
Lemma incremental_finds_first old delta : first_marker old = None →
  find_wrap_marker_incremental (old +:+ delta) (String.length delta) = first_marker (old +:+ delta).
Proof.
  intros Hold. rewrite first_marker_none in Hold. unfold find_wrap_marker_incremental.
  change (foldr Nat.max 0 (String.length <$> WRAP_TOOL_MARKERS) - 1) with 12. cbv zeta.
  set (k := floor_char_boundary _ _).
  assert (∀ j, j < k → at_marker (old +:+ delta) j = false) as Hk.
  { intros j Hj. rewrite at_marker_append; [apply Hold|]. unfold k in Hj.
    destruct (floor_char_boundary_le (old +:+ delta) (String.length (old +:+ delta) - (String.length delta + 12))) as [H|H];
      rewrite length_append_s in *; [lia|].
    unfold floor_char_boundary in Hj. rewrite length_append_s in Hj. destruct (Nat.leb_spec (String.length old + String.length delta)
      (String.length old + String.length delta - (String.length delta + 12))); [|lia]. lia. }
  symmetry. destruct (first_marker (str_drop k (old +:+ delta))) as [r|] eqn:Hr; simpl.
  - apply first_marker_some in Hr as [H1 H2]. rewrite at_marker_drop in H1. apply first_marker_some. split; [done|].
    intros j Hj. destruct (decide (j < k)) as [|Hn]; [by apply Hk|].
    specialize (H2 (j - k)). rewrite at_marker_drop in H2. replace (k + (j - k)) with j in H2 by lia. apply H2. lia.
  - apply first_marker_none. intros j. destruct (decide (j < k)) as [|Hn]; [by apply Hk|].
    rewrite first_marker_none in Hr. specialize (Hr (j - k)). rewrite at_marker_drop in Hr. by replace (k + (j - k)) with j in Hr by lia.
Qed.

(** No marker starts inside another one. *)
Lemma marker_inside d : 0 < d → d + 4 ≤ 13 → starts_with "+#+#" (str_drop d "to=functions.") = false.
Proof. intros H1 H2. do 10 (destruct d as [|d]; [try lia; done|]). lia. Qed.

Lemma at_marker_settled t u i j : at_marker t i = true → j < i → at_marker t j = false → at_marker (t +:+ u) j = false.
Proof.
  intros Hi Hj Htj. apply not_true_is_false. intros Hc. unfold at_marker in *. rewrite existsb_exists in Hi, Hc.
  destruct Hi as (m & Hm & Hi). destruct Hc as (m' & Hm' & Hc).
  assert (String.length m + i ≤ String.length t) as Hlm.
  { apply starts_with_spec in Hi as [post Hp]. pose proof (f_equal String.length Hp) as Hl. rewrite length_append_s, length_str_drop in Hl.
    assert (1 ≤ String.length m); [|lia].
    apply list_elem_of_In in Hm. repeat (apply elem_of_cons in Hm as [->|Hm]; [simpl; lia|]). by apply elem_of_nil in Hm. }
  destruct (decide (j + String.length m' ≤ String.length t)) as [Hl|Hl].
  { rewrite str_drop_app_le, starts_with_append_le in Hc by (rewrite ?length_str_drop; lia).
    assert (existsb (λ m, starts_with m (str_drop j t)) WRAP_TOOL_MARKERS = true); [|congruence]. apply existsb_exists. eauto. }
  assert (m = "+#+#" ∧ m' = "to=functions.") as [-> ->].
  { destruct Hm as [<-|[<-|[]]], Hm' as [<-|[<-|[]]]; simpl in *; try done; lia. }
  apply starts_with_spec in Hc as [post Hc].
  assert (starts_with "+#+#" (str_drop i (t +:+ u)) = true) as Hi'.
  { rewrite str_drop_app_le by lia. rewrite starts_with_append_le; [done|]. rewrite length_str_drop. simpl in *. lia. }
  replace i with (j + (i - j)) in Hi' by lia. rewrite str_drop_add, Hc in Hi'.
  change (String.length "+#+#") with 4 in Hlm. change (String.length "to=functions.") with 13 in Hl.
  rewrite str_drop_app_le in Hi' by (change (String.length "to=functions.") with 13; lia).
  rewrite starts_with_append_le in Hi' by (rewrite length_str_drop; change (String.length "to=functions.") with 13;
    change (String.length "+#+#") with 4; lia).
  by rewrite marker_inside in Hi' by lia.
Qed.

(** Later text does not move the first marker. *)
Lemma first_marker_stays t u i : first_marker t = Some i → first_marker (t +:+ u) = Some i.
Proof.
  rewrite !first_marker_some. intros [Hi Hb]. split; [by apply at_marker_grows|]. intros j Hj.
  apply (at_marker_settled t u i); auto.
Qed.

(** ** The client *)

(** What a user may see of a text. *)
Definition display (t : string) : string :=
  match first_marker t with Some i => trim_end (str_take i t) | None => t end.

Lemma display_stays t u i : first_marker t = Some i → display (t +:+ u) = display t.
Proof.
  intros H. unfold display. rewrite H, (first_marker_stays t u i H). f_equal. apply take_append_le.
  apply first_marker_some in H as [H _]. unfold at_marker in H. apply existsb_exists in H as (m & Hm & H).
  apply starts_with_spec in H as [post Hp]. pose proof (f_equal String.length Hp) as Hl.
  rewrite length_append_s, length_str_drop in Hl. destruct Hm as [<-|[<-|[]]]; simpl in Hl; lia.
Qed.

Section Shown.
Context {J : Json} {T : Chrono} {E : Embedder} {U : Unicode} {W : Type} {env : AgentEnv W}.
Context (to_vec : Message → option (list N)) (debug : Message → list N).

#[local] Notation M := (@M J T W).
#[local] Notation St := (@St J T W).

(** The text a client has after some events of a response. *)
Definition show (text : string) (event : TurnEvent) : string :=
  match event with
  | SentText t => text +:+ t
  | SentTextReplace t => t
  | SentRetryRollback _ _ => ""
  | _ => text
  end.
Definition shown (events : list TurnEvent) : string := fold_left show events "".

Lemma shown_after events e : shown (events ++ [e]) = show (shown events) e.
Proof using Type. unfold shown. by rewrite fold_left_app. Qed.

(** The client has what it may see of [r]; [base] was sent before. *)
Definition tells (base : list TurnEvent) (r : Response) (s : St) : Prop :=
  ∃ new, st_sent s = base ++ new ∧ shown new = display (rp_text r)
    ∧ rp_wrapped r = bool_decide (is_Some (first_marker (rp_text r))).

(** ** Rules *)

Definition holds {A} (P : St → Prop) (m : M A) (Q : A → St → Prop) : Prop :=
  ∀ s, P s → match m s with Done x s' => Q x s' | _ => True end.
Definition sends_nothing {A} (m : M A) : Prop := ∀ s, st_sent (end_of (m s)) = st_sent s.

Lemma holds_bind {A B} P (m : M A) Q (k : A → M B) R : holds P m Q → (∀ x, holds (Q x) (k x) R) → holds P (m_bind m k) R.
Proof using Type.
  intros Hm Hk s Hs. specialize (Hm s Hs). unfold m_bind. destruct (m s) as [x s'| | |]; try done. by apply Hk.
Qed.
Lemma holds_ret {A} (P : St → Prop) (Q : A → St → Prop) x : (∀ s, P s → Q x s) → holds P (m_ret x) Q.
Proof using Type. intros H s. apply H. Qed.
Lemma holds_quiet {A} base r (m : M A) : sends_nothing m → holds (tells base r) m (λ _, tells base r).
Proof using Type.
  intros Hm s (new & Hs & H). specialize (Hm s). destruct (m s) as [x s'| | |]; try done. simpl in Hm. exists new. by rewrite Hm.
Qed.
Lemma holds_send base r e r' :
  (∀ t, show t e = t) → rp_text r' = rp_text r → rp_wrapped r' = rp_wrapped r →
  holds (tells base r) (send e) (λ _, tells base r').
Proof using Type.
  intros He Ht Hw s (new & Hs & H1 & H2). exists (new ++ [e]). simpl. rewrite Hs, shown_after, He, Ht, Hw, <- app_assoc. done.
Qed.
Lemma tells_eq base r r' s : rp_text r' = rp_text r → rp_wrapped r' = rp_wrapped r → tells base r s → tells base r' s.
Proof using Type. unfold tells. by intros -> ->. Qed.

Lemma nothing_ret {A} (x : A) : sends_nothing (m_ret x).
Proof using Type. done. Qed.
Lemma nothing_bind {A B} (m : M A) (k : A → M B) : sends_nothing m → (∀ x, sends_nothing (k x)) → sends_nothing (m_bind m k).
Proof using Type.
  intros Hm Hk s. unfold m_bind. specialize (Hm s). destruct (m s) as [x s'| | |]; simpl in *; [by rewrite Hk|exact Hm..].
Qed.
Lemma nothing_ask {A} (f : W → A * W) : sends_nothing (ask f).
Proof using Type. intros s. unfold ask. by destruct (f _). Qed.
Lemma nothing_gets {A} (f : Agent → A) : sends_nothing (gets f).
Proof using Type. intros s. reflexivity. Qed.
Lemma nothing_modify f : sends_nothing (modify f).
Proof using Type. intros s. reflexivity. Qed.
Lemma nothing_provider : sends_nothing provider.
Proof using Type. done. Qed.
Hint Resolve nothing_ret nothing_ask nothing_gets nothing_modify nothing_provider : core.
Ltac sends_nothing :=
  repeat first [done|apply nothing_bind; [|intros ?]|apply nothing_ask|apply nothing_modify|apply nothing_provider
               |apply nothing_gets|apply nothing_ret|case_match].

Lemma nothing_usage i o cr cc r : sends_nothing (usage_event i o cr cc r).
Proof using Type. unfold usage_event, update_compaction_usage_from_stream, put_manager. sends_nothing. Qed.
Lemma nothing_image path mp f p r : sends_nothing (image_event path mp f p r).
Proof using Type. unfold image_event. sends_nothing. Qed.
Lemma nothing_compaction encrypted r : sends_nothing (compaction_event encrypted r).
Proof using env. unfold compaction_event. sends_nothing. Qed.

(** ** Events *)

Lemma set_open_text b r : rp_text (rp_set_open b r) = rp_text r.
Proof using Type. by destruct r. Qed.
Lemma set_open_wrapped b r : rp_wrapped (rp_set_open b r) = rp_wrapped r.
Proof using Type. by destruct r. Qed.

(** An event that changes neither the text nor what is shown. *)
Lemma tells_close base r : holds (tells base r) (close_reasoning r)
  (λ r' s, tells base r' s ∧ rp_text r' = rp_text r ∧ rp_wrapped r' = rp_wrapped r).
Proof using Type.
  unfold close_reasoning. destruct (rp_reasoning_open r).
  - eapply holds_bind; [apply (holds_send base r _ (rp_set_open false r)); [done|apply set_open_text|apply set_open_wrapped]|].
    intros x. apply holds_ret. intros s H. by rewrite set_open_text, set_open_wrapped.
  - apply holds_ret. auto.
Qed.

(** A piece of text, shown or not. *)
Lemma tells_text base text r : holds (tells base r) (show_text text (rp_set_text (rp_text r +:+ text) r)) (tells base).
Proof using Type.
  intros s (new & Hs & H1 & H2). unfold show_text.
  assert (rp_wrapped (rp_set_text (rp_text r +:+ text) r) = rp_wrapped r) as -> by (by destruct r).
  assert (rp_text (rp_set_text (rp_text r +:+ text) r) = rp_text r +:+ text) as Ht by (by destruct r).
  rewrite H2. destruct (first_marker (rp_text r)) as [i|] eqn:Hm.
  - rewrite bool_decide_eq_true_2 by eauto. exists new. rewrite Ht, (display_stays _ _ _ Hm), (first_marker_stays _ _ _ Hm).
    split; [done|]. split; [done|]. destruct r. simpl in *. by rewrite H2.
  - rewrite bool_decide_eq_false_2 by (by intros [? ?]). rewrite Ht, incremental_finds_first by done.
    destruct (first_marker (rp_text r +:+ text)) as [i|] eqn:Hn.
    + exists (new ++ [SentTextReplace (trim_end (str_take i (rp_text r +:+ text)))]). simpl. rewrite Hs, <- app_assoc. split; [done|].
      rewrite shown_after. destruct r; simpl in *. unfold display. rewrite Hn. done.
    + exists (new ++ [SentText text]). simpl. rewrite Hs, <- app_assoc. split; [done|]. rewrite shown_after. simpl.
      rewrite Ht, H1. unfold display. rewrite Hm, Hn. split; [done|]. destruct r; simpl in *. by rewrite H2.
Qed.

(** At the end, possibly interrupted. *)
Definition told (base : list TurnEvent) (r : Response) (s : St) : Prop :=
  tells base r s
  ∨ ∃ text new, rp_text r = text +:+ INTERRUPTED_TEXT ∧ st_sent s = base ++ new ∧ shown new = display text +:+ INTERRUPTED_TEXT.
Definition flow_told (base : list TurnEvent) (flow : Flow) (s : St) : Prop :=
  match flow with Reading r => tells base r s | Stopped r => told base r s | RetryRequest _ => True end.

Lemma told_text base text r : holds (tells base r) (text_event text r) (flow_told base).
Proof using Type.
  unfold text_event. eapply (holds_bind _ _ (λ r' s, tells base r' s ∧ rp_text r' = rp_text r ∧ rp_wrapped r' = rp_wrapped r)).
  { destruct (str_is_empty (trim text)); [apply holds_ret; auto|apply tells_close]. }
  intros r'. intros s [Hs _]. revert s Hs. match goal with |- ∀ s, _ → match ?m s with _ => _ end => change (holds (tells base r') m (flow_told base)) end.
  eapply holds_bind; [apply tells_text|]. intros r2. eapply holds_bind; [apply holds_quiet, nothing_ask|]. intros [].
  - intros s (new & Hs & H1 & H2). simpl. right. exists (rp_text r2), (new ++ [SentText INTERRUPTED_TEXT]).
    split; [by destruct r2|]. split; [by rewrite Hs, <- app_assoc|]. by rewrite shown_after, <- H1.
  - by apply holds_ret.
Qed.

Lemma tells_returns base r (m : M Response) : sends_nothing m →
  (∀ s x s', m s = Done x s' → rp_text x = rp_text r ∧ rp_wrapped x = rp_wrapped r) → holds (tells base r) m (tells base).
Proof using Type.
  intros Hm Hr s H. pose proof (holds_quiet base r m Hm s H) as Hq. specialize (Hr s). destruct (m s) as [x s'| | |]; try done.
  destruct (Hr x s' eq_refl) as [H1 H2]. by eapply tells_eq.
Qed.
Lemma tells_usage base i o cr cc r : holds (tells base r) (usage_event i o cr cc r) (tells base).
Proof using Type.
  apply tells_returns; [apply nothing_usage|]. intros s x s'. unfold usage_event, note_usage.
  destruct (rp_usage r) as [[[ui uo] ucr] ucc]. set (r' := rp_set_usage _ r).
  assert (rp_text r' = rp_text r ∧ rp_wrapped r' = rp_wrapped r) as Hr by (by destruct r). clearbody r'.
  destruct (rp_usage r') as [[[ui' uo'] ucr'] ucc']. unfold m_bind.
  destruct ui' as [i'|]; [destruct (update_compaction_usage_from_stream _ _ _ s)|]; try done; unfold m_ret; by intros [= <- <-].
Qed.
Lemma tells_image base path mp f p r : holds (tells base r) (image_event path mp f p r) (tells base).
Proof using Type.
  apply tells_returns; [apply nothing_image|]. intros s x s'. unfold image_event, m_bind, provider, m_ret.
  repeat case_match; intros [= <- <-]; by destruct r.
Qed.
Lemma tells_compaction base encrypted r : holds (tells base r) (compaction_event encrypted r) (tells base).
Proof using env.
  apply tells_returns; [apply nothing_compaction|]. intros s x s'. unfold compaction_event, m_bind, gets, m_ret.
  repeat case_match; intros [= <- <-]; by destruct r.
Qed.

(** The rest of an event, when its text is not touched. *)
Ltac tell :=
  repeat match goal with
    | |- holds (tells ?base ?r) (m_bind (send ?e) _) _ =>
        apply (holds_bind _ _ (λ _, tells base r)); [by apply (holds_send base r e r)|intros ?]
    | |- holds (tells ?base ?r) (m_bind (m_bind _ _) _) _ =>
        apply (holds_bind _ _ (λ _, tells base r)); [apply holds_quiet; sends_nothing|intros ?]
    | |- holds (tells ?base ?r) (m_bind (modify _) _) _ =>
        apply (holds_bind _ _ (λ _, tells base r)); [by apply holds_quiet|intros ?]
    | |- holds (tells ?base ?r) (m_bind (ask _) _) _ =>
        apply (holds_bind _ _ (λ _, tells base r)); [apply holds_quiet, nothing_ask|intros ?]
    | |- holds (tells ?base ?r) (m_ret (Reading _)) _ =>
        apply holds_ret; intros ? H; eapply tells_eq; [| |exact H]; by destruct r
    end.

Lemma tells_thinking base text r : holds (tells base r) (thinking_event text r) (tells base).
Proof using Type.
  unfold thinking_event. eapply (holds_bind _ _ (tells base)).
  - destruct (_ && _); [|by apply holds_ret]. eapply (holds_bind _ _ (λ _, tells base r)); [by apply holds_send|]. intros _.
    apply holds_ret. intros s. apply tells_eq; [apply set_open_text|apply set_open_wrapped].
  - intros r'. apply holds_ret. intros s. apply tells_eq; by destruct r'.
Qed.
Lemma told_rollback base r attempt max : holds (tells base r) (send (SentRetryRollback attempt max))
  (λ _, tells base (rolled_back r)).
Proof using Type.
  intros s (new & Hs & _). exists (new ++ [SentRetryRollback attempt max]). simpl. rewrite Hs, <- app_assoc, shown_after. done.
Qed.
Lemma tells_then base r (m : M Response) k : holds (tells base r) m (tells base) →
  (∀ r', holds (tells base r') (k r') (flow_told base)) → holds (tells base r) (m_bind m k) (flow_told base).
Proof using Type. intros Hm Hk. by eapply holds_bind. Qed.
Lemma tells_closed base r : holds (tells base r) (close_reasoning r) (tells base).
Proof using Type.
  intros s Hs. pose proof (tells_close base r s Hs) as H. destruct (close_reasoning r s); try done. by destruct H.
Qed.
Lemma retried n message error base r : holds (tells base r) (retry_streamed to_vec debug n message error) (flow_told base).
Proof using Type.
  intros s _. unfold retry_streamed, m_bind. by destruct (retry_or_err _ _ _ _ _ s).
Qed.

Lemma told_event store n event base r : holds (tells base r) (stream_event_mpsc to_vec debug store n event r) (flow_told base).
Proof using Type.
  destruct event; cbn [stream_event_mpsc]; try (tell; done); try (unfold session_id_event, native_call_event; by tell).
  - apply told_text.
  - apply tells_then; [apply tells_closed|]. intros r'. tell.
  - destruct (rp_current r) as [tool|] eqn:Hc.
    + tell. unfold end_call. rewrite Hc. tell.
    + intros s H. unfold end_call. simpl. by rewrite Hc.
  - apply tells_then; [apply tells_image|]. intros r'. tell.
  - apply tells_then; [apply tells_thinking|]. intros r'. tell.
  - destruct store; tell.
  - destruct store; tell.
  - destruct (rp_reasoning_open r); tell.
  - apply tells_then; [apply tells_closed|]. intros r'. tell.
  - eapply (holds_bind _ _ (λ _, tells base (rolled_back r))); [apply told_rollback|]. intros x. tell.
  - apply tells_then; [apply tells_usage|]. intros r'. tell.
  - apply retried.
  - apply tells_then; [apply tells_compaction|]. intros r'. tell.
Qed.

Lemma told_read store n items base r : holds (tells base r) (read_stream_mpsc to_vec debug store n items r) (flow_told base).
Proof using Type.
  revert r. induction items as [|[event|e|] items IH]; intros r; cbn [read_stream_mpsc].
  - apply holds_ret. intros s H. by left.
  - eapply holds_bind; [apply told_event|]. intros [r'|r'|k]; [apply IH| |]; by apply holds_ret.
  - apply retried.
  - apply holds_ret. intros s H. by left.
Qed.
End Shown.

(** ** Claim *)

(** C21: The client sees the text up to a hidden call.  While a response arrives, in
    whatever pieces and with whatever retries, the text the client has at the end
    is the text of the response if it hides no tool call, and otherwise what is
    before the first marker of one, found by looking at the new pieces only; an
    interrupted response has the same and the note that it was interrupted. *)
Theorem client_sees_text_before_the_call {J : Json} {T : Chrono} {U : Unicode} {W : Type} {env : AgentEnv W}
    (to_vec : Message → option (list N)) (debug : Message → list N) (store : bool) (retries : nat) (items : list StreamItem)
    (s s' : @St J T W) (r : Response) :
  read_stream_mpsc to_vec debug store retries items response_new s = Done (Stopped r) s' →
  ∃ new, st_sent s' = st_sent s ++ new
    ∧ (shown new = display (rp_text r)
       ∨ ∃ text, rp_text r = text +:+ INTERRUPTED_TEXT ∧ shown new = display text +:+ INTERRUPTED_TEXT).
Proof.
  intros H. assert (tells (st_sent s) response_new s) as Hs by (exists []; by rewrite app_nil_r).
  pose proof (told_read to_vec debug store retries items (st_sent s) response_new s Hs) as Ht. rewrite H in Ht.
  destruct Ht as [(new & H1 & H2 & _)|(text & new & H1 & H2 & H3)]; eauto 10.
Qed.

#[local] Existing Instance demo_embedder.
#[local] Existing Instance demo_unicode.
Definition demo_hidden : list (@StreamItem text_json) :=
  [Arrives (TextDelta "Reading "); Arrives (TextDelta "the file to=fun"); Arrives (TextDelta "ctions.read {}")].
Lemma client_sees_text_before_the_call_witness :
  ∃ r s', @read_stream_mpsc _ _ _ _ (demo_agent_env []) (λ _, None) (λ _, []) false 0 demo_hidden response_new demo_st
            = Done (Stopped r) s'
    ∧ shown (st_sent s') = "Reading the file".
Proof.
  eexists _, _. split; [vm_compute; reflexivity|].
  edestruct (@client_sees_text_before_the_call _ _ _ _ (demo_agent_env []) (λ _, None) (λ _, []) false 0 demo_hidden demo_st)
    as (new & H1 & H2); [vm_compute; reflexivity|].
  destruct H2 as [H2|(text & H2 & _)].
  - change (st_sent demo_st ++ new) with new in H1. rewrite H1, H2. vm_compute. reflexivity.
  - exfalso. apply (f_equal String.length) in H2. rewrite length_append_s in H2.
    change (String.length INTERRUPTED_TEXT) with 50 in H2. assert (37 = String.length text + 50) by exact H2. lia.
Defined.
